(* ===== verification/_CoqProject ===== *)
-Q . S2P
Prelude.v
Base64url.v
Bytes.v
Canonical.v
Padding.v
HChaCha.v
Crypto.v
Content.v
Envelopes.v
Signatures.v
RotationRecords.v
ServerSignatures.v
Roster.v
Identity.v
SuccessionPath.v
Ledger.v
Pins.v
Chain.v
Acceptance.v
NextRoster.v
WriterTrust.v
Areas.v
DriveKeys.v
WriteKeys.v
WriteSteps.v
WriteDrops.v
WriteAreas.v
WriteSafety.v
WalkHolds.v
Tags.v
Mirror.v
JoinSession.v
GroupSession.v
GroupRuns.v
DriveTables.v
Pool.v
DriveUploads.v
DrivePurges.v
DriveAccounting.v
DriveAlike.v
DriveBalance.v
DriveReached.v
DriveCommits.v
DriveKept.v
DriveStores.v
DriveQuota.v
DriveTree.v
DriveForest.v
DriveGrows.v
DriveTrees.v
DriveTrash.v
DriveWhole.v
DriveRotations.v
DriveWork.v
DriveSharing.v
DriveQuiet.v
DriveGrants.v
