(* ===== verification/Prelude.v ===== *)
(** * HushOS: the client protocol and its rules, verified

    HushOS is an end-to-end encrypted drive. Every client (the web app's crypto
    worker here; the phone apps' Rust core is its twin) must decide, from what
    a server it does not trust serves, whose keys and records to believe, which
    keys its own writes go under, and what it keeps on the device. This library
    models those decisions as the TypeScript under packages/ makes them and
    proves what each of them guarantees.

    ** How the code is modelled

    A function that throws is a function into [res E A]: the thrown message, or
    [result A] where it is always a [CryptoError]'s. [refuse e when b ;; k] and
    [refuse e unless b ;; k] are the guards, [let* x := m in k] the calls that
    may throw. A [Map], [Record] or [Set] keyed by strings is a [gmap] or a
    [gset]; an array a [list]; a [Uint8Array] a string of bytes; a number the
    code keeps to safe integers a [Z] with its bounds written out, and the
    words of a [Uint32Array] a [Z] cut to 32 bits. A nonce or key drawn at
    random is an argument. Code the repository only calls is the class
    [Crypto.Crypto] (SHA-256, HKDF, Ed25519, ML-DSA-65, XChaCha20-Poly1305,
    key derivation, the word list), and [Crypto.CryptoLaws] the documented
    facts relied on (lengths, and opening what was sealed); [Crypto.Toy] is an
    instance of both, with which every witness computes. Nothing assumes a hash
    has no collisions: where it matters a theorem says what follows from equal
    digests.

    ** The parts, and where they are

    - Encodings. [Prelude] (errors, lists and their automation), [Base64url]
      (keys.ts, fingerprint.ts), [Bytes], [Canonical] (canonical.ts: the JSON
      arrays every signature is over, and the fields they are made of).
    - Drive's sealed data. [Padding] (padding.ts), [HChaCha], [Content]
      (drive.ts: chunks, ranges, thumbnails), [Envelopes] (drive.ts, aead.ts:
      node keys, metadata, versions, origins), [Crypto] (pq.ts and the hybrid
      checks). Theorems: an object sealed chunk by chunk reads back through the
      ranges a reader fetches, no two parts share a nonce, contexts never
      coincide, the origin's derived key opens what the node key does, and the
      padding's bounds.
    - Who wrote a record. [Signatures] (signatures.ts: every statement, the
      verdict on a record and on a re-keyed one, what may be signed again),
      [RotationRecords] (rotation-records.ts: a family node's records sealed
      again under a new key), [Identity] and [SuccessionPath] (identity.ts,
      succession-path.ts: following a person's keys). Theorems: no two
      statements share bytes, a verdict is exactly what it means, a rotation
      changes no reader's mind about a writer, a pin is followed to the served
      keys exactly along one verified line, in whatever order links come.
    - Families. [Roster] (groups.ts: the signed statements of a family),
      [Ledger] (group-trust.ts, area-keys.ts: what a chain lists of its
      folders' keys), [Chain] and [Acceptance] (group-trust.ts: one pass along
      a served chain, and everything around it), [NextRoster] (the roster a
      holder makes next), [WriterTrust] (whose key a writer in a family folder
      is checked under), [Pins] (pins.ts, first-seen.ts, contacts.ts: what a
      device remembers). [Chain.chain_step] is the specification of a chain a
      reader may believe; acceptance refines it. Theorems: what is accepted is
      such a chain and keeps every mark the person holds, what [nextRoster]
      makes is accepted, retired and re-keyed folders stay so, pins never lose
      ground when merged, and verdicts fail closed.
    - The crypto worker's keys. [Areas] and [DriveKeys] (area-ledger.ts, ids.ts,
      every operation of [createAreaLedger]), with the proofs in [WriteKeys],
      [WriteSteps], [WriteDrops], [WriteAreas] and [WriteSafety]. Keys are
      buffers of a store, since the code shares and zeroes them. Theorems: any
      key a write into a family folder goes under is reached, node by node, by
      an envelope served for that node under that parent at those epochs or a
      key drawn for it ([WriteKeys.rooted]), from the root under the area key a
      member list of the family lists at the version written under; a lock
      zeroes every key held; a family's committed list never goes back.
    - Several tabs and devices. [WalkHolds] (walk-holds.ts: a rotation's batch
      and a write excluding each other), [Tags] (tags.ts and [saveTags]: a
      three-way merge under optimistic saves), [Mirror] (mirror.ts, [pullFeed]
      of client.ts, [listChanges] of db/drive.ts: the tree kept on the device,
      fed by every tab). Each is a relation of steps between awaits, and the
      theorems hold of every interleaving: holds never overlap and none waits
      for good, a save moves only the items this device moved and leaves whole
      every tag it did not change (one it did becomes wholly its own:
      [Tags.rename_undoes_recolour]), and the mirror's cursor never claims what
      the mirror does not hold.

    - A family's session in the worker. [JoinSession] (join-session.ts,
      join-check.ts: the join code's words shown, hidden, checked, escalated,
      kept and restored), [GroupSession] (session-groups.ts, settings-marks.ts:
      an acceptance begun, marked, verified, committed and its guard worked
      out, and what a lock, a wipe and opened settings do), [GroupRuns] (any
      number of acceptances interleaved with all of that, an await at a time).
      Theorems: a code typed as compared was shown with its positions hidden;
      a commit leaves only what was verified, and no acceptance that was
      waiting when its session or family ended commits anything.
    - The Drive server. [DriveTables] (db/drive.ts, membership.ts, schema/:
      the rows, the walk to the root, storage, what retires an object),
      [Pool] (pool.ts, pool-count.ts: what a workspace may still take),
      [DriveUploads] and [DrivePurges] (db/drive.ts: the transactions that move
      bytes, each in full). [DriveAccounting], [DriveAlike] and [DriveBalance]
      break every transaction into a few kinds of write ([DriveBalance.prim]),
      and [DriveReached] runs them ([Request], [step]): after any run of
      requests that fit ([DriveReached.fitting]: the code lets a begin name
      what it should not, and [unfit_begin_leaks] and [unfit_publish_leaks]
      compute what that leaves), used and reserved bytes are exactly what the
      versions and uploads add up to. [DriveCommits]: nothing is lost to the constraint on
      them, and an abort gives back what was reserved. [DriveStores] adds the
      object stores and the worker's jobs (drive/jobs.ts), over what
      [DriveKept] keeps: a published file's bytes stay in the primary, and a
      purged object's in the replica for thirty days by the clock its turns
      carry. [DriveQuota]: a begun upload fits its allowance, and what is free
      tells of the others' bytes only in which GiB they lie.
    - The Drive server's tree. [DriveTree] (db/drive.ts: folders made, renamed,
      moved, trashed, removed and restored, singly and in batches).
      [DriveForest] is what a tree is: paths of folders from a root, folders
      and whatever a transaction makes or hangs elsewhere within the depth
      allowed (a file carried down while it is uploaded one further, which
      [DriveTrees.file_past_depth] computes), and height bounds above what they
      bound. [DriveGrows]
      shows it of each transaction that moves bytes, [DriveTrees] of those
      that shape the tree and of any run of both: no move makes a cycle and no
      walk is cut short. [DriveTrash]: a batch restores exactly what may come
      back, and Undo puts back what a selection moved. [DriveWhole] puts the
      accounts and the tree in one run of every transaction.
    - The Drive server's rotations. [ServerSignatures] (db/signatures.ts,
      [checkRotatedRecord] of db/rotations.ts: a record's statements built a
      second time, and what a rotation may write over it), [DriveRotations]
      (db/rotations.ts: a folder's rotation started, listed, applied node by
      node and finished) and its theorems in [DriveWork]. What the clients'
      half of a rotation ([RotationRecords]) sends is taken, and keeps every
      record's writer; a node is rotated whole or not at all; a batch takes off
      the list what it rotated and puts nothing on it, a member's client that
      answers the list while no one else writes empties it, and what finishes
      has left nothing behind that its queries reach.
    - The Drive server's grants. [DriveSharing] (db/drive.ts: shares and links
      made, sealed again, changed, stopped and resolved, and who may read or
      write a node, a version or an upload). [DriveQuiet]: the other
      transactions leave keys and grants alone. [DriveGrants]: in any run of
      all of them with rotations every live grant is sealed under its node's
      key as it is, a rotation starts above every epoch in use with every node
      its queries reach on its list, and one that finishes leaves whoever lost
      a share before it with an envelope for none of its nodes' keys.

    ** Interfaces

    [Crypto] and [CryptoLaws], and [RotationRecords.Signing] and its laws, are
    what every client of the primitives is proved against; the server's
    transactions take [DriveTables.SignedBy], the check of a signature under
    the account's key. A chain that was
    accepted is the type [Acceptance.Body.t], which is what accepted.ts makes
    of an object at run time: a definition that takes one is code that calls
    [requireAccepted] first.

    ** Bounds and fuel

    Loops that end by counting take fuel, always shown enough: the successions
    taken between two rosters are at most one for each key they replace, and
    a loop stopped by its fuel would answer [Chain.Unfinished], which it never
    does ([Acceptance.pass_settles]); the walk along a member's links stops at
    [MAX_SUCCESSION_LINKS]; decimal printing and Padmé rounding recurse on the
    digits; [Mirror.dropBelow_exact] bounds the sweep's queue by the nodes
    named and the rows held; the join code's hidden positions are drawn until
    they differ, which takes one more byte for each already drawn. A node's
    walk to the root stops at [DriveTables.WALK_CAP] rows, as its query does.
    A rotation's queries stop [DriveRotations.SUBTREE_LEVELS] levels down, which
    reach every folder of a forest ([DriveWork.finished_rekeyed]), but not a
    file one level further ([DriveWork.deeper_never_listed]); its client's loop
    is given as many turns as its list has nodes ([DriveWork.rotation_drains]).
    [area-ledger.ts] awaits between reading and
    writing its state: its definitions take [others], what the worker's other
    tasks do meanwhile, and the theorems of [WriteSafety] are about the session
    as session.ts runs it, whose [handle] queues one operation after another.

    ** What is not modelled

    - The sealed boxes of groups.ts, sealing.ts, shares.ts and links.ts, the
      personal branch of rotation-records.ts and the JSON objects of settings
      (rollback-marks.ts) and of tag documents: their contents are parsed
      objects of schemas outside this model.
    - session.ts, which queues and routes the worker's calls, and of
      session-groups.ts a join's admission and how a family's changes are
      staged; the caches of verified links and signatures, which only repeat
      an answer.
    - Of db/drive.ts what only reads (listings, feeds, downloads) but for
      access and the lists of grants, whose order, and a link's count of
      visits, are left out. What writes grants is to the accounts rows that
      stay [alike], to the tree rows that stay where they hang, as a rotation's
      are. Of a rotation the keys' own envelopes and what its list joins to each
      node; its list is all its pages, and [currentSigningKey] a parameter. A batch's
      time limits, which only throw. The share events a move writes are its
      answer ([DriveTree.share_events]), not a table.
      Each transaction is one step, since all take their workspace's row
      first; creation times, and the order a job lists rows in, are not kept.
      The envelopes a row carries are the clients', checked when written.
    - The other databases (accounts, groups), HTTP routes, billing, e-mail,
      other jobs and the user interface: SQL and framework calls around the
      rules above. The tombstones the change feed drops after a time are kept
      for good in [Mirror].
    - The Rust, Kotlin and Swift twins, tests, fixtures and generated code. *)

From stdpp Require Export base gmap sets list sorting strings.
From Stdlib Require Export Ascii ZArith Lia.

#[global] Open Scope Z_scope.
#[export] Set Warnings "-clear-no-such-hyp".

(** ** Fallible code

    The source throws: [CryptoError] with a message nearly everywhere, other
    error values in a few places. A function that throws is a function into
    [res E A]; [result A] is the common case, where the error is the thrown
    message. *)

Inductive res (E A : Type) : Type :=
  | Ok (a : A)
  | Err (e : E).
Arguments Ok {E A} a.
Arguments Err {E A} e.

Abbreviation result := (res string).

#[export] Instance res_ret {E} : MRet (res E) := λ A a, Ok a.
#[export] Instance res_bind {E} : MBind (res E) :=
  λ A B f m, match m with Ok a => f a | Err e => Err e end.
#[export] Instance res_fmap {E} : FMap (res E) :=
  λ A B f m, match m with Ok a => Ok (f a) | Err e => Err e end.

#[export] Instance res_eq_dec {E A} `{EqDecision E, EqDecision A} : EqDecision (res E A).
Proof. solve_decision. Defined.

(** [try { ... } catch { throw e }]: every refusal becomes [e]. *)
Definition recast {E F A} (e : F) (m : res E A) : res F A :=
  match m with Ok a => Ok a | Err _ => Err e end.

(** The value, or nothing: [try { ... } catch { return null }]. *)
Definition to_option {E A} (m : res E A) : option A :=
  match m with Ok a => Some a | Err _ => None end.

Definition is_ok {E A} (m : res E A) : bool :=
  match m with Ok _ => true | Err _ => false end.

(** The notations of the development, in a scope of its own. *)
Declare Scope hush_scope.
Delimit Scope hush_scope with hush.
#[global] Open Scope hush_scope.

Notation "'let*' x ':=' c 'in' k" := (mbind (M := res _) (λ x, k) c)
  (at level 10, x pattern, c at level 100, k at level 200) : hush_scope.
(** [if (b) throw e;] *)
Notation "'refuse' e 'when' b ';;' k" := (if b then Err e else k)
  (at level 10, e at level 100, b at level 99, k at level 200) : hush_scope.
(** [if (!b) throw e;] *)
Notation "'refuse' e 'unless' b ';;' k" := (if b then k else Err e)
  (at level 10, e at level 100, b at level 99, k at level 200) : hush_scope.

Section res_lemmas.
Context {E A B : Type}.

Lemma bind_ok (f : A → res E B) m b : m ≫= f = Ok b ↔ ∃ a, m = Ok a ∧ f a = Ok b.
Proof.
  destruct m; simpl; [|split; [done|by intros (? & ? & ?)]].
  split; [by eauto|]. by intros (? & [= <-] & ?).
Qed.

Lemma recast_ok {F} (e : F) (m : res E A) a : recast e m = Ok a ↔ m = Ok a.
Proof. destruct m; simpl; split; by intros [= <-]. Qed.

Lemma is_ok_true (m : res E A) : is_ok m = true ↔ ∃ a, m = Ok a.
Proof. destruct m; simpl; split; try done; [by eauto|by intros [? ?]]. Qed.

Lemma mapM_ok (f : A → res E B) l k : mapM f l = Ok k ↔ Forall2 (λ x y, f x = Ok y) l k.
Proof.
  split.
  - revert k; induction l as [|x l IH]; intros k; simpl; [by intros [= <-]; constructor|].
    destruct (f x) eqn:Hx; simpl; [|done].
    destruct (mapM f l) eqn:Hl; simpl; [|done]. intros [= <-]. constructor; auto.
  - induction 1 as [|x y l k Hx _ IH]; simpl; [done|]. by rewrite Hx, IH.
Qed.

End res_lemmas.

Section mapM_lemmas.
Context {E A : Type}.

Lemma mapM_ok_id (f : A → res E A) l k :
  (∀ x y, f x = Ok y → y = x) → mapM f l = Ok k → k = l.
Proof.
  intros Hf Hl%mapM_ok. induction Hl as [|x y l k Hx _ IH]; [done|].
  by rewrite (Hf _ _ Hx), IH.
Qed.

Lemma mapM_ok_Forall (f : A → res E A) l :
  Forall (λ x, f x = Ok x) l → mapM f l = Ok l.
Proof. intros Hl. apply mapM_ok. induction Hl; constructor; auto. Qed.
End mapM_lemmas.

(** Inverts every [Ok] hypothesis along the binds and refusals it went through. *)
Ltac res_step :=
  match goal with
  | H : Err _ = Ok _ |- _ => discriminate H
  | H : Ok _ = Err _ |- _ => discriminate H
  | H : Ok _ = Ok _ |- _ => injection H as H; try subst
  | H : (if ?b then Err _ else _) = Ok _ |- _ => destruct b eqn:?; [discriminate H|]
  | H : (if ?b then _ else Err _) = Ok _ |- _ => destruct b eqn:?; [|discriminate H]
  | H : (if ?b then Err _ else _) = Ok _ |- _ => destruct b; [discriminate H|]
  | H : (if ?b then _ else Err _) = Ok _ |- _ => destruct b; [|discriminate H]
  | H : _ ≫= _ = Ok _ |- _ =>
      let x := fresh "v" in let Hx := fresh "Hv" in
      apply bind_ok in H as (x & Hx & H)
  | H : recast _ _ = Ok _ |- _ => apply recast_ok in H
  end.
Ltac res_inv := repeat res_step.

(** Passes the refusal at the head of [H], keeping its condition as [E]. *)
Ltac not_refused H E :=
  match type of H with
  | (if ?b then Err _ else _) = Ok _ => destruct b eqn:E; [discriminate H|]
  | (if ?b then _ else Err _) = Ok _ => destruct b eqn:E; [|discriminate H]
  end.

(** ** Booleans and strings *)

Ltac bool_simpl :=
  repeat match goal with
  | H : _ && _ = true |- _ => apply andb_true_iff in H as [? ?]
  | H : _ || _ = false |- _ => apply orb_false_iff in H as [? ?]
  | H : negb _ = true |- _ => apply negb_true_iff in H
  | H : negb _ = false |- _ => apply negb_false_iff in H
  | H : bool_decide _ = true |- _ => apply bool_decide_eq_true in H
  | H : bool_decide _ = false |- _ => apply bool_decide_eq_false in H
  | H : (_ =? _)%Z = true |- _ => apply Z.eqb_eq in H
  | H : (_ =? _)%Z = false |- _ => apply Z.eqb_neq in H
  | H : (_ <=? _)%Z = true |- _ => apply Z.leb_le in H
  | H : (_ <=? _)%Z = false |- _ => apply Z.leb_gt in H
  | H : (_ <? _)%Z = true |- _ => apply Z.ltb_lt in H
  | H : (_ <? _)%Z = false |- _ => apply Z.ltb_ge in H
  end.

(** [===] on values with decidable equality. *)
Notation "x === y" := (bool_decide (x = y)) (at level 70, no associativity) : hush_scope.
Notation "x !== y" := (negb (bool_decide (x = y))) (at level 70, no associativity) : hush_scope.

(** JavaScript's [<] on strings. The model's strings are lists of 8-bit
    characters; every string the source orders is ASCII, where UTF-16 order
    and byte order are one. *)
Definition str_ltb (a b : string) : bool := String.ltb a b.

Lemma str_ltb_spec a b : str_ltb a b = true ↔ String.le a b ∧ a ≠ b.
Proof.
  unfold str_ltb, String.ltb, String.le, String.leb. split.
  - destruct (String.compare a b) eqn:E; try done. intros _. split; [done|]. intros ->.
    pose proof (String.compare_antisym b b) as H. rewrite E in H. discriminate H.
  - intros [H Hne]. destruct (String.compare a b) eqn:E; try done.
    by apply String.compare_eq_iff in E.
Qed.
Lemma str_ltb_irrefl a : str_ltb a a = false.
Proof. apply not_true_iff_false. rewrite str_ltb_spec. by intros [_ ?]. Qed.
Lemma str_ltb_trans a b c : str_ltb a b = true → str_ltb b c = true → str_ltb a c = true.
Proof.
  rewrite !str_ltb_spec. intros [Hab Nab] [Hbc Nbc]. split; [by etrans|].
  intros ->. apply Nab. by apply (anti_symm String.le).
Qed.
Lemma str_ltb_total a b : str_ltb a b = true ∨ a = b ∨ str_ltb b a = true.
Proof.
  rewrite !str_ltb_spec. destruct (decide (a = b)) as [->|]; [by auto|].
  destruct (total String.le a b); naive_solver.
Qed.

(** [list.sort()] of strings. *)
Definition sort_strings (l : list string) : list string := merge_sort String.le l.

(** [String.prototype.length] of an ASCII string, [Uint8Array.length] of bytes. *)
Definition slen (s : string) : Z := Z.of_nat (String.length s).

Fixpoint string_forallb (p : ascii → bool) (s : string) : bool :=
  match s with
  | EmptyString => true
  | String c s' => p c && string_forallb p s'
  end.

(** Every character at once: a boolean property of characters is checked by evaluation. *)
Definition all_ascii (p : ascii → bool) : bool :=
  forallb (λ n, p (ascii_of_nat n)) (List.seq 0 256).

Lemma all_ascii_spec p : all_ascii p = true → ∀ c, p c = true.
Proof.
  unfold all_ascii. rewrite forallb_forall. intros H c.
  rewrite <- (ascii_nat_embedding c). apply H, in_seq. pose proof (nat_ascii_bounded c). lia.
Qed.

Lemma string_forallb_app p a b :
  string_forallb p (String.append a b) = string_forallb p a && string_forallb p b.
Proof. induction a as [|c a IH]; simpl; [done|]. by rewrite IH, andb_assoc. Qed.

Lemma string_forallb_impl (p q : ascii → bool) s :
  (∀ c, p c = true → q c = true) → string_forallb p s = true → string_forallb q s = true.
Proof.
  intros Hpq. induction s as [|c s IH]; simpl; [done|].
  rewrite !andb_true_iff. intros [? ?]. auto.
Qed.

Lemma slen_nonneg s : 0 ≤ slen s.
Proof. unfold slen. lia. Qed.

Lemma slen_app a b : slen (String.append a b) = slen a + slen b.
Proof.
  unfold slen. induction a as [|c a IH]; [done|].
  change (String.append (String c a) b) with (String c (String.append a b)).
  cbn [String.length]. lia.
Qed.

(** ** Machine numbers *)

(** [Number.MAX_SAFE_INTEGER] *)
Definition MAX_SAFE_INTEGER : Z := 9007199254740991.
Definition is_safe_integer (z : Z) : bool := (- MAX_SAFE_INTEGER <=? z) && (z <=? MAX_SAFE_INTEGER).

(** ** Sets in order *)

(** [new Set(items)], in the order of first appearance. *)
Fixpoint first_seen (seen items : list string) : list string :=
  match items with
  | [] => []
  | x :: rest => if bool_decide (x ∈ seen) then first_seen seen rest else x :: first_seen (x :: seen) rest
  end.

Lemma first_seen_elem seen items x : x ∈ first_seen seen items ↔ x ∈ items ∧ x ∉ seen.
Proof.
  revert seen. induction items as [|y items IH]; intros seen; cbn.
  - split; [by intros ?%not_elem_of_nil|by intros [?%not_elem_of_nil _]].
  - case_bool_decide as Hy; [rewrite IH, elem_of_cons; split; [naive_solver|]; intros [[->|?] ?]; [done|auto]|].
    rewrite elem_of_cons, IH, not_elem_of_cons, elem_of_cons. destruct (decide (x = y)) as [->|]; naive_solver.
Qed.
Lemma first_seen_NoDup seen items : NoDup (first_seen seen items).
Proof.
  revert seen. induction items as [|y items IH]; intros seen; cbn; [constructor|]. case_bool_decide; [done|].
  constructor; [|done]. rewrite first_seen_elem, elem_of_cons. naive_solver.
Qed.
