(* ===== verification/Base64url.v ===== *)
(** * Canonical base64url (packages/crypto/src/keys.ts, fingerprint.ts)

    Byte strings travel in statements, envelopes and settings as base64url
    without padding. [encode] is [btoa] followed by the source's three
    replacements; [decode] accepts exactly the texts [encode] writes. The
    second half is the hex form the contact pins keep of a 32-byte digest and
    its conversions. *)

From S2P Require Import Prelude.

(** Bytes are the characters of a [string]; [N_of_ascii] is their value. *)
Abbreviation bytes := string.

(** ** base64url *)

(** The alphabet, [+] and [/] already replaced by [-] and [_]. *)
Definition b64_char (n : N) : ascii :=
  if (n <? 26)%N then ascii_of_N (n + 65)
  else if (n <? 52)%N then ascii_of_N (n + 71)
  else if (n <? 62)%N then ascii_of_N (n - 4)
  else if (n =? 62)%N then "-"%char else "_"%char.

Definition b64_value (c : ascii) : option N :=
  let n := N_of_ascii c in
  if ((65 <=? n) && (n <=? 90))%N then Some (n - 65)%N
  else if ((97 <=? n) && (n <=? 122))%N then Some (n - 71)%N
  else if ((48 <=? n) && (n <=? 57))%N then Some (n + 4)%N
  else if (c =? "-")%char then Some 62%N
  else if (c =? "_")%char then Some 63%N
  else None.

(** [/^[A-Za-z0-9_-]+$/], one character of it. *)
Definition is_b64_char (c : ascii) : bool := bool_decide (is_Some (b64_value c)).

Fixpoint encode (value : bytes) : string :=
  match value with
  | String a (String b (String c rest)) =>
      let n := (N_of_ascii a * 65536 + N_of_ascii b * 256 + N_of_ascii c)%N in
      String (b64_char (n / 262144)) (String (b64_char ((n / 4096) mod 64))
        (String (b64_char ((n / 64) mod 64)) (String (b64_char (n mod 64)) (encode rest))))
  | String a (String b EmptyString) =>
      let n := (N_of_ascii a * 65536 + N_of_ascii b * 256)%N in
      String (b64_char (n / 262144)) (String (b64_char ((n / 4096) mod 64))
        (String (b64_char ((n / 64) mod 64)) EmptyString))
  | String a EmptyString =>
      let n := (N_of_ascii a * 65536)%N in
      String (b64_char (n / 262144)) (String (b64_char ((n / 4096) mod 64)) EmptyString)
  | EmptyString => EmptyString
  end.

(** [atob] after the replacements are undone: groups of four characters, the
    last of two or three with their spare bits dropped. *)
Fixpoint atob (value : string) : option bytes :=
  match value with
  | String a (String b (String c (String d rest))) =>
      match b64_value a, b64_value b, b64_value c, b64_value d, atob rest with
      | Some w, Some x, Some y, Some z, Some out =>
          let n := (w * 262144 + x * 4096 + y * 64 + z)%N in
          Some (String (ascii_of_N (n / 65536)) (String (ascii_of_N ((n / 256) mod 256))
                 (String (ascii_of_N (n mod 256)) out)))
      | _, _, _, _, _ => None
      end
  | String a (String b (String c EmptyString)) =>
      match b64_value a, b64_value b, b64_value c with
      | Some w, Some x, Some y =>
          let n := (w * 262144 + x * 4096 + y * 64)%N in
          Some (String (ascii_of_N (n / 65536)) (String (ascii_of_N ((n / 256) mod 256)) EmptyString))
      | _, _, _ => None
      end
  | String a (String b EmptyString) =>
      match b64_value a, b64_value b with
      | Some w, Some x =>
          let n := (w * 262144 + x * 4096)%N in
          Some (String (ascii_of_N (n / 65536)) EmptyString)
      | _, _ => None
      end
  | String _ EmptyString => None
  | EmptyString => Some EmptyString
  end.

Definition INVALID_ENCODING := "Invalid key encoding.".

Definition decode (value : string) (length : option Z) : result bytes :=
  refuse INVALID_ENCODING unless (value !== "") && string_forallb is_b64_char value ;;
  refuse INVALID_ENCODING when slen value mod 4 =? 1 ;;
  match atob value with
  | None => Err INVALID_ENCODING
  | Some out =>
      refuse INVALID_ENCODING when
        (encode out !== value) ||
        match length with Some n => negb (slen out =? n) | None => false end ;;
      Ok out
  end.

(** ** Facts about the alphabet *)

Lemma b64_value_char n : (n < 64)%N → b64_value (b64_char n) = Some n.
Proof.
  intros Hn. assert (∀ m : nat, (m < 64)%nat → b64_value (b64_char (N.of_nat m)) = Some (N.of_nat m)) as H.
  { intros m Hm. do 64 (destruct m as [|m]; [reflexivity|]). lia. }
  specialize (H (N.to_nat n)). rewrite N2Nat.id in H. apply H. lia.
Qed.

Lemma b64_char_value c n : b64_value c = Some n → b64_char n = c ∧ (n < 64)%N.
Proof.
  pose proof (all_ascii_spec (λ c, match b64_value c with
    | Some n => bool_decide (b64_char n = c) && (n <? 64)%N | None => true end) eq_refl c) as H.
  intros Hc. cbn beta in H. rewrite Hc in H. bool_simpl. split; [done|]. by apply N.ltb_lt.
Qed.

Lemma is_b64_char_char n : (n < 64)%N → is_b64_char (b64_char n) = true.
Proof. intros Hn. unfold is_b64_char. rewrite b64_value_char by done. reflexivity. Qed.

Lemma N_of_ascii_lt c : (N_of_ascii c < 256)%N.
Proof. destruct c as [[] [] [] [] [] [] [] []]; reflexivity. Qed.

(** Induction three characters at a time, as [encode] recurses. *)
Lemma string_ind3 (P : string → Prop) :
  P "" → (∀ a, P (String a "")) → (∀ a b, P (String a (String b ""))) →
  (∀ a b c s, P s → P (String a (String b (String c s)))) → ∀ s, P s.
Proof.
  intros H0 H1 H2 H3. fix IH 1. intros [|a [|b [|c s]]]; [done|done|done|].
  apply H3, IH.
Qed.

Section groups.
Local Open Scope N_scope.

Lemma split_sextets n :
  n / 262144 * 262144 + (n / 4096) mod 64 * 4096 + (n / 64) mod 64 * 64 + n mod 64 = n.
Proof.
  pose proof (N.div_mod' n 64). pose proof (N.div_mod' (n / 64) 64).
  pose proof (N.div_mod' (n / 4096) 64).
  replace (n / 64 / 64) with (n / 4096) in * by (rewrite N.Div0.div_div; reflexivity).
  replace (n / 4096 / 64) with (n / 262144) in * by (rewrite N.Div0.div_div; reflexivity).
  lia.
Qed.

Lemma split_bytes x y z : x < 256 → y < 256 → z < 256 →
  let n := x * 65536 + y * 256 + z in
  n / 65536 = x ∧ (n / 256) mod 256 = y ∧ n mod 256 = z ∧ n / 262144 < 64.
Proof.
  intros Hx Hy Hz n. subst n.
  assert ((x * 65536 + y * 256 + z) / 256 = x * 256 + y) as ->
    by (symmetry; apply N.div_unique with z; lia).
  split_and!.
  - symmetry; apply N.div_unique with (y * 256 + z); lia.
  - symmetry; apply N.mod_unique with x; lia.
  - symmetry; apply N.mod_unique with (x * 256 + y); lia.
  - apply N.Div0.div_lt_upper_bound; lia.
Qed.

Lemma mod64_lt n : n mod 64 < 64.
Proof. apply N.mod_lt. lia. Qed.
End groups.

Create HintDb b64.
#[export] Hint Resolve mod64_lt N_of_ascii_lt b64_value_char is_b64_char_char : b64.

(** ** [decode] after [encode], and back *)

Section tails.
Local Open Scope N_scope.

(** A last group of one byte leaves its two low sextets zero, and of two bytes one. *)
Lemma tail_one x : let n := x * 65536 in n mod 64 = 0 ∧ (n / 64) mod 64 = 0.
Proof.
  intros n. subst n. replace (x * 65536) with (x * 1024 * 64) by lia.
  rewrite N.div_mul by done. split; [apply N.Div0.mod_mul|].
  replace (x * 1024) with (x * 16 * 64) by lia. apply N.Div0.mod_mul.
Qed.
Lemma tail_two x y : let n := x * 65536 + y * 256 in n mod 64 = 0.
Proof.
  intros n. subst n. replace (x * 65536 + y * 256) with ((x * 1024 + y * 4) * 64) by lia.
  apply N.Div0.mod_mul.
Qed.
End tails.

Lemma atob_encode s : atob (encode s) = Some s.
Proof.
  induction s as [|a|a b|a b c s IH] using string_ind3; [done| | |].
  - destruct (split_bytes (N_of_ascii a) 0 0) as (Ha & _ & _ & Hlt); auto with b64; try lia.
    destruct (tail_one (N_of_ascii a)) as [H1 H2].
    cbn [encode atob]. cbv zeta. rewrite !N.mul_0_l, !N.add_0_r in *.
    pose proof (split_sextets (N_of_ascii a * 65536)) as Hs. rewrite H1, H2, !N.add_0_r in Hs.
    rewrite !b64_value_char by auto with b64. rewrite Hs, Ha. by rewrite ascii_N_embedding.
  - destruct (split_bytes (N_of_ascii a) (N_of_ascii b) 0) as (Ha & Hb & _ & Hlt); auto with b64; try lia.
    pose proof (tail_two (N_of_ascii a) (N_of_ascii b)) as H1.
    cbn [encode atob]. cbv zeta in *. rewrite !N.add_0_r in *.
    pose proof (split_sextets (N_of_ascii a * 65536 + N_of_ascii b * 256)) as Hs.
    rewrite H1, !N.add_0_r in Hs.
    rewrite !b64_value_char by auto with b64. rewrite Hs, Ha, Hb. by rewrite !ascii_N_embedding.
  - destruct (split_bytes (N_of_ascii a) (N_of_ascii b) (N_of_ascii c)) as (Ha & Hb & Hc & Hlt);
      auto with b64.
    cbn [encode atob]. cbv zeta. rewrite !b64_value_char by auto with b64. rewrite IH.
    by rewrite split_sextets, Ha, Hb, Hc, !ascii_N_embedding.
Qed.

Lemma encode_chars s : string_forallb is_b64_char (encode s) = true.
Proof.
  induction s as [|a|a b|a b c s IH] using string_ind3; [done| | |].
  - destruct (split_bytes (N_of_ascii a) 0 0) as (_ & _ & _ & Hlt); auto with b64; try lia.
    cbn [encode string_forallb]. cbv zeta. rewrite !N.mul_0_l, !N.add_0_r in Hlt.
    rewrite !is_b64_char_char by auto with b64. done.
  - destruct (split_bytes (N_of_ascii a) (N_of_ascii b) 0) as (_ & _ & _ & Hlt); auto with b64; try lia.
    cbn [encode string_forallb]. cbv zeta. rewrite !N.add_0_r in Hlt.
    rewrite !is_b64_char_char by auto with b64. done.
  - destruct (split_bytes (N_of_ascii a) (N_of_ascii b) (N_of_ascii c)) as (_ & _ & _ & Hlt); auto with b64.
    cbn [encode string_forallb]. cbv zeta. rewrite !is_b64_char_char by auto with b64. by rewrite IH.
Qed.

(** The length of the text: four characters for three bytes, rounded up. *)
Lemma encode_length s : slen (encode s) = (4 * slen s + 2) / 3.
Proof.
  unfold slen. induction s as [|a|a b|a b c s IH] using string_ind3; [done|done|done|].
  cbn [encode String.length]. rewrite !Nat2Z.inj_succ, IH.
  match goal with |- context [(4 * Z.succ (Z.succ (Z.succ ?l)) + 2)] =>
    replace (4 * Z.succ (Z.succ (Z.succ l)) + 2) with (4 * l + 2 + 4 * 3) by lia end.
  rewrite Z.div_add by done. lia.
Qed.

Lemma encode_length_mod s : slen (encode s) mod 4 ≠ 1.
Proof.
  rewrite encode_length. intros H. pose proof (Z.div_mod (4 * slen s + 2) 3 ltac:(done)).
  pose proof (Z.mod_pos_bound (4 * slen s + 2) 3 ltac:(done)).
  pose proof (Z.div_mod ((4 * slen s + 2) / 3) 4 ltac:(done)). lia.
Qed.

Lemma encode_empty s : encode s = "" → s = "".
Proof. destruct s as [|? [|? [|? ?]]]; done. Qed.

Lemma decode_encode_len s n : s ≠ "" → slen s = n → decode (encode s) (Some n) = Ok s.
Proof.
  intros Hs Hn. unfold decode.
  rewrite bool_decide_eq_false_2 by (intros ?%encode_empty; done). rewrite encode_chars. simpl.
  rewrite (proj2 (Z.eqb_neq _ _) (encode_length_mod s)). rewrite atob_encode.
  rewrite bool_decide_eq_true_2 by done. simpl. by rewrite (proj2 (Z.eqb_eq _ _) Hn).
Qed.

Lemma decode_encode_any s : s ≠ "" → decode (encode s) None = Ok s.
Proof.
  intros Hs. unfold decode.
  rewrite bool_decide_eq_false_2 by (intros ?%encode_empty; done). rewrite encode_chars. simpl.
  rewrite (proj2 (Z.eqb_neq _ _) (encode_length_mod s)). rewrite atob_encode.
  by rewrite bool_decide_eq_true_2.
Qed.

Lemma decode_ok v n s : decode v n = Ok s →
  encode s = v ∧ s ≠ "" ∧ (∀ m, n = Some m → slen s = m).
Proof.
  unfold decode. intros H. res_inv. bool_simpl. destruct (atob v) as [out|] eqn:E; [|done].
  res_inv. bool_simpl. split_and!; [done|intros ->; done|]. intros m ->. bool_simpl. done.
Qed.

Lemma encode_inj a b : encode a = encode b → a = b.
Proof. intros H. apply (f_equal atob) in H. rewrite !atob_encode in H. by injection H. Qed.
#[export] Instance encode_Inj : Inj (=) (=) encode := encode_inj.

(** ** Hex digests *)

Definition hex_char (n : N) : ascii :=
  if (n <? 10)%N then ascii_of_N (n + 48) else ascii_of_N (n + 87).

(** [/[0-9a-f]/], and the digit's value. *)
Definition hex_value (c : ascii) : option N :=
  let n := N_of_ascii c in
  if ((48 <=? n) && (n <=? 57))%N then Some (n - 48)%N
  else if ((97 <=? n) && (n <=? 102))%N then Some (n - 87)%N
  else None.
Definition is_hex_char (c : ascii) : bool := bool_decide (is_Some (hex_value c)).

(** [byte.toString(16).padStart(2, '0')] of each byte. *)
Fixpoint to_hex (s : bytes) : string :=
  match s with
  | EmptyString => EmptyString
  | String c s' =>
      String (hex_char (N_of_ascii c / 16)) (String (hex_char (N_of_ascii c mod 16)) (to_hex s'))
  end.

(** [hex.match(/../g)] and [parseInt(byte, 16)]. *)
Fixpoint of_hex (s : string) : option bytes :=
  match s with
  | EmptyString => Some EmptyString
  | String a (String b s') =>
      match hex_value a, hex_value b, of_hex s' with
      | Some x, Some y, Some out => Some (String (ascii_of_N (x * 16 + y)) out)
      | _, _, _ => None
      end
  | String _ EmptyString => None
  end.

Definition INVALID_DIGEST := "Invalid key digest.".

Definition hexBytes (hex : string) : result bytes :=
  refuse INVALID_DIGEST unless string_forallb is_hex_char hex && (slen hex =? 64) ;;
  match of_hex hex with Some out => Ok out | None => Err INVALID_DIGEST end.

Definition digestBase64url (hex : string) : result string :=
  let* out := hexBytes hex in Ok (encode out).

Definition digestHex (base64url : string) : result string :=
  refuse INVALID_DIGEST unless string_forallb is_b64_char base64url && (slen base64url =? 43) ;;
  match atob base64url with
  | None => Err INVALID_DIGEST
  | Some out =>
      let hex := to_hex out in
      refuse INVALID_DIGEST when negb (slen out =? 32) || (digestBase64url hex !== Ok base64url) ;;
      Ok hex
  end.

Definition sameKeyDigest (hex : option string) (base64url : string) : bool :=
  match hex with Some h => digestHex base64url === Ok h | None => false end.

Lemma hex_value_char n : (n < 16)%N → hex_value (hex_char n) = Some n.
Proof.
  intros Hn. assert (∀ m : nat, (m < 16)%nat → hex_value (hex_char (N.of_nat m)) = Some (N.of_nat m)) as H.
  { intros m Hm. do 16 (destruct m as [|m]; [reflexivity|]). lia. }
  specialize (H (N.to_nat n)). rewrite N2Nat.id in H. apply H. lia.
Qed.

Lemma hex_char_value c n : hex_value c = Some n → hex_char n = c ∧ (n < 16)%N.
Proof.
  pose proof (all_ascii_spec (λ c, match hex_value c with
    | Some n => bool_decide (hex_char n = c) && (n <? 16)%N | None => true end) eq_refl c) as H.
  intros Hc. cbn beta in H. rewrite Hc in H. bool_simpl. split; [done|]. by apply N.ltb_lt.
Qed.

Lemma nibbles c : (N_of_ascii c / 16 < 16 ∧ N_of_ascii c mod 16 < 16)%N.
Proof.
  split; [|by apply N.mod_lt]. apply N.Div0.div_lt_upper_bound. apply N_of_ascii_lt.
Qed.

Lemma of_hex_to_hex s : of_hex (to_hex s) = Some s.
Proof.
  induction s as [|c s IH]; [done|]. cbn [to_hex of_hex]. destruct (nibbles c).
  rewrite !hex_value_char, IH by done. do 2 f_equal.
  rewrite (N.mul_comm _ 16), <- N.div_mod'. apply ascii_N_embedding.
Qed.

Lemma string_ind2 (P : string → Prop) :
  P "" → (∀ a, P (String a "")) → (∀ a b s, P s → P (String a (String b s))) → ∀ s, P s.
Proof. intros H0 H1 H2. fix IH 1. intros [|a [|b s]]; [done|done|]. apply H2, IH. Qed.

Lemma to_hex_of_hex h s : of_hex h = Some s → to_hex s = h.
Proof.
  revert s; induction h as [|a|a b h IH] using string_ind2; intros s; [by intros [= <-]|done|].
  simpl. destruct (hex_value a) as [x|] eqn:Ha; [|done]. destruct (hex_value b) as [y|] eqn:Hb; [|done].
  destruct (of_hex h) as [out|]; [|done]. intros [= <-].
  destruct (hex_char_value _ _ Ha) as [Ea ?], (hex_char_value _ _ Hb) as [Eb ?].
  cbn [to_hex]. rewrite N_ascii_embedding by lia. rewrite (IH out) by done.
  assert ((x * 16 + y) / 16 = x)%N as ->.
  { symmetry. apply N.div_unique with y; lia. }
  assert ((x * 16 + y) mod 16 = y)%N as ->.
  { symmetry. apply N.mod_unique with x; lia. }
  by rewrite Ea, Eb.
Qed.

Lemma slen_to_hex s : slen (to_hex s) = 2 * slen s.
Proof. unfold slen. induction s as [|c s IH]; [done|]. cbn [to_hex String.length]. lia. Qed.

Lemma to_hex_chars s : string_forallb is_hex_char (to_hex s) = true.
Proof.
  induction s as [|c s IH]; [done|]. cbn [to_hex string_forallb]. destruct (nibbles c).
  unfold is_hex_char at 1 2. rewrite !hex_value_char by done. by rewrite IH.
Qed.

Lemma hexBytes_to_hex s : slen s = 32 → hexBytes (to_hex s) = Ok s.
Proof.
  intros Hs. unfold hexBytes. rewrite to_hex_chars, slen_to_hex, Hs, of_hex_to_hex. done.
Qed.

Lemma hexBytes_ok h s : hexBytes h = Ok s → to_hex s = h ∧ slen s = 32.
Proof.
  unfold hexBytes. intros H. res_inv. bool_simpl. destruct (of_hex h) eqn:E; [|done]. res_inv.
  apply to_hex_of_hex in E as <-. split; [done|]. rewrite slen_to_hex in *. lia.
Qed.

(** The two written forms of a digest name each other: a pin's hex and a
    statement's base64url convert back and forth without loss. *)
Lemma digestHex_digestBase64url b h : digestHex b = Ok h ↔ digestBase64url h = Ok b.
Proof.
  unfold digestHex. split.
  - intros H. res_inv. destruct (atob b) eqn:E; [|done]. res_inv. bool_simpl. done.
  - intros H. pose proof H as H'. unfold digestBase64url in H. res_inv.
    apply hexBytes_ok in Hv as [<- Hl].
    rewrite encode_chars, encode_length, Hl, atob_encode, Hl. simpl.
    by rewrite H', bool_decide_eq_true_2.
Qed.
