(* ===== verification/Bytes.v ===== *)
(** * Byte strings: slices and big-endian integers

    [subarray], [slice] and [set] of a [Uint8Array], and the big-endian
    integers a [DataView] reads and writes, with the lemmas the envelopes,
    the chunk framing and the signatures share. *)

From S2P Require Import Prelude Base64url.

Fixpoint take_bytes (n : nat) (s : bytes) : bytes :=
  match n, s with
  | S n', String c s' => String c (take_bytes n' s')
  | _, _ => EmptyString
  end.
Fixpoint drop_bytes (n : nat) (s : bytes) : bytes :=
  match n, s with
  | S n', String _ s' => drop_bytes n' s'
  | _, _ => s
  end.

(** [bytes.subarray(from, to)], [bytes.slice(from, to)] *)
Definition subarray (from to : Z) (s : bytes) : bytes :=
  take_bytes (Z.to_nat (to - from)) (drop_bytes (Z.to_nat from) s).
(** [bytes.subarray(from)] *)
Definition subarray_from (from : Z) (s : bytes) : bytes := drop_bytes (Z.to_nat from) s.

(** [new Uint8Array(n).fill(c)] *)
Fixpoint fill (n : nat) (c : ascii) : bytes :=
  match n with O => EmptyString | S n' => String c (fill n' c) end.

(** [setUint32]/[setBigUint64(offset, v, false)]: [n] bytes, the most significant first, modulo [256 ^ n]. *)
Fixpoint be_bytes (n : nat) (v : Z) : bytes :=
  match n with
  | O => EmptyString
  | S n' => be_bytes n' (v / 256) +:+ String (ascii_of_N (Z.to_N (v mod 256))) EmptyString
  end.
Fixpoint be_value_from (acc : Z) (s : bytes) : Z :=
  match s with
  | EmptyString => acc
  | String c s' => be_value_from (acc * 256 + Z.of_N (N_of_ascii c)) s'
  end.
Definition be_value (s : bytes) : Z := be_value_from 0 s.

(** ** Lemmas *)

Lemma app_cons c a b : String c a +:+ b = String c (a +:+ b).
Proof. reflexivity. Qed.
Lemma app_nil' (a : string) : "" +:+ a = a.
Proof. reflexivity. Qed.
Lemma app_nil_r' (a : string) : a +:+ "" = a.
Proof. induction a as [|x a IH]; [done|]. by rewrite app_cons, IH. Qed.
Lemma app_assoc' (a b c : string) : (a +:+ b) +:+ c = a +:+ (b +:+ c).
Proof. induction a as [|x a IH]; [done|]. by rewrite !app_cons, IH. Qed.
Lemma length_app' (a b : string) : String.length (a +:+ b) = (String.length a + String.length b)%nat.
Proof. induction a as [|c a IH]; [done|]. rewrite app_cons. simpl. by rewrite IH. Qed.

Lemma slen_cons c s : slen (String c s) = slen s + 1.
Proof. unfold slen. cbn [String.length]. lia. Qed.
Lemma slen_nil : slen "" = 0.
Proof. done. Qed.
Lemma slen_zero s : slen s = 0 → s = "".
Proof. destruct s; [done|]. rewrite slen_cons. pose proof (slen_nonneg s). lia. Qed.
Lemma slen_Zto_nat s : Z.to_nat (slen s) = String.length s.
Proof. unfold slen. lia. Qed.

Lemma take_bytes_nil n : take_bytes n "" = "".
Proof. by destruct n. Qed.
Lemma drop_bytes_nil n : drop_bytes n "" = "".
Proof. by destruct n. Qed.

Lemma take_drop_bytes n s : take_bytes n s +:+ drop_bytes n s = s.
Proof.
  revert s; induction n as [|n IH]; intros [|c s]; [done..|].
  simpl. rewrite app_cons. by rewrite IH.
Qed.

Lemma length_take_bytes n s : String.length (take_bytes n s) = Nat.min n (String.length s).
Proof. revert s; induction n as [|n IH]; intros [|c s]; simpl; auto. Qed.
Lemma length_drop_bytes n s : String.length (drop_bytes n s) = (String.length s - n)%nat.
Proof. revert s; induction n as [|n IH]; intros [|c s]; simpl; auto. Qed.

Lemma take_bytes_app a b n : n = String.length a → take_bytes n (a +:+ b) = a.
Proof.
  intros ->. induction a as [|c a IH]; [by destruct b|]. rewrite app_cons. simpl. by rewrite IH.
Qed.
Lemma drop_bytes_app a b n : n = String.length a → drop_bytes n (a +:+ b) = b.
Proof.
  intros ->. induction a as [|c a IH]; [done|]. rewrite app_cons. simpl. by rewrite IH.
Qed.
Lemma take_bytes_all n s : (String.length s ≤ n)%nat → take_bytes n s = s.
Proof.
  revert s; induction n as [|n IH]; intros [|c s] H; simpl in *; try done; [lia|].
  by rewrite IH by lia.
Qed.
Lemma drop_bytes_all n s : (String.length s ≤ n)%nat → drop_bytes n s = "".
Proof. revert s; induction n as [|n IH]; intros [|c s] H; simpl in *; try done; [lia|]. apply IH. lia. Qed.
Lemma drop_drop_bytes n m s : drop_bytes n (drop_bytes m s) = drop_bytes (m + n) s.
Proof.
  revert s; induction m as [|m IH]; intros [|c s]; simpl; try done. by rewrite drop_bytes_nil.
Qed.
Lemma take_take_bytes n m s : take_bytes n (take_bytes m s) = take_bytes (Nat.min n m) s.
Proof.
  revert m s; induction n as [|n IH]; intros [|m] [|c s]; simpl; try done. by rewrite IH.
Qed.

Lemma take_bytes_app_le n a b : (n ≤ String.length a)%nat → take_bytes n (a +:+ b) = take_bytes n a.
Proof.
  revert a; induction n as [|n IH]; intros [|c a] H; [by destruct b|done|simpl in H; lia|].
  simpl in H. rewrite app_cons. simpl. by rewrite IH by lia.
Qed.
Lemma take_bytes_min n s : take_bytes n s = take_bytes (Nat.min n (String.length s)) s.
Proof. revert s; induction n as [|n IH]; intros [|c s]; simpl; try done. by rewrite IH. Qed.
Lemma drop_bytes_app_le n a b : (n ≤ String.length a)%nat → drop_bytes n (a +:+ b) = drop_bytes n a +:+ b.
Proof.
  revert a; induction n as [|n IH]; intros [|c a] H; [done|done|simpl in H; lia|].
  simpl in H. rewrite app_cons. simpl. apply IH. lia.
Qed.
Lemma take_add_bytes n m s : take_bytes (n + m) s = take_bytes n s +:+ take_bytes m (drop_bytes n s).
Proof.
  revert s; induction n as [|n IH]; intros [|c s]; simpl; try done; [by rewrite take_bytes_nil|].
  by rewrite app_cons, IH.
Qed.

Lemma slen_subarray from to s : 0 ≤ from ≤ to → to ≤ slen s → slen (subarray from to s) = to - from.
Proof.
  unfold subarray, slen. intros ??. rewrite length_take_bytes, length_drop_bytes. lia.
Qed.
Lemma subarray_prefix a b n : n = slen a → subarray 0 n (a +:+ b) = a.
Proof.
  intros ->. unfold subarray. apply take_bytes_app. unfold slen. lia.
Qed.
Lemma subarray_from_app a b n : n = slen a → subarray_from n (a +:+ b) = b.
Proof. intros ->. apply drop_bytes_app. unfold slen. lia. Qed.
Lemma subarray_suffix a b n m : n = slen a → m = slen a + slen b → subarray n m (a +:+ b) = b.
Proof.
  intros -> ->. unfold subarray. rewrite drop_bytes_app by (unfold slen; lia).
  apply take_bytes_all. unfold slen. lia.
Qed.
Lemma subarray_split n s : 0 ≤ n → subarray 0 n s +:+ subarray_from n s = s.
Proof. intros. unfold subarray, subarray_from. rewrite Z.sub_0_r. apply take_drop_bytes. Qed.

Lemma app_inj a b c d : slen a = slen c → a +:+ b = c +:+ d → a = c ∧ b = d.
Proof.
  intros Hl E. split.
  - rewrite <- (subarray_prefix a b (slen a)) by done. rewrite E. by apply subarray_prefix.
  - rewrite <- (subarray_from_app a b (slen a)) by done. rewrite E. by apply subarray_from_app.
Qed.

Lemma slen_fill n c : slen (fill n c) = Z.of_nat n.
Proof. induction n as [|n IH]; [done|]. cbn [fill]. rewrite slen_cons, IH. lia. Qed.

Lemma slen_be_bytes n v : slen (be_bytes n v) = Z.of_nat n.
Proof.
  revert v; induction n as [|n IH]; intros v; [done|].
  cbn [be_bytes]. rewrite slen_app, IH, slen_cons, slen_nil. lia.
Qed.

Lemma be_value_from_app acc a b : be_value_from acc (a +:+ b) = be_value_from (be_value_from acc a) b.
Proof. revert acc; induction a as [|c a IH]; intros acc; [done|]. rewrite app_cons. simpl. by rewrite IH. Qed.

Lemma be_value_from_bytes n v acc :
  0 ≤ v < 256 ^ Z.of_nat n → be_value_from acc (be_bytes n v) = acc * 256 ^ Z.of_nat n + v.
Proof.
  revert v acc; induction n as [|n IH]; intros v acc Hv.
  - simpl in *. lia.
  - rewrite Nat2Z.inj_succ, Z.pow_succ_r in Hv |- * by lia.
    cbn [be_bytes]. rewrite be_value_from_app, IH.
    + cbn [be_value_from]. pose proof (Z.mod_pos_bound v 256 ltac:(lia)).
      rewrite N_ascii_embedding by lia. rewrite Z2N.id by lia.
      pose proof (Z.div_mod v 256 ltac:(lia)). lia.
    + split; [apply Z.div_pos; lia|]. apply Z.div_lt_upper_bound; lia.
Qed.

(** A big-endian integer that fits reads back as it was written. *)
Lemma be_value_bytes n v : 0 ≤ v < 256 ^ Z.of_nat n → be_value (be_bytes n v) = v.
Proof. intros. unfold be_value. rewrite be_value_from_bytes by done. lia. Qed.

Lemma be_bytes_inj n v w :
  0 ≤ v < 256 ^ Z.of_nat n → 0 ≤ w < 256 ^ Z.of_nat n → be_bytes n v = be_bytes n w → v = w.
Proof. intros Hv Hw E. rewrite <- (be_value_bytes n v), E by done. by apply be_value_bytes. Qed.

Lemma be_value_nonneg_from acc s : 0 ≤ acc → 0 ≤ be_value_from acc s.
Proof. revert acc; induction s as [|c s IH]; intros acc H; simpl; [done|]. apply IH. lia. Qed.
Lemma be_value_nonneg s : 0 ≤ be_value s.
Proof. by apply be_value_nonneg_from. Qed.

Create Rewrite HintDb slen.
#[export] Hint Rewrite slen_app slen_cons slen_nil slen_fill slen_be_bytes : slen.
#[global] Arguments be_bytes : simpl never.
#[global] Arguments subarray : simpl never.
#[global] Arguments subarray_from : simpl never.
