(* ===== verification/Canonical.v ===== *)
(** * The canonical encoding of statements (packages/crypto/src/canonical.ts)

    A statement is the compact JSON array of plain ASCII strings and safe
    integers. [encodeStatement] refuses whatever is outside that grammar and
    [parseStatement] every text that is not exactly the compact encoding of
    what it holds; the field checks ([uuid], [integer], [bytesOf], ...) are
    what every statement in [Roster] and [Groups] is built with. *)

From Stdlib Require Import DecimalString DecimalN DecimalFacts.
From S2P Require Import Prelude Base64url Bytes.

(** ** Values

    A value as a caller may hand one in or [JSON.parse] return one. [JInt] is
    a number that is an integer other than [-0]; [JOther] everything else
    (other numbers, [null], booleans, objects, [undefined]). *)
#[warnings="-register-all"]
Inductive jsval : Type :=
  | JStr (s : string)
  | JInt (z : Z)
  | JArr (l : list jsval)
  | JOther.

Fixpoint jsval_ind' (P : jsval → Prop) (HS : ∀ s, P (JStr s)) (HI : ∀ z, P (JInt z))
    (HA : ∀ l, Forall P l → P (JArr l)) (HO : P JOther) (v : jsval) : P v :=
  match v with
  | JStr s => HS s
  | JInt z => HI z
  | JArr l => HA l ((fix go (l : list jsval) : Forall P l :=
      match l with
      | [] => Forall_nil_2 P
      | x :: l' => Forall_cons_2 P x l' (jsval_ind' P HS HI HA HO x) (go l')
      end) l)
  | JOther => HO
  end.

#[export] Instance jsval_eq_dec : EqDecision jsval.
Proof.
  refine (fix go (v w : jsval) : Decision (v = w) :=
    let _ : EqDecision jsval := go in
    match v, w with
    | JStr s, JStr t => cast_if (decide (s = t))
    | JInt x, JInt y => cast_if (decide (x = y))
    | JArr l, JArr k => cast_if (decide (l = k))
    | JOther, JOther => left eq_refl
    | _, _ => right _
    end); abstract congruence.
Defined.

Definition MAX_STATEMENT_BYTES : Z := 4 * 1024 * 1024.

(** [/^[\x20\x21\x23-\x5b\x5d-\x7e]*$/] *)
Definition plain_char (c : ascii) : bool :=
  let n := N_of_ascii c in
  ((32 <=? n) && (n <=? 126) && negb (n =? 34) && negb (n =? 92))%N.
Definition PLAIN (s : string) : bool := string_forallb plain_char s.

Fixpoint grammatical (value : jsval) (depth : nat) : bool :=
  match value with
  | JStr s => PLAIN s
  | JInt z => is_safe_integer z && (0 <=? z)
  | JArr l => (depth <? 4)%nat && forallb (λ v, grammatical v (S depth)) l
  | JOther => false
  end.

(** ** Field checks *)

(** [/^[0-9a-f]{8}-[0-9a-f]{4}-[0-9a-f]{4}-[0-9a-f]{4}-[0-9a-f]{12}$/]: hyphens
    at 8, 13, 18 and 23, hex digits elsewhere, 36 characters. *)
Fixpoint uuid_from (at_ : nat) (s : string) : bool :=
  match s with
  | EmptyString => (at_ =? 36)%nat
  | String c s' =>
      (if (at_ =? 8)%nat || (at_ =? 13)%nat || (at_ =? 18)%nat || (at_ =? 23)%nat
       then (c =? "-")%char else is_hex_char c) && uuid_from (S at_) s'
  end.
Definition UUID (s : string) : bool := uuid_from 0 s.

Definition invalid (what : string) : string := "Invalid " +:+ what +:+ ".".

Definition uuid (value : jsval) (what : string) : result string :=
  match value with
  | JStr s => refuse (invalid what) unless UUID s ;; Ok s
  | _ => Err (invalid what)
  end.

Definition integer (value : jsval) (what : string) : result Z :=
  match value with
  | JInt z => refuse (invalid what) when negb (is_safe_integer z) || (z <? 1) ;; Ok z
  | _ => Err (invalid what)
  end.

Definition bytesOf (value : jsval) (length : Z) (what : string) : result string :=
  match value with
  | JStr s => let* _ := recast (invalid what) (decode s (Some length)) in Ok s
  | _ => Err (invalid what)
  end.

Definition digestOf (value : jsval) (what : string) : result string := bytesOf value 32 what.

(** The allowed words come with what they stand for in the model. *)
Definition oneOf {A} (value : jsval) (allowed : list (string * A)) (what : string) : result A :=
  match value with
  | JStr s =>
      match list_find (λ p, p.1 = s) allowed with
      | Some (_, (_, a)) => Ok a
      | None => Err (invalid what)
      end
  | _ => Err (invalid what)
  end.

Fixpoint is_ascending (values : list string) : bool :=
  match values with
  | a :: (b :: _) as rest => str_ltb a b && is_ascending rest
  | _ => true
  end.
Definition ascending (values : list string) (what : string) : result (list string) :=
  refuse (invalid what) unless is_ascending values ;; Ok values.

(** ** JSON text

    [json_stringify] is [JSON.stringify] of a value without objects, its
    strings escaped as JSON does; no string of the grammar needs an escape.
    [json_parse] is [JSON.parse] on the compact texts
    of the grammar and nothing on any other: a text [JSON.parse] reads with
    whitespace, escapes, objects, other numbers or non-ASCII characters is
    refused by [parseStatement] in either case, as its value is outside the
    grammar or its compact encoding is another text. *)

Definition string_of_N (n : N) : string := DecimalString.NilEmpty.string_of_uint (N.to_uint n).
Definition string_of_Z (z : Z) : string :=
  if z <? 0 then "-" +:+ string_of_N (Z.to_N (- z)) else string_of_N (Z.to_N z).

Definition quote : string := String (ascii_of_nat 34) EmptyString.

Definition json_escape_char (c : ascii) : string :=
  let n := N_of_ascii c in
  let bs := String (ascii_of_nat 92) EmptyString in
  if (n =? 34)%N || (n =? 92)%N then bs +:+ String c EmptyString
  else if (n =? 8)%N then bs +:+ "b"
  else if (n =? 9)%N then bs +:+ "t"
  else if (n =? 10)%N then bs +:+ "n"
  else if (n =? 12)%N then bs +:+ "f"
  else if (n =? 13)%N then bs +:+ "r"
  else if (n <? 32)%N then bs +:+ "u00" +:+ to_hex (String c EmptyString)
  else String c EmptyString.
Fixpoint json_escape (s : string) : string :=
  match s with
  | EmptyString => EmptyString
  | String c s' => json_escape_char c +:+ json_escape s'
  end.

Fixpoint json_stringify (v : jsval) : string :=
  match v with
  | JStr s => quote +:+ json_escape s +:+ quote
  | JInt z => string_of_Z z
  | JArr l => "[" +:+ String.concat "," (map json_stringify l) +:+ "]"
  | JOther => "null"
  end.

Definition is_digit (c : ascii) : bool :=
  let n := N_of_ascii c in ((48 <=? n) && (n <=? 57))%N.

Fixpoint span (p : ascii → bool) (s : string) : string * string :=
  match s with
  | EmptyString => (EmptyString, EmptyString)
  | String c s' =>
      if p c then let '(a, b) := span p s' in (String c a, b) else (EmptyString, s)
  end.

(** A number without sign, fraction or leading zero. *)
Definition parse_number (digits : string) : option Z :=
  match DecimalString.NilEmpty.uint_of_string digits with
  | Some u =>
      let n := N.of_uint u in
      if string_of_N n === digits then Some (Z.of_N n) else None
  | None => None
  end.

Fixpoint parse_value (fuel : nat) (s : string) {struct fuel} : option (jsval * string) :=
  match fuel, s with
  | S fuel', String c rest =>
      if (c =? "[")%char then
        match rest with
        | String "]" rest' => Some (JArr [], rest')
        | _ => match parse_elems fuel' rest with Some (l, rest') => Some (JArr l, rest') | None => None end
        end
      else if (c =? ascii_of_nat 34)%char then
        let '(text, rest') := span plain_char rest in
        match rest' with
        | String d rest'' => if (d =? ascii_of_nat 34)%char then Some (JStr text, rest'') else None
        | EmptyString => None
        end
      else
        let '(digits, rest') := span is_digit s in
        match parse_number digits with Some z => Some (JInt z, rest') | None => None end
  | _, _ => None
  end
with parse_elems (fuel : nat) (s : string) {struct fuel} : option (list jsval * string) :=
  match fuel with
  | O => None
  | S fuel' =>
      match parse_value fuel' s with
      | Some (v, String "," rest) =>
          match parse_elems fuel' rest with
          | Some (l, rest') => Some (v :: l, rest')
          | None => None
          end
      | Some (v, String "]" rest) => Some ([v], rest)
      | _ => None
      end
  end.

Definition json_parse (text : string) : option jsval :=
  match parse_value (S (String.length text)) text with
  | Some (v, EmptyString) => Some v
  | _ => None
  end.

(** ** Statements *)

Definition encodeStatement (parts : list jsval) : result bytes :=
  refuse "Invalid statement." unless grammatical (JArr parts) 0 ;;
  let bytes := json_stringify (JArr parts) in
  refuse "Invalid statement." when MAX_STATEMENT_BYTES <? slen bytes ;;
  Ok bytes.

(** [a.length !== b.length], then every byte. *)
Definition sameBytes (a b : bytes) : bool := a === b.

Definition parseStatement (bytes : bytes) (what : string) : result (list jsval) :=
  if slen bytes <=? MAX_STATEMENT_BYTES then
    match json_parse bytes with
    | Some (JArr parsed) =>
        if grammatical (JArr parsed) 0 && sameBytes (json_stringify (JArr parsed)) bytes
        then Ok parsed else Err (invalid what)
    | _ => Err (invalid what)
    end
  else Err (invalid what).

Definition requireCanonical (served rebuilt : bytes) (what : string) : result unit :=
  refuse (invalid what) unless sameBytes served rebuilt ;; Ok tt.

(** ** Reading back what was written *)

Lemma json_escape_plain s : PLAIN s = true → json_escape s = s.
Proof.
  unfold PLAIN. induction s as [|c s IH]; simpl; [done|]. intros [Hc Hs]%andb_true_iff.
  pose proof (all_ascii_spec (λ c, negb (plain_char c) || bool_decide (json_escape_char c = String c EmptyString))
    eq_refl c) as H. cbn beta in H. rewrite Hc in H. simpl in H. bool_simpl. by rewrite H, IH.
Qed.

(** What follows a span does not continue it. *)
Definition stops (p : ascii → bool) (s : string) : Prop :=
  match s with EmptyString => True | String c _ => p c = false end.

Lemma span_app p a b : string_forallb p a = true → stops p b → span p (a +:+ b) = (a, b).
Proof.
  intros Ha Hb. induction a as [|c a IH].
  - destruct b as [|c b]; [done|]. simpl in *. by rewrite Hb.
  - rewrite app_cons. simpl in *. bool_simpl. rewrite H. by rewrite IH.
Qed.

Lemma string_of_uint_digits u :
  string_forallb is_digit (DecimalString.NilEmpty.string_of_uint u) = true.
Proof. induction u; simpl; done. Qed.

Lemma string_of_uint_nonempty n : string_of_N n ≠ "".
Proof.
  unfold string_of_N. intros H.
  assert (N.to_uint n = Decimal.Nil) as E.
  { by destruct (N.to_uint n). }
  pose proof (DecimalN.Unsigned.of_to n) as Hn. rewrite E in Hn. subst n. discriminate E.
Qed.

Lemma parse_number_string n : parse_number (string_of_N n) = Some (Z.of_N n).
Proof.
  unfold parse_number, string_of_N at 1.
  rewrite DecimalString.NilEmpty.usu, DecimalN.Unsigned.of_to. by rewrite bool_decide_eq_true_2.
Qed.

(** The nesting the parser needs fuel for. *)
Fixpoint need (v : jsval) : nat :=
  match v with
  | JArr l => S (foldr (λ x n, S (Nat.max (need x) n)) 0%nat l)
  | _ => 1
  end.
Definition need_elems (l : list jsval) : nat := foldr (λ x n, S (Nat.max (need x) n)) 0%nat l.

Lemma concat_cons x y l :
  String.concat "," (x :: y :: l) = x +:+ "," +:+ String.concat "," (y :: l).
Proof. done. Qed.

Lemma need_elems_cons x l : need_elems (x :: l) = S (Nat.max (need x) (need_elems l)).
Proof. done. Qed.

Lemma need_length v d : grammatical v d = true → (need v ≤ String.length (json_stringify v))%nat.
Proof.
  revert d; induction v as [s|z|l IH|] using jsval_ind'; intros d Hg; [| | |done].
  - simpl. lia.
  - simpl in *. bool_simpl. unfold string_of_Z. rewrite (proj2 (Z.ltb_ge _ _)) by lia.
    pose proof (string_of_uint_nonempty (Z.to_N z)). destruct (string_of_N _); [done|simpl; lia].
  - simpl in Hg. bool_simpl. rename H0 into Hl. clear H.
    change (need (JArr l)) with (S (need_elems l)).
    change (json_stringify (JArr l)) with ("[" +:+ String.concat "," (map json_stringify l) +:+ "]").
    rewrite !length_app'. simpl String.length.
    assert (need_elems l ≤ String.length (String.concat "," (map json_stringify l)) + 1)%nat; [|lia].
    induction IH as [|x l Hx _ IHl]; [simpl; lia|].
    cbn [forallb] in Hl. bool_simpl. specialize (Hx _ H). specialize (IHl H0).
    destruct l as [|y l]; [cbn in *; lia|].
    cbn [map] in *. rewrite concat_cons, !length_app', need_elems_cons.
    change (String.length ",") with 1%nat. lia.
Qed.

Section roundtrip.
Local Arguments is_digit : simpl never.
Local Arguments plain_char : simpl never.

Definition follows (v : jsval) (rest : string) : Prop :=
  match v with JInt _ => stops is_digit rest | _ => True end.

Lemma parse_value_number n rest fuel :
  stops is_digit rest → parse_value (S fuel) (string_of_N n +:+ rest) = Some (JInt (Z.of_N n), rest).
Proof.
  intros Hr. pose proof (string_of_uint_digits (N.to_uint n)) as Hd.
  pose proof (span_app is_digit _ _ Hd Hr) as Hs. fold (string_of_N n) in Hd, Hs.
  pose proof (parse_number_string n) as Hp. pose proof (string_of_uint_nonempty n) as Hne.
  destruct (string_of_N n) as [|c t]; [done|]. clear Hne.
  rewrite app_cons in Hs |- *. simpl in Hd. bool_simpl.
  cbn [parse_value]. rewrite Hs, Hp.
  pose proof (all_ascii_spec (λ c, negb (is_digit c) || negb (c =? "[")%char && negb (c =? ascii_of_nat 34)%char)
    eq_refl c) as Hc. cbn beta in Hc. rewrite H in Hc. simpl in Hc. bool_simpl. by rewrite H1, H2.
Qed.

Lemma parse_value_string s rest fuel :
  PLAIN s = true → parse_value (S fuel) (json_stringify (JStr s) +:+ rest) = Some (JStr s, rest).
Proof.
  intros Hs. unfold json_stringify, quote. rewrite json_escape_plain by done.
  rewrite !app_assoc', !app_cons.
  cbn [parse_value]. simpl. rewrite !app_nil'.
  rewrite (span_app plain_char s); [reflexivity|exact Hs|exact eq_refl].
Qed.

(** The first character of a value's text is not a closing bracket. *)
Lemma stringify_head v d rest : grammatical v d = true →
  ∃ c t, json_stringify v +:+ rest = String c t ∧ c ≠ "]"%char.
Proof.
  destruct v as [s|z|l|]; [| | |done]; intros Hg.
  - eexists _, _. split; [reflexivity|done].
  - simpl in *. bool_simpl. unfold string_of_Z. rewrite (proj2 (Z.ltb_ge _ _)) by lia.
    pose proof (string_of_uint_digits (N.to_uint (Z.to_N z))) as Hd.
    fold (string_of_N (Z.to_N z)) in Hd. pose proof (string_of_uint_nonempty (Z.to_N z)).
    destruct (string_of_N (Z.to_N z)) as [|c t]; [done|]. eexists _, _. split; [reflexivity|].
    simpl in Hd. bool_simpl. by intros ->.
  - eexists _, _. split; [reflexivity|done].
Qed.

Definition follows_elems (rest : string) : Prop := stops is_digit rest.

Lemma parse_elems_cons f x text rest vs :
  parse_value f (json_stringify x +:+ "," +:+ text) = Some (x, String "," text) →
  parse_elems f text = Some (vs, rest) →
  parse_elems (S f) (json_stringify x +:+ "," +:+ text) = Some (x :: vs, rest).
Proof. intros H1 H2. cbn [parse_elems]. rewrite H1. simpl. by rewrite H2. Qed.

Lemma parse_value_stringify v : ∀ d rest fuel,
  grammatical v d = true → follows v rest → (need v ≤ fuel)%nat →
  parse_value fuel (json_stringify v +:+ rest) = Some (v, rest).
Proof.
  induction v as [s|z|l IH|] using jsval_ind'; intros d rest fuel Hg Hr Hf; [| | |done].
  - destruct fuel as [|fuel]; [simpl in Hf; lia|]. by apply parse_value_string.
  - destruct fuel as [|fuel]; [simpl in Hf; lia|]. simpl in Hg. bool_simpl.
    unfold json_stringify, string_of_Z. rewrite (proj2 (Z.ltb_ge _ _)) by lia.
    rewrite parse_value_number by done. by rewrite Z2N.id by lia.
  - destruct fuel as [|fuel]; [simpl in Hf; lia|].
    change (need (JArr l)) with (S (need_elems l)) in Hf. simpl in Hg. bool_simpl.
    change (json_stringify (JArr l)) with ("[" +:+ String.concat "," (map json_stringify l) +:+ "]").
    rewrite !app_assoc'. destruct l as [|x l]; [reflexivity|].
    assert (∀ f, (need_elems (x :: l) ≤ f)%nat →
      parse_elems f (String.concat "," (map json_stringify (x :: l)) +:+ "]" +:+ rest)
      = Some (x :: l, rest)) as Hl.
    { clear Hf Hr fuel. revert x IH H0. induction l as [|y l IHl]; intros x IH Hx f Hf;
        (destruct f as [|f]; [simpl in Hf; lia|]); rewrite need_elems_cons in Hf;
        apply Forall_cons in IH as [IHx IHr]; cbn [forallb] in Hx;
        apply andb_true_iff in Hx as [Hx1 Hx2].
      - cbn [map String.concat parse_elems].
        rewrite (IHx (S d)); [reflexivity|done|by destruct x|lia].
      - cbn [map]. rewrite concat_cons, !app_assoc'.
        apply parse_elems_cons; [|apply IHl; [done|done|lia]].
        apply (IHx (S d)); [done|by destruct x|lia]. }
    cbn [forallb] in H0. apply andb_true_iff in H0 as [H0 _].
    specialize (Hl fuel ltac:(lia)).
    assert (∃ c' t', String.concat "," (map json_stringify (x :: l)) +:+ "]" +:+ rest = String c' t'
      ∧ c' ≠ "]"%char) as (c' & t' & Ht & Hc).
    { destruct l as [|y l]; cbn [map].
      - apply (stringify_head x (S d) _ H0).
      - rewrite concat_cons, app_assoc'. apply (stringify_head x (S d) _ H0). }
    rewrite app_cons. cbn [parse_value]. change ("[" =? "[")%char with true. cbv iota.
    change ("" +:+ ?t) with t. rewrite Hl, Ht.
    destruct c' as [[] [] [] [] [] [] [] []]; try reflexivity; done.
Qed.
End roundtrip.

Lemma json_parse_stringify l :
  grammatical (JArr l) 0 = true → json_parse (json_stringify (JArr l)) = Some (JArr l).
Proof.
  intros Hg. unfold json_parse.
  pose proof (parse_value_stringify (JArr l) 0 "" (S (String.length (json_stringify (JArr l)))) Hg I) as H.
  pose proof (need_length _ _ Hg).
  rewrite app_nil_r' in H. rewrite H by lia. done.
Qed.

(** Reading a statement back gives its parts exactly when it is their encoding. *)
Lemma parse_encode b what parts :
  parseStatement b what = Ok parts ↔ encodeStatement parts = Ok b.
Proof.
  unfold parseStatement, encodeStatement. split.
  - intros H. destruct (slen b <=? MAX_STATEMENT_BYTES) eqn:Hlen; [|done].
    destruct (json_parse b) as [[s|z|l|]|]; try done.
    destruct (grammatical (JArr l) 0) eqn:Hg; [|done].
    destruct (sameBytes (json_stringify (JArr l)) b) eqn:Hb; [|done].
    cbn [andb] in H. assert (parts = l) as -> by congruence. unfold sameBytes in Hb. apply bool_decide_eq_true in Hb as <-.
    rewrite Hg. cbv zeta. apply Z.leb_le in Hlen. by rewrite (proj2 (Z.ltb_ge _ _)).
  - intros H. destruct (grammatical (JArr parts) 0) eqn:Hg; [|done]. cbv zeta in H.
    destruct (MAX_STATEMENT_BYTES <? _) eqn:Hlen; [done|].
    assert (b = json_stringify (JArr parts)) as -> by congruence.
    apply Z.ltb_ge in Hlen. rewrite (proj2 (Z.leb_le _ _)) by done.
    rewrite json_parse_stringify by done. rewrite Hg. unfold sameBytes.
    by rewrite bool_decide_eq_true_2.
Qed.

(** One statement, one encoding: bytes determine the parts. *)
Lemma encodeStatement_inj p q b : encodeStatement p = Ok b → encodeStatement q = Ok b → p = q.
Proof.
  intros Hp%(parse_encode b "") Hq%(parse_encode b ""). congruence.
Qed.

(** ** What the field checks let through *)

Lemma uuid_ok v w s : uuid v w = Ok s ↔ v = JStr s ∧ UUID s = true.
Proof.
  destruct v; simpl; try (split; [done|by intros [??]]).
  destruct (UUID s0) eqn:E; split; [by intros [= <-]|by intros [[= ->] _]|done|].
  by intros [[= ->] ?]; congruence.
Qed.

Lemma is_safe_integer_true z : is_safe_integer z = true ↔ - MAX_SAFE_INTEGER ≤ z ≤ MAX_SAFE_INTEGER.
Proof. unfold is_safe_integer. rewrite andb_true_iff, !Z.leb_le. done. Qed.

Lemma integer_ok v w z : integer v w = Ok z ↔ v = JInt z ∧ 1 ≤ z ≤ MAX_SAFE_INTEGER.
Proof.
  destruct v as [|y| |]; simpl; try (split; [done|by intros [??]]).
  destruct (is_safe_integer y) eqn:E; simpl.
  - apply is_safe_integer_true in E. destruct (y <? 1) eqn:E1; bool_simpl.
    + split; [done|]. intros [[= ->] ?]. lia.
    + split; [intros [= <-]|intros [[= ->] ?]; done]. split; [done|lia].
  - split; [done|]. intros [[= ->] ?]. apply not_true_iff_false in E. rewrite is_safe_integer_true in E.
    unfold MAX_SAFE_INTEGER in *. lia.
Qed.

Lemma bytesOf_ok v n w s : bytesOf v n w = Ok s →
  v = JStr s ∧ ∃ b, decode s (Some n) = Ok b.
Proof. destruct v; simpl; try done. intros H. res_inv. eauto. Qed.

Lemma oneOf_ok {A} v (allowed : list (string * A)) w a :
  oneOf v allowed w = Ok a → ∃ s, v = JStr s ∧ (s, a) ∈ allowed.
Proof.
  destruct v; simpl; try done.
  destruct (list_find _ _) as [[i [t b]]|] eqn:E; [|done]. intros [= <-].
  apply list_find_Some in E as (Hi & Ht & _). simpl in Ht. subst t. eexists. split; [done|].
  by eapply list_elem_of_lookup_2.
Qed.

Lemma is_ascending_sorted l : is_ascending l = true ↔ StronglySorted (λ a b, str_ltb a b = true) l.
Proof.
  induction l as [|a [|b l] IH]; [by split; constructor|by split; repeat constructor|].
  cbn [is_ascending]. rewrite andb_true_iff, IH. split.
  - intros [Hab Hs]. constructor; [done|]. apply StronglySorted_inv in Hs as [? Hb].
    constructor; [done|]. eapply Forall_impl; [exact Hb|]. intros c Hc. by eapply str_ltb_trans.
  - intros Hs. apply StronglySorted_inv in Hs as [Hs Ha]. by apply Forall_cons in Ha as [? _].
Qed.

Lemma is_ascending_NoDup l : is_ascending l = true → NoDup l.
Proof.
  rewrite is_ascending_sorted. induction 1 as [|a l _ IH Ha]; constructor; [|done].
  intros Hin. rewrite Forall_forall in Ha. specialize (Ha _ Hin). by rewrite str_ltb_irrefl in Ha.
Qed.

(** ** Texts of flat values determine them

    Strings of any characters, escapes included, and non-negative numbers: what
    the statements and contexts outside the grammar are made of. *)

(** One character of a string's text, read back. *)
Definition unescape (s : string) : option (ascii * string) :=
  match s with
  | String c rest =>
      if (N_of_ascii c =? 92)%N then
        match rest with
        | String "u" (String "0" (String "0" (String a (String b rest')))) =>
            match of_hex (String a (String b EmptyString)) with
            | Some (String d EmptyString) => Some (d, rest')
            | _ => None
            end
        | String "b" rest' => Some (ascii_of_N 8, rest')
        | String "t" rest' => Some (ascii_of_N 9, rest')
        | String "n" rest' => Some (ascii_of_N 10, rest')
        | String "f" rest' => Some (ascii_of_N 12, rest')
        | String "r" rest' => Some (ascii_of_N 13, rest')
        | String d rest' => Some (d, rest')
        | EmptyString => None
        end
      else Some (c, rest)
  | EmptyString => None
  end.

Lemma unescape_escape c r : unescape (json_escape_char c +:+ r) = Some (c, r).
Proof. by destruct c as [[] [] [] [] [] [] [] []]. Qed.

(** An escaped character never begins with the closing quote. *)
Lemma escape_head c r : ∃ d t, json_escape_char c +:+ r = String d t ∧ (N_of_ascii d =? 34)%N = false.
Proof. destruct c as [[] [] [] [] [] [] [] []]; by eexists _, _. Qed.

Lemma escape_inj s s' r r' :
  json_escape s +:+ quote +:+ r = json_escape s' +:+ quote +:+ r' → s = s' ∧ r = r'.
Proof.
  revert s'; induction s as [|c s IH]; intros [|c' s'] E; cbn [json_escape] in E.
  - rewrite !app_nil' in E. unfold quote in E. rewrite !app_cons, !app_nil' in E. by injection E.
  - rewrite app_nil', app_assoc' in E. destruct (escape_head c' (json_escape s' +:+ quote +:+ r')) as (d & t & Ed & Hd).
    rewrite Ed in E. unfold quote in E. rewrite app_cons in E. injection E as <- _. done.
  - rewrite app_nil', app_assoc' in E. destruct (escape_head c (json_escape s +:+ quote +:+ r)) as (d & t & Ed & Hd).
    rewrite Ed in E. unfold quote in E. rewrite app_cons in E. injection E as -> _. done.
  - rewrite !app_assoc' in E. apply (f_equal unescape) in E. rewrite !unescape_escape in E.
    injection E as -> E. apply IH in E as [-> ->]. done.
Qed.

Definition flat (v : jsval) : Prop :=
  match v with JStr _ => True | JInt z => 0 ≤ z | _ => False end.

Lemma string_of_N_head n : ∃ c t, string_of_N n = String c t ∧ is_digit c = true.
Proof.
  pose proof (string_of_uint_digits (N.to_uint n)) as Hd. fold (string_of_N n) in Hd.
  pose proof (string_of_uint_nonempty n). destruct (string_of_N n) as [|c t]; [done|].
  cbn [string_forallb] in Hd. apply andb_true_iff in Hd as [? _]. eauto.
Qed.

Lemma number_inj n n' r r' : stops is_digit r → stops is_digit r' →
  string_of_N n +:+ r = string_of_N n' +:+ r' → n = n' ∧ r = r'.
Proof.
  intros Hr Hr' E. pose proof (span_app is_digit (string_of_N n) r (string_of_uint_digits _) Hr) as H1.
  pose proof (span_app is_digit (string_of_N n') r' (string_of_uint_digits _) Hr') as H2.
  rewrite E, H2 in H1. injection H1 as Hn ->. split; [|done].
  pose proof (parse_number_string n) as P1. rewrite <- Hn, parse_number_string in P1. injection P1. lia.
Qed.

Lemma flat_value_inj v w r r' : flat v → flat w → stops is_digit r → stops is_digit r' →
  json_stringify v +:+ r = json_stringify w +:+ r' → v = w ∧ r = r'.
Proof.
  destruct v as [s|z|l|], w as [s'|z'|l'|]; intros Hv Hw Hr Hr'; try by destruct Hv.
  all: try by destruct Hw.
  - cbn [json_stringify]. rewrite !app_assoc'. unfold quote at 1 3. rewrite !app_cons, !app_nil'.
    intros E. injection E as E. apply escape_inj in E as [-> ->]. done.
  - cbn [json_stringify flat] in *. unfold string_of_Z. rewrite (proj2 (Z.ltb_ge z' 0)) by done.
    destruct (string_of_N_head (Z.to_N z')) as (c & t & -> & Hc). unfold quote. rewrite !app_cons.
    intros E. injection E as <- _. done.
  - cbn [json_stringify flat] in *. unfold string_of_Z. rewrite (proj2 (Z.ltb_ge z 0)) by done.
    destruct (string_of_N_head (Z.to_N z)) as (c & t & -> & Hc). unfold quote. rewrite !app_cons.
    intros E. injection E as -> _. done.
  - cbn [json_stringify flat] in *. unfold string_of_Z. rewrite !(proj2 (Z.ltb_ge _ 0)) by done.
    intros [E ->]%number_inj; [|done..]. split; [|done]. f_equal. lia.
Qed.

Lemma flat_values_inj p q r r' : Forall flat p → Forall flat q → stops is_digit r → stops is_digit r' →
  String.concat "," (map json_stringify p) +:+ "]" +:+ r = String.concat "," (map json_stringify q) +:+ "]" +:+ r' →
  p = q.
Proof.
  intros Hp; revert q; induction Hp as [|v p Hv Hp IH]; intros q Hq Hr Hr' E.
  - destruct Hq as [|w q Hw Hq]; [done|]. exfalso. cbn [map] in E.
    assert (∃ t, json_stringify w +:+ t = "]" +:+ r) as [t Et].
    { destruct q as [|w' q]; [by eexists|]. cbn [map] in E. rewrite concat_cons, app_assoc' in E. by eexists. }
    destruct w as [s|z| |]; [done| |done..]. cbn [json_stringify flat] in *. unfold string_of_Z in Et.
    rewrite (proj2 (Z.ltb_ge z 0)) in Et by done.
    destruct (string_of_N_head (Z.to_N z)) as (c & u & Ec & Hc). rewrite Ec, !app_cons in Et.
    injection Et as -> _. done.
  - destruct Hq as [|w q Hw Hq].
    { exfalso. cbn [map] in E.
      assert (∃ t, json_stringify v +:+ t = "]" +:+ r') as [t Et].
      { destruct p as [|w' p]; [by eexists|]. cbn [map] in E. rewrite concat_cons, app_assoc' in E. by eexists. }
      destruct v as [s|z| |]; [done| |done..]. cbn [json_stringify flat] in *. unfold string_of_Z in Et.
      rewrite (proj2 (Z.ltb_ge z 0)) in Et by done.
      destruct (string_of_N_head (Z.to_N z)) as (c & u & Ec & Hc). rewrite Ec, !app_cons in Et.
      injection Et as -> _. done. }
    destruct p as [|v' p], q as [|w' q]; cbn [map] in E;
      rewrite ?concat_cons, ?app_assoc' in E; cbn [String.concat] in E.
    + apply flat_value_inj in E as [-> _]; done.
    + apply flat_value_inj in E as [-> E]; [done..|]. done.
    + apply flat_value_inj in E as [-> E]; [done..|]. done.
    + apply flat_value_inj in E as [-> E]; [|done..]. f_equal. apply IH; [done..|].
      rewrite !app_cons, !app_nil' in E. by injection E.
Qed.

(** A flat array's text determines its values. *)
Lemma stringify_flat_inj p q : Forall flat p → Forall flat q →
  json_stringify (JArr p) = json_stringify (JArr q) → p = q.
Proof.
  intros Hp Hq E. cbn [json_stringify] in E. rewrite !app_cons, !app_nil' in E. injection E as E.
  apply (flat_values_inj p q "" ""); [done..|]. by rewrite !app_nil_r'.
Qed.

#[global] Arguments uuid : simpl never.
#[global] Arguments integer : simpl never.
#[global] Arguments bytesOf : simpl never.
#[global] Arguments digestOf : simpl never.
#[global] Arguments oneOf : simpl never.
