(* ===== verification/Padding.v ===== *)
(** * Padmé padding of file sizes (packages/crypto/src/padding.ts)

    The size a suite 3 object has on the server: the plaintext's length
    rounded up so that only its top bits survive. BigInts are [Z]; the result
    is refused beyond 2^53 - 1. *)

From S2P Require Import Prelude.

(** [n.toString(2).length] of a positive BigInt. *)
Definition bit_length (n : Z) : Z := Z.log2 n + 1.

Definition padmeMask (value : Z) : Z :=
  let e := bit_length value - 1 in
  let s := bit_length e in
  Z.shiftl 1 (e - s) - 1.

Definition paddedLength (length : Z) : result Z :=
  refuse "Invalid file size." when negb (is_safe_integer length) || (length <? 0) ;;
  if length <=? 256 then Ok 256
  else
    let mask := padmeMask length in
    let out := Z.land (length + mask) (Z.lnot mask) in
    refuse "Invalid file size." when MAX_SAFE_INTEGER <? out ;;
    Ok out.

(** The low bits a bucket drops: [e - s] of them. *)
Definition padme_bits (value : Z) : Z := Z.log2 value - bit_length (Z.log2 value).
(** [value] rounded up to a multiple of [2 ^ k]. *)
Definition round_up (value k : Z) : Z := (value + (2 ^ k - 1)) / 2 ^ k * 2 ^ k.

Lemma padme_bits_pos v : 256 < v → 0 ≤ padme_bits v ∧ 1 ≤ bit_length (Z.log2 v) ∧ 8 ≤ Z.log2 v.
Proof.
  intros Hv. assert (8 ≤ Z.log2 v) as H8 by (apply (Z.log2_le_pow2 v 8); lia).
  pose proof (Z.log2_nonneg (Z.log2 v)). unfold padme_bits, bit_length.
  pose proof (Z.log2_lt_lin (Z.log2 v) ltac:(lia)). lia.
Qed.

Lemma padmeMask_eq v : 256 < v → padmeMask v = Z.ones (padme_bits v).
Proof.
  intros Hv. destruct (padme_bits_pos v Hv). unfold padmeMask.
  replace (bit_length v - 1) with (Z.log2 v) by (unfold bit_length; lia).
  fold (padme_bits v). unfold Z.ones. lia.
Qed.

Lemma land_lnot_ones x k : 0 ≤ k → Z.land x (Z.lnot (Z.ones k)) = x / 2 ^ k * 2 ^ k.
Proof.
  intros Hk. rewrite <- Z.ldiff_land, Z.ldiff_ones_r by done.
  by rewrite Z.shiftl_mul_pow2, Z.shiftr_div_pow2.
Qed.

Lemma padme_round v : 256 < v →
  Z.land (v + padmeMask v) (Z.lnot (padmeMask v)) = round_up v (padme_bits v).
Proof.
  intros Hv. destruct (padme_bits_pos v Hv). rewrite padmeMask_eq by done.
  rewrite land_lnot_ones by done. unfold round_up. by rewrite Z.ones_equiv, Z.sub_1_r.
Qed.

Lemma round_up_bounds v k : 0 ≤ k → v ≤ round_up v k < v + 2 ^ k.
Proof.
  intros Hk. unfold round_up. pose proof (Z.pow_pos_nonneg 2 k ltac:(lia) Hk) as Hp.
  pose proof (Z.div_mod (v + (2 ^ k - 1)) (2 ^ k) ltac:(lia)).
  pose proof (Z.mod_pos_bound (v + (2 ^ k - 1)) (2 ^ k) Hp). lia.
Qed.

Lemma round_up_mono a b k : 0 ≤ k → a ≤ b → round_up a k ≤ round_up b k.
Proof.
  intros Hk Hab. unfold round_up. apply Z.mul_le_mono_nonneg_r; [lia|].
  apply Z.div_le_mono; [|lia]. apply Z.pow_pos_nonneg; lia.
Qed.

Lemma round_up_multiple m k : 0 ≤ k → round_up (m * 2 ^ k) k = m * 2 ^ k.
Proof.
  intros Hk. unfold round_up. pose proof (Z.pow_pos_nonneg 2 k ltac:(lia) Hk).
  rewrite Z.div_add_l by lia. rewrite Z.div_small by lia. lia.
Qed.

(** A bucket never passes the next power of two. *)
Lemma round_up_pow v k e : 0 ≤ k ≤ e → v ≤ 2 ^ e → round_up v k ≤ 2 ^ e.
Proof.
  intros Hk Hv. replace (2 ^ e) with (2 ^ (e - k) * 2 ^ k) in *
    by (rewrite <- Z.pow_add_r by lia; f_equal; lia).
  rewrite <- (round_up_multiple (2 ^ (e - k)) k) by lia. apply round_up_mono; lia.
Qed.

Lemma log2_bounds v : 0 < v → 2 ^ Z.log2 v ≤ v < 2 ^ (Z.log2 v + 1).
Proof. intros Hv. pose proof (Z.log2_spec v Hv). by rewrite <- Z.add_1_r in *. Qed.

(** What [paddedLength] gives, in one place: 256 up to 256, else the bucket. *)
Lemma paddedLength_ok v out : paddedLength v = Ok out →
  0 ≤ v ≤ MAX_SAFE_INTEGER ∧ out ≤ MAX_SAFE_INTEGER ∧
  ((v ≤ 256 ∧ out = 256) ∨ (256 < v ∧ out = round_up v (padme_bits v))).
Proof.
  unfold paddedLength. intros H. res_inv. bool_simpl. unfold is_safe_integer in *. bool_simpl.
  destruct (v <=? 256) eqn:E; res_inv; bool_simpl.
  - unfold MAX_SAFE_INTEGER in *. split_and!; try lia.
  - cbv zeta in *. rewrite padme_round in * by done. split_and!; lia.
Qed.

Lemma paddedLength_complete v out : 0 ≤ v ≤ MAX_SAFE_INTEGER → out ≤ MAX_SAFE_INTEGER →
  ((v ≤ 256 ∧ out = 256) ∨ (256 < v ∧ out = round_up v (padme_bits v))) → paddedLength v = Ok out.
Proof.
  intros Hv Ho Hc. unfold paddedLength. assert (is_safe_integer v = true) as ->.
  { unfold is_safe_integer. rewrite andb_true_iff, !Z.leb_le. unfold MAX_SAFE_INTEGER in *. lia. }
  simpl. rewrite (proj2 (Z.ltb_ge _ _)) by lia. destruct Hc as [[? ->]|[? ->]].
  - by rewrite (proj2 (Z.leb_le _ _)).
  - rewrite (proj2 (Z.leb_gt _ _)) by lia. rewrite padme_round by done.
    by rewrite (proj2 (Z.ltb_ge _ _)) by lia.
Qed.

(** The bucket of a bucket is itself, as the bucket's bits below its own cut
    are zero: also when rounding up reached the next power of two. *)
Lemma round_up_bucket v : 256 < v →
  let out := round_up v (padme_bits v) in out = round_up out (padme_bits out).
Proof.
  intros Hv out. destruct (padme_bits_pos v Hv) as (Hk & Hs & He).
  destruct (round_up_bounds v (padme_bits v) Hk). fold out in H, H0.
  destruct (log2_bounds v ltac:(lia)) as [Hl Hu].
  assert (out ≤ 2 ^ (Z.log2 v + 1)) as Hmax.
  { apply round_up_pow; [unfold padme_bits in *; lia|lia]. }
  destruct (decide (out = 2 ^ (Z.log2 v + 1))) as [Eo|Hne].
  - assert (256 < out) as Hbig by lia. destruct (padme_bits_pos out Hbig) as (Hk' & Hs' & _).
    assert (padme_bits out ≤ Z.log2 v + 1) as Hle.
    { unfold padme_bits in *. rewrite Eo in *. rewrite Z.log2_pow2 in * by lia. lia. }
    rewrite Eo at 1 2. replace (2 ^ (Z.log2 v + 1)) with
      (2 ^ (Z.log2 v + 1 - padme_bits out) * 2 ^ padme_bits out)
      by (rewrite <- Z.pow_add_r by lia; f_equal; lia).
    by rewrite round_up_multiple.
  - assert (Z.log2 out = Z.log2 v) as El.
    { apply Z.log2_unique; [lia|]. rewrite <- Z.add_1_r. lia. }
    assert (padme_bits out = padme_bits v) as -> by (unfold padme_bits; by rewrite El).
    symmetry. subst out. unfold round_up at 2. by apply round_up_multiple.
Qed.

Lemma round_up_bucket_mono a b : 256 < a → a ≤ b →
  round_up a (padme_bits a) ≤ round_up b (padme_bits b).
Proof.
  intros Ha Hab. destruct (padme_bits_pos a Ha) as (Hk & _ & _), (padme_bits_pos b ltac:(lia)) as (Hkb & _ & _).
  pose proof (Z.log2_le_mono a b Hab). destruct (decide (Z.log2 a = Z.log2 b)) as [E|].
  - assert (padme_bits a = padme_bits b) as -> by (unfold padme_bits; by rewrite E).
    by apply round_up_mono.
  - destruct (log2_bounds a ltac:(lia)) as [_ Hu], (log2_bounds b ltac:(lia)) as [Hl _].
    trans (2 ^ (Z.log2 a + 1)).
    + apply round_up_pow; [unfold padme_bits in *; pose proof (Z.log2_nonneg (Z.log2 a)); unfold bit_length in *; lia|lia].
    + trans b; [|by apply round_up_bounds]. etrans; [|exact Hl]. apply Z.pow_le_mono_r; lia.
Qed.

(** ** Properties *)

(** An object's padded size is never below the file's length, stays a safe
    integer, is at least 256, and above 256 bytes the padding is under
    [2^-S] of the length, [S = floor(log2(log2 L)) + 1]. *)
Theorem paddedLength_bounds v out : paddedLength v = Ok out →
  v ≤ out ∧ 256 ≤ out ≤ MAX_SAFE_INTEGER ∧
  (256 < v → (out - v) * 2 ^ (Z.log2 (Z.log2 v) + 1) < v).
Proof.
  intros (Hv & Ho & [[? ->]|[H256 ->]])%paddedLength_ok; [split_and!; lia|].
  destruct (padme_bits_pos v H256) as (Hk & Hs & He).
  destruct (round_up_bounds v (padme_bits v) Hk) as [Hlo Hhi].
  split_and!; try lia. intros _. destruct (log2_bounds v ltac:(lia)) as [Hl _].
  fold (bit_length (Z.log2 v)). set (s := bit_length (Z.log2 v)) in *.
  assert (2 ^ padme_bits v * 2 ^ s = 2 ^ Z.log2 v) as Hpow.
  { rewrite <- Z.pow_add_r by lia. f_equal. unfold padme_bits. lia. }
  pose proof (Z.pow_pos_nonneg 2 s ltac:(lia) ltac:(lia)). nia.
Qed.

Lemma paddedLength_bounds_witness :
  paddedLength 1000 = Ok 1024 ∧ 1000 ≤ 1024 ∧ 256 ≤ 1024 ≤ MAX_SAFE_INTEGER ∧
  (256 < 1000 → (1024 - 1000) * 2 ^ (Z.log2 (Z.log2 1000) + 1) < 1000).
Proof. split; [reflexivity|apply (paddedLength_bounds 1000 1024); reflexivity]. Defined.

(** Padding is monotone and idempotent: a longer file never gets a smaller
    object, and a bucket's size is its own bucket, so sizes on the server are
    exactly the buckets. *)
Theorem paddedLength_buckets a b x y : paddedLength a = Ok x → paddedLength b = Ok y → a ≤ b →
  x ≤ y ∧ paddedLength x = Ok x.
Proof.
  intros Ha Hb Hab. apply paddedLength_ok in Ha as (Hva & Hxa & Ca), Hb as (Hvb & Hxb & Cb). split.
  - destruct Ca as [[? ->]|[? ->]], Cb as [[? ->]|[? ->]]; try lia.
    + destruct (round_up_bounds b (padme_bits b)); [by apply padme_bits_pos|lia].
    + by apply round_up_bucket_mono.
  - destruct Ca as [[? ->]|[? ->]]; [reflexivity|].
    destruct (round_up_bounds a (padme_bits a)); [by apply padme_bits_pos|].
    apply paddedLength_complete; [lia|done|]. right. split; [lia|]. by apply round_up_bucket.
Qed.

Lemma paddedLength_buckets_witness :
  (paddedLength 1000 = Ok 1024 ∧ paddedLength 70000 = Ok 71680) ∧ 1024 ≤ 71680 ∧ paddedLength 1024 = Ok 1024.
Proof.
  split; [split; reflexivity|].
  apply (paddedLength_buckets 1000 70000 1024 71680); [reflexivity|reflexivity|lia].
Defined.
