(* ===== verification/HChaCha.v ===== *)
(** * HChaCha20 (packages/crypto/src/drive.ts)

    The subkey derivation of XChaCha20-Poly1305, which drive.ts writes out
    itself: a [Uint32Array] of sixteen words, [|0] and the shifts taken modulo
    2^32. *)

From S2P Require Import Prelude Base64url Bytes.

(** A number stored in a [Uint32Array]. *)
Definition u32 (v : Z) : Z := Z.land v 4294967295.

Definition rotl (value bits : Z) : Z :=
  u32 (Z.lor (Z.shiftl value bits) (Z.shiftr value (32 - bits))).

Definition quarter (x : list Z) (a b c d : nat) : list Z :=
  let x := <[a := u32 (x !!! a + x !!! b)]> x in
  let x := <[d := rotl (Z.lxor (x !!! d) (x !!! a)) 16]> x in
  let x := <[c := u32 (x !!! c + x !!! d)]> x in
  let x := <[b := rotl (Z.lxor (x !!! b) (x !!! c)) 12]> x in
  let x := <[a := u32 (x !!! a + x !!! b)]> x in
  let x := <[d := rotl (Z.lxor (x !!! d) (x !!! a)) 8]> x in
  let x := <[c := u32 (x !!! c + x !!! d)]> x in
  <[b := rotl (Z.lxor (x !!! b) (x !!! c)) 7]> x.

(** [view(bytes).getUint32(offset, true)] and [setUint32(offset, word, true)] *)
Fixpoint reverse_bytes (s acc : bytes) : bytes :=
  match s with EmptyString => acc | String c s' => reverse_bytes s' (String c acc) end.
Definition getUint32_le (s : bytes) (offset : Z) : Z :=
  be_value (reverse_bytes (subarray offset (offset + 4) s) EmptyString).
Definition uint32_le (word : Z) : bytes := reverse_bytes (be_bytes 4 word) EmptyString.

Definition double_round (x : list Z) : list Z :=
  let x := quarter x 0 4 8 12 in
  let x := quarter x 1 5 9 13 in
  let x := quarter x 2 6 10 14 in
  let x := quarter x 3 7 11 15 in
  let x := quarter x 0 5 10 15 in
  let x := quarter x 1 6 11 12 in
  let x := quarter x 2 7 8 13 in
  quarter x 3 4 9 14.

Definition initial_state (key input : bytes) : list Z :=
  [0x61707865; 0x3320646e; 0x79622d32; 0x6b206574] ++
  map (λ i, getUint32_le key (i * 4)) [0; 1; 2; 3; 4; 5; 6; 7] ++
  map (λ i, getUint32_le input (i * 4)) [0; 1; 2; 3].

Definition hchacha20 (key input : bytes) : bytes :=
  let x := Nat.iter 10 double_round (initial_state key input) in
  foldr (λ i out, uint32_le (x !!! i) +:+ out) EmptyString [0; 1; 2; 3; 12; 13; 14; 15]%nat.

#[global] Arguments hchacha20 : simpl never.

(** ** Its shape *)

Lemma slen_reverse_bytes s acc : slen (reverse_bytes s acc) = slen s + slen acc.
Proof.
  revert acc; induction s as [|c s IH]; intros acc; [done|]. simpl. rewrite IH, !slen_cons. lia.
Qed.
Lemma slen_uint32_le w : slen (uint32_le w) = 4.
Proof. unfold uint32_le. by rewrite slen_reverse_bytes, slen_be_bytes. Qed.

Lemma hchacha20_length key input : slen (hchacha20 key input) = 32.
Proof.
  unfold hchacha20. generalize (Nat.iter 10 double_round (initial_state key input)). intros x.
  cbn [foldr]. by rewrite !slen_app, !slen_uint32_le.
Qed.

Section words.
Definition word (v : Z) : Prop := 0 ≤ v < 2 ^ 32.

Lemma u32_word v : word (u32 v).
Proof.
  unfold u32, word. change 4294967295 with (Z.ones 32). rewrite Z.land_ones by lia.
  by apply Z.mod_pos_bound.
Qed.
Lemma u32_id v : word v → u32 v = v.
Proof.
  unfold u32, word. intros Hv. change 4294967295 with (Z.ones 32). rewrite Z.land_ones by lia.
  by apply Z.mod_small.
Qed.
Lemma quarter_words x a b c d : Forall word x → Forall word (quarter x a b c d).
Proof.
  intros Hx. unfold quarter. cbv zeta.
  repeat (apply Forall_insert; [|unfold rotl; apply u32_word]). done.
Qed.
Lemma quarter_length x a b c d : length (quarter x a b c d) = length x.
Proof. unfold quarter. cbv zeta. by rewrite !length_insert. Qed.
Lemma double_round_length x : length (double_round x) = length x.
Proof. unfold double_round. cbv zeta. by rewrite !quarter_length. Qed.
Lemma double_round_words x : Forall word x → Forall word (double_round x).
Proof. intros. unfold double_round. cbv zeta. by repeat apply quarter_words. Qed.
End words.

(** The known answer of draft-irtf-cfrg-xchacha, section 2.2.1, which the
    repository's tests pin the code to as well. *)
Example hchacha20_known_answer :
  to_hex (hchacha20
    (foldr (λ n s, String (ascii_of_nat n) s) EmptyString (List.seq 0 32))
    (foldr (λ n s, String (ascii_of_nat n) s) EmptyString
      [0; 0; 0; 9; 0; 0; 0; 74; 0; 0; 0; 0; 49; 65; 89; 39]%nat))
  = "82413b4227b27bfed30e42508a877d73a0f9e4d58a74a853c12ec41326d3ecdc".
Proof. vm_compute. reflexivity. Qed.
