(* ===== verification/Crypto.v ===== *)
(** * Cryptographic primitives and hybrid signatures

    The primitives come from Web Crypto, libsodium and noble: they are the
    fields of the class [Crypto], and [CryptoLaws] states the documented facts
    about them the development relies on. What the repository builds on them
    (packages/crypto/src/signatures.ts, pq.ts, fingerprint.ts) is defined
    here: digests, the Ed25519 and ML-DSA checks with their length guards, the
    hybrid signature, and the fingerprint's words. *)

From S2P Require Import Prelude Base64url Bytes Canonical HChaCha.

Class Crypto := {
  sha256 (message : bytes) : bytes;
  (** HKDF-SHA-256 of a key with 32 zero bytes of salt and an info label, 32 bytes. *)
  hkdf (key : bytes) (info : string) : bytes;
  (** [sodium.crypto_sign_verify_detached(signature, message, publicKey)] *)
  ed25519_verify (signature message publicKey : bytes) : bool;
  (** [ml_dsa65.verify(signature, message, publicKey, { context })] *)
  ml_dsa65_verify (signature message publicKey : bytes) (context : string) : bool;
  (** [sodium.crypto_aead_xchacha20poly1305_ietf_encrypt(plaintext, aad, null, nonce, key)], which throws on a key or nonce of the wrong length. *)
  xchacha_seal (key nonce aad plaintext : bytes) : result bytes;
  (** [..._xchacha20poly1305_ietf_decrypt(null, ciphertext, aad, nonce, key)]; nothing when it throws. *)
  xchacha_open (key nonce aad ciphertext : bytes) : option bytes;
  (** [sodium.crypto_aead_chacha20poly1305_ietf_decrypt], with its 12-byte nonce. *)
  chacha_open (key nonce aad ciphertext : bytes) : option bytes;
  (** [sodium.crypto_kdf_derive_from_key(32, id, context, key)] *)
  kdf (id : Z) (context : string) (key : bytes) : bytes;
  (** The BIP-39 English word list, by index. *)
  bip39_word (index : N) : string;
}.

Class CryptoLaws (C : Crypto) : Prop := {
  sha256_length x : slen (sha256 x) = 32;
  hkdf_length k i : slen (hkdf k i) = 32;
  kdf_length id c k : slen (kdf id c k) = 32;
  (** What was sealed opens, under the same key, nonce and associated data. *)
  xchacha_open_seal k n a p c : xchacha_seal k n a p = Ok c → xchacha_open k n a c = Some p;
  xchacha_seal_ok k n a p : slen k = 32 → slen n = 24 → ∃ c, xchacha_seal k n a p = Ok c;
  xchacha_seal_length k n a p c : xchacha_seal k n a p = Ok c → slen c = slen p + 16;
  xchacha_open_length k n a c p : xchacha_open k n a c = Some p → slen c = slen p + 16;
  (** XChaCha20-Poly1305 is ChaCha20-Poly1305 under the HChaCha20 subkey of
      the nonce's first 16 bytes, the rest of the nonce after four zero bytes
      (draft-irtf-cfrg-xchacha, section 2.3). *)
  xchacha_is_chacha k n a c : slen k = 32 → slen n = 24 →
    xchacha_open k n a c =
      chacha_open (hchacha20 k (subarray 0 16 n)) (fill 4 "000"%char +:+ subarray_from 16 n) a c;
}.

Definition SIGNATURE_BYTES : Z := 64.
Definition SIGNING_PUBLIC_KEY_BYTES : Z := 32.
Definition ML_DSA_PUBLIC_KEY_BYTES : Z := 1952.
Definition ML_DSA_SIGNATURE_BYTES : Z := 3309.
Definition KEM_PUBLIC_KEY_BYTES : Z := 1184.
Definition HYBRID_SIGNATURE_BYTES : Z := SIGNATURE_BYTES + ML_DSA_SIGNATURE_BYTES.
Definition IDENTITY_SIGNATURE_CONTEXT := "hushos/identity/v1".

(** The two public halves a hybrid signature verifies under. *)
Module HybridPublicKey.
Record t := { signingPublicKey : bytes; mlDsaPublicKey : bytes }.
End HybridPublicKey.

Section primitives.
Context `{C : Crypto}.

(** SHA-256, base64url: how a statement names bytes. *)
Definition digest (b : bytes) : string := encode (sha256 b).

(** SHA-256 of a public key, as hex: what a pin keeps of the lattice keys. *)
Definition keyDigest (publicKey : bytes) : string := to_hex (sha256 publicKey).

Definition verifyStatement (message signature signingPublicKey : bytes) : bool :=
  (slen signature =? SIGNATURE_BYTES) && (slen signingPublicKey =? SIGNING_PUBLIC_KEY_BYTES) &&
  ed25519_verify signature message signingPublicKey.

Definition mlDsaVerify (signature message publicKey : bytes) (context : string) : bool :=
  (slen signature =? ML_DSA_SIGNATURE_BYTES) && (slen publicKey =? ML_DSA_PUBLIC_KEY_BYTES) &&
  ml_dsa65_verify signature message publicKey context.

Definition verifyHybrid (message signature : bytes) (keys : HybridPublicKey.t) : bool :=
  (slen signature =? HYBRID_SIGNATURE_BYTES) &&
  verifyStatement message (subarray 0 SIGNATURE_BYTES signature) (HybridPublicKey.signingPublicKey keys) &&
  mlDsaVerify (subarray SIGNATURE_BYTES HYBRID_SIGNATURE_BYTES signature) message
    (HybridPublicKey.mlDsaPublicKey keys) IDENTITY_SIGNATURE_CONTEXT.

(** [BigInt(`0x${hex}`)] *)
Definition hex_number (hex : string) : N :=
  (fix go (s : string) (n : N) : N :=
    match s with
    | EmptyString => n
    | String c s' => go s' (n * 16 + match hex_value c with Some d => d | None => 0 end)%N
    end) hex 0%N.

(** The loop of [fingerprintWords]: the low eleven bits name the last word. *)
Fixpoint words_of (count : nat) (bits : N) (words : list string) : list string :=
  match count with
  | O => words
  | S count' => words_of count' (N.shiftr bits 11) (bip39_word (N.land bits 2047) :: words)
  end.

(** [fingerprint.replaceAll(' ', '')] *)
Fixpoint without_spaces (s : string) : string :=
  match s with
  | EmptyString => EmptyString
  | String c s' => if c === " "%char then without_spaces s' else String c (without_spaces s')
  end.

(** The fingerprint's first 132 bits, eleven at a time, each naming a word. *)
Definition fingerprintWords (shown : string) : result (list string) :=
  let hex := without_spaces shown in
  refuse "Invalid fingerprint." unless string_forallb is_hex_char hex && (slen hex =? 40) ;;
  Ok (words_of 12 (N.shiftr (hex_number hex) 28) []).

(** [hex.match(/.{4}/g)!.join(' ')] *)
Fixpoint groups_of_four (s : string) : string :=
  match s with
  | String a (String b (String c (String d s'))) =>
      String a (String b (String c (String d
        (match s' with
         | String _ (String _ (String _ (String _ _))) => String " " (groups_of_four s')
         | _ => EmptyString
         end))))
  | _ => EmptyString
  end.

Definition fingerprint (encryptionPublicKey signingPublicKey mlDsaPublicKeyDigest kemPublicKeyDigest : bytes)
    : result string :=
  refuse "Invalid identity key." when
    negb (slen encryptionPublicKey =? 32) || negb (slen signingPublicKey =? 32) ||
    negb (slen mlDsaPublicKeyDigest =? 32) || negb (slen kemPublicKeyDigest =? 32) ;;
  Ok (groups_of_four (to_hex (subarray 0 20 (sha256
    ("hushos/identity/fingerprint/v3" +:+ encryptionPublicKey +:+ signingPublicKey +:+
     mlDsaPublicKeyDigest +:+ kemPublicKeyDigest))))).

Definition fingerprintOfKeys (encryptionPublicKey signingPublicKey mlDsaPublicKey kemPublicKey : bytes)
    : result string :=
  refuse "Invalid identity key." when
    negb (slen mlDsaPublicKey =? ML_DSA_PUBLIC_KEY_BYTES) || negb (slen kemPublicKey =? KEM_PUBLIC_KEY_BYTES) ;;
  let* mlDsa := hexBytes (keyDigest mlDsaPublicKey) in
  let* kem := hexBytes (keyDigest kemPublicKey) in
  fingerprint encryptionPublicKey signingPublicKey mlDsa kem.
End primitives.

(** Two distinct inputs with one digest: what the security of every statement
    that names bytes by their SHA-256 rests on never being found. *)
Definition collision `{C : Crypto} : Prop := ∃ x y, x ≠ y ∧ sha256 x = sha256 y.

Section digests.
Context `{CL : CryptoLaws}.

Lemma digest_eq a b : digest a = digest b → a = b ∨ collision.
Proof.
  intros E%encode_inj. destruct (decide (a = b)); [by left|]. right. by exists a, b.
Qed.

Lemma digest_decodes b : decode (digest b) (Some 32) = Ok (sha256 b).
Proof.
  apply decode_encode_len; [|apply sha256_length].
  intros E. pose proof (sha256_length b) as Hl. by rewrite E in Hl.
Qed.

Lemma digestOf_digest b w : digestOf (JStr (digest b)) w = Ok (digest b).
Proof. unfold digestOf, bytesOf. by rewrite digest_decodes. Qed.

(** A pin's hex digest and a statement's base64url digest of one key agree. *)
Lemma digestHex_digest b : digestHex (digest b) = Ok (keyDigest b).
Proof.
  apply digestHex_digestBase64url. unfold digestBase64url, keyDigest.
  rewrite hexBytes_to_hex by apply sha256_length. done.
Qed.
End digests.

(** A stand-in for the primitives, for evaluating the definitions on concrete
    inputs: [sha256] and [hkdf] write a 64-bit polynomial of the input as 32 bytes, and a signature is valid
    when it begins with the first bytes of the digest of key and message. *)
Module Toy.
Fixpoint poly (s : bytes) (acc : N) : N :=
  match s with
  | EmptyString => acc
  | String c s' => poly s' (N.land (acc * 65599 + N_of_ascii c + 1) 18446744073709551615)
  end.
Fixpoint to_bytes (n : nat) (v : N) : bytes :=
  match n with
  | O => EmptyString
  | S n' => String (ascii_of_N (v mod 256)) (to_bytes n' (v / 256)%N)
  end.
Definition hash (s : bytes) : bytes := to_bytes 32 (poly s 7%N).
Definition pad (n : Z) (s : bytes) : bytes :=
  s +:+ to_bytes (Z.to_nat n - String.length s) 0%N.
(** A signature of [n] bytes over [m] under the public key [pk]. *)
Definition sign (n : Z) (pk m : bytes) (ctx : string) : bytes := pad n (hash (ctx +:+ hash pk +:+ m)).

(** Sealing appends the first 16 bytes of a digest of everything that went in. *)
Definition tag (key nonce aad plaintext : bytes) : bytes :=
  subarray 0 16 (hash (key +:+ nonce +:+ hash aad +:+ plaintext)).
Definition chacha_seal (key nonce aad plaintext : bytes) : bytes :=
  plaintext +:+ tag key nonce aad plaintext.
Definition chacha_open' (key nonce aad ciphertext : bytes) : option bytes :=
  let n := slen ciphertext - 16 in
  let plaintext := subarray 0 n ciphertext in
  if (0 <=? n) && (subarray_from n ciphertext === tag key nonce aad plaintext)
  then Some plaintext else None.
Definition subkey (key nonce : bytes) : bytes := hchacha20 key (subarray 0 16 nonce).
Definition tail_nonce (nonce : bytes) : bytes := fill 4 "000"%char +:+ subarray_from 16 nonce.

#[export] Instance crypto : Crypto := {|
  sha256 := hash;
  hkdf k i := hash (i +:+ k);
  ed25519_verify sg m pk := sg === sign 64 pk m "";
  ml_dsa65_verify sg m pk ctx := sg === sign 3309 pk m ctx;
  xchacha_seal k n a p :=
    if (slen k =? 32) && (slen n =? 24) then Ok (chacha_seal (subkey k n) (tail_nonce n) a p)
    else Err "invalid length";
  xchacha_open k n a c :=
    if (slen k =? 32) && (slen n =? 24) then chacha_open' (subkey k n) (tail_nonce n) a c else None;
  chacha_open := chacha_open';
  kdf id c k := hash (string_of_Z id +:+ c +:+ k);
  bip39_word n := "word" +:+ string_of_N n;
|}.

Lemma to_bytes_length n v : slen (to_bytes n v) = Z.of_nat n.
Proof.
  revert v; induction n as [|n IH]; intros v; [done|].
  cbn [to_bytes]. rewrite slen_cons, IH. lia.
Qed.
Lemma tag_length k n a p : slen (tag k n a p) = 16.
Proof. apply slen_subarray; [lia|]. unfold hash. rewrite to_bytes_length. lia. Qed.
Lemma chacha_open_seal k n a p : chacha_open' k n a (chacha_seal k n a p) = Some p.
Proof.
  unfold chacha_open', chacha_seal. rewrite slen_app, tag_length. cbv zeta.
  replace (slen p + 16 - 16) with (slen p) by lia.
  rewrite subarray_prefix, subarray_from_app by done.
  pose proof (slen_nonneg p). rewrite (proj2 (Z.leb_le 0 (slen p))) by done.
  cbn [andb]. by rewrite bool_decide_eq_true_2.
Qed.
Lemma chacha_open_length k n a c p : chacha_open' k n a c = Some p → slen c = slen p + 16.
Proof.
  unfold chacha_open'. cbv zeta. destruct (0 <=? slen c - 16) eqn:E; [|done]. cbn [andb]. apply Z.leb_le in E.
  destruct (_ === _); [|done]. intros [= <-]. rewrite slen_subarray; lia.
Qed.

#[export] Instance crypto_laws : CryptoLaws crypto.
Proof.
  split; try (intros; apply to_bytes_length).
  - intros k n a p c. simpl. destruct (_ && _); [|done]. intros [= <-]. apply chacha_open_seal.
  - intros k n a p Hk Hn. simpl. rewrite Hk, Hn. simpl. eauto.
  - intros k n a p c. simpl. destruct (_ && _); [|done]. intros [= <-].
    unfold chacha_seal. by rewrite slen_app, tag_length.
  - intros k n a c p. simpl. destruct (_ && _); [|done]. apply chacha_open_length.
  - intros k n a c Hk Hn. simpl. rewrite Hk, Hn. done.
Qed.

(** A hybrid signature under the toy primitives. *)
Definition sign_hybrid (ed mldsa m : bytes) : bytes :=
  sign 64 ed m "" +:+ sign 3309 mldsa m IDENTITY_SIGNATURE_CONTEXT.
End Toy.
