(* ===== verification/Content.v ===== *)
(** * Drive's content framing (packages/crypto/src/drive.ts)

    A stored object is its file's plaintext in independent 8 MiB chunks, each
    sealed on its own, then the thumbnail's trailer; content suite 3 pads the
    file so that chunks and trailer come to a Padmé bucket. The arithmetic, the
    ranges a reader fetches, the nonces, and sealing and opening a chunk and a
    thumbnail. *)

From S2P Require Import Prelude Base64url Bytes Canonical Padding HChaCha Crypto.

(** ** Shared checks of drive.ts *)

Definition CONTENT_SUITE : Z := 3.
Definition UNPADDED_CONTENT_SUITE : Z := 2.
Definition LEGACY_CONTENT_SUITE : Z := 1.
Definition READABLE_CONTENT_SUITES : list Z := [LEGACY_CONTENT_SUITE; UNPADDED_CONTENT_SUITE; CONTENT_SUITE].
Definition CHUNK_SIZE : Z := 8388608.
Definition CHUNK_TAG_BYTES : Z := 16.
Definition ENVELOPE_NONCE_BYTES : Z := 24.
Definition KEY_BYTES : Z := 32.
Definition CONTENT_NONCE_BYTES : Z := 16.
Definition THUMBNAIL_MAX_BYTES : Z := 65536.

Definition id (value what : string) : result string :=
  refuse (invalid what) unless UUID value ;; Ok value.
Definition epoch (value : Z) (what : string) : result Z :=
  refuse (invalid what) when negb (is_safe_integer value) || (value <? 1) ;; Ok value.
Definition checkSuite (value : Z) : result Z :=
  refuse "This file was stored in a way this app does not support." unless
    existsb (Z.eqb value) READABLE_CONTENT_SUITES ;;
  Ok value.
Definition byteCount (value : Z) (what : string) : result Z :=
  refuse (invalid what) when negb (is_safe_integer value) || (value <? 0) ;; Ok value.
Definition context (parts : list jsval) : bytes := json_stringify (JArr parts).

(** ** Arithmetic *)

(** [Math.ceil(length / CHUNK_SIZE)]: the divisor is a power of two, so the quotient is exact. *)
Definition chunkCount (length : Z) : result Z :=
  refuse "Invalid file size." when negb (is_safe_integer length) || (length <? 0) ;;
  Ok (Z.max 1 ((length + (CHUNK_SIZE - 1)) / CHUNK_SIZE)).

Definition trailerLength (thumbnailBytes : Z) : result Z :=
  refuse "Invalid thumbnail size." when
    negb (is_safe_integer thumbnailBytes) || (thumbnailBytes <? 0) || (THUMBNAIL_MAX_BYTES <? thumbnailBytes) ;;
  Ok (if 0 <? thumbnailBytes then thumbnailBytes + CHUNK_TAG_BYTES else 0).

Definition contentLength (suite plaintextSize thumbnailBytes : Z) : result Z :=
  let* _ := byteCount plaintextSize "file size" in
  let* trailer := trailerLength thumbnailBytes in
  let* suite := checkSuite suite in
  if suite <? CONTENT_SUITE then Ok plaintextSize
  else
    let* padded := paddedLength (plaintextSize + trailer) in
    Ok (padded - trailer).

Definition ciphertextSize (suite plaintextSize thumbnailBytes : Z) : result Z :=
  let* length := contentLength suite plaintextSize thumbnailBytes in
  let* count := chunkCount length in
  let* trailer := trailerLength thumbnailBytes in
  Ok (length + CHUNK_TAG_BYTES * count + trailer).

(** A range [{ start, end }], both ends included. *)
Definition thumbnailRange (suite plaintextSize thumbnailBytes : Z) : result (Z * Z) :=
  refuse "This file has no thumbnail." when thumbnailBytes <? 1 ;;
  let* size := ciphertextSize suite plaintextSize thumbnailBytes in
  let end_ := size - 1 in
  let* most := trailerLength THUMBNAIL_MAX_BYTES in
  Ok (Z.max 0 (end_ + 1 - most), end_).

Definition partLength (ciphertextSize chunkCount partNumber : Z) : result Z :=
  refuse "Invalid part number." when
    negb (is_safe_integer partNumber) || (partNumber <? 1) || (chunkCount <? partNumber) ;;
  if partNumber <? chunkCount then Ok (CHUNK_SIZE + CHUNK_TAG_BYTES)
  else Ok (ciphertextSize - (chunkCount - 1) * (CHUNK_SIZE + CHUNK_TAG_BYTES)).

Definition validObjectSize (ciphertextSize chunkCount : Z) : bool :=
  if negb (is_safe_integer ciphertextSize) || negb (is_safe_integer chunkCount) ||
     (chunkCount <? 1) || (ciphertextSize <? 0)
  then false
  else match partLength ciphertextSize chunkCount chunkCount with
  | Ok last =>
      let least := if chunkCount =? 1 then CHUNK_TAG_BYTES else CHUNK_TAG_BYTES + 1 in
      (least <=? last) &&
      (last <=? CHUNK_SIZE + CHUNK_TAG_BYTES + THUMBNAIL_MAX_BYTES + CHUNK_TAG_BYTES)
  | Err _ => false
  end.

Definition chunkPlaintextLength (length index : Z) : result Z :=
  let* count := chunkCount length in
  refuse "Invalid chunk index." when negb (is_safe_integer index) || (index <? 0) || (count <=? index) ;;
  Ok (if index <? count - 1 then CHUNK_SIZE else length - index * CHUNK_SIZE).

Definition chunkCiphertextLength (length index : Z) : result Z :=
  let* n := chunkPlaintextLength length index in Ok (n + CHUNK_TAG_BYTES).

Definition chunkRange (suite plaintextSize thumbnailBytes index : Z) : result (Z * Z) :=
  let* length := contentLength suite plaintextSize thumbnailBytes in
  let start := index * (CHUNK_SIZE + CHUNK_TAG_BYTES) in
  let* count := chunkCount length in
  if index =? count - 1 then
    let* size := ciphertextSize suite plaintextSize thumbnailBytes in
    Ok (start, size - 1)
  else
    let* n := chunkCiphertextLength length index in
    Ok (start, start + n - 1).

Definition fileBytesOf (chunk : bytes) (plaintextSize index : Z) : bytes :=
  let start := index * CHUNK_SIZE in
  subarray 0 (Z.max 0 (Z.min (slen chunk) (plaintextSize - start))) chunk.

(** ** Contexts and nonces *)

Definition chunkNonce (contentNonce : bytes) (index : Z) : result bytes :=
  refuse "Invalid content nonce." unless slen contentNonce =? CONTENT_NONCE_BYTES ;;
  Ok (contentNonce +:+ be_bytes 8 index).

Module ChunkContext.
Record t := {
  workspaceId : string; objectId : string; suite : Z; index : Z; chunkCount : Z;
  plaintextSize : Z; thumbnailBytes : Z;
}.
End ChunkContext.

Module ThumbnailContext.
Record t := {
  workspaceId : string; objectId : string; suite : Z; plaintextSize : Z; thumbnailBytes : Z;
}.
End ThumbnailContext.

Definition chunkContext (ctx : ChunkContext.t) : result bytes :=
  let* suite := checkSuite (ChunkContext.suite ctx) in
  let* workspaceId := id (ChunkContext.workspaceId ctx) "workspace id" in
  let* objectId := id (ChunkContext.objectId ctx) "object id" in
  Ok (context [JStr "hushos/drive/content"; JInt suite; JStr workspaceId; JStr objectId;
    JInt (ChunkContext.index ctx); JInt (ChunkContext.chunkCount ctx);
    JInt (ChunkContext.plaintextSize ctx)]).

Definition thumbnailContext (ctx : ThumbnailContext.t) : result bytes :=
  let* suite := checkSuite (ThumbnailContext.suite ctx) in
  refuse "This file was stored without room for a thumbnail." when suite =? LEGACY_CONTENT_SUITE ;;
  let* workspaceId := id (ThumbnailContext.workspaceId ctx) "workspace id" in
  let* objectId := id (ThumbnailContext.objectId ctx) "object id" in
  Ok (context [JStr "hushos/drive/thumbnail"; JInt (ThumbnailContext.suite ctx); JStr workspaceId;
    JStr objectId; JInt (ThumbnailContext.thumbnailBytes ctx)]).

Definition checkChunkContext (ctx : ChunkContext.t) : result Z :=
  let* length := contentLength (ChunkContext.suite ctx) (ChunkContext.plaintextSize ctx)
    (ChunkContext.thumbnailBytes ctx) in
  let* count := chunkCount length in
  refuse "Invalid chunk." unless ChunkContext.chunkCount ctx =? count ;;
  Ok length.

(** ** Sealing and opening *)

Section sealing.
Context `{C : Crypto}.

Definition damagedFile : string := "This file could not be decrypted. It may be damaged.".
Definition damagedThumbnail : string := "This thumbnail could not be decrypted. It may be damaged.".

Definition from_option_err {A} (e : string) (o : option A) : result A :=
  match o with Some a => Ok a | None => Err e end.

Definition encryptChunk (plaintext contentKey contentNonce : bytes) (ctx : ChunkContext.t) : result bytes :=
  let* length := checkChunkContext ctx in
  let* n := chunkPlaintextLength length (ChunkContext.index ctx) in
  refuse "Invalid chunk." unless slen plaintext =? n ;;
  let* aad := chunkContext ctx in
  let* nonce := chunkNonce contentNonce (ChunkContext.index ctx) in
  xchacha_seal contentKey nonce aad plaintext.

Definition decryptChunk (ciphertext contentKey contentNonce : bytes) (ctx : ChunkContext.t) : result bytes :=
  let* length := recast damagedFile
    (let* covered := checkChunkContext ctx in chunkCiphertextLength covered (ChunkContext.index ctx)) in
  let last := ChunkContext.index ctx =? ChunkContext.chunkCount ctx - 1 in
  refuse damagedFile when
    (if last then slen ciphertext <? length else negb (slen ciphertext =? length)) ;;
  recast damagedFile
    (let* aad := chunkContext ctx in
     let* nonce := chunkNonce contentNonce (ChunkContext.index ctx) in
     from_option_err damagedFile (xchacha_open contentKey nonce aad (subarray 0 length ciphertext))).

Definition thumbnailKey (contentKey : bytes) : result bytes :=
  refuse "Invalid content key." unless slen contentKey =? KEY_BYTES ;;
  Ok (kdf 1 "hushthmb" contentKey).

Definition encryptThumbnail (webp contentKey contentNonce : bytes) (ctx : ThumbnailContext.t) : result bytes :=
  refuse "Invalid thumbnail size." when (slen webp <? 1) || (THUMBNAIL_MAX_BYTES <? slen webp) ;;
  let* key := thumbnailKey contentKey in
  let* aad := thumbnailContext {|
    ThumbnailContext.workspaceId := ThumbnailContext.workspaceId ctx;
    ThumbnailContext.objectId := ThumbnailContext.objectId ctx;
    ThumbnailContext.suite := ThumbnailContext.suite ctx;
    ThumbnailContext.plaintextSize := ThumbnailContext.plaintextSize ctx;
    ThumbnailContext.thumbnailBytes := slen webp |} in
  let* length := contentLength (ThumbnailContext.suite ctx) (ThumbnailContext.plaintextSize ctx) (slen webp) in
  let* count := chunkCount length in
  let* nonce := chunkNonce contentNonce count in
  xchacha_seal key nonce aad webp.

Definition decryptThumbnail (fetched contentKey contentNonce : bytes) (ctx : ThumbnailContext.t) : result bytes :=
  let* length := trailerLength (ThumbnailContext.thumbnailBytes ctx) in
  refuse damagedThumbnail when (slen fetched <? length) || (ThumbnailContext.thumbnailBytes ctx <? 1) ;;
  let ciphertext := subarray_from (slen fetched - length) fetched in
  let* key := thumbnailKey contentKey in
  recast damagedThumbnail
    (let* aad := thumbnailContext ctx in
     let* length := contentLength (ThumbnailContext.suite ctx) (ThumbnailContext.plaintextSize ctx)
       (ThumbnailContext.thumbnailBytes ctx) in
     let* count := chunkCount length in
     let* nonce := chunkNonce contentNonce count in
     from_option_err damagedThumbnail (xchacha_open key nonce aad ciphertext)).
End sealing.

(** ** Lemmas on the layout *)

Lemma chunk_size_pos : 0 < CHUNK_SIZE.
Proof. done. Qed.

Lemma safe_nonneg z : negb (is_safe_integer z) || (z <? 0) = false ↔ 0 ≤ z ≤ MAX_SAFE_INTEGER.
Proof.
  rewrite orb_false_iff, negb_false_iff, is_safe_integer_true, Z.ltb_ge.
  unfold MAX_SAFE_INTEGER. lia.
Qed.

Lemma chunkCount_ok L n : chunkCount L = Ok n ↔
  0 ≤ L ≤ MAX_SAFE_INTEGER ∧ n = Z.max 1 ((L + (CHUNK_SIZE - 1)) / CHUNK_SIZE).
Proof.
  unfold chunkCount. rewrite <- safe_nonneg.
  destruct (negb _ || _); [split; [done|by intros [? _]]|].
  split; [by intros [= <-]|by intros [_ ->]].
Qed.

Lemma chunkCount_bounds L n : chunkCount L = Ok n →
  0 ≤ L ≤ MAX_SAFE_INTEGER ∧ 1 ≤ n ≤ MAX_SAFE_INTEGER ∧ L ≤ n * CHUNK_SIZE ∧
  (n = 1 ∨ (n - 1) * CHUNK_SIZE < L).
Proof.
  intros [HL ->]%chunkCount_ok. split; [done|].
  pose proof (Z.div_mod (L + (CHUNK_SIZE - 1)) CHUNK_SIZE ltac:(done)).
  pose proof (Z.mod_pos_bound (L + (CHUNK_SIZE - 1)) CHUNK_SIZE ltac:(done)).
  unfold MAX_SAFE_INTEGER, CHUNK_SIZE in *. split_and!; lia.
Qed.

Lemma chunkPlaintextLength_ok L n i : chunkCount L = Ok n → 0 ≤ i < n →
  chunkPlaintextLength L i = Ok (if i <? n - 1 then CHUNK_SIZE else L - i * CHUNK_SIZE).
Proof.
  intros Hn Hi. pose proof (chunkCount_bounds _ _ Hn) as (? & ? & _).
  unfold chunkPlaintextLength. rewrite Hn. simpl.
  assert (is_safe_integer i = true) as ->.
  { apply is_safe_integer_true. unfold MAX_SAFE_INTEGER in *. lia. }
  rewrite (proj2 (Z.ltb_ge i 0)), (proj2 (Z.leb_gt n i)) by lia. done.
Qed.

Lemma chunkPlaintextLength_inv L i m : chunkPlaintextLength L i = Ok m →
  ∃ n, chunkCount L = Ok n ∧ 0 ≤ i < n ∧ m = (if i <? n - 1 then CHUNK_SIZE else L - i * CHUNK_SIZE) ∧ 0 ≤ m.
Proof.
  unfold chunkPlaintextLength. intros H. res_inv. bool_simpl.
  match goal with Hc : chunkCount _ = Ok ?n |- _ => exists n; destruct (chunkCount_bounds _ _ Hc) as (? & ? & ? & ?) end.
  split_and!; try done; [lia..|].
  destruct (i <? _) eqn:E; [done|]. bool_simpl. unfold CHUNK_SIZE in *. lia.
Qed.

Lemma trailerLength_ok t r : trailerLength t = Ok r →
  0 ≤ t ≤ THUMBNAIL_MAX_BYTES ∧ 0 ≤ r ≤ THUMBNAIL_MAX_BYTES + CHUNK_TAG_BYTES ∧
  r = (if 0 <? t then t + CHUNK_TAG_BYTES else 0).
Proof.
  unfold trailerLength. intros H. res_inv. bool_simpl. split_and!; try lia;
    destruct (0 <? t) eqn:?; bool_simpl; unfold THUMBNAIL_MAX_BYTES, CHUNK_TAG_BYTES in *; lia.
Qed.

Lemma contentLength_ok s p t L : contentLength s p t = Ok L →
  ∃ r, trailerLength t = Ok r ∧ checkSuite s = Ok s ∧ 0 ≤ p ≤ MAX_SAFE_INTEGER ∧
    ((s < CONTENT_SUITE ∧ L = p) ∨ (s = CONTENT_SUITE ∧ paddedLength (p + r) = Ok (L + r))).
Proof.
  unfold contentLength. intros H. res_inv.
  match goal with Hb : byteCount _ _ = Ok _ |- _ => unfold byteCount in Hb; res_inv end.
  match goal with Hb : negb _ || _ = false |- _ => apply safe_nonneg in Hb end.
  match goal with Ht : trailerLength t = Ok ?r |- _ => exists r end.
  match goal with Hs : checkSuite s = Ok ?x |- _ => assert (x = s) as -> by (unfold checkSuite in Hs; by res_inv) end.
  split; [done|]. split; [done|]. split; [done|].
  destruct (s <? CONTENT_SUITE) eqn:E; res_inv; bool_simpl; [by left|]. right. split.
  - match goal with Hs : checkSuite s = Ok _ |- _ => unfold checkSuite in Hs; res_inv end.
    cbn [existsb READABLE_CONTENT_SUITES] in *. unfold CONTENT_SUITE, UNPADDED_CONTENT_SUITE, LEGACY_CONTENT_SUITE in *.
    repeat match goal with Hb : _ || _ = true |- _ => apply orb_true_iff in Hb as [Hb|Hb] end;
      bool_simpl; lia || done.
  - match goal with Hp : paddedLength _ = Ok ?x |- _ => rewrite Hp end. f_equal. lia.
Qed.

(** What the chunks cover is at least the file. *)
Lemma contentLength_covers s p t L : contentLength s p t = Ok L → p ≤ L.
Proof.
  intros (r & Hr & _ & Hp & [[? ->]|[_ Hpad]])%contentLength_ok; [lia|].
  apply paddedLength_ok in Hpad as (? & ? & [[? E]|[? E]]); [lia|].
  destruct (round_up_bounds (p + r) (padme_bits (p + r))); [by apply padme_bits_pos|lia].
Qed.

Lemma ciphertextSize_ok s p t size : ciphertextSize s p t = Ok size →
  ∃ L n r, contentLength s p t = Ok L ∧ chunkCount L = Ok n ∧ trailerLength t = Ok r ∧
    size = L + CHUNK_TAG_BYTES * n + r.
Proof. unfold ciphertextSize. intros H. res_inv. eauto 10. Qed.

Lemma chunkRange_ok s p t i L n size r : contentLength s p t = Ok L → chunkCount L = Ok n →
  trailerLength t = Ok r → ciphertextSize s p t = Ok size → 0 ≤ i < n →
  chunkRange s p t i = Ok (i * (CHUNK_SIZE + CHUNK_TAG_BYTES),
    if i =? n - 1 then size - 1 else (i + 1) * (CHUNK_SIZE + CHUNK_TAG_BYTES) - 1).
Proof.
  intros HL Hn Hr Hs Hi. unfold chunkRange. rewrite HL. simpl. rewrite Hn. simpl. rewrite Hs. simpl.
  destruct (i =? n - 1) eqn:E; [done|]. bool_simpl.
  unfold chunkCiphertextLength. rewrite (chunkPlaintextLength_ok _ n) by done.
  rewrite (proj2 (Z.ltb_lt i (n - 1))) by lia. simpl. do 2 f_equal.
  unfold CHUNK_SIZE, CHUNK_TAG_BYTES. lia.
Qed.

(** The last part: the last chunk with its tag, and the trailer. *)
Lemma last_part_bounds L n r : chunkCount L = Ok n → 0 ≤ r ≤ THUMBNAIL_MAX_BYTES + CHUNK_TAG_BYTES →
  let size := L + CHUNK_TAG_BYTES * n + r in
  let last := size - (n - 1) * (CHUNK_SIZE + CHUNK_TAG_BYTES) in
  (if n =? 1 then CHUNK_TAG_BYTES else CHUNK_TAG_BYTES + 1) ≤ last ≤
    CHUNK_SIZE + CHUNK_TAG_BYTES + THUMBNAIL_MAX_BYTES + CHUNK_TAG_BYTES.
Proof.
  intros Hn Hr size last. pose proof (chunkCount_bounds _ _ Hn) as (? & ? & ? & Hc). subst last size.
  unfold CHUNK_SIZE, CHUNK_TAG_BYTES, THUMBNAIL_MAX_BYTES in *.
  destruct (n =? 1) eqn:E; bool_simpl; lia.
Qed.

Lemma partLength_ok size n i : 1 ≤ n ≤ MAX_SAFE_INTEGER → 0 ≤ i < n →
  partLength size n (i + 1) = Ok (if i + 1 <? n then CHUNK_SIZE + CHUNK_TAG_BYTES
    else size - (n - 1) * (CHUNK_SIZE + CHUNK_TAG_BYTES)).
Proof.
  intros Hn Hi. unfold partLength.
  assert (is_safe_integer (i + 1) = true) as ->.
  { apply is_safe_integer_true. unfold MAX_SAFE_INTEGER in *. lia. }
  rewrite (proj2 (Z.ltb_ge (i + 1) 1)), (proj2 (Z.ltb_ge n (i + 1))) by lia. simpl.
  by destruct (i + 1 <? n).
Qed.

(** ** Properties of the layout *)

(** The ranges a reader fetches tile the object: the first begins at 0, each
    next one where the one before ended, the last ends with the object, none is
    empty, and each is exactly the part of that number the server holds. *)
Theorem chunk_ranges_tile s p t L n size i :
  contentLength s p t = Ok L → chunkCount L = Ok n → ciphertextSize s p t = Ok size → 0 ≤ i < n →
  ∃ start end_, chunkRange s p t i = Ok (start, end_) ∧ start ≤ end_ ∧
    partLength size n (i + 1) = Ok (end_ - start + 1) ∧
    (i = 0 → start = 0) ∧
    (i = n - 1 → end_ = size - 1) ∧
    (i < n - 1 → ∃ end', chunkRange s p t (i + 1) = Ok (end_ + 1, end')).
Proof.
  intros HL Hn Hs Hi. pose proof Hs as (L' & n' & r & HL' & Hn' & Hr & Esize)%ciphertextSize_ok.
  assert (L' = L) as -> by congruence. assert (n' = n) as -> by congruence.
  pose proof (chunkCount_bounds _ _ Hn) as (? & ? & _). pose proof (trailerLength_ok _ _ Hr) as (_ & Hrb & _).
  pose proof (last_part_bounds _ _ _ Hn Hrb) as Hlast. cbv zeta in Hlast. rewrite <- Esize in Hlast.
  eexists _, _. split; [by eapply chunkRange_ok|]. rewrite (partLength_ok size n i) by done.
  destruct (i =? n - 1) eqn:E; bool_simpl.
  - subst i. rewrite (proj2 (Z.ltb_ge _ _)) by lia.
    split; [|split; [f_equal; lia|split_and!; lia]].
    unfold CHUNK_TAG_BYTES, CHUNK_SIZE in *. destruct (n =? 1) eqn:?; bool_simpl; lia.
  - rewrite (proj2 (Z.ltb_lt (i + 1) n)) by lia. unfold CHUNK_SIZE, CHUNK_TAG_BYTES in *.
    split; [lia|]. split; [f_equal; lia|]. split; [lia|]. split; [lia|].
    intros _. eexists. erewrite chunkRange_ok; [|done..|lia]. do 2 f_equal.
    unfold CHUNK_SIZE, CHUNK_TAG_BYTES. lia.
Qed.

Lemma chunk_ranges_tile_witness :
  contentLength 3 9000000 100 = Ok 9174924 ∧ chunkCount 9174924 = Ok 2 ∧
  ciphertextSize 3 9000000 100 = Ok 9175072 ∧
  ∃ start end_, chunkRange 3 9000000 100 0 = Ok (start, end_) ∧ start ≤ end_ ∧
    partLength 9175072 2 (0 + 1) = Ok (end_ - start + 1) ∧
    (0 = 0 → start = 0) ∧ (0 = 2 - 1 → end_ = 9175072 - 1) ∧
    (0 < 2 - 1 → ∃ end', chunkRange 3 9000000 100 (0 + 1) = Ok (end_ + 1, end')).
Proof.
  split; [vm_compute; reflexivity|]. split; [vm_compute; reflexivity|]. split; [vm_compute; reflexivity|].
  apply (chunk_ranges_tile 3 9000000 100 9174924 2 9175072 0);
    [vm_compute; reflexivity|vm_compute; reflexivity|vm_compute; reflexivity|lia].
Defined.

(** What a writer stores is what the server accepts: an object laid out by
    this arithmetic, of a size and a chunk count it can say, is a valid size
    for its count of chunks. *)
Theorem stored_size_valid s p t L n size :
  contentLength s p t = Ok L → chunkCount L = Ok n → ciphertextSize s p t = Ok size →
  is_safe_integer size = true → validObjectSize size n = true.
Proof.
  intros HL Hn Hs Hsafe. pose proof Hs as (L' & n' & r & HL' & Hn' & Hr & Esize)%ciphertextSize_ok.
  assert (L' = L) as -> by congruence. assert (n' = n) as -> by congruence.
  pose proof (chunkCount_bounds _ _ Hn) as (HLb & Hnb & _).
  pose proof (trailerLength_ok _ _ Hr) as (_ & Hrb & _).
  pose proof (last_part_bounds _ _ _ Hn Hrb) as Hlast. cbv zeta in Hlast. rewrite <- Esize in Hlast.
  unfold validObjectSize. rewrite Hsafe.
  assert (is_safe_integer n = true) as -> by (apply is_safe_integer_true; unfold MAX_SAFE_INTEGER in *; lia).
  rewrite (proj2 (Z.ltb_ge n 1)), (proj2 (Z.ltb_ge size 0)) by (unfold CHUNK_TAG_BYTES in *; lia). simpl.
  pose proof (partLength_ok size n (n - 1) Hnb ltac:(lia)) as Hp.
  replace (n - 1 + 1) with n in Hp by lia. rewrite Hp. rewrite Z.ltb_irrefl.
  apply andb_true_iff. rewrite !Z.leb_le. exact Hlast.
Qed.

Lemma stored_size_valid_witness :
  contentLength 2 70000 5000 = Ok 70000 ∧ validObjectSize 75032 1 = true.
Proof.
  split; [reflexivity|]. apply (stored_size_valid 2 70000 5000 70000 1 75032); reflexivity.
Defined.

(** What a reader asks the store for hides the file's size: two objects with
    as many bytes and as many chunks are fetched by the same ranges, their
    thumbnails' included, whatever files and thumbnails they hold. *)
Theorem ranges_hide_sizes s p t L s' p' t' L' n size i :
  contentLength s p t = Ok L → chunkCount L = Ok n → ciphertextSize s p t = Ok size →
  contentLength s' p' t' = Ok L' → chunkCount L' = Ok n → ciphertextSize s' p' t' = Ok size →
  0 ≤ i < n →
  chunkRange s p t i = chunkRange s' p' t' i ∧
  (1 ≤ t → 1 ≤ t' → thumbnailRange s p t = thumbnailRange s' p' t').
Proof.
  intros HL Hn Hs HL' Hn' Hs' Hi.
  pose proof Hs as (? & ? & r & ? & ? & Hr & _)%ciphertextSize_ok.
  pose proof Hs' as (? & ? & r' & ? & ? & Hr' & _)%ciphertextSize_ok.
  split.
  - rewrite (chunkRange_ok _ _ _ i _ _ _ _ HL Hn Hr Hs Hi).
    by rewrite (chunkRange_ok _ _ _ i _ _ _ _ HL' Hn' Hr' Hs' Hi).
  - intros. unfold thumbnailRange.
    rewrite (proj2 (Z.ltb_ge t 1)), (proj2 (Z.ltb_ge t' 1)) by lia. by rewrite Hs, Hs'.
Qed.

Lemma ranges_hide_sizes_witness :
  (contentLength 3 70000 100 = Ok 71564 ∧ contentLength 3 71000 200 = Ok 71464) ∧
  chunkRange 3 70000 0 0 = chunkRange 3 71000 0 0 ∧
  (1 ≤ 0 → 1 ≤ 0 → thumbnailRange 3 70000 0 = thumbnailRange 3 71000 0).
Proof.
  split; [split; reflexivity|].
  apply (ranges_hide_sizes 3 70000 0 71680 3 71000 0 71680 1 71696 0); reflexivity || lia.
Defined.

(** Under suite 3 the chunks' plaintext and the trailer together are the
    Padmé bucket of the file with its trailer, and the file fits in the chunks:
    the object's size says no more than its bucket and its count of chunks. *)
Theorem padded_object_is_a_bucket p t size : ciphertextSize CONTENT_SUITE p t = Ok size →
  ∃ r n bucket, trailerLength t = Ok r ∧ paddedLength (p + r) = Ok bucket ∧
    chunkCount (bucket - r) = Ok n ∧ p ≤ bucket - r ∧ size = bucket + CHUNK_TAG_BYTES * n.
Proof.
  intros (L & n & r & HL & Hn & Hr & Es)%ciphertextSize_ok.
  pose proof (contentLength_covers _ _ _ _ HL) as Hcov.
  pose proof HL as (r' & Hr' & _ & _ & [[Hlt ?]|[_ Hpad]])%contentLength_ok; [done|].
  assert (r' = r) as -> by congruence.
  exists r, n, (L + r). replace (L + r - r) with L by lia. split_and!; [done..|lia].
Qed.

Lemma padded_object_is_a_bucket_witness :
  ciphertextSize CONTENT_SUITE 70000 100 = Ok 71696 ∧
  ∃ r n bucket, trailerLength 100 = Ok r ∧ paddedLength (70000 + r) = Ok bucket ∧
    chunkCount (bucket - r) = Ok n ∧ 70000 ≤ bucket - r ∧ 71696 = bucket + CHUNK_TAG_BYTES * n.
Proof. split; [reflexivity|]. apply (padded_object_is_a_bucket 70000 100 71696). reflexivity. Defined.

(** ** Sealing and opening *)

Lemma recast_Ok {E F A} (e : F) (m : res E A) a : m = Ok a → recast e m = Ok a.
Proof. by intros ->. Qed.

Section open_seal.
Context `{CL : CryptoLaws}.

Lemma decrypt_encrypt_chunk plaintext key nonce ctx c tail :
  encryptChunk plaintext key nonce ctx = Ok c →
  (tail ≠ "" → ChunkContext.index ctx = ChunkContext.chunkCount ctx - 1) →
  decryptChunk (c +:+ tail) key nonce ctx = Ok plaintext.
Proof.
  unfold encryptChunk, decryptChunk. intros H Htail. res_inv. bool_simpl.
  rename v into covered, v0 into m, v1 into aad, v2 into nc.
  unfold chunkCiphertextLength. rewrite Hv. simpl. rewrite Hv0. simpl.
  pose proof (xchacha_seal_length _ _ _ _ _ H) as Hc.
  assert ((if ChunkContext.index ctx =? ChunkContext.chunkCount ctx - 1
           then slen (c +:+ tail) <? m + CHUNK_TAG_BYTES
           else negb (slen (c +:+ tail) =? m + CHUNK_TAG_BYTES)) = false) as ->.
  { rewrite slen_app. unfold CHUNK_TAG_BYTES. destruct (_ =? _) eqn:E.
    - apply Z.ltb_ge. pose proof (slen_nonneg tail). lia.
    - bool_simpl. apply negb_false_iff, Z.eqb_eq. destruct tail; [rewrite slen_nil; lia|].
      exfalso. apply E, Htail. done. }
  apply recast_Ok. rewrite Hv1. simpl. rewrite Hv2. simpl.
  rewrite subarray_prefix by (unfold CHUNK_TAG_BYTES; lia).
  by rewrite (xchacha_open_seal _ _ _ _ _ H).
Qed.

Lemma encryptChunk_length plaintext key nonce ctx c :
  encryptChunk plaintext key nonce ctx = Ok c →
  ∃ L, checkChunkContext ctx = Ok L ∧ chunkPlaintextLength L (ChunkContext.index ctx) = Ok (slen plaintext) ∧
    slen c = slen plaintext + CHUNK_TAG_BYTES.
Proof.
  unfold encryptChunk. intros H. res_inv. bool_simpl.
  pose proof (xchacha_seal_length _ _ _ _ _ H). eexists. split; [done|]. split; congruence || done.
Qed.

Lemma checkChunkContext_ok ctx L : checkChunkContext ctx = Ok L →
  contentLength (ChunkContext.suite ctx) (ChunkContext.plaintextSize ctx) (ChunkContext.thumbnailBytes ctx) = Ok L ∧
  chunkCount L = Ok (ChunkContext.chunkCount ctx).
Proof. unfold checkChunkContext. intros H. res_inv. bool_simpl. split; congruence. Qed.
End open_seal.

(** ** A whole object *)

Definition concat_bytes (l : list bytes) : bytes := foldr String.append EmptyString l.

Lemma drop_concat w l tail (i : nat) : 0 ≤ w → (i ≤ length l)%nat →
  (∀ j c, (j < i)%nat → l !! j = Some c → slen c = w) →
  subarray_from (Z.of_nat i * w) (concat_bytes l +:+ tail) = concat_bytes (drop i l) +:+ tail.
Proof.
  intros Hw. revert l; induction i as [|i IH]; intros l Hi Hl; [done|].
  destruct l as [|c l]; [simpl in Hi; lia|]. simpl in Hi.
  pose proof (Hl 0%nat c ltac:(lia) eq_refl) as Hc.
  change (concat_bytes (c :: l)) with (c +:+ concat_bytes l). change (drop (S i) (c :: l)) with (drop i l).
  rewrite app_assoc'.
  rewrite <- (IH l); [|lia|intros j d Hj; apply (Hl (S j)); lia].
  unfold subarray_from. replace (Z.to_nat (Z.of_nat (S i) * w)) with
    (String.length c + Z.to_nat (Z.of_nat i * w))%nat by (rewrite <- slen_Zto_nat; lia).
  by rewrite <- drop_drop_bytes, drop_bytes_app.
Qed.

Lemma slen_concat w l last : (∀ c, c ∈ l → slen c = w) →
  slen (concat_bytes (l ++ [last])) = Z.of_nat (length l) * w + slen last.
Proof.
  induction l as [|c l IH]; intros Hl; simpl; rewrite ?app_nil_r'; [lia|].
  rewrite slen_app. fold (concat_bytes (l ++ [last])). rewrite IH by (intros d Hd; apply Hl; by right).
  rewrite (Hl c) by left. lia.
Qed.

(** An object as a writer seals it: every chunk of the padded plaintext in
    order, then the trailer when the file has a thumbnail. *)
Section object.
Context `{CL : CryptoLaws}.
Context (workspaceId objectId : string) (suite plaintextSize thumbnailBytes : Z).
Context (key nonce webp : bytes).

Definition chunk_ctx (count index : Z) : ChunkContext.t := {|
  ChunkContext.workspaceId := workspaceId; ChunkContext.objectId := objectId;
  ChunkContext.suite := suite; ChunkContext.index := index; ChunkContext.chunkCount := count;
  ChunkContext.plaintextSize := plaintextSize; ChunkContext.thumbnailBytes := thumbnailBytes |}.
Definition thumbnail_ctx : ThumbnailContext.t := {|
  ThumbnailContext.workspaceId := workspaceId; ThumbnailContext.objectId := objectId;
  ThumbnailContext.suite := suite; ThumbnailContext.plaintextSize := plaintextSize;
  ThumbnailContext.thumbnailBytes := thumbnailBytes |}.

(** [chunks] sealed to [sealed], and [webp] to [trailer]. *)
Definition sealed_object (chunks sealed : list bytes) (trailer : bytes) : Prop :=
  length chunks = length sealed ∧
  (∀ i p c, chunks !! i = Some p → sealed !! i = Some c →
    encryptChunk p key nonce (chunk_ctx (Z.of_nat (length chunks)) (Z.of_nat i)) = Ok c) ∧
  (if thumbnailBytes =? 0 then trailer = EmptyString
   else slen webp = thumbnailBytes ∧ encryptThumbnail webp key nonce thumbnail_ctx = Ok trailer).

Lemma trailer_length chunks sealed trailer : sealed_object chunks sealed trailer →
  trailerLength thumbnailBytes = Ok (slen trailer) ∨ ∃ e, trailerLength thumbnailBytes = Err e.
Proof.
  intros (_ & _ & H). destruct (trailerLength thumbnailBytes) as [r|e] eqn:E; [left|by right; exists e].
  apply trailerLength_ok in E as (? & ? & ->). destruct (thumbnailBytes =? 0) eqn:E0; bool_simpl.
  - subst trailer. by rewrite E0.
  - destruct H as [Hw He]. rewrite (proj2 (Z.ltb_lt _ _)) by lia.
    unfold encryptThumbnail in He. res_inv.
    match goal with Hx : xchacha_seal _ _ _ _ = Ok _ |- _ => apply xchacha_seal_length in Hx; rewrite Hx end.
    by rewrite Hw.
Qed.

Lemma sealed_chunk chunks sealed trailer i c : sealed_object chunks sealed trailer →
  sealed !! i = Some c → ∃ p L m, chunks !! i = Some p ∧
    contentLength suite plaintextSize thumbnailBytes = Ok L ∧
    chunkCount L = Ok (Z.of_nat (length chunks)) ∧
    m = slen p ∧ slen c = m + CHUNK_TAG_BYTES ∧
    m = (if Z.of_nat i <? Z.of_nat (length chunks) - 1 then CHUNK_SIZE else L - Z.of_nat i * CHUNK_SIZE) ∧
    encryptChunk p key nonce (chunk_ctx (Z.of_nat (length chunks)) (Z.of_nat i)) = Ok c.
Proof.
  intros (Hlen & Hc & _) Hi. pose proof (lookup_lt_Some _ _ _ Hi) as Hlt. rewrite <- Hlen in Hlt.
  destruct (lookup_lt_is_Some_2 _ _ Hlt) as [p Hp]. specialize (Hc _ _ _ Hp Hi).
  pose proof (encryptChunk_length _ _ _ _ _ Hc) as (L & HL & Hm & Hs).
  apply checkChunkContext_ok in HL as [HL Hn]. simpl in *.
  apply chunkPlaintextLength_inv in Hm as (n & Hn' & ? & Hm & _).
  assert (n = Z.of_nat (length chunks)) as -> by congruence.
  exists p, L, (slen p). split_and!; done.
Qed.

Lemma sealed_offset chunks sealed trailer (i : nat) : sealed_object chunks sealed trailer →
  (i < length chunks)%nat →
  subarray_from (Z.of_nat i * (CHUNK_SIZE + CHUNK_TAG_BYTES)) (concat_bytes sealed +:+ trailer)
  = concat_bytes (drop i sealed) +:+ trailer.
Proof.
  intros Hobj Hi. pose proof Hobj as (Hlen & _). apply drop_concat; [done|lia|].
  intros j c Hj Hc. destruct (sealed_chunk _ _ _ _ _ Hobj Hc) as (p & L & m & _ & _ & _ & Em & Es & Em' & _).
  rewrite Es, Em'. by rewrite (proj2 (Z.ltb_lt _ _)) by lia.
Qed.

Lemma sealed_length chunks sealed trailer : sealed_object chunks sealed trailer → chunks ≠ [] →
  ciphertextSize suite plaintextSize thumbnailBytes = Ok (slen (concat_bytes sealed +:+ trailer)).
Proof.
  intros Hobj Hne. pose proof Hobj as (Hlen & _).
  destruct sealed as [|last init _] using rev_ind; [by destruct chunks|].
  rewrite length_app in Hlen. simpl in Hlen.
  destruct (sealed_chunk _ _ _ (length init) last Hobj) as (p & L & m & _ & HL & Hn & Em & Es & Em' & _).
  { by rewrite lookup_app_r, Nat.sub_diag by lia. }
  rewrite (proj2 (Z.ltb_ge _ _)) in Em' by lia.
  destruct (trailer_length _ _ _ Hobj) as [Hr|[e He]].
  2: { apply contentLength_ok in HL as (? & ? & _). congruence. }
  unfold ciphertextSize. rewrite HL. simpl. rewrite Hn. simpl. rewrite Hr. simpl. f_equal.
  rewrite slen_app, (slen_concat (CHUNK_SIZE + CHUNK_TAG_BYTES)).
  - rewrite Es, Em', Hlen. lia.
  - intros c Hc. apply list_elem_of_lookup_1 in Hc as [j Hj]. pose proof (lookup_lt_Some _ _ _ Hj).
    destruct (sealed_chunk _ _ _ j c Hobj) as (p' & L' & m' & _ & _ & _ & _ & Es' & Em'' & _).
    { by rewrite lookup_app_l. }
    rewrite Es', Em''. by rewrite (proj2 (Z.ltb_lt _ _)) by lia.
Qed.

Lemma sealed_range chunks sealed trailer i p : sealed_object chunks sealed trailer →
  chunks !! i = Some p → ∃ a b tail c,
    chunkRange suite plaintextSize thumbnailBytes (Z.of_nat i) = Ok (a, b) ∧
    subarray a (b + 1) (concat_bytes sealed +:+ trailer) = c +:+ tail ∧
    (tail ≠ "" → Z.of_nat i = Z.of_nat (length chunks) - 1) ∧
    encryptChunk p key nonce (chunk_ctx (Z.of_nat (length chunks)) (Z.of_nat i)) = Ok c.
Proof.
  intros Hobj Hp. pose proof Hobj as (Hlen & _). pose proof (lookup_lt_Some _ _ _ Hp) as Hi.
  destruct (lookup_lt_is_Some_2 sealed i) as [c Hc]; [lia|].
  destruct (sealed_chunk _ _ _ _ _ Hobj Hc) as (p' & L & m & Hp' & HL & Hn & Em & Es & Em' & He).
  assert (p' = p) as -> by congruence.
  pose proof (sealed_length _ _ _ Hobj ltac:(by intros ->)) as Hsize.
  pose proof (contentLength_ok _ _ _ _ HL) as (r & Hr & _).
  pose proof (chunkRange_ok _ _ _ (Z.of_nat i) _ _ _ _ HL Hn Hr Hsize ltac:(lia)) as Hrange.
  pose proof (sealed_offset _ _ _ i Hobj Hi) as Hoff.
  rewrite (drop_S _ _ _ Hc) in Hoff. change (concat_bytes (c :: ?l)) with (c +:+ concat_bytes l) in Hoff.
  rewrite app_assoc' in Hoff.
  set (rest := concat_bytes (drop (S i) sealed) +:+ trailer) in *.
  set (start := Z.of_nat i * (CHUNK_SIZE + CHUNK_TAG_BYTES)) in *.
  set (object := concat_bytes sealed +:+ trailer) in *.
  assert (∀ to, subarray start to object = take_bytes (Z.to_nat (to - start)) (c +:+ rest)) as Hsub.
  { intros to. rewrite <- Hoff. done. }
  destruct (Z.of_nat i =? Z.of_nat (length chunks) - 1) eqn:E; bool_simpl.
  - eexists _, _, rest, c. split; [exact Hrange|]. split; [|done].
    rewrite Hsub. apply take_bytes_all. rewrite <- Hoff. unfold subarray_from.
    rewrite length_drop_bytes. unfold slen. lia.
  - eexists _, _, EmptyString, c. split; [exact Hrange|]. split; [|done].
    rewrite Hsub, app_nil_r'. apply take_bytes_app. rewrite <- slen_Zto_nat, Es, Em'.
    rewrite (proj2 (Z.ltb_lt _ _)) by lia. subst start. f_equal. unfold CHUNK_SIZE, CHUNK_TAG_BYTES. lia.
Qed.

Lemma sealed_thumbnail chunks sealed trailer : sealed_object chunks sealed trailer → chunks ≠ [] →
  0 < thumbnailBytes → ∃ a b, thumbnailRange suite plaintextSize thumbnailBytes = Ok (a, b) ∧
    decryptThumbnail (subarray a (b + 1) (concat_bytes sealed +:+ trailer)) key nonce thumbnail_ctx = Ok webp.
Proof.
  intros Hobj Hne Ht. pose proof (sealed_length _ _ _ Hobj Hne) as Hsize.
  set (object := concat_bytes sealed +:+ trailer) in *.
  assert (trailerLength thumbnailBytes = Ok (slen trailer)) as Hr.
  { destruct (trailer_length _ _ _ Hobj) as [|[e He]]; [done|].
    apply ciphertextSize_ok in Hsize as (? & ? & ? & _ & _ & ? & _). congruence. }
  destruct Hobj as (_ & _ & Hw). rewrite (proj2 (Z.eqb_neq _ _)) in Hw by lia. destruct Hw as [Hw He].
  unfold thumbnailRange. rewrite (proj2 (Z.ltb_ge _ _)) by lia. rewrite Hsize. simpl.
  eexists _, _. split; [reflexivity|].
  set (a := Z.max 0 _). pose proof (trailerLength_ok _ _ Hr) as (_ & Hrb & _).
  assert (0 ≤ a) as Ha by (subst a; lia).
  assert (subarray a (slen object - 1 + 1) object = subarray_from a object) as ->.
  { unfold subarray, subarray_from. apply take_bytes_all. rewrite length_drop_bytes. unfold slen. lia. }
  assert (slen (subarray_from a object) = slen object - a ∧ a + slen trailer ≤ slen object) as [Hla Hle].
  { subst a. unfold subarray_from, slen. rewrite length_drop_bytes.
    assert (slen trailer ≤ slen object) by (subst object; rewrite slen_app; pose proof (slen_nonneg (concat_bytes sealed)); lia).
    unfold THUMBNAIL_MAX_BYTES, CHUNK_TAG_BYTES, slen in *. lia. }
  unfold decryptThumbnail. simpl ThumbnailContext.thumbnailBytes. rewrite Hr. simpl. rewrite Hla.
  rewrite (proj2 (Z.ltb_ge _ (slen trailer))), (proj2 (Z.ltb_ge thumbnailBytes 1)) by lia. simpl.
  assert (subarray_from (slen object - a - slen trailer) (subarray_from a object) = trailer) as ->.
  { unfold subarray_from. rewrite drop_drop_bytes. subst object. apply drop_bytes_app.
    rewrite slen_app in *. unfold slen in *. lia. }
  unfold encryptThumbnail in He. rewrite Hw in He. simpl in He. res_inv.
  rewrite Hv. simpl. apply recast_Ok. unfold thumbnail_ctx at 1. rewrite Hv0. simpl. rewrite Hv1. simpl.
  rewrite Hv2. simpl. rewrite Hv3. simpl. by rewrite (xchacha_open_seal _ _ _ _ _ He).
Qed.
End object.

(** C40. An object sealed chunk by chunk with its thumbnail behind reads back:
    the range asked for each chunk decrypts to that chunk, the last one's
    window with the trailer behind it included, and the window asked for the
    thumbnail decrypts to the thumbnail. *)
Theorem object_reads_back `{CL : CryptoLaws} ws oid suite psize tbytes key nonce webp chunks sealed trailer
    (Hobj : sealed_object ws oid suite psize tbytes key nonce webp chunks sealed trailer) :
  let object := concat_bytes sealed +:+ trailer in
  (∀ i p, chunks !! i = Some p → ∃ a b, chunkRange suite psize tbytes (Z.of_nat i) = Ok (a, b) ∧
    decryptChunk (subarray a (b + 1) object) key nonce
      (chunk_ctx ws oid suite psize tbytes (Z.of_nat (length chunks)) (Z.of_nat i)) = Ok p) ∧
  (chunks ≠ [] → 0 < tbytes → ∃ a b, thumbnailRange suite psize tbytes = Ok (a, b) ∧
    decryptThumbnail (subarray a (b + 1) object) key nonce (thumbnail_ctx ws oid suite psize tbytes) = Ok webp).
Proof.
  intros object. split.
  - intros i p Hp. destruct (sealed_range _ _ _ _ _ _ _ _ _ _ _ _ _ Hobj Hp) as (a & b & tail & c & Hr & Hs & Ht & He).
    exists a, b. split; [done|]. subst object. rewrite Hs. by apply (decrypt_encrypt_chunk p).
  - intros. by eapply sealed_thumbnail.
Qed.

Module ObjectWitness.
Definition ws := "0a0a0a0a-0000-4000-8000-000000000001".
Definition oid := "0b0b0b0b-0000-4000-8000-000000000002".
Definition key := fill 32 "k"%char.
Definition nonce := fill 16 "n"%char.
Definition sealed : bytes :=
  match encryptChunk (C := Toy.crypto) "abc" key nonce (chunk_ctx ws oid 2 3 1 1 0) with Ok c => c | Err _ => "" end.
Definition trailer : bytes :=
  match encryptThumbnail (C := Toy.crypto) "T" key nonce (thumbnail_ctx ws oid 2 3 1) with Ok c => c | Err _ => "" end.
End ObjectWitness.

Lemma object_reads_back_witness :
  let object := concat_bytes [ObjectWitness.sealed] +:+ ObjectWitness.trailer in
  slen object = 36 ∧
  (∀ i p, ["abc"] !! i = Some p → ∃ a b, chunkRange 2 3 1 (Z.of_nat i) = Ok (a, b) ∧
    decryptChunk (C := Toy.crypto) (subarray a (b + 1) object) ObjectWitness.key ObjectWitness.nonce
      (chunk_ctx ObjectWitness.ws ObjectWitness.oid 2 3 1 (Z.of_nat 1) (Z.of_nat i)) = Ok p) ∧
  (["abc"] ≠ [] → 0 < 1 → ∃ a b, thumbnailRange 2 3 1 = Ok (a, b) ∧
    decryptThumbnail (C := Toy.crypto) (subarray a (b + 1) object) ObjectWitness.key ObjectWitness.nonce
      (thumbnail_ctx ObjectWitness.ws ObjectWitness.oid 2 3 1) = Ok "T").
Proof.
  split; [vm_compute; reflexivity|].
  apply (object_reads_back (CL := Toy.crypto_laws) ObjectWitness.ws ObjectWitness.oid 2 3 1
    ObjectWitness.key ObjectWitness.nonce "T" ["abc"] [ObjectWitness.sealed] ObjectWitness.trailer).
  split; [reflexivity|]. split; [|vm_compute; split; reflexivity].
  intros [|i] p c Hp Hc; [|by destruct i]. injection Hp as <-. injection Hc as <-. vm_compute. reflexivity.
Defined.

(** No two parts of an object share a nonce: the chunks' nonces and the
    thumbnail's, whose index comes after the last chunk's, are all different. *)
Theorem object_nonces_distinct nonce L n i j x y :
  chunkCount L = Ok n → 0 ≤ i ≤ n → 0 ≤ j ≤ n →
  chunkNonce nonce i = Ok x → chunkNonce nonce j = Ok y → i ≠ j → x ≠ y.
Proof.
  unfold chunkNonce. intros Hn Hi Hj Hx Hy Hne <-.
  destruct (slen nonce =? _); [|done]. apply chunkCount_bounds in Hn as (? & ? & _). apply Hne.
  assert (nonce +:+ be_bytes 8 i = nonce +:+ be_bytes 8 j) as E by congruence.
  apply app_inj in E as [_ E]; [|done].
  apply (be_bytes_inj 8); [unfold MAX_SAFE_INTEGER in *; lia..|done].
Qed.

Lemma object_nonces_distinct_witness :
  (chunkNonce (fill 16 "n"%char) 0 = Ok (fill 16 "n"%char +:+ be_bytes 8 0) ∧
   chunkNonce (fill 16 "n"%char) 1 = Ok (fill 16 "n"%char +:+ be_bytes 8 1)) ∧
  fill 16 "n"%char +:+ be_bytes 8 0 ≠ fill 16 "n"%char +:+ be_bytes 8 1.
Proof.
  split; [split; reflexivity|].
  apply (object_nonces_distinct (fill 16 "n"%char) 5 1 0 1); reflexivity || lia || done.
Defined.

(** ** The file out of its chunks *)


(** ** The file out of its chunks *)

(** Chunk [i] of a stream: the bytes the arithmetic gives that index. *)
Definition chunk_of (stream : bytes) (i : Z) : bytes :=
  match chunkPlaintextLength (slen stream) i with
  | Ok n => subarray (i * CHUNK_SIZE) (i * CHUNK_SIZE + n) stream
  | Err _ => EmptyString
  end.

(** A chunk's file bytes are the file's at its offset. *)
Lemma fileBytesOf_chunk file zeros n i : chunkCount (slen (file +:+ zeros)) = Ok n → 0 ≤ i < n →
  fileBytesOf (chunk_of (file +:+ zeros) i) (slen file) i
  = take_bytes (Z.to_nat CHUNK_SIZE) (drop_bytes (Z.to_nat (i * CHUNK_SIZE)) file).
Proof.
  intros Hn Hi. unfold chunk_of. rewrite (chunkPlaintextLength_ok _ n) by done.
  pose proof (chunkCount_bounds _ _ Hn) as (_ & _ & Hc1 & Hc2).
  set (len := if i <? n - 1 then _ else _).
  assert (0 ≤ len ≤ CHUNK_SIZE ∧ (len = CHUNK_SIZE ∨ len = slen (file +:+ zeros) - i * CHUNK_SIZE) ∧
    i * CHUNK_SIZE + len ≤ slen (file +:+ zeros)) as (Hlen & Hcase & Hfit). 
  { subst len. pose proof (slen_nonneg (file +:+ zeros)). unfold CHUNK_SIZE in *. destruct (i <? n - 1) eqn:E; bool_simpl.
    - split; [lia|]. split; [by left|]. nia.
    - assert (i = n - 1) as -> by lia. split_and!; [lia..|by right|lia]. }
  clearbody len. clear Hc1 Hc2. unfold fileBytesOf.
  rewrite slen_subarray by (unfold CHUNK_SIZE in *; lia).
  set (o := i * CHUNK_SIZE) in *. assert (0 ≤ o) as Ho by (subst o; unfold CHUNK_SIZE; lia).
  generalize dependent o. clear Hi Hn n i. intros o ???. replace (o + len - o) with len by lia.
  unfold subarray. rewrite !Z.sub_0_r. change (Z.to_nat 0) with 0%nat. cbn [drop_bytes].
  replace (o + len - o) with len by lia. rewrite take_take_bytes. rewrite slen_app in *.
  set (w := CHUNK_SIZE) in *. clearbody w.
  destruct (Z.le_gt_cases o (slen file)).
  - rewrite drop_bytes_app_le, take_bytes_app_le by (rewrite ?length_drop_bytes; unfold slen in *; lia).
    rewrite take_bytes_min, (take_bytes_min (Z.to_nat w)). f_equal.
    rewrite length_drop_bytes. unfold slen in *. destruct Hcase; lia.
  - rewrite (drop_bytes_all _ file) by (unfold slen in *; lia). rewrite take_bytes_nil.
    replace (Nat.min _ _) with 0%nat; [done|]. unfold slen in *. lia.
Qed.

(** A reader that keeps each chunk's file bytes gets the file: whatever the
    stream was padded with behind it, the chunks' [fileBytesOf] in order are
    exactly the file. *)
Theorem file_of_its_chunks file zeros n : chunkCount (slen (file +:+ zeros)) = Ok n →
  concat_bytes (map (λ i : nat, fileBytesOf (chunk_of (file +:+ zeros) (Z.of_nat i)) (slen file) (Z.of_nat i))
    (seq 0 (Z.to_nat n))) = file.
Proof.
  intros Hn. pose proof (chunkCount_bounds _ _ Hn) as (_ & _ & Hc & _).
  assert (∀ k o : nat, (o + k ≤ Z.to_nat n)%nat →
    concat_bytes (map (λ i : nat, fileBytesOf (chunk_of (file +:+ zeros) (Z.of_nat i)) (slen file) (Z.of_nat i)) (seq o k))
    = take_bytes (k * Z.to_nat CHUNK_SIZE) (drop_bytes (o * Z.to_nat CHUNK_SIZE) file)) as Hk.
  { induction k as [|k IH]; intros o Ho; [done|]. cbn [seq map].
    change (concat_bytes (?c :: ?l)) with (c +:+ concat_bytes l).
    rewrite IH by lia. rewrite (fileBytesOf_chunk _ _ n) by (done || lia).
    rewrite Z2Nat.inj_mul by (done || lia). rewrite Nat2Z.id. generalize (Z.to_nat CHUNK_SIZE). intros w.
    change (S k * w)%nat with (w + k * w)%nat. rewrite take_add_bytes. do 2 f_equal.
    rewrite drop_drop_bytes. f_equal. lia. }
  rewrite Hk by lia. apply take_bytes_all. rewrite slen_app in Hc.
  assert (slen file ≤ n * CHUNK_SIZE) by (pose proof (slen_nonneg zeros); lia).
  rewrite <- Z2Nat.inj_mul by (unfold CHUNK_SIZE in *; pose proof (slen_nonneg file); lia).
  unfold slen in *. generalize dependent (n * CHUNK_SIZE). lia.
Qed.

Lemma file_of_its_chunks_witness :
  chunkCount (slen ("ab" +:+ fill 3 " "%char)) = Ok 1 ∧
  concat_bytes (map (λ i : nat, fileBytesOf (chunk_of ("ab" +:+ fill 3 " "%char) (Z.of_nat i)) (slen "ab") (Z.of_nat i))
    (seq 0 (Z.to_nat 1))) = "ab".
Proof. split; [reflexivity|]. apply (file_of_its_chunks "ab" (fill 3 " "%char) 1). reflexivity. Defined.
