(* ===== verification/Envelopes.v ===== *)
(** * Drive's envelopes (packages/crypto/src/drive.ts, aead.ts)

    An envelope is a 24-byte nonce and an XChaCha20-Poly1305 body under a
    context (the associated data) that names what it is and where it belongs:
    node keys, a group area root's previous key, metadata, content keys and
    version records, and the origin keys of re-keyed records. A nonce drawn at
    random is an argument of the sealing functions. *)

From S2P Require Import Prelude Base64url Bytes Canonical Padding HChaCha Crypto Content.

Definition DRIVE_ENVELOPE_SUITE : Z := 1.
Definition KEY_ENVELOPE_BYTES : Z := ENVELOPE_NONCE_BYTES + KEY_BYTES + CHUNK_TAG_BYTES.
Definition VERSION_RECORD_BYTES : Z := KEY_BYTES + 8 + 4.
Definition VERSION_ENVELOPE_BYTES : Z := ENVELOPE_NONCE_BYTES + VERSION_RECORD_BYTES + CHUNK_TAG_BYTES.
Definition METADATA_MAX_BYTES : Z := 4096.
Definition METADATA_PAD_STEP : Z := 256.
Definition DOCUMENT_MAX_BYTES : Z := 1024 * 1024.
Definition METADATA_ENVELOPE_MAX_BYTES : Z := ENVELOPE_NONCE_BYTES + METADATA_MAX_BYTES + CHUNK_TAG_BYTES.

(** ** Plaintext padding *)

Definition documentPadStep (length : Z) : Z :=
  if length <=? 64 * 1024 then 1024 else if length <=? 256 * 1024 then 4 * 1024 else 16 * 1024.

(** [Math.ceil(plaintext.length / step) * step] with a power of two for [step]. *)
Definition padded (plaintext : bytes) (step max : Z) : bytes :=
  let target := Z.min ((slen plaintext + (step - 1)) / step * step) max in
  if target <=? slen plaintext then plaintext
  else plaintext +:+ fill (Z.to_nat (target - slen plaintext)) " "%char.

(** ** Contexts *)

Module NodeKeyContext.
Record t := {
  workspaceId : string; nodeId : string; parentId : string; parentKeyEpoch : Z; keyEpoch : Z;
}.
End NodeKeyContext.
Module MetadataContext.
Record t := { workspaceId : string; nodeId : string; metadataVersion : Z }.
End MetadataContext.
Module DocumentContext.
Record t := { workspaceId : string; kind : string; version : Z }.
End DocumentContext.
Module ContentKeyContext.
Record t := {
  workspaceId : string; nodeId : string; versionId : string; objectId : string; suite : Z;
}.
End ContentKeyContext.
Module VersionRecord.
Record t := { contentKey : bytes; plaintextSize : Z; thumbnailBytes : Z }.
End VersionRecord.
Module OpenedVersion.
Record t := { contentKey : bytes; plaintextSize : option Z; thumbnailBytes : Z }.
End OpenedVersion.

Definition node_key_fields (label : string) (ctx : NodeKeyContext.t) : result bytes :=
  let* workspaceId := id (NodeKeyContext.workspaceId ctx) "workspace id" in
  let* nodeId := id (NodeKeyContext.nodeId ctx) "node id" in
  let* parentId := id (NodeKeyContext.parentId ctx) "parent id" in
  let* parentKeyEpoch := epoch (NodeKeyContext.parentKeyEpoch ctx) "parent key epoch" in
  let* keyEpoch := epoch (NodeKeyContext.keyEpoch ctx) "key epoch" in
  Ok (context [JStr label; JInt DRIVE_ENVELOPE_SUITE; JStr workspaceId; JStr nodeId; JStr parentId;
    JInt parentKeyEpoch; JInt keyEpoch]).
Definition nodeKeyContext (ctx : NodeKeyContext.t) : result bytes :=
  node_key_fields "hushos/drive/node-key" ctx.
Definition previousRootKeyContext (ctx : NodeKeyContext.t) : result bytes :=
  node_key_fields "hushos/drive/previous-root-key" ctx.

Definition metadataContext (ctx : MetadataContext.t) : result bytes :=
  let* workspaceId := id (MetadataContext.workspaceId ctx) "workspace id" in
  let* nodeId := id (MetadataContext.nodeId ctx) "node id" in
  let* metadataVersion := epoch (MetadataContext.metadataVersion ctx) "metadata version" in
  Ok (context [JStr "hushos/drive/node-meta"; JInt DRIVE_ENVELOPE_SUITE; JStr workspaceId; JStr nodeId;
    JInt metadataVersion]).

(** [/^[a-z][a-z0-9-]{0,31}$/] *)
Definition DOCUMENT_KIND (kind : string) : bool :=
  let lower c := let n := N_of_ascii c in ((97 <=? n) && (n <=? 122))%N in
  match kind with
  | EmptyString => false
  | String c rest => lower c && (slen rest <=? 31) &&
      string_forallb (λ c, lower c || is_digit c || (c =? "-")%char) rest
  end.

Definition documentContext (ctx : DocumentContext.t) : result bytes :=
  refuse "Invalid document kind." unless DOCUMENT_KIND (DocumentContext.kind ctx) ;;
  let* workspaceId := id (DocumentContext.workspaceId ctx) "workspace id" in
  let* version := epoch (DocumentContext.version ctx) "document version" in
  Ok (context [JStr "hushos/drive/workspace-doc"; JInt DRIVE_ENVELOPE_SUITE; JStr workspaceId;
    JStr (DocumentContext.kind ctx); JInt version]).

Definition contentKeyContext (ctx : ContentKeyContext.t) : result bytes :=
  let* suite := checkSuite (ContentKeyContext.suite ctx) in
  let* workspaceId := id (ContentKeyContext.workspaceId ctx) "workspace id" in
  let* nodeId := id (ContentKeyContext.nodeId ctx) "node id" in
  let* versionId := id (ContentKeyContext.versionId ctx) "version id" in
  let* objectId := id (ContentKeyContext.objectId ctx) "object id" in
  Ok (context [JStr "hushos/drive/content-key"; JInt suite; JStr workspaceId; JStr nodeId;
    JStr versionId; JStr objectId]).

Definition versionEnvelopeBytes (suite : Z) : result Z :=
  let* suite := checkSuite suite in
  Ok (if suite =? LEGACY_CONTENT_SUITE then KEY_ENVELOPE_BYTES else VERSION_ENVELOPE_BYTES).

(** Which record an origin is: a node's metadata at a version, or one version of a file. *)
Inductive OriginRecord : Type :=
  | OriginMetadata (metadataVersion : Z)
  | OriginVersion (versionId : string).
Module OriginKeyContext.
Record t := {
  workspaceId : string; nodeId : string; keyEpoch : Z; record : OriginRecord; originEnvelope : bytes;
}.
End OriginKeyContext.

(** ** Sealing and opening *)

Section envelopes.
Context `{C : Crypto}.

Definition originKeyContext (ctx : OriginKeyContext.t) : result bytes :=
  let* position :=
    match OriginKeyContext.record ctx with
    | OriginMetadata v => let* v := epoch v "metadata version" in Ok [JStr "metadata"; JInt v]
    | OriginVersion v => let* v := id v "version id" in Ok [JStr "version"; JStr v]
    end in
  let* workspaceId := id (OriginKeyContext.workspaceId ctx) "workspace id" in
  let* nodeId := id (OriginKeyContext.nodeId ctx) "node id" in
  let* keyEpoch := epoch (OriginKeyContext.keyEpoch ctx) "key epoch" in
  Ok (context ([JStr "hushos/drive/origin-key"; JInt DRIVE_ENVELOPE_SUITE; JStr workspaceId; JStr nodeId]
    ++ position ++ [JInt keyEpoch; JStr (digest (OriginKeyContext.originEnvelope ctx))])).

Definition damagedEnvelope : string := "This encrypted envelope is damaged.".
Definition notOpened : string :=
  "This encrypted key could not be opened. It may belong to a different account or version, or it may be damaged.".
Definition damagedItem : string := "This item could not be opened. It may be damaged.".

(** The nonce and the body. *)
Definition split (envelope : bytes) (bodyLength : option Z) : result (bytes * bytes) :=
  refuse damagedEnvelope when
    (slen envelope <=? ENVELOPE_NONCE_BYTES + CHUNK_TAG_BYTES) ||
    match bodyLength with
    | Some n => negb (slen envelope =? ENVELOPE_NONCE_BYTES + n)
    | None => false
    end ;;
  Ok (subarray 0 ENVELOPE_NONCE_BYTES envelope, subarray_from ENVELOPE_NONCE_BYTES envelope).

Definition encryptKey (plaintext key nonce context : bytes) : result bytes :=
  xchacha_seal key nonce context plaintext.
Definition decryptKey (ciphertext key nonce context : bytes) : result bytes :=
  from_option_err notOpened (xchacha_open key nonce context ciphertext).

(** [nonce] is the one drawn at random. *)
Definition seal (nonce plaintext key aad : bytes) : result bytes :=
  let* body := encryptKey plaintext key nonce aad in
  Ok (nonce +:+ body).

Definition key32 (key : bytes) (what : string) : result bytes :=
  refuse (invalid what) unless slen key =? KEY_BYTES ;; Ok key.

(** A 32-byte key out of a 72-byte envelope under [aad], or refused. *)
Definition open_key_under (envelope : bytes) (body_key : bytes) (aad : result bytes) (what : string) : result bytes :=
  let* (nonce, body) := split envelope (Some (KEY_BYTES + CHUNK_TAG_BYTES)) in
  let* aad := aad in
  let* key := decryptKey body body_key nonce aad in
  refuse (invalid what) unless slen key =? KEY_BYTES ;; Ok key.

Definition wrapNodeKey (random nodeKey parentKey : bytes) (ctx : NodeKeyContext.t) : result bytes :=
  refuse "Invalid node key." unless slen nodeKey =? KEY_BYTES ;;
  let* aad := nodeKeyContext ctx in
  seal random nodeKey parentKey aad.
Definition openNodeKey (envelope parentKey : bytes) (ctx : NodeKeyContext.t) : result bytes :=
  open_key_under envelope parentKey (nodeKeyContext ctx) "node key".

Definition wrapPreviousRootKey (random rootKey areaKey : bytes) (ctx : NodeKeyContext.t) : result bytes :=
  refuse "Invalid node key." unless slen rootKey =? KEY_BYTES ;;
  refuse "Invalid node key." when NodeKeyContext.parentId ctx !== NodeKeyContext.workspaceId ctx ;;
  let* aad := previousRootKeyContext ctx in
  seal random rootKey areaKey aad.
Definition openPreviousRootKey (envelope areaKey : bytes) (ctx : NodeKeyContext.t) : result bytes :=
  open_key_under envelope areaKey (previousRootKeyContext ctx) "node key".

Definition with_suite (ctx : ContentKeyContext.t) (suite : Z) : ContentKeyContext.t := {|
  ContentKeyContext.workspaceId := ContentKeyContext.workspaceId ctx;
  ContentKeyContext.nodeId := ContentKeyContext.nodeId ctx;
  ContentKeyContext.versionId := ContentKeyContext.versionId ctx;
  ContentKeyContext.objectId := ContentKeyContext.objectId ctx;
  ContentKeyContext.suite := suite |}.

Definition wrapContentKey (random contentKey nodeKey : bytes) (ctx : ContentKeyContext.t) : result bytes :=
  refuse "Invalid content key." unless slen contentKey =? KEY_BYTES ;;
  let* aad := contentKeyContext (with_suite ctx LEGACY_CONTENT_SUITE) in
  seal random contentKey nodeKey aad.
Definition openContentKey (envelope nodeKey : bytes) (ctx : ContentKeyContext.t) : result bytes :=
  open_key_under envelope nodeKey (contentKeyContext (with_suite ctx LEGACY_CONTENT_SUITE)) "content key".

Definition sealVersion (random : bytes) (record : VersionRecord.t) (nodeKey : bytes)
    (ctx : ContentKeyContext.t) : result bytes :=
  refuse "Invalid content key." unless slen (VersionRecord.contentKey record) =? KEY_BYTES ;;
  let* suite := checkSuite (ContentKeyContext.suite ctx) in
  if suite =? LEGACY_CONTENT_SUITE then
    refuse "This file was stored without room for a thumbnail." unless VersionRecord.thumbnailBytes record =? 0 ;;
    wrapContentKey random (VersionRecord.contentKey record) nodeKey ctx
  else
    let* _ := byteCount (VersionRecord.plaintextSize record) "file size" in
    refuse "Invalid thumbnail size." when
      negb (is_safe_integer (VersionRecord.thumbnailBytes record)) ||
      (VersionRecord.thumbnailBytes record <? 0) ||
      (THUMBNAIL_MAX_BYTES <? VersionRecord.thumbnailBytes record) ;;
    let body := VersionRecord.contentKey record +:+ be_bytes 8 (VersionRecord.plaintextSize record) +:+
      be_bytes 4 (VersionRecord.thumbnailBytes record) in
    let* aad := contentKeyContext ctx in
    seal random body nodeKey aad.

Definition openVersion (envelope nodeKey : bytes) (ctx : ContentKeyContext.t) : result OpenedVersion.t :=
  let* suite := checkSuite (ContentKeyContext.suite ctx) in
  if suite =? LEGACY_CONTENT_SUITE then
    let* contentKey := openContentKey envelope nodeKey ctx in
    Ok {| OpenedVersion.contentKey := contentKey; OpenedVersion.plaintextSize := None;
          OpenedVersion.thumbnailBytes := 0 |}
  else
    let* (nonce, body) := split envelope (Some (VERSION_RECORD_BYTES + CHUNK_TAG_BYTES)) in
    let* aad := contentKeyContext ctx in
    let* record := decryptKey body nodeKey nonce aad in
    refuse "Invalid version envelope." unless slen record =? VERSION_RECORD_BYTES ;;
    let size := be_value (subarray KEY_BYTES (KEY_BYTES + 8) record) in
    let thumbnailBytes := be_value (subarray (KEY_BYTES + 8) (KEY_BYTES + 12) record) in
    refuse "Invalid version envelope." when
      (MAX_SAFE_INTEGER <? size) || (THUMBNAIL_MAX_BYTES <? thumbnailBytes) ;;
    Ok {| OpenedVersion.contentKey := subarray 0 KEY_BYTES record;
          OpenedVersion.plaintextSize := Some size;
          OpenedVersion.thumbnailBytes := thumbnailBytes |}.

(** ** Re-keyed records *)

Definition openEnvelopeBytes (envelope key aad : bytes) : result bytes :=
  let* (nonce, body) := split envelope None in
  let* key := key32 key "key" in
  decryptKey body key nonce aad.

Definition rekeyEnvelope (random envelope oldKey newKey aad : bytes) : result bytes :=
  let* newKey := key32 newKey "key" in
  let* plaintext := openEnvelopeBytes envelope oldKey aad in
  seal random plaintext newKey aad.

Definition originOpeningKey (envelope key : bytes) : result bytes :=
  let* (nonce, _) := split envelope None in
  let* key := key32 key "node key" in
  Ok (hchacha20 key (subarray 0 16 nonce)).

Definition openWithOriginKey (envelope originKey aad : bytes) : result bytes :=
  let* (nonce, body) := split envelope None in
  let ietf := fill 4 "000"%char +:+ subarray_from 16 nonce in
  let* originKey := key32 originKey "origin key" in
  from_option_err damagedItem (chacha_open originKey ietf aad body).

Definition wrapOriginKey (random originKey nodeKey : bytes) (ctx : OriginKeyContext.t) : result bytes :=
  let* originKey := key32 originKey "origin key" in
  let* nodeKey := key32 nodeKey "node key" in
  let* aad := originKeyContext ctx in
  seal random originKey nodeKey aad.

Definition openOriginKey (envelope nodeKey : bytes) (ctx : OriginKeyContext.t) : result bytes :=
  let* (nonce, body) := split envelope (Some (KEY_BYTES + CHUNK_TAG_BYTES)) in
  let* nodeKey := key32 nodeKey "node key" in
  let* aad := originKeyContext ctx in
  let* key := decryptKey body nodeKey nonce aad in
  refuse "Invalid origin key." unless slen key =? KEY_BYTES ;; Ok key.
End envelopes.

(** ** Lemmas *)

Lemma split_join nonce body n : slen nonce = ENVELOPE_NONCE_BYTES → CHUNK_TAG_BYTES < slen body →
  (∀ m, n = Some m → slen body = m) → split (nonce +:+ body) n = Ok (nonce, body).
Proof.
  intros Hn Hb Hm. unfold split. rewrite slen_app, Hn.
  rewrite (proj2 (Z.leb_gt _ _)) by lia. rewrite subarray_prefix, subarray_from_app by done.
  destruct n as [m|]; [|done]. rewrite (Hm m eq_refl), Z.eqb_refl. done.
Qed.

Lemma split_ok env n nonce body : split env n = Ok (nonce, body) →
  env = nonce +:+ body ∧ slen nonce = ENVELOPE_NONCE_BYTES ∧ CHUNK_TAG_BYTES < slen body.
Proof.
  unfold split. intros H. res_inv. bool_simpl. subst.
  assert (env = subarray 0 ENVELOPE_NONCE_BYTES env +:+ subarray_from ENVELOPE_NONCE_BYTES env) as E.
  { symmetry. by apply subarray_split. }
  assert (slen (subarray 0 ENVELOPE_NONCE_BYTES env) = ENVELOPE_NONCE_BYTES) as Hs.
  { rewrite slen_subarray; unfold ENVELOPE_NONCE_BYTES, CHUNK_TAG_BYTES in *; lia. }
  split; [done|]. split; [done|]. pose proof (f_equal slen E) as El. rewrite slen_app in El.
  unfold ENVELOPE_NONCE_BYTES, CHUNK_TAG_BYTES in *. lia.
Qed.

Lemma id_ok v w s : id v w = Ok s ↔ s = v ∧ UUID v = true.
Proof.
  unfold id. destruct (UUID v) eqn:E; split; [by intros [= <-]|by intros [-> _]|done|by intros [_ ?]].
Qed.
Lemma epoch_ok v w z : epoch v w = Ok z ↔ z = v ∧ 1 ≤ v ≤ MAX_SAFE_INTEGER.
Proof.
  unfold epoch. destruct (is_safe_integer v) eqn:E; simpl.
  - apply is_safe_integer_true in E. destruct (v <? 1) eqn:E1; bool_simpl.
    + split; [done|]. intros [_ ?]. lia.
    + split; [intros [= <-]; split; [done|lia]|by intros [-> _]].
  - split; [done|]. intros [_ ?]. apply not_true_iff_false in E. rewrite is_safe_integer_true in E.
    unfold MAX_SAFE_INTEGER in *. lia.
Qed.
Lemma checkSuite_ok s z : checkSuite s = Ok z → z = s ∧ 1 ≤ s ≤ 3.
Proof.
  unfold checkSuite. cbn [existsb READABLE_CONTENT_SUITES]. intros H. res_inv.
  unfold CONTENT_SUITE, UNPADDED_CONTENT_SUITE, LEGACY_CONTENT_SUITE in *.
  repeat match goal with Hb : _ || _ = true |- _ => apply orb_true_iff in Hb as [Hb|Hb] end; bool_simpl; lia || done.
Qed.

Ltac ctx_inv := repeat match goal with
  | H : id _ _ = Ok _ |- _ => apply id_ok in H as [-> H]
  | H : epoch _ _ = Ok _ |- _ => apply epoch_ok in H as [-> H]
  | H : checkSuite _ = Ok _ |- _ => apply checkSuite_ok in H as [-> H]
  end.

Section envelope_lemmas.
Context `{CL : CryptoLaws}.

Lemma seal_ok random p key aad env : seal random p key aad = Ok env →
  ∃ body, env = random +:+ body ∧ xchacha_open key random aad body = Some p ∧ slen body = slen p + CHUNK_TAG_BYTES.
Proof.
  unfold seal, encryptKey. intros H. res_inv. eexists. split; [done|].
  split; [by apply xchacha_open_seal|by apply xchacha_seal_length in Hv].
Qed.

Lemma openEnvelopeBytes_seal random p key aad env : slen random = ENVELOPE_NONCE_BYTES →
  slen key = KEY_BYTES → 0 < slen p → seal random p key aad = Ok env →
  openEnvelopeBytes env key aad = Ok p.
Proof.
  intros Hr Hk Hp (body & -> & Ho & Hl)%seal_ok. unfold openEnvelopeBytes.
  rewrite split_join by (done || lia). simpl. unfold key32. rewrite Hk. simpl.
  unfold decryptKey. by rewrite Ho.
Qed.

Lemma open_key_under_seal random key body_key aad env what : slen random = ENVELOPE_NONCE_BYTES →
  slen key = KEY_BYTES → seal random key body_key aad = Ok env →
  open_key_under env body_key (Ok aad) what = Ok key.
Proof.
  intros Hr Hk (body & -> & Ho & Hl)%seal_ok. unfold open_key_under.
  rewrite split_join; [|done|rewrite Hl, Hk; done|intros m [= <-]; by rewrite Hl, Hk].
  simpl. unfold decryptKey. rewrite Ho. simpl. by rewrite Hk.
Qed.

Lemma openEnvelopeBytes_nonempty env key aad p : openEnvelopeBytes env key aad = Ok p → 0 < slen p.
Proof.
  unfold openEnvelopeBytes. intros H. res_inv. destruct v as [nonce body]. res_inv.
  apply split_ok in Hv as (_ & _ & Hb). unfold decryptKey, from_option_err in H.
  destruct (xchacha_open _ _ _ _) eqn:E; [|done]. injection H as <-.
  apply xchacha_open_length in E. unfold CHUNK_TAG_BYTES in *. lia.
Qed.
End envelope_lemmas.

(** ** Contexts say what they are *)

(** Every context drive.ts seals under. A chunk's and a thumbnail's are the
    ones [encryptChunk] and [encryptThumbnail] let through. *)
Inductive any_context : Type :=
  | NodeKey (ctx : NodeKeyContext.t)
  | PreviousRootKey (ctx : NodeKeyContext.t)
  | Metadata (ctx : MetadataContext.t)
  | Document (ctx : DocumentContext.t)
  | ContentKey (ctx : ContentKeyContext.t)
  | OriginKey (ctx : OriginKeyContext.t)
  | Chunk (ctx : ChunkContext.t)
  | Thumbnail (ctx : ThumbnailContext.t).

Section contexts.
Context `{C : Crypto}.

Definition context_of (x : any_context) : result bytes :=
  match x with
  | NodeKey ctx => nodeKeyContext ctx
  | PreviousRootKey ctx => previousRootKeyContext ctx
  | Metadata ctx => metadataContext ctx
  | Document ctx => documentContext ctx
  | ContentKey ctx => contentKeyContext ctx
  | OriginKey ctx => originKeyContext ctx
  | Chunk ctx =>
      let* covered := checkChunkContext ctx in
      let* _ := chunkPlaintextLength covered (ChunkContext.index ctx) in
      chunkContext ctx
  | Thumbnail ctx =>
      let* _ := trailerLength (ThumbnailContext.thumbnailBytes ctx) in thumbnailContext ctx
  end.

(** The same kind of sealed thing at the same place: a chunk's context leaves
    out the thumbnail's length and a thumbnail's the file's, and an origin
    key names its origin by digest. *)
Definition same_context (x y : any_context) : Prop :=
  match x, y with
  | OriginKey a, OriginKey b =>
      OriginKeyContext.workspaceId a = OriginKeyContext.workspaceId b ∧
      OriginKeyContext.nodeId a = OriginKeyContext.nodeId b ∧
      OriginKeyContext.keyEpoch a = OriginKeyContext.keyEpoch b ∧
      OriginKeyContext.record a = OriginKeyContext.record b ∧
      (OriginKeyContext.originEnvelope a = OriginKeyContext.originEnvelope b ∨ collision)
  | Chunk a, Chunk b =>
      ChunkContext.workspaceId a = ChunkContext.workspaceId b ∧
      ChunkContext.objectId a = ChunkContext.objectId b ∧ ChunkContext.suite a = ChunkContext.suite b ∧
      ChunkContext.index a = ChunkContext.index b ∧ ChunkContext.chunkCount a = ChunkContext.chunkCount b ∧
      ChunkContext.plaintextSize a = ChunkContext.plaintextSize b
  | Thumbnail a, Thumbnail b =>
      ThumbnailContext.workspaceId a = ThumbnailContext.workspaceId b ∧
      ThumbnailContext.objectId a = ThumbnailContext.objectId b ∧
      ThumbnailContext.suite a = ThumbnailContext.suite b ∧
      ThumbnailContext.thumbnailBytes a = ThumbnailContext.thumbnailBytes b
  | _, _ => x = y
  end.
End contexts.

Lemma context_inj p q : grammatical (JArr p) 0 = true → grammatical (JArr q) 0 = true →
  context p = context q → p = q.
Proof.
  intros Hp%json_parse_stringify Hq%json_parse_stringify E. unfold context in E. congruence.
Qed.

Lemma uuid_from_plain n s : uuid_from n s = true → PLAIN s = true.
Proof.
  revert n; induction s as [|c s IH]; intros n; simpl; [done|]. intros [Hc Hs]%andb_true_iff.
  unfold PLAIN in *. simpl. rewrite (IH _ Hs), andb_true_r.
  pose proof (all_ascii_spec (λ c, negb ((c =? "-")%char || is_hex_char c) || plain_char c) eq_refl c) as H.
  cbn beta in H. destruct (plain_char c); [done|]. rewrite orb_false_r in H. bool_simpl.
  destruct (_ || _); congruence.
Qed.
Lemma UUID_plain s : UUID s = true → PLAIN s = true.
Proof. apply uuid_from_plain. Qed.

Lemma DOCUMENT_KIND_plain s : DOCUMENT_KIND s = true → PLAIN s = true.
Proof.
  unfold DOCUMENT_KIND. destruct s as [|c s]; [done|].
  intros [[Hfirst _]%andb_true_iff Hrest]%andb_true_iff. unfold PLAIN. cbn [string_forallb].
  apply andb_true_iff. split.
  - pose proof (all_ascii_spec (λ c, let n := N_of_ascii c in negb ((97 <=? n) && (n <=? 122))%N || plain_char c)
      eq_refl c) as Hc. cbv beta zeta in *. by rewrite Hfirst in Hc.
  - eapply string_forallb_impl; [|exact Hrest]. intros d Hd.
    pose proof (all_ascii_spec (λ c, let n := N_of_ascii c in
      negb (((97 <=? n) && (n <=? 122))%N || is_digit c || (c =? "-")%char) || plain_char c) eq_refl d) as Hc.
    cbv beta zeta in *. by rewrite Hd in Hc.
Qed.

Lemma safe_range z : 0 ≤ z ≤ MAX_SAFE_INTEGER → is_safe_integer z && (0 <=? z) = true.
Proof.
  intros. rewrite andb_true_iff, is_safe_integer_true, Z.leb_le. unfold MAX_SAFE_INTEGER in *. lia.
Qed.

Lemma b64_plain s : string_forallb is_b64_char s = true → PLAIN s = true.
Proof.
  apply string_forallb_impl. intros c Hc.
  pose proof (all_ascii_spec (λ c, negb (is_b64_char c) || plain_char c) eq_refl c) as H.
  cbn beta in H. by rewrite Hc in H.
Qed.

Create HintDb ctx.
#[export] Hint Resolve UUID_plain DOCUMENT_KIND_plain safe_range : ctx.

Section contexts_lemmas.
Context `{C : Crypto}.

Lemma digest_plain b : PLAIN (digest b) = true.
Proof. apply b64_plain. apply encode_chars. Qed.

(** The parts each context is the text of. *)
Definition parts_of (x : any_context) : list jsval :=
  match x with
  | NodeKey (NodeKeyContext.Build_t w n p pe e) =>
      [JStr "hushos/drive/node-key"; JInt 1; JStr w; JStr n; JStr p; JInt pe; JInt e]
  | PreviousRootKey (NodeKeyContext.Build_t w n p pe e) =>
      [JStr "hushos/drive/previous-root-key"; JInt 1; JStr w; JStr n; JStr p; JInt pe; JInt e]
  | Metadata (MetadataContext.Build_t w n v) =>
      [JStr "hushos/drive/node-meta"; JInt 1; JStr w; JStr n; JInt v]
  | Document (DocumentContext.Build_t w k v) =>
      [JStr "hushos/drive/workspace-doc"; JInt 1; JStr w; JStr k; JInt v]
  | ContentKey (ContentKeyContext.Build_t w n v o s) =>
      [JStr "hushos/drive/content-key"; JInt s; JStr w; JStr n; JStr v; JStr o]
  | OriginKey (OriginKeyContext.Build_t w n e (OriginMetadata v) o) =>
      [JStr "hushos/drive/origin-key"; JInt 1; JStr w; JStr n; JStr "metadata"; JInt v; JInt e; JStr (digest o)]
  | OriginKey (OriginKeyContext.Build_t w n e (OriginVersion v) o) =>
      [JStr "hushos/drive/origin-key"; JInt 1; JStr w; JStr n; JStr "version"; JStr v; JInt e; JStr (digest o)]
  | Chunk (ChunkContext.Build_t w o s i c p _) =>
      [JStr "hushos/drive/content"; JInt s; JStr w; JStr o; JInt i; JInt c; JInt p]
  | Thumbnail (ThumbnailContext.Build_t w o s _ t) =>
      [JStr "hushos/drive/thumbnail"; JInt s; JStr w; JStr o; JInt t]
  end.

Lemma suite_range s : 1 ≤ s ≤ 3 → is_safe_integer s && (0 <=? s) = true.
Proof. intros. apply safe_range. unfold MAX_SAFE_INTEGER. lia. Qed.
Lemma epoch_range s : 1 ≤ s ≤ MAX_SAFE_INTEGER → is_safe_integer s && (0 <=? s) = true.
Proof. intros. apply safe_range. lia. Qed.

Ltac grammar_fields := cbn [grammatical forallb Nat.ltb Nat.leb];
  rewrite ?UUID_plain, ?DOCUMENT_KIND_plain, ?digest_plain by done;
  rewrite ?suite_range, ?epoch_range by done; rewrite ?safe_range by (try done; lia); done.

Lemma context_of_parts x a : context_of x = Ok a →
  a = context (parts_of x) ∧ grammatical (JArr (parts_of x)) 0 = true.
Proof.
  destruct x as [[]|[]|[]|[]|[]|[? ? ? [] ?]|[w o s i c p t]|[w o s p t]]; cbn [context_of parts_of];
    unfold nodeKeyContext, previousRootKeyContext, node_key_fields, metadataContext, documentContext,
      contentKeyContext, originKeyContext;
    cbn; intros H; try solve [res_inv; ctx_inv; split; [done|]; grammar_fields].
  - apply bind_ok in H as (L & [HL Hc]%checkChunkContext_ok & G). cbn in HL, Hc, G.
    apply bind_ok in G as (m & (n & Hn & Hi & _)%chunkPlaintextLength_inv & K).
    assert (n = c) as -> by congruence. apply contentLength_ok in HL as (_ & _ & _ & ? & _).
    apply chunkCount_bounds in Hc as (? & ? & _).
    unfold chunkContext in K. cbn in K. res_inv. ctx_inv. split; [done|]. grammar_fields.
  - apply bind_ok in H as (r & (Ht & _)%trailerLength_ok & K).
    unfold thumbnailContext in K. cbn in K. res_inv. ctx_inv. split; [done|].
    assert (t ≤ MAX_SAFE_INTEGER) by (unfold THUMBNAIL_MAX_BYTES, MAX_SAFE_INTEGER in *; lia).
    grammar_fields.
Qed.

Lemma parts_of_same x y : parts_of x = parts_of y → same_context x y.
Proof.
  destruct x as [[]|[]|[]|[]|[]|[? ? ? [] ?]|[]|[]], y as [[]|[]|[]|[]|[]|[? ? ? [] ?]|[]|[]];
    cbn [parts_of]; intros H; injection H; intros; simplify_eq; cbn [same_context]; try done;
    split_and!; try done; cbn; by apply digest_eq.
Qed.
End contexts_lemmas.

#[export] Hint Resolve digest_plain : ctx.

(** ** Properties *)

(** An envelope opens only as what it was sealed as: no two contexts of
    drive.ts build the same bytes unless they are the same kind of context
    over the same ids, epochs, versions and indexes (an origin key's origin up
    to a SHA-256 collision). *)
Theorem contexts_bind `{C : Crypto} x y a : context_of x = Ok a → context_of y = Ok a → same_context x y.
Proof.
  intros [-> Hx]%context_of_parts [E Hy]%context_of_parts. by apply parts_of_same, context_inj.
Qed.

Module EnvelopeWitness.
Definition ws := "0a0a0a0a-0000-4000-8000-000000000001".
Definition node := "0b0b0b0b-0000-4000-8000-000000000002".
Definition version := "0c0c0c0c-0000-4000-8000-000000000003".
Definition nonce := fill 24 "r"%char.
Definition key := fill 32 "k"%char.
Definition key' := fill 32 "q"%char.
Definition ctx : NodeKeyContext.t := NodeKeyContext.Build_t ws node node 1 2.
Definition content : ContentKeyContext.t := ContentKeyContext.Build_t ws node version node 3.
End EnvelopeWitness.

Lemma contexts_bind_witness :
  let a := match context_of (C := Toy.crypto) (NodeKey EnvelopeWitness.ctx) with Ok a => a | Err _ => "" end in
  0 < slen a ∧ same_context (C := Toy.crypto) (NodeKey EnvelopeWitness.ctx) (NodeKey EnvelopeWitness.ctx).
Proof.
  split; [reflexivity|].
  apply (contexts_bind (C := Toy.crypto) _ _
    (match context_of (C := Toy.crypto) (NodeKey EnvelopeWitness.ctx) with Ok a => a | Err _ => "" end)); reflexivity.
Defined.

Section origin_keys.
Context `{CL : CryptoLaws}.

Lemma opening_key_opens env key aad k : originOpeningKey env key = Ok k →
  to_option (openWithOriginKey env k aad) = to_option (openEnvelopeBytes env key aad).
Proof.
  unfold originOpeningKey, openWithOriginKey, openEnvelopeBytes. intros H. res_inv.
  destruct v as [nonce body]. res_inv. rewrite Hv. simpl.
  pose proof (split_ok _ _ _ _ Hv) as (_ & Hn & _).
  unfold key32 in *. res_inv. bool_simpl. simpl.
  unfold decryptKey. rewrite (xchacha_is_chacha v nonce) by (done || congruence).
  by destruct (chacha_open _ _ _ _).
Qed.
End origin_keys.

(** The key a rotation hands out for an origin opens exactly what the old
    node key opens of that one envelope: the same plaintext when it opens, and
    nothing when it does not, under whatever associated data. *)
Theorem origin_key_equivalent `{CL : CryptoLaws} env key aad (Hk : slen key = KEY_BYTES) :
  CHUNK_TAG_BYTES + ENVELOPE_NONCE_BYTES < slen env →
  ∃ k, originOpeningKey env key = Ok k ∧ slen k = KEY_BYTES ∧
    to_option (openWithOriginKey env k aad) = to_option (openEnvelopeBytes env key aad).
Proof.
  intros Hl.
  assert (∃ k, originOpeningKey env key = Ok k) as [k Hok].
  { unfold originOpeningKey, split. rewrite (proj2 (Z.leb_gt _ _)) by lia. cbn [orb mbind res_bind].
    unfold key32. rewrite Hk. cbn. by eexists. }
  exists k. split; [done|]. split; [|by apply opening_key_opens].
  unfold originOpeningKey in Hok. res_inv. destruct v. res_inv. apply hchacha20_length.
Qed.

Lemma origin_key_equivalent_witness :
  let env := match seal (C := Toy.crypto) EnvelopeWitness.nonce "name" EnvelopeWitness.key "aad" with Ok e => e | Err _ => "" end in
  to_option (openEnvelopeBytes (C := Toy.crypto) env EnvelopeWitness.key "aad") = Some "name" ∧
  ∃ k, originOpeningKey env EnvelopeWitness.key = Ok k ∧ slen k = KEY_BYTES ∧
    to_option (openWithOriginKey (C := Toy.crypto) env k "aad")
    = to_option (openEnvelopeBytes (C := Toy.crypto) env EnvelopeWitness.key "aad").
Proof.
  split; [vm_compute; reflexivity|].
  apply (origin_key_equivalent (CL := Toy.crypto_laws)); vm_compute; reflexivity.
Defined.

(** A rotation's raw re-seal keeps the bytes: what [rekeyEnvelope] makes
    opens under the new key to exactly what the envelope held under the old
    one, so the origin and the current envelope can be compared byte by byte. *)
Theorem rekeyEnvelope_keeps_bytes `{CL : CryptoLaws} random env old new aad env'
    (Hr : slen random = ENVELOPE_NONCE_BYTES) :
  rekeyEnvelope random env old new aad = Ok env' →
  ∃ p, openEnvelopeBytes env old aad = Ok p ∧ openEnvelopeBytes env' new aad = Ok p.
Proof.
  unfold rekeyEnvelope, key32. intros H. res_inv. bool_simpl.
  match goal with Ho : openEnvelopeBytes _ _ _ = Ok ?p |- _ => exists p; split; [done|];
    pose proof (openEnvelopeBytes_nonempty _ _ _ _ Ho) end.
  by eapply openEnvelopeBytes_seal.
Qed.

Lemma rekeyEnvelope_keeps_bytes_witness :
  let env := match seal (C := Toy.crypto) EnvelopeWitness.nonce "name" EnvelopeWitness.key "aad" with Ok e => e | Err _ => "" end in
  let env' := match rekeyEnvelope (C := Toy.crypto) EnvelopeWitness.nonce env EnvelopeWitness.key EnvelopeWitness.key' "aad" with Ok e => e | Err _ => "" end in
  env ≠ env' ∧ ∃ p, openEnvelopeBytes (C := Toy.crypto) env EnvelopeWitness.key "aad" = Ok p ∧
    openEnvelopeBytes (C := Toy.crypto) env' EnvelopeWitness.key' "aad" = Ok p.
Proof.
  split; [vm_compute; done|].
  apply (rekeyEnvelope_keeps_bytes (CL := Toy.crypto_laws) EnvelopeWitness.nonce); vm_compute; reflexivity.
Defined.

(** A version envelope gives back what it sealed: the content key, and
    under suites 2 and 3 the file's size and its thumbnail's length, which the
    server never holds; under suite 1 the key alone. *)
Theorem openVersion_sealVersion `{CL : CryptoLaws} random record key ctx env
    (Hr : slen random = ENVELOPE_NONCE_BYTES) :
  sealVersion random record key ctx = Ok env →
  openVersion env key ctx = Ok {|
    OpenedVersion.contentKey := VersionRecord.contentKey record;
    OpenedVersion.plaintextSize :=
      if ContentKeyContext.suite ctx =? LEGACY_CONTENT_SUITE then None else Some (VersionRecord.plaintextSize record);
    OpenedVersion.thumbnailBytes := VersionRecord.thumbnailBytes record |}.
Proof.
  destruct record as [ck size thumb]. unfold sealVersion, openVersion. cbn. intros H.
  res_inv. bool_simpl. rename v into suite. pose proof Hv as [-> Hs]%checkSuite_ok. rewrite Hv. cbn.
  destruct (_ =? LEGACY_CONTENT_SUITE) eqn:El.
  - res_inv. bool_simpl. subst thumb. unfold wrapContentKey, openContentKey in *. res_inv.
    rewrite Hv0. by rewrite (open_key_under_seal random ck _ _ _ _ Hr) by done.
  - res_inv. unfold byteCount in *. res_inv. bool_simpl.
    repeat match goal with Hb : is_safe_integer _ = true |- _ => apply is_safe_integer_true in Hb end.
    apply seal_ok in H as (body & -> & Ho & Hl).
    set (rec := ck +:+ _ +:+ _) in *.
    assert (slen rec = VERSION_RECORD_BYTES) as Hrl.
    { subst rec. rewrite !slen_app, !slen_be_bytes. unfold VERSION_RECORD_BYTES. lia. }
    rewrite split_join; [|done|rewrite Hl, Hrl; done|intros m [= <-]; by rewrite Hl, Hrl].
    cbn. rewrite Hv1. cbn. unfold decryptKey. rewrite Ho. cbn. rewrite Hrl. cbn.
    assert (subarray KEY_BYTES (KEY_BYTES + 8) rec = be_bytes 8 v) as ->.
    { subst rec. unfold subarray. rewrite drop_bytes_app by (rewrite <- slen_Zto_nat; congruence).
      apply take_bytes_app. rewrite <- slen_Zto_nat, slen_be_bytes. lia. }
    assert (subarray (KEY_BYTES + 8) (KEY_BYTES + 12) rec = be_bytes 4 thumb) as ->.
    { subst rec. rewrite <- app_assoc'. apply subarray_suffix; rewrite !slen_app, !slen_be_bytes; lia. }
    assert (subarray 0 KEY_BYTES rec = ck) as -> by (subst rec; by apply subarray_prefix).
    rewrite !be_value_bytes by (unfold MAX_SAFE_INTEGER, THUMBNAIL_MAX_BYTES in *; lia).
    by rewrite (proj2 (Z.ltb_ge MAX_SAFE_INTEGER _)), (proj2 (Z.ltb_ge THUMBNAIL_MAX_BYTES _)) by lia.
Qed.

Lemma openVersion_sealVersion_witness :
  let record := VersionRecord.Build_t (fill 32 "c"%char) 70000 5000 in
  let env := match sealVersion (C := Toy.crypto) EnvelopeWitness.nonce record EnvelopeWitness.key EnvelopeWitness.content
             with Ok e => e | Err _ => "" end in
  slen env = VERSION_ENVELOPE_BYTES ∧
  openVersion (C := Toy.crypto) env EnvelopeWitness.key EnvelopeWitness.content
  = Ok (OpenedVersion.Build_t (fill 32 "c"%char) (Some 70000) 5000).
Proof.
  split; [vm_compute; reflexivity|].
  apply (openVersion_sealVersion (CL := Toy.crypto_laws) EnvelopeWitness.nonce
    (VersionRecord.Build_t (fill 32 "c"%char) 70000 5000) EnvelopeWitness.key EnvelopeWitness.content);
    vm_compute; reflexivity.
Defined.
