(* ===== verification/Signatures.v ===== *)
(** * Statements and what a signature says (packages/crypto/src/signatures.ts)

    Every statement a HushOS signature covers is a compact JSON array under a
    domain of its own. This file holds the statements over records, shares,
    identities and successions, the verdict a reader shows for a record
    ([integrityOf]) and for a re-keyed one ([rekeyedIntegrityOf]), and the
    forms a rotation, rename or copy signs again. *)

From S2P Require Import Prelude Base64url Bytes Canonical Padding HChaCha Crypto Content Envelopes.

(** ** Types *)

Inductive NodeKind : Type := Folder | File.
Inductive Integrity : Type :=
  | verified | seen | saved_from_link | resealed | retired_key | unknown_signer | bad_signature
  | unsigned | unchecked.
Inductive SignatureForm : Type := ordinary | saved | resealed_form.

#[export] Instance NodeKind_eq_dec : EqDecision NodeKind.
Proof. solve_decision. Defined.
#[export] Instance Integrity_eq_dec : EqDecision Integrity.
Proof. solve_decision. Defined.
#[export] Instance SignatureForm_eq_dec : EqDecision SignatureForm.
Proof. solve_decision. Defined.

Module TrustedSigner.
Record t := { current : bytes; retired : list bytes; seen : bool }.
End TrustedSigner.
Module MetadataStatement.
Record t := { workspaceId : string; nodeId : string; kind : NodeKind; metadataVersion : Z }.
End MetadataStatement.
Module VersionStatement.
Record t := {
  workspaceId : string; nodeId : string; versionId : string; objectId : string; contentSuite : Z;
}.
End VersionStatement.
Module ShareStatement.
Record t := {
  workspaceId : string; nodeId : string; keyEpoch : Z; granteeUserId : string; granterUserId : string;
}.
End ShareStatement.
Module SuccessionStatement.
Record t := {
  userId : string; oldKeyVersion : Z; newKeyVersion : Z;
  oldEncryptionPublicKey : string; oldSigningPublicKey : string; oldMlDsaPublicKey : string;
  newEncryptionPublicKey : string; newSigningPublicKey : string; newMlDsaPublicKey : string;
  newKemPublicKey : string;
}.
End SuccessionStatement.
Module KeysStatement.
Record t := {
  userId : string; keyVersion : Z;
  encryptionPublicKey : string; signingPublicKey : string; mlDsaPublicKey : string; kemPublicKey : string;
}.
End KeysStatement.
Module RecordOrigin.
Record t := { envelope : bytes; signerId : string; signature : bytes; keyEnvelope : bytes }.
End RecordOrigin.

(** ** Fields *)

(** [value.toLowerCase()]: every id the statements carry is ASCII. *)
Definition lower_char (c : ascii) : ascii :=
  let n := N_of_ascii c in
  if ((65 <=? n) && (n <=? 90))%N then ascii_of_N (n + 32) else c.
Fixpoint toLowerCase (s : string) : string :=
  match s with EmptyString => EmptyString | String c s' => String (lower_char c) (toLowerCase s') end.

Definition text (value what : string) : result string :=
  refuse (invalid what) when slen value =? 0 ;; Ok (toLowerCase value).
Definition count (value : Z) (what : string) : result Z :=
  refuse (invalid what) when negb (is_safe_integer value) || (value <? 1) ;; Ok value.
Definition suite (value : Z) : result Z :=
  let* value := count value "content suite" in
  refuse "Invalid content suite." when 4294967295 <? value ;; Ok value.
Definition statement (parts : list jsval) : bytes := json_stringify (JArr parts).
(** Canonical base64url of the right length, or refused. *)
Definition key (value : string) (length : Z) : result string :=
  let* _ := decode value (Some length) in Ok value.

Definition METADATA_DOMAIN : string := "hushos/drive/sig/metadata".
Definition VERSION_DOMAIN : string := "hushos/drive/sig/version".
Definition METADATA_RESEALED_DOMAIN : string := "hushos/drive/sig/metadata-resealed".
Definition VERSION_RESEALED_DOMAIN : string := "hushos/drive/sig/version-resealed".
Definition METADATA_SAVED_DOMAIN : string := "hushos/drive/sig/metadata-saved".
Definition VERSION_SAVED_DOMAIN : string := "hushos/drive/sig/version-saved".
Definition METADATA_REKEYED_DOMAIN : string := "hushos/drive/sig/metadata-rekeyed".
Definition VERSION_REKEYED_DOMAIN : string := "hushos/drive/sig/version-rekeyed".
Definition SAVED_FROM_LINK : string := "link".

Definition kind_name (k : NodeKind) : string := match k with Folder => "folder" | File => "file" end.

(** ** Statements *)

Section statements.
Context `{C : Crypto}.

Definition metadata_fields (ctx : MetadataStatement.t) : result (list jsval) :=
  let* workspaceId := text (MetadataStatement.workspaceId ctx) "workspace id" in
  let* nodeId := text (MetadataStatement.nodeId ctx) "node id" in
  let* metadataVersion := count (MetadataStatement.metadataVersion ctx) "metadata version" in
  Ok [JStr workspaceId; JStr nodeId; JStr (kind_name (MetadataStatement.kind ctx)); JInt metadataVersion].

Definition version_fields (ctx : VersionStatement.t) : result (list jsval) :=
  let* workspaceId := text (VersionStatement.workspaceId ctx) "workspace id" in
  let* nodeId := text (VersionStatement.nodeId ctx) "node id" in
  let* versionId := text (VersionStatement.versionId ctx) "version id" in
  let* objectId := text (VersionStatement.objectId ctx) "object id" in
  let* contentSuite := suite (VersionStatement.contentSuite ctx) in
  Ok [JStr workspaceId; JStr nodeId; JStr versionId; JStr objectId; JInt contentSuite].

Definition metadataParts (domain : string) (ctx : MetadataStatement.t) (metadataEnvelope : bytes) : result bytes :=
  let* fields := metadata_fields ctx in
  Ok (statement ([JStr domain; JInt 1] ++ fields ++ [JStr (digest metadataEnvelope)] ++
    if domain === METADATA_SAVED_DOMAIN then [JStr SAVED_FROM_LINK] else [])).

Definition versionParts (domain : string) (ctx : VersionStatement.t) (contentKeyEnvelope : bytes) : result bytes :=
  let* fields := version_fields ctx in
  Ok (statement ([JStr domain; JInt 1] ++ fields ++ [JStr (digest contentKeyEnvelope)] ++
    if domain === VERSION_SAVED_DOMAIN then [JStr SAVED_FROM_LINK] else [])).

Definition metadataStatementAs (form : SignatureForm) : MetadataStatement.t → bytes → result bytes :=
  metadataParts match form with
    | saved => METADATA_SAVED_DOMAIN
    | resealed_form => METADATA_RESEALED_DOMAIN
    | ordinary => METADATA_DOMAIN
    end.
Definition versionStatementAs (form : SignatureForm) : VersionStatement.t → bytes → result bytes :=
  versionParts match form with
    | saved => VERSION_SAVED_DOMAIN
    | resealed_form => VERSION_RESEALED_DOMAIN
    | ordinary => VERSION_DOMAIN
    end.

(** [rekeyedTail], without the awaited spread. *)
Definition rekeyedTail (keyEpoch : Z) (envelope : bytes) (origin : RecordOrigin.t) : result (list jsval) :=
  let* keyEpoch := count keyEpoch "key epoch" in
  let* signerId := text (RecordOrigin.signerId origin) "user id" in
  Ok [JInt keyEpoch; JStr (digest envelope); JStr (digest (RecordOrigin.envelope origin)); JStr signerId;
      JStr (digest (RecordOrigin.signature origin)); JStr (digest (RecordOrigin.keyEnvelope origin))].

Definition metadataRekeyedStatement (ctx : MetadataStatement.t) (keyEpoch : Z) (metadataEnvelope : bytes)
    (origin : RecordOrigin.t) : result bytes :=
  let* fields := metadata_fields ctx in
  let* tail := rekeyedTail keyEpoch metadataEnvelope origin in
  Ok (statement ([JStr METADATA_REKEYED_DOMAIN; JInt 1] ++ fields ++ tail)).

Definition versionRekeyedStatement (ctx : VersionStatement.t) (keyEpoch : Z) (contentKeyEnvelope : bytes)
    (origin : RecordOrigin.t) : result bytes :=
  let* fields := version_fields ctx in
  let* tail := rekeyedTail keyEpoch contentKeyEnvelope origin in
  Ok (statement ([JStr VERSION_REKEYED_DOMAIN; JInt 1] ++ fields ++ tail)).

Definition shareStatement (ctx : ShareStatement.t) (sealed : bytes) : result bytes :=
  let* workspaceId := text (ShareStatement.workspaceId ctx) "workspace id" in
  let* nodeId := text (ShareStatement.nodeId ctx) "node id" in
  let* keyEpoch := count (ShareStatement.keyEpoch ctx) "key epoch" in
  let* granteeUserId := text (ShareStatement.granteeUserId ctx) "user id" in
  let* granterUserId := text (ShareStatement.granterUserId ctx) "user id" in
  Ok (statement [JStr "hushos/drive/sig/share"; JInt 4; JStr workspaceId; JStr nodeId; JInt keyEpoch;
    JStr granteeUserId; JStr granterUserId; JStr (digest sealed)]).

Definition successionFields (domain : string) (head : list jsval) (link : SuccessionStatement.t) : result bytes :=
  let* oldVersion := count (SuccessionStatement.oldKeyVersion link) "key version" in
  let newVersion := SuccessionStatement.newKeyVersion link in
  refuse "Invalid key version." when negb (is_safe_integer newVersion) || (newVersion <=? oldVersion) ;;
  let* userId := text (SuccessionStatement.userId link) "user id" in
  let* oldX := key (SuccessionStatement.oldEncryptionPublicKey link) 32 in
  let* oldEd := key (SuccessionStatement.oldSigningPublicKey link) SIGNING_PUBLIC_KEY_BYTES in
  let* oldMl := key (SuccessionStatement.oldMlDsaPublicKey link) ML_DSA_PUBLIC_KEY_BYTES in
  let* newX := key (SuccessionStatement.newEncryptionPublicKey link) 32 in
  let* newEd := key (SuccessionStatement.newSigningPublicKey link) SIGNING_PUBLIC_KEY_BYTES in
  let* newMl := key (SuccessionStatement.newMlDsaPublicKey link) ML_DSA_PUBLIC_KEY_BYTES in
  let* newKem := decode (SuccessionStatement.newKemPublicKey link) (Some 1184) in
  Ok (statement ([JStr domain] ++ head ++ [JStr userId; JInt oldVersion; JInt newVersion; JStr oldX; JStr oldEd;
    JStr oldMl; JStr newX; JStr newEd; JStr newMl; JStr (digest newKem)])).

Definition successionStatement (link : SuccessionStatement.t) : result bytes :=
  successionFields "hushos/identity/succession" [JInt 2] link.

Inductive ConsentRole : Type := role_old | role_new.
Definition successionConsentStatement (link : SuccessionStatement.t) (role : ConsentRole) : result bytes :=
  successionFields "hushos/identity/succession-consent"
    [JInt 1; JStr match role with role_old => "old" | role_new => "new" end] link.

Definition keysStatement (keys : KeysStatement.t) : result bytes :=
  let* userId := text (KeysStatement.userId keys) "user id" in
  let* keyVersion := count (KeysStatement.keyVersion keys) "key version" in
  let* x := key (KeysStatement.encryptionPublicKey keys) 32 in
  let* ed := key (KeysStatement.signingPublicKey keys) SIGNING_PUBLIC_KEY_BYTES in
  let* ml := key (KeysStatement.mlDsaPublicKey keys) ML_DSA_PUBLIC_KEY_BYTES in
  let* kem := decode (KeysStatement.kemPublicKey keys) (Some 1184) in
  Ok (statement [JStr "hushos/identity/keys"; JInt 1; JStr userId; JInt keyVersion; JStr x; JStr ed; JStr ml;
    JStr (digest kem)]).
End statements.

(** ** Forms a record is signed in again *)

Definition resealForm (prior : Integrity) : result SignatureForm :=
  match prior with
  | unchecked => Err "HushOS couldn’t check who wrote this, so it was not locked again. Try again."
  | verified | seen => Ok ordinary
  | saved_from_link => Ok saved
  | _ => Ok resealed_form
  end.

Definition compatForm (prior : Integrity) (ownRecord : bool) : SignatureForm :=
  if ownRecord && (prior === verified) then ordinary
  else if ownRecord && (prior === saved_from_link) then saved
  else resealed_form.

Definition copyForm (prior : option Integrity) (fromLink : bool) : result SignatureForm :=
  if fromLink then Ok saved else resealForm (default unchecked prior).

(** ** Verdicts *)

Module StatementForms.
Record t := { ordinary : bytes; saved : bytes; resealed : bytes }.
End StatementForms.

(** What a check may throw: a [CryptoError], or anything else. *)
Inductive thrown : Type := CryptoError (message : string) | OtherError.

Section verdicts.
Context `{C : Crypto}.

Definition metadataStatements (ctx : MetadataStatement.t) (metadataEnvelope : bytes) : result StatementForms.t :=
  let* o := metadataStatementAs ordinary ctx metadataEnvelope in
  let* s := metadataStatementAs saved ctx metadataEnvelope in
  let* r := metadataStatementAs resealed_form ctx metadataEnvelope in
  Ok {| StatementForms.ordinary := o; StatementForms.saved := s; StatementForms.resealed := r |}.
Definition versionStatements (ctx : VersionStatement.t) (contentKeyEnvelope : bytes) : result StatementForms.t :=
  let* o := versionStatementAs ordinary ctx contentKeyEnvelope in
  let* s := versionStatementAs saved ctx contentKeyEnvelope in
  let* r := versionStatementAs resealed_form ctx contentKeyEnvelope in
  Ok {| StatementForms.ordinary := o; StatementForms.saved := s; StatementForms.resealed := r |}.

(** [statements] is what building the statements gave or threw; [verifyStatement] itself never throws. *)
Definition integrityOf (statements : res thrown StatementForms.t) (signature : option bytes)
    (trusted : option TrustedSigner.t) : Integrity :=
  match signature, trusted with
  | None, _ => unsigned
  | Some _, None => unknown_signer
  | Some signature, Some trusted =>
      match statements with
      | Err (CryptoError _) => bad_signature
      | Err OtherError => unchecked
      | Ok forms =>
          let current := TrustedSigner.current trusted in
          if verifyStatement (StatementForms.ordinary forms) signature current then
            if TrustedSigner.seen trusted then seen else verified
          else if verifyStatement (StatementForms.saved forms) signature current then saved_from_link
          else if verifyStatement (StatementForms.resealed forms) signature current then resealed
          else if existsb (λ key, existsb (λ statement, verifyStatement statement signature key)
                 [StatementForms.ordinary forms; StatementForms.saved forms; StatementForms.resealed forms])
                 (TrustedSigner.retired trusted)
          then retired_key
          else bad_signature
      end
  end.

Definition throwing {A} (m : result A) : res thrown A :=
  match m with Ok a => Ok a | Err e => Err (CryptoError e) end.

Definition rekeyerIntegrityOf (statement : res thrown bytes) (signature : option bytes)
    (trusted : option TrustedSigner.t) (signerGone : bool) : Integrity :=
  match signature, trusted with
  | None, _ => unsigned
  | Some _, None => unknown_signer
  | Some signature, Some trusted =>
      if signerGone then unchecked
      else match statement with
      | Err (CryptoError _) => bad_signature
      | Err OtherError => unchecked
      | Ok bytes =>
          if verifyStatement bytes signature (TrustedSigner.current trusted) then
            if TrustedSigner.seen trusted then seen else verified
          else if existsb (verifyStatement bytes signature) (TrustedSigner.retired trusted) then retired_key
          else bad_signature
      end
  end.
End verdicts.

(** ** Re-keyed records *)

Module ServedOrigin.
Record t := { envelope : bytes; signerId : option string; signature : option bytes; keyEnvelope : bytes }.
End ServedOrigin.

(** Which record it is, with its statement's fields. *)
Inductive RecordStatement : Type :=
  | MetadataRecord (statement : MetadataStatement.t)
  | VersionRecord_ (statement : VersionStatement.t).

Module RekeyedRecord.
Record t := {
  statement : RecordStatement; keyEpoch : Z; envelope : bytes; origin : ServedOrigin.t;
  rekeySignature : option bytes;
}.
End RekeyedRecord.
Module RekeyedTrust.
Record t := { origin : option TrustedSigner.t; rekeyer : option TrustedSigner.t }.
End RekeyedTrust.
Module RekeyedVerdict.
Record t := { origin : Integrity; rekeyer : Integrity; bound : option bool }.
End RekeyedVerdict.

Inductive Unbound : Type := u_current | u_origin | u_differ.
(** [{ key }] or [{ unbound }] *)
Inductive OpenedOrigin : Type := OpenedKey (key : bytes) | NotBound (unbound : Unbound).

Section rekeyed.
Context `{C : Crypto}.

Definition record_workspace (s : RecordStatement) : string :=
  match s with
  | MetadataRecord m => MetadataStatement.workspaceId m
  | VersionRecord_ v => VersionStatement.workspaceId v
  end.
Definition record_node (s : RecordStatement) : string :=
  match s with
  | MetadataRecord m => MetadataStatement.nodeId m
  | VersionRecord_ v => VersionStatement.nodeId v
  end.
Definition record_position (s : RecordStatement) : OriginRecord :=
  match s with
  | MetadataRecord m => OriginMetadata (MetadataStatement.metadataVersion m)
  | VersionRecord_ v => OriginVersion (VersionStatement.versionId v)
  end.
(** The associated data of the record's envelopes; a refusal is [None]. *)
Definition record_aad (s : RecordStatement) : option bytes :=
  to_option match s with
  | MetadataRecord m => metadataContext {|
      MetadataContext.workspaceId := MetadataStatement.workspaceId m;
      MetadataContext.nodeId := MetadataStatement.nodeId m;
      MetadataContext.metadataVersion := MetadataStatement.metadataVersion m |}
  | VersionRecord_ v => contentKeyContext {|
      ContentKeyContext.workspaceId := VersionStatement.workspaceId v;
      ContentKeyContext.nodeId := VersionStatement.nodeId v;
      ContentKeyContext.versionId := VersionStatement.versionId v;
      ContentKeyContext.objectId := VersionStatement.objectId v;
      ContentKeyContext.suite := VersionStatement.contentSuite v |}
  end.
Definition record_fits (s : RecordStatement) (envelope : bytes) : bool :=
  match s with
  | MetadataRecord _ => slen envelope <=? METADATA_ENVELOPE_MAX_BYTES
  | VersionRecord_ v =>
      match versionEnvelopeBytes (VersionStatement.contentSuite v) with
      | Ok length => slen envelope =? length
      | Err _ => false
      end
  end.

Definition origin_context (record : RekeyedRecord.t) (keyEpoch : Z) : OriginKeyContext.t := {|
  OriginKeyContext.workspaceId := record_workspace (RekeyedRecord.statement record);
  OriginKeyContext.nodeId := record_node (RekeyedRecord.statement record);
  OriginKeyContext.keyEpoch := keyEpoch;
  OriginKeyContext.record := record_position (RekeyedRecord.statement record);
  OriginKeyContext.originEnvelope := ServedOrigin.envelope (RekeyedRecord.origin record) |}.

Definition openOrigin (nodeKey : bytes) (record : RekeyedRecord.t) : OpenedOrigin :=
  let s := RekeyedRecord.statement record in
  let origin := RekeyedRecord.origin record in
  match record_aad s with
  | None => NotBound u_current
  | Some aad =>
      if negb (slen nodeKey =? 32) || negb (record_fits s (RekeyedRecord.envelope record)) then NotBound u_current
      else match openEnvelopeBytes (RekeyedRecord.envelope record) nodeKey aad with
      | Err _ => NotBound u_current
      | Ok current =>
          if negb (record_fits s (ServedOrigin.envelope origin)) ||
             negb (slen (ServedOrigin.keyEnvelope origin) =? KEY_ENVELOPE_BYTES)
          then NotBound u_origin
          else match openOriginKey (ServedOrigin.keyEnvelope origin) nodeKey
                 (origin_context record (RekeyedRecord.keyEpoch record)) with
          | Err _ => NotBound u_origin
          | Ok key =>
              match openWithOriginKey (ServedOrigin.envelope origin) key aad with
              | Err _ => NotBound u_origin
              | Ok written => if written === current then OpenedKey key else NotBound u_differ
              end
          end
      end
  end.

(** [rekeyedChecks]'s parts, each over the opened origin. *)
Definition checks_bound (opened : OpenedOrigin) (attested : bool) : option bool :=
  match opened with
  | OpenedKey _ => Some true
  | NotBound u_differ => Some false
  | NotBound u_origin => if attested then Some false else None
  | NotBound u_current => None
  end.
Definition checks_forms (record : RekeyedRecord.t) : result StatementForms.t :=
  let envelope := ServedOrigin.envelope (RekeyedRecord.origin record) in
  match RekeyedRecord.statement record with
  | MetadataRecord m => metadataStatements m envelope
  | VersionRecord_ v => versionStatements v envelope
  end.
Definition checks_named (record : RekeyedRecord.t) (signerId : string) : result RecordOrigin.t :=
  let origin := RekeyedRecord.origin record in
  match ServedOrigin.signature origin with
  | None => Err "This record’s origin carries no signature."
  | Some signature => Ok {|
      RecordOrigin.envelope := ServedOrigin.envelope origin;
      RecordOrigin.signerId := signerId;
      RecordOrigin.signature := signature;
      RecordOrigin.keyEnvelope := ServedOrigin.keyEnvelope origin |}
  end.
Definition checks_rekeyed (record : RekeyedRecord.t) (signerId : string) : result bytes :=
  let* origin := checks_named record signerId in
  match RekeyedRecord.statement record with
  | MetadataRecord m => metadataRekeyedStatement m (RekeyedRecord.keyEpoch record) (RekeyedRecord.envelope record) origin
  | VersionRecord_ v => versionRekeyedStatement v (RekeyedRecord.keyEpoch record) (RekeyedRecord.envelope record) origin
  end.
Definition checks_origin (record : RekeyedRecord.t) (trusted : option TrustedSigner.t) : Integrity :=
  integrityOf (throwing (checks_forms record)) (ServedOrigin.signature (RekeyedRecord.origin record))
    match ServedOrigin.signerId (RekeyedRecord.origin record) with None => None | Some _ => trusted end.
Definition checks_rekeyer (record : RekeyedRecord.t) (trusted : option TrustedSigner.t) : Integrity :=
  match ServedOrigin.signerId (RekeyedRecord.origin record) with
  | None => rekeyerIntegrityOf (Err OtherError) (RekeyedRecord.rekeySignature record) trusted true
  | Some signerId =>
      rekeyerIntegrityOf (throwing (checks_rekeyed record signerId)) (RekeyedRecord.rekeySignature record) trusted false
  end.

Definition rekeyedIntegrityOf (record : RekeyedRecord.t) (nodeKey : option bytes)
    (trust : option RekeyedTrust.t) : RekeyedVerdict.t :=
  match nodeKey, trust with
  | Some nodeKey, Some trust =>
      let opened := openOrigin nodeKey record in
      let rekeyer := checks_rekeyer record (RekeyedTrust.rekeyer trust) in
      let bound := checks_bound opened ((rekeyer === verified) || (rekeyer === seen)) in
      {| RekeyedVerdict.origin :=
           match bound with
           | Some true => checks_origin record (RekeyedTrust.origin trust)
           | Some false => bad_signature
           | None => unchecked
           end;
         RekeyedVerdict.rekeyer := rekeyer;
         RekeyedVerdict.bound := bound |}
  | _, _ => {| RekeyedVerdict.origin := unchecked; RekeyedVerdict.rekeyer := unchecked; RekeyedVerdict.bound := None |}
  end.

Definition carryOrigin (random : bytes) (record : RekeyedRecord.t) (oldKey newKey : bytes) (targetEpoch : Z)
    : result (option bytes) :=
  refuse "Invalid node key." unless slen newKey =? 32 ;;
  let next := origin_context record targetEpoch in
  let* _ := originKeyContext next in
  match openOrigin oldKey record with
  | NotBound u_current =>
      Err "This item does not open under the key this rotation holds. Load the folder again."
  | NotBound _ => Ok None
  | OpenedKey key => let* envelope := wrapOriginKey random key newKey next in Ok (Some envelope)
  end.
End rekeyed.

(** ** Lemmas: what each statement is made of *)

Lemma text_ok v w s : text v w = Ok s → s = toLowerCase v.
Proof. unfold text. intros H. by res_inv. Qed.
Lemma count_ok v w z : count v w = Ok z → z = v ∧ 1 ≤ v ≤ MAX_SAFE_INTEGER.
Proof.
  unfold count. intros H. res_inv. bool_simpl.
  match goal with Hb : is_safe_integer _ = true |- _ => apply is_safe_integer_true in Hb end.
  split; [done|lia].
Qed.
Lemma suite_ok v z : suite v = Ok z → z = v ∧ 1 ≤ v.
Proof.
  unfold suite. intros H. apply bind_ok in H as (x & [-> K]%count_ok & G). res_inv. split; [done|lia].
Qed.
Lemma key_ok v n s : key v n = Ok s → s = v.
Proof. unfold key. intros H. by res_inv. Qed.

(** Every statement of signatures.ts. *)
Inductive any_statement : Type :=
  | SMetadata (form : SignatureForm) (ctx : MetadataStatement.t) (envelope : bytes)
  | SVersion (form : SignatureForm) (ctx : VersionStatement.t) (envelope : bytes)
  | SMetadataRekeyed (ctx : MetadataStatement.t) (keyEpoch : Z) (envelope : bytes) (origin : RecordOrigin.t)
  | SVersionRekeyed (ctx : VersionStatement.t) (keyEpoch : Z) (envelope : bytes) (origin : RecordOrigin.t)
  | SShare (ctx : ShareStatement.t) (sealed : bytes)
  | SSuccession (link : SuccessionStatement.t)
  | SConsent (link : SuccessionStatement.t) (role : ConsentRole)
  | SKeys (keys : KeysStatement.t).

Section binding.
Context `{C : Crypto}.

Definition statement_of (x : any_statement) : result bytes :=
  match x with
  | SMetadata form ctx envelope => metadataStatementAs form ctx envelope
  | SVersion form ctx envelope => versionStatementAs form ctx envelope
  | SMetadataRekeyed ctx keyEpoch envelope origin => metadataRekeyedStatement ctx keyEpoch envelope origin
  | SVersionRekeyed ctx keyEpoch envelope origin => versionRekeyedStatement ctx keyEpoch envelope origin
  | SShare ctx sealed => shareStatement ctx sealed
  | SSuccession link => successionStatement link
  | SConsent link role => successionConsentStatement link role
  | SKeys keys => keysStatement keys
  end.

Definition metadata_values (ctx : MetadataStatement.t) : list jsval :=
  [JStr (toLowerCase (MetadataStatement.workspaceId ctx)); JStr (toLowerCase (MetadataStatement.nodeId ctx));
   JStr (kind_name (MetadataStatement.kind ctx)); JInt (MetadataStatement.metadataVersion ctx)].
Definition version_values (ctx : VersionStatement.t) : list jsval :=
  [JStr (toLowerCase (VersionStatement.workspaceId ctx)); JStr (toLowerCase (VersionStatement.nodeId ctx));
   JStr (toLowerCase (VersionStatement.versionId ctx)); JStr (toLowerCase (VersionStatement.objectId ctx));
   JInt (VersionStatement.contentSuite ctx)].
Definition tail_values (keyEpoch : Z) (envelope : bytes) (o : RecordOrigin.t) : list jsval :=
  [JInt keyEpoch; JStr (digest envelope); JStr (digest (RecordOrigin.envelope o));
   JStr (toLowerCase (RecordOrigin.signerId o)); JStr (digest (RecordOrigin.signature o));
   JStr (digest (RecordOrigin.keyEnvelope o))].
Definition succession_values (l : SuccessionStatement.t) (kem : bytes) : list jsval :=
  [JStr (toLowerCase (SuccessionStatement.userId l)); JInt (SuccessionStatement.oldKeyVersion l);
   JInt (SuccessionStatement.newKeyVersion l); JStr (SuccessionStatement.oldEncryptionPublicKey l);
   JStr (SuccessionStatement.oldSigningPublicKey l); JStr (SuccessionStatement.oldMlDsaPublicKey l);
   JStr (SuccessionStatement.newEncryptionPublicKey l); JStr (SuccessionStatement.newSigningPublicKey l);
   JStr (SuccessionStatement.newMlDsaPublicKey l); JStr (digest kem)].

(** The values of a statement, [kem] standing for the decoded KEM key of the
    statements that digest one. *)
Definition values_of (x : any_statement) (kem : bytes) : list jsval :=
  match x with
  | SMetadata ordinary ctx e => [JStr METADATA_DOMAIN; JInt 1] ++ metadata_values ctx ++ [JStr (digest e)]
  | SMetadata saved ctx e =>
      [JStr METADATA_SAVED_DOMAIN; JInt 1] ++ metadata_values ctx ++ [JStr (digest e); JStr SAVED_FROM_LINK]
  | SMetadata resealed_form ctx e => [JStr METADATA_RESEALED_DOMAIN; JInt 1] ++ metadata_values ctx ++ [JStr (digest e)]
  | SVersion ordinary ctx e => [JStr VERSION_DOMAIN; JInt 1] ++ version_values ctx ++ [JStr (digest e)]
  | SVersion saved ctx e =>
      [JStr VERSION_SAVED_DOMAIN; JInt 1] ++ version_values ctx ++ [JStr (digest e); JStr SAVED_FROM_LINK]
  | SVersion resealed_form ctx e => [JStr VERSION_RESEALED_DOMAIN; JInt 1] ++ version_values ctx ++ [JStr (digest e)]
  | SMetadataRekeyed ctx k e o => [JStr METADATA_REKEYED_DOMAIN; JInt 1] ++ metadata_values ctx ++ tail_values k e o
  | SVersionRekeyed ctx k e o => [JStr VERSION_REKEYED_DOMAIN; JInt 1] ++ version_values ctx ++ tail_values k e o
  | SShare ctx e => [JStr "hushos/drive/sig/share"; JInt 4; JStr (toLowerCase (ShareStatement.workspaceId ctx));
      JStr (toLowerCase (ShareStatement.nodeId ctx)); JInt (ShareStatement.keyEpoch ctx);
      JStr (toLowerCase (ShareStatement.granteeUserId ctx)); JStr (toLowerCase (ShareStatement.granterUserId ctx));
      JStr (digest e)]
  | SSuccession l => [JStr "hushos/identity/succession"; JInt 2] ++ succession_values l kem
  | SConsent l role => [JStr "hushos/identity/succession-consent"; JInt 1;
      JStr match role with role_old => "old" | role_new => "new" end] ++ succession_values l kem
  | SKeys k => [JStr "hushos/identity/keys"; JInt 1; JStr (toLowerCase (KeysStatement.userId k));
      JInt (KeysStatement.keyVersion k); JStr (KeysStatement.encryptionPublicKey k);
      JStr (KeysStatement.signingPublicKey k); JStr (KeysStatement.mlDsaPublicKey k); JStr (digest kem)]
  end.
Definition kem_of (x : any_statement) : option string :=
  match x with
  | SSuccession l | SConsent l _ => Some (SuccessionStatement.newKemPublicKey l)
  | SKeys k => Some (KeysStatement.kemPublicKey k)
  | _ => None
  end.

Definition kem_decodes (x : any_statement) (kem : bytes) : Prop :=
  match kem_of x with Some s => decode s (Some 1184) = Ok kem | None => True end.

Lemma metadata_fields_ok ctx l : metadata_fields ctx = Ok l → l = metadata_values ctx ∧ Forall flat l.
Proof.
  unfold metadata_fields. intros H. res_inv.
  repeat match goal with
  | H : text _ _ = Ok _ |- _ => apply text_ok in H as ->
  | H : count _ _ = Ok _ |- _ => let K := fresh "K" in apply count_ok in H as [-> K]
  end. split; [done|]. repeat constructor. simpl. lia.
Qed.
Lemma version_fields_ok ctx l : version_fields ctx = Ok l → l = version_values ctx ∧ Forall flat l.
Proof.
  unfold version_fields. intros H. res_inv.
  repeat match goal with
  | H : text _ _ = Ok _ |- _ => apply text_ok in H as ->
  | H : suite _ = Ok _ |- _ => let K := fresh "K" in apply suite_ok in H as [-> K]
  end. split; [done|]. repeat constructor. simpl. lia.
Qed.
Lemma rekeyedTail_ok k e o l : rekeyedTail k e o = Ok l → l = tail_values k e o ∧ Forall flat l.
Proof.
  unfold rekeyedTail. intros H. res_inv.
  repeat match goal with
  | H : text _ _ = Ok _ |- _ => apply text_ok in H as ->
  | H : count _ _ = Ok _ |- _ => let K := fresh "K" in apply count_ok in H as [-> K]
  end. split; [done|]. repeat constructor. simpl. lia.
Qed.
Lemma successionFields_ok domain head l m : Forall flat head → successionFields domain head l = Ok m →
  ∃ kem, decode (SuccessionStatement.newKemPublicKey l) (Some 1184) = Ok kem ∧
    m = statement ([JStr domain] ++ head ++ succession_values l kem) ∧
    Forall flat ([JStr domain] ++ head ++ succession_values l kem).
Proof.
  unfold successionFields. intros Hh H. res_inv. bool_simpl.
  repeat match goal with
  | H : text _ _ = Ok _ |- _ => apply text_ok in H as ->
  | H : count _ _ = Ok _ |- _ => let K := fresh "K" in apply count_ok in H as [-> K]
  | H : key _ _ = Ok _ |- _ => apply key_ok in H as ->
  end. eexists. split; [done|]. split; [done|].
  constructor; [done|]. apply Forall_app. split; [done|]. repeat constructor; simpl; lia.
Qed.

(** A statement is the text of its values, all of them flat. *)
Lemma statement_of_values x m : statement_of x = Ok m →
  ∃ kem, kem_decodes x kem ∧ m = statement (values_of x kem) ∧ Forall flat (values_of x kem).
Proof.
  destruct x as [[]|[]| | | | | |]; cbn [statement_of values_of];
    unfold metadataStatementAs, versionStatementAs, metadataParts, versionParts, metadataRekeyedStatement,
      versionRekeyedStatement, shareStatement, successionStatement, successionConsentStatement, keysStatement;
    intros H; try apply successionFields_ok in H as (kem & Hk & -> & Hf); try (exists kem; by auto);
    try solve [repeat constructor]; res_inv;
    repeat match goal with
    | H : metadata_fields _ = Ok _ |- _ => apply metadata_fields_ok in H as [-> ?Hflat]
    | H : version_fields _ = Ok _ |- _ => apply version_fields_ok in H as [-> ?Hflat]
    | H : rekeyedTail _ _ _ = Ok _ |- _ => apply rekeyedTail_ok in H as [-> ?Hflat]
    | H : text _ _ = Ok _ |- _ => apply text_ok in H as ->
    | H : count _ _ = Ok _ |- _ => let K := fresh "K" in apply count_ok in H as [-> K]
    | H : key _ _ = Ok _ |- _ => apply key_ok in H as ->
    end;
    try (exists EmptyString; split; [exact I|]; split; [reflexivity|];
      repeat first [apply Forall_app; split | done | constructor; [done|] | constructor; simpl; lia | constructor]).
  - simpl. lia.
  - by repeat constructor.
  - by repeat constructor.
  - eexists. split; [unfold kem_decodes; cbn; eassumption|]. split; [reflexivity|]. repeat constructor; simpl; lia.
Qed.

(** The same record, share, link or keys: ids up to their case, sealed bytes up
    to a collision, public keys exactly. *)
Definition same_bytes (a b : bytes) : Prop := a = b ∨ collision.
Definition same_text (a b : string) : Prop := toLowerCase a = toLowerCase b.
Definition same_metadata (a b : MetadataStatement.t) : Prop :=
  same_text (MetadataStatement.workspaceId a) (MetadataStatement.workspaceId b) ∧
  same_text (MetadataStatement.nodeId a) (MetadataStatement.nodeId b) ∧
  MetadataStatement.kind a = MetadataStatement.kind b ∧
  MetadataStatement.metadataVersion a = MetadataStatement.metadataVersion b.
Definition same_version (a b : VersionStatement.t) : Prop :=
  same_text (VersionStatement.workspaceId a) (VersionStatement.workspaceId b) ∧
  same_text (VersionStatement.nodeId a) (VersionStatement.nodeId b) ∧
  same_text (VersionStatement.versionId a) (VersionStatement.versionId b) ∧
  same_text (VersionStatement.objectId a) (VersionStatement.objectId b) ∧
  VersionStatement.contentSuite a = VersionStatement.contentSuite b.
Definition same_origin (a b : RecordOrigin.t) : Prop :=
  same_bytes (RecordOrigin.envelope a) (RecordOrigin.envelope b) ∧
  same_text (RecordOrigin.signerId a) (RecordOrigin.signerId b) ∧
  same_bytes (RecordOrigin.signature a) (RecordOrigin.signature b) ∧
  same_bytes (RecordOrigin.keyEnvelope a) (RecordOrigin.keyEnvelope b).
Definition same_succession (a b : SuccessionStatement.t) : Prop :=
  same_text (SuccessionStatement.userId a) (SuccessionStatement.userId b) ∧
  SuccessionStatement.oldKeyVersion a = SuccessionStatement.oldKeyVersion b ∧
  SuccessionStatement.newKeyVersion a = SuccessionStatement.newKeyVersion b ∧
  SuccessionStatement.oldEncryptionPublicKey a = SuccessionStatement.oldEncryptionPublicKey b ∧
  SuccessionStatement.oldSigningPublicKey a = SuccessionStatement.oldSigningPublicKey b ∧
  SuccessionStatement.oldMlDsaPublicKey a = SuccessionStatement.oldMlDsaPublicKey b ∧
  SuccessionStatement.newEncryptionPublicKey a = SuccessionStatement.newEncryptionPublicKey b ∧
  SuccessionStatement.newSigningPublicKey a = SuccessionStatement.newSigningPublicKey b ∧
  SuccessionStatement.newMlDsaPublicKey a = SuccessionStatement.newMlDsaPublicKey b ∧
  same_bytes (SuccessionStatement.newKemPublicKey a) (SuccessionStatement.newKemPublicKey b).

Definition same_statement (x y : any_statement) : Prop :=
  match x, y with
  | SMetadata f a e, SMetadata f' b e' => f = f' ∧ same_metadata a b ∧ same_bytes e e'
  | SVersion f a e, SVersion f' b e' => f = f' ∧ same_version a b ∧ same_bytes e e'
  | SMetadataRekeyed a k e o, SMetadataRekeyed b k' e' o' =>
      same_metadata a b ∧ k = k' ∧ same_bytes e e' ∧ same_origin o o'
  | SVersionRekeyed a k e o, SVersionRekeyed b k' e' o' =>
      same_version a b ∧ k = k' ∧ same_bytes e e' ∧ same_origin o o'
  | SShare a e, SShare b e' =>
      same_text (ShareStatement.workspaceId a) (ShareStatement.workspaceId b) ∧
      same_text (ShareStatement.nodeId a) (ShareStatement.nodeId b) ∧
      ShareStatement.keyEpoch a = ShareStatement.keyEpoch b ∧
      same_text (ShareStatement.granteeUserId a) (ShareStatement.granteeUserId b) ∧
      same_text (ShareStatement.granterUserId a) (ShareStatement.granterUserId b) ∧ same_bytes e e'
  | SSuccession a, SSuccession b => same_succession a b
  | SConsent a r, SConsent b r' => r = r' ∧ same_succession a b
  | SKeys a, SKeys b =>
      same_text (KeysStatement.userId a) (KeysStatement.userId b) ∧
      KeysStatement.keyVersion a = KeysStatement.keyVersion b ∧
      KeysStatement.encryptionPublicKey a = KeysStatement.encryptionPublicKey b ∧
      KeysStatement.signingPublicKey a = KeysStatement.signingPublicKey b ∧
      KeysStatement.mlDsaPublicKey a = KeysStatement.mlDsaPublicKey b ∧
      same_bytes (KeysStatement.kemPublicKey a) (KeysStatement.kemPublicKey b)
  | _, _ => False
  end.

Lemma kind_name_inj a b : kind_name a = kind_name b → a = b.
Proof. by destruct a, b. Qed.

Lemma kem_same s s' n k k' : decode s n = Ok k → decode s' n = Ok k' → digest k = digest k' → same_bytes s s'.
Proof.
  intros (<- & _)%decode_ok (<- & _)%decode_ok [->|]%digest_eq; [by left|by right].
Qed.

Lemma succession_values_same a b k k' :
  decode (SuccessionStatement.newKemPublicKey a) (Some 1184) = Ok k →
  decode (SuccessionStatement.newKemPublicKey b) (Some 1184) = Ok k' →
  succession_values a k = succession_values b k' → same_succession a b.
Proof.
  intros Ha Hb E. injection E as. unfold same_succession. split_and!; try done. by eapply kem_same.
Qed.

Lemma values_same x y k k' : kem_decodes x k → kem_decodes y k' → values_of x k = values_of y k' → same_statement x y.
Proof.
  destruct x as [[] ax|[] ax| | | | | |], y as [[] ay|[] ay| | | | | |]; intros Hk Hk' E; try discriminate E;
    cbn [same_statement]; try (cbn [values_of app] in E; injection E as E; discriminate);
    unfold kem_decodes in *; cbn [kem_of] in *;
    unfold same_metadata, same_version, same_origin, same_text, same_bytes;
    cbn [values_of app metadata_values version_values tail_values] in E.
  all: try (injection E; intros; split_and!; auto using digest_eq, kind_name_inj; fail).
  - apply (f_equal (drop 2)) in E. by apply (succession_values_same _ _ k k').
  - split; [by destruct role, role0|]. apply (f_equal (drop 3)) in E. by apply (succession_values_same _ _ k k').
  - injection E; intros. split_and!; auto. by eapply kem_same.
Qed.
End binding.

(** ** Properties *)

(** C34. A signature over one statement is no signature over another: two
    statements of signatures.ts with the same bytes are of one kind and form
    and over the same record, origin, share, link or keys - the ids up to
    their case, what is named by digest up to a SHA-256 collision. *)
Theorem statements_bind `{C : Crypto} x y m :
  statement_of x = Ok m → statement_of y = Ok m → same_statement x y.
Proof.
  intros (k & Hk & -> & Fk)%statement_of_values (k' & Hk' & E & Fk')%statement_of_values.
  eapply values_same; [done..|]. by apply stringify_flat_inj.
Qed.

Module RecordWitness.
Definition ws := "0a0a0a0a-0000-4000-8000-000000000001".
Definition node := "0b0b0b0b-0000-4000-8000-000000000002".
Definition signer := "0c0c0c0c-0000-4000-8000-000000000003".
Definition metadata := MetadataStatement.Build_t ws node Folder 7.
Definition pk := fill 32 "p"%char.
Definition old_pk := fill 32 "o"%char.
Definition trusted := TrustedSigner.Build_t pk [old_pk] false.
Definition forms (e : bytes) : result StatementForms.t := metadataStatements (C := Toy.crypto) metadata e.
Definition signature (form : StatementForms.t → bytes) (signer : bytes) (e : bytes) : bytes :=
  match forms e with Ok f => Toy.sign 64 signer (form f) "" | Err _ => "" end.
End RecordWitness.

Lemma statements_bind_witness :
  let x := SMetadata saved RecordWitness.metadata "sealed" in
  let m := match statement_of (C := Toy.crypto) x with Ok m => m | Err _ => "" end in
  0 < slen m ∧ same_statement (C := Toy.crypto) x x.
Proof.
  split; [vm_compute; reflexivity|].
  apply (statements_bind (C := Toy.crypto) _ _
    (match statement_of (C := Toy.crypto) (SMetadata saved RecordWitness.metadata "sealed") with Ok m => m | Err _ => "" end));
    vm_compute; reflexivity.
Defined.

(** What a verdict of [integrityOf] says of the signature [sg] under the trusted keys. *)
Definition verdict_means `{C : Crypto} (forms : StatementForms.t) (sg : bytes) (trusted : TrustedSigner.t)
    (verdict : Integrity) : Prop :=
  let holds form key := verifyStatement (form forms) sg key = true in
  let current := TrustedSigner.current trusted in
  let none key := ¬ holds StatementForms.ordinary key ∧ ¬ holds StatementForms.saved key ∧
    ¬ holds StatementForms.resealed key in
  let some key := holds StatementForms.ordinary key ∨ holds StatementForms.saved key ∨
    holds StatementForms.resealed key in
  match verdict with
  | verified => holds StatementForms.ordinary current ∧ TrustedSigner.seen trusted = false
  | seen => holds StatementForms.ordinary current ∧ TrustedSigner.seen trusted = true
  | saved_from_link => holds StatementForms.saved current ∧ ¬ holds StatementForms.ordinary current
  | resealed => holds StatementForms.resealed current ∧ ¬ holds StatementForms.ordinary current ∧
      ¬ holds StatementForms.saved current
  | retired_key => none current ∧ ∃ key, key ∈ TrustedSigner.retired trusted ∧ some key
  | bad_signature => none current ∧ ∀ key, key ∈ TrustedSigner.retired trusted → none key
  | unknown_signer | unsigned | unchecked => False
  end.

(** C35. The verdict is exactly what the signature is: with statements, a
    signature and trusted keys at hand, [integrityOf] answers the one verdict
    whose meaning holds, clean only for the ordinary statement under the
    signer's current key. *)
Theorem integrityOf_exact `{C : Crypto} forms sg trusted verdict :
  integrityOf (Ok forms) (Some sg) (Some trusted) = verdict ↔ verdict_means forms sg trusted verdict.
Proof.
  set (v := integrityOf _ _ _). assert (verdict_means forms sg trusted v) as Hv.
  { subst v. unfold integrityOf. destruct (verifyStatement (StatementForms.ordinary forms) _ _) eqn:E1.
    { destruct (TrustedSigner.seen trusted) eqn:?; by split. }
    destruct (verifyStatement (StatementForms.saved forms) _ _) eqn:E2; [split; congruence|].
    destruct (verifyStatement (StatementForms.resealed forms) _ _) eqn:E3; [split_and!; congruence|].
    destruct (existsb _ _) eqn:E4; cbn [verdict_means].
    - apply existsb_exists in E4 as (key & Hin & Hk). split; [split_and!; congruence|].
      exists key. split; [by apply list_elem_of_In|]. cbn [existsb] in Hk.
      rewrite !orb_true_iff in Hk. tauto || (destruct Hk as [?|[?|[?|?]]]; auto; done).
    - split; [split_and!; congruence|]. intros key Hin. apply not_true_iff_false in E4.
      split_and!; intros Hk; apply E4; apply existsb_exists; exists key;
        (split; [by apply list_elem_of_In|]); cbn [existsb]; rewrite Hk; by rewrite ?orb_true_r. }
  split; [by intros <-|]. intros Hw. revert Hv Hw. generalize v as w. clear v. intros w.
  unfold verdict_means. cbv zeta. generalize (TrustedSigner.current trusted) as current. intros current.
  destruct (verifyStatement (StatementForms.ordinary forms) sg current),
    (verifyStatement (StatementForms.saved forms) sg current),
    (verifyStatement (StatementForms.resealed forms) sg current), (TrustedSigner.seen trusted);
    destruct w, verdict; try done; naive_solver.
Qed.

(** A re-keyed record's origin gets a verdict of its own only when it is
    bound: unless it reads [unchecked] or [bad_signature], the node key opened
    the current envelope and the wrapped key the origin, to the same bytes. A
    bad origin that is not bound is one whose bytes differ from the current
    envelope's or one a trusted re-keyer's own signature covers: nothing a
    server does alone names anyone. *)
Theorem rekeyed_verdict_bound `{C : Crypto} record nodeKey trust v
    (Hv : rekeyedIntegrityOf record nodeKey trust = v) :
  match RekeyedVerdict.bound v with
  | Some true => ∃ nk aad p wrapped, nodeKey = Some nk ∧ record_aad (RekeyedRecord.statement record) = Some aad ∧
      openEnvelopeBytes (RekeyedRecord.envelope record) nk aad = Ok p ∧
      openOriginKey (ServedOrigin.keyEnvelope (RekeyedRecord.origin record)) nk
        (origin_context record (RekeyedRecord.keyEpoch record)) = Ok wrapped ∧
      openWithOriginKey (ServedOrigin.envelope (RekeyedRecord.origin record)) wrapped aad = Ok p
  | Some false => RekeyedVerdict.origin v = bad_signature ∧
      (RekeyedVerdict.rekeyer v = verified ∨ RekeyedVerdict.rekeyer v = seen ∨
       ∃ nk aad p q wrapped, nodeKey = Some nk ∧ p ≠ q ∧
         openEnvelopeBytes (RekeyedRecord.envelope record) nk aad = Ok p ∧
         openWithOriginKey (ServedOrigin.envelope (RekeyedRecord.origin record)) wrapped aad = Ok q)
  | None => RekeyedVerdict.origin v = unchecked
  end.
Proof.
  subst v. unfold rekeyedIntegrityOf. destruct nodeKey as [nk|]; [|done]. destruct trust as [trust|]; [|done].
  cbv zeta. cbn [RekeyedVerdict.bound RekeyedVerdict.origin RekeyedVerdict.rekeyer].
  set (rk := checks_rekeyer _ _). unfold openOrigin.
  destruct (record_aad _) as [aad|] eqn:Ea; [|done]. destruct (_ || _); [done|].
  destruct (openEnvelopeBytes _ _ _) as [p|] eqn:Ep; [|done].
  assert (∀ b, ((rk === verified) || (rk === seen)) = b →
    match (if b then Some false else None : option bool) with
    | Some true => False
    | Some false => rk = verified ∨ rk = seen
    | None => True
    end) as Hatt by (intros [] Hb; [|done]; apply orb_true_iff in Hb as [Hb|Hb]; bool_simpl; auto).
  specialize (Hatt _ eq_refl).
  destruct (negb _ || negb _); cbn [checks_bound]; [destruct (_ || _); [naive_solver|done]|].
  destruct (openOriginKey _ _ _) as [k|] eqn:Ek; cbn [checks_bound]; [|destruct (_ || _); [naive_solver|done]].
  destruct (openWithOriginKey _ _ _) as [q|] eqn:Eq; cbn [checks_bound]; [|destruct (_ || _); [naive_solver|done]].
  destruct (q === p) eqn:E; bool_simpl; cbn [checks_bound].
  - subst q. by exists nk, aad, p, k.
  - split; [done|]. right; right. by exists nk, aad, p, q, k.
Qed.

(** ** A rotation of a re-keyed record *)

(** The record as the rotation stores it: the current envelope sealed raw under
    the new key, the same origin with its key wrapped at the new epoch. *)
Definition carried (record : RekeyedRecord.t) (envelope keyEnvelope : bytes) (targetEpoch : Z) : RekeyedRecord.t := {|
  RekeyedRecord.statement := RekeyedRecord.statement record;
  RekeyedRecord.keyEpoch := targetEpoch;
  RekeyedRecord.envelope := envelope;
  RekeyedRecord.origin := {|
    ServedOrigin.envelope := ServedOrigin.envelope (RekeyedRecord.origin record);
    ServedOrigin.signerId := ServedOrigin.signerId (RekeyedRecord.origin record);
    ServedOrigin.signature := ServedOrigin.signature (RekeyedRecord.origin record);
    ServedOrigin.keyEnvelope := keyEnvelope |};
  RekeyedRecord.rekeySignature := RekeyedRecord.rekeySignature record |}.

Section carrying.
Context `{CL : CryptoLaws}.

Lemma openOrigin_key nodeKey record k : openOrigin nodeKey record = OpenedKey k ↔
  ∃ aad p, record_aad (RekeyedRecord.statement record) = Some aad ∧ slen nodeKey = 32 ∧
    record_fits (RekeyedRecord.statement record) (RekeyedRecord.envelope record) = true ∧
    openEnvelopeBytes (RekeyedRecord.envelope record) nodeKey aad = Ok p ∧
    record_fits (RekeyedRecord.statement record) (ServedOrigin.envelope (RekeyedRecord.origin record)) = true ∧
    slen (ServedOrigin.keyEnvelope (RekeyedRecord.origin record)) = KEY_ENVELOPE_BYTES ∧
    openOriginKey (ServedOrigin.keyEnvelope (RekeyedRecord.origin record)) nodeKey
      (origin_context record (RekeyedRecord.keyEpoch record)) = Ok k ∧
    openWithOriginKey (ServedOrigin.envelope (RekeyedRecord.origin record)) k aad = Ok p.
Proof.
  unfold openOrigin. split.
  - destruct (record_aad _) as [aad|]; [|done]. destruct (negb (_ =? 32) || _) eqn:E1; [done|].
    destruct (openEnvelopeBytes _ _ _) as [p|] eqn:Ep; [|done].
    destruct (_ || negb (_ =? KEY_ENVELOPE_BYTES)) eqn:E2; [done|].
    destruct (openOriginKey _ _ _) as [k'|] eqn:Ek; [|done].
    destruct (openWithOriginKey _ _ _) as [q|] eqn:Eq; [|done].
    destruct (q === p) eqn:E; [|done]. intros [= ->]. bool_simpl. subst q. exists aad, p. split_and!; done.
  - intros (aad & p & -> & -> & -> & -> & -> & -> & -> & ->). cbn. by rewrite bool_decide_eq_true_2.
Qed.

Lemma wrapOriginKey_ok random k nodeKey ctx e : slen random = ENVELOPE_NONCE_BYTES →
  wrapOriginKey random k nodeKey ctx = Ok e →
  slen e = KEY_ENVELOPE_BYTES ∧ slen nodeKey = 32 ∧ openOriginKey e nodeKey ctx = Ok k.
Proof.
  intros Hr. unfold wrapOriginKey, openOriginKey, key32. intros H. res_inv. bool_simpl.
  match goal with Hs : seal _ ?kk ?nk _ = Ok _ |- _ =>
    apply seal_ok in Hs as (body & -> & Ho & Hl); assert (slen kk = KEY_BYTES) as Hk by done;
    assert (slen nk = KEY_BYTES) as Hn by done end.
  rewrite slen_app, Hl, Hr, Hk. split; [done|]. split; [done|].
  rewrite split_join; [|done|rewrite Hl, Hk; done|intros m [= <-]; by rewrite Hl, Hk].
  cbn [mbind res_bind].
  match goal with Hc : originKeyContext _ = Ok _ |- _ => rewrite Hc end. cbn [mbind res_bind].
  unfold decryptKey. rewrite Ho. cbn. by rewrite Hk.
Qed.

Lemma rekeyEnvelope_length random env old new aad e : slen random = ENVELOPE_NONCE_BYTES →
  rekeyEnvelope random env old new aad = Ok e → slen e = slen env ∧ slen new = 32.
Proof.
  intros Hr. unfold rekeyEnvelope, openEnvelopeBytes, key32. intros H. res_inv. bool_simpl.
  match goal with p : bytes * bytes |- _ => destruct p as [nonce body] end. res_inv. bool_simpl.
  match goal with Hs : split _ _ = Ok _ |- _ => apply split_ok in Hs as (-> & Hn & _) end.
  match goal with Hd : decryptKey _ _ _ _ = Ok _ |- _ =>
    unfold decryptKey, from_option_err in Hd; destruct (xchacha_open _ _ _ _) eqn:Eo; [|done];
    injection Hd as ->; apply xchacha_open_length in Eo end.
  match goal with Hs : seal _ _ _ _ = Ok _ |- _ => apply seal_ok in Hs as (body' & -> & _ & Hl) end.
  split; [|done]. rewrite !slen_app. unfold CHUNK_TAG_BYTES in *. lia.
Qed.

Lemma record_fits_length s a b : slen a = slen b → record_fits s a = record_fits s b.
Proof. intros E. unfold record_fits. rewrite E. done. Qed.

(** What a rotation carries opens again. *)
Lemma carry_opens random random' record oldKey newKey epoch aad envelope keyEnvelope :
  slen random = ENVELOPE_NONCE_BYTES → slen random' = ENVELOPE_NONCE_BYTES →
  record_aad (RekeyedRecord.statement record) = Some aad →
  rekeyEnvelope random' (RekeyedRecord.envelope record) oldKey newKey aad = Ok envelope →
  carryOrigin random record oldKey newKey epoch = Ok (Some keyEnvelope) →
  ∃ k, openOrigin oldKey record = OpenedKey k ∧ openOrigin newKey (carried record envelope keyEnvelope epoch) = OpenedKey k.
Proof.
  intros Hr Hr' Haad Henv Hcarry. unfold carryOrigin in Hcarry. res_inv. bool_simpl.
  destruct (openOrigin oldKey record) as [k|[]] eqn:Eo; [|done..]. exists k. split; [done|].
  apply bind_ok in Hcarry as (w & Hw & Hc). injection Hc as ->.
  apply openOrigin_key in Eo as (aad' & p & Ha & Hold & Hfit & Hp & Hofit & _ & _ & Ho).
  assert (aad' = aad) as -> by congruence.
  pose proof (rekeyEnvelope_length _ _ _ _ _ _ Hr' Henv) as [Hlen Hnew].
  apply wrapOriginKey_ok in Hw as (Hwl & _ & Hwo); [|done].
  apply openOrigin_key. cbn. exists aad, p. split_and!; try done.
  - by rewrite (record_fits_length _ _ (RekeyedRecord.envelope record)).
  - unfold rekeyEnvelope, key32 in Henv. rewrite Hp in Henv. res_inv. cbn in Henv.
    pose proof (openEnvelopeBytes_nonempty _ _ _ _ Hp). by eapply openEnvelopeBytes_seal.
Qed.
End carrying.

(** A rotation keeps a bound record bound: what [carryOrigin] wraps for the
    new epoch, stored with the current envelope sealed raw under the new key,
    opens again, under the new key, to the same origin key. *)
Theorem carryOrigin_stays_bound `{CL : CryptoLaws} random random' record oldKey newKey epoch aad envelope keyEnvelope
    (Hr : slen random = ENVELOPE_NONCE_BYTES) (Hr' : slen random' = ENVELOPE_NONCE_BYTES)
    (Haad : record_aad (RekeyedRecord.statement record) = Some aad)
    (Henv : rekeyEnvelope random' (RekeyedRecord.envelope record) oldKey newKey aad = Ok envelope)
    (Hcarry : carryOrigin random record oldKey newKey epoch = Ok (Some keyEnvelope)) :
  ∃ k, openOrigin oldKey record = OpenedKey k ∧ openOrigin newKey (carried record envelope keyEnvelope epoch) = OpenedKey k.
Proof. exact (carry_opens random random' record oldKey newKey epoch aad envelope keyEnvelope Hr Hr' Haad Henv Hcarry). Qed.

Module CarryWitness.
Definition node_key := fill 32 "k"%char.
Definition new_key := fill 32 "q"%char.
Definition writer_key := fill 32 "w"%char.
Definition nonce := fill 24 "r"%char.
Definition stmt := MetadataRecord RecordWitness.metadata.
Definition aad := match record_aad stmt with Some a => a | None => "" end.
Definition ok (m : result bytes) : bytes := match m with Ok b => b | Err _ => "" end.
Definition origin := ok (seal (C := Toy.crypto) nonce "name" writer_key aad).
Definition current := ok (rekeyEnvelope (C := Toy.crypto) nonce origin writer_key node_key aad).
Definition wrap (k : bytes) (epoch : Z) := ok (
  let* opening := originOpeningKey origin writer_key in
  wrapOriginKey (C := Toy.crypto) nonce opening k (OriginKeyContext.Build_t RecordWitness.ws RecordWitness.node epoch
    (OriginMetadata 7) origin)).
Definition record := RekeyedRecord.Build_t stmt 2 current
  (ServedOrigin.Build_t origin (Some RecordWitness.signer) (Some "s") (wrap node_key 2)) None.
Definition envelope := ok (rekeyEnvelope (C := Toy.crypto) nonce current node_key new_key aad).
Definition carried_key := match carryOrigin (C := Toy.crypto) nonce record node_key new_key 3 with
  | Ok (Some e) => e | _ => "" end.
Definition trust := RekeyedTrust.Build_t (Some RecordWitness.trusted) None.
End CarryWitness.

Lemma rekeyed_verdict_bound_witness :
  let v := rekeyedIntegrityOf (C := Toy.crypto) CarryWitness.record (Some CarryWitness.node_key) (Some CarryWitness.trust) in
  v = RekeyedVerdict.Build_t bad_signature unsigned (Some true) ∧
  ∃ nk aad p wrapped, Some CarryWitness.node_key = Some nk ∧ record_aad CarryWitness.stmt = Some aad ∧
      openEnvelopeBytes (C := Toy.crypto) CarryWitness.current nk aad = Ok p ∧
      openOriginKey (C := Toy.crypto) (CarryWitness.wrap CarryWitness.node_key 2) nk
        (origin_context CarryWitness.record 2) = Ok wrapped ∧
      openWithOriginKey (C := Toy.crypto) CarryWitness.origin wrapped aad = Ok p.
Proof.
  split; [vm_compute; reflexivity|].
  apply (rekeyed_verdict_bound (C := Toy.crypto) CarryWitness.record (Some CarryWitness.node_key) (Some CarryWitness.trust)
    (RekeyedVerdict.Build_t bad_signature unsigned (Some true))). vm_compute. reflexivity.
Defined.

Lemma carryOrigin_stays_bound_witness :
  slen CarryWitness.carried_key = 72 ∧
  ∃ k, openOrigin (C := Toy.crypto) CarryWitness.node_key CarryWitness.record = OpenedKey k ∧
    openOrigin (C := Toy.crypto) CarryWitness.new_key
      (carried CarryWitness.record CarryWitness.envelope CarryWitness.carried_key 3) = OpenedKey k.
Proof.
  split; [vm_compute; reflexivity|].
  apply (carryOrigin_stays_bound (CL := Toy.crypto_laws) CarryWitness.nonce CarryWitness.nonce CarryWitness.record
    CarryWitness.node_key CarryWitness.new_key 3 CarryWitness.aad); vm_compute; reflexivity.
Defined.

(** Locking again never launders a record: whatever is signed again as
    ordinary work carried the ordinary statement's valid signature under its
    signer's current key, and whatever a rotation's compatibility signature
    claims as ordinary or saved is the re-keyer's own record. *)
Theorem resigning_never_launders `{C : Crypto} forms sg trusted own fromLink f
    (Hf : copyForm (Some (integrityOf forms sg trusted)) fromLink = Ok f ∨
          compatForm (integrityOf forms sg trusted) own = f) :
  f = ordinary → ∃ fs s t, forms = Ok fs ∧ sg = Some s ∧ trusted = Some t ∧
    verifyStatement (StatementForms.ordinary fs) s (TrustedSigner.current t) = true.
Proof.
  intros ->. assert (integrityOf forms sg trusted = verified ∨ integrityOf forms sg trusted = seen) as Hv.
  { destruct Hf as [Hf|Hf]; revert Hf; generalize (integrityOf forms sg trusted); intros v.
    - unfold copyForm. destruct fromLink; [done|]. destruct v; simpl; intros [=]; auto.
    - unfold compatForm. destruct own, v; cbn; intros [=]; auto. }
  unfold integrityOf in Hv. destruct sg as [s|]; [|naive_solver]. destruct trusted as [t|]; [|naive_solver].
  destruct forms as [fs|[]]; [|naive_solver..]. exists fs, s, t. split_and!; try done.
  destruct (verifyStatement (StatementForms.ordinary fs) _ _); [done|].
  repeat (destruct (verifyStatement _ _ _); [naive_solver|]). destruct (existsb _ _); naive_solver.
Qed.

Lemma resigning_never_launders_witness :
  let sg := RecordWitness.signature StatementForms.ordinary RecordWitness.pk "sealed" in
  integrityOf (C := Toy.crypto) (throwing (RecordWitness.forms "sealed")) (Some sg) (Some RecordWitness.trusted) = verified ∧
  ∃ fs s t, throwing (RecordWitness.forms "sealed") = Ok fs ∧ Some sg = Some s ∧ Some RecordWitness.trusted = Some t ∧
    verifyStatement (C := Toy.crypto) (StatementForms.ordinary fs) s (TrustedSigner.current t) = true.
Proof.
  split; [vm_compute; reflexivity|].
  apply (resigning_never_launders (C := Toy.crypto) (throwing (RecordWitness.forms "sealed"))
    (Some (RecordWitness.signature StatementForms.ordinary RecordWitness.pk "sealed"))
    (Some RecordWitness.trusted) false false ordinary); [left; vm_compute; reflexivity|reflexivity].
Defined.
