(* ===== verification/RotationRecords.v ===== *)
(** * The record half of a rotation (packages/crypto/src/rotation-records.ts)

    One record re-sealed and kept re-keyed ([rekeyRecord]), and one family
    node with every record it has ([rekeyNode], for [ownerKind] 'group': the
    only workspaces [rekeyedFor] re-keys; the personal branch re-seals
    metadata as parsed JSON and is not modelled). The last part shows that a
    rotation changes no reader's mind about who wrote a record. *)

From S2P Require Import Prelude Base64url Bytes Canonical HChaCha Crypto Content Envelopes Signatures.

(** [sodium.crypto_sign_detached(message, secretKey)] *)
Class Signing := { crypto_sign_detached (message secretKey : bytes) : bytes }.
Class SigningLaws (SG : Signing) : Prop := { crypto_sign_length m sk : slen (crypto_sign_detached m sk) = SIGNATURE_BYTES }.

Definition SIGNING_SECRET_KEY_BYTES : Z := 64.
Definition SHARED_IN_FAMILY : string :=
  "This item has shares or links, which a family folder never has, so it was not re-keyed.".

(** ** What the server serves and stores *)

(** A re-keyed record's origin as served, base64url. *)
Module ServedRekey.
Record t := { envelope : string; signerId : option string; originSignature : string; keyEnvelope : string; signature : string }.
End ServedRekey.
Module RekeyOut.
Record t := { originKeyEnvelope : string; signature : string }.
End RekeyOut.
Module RotatedRecord.
Record t := { envelope : bytes; signature : option string; rekey : option RekeyOut.t; dropOrigin : bool }.
End RotatedRecord.
Module RotationSigner.
Record t := { userId : string; signingKey : bytes }.
End RotationSigner.
(** What a judge is asked of a record: its statements, its signer and signature. *)
Module Judged.
Record t := { statements : res thrown StatementForms.t; signer : option string; signature : option string }.
End Judged.
Abbreviation RecordJudge := (Judged.t → result (option SignatureForm)).

Module ResealInput.
Record t := {
  statement : RecordStatement; aad : bytes; envelope : bytes; signer : option string; signature : option string;
  rekey : option ServedRekey.t; keyEpoch : Z; targetEpoch : Z; old : bytes; fresh : bytes;
  by_ : result RotationSigner.t;
}.
End ResealInput.

(** A version's envelope with who signed it. *)
Module RotatedVersion.
Record t := {
  id : string; objectId : string; contentKeyEnvelope : string; contentSuite : Z; signer : option string;
  signature : option string; rekey : option ServedRekey.t;
}.
End RotatedVersion.
Module RotateNodeInput.
Record t := {
  id : string; kind : NodeKind; parentId : string; parentKeyEpoch : Z; keyEpoch : Z; metadataVersion : Z;
  metadataEnvelope : string; metadataSigner : option string; metadataSignature : option string;
  metadataRekey : option ServedRekey.t; versions : list RotatedVersion.t; shares : list string; links : list string;
}.
End RotateNodeInput.
Module VersionOut.
Record t := {
  id : string; contentKeyEnvelope : string; signature : option string; rekey : option RekeyOut.t; dropOrigin : bool;
}.
End VersionOut.
Module RekeyedNode.
Record t := {
  id : string; keyEnvelope : string; metadataEnvelope : string; metadataSignature : option string;
  metadataRekey : option RekeyOut.t; metadataDropOrigin : bool; versions : list VersionOut.t;
}.
End RekeyedNode.

(** [!s] of an optional text: missing or empty. *)
Definition missing (s : option string) : bool := match s with Some s => s === "" | None => true end.

Section rotation.
Context `{C : Crypto} `{SG : Signing}.

(** [signStatement] *)
Definition signStatement (message signingKey : bytes) : result bytes :=
  refuse "Invalid signing key." unless slen signingKey =? SIGNING_SECRET_KEY_BYTES ;;
  Ok (crypto_sign_detached message signingKey).

(** [sign]: by whoever's identity is open then. *)
Definition sign (signer : result RotationSigner.t) (statement : bytes) : result string :=
  let* signer := signer in
  let* signature := signStatement statement (RotationSigner.signingKey signer) in
  Ok (encode signature).

(** [statementsOver], [legacyOver]: the record's forms over an envelope. *)
Definition record_forms (statement : RecordStatement) (envelope : bytes) : result StatementForms.t :=
  match statement with
  | MetadataRecord m => metadataStatements m envelope
  | VersionRecord_ v => versionStatements v envelope
  end.
Definition record_form (form : SignatureForm) (statement : RecordStatement) (envelope : bytes) : result bytes :=
  match statement with
  | MetadataRecord m => metadataStatementAs form m envelope
  | VersionRecord_ v => versionStatementAs form v envelope
  end.
Definition legacyOver (input : ResealInput.t) (next : bytes) (form : SignatureForm) : result string :=
  let* statement := record_form form (ResealInput.statement input) next in sign (ResealInput.by_ input) statement.
Definition rekeyed_statement (statement : RecordStatement) (targetEpoch : Z) (next : bytes) (origin : RecordOrigin.t)
    : result bytes :=
  match statement with
  | MetadataRecord m => metadataRekeyedStatement m targetEpoch next origin
  | VersionRecord_ v => versionRekeyedStatement v targetEpoch next origin
  end.

(** The re-keyed record a served origin makes with an envelope. *)
Definition carried_record (statement : RecordStatement) (keyEpoch : Z) (envelope : bytes) (rekey : ServedRekey.t)
    : result RekeyedRecord.t :=
  let* originEnvelope := decode (ServedRekey.envelope rekey) None in
  let* originSignature := decode (ServedRekey.originSignature rekey) None in
  let* keyEnvelope := decode (ServedRekey.keyEnvelope rekey) None in
  let* signature := decode (ServedRekey.signature rekey) None in
  Ok (RekeyedRecord.Build_t statement keyEpoch envelope
    (ServedOrigin.Build_t originEnvelope (ServedRekey.signerId rekey) (Some originSignature) keyEnvelope) (Some signature)).

(** The record as a reader has it, from what the server serves. *)
Definition servedRekeyedRecord (statement : RecordStatement) (keyEpoch : Z) (envelope : string) (rekey : ServedRekey.t)
    : result RekeyedRecord.t :=
  let* envelope := decode envelope None in carried_record statement keyEpoch envelope rekey.

(** The origin a record keeps: the one an earlier rotation kept, while it
    binds, or the record itself, if it names its writer; nothing to drop it,
    with whether there was one. *)
Definition kept_origin (random : bytes) (input : ResealInput.t) : result (RecordOrigin.t + bool) :=
  match ResealInput.rekey input with
  | Some served =>
      match ServedRekey.signerId served with
      | Some signerId =>
          if (signerId === "") || (ServedRekey.originSignature served === "") then Ok (inr true)
          else
            let* carried := carried_record (ResealInput.statement input) (ResealInput.keyEpoch input)
              (ResealInput.envelope input) served in
            let* wrapped := carryOrigin random carried (ResealInput.old input) (ResealInput.fresh input)
              (ResealInput.targetEpoch input) in
            match wrapped with
            | None => Ok (inr true)
            | Some keyEnvelope =>
                let origin := RekeyedRecord.origin carried in
                Ok (inl (RecordOrigin.Build_t (ServedOrigin.envelope origin) signerId
                  (default "" (ServedOrigin.signature origin)) keyEnvelope))
            end
      | None => Ok (inr true)
      end
  | None =>
      match ResealInput.signer input, ResealInput.signature input with
      | Some signerId, Some signature =>
          if (signerId === "") || (signature === "") then Ok (inr false)
          else
            let* opening := originOpeningKey (ResealInput.envelope input) (ResealInput.old input) in
            let* signature := decode signature None in
            let statement := ResealInput.statement input in
            let* keyEnvelope := wrapOriginKey random opening (ResealInput.fresh input)
              (OriginKeyContext.Build_t (record_workspace statement) (record_node statement) (ResealInput.targetEpoch input)
                (record_position statement) (ResealInput.envelope input)) in
            Ok (inl (RecordOrigin.Build_t (ResealInput.envelope input) signerId signature keyEnvelope))
      | _, _ => Ok (inr false)
      end
  end.

(** One record re-sealed by a rotation, the two nonces it draws first. *)
Definition rekeyRecord (random random' : bytes) (judge : RecordJudge) (input : ResealInput.t) : result RotatedRecord.t :=
  let statement := ResealInput.statement input in
  let* next := rekeyEnvelope random (ResealInput.envelope input) (ResealInput.old input) (ResealInput.fresh input)
    (ResealInput.aad input) in
  let* kept := kept_origin random' input in
  match kept with
  | inr dropOrigin =>
      let* signature := legacyOver input next resealed_form in
      Ok (RotatedRecord.Build_t next (Some signature) None dropOrigin)
  | inl origin =>
      let* message := rekeyed_statement statement (ResealInput.targetEpoch input) next origin in
      let* legacy := judge (Judged.Build_t (throwing (record_forms statement (RecordOrigin.envelope origin)))
        (Some (RecordOrigin.signerId origin)) (Some (encode (RecordOrigin.signature origin)))) in
      let* signature := match legacy with
        | Some form => let* s := legacyOver input next form in Ok (Some s)
        | None => Ok None
        end in
      let* rekeySignature := sign (ResealInput.by_ input) message in
      Ok (RotatedRecord.Build_t next signature
        (Some (RekeyOut.Build_t (encode (RecordOrigin.keyEnvelope origin)) rekeySignature)) false)
  end.

(** ** A family node *)

(** Each record's input, from the node's row. *)
Definition metadata_input (workspaceId : string) (targetEpoch : Z) (node : RotateNodeInput.t) (old fresh : bytes)
    (by_ : result RotationSigner.t) : result ResealInput.t :=
  let* aad := metadataContext (MetadataContext.Build_t workspaceId (RotateNodeInput.id node) (RotateNodeInput.metadataVersion node)) in
  let* envelope := decode (RotateNodeInput.metadataEnvelope node) None in
  Ok (ResealInput.Build_t
    (MetadataRecord (MetadataStatement.Build_t workspaceId (RotateNodeInput.id node) (RotateNodeInput.kind node)
      (RotateNodeInput.metadataVersion node)))
    aad envelope (RotateNodeInput.metadataSigner node) (RotateNodeInput.metadataSignature node) (RotateNodeInput.metadataRekey node)
    (RotateNodeInput.keyEpoch node) targetEpoch old fresh by_).
Definition version_input (workspaceId : string) (targetEpoch : Z) (node : RotateNodeInput.t) (old fresh : bytes)
    (by_ : result RotationSigner.t) (version : RotatedVersion.t) : result ResealInput.t :=
  let suite := RotatedVersion.contentSuite version in
  let* envelope := decode (RotatedVersion.contentKeyEnvelope version)
    (Some (if suite =? LEGACY_CONTENT_SUITE then KEY_ENVELOPE_BYTES else VERSION_ENVELOPE_BYTES)) in
  let* aad := contentKeyContext (ContentKeyContext.Build_t workspaceId (RotateNodeInput.id node) (RotatedVersion.id version)
    (RotatedVersion.objectId version) suite) in
  Ok (ResealInput.Build_t
    (VersionRecord_ (VersionStatement.Build_t workspaceId (RotateNodeInput.id node) (RotatedVersion.id version)
      (RotatedVersion.objectId version) suite))
    aad envelope (RotatedVersion.signer version) (RotatedVersion.signature version) (RotatedVersion.rekey version)
    (RotateNodeInput.keyEpoch node) targetEpoch old fresh by_).

Fixpoint rekey_versions (draw : nat → bytes) (index : nat) (judge : RecordJudge) (input_of : RotatedVersion.t → result ResealInput.t)
    (versions : list RotatedVersion.t) : result (list VersionOut.t) :=
  match versions with
  | [] => Ok []
  | version :: rest =>
      let* input := input_of version in
      let* out := rekeyRecord (draw index) (draw (S index)) judge input in
      let* rest := rekey_versions draw (S (S index)) judge input_of rest in
      Ok (VersionOut.Build_t (RotatedVersion.id version) (encode (RotatedRecord.envelope out)) (RotatedRecord.signature out)
        (RotatedRecord.rekey out) (RotatedRecord.dropOrigin out) :: rest)
  end.

(** [rekeyNode] in a family folder; [draw] the nonces, in the order they are drawn. *)
Definition rekeyNode (draw : nat → bytes) (workspaceId : string) (targetEpoch : Z) (node : RotateNodeInput.t) (judge : RecordJudge)
    (old fresh parentKey : bytes) (by_ : result RotationSigner.t) : result RekeyedNode.t :=
  let* _ := by_ in
  refuse SHARED_IN_FAMILY when (0 <? length (RotateNodeInput.shares node))%nat || (0 <? length (RotateNodeInput.links node))%nat ;;
  let* keyEnvelope := wrapNodeKey (draw 0%nat) fresh parentKey (NodeKeyContext.Build_t workspaceId (RotateNodeInput.id node)
    (RotateNodeInput.parentId node) (RotateNodeInput.parentKeyEpoch node) targetEpoch) in
  let* input := metadata_input workspaceId targetEpoch node old fresh by_ in
  let* metadata := rekeyRecord (draw 1%nat) (draw 2%nat) judge input in
  let* versions := rekey_versions draw 3 judge (version_input workspaceId targetEpoch node old fresh by_)
    (RotateNodeInput.versions node) in
  Ok (RekeyedNode.Build_t (RotateNodeInput.id node) (encode keyEnvelope) (encode (RotatedRecord.envelope metadata))
    (RotatedRecord.signature metadata) (RotatedRecord.rekey metadata) (RotatedRecord.dropOrigin metadata) versions).
End rotation.

(** ** Nobody's mind is changed about the writer *)

(** The verdict on who wrote a record, as a reader who trusts [trusted] of the
    writer has it from what the server serves before the rotation. *)
Definition writer_before `{C : Crypto} (input : ResealInput.t) (trusted : option TrustedSigner.t) : result Integrity :=
  let statement := ResealInput.statement input in
  match ResealInput.rekey input with
  | Some served =>
      let* record := carried_record statement (ResealInput.keyEpoch input) (ResealInput.envelope input) served in
      Ok (RekeyedVerdict.origin (rekeyedIntegrityOf record (Some (ResealInput.old input)) (Some (RekeyedTrust.Build_t trusted None))))
  | None =>
      let* signature := match ResealInput.signature input with
        | Some s => let* s := decode s None in Ok (Some s) | None => Ok None end in
      Ok (integrityOf (throwing (record_forms statement (ResealInput.envelope input))) signature trusted)
  end.

(** What the server serves of it after: the origin it kept already, or the
    record replaced, and what the rotation sent. *)
Definition served_after (input : ResealInput.t) (out : RekeyOut.t) : ServedRekey.t :=
  let '(envelope, signerId, originSignature) :=
    match ResealInput.rekey input with
    | Some served => (ServedRekey.envelope served, ServedRekey.signerId served, ServedRekey.originSignature served)
    | None => (encode (ResealInput.envelope input), ResealInput.signer input, default "" (ResealInput.signature input))
    end in
  ServedRekey.Build_t envelope signerId originSignature (RekeyOut.originKeyEnvelope out) (RekeyOut.signature out).

(** [publicKey] is who [by_] signs as. *)
Definition signs_as `{C : Crypto} `{SG : Signing} (by_ : result RotationSigner.t) (publicKey : bytes) : Prop :=
  ∀ signer, by_ = Ok signer → ∀ message, slen (RotationSigner.signingKey signer) = SIGNING_SECRET_KEY_BYTES →
    verifyStatement message (crypto_sign_detached message (RotationSigner.signingKey signer)) publicKey = true.

Section writers.
Context `{CL : CryptoLaws} `{SL : SigningLaws}.

(** The record after a rotation kept it with [rekey], [envelope] the new
    envelope's text, as every reader has it. *)
Record kept_as (input : ResealInput.t) (envelope : string) (rekey : RekeyOut.t) (record : RekeyedRecord.t) : Prop := {
  ka_served : servedRekeyedRecord (ResealInput.statement input) (ResealInput.targetEpoch input) envelope
    (served_after input rekey) = Ok record;
  ka_bound : ∃ k, openOrigin (ResealInput.fresh input) record = OpenedKey k;
  ka_writer trusted before : writer_before input trusted = Ok before → checks_origin record trusted = before;
  ka_rekeyer signer publicKey retired : ResealInput.by_ input = Ok signer → signs_as (ResealInput.by_ input) publicKey →
    checks_rekeyer record (Some (TrustedSigner.Build_t publicKey retired false)) = verified;
}.

(** Why a rotation keeps no origin: nobody is named, or the origin an earlier
    one kept does not bind the envelope. *)
Definition nothing_kept (input : ResealInput.t) : Prop :=
  match ResealInput.rekey input with
  | None => missing (ResealInput.signer input) || missing (ResealInput.signature input) = true
  | Some served =>
      missing (ServedRekey.signerId served) || (ServedRekey.originSignature served === "") = true ∨
      ∃ record, carried_record (ResealInput.statement input) (ResealInput.keyEpoch input) (ResealInput.envelope input) served =
          Ok record ∧ ∀ k, openOrigin (ResealInput.old input) record ≠ OpenedKey k
  end.
(** The record after a rotation that keeps no origin: signed as re-sealed, by
    the re-keyer, and an origin served is dropped. *)
Record resealed_as (input : ResealInput.t) (envelope : string) (signature : option string) (dropOrigin : bool) : Prop := {
  ra_why : nothing_kept input;
  ra_signed : ∃ next message s, decode envelope None = Ok next ∧
    record_form resealed_form (ResealInput.statement input) next = Ok message ∧
    sign (ResealInput.by_ input) message = Ok s ∧ signature = Some s;
  ra_dropped : dropOrigin = bool_decide (is_Some (ResealInput.rekey input));
}.
(** One record of a rotation's result. *)
Definition rotated_as (input : ResealInput.t) (envelope : string) (signature : option string) (rekey : option RekeyOut.t)
    (dropOrigin : bool) : Prop :=
  match rekey with
  | Some rekey => dropOrigin = false ∧ ∃ record, kept_as input envelope rekey record
  | None => resealed_as input envelope signature dropOrigin
  end.

Lemma sign_ok by_ message s : sign by_ message = Ok s → ∃ signer, by_ = Ok signer ∧
  slen (RotationSigner.signingKey signer) = SIGNING_SECRET_KEY_BYTES ∧
  s = encode (crypto_sign_detached message (RotationSigner.signingKey signer)).
Proof.
  unfold sign, signStatement. intros (signer & Hs & H)%bind_ok. res_inv. bool_simpl. by exists signer.
Qed.

Lemma signature_nonempty m sk : crypto_sign_detached m sk ≠ "".
Proof. intros E. pose proof (crypto_sign_length m sk) as H. by rewrite E in H. Qed.
Lemma envelope_nonempty (b : bytes) : slen b = KEY_ENVELOPE_BYTES → b ≠ "".
Proof. by intros H ->. Qed.

(** The record with the origin [kept_origin] gave. *)
Definition kept_record (input : ResealInput.t) (next : bytes) (o : RecordOrigin.t) (rekeySignature : bytes) : RekeyedRecord.t :=
  RekeyedRecord.Build_t (ResealInput.statement input) (ResealInput.targetEpoch input) next
    (ServedOrigin.Build_t (RecordOrigin.envelope o) (Some (RecordOrigin.signerId o)) (Some (RecordOrigin.signature o))
      (RecordOrigin.keyEnvelope o)) (Some rekeySignature).

Lemma carried_record_ok statement keyEpoch envelope served record :
  carried_record statement keyEpoch envelope served = Ok record →
  ∃ e sg k rs, decode (ServedRekey.envelope served) None = Ok e ∧ decode (ServedRekey.originSignature served) None = Ok sg ∧
    decode (ServedRekey.keyEnvelope served) None = Ok k ∧ decode (ServedRekey.signature served) None = Ok rs ∧
    record = RekeyedRecord.Build_t statement keyEpoch envelope (ServedOrigin.Build_t e (ServedRekey.signerId served) (Some sg) k) (Some rs).
Proof.
  unfold carried_record. intros (e & He & H)%bind_ok. apply bind_ok in H as (sg & Hs & H). apply bind_ok in H as (k & Hk & H).
  apply bind_ok in H as (rs & Hr & [= <-]). by exists e, sg, k, rs.
Qed.

Lemma openOrigin_signature nodeKey statement keyEpoch envelope origin s s' :
  openOrigin nodeKey (RekeyedRecord.Build_t statement keyEpoch envelope origin s) =
  openOrigin nodeKey (RekeyedRecord.Build_t statement keyEpoch envelope origin s').
Proof. done. Qed.

(** What [kept_origin] keeps opens under the fresh key and says what was said before. *)
Record keeps (input : ResealInput.t) (next : bytes) (o : RecordOrigin.t) : Prop := {
  kp_envelope rekey : decode (ServedRekey.envelope (served_after input rekey)) None = Ok (RecordOrigin.envelope o);
  kp_signer rekey : ServedRekey.signerId (served_after input rekey) = Some (RecordOrigin.signerId o);
  kp_signature rekey : decode (ServedRekey.originSignature (served_after input rekey)) None = Ok (RecordOrigin.signature o);
  kp_key : slen (RecordOrigin.keyEnvelope o) = KEY_ENVELOPE_BYTES;
  kp_bound sg : ∃ k, openOrigin (ResealInput.fresh input) (kept_record input next o sg) = OpenedKey k;
  kp_writer sg trusted before : writer_before input trusted = Ok before → checks_origin (kept_record input next o sg) trusted = before;
}.

Lemma carried_keeps random random' input served o next : ResealInput.rekey input = Some served →
  slen random = ENVELOPE_NONCE_BYTES → slen random' = ENVELOPE_NONCE_BYTES →
  record_aad (ResealInput.statement input) = Some (ResealInput.aad input) →
  rekeyEnvelope random (ResealInput.envelope input) (ResealInput.old input) (ResealInput.fresh input) (ResealInput.aad input) = Ok next →
  kept_origin random' input = Ok (inl o) → keeps input next o.
Proof.
  intros Er Hr Hr' Haad Hnext Hkept. unfold kept_origin in Hkept. rewrite Er in Hkept.
  destruct (ServedRekey.signerId served) as [signerId|] eqn:Es; [|done]. destruct (_ || _); [done|].
  apply bind_ok in Hkept as (record & Hrec & Hkept). apply bind_ok in Hkept as (wrapped & Hw & Hkept).
  destruct wrapped as [keyEnvelope|]; [|done]. injection Hkept as <-.
  destruct (carried_record_ok _ _ _ _ _ Hrec) as (e & sg & k & rs & He & Hsg & _ & _ & Erec).
  destruct (carry_opens random' random record (ResealInput.old input) (ResealInput.fresh input) (ResealInput.targetEpoch input)
    (ResealInput.aad input) next keyEnvelope Hr' Hr ltac:(by rewrite Erec) ltac:(by rewrite Erec) Hw) as (key & Hold & Hnew).
  assert (slen keyEnvelope = KEY_ENVELOPE_BYTES) as Hlen.
  { apply openOrigin_key in Hnew as (aad & p & _ & _ & _ & _ & _ & Hl & _). exact Hl. }
  rewrite Erec, Es in *. split; try (intros rekey; unfold served_after; rewrite Er; done); cbn; try done.
  - intros s. by exists key.
  - intros s trusted before. unfold writer_before. rewrite Er, Hrec. intros [= <-]. unfold rekeyedIntegrityOf.
    cbv zeta. rewrite Hold. done.
Qed.

Lemma fresh_keeps random random' input o next : ResealInput.rekey input = None →
  slen random = ENVELOPE_NONCE_BYTES → slen random' = ENVELOPE_NONCE_BYTES →
  record_aad (ResealInput.statement input) = Some (ResealInput.aad input) →
  record_fits (ResealInput.statement input) (ResealInput.envelope input) = true →
  rekeyEnvelope random (ResealInput.envelope input) (ResealInput.old input) (ResealInput.fresh input) (ResealInput.aad input) = Ok next →
  kept_origin random' input = Ok (inl o) → keeps input next o.
Proof.
  intros Er Hr Hr' Haad Hfit Hnext Hkept. unfold kept_origin in Hkept. rewrite Er in Hkept.
  destruct (ResealInput.signer input) as [signerId|] eqn:Es; [|done].
  destruct (ResealInput.signature input) as [signature|] eqn:Esg; [|done]. destruct (_ || _); [done|].
  apply bind_ok in Hkept as (opening & Hop & Hkept). apply bind_ok in Hkept as (sg & Hsg & Hkept).
  apply bind_ok in Hkept as (keyEnvelope & Hw & [= <-]). apply wrapOriginKey_ok in Hw as (Hlen & Hfresh & Hopen); [|done].
  pose proof (rekeyEnvelope_length _ _ _ _ _ _ Hr Hnext) as [Hnl _].
  assert (∃ p, openEnvelopeBytes (ResealInput.envelope input) (ResealInput.old input) (ResealInput.aad input) = Ok p ∧
    seal random p (ResealInput.fresh input) (ResealInput.aad input) = Ok next) as (p & Hp & Hseal).
  { unfold rekeyEnvelope, key32 in Hnext. res_inv. bool_simpl. eauto. }
  assert (ResealInput.envelope input ≠ "") as Hne.
  { intros E. rewrite E in Hp. done. }
  split; try (intros rekey; unfold served_after; rewrite Er, ?Es, ?Esg; done).
  - intros rekey. unfold served_after. rewrite Er. by apply decode_encode_any.
  - exact Hlen.
  - intros s. exists opening. apply openOrigin_key. exists (ResealInput.aad input), p. cbn. split_and!; try done.
    + by rewrite (record_fits_length _ _ (ResealInput.envelope input)).
    + exact (openEnvelopeBytes_seal _ _ _ _ _ Hr Hfresh (openEnvelopeBytes_nonempty _ _ _ _ Hp) Hseal).
    + pose proof (opening_key_opens _ _ (ResealInput.aad input) _ Hop) as E. rewrite Hp in E.
      destruct (openWithOriginKey _ _ _) as [q|]; [|discriminate E]. by injection E as ->.
  - intros s trusted before. unfold writer_before. rewrite Er, Esg, Hsg. by intros [= <-].
Qed.

Lemma served_after_sent input rekey : ServedRekey.keyEnvelope (served_after input rekey) = RekeyOut.originKeyEnvelope rekey ∧
  ServedRekey.signature (served_after input rekey) = RekeyOut.signature rekey.
Proof. unfold served_after. by destruct (ResealInput.rekey input). Qed.

Lemma kept_as_of input envelope next rekey o sgn signer message : keeps input next o →
  rekeyed_statement (ResealInput.statement input) (ResealInput.targetEpoch input) next o = Ok message →
  ResealInput.by_ input = Ok signer → slen (RotationSigner.signingKey signer) = SIGNING_SECRET_KEY_BYTES →
  sgn = crypto_sign_detached message (RotationSigner.signingKey signer) →
  decode envelope None = Ok next → rekey = RekeyOut.Build_t (encode (RecordOrigin.keyEnvelope o)) (encode sgn) →
  kept_as input envelope rekey (kept_record input next o sgn).
Proof.
  intros Hk Hm Hby Hlen -> Hout ->. split.
  - unfold servedRekeyedRecord. rewrite Hout. cbn [mbind res_bind]. unfold carried_record. rewrite (kp_envelope _ _ _ Hk). cbn [mbind res_bind].
    rewrite (kp_signature _ _ _ Hk). cbn [mbind res_bind].
    destruct (served_after_sent input (RekeyOut.Build_t (encode (RecordOrigin.keyEnvelope o))
      (encode (crypto_sign_detached message (RotationSigner.signingKey signer))))) as [-> ->].
    cbn [RekeyOut.originKeyEnvelope RekeyOut.signature].
    rewrite (decode_encode_any (RecordOrigin.keyEnvelope o)) by apply envelope_nonempty, (kp_key _ _ _ Hk). cbn [mbind res_bind].
    rewrite (decode_encode_any (crypto_sign_detached _ _)) by apply signature_nonempty. cbn [mbind res_bind].
    by rewrite (kp_signer _ _ _ Hk).
  - apply (kp_bound _ _ _ Hk).
  - intros trusted before. apply (kp_writer _ _ _ Hk).
  - intros signer' publicKey retired Hby' Hsign. assert (signer' = signer) as -> by congruence.
    unfold checks_rekeyer, rekeyerIntegrityOf. cbn. unfold checks_named. cbn.
    unfold rekeyed_statement in Hm. destruct o. cbn [RecordOrigin.envelope RecordOrigin.signerId RecordOrigin.signature RecordOrigin.keyEnvelope].
    destruct (ResealInput.statement input); rewrite Hm; cbn; by rewrite (Hsign signer Hby message Hlen).
Qed.

(** A record's input is as its row has it: [aad] its own, and its size in range. *)
Record input_ok (input : ResealInput.t) : Prop := {
  io_aad : record_aad (ResealInput.statement input) = Some (ResealInput.aad input);
  io_fits : ResealInput.rekey input = None → record_fits (ResealInput.statement input) (ResealInput.envelope input) = true;
}.

Lemma kept_origin_keeps random random' input o next : input_ok input →
  slen random = ENVELOPE_NONCE_BYTES → slen random' = ENVELOPE_NONCE_BYTES →
  rekeyEnvelope random (ResealInput.envelope input) (ResealInput.old input) (ResealInput.fresh input) (ResealInput.aad input) = Ok next →
  kept_origin random' input = Ok (inl o) → keeps input next o.
Proof.
  intros [Haad Hfits] Hr Hr' Hnext Hkept. destruct (ResealInput.rekey input) as [served|] eqn:Er.
  - by apply (carried_keeps random random' input served).
  - apply (fresh_keeps random random' input); auto.
Qed.

Lemma kept_origin_none random' input drop : kept_origin random' input = Ok (inr drop) →
  nothing_kept input ∧ drop = bool_decide (is_Some (ResealInput.rekey input)).
Proof.
  unfold kept_origin, nothing_kept. intros H. destruct (ResealInput.rekey input) as [served|] eqn:Er.
  - rewrite (bool_decide_eq_true_2 (is_Some _)) by eauto.
    destruct (ServedRekey.signerId served) as [signerId|] eqn:Es; cbn; [|injection H as <-; eauto].
    destruct (_ || _) eqn:Em; [injection H as <-; eauto|].
    apply bind_ok in H as (record & Hrec & H). apply bind_ok in H as (wrapped & Hw & H).
    destruct wrapped; [done|]. injection H as <-. split; [|done]. right. exists record. split; [done|].
    intros k Ek. unfold carryOrigin in Hw. res_inv. rewrite Ek in Hw. by apply bind_ok in Hw as (e & _ & [=]).
  - rewrite bool_decide_eq_false_2 by (by intros [? [=]]).
    destruct (ResealInput.signer input) as [signerId|]; [|by injection H as <-].
    destruct (ResealInput.signature input) as [signature|]; cbn; [|injection H as <-; by rewrite orb_true_r].
    destruct (_ || _) eqn:Em; [by injection H as <-|].
    apply bind_ok in H as (? & _ & H). apply bind_ok in H as (? & _ & H). by apply bind_ok in H as (? & _ & [=]).
Qed.

Lemma rekeyEnvelope_nonempty random env old fresh aad next : slen random = ENVELOPE_NONCE_BYTES →
  rekeyEnvelope random env old fresh aad = Ok next → next ≠ "".
Proof.
  intros Hr H E. pose proof (rekeyEnvelope_length _ _ _ _ _ _ Hr H) as [Hl _]. rewrite E in Hl.
  unfold rekeyEnvelope, key32 in H. res_inv. destruct env; [done|]. rewrite slen_cons in Hl. pose proof (slen_nonneg env). change (slen "") with 0 in Hl. lia.
Qed.

(** One record: kept, so that every reader finds the writer it had, or re-sealed. *)
Lemma rekeyRecord_rotated random random' judge input out : input_ok input →
  slen random = ENVELOPE_NONCE_BYTES → slen random' = ENVELOPE_NONCE_BYTES →
  rekeyRecord random random' judge input = Ok out →
  rotated_as input (encode (RotatedRecord.envelope out)) (RotatedRecord.signature out) (RotatedRecord.rekey out)
    (RotatedRecord.dropOrigin out).
Proof.
  intros Hin Hr Hr' H. unfold rekeyRecord in H. apply bind_ok in H as (next & Hnext & H).
  apply bind_ok in H as (kept & Hkept & H).
  pose proof (decode_encode_any next (rekeyEnvelope_nonempty _ _ _ _ _ _ Hr Hnext)) as Hdec. destruct kept as [o|drop].
  - apply bind_ok in H as (message & Hm & H). apply bind_ok in H as (legacy & _ & H). apply bind_ok in H as (sg & _ & H).
    apply bind_ok in H as (rs & Hs & [= <-]). destruct (sign_ok _ _ _ Hs) as (signer & Hby & Hlen & ->).
    split; [done|]. exists (kept_record input next o (crypto_sign_detached message (RotationSigner.signingKey signer))).
    apply (kept_as_of _ _ next _ o _ signer message); try done. exact (kept_origin_keeps _ _ _ _ _ Hin Hr Hr' Hnext Hkept).
  - destruct (kept_origin_none _ _ _ Hkept) as [Hwhy Hdrop]. apply bind_ok in H as (s & Hs & [= <-]).
    unfold legacyOver in Hs. apply bind_ok in Hs as (message & Hm & Hs). split; [exact Hwhy| |exact Hdrop].
    by exists next, message, s.
Qed.

Lemma metadata_input_ok workspaceId targetEpoch node old fresh by_ input :
  metadata_input workspaceId targetEpoch node old fresh by_ = Ok input →
  (RotateNodeInput.metadataRekey node = None → slen (ResealInput.envelope input) ≤ METADATA_ENVELOPE_MAX_BYTES) → input_ok input.
Proof.
  unfold metadata_input. intros (aad & Ha & H)%bind_ok. apply bind_ok in H as (envelope & He & [= <-]). cbn. intros Hmax.
  split; cbn; [unfold record_aad; cbn; by rewrite Ha|]. intros Hn. apply Z.leb_le. auto.
Qed.
Lemma checkSuite_self v z : checkSuite v = Ok z → checkSuite v = Ok v.
Proof. intros H. by pose proof H as [-> _]%checkSuite_ok. Qed.
Lemma version_input_ok workspaceId targetEpoch node old fresh by_ version input :
  version_input workspaceId targetEpoch node old fresh by_ version = Ok input → input_ok input.
Proof.
  unfold version_input. intros (envelope & He & H)%bind_ok. apply bind_ok in H as (aad & Ha & [= <-]). cbn.
  split; cbn; [unfold record_aad; cbn; by rewrite Ha|]. intros _. apply bind_ok in Ha as (suite & Hsuite & _).
  apply decode_ok in He as (_ & _ & Hlen). specialize (Hlen _ eq_refl). unfold versionEnvelopeBytes.
  cbn in Hlen, Hsuite. rewrite (checkSuite_self _ _ Hsuite). cbn. by apply Z.eqb_eq.
Qed.

(** What a rotation did to one version's row. *)
Definition version_rotated (input_of : RotatedVersion.t → result ResealInput.t) (version : RotatedVersion.t) (out : VersionOut.t) : Prop :=
  VersionOut.id out = RotatedVersion.id version ∧ ∃ input, input_of version = Ok input ∧
    rotated_as input (VersionOut.contentKeyEnvelope out) (VersionOut.signature out) (VersionOut.rekey out) (VersionOut.dropOrigin out).

Lemma rekey_versions_rotated draw judge input_of versions : (∀ i, slen (draw i) = ENVELOPE_NONCE_BYTES) →
  (∀ version input, input_of version = Ok input → input_ok input) → ∀ index outs,
  rekey_versions draw index judge input_of versions = Ok outs → Forall2 (version_rotated input_of) versions outs.
Proof.
  intros Hdraw Hok. induction versions as [|version rest IH]; intros index outs; cbn; [by intros [= <-]|].
  intros (input & Hin & H)%bind_ok. apply bind_ok in H as (out & Hout & H). apply bind_ok in H as (rest' & Hrest & [= <-]).
  constructor; [|by eapply IH]. split; [done|]. exists input. split; [done|].
  exact (rekeyRecord_rotated _ _ _ _ _ (Hok _ _ Hin) (Hdraw _) (Hdraw _) Hout).
Qed.

(** C8. A rotation changes no reader's mind about who wrote a record. Of a
    family node re-keyed, the metadata and each version in its place is
    either kept, or re-sealed. A record kept is served, under the new key's
    epoch, with an origin bound to its new envelope; every reader's verdict on
    who wrote it is the one they had before, whoever they trust; and the
    re-keyer's own signature verifies under the re-keyer's key. One re-sealed
    named no writer, or its origin was not bound; the re-keyer signed it as
    re-sealed, nothing else, and any origin served is dropped. *)
Theorem rotation_keeps_writers draw workspaceId targetEpoch node judge old fresh parentKey by_ out
    (Hdraw : ∀ i, slen (draw i) = ENVELOPE_NONCE_BYTES)
    (Hsize : RotateNodeInput.metadataRekey node = None → ∀ envelope, decode (RotateNodeInput.metadataEnvelope node) None = Ok envelope →
      slen envelope ≤ METADATA_ENVELOPE_MAX_BYTES)
    (Hout : rekeyNode draw workspaceId targetEpoch node judge old fresh parentKey by_ = Ok out) :
  (∃ input, metadata_input workspaceId targetEpoch node old fresh by_ = Ok input ∧
    rotated_as input (RekeyedNode.metadataEnvelope out) (RekeyedNode.metadataSignature out) (RekeyedNode.metadataRekey out)
      (RekeyedNode.metadataDropOrigin out)) ∧
  Forall2 (version_rotated (version_input workspaceId targetEpoch node old fresh by_))
    (RotateNodeInput.versions node) (RekeyedNode.versions out).
Proof.
  unfold rekeyNode in Hout. apply bind_ok in Hout as (signer & _ & H). destruct (_ || _); [done|].
  apply bind_ok in H as (keyEnvelope & _ & H). apply bind_ok in H as (input & Hin & H).
  apply bind_ok in H as (metadata & Hmeta & H). apply bind_ok in H as (versions & Hv & [= <-]). split.
  - exists input. split; [exact Hin|]. refine (rekeyRecord_rotated _ _ _ _ _ _ (Hdraw _) (Hdraw _) Hmeta).
    apply (metadata_input_ok _ _ _ _ _ _ _ Hin). intros Hn. apply (Hsize Hn).
    unfold metadata_input in Hin. apply bind_ok in Hin as (aad & _ & Hin). by apply bind_ok in Hin as (envelope & He & [= <-]).
  - refine (rekey_versions_rotated _ _ _ _ Hdraw _ _ _ Hv). intros version i. apply version_input_ok.
Qed.
End writers.

Module RotationWitness.
#[local] Instance signing : Signing := {| crypto_sign_detached m sk := Toy.sign 64 (subarray 0 32 sk) m "" |}.
#[local] Instance signing_laws : SigningLaws signing.
Proof.
  split. intros m sk. cbn. unfold Toy.sign, Toy.pad. set (h := Toy.hash _).
  assert (slen h = 32) as Hh by (unfold h, Toy.hash; by rewrite Toy.to_bytes_length).
  rewrite slen_app, Toy.to_bytes_length, Hh. unfold slen in Hh. change SIGNATURE_BYTES with 64. lia.
Qed.
Definition draw (i : nat) : bytes := fill 24 (ascii_of_nat (97 + i)).
Definition ws := RecordWitness.ws.
Definition node_id := RecordWitness.node.
Definition version_id := "0d0d0d0d-0000-4000-8000-000000000004".
Definition object_id := "0e0e0e0e-0000-4000-8000-000000000005".
Definition old := fill 32 "k".
Definition fresh := fill 32 "q".
Definition parent := fill 32 "p".
Definition writer_key := fill 32 "w".
Definition by_ : result RotationSigner.t := Ok (RotationSigner.Build_t RecordWitness.signer (fill 64 "s")).
Definition ok (m : result bytes) : bytes := match m with Ok b => b | Err _ => "" end.
Definition metadata_aad := ok (metadataContext (MetadataContext.Build_t ws node_id 7)).
Definition metadata := ok (seal (C := Toy.crypto) (fill 24 "r") "name" old metadata_aad).
Definition version_aad := ok (contentKeyContext (ContentKeyContext.Build_t ws node_id version_id object_id 1)).
(** The version's origin, an earlier rotation's envelope of it and its opening key. *)
Definition origin := ok (seal (C := Toy.crypto) (fill 24 "r") (fill 32 "c") writer_key version_aad).
Definition current := ok (rekeyEnvelope (C := Toy.crypto) (fill 24 "t") origin writer_key old version_aad).
Definition wrapped := ok (
  let* opening := originOpeningKey origin writer_key in
  wrapOriginKey (C := Toy.crypto) (fill 24 "u") opening old (OriginKeyContext.Build_t ws node_id 2 (OriginVersion version_id) origin)).
Definition version := RotatedVersion.Build_t version_id object_id (encode current) 1 None None
  (Some (ServedRekey.Build_t (encode origin) (Some RecordWitness.signer) (encode "written") (encode wrapped) (encode "rekeyed"))).
Definition node := RotateNodeInput.Build_t node_id Folder "0f0f0f0f-0000-4000-8000-000000000006" 1 2 7 (encode metadata)
  (Some RecordWitness.signer) (Some (encode "signed")) None [version] [] [].
Definition judge : RecordJudge := λ _, Ok None.
Definition out (m : result RekeyedNode.t) : RekeyedNode.t :=
  match m with Ok out => out | Err _ => RekeyedNode.Build_t "" "" "" None None false [] end.
Definition result_ := rekeyNode (C := Toy.crypto) (SG := signing) draw ws 3 node judge old fresh parent by_.
End RotationWitness.

Lemma rotation_keeps_writers_witness :
  RotationWitness.result_ = Ok (RotationWitness.out RotationWitness.result_) ∧
  Forall2 (version_rotated (C := Toy.crypto) (SG := RotationWitness.signing)
      (version_input RotationWitness.ws 3 RotationWitness.node RotationWitness.old RotationWitness.fresh RotationWitness.by_))
    [RotationWitness.version] (RekeyedNode.versions (RotationWitness.out RotationWitness.result_)).
Proof.
  assert (RotationWitness.result_ = Ok (RotationWitness.out RotationWitness.result_)) as H by (vm_compute; reflexivity).
  split; [exact H|].
  refine (proj2 (rotation_keeps_writers (CL := Toy.crypto_laws) (SL := RotationWitness.signing_laws) RotationWitness.draw
    RotationWitness.ws 3 RotationWitness.node RotationWitness.judge RotationWitness.old RotationWitness.fresh
    RotationWitness.parent RotationWitness.by_ _ _ _ H)).
  - intros i. unfold RotationWitness.draw. reflexivity.
  - intros _ envelope He. apply (f_equal (λ r, match r with Ok e => slen e | Err _ => 0 end)) in He.
    cbv beta iota in He. rewrite <- He. vm_compute. discriminate.
Defined.
