(* ===== verification/ServerSignatures.v ===== *)
(** * A re-keyed record as the server checks it (packages/db/src/signatures.ts, rotations.ts)

    The server builds the statements of a record again from what it is about
    to store, in code of its own, and takes a rotation's record only signed as
    its rules say ([checkRotatedRecord]). The theorems show that it builds the
    bytes the clients sign, that what it takes keeps the record's writer, and
    that it takes every record [RotationRecords] re-keys in a family. *)

From S2P Require Import Prelude Base64url Bytes Canonical HChaCha Crypto Content Envelopes Signatures RotationRecords.

(** [verify(null, message, key, signature)] of node:crypto under a raw Ed25519 key; false where it throws. *)
Class NodeCrypto := { node_verify (publicKey message signature : bytes) : bool }.

(** ** Statements *)

Definition FORMS : list SignatureForm := [ordinary; saved; resealed_form].
Inductive Labelled := label_metadata | label_version.
Definition label (record : Labelled) (form : SignatureForm) : string :=
  let name := match record with label_metadata => "hushos/drive/sig/metadata" | label_version => "hushos/drive/sig/version" end in
  match form with ordinary => name | saved => name +:+ "-saved" | resealed_form => name +:+ "-resealed" end.
Definition server_link : string := "link".
Definition saved_tail (form : SignatureForm) : list jsval := match form with saved => [JStr server_link] | _ => [] end.

Module SignedStatement.
Record t := { messages : list bytes; signature : bytes }.
End SignedStatement.

Section statements.
Context `{C : Crypto} `{NC : NodeCrypto}.

Definition server_statement (parts : list jsval) : bytes := json_stringify (JArr parts).
Definition metadataStatement (i : MetadataStatement.t) (envelope : bytes) (form : SignatureForm) : bytes :=
  server_statement ([JStr (label label_metadata form); JInt 1; JStr (toLowerCase (MetadataStatement.workspaceId i));
    JStr (toLowerCase (MetadataStatement.nodeId i)); JStr (kind_name (MetadataStatement.kind i));
    JInt (MetadataStatement.metadataVersion i); JStr (digest envelope)] ++ saved_tail form).
Definition versionStatement (i : VersionStatement.t) (envelope : bytes) (form : SignatureForm) : bytes :=
  server_statement ([JStr (label label_version form); JInt 1; JStr (toLowerCase (VersionStatement.workspaceId i));
    JStr (toLowerCase (VersionStatement.nodeId i)); JStr (toLowerCase (VersionStatement.versionId i));
    JStr (toLowerCase (VersionStatement.objectId i)); JInt (VersionStatement.contentSuite i); JStr (digest envelope)] ++ saved_tail form).
Definition rekeyedTail (keyEpoch : Z) (envelope : bytes) (origin : RecordOrigin.t) : list jsval :=
  [JInt keyEpoch; JStr (digest envelope); JStr (digest (RecordOrigin.envelope origin)); JStr (toLowerCase (RecordOrigin.signerId origin));
   JStr (digest (RecordOrigin.signature origin)); JStr (digest (RecordOrigin.keyEnvelope origin))].
Definition metadataRekeyedStatement (i : MetadataStatement.t) (keyEpoch : Z) (envelope : bytes) (origin : RecordOrigin.t) : bytes :=
  server_statement ([JStr "hushos/drive/sig/metadata-rekeyed"; JInt 1; JStr (toLowerCase (MetadataStatement.workspaceId i));
    JStr (toLowerCase (MetadataStatement.nodeId i)); JStr (kind_name (MetadataStatement.kind i)); JInt (MetadataStatement.metadataVersion i)] ++
    rekeyedTail keyEpoch envelope origin).
Definition versionRekeyedStatement (i : VersionStatement.t) (keyEpoch : Z) (envelope : bytes) (origin : RecordOrigin.t) : bytes :=
  server_statement ([JStr "hushos/drive/sig/version-rekeyed"; JInt 1; JStr (toLowerCase (VersionStatement.workspaceId i));
    JStr (toLowerCase (VersionStatement.nodeId i)); JStr (toLowerCase (VersionStatement.versionId i));
    JStr (toLowerCase (VersionStatement.objectId i)); JInt (VersionStatement.contentSuite i)] ++ rekeyedTail keyEpoch envelope origin).

(** ** Signatures *)

Definition verifySignature (publicKey message signature : bytes) : bool :=
  (slen publicKey =? 32) && (slen signature =? SIGNATURE_BYTES) && node_verify publicKey message signature.
Definition metadataSigned (i : MetadataStatement.t) (envelope signature : bytes) : SignedStatement.t :=
  SignedStatement.Build_t (map (metadataStatement i envelope) FORMS) signature.
Definition versionSigned (i : VersionStatement.t) (envelope signature : bytes) : SignedStatement.t :=
  SignedStatement.Build_t (map (versionStatement i envelope) FORMS) signature.
(** The first form the signature holds in, with the messages in the forms' order. *)
Fixpoint first_form (publicKey : bytes) (messages : list bytes) (forms : list SignatureForm) (signature : bytes) : option SignatureForm :=
  match messages, forms with
  | message :: messages, form :: forms =>
      if verifySignature publicKey message signature then Some form else first_form publicKey messages forms signature
  | _, _ => None
  end.
Definition signedForm (publicKey : bytes) (signed : SignedStatement.t) : option SignatureForm :=
  first_form publicKey (SignedStatement.messages signed) FORMS (SignedStatement.signature signed).
Definition verifySigned (publicKey : bytes) (signed : SignedStatement.t) : bool := bool_decide (is_Some (signedForm publicKey signed)).
End statements.

(** ** A rotation's record *)

(** Where records are re-keyed (rekeyed-scope.ts): group areas only. *)
Inductive WorkspaceOwner := owner_personal | owner_group.
#[export] Instance WorkspaceOwner_eq_dec : EqDecision WorkspaceOwner.
Proof. solve_decision. Defined.
Definition rekeyedFor (ownerKind : WorkspaceOwner) : bool := ownerKind === owner_group.

Module RekeyInput.
Record t := { originKeyEnvelope : bytes; signature : bytes }.
End RekeyInput.
Module RotatedRecordSignatures.
Record t := { signature : option bytes; rekey : option RekeyInput.t; dropOrigin : bool }.
End RotatedRecordSignatures.
Module StoredRecord.
Record t := {
  envelope : option bytes; signerId : option string; signature : option bytes; originEnvelope : option bytes; originSignerId : option string;
  originSignature : option bytes; originKeyEnvelope : option bytes; rekeySignature : option bytes;
}.
End StoredRecord.
Module SignedOrigin.
Record t := { envelope : bytes; signerId : string; signature : bytes; keyEnvelope : bytes; rekeySignature : bytes }.
End SignedOrigin.
Module Dropped.
Record t := {
  envelope : bytes; signerId : string; signature : bytes; keyEnvelope : bytes; rekeySignature : bytes; previousRekeyerId : option string;
  previousEnvelope : bytes;
}.
End Dropped.
Module SignedRecord.
Record t := { signature : option bytes; origin : option SignedOrigin.t; dropped : option Dropped.t }.
End SignedRecord.
Inductive CheckRefusal := check_bad_signature | check_unsupported.

(** An origin a row keeps, or the record itself: envelope, signer, signature. *)
Definition Origin : Type := bytes * option string * bytes.
Definition kept_by (stored : StoredRecord.t) : option Origin :=
  match StoredRecord.originEnvelope stored, StoredRecord.originSignature stored with
  | Some e, Some s => Some (e, StoredRecord.originSignerId stored, s)
  | _, _ => None
  end.
Definition itself (stored : StoredRecord.t) : option Origin :=
  match StoredRecord.envelope stored, StoredRecord.signature stored with
  | Some e, Some s => Some (e, StoredRecord.signerId stored, s)
  | _, _ => None
  end.
Definition named_in (origin : Origin) : option string := let '(_, signer, _) := origin in if missing signer then None else signer.
(** What a drop leaves as evidence: all of it, or nothing. *)
Definition dropped_of (stored : StoredRecord.t) : option Dropped.t :=
  '(e, s, g) ← kept_by stored; signer ← named_in (e, s, g);
  k ← StoredRecord.originKeyEnvelope stored; r ← StoredRecord.rekeySignature stored; previous ← StoredRecord.envelope stored;
  Some (Dropped.Build_t e signer g k r (StoredRecord.signerId stored) previous).

Section check_record.
Context `{NC : NodeCrypto}.
Context (stored : StoredRecord.t) (sent : RotatedRecordSignatures.t) (key : bytes) (rotator : string) (inScope group : bool).
Context (legacy : bytes → bytes → SignedStatement.t) (envelope : bytes) (rekeyed : RecordOrigin.t → bytes).

Definition legacy_form : option SignatureForm := RotatedRecordSignatures.signature sent ≫= λ s, signedForm key (legacy envelope s).
(** A legacy signature beside a re-key: re-sealed, or in the form the rotator's own origin is signed in. *)
Definition legacy_allowed (origin : Origin) (signer : string) : bool :=
  match legacy_form with
  | None | Some resealed_form => true
  | form =>
      negb group && (toLowerCase signer === toLowerCase rotator) &&
      let '(e, _, s) := origin in bool_decide (signedForm key (legacy e s) = form)
  end.
Definition check_rekey (rekey : RekeyInput.t) : CheckRefusal + SignedRecord.t :=
  match (match kept_by stored with Some o => Some o | None => itself stored end) with
  | None => inl check_unsupported
  | Some origin =>
      match named_in origin with
      | None => inl check_unsupported
      | Some signer =>
          let '(e, _, s) := origin in
          if negb (verifySignature key (rekeyed (RecordOrigin.Build_t e signer s (RekeyInput.originKeyEnvelope rekey))) (RekeyInput.signature rekey))
          then inl check_bad_signature
          else if negb (legacy_allowed origin signer) then inl check_unsupported
          else inr (SignedRecord.Build_t (RotatedRecordSignatures.signature sent)
            (Some (SignedOrigin.Build_t e signer s (RekeyInput.originKeyEnvelope rekey) (RekeyInput.signature rekey))) None)
      end
  end.
Definition named_writer : bool := bool_decide (is_Some (StoredRecord.signature stored)) && negb (missing (StoredRecord.signerId stored)).
Definition check_legacy (form : SignatureForm) : CheckRefusal + SignedRecord.t :=
  let kept := bool_decide (is_Some (kept_by stored)) in
  if kept && (negb (RotatedRecordSignatures.dropOrigin sent) || (form !== resealed_form)) then inl check_unsupported
  else if group && (form !== resealed_form) then inl check_unsupported
  else if group && negb kept && named_writer then inl check_unsupported
  else inr (SignedRecord.Build_t (RotatedRecordSignatures.signature sent) None (dropped_of stored)).
Definition checkRotatedRecord : CheckRefusal + SignedRecord.t :=
  if bool_decide (is_Some (RotatedRecordSignatures.signature sent)) && bool_decide (legacy_form = None) then inl check_bad_signature
  else if negb inScope then
    if bool_decide (is_Some (RotatedRecordSignatures.rekey sent)) then inl check_unsupported
    else match legacy_form with
      | None => inl check_bad_signature
      | Some _ => inr (SignedRecord.Build_t (RotatedRecordSignatures.signature sent) None None)
      end
  else match RotatedRecordSignatures.rekey sent with
  | Some rekey => if RotatedRecordSignatures.dropOrigin sent then inl check_unsupported else check_rekey rekey
  | None => match legacy_form with None => inl check_bad_signature | Some form => check_legacy form end
  end.
End check_record.

(** ** The bytes the clients sign *)

Definition server_form `{C : Crypto} (statement : RecordStatement) (envelope : bytes) : SignatureForm → bytes :=
  match statement with
  | MetadataRecord m => metadataStatement m envelope
  | VersionRecord_ v => versionStatement v envelope
  end.
Definition server_rekeyed `{C : Crypto} (statement : RecordStatement) (targetEpoch : Z) (envelope : bytes) : RecordOrigin.t → bytes :=
  match statement with
  | MetadataRecord m => metadataRekeyedStatement m targetEpoch envelope
  | VersionRecord_ v => versionRekeyedStatement v targetEpoch envelope
  end.
Definition server_signed `{C : Crypto} (statement : RecordStatement) (envelope signature : bytes) : SignedStatement.t :=
  match statement with
  | MetadataRecord m => metadataSigned m envelope signature
  | VersionRecord_ v => versionSigned v envelope signature
  end.
(** What the clients ask of a record's fields before they sign. *)
Definition fit (value : Z) : bool := is_safe_integer value && (1 <=? value).
Definition statement_fits (statement : RecordStatement) : bool :=
  match statement with
  | MetadataRecord m => negb (MetadataStatement.workspaceId m === "") && negb (MetadataStatement.nodeId m === "") && fit (MetadataStatement.metadataVersion m)
  | VersionRecord_ v => negb (VersionStatement.workspaceId v === "") && negb (VersionStatement.nodeId v === "") && negb (VersionStatement.versionId v === "") &&
      negb (VersionStatement.objectId v === "") && fit (VersionStatement.contentSuite v) && (VersionStatement.contentSuite v <=? 4294967295)
  end.
Definition origin_fits (keyEpoch : Z) (origin : RecordOrigin.t) : bool := fit keyEpoch && negb (RecordOrigin.signerId origin === "").

Lemma text_is value what s : text value what = Ok s ↔ negb (value === "") = true ∧ s = toLowerCase value.
Proof.
  unfold text. destruct value as [|c value]; [split; [done|by intros [? _]]|]. assert ((slen (String c value) =? 0) = false) as -> by (apply Z.eqb_neq; rewrite slen_cons; pose proof (slen_nonneg value); lia).
  cbn. split; [by intros [= <-]|by intros [_ ->]].
Qed.
Lemma count_is value what z : count value what = Ok z ↔ fit value = true ∧ z = value.
Proof.
  unfold count, fit. rewrite Z.leb_antisym. destruct (is_safe_integer value), (value <? 1); cbn; (split; [by intros [= <-]|by intros [? ->]]) || (split; [done|by intros [? _]]).
Qed.
Lemma suite_is value z : suite value = Ok z ↔ fit value && (value <=? 4294967295) = true ∧ z = value.
Proof.
  unfold suite. destruct (fit value) eqn:E; cbn.
  - rewrite (proj2 (count_is value "content suite" value) (conj E eq_refl)). cbn. rewrite Z.leb_antisym. destruct (4294967295 <? value); cbn; split; [done|by intros [? _]|by intros [= <-]|by intros [_ ->]].
  - destruct (count value "content suite") as [z'|] eqn:Ec; [apply count_is in Ec as [? _]; congruence|]. split; [done|by intros [? _]].
Qed.
Lemma bind_is {A B} (m : result A) (f : A → result B) b : (m ≫= f) = Ok b ↔ ∃ a, m = Ok a ∧ f a = Ok b.
Proof. split; [by intros (a & ? & ?)%bind_ok; eauto|by intros (a & -> & ?)]. Qed.
(** A field's test, read forwards and backwards. *)
Ltac fields_of H := repeat (let x := fresh "x" in let Hx := fresh "Hx" in apply bind_ok in H as (x & Hx & H);
  first [apply text_is in Hx as [? ->] | apply count_is in Hx as [? ->] | apply suite_is in Hx as [? ->]]).
Ltac fields_to := repeat (apply bind_is; eexists; split; [first [apply text_is | apply count_is | apply suite_is]; split; [eassumption|reflexivity]|]).
Lemma metadata_fields_is i l : metadata_fields i = Ok l ↔ statement_fits (MetadataRecord i) = true ∧ l = metadata_values i.
Proof.
  unfold metadata_fields. cbn [statement_fits]. rewrite !andb_true_iff. split.
  - intros H. fields_of H. injection H as <-. by split_and!.
  - intros [[[? ?] ?] ->]. by fields_to.
Qed.
Lemma version_fields_is i l : version_fields i = Ok l ↔ statement_fits (VersionRecord_ i) = true ∧ l = version_values i.
Proof.
  unfold version_fields. cbn [statement_fits]. rewrite <-(andb_assoc _ (fit _)). rewrite !(andb_true_iff (_ && _)), !(andb_true_iff (negb _)). split.
  - intros H. fields_of H. injection H as <-. by split_and!.
  - intros [[[[[? ?] ?] ?] ?] ->]. by fields_to.
Qed.
Lemma tail_is `{C : Crypto} k e o l : Signatures.rekeyedTail k e o = Ok l ↔ origin_fits k o = true ∧ l = rekeyedTail k e o.
Proof.
  unfold Signatures.rekeyedTail, origin_fits. rewrite andb_true_iff. split.
  - intros H. fields_of H. injection H as <-. by split_and!.
  - intros [[? ?] ->]. by fields_to.
Qed.
Lemma record_form_is `{C : Crypto} form statement envelope m :
  record_form form statement envelope = Ok m ↔ statement_fits statement = true ∧ m = server_form statement envelope form.
Proof.
  destruct statement as [i|i]; cbn [record_form server_form]; [unfold metadataStatementAs, metadataParts|unfold versionStatementAs, versionParts]; rewrite bind_is;
    setoid_rewrite metadata_fields_is || setoid_rewrite version_fields_is; split.
  1, 3: intros (l & [? ->] & [= <-]); split; [done|]; by destruct form.
  1, 2: intros [? ->]; eexists; split; [split; [done|reflexivity]|]; by destruct form.
Qed.
Lemma rekeyed_is `{C : Crypto} statement targetEpoch envelope origin m : rekeyed_statement statement targetEpoch envelope origin = Ok m ↔
  statement_fits statement && origin_fits targetEpoch origin = true ∧ m = server_rekeyed statement targetEpoch envelope origin.
Proof.
  rewrite andb_true_iff. destruct statement as [i|i]; cbn [rekeyed_statement server_rekeyed];
    [unfold Signatures.metadataRekeyedStatement|unfold Signatures.versionRekeyedStatement]; rewrite bind_is; split.
  1, 3: intros (l & Hl & H); apply bind_ok in H as (t & [Ht ->]%tail_is & [= <-]); (apply metadata_fields_is in Hl as [? ->] || apply version_fields_is in Hl as [? ->]); done.
  1, 2: intros [[Hs Ho] ->]; eexists; split; [(apply metadata_fields_is || apply version_fields_is); split; [done|reflexivity]|]; apply bind_is; eexists; (split; [apply tail_is; split; [done|reflexivity]|done]).
Qed.

(** Server and clients read a record alike. The clients build every
    statement the server builds, the same bytes, and refuse only one with an
    empty id or a number out of range; and where the two libraries verify
    Ed25519 alike, the form the server takes a signature in is the verdict a
    reader who trusts the key then gives it. *)
Theorem server_reads_alike `{C : Crypto} `{NC : NodeCrypto} statement envelope signature key
    (Halike : ∀ k m s, node_verify k m s = ed25519_verify s m k) :
  (∀ form m, record_form form statement envelope = Ok m ↔ statement_fits statement = true ∧ m = server_form statement envelope form) ∧
  (∀ epoch origin m, rekeyed_statement statement epoch envelope origin = Ok m ↔
    statement_fits statement && origin_fits epoch origin = true ∧ m = server_rekeyed statement epoch envelope origin) ∧
  (statement_fits statement = true →
    integrityOf (throwing (record_forms statement envelope)) (Some signature) (Some (TrustedSigner.Build_t key [] false)) =
    match signedForm key (server_signed statement envelope signature) with
    | Some ordinary => verified | Some saved => saved_from_link | Some resealed_form => resealed | None => bad_signature
    end).
Proof.
  split_and!; [intros *; apply record_form_is|intros *; apply rekeyed_is|]. intros Hf.
  assert (record_forms statement envelope = Ok (StatementForms.Build_t (server_form statement envelope ordinary) (server_form statement envelope saved)
    (server_form statement envelope resealed_form))) as ->.
  { pose proof (λ form, proj2 (record_form_is form statement envelope _) (conj Hf eq_refl)) as Hr.
    destruct statement; cbn [record_forms record_form] in *; unfold metadataStatements, versionStatements; by rewrite !Hr. }
  assert (∀ m, verifyStatement m signature key = verifySignature key m signature) as Hv by (intros m; unfold verifyStatement, verifySignature; rewrite Halike; destruct (slen signature =? _), (slen key =? _); done).
  cbn [throwing integrityOf TrustedSigner.current TrustedSigner.retired TrustedSigner.seen StatementForms.ordinary StatementForms.saved StatementForms.resealed existsb]. rewrite !Hv.
  destruct statement; unfold signedForm; cbn; by repeat case_match.
Qed.

(** ** A record's writer is kept *)

Lemma legacy_form_of `{NC : NodeCrypto} sent key legacy envelope s : RotatedRecordSignatures.signature sent = Some s →
  legacy_form sent key legacy envelope = signedForm key (legacy envelope s).
Proof. unfold legacy_form. by intros ->. Qed.
(** C2. What the server takes of a rotation where records are re-keyed: with a
    re-key, the origin stored is the one the row kept, or the row's own
    record, signed for as such by the re-keyer, and any legacy signature
    beside it claims no authorship but the rotator's own and in a group none;
    without one, a kept origin goes only when the rotation says so and the
    record is signed as re-sealed, and leaves its evidence, and in a group a
    record with a named writer's signature is never re-sealed. *)
Theorem checked_record_keeps_writer `{NC : NodeCrypto} stored sent key rotator group legacy envelope rekeyed signed :
  checkRotatedRecord stored sent key rotator true group legacy envelope rekeyed = inr signed →
  match SignedRecord.origin signed with
  | Some o =>
      match kept_by stored with Some kept => Some kept | None => itself stored end = Some (SignedOrigin.envelope o, Some (SignedOrigin.signerId o), SignedOrigin.signature o) ∧
      verifySignature key (rekeyed (RecordOrigin.Build_t (SignedOrigin.envelope o) (SignedOrigin.signerId o) (SignedOrigin.signature o) (SignedOrigin.keyEnvelope o)))
        (SignedOrigin.rekeySignature o) = true ∧
      (∀ s, SignedRecord.signature signed = Some s → signedForm key (legacy envelope s) = Some resealed_form ∨
        group = false ∧ toLowerCase (SignedOrigin.signerId o) = toLowerCase rotator ∧
        signedForm key (legacy (SignedOrigin.envelope o) (SignedOrigin.signature o)) = signedForm key (legacy envelope s))
  | None => ∃ s form, SignedRecord.signature signed = Some s ∧ signedForm key (legacy envelope s) = Some form ∧
      (is_Some (kept_by stored) → form = resealed_form ∧ RotatedRecordSignatures.dropOrigin sent = true) ∧
      SignedRecord.dropped signed = dropped_of stored ∧
      (group = true → form = resealed_form ∧ (kept_by stored = None → named_writer stored = false))
  end.
Proof.
  intros H. unfold checkRotatedRecord in H. destruct (_ && _) eqn:Eb; [done|]. cbn [negb] in H. destruct (RotatedRecordSignatures.rekey sent) as [rekey|].
  - destruct (RotatedRecordSignatures.dropOrigin sent); [done|]. unfold check_rekey in H. destruct (match kept_by stored with Some _ => _ | None => _ end) as [[[e signer] s]|] eqn:Eo; [|done].
    destruct (named_in (e, signer, s)) as [name|] eqn:En; [|done]. destruct (negb (verifySignature _ _ _)) eqn:Ev; [done|]. destruct (negb (legacy_allowed _ _ _ _ _ _ _ _)) eqn:El; [done|].
    injection H as <-. cbn. apply negb_false_iff in Ev, El. assert (signer = Some name) as -> by (cbn in En; by destruct (missing signer)). split_and!; [done|done|].
    intros sg Esg. unfold legacy_allowed in El. rewrite (legacy_form_of _ _ _ _ _ Esg) in El. unfold legacy_form in Eb. rewrite Esg in Eb. cbn in Eb.
    destruct (signedForm key (legacy envelope sg)) as [form|] eqn:Ef; [|done]. destruct form; [right|right|by left]; apply andb_true_iff in El as [[Eg Er]%andb_true_iff Es]; apply negb_true_iff in Eg; apply bool_decide_eq_true in Er, Es; by split_and!.
  - destruct (legacy_form sent key legacy envelope) as [form|] eqn:Ef; [|done]. unfold check_legacy in H. destruct (bool_decide (is_Some (kept_by stored)) && _) eqn:E1; [done|].
    destruct (group && (form !== resealed_form)) eqn:E2; [done|]. destruct (group && _ && named_writer stored) eqn:E3; [done|]. injection H as <-. cbn.
    unfold legacy_form in Ef. destruct (RotatedRecordSignatures.signature sent) as [s|]; [|done]. exists s, form. split_and!; [done|done| |done|].
    + intros Hk. rewrite (bool_decide_eq_true_2 _ Hk) in E1. cbn in E1. apply orb_false_iff in E1 as [E1 E1']. apply negb_false_iff in E1, E1'. by apply bool_decide_eq_true in E1'.
    + intros ->. cbn in E2, E3. apply negb_false_iff, bool_decide_eq_true in E2. split; [done|]. intros Hk. rewrite Hk in E3. by cbn in E3.
Qed.

(** ** What a family's rotation sends *)

(** A family folder's rotation judges no record ([rekeyOnly]). *)
Definition rekeyOnly : RecordJudge := λ _, Ok None.
Definition signerOf (id : option string) : option string := if missing id then None else id.
(** A record's origin as the server serves it ([rekeyView] of drive/server.ts). *)
Definition rekeyView (stored : StoredRecord.t) : option ServedRekey.t :=
  match StoredRecord.originEnvelope stored, StoredRecord.originKeyEnvelope stored, StoredRecord.originSignature stored, StoredRecord.rekeySignature stored with
  | Some e, Some k, Some s, Some r => Some (ServedRekey.Build_t (encode e) (signerOf (StoredRecord.originSignerId stored)) (encode s) (encode k) (encode r))
  | _, _, _, _ => None
  end.
(** What [rotateNodeIn] writes of a checked record. *)
Definition stored_after (userId : string) (envelope : bytes) (signed : SignedRecord.t) : StoredRecord.t :=
  let o := SignedRecord.origin signed in
  StoredRecord.Build_t (Some envelope) (Some userId) (SignedRecord.signature signed) (SignedOrigin.envelope <$> o) (SignedOrigin.signerId <$> o)
    (SignedOrigin.signature <$> o) (SignedOrigin.keyEnvelope <$> o) (SignedOrigin.rekeySignature <$> o).
(** The record as its rotation has it from the server, and as its result goes back. *)
Record served_as (stored : StoredRecord.t) (input : ResealInput.t) : Prop := {
  se_envelope : StoredRecord.envelope stored = Some (ResealInput.envelope input); se_signer : ResealInput.signer input = signerOf (StoredRecord.signerId stored);
  se_signature : ResealInput.signature input = encode <$> StoredRecord.signature stored; se_rekey : ResealInput.rekey input = rekeyView stored;
}.
Record carried (out : RotatedRecord.t) (sent : RotatedRecordSignatures.t) : Prop := {
  ca_signature : RotatedRecord.signature out = encode <$> RotatedRecordSignatures.signature sent;
  ca_rekey : RotatedRecord.rekey out = (λ r, RekeyOut.Build_t (encode (RekeyInput.originKeyEnvelope r)) (encode (RekeyInput.signature r))) <$> RotatedRecordSignatures.rekey sent;
  ca_drop : RotatedRecord.dropOrigin out = RotatedRecordSignatures.dropOrigin sent;
}.
(** A row keeps an origin whole, as [stored_after] writes it, and no signature is empty. *)
Record whole (stored : StoredRecord.t) : Prop := {
  wh_origin : is_Some (kept_by stored) → is_Some (rekeyView stored); wh_signature : StoredRecord.signature stored ≠ Some "";
}.
(** What a signer's key verifies: every signature made with its secret key
    over the message signed; and the one over [statement] as re-sealed in
    neither of the other two forms, which are other bytes (Ed25519's
    unforgeability, where the server would read a newly written record). *)
Record verifies_own `{C : Crypto} `{SG : Signing} `{NC : NodeCrypto} (key secret : bytes) (statement : RecordStatement) (envelope : bytes) : Prop := {
  sa_own : ∀ m, verifySignature key m (crypto_sign_detached m secret) = true;
  sa_apart : ∀ form, form ≠ resealed_form →
    verifySignature key (server_form statement envelope form) (crypto_sign_detached (server_form statement envelope resealed_form) secret) = false;
}.

Lemma decode_encoded b n x : decode (encode b) n = Ok x → x = b.
Proof. intros (E & _)%decode_ok. by apply encode_inj. Qed.
Lemma served_kept stored : is_Some (rekeyView stored) → is_Some (kept_by stored).
Proof. unfold rekeyView, kept_by. destruct (StoredRecord.originEnvelope stored), (StoredRecord.originKeyEnvelope stored), (StoredRecord.originSignature stored); intros [? H]; done || by eexists. Qed.
Lemma stored_after_whole userId envelope signed : SignedRecord.signature signed ≠ Some "" → whole (stored_after userId envelope signed).
Proof. intros Hs. split; [|done]. unfold kept_by, rekeyView. cbn. destruct (SignedRecord.origin signed); cbn; [by eexists|by intros []]. Qed.

Lemma carried_unique out sent sent' : carried out sent → carried out sent' → sent = sent'.
Proof.
  intros [Hs Hr Hd] [Hs' Hr' Hd']. destruct sent as [s r d], sent' as [s' r' d']. cbn in *. rewrite Hs in Hs'. rewrite Hr in Hr'. f_equal; [| |congruence].
  - destruct s, s'; try done. injection Hs' as E%encode_inj. by subst.
  - destruct r as [[]|], r' as [[]|]; try done. injection Hr' as E1%encode_inj E2%encode_inj. by subst.
Qed.
Lemma signed_form_length `{NC : NodeCrypto} key signed form : signedForm key signed = Some form → slen (SignedStatement.signature signed) = SIGNATURE_BYTES.
Proof.
  unfold signedForm. generalize FORMS. induction (SignedStatement.messages signed) as [|m l IH]; intros [|f fs]; cbn; try done. destruct (verifySignature _ _ _) eqn:E; [|by apply IH]. intros _. unfold verifySignature in E. bool_simpl. lia.
Qed.
(** What is taken is stored whole: a legacy signature has its length. *)
Lemma checked_signature `{C : Crypto} `{NC : NodeCrypto} stored sent key rotator inScope group statement envelope rekeyed signed :
  checkRotatedRecord stored sent key rotator inScope group (server_signed statement) envelope rekeyed = inr signed → SignedRecord.signature signed ≠ Some "".
Proof.
  intros H. assert (SignedRecord.signature signed = RotatedRecordSignatures.signature sent ∧ (is_Some (RotatedRecordSignatures.signature sent) → is_Some (legacy_form sent key (server_signed statement) envelope))) as [-> Hl].
  { unfold checkRotatedRecord, check_rekey, check_legacy in H. destruct (legacy_form sent key _ envelope) eqn:El; [split; [|by eexists]|destruct (RotatedRecordSignatures.signature sent) eqn:Es; [done|split; [|by intros []]]]. all: repeat case_match; simplify_eq; done. }
  intros E. rewrite E in Hl. destruct (Hl ltac:(eauto)) as [form Hf]. unfold legacy_form in Hf. rewrite E in Hf. cbn in Hf. apply signed_form_length in Hf. by destruct statement.
Qed.

Section lands.
Context `{C : Crypto} `{SG : Signing} `{NC : NodeCrypto}.
Context (random random' : bytes) (input : ResealInput.t) (stored : StoredRecord.t) (key : bytes) (rotator : string) (signer : RotationSigner.t).
Hypothesis Hsigner : ResealInput.by_ input = Ok signer.
Context (next : bytes).
Hypothesis Hkey : verifies_own key (RotationSigner.signingKey signer) (ResealInput.statement input) next.
Hypothesis Hserved : served_as stored input.
Hypothesis Hwhole : whole stored.
Abbreviation check sent envelope :=
  (checkRotatedRecord stored sent key rotator true true (server_signed (ResealInput.statement input)) envelope
    (server_rekeyed (ResealInput.statement input) (ResealInput.targetEpoch input) envelope)).

(** The origin the client keeps is the one the server has, under the wrap it draws. *)
Lemma kept_origin_stored o : kept_origin random' input = Ok (inl o) →
  match kept_by stored with Some kept => Some kept | None => itself stored end = Some (RecordOrigin.envelope o, Some (RecordOrigin.signerId o), RecordOrigin.signature o) ∧
  missing (Some (RecordOrigin.signerId o)) = false ∧
  ∀ r, ServedRekey.Build_t (encode (RecordOrigin.envelope o)) (Some (RecordOrigin.signerId o)) (encode (RecordOrigin.signature o)) (RekeyOut.originKeyEnvelope r) (RekeyOut.signature r) =
    served_after input r.
Proof.
  destruct Hserved as [Ee Es Eg Er], Hwhole as [Hw _]. unfold kept_origin, served_after. rewrite Er, Es, Eg. unfold rekeyView, kept_by, signerOf in *.
  destruct (StoredRecord.originEnvelope stored) as [e|], (StoredRecord.originKeyEnvelope stored) as [k|], (StoredRecord.originSignature stored) as [s|], (StoredRecord.rekeySignature stored) as [r|].
  all: try (by destruct Hw as [? [=]]; eexists).
  1: { destruct (missing (StoredRecord.originSignerId stored)) eqn:Em; [done|]. cbn [ServedRekey.signerId ServedRekey.originSignature ServedRekey.envelope].
    destruct (StoredRecord.originSignerId stored) as [id|]; [|done]. destruct (_ || _) eqn:E1; [done|]. intros H. apply bind_ok in H as (c & Hc & H). apply bind_ok in H as (wrapped & _ & H). destruct wrapped as [kw|]; [|done]. injection H as <-.
    unfold carried_record in Hc. cbn [ServedRekey.signerId ServedRekey.originSignature ServedRekey.envelope ServedRekey.keyEnvelope ServedRekey.signature] in Hc.
    apply bind_ok in Hc as (e' & ->%decode_encoded & Hc). apply bind_ok in Hc as (s' & ->%decode_encoded & Hc). apply bind_ok in Hc as (k' & _ & Hc). apply bind_ok in Hc as (r' & _ & [= <-]). by cbn. }
  all: unfold itself; rewrite Ee; destruct (missing (StoredRecord.signerId stored)) eqn:Em; [done|]; destruct (StoredRecord.signerId stored) as [id|]; [|done];
    destruct (StoredRecord.signature stored) as [g|]; [|done]; cbn [fmap option_fmap option_map]; destruct (_ || _); [done|]; intros H;
    apply bind_ok in H as (opening & _ & H); apply bind_ok in H as (g' & ->%decode_encoded & H); apply bind_ok in H as (kw & _ & [= <-]); by cbn.
Qed.
(** A record kept re-keyed. *)
Lemma rekey_lands o message : kept_origin random' input = Ok (inl o) →
  rekeyed_statement (ResealInput.statement input) (ResealInput.targetEpoch input) next o = Ok message →
  let s := crypto_sign_detached message (RotationSigner.signingKey signer) in
  let sent := RotatedRecordSignatures.Build_t None (Some (RekeyInput.Build_t (RecordOrigin.keyEnvelope o) s)) false in
  ∃ signed, check sent next = inr signed ∧
    rekeyView (stored_after rotator next signed) = Some (served_after input (RekeyOut.Build_t (encode (RecordOrigin.keyEnvelope o)) (encode s))).
Proof.
  intros Ho [_ ->]%rekeyed_is. destruct (kept_origin_stored o Ho) as (Hk & Hm & Hv). cbv zeta. unfold checkRotatedRecord. cbn [RotatedRecordSignatures.signature RotatedRecordSignatures.rekey RotatedRecordSignatures.dropOrigin negb andb].
  unfold check_rekey. rewrite Hk. cbn [named_in]. rewrite Hm. destruct o as [e id s k]. cbn [RecordOrigin.envelope RecordOrigin.signerId RecordOrigin.signature RecordOrigin.keyEnvelope RekeyInput.originKeyEnvelope RekeyInput.signature] in *.
  rewrite (sa_own _ _ _ _ Hkey). cbn. eexists. split; [done|]. rewrite <-Hv. unfold rekeyView, signerOf. cbn. cbn in Hm. by rewrite Hm.
Qed.
(** One that keeps no origin, signed as re-sealed. *)
Lemma reseal_lands message drop : kept_origin random' input = Ok (inr drop) → record_form resealed_form (ResealInput.statement input) next = Ok message →
  let sent := RotatedRecordSignatures.Build_t (Some (crypto_sign_detached message (RotationSigner.signingKey signer))) None drop in
  ∃ signed, check sent next = inr signed ∧ rekeyView (stored_after rotator next signed) = None.
Proof.
  intros Ho [Hf ->]%record_form_is. cbv zeta. set (s := crypto_sign_detached _ _). pose proof (sa_own _ _ _ _ Hkey (server_form (ResealInput.statement input) next resealed_form)) as Hv. fold s in Hv.
  assert (signedForm key (server_signed (ResealInput.statement input) next s) = Some resealed_form) as Es.
  { pose proof (sa_apart _ _ _ _ Hkey ordinary ltac:(done)) as H1. pose proof (sa_apart _ _ _ _ Hkey saved ltac:(done)) as H2. fold s in H1, H2.
    unfold signedForm. destruct (ResealInput.statement input) as [i|i]; cbn in *; by rewrite H1, H2, Hv. }
  pose proof (kept_origin_none random' input drop Ho) as [Hwhy ->]. destruct Hserved as [Ee Esg Eg Er], Hwhole as [Hw Hs].
  unfold checkRotatedRecord, legacy_form. cbn [RotatedRecordSignatures.signature RotatedRecordSignatures.rekey RotatedRecordSignatures.dropOrigin negb mbind option_bind]. rewrite Es. cbn.
  unfold check_legacy. assert (bool_decide (is_Some (ResealInput.rekey input)) = bool_decide (is_Some (kept_by stored))) as ->.
  { rewrite Er. apply bool_decide_ext. split; [apply served_kept|exact Hw]. }
  cbn. destruct (bool_decide (is_Some (kept_by stored))) eqn:Ek; cbn; [by eexists|]. assert (named_writer stored = false) as ->; [|by eexists].
  unfold nothing_kept in Hwhy. apply bool_decide_eq_false in Ek. assert (rekeyView stored = None) as Ev by (destruct (rekeyView stored) eqn:E; [|done]; destruct Ek; apply served_kept; rewrite E; eauto).
  rewrite Er, Ev, Esg, Eg in Hwhy. unfold named_writer, signerOf in *. destruct (missing (StoredRecord.signerId stored)) eqn:Em; cbn in *; [apply andb_false_r|]. rewrite Em in Hwhy. cbn in Hwhy.
  destruct (StoredRecord.signature stored) as [g|]; [|done]. cbn in Hwhy. apply bool_decide_eq_true, encode_empty in Hwhy. congruence.
Qed.
(** Either way, as one. *)
Lemma record_taken out : rekeyRecord random random' rekeyOnly input = Ok out → RotatedRecord.envelope out = next →
  ∃ sent signed, carried out sent ∧ check sent next = inr signed ∧ rekeyView (stored_after rotator next signed) = served_after input <$> RotatedRecord.rekey out.
Proof.
  intros H. unfold rekeyRecord in H. apply bind_ok in H as (next' & _ & H). apply bind_ok in H as (kept & Hk & H). destruct kept as [o|drop].
  - apply bind_ok in H as (message & Hm & H). cbn in H. apply bind_ok in H as (rs & Hrs & [= <-]). cbn [RotatedRecord.envelope]; intros ->. destruct (sign_ok _ _ _ Hrs) as (signer' & Hby' & _ & ->). assert (signer' = signer) as -> by congruence.
    destruct (rekey_lands o message Hk Hm) as (signed & Hc & Hv). do 2 eexists. split; [|split; [exact Hc|exact Hv]]. by split.
  - apply bind_ok in H as (s & Hl & [= <-]). cbn [RotatedRecord.envelope]; intros ->. unfold legacyOver in Hl. apply bind_ok in Hl as (message & Hm & Hl). destruct (sign_ok _ _ _ Hl) as (signer' & Hby' & _ & ->). assert (signer' = signer) as -> by congruence.
    destruct (reseal_lands message drop Hk Hm) as (signed & Hc & Hv). do 2 eexists. split; [|split; [exact Hc|exact Hv]]. by split.
Qed.
End lands.

(** C1. Whatever a family's rotation makes of a record, the server takes: sent
    as it is, it is checked and stored, and served again it is the record the
    clients' half ([served_after]) is proved to keep every reader's mind with. *)
Theorem family_record_lands `{C : Crypto} `{SG : Signing} `{NC : NodeCrypto} random random' input stored key rotator signer out :
  ResealInput.by_ input = Ok signer → verifies_own key (RotationSigner.signingKey signer) (ResealInput.statement input) (RotatedRecord.envelope out) →
  served_as stored input → whole stored → rekeyRecord random random' rekeyOnly input = Ok out →
  ∃ sent signed, carried out sent ∧
    checkRotatedRecord stored sent key rotator true (rekeyedFor owner_group) (server_signed (ResealInput.statement input)) (RotatedRecord.envelope out)
      (server_rekeyed (ResealInput.statement input) (ResealInput.targetEpoch input) (RotatedRecord.envelope out)) = inr signed ∧
    rekeyView (stored_after rotator (RotatedRecord.envelope out) signed) = served_after input <$> RotatedRecord.rekey out.
Proof. intros Hby Hkey Hs Hw H. exact (record_taken random random' input stored key rotator signer Hby _ Hkey Hs Hw out H eq_refl). Qed.

(** The metadata of [RotationWitness], stored and re-keyed. *)
Module LandToy.
#[local] Instance node_crypto : NodeCrypto := {| node_verify k m s := ed25519_verify (Crypto := Toy.crypto) s m k |}.
Definition key : bytes := fill 32 "s".
Definition signer : RotationSigner.t := RotationSigner.Build_t RecordWitness.signer (fill 64 "s").
Definition statement : RecordStatement := MetadataRecord (MetadataStatement.Build_t RotationWitness.ws RotationWitness.node_id Folder 7).
Definition input : ResealInput.t := ResealInput.Build_t statement RotationWitness.metadata_aad RotationWitness.metadata (Some RecordWitness.signer) (Some (encode "signed")) None 2 3
  RotationWitness.old RotationWitness.fresh RotationWitness.by_.
Definition stored : StoredRecord.t := StoredRecord.Build_t (Some RotationWitness.metadata) (Some RecordWitness.signer) (Some "signed") None None None None None.
Definition result_ := rekeyRecord (C := Toy.crypto) (SG := RotationWitness.signing) (RotationWitness.draw 1) (RotationWitness.draw 2) rekeyOnly input.
Definition out : RotatedRecord.t := match result_ with Ok out => out | Err _ => RotatedRecord.Build_t "" None None false end.
Definition decoded (s : string) : bytes := RotationWitness.ok (decode s None).
Definition sent : RotatedRecordSignatures.t := RotatedRecordSignatures.Build_t None
  ((λ r, RekeyInput.Build_t (decoded (RekeyOut.originKeyEnvelope r)) (decoded (RekeyOut.signature r))) <$> RotatedRecord.rekey out) false.
Definition checked := checkRotatedRecord (NC := node_crypto) stored sent key RecordWitness.signer true true (server_signed (C := Toy.crypto) statement) (RotatedRecord.envelope out)
  (server_rekeyed (C := Toy.crypto) statement 3 (RotatedRecord.envelope out)).
End LandToy.
Lemma server_reads_alike_witness :
  signedForm (NC := LandToy.node_crypto) RecordWitness.pk (server_signed (C := Toy.crypto) LandToy.statement "sealed" (RecordWitness.signature StatementForms.saved RecordWitness.pk "sealed")) = Some saved ∧
  integrityOf (C := Toy.crypto) (throwing (record_forms (C := Toy.crypto) LandToy.statement "sealed")) (Some (RecordWitness.signature StatementForms.saved RecordWitness.pk "sealed"))
    (Some (TrustedSigner.Build_t RecordWitness.pk [] false)) = saved_from_link.
Proof.
  assert (signedForm (NC := LandToy.node_crypto) RecordWitness.pk (server_signed (C := Toy.crypto) LandToy.statement "sealed" (RecordWitness.signature StatementForms.saved RecordWitness.pk "sealed")) = Some saved) as E by (vm_compute; reflexivity).
  split; [exact E|]. destruct (server_reads_alike (C := Toy.crypto) (NC := LandToy.node_crypto) LandToy.statement "sealed" (RecordWitness.signature StatementForms.saved RecordWitness.pk "sealed") RecordWitness.pk) as (_ & _ & H); [by intros|].
  rewrite E in H. apply H. vm_compute. reflexivity.
Defined.
Lemma checked_record_keeps_writer_witness : ∃ signed o, LandToy.checked = inr signed ∧ SignedRecord.origin signed = Some o ∧
  itself LandToy.stored = Some (SignedOrigin.envelope o, Some (SignedOrigin.signerId o), SignedOrigin.signature o).
Proof.
  destruct LandToy.checked as [|signed] eqn:E; [by vm_compute in E|]. pose proof (checked_record_keeps_writer (NC := LandToy.node_crypto) _ _ _ _ _ _ _ _ _ E) as H.
  destruct (SignedRecord.origin signed) as [o|] eqn:Eo; [|exfalso; vm_compute in E; injection E as <-; discriminate Eo]. exists signed, o. split_and!; [done|done|]. exact (proj1 H).
Defined.
Lemma family_record_lands_witness : is_Some (RotatedRecord.rekey LandToy.out) ∧
  ∃ sent signed, carried LandToy.out sent ∧
    checkRotatedRecord (NC := LandToy.node_crypto) LandToy.stored sent LandToy.key RecordWitness.signer true (rekeyedFor owner_group) (server_signed (C := Toy.crypto) LandToy.statement) (RotatedRecord.envelope LandToy.out)
      (server_rekeyed (C := Toy.crypto) LandToy.statement 3 (RotatedRecord.envelope LandToy.out)) = inr signed ∧
    rekeyView (stored_after RecordWitness.signer (RotatedRecord.envelope LandToy.out) signed) = served_after LandToy.input <$> RotatedRecord.rekey LandToy.out.
Proof.
  split; [vm_compute; eauto|].
  apply (family_record_lands (C := Toy.crypto) (SG := RotationWitness.signing) (NC := LandToy.node_crypto) (RotationWitness.draw 1) (RotationWitness.draw 2) LandToy.input LandToy.stored LandToy.key RecordWitness.signer LandToy.signer).
  - reflexivity.
  - split; [|intros []; done || (intros _; vm_compute; reflexivity)]. intros m. unfold verifySignature. pose proof (crypto_sign_length (SG := RotationWitness.signing) (SigningLaws := RotationWitness.signing_laws) m (RotationSigner.signingKey LandToy.signer)) as Hl. rewrite Hl. cbn. by apply bool_decide_eq_true.
  - by split.
  - split; [by intros []|done].
  - vm_compute. reflexivity.
Defined.
