(* ===== verification/Roster.v ===== *)
(** * Group rosters and key successions (packages/crypto/src/groups.ts)

    The group key and its signatures, the roster statement in its two formats
    and the group key succession, as values a caller hands in or the parser
    reads out ([Raw], fields of any type) and as the checked values everything
    else works on. *)

From S2P Require Import Prelude Base64url Bytes Canonical HChaCha Crypto.

Definition GROUP_SIGNATURE_CONTEXT : string := "hushos/group/v1".

Module GroupPublicKey.
Record t := { ed25519PublicKey : string; mlDsaPublicKey : string }.
End GroupPublicKey.
Module GroupSignature.
Record t := { ed25519 : bytes; mlDsa : bytes }.
End GroupSignature.

#[export] Instance GroupPublicKey_eq_dec : EqDecision GroupPublicKey.t.
Proof. solve_decision. Defined.

Inductive GroupKind : Type := family | org.
Inductive GroupRole : Type := billing | data_admin | guardian | members_role | recovery.
Inductive MemberStatus : Type := active | left_.
Inductive RosterFormat : Type := format1 | format2.

#[export] Instance GroupKind_eq_dec : EqDecision GroupKind.
Proof. solve_decision. Defined.
#[export] Instance GroupRole_eq_dec : EqDecision GroupRole.
Proof. solve_decision. Defined.
#[export] Instance MemberStatus_eq_dec : EqDecision MemberStatus.
Proof. solve_decision. Defined.
#[export] Instance RosterFormat_eq_dec : EqDecision RosterFormat.
Proof. solve_decision. Defined.

Definition kind_text (k : GroupKind) : string := match k with family => "family" | org => "org" end.
Definition role_text (r : GroupRole) : string :=
  match r with
  | billing => "billing" | data_admin => "data_admin" | guardian => "guardian"
  | members_role => "members" | recovery => "recovery"
  end.
Definition status_text (s : MemberStatus) : string := match s with active => "active" | left_ => "left" end.
Definition format_number (f : RosterFormat) : Z := match f with format1 => 1 | format2 => 2 end.

(** The allowed words, with the constructor each stands for. *)
Definition named {A} (text : A → string) (l : list A) : list (string * A) := map (λ a, (text a, a)) l.
Definition GROUP_KINDS : list (string * GroupKind) := named kind_text [family; org].
Definition STATUSES : list (string * MemberStatus) := named status_text [active; left_].
Definition FAMILY_ROLES : list (string * GroupRole) := named role_text [billing; guardian; members_role].
Definition ORG_ROLES : list (string * GroupRole) :=
  named role_text [billing; data_admin; guardian; members_role; recovery].

#[global] Arguments GROUP_KINDS : simpl never.
#[global] Arguments STATUSES : simpl never.
#[global] Arguments FAMILY_ROLES : simpl never.
#[global] Arguments ORG_ROLES : simpl never.

Definition MAX_ROSTER_AREA_ROWS : Z := 1024.
Definition MAX_FAMILY_AREAS : Z := 1024.
Definition MAX_ROSTER_MEMBERS : Z := 10000.
Definition ROSTER_DOMAIN : string := "hushos/group/roster".
Definition KEY_ROW : string := "key".
Definition RETIRED_ROW : string := "retired".

Definition llen {A} (l : list A) : Z := Z.of_nat (length l).

(** ** Checked rosters *)

Module Member.
Record t := {
  userId : string; keyVersion : Z; encryptionPublicKey : string; signingPublicKey : string;
  mlDsaPublicKeyDigest : string; kemPublicKeyDigest : string; status : MemberStatus;
  roles : list GroupRole; sinceVersion : Z;
}.
End Member.
Module Area.
Record t := {
  workspaceId : string; workspaceKeyVersion : Z; commitment : string;
  rootCommitment : option string; retired : bool;
}.
End Area.
Module Roster.
Record t := {
  groupId : string; kind : GroupKind; rosterVersion : Z; previousRosterDigest : string;
  groupKeyVersion : Z; signerUserId : string; members : list Member.t; areas : list Area.t;
  format : RosterFormat;
}.
End Roster.

#[export] Instance Member_eq_dec : EqDecision Member.t.
Proof. solve_decision. Defined.
#[export] Instance Area_eq_dec : EqDecision Area.t.
Proof. solve_decision. Defined.
#[export] Instance Roster_eq_dec : EqDecision Roster.t.
Proof. solve_decision. Defined.

(** ** Rosters before any check

    [None] is [undefined]; [areas] is the list, or nothing when absent. *)

Module RawMember.
Record t := {
  userId : jsval; keyVersion : jsval; encryptionPublicKey : jsval; signingPublicKey : jsval;
  mlDsaPublicKeyDigest : jsval; kemPublicKeyDigest : jsval; status : jsval; roles : jsval; sinceVersion : jsval;
}.
End RawMember.
Module RawArea.
Record t := {
  workspaceId : jsval; workspaceKeyVersion : jsval; commitment : jsval;
  rootCommitment : option jsval; retired : option bool;
}.
End RawArea.
Module RawRoster.
Record t := {
  groupId : jsval; kind : jsval; rosterVersion : jsval; previousRosterDigest : jsval;
  groupKeyVersion : jsval; signerUserId : jsval; members : list RawMember.t;
  areas : option (list RawArea.t); format : option Z;
}.
End RawRoster.

Definition rosterFormat (format : option Z) : result RosterFormat :=
  match format with
  | None => Ok format1
  | Some n => if n =? 1 then Ok format1 else if n =? 2 then Ok format2 else Err "Invalid roster format."
  end.

Definition check_area (format : RosterFormat) (area : RawArea.t) : result Area.t :=
  let bad := "Invalid roster area." in
  let* workspaceId := uuid (RawArea.workspaceId area) "workspace id" in
  let* version := integer (RawArea.workspaceKeyVersion area) "workspace key version" in
  match format with
  | format1 =>
      match RawArea.rootCommitment area, RawArea.retired area with
      | None, None =>
          let* commitment := digestOf (RawArea.commitment area) "area key commitment" in
          Ok (Area.Build_t workspaceId version commitment None false)
      | _, _ => Err bad
      end
  | format2 =>
      match RawArea.retired area with
      | Some retired =>
          refuse bad when negb retired || (RawArea.commitment area !== JStr "") ||
            match RawArea.rootCommitment area with Some _ => true | None => false end ;;
          Ok (Area.Build_t workspaceId version "" None true)
      | None =>
          let* commitment := digestOf (RawArea.commitment area) "area key commitment" in
          let* root := digestOf (default JOther (RawArea.rootCommitment area)) "area root commitment" in
          Ok (Area.Build_t workspaceId version commitment (Some root) false)
      end
  end.

(** The row of a checked area. *)
Definition area_row (format : RosterFormat) (area : Area.t) : jsval :=
  let head := [JStr (Area.workspaceId area); JInt (Area.workspaceKeyVersion area)] in
  JArr match format, Area.retired area with
  | format1, _ => head ++ [JStr (Area.commitment area)]
  | format2, true => head ++ [JStr RETIRED_ROW]
  | format2, false =>
      head ++ [JStr KEY_ROW; JStr (Area.commitment area); JStr (default "" (Area.rootCommitment area))]
  end.

Definition areaParts (areas : option (list RawArea.t)) (format : RosterFormat) : result (list Area.t) :=
  let list := default [] areas in
  refuse "Invalid roster areas." when MAX_ROSTER_AREA_ROWS <? llen list ;;
  let* rows := mapM (check_area format) list in
  let* _ := ascending (map Area.workspaceId rows) "roster areas" in
  Ok rows.

Definition memberParts (member : RawMember.t) (kind : GroupKind) (rosterVersion : Z) : result Member.t :=
  match RawMember.roles member with
  | JArr roles =>
      let* roles := mapM (λ role, oneOf role
        match kind with family => FAMILY_ROLES | org => ORG_ROLES end "roster role") roles in
      let* _ := ascending (map role_text roles) "roster roles" in
      let* since := integer (RawMember.sinceVersion member) "roster entry version" in
      refuse "Invalid roster entry version." when rosterVersion <? since ;;
      let* userId := uuid (RawMember.userId member) "user id" in
      let* keyVersion := integer (RawMember.keyVersion member) "key version" in
      let* enc := bytesOf (RawMember.encryptionPublicKey member) 32 "identity key" in
      let* sig := bytesOf (RawMember.signingPublicKey member) 32 "identity key" in
      let* mlDsa := digestOf (RawMember.mlDsaPublicKeyDigest member) "key digest" in
      let* kem := digestOf (RawMember.kemPublicKeyDigest member) "key digest" in
      let* status := oneOf (RawMember.status member) STATUSES "member status" in
      Ok (Member.Build_t userId keyVersion enc sig mlDsa kem status roles since)
  | _ => Err "Invalid roster entry."
  end.

Definition member_row (m : Member.t) : jsval :=
  JArr [JStr (Member.userId m); JInt (Member.keyVersion m); JStr (Member.encryptionPublicKey m);
    JStr (Member.signingPublicKey m); JStr (Member.mlDsaPublicKeyDigest m); JStr (Member.kemPublicKeyDigest m);
    JStr (status_text (Member.status m)); JArr (map (λ r, JStr (role_text r)) (Member.roles m));
    JInt (Member.sinceVersion m)].

(** The checks of [rosterStatement], in its order. *)
Definition check_roster (roster : RawRoster.t) : result Roster.t :=
  let* format := rosterFormat (RawRoster.format roster) in
  let* kind := oneOf (RawRoster.kind roster) GROUP_KINDS "group kind" in
  let* version := integer (RawRoster.rosterVersion roster) "roster version" in
  refuse "Invalid roster digest." when (version =? 1) && (RawRoster.previousRosterDigest roster !== JStr "") ;;
  let* previous := if version =? 1 then Ok "" else digestOf (RawRoster.previousRosterDigest roster) "roster digest" in
  refuse "Invalid roster members." when
    (llen (RawRoster.members roster) =? 0) || (MAX_ROSTER_MEMBERS <? llen (RawRoster.members roster)) ;;
  let* members := mapM (λ member, memberParts member kind version) (RawRoster.members roster) in
  let* _ := ascending (map Member.userId members) "roster members" in
  let* groupId := uuid (RawRoster.groupId roster) "group id" in
  let* groupKeyVersion := integer (RawRoster.groupKeyVersion roster) "group key version" in
  let* signerUserId := uuid (RawRoster.signerUserId roster) "user id" in
  let* areas := areaParts (RawRoster.areas roster) format in
  Ok (Roster.Build_t groupId kind version previous groupKeyVersion signerUserId members areas format).

(** The parts of a checked roster's statement. *)
Definition roster_parts (r : Roster.t) : list jsval :=
  [JStr ROSTER_DOMAIN; JInt (format_number (Roster.format r)); JStr (Roster.groupId r);
   JStr (kind_text (Roster.kind r)); JInt (Roster.rosterVersion r); JStr (Roster.previousRosterDigest r);
   JInt (Roster.groupKeyVersion r); JStr (Roster.signerUserId r); JArr (map member_row (Roster.members r));
   JArr (map (area_row (Roster.format r)) (Roster.areas r))].

Definition rosterStatement_raw (roster : RawRoster.t) : result bytes :=
  let* r := check_roster roster in encodeStatement (roster_parts r).

(** A checked roster as a caller hands it back in. *)
Definition raw_member (m : Member.t) : RawMember.t := {|
  RawMember.userId := JStr (Member.userId m); RawMember.keyVersion := JInt (Member.keyVersion m);
  RawMember.encryptionPublicKey := JStr (Member.encryptionPublicKey m);
  RawMember.signingPublicKey := JStr (Member.signingPublicKey m);
  RawMember.mlDsaPublicKeyDigest := JStr (Member.mlDsaPublicKeyDigest m);
  RawMember.kemPublicKeyDigest := JStr (Member.kemPublicKeyDigest m);
  RawMember.status := JStr (status_text (Member.status m));
  RawMember.roles := JArr (map (λ r, JStr (role_text r)) (Member.roles m));
  RawMember.sinceVersion := JInt (Member.sinceVersion m) |}.
Definition raw_area (a : Area.t) : RawArea.t := {|
  RawArea.workspaceId := JStr (Area.workspaceId a); RawArea.workspaceKeyVersion := JInt (Area.workspaceKeyVersion a);
  RawArea.commitment := JStr (Area.commitment a);
  RawArea.rootCommitment := JStr <$> Area.rootCommitment a;
  RawArea.retired := if Area.retired a then Some true else None |}.
Definition raw_roster (r : Roster.t) : RawRoster.t := {|
  RawRoster.groupId := JStr (Roster.groupId r); RawRoster.kind := JStr (kind_text (Roster.kind r));
  RawRoster.rosterVersion := JInt (Roster.rosterVersion r);
  RawRoster.previousRosterDigest := JStr (Roster.previousRosterDigest r);
  RawRoster.groupKeyVersion := JInt (Roster.groupKeyVersion r);
  RawRoster.signerUserId := JStr (Roster.signerUserId r);
  RawRoster.members := map raw_member (Roster.members r);
  RawRoster.areas := Some (map raw_area (Roster.areas r));
  RawRoster.format := match Roster.format r with format1 => None | format2 => Some 2 end |}.

Definition rosterStatement (roster : Roster.t) : result bytes := rosterStatement_raw (raw_roster roster).

(** ** Parsing *)

Definition parse_area (format : RosterFormat) (row : jsval) : result RawArea.t :=
  match row with
  | JArr row =>
      match format, row with
      | format1, [workspaceId; version; commitment] =>
          Ok (RawArea.Build_t workspaceId version commitment None None)
      | format2, [workspaceId; version; tag] =>
          refuse "Invalid roster area." unless tag === JStr RETIRED_ROW ;;
          Ok (RawArea.Build_t workspaceId version (JStr "") None (Some true))
      | format2, [workspaceId; version; tag; commitment; root] =>
          refuse "Invalid roster area." unless tag === JStr KEY_ROW ;;
          Ok (RawArea.Build_t workspaceId version commitment (Some root) None)
      | _, _ => Err "Invalid roster area."
      end
  | _ => Err "Invalid roster area."
  end.

Definition parse_member (entry : jsval) : result RawMember.t :=
  match entry with
  | JArr [userId; keyVersion; enc; sig; mlDsa; kem; status; roles; since] =>
      Ok (RawMember.Build_t userId keyVersion enc sig mlDsa kem status roles since)
  | _ => Err "Invalid roster entry."
  end.

(** The roster the parts of a statement lay out, unchecked. *)
Definition raw_of_parts (parts : list jsval) : result RawRoster.t :=
  match parts with
  | [domain; format; groupId; kind; version; previous; keyVersion; signer; members; areas] =>
      refuse "Invalid roster." when
        (domain !== JStr ROSTER_DOMAIN) || ((format !== JInt 1) && (format !== JInt 2)) ;;
      let format := if format === JInt 1 then format1 else format2 in
      match areas with
      | JArr rows =>
          let* areas := mapM (parse_area format) rows in
          match members with
          | JArr entries =>
              refuse "Invalid roster members." when MAX_ROSTER_MEMBERS <? llen entries ;;
              let* members := mapM parse_member entries in
              Ok (RawRoster.Build_t groupId kind version previous keyVersion signer members (Some areas)
                match format with format1 => None | format2 => Some 2 end)
          | _ => Err "Invalid roster members."
          end
      | _ => Err "Invalid roster areas."
      end
  | _ => Err "Invalid roster."
  end.

Definition parseRoster (statement : bytes) : result Roster.t :=
  let* parts := parseStatement statement "roster" in
  let* raw := raw_of_parts parts in
  let* roster := check_roster raw in
  let* rebuilt := encodeStatement (roster_parts roster) in
  let* _ := requireCanonical statement rebuilt "roster" in
  Ok roster.

Definition rosterEntry (roster : Roster.t) (userId : string) : option Member.t :=
  snd <$> list_find (λ m, Member.userId m = userId) (Roster.members roster).

Definition activeWith (entry : option Member.t) (role : option GroupRole) : bool :=
  match entry with
  | None => false
  | Some m => (Member.status m === active) &&
      match role with None => true | Some r => bool_decide (r ∈ Member.roles m) end
  end.

(** ** What the checks let through *)

Lemma uuid_id v w s : uuid v w = Ok s → v = JStr s.
Proof. intros H. by apply uuid_ok in H as [-> _]. Qed.
Lemma integer_id v w z : integer v w = Ok z → v = JInt z.
Proof. intros H. by apply integer_ok in H as [-> _]. Qed.
Lemma bytesOf_id v n w s : bytesOf v n w = Ok s → v = JStr s.
Proof. intros H. by apply bytesOf_ok in H as [-> _]. Qed.
Lemma digestOf_id v w s : digestOf v w = Ok s → v = JStr s.
Proof. apply bytesOf_id. Qed.

Section named.
Context {A : Type} (text : A → string) (text_inj : ∀ a b, text a = text b → a = b).

Lemma oneOf_named v l w a : oneOf v (named text l) w = Ok a → v = JStr (text a) ∧ a ∈ l.
Proof.
  intros (s & -> & Hin)%oneOf_ok. unfold named in Hin. apply list_elem_of_fmap in Hin as (b & [= -> ->] & Hb). done.
Qed.
Lemma oneOf_text l a w : a ∈ l → oneOf (JStr (text a)) (named text l) w = Ok a.
Proof.
  intros Ha. unfold oneOf.
  destruct (list_find (λ p, p.1 = text a) (named text l)) as [[i [s b]]|] eqn:E.
  - apply list_find_Some in E as (Hi & Hs & _). simpl in Hs. subst s. apply list_elem_of_lookup_2 in Hi.
    unfold named in Hi. apply list_elem_of_fmap in Hi as (c & [= Hc ->] & _). f_equal. by apply text_inj.
  - apply list_find_None in E. rewrite Forall_forall in E. exfalso.
    apply (E (text a, a)); [|done]. unfold named. apply list_elem_of_fmap. by exists a.
Qed.
Lemma oneOf_id v l w a : oneOf v (named text l) w = Ok a → oneOf (JStr (text a)) (named text l) w = Ok a.
Proof. intros [_ Hin]%oneOf_named. by apply oneOf_text. Qed.
End named.

Lemma kind_text_inj a b : kind_text a = kind_text b → a = b.
Proof. by destruct a, b. Qed.
Lemma role_text_inj a b : role_text a = role_text b → a = b.
Proof. by destruct a, b. Qed.
Lemma status_text_inj a b : status_text a = status_text b → a = b.
Proof. by destruct a, b. Qed.

Lemma status_id v w a : oneOf v STATUSES w = Ok a → v = JStr (status_text a) ∧ oneOf (JStr (status_text a)) STATUSES w = Ok a.
Proof. intros H. split; [by apply oneOf_named in H as [-> _]|]. revert H. apply oneOf_id, status_text_inj. Qed.
Lemma kind_id v w a : oneOf v GROUP_KINDS w = Ok a → v = JStr (kind_text a) ∧ oneOf (JStr (kind_text a)) GROUP_KINDS w = Ok a.
Proof. intros H. split; [by apply oneOf_named in H as [-> _]|]. revert H. apply oneOf_id, kind_text_inj. Qed.

Lemma mapM_id {A B} (f : A → result B) (raw : B → A) l k :
  (∀ x y, f x = Ok y → f (raw y) = Ok y) → mapM f l = Ok k → mapM f (map raw k) = Ok k.
Proof.
  intros Hf Hl%mapM_ok. apply mapM_ok. induction Hl; simpl; constructor; eauto.
Qed.
Lemma mapM_res_length {A B} (f : A → result B) l k : mapM f l = Ok k → length l = length k.
Proof. intros Hl%mapM_ok. by eapply Forall2_length. Qed.
Lemma mapM_raw {A B} (f : A → result B) (raw : B → A) l k :
  (∀ y y', f (raw y) = Ok y' → y' = y) → mapM f (map raw l) = Ok k → k = l.
Proof.
  intros Hf Hl%mapM_ok. revert k Hl; induction l as [|y l IH]; intros k Hl; inversion Hl; subst; [done|].
  f_equal; auto.
Qed.

Create HintDb roster.
#[export] Hint Resolve uuid_id integer_id bytesOf_id digestOf_id : roster.

(** Rewrites every field's raw value by what its check returned. *)
Ltac raw_fields := repeat match goal with
  | H : uuid ?v _ = Ok ?s |- _ => lazymatch v with JStr s => fail | _ =>
      let E := fresh in pose proof (uuid_id _ _ _ H) as E; rewrite E in *; clear E end
  | H : integer ?v _ = Ok ?s |- _ => lazymatch v with JInt s => fail | _ =>
      let E := fresh in pose proof (integer_id _ _ _ H) as E; rewrite E in *; clear E end
  | H : bytesOf ?v _ _ = Ok ?s |- _ => lazymatch v with JStr s => fail | _ =>
      let E := fresh in pose proof (bytesOf_id _ _ _ _ H) as E; rewrite E in *; clear E end
  | H : digestOf ?v _ = Ok ?s |- _ => lazymatch v with JStr s => fail | _ =>
      let E := fresh in pose proof (digestOf_id _ _ _ H) as E; rewrite E in *; clear E end
  end.
Ltac use_checks := repeat match goal with H : _ = Ok _ |- _ => rewrite H; clear H; cbn [mbind res_bind] end.

Lemma check_area_id f raw a : check_area f raw = Ok a → check_area f (raw_area a) = Ok a.
Proof.
  destruct raw as [ws v c root ret]. unfold check_area. cbn. intros H. res_inv. destruct f.
  - destruct root, ret; try done. res_inv. raw_fields. cbn in *. by use_checks.
  - destruct ret as [r|].
    + res_inv. raw_fields. cbn. use_checks. done.
    + res_inv. destruct root as [root|]; [|done]. cbn in *. raw_fields. by use_checks.
Qed.
Lemma check_area_raw f a a' : check_area f (raw_area a) = Ok a' → a' = a.
Proof.
  destruct a as [ws v c root ret]. unfold check_area. cbn. intros H. res_inv.
  repeat match goal with
  | H : uuid _ _ = Ok _ |- _ => apply uuid_id in H as [= ->]
  | H : integer _ _ = Ok _ |- _ => apply integer_id in H as [= ->]
  end. destruct f.
  - destruct root, ret; try done. res_inv.
    match goal with H : digestOf _ _ = Ok _ |- _ => by apply digestOf_id in H as [= ->] end.
  - destruct ret.
    + res_inv. bool_simpl. destruct root; [done|]. by simplify_eq.
    + res_inv. destruct root as [root|]; [|done]. cbn in *.
      repeat match goal with H : digestOf _ _ = Ok _ |- _ => apply digestOf_id in H as [= ->] end. done.
Qed.

Lemma mapM_roles allowed l k w : mapM (λ role, oneOf role (named role_text allowed) w) l = Ok k →
  mapM (λ role, oneOf role (named role_text allowed) w) (map (λ r, JStr (role_text r)) k) = Ok k ∧
  Forall (λ r, r ∈ allowed) k.
Proof.
  intros Hm. split.
  - revert Hm. apply mapM_id. intros x y. apply oneOf_id, role_text_inj.
  - apply mapM_ok in Hm. induction Hm; constructor; [|done]. by eapply oneOf_named.
Qed.

Definition roles_of (kind : GroupKind) : list GroupRole :=
  match kind with family => [billing; guardian; members_role]
  | org => [billing; data_admin; guardian; members_role; recovery] end.
Lemma roles_of_named kind :
  match kind with family => FAMILY_ROLES | org => ORG_ROLES end = named role_text (roles_of kind).
Proof. by destruct kind. Qed.

Lemma memberParts_id kind version raw m : memberParts raw kind version = Ok m →
  memberParts (raw_member m) kind version = Ok m.
Proof.
  destruct raw as [u kv e s ml kem st ro si]. unfold memberParts. rewrite roles_of_named. cbn. intros H.
  destruct ro as [| |ro|]; try done. res_inv.
  match goal with H : mapM _ _ = Ok _ |- _ => apply mapM_roles in H as [H _] end.
  match goal with H : oneOf _ STATUSES _ = Ok _ |- _ => apply status_id in H as [_ H] end.
  raw_fields. cbn -[Z.ltb]. use_checks.
  match goal with H : (_ <? _) = false |- _ => rewrite H end. use_checks. done.
Qed.

Lemma map_JStr_inj l k : map (λ r, JStr (role_text r)) l = map (λ r, JStr (role_text r)) k → l = k.
Proof.
  revert k; induction l as [|a l IH]; intros [|b k]; simpl; intros [=]; [done|]. f_equal; auto using role_text_inj.
Qed.

Lemma memberParts_raw kind version m m' : memberParts (raw_member m) kind version = Ok m' → m' = m.
Proof.
  destruct m as [u kv e s ml kem st ro si]. unfold memberParts. rewrite roles_of_named. cbn -[Z.ltb]. intros H. res_inv.
  repeat match goal with
  | H : uuid _ _ = Ok _ |- _ => apply uuid_id in H as [= ->]
  | H : integer _ _ = Ok _ |- _ => apply integer_id in H as [= ->]
  | H : bytesOf _ _ _ = Ok _ |- _ => apply bytesOf_id in H as [= ->]
  | H : digestOf _ _ = Ok _ |- _ => apply digestOf_id in H as [= ->]
  | H : oneOf _ STATUSES _ = Ok _ |- _ => apply status_id in H as [[= ->%status_text_inj] _]
  end.
  f_equal. match goal with H : mapM _ _ = Ok _ |- _ => apply mapM_raw in H end; [done|].
  intros y y' [[= ->%role_text_inj] _]%oneOf_named. done.
Qed.

Lemma areaParts_id areas f l : areaParts areas f = Ok l → areaParts (Some (map raw_area l)) f = Ok l.
Proof.
  unfold areaParts. cbv zeta. intros H. res_inv. change (default [] (Some ?x)) with x.
  match goal with H : mapM _ _ = Ok _ |- _ => pose proof (mapM_res_length _ _ _ H) as Hl;
    apply (mapM_id _ raw_area) in H; [|apply check_area_id]; rename H into Hm end.
  unfold llen in *. rewrite (length_fmap raw_area l : length (map raw_area l) = length l).
  match goal with H : (_ <? _) = false |- _ => rewrite Hl in H; rewrite H end.
  rewrite Hm. cbn. by use_checks.
Qed.

(** A checked roster passes the same checks again, unchanged. *)
Lemma check_roster_id raw r : check_roster raw = Ok r → check_roster (raw_roster r) = Ok r.
Proof.
  destruct raw as [g k v p gk s ms ars f]. unfold check_roster. cbn -[Z.ltb Z.eqb]. intros H. res_inv.
  match goal with H : mapM _ ms = Ok _ |- _ => pose proof (mapM_res_length _ _ _ H) as Hlen;
    apply (mapM_id _ raw_member) in H; [|intros ? ?; apply memberParts_id] end.
  match goal with H : oneOf _ GROUP_KINDS _ = Ok _ |- _ => apply kind_id in H as [-> H] end.
  match goal with H : areaParts _ _ = Ok _ |- _ => apply areaParts_id in H end.
  raw_fields. cbn -[Z.ltb Z.eqb]. rename v0 into format, v2 into version, v3 into previous, v4 into members.
  replace (rosterFormat _) with (@Ok string _ format) by (by destruct format). clear Hv. cbn -[Z.ltb Z.eqb].
  use_checks. unfold llen in *. rewrite (length_fmap raw_member members : length (map raw_member members) = _), <- Hlen.
  assert ((version =? 1) && (JStr previous !== JStr "") = false ∧
    (if version =? 1 then Ok "" else digestOf (JStr previous) "roster digest") = Ok previous) as [-> ->].
  { destruct (version =? 1); [by injection Hv2 as <-|]. split; [done|]. by rewrite <- (digestOf_id _ _ _ Hv2). }
  cbn -[Z.ltb Z.eqb]. rewrite Heqb0. use_checks. done.
Qed.

Lemma check_roster_raw r r' : check_roster (raw_roster r) = Ok r' → r' = r.
Proof.
  destruct r as [g k v p gk s ms ars f]. unfold check_roster. cbn -[Z.ltb Z.eqb]. intros H. res_inv.
  repeat match goal with
  | H : uuid _ _ = Ok _ |- _ => apply uuid_id in H as [= ->]
  | H : integer _ _ = Ok _ |- _ => apply integer_id in H as [= ->]
  | H : oneOf _ GROUP_KINDS _ = Ok _ |- _ => apply kind_id in H as [[= ->%kind_text_inj] _]
  | H : rosterFormat _ = Ok ?f' |- _ => assert (f' = f) as -> by (by destruct f; injection H as <-); clear H
  end.
  match goal with H : mapM _ _ = Ok _ |- _ => apply mapM_raw in H as ->; [|intros ? ?; apply memberParts_raw] end.
  match goal with H : areaParts _ _ = Ok _ |- _ => unfold areaParts in H; cbv zeta in H; res_inv end.
  match goal with H : mapM _ _ = Ok _ |- _ => apply mapM_raw in H as ->; [|intros ? ?; apply check_area_raw] end.
  f_equal. match goal with H : (if _ =? 1 then _ else _) = Ok _ |- _ => rename H into Hp end.
  match goal with H : (?n =? 1) && _ = false |- _ => rename H into Hd; destruct (n =? 1) end.
  - injection Hp as <-. cbn in Hd. bool_simpl. by injection Hd.
  - by apply digestOf_id in Hp as [= ->].
Qed.

Lemma check_area_shape f a : check_area f (raw_area a) = Ok a →
  (f = format1 ∧ Area.rootCommitment a = None ∧ Area.retired a = false) ∨
  (f = format2 ∧ Area.retired a = true ∧ Area.commitment a = "" ∧ Area.rootCommitment a = None) ∨
  (f = format2 ∧ Area.retired a = false ∧ ∃ root, Area.rootCommitment a = Some root).
Proof.
  destruct a as [ws v c root ret]. unfold check_area. cbn. intros H. res_inv.
  destruct f, root, ret; cbn in *; res_inv; try done; eauto 10.
Qed.

Lemma parse_area_row f a : check_area f (raw_area a) = Ok a → parse_area f (area_row f a) = Ok (raw_area a).
Proof.
  intros H%check_area_shape. destruct a as [ws v c root ret]. unfold area_row, raw_area. cbn in *.
  destruct H as [(-> & -> & ->)|[(-> & -> & -> & ->)|(-> & -> & root' & ->)]]; done.
Qed.

Lemma areaParts_ok areas f l : areaParts areas f = Ok l →
  llen l ≤ MAX_ROSTER_AREA_ROWS ∧ Forall (λ a, check_area f (raw_area a) = Ok a) l ∧
  is_ascending (map Area.workspaceId l) = true.
Proof.
  unfold areaParts. cbv zeta. intros H. res_inv.
  match goal with H : mapM _ _ = Ok _ |- _ => rename H into Hm end.
  unfold llen in *. rewrite (mapM_res_length _ _ _ Hm) in *. bool_simpl. split; [lia|]. split.
  - apply (mapM_id _ raw_area), mapM_ok in Hm; [|apply check_area_id].
    clear -Hm. apply Forall_lookup_2. intros i a Ha.
    destruct (Forall2_lookup_r _ _ _ _ _ Hm Ha) as (y & Hy & Hc).
    rewrite list_lookup_fmap, Ha in Hy. injection Hy as <-. done.
  - unfold ascending in *. by res_inv.
Qed.

(** The facts the checks of [rosterStatement] leave of a roster. *)
Definition roster_wf (r : Roster.t) : Prop :=
  1 ≤ Roster.rosterVersion r ≤ MAX_SAFE_INTEGER ∧ 1 ≤ Roster.groupKeyVersion r ≤ MAX_SAFE_INTEGER ∧
  (Roster.rosterVersion r = 1 ↔ Roster.previousRosterDigest r = "") ∧
  UUID (Roster.groupId r) = true ∧ UUID (Roster.signerUserId r) = true ∧
  Roster.members r ≠ [] ∧ llen (Roster.members r) ≤ MAX_ROSTER_MEMBERS ∧
  NoDup (map Member.userId (Roster.members r)) ∧
  (∀ m, m ∈ Roster.members r → UUID (Member.userId m) = true ∧ 1 ≤ Member.keyVersion m ∧
    1 ≤ Member.sinceVersion m ≤ Roster.rosterVersion r ∧ NoDup (Member.roles m) ∧
    ∀ role, role ∈ Member.roles m → role ∈ roles_of (Roster.kind r)) ∧
  llen (Roster.areas r) ≤ MAX_ROSTER_AREA_ROWS ∧ NoDup (map Area.workspaceId (Roster.areas r)) ∧
  (∀ a, a ∈ Roster.areas r → UUID (Area.workspaceId a) = true ∧ 1 ≤ Area.workspaceKeyVersion a ∧
    (Roster.format r = format1 → Area.retired a = false ∧ Area.rootCommitment a = None) ∧
    (Roster.format r = format2 → Area.retired a = true ↔ Area.rootCommitment a = None) ∧
    (Area.retired a = true ↔ Area.commitment a = "")).

Lemma digestOf_nonempty v w s : digestOf v w = Ok s → s ≠ "".
Proof.
  intros (_ & b & Hb)%(bytesOf_ok v 32 w). by intros ->.
Qed.

Lemma check_area_wf f a : check_area f (raw_area a) = Ok a →
  UUID (Area.workspaceId a) = true ∧ 1 ≤ Area.workspaceKeyVersion a ∧
  (f = format1 → Area.retired a = false ∧ Area.rootCommitment a = None) ∧
  (f = format2 → Area.retired a = true ↔ Area.rootCommitment a = None) ∧
  (Area.retired a = true ↔ Area.commitment a = "").
Proof.
  intros H. pose proof (check_area_shape _ _ H) as Hshape. destruct a as [ws v c root ret].
  unfold check_area in H. cbn in *. apply bind_ok in H as (ws' & Hws & H). apply bind_ok in H as (v' & Hv & H).
  apply uuid_ok in Hws as [[= <-] Hws]. apply integer_ok in Hv as [[= <-] Hv].
  destruct Hshape as [(-> & -> & ->)|[(-> & -> & -> & ->)|(-> & -> & root' & ->)]]; cbn in *.
  - res_inv. match goal with H : digestOf _ _ = Ok _ |- _ => apply digestOf_nonempty in H end. naive_solver lia.
  - naive_solver lia.
  - res_inv. match goal with H : digestOf (JStr c) _ = Ok _ |- _ => apply digestOf_nonempty in H end. naive_solver lia.
Qed.

Lemma NoDup_map_inv {A B} (f : A → B) l : NoDup (map f l) → NoDup l.
Proof. apply NoDup_fmap_1. Qed.

Lemma memberParts_wf kind version m : memberParts (raw_member m) kind version = Ok m →
  UUID (Member.userId m) = true ∧ 1 ≤ Member.keyVersion m ∧ 1 ≤ Member.sinceVersion m ≤ version ∧
  NoDup (Member.roles m) ∧ ∀ role, role ∈ Member.roles m → role ∈ roles_of kind.
Proof.
  destruct m as [u kv e s ml kem st ro si]. unfold memberParts. rewrite roles_of_named. cbn -[Z.ltb]. intros H. res_inv.
  match goal with H : mapM _ _ = Ok _ |- _ => pose proof (mapM_roles _ _ _ _ H) as [_ Hall] end.
  repeat match goal with
  | H : uuid _ _ = Ok _ |- _ => apply uuid_ok in H as [_ H]
  | H : integer _ _ = Ok _ |- _ => apply integer_ok in H as [_ H]
  end. unfold ascending in *. res_inv. bool_simpl. split_and!; try done; try lia.
  - apply (NoDup_map_inv role_text), is_ascending_NoDup. done.
  - by rewrite Forall_forall in Hall.
Qed.

Lemma mapM_fixed {A B} (f : A → result B) (raw : B → A) l : mapM f (map raw l) = Ok l → ∀ y, y ∈ l → f (raw y) = Ok y.
Proof.
  intros Hm%mapM_ok y [i Hi]%list_elem_of_lookup_1. destruct (Forall2_lookup_r _ _ _ _ _ Hm Hi) as (x & Hx & Hc).
  rewrite list_lookup_fmap, Hi in Hx. by injection Hx as <-.
Qed.

Lemma previous_ok version p :
  (version =? 1) && (JStr p !== JStr "") = false →
  (if version =? 1 then Ok "" else digestOf (JStr p) "roster digest") = Ok p →
  version = 1 ↔ p = "".
Proof.
  destruct (version =? 1) eqn:E; bool_simpl; intros Hd Hp.
  - by injection Hp as <-.
  - split; [done|]. intros ->. by apply digestOf_nonempty in Hp.
Qed.

Lemma check_roster_wf r : check_roster (raw_roster r) = Ok r → roster_wf r ∧
  ∀ a, a ∈ Roster.areas r → check_area (Roster.format r) (raw_area a) = Ok a.
Proof.
  destruct r as [g k v p gk s ms ars f]. unfold check_roster. cbn -[Z.ltb Z.eqb]. intros H.
  apply bind_ok in H as (f' & Hf & H). apply bind_ok in H as (k' & Hk & H). apply bind_ok in H as (v' & Hv & H).
  destruct ((v' =? 1) && _) eqn:Hd; [done|]. apply bind_ok in H as (p' & Hp & H).
  destruct (_ || _) eqn:Hlen; [done|]. apply bind_ok in H as (ms' & Hms & H). apply bind_ok in H as (asc & Hasc & H).
  apply bind_ok in H as (g' & Hg & H). apply bind_ok in H as (gk' & Hgk & H). apply bind_ok in H as (s' & Hs & H).
  apply bind_ok in H as (ars' & Hars & H). injection H as -> -> -> -> -> -> -> -> ->.
  apply uuid_ok in Hg as [_ Hg], Hs as [_ Hs]. apply integer_ok in Hv as [_ Hv], Hgk as [_ Hgk].
  apply areaParts_ok in Hars as (Hal & Hareas & Haasc). rewrite Forall_forall in Hareas.
  unfold llen in Hlen. rewrite (length_fmap raw_member ms : length (map raw_member ms) = _) in Hlen. bool_simpl.
  pose proof (mapM_fixed (λ member, memberParts member k v) raw_member _ Hms) as Hm.
  split; [|done]. unfold roster_wf. cbn. split; [done|]. split; [done|].
  split; [by apply previous_ok|]. split; [done|]. split; [done|].
  split; [by intros ->|]. split; [unfold llen; lia|].
  split; [unfold ascending in Hasc; res_inv; by apply is_ascending_NoDup|].
  split; [intros m Hin; by apply memberParts_wf, Hm|].
  split; [done|]. split; [by apply is_ascending_NoDup|]. intros a Hin. by apply check_area_wf, Hareas.
Qed.

Lemma raw_of_parts_layout r : check_roster (raw_roster r) = Ok r → raw_of_parts (roster_parts r) = Ok (raw_roster r).
Proof.
  intros Hc. pose proof (check_roster_wf _ Hc) as ((_ & _ & _ & _ & _ & _ & Hlen & _) & Hareas).
  destruct r as [g k v p gk s ms ars f]. unfold raw_of_parts, roster_parts, raw_roster. cbn -[Z.ltb] in *.
  assert ((JStr ROSTER_DOMAIN !== JStr ROSTER_DOMAIN)
    || (JInt (format_number f) !== JInt 1) && (JInt (format_number f) !== JInt 2) = false) as ->.
  { rewrite bool_decide_eq_true_2 by done. by destruct f. }
  assert ((if JInt (format_number f) === JInt 1 then format1 else format2) = f) as -> by by destruct f.
  assert (mapM (parse_area f) (map (area_row f) ars) = Ok (map raw_area ars)) as ->.
  { apply mapM_ok. apply Forall2_fmap, Forall_Forall2_diag, Forall_forall. intros a Ha. by apply parse_area_row, Hareas. }
  cbn -[Z.ltb]. unfold llen in *. rewrite (length_fmap member_row ms : length (map member_row ms) = _).
  rewrite (proj2 (Z.ltb_ge _ _)) by lia.
  assert (mapM parse_member (map member_row ms) = Ok (map raw_member ms)) as ->; [|done].
  apply mapM_ok. by apply Forall2_fmap, Forall_Forall2_diag, Forall_forall.
Qed.

Lemma parseRoster_ok b r : parseRoster b = Ok r ↔ rosterStatement r = Ok b.
Proof.
  unfold parseRoster, rosterStatement, rosterStatement_raw, requireCanonical. split.
  - intros H. res_inv. rewrite (check_roster_id _ _ Hv1). cbn. rewrite Hv2.
    unfold sameBytes in *. by bool_simpl; subst.
  - intros H. apply bind_ok in H as (r' & Hc & He). pose proof (check_roster_raw _ _ Hc) as ->.
    rewrite (proj2 (parse_encode _ _ _) He). cbn [mbind res_bind].
    rewrite (raw_of_parts_layout _ Hc). cbn [mbind res_bind]. rewrite Hc. cbn [mbind res_bind]. rewrite He. cbn [mbind res_bind].
    unfold sameBytes. by rewrite bool_decide_eq_true_2.
Qed.

Lemma parseRoster_wf b r : parseRoster b = Ok r → roster_wf r.
Proof.
  intros (r' & Hc & _)%parseRoster_ok%bind_ok. pose proof (check_roster_raw _ _ Hc) as ->. by apply check_roster_wf.
Qed.

(** ** The group key *)

Definition sameGroupKey (a b : GroupPublicKey.t) : bool :=
  (GroupPublicKey.ed25519PublicKey a === GroupPublicKey.ed25519PublicKey b) &&
  (GroupPublicKey.mlDsaPublicKey a === GroupPublicKey.mlDsaPublicKey b).

Section group_key.
Context `{C : Crypto}.

Definition verifyGroup (message : bytes) (signature : GroupSignature.t) (key : GroupPublicKey.t) : bool :=
  if negb (slen (GroupSignature.ed25519 signature) =? SIGNATURE_BYTES) ||
     negb (slen (GroupSignature.mlDsa signature) =? ML_DSA_SIGNATURE_BYTES) then false
  else match decode (GroupPublicKey.ed25519PublicKey key) (Some 32),
             decode (GroupPublicKey.mlDsaPublicKey key) (Some ML_DSA_PUBLIC_KEY_BYTES) with
  | Ok ed25519, Ok mlDsa =>
      verifyStatement message (GroupSignature.ed25519 signature) ed25519 &&
      mlDsaVerify (GroupSignature.mlDsa signature) message mlDsa GROUP_SIGNATURE_CONTEXT
  | _, _ => false
  end.

Definition group_key_halves (key : GroupPublicKey.t) : result (bytes * bytes) :=
  let* ed25519 := bytesOf (JStr (GroupPublicKey.ed25519PublicKey key)) 32 "group key" in
  let* mlDsa := bytesOf (JStr (GroupPublicKey.mlDsaPublicKey key)) ML_DSA_PUBLIC_KEY_BYTES "group key" in
  let* ed25519 := decode ed25519 None in
  let* mlDsa := decode mlDsa None in
  Ok (ed25519, mlDsa).

Definition groupKeyDigest (key : GroupPublicKey.t) : result string :=
  let* (ed25519, mlDsa) := group_key_halves key in
  Ok (digest (ed25519 +:+ mlDsa)).

Definition groupFingerprint (groupId : string) (key : GroupPublicKey.t) : result string :=
  let* _ := uuid (JStr groupId) "group id" in
  let* (ed25519, mlDsa) := group_key_halves key in
  Ok (groups_of_four (to_hex (subarray 0 20
    (sha256 ("hushos/group/fingerprint/v1" +:+ groupId +:+ ed25519 +:+ mlDsa))))).

Definition groupWords (groupId : string) (key : GroupPublicKey.t) : result (list string) :=
  let* shown := groupFingerprint groupId key in fingerprintWords shown.

(** ** Whose signature it is *)

Definition NOT_LISTED : string := "This person’s keys are not the ones on the group’s member list.".

Definition signerOnRoster (roster : Roster.t) (userId : string) (servedMlDsaPublicKey : bytes)
    : result HybridPublicKey.t :=
  match rosterEntry roster userId with
  | None => Err "This person is not on the group’s member list."
  | Some entry =>
      refuse NOT_LISTED when negb (slen servedMlDsaPublicKey =? ML_DSA_PUBLIC_KEY_BYTES) ||
        (digest servedMlDsaPublicKey !== Member.mlDsaPublicKeyDigest entry) ;;
      let* signing := decode (Member.signingPublicKey entry) (Some 32) in
      Ok (HybridPublicKey.Build_t signing servedMlDsaPublicKey)
  end.

Definition memberRecipient (entry : Member.t) (kemPublicKey : bytes) : result (bytes * bytes) :=
  refuse NOT_LISTED when negb (slen kemPublicKey =? KEM_PUBLIC_KEY_BYTES) ||
    (digest kemPublicKey !== Member.kemPublicKeyDigest entry) ;;
  let* enc := decode (Member.encryptionPublicKey entry) (Some 32) in
  Ok (enc, kemPublicKey).

Definition rosterDigest (statement : bytes) : string := digest statement.
End group_key.

Module SignedGroupStatement.
Record t := { statement : bytes; signature : GroupSignature.t; signerSignature : bytes }.
End SignedGroupStatement.

(** ** Key succession *)

Module GroupKeySuccession.
Record t := {
  groupId : string; oldVersion : Z; newVersion : Z;
  oldEd25519PublicKey : string; oldMlDsaPublicKey : string;
  newEd25519PublicKey : string; newMlDsaPublicKey : string;
  lastRosterVersion : Z; lastRosterDigest : string; signerUserId : string;
}.
End GroupKeySuccession.
Module RawSuccession.
Record t := {
  groupId : jsval; oldVersion : jsval; newVersion : jsval;
  oldEd25519PublicKey : jsval; oldMlDsaPublicKey : jsval;
  newEd25519PublicKey : jsval; newMlDsaPublicKey : jsval;
  lastRosterVersion : jsval; lastRosterDigest : jsval; signerUserId : jsval;
}.
End RawSuccession.

#[export] Instance GroupKeySuccession_eq_dec : EqDecision GroupKeySuccession.t.
Proof. solve_decision. Defined.

Definition SUCCESSION_DOMAIN : string := "hushos/group/key-succession".

(** The checks of [groupSuccessionStatement], in its order. *)
Definition check_succession (s : RawSuccession.t) : result GroupKeySuccession.t :=
  let* oldVersion := integer (RawSuccession.oldVersion s) "group key version" in
  let* newVersion := integer (RawSuccession.newVersion s) "group key version" in
  refuse "Invalid group key version." unless newVersion =? oldVersion + 1 ;;
  let* groupId := uuid (RawSuccession.groupId s) "group id" in
  let* oldEd := bytesOf (RawSuccession.oldEd25519PublicKey s) 32 "group key" in
  let* oldMl := bytesOf (RawSuccession.oldMlDsaPublicKey s) ML_DSA_PUBLIC_KEY_BYTES "group key" in
  let* newEd := bytesOf (RawSuccession.newEd25519PublicKey s) 32 "group key" in
  let* newMl := bytesOf (RawSuccession.newMlDsaPublicKey s) ML_DSA_PUBLIC_KEY_BYTES "group key" in
  let* lastVersion := integer (RawSuccession.lastRosterVersion s) "roster version" in
  let* lastDigest := digestOf (RawSuccession.lastRosterDigest s) "roster digest" in
  let* signer := uuid (RawSuccession.signerUserId s) "user id" in
  Ok (GroupKeySuccession.Build_t groupId oldVersion newVersion oldEd oldMl newEd newMl lastVersion lastDigest signer).

Definition succession_parts (s : GroupKeySuccession.t) : list jsval :=
  [JStr SUCCESSION_DOMAIN; JInt 1; JStr (GroupKeySuccession.groupId s); JInt (GroupKeySuccession.oldVersion s);
   JInt (GroupKeySuccession.newVersion s); JStr (GroupKeySuccession.oldEd25519PublicKey s);
   JStr (GroupKeySuccession.oldMlDsaPublicKey s); JStr (GroupKeySuccession.newEd25519PublicKey s);
   JStr (GroupKeySuccession.newMlDsaPublicKey s); JInt (GroupKeySuccession.lastRosterVersion s);
   JStr (GroupKeySuccession.lastRosterDigest s); JStr (GroupKeySuccession.signerUserId s)].

Definition raw_succession (s : GroupKeySuccession.t) : RawSuccession.t := {|
  RawSuccession.groupId := JStr (GroupKeySuccession.groupId s);
  RawSuccession.oldVersion := JInt (GroupKeySuccession.oldVersion s);
  RawSuccession.newVersion := JInt (GroupKeySuccession.newVersion s);
  RawSuccession.oldEd25519PublicKey := JStr (GroupKeySuccession.oldEd25519PublicKey s);
  RawSuccession.oldMlDsaPublicKey := JStr (GroupKeySuccession.oldMlDsaPublicKey s);
  RawSuccession.newEd25519PublicKey := JStr (GroupKeySuccession.newEd25519PublicKey s);
  RawSuccession.newMlDsaPublicKey := JStr (GroupKeySuccession.newMlDsaPublicKey s);
  RawSuccession.lastRosterVersion := JInt (GroupKeySuccession.lastRosterVersion s);
  RawSuccession.lastRosterDigest := JStr (GroupKeySuccession.lastRosterDigest s);
  RawSuccession.signerUserId := JStr (GroupKeySuccession.signerUserId s) |}.

Definition groupSuccessionStatement (succession : GroupKeySuccession.t) : result bytes :=
  let* s := check_succession (raw_succession succession) in encodeStatement (succession_parts s).

Definition parseGroupSuccession (statement : bytes) : result GroupKeySuccession.t :=
  let* parts := parseStatement statement "group key succession" in
  match parts with
  | [domain; version; groupId; oldVersion; newVersion; oldEd; oldMl; newEd; newMl; lastVersion; lastDigest; signer] =>
      refuse "Invalid group key succession." when (domain !== JStr SUCCESSION_DOMAIN) || (version !== JInt 1) ;;
      let* succession := check_succession (RawSuccession.Build_t groupId oldVersion newVersion oldEd oldMl newEd newMl
        lastVersion lastDigest signer) in
      let* rebuilt := encodeStatement (succession_parts succession) in
      let* _ := requireCanonical statement rebuilt "group key succession" in
      Ok succession
  | _ => Err "Invalid group key succession."
  end.

Lemma check_succession_id raw s : check_succession raw = Ok s → raw = raw_succession s.
Proof.
  destruct raw. unfold check_succession, raw_succession. cbn -[Z.eqb]. intros H. res_inv.
  raw_fields. done.
Qed.

Lemma parseGroupSuccession_ok b s : parseGroupSuccession b = Ok s ↔ groupSuccessionStatement s = Ok b.
Proof.
  unfold parseGroupSuccession, groupSuccessionStatement, requireCanonical. split.
  - intros H. apply bind_ok in H as (parts & Hp & H).
    do 13 (destruct parts as [|? parts]; try done). destruct (_ || _); [done|].
    apply bind_ok in H as (s' & Hs & H). apply bind_ok in H as (r & Hr & H).
    apply bind_ok in H as (u & Hu & H). injection H as ->.
    pose proof (check_succession_id _ _ Hs) as E. rewrite E in Hs. rewrite Hs. cbn [mbind res_bind]. rewrite Hr.
    res_inv. unfold sameBytes in *. by bool_simpl; subst.
  - intros H. apply bind_ok in H as (s' & Hs & He).
    assert (s' = s) as -> by (apply check_succession_id in Hs; destruct s, s'; by injection Hs; intros; subst).
    rewrite (proj2 (parse_encode _ _ _) He). cbn [mbind res_bind succession_parts].
    rewrite !bool_decide_eq_true_2 by done. cbn [negb orb].
    fold (raw_succession s). rewrite Hs. cbn [mbind res_bind]. rewrite He. cbn [mbind res_bind].
    unfold sameBytes. by rewrite bool_decide_eq_true_2.
Qed.

Lemma check_succession_wf s : check_succession (raw_succession s) = Ok s →
  1 ≤ GroupKeySuccession.oldVersion s ∧ GroupKeySuccession.newVersion s = GroupKeySuccession.oldVersion s + 1.
Proof.
  destruct s as [g o n oe om ne nm lv ld si]. unfold check_succession. cbn -[Z.eqb]. intros H.
  apply bind_ok in H as (o' & Ho & H). apply bind_ok in H as (n' & Hn & H).
  destruct (n' =? o' + 1) eqn:E; [|done]. apply integer_ok in Ho as [[= <-] ?], Hn as [[= <-] ?]. bool_simpl. cbn. lia.
Qed.

(** ** Seals' statements *)

Module GroupKeySealContext.
Record t := {
  groupId : string; groupKeyVersion : Z; holderUserId : string; holderKeyVersion : Z; sealerUserId : string;
  rosterVersion : Z; rosterDigest : string;
}.
End GroupKeySealContext.
Module AreaGrantContext.
Record t := {
  groupId : string; workspaceId : string; workspaceKeyVersion : Z; granteeUserId : string; granteeKeyVersion : Z;
  granterUserId : string; rosterVersion : Z; rosterDigest : string;
}.
End AreaGrantContext.

Definition keySealParts (ctx : GroupKeySealContext.t) : result (list jsval) :=
  let* groupId := uuid (JStr (GroupKeySealContext.groupId ctx)) "group id" in
  let* version := integer (JInt (GroupKeySealContext.groupKeyVersion ctx)) "group key version" in
  let* holder := uuid (JStr (GroupKeySealContext.holderUserId ctx)) "user id" in
  let* holderVersion := integer (JInt (GroupKeySealContext.holderKeyVersion ctx)) "key version" in
  let* sealer := uuid (JStr (GroupKeySealContext.sealerUserId ctx)) "user id" in
  let* rosterVersion := integer (JInt (GroupKeySealContext.rosterVersion ctx)) "roster version" in
  let* rosterDigest := digestOf (JStr (GroupKeySealContext.rosterDigest ctx)) "roster digest" in
  Ok [JStr "hushos/group/key-seal"; JInt 1; JStr groupId; JInt version; JStr holder; JInt holderVersion; JStr sealer;
      JInt rosterVersion; JStr rosterDigest].

Definition areaGrantParts (ctx : AreaGrantContext.t) : result (list jsval) :=
  let* groupId := uuid (JStr (AreaGrantContext.groupId ctx)) "group id" in
  let* workspaceId := uuid (JStr (AreaGrantContext.workspaceId ctx)) "workspace id" in
  let* version := integer (JInt (AreaGrantContext.workspaceKeyVersion ctx)) "workspace key version" in
  let* grantee := uuid (JStr (AreaGrantContext.granteeUserId ctx)) "user id" in
  let* granteeVersion := integer (JInt (AreaGrantContext.granteeKeyVersion ctx)) "key version" in
  let* granter := uuid (JStr (AreaGrantContext.granterUserId ctx)) "user id" in
  let* rosterVersion := integer (JInt (AreaGrantContext.rosterVersion ctx)) "roster version" in
  let* rosterDigest := digestOf (JStr (AreaGrantContext.rosterDigest ctx)) "roster digest" in
  Ok [JStr "hushos/group/area-grant"; JInt 1; JStr groupId; JStr workspaceId; JInt version; JStr grantee;
      JInt granteeVersion; JStr granter; JInt rosterVersion; JStr rosterDigest].

Section seal_statements.
Context `{C : Crypto}.

Definition groupKeySealStatement (ctx : GroupKeySealContext.t) (sealed : bytes) : result bytes :=
  let* parts := keySealParts ctx in encodeStatement (parts ++ [JStr (digest sealed)]).
Definition areaGrantStatement (ctx : AreaGrantContext.t) (sealed : bytes) : result bytes :=
  let* parts := areaGrantParts ctx in encodeStatement (parts ++ [JStr (digest sealed)]).
Definition groupKeySealContext (ctx : GroupKeySealContext.t) : result bytes :=
  let* parts := keySealParts ctx in encodeStatement parts.
Definition areaGrantContext (ctx : AreaGrantContext.t) : result bytes :=
  let* parts := areaGrantParts ctx in encodeStatement parts.
End seal_statements.

(** ** Properties *)

(** C36. A roster's bytes and its content are one: the parser reads a roster out
    of a statement exactly when the roster's canonical statement is those
    bytes, so no two texts carry one roster and no roster is read from a text
    its own statement would not be. *)
Theorem roster_canonical statement roster :
  parseRoster statement = Ok roster ↔ rosterStatement roster = Ok statement.
Proof. apply parseRoster_ok. Qed.

(** C37. Every roster the parser lets through is well formed: one entry per
    member and one row per area, none twice and within the limits, no entry
    newer than the roster, only roles the group's kind has, no previous digest
    on version 1 and one after it, and no root commitments or tombstones
    outside format 2. *)
Theorem parsed_roster_wf statement roster : parseRoster statement = Ok roster → roster_wf roster.
Proof. apply parseRoster_wf. Qed.

Module RosterWitness.
Definition gid := "0a0a0a0a-0000-4000-8000-00000000000a".
Definition alice := "0a0a0a0a-0000-4000-8000-000000000001".
Definition area := "0b0b0b0b-0000-4000-8000-000000000001".
Definition k32 := "AAAAAAAAAAAAAAAAAAAAAAAAAAAAAAAAAAAAAAAAAAA".
Definition member := Member.Build_t alice 1 k32 k32 k32 k32 active [billing; members_role] 1.
Definition roster := Roster.Build_t gid family 1 "" 1 alice [member]
  [Area.Build_t area 1 k32 (Some k32) false] format2.
Definition statement := match rosterStatement roster with Ok b => b | Err _ => "" end.
Definition succession := GroupKeySuccession.Build_t gid 1 2 k32 k32 k32 k32 1 k32 alice.
End RosterWitness.

Lemma parsed_roster_wf_witness :
  parseRoster RosterWitness.statement = Ok RosterWitness.roster ∧ roster_wf RosterWitness.roster.
Proof.
  split; [vm_compute; reflexivity|].
  apply (parsed_roster_wf RosterWitness.statement RosterWitness.roster). vm_compute. reflexivity.
Defined.

(** A key succession's bytes and content are one too, and it always names
    the next key version. *)
Theorem succession_canonical statement succession :
  parseGroupSuccession statement = Ok succession ↔
  groupSuccessionStatement succession = Ok statement ∧
  1 ≤ GroupKeySuccession.oldVersion succession ∧
  GroupKeySuccession.newVersion succession = GroupKeySuccession.oldVersion succession + 1.
Proof.
  rewrite parseGroupSuccession_ok. split; [|by intros [? _]]. intros H. split; [done|].
  apply bind_ok in H as (s & Hs & _). pose proof (check_succession_id _ _ Hs) as E.
  assert (s = succession) as -> by (destruct s, succession; by injection E; intros; subst).
  by apply check_succession_wf.
Qed.

(** Every statement the group core signs or binds a seal to. *)
Inductive group_statement : Type :=
  | GRoster (roster : Roster.t)
  | GSuccession (succession : GroupKeySuccession.t)
  | GKeySeal (ctx : GroupKeySealContext.t) (sealed : option bytes)
  | GAreaGrant (ctx : AreaGrantContext.t) (sealed : option bytes).

Section group_statements.
Context `{C : Crypto}.

(** [None] is the seal's associated data, [Some] its statement over the sealed bytes. *)
Definition group_statement_of (x : group_statement) : result bytes :=
  match x with
  | GRoster r => rosterStatement r
  | GSuccession s => groupSuccessionStatement s
  | GKeySeal ctx None => groupKeySealContext ctx
  | GKeySeal ctx (Some sealed) => groupKeySealStatement ctx sealed
  | GAreaGrant ctx None => areaGrantContext ctx
  | GAreaGrant ctx (Some sealed) => areaGrantStatement ctx sealed
  end.

Definition same_sealed (a b : option bytes) : Prop :=
  match a, b with Some a, Some b => a = b ∨ collision | None, None => True | _, _ => False end.

Definition same_group_statement (x y : group_statement) : Prop :=
  match x, y with
  | GRoster a, GRoster b => a = b
  | GSuccession a, GSuccession b => a = b
  | GKeySeal a e, GKeySeal b e' => a = b ∧ same_sealed e e'
  | GAreaGrant a e, GAreaGrant b e' => a = b ∧ same_sealed e e'
  | _, _ => False
  end.

Definition key_seal_parts (c : GroupKeySealContext.t) : list jsval :=
  [JStr "hushos/group/key-seal"; JInt 1; JStr (GroupKeySealContext.groupId c); JInt (GroupKeySealContext.groupKeyVersion c);
   JStr (GroupKeySealContext.holderUserId c); JInt (GroupKeySealContext.holderKeyVersion c);
   JStr (GroupKeySealContext.sealerUserId c); JInt (GroupKeySealContext.rosterVersion c);
   JStr (GroupKeySealContext.rosterDigest c)].
Definition area_grant_parts (c : AreaGrantContext.t) : list jsval :=
  [JStr "hushos/group/area-grant"; JInt 1; JStr (AreaGrantContext.groupId c); JStr (AreaGrantContext.workspaceId c);
   JInt (AreaGrantContext.workspaceKeyVersion c); JStr (AreaGrantContext.granteeUserId c);
   JInt (AreaGrantContext.granteeKeyVersion c); JStr (AreaGrantContext.granterUserId c);
   JInt (AreaGrantContext.rosterVersion c); JStr (AreaGrantContext.rosterDigest c)].

Ltac checked_fields := repeat match goal with
  | H : uuid (JStr ?s) _ = Ok ?x |- _ => let E := fresh in assert (s = x) as E by (by apply uuid_id in H as [=]); clear H; rewrite <- E; clear E
  | H : integer (JInt ?s) _ = Ok ?x |- _ => let E := fresh in assert (s = x) as E by (by apply integer_id in H as [=]); clear H; rewrite <- E; clear E
  | H : digestOf (JStr ?s) _ = Ok ?x |- _ => let E := fresh in assert (s = x) as E by (by apply digestOf_id in H as [=]); clear H; rewrite <- E; clear E
  end.
Lemma keySealParts_ok ctx l : keySealParts ctx = Ok l → l = key_seal_parts ctx.
Proof. unfold keySealParts, key_seal_parts. intros H. res_inv. by checked_fields. Qed.
Lemma areaGrantParts_ok ctx l : areaGrantParts ctx = Ok l → l = area_grant_parts ctx.
Proof. unfold areaGrantParts, area_grant_parts. intros H. res_inv. by checked_fields. Qed.

(** The parts every statement of the group core encodes. *)
Definition group_parts (x : group_statement) : list jsval :=
  match x with
  | GRoster r => roster_parts r
  | GSuccession s => succession_parts s
  | GKeySeal ctx sealed => key_seal_parts ctx ++ match sealed with Some b => [JStr (digest b)] | None => [] end
  | GAreaGrant ctx sealed => area_grant_parts ctx ++ match sealed with Some b => [JStr (digest b)] | None => [] end
  end.

Lemma group_statement_parts x b : group_statement_of x = Ok b → encodeStatement (group_parts x) = Ok b.
Proof.
  destruct x as [r|s|ctx [e|]|ctx [e|]]; cbn [group_statement_of group_parts]; rewrite ?app_nil_r;
    [intros (r' & Hr & He)%bind_ok|intros (s' & Hs & He)%bind_ok| | | |].
  - by pose proof (check_roster_raw _ _ Hr) as ->.
  - apply check_succession_id in Hs. destruct s, s'. by injection Hs; intros; subst.
  - by intros (l & ->%keySealParts_ok & He)%bind_ok.
  - by intros (l & ->%keySealParts_ok & He)%bind_ok.
  - by intros (l & ->%areaGrantParts_ok & He)%bind_ok.
  - by intros (l & ->%areaGrantParts_ok & He)%bind_ok.
Qed.
End group_statements.

(** The group core's statements never stand for one another: a roster, a
    key succession, a group key seal and an area grant (each seal's statement
    and its associated data) with the same bytes are the same statement over
    the same contents, sealed bytes up to a SHA-256 collision. *)
Theorem group_statements_bind `{C : Crypto} x y b :
  group_statement_of x = Ok b → group_statement_of y = Ok b → same_group_statement x y.
Proof.
  intros Hx Hy. destruct x as [r|s|c e|c e], y as [r'|s'|c' e'|c' e'].
  all: try (exfalso; apply group_statement_parts in Hx, Hy; pose proof (encodeStatement_inj _ _ _ Hx Hy) as E; done).
  - apply parseRoster_ok in Hx, Hy. cbn. congruence.
  - apply parseGroupSuccession_ok in Hx, Hy. cbn. congruence.
  - apply group_statement_parts in Hx, Hy. pose proof (encodeStatement_inj _ _ _ Hx Hy) as E.
    destruct c, c'. cbn in E |- *. injection E; intros; subst. split; [done|].
    destruct e, e'; cbn; try done. simplify_eq. by apply digest_eq.
  - apply group_statement_parts in Hx, Hy. pose proof (encodeStatement_inj _ _ _ Hx Hy) as E.
    destruct c, c'. cbn in E |- *. injection E; intros; subst. split; [done|].
    destruct e, e'; cbn; try done. simplify_eq. by apply digest_eq.
Qed.

Lemma group_statements_bind_witness :
  0 < slen RosterWitness.statement ∧
  same_group_statement (C := Toy.crypto) (GRoster RosterWitness.roster) (GRoster RosterWitness.roster).
Proof.
  split; [vm_compute; reflexivity|].
  apply (group_statements_bind (C := Toy.crypto) _ _ RosterWitness.statement); vm_compute; reflexivity.
Defined.
