(* ===== verification/Identity.v ===== *)
(** * Identities and their successions (packages/crypto/src/identity.ts)

    What a served identity proves of itself ([verifyIdentityKeys]), what one
    succession link proves ([verifySuccessionLink], [verifySuccessionConsent])
    and the strict chain from pinned keys to served ones that a personal pin
    follows ([verifySuccessionChain]). Minting, wrapping and opening identity
    keys is not modelled here. *)

From S2P Require Import Prelude Base64url Bytes Canonical HChaCha Crypto Content Envelopes Signatures.

Definition SUCCESSION_CONSENT_BYTES : Z := 2 * HYBRID_SIGNATURE_BYTES.

Module PinnedKeys.
Record t := {
  keyVersion : option Z; encryptionPublicKey : string; signingPublicKey : string; mlDsaPublicKeyHash : string;
}.
End PinnedKeys.
Module ServedKeys.
Record t := {
  keyVersion : Z; encryptionPublicKey : string; signingPublicKey : string; mlDsaPublicKey : string;
  kemPublicKey : string;
}.
End ServedKeys.
Module ServedIdentity.
Record t := {
  keyVersion : Z; encryptionPublicKey : string; signingPublicKey : string; mlDsaPublicKey : string;
  kemPublicKey : string; keysSignature : string;
}.
End ServedIdentity.
Module SuccessionLink.
Record t := {
  oldKeyVersion : Z; newKeyVersion : Z;
  oldEncryptionPublicKey : string; oldSigningPublicKey : string; oldMlDsaPublicKey : string;
  newEncryptionPublicKey : string; newSigningPublicKey : string; newMlDsaPublicKey : string;
  newKemPublicKey : string; signature : string; consent : option string;
}.
End SuccessionLink.

#[export] Instance SuccessionLink_eq_dec : EqDecision SuccessionLink.t.
Proof. solve_decision. Defined.

(** Where a chain has come to. *)
Module At.
Record t := {
  keyVersion : Z; encryptionPublicKey : string; signingPublicKey : string; mlDsaPublicKey : string;
  kemPublicKey : option string;
}.
End At.

(** [{ ...link, userId }] *)
Definition link_statement (userId : string) (link : SuccessionLink.t) : SuccessionStatement.t := {|
  SuccessionStatement.userId := userId;
  SuccessionStatement.oldKeyVersion := SuccessionLink.oldKeyVersion link;
  SuccessionStatement.newKeyVersion := SuccessionLink.newKeyVersion link;
  SuccessionStatement.oldEncryptionPublicKey := SuccessionLink.oldEncryptionPublicKey link;
  SuccessionStatement.oldSigningPublicKey := SuccessionLink.oldSigningPublicKey link;
  SuccessionStatement.oldMlDsaPublicKey := SuccessionLink.oldMlDsaPublicKey link;
  SuccessionStatement.newEncryptionPublicKey := SuccessionLink.newEncryptionPublicKey link;
  SuccessionStatement.newSigningPublicKey := SuccessionLink.newSigningPublicKey link;
  SuccessionStatement.newMlDsaPublicKey := SuccessionLink.newMlDsaPublicKey link;
  SuccessionStatement.newKemPublicKey := SuccessionLink.newKemPublicKey link |}.

Section identity.
Context `{C : Crypto}.

Definition hybrid_keys (signing mlDsa : string) : result HybridPublicKey.t :=
  let* signing := decode signing (Some 32) in
  let* mlDsa := decode mlDsa (Some ML_DSA_PUBLIC_KEY_BYTES) in
  Ok (HybridPublicKey.Build_t signing mlDsa).

(** [try { return ... } catch { return false }] *)
Definition or_false (m : result bool) : bool := match m with Ok b => b | Err _ => false end.

Definition verifyIdentityKeys (userId : string) (identity : ServedIdentity.t) : bool :=
  or_false (
    let* message := keysStatement {|
      KeysStatement.userId := userId;
      KeysStatement.keyVersion := ServedIdentity.keyVersion identity;
      KeysStatement.encryptionPublicKey := ServedIdentity.encryptionPublicKey identity;
      KeysStatement.signingPublicKey := ServedIdentity.signingPublicKey identity;
      KeysStatement.mlDsaPublicKey := ServedIdentity.mlDsaPublicKey identity;
      KeysStatement.kemPublicKey := ServedIdentity.kemPublicKey identity |} in
    let* signature := decode (ServedIdentity.keysSignature identity) (Some HYBRID_SIGNATURE_BYTES) in
    let* keys := hybrid_keys (ServedIdentity.signingPublicKey identity) (ServedIdentity.mlDsaPublicKey identity) in
    Ok (verifyHybrid message signature keys)).

Definition verifySuccessionConsent (userId : string) (link : SuccessionLink.t) : bool :=
  match SuccessionLink.consent link with
  | None => false
  | Some consent => or_false (
      let* consent := decode consent (Some SUCCESSION_CONSENT_BYTES) in
      let* old := successionConsentStatement (link_statement userId link) role_old in
      let* oldKeys := hybrid_keys (SuccessionLink.oldSigningPublicKey link) (SuccessionLink.oldMlDsaPublicKey link) in
      if verifyHybrid old (subarray 0 HYBRID_SIGNATURE_BYTES consent) oldKeys then
        let* new := successionConsentStatement (link_statement userId link) role_new in
        let* newKeys := hybrid_keys (SuccessionLink.newSigningPublicKey link) (SuccessionLink.newMlDsaPublicKey link) in
        Ok (verifyHybrid new (subarray_from HYBRID_SIGNATURE_BYTES consent) newKeys)
      else Ok false)
  end.

(** [signer] by its Ed25519 and ML-DSA keys. *)
Definition verifySuccessionLink (userId : string) (link : SuccessionLink.t) (signing mlDsa : string) : bool :=
  or_false (
    let* message := successionStatement (link_statement userId link) in
    let* signature := decode (SuccessionLink.signature link) (Some HYBRID_SIGNATURE_BYTES) in
    let* keys := hybrid_keys signing mlDsa in
    Ok (verifyHybrid message signature keys)).

(** SHA-256 of a base64url ML-DSA public key, as hex; nothing when it is not one. *)
Definition mlDsaDigestOf (publicKey : string) : option string :=
  match decode publicKey (Some ML_DSA_PUBLIC_KEY_BYTES) with Ok b => Some (keyDigest b) | Err _ => None end.

Definition leaves_pin (pinned : PinnedKeys.t) (link : SuccessionLink.t) : bool :=
  (SuccessionLink.oldEncryptionPublicKey link === PinnedKeys.encryptionPublicKey pinned) &&
  (SuccessionLink.oldSigningPublicKey link === PinnedKeys.signingPublicKey pinned) &&
  (mlDsaDigestOf (SuccessionLink.oldMlDsaPublicKey link) === Some (PinnedKeys.mlDsaPublicKeyHash pinned)).

Fixpoint chain_from (pinned : PinnedKeys.t) (links : list SuccessionLink.t) : list SuccessionLink.t :=
  match links with
  | [] => []
  | link :: rest => if leaves_pin pinned link then links else chain_from pinned rest
  end.

Definition after_link (link : SuccessionLink.t) : At.t := {|
  At.keyVersion := SuccessionLink.newKeyVersion link;
  At.encryptionPublicKey := SuccessionLink.newEncryptionPublicKey link;
  At.signingPublicKey := SuccessionLink.newSigningPublicKey link;
  At.mlDsaPublicKey := SuccessionLink.newMlDsaPublicKey link;
  At.kemPublicKey := Some (SuccessionLink.newKemPublicKey link) |}.

Definition continues (userId : string) (at_ : At.t) (link : SuccessionLink.t) : bool :=
  negb (SuccessionLink.oldKeyVersion link <? At.keyVersion at_) &&
  (SuccessionLink.oldEncryptionPublicKey link === At.encryptionPublicKey at_) &&
  (SuccessionLink.oldSigningPublicKey link === At.signingPublicKey at_) &&
  (SuccessionLink.oldMlDsaPublicKey link === At.mlDsaPublicKey at_) &&
  verifySuccessionLink userId link (At.signingPublicKey at_) (At.mlDsaPublicKey at_).

(** The loop over the chain: where it ends, or nothing when a link breaks it. *)
Fixpoint follow (userId : string) (at_ : At.t) (chain : list SuccessionLink.t) : option At.t :=
  match chain with
  | [] => Some at_
  | link :: rest => if continues userId at_ link then follow userId (after_link link) rest else None
  end.

Definition verifySuccessionChain (userId : string) (pinned : PinnedKeys.t) (served : ServedKeys.t)
    (links : list SuccessionLink.t) : bool :=
  match chain_from pinned links with
  | [] => false
  | (first :: _) as chain =>
      match follow userId {|
        At.keyVersion := default 0 (PinnedKeys.keyVersion pinned);
        At.encryptionPublicKey := PinnedKeys.encryptionPublicKey pinned;
        At.signingPublicKey := PinnedKeys.signingPublicKey pinned;
        At.mlDsaPublicKey := SuccessionLink.oldMlDsaPublicKey first;
        At.kemPublicKey := None |} chain with
      | None => false
      | Some at_ =>
          (At.keyVersion at_ <=? ServedKeys.keyVersion served) &&
          (At.encryptionPublicKey at_ === ServedKeys.encryptionPublicKey served) &&
          (At.signingPublicKey at_ === ServedKeys.signingPublicKey served) &&
          (At.mlDsaPublicKey at_ === ServedKeys.mlDsaPublicKey served) &&
          (At.kemPublicKey at_ === Some (ServedKeys.kemPublicKey served))
      end
  end.
End identity.

(** ** What a chain proves *)

Section chains.
Context `{C : Crypto}.

(** One step vouched for by the keys it leaves: the old keys' hybrid signature
    over the version 2 succession statement, both halves, with the version
    rising. *)
Definition vouched (userId : string) (link : SuccessionLink.t) : Prop :=
  ∃ message signature signing mlDsa,
    successionStatement (link_statement userId link) = Ok message ∧
    decode (SuccessionLink.signature link) (Some HYBRID_SIGNATURE_BYTES) = Ok signature ∧
    decode (SuccessionLink.oldSigningPublicKey link) (Some 32) = Ok signing ∧
    decode (SuccessionLink.oldMlDsaPublicKey link) (Some ML_DSA_PUBLIC_KEY_BYTES) = Ok mlDsa ∧
    verifyHybrid message signature (HybridPublicKey.Build_t signing mlDsa) = true ∧
    SuccessionLink.oldKeyVersion link < SuccessionLink.newKeyVersion link.

(** The next link leaves exactly the keys the one before led to, no version going back. *)
Definition joined (a b : SuccessionLink.t) : Prop :=
  SuccessionLink.oldEncryptionPublicKey b = SuccessionLink.newEncryptionPublicKey a ∧
  SuccessionLink.oldSigningPublicKey b = SuccessionLink.newSigningPublicKey a ∧
  SuccessionLink.oldMlDsaPublicKey b = SuccessionLink.newMlDsaPublicKey a ∧
  SuccessionLink.newKeyVersion a ≤ SuccessionLink.oldKeyVersion b.

Inductive vouched_chain (userId : string) : SuccessionLink.t → list SuccessionLink.t → SuccessionLink.t → Prop :=
  | vouched_one link : vouched userId link → vouched_chain userId link [] link
  | vouched_more link next rest last :
      vouched userId link → joined link next → vouched_chain userId next rest last →
      vouched_chain userId link (next :: rest) last.

Lemma successionStatement_rises l m : successionStatement l = Ok m →
  SuccessionStatement.oldKeyVersion l < SuccessionStatement.newKeyVersion l.
Proof.
  unfold successionStatement, successionFields. intros H.
  apply bind_ok in H as (v & [-> Hv]%count_ok & G).
  destruct (_ || (_ <=? _)) eqn:E; [done|]. bool_simpl. lia.
Qed.

Lemma verifySuccessionLink_ok userId link :
  verifySuccessionLink userId link (SuccessionLink.oldSigningPublicKey link) (SuccessionLink.oldMlDsaPublicKey link) = true
  ↔ vouched userId link.
Proof.
  unfold verifySuccessionLink, or_false, hybrid_keys, vouched. split.
  - intros H. destruct (successionStatement _) as [m|] eqn:Em; [|done]. cbn [mbind res_bind] in H.
    destruct (decode _ (Some HYBRID_SIGNATURE_BYTES)) as [sg|] eqn:Es; [|done]. cbn [mbind res_bind] in H.
    destruct (decode _ (Some 32)) as [ed|] eqn:Ed; [|done]. cbn [mbind res_bind] in H.
    destruct (decode _ (Some ML_DSA_PUBLIC_KEY_BYTES)) as [ml|] eqn:El; [|done]. cbn [mbind res_bind] in H.
    exists m, sg, ed, ml. split_and!; try done. by apply successionStatement_rises in Em.
  - intros (m & sg & ed & ml & -> & -> & -> & -> & Hv & _). done.
Qed.

Lemma continues_ok userId at_ link : continues userId at_ link = true ↔
  At.keyVersion at_ ≤ SuccessionLink.oldKeyVersion link ∧
  SuccessionLink.oldEncryptionPublicKey link = At.encryptionPublicKey at_ ∧
  SuccessionLink.oldSigningPublicKey link = At.signingPublicKey at_ ∧
  SuccessionLink.oldMlDsaPublicKey link = At.mlDsaPublicKey at_ ∧ vouched userId link.
Proof.
  unfold continues. rewrite !andb_true_iff, negb_true_iff, Z.ltb_ge, !bool_decide_eq_true. split.
  - intros ((((? & ?) & E1) & E2) & Hv). rewrite <- E1, <- E2 in Hv. apply verifySuccessionLink_ok in Hv. done.
  - intros (? & ? & E1 & E2 & Hv). split_and!; try done. rewrite <- E1, <- E2. by apply verifySuccessionLink_ok.
Qed.

Lemma follow_chain userId at_ first rest end_ :
  follow userId at_ (first :: rest) = Some end_ ↔
  continues userId at_ first = true ∧ ∃ last, vouched_chain userId first rest last ∧ end_ = after_link last.
Proof.
  revert at_ first; induction rest as [|next rest IH]; intros at_ first.
  - cbn [follow]. destruct (continues userId at_ first) eqn:E; [|split; [done|by intros [? _]]].
    pose proof E as (_ & _ & _ & _ & Hv)%continues_ok. split.
    + intros [= <-]. split; [done|]. exists first. by split; [constructor|].
    + intros (_ & last & Hc & ->). by inversion Hc.
  - cbn [follow] in IH |- *. destruct (continues userId at_ first) eqn:E; [|split; [done|by intros [? _]]].
    pose proof E as (_ & _ & _ & _ & Hv)%continues_ok. rewrite IH. rewrite continues_ok. cbn. split.
    + intros ((? & ? & ? & ? & ?) & last & Hc & ->). split; [done|]. exists last. split; [|done].
      constructor; [done| |done]. by unfold joined.
    + intros (_ & last & Hc & ->). inversion Hc as [|? ? ? ? ? Hj Hc']; subst.
      destruct Hj as (? & ? & ? & ?). split; [|by eauto]. split_and!; try done.
      by inversion Hc'.
Qed.

Lemma chain_from_spec pinned links : chain_from pinned links = [] ∧ Forall (λ l, leaves_pin pinned l = false) links ∨
  ∃ skipped first rest, links = skipped ++ first :: rest ∧ chain_from pinned links = first :: rest ∧
    leaves_pin pinned first = true ∧ Forall (λ l, leaves_pin pinned l = false) skipped.
Proof.
  induction links as [|l links IH]; [by left|]. cbn [chain_from]. destruct (leaves_pin pinned l) eqn:E.
  - right. by exists [], l, links.
  - destruct IH as [[-> ?]|(sk & f & r & -> & -> & ? & ?)]; [left; by auto|right].
    exists (l :: sk), f, r. by auto.
Qed.

Lemma chain_from_skip pinned skipped first rest : leaves_pin pinned first = true →
  Forall (λ l, leaves_pin pinned l = false) skipped → chain_from pinned (skipped ++ first :: rest) = first :: rest.
Proof. intros Hf. induction 1 as [|l sk Hl _ IH]; cbn; [by rewrite Hf|]. by rewrite Hl. Qed.
End chains.

(** ** Properties *)

(** A personal pin is followed to the served keys exactly along a chain it
    vouches for: the first link that leaves the pinned keys (the ML-DSA key by
    its digest), and every link after it, each signed under the keys it leaves
    by both halves and each leaving the keys the one before led to, no version
    ever going back, ending at the four keys served. *)
Theorem verifySuccessionChain_exact `{C : Crypto} userId pinned served links :
  verifySuccessionChain userId pinned served links = true ↔
  ∃ skipped first rest last, links = skipped ++ first :: rest ∧
    Forall (λ l, leaves_pin pinned l = false) skipped ∧
    leaves_pin pinned first = true ∧ default 0 (PinnedKeys.keyVersion pinned) ≤ SuccessionLink.oldKeyVersion first ∧
    vouched_chain userId first rest last ∧
    SuccessionLink.newKeyVersion last ≤ ServedKeys.keyVersion served ∧
    SuccessionLink.newEncryptionPublicKey last = ServedKeys.encryptionPublicKey served ∧
    SuccessionLink.newSigningPublicKey last = ServedKeys.signingPublicKey served ∧
    SuccessionLink.newMlDsaPublicKey last = ServedKeys.mlDsaPublicKey served ∧
    SuccessionLink.newKemPublicKey last = ServedKeys.kemPublicKey served.
Proof.
  unfold verifySuccessionChain. split.
  - destruct (chain_from_spec pinned links) as [[-> _]|(sk & first & rest & -> & -> & Hf & Hsk)]; [done|].
    destruct (follow _ _ _) as [end_|] eqn:E; [|done].
    apply follow_chain in E as (Hc & last & Hchain & ->). apply continues_ok in Hc as (Hver & _). cbn in *.
    intros H. bool_simpl. exists sk, first, rest, last. split_and!; congruence || done.
  - intros (sk & first & rest & last & -> & Hsk & Hf & Hver & Hchain & Hv & He & Hs & Hm & Hk).
    rewrite chain_from_skip by done.
    pose proof Hf as Hf'. unfold leaves_pin in Hf'. bool_simpl.
    erewrite (proj2 (follow_chain _ _ _ _ _)); [|split; [|exists last; split; [done|reflexivity]]].
    + cbn. rewrite He, Hs, Hm, Hk, !bool_decide_eq_true_2 by done. rewrite !andb_true_r. by apply Z.leb_le.
    + apply continues_ok. cbn. split_and!; try done. by inversion Hchain.
Qed.
