(* ===== verification/SuccessionPath.v ===== *)
(** * The group core's walk along a member's successions (packages/crypto/src/succession-path.ts)

    The verified links form a graph between sets of keys; from the start the
    reachable part must be a single line to the served keys. [verified], the
    map that remembers verifications across calls, is not modelled: a link is
    verified each time it is asked for, which the map only repeats. *)

From S2P Require Import Prelude Base64url Bytes Canonical HChaCha Crypto Content Envelopes Signatures Identity.

Inductive SuccessionPath : Type :=
  | Path (links : list SuccessionLink.t)
  | Fork
  | Stale
  | TooMany
  | NoPath.

#[export] Instance SuccessionPath_eq_dec : EqDecision SuccessionPath.
Proof. solve_decision. Defined.

Definition MAX_SUCCESSION_LINKS : Z := 64.

Definition sameKeys (a b : PinnedKeys.t) : bool :=
  (PinnedKeys.encryptionPublicKey a === PinnedKeys.encryptionPublicKey b) &&
  (PinnedKeys.signingPublicKey a === PinnedKeys.signingPublicKey b) &&
  (PinnedKeys.mlDsaPublicKeyHash a === PinnedKeys.mlDsaPublicKeyHash b).

(** Whether [snapshot] takes the link: its versions are safe integers (its
    other fields are of the types a link carries). *)
Definition snapshot (link : SuccessionLink.t) : bool :=
  is_safe_integer (SuccessionLink.oldKeyVersion link) && is_safe_integer (SuccessionLink.newKeyVersion link).

(** The four keys a link leads to; the source compares their JSON text. *)
Definition keysOf (link : SuccessionLink.t) : string * string * string * string :=
  (SuccessionLink.newEncryptionPublicKey link, SuccessionLink.newSigningPublicKey link,
   SuccessionLink.newMlDsaPublicKey link, SuccessionLink.newKemPublicKey link).

Section walk.
Context `{C : Crypto}.
Context (userId : string) (start : PinnedKeys.t) (served : ServedKeys.t).
Context (links : list SuccessionLink.t) (consentUntil : option PinnedKeys.t) (memberKeys : list PinnedKeys.t).

(** [mlDsaHash] *)
Definition mlDsaHash (publicKey : string) : option string := mlDsaDigestOf publicKey.

Definition leadsTo (link : SuccessionLink.t) (keys : PinnedKeys.t) : bool :=
  (SuccessionLink.newEncryptionPublicKey link === PinnedKeys.encryptionPublicKey keys) &&
  (SuccessionLink.newSigningPublicKey link === PinnedKeys.signingPublicKey keys) &&
  (mlDsaHash (SuccessionLink.newMlDsaPublicKey link) === Some (PinnedKeys.mlDsaPublicKeyHash keys)).

Definition holds (link : SuccessionLink.t) (consent : bool) : bool :=
  snapshot link &&
  if consent then verifySuccessionConsent userId link
  else verifySuccessionLink userId link (SuccessionLink.oldSigningPublicKey link) (SuccessionLink.oldMlDsaPublicKey link).

Definition leavesSet (link : SuccessionLink.t) (keys : PinnedKeys.t) : bool :=
  snapshot link && leaves_pin keys link.

(** Where the walk is: the start, or the keys a link led to. *)
Definition continues_from (at_ : option SuccessionLink.t) (link : SuccessionLink.t) : bool :=
  snapshot link &&
  match at_ with
  | Some at_ =>
      (SuccessionLink.oldEncryptionPublicKey link === SuccessionLink.newEncryptionPublicKey at_) &&
      (SuccessionLink.oldSigningPublicKey link === SuccessionLink.newSigningPublicKey at_) &&
      (SuccessionLink.oldMlDsaPublicKey link === SuccessionLink.newMlDsaPublicKey at_) &&
      (SuccessionLink.newKeyVersion at_ <=? SuccessionLink.oldKeyVersion link)
  | None => leavesSet link start && (default 0 (PinnedKeys.keyVersion start) <=? SuccessionLink.oldKeyVersion link)
  end.

Definition at_served (at_ : option SuccessionLink.t) : bool :=
  match at_ with
  | None =>
      (PinnedKeys.encryptionPublicKey start === ServedKeys.encryptionPublicKey served) &&
      (PinnedKeys.signingPublicKey start === ServedKeys.signingPublicKey served) &&
      (mlDsaHash (ServedKeys.mlDsaPublicKey served) === Some (PinnedKeys.mlDsaPublicKeyHash start))
  | Some at_ =>
      (SuccessionLink.newEncryptionPublicKey at_ === ServedKeys.encryptionPublicKey served) &&
      (SuccessionLink.newSigningPublicKey at_ === ServedKeys.signingPublicKey served) &&
      (SuccessionLink.newMlDsaPublicKey at_ === ServedKeys.mlDsaPublicKey served) &&
      (SuccessionLink.newKemPublicKey at_ === ServedKeys.kemPublicKey served)
  end.

(** The links at hand, by their index: what [counted] collects. *)
Definition indexes (p : SuccessionLink.t → bool) : gset nat :=
  list_to_set (filter (λ i, from_option p false (links !! i) = true) (seq 0 (length links))).

Definition over_cap (counted : gset nat) : bool := MAX_SUCCESSION_LINKS <? Z.of_nat (size counted).

(** The loop, one step for each of [fuel]: [step <= links.length] in the source. *)
Fixpoint walk (fuel : nat) (at_ : option SuccessionLink.t) (consenting : bool)
    (seen : list (string * string * string * string)) (path : list SuccessionLink.t) (counted : gset nat)
    : SuccessionPath :=
  match fuel with
  | O => NoPath
  | S fuel' =>
      let atServed := at_served at_ in
      let continuing := filter (λ link, continues_from at_ link = true) links in
      let counted := counted ∪ indexes (continues_from at_) in
      if over_cap counted then TooMany
      else
        let leaving := filter (λ link, holds link consenting = true) continuing in
        if atServed then
          match leaving, at_ with
          | _ :: _, _ => Stale
          | [], None => NoPath
          | [], Some _ => Path path
          end
        else
          let targets := remove_dups (map keysOf leaving) in
          if (1 <? length targets)%nat then Fork
          else match leaving with
          | [] => NoPath
          | next :: _ =>
              if bool_decide (keysOf next ∈ seen) then NoPath
              else walk fuel' (Some next)
                (consenting && negb (match consentUntil with Some keys => leadsTo next keys | None => false end))
                (keysOf next :: seen) (path ++ [next]) counted
          end
  end.

Definition successionPath : SuccessionPath :=
  let counted := indexes (λ link, existsb (leavesSet link) (start :: memberKeys)) in
  if over_cap counted then TooMany
  else walk (S (length links)) None
    match consentUntil with None => false | Some keys => negb (sameKeys start keys) end [] [] counted.
End walk.

(** ** What each answer says *)

Section answers.
Context `{C : Crypto}.
Context (userId : string) (start : PinnedKeys.t) (served : ServedKeys.t).
Context (links : list SuccessionLink.t) (consentUntil : option PinnedKeys.t).

(** Verified links leaving a place in the walk. *)
Definition leaves (at_ : option SuccessionLink.t) (consenting : bool) (link : SuccessionLink.t) : Prop :=
  link ∈ links ∧ continues_from start at_ link = true ∧ holds userId link consenting = true.

Definition consenting_after (consenting : bool) (link : SuccessionLink.t) : bool :=
  consenting && negb (match consentUntil with Some keys => leadsTo link keys | None => false end).

(** A line: each link leaves where the walk is, verified under the proof asked
    for there, and every verified link leaving with it leads to the same keys;
    it passes the served keys nowhere and comes to [at'] asking for [consenting']. *)
Inductive line : option SuccessionLink.t → bool → list SuccessionLink.t → option SuccessionLink.t → bool → Prop :=
  | line_nil at_ consenting : line at_ consenting [] at_ consenting
  | line_cons at_ consenting link rest at' consenting' :
      at_served start served at_ = false → leaves at_ consenting link →
      (∀ other, leaves at_ consenting other → keysOf other = keysOf link) →
      line (Some link) (consenting_after consenting link) rest at' consenting' →
      line at_ consenting (link :: rest) at' consenting'.

Lemma line_app at_ c a at1 c1 b at2 c2 : line at_ c a at1 c1 → line at1 c1 b at2 c2 → line at_ c (a ++ b) at2 c2.
Proof. induction 1; intros Hb; [done|]. cbn. econstructor; eauto. Qed.

Lemma line_snoc at_ c a at1 c1 link : line at_ c a at1 c1 → at_served start served at1 = false → leaves at1 c1 link →
  (∀ other, leaves at1 c1 other → keysOf other = keysOf link) →
  line at_ c (a ++ [link]) (Some link) (consenting_after c1 link).
Proof. intros Ha Hn Hl Hu. eapply line_app; [done|]. econstructor; [done..|]. constructor. Qed.

Lemma targets_single (l : list SuccessionLink.t) x : (length (remove_dups (map keysOf l)) ≤ 1)%nat → x ∈ l →
  ∀ y, y ∈ l → keysOf y = keysOf x.
Proof.
  intros Hlen Hx y Hy.
  assert (∀ z, z ∈ l → keysOf z ∈ remove_dups (map keysOf l)) as Hin.
  { intros z Hz. apply elem_of_remove_dups, list_elem_of_fmap. by exists z. }
  pose proof (Hin x Hx) as Hx'. pose proof (Hin y Hy) as Hy'.
  destruct (remove_dups (map keysOf l)) as [|k [|k' ks]]; simpl in Hlen; [by apply not_elem_of_nil in Hx'| |lia].
  apply list_elem_of_singleton in Hx', Hy'. congruence.
Qed.

Lemma targets_fork (l : list SuccessionLink.t) : (1 < length (remove_dups (map keysOf l)))%nat →
  ∃ a b, a ∈ l ∧ b ∈ l ∧ keysOf a ≠ keysOf b.
Proof.
  intros Hlen. pose proof (NoDup_remove_dups (map keysOf l)) as Hnd.
  assert (∀ k, k ∈ remove_dups (map keysOf l) → ∃ z, z ∈ l ∧ keysOf z = k) as Hin.
  { intros k Hk. rewrite elem_of_remove_dups in Hk. apply list_elem_of_fmap in Hk as (z & -> & Hz). eauto. }
  destruct (remove_dups (map keysOf l)) as [|k [|k' ks]]; simpl in Hlen; [lia..|].
  destruct (Hin k) as (a & Ha & <-); [by left|]. destruct (Hin k') as (b & Hb & <-); [by right; left|].
  exists a, b. split_and!; try done. intros E. rewrite NoDup_cons in Hnd. destruct Hnd as [Hn _]. apply Hn. rewrite E. by left.
Qed.

Lemma elem_of_leaving at_ consenting link :
  link ∈ filter (λ link, holds userId link consenting = true) (filter (λ link, continues_from start at_ link = true) links)
  ↔ leaves at_ consenting link.
Proof. rewrite !list_elem_of_filter. unfold leaves. tauto. Qed.

Lemma walk_answers fuel at_ c seen path counted at0 c0 r :
  walk userId start served links consentUntil fuel at_ c seen path counted = r →
  line at0 c0 path at_ c →
  (at_ = None ↔ path = []) →
  match r with
  | Path ls => ∃ last c', ls ≠ [] ∧ line at0 c0 ls (Some last) c' ∧ at_served start served (Some last) = true ∧
      ∀ other, ¬ leaves (Some last) c' other
  | Fork => ∃ ls at' c' a b, line at0 c0 ls at' c' ∧ leaves at' c' a ∧ leaves at' c' b ∧ keysOf a ≠ keysOf b
  | Stale => ∃ ls at' c' a, line at0 c0 ls at' c' ∧ at_served start served at' = true ∧ leaves at' c' a
  | TooMany | NoPath => True
  end.
Proof.
  revert at_ c seen path counted. induction fuel as [|fuel IH]; intros at_ c seen path counted; [by intros <-|].
  cbn [walk]. set (lv := filter _ (filter _ links)).
  assert (∀ link, link ∈ lv ↔ leaves at_ c link) as Hlv by (intros; apply elem_of_leaving). clearbody lv.
  destruct (over_cap _); [by intros <-|]. destruct (at_served start served at_) eqn:Es.
  - destruct lv as [|a lv'].
    + destruct at_ as [last|]; intros <- Hline Hat; [|done]. exists last, c. split_and!; try done.
      * intros ->. destruct Hat as [_ Hat]. by specialize (Hat eq_refl).
      * intros other Ho. rewrite <- Hlv in Ho. by apply not_elem_of_nil in Ho.
    + intros <- Hline _. exists path, at_, c, a. split_and!; try done. apply Hlv. by left.
  - destruct (1 <? length _)%nat eqn:Et.
    + intros <- Hline _. apply Nat.ltb_lt, targets_fork in Et as (a & b & Ha%Hlv & Hb%Hlv & Hab).
      by exists path, at_, c, a, b.
    + destruct lv as [|next lv']; [by intros <-|]. case_bool_decide; [by intros <-|].
      apply Nat.ltb_ge in Et. intros Hw Hline _. eapply IH; [exact Hw| |].
      * apply (line_snoc _ _ _ at_ c); [done|done|apply Hlv; by left|].
        intros other Ho%Hlv. eapply targets_single; [done|by left|done].
      * split; [done|]. by destruct path.
Qed.

Lemma line_proofs at_ c ls at' c' : line at_ c ls at' c' → ∀ l, l ∈ ls → l ∈ links ∧ ∃ consent, holds userId l consent = true.
Proof. induction 1 as [|????? ? ? [? [? ?]] ? ? IH]; intros l Hl; [by apply not_elem_of_nil in Hl|]. apply elem_of_cons in Hl as [->|?]; eauto. Qed.
End answers.

(** ** The order the links are served in *)

Section order.
Context `{C : Crypto}.
Context (userId : string) (start : PinnedKeys.t) (served : ServedKeys.t) (consentUntil : option PinnedKeys.t).

Lemma elem_of_indexes links p i : i ∈ indexes links p ↔ ∃ l, links !! i = Some l ∧ p l = true.
Proof.
  unfold indexes. rewrite elem_of_list_to_set, list_elem_of_filter, elem_of_seq. split.
  - intros [Hp Hi]. destruct (links !! i) as [l|] eqn:E; [|done]. eauto.
  - intros (l & E & Hp). rewrite E. split; [done|]. apply lookup_lt_Some in E. lia.
Qed.

Lemma indexes_union links p q : indexes links p ∪ indexes links q = indexes links (λ l, p l || q l).
Proof.
  apply set_eq. intros i. rewrite elem_of_union, !elem_of_indexes. split.
  - intros [(l & ? & E)|(l & ? & E)]; exists l; rewrite E; [done|]. by rewrite orb_true_r.
  - intros (l & ? & [E|E]%orb_true_iff); eauto.
Qed.

Lemma filter_ext_in {A} (P Q : A → Prop) `{∀ x, Decision (P x), ∀ x, Decision (Q x)} (l : list A) :
  (∀ x, x ∈ l → P x ↔ Q x) → filter P l = filter Q l.
Proof.
  induction l as [|x l IH]; intros Hl; [done|]. rewrite !filter_cons.
  rewrite IH by (intros y Hy; apply Hl; by right). pose proof (Hl x ltac:(by left)).
  destruct (decide (P x)), (decide (Q x)); tauto.
Qed.
Lemma filter_seq_length {A} (p : A → bool) (l : list A) (o : nat) :
  length (filter (λ i, from_option p false (l !! (i - o)%nat) = true) (seq o (length l))) = length (filter (λ x, p x = true) l).
Proof.
  revert o; induction l as [|x l IH]; intros o; [done|]. cbn [length seq].
  assert (filter (λ i, from_option p false ((x :: l) !! (i - o)%nat) = true) (seq (S o) (length l))
    = filter (λ i, from_option p false (l !! (i - S o)%nat) = true) (seq (S o) (length l))) as E.
  { apply filter_ext_in. intros i [? ?]%elem_of_seq. by replace (i - o)%nat with (S (i - S o)) by lia. }
  rewrite !filter_cons, E, Nat.sub_diag. cbn [lookup list_lookup from_option].
  destruct (decide (p x = true)); cbn [length]; by rewrite IH.
Qed.

Lemma size_indexes links p : size (indexes links p) = length (filter (λ l, p l = true) links).
Proof.
  unfold indexes. rewrite size_list_to_set by apply NoDup_filter, NoDup_seq.
  rewrite <- (filter_seq_length p links 0). f_equal. apply list_filter_iff. intros i. by rewrite Nat.sub_0_r.
Qed.

Lemma over_cap_perm l1 l2 p : l1 ≡ₚ l2 → over_cap (indexes l1 p) = over_cap (indexes l2 p).
Proof. intros Hp. unfold over_cap. by rewrite !size_indexes, Hp. Qed.

(** No two different verified links lead to the same keys. *)
Definition one_link_each (links : list SuccessionLink.t) : Prop :=
  ∀ consent a b, a ∈ links → b ∈ links → holds userId a consent = true → holds userId b consent = true →
    keysOf a = keysOf b → a = b.

Lemma remove_dups_perm_length {A} `{EqDecision A} (l k : list A) : l ≡ₚ k → length (remove_dups l) = length (remove_dups k).
Proof.
  intros Hp. apply Permutation_length, NoDup_Permutation; [apply NoDup_remove_dups..|].
  intros x. by rewrite !elem_of_remove_dups, Hp.
Qed.

Lemma walk_perm l1 l2 fuel at_ c seen path p : l1 ≡ₚ l2 → one_link_each l1 →
  walk userId start served l1 consentUntil fuel at_ c seen path (indexes l1 p)
  = walk userId start served l2 consentUntil fuel at_ c seen path (indexes l2 p).
Proof.
  intros Hp Hone. revert at_ c seen path p. induction fuel as [|fuel IH]; intros at_ c seen path p; [done|].
  cbn [walk]. rewrite !indexes_union, (over_cap_perm _ _ _ Hp). destruct (over_cap _); [done|].
  set (f1 := filter _ (filter _ l1)). set (f2 := filter _ (filter _ l2)).
  assert (f1 ≡ₚ f2) as Hf by (by subst f1 f2; rewrite Hp).
  assert (∀ x, x ∈ f1 → x ∈ l1 ∧ holds userId x c = true) as Hin by (intros x; subst f1; rewrite !list_elem_of_filter; tauto).
  clearbody f1 f2. rewrite (remove_dups_perm_length _ (map keysOf f2)) by (by rewrite Hf).
  destruct (at_served _ _ _).
  - pose proof (Permutation_length Hf). by destruct f1, f2.
  - destruct (1 <? _)%nat eqn:Et; [done|]. apply Nat.ltb_ge in Et.
    pose proof (Permutation_length Hf). destruct f1 as [|a f1], f2 as [|b f2]; try done.
    assert (b = a) as ->; [|by rewrite IH].
    destruct (Hin a) as [? ?]; [by left|]. destruct (Hin b) as [? ?]; [rewrite Hf; by left|].
    apply (Hone c); [done..|].
    apply (targets_single (b :: f2)); [done|rewrite <- Hf; by left|by left].
Qed.
End order.

(** What the walk answers is so: a path is a line of verified links, each
    leaving exactly the keys the one before led to and alone in where it
    leads, from the start to the served identity, which no verified link
    leaves; a fork has two verified links to different keys at a place the
    line reached; stale means the line reached the served identity and a
    verified link leaves it. Where consent is asked until a set of keys,
    every link up to them is verified by its consent. *)
Theorem successionPath_answers `{C : Crypto} userId start served links consentUntil memberKeys r
    (Hr : successionPath userId start served links consentUntil memberKeys = r) :
  let c0 := match consentUntil with None => false | Some keys => negb (sameKeys start keys) end in
  let line := line userId start served links consentUntil None c0 in
  let leaves := leaves userId start links in
  match r with
  | Path ls => ∃ last c', ls ≠ [] ∧ line ls (Some last) c' ∧ at_served start served (Some last) = true ∧
      ∀ other, ¬ leaves (Some last) c' other
  | Fork => ∃ ls at' c' a b, line ls at' c' ∧ leaves at' c' a ∧ leaves at' c' b ∧ keysOf a ≠ keysOf b
  | Stale => ∃ ls at' c' a, line ls at' c' ∧ at_served start served at' = true ∧ leaves at' c' a
  | TooMany | NoPath => True
  end.
Proof.
  unfold successionPath in Hr. destruct (over_cap _); [by subst r|].
  eapply walk_answers; [exact Hr|constructor|done].
Qed.

Module WalkWitness.
Definition user := "0c0c0c0c-0000-4000-8000-000000000003".
Definition enc (c : ascii) := encode (fill 32 c).
Definition mlDsa (c : ascii) := encode (fill 1952 c).
Definition kem (c : ascii) := encode (fill 1184 c).
(** From the keys [a] to the keys [b]. *)
Definition unsigned (a b : ascii) (v : Z) : SuccessionLink.t :=
  SuccessionLink.Build_t v (v + 1) (enc a) (enc a) (mlDsa a) (enc b) (enc b) (mlDsa b) (kem b) "" None.
Definition link (a b : ascii) (v : Z) : SuccessionLink.t :=
  let l := unsigned a b v in
  let m := match successionStatement (C := Toy.crypto) (link_statement user l) with Ok m => m | Err _ => "" end in
  SuccessionLink.Build_t v (v + 1) (enc a) (enc a) (mlDsa a) (enc b) (enc b) (mlDsa b) (kem b)
    (encode (Toy.sign_hybrid (fill 32 a) (fill 1952 a) m)) None.
Definition pin (a : ascii) := PinnedKeys.Build_t (Some 1) (enc a) (enc a)
  (match mlDsaDigestOf (C := Toy.crypto) (mlDsa a) with Some h => h | None => "" end).
Definition served (b : ascii) := ServedKeys.Build_t 2 (enc b) (enc b) (mlDsa b) (kem b).
End WalkWitness.

Lemma successionPath_answers_witness :
  let l := WalkWitness.link "a"%char "b"%char 1 in
  let leaves := leaves (C := Toy.crypto) WalkWitness.user (WalkWitness.pin "a"%char) [l] in
  let line := line (C := Toy.crypto) WalkWitness.user (WalkWitness.pin "a"%char) (WalkWitness.served "b"%char) [l] None None false in
  ∃ last c', [l] ≠ [] ∧ line [l] (Some last) c' ∧
    at_served (C := Toy.crypto) (WalkWitness.pin "a"%char) (WalkWitness.served "b"%char) (Some last) = true ∧
    ∀ other, ¬ leaves (Some last) c' other.
Proof.
  apply (successionPath_answers (C := Toy.crypto) WalkWitness.user (WalkWitness.pin "a"%char)
    (WalkWitness.served "b"%char) [WalkWitness.link "a"%char "b"%char 1] None []
    (Path [WalkWitness.link "a"%char "b"%char 1])).
  vm_compute. reflexivity.
Defined.

(** The order links are served in decides nothing, whatever junk is among
    them: when no two different verified links lead to the same keys, every order gives
    the same answer, the same path included. *)
Theorem successionPath_order `{C : Crypto} userId start served l1 l2 consentUntil memberKeys
    (Hperm : l1 ≡ₚ l2) (Hone : one_link_each userId l1) :
  successionPath userId start served l1 consentUntil memberKeys
  = successionPath userId start served l2 consentUntil memberKeys.
Proof.
  unfold successionPath. rewrite (over_cap_perm _ _ _ Hperm). destruct (over_cap _); [done|].
  rewrite (Permutation_length Hperm). by apply walk_perm.
Qed.

Lemma successionPath_order_witness :
  let a := WalkWitness.unsigned "a"%char "b"%char 1 in
  let b := WalkWitness.unsigned "b"%char "c"%char 2 in
  successionPath (C := Toy.crypto) WalkWitness.user (WalkWitness.pin "a"%char) (WalkWitness.served "c"%char) [a; b] None []
  = successionPath (C := Toy.crypto) WalkWitness.user (WalkWitness.pin "a"%char) (WalkWitness.served "c"%char) [b; a] None [].
Proof.
  intros a b. apply (successionPath_order (C := Toy.crypto)); [apply perm_swap|].
  intros consent x y Hx Hy _ _ E. assert (keysOf a ≠ keysOf b) as Hne by (intros [=]; discriminate).
  rewrite !elem_of_cons, elem_of_nil in Hx, Hy. destruct Hx as [->|[->|[]]], Hy as [->|[->|[]]]; congruence.
Defined.
