(* ===== verification/Ledger.v ===== *)
(** * The area ledger of a roster chain (packages/crypto/src/group-trust.ts, area-keys.ts)

    What a chain has listed of its areas - every key and root commitment by
    area and version, the retired areas - with the rules each roster's rows
    follow ([checkAreas], [checkEntries]), the fold of a held roster
    ([foldAreas]) and the rows a roster carries for new keys ([rowsAfter]).
    A [Map] or [Record] keyed by ids is a [gmap], a [Set] a [gset]. *)

From S2P Require Import Prelude Base64url Bytes Canonical HChaCha Crypto Roster.

(** ** Commitments *)

Definition AREA_COMMIT_INFO : string := "hushos/group/area-key/v2".
Definition AREA_ROOT_COMMIT_INFO : string := "hushos/group/area-root/v1".
Definition EARLIER_KEY : string := "This is one of the group’s earlier keys: a rotation needs a new one.".
Definition EARLIER_ROOT : string := "This folder key was used before: a rotation needs a new one.".
Definition NO_ROOT_KEY : string := "A new area key needs its folder’s key beside it.".
Definition OLD_FORMAT : string := "This member list format has no folder keys or deleted folders.".
Definition NOT_AN_AREA : string := "This folder is not one of the group’s.".
Definition RETIRED : string := "This family folder was deleted: it cannot be used again.".
Definition NOT_ROTATED : string := "A roster that removes a family member rotates every area.".
Definition ADMITS_ON_REMOVAL : string := "No one is admitted on the roster that removes a key holder.".
Definition TOO_MANY_AREAS : string := "A family has at most 1,024 areas.".
Definition REUSED_KEY : string := "This area key was used before: a rotation needs a new one.".
Definition REUSED_ROOT : string := "This folder key was used before: a rotation needs a new one.".
Definition DOWNGRADE : string := "This member list is in an older format than the one before it.".
Definition NOT_FOLLOWING_AREAS : string := "This member list does not follow from the one before.".

Section commitments.
Context `{C : Crypto}.

Definition commit (key : bytes) (info : string) : string := encode (hkdf key info).
Definition areaKeyCommitment (workspaceKey : bytes) : result string :=
  refuse "Invalid workspace key." unless slen workspaceKey =? 32 ;; Ok (commit workspaceKey AREA_COMMIT_INFO).
Definition areaRootCommitment (rootKey : bytes) : result string :=
  refuse "Invalid area root key." unless slen rootKey =? 32 ;; Ok (commit rootKey AREA_ROOT_COMMIT_INFO).
End commitments.

(** ** Entries *)

Definition dropsHolder (previous next : Roster.t) : bool :=
  existsb (λ entry, activeWith (Some entry) (Some members_role) &&
    negb (activeWith (rosterEntry next (Member.userId entry)) (Some members_role))) (Roster.members previous).

Definition sameMemberKeys (a b : Member.t) : bool :=
  (Member.keyVersion a =? Member.keyVersion b) &&
  (Member.encryptionPublicKey a === Member.encryptionPublicKey b) &&
  (Member.signingPublicKey a === Member.signingPublicKey b) &&
  (Member.mlDsaPublicKeyDigest a === Member.mlDsaPublicKeyDigest b) &&
  (Member.kemPublicKeyDigest a === Member.kemPublicKeyDigest b).
Definition sameEntry (a b : Member.t) : bool :=
  sameMemberKeys a b && (Member.status a === Member.status b) && (Member.roles a === Member.roles b).

(** The version an entry of [next] must say it last changed at. *)
Definition since_of (previous next : Roster.t) (entry : Member.t) : Z :=
  match rosterEntry previous (Member.userId entry) with
  | Some before => if sameEntry before entry then Member.sinceVersion before else Roster.rosterVersion next
  | None => Roster.rosterVersion next
  end.

Definition checkEntries (previous next : Roster.t) : result unit :=
  refuse NOT_FOLLOWING_AREAS when
    existsb (λ entry, match rosterEntry next (Member.userId entry) with None => true | Some _ => false end)
      (Roster.members previous) ;;
  refuse NOT_FOLLOWING_AREAS when
    existsb (λ entry, negb (Member.sinceVersion entry =? since_of previous next entry)) (Roster.members next) ;;
  Ok tt.

(** ** The ledger *)

Module AreaLedger.
Record t := {
  keys : gmap string (list string); roots : gmap string (list (option string));
  retired : gset string; commitments : gset string; rootCommitments : gset string;
}.
End AreaLedger.

(** [Object.values(...).flat()] as a set. *)
Definition all_keys (keys : gmap string (list string)) : gset string :=
  map_fold (λ _ l s, list_to_set l ∪ s) ∅ keys.
Definition all_roots (roots : gmap string (list (option string))) : gset string :=
  map_fold (λ _ l s, list_to_set (omap id l) ∪ s) ∅ roots.

(** [ledgerOf] the areas a cache keeps; of no cache, [ledgerOf ∅ ∅ ∅]. *)
Definition ledgerOf (keys : gmap string (list string)) (roots : gmap string (list (option string)))
    (retired : gset string) : AreaLedger.t := {|
  AreaLedger.keys := keys; AreaLedger.roots := roots; AreaLedger.retired := retired;
  AreaLedger.commitments := all_keys keys; AreaLedger.rootCommitments := all_roots roots |}.

(** The commitments an area has listed, version 1 first. *)
Definition listed {A} (m : gmap string (list A)) (area : string) : list A := default [] (m !! area).

Definition check_row (ledger : AreaLedger.t) (row : Area.t) : result unit :=
  refuse RETIRED when bool_decide (Area.workspaceId row ∈ AreaLedger.retired ledger) ;;
  let versions := llen (listed (AreaLedger.keys ledger) (Area.workspaceId row)) in
  refuse NOT_FOLLOWING_AREAS when
    negb (Area.workspaceKeyVersion row =? versions + 1) || (Area.retired row && (versions =? 0)) ;;
  Ok tt.

Fixpoint check_fresh (ledger : AreaLedger.t) (fresh freshRoots : gset string) (rows : list Area.t) : result unit :=
  match rows with
  | [] => Ok tt
  | row :: rest =>
      if Area.retired row then check_fresh ledger fresh freshRoots rest
      else
        let commitment := Area.commitment row in
        refuse REUSED_KEY when
          bool_decide (commitment ∈ AreaLedger.commitments ledger) || bool_decide (commitment ∈ fresh) ;;
        match Area.rootCommitment row with
        | None => check_fresh ledger ({[commitment]} ∪ fresh) freshRoots rest
        | Some root =>
            refuse REUSED_ROOT when
              bool_decide (root ∈ AreaLedger.rootCommitments ledger) || bool_decide (root ∈ freshRoots) ;;
            check_fresh ledger ({[commitment]} ∪ fresh) ({[root]} ∪ freshRoots) rest
        end
  end.

(** [for (...) ...] over a list whose body may throw. *)
Fixpoint each {A} (f : A → result unit) (l : list A) : result unit :=
  match l with [] => Ok tt | x :: l' => let* _ := f x in each f l' end.

Definition is_active (entry : option Member.t) : bool :=
  match entry with Some m => Member.status m === active | None => false end.

Definition leaving (previous next : Roster.t) : bool :=
  existsb (λ entry, (Member.status entry === left_) && is_active (rosterEntry previous (Member.userId entry)))
    (Roster.members next).
Definition admits (previous next : Roster.t) : bool :=
  existsb (λ entry, (Member.status entry === active) && negb (is_active (rosterEntry previous (Member.userId entry))))
    (Roster.members next).

Definition live_areas (ledger : AreaLedger.t) : Z :=
  Z.of_nat (size (AreaLedger.keys ledger)) - Z.of_nat (size (AreaLedger.retired ledger)).
Definition created_rows (ledger : AreaLedger.t) (rows : list Area.t) : list Area.t :=
  filter (λ row, AreaLedger.keys ledger !! Area.workspaceId row = None) rows.
Definition retiring_rows (rows : list Area.t) : list Area.t := filter (λ row, Area.retired row = true) rows.

Definition checkAreas (ledger : AreaLedger.t) (previous : option Roster.t) (next : Roster.t) : result unit :=
  refuse DOWNGRADE when
    match previous with
    | Some previous => format_number (Roster.format next) <? format_number (Roster.format previous)
    | None => false
    end ;;
  let rows := Roster.areas next in
  let* _ := each (check_row ledger) rows in
  let* _ := check_fresh ledger ∅ ∅ rows in
  refuse TOO_MANY_AREAS when (Roster.kind next === family) &&
    (MAX_FAMILY_AREAS <? live_areas ledger + llen (created_rows ledger rows) - llen (retiring_rows rows)) ;;
  match previous with
  | None => Ok tt
  | Some previous =>
      let handled : gset string := list_to_set (map Area.workspaceId rows) in
      refuse NOT_ROTATED when (Roster.kind next === family) && leaving previous next &&
        bool_decide (¬ dom (AreaLedger.keys ledger) ⊆ AreaLedger.retired ledger ∪ handled) ;;
      refuse ADMITS_ON_REMOVAL when admits previous next && dropsHolder previous next ;;
      Ok tt
  end.

Definition fold_row (ledger : AreaLedger.t) (row : Area.t) : AreaLedger.t :=
  let area := Area.workspaceId row in
  if Area.retired row then {|
    AreaLedger.keys := AreaLedger.keys ledger; AreaLedger.roots := AreaLedger.roots ledger;
    AreaLedger.retired := {[area]} ∪ AreaLedger.retired ledger;
    AreaLedger.commitments := AreaLedger.commitments ledger;
    AreaLedger.rootCommitments := AreaLedger.rootCommitments ledger |}
  else {|
    AreaLedger.keys := <[area := listed (AreaLedger.keys ledger) area ++ [Area.commitment row]]> (AreaLedger.keys ledger);
    AreaLedger.roots :=
      <[area := listed (AreaLedger.roots ledger) area ++ [Area.rootCommitment row]]> (AreaLedger.roots ledger);
    AreaLedger.retired := AreaLedger.retired ledger;
    AreaLedger.commitments := {[Area.commitment row]} ∪ AreaLedger.commitments ledger;
    AreaLedger.rootCommitments :=
      match Area.rootCommitment row with Some root => {[root]} ∪ AreaLedger.rootCommitments ledger
      | None => AreaLedger.rootCommitments ledger end |}.
Definition foldAreas (ledger : AreaLedger.t) (roster : Roster.t) : AreaLedger.t :=
  foldl fold_row ledger (Roster.areas roster).

(** ** The rows for new keys *)

Module AreaKey.
Record t := { workspaceId : string; workspaceKey : bytes; rootKey : option bytes }.
End AreaKey.
Module ListedAreas.
Record t := { keys : gmap string (list string); roots : gmap string (list (option string)); retired : gset string }.
End ListedAreas.

Definition NOTHING_LISTED : ListedAreas.t := ListedAreas.Build_t ∅ ∅ ∅.

(** Each area named once, well formed, and none retired. *)
Fixpoint check_named (retired : gset string) (areas : gset string) (ids : list string) : result unit :=
  match ids with
  | [] => Ok tt
  | workspaceId :: rest =>
      let* _ := uuid (JStr workspaceId) "workspace id" in
      refuse "Invalid roster areas." when bool_decide (workspaceId ∈ areas) ;;
      refuse RETIRED when bool_decide (workspaceId ∈ retired) ;;
      check_named retired ({[workspaceId]} ∪ areas) rest
  end.

Section rows.
Context `{C : Crypto}.

Fixpoint key_rows (listed_ : ListedAreas.t) (format : RosterFormat) (fresh freshRoots : gset string)
    (keys : list AreaKey.t) : result (list Area.t) :=
  match keys with
  | [] => Ok []
  | key :: rest =>
      refuse match format with format1 => OLD_FORMAT | format2 => NO_ROOT_KEY end when
        match format, AreaKey.rootKey key with format1, Some _ | format2, None => true | _, _ => false end ;;
      let* commitment := areaKeyCommitment (AreaKey.workspaceKey key) in
      refuse EARLIER_KEY when
        bool_decide (commitment ∈ all_keys (ListedAreas.keys listed_)) || bool_decide (commitment ∈ fresh) ;;
      let version := llen (listed (ListedAreas.keys listed_) (AreaKey.workspaceId key)) + 1 in
      match AreaKey.rootKey key with
      | None =>
          let* rows := key_rows listed_ format ({[commitment]} ∪ fresh) freshRoots rest in
          Ok (Area.Build_t (AreaKey.workspaceId key) version commitment None false :: rows)
      | Some rootKey =>
          let* root := areaRootCommitment rootKey in
          refuse EARLIER_ROOT when
            bool_decide (root ∈ all_roots (ListedAreas.roots listed_)) || bool_decide (root ∈ freshRoots) ;;
          let* rows := key_rows listed_ format ({[commitment]} ∪ fresh) ({[root]} ∪ freshRoots) rest in
          Ok (Area.Build_t (AreaKey.workspaceId key) version commitment (Some root) false :: rows)
      end
  end.

Definition retire_row (listed_ : ListedAreas.t) (workspaceId : string) : result Area.t :=
  let versions := llen (listed (ListedAreas.keys listed_) workspaceId) in
  refuse NOT_AN_AREA when versions =? 0 ;;
  Ok (Area.Build_t workspaceId (versions + 1) "" None true).

(** [rows.sort(...)] by workspace id. *)
Definition row_le (a b : Area.t) : Prop := String.le (Area.workspaceId a) (Area.workspaceId b).
#[export] Instance row_le_dec a b : Decision (row_le a b).
Proof. unfold row_le. apply _. Defined.

Definition rowsAfter (listed_ : ListedAreas.t) (keys : list AreaKey.t) (format : RosterFormat) (retire : list string)
    : result (list Area.t) :=
  refuse OLD_FORMAT when (format === format1) && (0 <? llen retire) ;;
  let* _ := check_named (ListedAreas.retired listed_) ∅ (map AreaKey.workspaceId keys ++ retire) in
  let* rows := key_rows listed_ format ∅ ∅ keys in
  let* tombstones := mapM (retire_row listed_) retire in
  Ok (merge_sort row_le (rows ++ tombstones)).
End rows.

(** ** Lemmas *)

Lemma each_ok {A} (f : A → result unit) l : each f l = Ok tt ↔ ∀ x, x ∈ l → f x = Ok tt.
Proof.
  induction l as [|x l IH]; cbn [each]; [split; [by intros _ x ?%not_elem_of_nil|done]|].
  destruct (f x) as [[]|e] eqn:E; cbn [mbind res_bind].
  - rewrite IH. split; [intros H y [->|Hy]%elem_of_cons; auto|intros H y Hy; apply H; by right].
  - split; [done|]. intros H. rewrite (H x) in E by left. done.
Qed.

(** The new commitments a roster's rows list, and the root commitments beside them. *)
Definition new_keys (rows : list Area.t) : list string :=
  omap (λ row, if Area.retired row then None else Some (Area.commitment row)) rows.
Definition new_roots (rows : list Area.t) : list string :=
  omap (λ row, if Area.retired row then None else Area.rootCommitment row) rows.

Lemma check_fresh_ok ledger fresh freshRoots rows : check_fresh ledger fresh freshRoots rows = Ok tt ↔
  NoDup (new_keys rows) ∧ (∀ c, c ∈ new_keys rows → c ∉ AreaLedger.commitments ledger ∧ c ∉ fresh) ∧
  NoDup (new_roots rows) ∧ (∀ c, c ∈ new_roots rows → c ∉ AreaLedger.rootCommitments ledger ∧ c ∉ freshRoots).
Proof.
  revert fresh freshRoots; induction rows as [|row rows IH]; intros fresh freshRoots.
  { cbn. split; [|done]. intros _. split_and!; [constructor|by intros ? ?%not_elem_of_nil|constructor|by intros ? ?%not_elem_of_nil]. }
  cbn [check_fresh]. unfold new_keys, new_roots in *. cbn [omap list_omap].
  destruct (Area.retired row); [by rewrite IH|].
  destruct (bool_decide _ || bool_decide _) eqn:Ec.
  { split; [done|]. intros (_ & Hc & _). exfalso. destruct (Hc (Area.commitment row)) as [? ?]; [by left|].
    apply orb_true_iff in Ec as [Ec|Ec]; by bool_simpl. }
  apply orb_false_iff in Ec as [Ec1 Ec2]. bool_simpl.
  destruct (Area.rootCommitment row) as [root|].
  - destruct (bool_decide _ || bool_decide _) eqn:Er.
    { split; [done|]. intros (_ & _ & _ & Hc). exfalso. destruct (Hc root) as [? ?]; [by left|].
      apply orb_true_iff in Er as [Er|Er]; by bool_simpl. }
    apply orb_false_iff in Er as [Er1 Er2]. bool_simpl. rewrite IH, !NoDup_cons. set_solver.
  - rewrite IH, !NoDup_cons. set_solver.
Qed.

Lemma check_row_ok ledger row : check_row ledger row = Ok tt ↔
  Area.workspaceId row ∉ AreaLedger.retired ledger ∧
  Area.workspaceKeyVersion row = llen (listed (AreaLedger.keys ledger) (Area.workspaceId row)) + 1 ∧
  (Area.retired row = true → listed (AreaLedger.keys ledger) (Area.workspaceId row) ≠ []).
Proof.
  unfold check_row. case_bool_decide as Hr; [by split; [|intros [? _]]|]. cbv zeta.
  unfold llen. set (l := listed _ _). destruct (_ || _) eqn:E.
  - split; [done|]. intros (_ & Hv & Hl). apply orb_true_iff in E as [E|E]; bool_simpl; [done|].
    exfalso. destruct l; [by apply Hl|done].
  - bool_simpl. split; [|done]. intros _. split_and!; try done. intros Hret ->.
    match goal with H : _ && _ = false |- _ => rewrite Hret in H; discriminate H end.
Qed.

(** ** The ledger's invariant *)

Record ledger_wf (l : AreaLedger.t) : Prop := {
  wf_dom a : a ∈ dom (AreaLedger.keys l) ↔ a ∈ dom (AreaLedger.roots l);
  wf_length a : length (listed (AreaLedger.keys l) a) = length (listed (AreaLedger.roots l) a);
  wf_nonempty a : a ∈ dom (AreaLedger.keys l) ↔ listed (AreaLedger.keys l) a ≠ [];
  wf_commitments c : c ∈ AreaLedger.commitments l ↔ ∃ a i, listed (AreaLedger.keys l) a !! i = Some c;
  wf_rootCommitments c : c ∈ AreaLedger.rootCommitments l ↔ ∃ a i, listed (AreaLedger.roots l) a !! i = Some (Some c);
  wf_retired : AreaLedger.retired l ⊆ dom (AreaLedger.keys l);
  wf_unique a i b j c : listed (AreaLedger.keys l) a !! i = Some c → listed (AreaLedger.keys l) b !! j = Some c →
    a = b ∧ i = j;
  wf_unique_roots a i b j c : listed (AreaLedger.roots l) a !! i = Some (Some c) →
    listed (AreaLedger.roots l) b !! j = Some (Some c) → a = b ∧ i = j;
}.

Lemma listed_insert_eq {A} (m : gmap string (list A)) a l : listed (<[a := l]> m) a = l.
Proof. unfold listed. by rewrite lookup_insert_eq. Qed.
Lemma listed_insert_ne {A} (m : gmap string (list A)) a b l : a ≠ b → listed (<[a := l]> m) b = listed m b.
Proof. intros. unfold listed. by rewrite lookup_insert_ne. Qed.

(** The lookups an appended commitment adds. *)
Lemma listed_snoc {A} (m : gmap string (list A)) a x b i y :
  listed (<[a := listed m a ++ [x]]> m) b !! i = Some y ↔
  listed m b !! i = Some y ∨ (b = a ∧ i = length (listed m a) ∧ y = x).
Proof.
  destruct (decide (a = b)) as [<-|Hne].
  - rewrite listed_insert_eq, lookup_app_Some. split.
    + intros [?|[? [? ?]%list_lookup_singleton_Some]]; [by left|right]. split_and!; [done|lia|done].
    + intros [?|(_ & -> & ->)]; [by left|right]. by rewrite Nat.sub_diag.
  - rewrite listed_insert_ne by done. naive_solver.
Qed.

Lemma fold_row_wf l row : ledger_wf l → check_row l row = Ok tt → check_fresh l ∅ ∅ [row] = Ok tt →
  ledger_wf (fold_row l row).
Proof.
  intros Hwf (Hret & Hver & Htomb)%check_row_ok (_ & Hk & _ & Hr)%check_fresh_ok.
  unfold fold_row, new_keys, new_roots in *. cbn [omap list_omap] in *. destruct (Area.retired row).
  - destruct Hwf. split; cbn; try done. apply union_subseteq. split; [|done].
    apply singleton_subseteq_l, wf_nonempty0. by apply Htomb.
  - set (area := Area.workspaceId row) in *. set (c := Area.commitment row) in *.
    destruct (Hk c) as [Hc _]; [by left|]. destruct Hwf. split; cbn [AreaLedger.keys AreaLedger.roots
      AreaLedger.commitments AreaLedger.rootCommitments AreaLedger.retired].
    + intros a. rewrite !dom_insert, !elem_of_union. by rewrite wf_dom0.
    + intros a. destruct (decide (area = a)) as [<-|]; [|by rewrite !listed_insert_ne].
      by rewrite !listed_insert_eq, !length_app, wf_length0.
    + intros a. rewrite dom_insert, elem_of_union, elem_of_singleton.
      destruct (decide (area = a)) as [<-|]; [rewrite listed_insert_eq|rewrite listed_insert_ne by done].
      * split; [by intros _ [_ [=]]%app_nil|by left].
      * rewrite wf_nonempty0. naive_solver.
    + intros x. rewrite elem_of_union, elem_of_singleton, wf_commitments0. setoid_rewrite listed_snoc. naive_solver.
    + intros x. setoid_rewrite listed_snoc. destruct (Area.rootCommitment row) as [root|].
      * rewrite elem_of_union, elem_of_singleton, wf_rootCommitments0. naive_solver.
      * rewrite wf_rootCommitments0. naive_solver.
    + rewrite dom_insert. set_solver.
    + intros a i b j x [Ha|(-> & -> & ->)]%listed_snoc [Hb|(-> & -> & Ex)]%listed_snoc; try done; [by eapply wf_unique0| |].
      * subst x. exfalso. apply Hc, wf_commitments0. eauto.
      * exfalso. apply Hc, wf_commitments0. eauto.
    + intros a i b j x Ha Hb. apply listed_snoc in Ha, Hb.
      destruct Ha as [Ha|(-> & -> & Ea)], Hb as [Hb|(-> & -> & Eb)]; try done; [by eapply wf_unique_roots0| |];
        exfalso; destruct (Area.rootCommitment row) as [root|]; try done; simplify_eq;
        (destruct (Hr root) as [Hroot _]; [by left|]); apply Hroot, wf_rootCommitments0; eauto.
Qed.

(** The rows a roster may carry after a ledger. *)
Definition rows_follow (l : AreaLedger.t) (rows : list Area.t) : Prop :=
  (∀ row, row ∈ rows → check_row l row = Ok tt) ∧ check_fresh l ∅ ∅ rows = Ok tt ∧
  NoDup (map Area.workspaceId rows).

Lemma fold_row_listed l row a : Area.workspaceId row ≠ a →
  listed (AreaLedger.keys (fold_row l row)) a = listed (AreaLedger.keys l) a ∧
  listed (AreaLedger.roots (fold_row l row)) a = listed (AreaLedger.roots l) a ∧
  (a ∈ AreaLedger.retired (fold_row l row) ↔ a ∈ AreaLedger.retired l) ∧
  (a ∈ dom (AreaLedger.keys (fold_row l row)) ↔ a ∈ dom (AreaLedger.keys l)).
Proof.
  intros Hne. unfold fold_row. destruct (Area.retired row); cbn; [split_and!; set_solver|].
  rewrite !listed_insert_ne by done. split_and!; set_solver.
Qed.

Lemma rows_follow_cons l row rows : rows_follow l (row :: rows) →
  check_row l row = Ok tt ∧ check_fresh l ∅ ∅ [row] = Ok tt ∧ Area.workspaceId row ∉ map Area.workspaceId rows ∧
  rows_follow (fold_row l row) rows.
Proof.
  intros (Hrow & (Hk & Hkc & Hr & Hrc)%check_fresh_ok & Hnd). cbn in Hnd. apply NoDup_cons in Hnd as [Hnew Hnd].
  unfold new_keys, new_roots in *. cbn [omap list_omap] in *. split; [apply Hrow; by left|].
  split; [|split; [done|split; [|split; [|done]]]].
  - apply check_fresh_ok. unfold new_keys, new_roots. cbn [omap list_omap].
    destruct (Area.retired row); [split_and!; try apply NoDup_nil_2; set_solver|].
    destruct (Area.rootCommitment row); split_and!;
      first [apply NoDup_singleton | apply NoDup_nil_2 | set_solver].
  - intros row' Hin. assert (Area.workspaceId row ≠ Area.workspaceId row') as Hne.
    { intros E. apply Hnew. rewrite E. by apply list_elem_of_fmap_2. }
    destruct (fold_row_listed l row _ Hne) as (El & _ & Eret & _).
    apply check_row_ok. rewrite El, Eret. apply check_row_ok, Hrow. by right.
  - apply check_fresh_ok. unfold fold_row, new_keys, new_roots in *. destruct (Area.retired row); cbn; [done|].
    apply NoDup_cons in Hk as [? ?]. destruct (Area.rootCommitment row); [apply NoDup_cons in Hr as [? ?]|];
      split_and!; set_solver.
Qed.

Lemma fold_rows_wf l rows : ledger_wf l → rows_follow l rows → ledger_wf (foldl fold_row l rows).
Proof.
  revert l; induction rows as [|row rows IH]; intros l Hwf Hf; [done|].
  apply rows_follow_cons in Hf as (? & ? & _ & Hf). cbn. apply IH; [by apply fold_row_wf|done].
Qed.

(** What the rows leave of one area: the row naming it, or nothing new. *)
Lemma fold_rows_other l rows a : a ∉ map Area.workspaceId rows →
  listed (AreaLedger.keys (foldl fold_row l rows)) a = listed (AreaLedger.keys l) a ∧
  listed (AreaLedger.roots (foldl fold_row l rows)) a = listed (AreaLedger.roots l) a ∧
  (a ∈ AreaLedger.retired (foldl fold_row l rows) ↔ a ∈ AreaLedger.retired l).
Proof.
  revert l; induction rows as [|row rows IH]; intros l Ha; [done|]. cbn in *.
  apply not_elem_of_cons in Ha as [Hne Ha]. destruct (IH (fold_row l row) Ha) as (-> & -> & ->).
  by destruct (fold_row_listed l row a) as (-> & -> & -> & _).
Qed.

Lemma fold_rows_row l rows row : NoDup (map Area.workspaceId rows) → row ∈ rows →
  let l' := foldl fold_row l rows in let a := Area.workspaceId row in
  if Area.retired row then
    a ∈ AreaLedger.retired l' ∧ listed (AreaLedger.keys l') a = listed (AreaLedger.keys l) a ∧
    listed (AreaLedger.roots l') a = listed (AreaLedger.roots l) a
  else
    listed (AreaLedger.keys l') a = listed (AreaLedger.keys l) a ++ [Area.commitment row] ∧
    listed (AreaLedger.roots l') a = listed (AreaLedger.roots l) a ++ [Area.rootCommitment row].
Proof.
  revert l; induction rows as [|row' rows IH]; intros l Hnd Hin; [by apply not_elem_of_nil in Hin|].
  cbn in *. apply NoDup_cons in Hnd as [Hnew Hnd]. apply elem_of_cons in Hin as [->|Hin].
  - destruct (fold_rows_other (fold_row l row') rows _ Hnew) as (-> & -> & Hret).
    destruct (Area.retired row') eqn:E; [rewrite Hret|]; unfold fold_row; rewrite E; cbn;
      [set_solver|by rewrite !listed_insert_eq].
  - assert (Area.workspaceId row' ≠ Area.workspaceId row) as Hne.
    { intros E. apply Hnew. rewrite E. by apply list_elem_of_fmap_2. }
    specialize (IH (fold_row l row') Hnd Hin). destruct (fold_row_listed l row' _ Hne) as (<- & <- & _). done.
Qed.

Lemma filter_ext_elem {A} (P Q : A → Prop) `{!∀ x, Decision (P x), !∀ x, Decision (Q x)} (l : list A) :
  (∀ x, x ∈ l → P x ↔ Q x) → filter P l = filter Q l.
Proof.
  induction l as [|x l IH]; intros Heq; [done|]. rewrite !filter_cons, IH by (intros; apply Heq; by right).
  assert (P x ↔ Q x) as Hx by (apply Heq; by left). repeat case_decide; tauto.
Qed.

(** The live areas, row by row. *)
Lemma fold_row_live l row : check_row l row = Ok tt →
  live_areas (fold_row l row) = live_areas l + llen (created_rows l [row]) - llen (retiring_rows [row]).
Proof.
  intros (Hret & _ & Htomb)%check_row_ok. unfold live_areas, created_rows, retiring_rows, fold_row, llen.
  rewrite !filter_cons, !filter_nil. destruct (Area.retired row); cbn [AreaLedger.keys AreaLedger.retired].
  - rewrite (decide_True (P := true = true)) by done. rewrite size_union by set_solver. rewrite size_singleton.
    destruct (decide _) as [Hn|]; [|cbn [length]; lia]. exfalso. apply Htomb; [done|]. unfold listed. by rewrite Hn.
  - rewrite (decide_False (P := false = true)) by done.
    destruct (AreaLedger.keys l !! Area.workspaceId row) as [old|] eqn:E.
    + rewrite (decide_False (P := Some old = None)) by done. rewrite map_size_insert_Some by (by rewrite E). cbn. lia.
    + rewrite (decide_True (P := None = None)) by done. rewrite map_size_insert_None by done. cbn [length]. lia.
Qed.

Lemma fold_rows_live l rows : rows_follow l rows →
  live_areas (foldl fold_row l rows) = live_areas l + llen (created_rows l rows) - llen (retiring_rows rows).
Proof.
  revert l; induction rows as [|row rows IH]; intros l Hf.
  { unfold llen, created_rows, retiring_rows. rewrite !filter_nil. cbn. lia. }
  apply rows_follow_cons in Hf as (Hrow & _ & Hnew & Hf). cbn [foldl]. rewrite (IH _ Hf), (fold_row_live _ _ Hrow).
  assert (created_rows (fold_row l row) rows = created_rows l rows) as ->.
  { apply filter_ext_elem. intros row' Hi.
    assert (Area.workspaceId row ≠ Area.workspaceId row') as Hne.
    { intros E. apply Hnew. rewrite E. by apply list_elem_of_fmap_2. }
    destruct (fold_row_listed l row _ Hne) as (_ & _ & _ & Hdom). rewrite <-!not_elem_of_dom. by rewrite Hdom. }
  change (row :: rows) with ([row] ++ rows). unfold created_rows, retiring_rows, llen.
  rewrite !filter_app, !length_app, !Nat2Z.inj_add. ring.
Qed.

(** The union of an object's lists. *)
Lemma elem_of_all {A} (g : list A → gset string) (m : gmap string (list A)) c (P : A → Prop) :
  (∀ l, c ∈ g l ↔ ∃ i x, l !! i = Some x ∧ P x) →
  c ∈ map_fold (λ _ l s, g l ∪ s) ∅ m ↔ ∃ a i x, listed m a !! i = Some x ∧ P x.
Proof.
  intros Hg. apply (map_fold_weak_ind (λ s m, c ∈ s ↔ ∃ a i x, listed m a !! i = Some x ∧ P x)).
  - split; [set_solver|]. intros (a & i & x & H & _). unfold listed in H. by rewrite lookup_empty in H.
  - intros a l m' s Ha IH. rewrite elem_of_union, Hg, IH. split.
    + intros [(i & x & Hx)|(b & i & x & Hx & HP)].
      * exists a, i, x. by rewrite listed_insert_eq.
      * exists b, i, x. rewrite listed_insert_ne; [done|]. intros ->. unfold listed in Hx. by rewrite Ha in Hx.
    + intros (b & i & x & Hx). destruct (decide (a = b)) as [<-|Hne].
      * rewrite listed_insert_eq in Hx. eauto.
      * rewrite listed_insert_ne in Hx by done. eauto.
Qed.

Lemma elem_of_all_keys m c : c ∈ all_keys m ↔ ∃ a i, listed m a !! i = Some c.
Proof.
  unfold all_keys. rewrite (elem_of_all _ m c (λ x, x = c)); [naive_solver|].
  intros l. rewrite elem_of_list_to_set, list_elem_of_lookup. naive_solver.
Qed.
Lemma elem_of_all_roots m c : c ∈ all_roots m ↔ ∃ a i, listed m a !! i = Some (Some c).
Proof.
  unfold all_roots. rewrite (elem_of_all _ m c (λ x, x = Some c)); [naive_solver|].
  intros l. rewrite elem_of_list_to_set, list_elem_of_omap. setoid_rewrite list_elem_of_lookup. unfold id. naive_solver.
Qed.

(** A cache keeps the listed areas; the ledger read back of it is the ledger it was written from. *)
Lemma ledgerOf_wf l : ledger_wf l → ledgerOf (AreaLedger.keys l) (AreaLedger.roots l) (AreaLedger.retired l) = l.
Proof.
  intros Hwf. destruct l as [keys roots retired commitments rootCommitments]. unfold ledgerOf. cbn. f_equal.
  - apply set_eq. intros c. rewrite elem_of_all_keys. symmetry. apply (wf_commitments _ Hwf).
  - apply set_eq. intros c. rewrite elem_of_all_roots. symmetry. apply (wf_rootCommitments _ Hwf).
Qed.

(** ** A chain's ledger *)

Definition NO_LEDGER : AreaLedger.t := ledgerOf ∅ ∅ ∅.

(** The ledger of an accepted chain and its last roster. *)
Inductive folded : AreaLedger.t → option Roster.t → Prop :=
  | folded_nothing : folded NO_LEDGER None
  | folded_roster ledger previous next :
      folded ledger previous → roster_wf next → checkAreas ledger previous next = Ok tt →
      folded (foldAreas ledger next) (Some next).

(** One more roster accepted. *)
Inductive fold_step : AreaLedger.t * option Roster.t → AreaLedger.t * option Roster.t → Prop :=
  | fold_next ledger previous next :
      roster_wf next → checkAreas ledger previous next = Ok tt →
      fold_step (ledger, previous) (foldAreas ledger next, Some next).

Lemma roster_wf_areas r : roster_wf r → NoDup (map Area.workspaceId (Roster.areas r)).
Proof. by intros (_ & _ & _ & _ & _ & _ & _ & _ & _ & _ & ? & _). Qed.

Lemma checkAreas_inv ledger previous next : roster_wf next → checkAreas ledger previous next = Ok tt →
  rows_follow ledger (Roster.areas next) ∧
  (Roster.kind next = family → live_areas (foldAreas ledger next) ≤ MAX_FAMILY_AREAS) ∧
  (∀ before, previous = Some before →
    (Roster.kind next = family → leaving before next = true → dom (AreaLedger.keys ledger) ⊆
      AreaLedger.retired ledger ∪ list_to_set (map Area.workspaceId (Roster.areas next))) ∧
    (admits before next = true → dropsHolder before next = false) ∧
    format_number (Roster.format before) ≤ format_number (Roster.format next)).
Proof.
  intros Hnd%roster_wf_areas. unfold checkAreas. match goal with |- (if ?b then _ else _) = _ → _ => destruct b eqn:Ef; [done|] end.
  cbv zeta. intros H. apply bind_ok in H as ([] & Hrows & H). apply bind_ok in H as ([] & Hfresh & H).
  assert (rows_follow ledger (Roster.areas next)) as Hf by (split_and!; [by apply each_ok|done..]).
  destruct (_ && (MAX_FAMILY_AREAS <? _)) eqn:Hmax; [done|]. split; [done|]. split.
  - intros Hk. rewrite bool_decide_eq_true_2 in Hmax by done. cbn [andb] in Hmax. bool_simpl.
    unfold foldAreas. rewrite fold_rows_live by done. lia.
  - intros before ->. bool_simpl. destruct (_ && bool_decide (¬ _)) eqn:Hrot; [done|].
    destruct (admits before next && _) eqn:Ha; [done|]. split_and!; [| |done].
    + intros Hk Hl. rewrite Hl, (bool_decide_eq_true_2 (_ = family)) in Hrot by done. cbn [andb] in Hrot. bool_simpl.
      by apply dec_stable.
    + intros Had. by rewrite Had in Ha.
Qed.

Lemma NO_LEDGER_wf : ledger_wf NO_LEDGER.
Proof.
  assert (∀ A (a : string), listed (∅ : gmap string (list A)) a = []) as He.
  { intros. unfold listed. by rewrite lookup_empty. }
  split; unfold NO_LEDGER, ledgerOf; cbn [AreaLedger.keys AreaLedger.roots AreaLedger.retired
    AreaLedger.commitments AreaLedger.rootCommitments]; intros *; rewrite ?He, ?dom_empty_L; try done.
  - apply elem_of_all_keys.
  - apply elem_of_all_roots.
Qed.

Lemma folded_wf ledger last : folded ledger last → ledger_wf ledger.
Proof.
  induction 1 as [|ledger previous next _ IH Hwf Hc]; [apply NO_LEDGER_wf|].
  apply checkAreas_inv in Hc as [? _]; [|done]. by apply fold_rows_wf.
Qed.

Lemma leaving_true before next : leaving before next = true ↔
  ∃ m m', m ∈ Roster.members next ∧ Member.status m = left_ ∧
    rosterEntry before (Member.userId m) = Some m' ∧ Member.status m' = active.
Proof.
  unfold leaving. rewrite existsb_exists. setoid_rewrite <-list_elem_of_In. setoid_rewrite andb_true_iff.
  split.
  - intros (m & Hin & Hl & Ha). bool_simpl. unfold is_active in Ha.
    destruct (rosterEntry _ _) as [m'|] eqn:E; [|done]. bool_simpl. eauto 10.
  - intros (m & m' & Hin & Hl & He & Ha). exists m. rewrite He. cbn. rewrite Hl, Ha. done.
Qed.

Lemma rosterEntry_Some r u m : rosterEntry r u = Some m → m ∈ Roster.members r ∧ Member.userId m = u.
Proof.
  unfold rosterEntry. intros ([i m'] & Hf & ->)%fmap_Some_1. apply list_find_Some in Hf as (Hi & <- & _).
  split; [by eapply list_elem_of_lookup_2|done].
Qed.

Lemma rosterEntry_elem r m : NoDup (map Member.userId (Roster.members r)) → m ∈ Roster.members r →
  rosterEntry r (Member.userId m) = Some m.
Proof.
  intros Hnd Hin. unfold rosterEntry. destruct (list_find _ _) as [[i m']|] eqn:E; cbn.
  - apply list_find_Some in E as (Hi & Hu & _). f_equal. apply list_elem_of_lookup_1 in Hin as [j Hj].
    assert (i = j) as ->; [|by simplify_eq].
    eapply NoDup_lookup; [exact Hnd| |]; rewrite list_lookup_fmap; [by rewrite Hi|by rewrite Hj; cbn; f_equal].
  - apply list_find_None in E. rewrite Forall_forall in E. by destruct (E m Hin).
Qed.

Lemma roster_wf_members r : roster_wf r → NoDup (map Member.userId (Roster.members r)).
Proof. by intros (_ & _ & _ & _ & _ & _ & _ & ? & _). Qed.

Lemma dropsHolder_left previous next entry before :
  NoDup (map Member.userId (Roster.members next)) → entry ∈ Roster.members next → Member.status entry = left_ →
  rosterEntry previous (Member.userId entry) = Some before → Member.status before = active →
  members_role ∈ Member.roles before → dropsHolder previous next = true.
Proof.
  intros Hnd Hin Hl (Hb & Hu)%rosterEntry_Some Ha Hr. apply existsb_exists. exists before.
  split; [by apply list_elem_of_In|]. rewrite Hu, rosterEntry_elem by done. cbn. rewrite Ha, Hl.
  by rewrite (bool_decide_eq_true_2 (members_role ∈ _)).
Qed.

(** What stays of a ledger as its chain grows: nothing listed goes away, and a retired area lists nothing more. *)
Definition grows (l l' : AreaLedger.t) : Prop :=
  (∀ a, listed (AreaLedger.keys l) a `prefix_of` listed (AreaLedger.keys l') a ∧
    listed (AreaLedger.roots l) a `prefix_of` listed (AreaLedger.roots l') a) ∧
  AreaLedger.retired l ⊆ AreaLedger.retired l' ∧
  ∀ a, a ∈ AreaLedger.retired l → listed (AreaLedger.keys l') a = listed (AreaLedger.keys l) a.

#[export] Instance grows_preorder : PreOrder grows.
Proof.
  split; [by intros l|]. intros l1 l2 l3 (Hp1 & Hr1 & Hs1) (Hp2 & Hr2 & Hs2). split_and!.
  - intros a. destruct (Hp1 a), (Hp2 a). split; by etrans.
  - by etrans.
  - intros a Ha. rewrite Hs2 by set_solver. by apply Hs1.
Qed.

Lemma fold_rows_area l rows a : rows_follow l rows →
  (a ∉ map Area.workspaceId rows) ∨ ∃ row, row ∈ rows ∧ Area.workspaceId row = a ∧ a ∉ AreaLedger.retired l.
Proof.
  intros (Hrow & _ & _). destruct (decide (a ∈ map Area.workspaceId rows)) as [Ha|]; [right|by left].
  apply list_elem_of_fmap in Ha as (row & -> & Hin). exists row.
  by destruct (proj1 (check_row_ok _ _) (Hrow row Hin)) as [? _].
Qed.

Lemma foldAreas_grows l previous next : roster_wf next → checkAreas l previous next = Ok tt →
  grows l (foldAreas l next).
Proof.
  intros Hwf Hc. apply checkAreas_inv in Hc as [Hf _]; [|done]. pose proof Hf as (_ & _ & Hnd).
  assert (∀ a, (listed (AreaLedger.keys l) a `prefix_of` listed (AreaLedger.keys (foldAreas l next)) a ∧
    listed (AreaLedger.roots l) a `prefix_of` listed (AreaLedger.roots (foldAreas l next)) a) ∧
    (a ∈ AreaLedger.retired l → a ∈ AreaLedger.retired (foldAreas l next) ∧
      listed (AreaLedger.keys (foldAreas l next)) a = listed (AreaLedger.keys l) a)) as H.
  2: { split_and!; [intros a|intros a Ha|intros a Ha]; by apply H. }
  intros a. unfold foldAreas. destruct (fold_rows_area l _ a Hf) as [Ha|(row & Hin & <- & Hr)].
  - destruct (fold_rows_other l _ a Ha) as (-> & -> & ->). done.
  - pose proof (fold_rows_row l _ row Hnd Hin) as H. cbv zeta in H.
    destruct (Area.retired row); [destruct H as (_ & -> & ->); done|].
    destruct H as (-> & ->). split; [|done]. split; by eexists.
Qed.

(** *** Entries along a chain *)

(** The rosters of a chain, newest first, as the entry rules see them. *)
Inductive follows : list Roster.t → Prop :=
  | follows_first r : roster_wf r → Roster.rosterVersion r = 1 → follows [r]
  | follows_next r previous rs : follows (previous :: rs) → roster_wf r →
      Roster.rosterVersion r = Roster.rosterVersion previous + 1 → checkEntries previous r = Ok tt →
      follows (r :: previous :: rs).

Lemma sameEntry_true a b : sameEntry a b = true ↔
  Member.keyVersion a = Member.keyVersion b ∧ Member.encryptionPublicKey a = Member.encryptionPublicKey b ∧
  Member.signingPublicKey a = Member.signingPublicKey b ∧
  Member.mlDsaPublicKeyDigest a = Member.mlDsaPublicKeyDigest b ∧
  Member.kemPublicKeyDigest a = Member.kemPublicKeyDigest b ∧
  Member.status a = Member.status b ∧ Member.roles a = Member.roles b.
Proof.
  unfold sameEntry, sameMemberKeys. rewrite !andb_true_iff, !bool_decide_eq_true, Z.eqb_eq. tauto.
Qed.
Lemma sameEntry_refl a : sameEntry a a = true.
Proof. by apply sameEntry_true. Qed.
Lemma sameEntry_left a b c : sameEntry a b = true → sameEntry a c = sameEntry b c.
Proof.
  intros (H1 & H2 & H3 & H4 & H5 & H6 & H7)%sameEntry_true. unfold sameEntry, sameMemberKeys.
  by rewrite H1, H2, H3, H4, H5, H6, H7.
Qed.
Lemma sameEntry_right a b c : sameEntry a b = true → sameEntry c a = sameEntry c b.
Proof.
  intros (H1 & H2 & H3 & H4 & H5 & H6 & H7)%sameEntry_true. unfold sameEntry, sameMemberKeys.
  by rewrite H1, H2, H3, H4, H5, H6, H7.
Qed.

Lemma checkEntries_ok previous next : checkEntries previous next = Ok tt →
  (∀ m, m ∈ Roster.members previous → is_Some (rosterEntry next (Member.userId m))) ∧
  (∀ m, m ∈ Roster.members next → Member.sinceVersion m = since_of previous next m).
Proof.
  unfold checkEntries. intros H. destruct (existsb _ (Roster.members previous)) eqn:E1; [done|].
  destruct (existsb _ (Roster.members next)) eqn:E2; [done|]. split.
  - intros m Hm%list_elem_of_In. destruct (rosterEntry _ _) eqn:E; [done|]. exfalso.
    apply not_true_iff_false in E1. apply E1, existsb_exists. exists m. by rewrite E.
  - intros m Hm%list_elem_of_In. apply not_true_iff_false in E2.
    destruct (Z.eqb_spec (Member.sinceVersion m) (since_of previous next m)) as [|Hne]; [done|].
    exfalso. apply E2, existsb_exists. exists m. split; [done|]. by apply negb_true_iff, Z.eqb_neq.
Qed.

Lemma follows_wf r rs : follows (r :: rs) → roster_wf r ∧
  (∀ r', r' ∈ r :: rs → 1 ≤ Roster.rosterVersion r' ≤ Roster.rosterVersion r).
Proof.
  remember (r :: rs) as l. intros H. revert r rs Heql. induction H as [r Hwf Hv|r p rs _ IH Hwf Hv _]; intros ? ? [= <- <-].
  - split; [done|]. intros r' ->%list_elem_of_singleton. lia.
  - split; [done|]. destruct (IH _ _ eq_refl) as [_ Hp].
    pose proof (Hp p ltac:(by left)). intros r' [->|Hr]%elem_of_cons; [lia|]. specialize (Hp _ Hr). lia.
Qed.

(** An entry's [sinceVersion], by what the rosters up to it say. *)
Definition changed_at (rs : list Roster.t) (m : Member.t) : Prop :=
  (∀ r, r ∈ rs → Member.sinceVersion m ≤ Roster.rosterVersion r →
    ∃ m', rosterEntry r (Member.userId m) = Some m' ∧ sameEntry m' m = true) ∧
  (∀ r m', r ∈ rs → Roster.rosterVersion r = Member.sinceVersion m - 1 →
    rosterEntry r (Member.userId m) = Some m' → sameEntry m' m = false).

Lemma follows_changed r rs m : follows (r :: rs) → m ∈ Roster.members r → changed_at (r :: rs) m.
Proof.
  remember (r :: rs) as l. intros H. revert r rs Heql m.
  induction H as [r Hwf Hv|r p rs Hf IH Hwf Hv Hc]; intros ? ? [= <- <-] m Hm;
    pose proof (rosterEntry_elem r m (roster_wf_members _ Hwf) Hm) as Hself.
  - split.
    + intros r' ->%list_elem_of_singleton _. exists m. by rewrite sameEntry_refl.
    + intros r' m' ->%list_elem_of_singleton. destruct Hwf as (_ & _ & _ & _ & _ & _ & _ & _ & Hms & _).
      destruct (Hms m Hm) as (_ & _ & ? & _). lia.
  - apply checkEntries_ok in Hc as [_ Hs]. specialize (Hs m Hm). unfold since_of in Hs.
    assert (∀ r', r' ∈ p :: rs → Roster.rosterVersion r' ≤ Roster.rosterVersion p) as Hle.
    { intros r' Hr'. by apply (follows_wf _ _ Hf). }
    destruct (rosterEntry p (Member.userId m)) as [before|] eqn:Eb;
      [destruct (sameEntry before m) eqn:Es|].
    + apply rosterEntry_Some in Eb as [Hin Hu]. destruct (IH _ _ eq_refl _ Hin) as [IH1 IH2].
      rewrite Hu, <-Hs in IH1, IH2. split.
      * intros r' [->|Hr']%elem_of_cons Hv'; [exists m; by rewrite sameEntry_refl|].
        destruct (IH1 r' Hr' Hv') as (m' & ? & Hm'). exists m'. by rewrite <-(sameEntry_right _ _ _ Es).
      * intros r' m' [->|Hr']%elem_of_cons Hv' Em'.
        -- exfalso. pose proof (proj2 (follows_wf _ _ Hf) p ltac:(by left)).
           destruct (IH1 p) as (? & _); [by left| |]; destruct Hwf as (_ & _ & _ & _ & _ & _ & _ & _ & Hms & _);
             destruct (Hms m Hm) as (_ & _ & ? & _); lia.
        -- rewrite <-(sameEntry_right _ _ _ Es). by eapply IH2.
    + split; rewrite Hs.
      * intros r' [->|Hr']%elem_of_cons Hv'; [exists m; by rewrite sameEntry_refl|]. specialize (Hle _ Hr'). lia.
      * intros r' m' [->|[->|Hr']%elem_of_cons]%elem_of_cons Hv' Em'; [lia|by simplify_eq|].
        exfalso. clear -Hf Hr' Hv Hv' Hs. inversion Hf; subst; [by apply not_elem_of_nil in Hr'|].
        match goal with H : follows (_ :: _) |- _ => pose proof (proj2 (follows_wf _ _ H) r' Hr') end. lia.
    + split; rewrite Hs.
      * intros r' [->|Hr']%elem_of_cons Hv'; [exists m; by rewrite sameEntry_refl|]. specialize (Hle _ Hr'). lia.
      * intros r' m' [->|[->|Hr']%elem_of_cons]%elem_of_cons Hv' Em'; [lia|by simplify_eq|].
        exfalso. clear -Hf Hr' Hv Hv' Hs. inversion Hf; subst; [by apply not_elem_of_nil in Hr'|].
        match goal with H : follows (_ :: _) |- _ => pose proof (proj2 (follows_wf _ _ H) r' Hr') end. lia.
Qed.

(** *** The rows for new keys *)

Definition ledger_after (l : ListedAreas.t) : AreaLedger.t :=
  ledgerOf (ListedAreas.keys l) (ListedAreas.roots l) (ListedAreas.retired l).

Lemma check_named_ok retired areas ids : check_named retired areas ids = Ok tt →
  NoDup ids ∧ ∀ id, id ∈ ids → UUID id = true ∧ id ∉ areas ∧ id ∉ retired.
Proof.
  revert areas; induction ids as [|id ids IH]; intros areas H; [split; [constructor|by intros ? ?%not_elem_of_nil]|].
  cbn [check_named] in H. apply bind_ok in H as (id' & [[= <-] Hid]%uuid_ok & H).
  destruct (bool_decide (id ∈ areas)) eqn:Ea; [done|]. destruct (bool_decide (id ∈ retired)) eqn:Er; [done|].
  bool_simpl. apply IH in H as [Hnd Hall]. split.
  - constructor; [|done]. intros Hin. destruct (Hall _ Hin) as (_ & Hn & _). set_solver.
  - intros id' [->|Hin]%elem_of_cons; [done|]. destruct (Hall _ Hin) as (? & ? & ?). set_solver.
Qed.

Section rows_lemmas.
Context `{C : Crypto} `{!CryptoLaws C}.

Lemma commit_digest key info what : digestOf (JStr (commit key info)) what = Ok (commit key info).
Proof.
  unfold digestOf, bytesOf, commit. pose proof (hkdf_length key info) as Hl.
  rewrite decode_encode_len; [done| |done]. intros E. by rewrite E in Hl.
Qed.

Lemma check_area_key l format key rootKey id : UUID id = true → llen (listed (ListedAreas.keys l) id) < MAX_SAFE_INTEGER →
  match format with
  | format1 => match rootKey with Some _ => true | None => false end
  | format2 => match rootKey with Some _ => false | None => true end
  end = false →
  let row := Area.Build_t id (llen (listed (ListedAreas.keys l) id) + 1) (commit key AREA_COMMIT_INFO)
    ((λ k, commit k AREA_ROOT_COMMIT_INFO) <$> rootKey) false in
  check_area format (raw_area row) = Ok row.
Proof.
  intros Hid Hv Hf. unfold check_area, raw_area. cbn -[commit].
  rewrite (proj2 (uuid_ok (JStr id) _ id) (conj eq_refl Hid)). cbn [mbind res_bind].
  assert (1 ≤ llen (listed (ListedAreas.keys l) id) + 1 ≤ MAX_SAFE_INTEGER) as Hrange by (unfold llen in *; lia).
  rewrite (proj2 (integer_ok (JInt _) _ _) (conj eq_refl Hrange)).
  cbn [mbind res_bind]. destruct format, rootKey; try done; cbn -[commit]; rewrite !commit_digest; cbn -[commit];
    rewrite ?commit_digest; done.
Qed.

Lemma key_rows_ok l format fresh freshRoots keys rows :
  (∀ k, k ∈ keys → UUID (AreaKey.workspaceId k) = true) →
  (∀ a, llen (listed (ListedAreas.keys l) a) < MAX_SAFE_INTEGER) →
  key_rows l format fresh freshRoots keys = Ok rows →
  map Area.workspaceId rows = map AreaKey.workspaceId keys ∧
  check_fresh (ledger_after l) fresh freshRoots rows = Ok tt ∧
  ∀ row, row ∈ rows → Area.retired row = false ∧
    Area.workspaceKeyVersion row = llen (listed (ListedAreas.keys l) (Area.workspaceId row)) + 1 ∧
    check_area format (raw_area row) = Ok row.
Proof.
  intros Hid Hmax. revert fresh freshRoots rows; induction keys as [|key keys IH]; intros fresh freshRoots rows H.
  { injection H as <-. split_and!; [done|done|by intros ? ?%not_elem_of_nil]. }
  cbn [key_rows] in H. not_refused H Ef.
  unfold areaKeyCommitment, areaRootCommitment in H. apply bind_ok in H as (commitment & Hk & H).
  destruct (slen _ =? 32); [injection Hk as <-|done]. not_refused H Ec.
  pose proof (check_area_key l format (AreaKey.workspaceKey key) (AreaKey.rootKey key) (AreaKey.workspaceId key)
    (Hid _ ltac:(by left)) (Hmax _) Ef) as Hrow. cbv zeta in Hrow.
  assert (∀ k, k ∈ keys → UUID (AreaKey.workspaceId k) = true) as Hid' by (intros; apply Hid; by right).
  cbv zeta in H. destruct (AreaKey.rootKey key) as [rootKey|].
  - apply bind_ok in H as (root & Hr & H). destruct (slen _ =? 32); [injection Hr as <-|done].
    not_refused H Er. apply bind_ok in H as (rest & Hrest & [= <-]).
    destruct (IH Hid' _ _ _ Hrest) as (IH1 & IH2 & IH3). cbn [map check_fresh Area.workspaceId Area.retired].
    split; [by f_equal|]. split.
    + cbn -[commit]. cbn -[commit] in Ec, Er. rewrite Ec, Er. done.
    + intros row [->|Hin]%elem_of_cons; [done|by apply IH3].
  - apply bind_ok in H as (rest & Hrest & [= <-]).
    destruct (IH Hid' _ _ _ Hrest) as (IH1 & IH2 & IH3). cbn [map check_fresh Area.workspaceId Area.retired].
    split; [by f_equal|]. split.
    + cbn -[commit]. cbn -[commit] in Ec. rewrite Ec. done.
    + intros row [->|Hin]%elem_of_cons; [done|by apply IH3].
Qed.

Lemma retire_rows_ok l retire rows :
  (∀ a, a ∈ retire → UUID a = true) → (∀ a, llen (listed (ListedAreas.keys l) a) < MAX_SAFE_INTEGER) →
  mapM (retire_row l) retire = Ok rows →
  map Area.workspaceId rows = retire ∧ new_keys rows = [] ∧ new_roots rows = [] ∧
  ∀ row, row ∈ rows → listed (ListedAreas.keys l) (Area.workspaceId row) ≠ [] ∧
    Area.workspaceKeyVersion row = llen (listed (ListedAreas.keys l) (Area.workspaceId row)) + 1 ∧
    check_area format2 (raw_area row) = Ok row.
Proof.
  intros Hid Hmax Hm%mapM_ok. induction Hm as [|id row retire rows Hrow _ IH].
  { split_and!; [done..|by intros ? ?%not_elem_of_nil]. }
  destruct IH as (IH1 & IH2 & IH3 & IH4); [intros; apply Hid; by right|].
  unfold retire_row in Hrow. cbv zeta in Hrow. destruct (_ =? 0) eqn:E; [done|]. injection Hrow as <-. bool_simpl.
  unfold new_keys, new_roots in *. cbn [map omap list_omap Area.retired Area.workspaceId]. rewrite IH1, IH2, IH3.
  split_and!; try done. intros row [->|Hin]%elem_of_cons; [|by apply IH4]. cbn [Area.workspaceId Area.workspaceKeyVersion].
  split; [intros Hl; by rewrite Hl in E|]. split; [done|]. unfold check_area, raw_area. cbn.
  rewrite (proj2 (uuid_ok (JStr id) _ id)) by (split; [done|apply Hid; by left]). cbn [mbind res_bind].
  specialize (Hmax id). rewrite (proj2 (integer_ok (JInt _) _ _)) by (split; [done|unfold llen in *; lia]). done.
Qed.
End rows_lemmas.

Lemma check_fresh_perm l rows rows' : rows ≡ₚ rows' → check_fresh l ∅ ∅ rows = Ok tt → check_fresh l ∅ ∅ rows' = Ok tt.
Proof.
  intros Hp (H1 & H2 & H3 & H4)%check_fresh_ok. apply check_fresh_ok.
  assert (new_keys rows ≡ₚ new_keys rows') as Hk by by apply omap_Permutation.
  assert (new_roots rows ≡ₚ new_roots rows') as Hr by by apply omap_Permutation.
  rewrite <-Hk, <-Hr. split_and!; try done; intros c; rewrite <-?Hk, <-?Hr; auto.
Qed.

Lemma new_rows_app rows rows' : new_keys (rows ++ rows') = new_keys rows ++ new_keys rows' ∧
  new_roots (rows ++ rows') = new_roots rows ++ new_roots rows'.
Proof. unfold new_keys, new_roots. by rewrite !omap_app. Qed.

#[export] Instance row_le_total : Total row_le.
Proof. intros a b. apply (total String.le). Qed.
#[export] Instance row_le_trans : Transitive row_le.
Proof. intros a b c. unfold row_le. by etrans. Qed.

(** Sorted by distinct ids is ascending. *)
Lemma sorted_rows_ascending rows : StronglySorted row_le rows → NoDup (map Area.workspaceId rows) →
  is_ascending (map Area.workspaceId rows) = true.
Proof.
  intros Hs Hnd. apply is_ascending_sorted. induction Hs as [|row rows _ IH Hall]; cbn; [constructor|].
  cbn in Hnd. apply NoDup_cons in Hnd as [Hn Hnd]. constructor; [by apply IH|].
  apply Forall_map, Forall_forall. intros row' Hin. rewrite Forall_forall in Hall. apply str_ltb_spec.
  split; [by apply Hall|]. intros E. apply Hn. rewrite E. by apply list_elem_of_fmap_2.
Qed.

Lemma areaParts_rows rows format : llen rows ≤ MAX_ROSTER_AREA_ROWS →
  (∀ row, row ∈ rows → check_area format (raw_area row) = Ok row) → is_ascending (map Area.workspaceId rows) = true →
  areaParts (Some (map raw_area rows)) format = Ok rows.
Proof.
  intros Hlen Hrows Hasc. unfold areaParts. change (default [] (Some ?x)) with x. cbv zeta. unfold llen in *.
  rewrite (length_fmap raw_area rows : length (map _ _) = _), (proj2 (Z.ltb_ge _ _)) by done.
  assert (mapM (check_area format) (map raw_area rows) = Ok rows) as ->.
  { apply mapM_ok. by apply Forall2_fmap_l, Forall_Forall2_diag, Forall_forall. }
  cbn [mbind res_bind]. unfold ascending. by rewrite Hasc.
Qed.

Section rowsAfter_lemma.
Context `{C : Crypto} `{!CryptoLaws C}.

Lemma rowsAfter_perm l keys format retire rows :
  rowsAfter l keys format retire = Ok rows →
  (∀ a, llen (listed (ListedAreas.keys l) a) < MAX_SAFE_INTEGER) →
  map Area.workspaceId rows ≡ₚ map AreaKey.workspaceId keys ++ retire ∧
  (∀ row, row ∈ rows → check_area format (raw_area row) = Ok row) ∧
  each (check_row (ledger_after l)) rows = Ok tt ∧ check_fresh (ledger_after l) ∅ ∅ rows = Ok tt ∧
  is_ascending (map Area.workspaceId rows) = true.
Proof.
  unfold rowsAfter. intros H Hmax. not_refused H Ef.
  apply bind_ok in H as ([] & [Hnd Hids]%check_named_ok & H).
  apply bind_ok in H as (fresh & Hk & H). apply bind_ok in H as (tombs & Ht & [= <-]).
  apply key_rows_ok in Hk as (Eids & Hfresh & Hrows);
    [|intros k Hin; apply Hids, elem_of_app; left; by apply list_elem_of_fmap_2|done].
  apply retire_rows_ok in Ht as (Etomb & Ek & Er & Htomb); [|intros a Hin; apply Hids, elem_of_app; by right|done].
  pose proof (merge_sort_Permutation row_le (fresh ++ tombs)) as Hp.
  assert (map Area.workspaceId (merge_sort row_le (fresh ++ tombs)) ≡ₚ map AreaKey.workspaceId keys ++ retire) as Hpm.
  { etrans; [by apply (fmap_Permutation Area.workspaceId); exact Hp|]. by rewrite fmap_app, <-Eids, <-Etomb. }
  split; [done|]. split_and!.
  - intros row. rewrite Hp, elem_of_app. intros [Hin|Hin]; [by apply Hrows|].
    destruct (Htomb row Hin) as (_ & _ & Hc). destruct format; [|done]. exfalso.
    assert (retire ≠ []) as Hne.
    { intros ->. destruct tombs; [by apply not_elem_of_nil in Hin|done]. }
    destruct retire; [done|]. discriminate Ef.
  - apply each_ok. intros row. rewrite Hp, elem_of_app. intros Hin. apply check_row_ok. cbn.
    assert (Area.workspaceId row ∈ map AreaKey.workspaceId keys ++ retire) as Hid.
    { rewrite <-Eids, <-Etomb. apply elem_of_app.
      destruct Hin; [left|right]; by apply list_elem_of_fmap_2. }
    split; [by apply Hids|]. destruct Hin as [Hin|Hin].
    + destruct (Hrows _ Hin) as (-> & -> & _). done.
    + destruct (Htomb _ Hin) as (? & -> & _). done.
  - apply (check_fresh_perm _ (fresh ++ tombs)); [by symmetry|]. apply check_fresh_ok.
    destruct (new_rows_app fresh tombs) as [-> ->]. rewrite Ek, Er, !app_nil_r. by apply check_fresh_ok.
  - apply sorted_rows_ascending; [apply StronglySorted_merge_sort; apply _|]. by rewrite Hpm.
Qed.
End rowsAfter_lemma.

(** ** Properties *)

(** The ledger of an accepted chain is well formed: the listed keys and
    roots of every area run side by side, every commitment of a key or a root
    was listed once in the whole chain, only listed areas are retired; and
    a family's live areas fit one roster. Reading the
    ledger back from the areas a cache keeps gives the same ledger. *)
Theorem chain_ledger_wf ledger roster : folded ledger (Some roster) →
  ledger_wf ledger ∧ (Roster.kind roster = family → live_areas ledger ≤ MAX_FAMILY_AREAS) ∧
  ledgerOf (AreaLedger.keys ledger) (AreaLedger.roots ledger) (AreaLedger.retired ledger) = ledger.
Proof.
  intros H. pose proof (folded_wf _ _ H) as Hwf. split_and!; [done| |by apply ledgerOf_wf].
  inversion H; subst. by eapply checkAreas_inv.
Qed.

(** However many rosters follow, no listed key or root commitment goes
    away or moves, a retired area stays retired and nothing more is listed
    for it. *)
Theorem listed_for_good ledger previous ledger' last :
  rtc fold_step (ledger, previous) (ledger', last) →
  (∀ area i c, listed (AreaLedger.keys ledger) area !! i = Some c → listed (AreaLedger.keys ledger') area !! i = Some c) ∧
  (∀ area i c, listed (AreaLedger.roots ledger) area !! i = Some c → listed (AreaLedger.roots ledger') area !! i = Some c) ∧
  ∀ area, area ∈ AreaLedger.retired ledger → area ∈ AreaLedger.retired ledger' ∧
    listed (AreaLedger.keys ledger') area = listed (AreaLedger.keys ledger) area.
Proof.
  intros H. assert (grows ledger ledger') as (Hp & Hr & Hs).
  { change (grows (ledger, previous).1 (ledger', last).1). induction H as [|x y z Hxy _ IH]; [done|].
    etrans; [|done]. destruct Hxy. by eapply foldAreas_grows. }
  split_and!; [intros a i c Ha; destruct (Hp a) as [[k ->] _]; by apply lookup_app_l_Some|
    intros a i c Ha; destruct (Hp a) as [_ [k ->]]; by apply lookup_app_l_Some|set_solver].
Qed.

(** C38. The family roster that marks an active member left leaves no area
    under a key that member held: every listed area is retired by it or
    before, or gets a key whose commitment no area of the chain ever listed,
    and it admits no one when the member it drops held the members role. *)
Theorem removal_rotates ledger previous next entry before :
  ledger_wf ledger → roster_wf next → checkAreas ledger (Some previous) next = Ok tt → Roster.kind next = family →
  entry ∈ Roster.members next → Member.status entry = left_ →
  rosterEntry previous (Member.userId entry) = Some before → Member.status before = active →
  (∀ area, area ∈ dom (AreaLedger.keys ledger) →
    area ∈ AreaLedger.retired (foldAreas ledger next) ∨
    ∃ c, listed (AreaLedger.keys (foldAreas ledger next)) area = listed (AreaLedger.keys ledger) area ++ [c] ∧
      ∀ other i, listed (AreaLedger.keys ledger) other !! i ≠ Some c) ∧
  (members_role ∈ Member.roles before → admits previous next = false).
Proof.
  intros Hl Hwf Hc Hk Hin Hleft Hbefore Hactive. apply checkAreas_inv in Hc as (Hf & _ & Hp); [|done].
  destruct (Hp previous) as (Hrot & Hadm & _); [done|].
  assert (leaving previous next = true) as Hleaving by (apply leaving_true; eauto 10).
  specialize (Hrot Hk Hleaving). pose proof Hf as (Hrows & (_ & Hfresh & _)%check_fresh_ok & Hnd). split.
  - intros area Ha. specialize (Hrot _ Ha). apply elem_of_union in Hrot as [Hr|Hr].
    { left. unfold foldAreas. destruct (fold_rows_area _ _ area Hf) as [Hn|(row & _ & _ & ?)]; [|done].
      by apply fold_rows_other. }
    apply elem_of_list_to_set, list_elem_of_fmap in Hr as (row & -> & Hrow).
    pose proof (fold_rows_row ledger _ row Hnd Hrow) as H. cbv zeta in H. unfold foldAreas.
    destruct (Area.retired row) eqn:Hret; [by left; destruct H|]. right. destruct H as [H _].
    exists (Area.commitment row). split; [done|]. intros other i Ho.
    destruct (Hfresh (Area.commitment row)) as [Hnew _].
    { unfold new_keys. apply list_elem_of_omap. exists row. by rewrite Hret. }
    apply Hnew, (wf_commitments _ Hl). eauto.
  - intros Hrole. destruct (admits previous next) eqn:E; [|done]. specialize (Hadm eq_refl).
    rewrite (dropsHolder_left previous next entry before) in Hadm; try done. by apply roster_wf_members.
Qed.

(** Along a chain every entry's [sinceVersion] is the version of the
    roster its entry last changed at: every roster from it on lists the same
    entry, and the one before it another entry or none. *)
Theorem since_names_last_change roster older entry : follows (roster :: older) → entry ∈ Roster.members roster →
  (∀ r, r ∈ roster :: older → Member.sinceVersion entry ≤ Roster.rosterVersion r →
    ∃ m, rosterEntry r (Member.userId entry) = Some m ∧ sameEntry m entry = true) ∧
  (∀ r m, r ∈ roster :: older → Roster.rosterVersion r = Member.sinceVersion entry - 1 →
    rosterEntry r (Member.userId entry) = Some m → sameEntry m entry = false).
Proof. intros H Hin. by apply follows_changed. Qed.

(** The rows a holder's client computes for new keys and retirements, over
    what the chain has listed, are rows acceptance takes: they make a
    canonical area list, one row for each key and each retired area, that
    follows the chain's ledger and repeats no commitment. *)
Theorem rowsAfter_accepted `{C : Crypto} `{!CryptoLaws C} listed_ keys format retire rows :
  rowsAfter listed_ keys format retire = Ok rows →
  llen keys + llen retire ≤ MAX_ROSTER_AREA_ROWS →
  (∀ area, llen (listed (ListedAreas.keys listed_) area) < MAX_SAFE_INTEGER) →
  areaParts (Some (map raw_area rows)) format = Ok rows ∧
  map Area.workspaceId rows ≡ₚ map AreaKey.workspaceId keys ++ retire ∧
  each (check_row (ledger_after listed_)) rows = Ok tt ∧
  check_fresh (ledger_after listed_) ∅ ∅ rows = Ok tt.
Proof.
  intros H Hlen Hmax. destruct (rowsAfter_perm _ _ _ _ _ H Hmax) as (Hp & Hareas & Hrows & Hfresh & Hasc).
  split_and!; try done. apply areaParts_rows; [|done..].
  apply Permutation_length in Hp. rewrite length_app in Hp. unfold llen in *.
  rewrite (length_fmap Area.workspaceId rows : length (map _ _) = _) in Hp.
  rewrite (length_fmap AreaKey.workspaceId keys : length (map _ _) = _) in Hp. lia.
Qed.

(** A family of two with one area; the second roster removes one of them and rotates the area. *)
Module LedgerWitness.
Definition bob := "0a0a0a0a-0000-4000-8000-000000000002".
Definition k32' := "BBBBBBBBBBBBBBBBBBBBBBBBBBBBBBBBBBBBBBBBBBA".
Definition member_bob s since := Member.Build_t bob 1 RosterWitness.k32 RosterWitness.k32 RosterWitness.k32
  RosterWitness.k32 s [members_role] since.
Definition first := Roster.Build_t RosterWitness.gid family 1 "" 1 RosterWitness.alice
  [RosterWitness.member; member_bob active 1] [Area.Build_t RosterWitness.area 1 RosterWitness.k32 (Some RosterWitness.k32) false] format2.
Definition second := Roster.Build_t RosterWitness.gid family 2 k32' 1 RosterWitness.alice
  [RosterWitness.member; member_bob left_ 2] [Area.Build_t RosterWitness.area 2 k32' (Some k32') false] format2.
Definition ledger := foldAreas NO_LEDGER first.

Definition zeros : bytes := fill 32 "000".

Lemma first_wf : roster_wf first.
Proof. apply check_roster_wf. vm_compute. reflexivity. Qed.
Lemma second_wf : roster_wf second.
Proof. apply check_roster_wf. vm_compute. reflexivity. Qed.
Lemma ledger_folded : folded ledger (Some first).
Proof. apply (folded_roster _ None); [constructor|apply first_wf|vm_compute; reflexivity]. Qed.
Lemma chain_follows : follows [second; first].
Proof.
  apply follows_next; [apply follows_first; [apply first_wf|done]|apply second_wf|done|vm_compute; reflexivity].
Qed.
End LedgerWitness.

Lemma chain_ledger_wf_witness : ledger_wf LedgerWitness.ledger ∧ live_areas LedgerWitness.ledger = 1.
Proof.
  split; [|vm_compute; reflexivity].
  exact (proj1 (chain_ledger_wf LedgerWitness.ledger LedgerWitness.first LedgerWitness.ledger_folded)).
Defined.

Lemma listed_for_good_witness :
  listed (AreaLedger.keys (foldAreas LedgerWitness.ledger LedgerWitness.second)) RosterWitness.area !! 0%nat =
    Some RosterWitness.k32.
Proof.
  refine (proj1 (listed_for_good LedgerWitness.ledger (Some LedgerWitness.first)
    (foldAreas LedgerWitness.ledger LedgerWitness.second) (Some LedgerWitness.second) _) RosterWitness.area 0%nat _ _).
  - apply rtc_once, fold_next; [apply LedgerWitness.second_wf|vm_compute; reflexivity].
  - vm_compute. reflexivity.
Defined.

Lemma removal_rotates_witness :
  RosterWitness.area ∈ AreaLedger.retired (foldAreas LedgerWitness.ledger LedgerWitness.second) ∨
  ∃ c, listed (AreaLedger.keys (foldAreas LedgerWitness.ledger LedgerWitness.second)) RosterWitness.area =
      listed (AreaLedger.keys LedgerWitness.ledger) RosterWitness.area ++ [c] ∧
    ∀ other i, listed (AreaLedger.keys LedgerWitness.ledger) other !! i ≠ Some c.
Proof.
  refine (proj1 (removal_rotates LedgerWitness.ledger LedgerWitness.first LedgerWitness.second
    (LedgerWitness.member_bob left_ 2) (LedgerWitness.member_bob active 1) _ _ _ _ _ _ _ _) RosterWitness.area _).
  - eapply folded_wf. apply LedgerWitness.ledger_folded.
  - apply LedgerWitness.second_wf.
  - vm_compute. reflexivity.
  - reflexivity.
  - right. left.
  - reflexivity.
  - vm_compute. reflexivity.
  - reflexivity.
  - apply elem_of_dom. vm_compute. eexists. reflexivity.
Defined.

Lemma since_names_last_change_witness :
  sameEntry (LedgerWitness.member_bob active 1) (LedgerWitness.member_bob left_ 2) = false.
Proof.
  refine (proj2 (since_names_last_change LedgerWitness.second [LedgerWitness.first] (LedgerWitness.member_bob left_ 2)
    LedgerWitness.chain_follows _) LedgerWitness.first _ _ _ _); [right; left|right; left|reflexivity|vm_compute; reflexivity].
Defined.

Lemma nothing_listed_small area : llen (listed (ListedAreas.keys NOTHING_LISTED) area) < MAX_SAFE_INTEGER.
Proof. unfold listed, NOTHING_LISTED. cbn [ListedAreas.keys]. by rewrite lookup_empty. Qed.

Module RowsWitness.
Definition keys := [AreaKey.Build_t RosterWitness.area LedgerWitness.zeros (Some LedgerWitness.zeros)].
Definition rows : list Area.t :=
  match rowsAfter (C := Toy.crypto) NOTHING_LISTED keys format2 [] with Ok rows => rows | Err _ => [] end.
End RowsWitness.

Lemma rowsAfter_accepted_witness :
  RowsWitness.rows ≠ [] ∧ areaParts (Some (map raw_area RowsWitness.rows)) format2 = Ok RowsWitness.rows.
Proof.
  split; [vm_compute; discriminate|].
  refine (proj1 (rowsAfter_accepted (C := Toy.crypto) NOTHING_LISTED RowsWitness.keys format2 [] RowsWitness.rows _ _ _)).
  - apply Toy.crypto_laws.
  - vm_compute. reflexivity.
  - vm_compute. discriminate.
  - apply nothing_listed_small.
Defined.
