(* ===== verification/Pins.v ===== *)
(** * Pins (packages/crypto/src/pins.ts)

    The rules a device applies to the pins the server hands back: what a
    contact pin stands for ([pinTrust]), the keys a pin names
    ([keyCommitment], [pinKeysOfServed]), the group pin as the settings keep
    it ([checkGroupPin]), how two group pins merge ([mergePin]) and what the
    device's guard remembers ([guardAfter], [nextGuardEntry]). A key read
    from the settings that is not a string of the right form is never the
    same key: [canonicalKey] accepts what [decode] accepts. *)

From S2P Require Import Prelude Base64url Bytes Canonical HChaCha Crypto Roster Identity.

Definition INVALID_KEY : string := "Invalid key.".
Definition INVALID_GROUP_PIN : string := "Invalid group pin.".
Definition INVALID_IDENTITY_KEY : string := "Invalid identity key.".

(** ** Keys in canonical form *)

Definition canonicalBytes (value : string) (length : option Z) : result bytes :=
  refuse INVALID_KEY unless string_forallb is_b64_char value ;;
  match atob value with
  | None => Err INVALID_KEY
  | Some out =>
      refuse INVALID_KEY when
        match length with Some n => negb (slen out =? n) | None => false end || (encode out !== value) ;;
      Ok out
  end.

(** [/[AEIMQUYcgkosw048]$/]: the last character. *)
Fixpoint last_char (s : string) : option ascii :=
  match s with
  | EmptyString => None
  | String c EmptyString => Some c
  | String _ s' => last_char s'
  end.
Definition no_spare_bits (s : string) : bool :=
  match last_char s with
  | Some c => existsb (Ascii.eqb c) (String.list_ascii_of_string "AEIMQUYcgkosw048")
  | None => false
  end.

Definition canonicalKey (value : string) : result bytes :=
  refuse INVALID_KEY unless string_forallb is_b64_char value && (slen value =? 43) ;;
  match atob value with
  | None => Err INVALID_KEY
  | Some out => refuse INVALID_KEY when negb (no_spare_bits value) || negb (slen out =? 32) ;; Ok out
  end.

(** ** Contact pins *)

(** The key fields of a pin, as the settings document holds them; an empty
    optional digest reads as a missing one. *)
Module PinKeys.
Record t := {
  keyVersion : option Z; encryptionPublicKey : string; signingPublicKey : string;
  mlDsaPublicKeyHash : option string; kemPublicKeyHash : option string; fingerprint : string;
}.
End PinKeys.

(** JavaScript's truth of an optional string. *)
Definition present (s : option string) : option string :=
  match s with Some "" | None => None | Some s => Some s end.

Section contact_pins.
Context `{C : Crypto}.

Definition key_print (pin : PinKeys.t) (mlDsa kem : string) : result string :=
  let* enc := canonicalKey (PinKeys.encryptionPublicKey pin) in
  let* sign := canonicalKey (PinKeys.signingPublicKey pin) in
  let* mlDsaBytes := hexBytes mlDsa in
  let* kemBytes := hexBytes kem in
  fingerprint enc sign mlDsaBytes kemBytes.

Definition pinVerified (pin : PinKeys.t) : bool :=
  match present (Some (PinKeys.signingPublicKey pin)), present (PinKeys.mlDsaPublicKeyHash pin),
    present (PinKeys.kemPublicKeyHash pin) with
  | Some _, Some mlDsa, Some kem =>
      match key_print pin mlDsa kem with Ok print => print === PinKeys.fingerprint pin | Err _ => false end
  | _, _, _ => false
  end.

Definition keyCommitment (pin : PinKeys.t) : option string :=
  match present (PinKeys.mlDsaPublicKeyHash pin), present (PinKeys.kemPublicKeyHash pin) with
  | Some mlDsa, Some kem => to_option (key_print pin mlDsa kem)
  | _, _ => None
  end.

Definition entryCommitment (entry : Member.t) : option string :=
  match digestHex (Member.mlDsaPublicKeyDigest entry), digestHex (Member.kemPublicKeyDigest entry) with
  | Ok mlDsa, Ok kem =>
      keyCommitment (PinKeys.Build_t (Some (Member.keyVersion entry)) (Member.encryptionPublicKey entry)
        (Member.signingPublicKey entry) (Some mlDsa) (Some kem) "")
  | _, _ => None
  end.

Inductive PinTrust := verified | seen | legacy | invalid_pin.
#[export] Instance PinTrust_eq_dec : EqDecision PinTrust.
Proof. solve_decision. Defined.

Definition pinTrust (pin : PinKeys.t) : PinTrust :=
  match present (PinKeys.mlDsaPublicKeyHash pin) with
  | None => legacy
  | Some _ =>
      if pinVerified pin then verified
      else if (PinKeys.fingerprint pin === "") && bool_decide (is_Some (keyCommitment pin)) then seen
      else invalid_pin
  end.

Inductive PinForm := as_verified | as_seen.

Definition served_pin_keys (served : ServedKeys.t) : result PinKeys.t :=
  let* mlDsa := canonicalBytes (ServedKeys.mlDsaPublicKey served) (Some 1952) in
  let* kem := canonicalBytes (ServedKeys.kemPublicKey served) (Some 1184) in
  let* keyVersion := integer (JInt (ServedKeys.keyVersion served)) "key version" in
  Ok (PinKeys.Build_t (Some keyVersion) (ServedKeys.encryptionPublicKey served) (ServedKeys.signingPublicKey served)
    (Some (keyDigest mlDsa)) (Some (keyDigest kem)) "").

Definition pinKeysOfServed (served : ServedKeys.t) (form : PinForm) : result PinKeys.t :=
  let* keys := recast INVALID_IDENTITY_KEY (served_pin_keys served) in
  match keyCommitment keys with
  | None => Err INVALID_IDENTITY_KEY
  | Some commitment =>
      Ok (PinKeys.Build_t (PinKeys.keyVersion keys) (PinKeys.encryptionPublicKey keys) (PinKeys.signingPublicKey keys)
        (PinKeys.mlDsaPublicKeyHash keys) (PinKeys.kemPublicKeyHash keys)
        match form with as_verified => commitment | as_seen => "" end)
  end.

Definition servedKeyDigest (value : string) : option string := keyDigest <$> to_option (canonicalBytes value None).
End contact_pins.

Definition settingsRolledBack (served : option Z) (seen : Z) : bool :=
  match served with None => 0 <? seen | Some served => served <? seen end.

(** ** Group pins *)

Module GroupPin.
Record t := {
  firstEd25519PublicKey : string; firstMlDsaPublicKeyDigest : string; checkedAt : string; keyVersion : Z;
  groupKeyDigest : string; rosterVersion : Z; rosterDigest : string; areas : gmap string Z;
}.
End GroupPin.
(** As the settings document holds it: nothing known of the fields. [None] areas are not an object. *)
Module RawGroupPin.
Record t := {
  firstEd25519PublicKey : jsval; firstMlDsaPublicKeyDigest : jsval; checkedAt : jsval; keyVersion : jsval;
  groupKeyDigest : jsval; rosterVersion : jsval; rosterDigest : jsval; areas : option (gmap string jsval);
}.
End RawGroupPin.
#[export] Instance GroupPin_eq_dec : EqDecision GroupPin.t.
Proof. solve_decision. Defined.

(** A regular expression without repetition: alternatives of character classes in sequence. *)
Definition in_range (lo hi c : ascii) : bool := ((N_of_ascii lo <=? N_of_ascii c) && (N_of_ascii c <=? N_of_ascii hi))%N.
Definition digit (c : ascii) : bool := in_range "0" "9" c.
Fixpoint matches (pattern : list (ascii → bool)) (s : string) : bool :=
  match pattern, s with
  | [], EmptyString => true
  | p :: pattern', String c s' => p c && matches pattern' s'
  | _, _ => false
  end.
Definition char (x : ascii) : ascii → bool := Ascii.eqb x.
Definition MONTHS : list (list (ascii → bool)) := [[char "0"; in_range "1" "9"]; [char "1"; in_range "0" "2"]].
Definition DAYS : list (list (ascii → bool)) :=
  [[char "0"; in_range "1" "9"]; [in_range "1" "2"; digit]; [char "3"; in_range "0" "1"]].
Definition HOURS : list (list (ascii → bool)) := [[in_range "0" "1"; digit]; [char "2"; in_range "0" "3"]].
Definition CHECK_TIME (s : string) : bool :=
  existsb (λ month, existsb (λ day, existsb (λ hour,
    matches ([digit; digit; digit; digit; char "-"] ++ month ++ [char "-"] ++ day ++ [char "T"] ++ hour ++
      [char ":"; in_range "0" "5"; digit; char ":"; in_range "0" "5"; digit; char "."; digit; digit; digit; char "Z"]) s)
    HOURS) DAYS) MONTHS.

Definition checkTime (value : jsval) : result string :=
  match value with
  | JStr s => refuse INVALID_GROUP_PIN unless CHECK_TIME s ;; Ok s
  | _ => Err INVALID_GROUP_PIN
  end.

Definition check_area_mark (entry : string * jsval) : result (string * Z) :=
  let* version := integer entry.2 "workspace key version" in Ok (entry.1, version).

Definition checkGroupPin (groupId : string) (value : option RawGroupPin.t) : result GroupPin.t :=
  let* _ := uuid (JStr groupId) "group id" in
  match value with
  | None => Err INVALID_GROUP_PIN
  | Some pin =>
      let* checkedAt := checkTime (RawGroupPin.checkedAt pin) in
      match RawGroupPin.areas pin with
      | None => Err INVALID_GROUP_PIN
      | Some areas =>
          let* _ := mapM (λ entry, uuid (JStr entry.1) "workspace id") (map_to_list areas) in
          let* marks := mapM check_area_mark (map_to_list areas) in
          let* firstEd := bytesOf (RawGroupPin.firstEd25519PublicKey pin) 32 "group key" in
          let* firstMlDsa := digestOf (RawGroupPin.firstMlDsaPublicKeyDigest pin) "key digest" in
          let* keyVersion := integer (RawGroupPin.keyVersion pin) "group key version" in
          let* groupKeyDigest := digestOf (RawGroupPin.groupKeyDigest pin) "key digest" in
          let* rosterVersion := integer (RawGroupPin.rosterVersion pin) "roster version" in
          let* rosterDigest := digestOf (RawGroupPin.rosterDigest pin) "roster digest" in
          Ok (GroupPin.Build_t firstEd firstMlDsa checkedAt keyVersion groupKeyDigest rosterVersion rosterDigest
            (list_to_map marks))
      end
  end.

Definition raw_group_pin (pin : GroupPin.t) : RawGroupPin.t :=
  RawGroupPin.Build_t (JStr (GroupPin.firstEd25519PublicKey pin)) (JStr (GroupPin.firstMlDsaPublicKeyDigest pin))
    (JStr (GroupPin.checkedAt pin)) (JInt (GroupPin.keyVersion pin)) (JStr (GroupPin.groupKeyDigest pin))
    (JInt (GroupPin.rosterVersion pin)) (JStr (GroupPin.rosterDigest pin)) (Some (JInt <$> GroupPin.areas pin)).

(** ** Merging *)

Module OpenedArea.
Record t := { groupId : string; workspaceId : string; version : Z }.
End OpenedArea.

Inductive Merge :=
  | Merged (pin : GroupPin.t)
  | Behind
  | Conflict.
#[export] Instance Merge_eq_dec : EqDecision Merge.
Proof. solve_decision. Defined.

Definition NOT_THIS_FAMILY : string := "This folder is not one of this family’s.".

(** [areas[workspaceId] = Math.max(areas[workspaceId] ?? 0, version)] *)
Definition raise (areas : gmap string Z) (workspaceId : string) (version : Z) : gmap string Z :=
  <[workspaceId := Z.max (default 0 (areas !! workspaceId)) version]> areas.
Definition raise_all (areas next : gmap string Z) : gmap string Z :=
  map_fold (λ workspaceId version areas, raise areas workspaceId version) areas next.
Definition raise_opened (areas : gmap string Z) (opened : list OpenedArea.t) : gmap string Z :=
  foldl (λ areas o, raise areas (OpenedArea.workspaceId o) (OpenedArea.version o)) areas opened.

Definition merged_pin (current : option GroupPin.t) (next : GroupPin.t) (opened : list OpenedArea.t) : GroupPin.t := {|
  GroupPin.firstEd25519PublicKey := GroupPin.firstEd25519PublicKey next;
  GroupPin.firstMlDsaPublicKeyDigest := GroupPin.firstMlDsaPublicKeyDigest next;
  GroupPin.checkedAt :=
    match current with
    | Some current =>
        if str_ltb (GroupPin.checkedAt current) (GroupPin.checkedAt next) then GroupPin.checkedAt current
        else GroupPin.checkedAt next
    | None => GroupPin.checkedAt next
    end;
  GroupPin.keyVersion := GroupPin.keyVersion next;
  GroupPin.groupKeyDigest := GroupPin.groupKeyDigest next;
  GroupPin.rosterVersion := GroupPin.rosterVersion next;
  GroupPin.rosterDigest := GroupPin.rosterDigest next;
  GroupPin.areas :=
    raise_opened (raise_all (match current with Some current => GroupPin.areas current | None => ∅ end)
      (GroupPin.areas next)) opened |}.

Definition mergePin (groupId : string) (current : option GroupPin.t) (next : GroupPin.t) (opened : list OpenedArea.t)
    : result Merge :=
  refuse NOT_THIS_FAMILY when existsb (λ area, OpenedArea.groupId area !== groupId) opened ;;
  match current with
  | None => Ok (Merged (merged_pin None next opened))
  | Some current =>
      let rosterAhead := GroupPin.rosterVersion next <? GroupPin.rosterVersion current in
      let keyAhead := GroupPin.keyVersion next <? GroupPin.keyVersion current in
      Ok (
        if (GroupPin.firstEd25519PublicKey current !== GroupPin.firstEd25519PublicKey next) ||
           (GroupPin.firstMlDsaPublicKeyDigest current !== GroupPin.firstMlDsaPublicKeyDigest next) then Conflict
        else if
          ((GroupPin.rosterVersion current =? GroupPin.rosterVersion next) &&
            (GroupPin.rosterDigest current !== GroupPin.rosterDigest next)) ||
          ((GroupPin.keyVersion current =? GroupPin.keyVersion next) &&
            (GroupPin.groupKeyDigest current !== GroupPin.groupKeyDigest next)) then Conflict
        else if
          (rosterAhead && (GroupPin.keyVersion current <? GroupPin.keyVersion next)) ||
          (keyAhead && (GroupPin.rosterVersion current <? GroupPin.rosterVersion next)) then Conflict
        else if rosterAhead || keyAhead then Behind
        else Merged (merged_pin (Some current) next opened))
  end.

Definition area_mark (pin : GroupPin.t) (workspaceId : string) : Z := default 0 (GroupPin.areas pin !! workspaceId).

Definition pinAhead (current : option GroupPin.t) (next : GroupPin.t) : bool :=
  match current with
  | None => true
  | Some current =>
      if (GroupPin.rosterVersion current <? GroupPin.rosterVersion next) ||
         (GroupPin.keyVersion current <? GroupPin.keyVersion next) then true
      else if str_ltb (GroupPin.checkedAt next) (GroupPin.checkedAt current) then true
      else existsb (λ '(workspaceId, version), area_mark current workspaceId <? version)
        (map_to_list (GroupPin.areas next))
  end.

Inductive Guard :=
  | Store (pin : GroupPin.t)
  | Covered
  | Ahead
  | Disagrees.

Definition guardAfter (groupId : string) (guard : option GroupPin.t) (pin : GroupPin.t) (opened : list OpenedArea.t)
    : result Guard :=
  let* merged := mergePin groupId guard pin opened in
  Ok match merged with
     | Conflict => Disagrees
     | Behind => Ahead
     | Merged merged => if pinAhead guard merged then Store merged else Covered
     end.

(** ** The guard of a contact *)

Module GuardEntry.
Record t := {
  revision : Z; keyVersion : option Z; encryptionPublicKey : string; signingPublicKey : string;
  mlDsaPublicKeyHash : string; kemPublicKeyHash : string; previousSigningKeys : list string; verified : bool;
}.
End GuardEntry.

Definition guard_keys (entry : GuardEntry.t) : PinKeys.t :=
  PinKeys.Build_t (GuardEntry.keyVersion entry) (GuardEntry.encryptionPublicKey entry)
    (GuardEntry.signingPublicKey entry) (Some (GuardEntry.mlDsaPublicKeyHash entry))
    (Some (GuardEntry.kemPublicKeyHash entry)) "".

Section guard_entry.
Context `{C : Crypto}.

Definition nextGuardEntry (previous : option GuardEntry.t) (pin : PinKeys.t) : result GuardEntry.t :=
  refuse "Only a verified or first-seen pin is remembered." unless
    (pinTrust pin === verified) || (pinTrust pin === seen) ;;
  let keys := keyCommitment pin in
  let same := match previous with Some p => keyCommitment (guard_keys p) === keys | None => false end in
  let before := match previous with Some p => GuardEntry.previousSigningKeys p | None => [] end in
  let replaced :=
    match previous with
    | Some p =>
        if (GuardEntry.signingPublicKey p !== PinKeys.signingPublicKey pin) &&
           negb (bool_decide (GuardEntry.signingPublicKey p ∈ before))
        then before ++ [GuardEntry.signingPublicKey p] else before
    | None => before
    end in
  Ok {| GuardEntry.revision := match previous with Some p => GuardEntry.revision p | None => 0 end + 1;
        GuardEntry.keyVersion := PinKeys.keyVersion pin;
        GuardEntry.encryptionPublicKey := PinKeys.encryptionPublicKey pin;
        GuardEntry.signingPublicKey := PinKeys.signingPublicKey pin;
        GuardEntry.mlDsaPublicKeyHash := default "" (PinKeys.mlDsaPublicKeyHash pin);
        GuardEntry.kemPublicKeyHash := default "" (PinKeys.kemPublicKeyHash pin);
        GuardEntry.previousSigningKeys := filter (λ key, key ≠ PinKeys.signingPublicKey pin) replaced;
        GuardEntry.verified := (pinTrust pin === verified) ||
          (same && match previous with Some p => GuardEntry.verified p | None => false end) |}.
End guard_entry.

(** ** Lemmas *)

Lemma raise_mark areas id v a : default 0 (raise areas id v !! a) =
  if decide (a = id) then Z.max (default 0 (areas !! a)) v else default 0 (areas !! a).
Proof.
  unfold raise. destruct (decide (a = id)) as [->|]; [by rewrite lookup_insert_eq|by rewrite lookup_insert_ne].
Qed.

Lemma raise_all_mark areas next a : (∀ b v, next !! b = Some v → 0 ≤ v) → 0 ≤ default 0 (areas !! a) →
  default 0 (raise_all areas next !! a) = Z.max (default 0 (areas !! a)) (default 0 (next !! a)).
Proof.
  intros Hpos Ha. unfold raise_all.
  apply (map_fold_weak_ind (λ r next, default 0 (r !! a) = Z.max (default 0 (areas !! a)) (default 0 (next !! a)))).
  - rewrite lookup_empty. cbn. lia.
  - intros id v m r Hm IH. rewrite raise_mark. destruct (decide (a = id)) as [->|].
    + rewrite lookup_insert_eq, IH, Hm. cbn. lia.
    + by rewrite lookup_insert_ne.
Qed.

(** The mark [opened] gives an area. *)
Fixpoint opened_mark (opened : list OpenedArea.t) (a : string) : Z :=
  match opened with
  | [] => 0
  | o :: opened' =>
      if decide (a = OpenedArea.workspaceId o) then Z.max (OpenedArea.version o) (opened_mark opened' a)
      else opened_mark opened' a
  end.

Lemma raise_opened_mark areas opened a : (∀ o, o ∈ opened → 0 ≤ OpenedArea.version o) → 0 ≤ default 0 (areas !! a) →
  default 0 (raise_opened areas opened !! a) = Z.max (default 0 (areas !! a)) (opened_mark opened a).
Proof.
  unfold raise_opened. revert areas; induction opened as [|o opened IH]; intros areas Hpos Ha; cbn; [lia|].
  assert (0 ≤ OpenedArea.version o) by (apply Hpos; by left).
  rewrite IH; [|intros; apply Hpos; by right|rewrite raise_mark; case_decide; lia].
  rewrite raise_mark. repeat case_decide; subst; try done; lia.
Qed.

(** Marks and opened versions are positive ([checkGroupPin] sees to it). *)
Definition pin_wf (pin : GroupPin.t) : Prop := ∀ a v, GroupPin.areas pin !! a = Some v → 1 ≤ v.

Lemma area_mark_nonneg pin a : pin_wf pin → 0 ≤ area_mark pin a.
Proof. unfold area_mark. intros H. destruct (GroupPin.areas pin !! a) eqn:E; cbn; [apply H in E|]; lia. Qed.

Lemma merged_mark current next opened a : pin_wf next → (∀ c, current = Some c → pin_wf c) →
  (∀ o, o ∈ opened → 1 ≤ OpenedArea.version o) →
  area_mark (merged_pin current next opened) a =
    Z.max (Z.max (match current with Some c => area_mark c a | None => 0 end) (area_mark next a)) (opened_mark opened a).
Proof.
  intros Hn Hc Ho. pose proof (area_mark_nonneg next a Hn). unfold area_mark, merged_pin. cbn [GroupPin.areas].
  assert (0 ≤ default 0 ((match current with Some c => GroupPin.areas c | None => ∅ end) !! a)) as Hcur.
  { destruct current as [c|]; [apply (area_mark_nonneg c a); auto|]. by rewrite lookup_empty. }
  rewrite raise_opened_mark; [|intros o Hin; specialize (Ho o Hin); lia|].
  - rewrite raise_all_mark; [|intros b v Hb; apply Hn in Hb; lia|done].
    destruct current as [c|]; [done|]. by rewrite lookup_empty.
  - rewrite raise_all_mark; [lia|intros b v Hb; apply Hn in Hb; lia|done].
Qed.

Lemma mergePin_family groupId current next opened m : mergePin groupId current next opened = Ok m →
  ∀ o, o ∈ opened → OpenedArea.groupId o = groupId.
Proof.
  unfold mergePin. intros H o Ho. not_refused H E. apply not_true_iff_false in E.
  destruct (decide (OpenedArea.groupId o = groupId)) as [|Hne]; [done|]. exfalso. apply E, existsb_exists.
  exists o. split; [by apply list_elem_of_In|]. by rewrite bool_decide_eq_false_2.
Qed.

(** What lets one pin be written over another. *)
Definition follows_pin (current next : GroupPin.t) : Prop :=
  GroupPin.firstEd25519PublicKey current = GroupPin.firstEd25519PublicKey next ∧
  GroupPin.firstMlDsaPublicKeyDigest current = GroupPin.firstMlDsaPublicKeyDigest next ∧
  (GroupPin.rosterVersion current = GroupPin.rosterVersion next → GroupPin.rosterDigest current = GroupPin.rosterDigest next) ∧
  (GroupPin.keyVersion current = GroupPin.keyVersion next → GroupPin.groupKeyDigest current = GroupPin.groupKeyDigest next) ∧
  GroupPin.rosterVersion current ≤ GroupPin.rosterVersion next ∧ GroupPin.keyVersion current ≤ GroupPin.keyVersion next.

Ltac merge_cases := repeat match goal with
  | |- context [?x =? ?y] => destruct (Z.eqb_spec x y)
  | |- context [?x <? ?y] => destruct (Z.ltb_spec x y)
  | |- context [bool_decide (?x = ?y)] => destruct (bool_decide_reflect (x = y))
  end; cbn [negb andb orb].

Lemma mergePin_merged groupId current next opened m :
  mergePin groupId (Some current) next opened = Ok (Merged m) →
  m = merged_pin (Some current) next opened ∧ follows_pin current next.
Proof.
  unfold mergePin, follows_pin. intros H. not_refused H E. revert H. cbv zeta.
  merge_cases; intros [= <-]; split; try done; split_and!; try done; try lia; intros; lia.
Qed.

Lemma mergePin_follows groupId current next opened : (∀ o, o ∈ opened → OpenedArea.groupId o = groupId) →
  follows_pin current next →
  mergePin groupId (Some current) next opened = Ok (Merged (merged_pin (Some current) next opened)).
Proof.
  intros Ho (E1 & E2 & Er & Ek & Hr & Hk). unfold mergePin.
  assert (existsb (λ area, OpenedArea.groupId area !== groupId) opened = false) as ->.
  { apply not_true_iff_false. intros (o & Hin & Hb)%existsb_exists. apply list_elem_of_In in Hin.
    rewrite bool_decide_eq_true_2 in Hb by auto. done. }
  cbv zeta. rewrite E1, E2. merge_cases; try lia; try (by destruct n); try done; exfalso; auto.
Qed.

Lemma raise_all_lookup areas next a :
  raise_all areas next !! a =
    match next !! a with
    | Some v => Some (Z.max (default 0 (areas !! a)) v)
    | None => areas !! a
    end.
Proof.
  unfold raise_all. apply (map_fold_weak_ind (λ r next, r !! a =
    match next !! a with Some v => Some (Z.max (default 0 (areas !! a)) v) | None => areas !! a end)).
  - by rewrite lookup_empty.
  - intros id v m r Hm IH. unfold raise. destruct (decide (id = a)) as [->|Hne].
    + rewrite !lookup_insert_eq, IH, Hm. done.
    + by rewrite !lookup_insert_ne by done.
Qed.

Lemma raise_all_comm areas next : (∀ a v, areas !! a = Some v → 1 ≤ v) → (∀ a v, next !! a = Some v → 1 ≤ v) →
  raise_all areas next = raise_all next areas.
Proof.
  intros H1 H2. apply map_eq. intros a. rewrite !raise_all_lookup.
  destruct (next !! a) as [y|] eqn:Ey, (areas !! a) as [x|] eqn:Ex; cbn; try done; f_equal;
    repeat match goal with
    | H : areas !! _ = Some _ |- _ => apply H1 in H
    | H : next !! _ = Some _ |- _ => apply H2 in H
    end; lia.
Qed.

Lemma merged_pin_comm a b : pin_wf a → pin_wf b → follows_pin a b → follows_pin b a →
  merged_pin (Some a) b [] = merged_pin (Some b) a [].
Proof.
  intros Ha Hb (E1 & E2 & Er & Ek & Hr & Hk) (_ & _ & _ & _ & Hr' & Hk').
  assert (GroupPin.rosterVersion a = GroupPin.rosterVersion b) as Ev by lia.
  assert (GroupPin.keyVersion a = GroupPin.keyVersion b) as Ekv by lia.
  unfold merged_pin. rewrite E1, E2, (Er Ev), (Ek Ekv), Ev, Ekv. cbn [raise_opened foldl]. f_equal.
  - destruct (str_ltb_total (GroupPin.checkedAt a) (GroupPin.checkedAt b)) as [H|[H|H]].
    + rewrite H. destruct (str_ltb (GroupPin.checkedAt b) (GroupPin.checkedAt a)) eqn:H'; [|done].
      pose proof (str_ltb_trans _ _ _ H H') as Hi. by rewrite str_ltb_irrefl in Hi.
    + by rewrite H.
    + rewrite H. destruct (str_ltb (GroupPin.checkedAt a) (GroupPin.checkedAt b)) eqn:H'; [|done].
      pose proof (str_ltb_trans _ _ _ H H') as Hi. by rewrite str_ltb_irrefl in Hi.
  - by apply raise_all_comm.
Qed.

(** A conflict, by the pins alone. *)
Definition conflicting (a b : GroupPin.t) : Prop :=
  GroupPin.firstEd25519PublicKey a ≠ GroupPin.firstEd25519PublicKey b ∨
  GroupPin.firstMlDsaPublicKeyDigest a ≠ GroupPin.firstMlDsaPublicKeyDigest b ∨
  (GroupPin.rosterVersion a = GroupPin.rosterVersion b ∧ GroupPin.rosterDigest a ≠ GroupPin.rosterDigest b) ∨
  (GroupPin.keyVersion a = GroupPin.keyVersion b ∧ GroupPin.groupKeyDigest a ≠ GroupPin.groupKeyDigest b) ∨
  (GroupPin.rosterVersion b < GroupPin.rosterVersion a ∧ GroupPin.keyVersion a < GroupPin.keyVersion b) ∨
  (GroupPin.keyVersion b < GroupPin.keyVersion a ∧ GroupPin.rosterVersion a < GroupPin.rosterVersion b).

Lemma conflicting_sym a b : conflicting a b → conflicting b a.
Proof. unfold conflicting. naive_solver. Qed.

Lemma mergePin_conflict groupId a b opened : (∀ o, o ∈ opened → OpenedArea.groupId o = groupId) →
  mergePin groupId (Some a) b opened = Ok Conflict ↔ conflicting a b.
Proof.
  intros Ho. unfold mergePin.
  assert (existsb (λ area, OpenedArea.groupId area !== groupId) opened = false) as ->.
  { apply not_true_iff_false. intros (o & Hin & Hb)%existsb_exists. apply list_elem_of_In in Hin.
    rewrite bool_decide_eq_true_2 in Hb by auto. done. }
  cbv zeta. unfold conflicting. merge_cases; split; try done; try (intros _; tauto);
    intros [?|[?|[[? ?]|[[? ?]|[[? ?]|[? ?]]]]]]; try done; lia.
Qed.

Lemma follows_or_conflicts a b : ¬ conflicting a b → follows_pin a b ∨ follows_pin b a.
Proof.
  intros Hc. unfold conflicting in Hc. unfold follows_pin.
  destruct (decide (GroupPin.firstEd25519PublicKey a = GroupPin.firstEd25519PublicKey b)); [|tauto].
  destruct (decide (GroupPin.firstMlDsaPublicKeyDigest a = GroupPin.firstMlDsaPublicKeyDigest b)); [|tauto].
  destruct (decide (GroupPin.rosterDigest a = GroupPin.rosterDigest b));
    destruct (decide (GroupPin.groupKeyDigest a = GroupPin.groupKeyDigest b));
    destruct (Z.lt_trichotomy (GroupPin.rosterVersion a) (GroupPin.rosterVersion b)) as [?|[?|?]];
    destruct (Z.lt_trichotomy (GroupPin.keyVersion a) (GroupPin.keyVersion b)) as [?|[?|?]]; try tauto;
    first [left; split_and!; first [done|lia|intros; exfalso; lia|intros; tauto]
          |right; split_and!; first [done|lia|intros; exfalso; lia|intros; tauto]].
Qed.

(** ** Canonical keys are what [decode] reads *)

Section sextets.
Local Open Scope N_scope.

Lemma sextets_group w x y z : w < 64 → x < 64 → y < 64 → z < 64 →
  let n := w * 262144 + x * 4096 + y * 64 + z in
  n / 262144 = w ∧ (n / 4096) mod 64 = x ∧ (n / 64) mod 64 = y ∧ n mod 64 = z ∧ n < 16777216.
Proof.
  intros Hw Hx Hy Hz n. subst n.
  assert ((w * 262144 + x * 4096 + y * 64 + z) / 64 = w * 4096 + x * 64 + y) as E1 by (symmetry; apply N.div_unique with z; lia).
  assert ((w * 262144 + x * 4096 + y * 64 + z) / 4096 = w * 64 + x) as E2
    by (symmetry; apply N.div_unique with (y * 64 + z); lia).
  rewrite E1, E2. split_and!; [..|lia].
  - symmetry; apply N.div_unique with (x * 4096 + y * 64 + z); lia.
  - symmetry; apply N.mod_unique with w; lia.
  - symmetry; apply N.mod_unique with (w * 64 + x); lia.
  - symmetry; apply N.mod_unique with (w * 4096 + x * 64 + y); lia.
Qed.

Lemma bytes_group n : n < 16777216 →
  n / 65536 < 256 ∧ (n / 256) mod 256 < 256 ∧ n mod 256 < 256 ∧
  (n / 65536) * 65536 + ((n / 256) mod 256) * 256 + n mod 256 = n.
Proof.
  intros Hn. split_and!; try (apply N.mod_lt; lia); [apply N.Div0.div_lt_upper_bound; lia|].
  pose proof (N.div_mod' n 256). pose proof (N.div_mod' (n / 256) 256).
  replace (n / 256 / 256) with (n / 65536) in * by (rewrite N.Div0.div_div; reflexivity). lia.
Qed.
End sextets.

(** Characters that leave no spare bits are those of a value divisible by four. *)
Lemma no_spare_value c v : b64_value c = Some v →
  existsb (Ascii.eqb c) (String.list_ascii_of_string "AEIMQUYcgkosw048") = true → (v mod 4 = 0)%N.
Proof.
  intros Hv Hc. pose proof (all_ascii_spec (λ c, match b64_value c with
    | Some v => negb (existsb (Ascii.eqb c) (String.list_ascii_of_string "AEIMQUYcgkosw048")) || (v mod 4 =? 0)%N
    | None => true end) ltac:(vm_compute; reflexivity) c) as H.
  cbn beta in H. rewrite Hv, Hc in H. by apply N.eqb_eq.
Qed.

Lemma string_ind4 (P : string → Prop) :
  P "" → (∀ a, P (String a "")) → (∀ a b, P (String a (String b ""))) → (∀ a b c, P (String a (String b (String c "")))) →
  (∀ a b c d s, P s → P (String a (String b (String c (String d s))))) → ∀ s, P s.
Proof. intros H0 H1 H2 H3 H4. fix IH 1. intros [|a [|b [|c [|d s]]]]; [done|done|done|done|]. apply H4, IH. Qed.

Lemma last_char_cons a b s : last_char (String a (String b s)) = last_char (String b s).
Proof. done. Qed.

(** A text of whole groups, or of a last group of three characters with no
    spare bits, is what its bytes encode to. *)
Lemma encode_atob v out : atob v = Some out →
  slen v mod 4 = 0 ∨ (slen v mod 4 = 3 ∧ no_spare_bits v = true) → encode out = v.
Proof.
  unfold no_spare_bits. revert out; induction v as [|a|a b|a b c|a b c d v IH] using string_ind4; intros out.
  - by intros [= <-].
  - by intros _ [|[? _]].
  - by intros _ [|[? _]].
  - intros H [|[_ Hs]]; [done|]. cbn -[N.mul N.add N.div N.modulo ascii_of_N] in H. destruct (b64_value a) as [w|] eqn:Ha; [|done].
    destruct (b64_value b) as [x|] eqn:Hb; [|done]. destruct (b64_value c) as [y|] eqn:Hc; [|done]. injection H as <-.
    apply (no_spare_value c y Hc) in Hs. apply b64_char_value in Ha as [Ea ?], Hb as [Eb ?], Hc as [Ec ?].
    destruct (sextets_group w x y 0) as (S1 & S2 & S3 & _ & Hlt); [done..|]. rewrite N.add_0_r in *.
    set (n := (w * 262144 + x * 4096 + y * 64)%N) in *. destruct (bytes_group n Hlt) as (B1 & B2 & _ & Bs).
    assert (n mod 256 = 0)%N as Hn.
    { apply N.Div0.mod_divides in Hs as [k ->]. unfold n. symmetry. apply N.mod_unique with (w * 1024 + x * 16 + k)%N; lia. }
    cbn [encode]. cbv zeta. rewrite !N_ascii_embedding by done. rewrite Hn, N.add_0_r in Bs. rewrite Bs, S1, S2, S3.
    by rewrite Ea, Eb, Ec.
  - intros H Hl. cbn -[N.mul N.add N.div N.modulo ascii_of_N] in H. destruct (b64_value a) as [w|] eqn:Ha; [|done].
    destruct (b64_value b) as [x|] eqn:Hb; [|done]. destruct (b64_value c) as [y|] eqn:Hc; [|done].
    destruct (b64_value d) as [z|] eqn:Hd; [|done]. destruct (atob v) as [rest|] eqn:Hv; [|done]. injection H as <-.
    apply b64_char_value in Ha as [Ea ?], Hb as [Eb ?], Hc as [Ec ?], Hd as [Ed ?].
    destruct (sextets_group w x y z) as (S1 & S2 & S3 & S4 & Hlt); [done..|].
    set (n := (w * 262144 + x * 4096 + y * 64 + z)%N) in *. destruct (bytes_group n Hlt) as (B1 & B2 & B3 & Bs).
    cbn [encode]. cbv zeta. rewrite !N_ascii_embedding by done. rewrite Bs, S1, S2, S3, S4, Ea, Eb, Ec, Ed.
    rewrite (IH rest); [done|done|]. assert (slen (String a (String b (String c (String d v)))) = slen v + 1 * 4) as E
      by (unfold slen; cbn [String.length]; lia).
    rewrite E, Z.mod_add in Hl by done. destruct v as [|a' v]; [by left|]. by rewrite !last_char_cons in Hl.
Qed.

Lemma decode_exact v out n : n ≠ 0 → decode v (Some n) = Ok out ↔ encode out = v ∧ slen out = n.
Proof.
  intros Hn. split.
  - intros (H1 & _ & H2)%decode_ok. auto.
  - intros [<- Hl]. apply decode_encode_len; [|done]. intros ->. by apply Hn.
Qed.

Lemma no_spare_char v : (v < 64)%N → (v mod 4 = 0)%N →
  existsb (Ascii.eqb (b64_char v)) (String.list_ascii_of_string "AEIMQUYcgkosw048") = true.
Proof.
  intros Hv Hm. assert (∀ m : nat, (m < 64)%nat → (N.of_nat m mod 4 = 0)%N →
    existsb (Ascii.eqb (b64_char (N.of_nat m))) (String.list_ascii_of_string "AEIMQUYcgkosw048") = true) as H.
  { intros m Hlt. do 64 (destruct m as [|m]; [by vm_compute|]). lia. }
  specialize (H (N.to_nat v)). rewrite N2Nat.id in H. apply H; [lia|done].
Qed.

Lemma no_spare_encode out : slen out mod 3 = 2 → no_spare_bits (encode out) = true.
Proof.
  unfold no_spare_bits. induction out as [|a|a b|a b c out IH] using string_ind3; intros Hl; [done|done| |].
  - cbn [encode]. cbv zeta. rewrite !last_char_cons. cbn [last_char]. apply no_spare_char; [auto with b64|].
    set (x := N_of_ascii a). set (y := N_of_ascii b).
    assert ((x * 65536 + y * 256) / 64 = x * 1024 + y * 4)%N as ->
      by (symmetry; apply N.div_unique with 0%N; lia).
    replace (x * 1024 + y * 4)%N with ((x * 256 + y) * 4)%N by lia.
    replace 64%N with (16 * 4)%N by lia. rewrite N.Div0.mul_mod_distr_r. apply N.Div0.mod_mul.
  - assert (slen (String a (String b (String c out))) = slen out + 1 * 3) as E by (unfold slen; cbn [String.length]; lia).
    rewrite E, Z.mod_add in Hl by done. cbn [encode]. cbv zeta.
    destruct out as [|a' [|b' [|c' out]]]; [done|done|exact (IH Hl)|exact (IH Hl)].
Qed.

Lemma slen_43 v : slen v = 43 → slen v mod 4 = 3.
Proof. by intros ->. Qed.

Lemma canonicalKey_decode v out : canonicalKey v = Ok out ↔ decode v (Some 32) = Ok out.
Proof.
  rewrite decode_exact by done. unfold canonicalKey. split.
  - intros H. not_refused H Ec. destruct (atob v) as [b|] eqn:Ea; [|done]. not_refused H Es. injection H as ->. bool_simpl.
    split; [|done]. apply encode_atob; [done|]. right. split; [by apply slen_43|done].
  - intros [<- Hl]. rewrite encode_chars, encode_length, Hl, atob_encode, Hl. cbn [andb Z.eqb].
    by rewrite no_spare_encode by (by rewrite Hl).
Qed.

Lemma canonicalBytes_decode v out n : n ≠ 0 → canonicalBytes v (Some n) = Ok out ↔ decode v (Some n) = Ok out.
Proof.
  intros Hn. rewrite decode_exact by done. unfold canonicalBytes. split.
  - intros H. not_refused H Ec. destruct (atob v) as [b|] eqn:Ea; [|done]. not_refused H Es. injection H as ->. by bool_simpl.
  - intros [<- Hl]. rewrite encode_chars, atob_encode, Hl, Z.eqb_refl. by rewrite bool_decide_eq_true_2.
Qed.

(** ** What pins stand for *)

Section trust_lemmas.
Context `{C : Crypto} `{!CryptoLaws C}.

Lemma fingerprint_nonempty enc sign mlDsa kem c : fingerprint enc sign mlDsa kem = Ok c → c ≠ "".
Proof.
  unfold fingerprint. intros H. not_refused H E. injection H as <-.
  set (h := sha256 _). pose proof (sha256_length ("hushos/identity/fingerprint/v3" +:+ enc +:+ sign +:+ mlDsa +:+ kem)) as Hl.
  fold h in Hl. clearbody h. destruct h as [|a [|b h]]; [done|done|].
  unfold subarray. change (Z.to_nat 0) with 0%nat. cbn -[groups_of_four]. done.
Qed.

Lemma served_pin_keys_print served keys : served_pin_keys served = Ok keys →
  ∀ mlDsa kem, decode (ServedKeys.mlDsaPublicKey served) (Some 1952) = Ok mlDsa →
    decode (ServedKeys.kemPublicKey served) (Some 1184) = Ok kem →
    PinKeys.mlDsaPublicKeyHash keys = Some (keyDigest mlDsa) ∧ PinKeys.kemPublicKeyHash keys = Some (keyDigest kem) ∧
    PinKeys.encryptionPublicKey keys = ServedKeys.encryptionPublicKey served ∧
    PinKeys.signingPublicKey keys = ServedKeys.signingPublicKey served.
Proof.
  unfold served_pin_keys. intros H mlDsa kem Hm Hk. apply bind_ok in H as (m' & Hm' & H). apply bind_ok in H as (k' & Hk' & H).
  apply bind_ok in H as (v & Hv & [= <-]). apply canonicalBytes_decode in Hm', Hk'; [|done..]. rewrite Hm in Hm'. rewrite Hk in Hk'. injection Hm' as ->. injection Hk' as ->. done.
Qed.

Lemma keyDigest_present b : present (Some (keyDigest b)) = Some (keyDigest b).
Proof.
  unfold keyDigest. pose proof (sha256_length b) as Hl. destruct (sha256 b) as [|a s]; [done|]. done.
Qed.

Lemma hexBytes_keyDigest b : hexBytes (keyDigest b) = Ok (sha256 b).
Proof. apply hexBytes_to_hex, sha256_length. Qed.

(** The commitment of served keys is the fingerprint of the keys themselves. *)
Lemma key_print_served pin enc sign mlDsa kem :
  slen mlDsa = 1952 → slen kem = 1184 → canonicalKey (PinKeys.encryptionPublicKey pin) = Ok enc →
  canonicalKey (PinKeys.signingPublicKey pin) = Ok sign →
  key_print pin (keyDigest mlDsa) (keyDigest kem) = fingerprintOfKeys enc sign mlDsa kem.
Proof.
  intros Hm Hk He Hs. unfold key_print, fingerprintOfKeys, ML_DSA_PUBLIC_KEY_BYTES, KEM_PUBLIC_KEY_BYTES.
  rewrite He, Hs, Hm, Hk, !Z.eqb_refl. cbn [negb orb mbind res_bind]. done.
Qed.

Lemma pinKeysOfServed_spec served form pin : pinKeysOfServed served form = Ok pin →
  ∃ enc sign mlDsa kem print,
    decode (ServedKeys.encryptionPublicKey served) (Some 32) = Ok enc ∧
    decode (ServedKeys.signingPublicKey served) (Some 32) = Ok sign ∧
    decode (ServedKeys.mlDsaPublicKey served) (Some 1952) = Ok mlDsa ∧
    decode (ServedKeys.kemPublicKey served) (Some 1184) = Ok kem ∧
    fingerprintOfKeys enc sign mlDsa kem = Ok print ∧ keyCommitment pin = Some print ∧
    pinTrust pin = match form with as_verified => verified | as_seen => seen end.
Proof.
  unfold pinKeysOfServed. intros (keys & Hkeys%recast_ok & H)%bind_ok.
  pose proof Hkeys as Hk. unfold served_pin_keys in Hk. apply bind_ok in Hk as (mlDsa & Hm & Hk).
  apply bind_ok in Hk as (kem & Hkem & _). apply canonicalBytes_decode in Hm, Hkem; [|done..].
  destruct (served_pin_keys_print _ _ Hkeys _ _ Hm Hkem) as (E1 & E2 & E3 & E4).
  assert (∀ p, PinKeys.mlDsaPublicKeyHash p = Some (keyDigest mlDsa) → PinKeys.kemPublicKeyHash p = Some (keyDigest kem) →
    keyCommitment p = to_option (key_print p (keyDigest mlDsa) (keyDigest kem))) as Hcom.
  { intros p Hp1 Hp2. unfold keyCommitment. rewrite Hp1, Hp2, !keyDigest_present. done. }
  rewrite (Hcom keys E1 E2) in H. destruct (key_print keys _ _) as [print|] eqn:Hprint; [|done].
  cbn [to_option] in H. injection H as <-. pose proof Hprint as Hp. unfold key_print in Hp. rewrite E3, E4 in Hp.
  apply bind_ok in Hp as (enc & Henc & Hp). apply bind_ok in Hp as (sign & Hsign & Hp). clear Hp.
  pose proof (key_print_served keys enc sign mlDsa kem) as Hserved. rewrite E3, E4, Hprint in Hserved.
  specialize (Hserved (proj2 (proj1 (decode_exact _ _ 1952 ltac:(done)) Hm))
    (proj2 (proj1 (decode_exact _ _ 1184 ltac:(done)) Hkem)) Henc Hsign).
  exists enc, sign, mlDsa, kem, print. rewrite <-!canonicalKey_decode. split_and!; try done.
  - rewrite Hcom by done. unfold key_print in Hprint |- *. cbn [PinKeys.encryptionPublicKey PinKeys.signingPublicKey]. by rewrite Hprint.
  - assert (print ≠ "") as Hne.
    { unfold key_print in Hprint. do 4 (apply bind_ok in Hprint as (? & _ & Hprint)). by eapply fingerprint_nonempty. }
    unfold pinTrust, pinVerified, key_print. cbn [PinKeys.mlDsaPublicKeyHash PinKeys.kemPublicKeyHash
      PinKeys.encryptionPublicKey PinKeys.signingPublicKey PinKeys.fingerprint].
    rewrite E1, E2, !keyDigest_present, E3, E4. unfold key_print in Hprint. rewrite E3, E4 in Hprint. rewrite Hprint.
    assert (present (Some (ServedKeys.signingPublicKey served)) = Some (ServedKeys.signingPublicKey served)) as ->.
    { apply canonicalKey_decode, decode_ok in Hsign as (<- & Hne' & _). cbn. destruct (encode sign) eqn:Ee; [|done].
      by apply encode_empty in Ee. }
    destruct form; [by rewrite bool_decide_eq_true_2|]. rewrite (bool_decide_eq_false_2 (print = "")) by done.
    rewrite Hcom by done. unfold key_print. cbn [PinKeys.encryptionPublicKey PinKeys.signingPublicKey].
    rewrite ?E3, ?E4, Hprint. cbn [to_option]. rewrite !bool_decide_eq_true_2; [done|by eexists|done].
Qed.
End trust_lemmas.

(** ** Properties *)

(** Writing one group pin over another never takes a mark back: the pin
    that may be written is at or past the held one on its roster and its key,
    names the same digests where the versions are the same and the same first
    keys, keeps the earlier check time, and marks every area with the highest
    version that the two pins and the opened areas name. *)
Theorem merge_never_lowers groupId current next opened merged :
  mergePin groupId (Some current) next opened = Ok (Merged merged) →
  pin_wf current → pin_wf next → (∀ o, o ∈ opened → 1 ≤ OpenedArea.version o) →
  follows_pin current merged ∧
  str_ltb (GroupPin.checkedAt current) (GroupPin.checkedAt merged) = false ∧
  (∀ o, o ∈ opened → OpenedArea.groupId o = groupId) ∧
  ∀ area, area_mark merged area =
    Z.max (Z.max (area_mark current area) (area_mark next area)) (opened_mark opened area).
Proof.
  intros H Hc Hn Ho. pose proof (mergePin_family _ _ _ _ _ H) as Hf. apply mergePin_merged in H as [-> Hfol].
  split; [exact Hfol|]. split; [|split; [done|]].
  - cbn. destruct (str_ltb (GroupPin.checkedAt current) (GroupPin.checkedAt next)) eqn:E; [apply str_ltb_irrefl|done].
  - intros a. rewrite merged_mark by (try done; by intros ? [= <-]). done.
Qed.

(** C39. Two devices that merge each other's pins agree: what one calls a
    conflict the other does, when one side is behind the other may be written
    over it, and when both may be written they are one pin. *)
Theorem merges_agree groupId a b x y : pin_wf a → pin_wf b →
  mergePin groupId (Some a) b [] = Ok x → mergePin groupId (Some b) a [] = Ok y →
  (x = Conflict ↔ y = Conflict) ∧ (x = Behind → ∃ m, y = Merged m) ∧
  (∀ m m', x = Merged m → y = Merged m' → m = m').
Proof.
  intros Ha Hb Hx Hy. assert (∀ o : OpenedArea.t, o ∈ [] → OpenedArea.groupId o = groupId) as Ho by (by intros ? ?%not_elem_of_nil).
  split; [|split].
  - assert (x = Conflict ↔ conflicting a b) as -> by (rewrite <-(mergePin_conflict groupId a b [] Ho), Hx; naive_solver).
    assert (y = Conflict ↔ conflicting b a) as -> by (rewrite <-(mergePin_conflict groupId b a [] Ho), Hy; naive_solver).
    split; apply conflicting_sym.
  - intros ->. assert (¬ conflicting a b) as Hnc by (rewrite <-(mergePin_conflict groupId a b [] Ho), Hx; naive_solver).
    destruct (follows_or_conflicts a b Hnc) as [Hf|Hf].
    + rewrite (mergePin_follows _ _ _ [] Ho Hf) in Hx. naive_solver.
    + rewrite (mergePin_follows _ _ _ [] Ho Hf) in Hy. naive_solver.
  - intros m m' -> ->. apply mergePin_merged in Hx as [-> Hf], Hy as [-> Hf']. by apply merged_pin_comm.
Qed.

(** The keys the server serves make a pin of the kind asked for or none: a
    words check makes a verified pin whose fingerprint is that of the four
    served keys, a first sight a first-seen pin, both with those keys'
    commitment, and only keys in the canonical form every other part of the
    protocol reads are pinned. *)
Theorem pinned_keys_stand `{C : Crypto} `{!CryptoLaws C} served form pin : pinKeysOfServed served form = Ok pin →
  ∃ enc sign mlDsa kem print,
    decode (ServedKeys.encryptionPublicKey served) (Some 32) = Ok enc ∧
    decode (ServedKeys.signingPublicKey served) (Some 32) = Ok sign ∧
    decode (ServedKeys.mlDsaPublicKey served) (Some 1952) = Ok mlDsa ∧
    decode (ServedKeys.kemPublicKey served) (Some 1184) = Ok kem ∧
    fingerprintOfKeys enc sign mlDsa kem = Ok print ∧ keyCommitment pin = Some print ∧
    pinTrust pin = match form with as_verified => verified | as_seen => seen end.
Proof. apply pinKeysOfServed_spec. Qed.

Module PinWitness.
Definition pin v t area := GroupPin.Build_t RosterWitness.k32 RosterWitness.k32 t 1 RosterWitness.k32 v RosterWitness.k32
  {[ area := 1 ]}.
Definition a := pin 3 "2026-01-02T00:00:00.000Z" RosterWitness.area.
Definition b := pin 3 "2026-01-01T00:00:00.000Z" RosterWitness.gid.
Definition merged := merged_pin (Some a) b [].

Lemma pin_ok v t area : pin_wf (pin v t area).
Proof. intros x y Hx. unfold pin in Hx. cbn [GroupPin.areas] in Hx. apply lookup_singleton_Some in Hx as [_ <-]. done. Qed.
Definition zeros (n : nat) : string := encode (fill n "000").
Definition served := ServedKeys.Build_t 1 (zeros 32) (zeros 32) (zeros 1952) (zeros 1184).
Definition pinned : PinKeys.t :=
  match pinKeysOfServed (C := Toy.crypto) served as_seen with Ok p => p | Err _ => PinKeys.Build_t None "" "" None None "" end.
End PinWitness.

Lemma merge_never_lowers_witness :
  follows_pin PinWitness.a PinWitness.merged ∧
  area_mark PinWitness.merged RosterWitness.area = 1 ∧ GroupPin.checkedAt PinWitness.merged = "2026-01-01T00:00:00.000Z".
Proof.
  split; [|split; vm_compute; reflexivity].
  refine (proj1 (merge_never_lowers RosterWitness.gid PinWitness.a PinWitness.b [] PinWitness.merged _ _ _ _)).
  - vm_compute. reflexivity.
  - apply PinWitness.pin_ok.
  - apply PinWitness.pin_ok.
  - intros o Ho. by apply not_elem_of_nil in Ho.
Defined.

Lemma merges_agree_witness : merged_pin (Some PinWitness.a) PinWitness.b [] = merged_pin (Some PinWitness.b) PinWitness.a [].
Proof.
  refine (proj2 (proj2 (merges_agree RosterWitness.gid PinWitness.a PinWitness.b _ _ _ _ _ _)) _ _ eq_refl eq_refl).
  - apply PinWitness.pin_ok.
  - apply PinWitness.pin_ok.
  - vm_compute. reflexivity.
  - vm_compute. reflexivity.
Defined.

Lemma pinned_keys_stand_witness : ∃ enc, decode (ServedKeys.encryptionPublicKey PinWitness.served) (Some 32) = Ok enc.
Proof.
  destruct (pinned_keys_stand (C := Toy.crypto) (CryptoLaws0 := Toy.crypto_laws) PinWitness.served as_seen PinWitness.pinned)
    as (enc & _ & _ & _ & _ & Henc & _); [vm_compute; reflexivity|by exists enc].
Defined.
