(* ===== verification/Chain.v ===== *)
(** * One pass along a roster chain (packages/crypto/src/group-trust.ts)

    What acceptance does between the served statements and its answer: the
    [State] it carries from roster to roster, the successions it takes
    ([admissibleSuccession], [nextSuccession], [establishNext]), the rules each
    roster keeps ([rosterRules]) and the pass over a linked path ([pass]). A
    [Map] is a [gmap]; the mutated state object is passed along and returned.

    [chain_step] is the specification: what one more roster, or one more key,
    must be for a reader to take it. The pass refines it. *)

From S2P Require Import Prelude Base64url Bytes Canonical HChaCha Crypto Roster Identity Ledger.

(** ** Messages *)

Definition NOT_FOLLOWING : string := "This roster does not follow the last one.".
Definition REPLACED_KEY : string := "This roster was signed by a group key that has been replaced.".
Definition HOLDER_LEFT : string := "A member who held the group key left, so the key must be replaced first.".
Definition NOT_HOLDER : string := "This was not signed by a member who holds the group key.".
Definition SIGNER_LEFT : string :=
  "A member list is signed by a member who stays on it: another holder signs a departure.".
Definition NO_HOLDER : string := "A member list keeps an active member who holds the group key.".
Definition NOT_MEMBER : string := "This is not signed by the member it names.".
Definition NOT_GROUP_SIGNED : string := "This roster is not signed by the group key.".
Definition NO_SUCCESSION : string := "A group key succession is missing.".
Definition NOT_BY_OLD_KEY : string := "This group key succession is not signed by the key it replaces.".
Definition NOT_TIED : string := "This group key succession is not tied to a roster on the member list.".
Definition OUT_OF_ORDER : string := "This group key succession is out of order.".
Definition NOT_NEW_KEY : string := "This group key succession does not replace the key with a new one.".
Definition TWO_SUCCESSIONS : string := "The server served more than one group key succession from one key.".

(** ** Conflicts *)

Inductive MarkSource := from_pin | from_cache | from_join | from_pair | from_served.
#[export] Instance MarkSource_eq_dec : EqDecision MarkSource.
Proof. solve_decision. Defined.

Module MarkSide.
Record t := { digest : string; from : list MarkSource; signerUserId : option string }.
End MarkSide.
Inductive ForkOf := of_roster | of_group_key.
Module RosterFork.
Record t := { fork_of : ForkOf; version : Z; sides : list MarkSide.t }.
End RosterFork.

(** What acceptance throws: a [CryptoError], or the [Fork] it answers with. [Unfinished] is neither: the loop
    below still running when its fuel ended, which it never is ([Acceptance.pass_settles]). *)
Inductive fault :=
  | Refused (message : string)
  | Fork (fork : RosterFork.t)
  | Unfinished.
Abbreviation acc := (res fault).

#[export] Instance MarkSide_eq_dec : EqDecision MarkSide.t.
Proof. solve_decision. Defined.
#[export] Instance ForkOf_eq_dec : EqDecision ForkOf.
Proof. solve_decision. Defined.
#[export] Instance RosterFork_eq_dec : EqDecision RosterFork.t.
Proof. solve_decision. Defined.
#[export] Instance fault_eq_dec : EqDecision fault.
Proof. solve_decision. Defined.

(** A refusal of a callee, thrown on. *)
Definition lift {A} (m : result A) : acc A := match m with Ok a => Ok a | Err e => Err (Refused e) end.

Lemma lift_ok {A} (m : result A) a : lift m = Ok a ↔ m = Ok a.
Proof. destruct m; cbn; split; by intros [= <-]. Qed.

Definition source_order : list MarkSource := [from_pin; from_cache; from_join; from_pair; from_served].

(** One more side in the merged list, in insertion order. *)
Fixpoint merge_side (merged : list MarkSide.t) (side : MarkSide.t) : list MarkSide.t :=
  match merged with
  | [] => [side]
  | held :: rest =>
      if MarkSide.digest held === MarkSide.digest side then
        {| MarkSide.digest := MarkSide.digest held;
           MarkSide.from := filter (λ f, f ∈ MarkSide.from held ∨ f ∈ MarkSide.from side) source_order;
           MarkSide.signerUserId :=
             match MarkSide.signerUserId held with Some s => Some s | None => MarkSide.signerUserId side end |} :: rest
      else held :: merge_side rest side
  end.

Definition side_le (a b : MarkSide.t) : Prop := String.le (MarkSide.digest a) (MarkSide.digest b).
#[export] Instance side_le_dec a b : Decision (side_le a b).
Proof. unfold side_le. apply _. Defined.

(** The sides of a conflict, merged by digest and sorted by it. *)
Definition sides (all : list MarkSide.t) : list MarkSide.t := merge_sort side_le (foldl merge_side [] all).

(** [conflict(of, version, all)] *)
Definition conflict (about : ForkOf) (version : Z) (all : list MarkSide.t) : acc unit :=
  let merged := sides all in
  if 1 <? llen merged then Err (Fork (RosterFork.Build_t about version merged)) else Ok tt.

(** ** Served statements *)

(** A served statement with every distinct copy of its signatures. *)
Module Served.
Record t (T : Type) := { value : T; statement : bytes; digest : string; copies : list SignedGroupStatement.t }.
Arguments value {T}.
Arguments statement {T}.
Arguments digest {T}.
Arguments copies {T}.
Arguments Build_t {T}.
End Served.

Definition same_copy (a b : SignedGroupStatement.t) : bool :=
  (GroupSignature.ed25519 (SignedGroupStatement.signature a) === GroupSignature.ed25519 (SignedGroupStatement.signature b)) &&
  (GroupSignature.mlDsa (SignedGroupStatement.signature a) === GroupSignature.mlDsa (SignedGroupStatement.signature b)) &&
  (SignedGroupStatement.signerSignature a === SignedGroupStatement.signerSignature b).

Section served.
Context `{C : Crypto} {T : Type}.

(** One more copy in the map from digests, in insertion order. *)
Fixpoint add_served (out : list (Served.t T)) (value : T) (key : string) (copy : SignedGroupStatement.t) : list (Served.t T) :=
  match out with
  | [] => [Served.Build_t value (SignedGroupStatement.statement copy) key [copy]]
  | held :: rest =>
      if Served.digest held === key then
        Served.Build_t (Served.value held) (Served.statement held) (Served.digest held)
          (if existsb (λ c, same_copy c copy) (Served.copies held) then Served.copies held
           else Served.copies held ++ [copy]) :: rest
      else held :: add_served rest value key copy
  end.

Fixpoint byDigest_loop (out : list (Served.t T)) (parse : bytes → result T) (signed : list SignedGroupStatement.t)
    : result (list (Served.t T)) :=
  match signed with
  | [] => Ok out
  | copy :: rest =>
      let* value := parse (SignedGroupStatement.statement copy) in
      byDigest_loop (add_served out value (digest (SignedGroupStatement.statement copy)) copy) parse rest
  end.

Definition byDigest (signed : list SignedGroupStatement.t) (parse : bytes → result T) : result (list (Served.t T)) :=
  byDigest_loop [] parse signed.
End served.

(** ** A member's signature *)

Section signed.
Context `{C : Crypto}.

Definition signedByMember (authority : Roster.t) (signerUserId : string) (signed : SignedGroupStatement.t)
    (mlDsaKeys : gmap string string) : bool :=
  match rosterEntry authority signerUserId with
  | None => false
  | Some entry => or_false (
      let* mlDsaPublicKey := decode (default "" (mlDsaKeys !! Member.mlDsaPublicKeyDigest entry))
        (Some ML_DSA_PUBLIC_KEY_BYTES) in
      if digest mlDsaPublicKey === Member.mlDsaPublicKeyDigest entry then
        let* signing := decode (Member.signingPublicKey entry) (Some 32) in
        Ok (verifyHybrid (SignedGroupStatement.statement signed) (SignedGroupStatement.signerSignature signed)
          (HybridPublicKey.Build_t signing mlDsaPublicKey))
      else Ok false)
  end.

Definition mlDsaDigest (publicKey : string) : option string :=
  digest <$> to_option (decode publicKey (Some ML_DSA_PUBLIC_KEY_BYTES)).

Definition servedKeysAreEntry (served : ServedKeys.t) (entry : Member.t) : bool :=
  or_false (
    if (ServedKeys.encryptionPublicKey served === Member.encryptionPublicKey entry) &&
       (ServedKeys.signingPublicKey served === Member.signingPublicKey entry) then
      let* mlDsa := decode (ServedKeys.mlDsaPublicKey served) (Some ML_DSA_PUBLIC_KEY_BYTES) in
      if digest mlDsa === Member.mlDsaPublicKeyDigest entry then
        let* kem := decode (ServedKeys.kemPublicKey served) (Some 1184) in
        Ok (digest kem === Member.kemPublicKeyDigest entry)
      else Ok false
    else Ok false).

Definition servedIsEntry (served : ServedKeys.t) (entry : Member.t) : bool :=
  (ServedKeys.keyVersion served =? Member.keyVersion entry) && servedKeysAreEntry served entry.
End signed.

(** ** The state of the pass *)

Module Held.
Record t := { roster : Roster.t; statement : bytes; digest : string; droppedHolder : bool }.
End Held.
Module Verified.
Record t := { lastRosterVersion : Z; digest : string; signerUserId : string }.
End Verified.
Module Rival.
Record t := { side : MarkSide.t; key : GroupPublicKey.t }.
End Rival.
Module Valid.
Record t := { served : Served.t GroupKeySuccession.t; succession : GroupKeySuccession.t; keyDigest : string }.
End Valid.
Inductive Verdict := held_by_member | not_member | not_old_key.

Module State.
Record t := {
  groupId : string; mlDsaKeys : gmap string string; keys : list GroupPublicKey.t; verified : gmap Z Verified.t;
  held : list Held.t; candidates : gmap Z (list (Served.t GroupKeySuccession.t)); keyMarks : gmap Z MarkSide.t;
  refused : gmap Z string; waiting : gmap Z (list Rival.t); signatures : gmap string Verdict; areas : AreaLedger.t;
}.
End State.

Definition with_signature (state : State.t) (digest : string) (v : Verdict) : State.t :=
  let 'State.Build_t g m k ve h c km r w s a := state in State.Build_t g m k ve h c km r w (<[digest := v]> s) a.
Definition with_refused (state : State.t) (version : Z) (reason : string) : State.t :=
  let 'State.Build_t g m k ve h c km r w s a := state in State.Build_t g m k ve h c km (<[version := reason]> r) w s a.
Definition with_waiting (state : State.t) (version : Z) (rivals : list Rival.t) : State.t :=
  let 'State.Build_t g m k ve h c km r w s a := state in State.Build_t g m k ve h c km r (<[version := rivals]> w) s a.
Definition with_key (state : State.t) (key : GroupPublicKey.t) (out : Verified.t) : State.t :=
  let 'State.Build_t g m k ve h c km r w s a := state in
  State.Build_t g m (k ++ [key]) (<[llen k := out]> ve) h c km r w s a.
Definition with_held (state : State.t) (held : Held.t) : State.t :=
  let 'State.Build_t g m k ve h c km r w s a := state in
  State.Build_t g m k ve (h ++ [held]) c km r w s (foldAreas a (Held.roster held)).

(** [state.keys[version - 1]] *)
Definition key_at (keys : list GroupPublicKey.t) (version : Z) : option GroupPublicKey.t :=
  if version <? 1 then None else keys !! Z.to_nat (version - 1).

Definition old_key_of (s : GroupKeySuccession.t) : GroupPublicKey.t :=
  GroupPublicKey.Build_t (GroupKeySuccession.oldEd25519PublicKey s) (GroupKeySuccession.oldMlDsaPublicKey s).
Definition new_key_of (s : GroupKeySuccession.t) : GroupPublicKey.t :=
  GroupPublicKey.Build_t (GroupKeySuccession.newEd25519PublicKey s) (GroupKeySuccession.newMlDsaPublicKey s).
Definition held_at (held : list Held.t) (version : Z) : option Held.t :=
  snd <$> list_find (λ at_, Roster.rosterVersion (Held.roster at_) = version) held.

(** ** Successions *)

Section pass.
Context `{C : Crypto}.

(** One copy signed by the old key and by the signer named. *)
Definition verdict_of (state : State.t) (served : Served.t GroupKeySuccession.t) (old : GroupPublicKey.t) (last : Held.t)
    : Verdict :=
  foldl (λ verdict copy,
    match verdict with
    | held_by_member => held_by_member
    | _ =>
        if verifyGroup (Served.statement served) (SignedGroupStatement.signature copy) old then
          if signedByMember (Held.roster last) (GroupKeySuccession.signerUserId (Served.value served)) copy
            (State.mlDsaKeys state)
          then held_by_member else not_member
        else verdict
    end) not_old_key (Served.copies served).

(** The succession from the key at [oldVersion] if it holds, or why not. *)
Definition admissibleSuccession (state : State.t) (served : Served.t GroupKeySuccession.t) (oldVersion : Z)
    : State.t * result GroupKeySuccession.t :=
  let succession := Served.value served in
  match key_at (State.keys state) oldVersion with
  | None => (state, Err NOT_BY_OLD_KEY)
  | Some old =>
      if (GroupKeySuccession.groupId succession !== State.groupId state) || negb (sameGroupKey old (old_key_of succession))
      then (state, Err NOT_BY_OLD_KEY)
      else if existsb (λ key, sameGroupKey key (new_key_of succession)) (State.keys state) then (state, Err NOT_NEW_KEY)
      else match held_at (State.held state) (GroupKeySuccession.lastRosterVersion succession) with
      | None => (state, Err NOT_TIED)
      | Some last =>
          if Held.digest last !== GroupKeySuccession.lastRosterDigest succession then (state, Err NOT_TIED)
          else if match State.verified state !! (oldVersion - 1) with
            | Some into => GroupKeySuccession.lastRosterVersion succession <? Verified.lastRosterVersion into
            | None => false
            end then (state, Err OUT_OF_ORDER)
          else if negb (activeWith (rosterEntry (Held.roster last) (GroupKeySuccession.signerUserId succession)) (Some members_role))
          then (state, Err NOT_HOLDER)
          else
            let '(state, verdict) :=
              match State.signatures state !! Served.digest served with
              | Some verdict => (state, verdict)
              | None =>
                  let verdict := verdict_of state served old last in
                  (with_signature state (Served.digest served) verdict, verdict)
              end in
            (state, match verdict with
                    | held_by_member => Ok succession
                    | not_member => Err NOT_MEMBER
                    | not_old_key => Err NOT_BY_OLD_KEY
                    end)
      end
  end.

(** The served successions from one key, one after another: those that hold, and why the first did not. *)
Fixpoint admit_all (state : State.t) (served : list (Served.t GroupKeySuccession.t)) (oldVersion : Z)
    (valid : list Valid.t) (reason : option string) : acc (State.t * list Valid.t * option string) :=
  match served with
  | [] => Ok (state, valid, reason)
  | at_ :: rest =>
      match admissibleSuccession state at_ oldVersion with
      | (state, Err e) => admit_all state rest oldVersion valid (match reason with Some r => Some r | None => Some e end)
      | (state, Ok succession) =>
          let* keyDigest := lift (groupKeyDigest (new_key_of succession)) in
          admit_all state rest oldVersion (valid ++ [Valid.Build_t at_ succession keyDigest]) reason
      end
  end.

Definition served_le (a b : Served.t GroupKeySuccession.t) : Prop := String.le (Served.digest a) (Served.digest b).
#[export] Instance served_le_dec a b : Decision (served_le a b).
Proof. unfold served_le. apply _. Defined.

Definition rival_of (v : Valid.t) : Rival.t :=
  Rival.Build_t (MarkSide.Build_t (Valid.keyDigest v) [from_served] (Some (GroupKeySuccession.signerUserId (Valid.succession v))))
    (new_key_of (Valid.succession v)).

Definition nextSuccession (state : State.t) : acc (State.t * option Valid.t) :=
  let oldVersion := llen (State.keys state) in
  let served := merge_sort served_le (default [] (State.candidates state !! oldVersion)) in
  let* (state, valid, reason) := admit_all state served oldVersion [] None in
  let* (state, chosen) :=
    match State.keyMarks state !! (oldVersion + 1) with
    | Some mark =>
        match snd <$> list_find (λ v, Valid.keyDigest v = MarkSide.digest mark) valid with
        | Some chosen => Ok (state, Some chosen)
        | None =>
            Ok (if 0 <? llen valid then with_waiting state oldVersion (map rival_of valid) else state, None)
        end
    | None =>
        refuse (Refused TWO_SUCCESSIONS) when 1 <? llen valid ;;
        Ok (state, head valid)
    end in
  match chosen with
  | None => Ok (with_refused state oldVersion (default NO_SUCCESSION reason), None)
  | Some chosen => Ok (state, Some chosen)
  end.

Definition establishNext (state : State.t) : acc (State.t * bool) :=
  let* (state, next) := nextSuccession state in
  match next with
  | None => Ok (state, false)
  | Some next =>
      let succession := Valid.succession next in
      Ok (with_key state (new_key_of succession)
        (Verified.Build_t (GroupKeySuccession.lastRosterVersion succession) (Served.digest (Valid.served next))
          (GroupKeySuccession.signerUserId succession)), true)
  end.

(** [while (await establishNext(state));] *)
Fixpoint establishAll (fuel : nat) (state : State.t) : acc State.t :=
  match fuel with
  | O => Err Unfinished
  | S fuel' =>
      let* (state, taken) := establishNext state in
      if taken : bool then establishAll fuel' state else Ok state
  end.
End pass.

(** ** Rosters *)

(** [rosterEntry(...)?.status === 'active'] of the signer, and someone who can sign the next roster. *)
Definition signer_stays (roster : Roster.t) : bool := is_active (rosterEntry roster (Roster.signerUserId roster)).
Definition keeps_holder (roster : Roster.t) : bool :=
  existsb (λ entry, activeWith (Some entry) (Some members_role)) (Roster.members roster).

Section roster_rules.
Context `{C : Crypto}.

(** Whether the copy signs [roster] under a key [rival], by a holder. *)
Definition signs_under (state : State.t) (roster authority : Roster.t) (statement : bytes) (key : GroupPublicKey.t)
    (copy : SignedGroupStatement.t) : bool :=
  verifyGroup statement (SignedGroupStatement.signature copy) key &&
  activeWith (rosterEntry authority (Roster.signerUserId roster)) (Some members_role) &&
  signer_stays roster && keeps_holder roster &&
  signedByMember authority (Roster.signerUserId roster) copy (State.mlDsaKeys state).

(** The refusal of a roster under a key not reached. *)
Definition key_missing (state : State.t) (roster authority : Roster.t) (statement : bytes)
    (copies : option (list SignedGroupStatement.t)) : fault :=
  let reached := llen (State.keys state) in
  let refusal := Refused (default NO_SUCCESSION (State.refused state !! reached)) in
  match State.waiting state !! reached, State.keyMarks state !! (reached + 1), copies with
  | Some rivals, Some mark, Some copies =>
      if (Roster.groupKeyVersion roster =? reached + 1) &&
         existsb (λ rival, existsb (signs_under state roster authority statement (Rival.key rival)) copies) rivals
      then Fork (RosterFork.Build_t of_group_key (reached + 1) (sides (mark :: map Rival.side rivals)))
      else refusal
  | _, _, _ => refusal
  end.

(** What the copies of a roster prove: signed by the group key, and by the signer. *)
Definition group_signed (statement : bytes) (copies : list SignedGroupStatement.t) (key : GroupPublicKey.t) : bool :=
  existsb (λ copy, verifyGroup statement (SignedGroupStatement.signature copy) key) copies.
Definition holder_signed (state : State.t) (roster authority : Roster.t) (statement : bytes)
    (copies : list SignedGroupStatement.t) (key : GroupPublicKey.t) : bool :=
  existsb (λ copy, verifyGroup statement (SignedGroupStatement.signature copy) key &&
    signedByMember authority (Roster.signerUserId roster) copy (State.mlDsaKeys state)) copies.

Definition rosterRules (state : State.t) (roster : Roster.t) (statement : bytes)
    (copies : option (list SignedGroupStatement.t)) (previous : option Held.t) : acc unit :=
  let authority := match previous with Some p => Held.roster p | None => roster end in
  refuse (Refused NOT_FOLLOWING) when
    match previous with Some p => Roster.kind roster !== Roster.kind (Held.roster p) | None => false end ;;
  if llen (State.keys state) <? Roster.groupKeyVersion roster then Err (key_missing state roster authority statement copies)
  else
  refuse (Refused REPLACED_KEY) when
    match State.verified state !! Roster.groupKeyVersion roster with
    | Some out => Verified.lastRosterVersion out <? Roster.rosterVersion roster
    | None => false
    end ;;
  refuse (Refused NOT_HOLDER) unless activeWith (rosterEntry authority (Roster.signerUserId roster)) (Some members_role) ;;
  refuse (Refused SIGNER_LEFT) unless signer_stays roster ;;
  refuse (Refused NO_HOLDER) unless keeps_holder roster ;;
  let* _ :=
    match copies, key_at (State.keys state) (Roster.groupKeyVersion roster) with
    | None, _ => Ok tt
    | Some _, None => Err (Refused NOT_GROUP_SIGNED)
    | Some copies, Some key =>
        refuse (Refused NOT_GROUP_SIGNED) unless group_signed statement copies key ;;
        refuse (Refused NOT_MEMBER) unless holder_signed state roster authority statement copies key ;;
        Ok tt
    end in
  refuse (Refused HOLDER_LEFT) when
    match previous with
    | Some p => Held.droppedHolder p &&
        negb match State.verified state !! Roster.groupKeyVersion (Held.roster p) with
             | Some out => Verified.lastRosterVersion out =? Roster.rosterVersion (Held.roster p)
             | None => false
             end
    | None => false
    end ;;
  let* _ := match previous with Some p => lift (checkEntries (Held.roster p) roster) | None => Ok tt end in
  lift (checkAreas (State.areas state) (Held.roster <$> previous) roster).

(** One roster of the path, then the successions tied to it. *)
Definition pass_step (fuel : nat) (state : State.t) (at_ : Served.t Roster.t) : acc State.t :=
  let previous := last (State.held state) in
  let* _ := rosterRules state (Served.value at_) (Served.statement at_) (Some (Served.copies at_)) previous in
  establishAll fuel (with_held state {|
    Held.roster := Served.value at_; Held.statement := Served.statement at_; Held.digest := Served.digest at_;
    Held.droppedHolder := match previous with Some p => dropsHolder (Held.roster p) (Served.value at_) | None => false end |}).

Fixpoint pass_path (fuel : nat) (state : State.t) (path : list (Served.t Roster.t)) : acc State.t :=
  match path with
  | [] => Ok state
  | at_ :: rest => let* state := pass_step fuel state at_ in pass_path fuel state rest
  end.

Definition pass (fuel : nat) (state : State.t) (path : list (Served.t Roster.t)) : acc State.t :=
  let* state := establishAll fuel state in pass_path fuel state path.
End roster_rules.

(** ** The specification of a chain

    What a reader may hold: the group keys, version 1 first, the roster each
    succession is tied to, the rosters, and what they listed of the areas. *)

Module Chain.
Record t := { keys : list GroupPublicKey.t; ties : list Z; held : list Held.t; ledger : AreaLedger.t }.
End Chain.

(** Why a roster follows the last one held. *)
Definition succeeds (previous : option Held.t) (roster : Roster.t) : Prop :=
  match previous with
  | None => Roster.rosterVersion roster = 1
  | Some p => Roster.rosterVersion roster = Roster.rosterVersion (Held.roster p) + 1 ∧
      Roster.previousRosterDigest roster = Held.digest p ∧ Roster.kind roster = Roster.kind (Held.roster p) ∧
      checkEntries (Held.roster p) roster = Ok tt
  end.

Section spec.
Context `{C : Crypto} (groupId : string) (mlDsaKeys : gmap string string).

(** The succession that replaces the last key: signed by that key and by a
    holder of the roster it is tied to, one the chain holds, and never tied to
    an earlier roster than the succession before it. *)
Record key_follows (c : Chain.t) (s : GroupKeySuccession.t) (statement : bytes) (copy : SignedGroupStatement.t) (at_ : Held.t)
    : Prop := {
  kf_parsed : parseGroupSuccession statement = Ok s;
  kf_group : GroupKeySuccession.groupId s = groupId;
  kf_version : GroupKeySuccession.oldVersion s = llen (Chain.keys c);
  kf_old : last (Chain.keys c) = Some (old_key_of s);
  kf_new : new_key_of s ∉ Chain.keys c;
  kf_held : at_ ∈ Chain.held c;
  kf_tied : Roster.rosterVersion (Held.roster at_) = GroupKeySuccession.lastRosterVersion s;
  kf_digest : Held.digest at_ = GroupKeySuccession.lastRosterDigest s;
  kf_order tie : last (Chain.ties c) = Some tie → tie ≤ GroupKeySuccession.lastRosterVersion s;
  kf_holder : activeWith (rosterEntry (Held.roster at_) (GroupKeySuccession.signerUserId s)) (Some members_role) = true;
  kf_copy : digest (SignedGroupStatement.statement copy) = digest statement;
  kf_old_signed : verifyGroup statement (SignedGroupStatement.signature copy) (old_key_of s) = true;
  kf_member_signed : signedByMember (Held.roster at_) (GroupKeySuccession.signerUserId s) copy mlDsaKeys = true;
}.

(** The roster that comes next: under a key of the chain not replaced before
    it, signed by that key and by a holder of the roster before it who stays,
    keeping the entry and area rules, and under a new key when the roster
    before it took a holder away. *)
Record roster_follows (c : Chain.t) (roster : Roster.t) (statement : bytes) (copy : SignedGroupStatement.t)
    (key : GroupPublicKey.t) : Prop := {
  rf_parsed : parseRoster statement = Ok roster;
  rf_group : Roster.groupId roster = groupId;
  rf_succeeds : succeeds (last (Chain.held c)) roster;
  rf_key : key_at (Chain.keys c) (Roster.groupKeyVersion roster) = Some key;
  rf_current tie : Chain.ties c !! Z.to_nat (Roster.groupKeyVersion roster - 1) = Some tie → Roster.rosterVersion roster ≤ tie;
  rf_holder : activeWith (rosterEntry (match last (Chain.held c) with Some p => Held.roster p | None => roster end)
    (Roster.signerUserId roster)) (Some members_role) = true;
  rf_stays : signer_stays roster = true;
  rf_keeps : keeps_holder roster = true;
  rf_copy : digest (SignedGroupStatement.statement copy) = digest statement;
  rf_group_signed : verifyGroup statement (SignedGroupStatement.signature copy) key = true;
  rf_member_signed : signedByMember (match last (Chain.held c) with Some p => Held.roster p | None => roster end)
    (Roster.signerUserId roster) copy mlDsaKeys = true;
  rf_due p : last (Chain.held c) = Some p → Held.droppedHolder p = true →
    Chain.ties c !! Z.to_nat (Roster.groupKeyVersion (Held.roster p) - 1) = Some (Roster.rosterVersion (Held.roster p));
  rf_areas : checkAreas (Chain.ledger c) (Held.roster <$> last (Chain.held c)) roster = Ok tt;
}.

Definition add_key (c : Chain.t) (s : GroupKeySuccession.t) : Chain.t :=
  Chain.Build_t (Chain.keys c ++ [new_key_of s]) (Chain.ties c ++ [GroupKeySuccession.lastRosterVersion s])
    (Chain.held c) (Chain.ledger c).
Definition hold (c : Chain.t) (roster : Roster.t) (statement : bytes) : Held.t :=
  Held.Build_t roster statement (digest statement)
    (match last (Chain.held c) with Some p => dropsHolder (Held.roster p) roster | None => false end).
Definition add_roster (c : Chain.t) (roster : Roster.t) (statement : bytes) : Chain.t :=
  Chain.Build_t (Chain.keys c) (Chain.ties c) (Chain.held c ++ [hold c roster statement]) (foldAreas (Chain.ledger c) roster).

Inductive chain_step : Chain.t → Chain.t → Prop :=
  | step_key c s statement copy at_ : key_follows c s statement copy at_ → chain_step c (add_key c s)
  | step_roster c roster statement copy key :
      roster_follows c roster statement copy key → chain_step c (add_roster c roster statement).
End spec.

(** The chain that starts from a version 1 key, with nothing held. *)
Definition start (key : GroupPublicKey.t) : Chain.t := Chain.Build_t [key] [] [] NO_LEDGER.

(** One step, whatever ML-DSA keys were served for the signers' digests. *)
Definition chain_grows `{C : Crypto} (groupId : string) (c c' : Chain.t) : Prop :=
  ∃ mlDsaKeys, chain_step groupId mlDsaKeys c c'.
(** Every chain a reader may come to hold from a version 1 key. *)
Definition reachable `{C : Crypto} (groupId : string) (first : GroupPublicKey.t) (c : Chain.t) : Prop :=
  rtc (chain_grows groupId) (start first) c.

Lemma rtc_grows `{C : Crypto} groupId mlDsaKeys c c' : rtc (chain_step groupId mlDsaKeys) c c' → rtc (chain_grows groupId) c c'.
Proof. induction 1 as [|x y z Hxy _ IH]; [done|]. eapply rtc_l; [|exact IH]. by exists mlDsaKeys. Qed.

(** ** The pass refines the specification *)

(** A served statement read from its bytes, every copy under their digest. *)
Definition served_ok `{C : Crypto} {T} (parse : bytes → result T) (x : Served.t T) : Prop :=
  parse (Served.statement x) = Ok (Served.value x) ∧ Served.digest x = digest (Served.statement x) ∧
  ∀ copy, copy ∈ Served.copies x → digest (SignedGroupStatement.statement copy) = digest (Served.statement x).

Lemma sameGroupKey_true a b : sameGroupKey a b = true ↔ a = b.
Proof.
  unfold sameGroupKey. rewrite andb_true_iff, !bool_decide_eq_true. destruct a, b; cbn. split; [by intros [-> ->]|by intros [= -> ->]].
Qed.

Lemma key_at_last keys k : last keys = Some k → key_at keys (llen keys) = Some k.
Proof.
  intros Hl. unfold key_at, llen. destruct keys as [|k0 keys _] using rev_ind; [done|].
  rewrite last_snoc in Hl. injection Hl as ->. rewrite length_app. cbn [length].
  rewrite (proj2 (Z.ltb_ge _ _)) by lia. replace (Z.to_nat _) with (length keys) by lia.
  by rewrite list_lookup_middle.
Qed.

Lemma key_at_snoc keys k v old : key_at keys v = Some old → key_at (keys ++ [k]) v = Some old.
Proof. unfold key_at. destruct (v <? 1); [done|]. apply lookup_app_l_Some. Qed.

Lemma held_at_snoc held h v at_ : held_at held v = Some at_ → held_at (held ++ [h]) v = Some at_.
Proof.
  unfold held_at. intros ([i x] & Hf & ->)%fmap_Some_1. apply list_find_Some in Hf as (Hi & Hv & Hlt).
  assert (list_find (λ at_, Roster.rosterVersion (Held.roster at_) = v) (held ++ [h]) = Some (i, x)) as ->; [|done].
  apply list_find_Some. split; [by apply lookup_app_l_Some|]. split; [done|]. intros j y Hj Hji.
  apply (Hlt j); [|done]. rewrite lookup_app_l in Hj; [done|]. apply lookup_lt_Some in Hi. lia.
Qed.

Lemma held_at_elem held v at_ : held_at held v = Some at_ → at_ ∈ held ∧ Roster.rosterVersion (Held.roster at_) = v.
Proof.
  unfold held_at. intros ([i x] & Hf & ->)%fmap_Some_1. apply list_find_Some in Hf as (Hi & Hv & _).
  split; [by eapply list_elem_of_lookup_2|done].
Qed.

Section refinement.
Context `{C : Crypto} (groupId : string) (mlDsaKeys : gmap string string).



(** One copy signed by the key and by the member: what the held verdict stands for. *)
Definition signed_by (served : Served.t GroupKeySuccession.t) (old : GroupPublicKey.t) (at_ : Held.t) : Prop :=
  ∃ copy, copy ∈ Served.copies served ∧
    verifyGroup (Served.statement served) (SignedGroupStatement.signature copy) old = true ∧
    signedByMember (Held.roster at_) (GroupKeySuccession.signerUserId (Served.value served)) copy mlDsaKeys = true.

Record refines (st : State.t) (c : Chain.t) : Prop := {
  r_group : State.groupId st = groupId;
  r_mlDsa : State.mlDsaKeys st = mlDsaKeys;
  r_keys : State.keys st = Chain.keys c;
  r_nonempty : Chain.keys c ≠ [];
  r_held : State.held st = Chain.held c;
  r_areas : State.areas st = Chain.ledger c;
  r_ties : length (Chain.keys c) = S (length (Chain.ties c));
  r_verified v : Verified.lastRosterVersion <$> State.verified st !! v =
    if v <? 1 then None else Chain.ties c !! Z.to_nat (v - 1);
  r_candidates v l x : State.candidates st !! v = Some l → x ∈ l →
    served_ok parseGroupSuccession x ∧ GroupKeySuccession.oldVersion (Served.value x) = v;
  r_unique v l x v' l' x' : State.candidates st !! v = Some l → x ∈ l →
    State.candidates st !! v' = Some l' → x' ∈ l' → Served.digest x = Served.digest x' → x = x';
  r_memo v l x : State.candidates st !! v = Some l → x ∈ l →
    State.signatures st !! Served.digest x = Some held_by_member →
    ∃ old at_, key_at (Chain.keys c) v = Some old ∧
      held_at (Chain.held c) (GroupKeySuccession.lastRosterVersion (Served.value x)) = Some at_ ∧ signed_by x old at_;
}.

(** The states of one chain: the memo, the refusals and the waiting rivals aside. *)
Definition same_pass (st st' : State.t) : Prop :=
  State.keys st' = State.keys st ∧ State.verified st' = State.verified st ∧ State.held st' = State.held st ∧
  State.candidates st' = State.candidates st ∧ State.areas st' = State.areas st ∧ State.mlDsaKeys st' = State.mlDsaKeys st ∧
  State.groupId st' = State.groupId st ∧ State.keyMarks st' = State.keyMarks st.

#[global] Instance same_pass_preorder : PreOrder same_pass.
Proof.
  split; [by intros st|]. intros a b d (? & ? & ? & ? & ? & ? & ? & ?) (? & ? & ? & ? & ? & ? & ? & ?).
  repeat split; congruence.
Qed.

Lemma verdict_held st served old at_ : State.mlDsaKeys st = mlDsaKeys →
  verdict_of st served old at_ = held_by_member → signed_by served old at_.
Proof.
  intros Hm. unfold verdict_of, signed_by.
  assert (∀ copies v, foldl (λ verdict copy, match verdict with
      | held_by_member => held_by_member
      | _ => if verifyGroup (Served.statement served) (SignedGroupStatement.signature copy) old then
          if signedByMember (Held.roster at_) (GroupKeySuccession.signerUserId (Served.value served)) copy (State.mlDsaKeys st)
          then held_by_member else not_member else verdict end) v copies = held_by_member →
      v = held_by_member ∨ ∃ copy, copy ∈ copies ∧
        verifyGroup (Served.statement served) (SignedGroupStatement.signature copy) old = true ∧
        signedByMember (Held.roster at_) (GroupKeySuccession.signerUserId (Served.value served)) copy mlDsaKeys = true) as H.
  { induction copies as [|copy copies IH]; intros v Hv; [by left|]. cbn [foldl] in Hv.
    destruct (IH _ Hv) as [Hhead|(copy' & Hin & Hsig)]; [|right; exists copy'; split; [by right|done]]. rewrite Hm in Hhead.
    destruct v; [by left| |];
      repeat match type of Hhead with (if ?b then _ else _) = _ => destruct b eqn:?; [|discriminate Hhead] end;
      right; exists copy; split_and!; try done; by left. }
  intros Hv. by destruct (H _ _ Hv).
Qed.

(** The last tie is that of the succession into the current key. *)
Lemma last_tie st c tie : refines st c → last (Chain.ties c) = Some tie →
  ∃ out, State.verified st !! (llen (State.keys st) - 1) = Some out ∧ Verified.lastRosterVersion out = tie.
Proof.
  intros Hr Hl. pose proof (r_verified _ _ Hr (llen (State.keys st) - 1)) as Hv. pose proof (r_ties _ _ Hr) as Ht.
  rewrite (r_keys _ _ Hr) in *. unfold llen in *. rewrite Ht in *.
  rewrite last_lookup in Hl. destruct (Chain.ties c) as [|t ties]; [done|]. cbn [length pred] in *.
  rewrite (proj2 (Z.ltb_ge _ _)) in Hv by lia. replace (Z.to_nat _) with (length ties) in Hv by lia.
  rewrite Hl in Hv. by apply fmap_Some_1 in Hv as (out & -> & ->); eauto.
Qed.

(** A recorded verdict that holds where the memo is asked. *)
Lemma with_signature_refines st c digest v : refines st c →
  (∀ v' l x, State.candidates st !! v' = Some l → x ∈ l → Served.digest x = digest → v = held_by_member →
    ∃ old at_, key_at (Chain.keys c) v' = Some old ∧
      held_at (Chain.held c) (GroupKeySuccession.lastRosterVersion (Served.value x)) = Some at_ ∧ signed_by x old at_) →
  refines (with_signature st digest v) c.
Proof.
  intros [] H. destruct st. split; try done. cbn. intros v' l x Hl Hx. destruct (decide (digest = Served.digest x)) as [->|Hne].
  - rewrite lookup_insert_eq. intros [= ->]. by eapply H.
  - rewrite lookup_insert_ne by done. by eapply r_memo0.
Qed.

(** Passes one more condition of [admissibleSuccession]. *)
Ltac admit_guard Hfail E :=
  match goal with |- (if ?b then _ else _) = _ → _ => destruct b eqn:E; [apply Hfail|] end.

Lemma admissible_refines st c l served st' r : refines st c →
  State.candidates st !! llen (State.keys st) = Some l → served ∈ l →
  admissibleSuccession st served (llen (State.keys st)) = (st', r) →
  same_pass st st' ∧ refines st' c ∧
  (∀ s, r = Ok s → s = Served.value served ∧
    ∃ copy at_, key_follows groupId mlDsaKeys c s (Served.statement served) copy at_).
Proof.
  intros Hr Hl Hin. unfold admissibleSuccession. cbv zeta.
  assert (∀ e : string, (st, @Err string GroupKeySuccession.t e) = (st', r) → same_pass st st' ∧ refines st' c ∧
    (∀ s, r = Ok s → s = Served.value served ∧ ∃ copy at_, key_follows groupId mlDsaKeys c s (Served.statement served) copy at_))
    as Hfail by (by intros e [= <- <-]).
  destruct (last (State.keys st)) as [old|] eqn:Hold.
  2: { apply last_None in Hold. destruct (r_nonempty _ _ Hr). by rewrite <-(r_keys _ _ Hr). }
  rewrite (key_at_last _ _ Hold). admit_guard Hfail E1.
  apply orb_false_iff in E1 as [Eg Eo]. bool_simpl. apply sameGroupKey_true in Eo.
  admit_guard Hfail Enew. destruct (held_at _ _) as [at_|] eqn:Ehat; [|apply Hfail]. admit_guard Hfail Ed.
  admit_guard Hfail Eorder. admit_guard Hfail Eholder. bool_simpl. clear Hfail.
  destruct (r_candidates _ _ Hr _ _ _ Hl Hin) as [(Hparse & Hdig & Hcopies) Hversion].
  destruct (held_at_elem _ _ _ Ehat) as [Hatin Hatv]. rewrite (r_held _ _ Hr) in Hatin.
  assert (signed_by served old at_ → ∃ copy at_, key_follows groupId mlDsaKeys c (Served.value served) (Served.statement served) copy at_)
    as Hfollows.
  { intros (copy & Hc & Hg & Hm). exists copy, at_. split; try done.
    - rewrite <-(r_group _ _ Hr). done.
    - by rewrite <-(r_keys _ _ Hr).
    - by rewrite <-(r_keys _ _ Hr), <-Eo.
    - rewrite <-(r_keys _ _ Hr). intros Hk. apply not_true_iff_false in Enew. apply Enew, existsb_exists.
      exists (new_key_of (Served.value served)). split; [by apply list_elem_of_In|by apply sameGroupKey_true].
    - intros tie Htie. apply (last_tie _ _ _ Hr) in Htie. destruct Htie as (out & Hout & <-). rewrite Hout in Eorder. by bool_simpl.
    - by apply Hcopies.
    - by rewrite <-Eo. }
  destruct (State.signatures st !! Served.digest served) as [v|] eqn:Ememo.
  - intros [= <- <-]. split; [done|]. split; [done|]. destruct v; intros s [= <-]. split; [done|].
    destruct (r_memo _ _ Hr _ _ _ Hl Hin Ememo) as (old' & at' & Hk & Hh & Hs). apply Hfollows.
    rewrite <-(r_held _ _ Hr), Ehat in Hh. injection Hh as <-.
    rewrite <-(r_keys _ _ Hr), (key_at_last _ _ Hold) in Hk. by injection Hk as <-.
  - intros [= <- <-]. pose proof (verdict_held st served old at_ (r_mlDsa _ _ Hr)) as Hv.
    split; [by destruct st|]. split; [|].
    + apply with_signature_refines; [done|]. intros v' l' x Hl' Hx Ex Hh.
      assert (x = served) as -> by (exact (r_unique _ _ Hr _ _ _ _ _ _ Hl' Hx Hl Hin Ex)).
      assert (v' = llen (State.keys st)) as -> by (destruct (r_candidates _ _ Hr _ _ _ Hl' Hx); congruence).
      exists old, at_. rewrite <-(r_keys _ _ Hr), <-(r_held _ _ Hr). split; [by apply key_at_last|]. auto.
    + intros s. destruct (verdict_of st served old at_); intros [= <-]. auto.
Qed.

(** What a valid succession is: a served one, with what the chain asks of it. *)
Definition candidate (st : State.t) (v : Z) (x : Served.t GroupKeySuccession.t) : Prop :=
  ∃ l, State.candidates st !! v = Some l ∧ x ∈ l.
Definition valid_ok (st : State.t) (c : Chain.t) (v : Valid.t) : Prop :=
  candidate st (llen (State.keys st)) (Valid.served v) ∧ Valid.succession v = Served.value (Valid.served v) ∧
  (∃ copy at_, key_follows groupId mlDsaKeys c (Valid.succession v) (Served.statement (Valid.served v)) copy at_) ∧
  groupKeyDigest (new_key_of (Valid.succession v)) = Ok (Valid.keyDigest v).

Lemma same_pass_candidate st st' x : same_pass st st' → candidate st (llen (State.keys st)) x ↔ candidate st' (llen (State.keys st')) x.
Proof. intros (Hk & _ & _ & Hc & _). unfold candidate. by rewrite Hk, Hc. Qed.
Lemma same_pass_valid st st' c v : same_pass st st' → valid_ok st c v → valid_ok st' c v.
Proof. intros Hs (Hx & H). split; [by apply (same_pass_candidate st st')|done]. Qed.

Lemma admit_all_refines st c served valid reason st' valid' reason' : refines st c →
  (∀ x, x ∈ served → candidate st (llen (State.keys st)) x) → Forall (valid_ok st c) valid →
  admit_all st served (llen (State.keys st)) valid reason = Ok (st', valid', reason') →
  same_pass st st' ∧ refines st' c ∧ Forall (valid_ok st' c) valid'.
Proof.
  revert st valid reason; induction served as [|x served IH]; intros st valid reason Hr Hin Hvalid H.
  { by injection H as <- <- <-. }
  cbn [admit_all] in H. destruct (admissibleSuccession st x (llen (State.keys st))) as [st1 r] eqn:Ea.
  destruct (Hin x ltac:(by left)) as (l & Hl & Hxl).
  destruct (admissible_refines _ _ _ _ _ _ Hr Hl Hxl Ea) as (Hs & Hr1 & Hok).
  assert (llen (State.keys st) = llen (State.keys st1)) as Hk by (destruct Hs as [-> _]; done).
  assert (∀ y, y ∈ served → candidate st1 (llen (State.keys st1)) y) as Hin'.
  { intros y Hy. apply (same_pass_candidate st st1); [done|]. apply Hin. by right. }
  assert (Forall (valid_ok st1 c) valid) as Hvalid' by (eapply Forall_impl; [done|]; intros; by eapply same_pass_valid).
  rewrite Hk in H. destruct r as [s|e].
  - apply bind_ok in H as (d & Hd%lift_ok & H).
    assert (valid_ok st1 c (Valid.Build_t x s d)) as Hnew.
    { destruct (Hok s eq_refl) as (-> & Hf). split; [|by split].
      apply (same_pass_candidate st st1); [done|]. apply Hin. by left. }
    destruct (IH st1 _ _ Hr1 Hin' (proj2 (Forall_app _ _ _) (conj Hvalid' (Forall_cons_2 _ _ _ Hnew (Forall_nil_2 _)))) H)
      as (? & ? & ?). split; [by etrans|done].
  - destruct (IH st1 _ _ Hr1 Hin' Hvalid' H) as (? & ? & ?). split; [by etrans|done].
Qed.

Lemma same_pass_refines st st' c : same_pass st st' → State.signatures st' = State.signatures st →
  refines st c → refines st' c.
Proof.
  intros (Hk & Hv & Hh & Hc & Ha & Hm & Hg & _) Hs []. split; rewrite ?Hk, ?Hv, ?Hh, ?Hc, ?Ha, ?Hm, ?Hg, ?Hs; done.
Qed.

Lemma with_refused_refines st c v reason : refines st c → same_pass st (with_refused st v reason) ∧ refines (with_refused st v reason) c.
Proof.
  intros Hr. assert (same_pass st (with_refused st v reason)) as Hs by by destruct st.
  split; [done|]. eapply same_pass_refines; [done| |done]. by destruct st.
Qed.
Lemma with_waiting_refines st c v rivals : refines st c → same_pass st (with_waiting st v rivals) ∧ refines (with_waiting st v rivals) c.
Proof.
  intros Hr. assert (same_pass st (with_waiting st v rivals)) as Hs by by destruct st.
  split; [done|]. eapply same_pass_refines; [done| |done]. by destruct st.
Qed.

Lemma nextSuccession_refines st c st' next : refines st c → nextSuccession st = Ok (st', next) →
  same_pass st st' ∧ refines st' c ∧ (∀ v, next = Some v → valid_ok st' c v).
Proof.
  intros Hr. unfold nextSuccession. cbv zeta. intros H. apply bind_ok in H as ([[st1 valid] reason] & Ha & H).
  assert (∀ x, x ∈ merge_sort served_le (default [] (State.candidates st !! llen (State.keys st))) →
    candidate st (llen (State.keys st)) x) as Hin.
  { intros x. rewrite (merge_sort_Permutation served_le _). destruct (State.candidates st !! _) as [l|] eqn:E; cbn.
    - intros Hx. by exists l.
    - by intros ?%not_elem_of_nil. }
  destruct (admit_all_refines _ _ _ _ _ _ _ _ Hr Hin (Forall_nil_2 _) Ha) as (Hs & Hr1 & Hvalid).
  rewrite Forall_forall in Hvalid. apply bind_ok in H as ([st2 chosen] & Hch & H).
  assert (same_pass st1 st2 ∧ refines st2 c ∧ (∀ v, chosen = Some v → valid_ok st2 c v)) as (Hs2 & Hr2 & Hv2).
  { destruct (State.keyMarks st1 !! _) as [mark|].
    - destruct (list_find _ valid) as [[i v]|] eqn:Ef; cbn in Hch; injection Hch as <- <-.
      + split; [done|]. split; [done|]. intros ? [= <-]. apply list_find_Some in Ef as (Hi & _).
        apply Hvalid. by eapply list_elem_of_lookup_2.
      + destruct (0 <? llen valid); [|done].
        destruct (with_waiting_refines st1 c (llen (State.keys st)) (map rival_of valid) Hr1). done.
    - not_refused Hch E. injection Hch as <- <-. split; [done|]. split; [done|]. intros v Hv. apply Hvalid.
      destruct valid; [done|]. injection Hv as <-. by left. }
  destruct chosen as [v|]; injection H as <- <-.
  - split; [by etrans|]. split; [done|]. intros ? [= <-]. eauto.
  - destruct (with_refused_refines st2 c (llen (State.keys st)) (default NO_SUCCESSION reason) Hr2) as [Hs3 Hr3].
    split; [|done]. etrans; [exact Hs|]. by etrans.
Qed.

(** Taking a succession the chain may take. *)
Lemma with_key_refines st c s statement copy at_ out : refines st c → key_follows groupId mlDsaKeys c s statement copy at_ →
  Verified.lastRosterVersion out = GroupKeySuccession.lastRosterVersion s →
  refines (with_key st (new_key_of s) out) (add_key c s).
Proof.
  intros Hr Hf Hout. destruct Hr as [Hg Hm Hk Hne Hh Ha Ht Hv Hcand Hu Hmemo]. destruct st as [g m k ve h cs km r w sg a].
  cbn in *. subst k h a. split; cbn; try done.
  - by intros [_ [=]]%app_nil.
  - rewrite !length_app. cbn. lia.
  - intros v. unfold llen. destruct (decide (v = Z.of_nat (length (Chain.keys c)))) as [->|Hne'].
    + rewrite lookup_insert_eq. cbn. rewrite Ht, Hout. rewrite (proj2 (Z.ltb_ge _ _)) by lia.
      rewrite list_lookup_middle by lia. done.
    + rewrite lookup_insert_ne by done. rewrite Hv. destruct (v <? 1) eqn:E; [done|]. bool_simpl.
      destruct (decide (Z.to_nat (v - 1) < length (Chain.ties c))%nat).
      * by rewrite lookup_app_l.
      * rewrite !lookup_ge_None_2; rewrite ?length_app; cbn; [done|lia|lia].
  - intros v l x Hl Hx Hs. destruct (Hmemo _ _ _ Hl Hx Hs) as (old & at' & Hk & ? & ?). exists old, at'.
    split; [by apply key_at_snoc|done].
Qed.

Lemma establishNext_refines st c st' taken : refines st c → establishNext st = Ok (st', taken) →
  ∃ c', refines st' c' ∧ rtc (chain_step groupId mlDsaKeys) c c' ∧ Chain.held c' = Chain.held c ∧
    State.candidates st' = State.candidates st ∧
    length (State.keys st') = (length (State.keys st) + if taken then 1 else 0)%nat.
Proof.
  intros Hr H. unfold establishNext in H. apply bind_ok in H as ([st1 next] & Hn & H).
  destruct (nextSuccession_refines _ _ _ _ Hr Hn) as (Hs & Hr1 & Hv). destruct Hs as (Hk & _ & _ & Hc & _).
  destruct next as [v|]; injection H as <- <-.
  - destruct (Hv v eq_refl) as (Hcand & Hval & (copy & at_ & Hf) & _). exists (add_key c (Valid.succession v)).
    split; [by eapply with_key_refines|]. split; [by apply rtc_once, (step_key _ _ _ _ _ _ _ Hf)|]. split; [done|].
    destruct st1; cbn in *. split; [done|]. rewrite length_app. cbn. by rewrite Hk.
  - exists c. split; [done|]. split; [done|]. split; [done|]. split; [done|]. by rewrite Hk, Nat.add_0_r.
Qed.

Lemma establishAll_refines fuel st c st' : refines st c → establishAll fuel st = Ok st' →
  ∃ c', refines st' c' ∧ rtc (chain_step groupId mlDsaKeys) c c' ∧ Chain.held c' = Chain.held c ∧
    State.candidates st' = State.candidates st.
Proof.
  revert st c; induction fuel as [|fuel IH]; intros st c Hr H; [done|].
  cbn [establishAll] in H. apply bind_ok in H as ([st1 taken] & He & H).
  destruct (establishNext_refines _ _ _ _ Hr He) as (c1 & Hr1 & Hsteps & Hh & Hc & _).
  destruct taken; [|injection H as <-; exists c1; done].
  destruct (IH _ _ Hr1 H) as (c2 & Hr2 & Hsteps2 & Hh2 & Hc2). exists c2.
  split; [done|]. split; [by etrans|]. split; by etrans.
Qed.

(** What linking the path by digest gives a roster. *)
Definition linked (previous : option Held.t) (roster : Roster.t) : Prop :=
  match previous with
  | None => Roster.rosterVersion roster = 1
  | Some p => Roster.rosterVersion roster = Roster.rosterVersion (Held.roster p) + 1 ∧
      Roster.previousRosterDigest roster = Held.digest p
  end.

Lemma key_at_reached keys v : 1 ≤ v → v ≤ llen keys → ∃ k, key_at keys v = Some k.
Proof.
  intros H1 H2. unfold key_at, llen in *. rewrite (proj2 (Z.ltb_ge _ _)) by lia.
  destruct (keys !! Z.to_nat (v - 1)) as [k|] eqn:E; [by exists k|]. apply lookup_ge_None in E. lia.
Qed.

Lemma rosterRules_follows st c at_ : refines st c → served_ok parseRoster at_ →
  Roster.groupId (Served.value at_) = groupId → linked (last (Chain.held c)) (Served.value at_) →
  rosterRules st (Served.value at_) (Served.statement at_) (Some (Served.copies at_)) (last (State.held st)) = Ok tt →
  ∃ copy key, roster_follows groupId mlDsaKeys c (Served.value at_) (Served.statement at_) copy key.
Proof.
  intros Hr (Hparse & Hdig & Hcopies) Hg Hlink. unfold rosterRules. cbv zeta. rewrite (r_held _ _ Hr).
  set (authority := match last (Chain.held c) with Some p => Held.roster p | None => _ end).
  intros H. not_refused H Ekind. not_refused H Ereached. not_refused H Ecurrent. not_refused H Eholder.
  not_refused H Estays. not_refused H Ekeeps. apply bind_ok in H as ([] & Hsig & H). not_refused H Edue.
  apply bind_ok in H as ([] & Hentries & Hareas%lift_ok). bool_simpl.
  pose proof (parseRoster_wf _ _ Hparse) as (_ & Hgkv & _).
  rewrite (r_keys _ _ Hr) in *. destruct (key_at_reached (Chain.keys c) (Roster.groupKeyVersion (Served.value at_))) as [key Hkey]; [lia|lia|].
  rewrite Hkey in Hsig. not_refused Hsig Egs. not_refused Hsig Ems.
  apply existsb_exists in Ems as (copy & Hin%list_elem_of_In & [Hvg Hsm]%andb_true_iff).
  exists copy, key. split; try done.
  - unfold succeeds, linked in *. destruct (last (Chain.held c)) as [p|] eqn:El; [|done]. bool_simpl. destruct Hlink.
    split_and!; try done. by apply lift_ok in Hentries.
  - intros tie Htie. pose proof (r_verified _ _ Hr (Roster.groupKeyVersion (Served.value at_))) as Hv.
    rewrite (proj2 (Z.ltb_ge _ _)) in Hv by lia. rewrite Htie in Hv. apply fmap_Some_1 in Hv as (out & Hout & ->).
    rewrite Hout in Ecurrent. by bool_simpl.
  - by apply Hcopies.
  - rewrite <-(r_mlDsa _ _ Hr). exact Hsm.
  - intros p Hp Hd. rewrite Hp in Edue. cbn in Edue. rewrite Hd in Edue. cbn [andb] in Edue.
    pose proof (r_verified _ _ Hr (Roster.groupKeyVersion (Held.roster p))) as Hv.
    destruct (State.verified st !! Roster.groupKeyVersion (Held.roster p)) as [out|]; [|done]. bool_simpl.
    cbn in Hv. destruct (Roster.groupKeyVersion (Held.roster p) <? 1); [done|]. by rewrite <-Hv, Edue.
  - rewrite <-(r_areas _ _ Hr). exact Hareas.
Qed.

Lemma with_held_refines st c roster statement copy key : refines st c →
  roster_follows groupId mlDsaKeys c roster statement copy key →
  refines (with_held st (hold c roster statement)) (add_roster c roster statement).
Proof.
  intros [Hg Hm Hk Hne Hh Ha Ht Hv Hcand Hu Hmemo] Hf. destruct st as [g m k ve h cs km r w sg a].
  cbn in *. subst k h a. split; cbn; try done.
  intros v l x Hl Hx Hs. destruct (Hmemo _ _ _ Hl Hx Hs) as (old & at' & Hk & Hat & ?). exists old, at'.
  split; [done|]. split; [by apply held_at_snoc|done].
Qed.

(** A path linked below its first roster by [previous]. *)
Fixpoint linked_path (previous : option Held.t) (path : list (Served.t Roster.t)) : Prop :=
  match path with
  | [] => True
  | at_ :: rest =>
      served_ok parseRoster at_ ∧ Roster.groupId (Served.value at_) = groupId ∧ linked previous (Served.value at_) ∧
      ∀ dropped, linked_path (Some (Held.Build_t (Served.value at_) (Served.statement at_) (Served.digest at_) dropped)) rest
  end.

Lemma pass_step_refines fuel st c at_ st' : refines st c → served_ok parseRoster at_ →
  Roster.groupId (Served.value at_) = groupId → linked (last (Chain.held c)) (Served.value at_) →
  pass_step fuel st at_ = Ok st' →
  ∃ c', refines st' c' ∧ rtc (chain_step groupId mlDsaKeys) c c' ∧
    Chain.held c' = Chain.held c ++ [hold c (Served.value at_) (Served.statement at_)] ∧
    State.candidates st' = State.candidates st.
Proof.
  intros Hr Hok Hg Hl H. unfold pass_step in H. cbv zeta in H. apply bind_ok in H as ([] & Hrules & H).
  destruct (rosterRules_follows _ _ _ Hr Hok Hg Hl Hrules) as (copy & key & Hf).
  destruct Hok as (Hparse & Hdig & _). rewrite (r_held _ _ Hr), Hdig in H.
  change (Held.Build_t _ _ _ _) with (hold c (Served.value at_) (Served.statement at_)) in H.
  pose proof (with_held_refines _ _ _ _ _ _ Hr Hf) as Hr1.
  destruct (establishAll_refines _ _ _ _ Hr1 H) as (c' & Hr' & Hsteps & Hh & Hc). exists c'. split; [done|]. split.
  - eapply rtc_l; [|exact Hsteps]. by eapply step_roster.
  - split; [done|]. rewrite Hc. by destruct st.
Qed.

Lemma pass_path_refines fuel path st c st' : refines st c → linked_path (last (Chain.held c)) path →
  pass_path fuel st path = Ok st' →
  ∃ c' more, refines st' c' ∧ rtc (chain_step groupId mlDsaKeys) c c' ∧ Chain.held c' = Chain.held c ++ more ∧
    Forall2 (λ h at_, Held.roster h = Served.value at_ ∧ Held.statement h = Served.statement at_ ∧
      Held.digest h = Served.digest at_) more path.
Proof.
  revert st c; induction path as [|at_ path IH]; intros st c Hr Hl H.
  { injection H as <-. exists c, []. rewrite app_nil_r. done. }
  cbn [pass_path] in H. apply bind_ok in H as (st1 & Hstep & H). cbn [linked_path] in Hl.
  destruct Hl as (Hok & Hg & Hlink & Hrest). destruct (pass_step_refines _ _ _ _ _ Hr Hok Hg Hlink Hstep)
    as (c1 & Hr1 & Hsteps & Hh & _).
  assert (linked_path (last (Chain.held c1)) path) as Hl1.
  { rewrite Hh, last_snoc. unfold hold. destruct Hok as (_ & <- & _). apply Hrest. }
  destruct (IH _ _ Hr1 Hl1 H) as (c2 & more & Hr2 & Hsteps2 & Hh2 & Hf).
  exists c2, (hold c (Served.value at_) (Served.statement at_) :: more). split; [done|]. split; [by etrans|].
  split; [by rewrite Hh2, Hh, <-app_assoc|]. constructor; [|done]. split_and!; try done. cbn. by destruct Hok as (_ & -> & _).
Qed.
End refinement.

(** ** What every verified chain keeps *)

Section invariants.
Context `{C : Crypto} (groupId : string) (mlDsaKeys : gmap string string) (first : GroupPublicKey.t).


(** What one roster of the chain and the next one are to each other. *)
Definition adjacent (h h' : Held.t) : Prop :=
  succeeds (Some h) (Held.roster h') ∧
  activeWith (rosterEntry (Held.roster h) (Roster.signerUserId (Held.roster h'))) (Some members_role) = true ∧
  Roster.groupKeyVersion (Held.roster h) ≤ Roster.groupKeyVersion (Held.roster h') ∧
  (Held.droppedHolder h = true → Roster.groupKeyVersion (Held.roster h) < Roster.groupKeyVersion (Held.roster h')) ∧
  Held.droppedHolder h' = dropsHolder (Held.roster h) (Held.roster h').

Record chain_inv (c : Chain.t) : Prop := {
  ci_first : head (Chain.keys c) = Some first;
  ci_nodup : NoDup (Chain.keys c);
  ci_length : length (Chain.keys c) = S (length (Chain.ties c));
  ci_sorted i j s t : Chain.ties c !! i = Some s → Chain.ties c !! j = Some t → (i ≤ j)%nat → s ≤ t;
  ci_tied t : t ∈ Chain.ties c → 1 ≤ t ≤ llen (Chain.held c);
  ci_version i h : Chain.held c !! i = Some h → Roster.rosterVersion (Held.roster h) = Z.of_nat i + 1;
  ci_parsed h : h ∈ Chain.held c → parseRoster (Held.statement h) = Ok (Held.roster h) ∧
    Held.digest h = digest (Held.statement h) ∧ Roster.groupId (Held.roster h) = groupId;
  ci_under h : h ∈ Chain.held c → 1 ≤ Roster.groupKeyVersion (Held.roster h) ≤ llen (Chain.keys c);
  ci_after h j t : h ∈ Chain.held c → Chain.ties c !! j = Some t →
    Z.of_nat j < Roster.groupKeyVersion (Held.roster h) - 1 → t < Roster.rosterVersion (Held.roster h);
  ci_next i h h' : Chain.held c !! i = Some h → Chain.held c !! S i = Some h' → adjacent h h';
  ci_folded : folded (Chain.ledger c) (Held.roster <$> last (Chain.held c));
  ci_follows : Chain.held c ≠ [] → follows (reverse (map Held.roster (Chain.held c)));
}.

Lemma start_inv : chain_inv (start first).
Proof.
  split; cbn; try done; try (by intros * ?%not_elem_of_nil); [apply NoDup_singleton|constructor].
Qed.

Lemma lookup_last {A} (l : list A) i x : l !! i = Some x → last l = Some x ∨ (S i < length l)%nat.
Proof.
  intros Hi. destruct (decide (S i = length l)) as [E|]; [left|right; apply lookup_lt_Some in Hi; lia].
  rewrite last_lookup, <-E. done.
Qed.

Lemma tie_bound c s statement copy at_ : chain_inv c → key_follows groupId mlDsaKeys c s statement copy at_ →
  1 ≤ GroupKeySuccession.lastRosterVersion s ≤ llen (Chain.held c) ∧
  (∀ t, t ∈ Chain.ties c → t ≤ GroupKeySuccession.lastRosterVersion s).
Proof.
  intros Hi Hf. pose proof (kf_held _ _ _ _ _ _ _ Hf) as [i Hat]%list_elem_of_lookup_1.
  pose proof (ci_version _ Hi _ _ Hat) as Hv. rewrite (kf_tied _ _ _ _ _ _ _ Hf) in Hv.
  pose proof (lookup_lt_Some _ _ _ Hat). unfold llen. split; [lia|].
  intros t [j Hj]%list_elem_of_lookup_1. destruct (last (Chain.ties c)) as [tl|] eqn:El.
  - pose proof (kf_order _ _ _ _ _ _ _ Hf tl El). rewrite last_lookup in El.
    pose proof (lookup_lt_Some _ _ _ Hj). pose proof (ci_sorted _ Hi _ _ _ _ Hj El). lia.
  - apply last_None in El. by rewrite El in Hj.
Qed.

Lemma step_key_inv c s statement copy at_ : chain_inv c → key_follows groupId mlDsaKeys c s statement copy at_ →
  chain_inv (add_key c s).
Proof.
  intros Hi Hf. destruct (tie_bound _ _ _ _ _ Hi Hf) as [Hb Hle].
  split; cbn.
  - pose proof (ci_first _ Hi). destruct (Chain.keys c); done.
  - apply NoDup_app. split; [apply (ci_nodup _ Hi)|]. split; [|apply NoDup_singleton].
    intros x Hx ->%list_elem_of_singleton. by apply (kf_new _ _ _ _ _ _ _ Hf).
  - rewrite !length_app, (ci_length _ Hi). cbn. lia.
  - intros i j x y Hx Hy Hij. apply lookup_app_Some in Hx, Hy.
    destruct Hx as [Hx|[? Hx]], Hy as [Hy|[? Hy]].
    + by eapply (ci_sorted _ Hi).
    + apply list_lookup_singleton_Some in Hy as [_ <-]. apply Hle. by eapply list_elem_of_lookup_2.
    + apply lookup_lt_Some in Hy. lia.
    + apply list_lookup_singleton_Some in Hx as [_ <-], Hy as [_ <-]. done.
  - intros t [Ht| ->%list_elem_of_singleton]%elem_of_app; [by apply (ci_tied _ Hi)|done].
  - apply (ci_version _ Hi).
  - apply (ci_parsed _ Hi).
  - intros h Hh. pose proof (ci_under _ Hi h Hh). unfold llen in *. rewrite length_app. cbn. lia.
  - intros h j t Hh Hj Hlt. apply lookup_app_Some in Hj as [Hj|[Hge _]]; [by eapply (ci_after _ Hi)|].
    pose proof (ci_under _ Hi h Hh) as Hu. unfold llen in Hu. rewrite (ci_length _ Hi) in Hu. lia.
  - apply (ci_next _ Hi).
  - apply (ci_folded _ Hi).
  - apply (ci_follows _ Hi).
Qed.

Lemma roster_version c roster statement copy key : chain_inv c → roster_follows groupId mlDsaKeys c roster statement copy key →
  Roster.rosterVersion roster = llen (Chain.held c) + 1.
Proof.
  intros Hi Hf. pose proof (rf_succeeds _ _ _ _ _ _ _ Hf) as Hs. unfold succeeds in Hs. unfold llen.
  destruct (last (Chain.held c)) as [p|] eqn:El.
  - rewrite last_lookup in El. pose proof (ci_version _ Hi _ _ El) as Hv. pose proof (lookup_lt_Some _ _ _ El).
    destruct Hs as [-> _]. lia.
  - apply last_None in El. rewrite El. done.
Qed.

(** The roster added and the one before it. *)
Lemma roster_adjacent c roster statement copy key p : chain_inv c → roster_follows groupId mlDsaKeys c roster statement copy key →
  last (Chain.held c) = Some p → adjacent p (hold c roster statement).
Proof.
  intros Hi Hf Hl. pose proof (rf_succeeds _ _ _ _ _ _ _ Hf) as Hs. pose proof (rf_holder _ _ _ _ _ _ _ Hf) as Hh.
  pose proof (roster_version _ _ _ _ _ Hi Hf) as Hver. unfold hold, adjacent. rewrite Hl in *. cbn [Held.roster Held.droppedHolder].
  assert (p ∈ Chain.held c) as Hp by (rewrite last_lookup in Hl; by eapply list_elem_of_lookup_2).
  assert (Roster.rosterVersion (Held.roster p) = llen (Chain.held c)) as Hpv.
  { unfold succeeds in Hs. destruct Hs as [Hv _]. lia. }
  pose proof (ci_under _ Hi p Hp) as Hpu. pose proof (parseRoster_wf _ _ (rf_parsed _ _ _ _ _ _ _ Hf)) as (_ & Hgkv & _).
  pose proof (ci_length _ Hi) as Hlen. unfold llen in *.
  (* A tie before the last roster rules out the key it replaced. *)
  assert (∀ t, Chain.ties c !! Z.to_nat (Roster.groupKeyVersion roster - 1) = Some t → ¬ t < Roster.rosterVersion roster) as Hcur.
  { intros t Ht Hlt. pose proof (rf_current _ _ _ _ _ _ _ Hf t Ht). lia. }
  split; [done|]. split; [done|]. split; [|split; [|done]].
  - destruct (Z.le_gt_cases (Roster.groupKeyVersion (Held.roster p)) (Roster.groupKeyVersion roster)) as [|Hgt]; [done|]. exfalso.
    destruct (Chain.ties c !! Z.to_nat (Roster.groupKeyVersion roster - 1)) as [t|] eqn:Et;
      [|apply lookup_ge_None in Et; lia].
    pose proof (ci_after _ Hi p _ t Hp Et ltac:(lia)). apply (Hcur t); [done|lia].
  - intros Hd. pose proof (rf_due _ _ _ _ _ _ _ Hf p Hl Hd) as Hdue.
    destruct (Z.le_gt_cases (Roster.groupKeyVersion roster) (Roster.groupKeyVersion (Held.roster p))) as [Hle|]; [|done]. exfalso.
    destruct (Chain.ties c !! Z.to_nat (Roster.groupKeyVersion roster - 1)) as [t|] eqn:Et.
    + pose proof (ci_sorted _ Hi _ _ _ _ Et Hdue ltac:(lia)). apply (Hcur t); [done|lia].
    + apply lookup_ge_None in Et. apply lookup_lt_Some in Hdue. lia.
Qed.

Lemma follows_snoc held h : (held ≠ [] → follows (reverse (map Held.roster held))) → roster_wf (Held.roster h) →
  (match last held with None => Roster.rosterVersion (Held.roster h) = 1
   | Some p => Roster.rosterVersion (Held.roster h) = Roster.rosterVersion (Held.roster p) + 1 ∧
      checkEntries (Held.roster p) (Held.roster h) = Ok tt end) →
  follows (reverse (map Held.roster (held ++ [h]))).
Proof.
  intros Hf Hwf Hp. rewrite map_app, reverse_app.
  change (reverse (map Held.roster [h])) with [Held.roster h]. destruct held as [|p held _] using rev_ind; [by constructor|].
  rewrite last_snoc in Hp. destruct Hp as [Hv Hc]. specialize (Hf ltac:(by intros [_ [=]]%app_nil)).
  rewrite map_app, reverse_app in Hf |- *.
  by apply follows_next.
Qed.

Lemma step_roster_inv c roster statement copy key : chain_inv c → roster_follows groupId mlDsaKeys c roster statement copy key →
  chain_inv (add_roster c roster statement).
Proof.
  intros Hi Hf. pose proof (roster_version _ _ _ _ _ Hi Hf) as Hver.
  pose proof (parseRoster_wf _ _ (rf_parsed _ _ _ _ _ _ _ Hf)) as Hwf.
  assert (∀ (P : Held.t → Prop), P (hold c roster statement) → (∀ h, h ∈ Chain.held c → P h) →
    ∀ h, h ∈ Chain.held c ++ [hold c roster statement] → P h) as Hboth.
  { intros P H1 H2 h [?| ->%list_elem_of_singleton]%elem_of_app; auto. }
  split; cbn.
  - apply (ci_first _ Hi).
  - apply (ci_nodup _ Hi).
  - apply (ci_length _ Hi).
  - apply (ci_sorted _ Hi).
  - intros t Ht. pose proof (ci_tied _ Hi t Ht). unfold llen in *. rewrite length_app. cbn. lia.
  - intros i h [Hh|[Hge [Hz <-]%list_lookup_singleton_Some]]%lookup_app_Some; [by apply (ci_version _ Hi)|].
    cbn. rewrite Hver. unfold llen. lia.
  - apply Hboth; [|apply (ci_parsed _ Hi)]. cbn. split; [apply (rf_parsed _ _ _ _ _ _ _ Hf)|]. split; [done|].
    apply (rf_group _ _ _ _ _ _ _ Hf).
  - apply Hboth; [|apply (ci_under _ Hi)]. cbn. destruct Hwf as (_ & Hgkv & _). split; [lia|].
    pose proof (rf_key _ _ _ _ _ _ _ Hf) as Hk. unfold key_at in Hk. destruct (_ <? 1); [done|].
    apply lookup_lt_Some in Hk. unfold llen. lia.
  - intros h j t Hh Hj Hlt. revert h Hh Hlt. apply (Hboth (λ h, Z.of_nat j < Roster.groupKeyVersion (Held.roster h) - 1 →
      t < Roster.rosterVersion (Held.roster h))).
    + cbn. intros _. pose proof (ci_tied _ Hi t ltac:(by eapply list_elem_of_lookup_2)). lia.
    + intros h Hh. by apply (ci_after _ Hi).
  - intros i h h' Hh Hh'. apply lookup_app_Some in Hh' as [Hh'|[Hge [Hz <-]%list_lookup_singleton_Some]].
    + rewrite lookup_app_l in Hh by (apply lookup_lt_Some in Hh'; lia). by eapply (ci_next _ Hi).
    + assert (S i = length (Chain.held c)) as Hlen by lia. rewrite lookup_app_l in Hh by lia.
      eapply (roster_adjacent c); [done|done|]. by rewrite last_lookup, <-Hlen.
  - rewrite last_snoc. cbn. eapply folded_roster; [apply (ci_folded _ Hi)|done|apply (rf_areas _ _ _ _ _ _ _ Hf)].
  - intros _. apply follows_snoc; [apply (ci_follows _ Hi)|done|].
    pose proof (rf_succeeds _ _ _ _ _ _ _ Hf) as Hs. unfold succeeds in Hs. destruct (last _); [|done].
    by destruct Hs as (? & _ & _ & ?).
Qed.

End invariants.

Lemma reachable_inv `{C : Crypto} groupId first c : reachable groupId first c → chain_inv groupId first c.
Proof.
  intros H. unfold reachable in H. remember (start first) as c0 eqn:E.
  assert (chain_inv groupId first c0) as H0 by (subst; apply start_inv). clear E.
  induction H as [|c1 c2 c3 [m Hstep] _ IH]; [done|]. apply IH. destruct Hstep; [by eapply step_key_inv|by eapply step_roster_inv].
Qed.

(** ** Enough fuel

    Every turn of the loop takes a succession served from the current key, so
    it turns at most once for each key some served succession replaces. *)

Section fuel.
Context `{C : Crypto}.

Lemma admissible_same_pass st served v : same_pass st (admissibleSuccession st served v).1.
Proof.
  unfold admissibleSuccession. cbv zeta. destruct (key_at _ _) as [old|]; [|done].
  repeat match goal with |- context [if ?b then (st, _) else _] => destruct b; [done|] end.
  destruct (held_at _ _) as [at_|]; [|done].
  repeat match goal with |- context [if ?b then (st, _) else _] => destruct b; [done|] end.
  destruct (State.signatures st !! _); [done|]. cbn. by destruct st.
Qed.

Lemma admit_all_same_pass st served v valid reason st' valid' reason' :
  admit_all st served v valid reason = Ok (st', valid', reason') →
  same_pass st st' ∧ (served = [] → valid' = valid).
Proof.
  revert st valid reason; induction served as [|x served IH]; intros st valid reason H; [by injection H as <- <- <-|].
  cbn [admit_all] in H. pose proof (admissible_same_pass st x v) as Hs.
  destruct (admissibleSuccession st x v) as [st1 [s|e]]; cbn [fst] in Hs.
  - apply bind_ok in H as (d & _ & H). apply IH in H as [H _]. split; [by etrans|done].
  - apply IH in H as [H _]. split; [by etrans|done].
Qed.

Lemma nextSuccession_same_pass st st' next : nextSuccession st = Ok (st', next) →
  same_pass st st' ∧ (is_Some next → is_Some (State.candidates st !! llen (State.keys st))).
Proof.
  unfold nextSuccession. cbv zeta. intros H. apply bind_ok in H as ([[st1 valid] reason] & Ha & H).
  apply admit_all_same_pass in Ha as [Hs Hv]. apply bind_ok in H as ([st2 chosen] & Hch & H).
  assert (same_pass st1 st2 ∧ (is_Some chosen → valid ≠ [])) as [Hs2 Hc2].
  { destruct (State.keyMarks st1 !! _) as [mark|].
    - destruct (list_find _ valid) as [[i v]|] eqn:Ef; cbn in Hch; injection Hch as <- <-.
      + split; [done|]. intros _ ->. by apply list_find_Some in Ef as (Hi & _).
      + split; [|by intros [? ?]]. destruct (0 <? llen valid); [|done]. by destruct st1.
    - not_refused Hch E. injection Hch as <- <-. split; [done|]. by intros [? ?] ->. }
  destruct chosen as [v|]; injection H as <- <-.
  - split; [by etrans|]. intros _. destruct (State.candidates st !! _) as [l|]; [by eexists|].
    exfalso. apply Hc2; [by eexists|]. by apply Hv.
  - split; [|by intros [? ?]]. etrans; [exact Hs|]. etrans; [exact Hs2|]. by destruct st2.
Qed.

Lemma establishNext_shape st st' taken : establishNext st = Ok (st', taken) →
  State.candidates st' = State.candidates st ∧
  (taken = true → llen (State.keys st') = llen (State.keys st) + 1 ∧ is_Some (State.candidates st !! llen (State.keys st))).
Proof.
  unfold establishNext. intros H. apply bind_ok in H as ([st1 next] & Hn & H).
  apply nextSuccession_same_pass in Hn as [(Hk & _ & _ & Hc & _) Hd].
  destruct next as [v|]; injection H as <- <-; [|done]. destruct st1. cbn in *. subst. split; [done|].
  intros _. split; [unfold llen; rewrite length_app; cbn; lia|]. apply Hd. by eexists.
Qed.

(** The keys from the current one on that some succession replaces. *)
Definition turns (st : State.t) : nat :=
  length (filter (λ v, llen (State.keys st) ≤ v) (elements (dom (State.candidates st)))).

Lemma turns_bound st : (turns st ≤ size (State.candidates st))%nat.
Proof. unfold turns. etrans; [apply length_filter|]. by rewrite <-size_dom. Qed.

Lemma filter_shorter (l : list Z) (n : Z) : NoDup l → n ∈ l →
  (length (filter (λ v, (n + 1 ≤ v)%Z) l) < length (filter (λ v, (n ≤ v)%Z) l))%nat.
Proof.
  intros Hnd Hin.
  assert (∀ l, (length (filter (λ v, (n + 1 ≤ v)%Z) l) ≤ length (filter (λ v, (n ≤ v)%Z) l))%nat) as Hle.
  { induction l0 as [|x l0 IH]; [done|]. rewrite !filter_cons. repeat case_decide; cbn; lia. }
  induction l as [|x l IH]; [by apply not_elem_of_nil in Hin|]. rewrite !filter_cons. apply NoDup_cons in Hnd as [Hx Hnd].
  specialize (Hle l). apply elem_of_cons in Hin as [->|Hin].
  - rewrite (decide_False (P := x + 1 ≤ x)) by lia. rewrite decide_True by lia. cbn. lia.
  - specialize (IH Hnd Hin). repeat case_decide; cbn; lia.
Qed.

Lemma establishAll_fuel n m st : (turns st < n)%nat → (turns st < m)%nat → establishAll n st = establishAll m st.
Proof.
  revert m st; induction n as [|n IH]; intros [|m] st Hn Hm; [lia|lia|lia|]. cbn [establishAll].
  destruct (establishNext st) as [[st1 taken]|e] eqn:E; [|done]. cbn [mbind res_bind]. destruct taken; [|done].
  apply establishNext_shape in E as [Hc Ht]. destruct (Ht eq_refl) as [Hk Hd].
  assert (turns st1 < turns st)%nat by (unfold turns; rewrite Hc, Hk; apply filter_shorter;
    [apply NoDup_elements|by apply elem_of_elements, elem_of_dom]). apply IH; lia.
Qed.

Lemma establishAll_candidates n st st' : establishAll n st = Ok st' → State.candidates st' = State.candidates st.
Proof.
  revert st; induction n as [|n IH]; intros st H; [done|]. cbn [establishAll] in H.
  apply bind_ok in H as ([st1 taken] & E & H). apply establishNext_shape in E as [Hc _].
  destruct taken; [rewrite (IH _ H); done|injection H as <-; done].
Qed.

Lemma pass_path_fuel n m st path : (size (State.candidates st) < n)%nat → (size (State.candidates st) < m)%nat →
  pass_path n st path = pass_path m st path.
Proof.
  revert st; induction path as [|at_ path IH]; intros st Hn Hm; [done|]. cbn [pass_path]. unfold pass_step. cbv zeta.
  destruct (rosterRules _ _ _ _ _) as [[]|]; [|done]. cbn [mbind res_bind].
  set (st1 := with_held st _). assert (State.candidates st1 = State.candidates st) as Hc by by destruct st.
  pose proof (turns_bound st1) as Ht. rewrite Hc in Ht. rewrite (establishAll_fuel n m st1) by lia.
  destruct (establishAll m st1) as [st2|] eqn:E; [|done]. cbn [mbind res_bind].
  apply establishAll_candidates in E. rewrite Hc in E. apply IH; by rewrite E.
Qed.

Lemma pass_fuel n m st path : (size (State.candidates st) < n)%nat → (size (State.candidates st) < m)%nat →
  pass n st path = pass m st path.
Proof.
  intros Hn Hm. unfold pass. pose proof (turns_bound st). rewrite (establishAll_fuel n m st) by lia.
  destruct (establishAll m st) as [st1|] eqn:E; [|done]. cbn [mbind res_bind].
  apply establishAll_candidates in E. apply pass_path_fuel; by rewrite E.
Qed.

(** *** The loop ends *)

(** Not by its fuel. *)
Definition ends {A} (m : acc A) : Prop := m ≠ Err Unfinished.
Lemma ends_bind {A B} (m : acc A) (f : A → acc B) : ends m → (∀ a, m = Ok a → ends (f a)) → ends (m ≫= f).
Proof. unfold ends. destruct m as [a|e]; intros Hm Hf; [by apply Hf|]. intros [= ->]. by apply Hm. Qed.
Lemma ends_lift {A} (m : result A) : ends (lift m).
Proof. by destruct m. Qed.
Lemma admit_all_ends served oldVersion : ∀ st valid reason, ends (admit_all st served oldVersion valid reason).
Proof.
  induction served as [|at_ served IH]; intros st valid reason; [done|]. cbn [admit_all]. destruct (admissibleSuccession st at_ oldVersion) as [st1 [succ|e]]; [|apply IH].
  apply ends_bind; [apply ends_lift|]. intros kd _. apply IH.
Qed.
Lemma establishNext_ends st : ends (establishNext st).
Proof.
  unfold establishNext. apply ends_bind; [|by intros [st1 [v|]] _]. unfold nextSuccession. cbv zeta. apply ends_bind; [apply admit_all_ends|]. intros [[st1 valid] reason] _.
  apply ends_bind; [|by intros [st2 [v|]] _]. destruct (State.keyMarks st1 !! _); [by case_match|]. by destruct (1 <? llen valid).
Qed.
Lemma establishAll_ends n st : (turns st < n)%nat → ends (establishAll n st).
Proof.
  revert st; induction n as [|n IH]; intros st Hn; [lia|]. cbn [establishAll]. apply ends_bind; [apply establishNext_ends|]. intros [st1 taken] E. destruct taken; [|done].
  apply establishNext_shape in E as [Hc Ht]. destruct (Ht eq_refl) as [Hk Hd]. apply IH.
  assert (turns st1 < turns st)%nat by (unfold turns; rewrite Hc, Hk; apply filter_shorter; [apply NoDup_elements|by apply elem_of_elements, elem_of_dom]). lia.
Qed.
Lemma rosterRules_ends st roster statement copies previous : ends (rosterRules st roster statement copies previous).
Proof.
  unfold rosterRules. cbv zeta. destruct (match previous with Some p => _ | None => false end); [done|]. destruct (_ <? _); [unfold key_missing; cbv zeta; by repeat case_match|].
  destruct (match State.verified st !! _ with Some out => _ | None => false end); [done|]. destruct (activeWith _ _); [|done]. destruct (signer_stays roster); [|done]. destruct (keeps_holder roster); [|done].
  apply ends_bind; [by repeat case_match|]. intros [] _. destruct (match previous with Some p => _ | None => false end); [done|]. apply ends_bind; [by destruct previous; [apply ends_lift|]|]. intros [] _. apply ends_lift.
Qed.
Lemma pass_path_ends n path : ∀ st, (size (State.candidates st) < n)%nat → ends (pass_path n st path).
Proof.
  induction path as [|at_ path IH]; intros st Hn; [done|]. cbn [pass_path]. unfold pass_step. cbv zeta. set (st1 := with_held st _). assert (State.candidates st1 = State.candidates st) as Hc by by destruct st.
  pose proof (turns_bound st1) as Ht. rewrite Hc in Ht. apply ends_bind; [apply ends_bind; [apply rosterRules_ends|intros [] _; apply establishAll_ends; lia]|].
  intros st2 H. apply bind_ok in H as ([] & _ & H). apply establishAll_candidates in H. apply IH. by rewrite H, Hc.
Qed.
Lemma pass_ends n st path : (size (State.candidates st) < n)%nat → ends (pass n st path).
Proof.
  intros Hn. unfold pass. pose proof (turns_bound st). apply ends_bind; [apply establishAll_ends; lia|]. intros st1 H1. apply establishAll_candidates in H1. apply pass_path_ends. by rewrite H1.
Qed.
(** The keys taken, each replacing one some served succession replaces. *)
Definition keys_taken (st st' : State.t) : Prop := State.candidates st' = State.candidates st ∧ ∃ taken, State.keys st' = State.keys st ++ taken ∧
  ∀ v, llen (State.keys st) ≤ v < llen (State.keys st') → is_Some (State.candidates st !! v).
Lemma keys_taken_none st st' : State.candidates st' = State.candidates st → State.keys st' = State.keys st → keys_taken st st'.
Proof. intros Hc Hk. split; [done|]. exists []. split; [by rewrite app_nil_r|]. rewrite Hk. lia. Qed.
#[export] Instance keys_taken_preorder : PreOrder keys_taken.
Proof.
  split; [intros st; by apply keys_taken_none|]. intros st1 st2 st3 [Hc1 (t1 & Ek1 & H1)] [Hc2 (t2 & Ek2 & H2)]. split; [congruence|]. exists (t1 ++ t2). split; [by rewrite Ek2, Ek1, app_assoc|].
  intros v Hv. destruct (Z.lt_ge_cases v (llen (State.keys st2))); [apply H1; lia|rewrite <-Hc1; apply H2; lia].
Qed.
Lemma establishNext_taken st st' taken : establishNext st = Ok (st', taken) → keys_taken st st'.
Proof.
  intros H. pose proof (establishNext_shape _ _ _ H) as [Hc Ht]. unfold establishNext in H. apply bind_ok in H as ([st1 next] & Hn & H). apply nextSuccession_same_pass in Hn as [(Hk & _) _].
  destruct next as [v|]; injection H as <- <-; [|by apply keys_taken_none]. destruct (Ht eq_refl) as [Hl Hd]. split; [done|]. exists [new_key_of (Valid.succession v)]. split; [destruct st1; cbn in *; by rewrite Hk|].
  intros w Hw. assert (w = llen (State.keys st)) as -> by lia. done.
Qed.
Lemma establishAll_taken n : ∀ st st', establishAll n st = Ok st' → keys_taken st st'.
Proof.
  induction n as [|n IH]; intros st st' H; [done|]. cbn [establishAll] in H. apply bind_ok in H as ([st1 taken] & E & H). apply establishNext_taken in E. destruct taken; [|by injection H as <-].
  etrans; [exact E|by apply IH].
Qed.
Lemma pass_path_taken n path : ∀ st st', pass_path n st path = Ok st' → keys_taken st st'.
Proof.
  induction path as [|at_ path IH]; intros st st' H; [by injection H as <-|]. cbn [pass_path] in H. apply bind_ok in H as (st2 & Hs & H). etrans; [|by apply IH]. unfold pass_step in Hs. cbv zeta in Hs.
  apply bind_ok in Hs as ([] & _ & Hs). etrans; [|exact (establishAll_taken _ _ _ Hs)]. by apply keys_taken_none; destruct st.
Qed.
Lemma pass_taken n st path st' : pass n st path = Ok st' → keys_taken st st'.
Proof. unfold pass. intros H. apply bind_ok in H as (st1 & H1 & H). etrans; [by eapply establishAll_taken|by eapply pass_path_taken]. Qed.
End fuel.
