(* ===== verification/Acceptance.v ===== *)
(** * Accepting a roster chain (packages/crypto/src/group-trust.ts)

    [accept]: what a device does with the rosters and successions a server
    serves. Its four steps are four definitions: the person's own marks
    ([own_marks]), the path linked from the latest roster ([link_path]), the
    pass ([Chain.pass]) and the marks against the verified chain
    ([check_marks]); then what the chain says to its reader ([answer]).
    Around it the codes compared by people ([joinCode], [pairCodeOf]), the
    local record ([checkCache]), and the acceptances of one more statement
    ([checkNextRoster], [checkNextSuccession]). The registry of accepted
    objects (accepted.ts) is the type of what [accept] returns. *)

From S2P Require Import Prelude Base64url Bytes Canonical HChaCha Crypto Roster Identity Ledger Pins Chain.

Definition OLDER : string := "This is an older member list than this device has seen.".
Definition NOT_CHECKED : string := "These are not the group keys this person checked.".
Definition NOT_EXTENDING : string :=
  "This member list does not continue the one this device holds: fetch it again from version 1.".
Definition NOT_LET_IN : string := "This account is not in this family yet.".
Definition BAD_CACHE : string := "Invalid member list cache.".
Definition CACHE_VERSION : Z := 2.

(** ** Codes people compare *)

Module JoinMark.
Record t := { rosterVersion : Z; code : list string }.
End JoinMark.
Module PairMark.
Record t := { rosterVersion : Z; with_user : string; code : list string }.
End PairMark.
(** A mark as the settings hold it; [None] where the property is missing, or the code is not an array. *)
Module RawMark.
Record t := { rosterVersion : jsval; with_user : option jsval; code : option (list jsval) }.
End RawMark.

Definition is_word (v : jsval) : option string :=
  match v with
  | JStr w => if string_forallb (in_range "a" "z") w && (3 <=? slen w) && (slen w <=? 8) then Some w else None
  | _ => None
  end.
Definition twelveWords (code : option (list jsval)) : option (list string) :=
  match code with
  | Some l => if llen l =? 12 then mapM is_word l else None
  | None => None
  end.

Definition checkJoinMark (mark : RawMark.t) : result JoinMark.t :=
  match RawMark.with_user mark, twelveWords (RawMark.code mark) with
  | None, Some code =>
      let* version := integer (RawMark.rosterVersion mark) "join mark" in Ok (JoinMark.Build_t version code)
  | _, _ => Err "Invalid join mark."
  end.

Definition checkPairMark (mark : RawMark.t) : result PairMark.t :=
  match RawMark.with_user mark, twelveWords (RawMark.code mark) with
  | Some (JStr w), Some code =>
      let* version := integer (RawMark.rosterVersion mark) "pair mark" in
      let* with_user := uuid (JStr w) "user id" in
      Ok (PairMark.Build_t version with_user code)
  | _, _ => Err "Invalid pair mark."
  end.

Definition JOIN_CODE_DOMAIN : string := "hushos/group/join-code/v1".
Definition PAIR_CODE_DOMAIN : string := "hushos/group/pair-code/v1".

Section codes.
Context `{C : Crypto}.

(** The roster, key and version both codes are over. *)
Definition code_input (rosterDigest : string) (groupKey : GroupPublicKey.t) (groupKeyVersion : Z) : result bytes :=
  let* d := digestOf (JStr rosterDigest) "roster digest" in
  let* d := decode d (Some 32) in
  let* kd := groupKeyDigest groupKey in
  let* kd := decode kd (Some 32) in
  let* v := integer (JInt groupKeyVersion) "group key version" in
  Ok (d +:+ kd +:+ be_bytes 8 v).

Definition code_words (hash : bytes) : result (list string) := fingerprintWords (to_hex (subarray 0 20 hash)).

Definition joinCode (rosterDigest : string) (groupKey : GroupPublicKey.t) (groupKeyVersion : Z) : result (list string) :=
  let* input := code_input rosterDigest groupKey groupKeyVersion in
  code_words (sha256 (JOIN_CODE_DOMAIN +:+ input)).

Definition pairCodeOf (rosterDigest : string) (groupKey : GroupPublicKey.t) (groupKeyVersion : Z) (userId otherUserId : string)
    : result (list string) :=
  let* a := uuid (JStr userId) "user id" in
  let* b := uuid (JStr otherUserId) "user id" in
  refuse "A pair code is between two members." when a === b ;;
  let* input := code_input rosterDigest groupKey groupKeyVersion in
  let '(lower, higher) := if str_ltb b a then (b, a) else (a, b) in
  code_words (sha256 (PAIR_CODE_DOMAIN +:+ input +:+ lower +:+ higher)).
End codes.

(** The group key version the roster at [version] is under. *)
Definition keyVersionAt (ties : list Z) (version : Z) : Z :=
  1 + llen (filter (λ tie, tie < version) ties).

(** ** The local record *)

Module KeySet.
Record t := { encryptionPublicKey : string; signingPublicKey : string; mlDsaPublicKeyDigest : string }.
End KeySet.
#[export] Instance KeySet_eq_dec : EqDecision KeySet.t.
Proof. solve_decision. Defined.
#[export] Instance Verified_eq_dec : EqDecision Verified.t.
Proof. solve_decision. Defined.

Module RawKeySet.
Record t := { encryptionPublicKey : jsval; signingPublicKey : jsval; mlDsaPublicKeyDigest : jsval }.
End RawKeySet.
Module RawGroupKey.
Record t := { ed25519PublicKey : jsval; mlDsaPublicKey : jsval }.
End RawGroupKey.
Module RawVerified.
Record t := { lastRosterVersion : jsval; digest : jsval; signerUserId : jsval }.
End RawVerified.
(** As it is stored: [None] for what is not of the shape the field needs (an
    array, a plain object); the outer [option] of [areaRoots] and
    [retiredAreas] is whether the field is there. *)
Module RawCache.
Record t := {
  groupId : jsval; origin : option jsval; rosterDigests : option (list jsval); statement : jsval;
  droppedHolder : option bool; groupKeys : option (list (option RawGroupKey.t));
  successions : option (list (option RawVerified.t)); creatorUserId : jsval;
  keyHistory : option (gmap string (option (list (option RawKeySet.t))));
  areaKeys : option (gmap string (option (list jsval)));
  areaRoots : option (option (gmap string (option (list (option jsval)))));
  retiredAreas : option (option (list jsval)); cacheVersion : Z; ownEntryWrongAt : option (list jsval);
}.
End RawCache.
Module Cached.
Record t := {
  rosterDigests : list string; statement : bytes; roster : Roster.t; droppedHolder : bool;
  groupKeys : list GroupPublicKey.t; successions : list Verified.t; creatorUserId : string;
  keyHistory : gmap string (list KeySet.t); areaKeys : gmap string (list string);
  areaRoots : gmap string (list (option string)); retiredAreas : list string; ownEntryWrongAt : list Z;
}.
End Cached.

(** [if (!(value is of the shape)) throw bad()] *)
Definition shaped {A} (o : option A) : result A := match o with Some a => Ok a | None => Err BAD_CACHE end.

(** Every value of an object, checked under its key. *)
Definition check_object {A B} (f : string → A → result B) (m : gmap string A) : result (gmap string B) :=
  let* l := mapM (λ entry, let* b := f entry.1 entry.2 in Ok (entry.1, b)) (map_to_list m) in
  Ok (list_to_map l).

Definition check_group_key (key : option RawGroupKey.t) : result GroupPublicKey.t :=
  let* key := shaped key in
  let* ed := bytesOf (RawGroupKey.ed25519PublicKey key) 32 "group key" in
  let* ml := bytesOf (RawGroupKey.mlDsaPublicKey key) ML_DSA_PUBLIC_KEY_BYTES "group key" in
  Ok (GroupPublicKey.Build_t ed ml).
Definition check_verified (at_ : option RawVerified.t) : result Verified.t :=
  let* at_ := shaped at_ in
  let* version := integer (RawVerified.lastRosterVersion at_) "roster version" in
  let* digest := digestOf (RawVerified.digest at_) "statement digest" in
  let* signer := uuid (RawVerified.signerUserId at_) "user id" in
  Ok (Verified.Build_t version digest signer).
Definition check_key_set (set : option RawKeySet.t) : result KeySet.t :=
  let* set := shaped set in
  let* enc := bytesOf (RawKeySet.encryptionPublicKey set) 32 "encryption key" in
  let* sign := bytesOf (RawKeySet.signingPublicKey set) 32 "signing key" in
  let* ml := digestOf (RawKeySet.mlDsaPublicKeyDigest set) "key digest" in
  Ok (KeySet.Build_t enc sign ml).
Definition check_key_sets (userId : string) (sets : option (list (option RawKeySet.t))) : result (list KeySet.t) :=
  let* sets := shaped sets in
  let* l := mapM check_key_set sets in
  refuse BAD_CACHE unless bool_decide (NoDup l) ;;
  let* _ := uuid (JStr userId) "user id" in
  Ok l.
Definition check_commitments (workspaceId : string) (l : option (list jsval)) : result (list string) :=
  let* l := shaped l in
  refuse BAD_CACHE when llen l =? 0 ;;
  let* _ := uuid (JStr workspaceId) "workspace id" in
  mapM (λ at_, digestOf at_ "area key commitment") l.

(** Whether the successions' ties ascend, none past the last roster. *)
Fixpoint ties_ascend (last_ : Z) (before : Z) (ties : list Z) : bool :=
  match ties with
  | [] => true
  | tie :: rest => (tie <=? last_) && (before <=? tie) && ties_ascend last_ tie rest
  end.
Fixpoint strictly_ascend (last_ : Z) (before : Z) (l : list Z) : bool :=
  match l with
  | [] => true
  | v :: rest => (v <=? last_) && (before <? v) && strictly_ascend last_ v rest
  end.

(** The root commitments beside an area's keys. *)
Definition check_roots (beforeFormat2 : bool) (roots : gmap string (option (list (option jsval)))) (workspaceId : string)
    (keys : list string) : result (list (option string)) :=
  let* l :=
    if beforeFormat2 then Ok (map (λ _, None) keys)
    else match roots !! workspaceId with Some l => shaped l | None => Ok [] end in
  refuse BAD_CACHE unless llen l =? llen keys ;;
  mapM (λ at_, match at_ with
    | None => Ok None
    | Some at_ => let* d := digestOf at_ "area root commitment" in Ok (Some d)
    end) l.

(** The last roster's row for an area is its latest key and root, or its tombstone. *)
Definition row_is_latest (areaKeys : gmap string (list string)) (areaRoots : gmap string (list (option string)))
    (retired : list string) (area : Area.t) : bool :=
  let id := Area.workspaceId area in
  match areaKeys !! id with
  | None => false
  | Some l =>
      if Area.retired area then bool_decide (id ∈ retired) && (llen l =? Area.workspaceKeyVersion area - 1)
      else (llen l =? Area.workspaceKeyVersion area) && (last l === Some (Area.commitment area)) &&
        (match areaRoots !! id with Some roots => last roots === Some (Area.rootCommitment area) | None => false end) &&
        negb (bool_decide (id ∈ retired))
  end.

Section cache.
Context `{C : Crypto}.

(** The areas of the record, by its own version: before version 2 it carries neither roots nor tombstones. *)
Definition check_cached_areas (cache : RawCache.t) (roster : Roster.t)
    : result (gmap string (list string) * gmap string (list (option string)) * list string) :=
  let* areaKeys := shaped (RawCache.areaKeys cache) in
  let* areaKeys := check_object check_commitments areaKeys in
  refuse BAD_CACHE unless (RawCache.cacheVersion cache =? 1) || (RawCache.cacheVersion cache =? CACHE_VERSION) ;;
  let beforeFormat2 := RawCache.cacheVersion cache =? 1 in
  let* roots := match RawCache.areaRoots cache with None => Ok ∅ | Some m => shaped m end in
  refuse BAD_CACHE unless bool_decide (dom roots ⊆ dom areaKeys) ;;
  refuse BAD_CACHE when beforeFormat2 &&
    (negb (bool_decide (roots = ∅)) ||
     match RawCache.retiredAreas cache with Some (Some l) => 0 <? llen l | _ => false end) ;;
  refuse BAD_CACHE when negb beforeFormat2 &&
    (match RawCache.areaRoots cache with None => true | Some _ => false end ||
     match RawCache.retiredAreas cache with None => true | Some _ => false end) ;;
  let* areaRoots := check_object (check_roots beforeFormat2 roots) areaKeys in
  let* retired := match RawCache.retiredAreas cache with None => Ok [] | Some l => shaped l end in
  let* retired := mapM (λ at_, uuid at_ "workspace id") retired in
  let* retired := ascending retired "retired areas" in
  refuse BAD_CACHE unless bool_decide (Forall (λ id, id ∈ dom areaKeys) retired) ;;
  refuse BAD_CACHE unless forallb (row_is_latest areaKeys areaRoots retired) (Roster.areas roster) ;;
  refuse BAD_CACHE when (Roster.rosterVersion roster =? 1) &&
    negb (Z.of_nat (size areaKeys) =? llen (Roster.areas roster)) ;;
  Ok (areaKeys, areaRoots, retired).

Definition check_record (groupId : string) (cache : RawCache.t) : result Cached.t :=
  let* digests := shaped (RawCache.rosterDigests cache) in
  refuse BAD_CACHE when llen digests =? 0 ;;
  let* rosterDigests := mapM (λ at_, digestOf at_ "roster digest") digests in
  let* text := match RawCache.statement cache with JStr s => Ok s | _ => Err BAD_CACHE end in
  let* statement := decode text None in
  let* roster := parseRoster statement in
  refuse BAD_CACHE when (Roster.groupId roster !== groupId) || negb (Roster.rosterVersion roster =? llen rosterDigests) ||
    (Some (rosterDigest statement) !== last rosterDigests) ;;
  let* droppedHolder := shaped (RawCache.droppedHolder cache) in
  let* keys := shaped (RawCache.groupKeys cache) in
  let* groupKeys := mapM check_group_key keys in
  refuse BAD_CACHE when llen groupKeys <? Roster.groupKeyVersion roster ;;
  let* succs := shaped (RawCache.successions cache) in
  refuse BAD_CACHE unless llen succs =? llen groupKeys - 1 ;;
  let* successions := mapM check_verified succs in
  refuse BAD_CACHE unless ties_ascend (llen rosterDigests) 0 (map Verified.lastRosterVersion successions) ;;
  let* creatorUserId := uuid (RawCache.creatorUserId cache) "user id" in
  let* history := shaped (RawCache.keyHistory cache) in
  let* keyHistory := check_object check_key_sets history in
  let* (areaKeys, areaRoots, retired) := check_cached_areas cache roster in
  let* wrong := shaped (RawCache.ownEntryWrongAt cache) in
  let* ownEntryWrongAt := mapM (λ at_, integer at_ "roster version") wrong in
  refuse BAD_CACHE unless strictly_ascend (llen rosterDigests) 0 ownEntryWrongAt ;;
  Ok (Cached.Build_t rosterDigests statement roster droppedHolder groupKeys successions creatorUserId keyHistory areaKeys
    areaRoots retired ownEntryWrongAt).

(** The server's record continues only the server's acceptance; a device's only a device's. *)
Definition checkCache (groupId : string) (value : option RawCache.t) (server : bool) : result Cached.t :=
  match value with
  | None => Err BAD_CACHE
  | Some cache =>
      refuse BAD_CACHE when RawCache.groupId cache !== JStr groupId ;;
      refuse BAD_CACHE unless
        (if server then RawCache.origin cache === Some (JStr "server") else RawCache.origin cache === None) ;;
      recast BAD_CACHE (check_record groupId cache)
  end.
End cache.

(** ** What acceptance answers *)

Inductive CheckedHow := checked_created | checked_join | checked_compared.
Module FamilyChecked.
Record t := { how : CheckedHow; rosterVersion : Z }.
End FamilyChecked.
Module DeadBranch.
Record t := { version : Z; signerUserId : string }.
End DeadBranch.
(** An accepted chain; its [cache] is what the device keeps. *)
Module Body.
Record t := {
  groupId : string; kind : GroupKind; roster : Roster.t; statement : bytes; rosterDigest : string;
  rosterDigests : list string; droppedHolder : bool; groupKeyVersion : Z; groupKey : GroupPublicKey.t;
  groupKeyDigest : string; groupKeys : list GroupPublicKey.t; creatorUserId : string; successionDue : bool;
  keyHistory : gmap string (list KeySet.t); areaKeys : gmap string (list string);
  areaRoots : gmap string (list (option string)); retiredAreas : list string; ownEntryWrongAt : list Z;
  ownEntryBehindAt : list Z; deadBranches : list DeadBranch.t; cache : RawCache.t; checked : option FamilyChecked.t;
}.
End Body.

(** The record as it is written. *)
Definition raw_group_key (k : GroupPublicKey.t) : RawGroupKey.t :=
  RawGroupKey.Build_t (JStr (GroupPublicKey.ed25519PublicKey k)) (JStr (GroupPublicKey.mlDsaPublicKey k)).
Definition raw_verified (v : Verified.t) : RawVerified.t :=
  RawVerified.Build_t (JInt (Verified.lastRosterVersion v)) (JStr (Verified.digest v)) (JStr (Verified.signerUserId v)).
Definition raw_key_set (s : KeySet.t) : RawKeySet.t :=
  RawKeySet.Build_t (JStr (KeySet.encryptionPublicKey s)) (JStr (KeySet.signingPublicKey s))
    (JStr (KeySet.mlDsaPublicKeyDigest s)).
Definition raw_cache (groupId : string) (c : Cached.t) : RawCache.t := {|
  RawCache.groupId := JStr groupId; RawCache.origin := None;
  RawCache.rosterDigests := Some (map JStr (Cached.rosterDigests c));
  RawCache.statement := JStr (encode (Cached.statement c)); RawCache.droppedHolder := Some (Cached.droppedHolder c);
  RawCache.groupKeys := Some (map (λ k, Some (raw_group_key k)) (Cached.groupKeys c));
  RawCache.successions := Some (map (λ v, Some (raw_verified v)) (Cached.successions c));
  RawCache.creatorUserId := JStr (Cached.creatorUserId c);
  RawCache.keyHistory := Some (fmap (M := gmap string) (λ l, Some (map (λ s, Some (raw_key_set s)) l)) (Cached.keyHistory c));
  RawCache.areaKeys := Some (fmap (M := gmap string) (λ l, Some (map JStr l)) (Cached.areaKeys c));
  RawCache.areaRoots := Some (Some (fmap (M := gmap string) (λ l, Some (map (λ r : option string, JStr <$> r) l)) (Cached.areaRoots c)));
  RawCache.retiredAreas := Some (Some (map JStr (Cached.retiredAreas c))); RawCache.cacheVersion := CACHE_VERSION;
  RawCache.ownEntryWrongAt := Some (map JInt (Cached.ownEntryWrongAt c)) |}.

(** ** What acceptance takes *)

Inductive Anchor := created | join | first_use | stored.
#[export] Instance Anchor_eq_dec : EqDecision Anchor.
Proof. solve_decision. Defined.
Module Me.
Record t := { userId : string; identities : list ServedKeys.t }.
End Me.
Module Accepting.
Record t := {
  groupId : string; firstKeys : GroupPublicKey.t; pins : list (option RawGroupPin.t);
  rosters : list SignedGroupStatement.t; successions : list SignedGroupStatement.t; mlDsaKeys : gmap string string;
  joinMark : option RawMark.t; pairMarks : list RawMark.t; anchor : option Anchor; me : option Me.t;
  cache : option (option RawCache.t); server : bool;
}.
End Accepting.

(** The input checked: what the rest of [accept] reads. *)
Module Given.
Record t := {
  groupId : string; pins : list GroupPin.t; cached : option Cached.t; joinMark : option JoinMark.t; pairMarks : list PairMark.t;
}.
End Given.

(** The marks by version, and those of the version 1 keys. *)
Abbreviation marks_map := (gmap Z (list MarkSide.t)).
Module Marks.
Record t := { rosterMarks : marks_map; keyMarkSides : marks_map; firstMarks : list MarkSide.t }.
End Marks.
(** The linked path above [bottom], version [bottom + 1] first; the cache when it is continued. *)
Module Path.
Record t := { extending : option Cached.t; head : Z; bottom : Z; path : list (Served.t Roster.t) }.
End Path.
(** The reader's own entries so far: the last version one named, the rosters wrong and those behind. *)
Module Own.
Record t := { lastOwn : option Z; wrongAt : list Z; behindAt : list Z }.
End Own.
Definition NO_MARKS : Marks.t := Marks.Build_t ∅ ∅ [].

Definition JOIN_ANCHOR : string := "A join is anchored by the join code compared, and only a join is.".

Section accept.
Context `{C : Crypto}.

Definition check_input (input : Accepting.t) : result Given.t :=
  let* groupId := uuid (JStr (Accepting.groupId input)) "group id" in
  let* pins := mapM (checkGroupPin groupId) (Accepting.pins input) in
  let* cached :=
    match Accepting.cache input with
    | Some cache => let* c := checkCache groupId cache (Accepting.server input) in Ok (Some c)
    | None => Ok None
    end in
  let* joinMark :=
    match Accepting.joinMark input with Some m => let* j := checkJoinMark m in Ok (Some j) | None => Ok None end in
  let* pairMarks := mapM checkPairMark (Accepting.pairMarks input) in
  refuse JOIN_ANCHOR when
    ((Accepting.anchor input === Some join) && match joinMark with None => true | Some _ => false end) ||
    (match joinMark with Some _ => true | None => false end &&
      (Accepting.anchor input !== Some join) && (Accepting.anchor input !== None)) ;;
  refuse "Invalid pair mark." when (0 <? llen pairMarks) && match Accepting.me input with None => true | Some _ => false end ;;
  Ok (Given.Build_t groupId pins cached joinMark pairMarks).

(** (1) The person's own marks. *)

Definition add_mark (m : marks_map) (version : Z) (side : MarkSide.t) : marks_map :=
  <[version := default [] (m !! version) ++ [side]]> m.
Definition sorted_versions (m : gmap Z (list MarkSide.t)) : list Z := merge_sort Z.le (elements (dom m)).

(** SHA-256 of the version 1 Ed25519 key and the ML-DSA key's digest, or the empty string. *)
Definition firstKeysMark (ed25519PublicKey : string) (mlDsaPublicKeyDigest : option string) : string :=
  match decode ed25519PublicKey (Some 32), decode (default "" mlDsaPublicKeyDigest) (Some 32) with
  | Ok ed, Ok ml => digest (ed +:+ ml)
  | _, _ => ""
  end.
Definition first_keys_of (key : GroupPublicKey.t) : string :=
  firstKeysMark (GroupPublicKey.ed25519PublicKey key) (mlDsaDigest (GroupPublicKey.mlDsaPublicKey key)).

Definition pin_marks (marks : Marks.t) (pin : GroupPin.t) : Marks.t :=
  let side d := MarkSide.Build_t d [from_pin] None in
  Marks.Build_t (add_mark (Marks.rosterMarks marks) (GroupPin.rosterVersion pin) (side (GroupPin.rosterDigest pin)))
    (add_mark (Marks.keyMarkSides marks) (GroupPin.keyVersion pin) (side (GroupPin.groupKeyDigest pin)))
    (Marks.firstMarks marks ++
      [side (firstKeysMark (GroupPin.firstEd25519PublicKey pin) (Some (GroupPin.firstMlDsaPublicKeyDigest pin)))]).

(** The cache's rosters, the last one's signer named. *)
Definition cache_roster_marks (cached : Cached.t) (m : marks_map) : marks_map :=
  let last_ := llen (Cached.rosterDigests cached) in
  foldl (λ m '(i, d), add_mark m (Z.of_nat i + 1) (MarkSide.Build_t d [from_cache]
      (if Z.of_nat i + 1 =? last_ then Some (Roster.signerUserId (Cached.roster cached)) else None)))
    m (imap pair (Cached.rosterDigests cached)).
(** Its group keys, each but the first with the signer of the succession into it. *)
Fixpoint cache_key_marks (cached : Cached.t) (m : marks_map) (index : nat) (keys : list GroupPublicKey.t) : result marks_map :=
  match keys with
  | [] => Ok m
  | key :: rest =>
      let* d := groupKeyDigest key in
      let signer := match index with
        | O => None
        | S i => Verified.signerUserId <$> (Cached.successions cached !! i)
        end in
      cache_key_marks cached (add_mark m (Z.of_nat index + 1) (MarkSide.Build_t d [from_cache] signer)) (S index) rest
  end.
Definition cache_marks (marks : Marks.t) (cached : Cached.t) : result Marks.t :=
  let* keyMarks := cache_key_marks cached (Marks.keyMarkSides marks) 0 (Cached.groupKeys cached) in
  let first_ := match head (Cached.groupKeys cached) with Some key => first_keys_of key | None => "" end in
  Ok (Marks.Build_t (cache_roster_marks cached (Marks.rosterMarks marks)) keyMarks
    (Marks.firstMarks marks ++ [MarkSide.Build_t first_ [from_cache] (Some (Cached.creatorUserId cached))])).

(** Every version's sides agree, in ascending order of version. *)
Definition agree (about : ForkOf) (m : marks_map) : acc unit :=
  let* _ := mapM (λ version, conflict about version (default [] (m !! version))) (sorted_versions m) in Ok tt.

Definition own_marks (given : Given.t) : acc Marks.t :=
  let marks := foldl pin_marks NO_MARKS (Given.pins given) in
  let* marks := match Given.cached given with Some cached => lift (cache_marks marks cached) | None => Ok marks end in
  let* _ := conflict of_group_key 1 (Marks.firstMarks marks) in
  let* _ := agree of_roster (Marks.rosterMarks marks) in
  let* _ := agree of_group_key (Marks.keyMarkSides marks) in
  Ok marks.

(** The served version 1 keys against the marks, or the anchor; whether it is a first use. *)
Definition vouch (input : Accepting.t) (given : Given.t) (marks : Marks.t) : result bool :=
  let firstUse := match Marks.firstMarks marks with [] => true | _ => false end &&
    (Accepting.anchor input === Some first_use) && match Given.pairMarks given with [] => true | _ => false end in
  match Marks.firstMarks marks with
  | mark :: _ =>
      refuse NOT_CHECKED when first_keys_of (Accepting.firstKeys input) !== MarkSide.digest mark ;;
      Ok firstUse
  | [] =>
      refuse "These group keys have not been checked: compare the join code first." when
        (Accepting.anchor input === None) || ((Accepting.anchor input === Some first_use) && negb firstUse) ;;
      Ok firstUse
  end.

(** (2) The path. *)

Definition find_digest (rosters : list (Served.t Roster.t)) (d : string) : option (Served.t Roster.t) :=
  snd <$> list_find (λ at_, Served.digest at_ = d) rosters.

(** From the roster [at_] at [version] down, [count] versions; the path so far is above. *)
Fixpoint walk_down (rosters : list (Served.t Roster.t)) (count : nat) (version : Z) (at_ : option (Served.t Roster.t))
    (path : list (Served.t Roster.t)) : result (list (Served.t Roster.t)) :=
  match count with
  | O => Ok path
  | S count' =>
      match at_ with
      | None => Err NOT_FOLLOWING
      | Some a =>
          refuse NOT_FOLLOWING unless Roster.rosterVersion (Served.value a) =? version ;;
          walk_down rosters count' (version - 1)
            (if 1 <? version then find_digest rosters (Roster.previousRosterDigest (Served.value a)) else None) (a :: path)
      end
  end.


Definition link_path (given : Given.t) (rosters : list (Served.t Roster.t)) : result Path.t :=
  let cachedVersion := match Given.cached given with Some c => llen (Cached.rosterDigests c) | None => 0 end in
  let versions := map (λ at_, Roster.rosterVersion (Served.value at_)) rosters in
  let extending :=
    if forallb (λ v, cachedVersion <? v) versions then Given.cached given else None in
  let bottom := match extending with Some _ => cachedVersion | None => 0 end in
  let head_ := foldl Z.max bottom versions in
  refuse "This group has no member list yet." when head_ =? 0 ;;
  if head_ <=? bottom then Ok (Path.Build_t extending head_ bottom [])
  else
    let tops := filter (λ at_, Roster.rosterVersion (Served.value at_) = head_) rosters in
    refuse "The server served more than one latest member list." when 1 <? llen tops ;;
    let* path := walk_down rosters (Z.to_nat (head_ - bottom)) head_ (head tops) [] in
    match extending, path with
    | Some c, first_ :: _ =>
        refuse NOT_EXTENDING when Some (Roster.previousRosterDigest (Served.value first_)) !== last (Cached.rosterDigests c) ;;
        Ok (Path.Build_t extending head_ bottom path)
    | _, _ => Ok (Path.Build_t extending head_ bottom path)
    end.

(** (3) The state the pass starts from. *)

Fixpoint verified_from (index : Z) (l : list Verified.t) (m : gmap Z Verified.t) : gmap Z Verified.t :=
  match l with
  | [] => m
  | at_ :: rest => verified_from (index + 1) rest (<[index := at_]> m)
  end.

Definition stateOf (groupId : string) (mlDsaKeys : gmap string string) (cached : option Cached.t) : State.t := {|
  State.groupId := groupId; State.mlDsaKeys := mlDsaKeys;
  State.keys := match cached with Some c => Cached.groupKeys c | None => [] end;
  State.verified := match cached with Some c => verified_from 1 (Cached.successions c) ∅ | None => ∅ end;
  State.held :=
    match cached with
    | Some c => [Held.Build_t (Cached.roster c) (Cached.statement c) (default "" (last (Cached.rosterDigests c)))
        (Cached.droppedHolder c)]
    | None => []
    end;
  State.candidates := ∅; State.keyMarks := ∅; State.refused := ∅; State.waiting := ∅; State.signatures := ∅;
  State.areas :=
    match cached with
    | Some c => ledgerOf (Cached.areaKeys c) (Cached.areaRoots c) (list_to_set (Cached.retiredAreas c))
    | None => NO_LEDGER
    end |}.

Definition add_candidate (m : gmap Z (list (Served.t GroupKeySuccession.t))) (at_ : Served.t GroupKeySuccession.t)
    : gmap Z (list (Served.t GroupKeySuccession.t)) :=
  let v := GroupKeySuccession.oldVersion (Served.value at_) in <[v := default [] (m !! v) ++ [at_]]> m.

Definition key_marks_of (m : marks_map) : gmap Z MarkSide.t := omap (λ all, head (sides all)) m.

Definition initial_state (input : Accepting.t) (given : Given.t) (marks : Marks.t) (path : Path.t)
    (successions : list (Served.t GroupKeySuccession.t)) : State.t :=
  let '(State.Build_t g m k ve h _ _ r w s a) := stateOf (Given.groupId given) (Accepting.mlDsaKeys input) (Path.extending path) in
  State.Build_t g m (match Path.extending path with Some _ => k | None => k ++ [Accepting.firstKeys input] end) ve h
    (foldl add_candidate ∅ successions) (key_marks_of (Marks.keyMarkSides marks)) r w s a.

(** (4) The marks against the verified chain. *)

Definition verified_signer (state : State.t) (d : string) : option string :=
  (λ h, Roster.signerUserId (Held.roster h)) <$> last (filter (λ h, Held.digest h = d) (State.held state)).
Definition signed_side (state : State.t) (side : MarkSide.t) : MarkSide.t :=
  MarkSide.Build_t (MarkSide.digest side) (MarkSide.from side)
    (match MarkSide.signerUserId side with Some s => Some s | None => verified_signer state (MarkSide.digest side) end).

(** The chain's roster digest at a version, up to its head. *)
Definition chain_digest (path : Path.t) (version : Z) : string :=
  if version <=? Path.bottom path then
    match Path.extending path with Some c => default "" (Cached.rosterDigests c !! Z.to_nat (version - 1)) | None => "" end
  else match Path.path path !! Z.to_nat (version - Path.bottom path - 1) with Some at_ => Served.digest at_ | None => "" end.

Definition state_ties (state : State.t) : list Z :=
  map (λ e, Verified.lastRosterVersion e.2) (map_to_list (State.verified state)).
Definition key_under (state : State.t) (version : Z) : Z * GroupPublicKey.t :=
  let keyVersion := keyVersionAt (state_ties state) version in
  (keyVersion, default (GroupPublicKey.Build_t "" "") (key_at (State.keys state) keyVersion)).

Definition words_join (words : list string) : string := String.concat " " words.

(** A code compared over the roster at [version]: the chain's code, or the fork. *)
Definition check_code (state : State.t) (path : Path.t) (source : MarkSource) (version : Z) (compared : list string)
    (code_of : string → GroupPublicKey.t → Z → result (list string)) : acc unit :=
  refuse (Refused OLDER) when Path.head path <? version ;;
  let d := chain_digest path version in
  let '(keyVersion, key) := key_under state version in
  let* code := lift (code_of d key keyVersion) in
  if words_join code === words_join compared then Ok tt
  else Err (Fork (RosterFork.Build_t of_roster version (sides
    [MarkSide.Build_t (words_join compared) [source] None;
     MarkSide.Build_t d [from_served] (verified_signer state d)]))).

Definition pair_le (a b : PairMark.t) : Prop := PairMark.rosterVersion a ≤ PairMark.rosterVersion b.
#[export] Instance pair_le_dec a b : Decision (pair_le a b).
Proof. unfold pair_le. apply _. Defined.

Definition check_roster_marks (state : State.t) (path : Path.t) (marks : Marks.t) : acc unit :=
  let versions := sorted_versions (Marks.rosterMarks marks) in
  let* _ := mapM (λ version, conflict of_roster version
      (map (signed_side state) (default [] (Marks.rosterMarks marks !! version)) ++
       [signed_side state (MarkSide.Build_t (chain_digest path version) [from_served] None)]))
    (filter (λ v, v ≤ Path.head path) versions) in
  refuse (Refused OLDER) when existsb (λ v, Path.head path <? v) versions ;;
  Ok tt.

Definition check_key_marks (state : State.t) (marks : Marks.t) : acc unit :=
  let versions := sorted_versions (Marks.keyMarkSides marks) in
  let* _ := mapM (λ version,
      match State.keyMarks state !! version, key_at (State.keys state) version with
      | Some mark, Some key =>
          let* d := lift (groupKeyDigest key) in
          conflict of_group_key version
            [mark; MarkSide.Build_t d [from_served] (Verified.signerUserId <$> State.verified state !! (version - 1))]
      | _, _ => Ok tt
      end) versions in
  refuse (Refused OLDER) when existsb (λ v, llen (State.keys state) <? v) versions ;;
  Ok tt.

(** First use takes the served version 1 keys only for a reader the head admits. *)
Definition let_in (state : State.t) (me : option Me.t) : bool :=
  match me, last (State.held state) with
  | Some me, Some at_ => activeWith (rosterEntry (Held.roster at_) (Me.userId me)) None
  | _, _ => false
  end.

Definition check_marks (input : Accepting.t) (given : Given.t) (marks : Marks.t) (firstUse : bool) (path : Path.t)
    (state : State.t) : acc unit :=
  let* _ := check_roster_marks state path marks in
  let* _ :=
    match Given.joinMark given with
    | Some mark => check_code state path from_join (JoinMark.rosterVersion mark) (JoinMark.code mark) joinCode
    | None => Ok tt
    end in
  let* _ := mapM (λ mark, check_code state path from_pair (PairMark.rosterVersion mark) (PairMark.code mark)
      (λ d key v, pairCodeOf d key v (match Accepting.me input with Some me => Me.userId me | None => "" end)
        (PairMark.with_user mark)))
    (merge_sort pair_le (Given.pairMarks given)) in
  refuse (Refused NOT_LET_IN) when firstUse && negb (let_in state (Accepting.me input)) ;;
  check_key_marks state marks.

(** What the chain says to its reader. *)

Definition keySetOf (entry : Member.t) : KeySet.t :=
  KeySet.Build_t (Member.encryptionPublicKey entry) (Member.signingPublicKey entry) (Member.mlDsaPublicKeyDigest entry).
Definition sameKeySet (a b : KeySet.t) : bool :=
  (KeySet.encryptionPublicKey a === KeySet.encryptionPublicKey b) &&
  (KeySet.signingPublicKey a === KeySet.signingPublicKey b) &&
  (KeySet.mlDsaPublicKeyDigest a === KeySet.mlDsaPublicKeyDigest b).

Definition see_entry (history : gmap string (list KeySet.t)) (entry : Member.t) : gmap string (list KeySet.t) :=
  let seen := default [] (history !! Member.userId entry) in
  <[Member.userId entry := if existsb (λ s, sameKeySet s (keySetOf entry)) seen then seen else seen ++ [keySetOf entry]]> history.
Definition see_roster (history : gmap string (list KeySet.t)) (roster : Roster.t) : gmap string (list KeySet.t) :=
  foldl see_entry history (Roster.members roster).

(** The reader's entry: [None] when not listed, else the version of their identity it names, if any. *)
Definition mineAt (me : option Me.t) (roster : Roster.t) : option (option Z) :=
  match me with
  | None => None
  | Some me =>
      match rosterEntry roster (Me.userId me) with
      | None => None
      | Some entry => Some (ServedKeys.keyVersion <$> (snd <$> list_find (λ i, servedIsEntry i entry = true) (Me.identities me)))
      end
  end.

Definition newest_own (me : option Me.t) : Z :=
  foldl (λ m i, Z.max m (ServedKeys.keyVersion i)) 0 (match me with Some me => Me.identities me | None => [] end).

Definition own_step (me : option Me.t) (own : Own.t) (roster : Roster.t) : Own.t :=
  match mineAt me roster with
  | None => own
  | Some None => Own.Build_t (Own.lastOwn own) (Own.wrongAt own ++ [Roster.rosterVersion roster]) (Own.behindAt own)
  | Some (Some v) =>
      if match Own.lastOwn own with Some l => v <? l | None => false end then
        Own.Build_t (Some v) (Own.wrongAt own ++ [Roster.rosterVersion roster]) (Own.behindAt own)
      else
        Own.Build_t (Some v) (Own.wrongAt own)
          (if (v <? newest_own me) &&
              match me with
              | Some me => match rosterEntry roster (Me.userId me) with
                  | Some entry => Member.sinceVersion entry =? Roster.rosterVersion roster
                  | None => false
                  end
              | None => false
              end
           then Own.behindAt own ++ [Roster.rosterVersion roster] else Own.behindAt own)
  end.

Definition branch_le (a b : Served.t Roster.t) : Prop :=
  Roster.rosterVersion (Served.value a) < Roster.rosterVersion (Served.value b) ∨
  (Roster.rosterVersion (Served.value a) = Roster.rosterVersion (Served.value b) ∧ String.le (Served.digest a) (Served.digest b)).
#[export] Instance branch_le_dec a b : Decision (branch_le a b).
Proof. unfold branch_le. apply _. Defined.

Definition dead_branches (rosters : list (Served.t Roster.t)) (onChain : list string) : list DeadBranch.t :=
  map (λ at_, DeadBranch.Build_t (Roster.rosterVersion (Served.value at_)) (Roster.signerUserId (Served.value at_)))
    (merge_sort branch_le (filter (λ at_, Served.digest at_ ∉ onChain) rosters)).

(** [[...state.verified.entries()].sort()] *)
Definition successions_kept (state : State.t) : list Verified.t :=
  omap (λ v, State.verified state !! v) (merge_sort Z.le (elements (dom (State.verified state)))).

Definition checked_how (input : Accepting.t) (given : Given.t) : option FamilyChecked.t :=
  if Accepting.anchor input === Some created then Some (FamilyChecked.Build_t checked_created 1)
  else match Given.joinMark given, Given.pairMarks given with
  | Some mark, _ => Some (FamilyChecked.Build_t checked_join (JoinMark.rosterVersion mark))
  | None, mark :: rest => Some (FamilyChecked.Build_t checked_compared
      (foldl Z.min (PairMark.rosterVersion mark) (map PairMark.rosterVersion rest)))
  | None, [] => None
  end.

Definition answer (input : Accepting.t) (given : Given.t) (rosters : list (Served.t Roster.t)) (path : Path.t)
    (state : State.t) (latest : Held.t) (key : GroupPublicKey.t) : result Body.t :=
  let extending := Path.extending path in
  let creatorUserId :=
    match extending, head (State.held state) with
    | Some c, _ => Cached.creatorUserId c
    | None, Some at_ => Roster.signerUserId (Held.roster at_)
    | None, None => ""
    end in
  let fresh := map Held.roster match extending with Some _ => tail (State.held state) | None => State.held state end in
  let keyHistory := foldl see_roster (match extending with Some c => Cached.keyHistory c | None => ∅ end) fresh in
  let own := foldl (own_step (Accepting.me input))
    (Own.Build_t (match extending with Some c => default None (mineAt (Accepting.me input) (Cached.roster c)) | None => None end)
      (match extending with Some c => Cached.ownEntryWrongAt c | None => [] end) []) fresh in
  let rosterDigests := match extending with Some c => Cached.rosterDigests c | None => [] end ++
    map Served.digest (Path.path path) in
  let retired := sort_strings (elements (AreaLedger.retired (State.areas state))) in
  let* keyDigest := groupKeyDigest key in
  let kept := Cached.Build_t rosterDigests (Held.statement latest) (Held.roster latest) (Held.droppedHolder latest)
    (State.keys state) (successions_kept state) creatorUserId keyHistory (AreaLedger.keys (State.areas state))
    (AreaLedger.roots (State.areas state)) retired (Own.wrongAt own) in
  Ok (Body.Build_t (Given.groupId given) (Roster.kind (Held.roster latest)) (Held.roster latest) (Held.statement latest)
    (Held.digest latest) rosterDigests (Held.droppedHolder latest) (llen (State.keys state)) key keyDigest (State.keys state)
    creatorUserId
    (Held.droppedHolder latest &&
      negb match State.verified state !! Roster.groupKeyVersion (Held.roster latest) with
           | Some out => Verified.lastRosterVersion out =? Roster.rosterVersion (Held.roster latest)
           | None => false
           end)
    keyHistory (AreaLedger.keys (State.areas state)) (AreaLedger.roots (State.areas state)) retired (Own.wrongAt own)
    (Own.behindAt own) (dead_branches rosters rosterDigests) (raw_cache (Given.groupId given) kept) (checked_how input given)).

(** More turns than keys any served succession replaces ([establishAll_fuel]). *)
Definition loop_fuel (state : State.t) : nat := S (size (State.candidates state)).

Definition accept (input : Accepting.t) : acc (Body.t * State.t) :=
  let* given := lift (check_input input) in
  let* marks := own_marks given in
  let* rosters := lift (byDigest (Accepting.rosters input) parseRoster) in
  refuse (Refused "This roster is for another group.") when
    existsb (λ at_, Roster.groupId (Served.value at_) !== Given.groupId given) rosters ;;
  let* successions := lift (byDigest (Accepting.successions input) parseGroupSuccession) in
  let* firstUse := lift (vouch input given marks) in
  let* path := lift (link_path given rosters) in
  let state := initial_state input given marks path successions in
  let* state := pass (loop_fuel state) state (Path.path path) in
  let* _ := check_marks input given marks firstUse path state in
  match last (State.held state), last (State.keys state) with
  | Some latest, Some key =>
      let* body := lift (answer input given rosters path state latest key) in Ok (body, state)
  | _, _ => Err (Refused NOT_FOLLOWING)
  end.

(** No message of the code: what stands for a loop that does not end, which [pass_settles] rules out. *)
Definition UNFINISHED : string := "(the loop was still running)".
(** [acceptRosters]: the chain, or the fork. *)
Inductive RosterChain := Accepted (chain : Body.t) | Forked (fork : RosterFork.t).
Definition acceptRosters (input : Accepting.t) : result RosterChain :=
  match accept input with
  | Ok (body, _) => Ok (Accepted body)
  | Err (Fork fork) => Ok (Forked fork)
  | Err (Refused e) => Err e
  | Err Unfinished => Err UNFINISHED
  end.

(** Acceptance continuing from a chain's own record with statements after it. *)
Definition extend (chain : Body.t) (record : RawCache.t) (server : bool) (rosters successions : list SignedGroupStatement.t)
    (mlDsaKeys : gmap string string) : result (Body.t * State.t) :=
  match accept {|
      Accepting.groupId := Body.groupId chain;
      Accepting.firstKeys := default (GroupPublicKey.Build_t "" "") (head (Body.groupKeys chain));
      Accepting.pins := []; Accepting.rosters := rosters; Accepting.successions := successions;
      Accepting.mlDsaKeys := mlDsaKeys; Accepting.joinMark := None; Accepting.pairMarks := []; Accepting.anchor := None;
      Accepting.me := None; Accepting.cache := Some (Some record); Accepting.server := server |} with
  | Ok r => Ok r
  | Err (Fork _) => Err NOT_FOLLOWING
  | Err (Refused e) => Err e
  | Err Unfinished => Err UNFINISHED
  end.

(** A roster every device holding [chain] will accept as the next one; with
    [identities], every new or changed entry is one of its member's own. *)
Definition known_entry (before : Roster.t) (identities : gmap string (list (ServedIdentity.t))) (entry : Member.t) : bool :=
  match rosterEntry before (Member.userId entry) with
  | Some b => sameMemberKeys b entry
  | None => false
  end ||
  existsb (λ identity, servedIsEntry (ServedKeys.Build_t (ServedIdentity.keyVersion identity)
      (ServedIdentity.encryptionPublicKey identity) (ServedIdentity.signingPublicKey identity)
      (ServedIdentity.mlDsaPublicKey identity) (ServedIdentity.kemPublicKey identity)) entry &&
    verifyIdentityKeys (Member.userId entry) identity) (default [] (identities !! Member.userId entry)).

Definition checkNextRoster (chain : Body.t) (record : RawCache.t) (server : bool) (signed : SignedGroupStatement.t)
    (mlDsaKeys : gmap string string) (identities : option (gmap string (list ServedIdentity.t))) : result Body.t :=
  let* (next, _) := extend chain record server [signed] [] mlDsaKeys in
  match identities with
  | None => Ok next
  | Some identities =>
      refuse "This entry names keys its member never had." unless
        forallb (known_entry (Body.roster chain) identities) (Roster.members (Body.roster next)) ;;
      Ok next
  end.

Definition checkNextSuccession (chain : Body.t) (record : RawCache.t) (server : bool) (signed : SignedGroupStatement.t)
    (mlDsaKeys : gmap string string) : result Body.t :=
  let* (next, state) := extend chain record server [] [signed] mlDsaKeys in
  refuse (default NO_SUCCESSION (State.refused state !! Body.groupKeyVersion chain)) unless
    Body.groupKeyVersion next =? Body.groupKeyVersion chain + 1 ;;
  Ok next.
End accept.

(** ** What was served *)

Section served_lemmas.
Context `{C : Crypto} {T : Type}.

Lemma add_served_ok (parse : bytes → result T) out value key copy :
  Forall (served_ok parse) out → NoDup (map Served.digest out) → parse (SignedGroupStatement.statement copy) = Ok value →
  key = digest (SignedGroupStatement.statement copy) →
  Forall (served_ok parse) (add_served out value key copy) ∧ NoDup (map Served.digest (add_served out value key copy)) ∧
  ∀ d, d ∈ map Served.digest (add_served out value key copy) → d = key ∨ d ∈ map Served.digest out.
Proof.
  intros Hok Hnd Hp Hk. induction out as [|held out IH]; cbn [add_served].
  - split; [|split; [apply NoDup_singleton|cbn; set_solver]]. apply Forall_singleton. split; [done|]. split; [done|].
    by intros c ->%list_elem_of_singleton.
  - apply Forall_cons in Hok as [(Hp' & Hd & Hc) Hok]. cbn in Hnd. apply NoDup_cons in Hnd as [Hnew Hnd].
    destruct (Served.digest held === key) eqn:E; bool_simpl.
    + split; [|split; [by constructor|cbn; set_solver]]. constructor; [|done]. split; [done|]. split; [done|].
      destruct (existsb _ _); [done|]. intros c [Hin| ->%list_elem_of_singleton]%elem_of_app; [by apply Hc|].
      cbn. congruence.
    + destruct (IH Hok Hnd) as (IH1 & IH2 & IH3). split; [constructor; [by split|done]|]. cbn. split; [|set_solver].
      constructor; [|done]. intros Hin. destruct (IH3 _ Hin); [done|by apply Hnew].
Qed.

Lemma byDigest_ok (parse : bytes → result T) signed out : byDigest signed parse = Ok out →
  Forall (served_ok parse) out ∧ NoDup (map Served.digest out).
Proof.
  unfold byDigest. assert (∀ out0, Forall (served_ok parse) out0 → NoDup (map Served.digest out0) →
    byDigest_loop out0 parse signed = Ok out → Forall (served_ok parse) out ∧ NoDup (map Served.digest out)) as H.
  { induction signed as [|copy signed IH]; intros out0 Hok Hnd H; [by injection H as <-|].
    cbn [byDigest_loop] in H. apply bind_ok in H as (value & Hp & H).
    destruct (add_served_ok parse out0 value _ copy Hok Hnd Hp eq_refl) as (H1 & H2 & _). by apply (IH _ H1 H2). }
  apply H; constructor.
Qed.
End served_lemmas.

(** ** The path *)

(** Consecutive rosters, each naming the digest of the one before it. *)
Fixpoint chained (path : list (Served.t Roster.t)) : Prop :=
  match path with
  | a :: (b :: _) as rest =>
      Roster.rosterVersion (Served.value b) = Roster.rosterVersion (Served.value a) + 1 ∧
      Roster.previousRosterDigest (Served.value b) = Served.digest a ∧ chained rest
  | _ => True
  end.

Lemma find_digest_Some rosters d a : find_digest rosters d = Some a → a ∈ rosters ∧ Served.digest a = d.
Proof.
  unfold find_digest. intros ([i x] & Hf & ->)%fmap_Some_1. apply list_find_Some in Hf as (Hi & Hd & _).
  split; [by eapply list_elem_of_lookup_2|done].
Qed.

Lemma walk_down_ok rosters count version at_ path out : walk_down rosters count version at_ path = Ok out →
  chained path → (∀ a, a ∈ path → a ∈ rosters) → (∀ a, at_ = Some a → a ∈ rosters) →
  (∀ b, head path = Some b → Roster.rosterVersion (Served.value b) = version + 1 ∧
    ∀ a, at_ = Some a → Roster.previousRosterDigest (Served.value b) = Served.digest a) →
  chained out ∧ (∀ a, a ∈ out → a ∈ rosters) ∧ length out = (count + length path)%nat ∧
  (∀ b, head out = Some b → (path ≠ [] ∨ count ≠ 0%nat) → Roster.rosterVersion (Served.value b) = version + 1 - Z.of_nat count).
Proof.
  revert version at_ path; induction count as [|count IH]; intros version at_ path H Hch Hin Hat Hhead.
  { injection H as <-. split; [done|]. split; [done|]. split; [done|]. intros b Hb _. destruct (Hhead b Hb) as [-> _]. lia. }
  cbn [walk_down] in H. destruct at_ as [a|]; [|done]. not_refused H Ev. bool_simpl.
  apply IH in H as (H1 & H2 & H3 & H4).
  - split; [done|]. split; [done|]. split; [cbn in H3; lia|]. intros b Hb _. rewrite (H4 b Hb) by (by left). lia.
  - destruct path as [|b path]; [done|]. cbn. destruct (Hhead b eq_refl) as [Hv Hd]. split; [lia|]. by split; [apply Hd|].
  - intros x [->|Hx]%elem_of_cons; [by apply Hat|by apply Hin].
  - intros x Hx. destruct (1 <? version); [|done]. by apply find_digest_Some in Hx as [? _].
  - intros b [= <-]. split; [lia|]. intros x Hx. destruct (1 <? version); [|done]. by apply find_digest_Some in Hx as [_ <-].
Qed.

Section path_lemmas.
Context `{C : Crypto} (groupId : string).

Lemma chained_linked path previous : chained path → Forall (served_ok parseRoster) path →
  (∀ a, a ∈ path → Roster.groupId (Served.value a) = groupId) →
  (∀ a, head path = Some a → linked previous (Served.value a)) → linked_path groupId previous path.
Proof.
  revert previous; induction path as [|a path IH]; intros previous Hch Hok Hg Hl; [done|].
  apply Forall_cons in Hok as [Hok Hrest]. cbn [linked_path]. split; [done|]. split; [apply Hg; by left|].
  split; [by apply Hl|]. intros dropped. apply IH.
  - destruct path; [done|]. by destruct Hch as (_ & _ & ?).
  - done.
  - intros; apply Hg; by right.
  - intros b Hb. destruct path as [|b' path]; [done|]. injection Hb as ->. destruct Hch as (Hv & Hd & _). cbn. by split.
Qed.

(** The roster the path continues: the cache's last, or none. *)
Definition below (path : Path.t) : option Held.t :=
  (λ c, Held.Build_t (Cached.roster c) (Cached.statement c) (default "" (last (Cached.rosterDigests c)))
    (Cached.droppedHolder c)) <$> Path.extending path.

Lemma foldl_max_le b l : b ≤ foldl Z.max b l ∧ ∀ x, x ∈ l → x ≤ foldl Z.max b l.
Proof.
  revert b; induction l as [|y l IH]; intros b; cbn; [split; [lia|by intros ? ?%not_elem_of_nil]|].
  destruct (IH (Z.max b y)) as [H1 H2]. split; [lia|]. intros x [->|Hx]%elem_of_cons; [lia|auto].
Qed.

Lemma link_path_ok given rosters path : link_path given rosters = Ok path →
  Forall (served_ok parseRoster) rosters → (∀ a, a ∈ rosters → Roster.groupId (Served.value a) = groupId) →
  (∀ c, Given.cached given = Some c → Roster.rosterVersion (Cached.roster c) = llen (Cached.rosterDigests c) ∧
    Cached.rosterDigests c ≠ []) →
  linked_path groupId (below path) (Path.path path) ∧
  (∀ c, Path.extending path = Some c → Given.cached given = Some c) ∧
  Path.bottom path = match Path.extending path with Some c => llen (Cached.rosterDigests c) | None => 0 end ∧
  Path.head path = Path.bottom path + llen (Path.path path) ∧
  (∀ a, a ∈ Path.path path → a ∈ rosters).
Proof.
  intros H Hok Hg Hc. unfold link_path in H. cbv zeta in H.
  set (cv := match Given.cached given with Some c => llen (Cached.rosterDigests c) | None => 0 end) in *.
  set (ext := if forallb _ _ then Given.cached given else None) in *.
  set (bottom := match ext with Some _ => cv | None => 0 end) in *.
  assert (∀ c, ext = Some c → Given.cached given = Some c) as Hext by (subst ext; intros c; by destruct (forallb _ _)).
  assert (bottom = match ext with Some c => llen (Cached.rosterDigests c) | None => 0 end) as Hb.
  { subst bottom. destruct ext as [c|] eqn:E; [|done]. subst cv. by rewrite (Hext _ eq_refl). }
  assert (0 ≤ bottom) as Hb0 by (rewrite Hb; destruct ext; unfold llen; lia).
  set (h := foldl Z.max bottom _) in *. not_refused H Eh. destruct (h <=? bottom) eqn:Ehb.
  { injection H as <-. cbn. split; [done|]. split; [done|]. split; [done|]. split; [|by intros ? ?%not_elem_of_nil].
    bool_simpl. destruct (foldl_max_le bottom (map (λ at_, Roster.rosterVersion (Served.value at_)) rosters)) as [Hle _].
    fold h in Hle. change (llen (@nil (Served.t Roster.t))) with 0. lia. }
  not_refused H Etops. apply bind_ok in H as (p & Hp & H). bool_simpl.
  assert (∃ e, path = Path.Build_t e h bottom p ∧ e = ext ∧
    (∀ c first_, ext = Some c → head p = Some first_ → Some (Roster.previousRosterDigest (Served.value first_)) = last (Cached.rosterDigests c)))
    as (e & -> & -> & Hcont).
  { destruct ext as [c|]; [destruct p as [|first_ p]; [|not_refused H En; bool_simpl]|]; injection H as <-;
      eexists; (split; [done|]); (split; [done|]); intros ? ? [= ->] [= ->]; done. }
  destruct (walk_down_ok _ _ _ _ _ _ Hp) as (Hch & Hin & Hlen & Hhead).
  { done. } { by intros a ?%not_elem_of_nil. }
  { intros a Ha. destruct (filter _ rosters) as [|x l] eqn:Ef; [done|]. injection Ha as ->.
    assert (a ∈ filter (λ at_ : Served.t Roster.t, Roster.rosterVersion (Served.value at_) = h) rosters) as Hx by (rewrite Ef; by left).
    by apply list_elem_of_filter in Hx as [_ ?]. }
  { by intros b [=]. }
  cbn [Path.extending Path.path Path.bottom Path.head]. rewrite Nat.add_0_r in Hlen. split; [|split; [done|split; [done|split]]].
  - apply chained_linked; [done| | |].
    + apply Forall_forall. intros a Ha. rewrite Forall_forall in Hok. by apply Hok, Hin.
    + intros a Ha. by apply Hg, Hin.
    + intros a Ha. specialize (Hhead a Ha ltac:(right; lia)). unfold below, linked. cbn [Path.extending].
      destruct ext as [c|] eqn:Eext; cbn [fmap option_fmap option_map].
      * destruct (Hc c (Hext c eq_refl)) as [Hv _]. cbn [Held.roster Held.digest]. rewrite Hv, <-Hb. split; [lia|].
        specialize (Hcont c a eq_refl Ha). by rewrite <-Hcont.
      * lia.
  - unfold llen. rewrite Hlen. lia.
  - done.
Qed.
End path_lemmas.

(** ** The pass starts from a state of the specification *)

Lemma mapM_llen {A B} (f : A → result B) l k : mapM f l = Ok k → llen k = llen l.
Proof. intros H. unfold llen. by rewrite (mapM_res_length _ _ _ H). Qed.

Section start.
Context `{C : Crypto}.

Lemma checkCache_ok groupId value server c : checkCache groupId value server = Ok c →
  Roster.rosterVersion (Cached.roster c) = llen (Cached.rosterDigests c) ∧ Cached.rosterDigests c ≠ [] ∧
  length (Cached.groupKeys c) = S (length (Cached.successions c)) ∧
  parseRoster (Cached.statement c) = Ok (Cached.roster c) ∧ Roster.groupId (Cached.roster c) = groupId ∧
  last (Cached.rosterDigests c) = Some (digest (Cached.statement c)).
Proof.
  unfold checkCache. destruct value as [cache|]; [|done]. intros H. not_refused H E1. not_refused H E2.
  apply recast_ok in H. unfold check_record in H.
  apply bind_ok in H as (digests & _ & H). not_refused H E3. apply bind_ok in H as (ds & Hds & H).
  apply bind_ok in H as (text & _ & H). apply bind_ok in H as (st & _ & H). apply bind_ok in H as (r & Hr & H).
  not_refused H E4. apply bind_ok in H as (d & _ & H). apply bind_ok in H as (ks & _ & H).
  apply bind_ok in H as (keys & Hkeys & H). not_refused H E5. apply bind_ok in H as (ss & _ & H). not_refused H E6.
  apply bind_ok in H as (succs & Hsuccs & H). not_refused H E7. apply bind_ok in H as (cr & _ & H).
  apply bind_ok in H as (hi & _ & H). apply bind_ok in H as (kh & _ & H).
  apply bind_ok in H as ([[ak ar] rt] & _ & H). apply bind_ok in H as (w & _ & H). apply bind_ok in H as (ow & _ & H).
  not_refused H E8. injection H as <-. cbn [Cached.roster Cached.rosterDigests Cached.groupKeys Cached.successions
    Cached.statement]. apply orb_false_iff in E4 as [E4 E4c]. apply orb_false_iff in E4 as [E4a E4b]. bool_simpl.
  split; [done|]. apply mapM_llen in Hds, Hsuccs. rewrite <-Hds in E3. rewrite <-Hsuccs in E6.
  pose proof (parseRoster_wf _ _ Hr) as (_ & Hgkv & _). split; [by intros ->|]. split; [unfold llen in *; lia|].
  split; [done|]. split; [done|]. symmetry. done.
Qed.

(** The chain a record stands for, as far as the pass needs it. *)
Definition record_chain (c : Cached.t) : Chain.t :=
  Chain.Build_t (Cached.groupKeys c) (map Verified.lastRosterVersion (Cached.successions c))
    [Held.Build_t (Cached.roster c) (Cached.statement c) (default "" (last (Cached.rosterDigests c))) (Cached.droppedHolder c)]
    (ledgerOf (Cached.areaKeys c) (Cached.areaRoots c) (list_to_set (Cached.retiredAreas c))).

Definition chain_below (input : Accepting.t) (path : Path.t) : Chain.t :=
  match Path.extending path with Some c => record_chain c | None => start (Accepting.firstKeys input) end.

Lemma verified_from_lookup l i m v : (∀ w, i ≤ w → m !! w = None) →
  verified_from i l m !! v = if v <? i then m !! v else l !! Z.to_nat (v - i).
Proof.
  revert i m; induction l as [|at_ l IH]; intros i m Hm; cbn [verified_from].
  - destruct (v <? i) eqn:E; [done|]. bool_simpl. rewrite lookup_nil. by apply Hm.
  - rewrite IH.
    + destruct (v <? i) eqn:E1, (v <? i + 1) eqn:E2; bool_simpl; try lia.
      * rewrite lookup_insert_ne by lia. done.
      * assert (v = i) as -> by lia. rewrite lookup_insert_eq, Z.sub_diag. done.
      * replace (Z.to_nat (v - i)) with (S (Z.to_nat (v - (i + 1)))) by lia. done.
    + intros w Hw. rewrite lookup_insert_ne by lia. apply Hm. lia.
Qed.

Lemma add_candidates_ok l m : (∀ v k x, m !! v = Some k → x ∈ k → GroupKeySuccession.oldVersion (Served.value x) = v) →
  (∀ v k x, foldl add_candidate m l !! v = Some k → x ∈ k →
    GroupKeySuccession.oldVersion (Served.value x) = v ∧ (x ∈ l ∨ ∃ k', m !! v = Some k' ∧ x ∈ k')).
Proof.
  revert m; induction l as [|at_ l IH]; intros m Hm v k x Hk Hx; [split; [by eapply Hm|right; eauto]|].
  cbn [foldl] in Hk.
  assert (∀ w k y, add_candidate m at_ !! w = Some k → y ∈ k → GroupKeySuccession.oldVersion (Served.value y) = w ∧
    (y = at_ ∨ ∃ k', m !! w = Some k' ∧ y ∈ k')) as Hadd.
  { intros w k0 y Hw Hy. unfold add_candidate in Hw. cbv zeta in Hw.
    destruct (decide (GroupKeySuccession.oldVersion (Served.value at_) = w)) as [<-|Hne].
    - rewrite lookup_insert_eq in Hw. injection Hw as <-. apply elem_of_app in Hy as [Hy| ->%list_elem_of_singleton]; [|eauto].
      destruct (m !! _) as [k'|] eqn:Em; cbn in Hy; [|by apply not_elem_of_nil in Hy]. split; [by eapply Hm|eauto].
    - rewrite lookup_insert_ne in Hw by done. split; [by eapply Hm|eauto]. }
  destruct (IH (add_candidate m at_) (λ w k0 y Hw Hy, proj1 (Hadd w k0 y Hw Hy)) v k x Hk Hx) as [Hv [Hin|(k' & Hk' & Hx')]].
  - split; [done|]. left. by right.
  - split; [done|]. destruct (Hadd _ _ _ Hk' Hx') as [_ [->|?]]; [left; by left|by right].
Qed.

Lemma initial_refines input given marks path successions :
  Forall (served_ok parseGroupSuccession) successions → NoDup (map Served.digest successions) →
  (∀ c, Path.extending path = Some c → length (Cached.groupKeys c) = S (length (Cached.successions c))) →
  refines (Given.groupId given) (Accepting.mlDsaKeys input) (initial_state input given marks path successions)
    (chain_below input path).
Proof.
  intros Hok Hnd Hlen. rewrite Forall_forall in Hok. unfold initial_state, stateOf, chain_below.
  assert (∀ v l x, foldl add_candidate ∅ successions !! v = Some l → x ∈ l →
    GroupKeySuccession.oldVersion (Served.value x) = v ∧ x ∈ successions) as Hcand.
  { intros v l x Hl Hx. destruct (add_candidates_ok successions ∅ ltac:(by intros ? ? ? H; rewrite lookup_empty in H) v l x Hl Hx)
      as [? [?|(? & H & _)]]; [done|by rewrite lookup_empty in H]. }
  assert (∀ x x', x ∈ successions → x' ∈ successions → Served.digest x = Served.digest x' → x = x') as Huniq.
  { intros x x' [i Hi]%list_elem_of_lookup_1 [j Hj]%list_elem_of_lookup_1 E.
    assert (i = j) as ->; [|by simplify_eq]. eapply NoDup_lookup; [exact Hnd| |]; rewrite list_lookup_fmap;
      [by rewrite Hi|by rewrite Hj; cbn; f_equal]. }
  destruct (Path.extending path) as [c|].
  - split; cbn; try done.
    + specialize (Hlen c eq_refl). by destruct (Cached.groupKeys c).
    + rewrite (Hlen c eq_refl). f_equal. symmetry. apply (length_fmap Verified.lastRosterVersion).
    + intros v. rewrite verified_from_lookup by (intros; apply lookup_empty). rewrite lookup_empty.
      destruct (v <? 1); [done|]. symmetry. apply list_lookup_fmap.
    + intros v l x Hl Hx. destruct (Hcand _ _ _ Hl Hx). auto.
    + intros v l x v' l' x' Hl Hx Hl' Hx'. apply Huniq; [exact (proj2 (Hcand _ _ _ Hl Hx))|exact (proj2 (Hcand _ _ _ Hl' Hx'))].
  - split; cbn; try done.
    + intros v. rewrite lookup_empty. by destruct (v <? 1).
    + intros v l x Hl Hx. destruct (Hcand _ _ _ Hl Hx). auto.
    + intros v l x v' l' x' Hl Hx Hl' Hx'. apply Huniq; [exact (proj2 (Hcand _ _ _ Hl Hx))|exact (proj2 (Hcand _ _ _ Hl' Hx'))].
Qed.
End start.

(** ** What acceptance proves *)

Section soundness.
Context `{C : Crypto}.

(** A chain with more rosters below the ones it holds. *)
Definition above (below : list Held.t) (c : Chain.t) : Chain.t :=
  Chain.Build_t (Chain.keys c) (Chain.ties c) (below ++ Chain.held c) (Chain.ledger c).

Lemma last_above below c : Chain.held c ≠ [] → last (below ++ Chain.held c) = last (Chain.held c).
Proof.
  intros Hne. rewrite last_app. destruct (last (Chain.held c)) eqn:E; [done|]. by apply last_None in E.
Qed.

Lemma chain_step_above groupId mlDsaKeys below c c' : Chain.held c ≠ [] → chain_step groupId mlDsaKeys c c' →
  chain_step groupId mlDsaKeys (above below c) (above below c') ∧ Chain.held c' ≠ [].
Proof.
  intros Hne H. destruct H as [c s statement copy at_ Hf|c roster statement copy key Hf].
  - split; [|done]. apply (step_key _ _ (above below c) s statement copy at_). destruct Hf. split; try done.
    cbn. apply elem_of_app. by right.
  - split; [|by intros [_ [=]]%app_nil].
    assert (above below (add_roster c roster statement) = add_roster (above below c) roster statement) as ->.
    { unfold above, add_roster, hold. cbn. rewrite last_above by done. by rewrite <-app_assoc. }
    apply (step_roster _ _ (above below c) roster statement copy key). destruct Hf.
    split; cbn; rewrite ?last_above by done; done.
Qed.

Lemma chain_steps_above groupId mlDsaKeys below c c' : Chain.held c ≠ [] → rtc (chain_step groupId mlDsaKeys) c c' →
  rtc (chain_step groupId mlDsaKeys) (above below c) (above below c').
Proof.
  intros Hne H. revert Hne. induction H as [|x y z Hxy _ IH]; intros Hne; [done|].
  destruct (chain_step_above _ _ below _ _ Hne Hxy) as [Hs Hne']. eapply rtc_l; [exact Hs|]. by apply IH.
Qed.

(** What a device keeps of a chain stands for it. *)
Record records (cached : Cached.t) (c : Chain.t) : Prop := {
  rec_keys : Chain.keys c = Cached.groupKeys cached;
  rec_ties : Chain.ties c = map Verified.lastRosterVersion (Cached.successions cached);
  rec_digests : map Held.digest (Chain.held c) = Cached.rosterDigests cached;
  rec_last : last (Chain.held c) = Some (Held.Build_t (Cached.roster cached) (Cached.statement cached)
    (default "" (last (Cached.rosterDigests cached))) (Cached.droppedHolder cached));
  rec_ledger : Chain.ledger c = ledgerOf (Cached.areaKeys cached) (Cached.areaRoots cached) (list_to_set (Cached.retiredAreas cached));
}.

Lemma records_above cached c : records cached c → ∃ below, c = above below (record_chain cached).
Proof.
  intros [Hk Ht Hd Hl Hle]. destruct c as [k t h l]. cbn in *. apply last_Some in Hl as [below ->]. exists below.
  unfold above, record_chain. cbn. by subst.
Qed.

(** The body answered for a chain, by its fields that say what was verified. *)
Record body_of (c : Chain.t) (body : Body.t) : Prop := {
  bo_keys : Body.groupKeys body = Chain.keys c;
  bo_version : Body.groupKeyVersion body = llen (Chain.keys c);
  bo_key : last (Chain.keys c) = Some (Body.groupKey body);
  bo_digests : Body.rosterDigests body = map Held.digest (Chain.held c);
  bo_latest : last (Chain.held c) = Some (Held.Build_t (Body.roster body) (Body.statement body) (Body.rosterDigest body)
    (Body.droppedHolder body));
  bo_kind : Body.kind body = Roster.kind (Body.roster body);
  bo_areaKeys : Body.areaKeys body = AreaLedger.keys (Chain.ledger c);
  bo_areaRoots : Body.areaRoots body = AreaLedger.roots (Chain.ledger c);
  bo_retired : list_to_set (Body.retiredAreas body) = AreaLedger.retired (Chain.ledger c);
  bo_due : Body.successionDue body = true ↔ Body.droppedHolder body = true ∧
    Chain.ties c !! Z.to_nat (Roster.groupKeyVersion (Body.roster body) - 1) ≠ Some (Roster.rosterVersion (Body.roster body));
}.

(** The versions from [1] on, in order. *)
Definition versions (n : nat) : list Z := map (λ i, Z.of_nat i + 1) (seq 0 n).

Lemma versions_sorted k n : StronglySorted Z.le (map (λ i, Z.of_nat i + 1) (seq k n)).
Proof.
  revert k; induction n as [|n IH]; intros k; cbn; constructor; [apply IH|].
  apply Forall_map, Forall_forall. intros i [? _]%elem_of_seq. lia.
Qed.

Lemma sorted_dom_versions {A} (m : gmap Z A) (n : nat) : (∀ v, is_Some (m !! v) ↔ 1 ≤ v ≤ Z.of_nat n) →
  merge_sort Z.le (elements (dom m)) = versions n.
Proof.
  intros Hm. apply (StronglySorted_unique Z.le).
  - apply StronglySorted_merge_sort; apply _.
  - apply versions_sorted.
  - rewrite merge_sort_Permutation. apply NoDup_Permutation.
    + apply NoDup_elements.
    + unfold versions. apply NoDup_fmap_2_strong; [|apply NoDup_seq]. intros; lia.
    + intros v. rewrite elem_of_elements, elem_of_dom, Hm. unfold versions. rewrite list_elem_of_fmap. split.
      * intros ?. exists (Z.to_nat (v - 1)). rewrite elem_of_seq. lia.
      * intros (i & -> & ?%elem_of_seq). lia.
Qed.

Lemma omap_versions {A B} (f : Z → option A) (g : A → B) (l : list B) k :
  (∀ i, (i < length l)%nat → g <$> f (Z.of_nat (k + i) + 1) = l !! i) →
  map g (omap f (map (λ i, Z.of_nat i + 1) (seq k (length l)))) = l.
Proof.
  revert k; induction l as [|x l IH]; intros k Hf; [done|]. cbn [length seq map omap list_omap].
  pose proof (Hf 0%nat ltac:(cbn; lia)) as H0. rewrite Nat.add_0_r in H0. cbn in H0.
  apply fmap_Some_1 in H0 as (a & -> & ->). cbn. f_equal. apply IH. intros i Hi.
  replace (S k + i)%nat with (k + S i)%nat by lia. rewrite Hf by (cbn; lia). done.
Qed.

Lemma successions_kept_ties groupId mlDsaKeys st c : refines groupId mlDsaKeys st c →
  map Verified.lastRosterVersion (successions_kept st) = Chain.ties c.
Proof.
  intros Hr. unfold successions_kept.
  rewrite (sorted_dom_versions _ (length (Chain.ties c))).
  - apply omap_versions. intros i Hi. rewrite Nat.add_0_l, (r_verified _ _ _ _ Hr).
    rewrite (proj2 (Z.ltb_ge _ _)) by lia. f_equal. lia.
  - intros v. rewrite <-(fmap_is_Some Verified.lastRosterVersion), (r_verified _ _ _ _ Hr).
    destruct (v <? 1) eqn:E; bool_simpl; [split; [by intros [? ?]|lia]|].
    rewrite lookup_lt_is_Some. lia.
Qed.

(** The stages an acceptance went through. *)
Record accepted_by (input : Accepting.t) (body : Body.t) (st : State.t) (given : Given.t) (marks : Marks.t)
    (rosters : list (Served.t Roster.t)) (firstUse : bool) (path : Path.t) (latest : Held.t) (key : GroupPublicKey.t)
    (c : Chain.t) : Prop := {
  ac_given : check_input input = Ok given;
  ac_marks : own_marks given = Ok marks;
  ac_rosters : byDigest (Accepting.rosters input) parseRoster = Ok rosters;
  ac_group a : a ∈ rosters → Roster.groupId (Served.value a) = Given.groupId given;
  ac_vouch : vouch input given marks = Ok firstUse;
  ac_path : link_path given rosters = Ok path;
  ac_extending r : Path.extending path = Some r → Given.cached given = Some r;
  ac_bottom : Path.bottom path = match Path.extending path with Some r => llen (Cached.rosterDigests r) | None => 0 end;
  ac_head : Path.head path = Path.bottom path + llen (Path.path path);
  ac_refines : refines (Given.groupId given) (Accepting.mlDsaKeys input) st c;
  ac_steps : rtc (chain_step (Given.groupId given) (Accepting.mlDsaKeys input)) (chain_below input path) c;
  ac_held : ∃ more, Chain.held c = Chain.held (chain_below input path) ++ more ∧
    Forall2 (λ h at_, Held.roster h = Served.value at_ ∧ Held.statement h = Served.statement at_ ∧
      Held.digest h = Served.digest at_) more (Path.path path);
  ac_keyMarks : State.keyMarks st = key_marks_of (Marks.keyMarkSides marks);
  ac_checked : check_marks input given marks firstUse path st = Ok tt;
  ac_latest : last (Chain.held c) = Some latest;
  ac_key : last (Chain.keys c) = Some key;
  ac_body : answer input given rosters path st latest key = Ok body;
}.

Lemma same_pass_marks st st' : same_pass st st' → State.keyMarks st' = State.keyMarks st.
Proof. by intros (_ & _ & _ & _ & _ & _ & _ & ?). Qed.

Lemma establishAll_marks fuel st st' : establishAll fuel st = Ok st' → State.keyMarks st' = State.keyMarks st.
Proof.
  revert st; induction fuel as [|fuel IH]; intros st H; [done|].
  cbn [establishAll] in H. apply bind_ok in H as ([st1 taken] & He & H).
  assert (State.keyMarks st1 = State.keyMarks st) as Hk.
  { unfold establishNext in He. apply bind_ok in He as ([st2 next] & Hn & He).
    apply nextSuccession_same_pass in Hn as [Hs _]. rewrite <-(same_pass_marks _ _ Hs).
    destruct next; injection He as <- <-; by destruct st2. }
  destruct taken; [rewrite <-Hk; by apply IH|injection H as <-; done].
Qed.

Lemma pass_marks fuel st path st' : pass fuel st path = Ok st' → State.keyMarks st' = State.keyMarks st.
Proof.
  unfold pass. intros (st1 & He & H)%bind_ok. rewrite <-(establishAll_marks _ _ _ He). clear He.
  revert st1 H; induction path as [|at_ path IH]; intros st1 H; [by injection H as <-|].
  cbn [pass_path] in H. apply bind_ok in H as (st2 & Hs & H). rewrite (IH _ H). unfold pass_step in Hs. cbv zeta in Hs.
  apply bind_ok in Hs as (_ & _ & Hs). rewrite (establishAll_marks _ _ _ Hs). by destruct st1.
Qed.

Lemma check_input_cached input given c : check_input input = Ok given → Given.cached given = Some c →
  ∃ raw, Accepting.cache input = Some raw ∧ checkCache (Given.groupId given) raw (Accepting.server input) = Ok c.
Proof.
  unfold check_input. intros (g & Hg & H)%bind_ok Hc. apply bind_ok in H as (pins & _ & H).
  apply bind_ok in H as (cached & Hcached & H). apply bind_ok in H as (jm & _ & H). apply bind_ok in H as (pm & _ & H).
  not_refused H E1. not_refused H E2. injection H as <-. cbn in *. subst cached.
  destruct (Accepting.cache input) as [raw|]; [|done]. apply bind_ok in Hcached as (c' & Hok & [= ->]). by exists raw.
Qed.

Lemma accept_inv input body st : accept input = Ok (body, st) →
  ∃ given marks rosters firstUse path latest key c, accepted_by input body st given marks rosters firstUse path latest key c.
Proof.
  unfold accept. intros H. apply bind_ok in H as (given & Hgiven%lift_ok & H). apply bind_ok in H as (marks & Hmarks & H).
  apply bind_ok in H as (rosters & Hros%lift_ok & H). not_refused H Eg.
  apply bind_ok in H as (succs & Hsuccs%lift_ok & H). apply bind_ok in H as (firstUse & Hvouch%lift_ok & H).
  apply bind_ok in H as (path & Hpath%lift_ok & H). cbv zeta in H. apply bind_ok in H as (st1 & Hpass & H).
  apply bind_ok in H as ([] & Hchecked & H).
  assert (∀ a, a ∈ rosters → Roster.groupId (Served.value a) = Given.groupId given) as Hgroup.
  { intros a Ha. apply not_true_iff_false in Eg.
    destruct (decide (Roster.groupId (Served.value a) = Given.groupId given)) as [|Hne]; [done|].
    exfalso. apply Eg, existsb_exists. exists a. split; [by apply list_elem_of_In|]. by rewrite bool_decide_eq_false_2. }
  destruct (byDigest_ok _ _ _ Hros) as [Hrok _]. destruct (byDigest_ok _ _ _ Hsuccs) as [Hsok Hsnd].
  assert (∀ c, Given.cached given = Some c → ∃ raw, checkCache (Given.groupId given) raw (Accepting.server input) = Ok c) as Hcache.
  { intros c Hc. destruct (check_input_cached _ _ _ Hgiven Hc) as (raw & _ & ?). by exists raw. }
  destruct (link_path_ok (Given.groupId given) _ _ _ Hpath Hrok Hgroup) as (Hlinked & Hext & Hbottom & Hhead & _).
  { intros c Hc. destruct (Hcache c Hc) as (raw & (? & ? & _)%checkCache_ok). done. }
  pose proof (initial_refines input given marks path succs Hsok Hsnd) as Hinit.
  assert (refines (Given.groupId given) (Accepting.mlDsaKeys input) (initial_state input given marks path succs)
    (chain_below input path)) as Hinit'.
  { apply Hinit. intros c Hc. destruct (Hcache c (Hext c Hc)) as (raw & (_ & _ & ? & _)%checkCache_ok). done. }
  pose proof (pass_marks _ _ _ _ Hpass) as Hkm. unfold pass in Hpass. apply bind_ok in Hpass as (st0 & He & Hpass).
  destruct (establishAll_refines _ _ _ _ _ _ Hinit' He) as (c0 & Hr0 & Hsteps0 & Hh0 & _).
  assert (last (Chain.held c0) = below path) as Hbelow.
  { rewrite Hh0. unfold chain_below, below. by destruct (Path.extending path). }
  destruct (pass_path_refines _ _ _ _ _ _ _ Hr0 ltac:(by rewrite Hbelow) Hpass) as (c & more & Hr & Hsteps & Hh & Hf).
  destruct (last (State.held st1)) as [latest|] eqn:El; [|done]. destruct (last (State.keys st1)) as [key|] eqn:Ek; [|done].
  apply bind_ok in H as (b & Hb%lift_ok & [= <- <-]).
  exists given, marks, rosters, firstUse, path, latest, key, c. split; try done.
  - by etrans.
  - exists more. by rewrite Hh, Hh0.
  - by rewrite <-(r_held _ _ _ _ Hr).
  - by rewrite <-(r_keys _ _ _ _ Hr).
Qed.

Lemma retired_sorted (r : gset string) : list_to_set (sort_strings (elements r)) = r.
Proof.
  apply set_eq. intros x. unfold sort_strings.
  rewrite elem_of_list_to_set, (merge_sort_Permutation String.le (elements r)). apply elem_of_elements.
Qed.

Lemma last_map {A B} (f : A → B) (l : list A) : last (map f l) = f <$> last l.
Proof. apply fmap_last. Qed.

(** What the answer says of the chain [above below c], and the record it keeps of it. *)
Lemma answer_ok input body st given marks rosters firstUse path latest key c below first :
  accepted_by input body st given marks rosters firstUse path latest key c →
  reachable (Given.groupId given) first (above below c) → Chain.held c ≠ [] →
  match Path.extending path with Some r => Cached.rosterDigests r | None => [] end ++ map Served.digest (Path.path path) =
    map Held.digest (below ++ Chain.held c) →
  body_of (above below c) body ∧
  ∃ kept, Body.cache body = raw_cache (Given.groupId given) kept ∧ records kept (above below c).
Proof.
  intros Ha Hreach Hne Hdig. pose proof (ac_body _ _ _ _ _ _ _ _ _ _ _ Ha) as Hb. unfold answer in Hb. cbv zeta in Hb.
  rewrite Hdig in Hb. apply bind_ok in Hb as (d & _ & Hb). set (kept := Cached.Build_t _ _ _ _ _ _ _ _ _ _ _ _) in Hb.
  injection Hb as <-. pose proof (ac_refines _ _ _ _ _ _ _ _ _ _ _ Ha) as Hr.
  pose proof (ac_latest _ _ _ _ _ _ _ _ _ _ _ Ha) as Hl. pose proof (ac_key _ _ _ _ _ _ _ _ _ _ _ Ha) as Hkey.
  assert (last (below ++ Chain.held c) = Some latest) as Hlast by (by rewrite last_above).
  pose proof (reachable_inv _ _ _ Hreach) as Hinv. pose proof (folded_wf _ _ (ci_folded _ _ _ Hinv)) as Hwf. cbn in Hwf.
  split.
  - split; cbn; rewrite ?(r_keys _ _ _ _ Hr), ?(r_areas _ _ _ _ Hr); try done.
    + rewrite Hlast. by destruct latest.
    + apply retired_sorted.
    + rewrite andb_true_iff, negb_true_iff. pose proof (r_verified _ _ _ _ Hr (Roster.groupKeyVersion (Held.roster latest))) as Hv.
      assert (1 ≤ Roster.groupKeyVersion (Held.roster latest)) as Hg.
      { apply (ci_under _ _ _ Hinv). cbn. rewrite last_lookup in Hlast. by eapply list_elem_of_lookup_2. }
      rewrite (proj2 (Z.ltb_ge _ _)) in Hv by lia. destruct (State.verified st !! _) as [out|]; cbn in Hv; rewrite <-Hv.
      * rewrite Z.eqb_neq. split; intros [? Hn]; (split; [done|congruence]).
      * split; intros [? _]; (split; [done|discriminate || done]).
  - exists kept. split; [done|]. subst kept. split; cbn; rewrite ?(r_keys _ _ _ _ Hr), ?(r_areas _ _ _ _ Hr); try done.
    + symmetry. by eapply successions_kept_ties.
    + rewrite Hlast, last_map, Hlast. by destruct latest.
    + rewrite retired_sorted. symmetry. by apply ledgerOf_wf.
Qed.

Lemma path_digests more path : Forall2 (λ h at_, Held.roster h = Served.value at_ ∧ Held.statement h = Served.statement at_ ∧
  Held.digest h = Served.digest at_) more path → map Held.digest more = map Served.digest path.
Proof. induction 1 as [|h at_ more path (_ & _ & E) _ IH]; [done|]. cbn. by rewrite E, IH. Qed.
End soundness.

(** The chain behind an answer. *)
Lemma accept_chain `{C : Crypto} input body st first before :
  accept input = Ok (body, st) →
  (∀ raw cached, Accepting.cache input = Some raw →
    checkCache (Body.groupId body) raw (Accepting.server input) = Ok cached →
    records cached before ∧ reachable (Body.groupId body) first before) →
  ∃ key c, (key = Accepting.firstKeys input ∨ (Accepting.cache input ≠ None ∧ key = first)) ∧
    reachable (Body.groupId body) key c ∧ body_of c body ∧
    ∃ kept, Body.cache body = raw_cache (Body.groupId body) kept ∧ records kept c.
Proof.
  intros H Hbefore. destruct (accept_inv _ _ _ H) as (given & marks & rosters & firstUse & path & latest & key & c & Ha).
  assert (Body.groupId body = Given.groupId given) as Hg.
  { pose proof (ac_body _ _ _ _ _ _ _ _ _ _ _ Ha) as Hb. unfold answer in Hb. cbv zeta in Hb.
    apply bind_ok in Hb as (d & _ & [= <-]). done. }
  rewrite Hg in *. destruct (ac_held _ _ _ _ _ _ _ _ _ _ _ Ha) as (more & Hheld & Hmore).
  pose proof (ac_steps _ _ _ _ _ _ _ _ _ _ _ Ha) as Hsteps. pose proof (ac_latest _ _ _ _ _ _ _ _ _ _ _ Ha) as Hlatest.
  assert (Chain.held c ≠ []) as Hne by (by intros E; rewrite E in Hlatest).
  unfold chain_below in *. destruct (Path.extending path) as [r|] eqn:Eext.
  - destruct (check_input_cached _ _ _ (ac_given _ _ _ _ _ _ _ _ _ _ _ Ha) (ac_extending _ _ _ _ _ _ _ _ _ _ _ Ha r Eext))
      as (raw & Hraw & Hok). destruct (Hbefore raw r Hraw Hok) as [Hrec Hreach].
    destruct (records_above _ _ Hrec) as [below ->].
    assert (reachable (Given.groupId given) first (above below c)) as Hc.
    { unfold reachable in *. etrans; [exact Hreach|]. eapply rtc_grows. by apply chain_steps_above. }
    destruct (answer_ok _ _ _ _ _ _ _ _ _ _ _ below first Ha Hc Hne) as [Hbody Hkept].
    { rewrite Eext, <-(path_digests _ _ Hmore), <-(rec_digests _ _ Hrec), Hheld. unfold above.
      cbn [Chain.held]. rewrite !map_app, app_assoc. done. }
    exists first, (above below c). split; [right; split; [by rewrite Hraw|done]|done].
  - assert (above [] c = c) as Eabove by (by destruct c).
    assert (reachable (Given.groupId given) (Accepting.firstKeys input) (above [] c)) as Hc.
    { rewrite Eabove. eapply rtc_grows. exact Hsteps. }
    destruct (answer_ok _ _ _ _ _ _ _ _ _ _ _ [] _ Ha Hc Hne) as [Hbody Hkept].
    { rewrite Eext, <-(path_digests _ _ Hmore), Hheld. done. }
    exists (Accepting.firstKeys input), (above [] c). split; [by left|done].
Qed.

(** ** Marks *)

Lemma merge_side_digests merged side d :
  d ∈ map MarkSide.digest (merge_side merged side) ↔ d ∈ map MarkSide.digest merged ∨ d = MarkSide.digest side.
Proof.
  induction merged as [|held merged IH]; cbn; [set_solver|].
  destruct (MarkSide.digest held === MarkSide.digest side) eqn:E; bool_simpl; cbn; [rewrite E; set_solver|].
  rewrite !elem_of_cons, IH. set_solver.
Qed.

Lemma merge_sides_digests all merged d :
  d ∈ map MarkSide.digest (foldl merge_side merged all) ↔ d ∈ map MarkSide.digest merged ∨ d ∈ map MarkSide.digest all.
Proof.
  revert merged; induction all as [|side all IH]; intros merged; cbn; [set_solver|].
  rewrite IH, merge_side_digests. set_solver.
Qed.

Lemma sides_digests all d : d ∈ map MarkSide.digest (sides all) ↔ d ∈ map MarkSide.digest all.
Proof.
  unfold sides. rewrite (fmap_Permutation MarkSide.digest _ _ (merge_sort_Permutation side_le _) : map _ _ ≡ₚ map _ _).
  rewrite merge_sides_digests. cbn. set_solver.
Qed.

(** No conflict: every side names one digest. *)
Lemma conflict_ok about version all : conflict about version all = Ok tt →
  ∀ a b, a ∈ all → b ∈ all → MarkSide.digest a = MarkSide.digest b.
Proof.
  unfold conflict. cbv zeta. intros H a b Ha Hb. not_refused H E. bool_simpl.
  pose proof (proj2 (sides_digests all _) (list_elem_of_fmap_2 MarkSide.digest _ _ Ha)) as Ha'.
  pose proof (proj2 (sides_digests all _) (list_elem_of_fmap_2 MarkSide.digest _ _ Hb)) as Hb'.
  destruct (sides all) as [|x [|y l]]; cbn in *.
  - by apply not_elem_of_nil in Ha'.
  - apply list_elem_of_singleton in Ha', Hb'. congruence.
  - unfold llen in E. cbn in E. lia.
Qed.

(** A mark at a version that names a digest. *)
Definition marked (m : marks_map) (version : Z) (d : string) : Prop :=
  ∃ side, side ∈ default [] (m !! version) ∧ MarkSide.digest side = d.

Lemma add_mark_marked m v side w d : marked (add_mark m v side) w d ↔ marked m w d ∨ (w = v ∧ d = MarkSide.digest side).
Proof.
  unfold marked, add_mark. destruct (decide (v = w)) as [<-|Hne].
  - rewrite lookup_insert_eq. cbn. split.
    + intros (x & [Hx| ->%list_elem_of_singleton]%elem_of_app & <-); [left; eauto|by right].
    + intros [(x & Hx & <-)|[_ ->]]; [exists x|exists side]; rewrite elem_of_app, list_elem_of_singleton; auto.
  - rewrite lookup_insert_ne by done. naive_solver.
Qed.

Lemma marked_dom m v d : marked m v d → v ∈ dom m.
Proof. intros (x & Hx & _). apply elem_of_dom. destruct (m !! v); [by eexists|by apply not_elem_of_nil in Hx]. Qed.

Section marks.
Context `{C : Crypto}.

Lemma pin_marks_fold pins marks :
  let marks' := foldl pin_marks marks pins in
  (∀ v d, marked (Marks.rosterMarks marks) v d → marked (Marks.rosterMarks marks') v d) ∧
  (∀ v d, marked (Marks.keyMarkSides marks) v d → marked (Marks.keyMarkSides marks') v d) ∧
  (∀ s, s ∈ Marks.firstMarks marks → s ∈ Marks.firstMarks marks') ∧
  ∀ pin, pin ∈ pins → marked (Marks.rosterMarks marks') (GroupPin.rosterVersion pin) (GroupPin.rosterDigest pin) ∧
    marked (Marks.keyMarkSides marks') (GroupPin.keyVersion pin) (GroupPin.groupKeyDigest pin) ∧
    ∃ s, s ∈ Marks.firstMarks marks' ∧
      MarkSide.digest s = firstKeysMark (GroupPin.firstEd25519PublicKey pin) (Some (GroupPin.firstMlDsaPublicKeyDigest pin)).
Proof.
  cbv zeta. revert marks; induction pins as [|pin pins IH]; intros marks;
    [split_and!; try done; by intros ? ?%not_elem_of_nil|]. cbn [foldl].
  destruct (IH (pin_marks marks pin)) as (H1 & H2 & H3 & H4). split_and!.
  - intros v d Hm. apply H1. cbn. apply add_mark_marked. by left.
  - intros v d Hm. apply H2. cbn. apply add_mark_marked. by left.
  - intros s Hs. apply H3. cbn. apply elem_of_app. by left.
  - intros p [->|Hp]%elem_of_cons; [|by apply H4]. split_and!.
    + apply H1. cbn. apply add_mark_marked. by right.
    + apply H2. cbn. apply add_mark_marked. by right.
    + eexists. split; [apply H3; cbn; apply elem_of_app; right; by apply list_elem_of_singleton|done].
Qed.

Lemma cache_roster_marks_keeps cached m v d : marked m v d → marked (cache_roster_marks cached m) v d.
Proof.
  unfold cache_roster_marks. generalize (imap pair (Cached.rosterDigests cached)) as l. intros l. revert m.
  induction l as [|[i x] l IH]; intros m Hm; [done|]. cbn [foldl]. apply IH, add_mark_marked. by left.
Qed.

Lemma cache_key_marks_keeps cached m index keys m' v d : cache_key_marks cached m index keys = Ok m' →
  marked m v d → marked m' v d.
Proof.
  revert m index; induction keys as [|key keys IH]; intros m index H Hm; [by injection H as <-|].
  cbn [cache_key_marks] in H. apply bind_ok in H as (x & _ & H). cbv zeta in H. eapply IH; [exact H|].
  apply add_mark_marked. by left.
Qed.

Lemma agree_ok about m : agree about m = Ok tt → ∀ v d d', marked m v d → marked m v d' → d = d'.
Proof.
  unfold agree. intros (l & Hl%mapM_ok & _)%bind_ok v d d' Hd Hd'.
  assert (v ∈ sorted_versions m) as Hv.
  { unfold sorted_versions. rewrite (merge_sort_Permutation Z.le _). by eapply elem_of_elements, marked_dom. }
  apply list_elem_of_lookup_1 in Hv as [i Hi]. destruct (Forall2_lookup_l _ _ _ _ _ Hl Hi) as ([] & _ & Hc).
  destruct Hd as (a & Ha & <-), Hd' as (b & Hb & <-). by eapply conflict_ok.
Qed.

(** The marks a pin leaves, which all agree. *)
Lemma own_marks_pin given marks pin : own_marks given = Ok marks → pin ∈ Given.pins given →
  marked (Marks.rosterMarks marks) (GroupPin.rosterVersion pin) (GroupPin.rosterDigest pin) ∧
  marked (Marks.keyMarkSides marks) (GroupPin.keyVersion pin) (GroupPin.groupKeyDigest pin) ∧
  (∀ s, head (Marks.firstMarks marks) = Some s →
    MarkSide.digest s = firstKeysMark (GroupPin.firstEd25519PublicKey pin) (Some (GroupPin.firstMlDsaPublicKeyDigest pin))) ∧
  Marks.firstMarks marks ≠ [].
Proof.
  unfold own_marks. cbv zeta. intros (m & Hm & H)%bind_ok Hpin. apply bind_ok in H as ([] & Hfirst & H).
  apply bind_ok in H as ([] & _ & H). apply bind_ok in H as ([] & _ & [= <-]).
  destruct (pin_marks_fold (Given.pins given) NO_MARKS) as (_ & _ & _ & Hp). destruct (Hp pin Hpin) as (H1 & H2 & s & Hs & Hsd).
  clear Hp. assert (marked (Marks.rosterMarks m) (GroupPin.rosterVersion pin) (GroupPin.rosterDigest pin) ∧
    marked (Marks.keyMarkSides m) (GroupPin.keyVersion pin) (GroupPin.groupKeyDigest pin) ∧ s ∈ Marks.firstMarks m) as (H1' & H2' & H3').
  { destruct (Given.cached given) as [cached|]; [|injection Hm as <-; done]. apply lift_ok in Hm. unfold cache_marks in Hm.
    apply bind_ok in Hm as (km & Hkm & [= <-]). cbn. split; [by apply cache_roster_marks_keeps|].
    split; [by eapply cache_key_marks_keeps|]. apply elem_of_app. by left. }
  split; [done|]. split; [done|]. split.
  - intros s' Hs'. rewrite <-Hsd. apply (conflict_ok _ _ _ Hfirst); [|done]. destruct (Marks.firstMarks m); [done|].
    injection Hs' as ->. by left.
  - intros E. rewrite E in H3'. by apply not_elem_of_nil in H3'.
Qed.

Lemma key_marks_digest m v mark d : (∀ d d', marked m v d → marked m v d' → d = d') → key_marks_of m !! v = Some mark →
  marked m v d → MarkSide.digest mark = d.
Proof.
  unfold key_marks_of. rewrite lookup_omap. intros Hag Hk Hd. destruct (m !! v) as [all|] eqn:E; [|done].
  cbn in Hk. assert (MarkSide.digest mark ∈ map MarkSide.digest (sides all)) as Hin.
  { destruct (sides all); [done|]. injection Hk as ->. by left. }
  apply (proj1 (sides_digests all _)), list_elem_of_fmap in Hin as (a & -> & Ha). apply Hag; [|done]. exists a. rewrite E. split; [exact Ha|done].
Qed.

Lemma key_marks_dom m v d : marked m v d → is_Some (key_marks_of m !! v).
Proof.
  intros (a & Ha & _). unfold key_marks_of. rewrite lookup_omap. destruct (m !! v) as [all|]; [|by apply not_elem_of_nil in Ha].
  cbn in *. pose proof (proj2 (sides_digests all _) (list_elem_of_fmap_2 MarkSide.digest _ _ Ha)) as H.
  destruct (sides all); [by apply not_elem_of_nil in H|by eexists].
Qed.

Lemma check_roster_marks_ok st path marks v d : check_roster_marks st path marks = Ok tt →
  marked (Marks.rosterMarks marks) v d → v ≤ Path.head path ∧ chain_digest path v = d.
Proof.
  unfold check_roster_marks. cbv zeta. intros (l & Hl%mapM_ok & H)%bind_ok Hm. not_refused H E.
  assert (v ∈ sorted_versions (Marks.rosterMarks marks)) as Hv.
  { unfold sorted_versions. rewrite (merge_sort_Permutation Z.le _). by eapply elem_of_elements, marked_dom. }
  assert (v ≤ Path.head path) as Hle.
  { apply not_true_iff_false in E. destruct (Z.le_gt_cases v (Path.head path)); [done|]. exfalso. apply E, existsb_exists.
    exists v. split; [by apply list_elem_of_In|by apply Z.ltb_lt]. }
  split; [done|]. assert (v ∈ filter (λ v, v ≤ Path.head path) (sorted_versions (Marks.rosterMarks marks))) as Hf
    by (by apply list_elem_of_filter).
  apply list_elem_of_lookup_1 in Hf as [i Hi]. destruct (Forall2_lookup_l _ _ _ _ _ Hl Hi) as ([] & _ & Hc).
  destruct Hm as (a & Ha & <-).
  apply (conflict_ok _ _ _ Hc (signed_side st (MarkSide.Build_t (chain_digest path v) [from_served] None)) (signed_side st a)).
  - apply elem_of_app. right. by left.
  - apply elem_of_app. left. by apply list_elem_of_fmap_2.
Qed.

Lemma check_key_marks_ok st marks v d : check_key_marks st marks = Ok tt →
  State.keyMarks st = key_marks_of (Marks.keyMarkSides marks) →
  (∀ v d d', marked (Marks.keyMarkSides marks) v d → marked (Marks.keyMarkSides marks) v d' → d = d') →
  1 ≤ v → marked (Marks.keyMarkSides marks) v d →
  ∃ key, key_at (State.keys st) v = Some key ∧ groupKeyDigest key = Ok d.
Proof.
  unfold check_key_marks. cbv zeta. intros (l & Hl%mapM_ok & H)%bind_ok Hk Hag Hv1 Hm. not_refused H E.
  assert (v ∈ sorted_versions (Marks.keyMarkSides marks)) as Hv.
  { unfold sorted_versions. rewrite (merge_sort_Permutation Z.le _). by eapply elem_of_elements, marked_dom. }
  assert (v ≤ llen (State.keys st)) as Hle.
  { apply not_true_iff_false in E. destruct (Z.le_gt_cases v (llen (State.keys st))); [done|]. exfalso. apply E, existsb_exists.
    exists v. split; [by apply list_elem_of_In|by apply Z.ltb_lt]. }
  destruct (key_at_reached _ _ Hv1 Hle) as [key Hkey]. exists key. split; [done|].
  apply list_elem_of_lookup_1 in Hv as [i Hi]. destruct (Forall2_lookup_l _ _ _ _ _ Hl Hi) as ([] & _ & Hc).
  rewrite Hk, Hkey in Hc. destruct (key_marks_dom _ _ _ Hm) as [mark Hmark]. rewrite Hmark in Hc.
  apply bind_ok in Hc as (kd & Hkd%lift_ok & Hc). rewrite Hkd. f_equal.
  rewrite <-(key_marks_digest _ _ _ _ (Hag v) Hmark Hm).
  symmetry. exact (conflict_ok _ _ _ Hc _ _ (list_elem_of_here _ _) (list_elem_of_further _ _ _ (list_elem_of_here _ _))).
Qed.
End marks.

(** ** The marks of an accepted chain *)

Section accepted_marks.
Context `{C : Crypto}.

(** The chain's digest at a version the head reaches, as the answer lists it. *)
Lemma accepted_digest input body st given marks rosters firstUse path latest key c v :
  accepted_by input body st given marks rosters firstUse path latest key c → 1 ≤ v ≤ Path.head path →
  Body.rosterDigests body !! Z.to_nat (v - 1) = Some (chain_digest path v).
Proof.
  intros Ha Hv. pose proof (ac_body _ _ _ _ _ _ _ _ _ _ _ Ha) as Hb. unfold answer in Hb. cbv zeta in Hb.
  apply bind_ok in Hb as (d & _ & [= <-]). cbn. pose proof (ac_head _ _ _ _ _ _ _ _ _ _ _ Ha) as Hh.
  pose proof (ac_bottom _ _ _ _ _ _ _ _ _ _ _ Ha) as Hbot. unfold chain_digest, llen in *.
  destruct (v <=? Path.bottom path) eqn:E; bool_simpl.
  - destruct (Path.extending path) as [r|]; [|lia]. rewrite lookup_app_l by lia.
    destruct (Cached.rosterDigests r !! _) eqn:El; [done|]. apply lookup_ge_None in El. lia.
  - assert (Z.of_nat (length (match Path.extending path with Some r => Cached.rosterDigests r | None => [] end)) = Path.bottom path)
      as Hlen by (rewrite Hbot; by destruct (Path.extending path)).
    rewrite lookup_app_r by lia. rewrite (list_lookup_fmap Served.digest _ _ : map _ _ !! _ = _).
    replace (Z.to_nat (v - 1) - _)%nat with (Z.to_nat (v - Path.bottom path - 1)) by lia.
    destruct (Path.path path !! _) eqn:El; [done|]. apply lookup_ge_None in El. lia.
Qed.

Lemma groupKeyDigest_empty d : groupKeyDigest (GroupPublicKey.Build_t "" "") ≠ Ok d.
Proof. done. Qed.

Lemma code_input_key d key v b : code_input d key v = Ok b → ∃ kd, groupKeyDigest key = Ok kd.
Proof.
  unfold code_input. intros (a & _ & H)%bind_ok. apply bind_ok in H as (x & _ & H). apply bind_ok in H as (kd & Hk & _). eauto.
Qed.

(** A code that was compared is the chain's at its version. *)
Lemma check_code_ok st path source version compared code_of : check_code st path source version compared code_of = Ok tt →
  (∀ d v, is_ok (code_of d (GroupPublicKey.Build_t "" "") v) = false) →
  version ≤ Path.head path ∧ ∃ key code, key_at (State.keys st) (keyVersionAt (state_ties st) version) = Some key ∧
    code_of (chain_digest path version) key (keyVersionAt (state_ties st) version) = Ok code ∧
    words_join code = words_join compared.
Proof.
  unfold check_code. intros H Hempty. not_refused H E. bool_simpl. cbv zeta in H. unfold key_under in H. cbv zeta in H.
  apply bind_ok in H as (code & Hc%lift_ok & H). destruct (words_join code === words_join compared) eqn:Ej; [|done].
  bool_simpl. split; [done|]. destruct (key_at (State.keys st) _) as [key|] eqn:Ek; [by exists key, code|].
  cbn in Hc. pose proof (Hempty (chain_digest path version) (keyVersionAt (state_ties st) version)) as He. by rewrite Hc in He.
Qed.

Lemma joinCode_empty d v : is_ok (joinCode d (GroupPublicKey.Build_t "" "") v) = false.
Proof.
  unfold joinCode. destruct (code_input _ _ _) as [b|] eqn:E; [|done]. apply code_input_key in E as [kd Hk].
  by apply groupKeyDigest_empty in Hk.
Qed.
Lemma pairCodeOf_empty d v a b : is_ok (pairCodeOf d (GroupPublicKey.Build_t "" "") v a b) = false.
Proof.
  unfold pairCodeOf. destruct (uuid (JStr a) _); [|done]. cbn [mbind res_bind]. destruct (uuid (JStr b) _); [|done].
  cbn [mbind res_bind]. destruct (_ === _); [done|]. destruct (code_input _ _ _) as [x|] eqn:E; [|done].
  apply code_input_key in E as [kd Hk]. by apply groupKeyDigest_empty in Hk.
Qed.

Lemma checkGroupPin_versions groupId raw pin : checkGroupPin groupId raw = Ok pin →
  1 ≤ GroupPin.rosterVersion pin ∧ 1 ≤ GroupPin.keyVersion pin.
Proof.
  unfold checkGroupPin. intros (g & _ & H)%bind_ok. destruct raw as [raw|]; [|done].
  apply bind_ok in H as (t & _ & H). destruct (RawGroupPin.areas raw); [|done].
  do 4 (apply bind_ok in H as (? & _ & H)). apply bind_ok in H as (kv & [_ Hkv]%integer_ok & H).
  apply bind_ok in H as (? & _ & H). apply bind_ok in H as (rv & [_ Hrv]%integer_ok & H).
  apply bind_ok in H as (? & _ & [= <-]). cbn. lia.
Qed.

Lemma check_input_marks input given : check_input input = Ok given →
  Forall2 (λ raw pin, checkGroupPin (Given.groupId given) raw = Ok pin) (Accepting.pins input) (Given.pins given) ∧
  (∀ raw mark, Accepting.joinMark input = Some raw → checkJoinMark raw = Ok mark → Given.joinMark given = Some mark) ∧
  Forall2 (λ raw mark, checkPairMark raw = Ok mark) (Accepting.pairMarks input) (Given.pairMarks given) ∧
  (Accepting.cache input = None → Given.cached given = None).
Proof.
  unfold check_input. intros (g & Hg & H)%bind_ok. apply bind_ok in H as (pins & Hp%mapM_ok & H).
  apply bind_ok in H as (cached & Hcached & H). apply bind_ok in H as (jm & Hj & H).
  apply bind_ok in H as (pm & Hpm%mapM_ok & H). not_refused H E1. not_refused H E2. injection H as <-. cbn.
  split; [done|]. split; [|split; [done|]].
  - intros raw mark Hraw Hm. rewrite Hraw, Hm in Hj. by injection Hj as <-.
  - intros Hn. rewrite Hn in Hcached. by injection Hcached as <-.
Qed.

Lemma integer_lower v w z : integer v w = Ok z → 1 ≤ z.
Proof. by intros [_ [? _]]%integer_ok. Qed.

Lemma mapM_unit_elem {E A} (f : A → res E unit) l k x : mapM f l = Ok k → x ∈ l → f x = Ok tt.
Proof.
  intros Hl%mapM_ok [i Hi]%list_elem_of_lookup_1. by destruct (Forall2_lookup_l _ _ _ _ _ Hl Hi) as ([] & _ & ?).
Qed.
End accepted_marks.

(** ** Properties *)

(** C3. What acceptance answers was verified from version 1: the chain of the
    answer is reached from a version 1 key by single steps, each a roster
    signed under a key of the chain and by a holder of the roster before it,
    or a succession signed by the key it replaces and by a holder; the answer
    says what that chain holds, and so does the record kept of it. A device
    that continues from such a record gets a chain verified from version 1
    again, from the same key. *)
Theorem accept_sound `{C : Crypto} input body st first before :
  accept input = Ok (body, st) →
  (∀ raw cached, Accepting.cache input = Some raw →
    checkCache (Body.groupId body) raw (Accepting.server input) = Ok cached →
    records cached before ∧ reachable (Body.groupId body) first before) →
  ∃ key c, (key = Accepting.firstKeys input ∨ (Accepting.cache input ≠ None ∧ key = first)) ∧
    reachable (Body.groupId body) key c ∧ body_of c body ∧
    ∃ kept, Body.cache body = raw_cache (Body.groupId body) kept ∧ records kept c.
Proof. apply accept_chain. Qed.

(** What [check_marks] passed, and the marks the person holds. *)
Ltac open_marks Ha Hroster Hj Hp Hc :=
  pose proof (ac_checked _ _ _ _ _ _ _ _ _ _ _ Ha) as Hc; unfold check_marks in Hc;
  apply bind_ok in Hc as ([] & Hroster & Hc); apply bind_ok in Hc as ([] & Hj & Hc); apply bind_ok in Hc as (? & Hp & Hc);
  let E := fresh in not_refused Hc E.
Lemma accepted_keys `{C : Crypto} input body st given marks rosters firstUse path latest key c : accepted_by input body st given marks rosters firstUse path latest key c →
  Body.groupId body = Given.groupId given ∧ Body.groupKeys body = State.keys st.
Proof.
  intros Ha. pose proof (ac_body _ _ _ _ _ _ _ _ _ _ _ Ha) as Hb. unfold answer in Hb. cbv zeta in Hb.
  apply bind_ok in Hb as (d & _ & Hb). by injection Hb as <-.
Qed.
Lemma own_marks_agree `{C : Crypto} given marks : own_marks given = Ok marks →
  ∀ v d d', marked (Marks.keyMarkSides marks) v d → marked (Marks.keyMarkSides marks) v d' → d = d'.
Proof.
  intros Hm. unfold own_marks in Hm. cbv zeta in Hm. apply bind_ok in Hm as (m & _ & Hm).
  apply bind_ok in Hm as ([] & _ & Hm). apply bind_ok in Hm as ([] & _ & Hm). apply bind_ok in Hm as ([] & Hk & [= <-]).
  intros v d d'. by eapply agree_ok.
Qed.
Lemma accepted_pins `{C : Crypto} input body st given marks rosters firstUse path latest key c : accepted_by input body st given marks rosters firstUse path latest key c →
  ∀ raw pin, raw ∈ Accepting.pins input → checkGroupPin (Body.groupId body) raw = Ok pin →
    Body.rosterDigests body !! Z.to_nat (GroupPin.rosterVersion pin - 1) = Some (GroupPin.rosterDigest pin) ∧
    (∃ key, key_at (Body.groupKeys body) (GroupPin.keyVersion pin) = Some key ∧
      groupKeyDigest key = Ok (GroupPin.groupKeyDigest pin)) ∧
    first_keys_of (Accepting.firstKeys input) =
      firstKeysMark (GroupPin.firstEd25519PublicKey pin) (Some (GroupPin.firstMlDsaPublicKeyDigest pin)).
Proof.
  intros Ha. destruct (accepted_keys _ _ _ _ _ _ _ _ _ _ _ Ha) as [Hg Hkeys]. open_marks Ha Hroster Hj Hp Hc.
  destruct (check_input_marks _ _ (ac_given _ _ _ _ _ _ _ _ _ _ _ Ha)) as (Hpins & _).
  pose proof (ac_marks _ _ _ _ _ _ _ _ _ _ _ Ha) as Hmarks. pose proof (own_marks_agree _ _ Hmarks) as Hagree.
  intros raw pin Hraw Hpin. rewrite Hg in Hpin.
  assert (pin ∈ Given.pins given) as Hin.
  { apply list_elem_of_lookup_1 in Hraw as [i Hi]. destruct (Forall2_lookup_l _ _ _ _ _ Hpins Hi) as (pin' & Hi' & Hc').
    assert (pin' = pin) as -> by congruence. by eapply list_elem_of_lookup_2. }
  destruct (own_marks_pin _ _ _ Hmarks Hin) as (Hm1 & Hm2 & Hm3 & Hne). destruct (checkGroupPin_versions _ _ _ Hpin).
  destruct (check_roster_marks_ok _ _ _ _ _ Hroster Hm1) as [Hle Hd]. split; [|split].
  + rewrite (accepted_digest _ _ _ _ _ _ _ _ _ _ _ _ Ha) by lia. by rewrite Hd.
  + rewrite Hkeys. apply (check_key_marks_ok _ marks); try done. apply (ac_keyMarks _ _ _ _ _ _ _ _ _ _ _ Ha).
  + pose proof (ac_vouch _ _ _ _ _ _ _ _ _ _ _ Ha) as Hv. unfold vouch in Hv. cbv zeta in Hv.
    destruct (Marks.firstMarks marks) as [|m ms]; [done|]. not_refused Hv Ev. bool_simpl. rewrite Ev. by apply Hm3.
Qed.
Lemma accepted_join `{C : Crypto} input body st given marks rosters firstUse path latest key c : accepted_by input body st given marks rosters firstUse path latest key c →
  ∀ raw mark, Accepting.joinMark input = Some raw → checkJoinMark raw = Ok mark →
    ∃ d v key code, Body.rosterDigests body !! Z.to_nat (JoinMark.rosterVersion mark - 1) = Some d ∧
      key_at (Body.groupKeys body) v = Some key ∧ joinCode d key v = Ok code ∧
      words_join code = words_join (JoinMark.code mark).
Proof.
  intros Ha. destruct (accepted_keys _ _ _ _ _ _ _ _ _ _ _ Ha) as [Hg Hkeys]. open_marks Ha Hroster Hj Hp Hc.
  destruct (check_input_marks _ _ (ac_given _ _ _ _ _ _ _ _ _ _ _ Ha)) as (_ & Hjoin & _).
  intros raw mark Hraw Hmark. rewrite (Hjoin _ _ Hraw Hmark) in Hj.
  apply check_code_ok in Hj as (Hle & k & code & Hk & Hcode & Hw); [|intros; apply joinCode_empty].
  exists (chain_digest path (JoinMark.rosterVersion mark)), (keyVersionAt (state_ties st) (JoinMark.rosterVersion mark)), k, code.
  rewrite Hkeys. split; [|done]. eapply accepted_digest; [done|]. split; [|done].
  unfold checkJoinMark in Hmark. destruct (RawMark.with_user raw), (twelveWords (RawMark.code raw)); try discriminate Hmark.
  apply bind_ok in Hmark as (v & Hv%integer_lower & [= <-]). done.
Qed.
Lemma accepted_pairs `{C : Crypto} input body st given marks rosters firstUse path latest key c : accepted_by input body st given marks rosters firstUse path latest key c →
  ∀ raw mark me, raw ∈ Accepting.pairMarks input → checkPairMark raw = Ok mark → Accepting.me input = Some me →
    ∃ d v key code, Body.rosterDigests body !! Z.to_nat (PairMark.rosterVersion mark - 1) = Some d ∧
      key_at (Body.groupKeys body) v = Some key ∧
      pairCodeOf d key v (Me.userId me) (PairMark.with_user mark) = Ok code ∧
      words_join code = words_join (PairMark.code mark).
Proof.
  intros Ha. destruct (accepted_keys _ _ _ _ _ _ _ _ _ _ _ Ha) as [Hg Hkeys]. open_marks Ha Hroster Hj Hp Hc.
  destruct (check_input_marks _ _ (ac_given _ _ _ _ _ _ _ _ _ _ _ Ha)) as (_ & _ & Hpairs & _).
  intros raw mark me Hraw Hmark Hme.
  assert (mark ∈ Given.pairMarks given) as Hin.
  { apply list_elem_of_lookup_1 in Hraw as [i Hi]. destruct (Forall2_lookup_l _ _ _ _ _ Hpairs Hi) as (m' & Hi' & Hc').
    assert (m' = mark) as -> by congruence. by eapply list_elem_of_lookup_2. }
  pose proof (mapM_unit_elem _ _ _ mark Hp) as Hcode. rewrite (merge_sort_Permutation pair_le _) in Hcode. specialize (Hcode Hin).
  cbv beta in Hcode. rewrite Hme in Hcode.
  apply check_code_ok in Hcode as (Hle & k & code & Hk & Hcode & Hw); [|intros; apply pairCodeOf_empty].
  exists (chain_digest path (PairMark.rosterVersion mark)), (keyVersionAt (state_ties st) (PairMark.rosterVersion mark)), k, code.
  rewrite Hkeys. split; [|done]. eapply accepted_digest; [done|]. split; [|done].
  unfold checkPairMark in Hmark. destruct (RawMark.with_user raw) as [[s| | |]|], (twelveWords (RawMark.code raw)); try discriminate Hmark.
  apply bind_ok in Hmark as (v & Hv%integer_lower & Hmark). apply bind_ok in Hmark as (w & _ & [= <-]). done.
Qed.
Lemma accepted_vouched `{C : Crypto} input body st given marks rosters firstUse path latest key c : accepted_by input body st given marks rosters firstUse path latest key c →
  Accepting.pins input = [] → Accepting.cache input = None → Accepting.anchor input ≠ None.
Proof.
  intros Ha. destruct (check_input_marks _ _ (ac_given _ _ _ _ _ _ _ _ _ _ _ Ha)) as (Hpins & _ & _ & Hnocache).
  pose proof (ac_marks _ _ _ _ _ _ _ _ _ _ _ Ha) as Hmarks.
  intros Hnp Hnc. rewrite Hnp in Hpins. inversion Hpins as [E|]. specialize (Hnocache Hnc).
  pose proof (ac_vouch _ _ _ _ _ _ _ _ _ _ _ Ha) as Hv. unfold vouch in Hv. cbv zeta in Hv.
  assert (Marks.firstMarks marks = []) as Em.
  { assert (Given.pins given = []) as Enp by done. unfold own_marks in Hmarks. rewrite Enp, Hnocache in Hmarks. cbv zeta in Hmarks. cbn in Hmarks. by injection Hmarks as <-. }
  rewrite Em in Hv. not_refused Hv Ev. intros Hanchor. by rewrite Hanchor in Ev.
Qed.

(** C4. Acceptance keeps every mark the person holds: the chain passes through
    the roster and the group key each pin names, from the version 1 keys it
    names; the join code and every pair code the person compared are the codes
    of the chain's roster at their version; and with no pin and no record an
    anchor vouched for the version 1 keys. *)
Theorem accept_marks `{C : Crypto} input body st : accept input = Ok (body, st) →
  (∀ raw pin, raw ∈ Accepting.pins input → checkGroupPin (Body.groupId body) raw = Ok pin →
    Body.rosterDigests body !! Z.to_nat (GroupPin.rosterVersion pin - 1) = Some (GroupPin.rosterDigest pin) ∧
    (∃ key, key_at (Body.groupKeys body) (GroupPin.keyVersion pin) = Some key ∧
      groupKeyDigest key = Ok (GroupPin.groupKeyDigest pin)) ∧
    first_keys_of (Accepting.firstKeys input) =
      firstKeysMark (GroupPin.firstEd25519PublicKey pin) (Some (GroupPin.firstMlDsaPublicKeyDigest pin))) ∧
  (∀ raw mark, Accepting.joinMark input = Some raw → checkJoinMark raw = Ok mark →
    ∃ d v key code, Body.rosterDigests body !! Z.to_nat (JoinMark.rosterVersion mark - 1) = Some d ∧
      key_at (Body.groupKeys body) v = Some key ∧ joinCode d key v = Ok code ∧
      words_join code = words_join (JoinMark.code mark)) ∧
  (∀ raw mark me, raw ∈ Accepting.pairMarks input → checkPairMark raw = Ok mark → Accepting.me input = Some me →
    ∃ d v key code, Body.rosterDigests body !! Z.to_nat (PairMark.rosterVersion mark - 1) = Some d ∧
      key_at (Body.groupKeys body) v = Some key ∧
      pairCodeOf d key v (Me.userId me) (PairMark.with_user mark) = Ok code ∧
      words_join code = words_join (PairMark.code mark)) ∧
  (Accepting.pins input = [] → Accepting.cache input = None → Accepting.anchor input ≠ None).
Proof.
  intros H. destruct (accept_inv _ _ _ H) as (given & marks & rosters & firstUse & path & latest & key & c & Ha).
  split_and!; [by eapply accepted_pins|by eapply accepted_join|by eapply accepted_pairs|by eapply accepted_vouched].
Qed.

(** C9. The history behind an accepted chain: its rosters are parsed from the
    statements their digests name, versions 1 to the last, one group; each is
    signed by a holder of the one before it, keeps the entry rules over it and
    never returns to an earlier group key; the roster after one that took a
    holder away is under a later key, and no group key comes twice. *)
Theorem accepted_history `{C : Crypto} input body st first before :
  accept input = Ok (body, st) →
  (∀ raw cached, Accepting.cache input = Some raw →
    checkCache (Body.groupId body) raw (Accepting.server input) = Ok cached →
    records cached before ∧ reachable (Body.groupId body) first before) →
  ∃ held, map Held.digest held = Body.rosterDigests body ∧ NoDup (Body.groupKeys body) ∧
    (∀ i h, held !! i = Some h → parseRoster (Held.statement h) = Ok (Held.roster h) ∧
      Held.digest h = digest (Held.statement h) ∧ Roster.groupId (Held.roster h) = Body.groupId body ∧
      Roster.rosterVersion (Held.roster h) = Z.of_nat i + 1) ∧
    (∀ i h h', held !! i = Some h → held !! S i = Some h' →
      checkEntries (Held.roster h) (Held.roster h') = Ok tt ∧
      Roster.previousRosterDigest (Held.roster h') = Held.digest h ∧
      activeWith (rosterEntry (Held.roster h) (Roster.signerUserId (Held.roster h'))) (Some members_role) = true ∧
      Roster.groupKeyVersion (Held.roster h) ≤ Roster.groupKeyVersion (Held.roster h') ∧
      (Held.droppedHolder h = true → Roster.groupKeyVersion (Held.roster h) < Roster.groupKeyVersion (Held.roster h'))).
Proof.
  intros H Hbefore. destruct (accept_chain _ _ _ _ _ H Hbefore) as (key & c & _ & Hreach & Hbody & _).
  pose proof (reachable_inv _ _ _ Hreach) as Hi. exists (Chain.held c). split; [by rewrite (bo_digests _ _ Hbody)|].
  split; [rewrite (bo_keys _ _ Hbody); apply (ci_nodup _ _ _ Hi)|]. split.
  - intros i h Hh. destruct (ci_parsed _ _ _ Hi h ltac:(by eapply list_elem_of_lookup_2)) as (? & ? & ?).
    pose proof (ci_version _ _ _ Hi _ _ Hh). done.
  - intros i h h' Hh Hh'. destruct (ci_next _ _ _ Hi _ _ _ Hh Hh') as ((_ & Hd & _ & He) & Hs & Hk & Hdrop & _). done.
Qed.

(** C24. The acceptance loop stops by itself: run with the fuel acceptance has,
    a pass never ends by running out of it, and any more gives the same; and
    what it took are keys after those it began with, one for each key that
    some served succession replaces and no other. *)
Theorem pass_settles `{C : Crypto} state path :
  pass (loop_fuel state) state path ≠ Err Unfinished ∧
  (∀ more, pass (loop_fuel state + more) state path = pass (loop_fuel state) state path) ∧
  ∀ state', pass (loop_fuel state) state path = Ok state' → ∃ taken, State.keys state' = State.keys state ++ taken ∧
    ∀ version, llen (State.keys state) ≤ version < llen (State.keys state') → is_Some (State.candidates state !! version).
Proof.
  split; [apply pass_ends; unfold loop_fuel; lia|]. split; [intros more; apply pass_fuel; unfold loop_fuel; lia|]. intros state' H. exact (proj2 (pass_taken _ _ _ _ H)).
Qed.

(** ** Witnesses *)

(** A family's first member list, as the device that made it accepts it. *)
Module AcceptWitness.
Definition ed : bytes := fill 32 "c".
Definition ml : bytes := fill 1952 "c".
Definition key := GroupPublicKey.Build_t (encode ed) (encode ml).
Definition mlDigest := digest (C := Toy.crypto) ml.
Definition member := Member.Build_t RosterWitness.alice 1 RosterWitness.k32 (encode ed) mlDigest RosterWitness.k32 active
  [members_role] 1.
Definition roster := Roster.Build_t RosterWitness.gid family 1 "" 1 RosterWitness.alice [member]
  [Area.Build_t RosterWitness.area 1 RosterWitness.k32 (Some RosterWitness.k32) false] format2.
Definition statement := match rosterStatement roster with Ok b => b | Err _ => "" end.
Definition signed := SignedGroupStatement.Build_t statement
  (GroupSignature.Build_t (Toy.sign 64 ed statement "") (Toy.sign 3309 ml statement GROUP_SIGNATURE_CONTEXT))
  (Toy.sign_hybrid ed ml statement).
Definition input := Accepting.Build_t RosterWitness.gid key [] [signed] [] {[ mlDigest := encode ml ]} None [] (Some created)
  None None false.
Definition outcome := match accept (C := Toy.crypto) input with Ok r => Some r | Err _ => None end.

Lemma accepts : bool_decide (is_Some outcome) = true.
Proof. vm_compute. reflexivity. Qed.
Lemma accepted : ∃ body st, accept (C := Toy.crypto) input = Ok (body, st).
Proof.
  pose proof (bool_decide_eq_true_1 _ accepts) as [[body st] H]. exists body, st. unfold outcome in H.
  destruct (accept input) as [r|]; [|discriminate H]. injection H as ->. reflexivity.
Qed.
End AcceptWitness.

Lemma accept_sound_witness : ∃ body key c,
  reachable (C := Toy.crypto) (Body.groupId body) key c ∧ body_of c body.
Proof.
  destruct AcceptWitness.accepted as (body & st & H).
  destruct (accept_sound (C := Toy.crypto) AcceptWitness.input body st AcceptWitness.key (start AcceptWitness.key) H)
    as (key & c & _ & Hreach & Hbody & _); [intros raw cached Hc; discriminate Hc|].
  exists body, key, c. split; assumption.
Defined.

Lemma accept_marks_witness : Accepting.anchor AcceptWitness.input ≠ None.
Proof.
  destruct AcceptWitness.accepted as (body & st & H).
  refine (proj2 (proj2 (proj2 (accept_marks (C := Toy.crypto) AcceptWitness.input body st H))) _ _); reflexivity.
Defined.

Lemma accepted_history_witness : ∃ body held,
  map Held.digest held = Body.rosterDigests body ∧ NoDup (Body.groupKeys body).
Proof.
  destruct AcceptWitness.accepted as (body & st & H).
  destruct (accepted_history (C := Toy.crypto) AcceptWitness.input body st AcceptWitness.key (start AcceptWitness.key) H)
    as (held & Hdigests & Hkeys & _); [intros raw cached Hc; discriminate Hc|].
  exists body, held. split; assumption.
Defined.

Definition settling : State.t := State.Build_t RosterWitness.gid ∅ [AcceptWitness.key] ∅ [] {[ 1 := [] ]} ∅ ∅ ∅ ∅ NO_LEDGER.
Lemma pass_settles_witness : ∃ state', pass (C := Toy.crypto) (loop_fuel settling) settling [] = Ok state' ∧ ∃ taken, State.keys state' = [AcceptWitness.key] ++ taken.
Proof.
  destruct (pass_settles (C := Toy.crypto) settling []) as (_ & _ & H). destruct (pass (loop_fuel settling) settling []) as [state'|] eqn:E; [|vm_compute in E; discriminate E].
  exists state'. split; [reflexivity|]. destruct (H state' eq_refl) as (taken & Ht & _). exists taken. exact Ht.
Defined.
