(* ===== verification/NextRoster.v ===== *)
(** * The next roster, made and signed (packages/crypto/src/group-trust.ts, groups.ts)

    What a holder signs: the first roster of a group, the roster after an
    accepted chain's latest, the entries that go on them, and what a reader
    writes down after an acceptance. The last part shows that a roster
    [nextRoster] builds is one every device holding the chain accepts. *)

From S2P Require Import Prelude Base64url Bytes Canonical Crypto Envelopes Signatures Roster Identity SuccessionPath Ledger Pins Chain Acceptance.

(** ** Pins and entries *)

(** A contact's pin: [keys] the fields of it that name keys. *)
Module ContactPin.
Record t := {
  userId : string; email : string; name : string; pinnedAt : string; keys : PinKeys.t; trustedVia : option string;
}.
End ContactPin.
Module Contact.
Record t := { email : string; name : string; pinnedAt : string }.
End Contact.
Module FoldedIn.
Record t := { entry : Member.t; changed : bool; needsCheck : bool }.
End FoldedIn.

Definition served_keys (identity : ServedIdentity.t) : ServedKeys.t :=
  ServedKeys.Build_t (ServedIdentity.keyVersion identity) (ServedIdentity.encryptionPublicKey identity)
    (ServedIdentity.signingPublicKey identity) (ServedIdentity.mlDsaPublicKey identity) (ServedIdentity.kemPublicKey identity).

(** [[...roles].sort()] *)
Definition role_le (a b : GroupRole) : Prop := String.le (role_text a) (role_text b).
#[export] Instance role_le_dec a b : Decision (role_le a b).
Proof. unfold role_le. apply _. Defined.
Definition sort_roles (roles : list GroupRole) : list GroupRole := merge_sort role_le roles.

Definition NOT_CHECKED_WORDS : string := "These are not the keys whose words were checked.".
Definition NOT_THIS_ACCOUNT : string := "These are not this account’s keys.".
Definition NOT_ON_LIST : string := "These are not the keys on the group’s member list.".
Definition NOT_ON_CHAIN : string := "This pin is not on the accepted member list.".

(** Who a succession leaves out: active holders the new seed was not sealed to. *)
Definition droppedHolders (roster : Roster.t) (sealedTo : list string) : list string :=
  map Member.userId (filter (λ entry, activeWith (Some entry) (Some members_role) && bool_decide (Member.userId entry ∉ sealedTo) = true)
    (Roster.members roster)).

Section entries.
Context `{C : Crypto}.

Definition pinnedOf (set : KeySet.t) : result PinnedKeys.t :=
  let* hash := digestHex (KeySet.mlDsaPublicKeyDigest set) in
  Ok (PinnedKeys.Build_t None (KeySet.encryptionPublicKey set) (KeySet.signingPublicKey set) hash).

(** A new member's entry, from keys this person's devices pinned. *)
Definition newRosterEntry (pin : ContactPin.t) (served : ServedIdentity.t) (roles : list GroupRole) (rosterVersion : Z)
    : result Member.t :=
  refuse NOT_CHECKED_WORDS when bool_decide (is_Some (ContactPin.trustedVia pin)) ;;
  let keys := ContactPin.keys pin in
  refuse NOT_CHECKED_WORDS when
    ((pinTrust keys !== verified) && (pinTrust keys !== seen)) || negb (verifyIdentityKeys (ContactPin.userId pin) served) ||
    (ServedIdentity.encryptionPublicKey served !== PinKeys.encryptionPublicKey keys) ||
    (ServedIdentity.signingPublicKey served !== PinKeys.signingPublicKey keys) ;;
  let* mlDsa := decode (ServedIdentity.mlDsaPublicKey served) (Some ML_DSA_PUBLIC_KEY_BYTES) in
  refuse NOT_CHECKED_WORDS when Some (keyDigest mlDsa) !== PinKeys.mlDsaPublicKeyHash keys ;;
  let* kem := decode (ServedIdentity.kemPublicKey served) (Some 1184) in
  refuse NOT_CHECKED_WORDS when Some (keyDigest kem) !== PinKeys.kemPublicKeyHash keys ;;
  let* mlDsaPublicKeyDigest := digestBase64url (default "" (PinKeys.mlDsaPublicKeyHash keys)) in
  let* kemPublicKeyDigest := digestBase64url (default "" (PinKeys.kemPublicKeyHash keys)) in
  Ok (Member.Build_t (ContactPin.userId pin) (ServedIdentity.keyVersion served) (ServedIdentity.encryptionPublicKey served)
    (ServedIdentity.signingPublicKey served) mlDsaPublicKeyDigest kemPublicKeyDigest active (sort_roles roles) rosterVersion).

(** The creator's own entry on roster version 1. *)
Definition ownRosterEntry (userId : string) (identity : ServedIdentity.t) (roles : list GroupRole) : result Member.t :=
  refuse NOT_THIS_ACCOUNT unless verifyIdentityKeys userId identity ;;
  let* mlDsa := decode (ServedIdentity.mlDsaPublicKey identity) (Some ML_DSA_PUBLIC_KEY_BYTES) in
  let* kem := decode (ServedIdentity.kemPublicKey identity) (Some 1184) in
  Ok (Member.Build_t userId (ServedIdentity.keyVersion identity) (ServedIdentity.encryptionPublicKey identity)
    (ServedIdentity.signingPublicKey identity) (digest mlDsa) (digest kem) active (sort_roles roles) 1).

(** An existing entry: moved to the served identity only along its member's own succession chain. *)
Definition foldInEntry (entry : Member.t) (served : ServedIdentity.t) (links : list SuccessionLink.t) (rosterVersion : Z)
    : result FoldedIn.t :=
  let unchanged needsCheck := Ok (FoldedIn.Build_t entry false needsCheck) in
  if servedIsEntry (served_keys served) entry then unchanged false
  else if negb (verifyIdentityKeys (Member.userId entry) served) then unchanged true
  else
    let* start := pinnedOf (keySetOf entry) in
    match successionPath (Member.userId entry) start (served_keys served) links None [] with
    | Path _ =>
        let* kem := decode (ServedIdentity.kemPublicKey served) (Some 1184) in
        Ok (FoldedIn.Build_t
          (Member.Build_t (Member.userId entry) (ServedIdentity.keyVersion served) (ServedIdentity.encryptionPublicKey served)
            (ServedIdentity.signingPublicKey served) (default "" (mlDsaDigest (ServedIdentity.mlDsaPublicKey served)))
            (digest kem) (Member.status entry) (Member.roles entry) rosterVersion) true false)
    | _ => unchanged true
    end.

(** Whether the reader's own entry names their own keys. *)
Inductive OwnEntry := own_ok | own_absent | own_wrong.
Definition ownEntry (roster : Roster.t) (userId : string) (me : ServedKeys.t) : OwnEntry :=
  match rosterEntry roster userId with
  | None => own_absent
  | Some entry => if servedIsEntry me entry then own_ok else own_wrong
  end.

(** "Trust as the group does": a pin from the member's active entry. *)
Definition trustAsGroupDoes (chain : Body.t) (userId : string) (served : ServedIdentity.t) (contact : Contact.t)
    : result ContactPin.t :=
  match rosterEntry (Body.roster chain) userId with
  | None => Err NOT_ON_LIST
  | Some entry =>
      refuse NOT_ON_LIST unless activeWith (Some entry) None && servedIsEntry (served_keys served) entry &&
        verifyIdentityKeys (Member.userId entry) served ;;
      let* mlDsaHash := digestHex (Member.mlDsaPublicKeyDigest entry) in
      let* kemHash := digestHex (Member.kemPublicKeyDigest entry) in
      let* encryption := decode (Member.encryptionPublicKey entry) (Some 32) in
      let* signing := decode (Member.signingPublicKey entry) (Some 32) in
      let* mlDsa := decode (Member.mlDsaPublicKeyDigest entry) (Some 32) in
      let* kem := decode (Member.kemPublicKeyDigest entry) (Some 32) in
      let* print := fingerprint encryption signing mlDsa kem in
      Ok (ContactPin.Build_t (Member.userId entry) (Contact.email contact) (Contact.name contact) (Contact.pinnedAt contact)
        (PinKeys.Build_t (Some (Member.keyVersion entry)) (Member.encryptionPublicKey entry) (Member.signingPublicKey entry)
          (Some mlDsaHash) (Some kemHash) print) (Some (Body.groupId chain)))
  end.

(** ** The pin after an acceptance *)

Definition pin_on_chain (chain : Body.t) (pin : option RawGroupPin.t) : result GroupPin.t :=
  let* pin := checkGroupPin (Body.groupId chain) pin in
  refuse NOT_ON_CHAIN when
    Body.rosterDigests chain !! Z.to_nat (GroupPin.rosterVersion pin - 1) !== Some (GroupPin.rosterDigest pin) ;;
  Ok pin.
Definition raise_areas (areas : gmap string Z) (pin : GroupPin.t) : gmap string Z :=
  union_with (λ a b, Some (Z.max a b)) areas (GroupPin.areas pin).
Definition pinAfter (pins : list (option RawGroupPin.t)) (chain : Body.t) (checkedAt : jsval) : result GroupPin.t :=
  let* now := checkTime checkedAt in
  let* pins := mapM (pin_on_chain chain) pins in
  match head (Body.groupKeys chain) with
  | None => Err "Invalid member list cache."
  | Some first =>
      Ok (GroupPin.Build_t (GroupPublicKey.ed25519PublicKey first) (default "" (mlDsaDigest (GroupPublicKey.mlDsaPublicKey first)))
        (default now (head (sort_strings (map GroupPin.checkedAt pins)))) (Body.groupKeyVersion chain) (Body.groupKeyDigest chain)
        (Roster.rosterVersion (Body.roster chain)) (Body.rosterDigest chain) (foldl raise_areas ∅ pins))
  end.

(** ** Rows *)

Definition chain_areas (chain : Body.t) : ListedAreas.t :=
  ListedAreas.Build_t (Body.areaKeys chain) (Body.areaRoots chain) (list_to_set (Body.retiredAreas chain)).
Definition areaRows (chain : Body.t) (keys : list AreaKey.t) (format : option RosterFormat) (retire : list string)
    : result (list Area.t) :=
  rowsAfter (chain_areas chain) keys (default (Roster.format (Body.roster chain)) format) retire.
Definition nextAreaKey (chain : Body.t) (workspaceId : string) (workspaceKey : bytes) (rootKey : option bytes)
    : result (option Area.t) :=
  let* rows := areaRows chain [AreaKey.Build_t workspaceId workspaceKey rootKey]
    (Some match rootKey with Some _ => format2 | None => Roster.format (Body.roster chain) end) [] in
  Ok (head rows).
(** The areas the next roster must rotate: every one of a family anyone leaves. *)
Definition areasToRotate (chain : Body.t) (members : list Member.t) : list string :=
  if (Body.kind chain !== family) then []
  else if existsb (λ entry, (Member.status entry === left_) && is_active (rosterEntry (Body.roster chain) (Member.userId entry))) members
  then sort_strings (filter (λ id, id ∉ Body.retiredAreas chain) (elements (dom (Body.areaKeys chain))))
  else [].
End entries.

(** ** Rosters to sign *)

Module FirstOptions.
Record t := { kind : GroupKind; areaKeys : list AreaKey.t; format : option Z }.
End FirstOptions.
Module NextOptions.
Record t := { signerUserId : string; areaKeys : list AreaKey.t; retireAreas : list string; format : option Z }.
End NextOptions.

Definition with_roles (m : Member.t) (roles : list GroupRole) (sinceVersion : Z) : Member.t :=
  Member.Build_t (Member.userId m) (Member.keyVersion m) (Member.encryptionPublicKey m) (Member.signingPublicKey m)
    (Member.mlDsaPublicKeyDigest m) (Member.kemPublicKeyDigest m) (Member.status m) roles sinceVersion.

Definition member_le (a b : Member.t) : Prop := String.le (Member.userId a) (Member.userId b).
#[export] Instance member_le_dec a b : Decision (member_le a b).
Proof. unfold member_le. apply _. Defined.

(** A member as the next roster lists them: since when their entry says what it says. *)
Definition next_entry (before : Roster.t) (version : Z) (member : Member.t) : Member.t :=
  let entry := with_roles member (sort_roles (Member.roles member)) (Member.sinceVersion member) in
  with_roles entry (Member.roles entry)
    match rosterEntry before (Member.userId member) with
    | Some b => if sameEntry b entry then Member.sinceVersion b else version
    | None => version
    end.

Section rosters.
Context `{C : Crypto}.

Definition firstRoster (groupId : string) (creator : Member.t) (options : FirstOptions.t) : acc Roster.t :=
  let* format := lift (rosterFormat (FirstOptions.format options)) in
  let* areas := lift (rowsAfter NOTHING_LISTED (FirstOptions.areaKeys options) format []) in
  let roster := Roster.Build_t groupId (FirstOptions.kind options) 1 "" 1 (Member.userId creator)
    [with_roles creator (sort_roles (Member.roles creator)) 1] areas format in
  let* statement := lift (rosterStatement roster) in
  let* id := lift (uuid (JStr groupId) "group id") in
  let '(State.Build_t g m k ve h ca km re wa si ar) := stateOf id ∅ None in
  let state := State.Build_t g m (k ++ [GroupPublicKey.Build_t "" ""]) ve h ca km re wa si ar in
  let* _ := rosterRules state roster statement None None in
  Ok roster.

(** What [nextRoster] puts together, before the rules. *)
Definition next_roster (chain : Body.t) (members : list Member.t) (options : NextOptions.t) (areas : list Area.t)
    (format : RosterFormat) : Roster.t :=
  let version := Roster.rosterVersion (Body.roster chain) + 1 in
  Roster.Build_t (Body.groupId chain) (Body.kind chain) version (Body.rosterDigest chain) (Body.groupKeyVersion chain)
    (NextOptions.signerUserId options) (merge_sort member_le (map (next_entry (Body.roster chain) version) members)) areas format.

Definition nextRoster (chain : Body.t) (members : list Member.t) (options : NextOptions.t) : acc Roster.t :=
  let latest := Roster.format (Body.roster chain) in
  let* format := match NextOptions.format options with None => Ok latest | Some n => lift (rosterFormat (Some n)) end in
  refuse (Refused DOWNGRADE) when (format === format1) && (latest === format2) ;;
  let* areas := lift (areaRows chain (NextOptions.areaKeys options) (Some format) (NextOptions.retireAreas options)) in
  let roster := next_roster chain members options areas format in
  let* statement := lift (rosterStatement roster) in
  let* cached := lift (checkCache (Body.groupId chain) (Some (Body.cache chain)) false) in
  let state := stateOf (Body.groupId chain) ∅ (Some cached) in
  let* _ := rosterRules state roster statement None (last (State.held state)) in
  Ok roster.
End rosters.

(** ** A roster built is a roster taken *)

(** *** What a record gives back *)

Section records_back.
Context `{C : Crypto}.

Lemma mapM_digests l w k : mapM (λ at_, digestOf at_ w) (map JStr l) = Ok k → k = l.
Proof.
  revert k; induction l as [|d l IH]; intros k; [by intros [= <-]|]. cbn [map mapM]. intros H.
  apply bind_ok in H as (x & Hx & H). unfold digestOf in Hx. apply bytesOf_ok in Hx as [[= <-] _].
  apply bind_ok in H as (y & Hy & [= <-]). by rewrite (IH y Hy).
Qed.
Lemma check_group_key_digest raw key : check_group_key raw = Ok key → ∃ d, groupKeyDigest key = Ok d.
Proof.
  unfold check_group_key. intros H. apply bind_ok in H as (k & _ & H). apply bind_ok in H as (ed & Hed & H).
  apply bind_ok in H as (ml & Hml & [= <-]). apply bytesOf_ok in Hed as (_ & b & Hb), Hml as (_ & b' & Hb').
  unfold groupKeyDigest, group_key_halves, bytesOf. cbn [GroupPublicKey.ed25519PublicKey GroupPublicKey.mlDsaPublicKey].
  rewrite Hb, Hb'. cbn [recast mbind res_bind]. pose proof (decode_ok _ _ _ Hb) as (<- & Hn & _). pose proof (decode_ok _ _ _ Hb') as (<- & Hn' & _).
  rewrite !decode_encode_any by done. cbn [mbind res_bind]. by eexists.
Qed.
Lemma mapM_group_keys l k : mapM check_group_key (map (λ key, Some (raw_group_key key)) l) = Ok k → k = l.
Proof.
  revert k; induction l as [|key l IH]; intros k; [by intros [= <-]|]. cbn [map mapM]. intros H.
  apply bind_ok in H as (x & Hx & H). apply bind_ok in H as (y & Hy & [= <-]). rewrite (IH y Hy). f_equal.
  unfold check_group_key in Hx. cbn [shaped mbind res_bind] in Hx. apply bind_ok in Hx as (ed & [[= <-] _]%bytesOf_ok & Hx).
  apply bind_ok in Hx as (ml & [[= <-] _]%bytesOf_ok & [= <-]). by destruct key.
Qed.
Lemma mapM_elem {A B} (f : A → result B) l k y : mapM f l = Ok k → y ∈ k → ∃ x, f x = Ok y.
Proof. intros Hl%mapM_ok Hy. induction Hl as [|x z l k Hx _ IH]; [by apply not_elem_of_nil in Hy|]. apply elem_of_cons in Hy as [->|Hy]; eauto. Qed.

(** A record's fields as they were written, and its keys well formed. *)
Lemma checkCache_keys groupId value server c k : checkCache groupId value server = Ok c → k ∈ Cached.groupKeys c →
  ∃ d, groupKeyDigest k = Ok d.
Proof.
  unfold checkCache. destruct value as [cache|]; [|done]. intros H. not_refused H E1. not_refused H E2.
  apply recast_ok in H. unfold check_record in H. res_inv.
  match goal with x : (_ * _ * _)%type |- _ => destruct x as [[? ?] ?] end. res_inv. cbn. intros Hk.
  match goal with Hm : mapM check_group_key _ = Ok _ |- _ => destruct (mapM_elem _ _ _ _ Hm Hk) as [raw Hraw] end.
  by eapply check_group_key_digest.
Qed.
Lemma checkCache_kept groupId id kept server c : checkCache groupId (Some (raw_cache id kept)) server = Ok c →
  Cached.rosterDigests c = Cached.rosterDigests kept ∧ Cached.groupKeys c = Cached.groupKeys kept ∧
  Cached.statement c = Cached.statement kept.
Proof.
  unfold checkCache. intros H. not_refused H E1. not_refused H E2.
  apply recast_ok in H. unfold check_record, raw_cache in H.
  cbn [RawCache.rosterDigests RawCache.groupKeys RawCache.statement shaped mbind res_bind] in H. res_inv.
  match goal with x : (_ * _ * _)%type |- _ => destruct x as [[? ?] ?] end. res_inv.
  cbn. split; [|split].
  - by eapply mapM_digests.
  - by eapply mapM_group_keys.
  - match goal with Hd : decode (encode _) None = Ok _ |- _ => revert Hd end.
    destruct (decide (Cached.statement kept = "")) as [->|Hne]; [done|]. rewrite decode_encode_any by done. by intros [= <-].
Qed.
End records_back.

(** *** A record's marks agree with the chain continued *)

Section agreeing.
Context `{C : Crypto}.

Lemma conflict_one about version side : conflict about version [side] = Ok tt.
Proof. done. Qed.
Lemma conflict_same about version a b : MarkSide.digest a = MarkSide.digest b → conflict about version [a; b] = Ok tt.
Proof.
  intros E. unfold conflict, sides. cbn [foldl merge_side]. rewrite bool_decide_eq_true_2 by done. done.
Qed.
Lemma mapM_all_ok {E A} (f : A → res E unit) l : (∀ x, x ∈ l → f x = Ok tt) → is_ok (mapM f l) = true.
Proof.
  intros Hf. induction l as [|x l IH]; [done|]. cbn [mapM]. rewrite (Hf x) by left. cbn [mbind res_bind].
  destruct (mapM f l) eqn:E'; [done|]. cbn in IH. apply IH. intros y Hy. apply Hf. by right.
Qed.
Lemma mapM_all_then {E A B} (f : A → res E unit) l (m : res E B) : (∀ x, x ∈ l → f x = Ok tt) → (let* _ := mapM f l in m) = m.
Proof. intros Hf%mapM_all_ok. by destruct (mapM f l). Qed.
Lemma agree_all about m : (∀ v l, m !! v = Some l → ∃ side, l = [side]) → agree about m = Ok tt.
Proof.
  intros Hm. unfold agree. rewrite mapM_all_then; [done|]. intros v Hv. unfold sorted_versions in Hv.
  rewrite merge_sort_Permutation in Hv. apply elem_of_elements, elem_of_dom in Hv as [l Hl]. rewrite Hl.
  destruct (Hm v l Hl) as [side ->]. apply conflict_one.
Qed.

(** One side a version, [digests] the versions from 1 on. *)
Definition marks_list (m : marks_map) (digests : list string) : Prop :=
  ∀ v l, m !! v = Some l → ∃ side, l = [side] ∧ 1 ≤ v ∧ digests !! Z.to_nat (v - 1) = Some (MarkSide.digest side).

Lemma marks_list_snoc m digests d side : marks_list m digests → MarkSide.digest side = d →
  marks_list (add_mark m (llen digests + 1) side) (digests ++ [d]).
Proof.
  intros Hm <- v l. unfold add_mark. destruct (decide (v = llen digests + 1)) as [->|Hv].
  - rewrite lookup_insert_eq. intros [= <-]. exists side. destruct (m !! (llen digests + 1)) as [l|] eqn:E.
    + destruct (Hm _ _ E) as (s & _ & _ & Hs). apply lookup_lt_Some in Hs. unfold llen in Hs. lia.
    + split; [done|]. unfold llen. split; [lia|]. rewrite lookup_app_r by lia. by replace (Z.to_nat _ - length digests)%nat with 0%nat by lia.
  - rewrite lookup_insert_ne by congruence. intros H. destruct (Hm v l H) as (s & -> & Hge & Hs). exists s. split; [done|]. split; [done|].
    by apply lookup_app_l_Some.
Qed.

Lemma roster_marks_list cached : marks_list (cache_roster_marks cached ∅) (Cached.rosterDigests cached).
Proof.
  unfold cache_roster_marks. cbv zeta. generalize (llen (Cached.rosterDigests cached)) as last_. intros last_.
  induction (Cached.rosterDigests cached) as [|d l IH] using rev_ind; [by intros v l|].
  rewrite imap_app, foldl_app. cbn [imap foldl]. rewrite Nat.add_0_r. apply (marks_list_snoc _ l d); done.
Qed.

Lemma key_marks_list cached keys digests m : Forall2 (λ k d, groupKeyDigest k = Ok d) (digests.*1) (digests.*2) →
  marks_list m (digests.*2) → (∀ k, k ∈ keys → ∃ d, groupKeyDigest k = Ok d) →
  ∃ m' rest, cache_key_marks cached m (length digests) keys = Ok m' ∧ rest.*1 = keys ∧
    Forall2 (λ k d, groupKeyDigest k = Ok d) ((digests ++ rest).*1) ((digests ++ rest).*2) ∧ marks_list m' ((digests ++ rest).*2).
Proof.
  revert digests m; induction keys as [|k keys IH]; intros digests m Hd Hm Hk.
  { exists m, []. rewrite app_nil_r. done. }
  destruct (Hk k) as [d Hkd]; [by left|]. cbn [cache_key_marks]. rewrite Hkd. cbn [mbind res_bind].
  set (side := MarkSide.Build_t d [from_cache] _).
  destruct (IH (digests ++ [(k, d)]) (add_mark m (Z.of_nat (length digests) + 1) side)) as (m' & rest & Hm' & Hr & Hf & Hl).
  - rewrite !fmap_app. apply Forall2_app; [done|]. by constructor.
  - rewrite fmap_app. replace (Z.of_nat (length digests)) with (llen (digests.*2)) by (unfold llen; by rewrite length_fmap). by apply marks_list_snoc.
  - intros x Hx. apply Hk. by right.
  - rewrite length_app, Nat.add_1_r in Hm'. exists m', ((k, d) :: rest). split; [done|]. cbn. rewrite Hr.
    by rewrite <- (assoc_L app digests [(k, d)] rest : _) in Hf, Hl.
Qed.

(** The marks of a reader who holds nothing but the record. *)
Lemma record_marks cached : (∀ k, k ∈ Cached.groupKeys cached → ∃ d, groupKeyDigest k = Ok d) →
  ∃ marks keyDigests, cache_marks NO_MARKS cached = Ok marks ∧
    marks_list (Marks.rosterMarks marks) (Cached.rosterDigests cached) ∧
    Forall2 (λ k d, groupKeyDigest k = Ok d) (Cached.groupKeys cached) keyDigests ∧ marks_list (Marks.keyMarkSides marks) keyDigests ∧
    ∃ side, Marks.firstMarks marks = [side] ∧
      MarkSide.digest side = match head (Cached.groupKeys cached) with Some key => first_keys_of key | None => "" end.
Proof.
  intros Hk. destruct (key_marks_list cached (Cached.groupKeys cached) [] ∅) as (m & rest & Hm & Hr & Hf & Hl); [constructor|by intros v l|done|].
  cbn in Hm, Hf, Hl. rewrite Hr in Hf. unfold cache_marks. cbn [Marks.keyMarkSides NO_MARKS]. rewrite Hm. cbn [mbind res_bind].
  eexists _, (rest.*2). split; [done|]. split; [apply roster_marks_list|]. split; [done|]. split; [done|]. by eexists.
Qed.
Lemma record_own_marks groupId cached marks : cache_marks NO_MARKS cached = Ok marks →
  (∃ d, marks_list (Marks.rosterMarks marks) d) → (∃ d, marks_list (Marks.keyMarkSides marks) d) → (∃ side, Marks.firstMarks marks = [side]) →
  own_marks (Given.Build_t groupId [] (Some cached) None []) = Ok marks.
Proof.
  intros Hm [d Hd] [d' Hd'] [side Hs]. unfold own_marks. cbn [Given.pins Given.cached foldl]. rewrite Hm. cbn [lift mbind res_bind].
  rewrite Hs, conflict_one. cbn [mbind res_bind]. rewrite !agree_all; [done| |].
  - intros v l H. destruct (Hd v l H) as (s & -> & _). by exists s.
  - intros v l H. destruct (Hd' v l H) as (s & -> & _). by exists s.
Qed.
End agreeing.

(** *** The rules, signed *)

Section signed_rules.
Context `{C : Crypto}.

Lemma rosterRules_signed st st' roster statement copies previous key : rosterRules st roster statement None previous = Ok tt →
  State.keys st' = State.keys st → State.verified st' = State.verified st → State.areas st' = State.areas st →
  key_at (State.keys st) (Roster.groupKeyVersion roster) = Some key → group_signed statement copies key = true →
  holder_signed st' roster (match previous with Some p => Held.roster p | None => roster end) statement copies key = true →
  rosterRules st' roster statement (Some copies) previous = Ok tt.
Proof.
  unfold rosterRules. cbv zeta. intros H -> -> -> Hkey Hg Hs. rewrite Hkey, Hg, Hs.
  destruct (match previous with Some p => _ | None => false end); [done|].
  destruct (llen (State.keys st) <? Roster.groupKeyVersion roster); [done|]. exact H.
Qed.

(** No succession served: the loop stops at once, noting that none was. *)
Lemma establishAll_none n st : State.candidates st = ∅ →
  establishAll (S n) st = Ok (with_refused st (llen (State.keys st)) NO_SUCCESSION).
Proof.
  intros Hc. cbn [establishAll]. unfold establishNext, nextSuccession. cbv zeta. rewrite Hc, lookup_empty. cbn [default].
  change (merge_sort served_le []) with (@nil (Served.t GroupKeySuccession.t)). cbn [admit_all mbind res_bind].
  destruct (State.keyMarks st !! (llen (State.keys st) + 1)) as [mark|]; done.
Qed.
Lemma with_refused_fields st v r : let st' := with_refused st v r in State.keys st' = State.keys st ∧
  State.verified st' = State.verified st ∧ State.held st' = State.held st ∧ State.keyMarks st' = State.keyMarks st ∧
  State.areas st' = State.areas st ∧ State.mlDsaKeys st' = State.mlDsaKeys st ∧ State.candidates st' = State.candidates st.
Proof. by destruct st. Qed.

(** One roster of a pass without successions. *)
Lemma pass_one n st at_ : State.candidates st = ∅ →
  (∀ st', State.keys st' = State.keys st → State.verified st' = State.verified st → State.areas st' = State.areas st →
    State.mlDsaKeys st' = State.mlDsaKeys st →
    rosterRules st' (Served.value at_) (Served.statement at_) (Some (Served.copies at_)) (last (State.held st)) = Ok tt) →
  ∃ st' h, pass (S n) st [at_] = Ok st' ∧ State.keys st' = State.keys st ∧ State.verified st' = State.verified st ∧
    State.keyMarks st' = State.keyMarks st ∧ State.held st' = State.held st ++ [h] ∧ Held.roster h = Served.value at_ ∧
    Held.statement h = Served.statement at_ ∧ Held.digest h = Served.digest at_.
Proof.
  intros Hc Hr. unfold pass. rewrite establishAll_none by done. cbn [mbind res_bind pass_path].
  destruct (with_refused_fields st (llen (State.keys st)) NO_SUCCESSION) as (Ek & Ev & Eh & Em & Ea & El & Ec).
  set (st1 := with_refused _ _ _) in *. unfold pass_step. rewrite Eh, Hr by done. cbn [mbind res_bind].
  set (h := Held.Build_t _ _ _ _). assert (State.candidates (with_held st1 h) = ∅) as Hc2 by (destruct st1; cbn in *; congruence).
  rewrite establishAll_none by done. cbn [mbind res_bind]. eexists _, h. split; [done|].
  destruct (with_refused_fields (with_held st1 h) (llen (State.keys (with_held st1 h))) NO_SUCCESSION) as (-> & -> & -> & -> & _).
  destruct st1; cbn in *; subst. done.
Qed.
End signed_rules.

(** *** The path and the state *)

Section taken.
Context `{C : Crypto}.

Lemma byDigest_one statement roster copy : parseRoster statement = Ok roster → SignedGroupStatement.statement copy = statement →
  byDigest [copy] parseRoster = Ok [Served.Build_t roster statement (digest statement) [copy]].
Proof. intros Hp Hs. unfold byDigest. cbn [byDigest_loop]. rewrite Hs, Hp. cbn. by rewrite Hs. Qed.

Lemma foldl_max_one b v : b < v → foldl Z.max b [v] = v.
Proof. cbn. lia. Qed.

(** One roster after a record's last. *)
Lemma link_path_one given cached at_ : Given.cached given = Some cached →
  Roster.rosterVersion (Served.value at_) = llen (Cached.rosterDigests cached) + 1 →
  last (Cached.rosterDigests cached) = Some (Roster.previousRosterDigest (Served.value at_)) →
  link_path given [at_] = Ok (Path.Build_t (Some cached) (llen (Cached.rosterDigests cached) + 1)
    (llen (Cached.rosterDigests cached)) [at_]).
Proof.
  intros Hc Hv Hl. assert (0 ≤ llen (Cached.rosterDigests cached)) as Hn by (unfold llen; lia). unfold link_path. cbv zeta. rewrite Hc. cbn [map forallb].
  rewrite Hv, (proj2 (Z.ltb_lt _ _)) by lia. cbn [andb]. rewrite foldl_max_one by lia.
  rewrite (proj2 (Z.eqb_neq _ _)), (proj2 (Z.leb_gt _ _)) by lia. rewrite filter_cons, decide_True by done.
  change (filter _ []) with (@nil (Served.t Roster.t)). cbn [llen length]. change (1 <? llen [at_]) with false.
  cbv iota. replace (Z.to_nat _) with 1%nat by lia. cbn [walk_down head hd_error]. rewrite Hv, Z.eqb_refl. cbn [mbind res_bind].
  rewrite Hl, bool_decide_eq_true_2 by done. done.
Qed.

(** *** The marks of the record, continued *)

Lemma record_vouch input given marks side : Marks.firstMarks marks = [side] →
  MarkSide.digest side = first_keys_of (Accepting.firstKeys input) → vouch input given marks = Ok false.
Proof. intros Hm Hs. unfold vouch. cbv zeta. by rewrite Hm, Hs, bool_decide_eq_true_2. Qed.

Lemma existsb_none {A} (f : A → bool) l : (∀ x, x ∈ l → f x = false) → existsb f l = false.
Proof. intros H. apply not_true_iff_false. intros (x & Hx%list_elem_of_In & E)%existsb_exists. by rewrite H in E. Qed.

Lemma sorted_versions_elem m v : v ∈ sorted_versions m → ∃ l, m !! v = Some l.
Proof. unfold sorted_versions. rewrite merge_sort_Permutation. by intros [l Hl]%elem_of_elements%elem_of_dom; exists l. Qed.

Lemma marks_list_bound m digests v : marks_list m digests → v ∈ sorted_versions m → 1 ≤ v ≤ llen digests.
Proof.
  intros Hm (l & Hl)%sorted_versions_elem. destruct (Hm v l Hl) as (_ & _ & Hv & Hd%lookup_lt_Some). unfold llen. lia.
Qed.

Lemma record_roster_marks_agree st cached marks at_ : marks_list (Marks.rosterMarks marks) (Cached.rosterDigests cached) →
  check_roster_marks st (Path.Build_t (Some cached) (llen (Cached.rosterDigests cached) + 1)
    (llen (Cached.rosterDigests cached)) [at_]) marks = Ok tt.
Proof.
  intros Hm. unfold check_roster_marks. cbv zeta. cbn [Path.head]. rewrite mapM_all_then.
  - rewrite existsb_none; [done|]. intros v Hv. pose proof (marks_list_bound _ _ _ Hm Hv). apply Z.ltb_ge. lia.
  - intros v [_ Hv]%list_elem_of_filter. pose proof (marks_list_bound _ _ _ Hm Hv) as Hb.
    apply sorted_versions_elem in Hv as [l Hl]. rewrite Hl. destruct (Hm v l Hl) as (side & -> & _ & Hd).
    apply conflict_same. cbn. unfold chain_digest. cbn [Path.bottom Path.extending]. rewrite (proj2 (Z.leb_le _ _)) by lia.
    by rewrite Hd.
Qed.

Lemma record_key_marks_agree st marks keyDigests : Forall2 (λ k d, groupKeyDigest k = Ok d) (State.keys st) keyDigests →
  marks_list (Marks.keyMarkSides marks) keyDigests → State.keyMarks st = key_marks_of (Marks.keyMarkSides marks) →
  check_key_marks st marks = Ok tt.
Proof.
  intros Hf Hm Hk. unfold check_key_marks. cbv zeta. pose proof (Forall2_length _ _ _ Hf) as Hlen. rewrite mapM_all_then.
  - rewrite existsb_none; [done|]. intros v Hv. pose proof (marks_list_bound _ _ _ Hm Hv). unfold llen in *. apply Z.ltb_ge. lia.
  - intros v (l & Hl)%sorted_versions_elem. destruct (Hm v l Hl) as (side & -> & Hv & Hd).
    destruct (Forall2_lookup_r _ _ _ _ _ Hf Hd) as (key & Hkey & Hkd). rewrite Hk. unfold key_marks_of. rewrite lookup_omap, Hl.
    change (Some [side] ≫= _) with (Some side). unfold key_at. rewrite (proj2 (Z.ltb_ge _ _)) by lia. rewrite Hkey, Hkd. cbn [lift mbind res_bind].
    by apply conflict_same.
Qed.

(** *** One more roster on a record *)

(** [extend]'s input: the record, the roster and nothing else. *)
Definition one_more (groupId : string) (first : GroupPublicKey.t) (raw : RawCache.t) (copy : SignedGroupStatement.t)
    (mlDsaKeys : gmap string string) : Accepting.t :=
  Accepting.Build_t groupId first [] [copy] [] mlDsaKeys None [] None None (Some (Some raw)) false.

Lemma one_more_given groupId first raw copy mlDsaKeys cached : uuid (JStr groupId) "group id" = Ok groupId →
  checkCache groupId (Some raw) false = Ok cached →
  check_input (one_more groupId first raw copy mlDsaKeys) = Ok (Given.Build_t groupId [] (Some cached) None []).
Proof. intros Hu Hc. unfold check_input, one_more. cbn -[checkCache uuid]. rewrite Hu. cbn -[checkCache]. by rewrite Hc. Qed.

Lemma one_more_pass groupId first raw copy mlDsaKeys cached marks at_ key :
  let path := Path.Build_t (Some cached) (llen (Cached.rosterDigests cached) + 1) (llen (Cached.rosterDigests cached)) [at_] in
  let given := Given.Build_t groupId [] (Some cached) None [] in
  let st := initial_state (one_more groupId first raw copy mlDsaKeys) given marks path [] in
  rosterRules (stateOf groupId ∅ (Some cached)) (Served.value at_) (Served.statement at_) None (last (State.held (stateOf groupId ∅ (Some cached)))) = Ok tt →
  Served.copies at_ = [copy] → last (Cached.groupKeys cached) = Some key →
  Roster.groupKeyVersion (Served.value at_) = llen (Cached.groupKeys cached) →
  verifyGroup (Served.statement at_) (SignedGroupStatement.signature copy) key = true →
  signedByMember (Cached.roster cached) (Roster.signerUserId (Served.value at_)) copy mlDsaKeys = true →
  ∃ st' h0 h, pass (loop_fuel st) st [at_] = Ok st' ∧ State.keys st' = Cached.groupKeys cached ∧
    State.keyMarks st' = key_marks_of (Marks.keyMarkSides marks) ∧ State.held st' = [h0; h] ∧
    Held.roster h = Served.value at_ ∧ Held.statement h = Served.statement at_ ∧ Held.digest h = Served.digest at_.
Proof.
  intros path given st Hrules Hcopies Hkey Hv Hg Hm.
  destruct (pass_one (size (State.candidates st)) st at_) as (st' & h & Hpass & Hk & _ & Hkm & Hh & Hr); [done| |].
  - intros st' Hk Hve Ha Hml. eapply (rosterRules_signed (stateOf groupId ∅ (Some cached))).
    + exact Hrules.
    + exact Hk.
    + exact Hve.
    + exact Ha.
    + rewrite Hv. by apply key_at_last.
    + unfold group_signed. rewrite Hcopies. cbn [existsb]. by rewrite Hg.
    + unfold holder_signed. rewrite Hcopies, Hml. cbn [existsb]. rewrite Hg. cbn. by rewrite Hm.
  - eexists st', _, h. split; [exact Hpass|]. split; [exact Hk|]. split; [exact Hkm|]. split; [exact Hh|done].
Qed.

Lemma one_more_accepted groupId first raw copy mlDsaKeys cached roster key :
  uuid (JStr groupId) "group id" = Ok groupId → checkCache groupId (Some raw) false = Ok cached →
  head (Cached.groupKeys cached) = Some first → last (Cached.groupKeys cached) = Some key →
  parseRoster (SignedGroupStatement.statement copy) = Ok roster → Roster.groupId roster = groupId →
  Roster.rosterVersion roster = llen (Cached.rosterDigests cached) + 1 →
  last (Cached.rosterDigests cached) = Some (Roster.previousRosterDigest roster) →
  Roster.groupKeyVersion roster = llen (Cached.groupKeys cached) →
  rosterRules (stateOf groupId ∅ (Some cached)) roster (SignedGroupStatement.statement copy) None
    (last (State.held (stateOf groupId ∅ (Some cached)))) = Ok tt →
  verifyGroup (SignedGroupStatement.statement copy) (SignedGroupStatement.signature copy) key = true →
  signedByMember (Cached.roster cached) (Roster.signerUserId roster) copy mlDsaKeys = true →
  ∃ body st, accept (one_more groupId first raw copy mlDsaKeys) = Ok (body, st) ∧ Body.roster body = roster ∧
    Body.rosterDigests body = Cached.rosterDigests cached ++ [digest (SignedGroupStatement.statement copy)].
Proof.
  intros Hu Hc Hfirst Hkey Hparse Hgroup Hver Hprev Hgkv Hrules Hg Hm.
  assert (∀ k, k ∈ Cached.groupKeys cached → ∃ d, groupKeyDigest k = Ok d) as Hkeys by (intros k; by eapply checkCache_keys).
  destruct (record_marks cached Hkeys) as (marks & keyDigests & Hmarks & Hrl & Hkf & Hkl & side & Hside & Hsd).
  rewrite Hfirst in Hsd. set (at_ := Served.Build_t roster (SignedGroupStatement.statement copy) (digest (SignedGroupStatement.statement copy)) [copy]).
  destruct (one_more_pass groupId first raw copy mlDsaKeys cached marks at_ key) as (st & h0 & h & Hpass & Hk & Hkm & Hh & Hhr & Hhs & Hhd); try done.
  unfold accept. rewrite (one_more_given _ _ _ _ _ _ Hu Hc). cbn [lift mbind res_bind].
  rewrite (record_own_marks _ _ _ Hmarks) by eauto. cbn [mbind res_bind].
  change (Accepting.rosters _) with [copy]. change (Accepting.successions _) with (@nil SignedGroupStatement.t).
  rewrite (byDigest_one _ _ _ Hparse eq_refl). cbn [lift mbind res_bind]. cbn [existsb Served.value Given.groupId].
  rewrite Hgroup, (bool_decide_eq_true_2 (groupId = groupId) eq_refl). cbn [negb orb]. change (byDigest [] _) with (@Ok string _ (@nil (Served.t GroupKeySuccession.t))).
  cbn [lift mbind res_bind]. rewrite (record_vouch (one_more groupId first raw copy mlDsaKeys) _ _ _ Hside Hsd). cbn [lift mbind res_bind].
  fold at_. rewrite (link_path_one (Given.Build_t groupId [] (Some cached) None []) cached at_ eq_refl Hver Hprev). cbn [lift mbind res_bind Path.path]. rewrite Hpass. cbn [mbind res_bind].
  unfold check_marks. rewrite (record_roster_marks_agree _ _ _ _ Hrl). cbn [mbind res_bind Given.joinMark Given.pairMarks].
  change (mapM _ (merge_sort pair_le [])) with (@Ok fault (list unit) []). cbn [mbind res_bind andb].
  rewrite (record_key_marks_agree _ _ keyDigests) by (rewrite ?Hk; done). cbn [mbind res_bind].
  rewrite Hk, Hkey, Hh. cbn [last]. unfold answer. cbv zeta. destruct (Hkeys key) as [d ->].
  { rewrite last_lookup in Hkey. by eapply list_elem_of_lookup_2. }
  cbn [lift mbind res_bind]. eexists _, st. split; [done|]. cbn. by rewrite Hhr.
Qed.

Lemma accept_group input body st : accept input = Ok (body, st) →
  uuid (JStr (Body.groupId body)) "group id" = Ok (Body.groupId body).
Proof.
  intros H. destruct (accept_inv _ _ _ H) as (given & marks & rosters & firstUse & path & latest & key & c & Ha).
  pose proof (ac_body _ _ _ _ _ _ _ _ _ _ _ Ha) as Hb. unfold answer in Hb. apply bind_ok in Hb as (d & _ & [= <-]).
  pose proof (ac_given _ _ _ _ _ _ _ _ _ _ _ Ha) as Hg. unfold check_input in Hg. apply bind_ok in Hg as (g & Hu & Hg).
  res_inv. cbn. apply uuid_ok in Hu as [_ Hu]. by apply uuid_ok.
Qed.

(** The record of an accepted chain, read back: it says what the chain does. *)
Lemma record_of_chain input chain st first before cached :
  accept input = Ok (chain, st) →
  (∀ raw cached, Accepting.cache input = Some raw →
    checkCache (Body.groupId chain) raw (Accepting.server input) = Ok cached →
    records cached before ∧ reachable (Body.groupId chain) first before) →
  checkCache (Body.groupId chain) (Some (Body.cache chain)) false = Ok cached →
  Cached.roster cached = Body.roster chain ∧ Cached.groupKeys cached = Body.groupKeys chain ∧
  Cached.rosterDigests cached = Body.rosterDigests chain ∧ Body.groupKeys chain ≠ [] ∧
  last (Body.groupKeys chain) = Some (Body.groupKey chain) ∧ Body.groupKeyVersion chain = llen (Body.groupKeys chain) ∧
  Roster.rosterVersion (Body.roster chain) = llen (Body.rosterDigests chain) ∧
  last (Body.rosterDigests chain) = Some (Body.rosterDigest chain).
Proof.
  intros H Hbefore Hc. destruct (accept_chain _ _ _ _ _ H Hbefore) as (key & c & _ & Hreach & Hb & kept & Hcache & Hrec).
  pose proof (reachable_inv _ _ _ Hreach) as Hi. rewrite Hcache in Hc. destruct (checkCache_kept _ _ _ _ _ Hc) as (Hd & Hk & Hs).
  destruct (checkCache_ok _ _ _ _ Hc) as (Hv & _ & _ & Hp & _ & Hlast).
  pose proof (rec_last _ _ Hrec) as Hl. rewrite (bo_latest _ _ Hb) in Hl. injection Hl as Hr Hst Hrd _.
  assert (Held.Build_t (Body.roster chain) (Body.statement chain) (Body.rosterDigest chain) (Body.droppedHolder chain) ∈ Chain.held c) as Hin.
  { pose proof (bo_latest _ _ Hb) as Hl. rewrite last_lookup in Hl. by eapply list_elem_of_lookup_2. }
  destruct (ci_parsed _ _ _ Hi _ Hin) as (Hparsed & _). cbn in Hparsed.
  assert (Cached.roster cached = Body.roster chain) as Er by (rewrite Hs, <-Hst, Hparsed in Hp; by injection Hp).
  assert (Cached.rosterDigests cached = Body.rosterDigests chain) as Ed by (rewrite Hd, <-(rec_digests _ _ Hrec); symmetry; apply (bo_digests _ _ Hb)).
  assert (Cached.groupKeys cached = Body.groupKeys chain) as Ek by (rewrite Hk, <-(rec_keys _ _ Hrec); symmetry; apply (bo_keys _ _ Hb)).
  split_and!; try done.
  - rewrite (bo_keys _ _ Hb). pose proof (ci_first _ _ _ Hi). by destruct (Chain.keys c).
  - rewrite (bo_keys _ _ Hb). apply (bo_key _ _ Hb).
  - rewrite (bo_keys _ _ Hb). apply (bo_version _ _ Hb).
  - by rewrite <-Er, <-Ed.
  - rewrite (bo_digests _ _ Hb), last_map, (bo_latest _ _ Hb). done.
Qed.
End taken.

(** ** Properties *)

(** C5. What a holder makes, everyone takes: a roster [nextRoster] builds on an
    accepted chain, signed by the chain's group key and by the holder it
    names, is accepted by every device that keeps the chain; the chain it has
    then is the chain with that roster on the end. *)
Theorem nextRoster_taken `{C : Crypto} input chain st first before members options roster statement copy mlDsaKeys :
  accept input = Ok (chain, st) →
  (∀ raw cached, Accepting.cache input = Some raw →
    checkCache (Body.groupId chain) raw (Accepting.server input) = Ok cached →
    records cached before ∧ reachable (Body.groupId chain) first before) →
  nextRoster chain members options = Ok roster → rosterStatement roster = Ok statement →
  SignedGroupStatement.statement copy = statement →
  verifyGroup statement (SignedGroupStatement.signature copy) (Body.groupKey chain) = true →
  signedByMember (Body.roster chain) (NextOptions.signerUserId options) copy mlDsaKeys = true →
  ∃ next, checkNextRoster chain (Body.cache chain) false copy mlDsaKeys None = Ok next ∧ Body.roster next = roster ∧
    Body.rosterDigests next = Body.rosterDigests chain ++ [digest statement].
Proof.
  intros H Hbefore Hnext Hst <- Hg Hm. unfold nextRoster in Hnext. cbv zeta in Hnext.
  apply bind_ok in Hnext as (format & _ & Hnext). not_refused Hnext Ef. apply bind_ok in Hnext as (areas & _ & Hnext).
  apply bind_ok in Hnext as (statement & Hs%lift_ok & Hnext). apply bind_ok in Hnext as (cached & Hc%lift_ok & Hnext).
  apply bind_ok in Hnext as ([] & Hrules & [= <-]).
  assert (statement = SignedGroupStatement.statement copy) as -> by congruence.
  destruct (record_of_chain _ _ _ _ _ _ H Hbefore Hc) as (Er & Ek & Ed & Hne & Hkey & Hgkv & Hver & Hlast).
  destruct (Body.groupKeys chain) as [|k keys] eqn:Ekeys; [done|].
  destruct (one_more_accepted (Body.groupId chain) k (Body.cache chain) copy mlDsaKeys cached _ (Body.groupKey chain)
    (accept_group _ _ _ H) Hc ltac:(by rewrite Ek) ltac:(by rewrite Ek) (proj2 (parseRoster_ok _ _) Hs) eq_refl)
    as (body & st' & Ha & Hr & Hd); [..|].
  - rewrite Ed. cbn. by rewrite Hver.
  - by rewrite Ed.
  - rewrite Ek. done.
  - exact Hrules.
  - exact Hg.
  - by rewrite Er.
  - exists body. split; [|by rewrite <-Ed]. unfold checkNextRoster, extend. rewrite Ekeys.
    change (accept _) with (accept (one_more (Body.groupId chain) k (Body.cache chain) copy mlDsaKeys)). by rewrite Ha.
Qed.

(** ** Witnesses *)

(** The family's second member list: its only member again. *)
Module NextWitness.
Import AcceptWitness.
Definition options := NextOptions.Build_t RosterWitness.alice [] [] None.
Definition keys : gmap string string := {[ mlDigest := encode ml ]}.
Definition sign_roster (statement : bytes) : SignedGroupStatement.t := SignedGroupStatement.Build_t statement
  (GroupSignature.Build_t (Toy.sign 64 ed statement "") (Toy.sign 3309 ml statement GROUP_SIGNATURE_CONTEXT))
  (Toy.sign_hybrid ed ml statement).
Definition signs (chain : Body.t) (copy : SignedGroupStatement.t) : bool :=
  verifyGroup (C := Toy.crypto) (SignedGroupStatement.statement copy) (SignedGroupStatement.signature copy) (Body.groupKey chain) &&
  signedByMember (C := Toy.crypto) (Body.roster chain) RosterWitness.alice copy keys.
Definition make (accepted : acc (Body.t * State.t)) : option (Body.t * State.t * Roster.t * bytes) :=
  match accepted with
  | Ok (chain, st) =>
      match nextRoster (C := Toy.crypto) chain [member] options with
      | Ok next =>
          match rosterStatement next with
          | Ok statement => if signs chain (sign_roster statement) then Some (chain, st, next, statement) else None
          | Err _ => None
          end
      | Err _ => None
      end
  | Err _ => None
  end.
Definition made := make (accept (C := Toy.crypto) input).
Lemma makes : bool_decide (is_Some made) = true.
Proof. vm_compute. reflexivity. Qed.
Lemma made_ok chain st next statement : made = Some (chain, st, next, statement) →
  accept (C := Toy.crypto) input = Ok (chain, st) ∧ nextRoster (C := Toy.crypto) chain [member] options = Ok next ∧
  rosterStatement next = Ok statement ∧ signs chain (sign_roster statement) = true.
Proof.
  unfold made, make. generalize (accept (C := Toy.crypto) input) as a. intros [[c s]|]; [|discriminate].
  destruct (nextRoster c [member] options) as [n|] eqn:En; [|discriminate].
  destruct (rosterStatement n) as [b|] eqn:Eb; [|discriminate]. destruct (signs c (sign_roster b)) eqn:Es; [|discriminate].
  intros E. injection E as -> -> -> ->. done.
Qed.
End NextWitness.

Lemma nextRoster_taken_witness : ∃ chain next copy,
  checkNextRoster (C := Toy.crypto) chain (Body.cache chain) false copy NextWitness.keys None = Ok next.
Proof.
  pose proof (bool_decide_eq_true_1 _ NextWitness.makes) as [[[[chain st] roster] statement] H].
  destruct (NextWitness.made_ok _ _ _ _ H) as (Ha & Hn & Hs & Hg). apply andb_true_iff in Hg as [Hg Hm].
  destruct (nextRoster_taken (C := Toy.crypto) AcceptWitness.input chain st AcceptWitness.key (start AcceptWitness.key)
    [AcceptWitness.member] NextWitness.options roster statement (NextWitness.sign_roster statement) NextWitness.keys Ha
    ltac:(intros raw cached Hc; discriminate Hc) Hn Hs eq_refl Hg Hm) as (next & Hnext & _).
  exists chain, next, (NextWitness.sign_roster statement). exact Hnext.
Defined.
