(* ===== verification/WriterTrust.v ===== *)
(** * Whose key a writer is checked under in a group's area (packages/crypto/src/group-trust.ts)

    [groupWriterTrust] weighs the roster's entry for a writer, the reader's own
    pin and the writer's succession links; [groupIntegrityOf] and
    [groupRekeyedIntegrityOf] are the verdicts under it. The [verified] cache
    is not modelled (as in SuccessionPath.v); [requireAccepted] is the type of
    an accepted chain. *)

From S2P Require Import Prelude Base64url Bytes Canonical HChaCha Crypto Content Envelopes Signatures Roster Identity SuccessionPath Chain Acceptance NextRoster.

(** ** Data *)

(** What the reader knows of a group's roster. *)
Inductive GroupReading :=
  | reading_accepted (chain : Body.t)
  | reading_fork
  | reading_unavailable.

Inductive GroupWriterTrust :=
  | trust_outside
  | trust_unchecked
  | trust_roster (signer : TrustedSigner.t) (via : option string) (followed : option ServedKeys.t) (linksLoaded : bool)
  | trust_key_conflict
  | trust_former_member (signer : TrustedSigner.t) (linksLoaded : bool).

(** [trustedVia]: [None] where the property is missing, [Some None] where it is [null]. *)
Module WriterPin.
Record t := { keys : PinnedKeys.t; trustedVia : option (option string) }.
End WriterPin.

Module WriterInput.
Record t := {
  groupId : string; areas : gmap string Z; reading : GroupReading; workspaceId : string; writerUserId : string;
  pinned : option WriterPin.t; served : option ServedKeys.t; links : option (list SuccessionLink.t);
}.
End WriterInput.

(** The walks of one writer: [firstKeys] where the chain's first keys are not the entry's. *)
Module Walks.
Record t := {
  ownKeys : PinnedKeys.t; firstKeys : option PinnedKeys.t; fromFirst : option (list SuccessionLink.t);
  toEntry : option (list SuccessionLink.t); lag : option (list SuccessionLink.t); fromPin : option (list SuccessionLink.t);
  forked : bool; overflow : bool;
}.
End Walks.

Inductive GroupIntegrity :=
  | plain (integrity : Integrity)
  | key_conflict
  | former_member.
Module GroupVerdict.
Record t := { integrity : GroupIntegrity; via : option string }.
End GroupVerdict.
Module GroupRekeyedTrust.
Record t := {
  origin : GroupWriterTrust; originPersonal : option TrustedSigner.t;
  rekeyer : GroupWriterTrust; rekeyerPersonal : option TrustedSigner.t;
}.
End GroupRekeyedTrust.
Module GroupRekeyedVerdict.
Record t := { origin : GroupVerdict.t; rekeyer : GroupVerdict.t; bound : option bool }.
End GroupRekeyedVerdict.

(** ** The trust *)

Section writer.
Context `{C : Crypto}.

Definition retiredAlong (from : PinnedKeys.t) (chain : list SuccessionLink.t) : result (list bytes) :=
  let* key := decode (PinnedKeys.signingPublicKey from) (Some 32) in
  let* rest := mapM (λ link, decode (SuccessionLink.newSigningPublicKey link) (Some 32)) (removelast chain) in
  Ok (key :: rest).

(** Whether a link's new keys are [keys]. *)
Definition link_to (keys : PinnedKeys.t) (link : SuccessionLink.t) : bool :=
  (SuccessionLink.newEncryptionPublicKey link === PinnedKeys.encryptionPublicKey keys) &&
  (SuccessionLink.newSigningPublicKey link === PinnedKeys.signingPublicKey keys) &&
  sameKeyDigest (Some (PinnedKeys.mlDsaPublicKeyHash keys)) (default "" (mlDsaDigest (SuccessionLink.newMlDsaPublicKey link))).

Fixpoint upTo (chain : list SuccessionLink.t) (keys : PinnedKeys.t) : option (list SuccessionLink.t) :=
  match chain with
  | [] => None
  | link :: rest => if link_to keys link then Some [link] else cons link <$> upTo rest keys
  end.

Definition retiredBefore (from : PinnedKeys.t) (chain : list SuccessionLink.t) (pinned : PinnedKeys.t) : result (list bytes) :=
  match upTo chain pinned with Some found => retiredAlong from found | None => Ok [] end.

(** The closure [path], its answer before [forked] and [overflow] are noted. *)
Definition walk_from (input : WriterInput.t) (own : KeySet.t) (history : list KeySet.t) (from : PinnedKeys.t) (consent : bool)
    : result (option SuccessionPath) :=
  match WriterInput.served input, WriterInput.links input with
  | Some served, Some links =>
      let* consentUntil := if consent then let* keys := pinnedOf own in Ok (Some keys) else Ok None in
      let* memberKeys := mapM pinnedOf history in
      Ok (Some (successionPath (WriterInput.writerUserId input) from served links consentUntil memberKeys))
  | _, _ => Ok None
  end.
Definition path_links (found : option SuccessionPath) : option (list SuccessionLink.t) :=
  match found with Some (Path links) => Some links | _ => None end.
Definition path_forked (found : option SuccessionPath) : bool :=
  match found with Some SuccessionPath.Fork | Some Stale => true | _ => false end.
Definition path_overflow (found : option SuccessionPath) : bool :=
  match found with Some TooMany => true | _ => false end.

Definition writer_walks (input : WriterInput.t) (chain : Body.t) (entry : Member.t) : result Walks.t :=
  let own := keySetOf entry in
  let history := default [] (Body.keyHistory chain !! Member.userId entry) in
  let* firstKeys :=
    match head history with
    | Some first => if sameKeySet first own then Ok None else let* keys := pinnedOf first in Ok (Some keys)
    | None => Ok None
    end in
  let* fromFirst := match firstKeys with Some keys => walk_from input own history keys true | None => Ok None end in
  let* ownKeys := pinnedOf own in
  let toEntry := match path_links fromFirst with Some links => upTo links ownKeys | None => None end in
  let* lag := walk_from input own history ownKeys false in
  let* fromPin :=
    match WriterInput.pinned input with
    | Some pin => walk_from input own history (WriterPin.keys pin) (WriterPin.trustedVia pin !== Some None)
    | None => Ok None
    end in
  Ok (Walks.Build_t ownKeys firstKeys (path_links fromFirst) toEntry (path_links lag) (path_links fromPin)
    (path_forked lag || path_forked fromPin) (path_overflow lag || path_overflow fromPin)).

(** Too many links: as if none had loaded. *)
Definition links_dropped (walks : Walks.t) : Walks.t :=
  Walks.Build_t (Walks.ownKeys walks) (Walks.firstKeys walks) None None None None (Walks.forked walks) (Walks.overflow walks).

Definition along (from : PinnedKeys.t) (chain : option (list SuccessionLink.t)) : result (list bytes) :=
  match chain with Some chain => retiredAlong from chain | None => Ok [] end.

(** The keys before a pin on the chain from the first keys up to the entry's. *)
Definition retired_before_pin (walks : Walks.t) (pin : PinnedKeys.t) : result (list bytes) :=
  match Walks.toEntry walks, Walks.firstKeys walks, Walks.fromFirst walks with
  | Some toEntry, Some first, Some fromFirst =>
      let* beforePin := retiredBefore first toEntry pin in
      match beforePin with
      | _ :: _ => Ok beforePin
      | [] =>
          let* past := retiredBefore first fromFirst pin in
          match past with _ :: _ => retiredAlong first toEntry | [] => Ok [] end
      end
  | _, _, _ => Ok []
  end.

Definition retired_keys (walks : Walks.t) (pinned : option WriterPin.t) : result (list bytes) :=
  match pinned with
  | Some pin =>
      let pin := WriterPin.keys pin in
      let* a := along pin (Walks.fromPin walks) in
      let* b := match Walks.lag walks with Some lag => retiredBefore (Walks.ownKeys walks) lag pin | None => Ok [] end in
      let* c := retired_before_pin walks pin in
      Ok (a ++ b ++ c)
  | None =>
      let* a := along (Walks.ownKeys walks) (Walks.lag walks) in
      let* b := match Walks.firstKeys walks with Some first => along first (Walks.toEntry walks) | None => Ok [] end in
      Ok (a ++ b)
  end.

Definition agrees (pin : PinnedKeys.t) (encryptionPublicKey signingPublicKey : string) (digest : option string) : bool :=
  (PinnedKeys.encryptionPublicKey pin === encryptionPublicKey) && (PinnedKeys.signingPublicKey pin === signingPublicKey) &&
  match digest with Some d => sameKeyDigest (Some (PinnedKeys.mlDsaPublicKeyHash pin)) d | None => false end.

(** The roster's word and the reader's pin, once the signer is known. *)
Definition weigh_pin (chain : Body.t) (entry : Member.t) (walks : Walks.t) (served : option ServedKeys.t) (linksLoaded : bool)
    (signer : TrustedSigner.t) (pinned : option WriterPin.t) : GroupWriterTrust :=
  let lagging := bool_decide (is_Some (Walks.lag walks)) in
  match pinned with
  | None => trust_roster signer (Some (Body.groupId chain)) None linksLoaded
  | Some pin =>
      let via := default None (WriterPin.trustedVia pin) in
      if agrees (WriterPin.keys pin) (Member.encryptionPublicKey entry) (Member.signingPublicKey entry)
           (Some (Member.mlDsaPublicKeyDigest entry))
      then trust_roster signer via (if lagging then served else None) linksLoaded
      else match served with
      | None => trust_unchecked
      | Some keys =>
          if lagging && agrees (WriterPin.keys pin) (ServedKeys.encryptionPublicKey keys) (ServedKeys.signingPublicKey keys)
               (mlDsaDigest (ServedKeys.mlDsaPublicKey keys))
          then trust_roster signer via None linksLoaded
          else if negb linksLoaded then trust_unchecked
          else if (servedKeysAreEntry keys entry || lagging) && bool_decide (is_Some (Walks.fromPin walks))
          then trust_roster signer (Some (Body.groupId chain)) served linksLoaded
          else trust_key_conflict
      end
  end.

Definition writer_entry_trust (input : WriterInput.t) (chain : Body.t) (entry : Member.t) : result GroupWriterTrust :=
  let* walks := writer_walks input chain entry in
  if Walks.forked walks then Ok trust_unchecked
  else
    let '(served, links) := if Walks.overflow walks then (None, None) else (WriterInput.served input, WriterInput.links input) in
    let walks := if Walks.overflow walks then links_dropped walks else walks in
    let linksLoaded := bool_decide (is_Some served) && bool_decide (is_Some links) in
    let* retired := retired_keys walks (WriterInput.pinned input) in
    let* current := decode
      match Walks.lag walks, served with
      | Some _, Some keys => ServedKeys.signingPublicKey keys
      | _, _ => Member.signingPublicKey entry
      end (Some 32) in
    let signer := TrustedSigner.Build_t current retired false in
    if Member.status entry === left_ then Ok (trust_former_member signer linksLoaded)
    else Ok (weigh_pin chain entry walks served linksLoaded signer (WriterInput.pinned input)).

Definition groupWriterTrust (input : WriterInput.t) : result GroupWriterTrust :=
  match WriterInput.areas input !! WriterInput.workspaceId input with
  | None => Ok trust_outside
  | Some _ =>
      match WriterInput.reading input with
      | reading_unavailable => Ok trust_unchecked
      | reading_fork => Ok trust_outside
      | reading_accepted chain =>
          if Body.groupId chain !== WriterInput.groupId input then Ok trust_unchecked
          else match rosterEntry (Body.roster chain) (WriterInput.writerUserId input) with
          | None => Ok trust_outside
          | Some entry =>
              if match WriterInput.pinned input with
                 | Some pin => (WriterPin.trustedVia pin === Some (Some "")) || (WriterPin.trustedVia pin === None)
                 | None => false
                 end then Ok trust_unchecked
              else writer_entry_trust input chain entry
          end
      end
  end.
End writer.

(** ** Verdicts *)

Section verdicts.
Context `{C : Crypto}.

(** [unknown]: without the writer's links, a key they retired may be the one missing. *)
Definition unknown (integrity : Integrity) (linksLoaded : bool) : Integrity :=
  if (integrity === bad_signature) && negb linksLoaded then unchecked else integrity.

(** The signatures a former member's record may hold. *)
Definition valid_verdicts : list Integrity := [verified; seen; saved_from_link; resealed; retired_key].

Definition groupVerdictOf (trust : GroupWriterTrust) (personal : option TrustedSigner.t) (signed : bool)
    (check : option TrustedSigner.t → Integrity) : GroupVerdict.t :=
  if negb signed then GroupVerdict.Build_t (plain unsigned) None
  else match trust with
  | trust_outside => GroupVerdict.Build_t (plain (check personal)) None
  | trust_unchecked => GroupVerdict.Build_t (plain unchecked) None
  | trust_key_conflict => GroupVerdict.Build_t key_conflict None
  | trust_former_member signer linksLoaded =>
      let integrity := unknown (check (Some signer)) linksLoaded in
      GroupVerdict.Build_t (if bool_decide (integrity ∈ valid_verdicts) then former_member else plain integrity) None
  | trust_roster signer via _ linksLoaded =>
      let integrity := unknown (check (Some signer)) linksLoaded in
      GroupVerdict.Build_t (plain integrity) (if (integrity === verified) || (integrity === saved_from_link) then via else None)
  end.

Definition groupIntegrityOf (statements : res thrown StatementForms.t) (signature : option bytes) (trust : GroupWriterTrust)
    (personal : option TrustedSigner.t) : GroupVerdict.t :=
  groupVerdictOf trust personal (bool_decide (is_Some signature)) (integrityOf statements signature).

(** [attested]: the re-keyer's signature was checked, and held under their current key. *)
Definition rekeyer_attested (trust : GroupWriterTrust) (personal : option TrustedSigner.t) (signed : bool)
    (check : option TrustedSigner.t → Integrity) : bool :=
  signed && match match trust with
    | trust_outside => Some (check personal)
    | trust_former_member signer _ | trust_roster signer _ _ _ => Some (check (Some signer))
    | trust_unchecked | trust_key_conflict => None
    end with
  | Some integrity => (integrity === verified) || (integrity === seen)
  | None => false
  end.

Definition unchecked_verdict : GroupRekeyedVerdict.t :=
  GroupRekeyedVerdict.Build_t (GroupVerdict.Build_t (plain unchecked) None) (GroupVerdict.Build_t (plain unchecked) None) None.

Definition groupRekeyedIntegrityOf (record : RekeyedRecord.t) (nodeKey : option bytes) (trust : GroupRekeyedTrust.t)
    : GroupRekeyedVerdict.t :=
  match nodeKey with
  | None => unchecked_verdict
  | Some nodeKey =>
      let opened := openOrigin nodeKey record in
      let rekeySigned := bool_decide (is_Some (RekeyedRecord.rekeySignature record)) in
      let rekeyer := groupVerdictOf (GroupRekeyedTrust.rekeyer trust) (GroupRekeyedTrust.rekeyerPersonal trust) rekeySigned
        (checks_rekeyer record) in
      let attested := rekeyer_attested (GroupRekeyedTrust.rekeyer trust) (GroupRekeyedTrust.rekeyerPersonal trust) rekeySigned
        (checks_rekeyer record) in
      let originSigned := bool_decide (is_Some (ServedOrigin.signature (RekeyedRecord.origin record))) in
      match checks_bound opened attested with
      | Some false => GroupRekeyedVerdict.Build_t (GroupVerdict.Build_t (plain bad_signature) None) rekeyer (Some false)
      | None => GroupRekeyedVerdict.Build_t (GroupVerdict.Build_t (plain unchecked) None) rekeyer None
      | Some true =>
          GroupRekeyedVerdict.Build_t
            match ServedOrigin.signerId (RekeyedRecord.origin record) with
            | None => groupVerdictOf trust_outside None originSigned (checks_origin record)
            | Some _ => groupVerdictOf (GroupRekeyedTrust.origin trust) (GroupRekeyedTrust.originPersonal trust) originSigned
                (checks_origin record)
            end rekeyer (Some true)
      end
  end.
End verdicts.

(** ** What the trust rests on *)

Section justified.
Context `{C : Crypto} (input : WriterInput.t) (chain : Body.t) (entry : Member.t).

(** The member's links as served, walked from a set of keys to their served identity. *)
Definition walked (from : PinnedKeys.t) (consentUntil : option PinnedKeys.t) (found : list SuccessionLink.t) : Prop :=
  ∃ served links memberKeys, WriterInput.served input = Some served ∧ WriterInput.links input = Some links ∧
    successionPath (WriterInput.writerUserId input) from served links consentUntil memberKeys = Path found.

(** A key that a walk from [from] replaced: the one it starts at, or a link's but the last. *)
Definition replaced_on (from : PinnedKeys.t) (found : list SuccessionLink.t) (key : bytes) : Prop :=
  decode (PinnedKeys.signingPublicKey from) (Some 32) = Ok key ∨
  ∃ i link, found !! i = Some link ∧ (S i < length found)%nat ∧ decode (SuccessionLink.newSigningPublicKey link) (Some 32) = Ok key.

(** Where a retired key comes from: the reader's pin, the entry, or the
    member's first keys on the chain, whose links count up to the entry's keys
    only and with their successors' consent up to there. *)
Inductive retired_from (key : bytes) : Prop :=
  | from_the_pin pin found :
      WriterInput.pinned input = Some pin →
      walked (WriterPin.keys pin) (if WriterPin.trustedVia pin is Some None then None else to_option (pinnedOf (keySetOf entry))) found →
      replaced_on (WriterPin.keys pin) found key → retired_from key
  | from_the_entry own found :
      pinnedOf (keySetOf entry) = Ok own → walked own None found → replaced_on own found key → retired_from key
  | from_the_first own first found upto :
      pinnedOf (keySetOf entry) = Ok own →
      (∃ set rest, Body.keyHistory chain !! Member.userId entry = Some (set :: rest) ∧ pinnedOf set = Ok first) →
      walked first (Some own) found → upTo found own = Some upto → replaced_on first upto key → retired_from key.
End justified.

(** No keys: nothing is among them. *)
Ltac no_keys H Hin := injection H as <-; by apply not_elem_of_nil in Hin.

Section retirement.
Context `{C : Crypto}.

Lemma removelast_lookup {A} (l : list A) i x : removelast l !! i = Some x → l !! i = Some x ∧ (S i < length l)%nat.
Proof.
  destruct l as [|y l _] using rev_ind; [done|]. rewrite removelast_last. intros Hi. split; [by apply lookup_app_l_Some|].
  apply lookup_lt_Some in Hi. rewrite length_app. cbn. lia.
Qed.

Lemma retiredAlong_replaced from found keys key : retiredAlong from found = Ok keys → key ∈ keys → replaced_on from found key.
Proof.
  unfold retiredAlong. intros (k & Hk & H)%bind_ok. apply bind_ok in H as (rest & Hrest%mapM_ok & [= <-]).
  intros [->|Hin]%elem_of_cons; [by left|]. apply list_elem_of_lookup_1 in Hin as [i Hi].
  destruct (Forall2_lookup_r _ _ _ _ _ Hrest Hi) as (link & Hlink & Hd). apply removelast_lookup in Hlink as [? ?]. right. by exists i, link.
Qed.

Lemma upTo_prefix chain keys found : upTo chain keys = Some found → ∃ rest, chain = found ++ rest.
Proof.
  revert found; induction chain as [|link chain IH]; intros found; [done|]. cbn [upTo]. destruct (link_to keys link).
  - intros [= <-]. by exists chain.
  - intros (f & Hf & ->)%fmap_Some_1. destruct (IH _ Hf) as [rest ->]. by exists rest.
Qed.

Lemma replaced_prefix from found rest key : replaced_on from found key → replaced_on from (found ++ rest) key.
Proof.
  intros [?|(i & link & Hl & Hi & Hd)]; [by left|]. right. exists i, link. split; [by apply lookup_app_l_Some|].
  rewrite length_app. split; [lia|done].
Qed.

Lemma retiredBefore_replaced from found pin keys key : retiredBefore from found pin = Ok keys → key ∈ keys → replaced_on from found key.
Proof.
  unfold retiredBefore. destruct (upTo found pin) as [upto|] eqn:E; [|intros [= <-]; by intros ?%not_elem_of_nil].
  intros Hk Hin. destruct (upTo_prefix _ _ _ E) as [rest ->]. apply replaced_prefix. by eapply retiredAlong_replaced.
Qed.

Context (input : WriterInput.t) (chain : Body.t) (entry : Member.t).

(** What the walks of a writer are. *)
Record walks_ok (walks : Walks.t) : Prop := {
  wk_own : pinnedOf (keySetOf entry) = Ok (Walks.ownKeys walks);
  wk_first first : Walks.firstKeys walks = Some first →
    ∃ set rest, Body.keyHistory chain !! Member.userId entry = Some (set :: rest) ∧ pinnedOf set = Ok first;
  wk_fromFirst first found : Walks.firstKeys walks = Some first → Walks.fromFirst walks = Some found →
    walked input first (Some (Walks.ownKeys walks)) found;
  wk_toEntry upto : Walks.toEntry walks = Some upto →
    ∃ found, Walks.fromFirst walks = Some found ∧ upTo found (Walks.ownKeys walks) = Some upto;
  wk_lag found : Walks.lag walks = Some found → walked input (Walks.ownKeys walks) None found;
  wk_pin pin found : WriterInput.pinned input = Some pin → Walks.fromPin walks = Some found →
    walked input (WriterPin.keys pin) (if WriterPin.trustedVia pin is Some None then None else Some (Walks.ownKeys walks)) found;
}.

Lemma walk_from_walked own history from (consent : bool) found keys : walk_from input own history from consent = Ok found →
  pinnedOf own = Ok keys → ∀ links, path_links found = Some links → walked input from (if consent then Some keys else None) links.
Proof.
  unfold walk_from. intros H Hk links Hl. destruct (WriterInput.served input) as [served|] eqn:Es; [|by injection H as <-].
  destruct (WriterInput.links input) as [ls|] eqn:El; [|by injection H as <-].
  apply bind_ok in H as (until & Hu & H). apply bind_ok in H as (memberKeys & _ & [= <-]). cbn in Hl.
  assert (until = if consent then Some keys else None) as -> by (destruct consent; [rewrite Hk in Hu|]; by injection Hu as <-).
  destruct (successionPath _ _ _ _ _ _) eqn:E; try done. injection Hl as ->. by exists served, ls, memberKeys.
Qed.

Lemma writer_walks_ok walks : writer_walks input chain entry = Ok walks → walks_ok walks.
Proof.
  unfold writer_walks. cbv zeta. intros (firstKeys & Hfirst & H)%bind_ok. apply bind_ok in H as (fromFirst & Hff & H).
  apply bind_ok in H as (own & Hown & H). apply bind_ok in H as (lag & Hlag & H). apply bind_ok in H as (fromPin & Hpin & [= <-]).
  split; cbn.
  - done.
  - intros first ->. destruct (Body.keyHistory chain !! _) as [[|set rest]|]; cbn in Hfirst; [done| |done].
    destruct (sameKeySet set _); [done|]. apply bind_ok in Hfirst as (k & Hk & [= ->]). by exists set, rest.
  - intros first found -> Hf. by eapply (walk_from_walked _ _ _ true).
  - intros upto. destruct (path_links fromFirst) as [links|]; [|done]. by exists links.
  - intros found Hf. by eapply (walk_from_walked _ _ _ false).
  - intros pin found E Hf. rewrite E in Hpin. pose proof (walk_from_walked _ _ _ _ _ _ Hpin Hown _ Hf) as Hw.
    destruct (WriterPin.trustedVia pin) as [[v|]|]; done.
Qed.

Lemma links_dropped_ok walks : walks_ok walks → walks_ok (links_dropped walks).
Proof. intros [? ? ? ? ? ?]. split; cbn; [done|eauto|done..]. Qed.

Lemma retired_keys_from walks keys : walks_ok walks → retired_keys walks (WriterInput.pinned input) = Ok keys →
  Forall (retired_from input chain entry) keys.
Proof.
  intros Hw H. apply Forall_forall. intros key Hin.
  assert (∀ first upto, Walks.firstKeys walks = Some first → Walks.toEntry walks = Some upto → replaced_on first upto key →
    retired_from input chain entry key) as Hfirst.
  { intros first upto Ef Eu Hr. destruct (wk_toEntry _ Hw _ Eu) as (found & Efound & Hu).
    eapply (from_the_first _ _ _ _ _ first found upto); [apply (wk_own _ Hw)|by apply (wk_first _ Hw)|by apply (wk_fromFirst _ Hw)|done|done]. }
  assert (∀ lag, Walks.lag walks = Some lag → replaced_on (Walks.ownKeys walks) lag key → retired_from input chain entry key) as Hlag.
  { intros lag El Hr. eapply (from_the_entry _ _ _ _ _ lag); [apply (wk_own _ Hw)|by apply (wk_lag _ Hw)|done]. }
  unfold retired_keys in H. destruct (WriterInput.pinned input) as [pin|] eqn:Ep.
  - apply bind_ok in H as (a & Ha & H). apply bind_ok in H as (b & Hb & H). apply bind_ok in H as (c & Hc & [= <-]).
    rewrite !elem_of_app in Hin. destruct Hin as [Hin|[Hin|Hin]].
    + destruct (Walks.fromPin walks) as [found|] eqn:E; [|no_keys Ha Hin].
      eapply (from_the_pin _ _ _ _ pin found); [done| |by eapply retiredAlong_replaced].
      rewrite (wk_own _ Hw). by apply (wk_pin _ Hw).
    + destruct (Walks.lag walks) as [lag|] eqn:E; [|no_keys Hb Hin].
      apply (Hlag lag eq_refl). by eapply retiredBefore_replaced.
    + unfold retired_before_pin in Hc. destruct (Walks.toEntry walks) as [upto|]; [|no_keys Hc Hin].
      destruct (Walks.firstKeys walks) as [first|]; [|no_keys Hc Hin].
      destruct (Walks.fromFirst walks) as [found|]; [|no_keys Hc Hin].
      apply (Hfirst first upto eq_refl eq_refl). apply bind_ok in Hc as ([|k ks] & Hb' & Hc).
      * apply bind_ok in Hc as ([|p ps] & _ & Hc); [no_keys Hc Hin|by eapply retiredAlong_replaced].
      * injection Hc as <-. by eapply retiredBefore_replaced.
  - apply bind_ok in H as (a & Ha & H). apply bind_ok in H as (b & Hb & [= <-]). apply elem_of_app in Hin as [Hin|Hin].
    + destruct (Walks.lag walks) as [lag|] eqn:E; [|no_keys Ha Hin].
      apply (Hlag lag eq_refl). by eapply retiredAlong_replaced.
    + destruct (Walks.firstKeys walks) as [first|]; [|no_keys Hb Hin].
      destruct (Walks.toEntry walks) as [upto|]; [|no_keys Hb Hin].
      apply (Hfirst first upto eq_refl eq_refl). by eapply retiredAlong_replaced.
Qed.
End retirement.

(** ** What a trust answered is *)

Section answered.
Context `{C : Crypto}.

(** The stages of an answer that the roster's entry gave. *)
Record weighed (input : WriterInput.t) (chain : Body.t) (entry : Member.t) (walks : Walks.t) (served : option ServedKeys.t)
    (linksLoaded : bool) (signer : TrustedSigner.t) : Prop := {
  we_area : is_Some (WriterInput.areas input !! WriterInput.workspaceId input);
  we_reading : WriterInput.reading input = reading_accepted chain;
  we_group : Body.groupId chain = WriterInput.groupId input;
  we_entry : rosterEntry (Body.roster chain) (WriterInput.writerUserId input) = Some entry;
  we_origin pin : WriterInput.pinned input = Some pin → WriterPin.trustedVia pin ≠ None ∧ WriterPin.trustedVia pin ≠ Some (Some "");
  we_walks : walks_ok input chain entry walks;
  we_served keys : served = Some keys → WriterInput.served input = Some keys;
  we_loaded : linksLoaded = true → is_Some (WriterInput.served input) ∧ is_Some (WriterInput.links input);
  we_current : decode match Walks.lag walks, served with
    | Some _, Some keys => ServedKeys.signingPublicKey keys
    | _, _ => Member.signingPublicKey entry
    end (Some 32) = Ok (TrustedSigner.current signer);
  we_retired : Forall (retired_from input chain entry) (TrustedSigner.retired signer);
  we_seen : TrustedSigner.seen signer = false;
}.

Lemma groupWriterTrust_weighed input trust : groupWriterTrust input = Ok trust →
  trust = trust_outside ∨ trust = trust_unchecked ∨
  ∃ chain entry walks served linksLoaded signer, weighed input chain entry walks served linksLoaded signer ∧
    trust = if Member.status entry === left_ then trust_former_member signer linksLoaded
      else weigh_pin chain entry walks served linksLoaded signer (WriterInput.pinned input).
Proof.
  unfold groupWriterTrust. destruct (WriterInput.areas input !! _) as [floor|] eqn:Ea; [|intros [= <-]; by left].
  destruct (WriterInput.reading input) as [chain| |] eqn:Er; [|intros [= <-]; by left|intros [= <-]; by right; left].
  destruct (Body.groupId chain !== WriterInput.groupId input) eqn:Eg; [intros [= <-]; by right; left|]. bool_simpl.
  destruct (rosterEntry _ _) as [entry|] eqn:Ee; [|intros [= <-]; by left].
  destruct (match WriterInput.pinned input with Some _ => _ | None => false end) eqn:Ep; [intros [= <-]; by right; left|].
  unfold writer_entry_trust. intros (walks & Hw & H)%bind_ok. apply writer_walks_ok in Hw.
  destruct (Walks.forked walks); [injection H as <-; by right; left|]. right; right. exists chain, entry.
  assert (∀ served links (walks : Walks.t), walks_ok input chain entry walks →
    (∀ keys, served = Some keys → WriterInput.served input = Some keys) →
    (∀ ls, links = Some ls → WriterInput.links input = Some ls) →
    (let linksLoaded := bool_decide (is_Some served) && bool_decide (is_Some links) in
     let* retired := retired_keys walks (WriterInput.pinned input) in
     let* current := decode match Walks.lag walks, served with
       | Some _, Some keys => ServedKeys.signingPublicKey keys | _, _ => Member.signingPublicKey entry end (Some 32) in
     let signer := TrustedSigner.Build_t current retired false in
     if Member.status entry === left_ then Ok (trust_former_member signer linksLoaded)
     else Ok (weigh_pin chain entry walks served linksLoaded signer (WriterInput.pinned input))) = Ok trust →
    ∃ walks served linksLoaded signer, weighed input chain entry walks served linksLoaded signer ∧
      trust = if Member.status entry === left_ then trust_former_member signer linksLoaded
        else weigh_pin chain entry walks served linksLoaded signer (WriterInput.pinned input)) as Hweigh.
  { clear H Hw walks. intros served links walks Hw Hserved Hlinks. cbv zeta. intros (retired & Hret & H)%bind_ok.
    apply bind_ok in H as (current & Hcur & H). exists walks, served, (bool_decide (is_Some served) && bool_decide (is_Some links)).
    exists (TrustedSigner.Build_t current retired false). split.
    - split; cbn; try done.
      + intros pin E. rewrite E in Ep. by bool_simpl.
      + intros [[keys Hk]%bool_decide_eq_true [ls Hl]%bool_decide_eq_true]%andb_true_iff. split; eexists; eauto.
      + by eapply retired_keys_from.
    - by destruct (Member.status entry === left_); injection H as <-. }
  destruct (Walks.overflow walks).
  - eapply (Hweigh None None); [by apply links_dropped_ok|done..].
  - by eapply (Hweigh (WriterInput.served input) (WriterInput.links input)).
Qed.
End answered.

Definition trust_signer (trust : GroupWriterTrust) : option TrustedSigner.t :=
  match trust with
  | trust_roster signer _ _ _ | trust_former_member signer _ => Some signer
  | _ => None
  end.
Definition is_former (trust : GroupWriterTrust) : bool :=
  match trust with trust_former_member _ _ => true | _ => false end.

(** The served keys a verified line of the member's own links leads to from their entry. *)
Definition succeeded_to `{C : Crypto} (input : WriterInput.t) (entry : Member.t) (served : ServedKeys.t) : Prop :=
  ∃ own found, pinnedOf (keySetOf entry) = Ok own ∧ walked input own None found ∧ WriterInput.served input = Some served.

Lemma lag_succeeded `{C : Crypto} input chain entry walks served linksLoaded signer keys :
  weighed input chain entry walks served linksLoaded signer → is_Some (Walks.lag walks) → served = Some keys →
  succeeded_to input entry keys.
Proof.
  intros Hw [found Hf] Hs. exists (Walks.ownKeys walks), found. split; [apply (wk_own _ _ _ _ (we_walks _ _ _ _ _ _ _ Hw))|].
  split; [by apply (wk_lag _ _ _ _ (we_walks _ _ _ _ _ _ _ Hw))|by apply (we_served _ _ _ _ _ _ _ Hw)].
Qed.

Lemma weigh_pin_signer `{C : Crypto} chain entry walks served linksLoaded signer pinned s :
  trust_signer (weigh_pin chain entry walks served linksLoaded signer pinned) = Some s → s = signer.
Proof. unfold weigh_pin. intros H. repeat case_match; cbn in H; congruence. Qed.
Lemma weigh_pin_former `{C : Crypto} chain entry walks served linksLoaded signer pinned :
  is_former (weigh_pin chain entry walks served linksLoaded signer pinned) = false.
Proof. unfold weigh_pin. by repeat case_match. Qed.

(** ** Properties *)

(** C6. Whose key a writer is checked under in a group's area: only where the
    group speaks, on an accepted chain, under the key of the writer's entry or
    the one their own verified line of successions leads to from it; a key is
    taken as retired only where such a line, from the reader's pin, the entry
    or the member's first keys, replaced it (from the first keys up to the
    entry only, with every successor's consent); and a member marked left is a
    former member whatever the reader's pin says. *)
Theorem writer_signer_justified `{C : Crypto} input trust signer :
  groupWriterTrust input = Ok trust → trust_signer trust = Some signer →
  ∃ chain entry, WriterInput.reading input = reading_accepted chain ∧ Body.groupId chain = WriterInput.groupId input ∧
    is_Some (WriterInput.areas input !! WriterInput.workspaceId input) ∧
    rosterEntry (Body.roster chain) (WriterInput.writerUserId input) = Some entry ∧
    (is_former trust = true ↔ Member.status entry = left_) ∧
    (decode (Member.signingPublicKey entry) (Some 32) = Ok (TrustedSigner.current signer) ∨
     ∃ served, succeeded_to input entry served ∧
       decode (ServedKeys.signingPublicKey served) (Some 32) = Ok (TrustedSigner.current signer)) ∧
    Forall (retired_from input chain entry) (TrustedSigner.retired signer).
Proof.
  intros H Hs. destruct (groupWriterTrust_weighed _ _ H) as [->|[->|(chain & entry & walks & served & loaded & s & Hw & Ht)]]; [done..|].
  assert (signer = s) as ->.
  { rewrite Ht in Hs. destruct (Member.status entry === left_); [by injection Hs|by eapply weigh_pin_signer]. }
  exists chain, entry. split; [apply (we_reading _ _ _ _ _ _ _ Hw)|]. split; [apply (we_group _ _ _ _ _ _ _ Hw)|].
  split; [apply (we_area _ _ _ _ _ _ _ Hw)|]. split; [apply (we_entry _ _ _ _ _ _ _ Hw)|]. split; [|split].
  - rewrite Ht. destruct (Member.status entry === left_) eqn:E; bool_simpl; [done|]. rewrite weigh_pin_former. done.
  - pose proof (we_current _ _ _ _ _ _ _ Hw) as Hc. destruct (Walks.lag walks) as [found|] eqn:El; [|by left].
    destruct served as [keys|]; [|by left]. right. exists keys. split; [|done]. by eapply lag_succeeded; [exact Hw|rewrite El|].
  - apply (we_retired _ _ _ _ _ _ _ Hw).
Qed.

(** C7. A roster never overrules the reader's own pin: where it vouches for a
    writer the reader has pinned, the pin is the entry's keys, or the keys the
    entry's own verified line leads to, or a verified line leads from the pin
    to the writer's served keys and those are the entry's or come after it;
    and nothing is shown as the reader's own check but a pin that was. *)
Theorem pin_never_overruled `{C : Crypto} input signer via followed linksLoaded :
  groupWriterTrust input = Ok (trust_roster signer via followed linksLoaded) →
  (∀ pin, WriterInput.pinned input = Some pin → ∃ chain entry,
    WriterInput.reading input = reading_accepted chain ∧
    rosterEntry (Body.roster chain) (WriterInput.writerUserId input) = Some entry ∧
    (agrees (WriterPin.keys pin) (Member.encryptionPublicKey entry) (Member.signingPublicKey entry)
       (Some (Member.mlDsaPublicKeyDigest entry)) = true ∨
     (∃ served, succeeded_to input entry served ∧
       agrees (WriterPin.keys pin) (ServedKeys.encryptionPublicKey served) (ServedKeys.signingPublicKey served)
         (mlDsaDigest (ServedKeys.mlDsaPublicKey served)) = true) ∨
     ∃ served found consentUntil, walked input (WriterPin.keys pin) consentUntil found ∧
       (WriterPin.trustedVia pin ≠ Some None → is_Some consentUntil) ∧
       WriterInput.served input = Some served ∧ followed = Some served ∧
       (servedKeysAreEntry served entry = true ∨ succeeded_to input entry served))) ∧
  (via = None → ∃ pin, WriterInput.pinned input = Some pin ∧ WriterPin.trustedVia pin = Some None).
Proof.
  intros H. destruct (groupWriterTrust_weighed _ _ H) as [?|[?|(chain & entry & walks & served & loaded & s & Hw & Ht)]]; [done..|].
  destruct (Member.status entry === left_); [done|]. pose proof (we_walks _ _ _ _ _ _ _ Hw) as Hk. unfold weigh_pin in Ht.
  destruct (WriterInput.pinned input) as [pin|] eqn:Ep; [|injection Ht as _ -> _ _; by split].
  assert (default None (WriterPin.trustedVia pin) = None → WriterPin.trustedVia pin = Some None) as Hvia.
  { destruct (we_origin _ _ _ _ _ _ _ Hw pin Ep) as [Hn _]. destruct (WriterPin.trustedVia pin) as [v|]; cbn; congruence. }
  split; [intros p [= <-]; exists chain, entry; split; [apply (we_reading _ _ _ _ _ _ _ Hw)|];
    split; [apply (we_entry _ _ _ _ _ _ _ Hw)|]|intros ->; exists pin; split; [done|]]; cbv zeta in Ht.
  - destruct (agrees _ _ _ _) eqn:Ea in Ht; [by left|]. right. destruct served as [keys|]; [|done].
    destruct (bool_decide _ && agrees _ _ _ _) eqn:Eb in Ht.
    + bool_simpl. left. exists keys. split; [by eapply lag_succeeded|done].
    + right. destruct (negb loaded); [done|]. destruct ((_ || _) && _) eqn:Ec in Ht; [|done]. injection Ht as _ _ -> _.
      apply andb_true_iff in Ec as [Ec [found Hf]%bool_decide_eq_true]. eexists keys, found, _.
      split; [by apply (wk_pin _ _ _ _ Hk)|]. split; [by destruct (WriterPin.trustedVia pin) as [[?|]|]|].
      split; [by apply (we_served _ _ _ _ _ _ _ Hw)|]. split; [done|].
      apply orb_true_iff in Ec as [?|?%bool_decide_eq_true]; [by left|right; by eapply lag_succeeded].
  - repeat case_match; try done; injection Ht as ? ? ? ?; auto; congruence.
Qed.

(** Verdicts under a group's trust fail closed: no signature is unsigned
    whatever the roster says; a roster that did not load is unchecked; a
    signature is bad only where the writer's links loaded; a former member's
    valid signature is theirs as a former member, never clean; and the group
    is named only for a verified signature under a roster that vouches. *)
Theorem group_verdict_fails_closed `{C : Crypto} statements signature trust personal :
  let verdict := groupIntegrityOf statements signature trust personal in
  (signature = None → GroupVerdict.integrity verdict = plain unsigned) ∧
  (signature ≠ None → trust = trust_unchecked → GroupVerdict.integrity verdict = plain unchecked) ∧
  (signature ≠ None → trust = trust_key_conflict → GroupVerdict.integrity verdict = key_conflict) ∧
  (∀ signer linksLoaded, trust = trust_former_member signer linksLoaded →
    ∀ i, GroupVerdict.integrity verdict = plain i → i ∉ valid_verdicts) ∧
  (GroupVerdict.integrity verdict = plain bad_signature →
    trust = trust_outside ∨ (∃ signer, trust = trust_former_member signer true) ∨
    ∃ signer via followed, trust = trust_roster signer via followed true) ∧
  (∀ g, GroupVerdict.via verdict = Some g → ∃ signer followed linksLoaded i, trust = trust_roster signer (Some g) followed linksLoaded ∧
    GroupVerdict.integrity verdict = plain i ∧ i = integrityOf statements signature (Some signer) ∧ (i = verified ∨ i = saved_from_link)).
Proof.
  cbv zeta. unfold groupIntegrityOf, groupVerdictOf. destruct signature as [sg|].
  - rewrite bool_decide_eq_true_2 by done. generalize (integrityOf statements (Some sg)) as check. intros check. cbn [negb].
    split; [done|]. split; [by intros _ ->|]. split; [by intros _ ->|]. split; [|split].
    + intros signer loaded -> i. cbn. case_bool_decide; [done|]. by intros [= <-].
    + destruct trust as [| |signer via followed []| |signer []]; cbn; try (intros; by eauto 6); unfold unknown.
      * by destruct (check (Some signer)).
      * by destruct (check (Some signer)).
    + intros g. destruct trust as [| |signer via followed loaded| |signer loaded]; cbn; try done. unfold unknown.
      destruct ((check (Some signer) === bad_signature) && negb loaded) eqn:E; cbn; [done|].
      destruct ((_ === verified) || _) eqn:Ev; [|done]. intros ->. exists signer, followed, loaded, (check (Some signer)).
      split; [done|]. split; [done|]. split; [done|]. apply orb_true_iff in Ev as [?%bool_decide_eq_true|?%bool_decide_eq_true]; auto.
  - cbn. split; [done|]. split; [done|]. split; [done|]. split; [|done].
    intros ? ? _ i [= <-]. by apply (bool_decide_eq_false_1 (unsigned ∈ valid_verdicts)).
Qed.

(** ** Witnesses *)

(** A member whose entry names the keys [a], who moved to [b] since: no roster has folded that in. *)
Module WriterWitness.
Import WalkWitness.
Definition entry := Member.Build_t user 1 (enc "a") (enc "a") (digest (C := Toy.crypto) (fill 1952 "a")) RosterWitness.k32 active
  [members_role] 1.
Definition roster := Roster.Build_t RosterWitness.gid family 1 "" 1 user [entry]
  [Area.Build_t RosterWitness.area 1 RosterWitness.k32 (Some RosterWitness.k32) false] format2.
Definition key := GroupPublicKey.Build_t (enc "g") (mlDsa "g").
Definition chain : Body.t :=
  Body.Build_t RosterWitness.gid family roster "" RosterWitness.k32 [RosterWitness.k32] false 1 key RosterWitness.k32 [key] user false
    {[ user := [keySetOf entry] ]} ∅ ∅ [] [] [] []
    (RawCache.Build_t JOther None None JOther None None None JOther None None None None 2 None) None.
Definition input (pinned : option WriterPin.t) : WriterInput.t :=
  WriterInput.Build_t RosterWitness.gid {[ RosterWitness.area := 1 ]} (reading_accepted chain) RosterWitness.area user pinned
    (Some (served "b")) (Some [link "a" "b" 1]).
Definition signer := TrustedSigner.Build_t (fill 32 "b") [fill 32 "a"] false.
Definition own_pin := WriterPin.Build_t (pin "a") (Some None).

Lemma trusts : groupWriterTrust (C := Toy.crypto) (input None) = Ok (trust_roster signer (Some RosterWitness.gid) None true).
Proof. vm_compute. reflexivity. Qed.
Lemma trusts_pinned : groupWriterTrust (C := Toy.crypto) (input (Some own_pin)) =
  Ok (trust_roster (TrustedSigner.Build_t (fill 32 "b") [fill 32 "a"] false) None (Some (served "b")) true).
Proof. vm_compute. reflexivity. Qed.
End WriterWitness.

Lemma writer_signer_justified_witness :
  Forall (retired_from (C := Toy.crypto) (WriterWitness.input None) WriterWitness.chain WriterWitness.entry) [fill 32 "a"].
Proof.
  destruct (writer_signer_justified (C := Toy.crypto) (WriterWitness.input None) _ WriterWitness.signer WriterWitness.trusts eq_refl)
    as (chain & entry & Hr & _ & _ & He & _ & _ & Hk).
  injection Hr as <-. injection He as <-. exact Hk.
Defined.

Lemma pin_never_overruled_witness : ∃ pin, Some WriterWitness.own_pin = Some pin ∧ WriterPin.trustedVia pin = Some None.
Proof.
  refine (proj2 (pin_never_overruled (C := Toy.crypto) (WriterWitness.input (Some WriterWitness.own_pin)) _ _ _ _
    WriterWitness.trusts_pinned) eq_refl).
Defined.

Lemma group_verdict_fails_closed_witness :
  GroupVerdict.integrity (groupIntegrityOf (C := Toy.crypto) (Err OtherError) (Some "") trust_unchecked None) = plain unchecked.
Proof.
  refine (proj1 (proj2 (group_verdict_fails_closed (C := Toy.crypto) (Err OtherError) (Some "") trust_unchecked None)) _ eq_refl).
  discriminate.
Defined.
