(* ===== verification/Areas.v ===== *)
(** * Family folders: which are, and the version each is written under (packages/crypto/src/area-ledger.ts, ids.ts, groups.ts)

    The crypto worker's record of the families whose member list it committed
    and of the family folders (areas) a grant opened: the first half of
    [createAreaLedger]. Its state is [Areas.t]; every function of it is a
    function here, [DriveKeys] holding the keys themselves. A chain is one
    [accept] answered ([Acceptance.Body.t]). The maps keyed by
    [`${groupId}/${workspaceId}`] are keyed by that string. *)

From S2P Require Import Prelude Base64url Bytes Canonical Crypto Signatures Roster Ledger Chain Acceptance.

(** ** Ids derived from a seed and a scope (ids.ts) *)

Inductive IdKind := node_id | version_id | object_id | link_id | report_id | group_id | workspace_id.
Definition id_kind_name (kind : IdKind) : string :=
  match kind with
  | node_id => "node" | version_id => "version" | object_id => "object" | link_id => "link"
  | report_id => "report" | group_id => "group" | workspace_id => "workspace"
  end.
Definition ID_SEED_BYTES : Z := 16.

(** Byte [at_] of [b], its bits [keep] kept and [put] set. *)
Definition with_bits (at_ : nat) (keep put : N) (b : bytes) : bytes :=
  match String.get at_ b with
  | Some c => take_bytes at_ b +:+ String (ascii_of_N (N.lor (N.land (N_of_ascii c) keep) put)) (drop_bytes (S at_) b)
  | None => b
  end.
Definition uuidV8 (digest : bytes) : string :=
  let hex := to_hex (with_bits 8 63 128 (with_bits 6 15 128 (subarray 0 16 digest))) in
  subarray 0 8 hex +:+ "-" +:+ subarray 8 12 hex +:+ "-" +:+ subarray 12 16 hex +:+ "-" +:+
  subarray 16 20 hex +:+ "-" +:+ subarray_from 20 hex.

Definition WRONG_ID : string := "This id was not made for this workspace or group.".

Section ids.
Context `{C : Crypto}.

Definition deriveId (kind : IdKind) (scopeId seed : string) : result string :=
  refuse "Invalid scope id." when slen scopeId =? 0 ;;
  let* _ := recast "Invalid id seed." (decode seed (Some ID_SEED_BYTES)) in
  Ok (uuidV8 (sha256 (json_stringify
    (JArr [JStr "hushos/id"; JInt 1; JStr (id_kind_name kind); JStr (toLowerCase scopeId); JStr seed])))).

Definition checkId (kind : IdKind) (scopeId seed id : string) : result string :=
  match deriveId kind scopeId seed with
  | Ok derived => refuse WRONG_ID when derived !== id ;; Ok id
  | Err _ => Err WRONG_ID
  end.

(** ** What a chain says of an area (groups.ts) *)

Definition areaCommitments (chain : Body.t) (workspaceId : string) : option (list string) :=
  if UUID workspaceId then Body.areaKeys chain !! workspaceId else None.
Definition listedArea (chain : Body.t) (workspaceId : string) (workspaceKeyVersion : Z) : option string :=
  if negb (is_safe_integer workspaceKeyVersion) || (workspaceKeyVersion <? 1) then None
  else match areaCommitments chain workspaceId with
       | Some l => l !! Z.to_nat (workspaceKeyVersion - 1)
       | None => None
       end.
Definition areaWriteVersion (chain : Body.t) (workspaceId : string) : option Z :=
  if bool_decide (workspaceId ∈ Body.retiredAreas chain) then None
  else (λ l, llen l) <$> areaCommitments chain workspaceId.

Definition NOT_LISTED_ROOT : string := "This folder’s key is not the one the group’s member list names.".
(** [true] when the chain lists a root commitment there and the key has it, [false] when a format 1 roster listed the version. *)
Definition checkAreaRoot (chain : Body.t) (workspaceId : string) (workspaceKeyVersion : Z) (rootKey : bytes) : result bool :=
  let* v := integer (JInt workspaceKeyVersion) "workspace key version" in
  refuse RETIRED when bool_decide (workspaceId ∈ Body.retiredAreas chain) ;;
  match listedArea chain workspaceId v with
  | None => Err "This area key version is not on the group’s member list."
  | Some _ =>
      match default [] (Body.areaRoots chain !! workspaceId) !! Z.to_nat (v - 1) with
      | None => Err NOT_LISTED_ROOT
      | Some None => Ok false
      | Some (Some listed) =>
          let* commitment := areaRootCommitment rootKey in
          refuse NOT_LISTED_ROOT when commitment !== listed ;;
          Ok true
      end
  end.
End ids.

(** ** The state *)

Definition KEYS_CHANGED : string := "This folder’s keys changed. Reload to continue.".
Definition NOT_CHECKED_KEYS : string := "Couldn’t check this folder’s keys. Reload to continue.".
Definition AREA_ROOT : string := "A family folder’s top level changes only with the family’s member list.".
Definition NOT_COMMITTED_ROOT : string := "This folder’s key is not the one the family’s member list names.".
Definition KEY_CHANGE_PENDING : string := "This folder’s keys changed: the key change has not reached it yet.".
Definition NOT_CARRIED : string := "This item was added under a key the key change replaces, so it is not carried over.".
Definition OLDER_CHAIN : string := "This device already holds a later member list for this family. Sync again.".
Definition SPLIT_CHAIN : string := "This family’s member list was shown differently to this device.".
Definition GUARD_NOT_KEPT : string := "HushOS couldn’t save this on this device. Free up some space, then try again.".
Definition NO_CHAIN : string := "Check the family’s member list first.".
Definition NOT_THE_FAMILYS : string := "This folder does not belong to the family.".
Definition NOT_LISTED_AREA : string := "This folder is not on the family’s member list.".
Definition ITEM_CHANGED : string := "This item changed since it was opened. Refresh and retry.".
Definition FAMILY_FOLDER : string := "This was refused: it is a family folder.".

Inductive AreaBlock := no_grant_at_latest | server_behind | server_ahead | root_unknown | root_behind.

Module Areas.
Record t := {
  chains : gmap string Body.t; floors : gmap string Body.t; opened : gmap string (gmap string Z);
  areaWrite : gmap string Z; blocked : gmap string AreaBlock; guardOwed : gset string;
  rootSeenAt : gmap string Z; rootIds : gmap string string; personal : gset string;
}.
End Areas.
Definition NO_AREAS : Areas.t := Areas.Build_t ∅ ∅ ∅ ∅ ∅ ∅ ∅ ∅ ∅.

Section setters.
Context (a : Areas.t).
Definition with_chains v : Areas.t := Areas.Build_t v (Areas.floors a) (Areas.opened a) (Areas.areaWrite a) (Areas.blocked a) (Areas.guardOwed a) (Areas.rootSeenAt a) (Areas.rootIds a) (Areas.personal a).
Definition with_floors v : Areas.t := Areas.Build_t (Areas.chains a) v (Areas.opened a) (Areas.areaWrite a) (Areas.blocked a) (Areas.guardOwed a) (Areas.rootSeenAt a) (Areas.rootIds a) (Areas.personal a).
Definition with_opened v : Areas.t := Areas.Build_t (Areas.chains a) (Areas.floors a) v (Areas.areaWrite a) (Areas.blocked a) (Areas.guardOwed a) (Areas.rootSeenAt a) (Areas.rootIds a) (Areas.personal a).
Definition with_areaWrite v : Areas.t := Areas.Build_t (Areas.chains a) (Areas.floors a) (Areas.opened a) v (Areas.blocked a) (Areas.guardOwed a) (Areas.rootSeenAt a) (Areas.rootIds a) (Areas.personal a).
Definition with_blocked v : Areas.t := Areas.Build_t (Areas.chains a) (Areas.floors a) (Areas.opened a) (Areas.areaWrite a) v (Areas.guardOwed a) (Areas.rootSeenAt a) (Areas.rootIds a) (Areas.personal a).
Definition with_guardOwed v : Areas.t := Areas.Build_t (Areas.chains a) (Areas.floors a) (Areas.opened a) (Areas.areaWrite a) (Areas.blocked a) v (Areas.rootSeenAt a) (Areas.rootIds a) (Areas.personal a).
Definition with_rootSeenAt v : Areas.t := Areas.Build_t (Areas.chains a) (Areas.floors a) (Areas.opened a) (Areas.areaWrite a) (Areas.blocked a) (Areas.guardOwed a) v (Areas.rootIds a) (Areas.personal a).
Definition with_rootIds v : Areas.t := Areas.Build_t (Areas.chains a) (Areas.floors a) (Areas.opened a) (Areas.areaWrite a) (Areas.blocked a) (Areas.guardOwed a) (Areas.rootSeenAt a) v (Areas.personal a).
Definition with_personal v : Areas.t := Areas.Build_t (Areas.chains a) (Areas.floors a) (Areas.opened a) (Areas.areaWrite a) (Areas.blocked a) (Areas.guardOwed a) (Areas.rootSeenAt a) (Areas.rootIds a) v.
End setters.

Definition areaSlot (groupId workspaceId : string) : string := groupId +:+ "/" +:+ workspaceId.
(** [at.startsWith(`${scope}/`)], [at.endsWith(`/${name}`)] *)
Definition starts_with (scope at_ : string) : bool := String.prefix (scope +:+ "/") at_.
Definition ends_with (name at_ : string) : bool :=
  let suffix := "/" +:+ name in
  (slen suffix <=? slen at_) && (subarray_from (slen at_ - slen suffix) at_ === suffix).
Definition some_key_ends {A} (name : string) (m : gmap string A) : bool :=
  bool_decide (filter (λ e : string * A, ends_with name e.1 = true) m ≠ ∅).
(** [for (const at of map.keys()) if (at.startsWith(`${scope}/`)) map.delete(at);] *)
Definition drop_under {A} (scope : string) (m : gmap string A) : gmap string A :=
  filter (λ e : string * A, starts_with scope e.1 = false) m.
Definition listed_under {A} (scope : string) (m : gmap string A) : gmap string A :=
  filter (λ e : string * A, starts_with scope e.1 = true) m.

(** ** Which families, and the versions *)

(** The families that opened the area here. *)
Definition openedBy (a : Areas.t) (workspaceId : string) : list string :=
  map fst (filter (λ e : string * gmap string Z, is_Some (e.2 !! workspaceId)) (map_to_list (Areas.opened a))).
Definition openedByFamily (a : Areas.t) (workspaceId : string) : bool := 0 <? llen (openedBy a workspaceId).
(** How many committed chains list the area. *)
Definition listings (a : Areas.t) (workspaceId : string) : Z :=
  llen (filter (λ e : string * Body.t, is_Some (Body.areaKeys e.2 !! workspaceId)) (map_to_list (Areas.chains a))).
Definition familyOf (a : Areas.t) (workspaceId : string) : option string :=
  match openedBy a workspaceId with [groupId] => Some groupId | _ => None end.
(** A family folder whose family has no chain committed here now. *)
Definition heldBack (a : Areas.t) (workspaceId : string) : bool :=
  existsb (λ groupId, bool_decide (Areas.chains a !! groupId = None)) (openedBy a workspaceId).
Definition requireGuardKept (a : Areas.t) (workspaceId : string) : result unit :=
  refuse GUARD_NOT_KEPT when existsb (λ groupId, bool_decide (groupId ∈ Areas.guardOwed a)) (openedBy a workspaceId) ;;
  Ok tt.

Definition isArea (a : Areas.t) (workspaceId : string) : bool :=
  if bool_decide (workspaceId ∈ Areas.personal a) then false
  else openedByFamily a workspaceId || (0 <? listings a workspaceId) ||
    some_key_ends workspaceId (Areas.areaWrite a) || some_key_ends workspaceId (Areas.blocked a) ||
    some_key_ends workspaceId (Areas.rootSeenAt a).

(** The family and version an area is read under; [None] for a workspace that is no family's. *)
Definition readAt (a : Areas.t) (workspaceId : string) : result (option (string * Z)) :=
  if negb (isArea a workspaceId) then Ok None
  else match familyOf a workspaceId with
       | None => Err NOT_CHECKED_KEYS
       | Some groupId =>
           match Areas.areaWrite a !! areaSlot groupId workspaceId with
           | None => Err NOT_CHECKED_KEYS
           | Some version => Ok (Some (groupId, version))
           end
       end.
Definition readVersion (a : Areas.t) (workspaceId : string) : result (option Z) :=
  let* at_ := readAt a workspaceId in Ok (snd <$> at_).

Definition writeVersion (a : Areas.t) (workspaceId : string) : result (option Z) :=
  let* at_ := readAt a workspaceId in
  match at_ with
  | None => Ok None
  | Some (groupId, version) =>
      let key := areaSlot groupId workspaceId in
      refuse KEYS_CHANGED when bool_decide (is_Some (Areas.blocked a !! key)) ;;
      let last_ := Areas.rootSeenAt a !! key in
      refuse KEY_CHANGE_PENDING when match last_ with Some s => s <? version | None => false end ;;
      refuse KEYS_CHANGED when last_ !== Some version ;;
      Ok (Some version)
  end.

(** Why an area may not be written, or [None]. *)
Definition unwritable (a : Areas.t) (groupId workspaceId : string) (latest : Z) : option AreaBlock :=
  let key := areaSlot groupId workspaceId in
  match Areas.blocked a !! key with
  | Some reason => Some reason
  | None =>
      match Areas.rootSeenAt a !! key with
      | None => Some root_unknown
      | Some last_ => if last_ =? latest then None else Some root_behind
      end
  end.

(** Whether a top-level row is another node than the root this family's area already has. *)
Definition notTheRoot (a : Areas.t) (workspaceId nodeId : string) : bool :=
  match familyOf a workspaceId with
  | None => false
  | Some groupId =>
      match Areas.rootIds a !! areaSlot groupId workspaceId with Some root => root !== nodeId | None => false end
  end.

(** ** Committing chains *)

(** Why [chain] may not be committed over [held]: short of it, or beside it. *)
Definition overtakenBy (held chain : Body.t) : option string :=
  let version b := Roster.rosterVersion (Body.roster b) in
  if version chain <? version held then Some OLDER_CHAIN
  else if Body.rosterDigests chain !! Z.to_nat (version held - 1) !== Some (Body.rosterDigest held) then Some SPLIT_CHAIN
  else if Body.groupKeyVersion chain <? Body.groupKeyVersion held then Some OLDER_CHAIN
  else match Body.groupKeys chain !! Z.to_nat (Body.groupKeyVersion held - 1) with
       | Some key => if sameGroupKey key (Body.groupKey held) then None else Some SPLIT_CHAIN
       | None => Some SPLIT_CHAIN
       end.

Definition not_overtaken (held : option Body.t) (chain : Body.t) : result unit :=
  match held with
  | Some held => match overtakenBy held chain with Some refusal => Err refusal | None => Ok tt end
  | None => Ok tt
  end.
Definition checkCommit (a : Areas.t) (chain : Body.t) : result unit :=
  let* _ := not_overtaken (Areas.floors a !! Body.groupId chain) chain in
  not_overtaken (Areas.chains a !! Body.groupId chain) chain.

(** The floor moves to a later roster, or to a later group key at the same roster. *)
Definition raises (floor : option Body.t) (chain : Body.t) : bool :=
  match floor with
  | None => true
  | Some floor =>
      let version b := Roster.rosterVersion (Body.roster b) in
      (version floor <? version chain) ||
      ((version floor =? version chain) && (Body.groupKeyVersion floor <? Body.groupKeyVersion chain))
  end.

Section areas.
Context `{C : Crypto}.

(** One listed area of a chain being committed. *)
Definition commit_area (chain : Body.t) (a : Areas.t) (workspaceId : string) : Areas.t :=
  let key := areaSlot (Body.groupId chain) workspaceId in
  match areaWriteVersion chain workspaceId with
  | None => with_rootSeenAt (with_areaWrite a (delete key (Areas.areaWrite a))) (delete key (Areas.rootSeenAt a))
  | Some version => with_areaWrite a (<[key := version]> (Areas.areaWrite a))
  end.
Definition commit (a : Areas.t) (chain : Body.t) : result Areas.t :=
  let* _ := checkCommit a chain in
  let groupId := Body.groupId chain in
  let floor := Areas.floors a !! groupId in
  let a := with_chains a (<[groupId := chain]> (Areas.chains a)) in
  let a := if raises floor chain then with_floors a (<[groupId := chain]> (Areas.floors a)) else a in
  Ok (foldl (commit_area chain) a (elements (dom (Body.areaKeys chain)))).

Definition uncommit (a : Areas.t) (groupId : string) : Areas.t :=
  with_chains (with_areaWrite a (drop_under groupId (Areas.areaWrite a))) (delete groupId (Areas.chains a)).

Definition owe (a : Areas.t) (groupId : string) : Areas.t := with_guardOwed a ({[groupId]} ∪ Areas.guardOwed a).
Definition kept (a : Areas.t) (groupId : string) : Areas.t := with_guardOwed a (Areas.guardOwed a ∖ {[groupId]}).
Definition owes (a : Areas.t) (groupId : string) : bool := bool_decide (groupId ∈ Areas.guardOwed a).
Definition floor (a : Areas.t) (groupId : string) : option Body.t := Areas.floors a !! groupId.
Definition committedChain (a : Areas.t) (groupId : string) : option Body.t := Areas.chains a !! groupId.

(** What forgetting a family drops here; its folders' keys are [DriveKeys.forgetGroup]'s. *)
Definition forget_areas (a : Areas.t) (groupId : string) : Areas.t := {|
  Areas.chains := delete groupId (Areas.chains a); Areas.floors := delete groupId (Areas.floors a);
  Areas.opened := delete groupId (Areas.opened a); Areas.areaWrite := drop_under groupId (Areas.areaWrite a);
  Areas.blocked := drop_under groupId (Areas.blocked a); Areas.guardOwed := Areas.guardOwed a ∖ {[groupId]};
  Areas.rootSeenAt := drop_under groupId (Areas.rootSeenAt a); Areas.rootIds := drop_under groupId (Areas.rootIds a);
  Areas.personal := Areas.personal a |}.

(** The family and chain that say which root is the area's; [None] when nothing does. *)
Definition root_asked (a : Areas.t) (workspaceId : string) : option (string * Body.t) :=
  if negb (isArea a workspaceId) then None
  else match familyOf a workspaceId with
  | None => None
  | Some groupId => (λ chain, (groupId, chain)) <$> (Areas.chains a !! groupId)
  end.
(** What the check of the root's key is recorded as, once it is answered. *)
Definition root_answered (a : Areas.t) (groupId workspaceId nodeId : string) (parentKeyEpoch : Z) (checked : result bool)
    : Areas.t * bool :=
  let key := areaSlot groupId workspaceId in
  match checked with
  | Err _ =>
      (if (Areas.rootSeenAt a !! key === Some parentKeyEpoch) || (Areas.areaWrite a !! key === Some parentKeyEpoch)
       then with_rootSeenAt a (delete key (Areas.rootSeenAt a)) else a, false)
  | Ok _ =>
      let a := if match Areas.rootSeenAt a !! key with Some last_ => last_ <? parentKeyEpoch | None => true end
        then with_rootSeenAt a (<[key := parentKeyEpoch]> (Areas.rootSeenAt a)) else a in
      (if bool_decide (Areas.rootIds a !! key = None) && (Areas.areaWrite a !! key === Some parentKeyEpoch)
       then with_rootIds a (<[key := nodeId]> (Areas.rootIds a)) else a, true)
  end.

(** An area key a grant opened, checked: the area's latest version and why it may not be written there. *)
Definition check_area_key (a : Areas.t) (groupId workspaceId idSeed : string) (version : Z) (key : bytes) (served : Z)
    : result (Z * option AreaBlock) :=
  let* _ := uuid (JStr groupId) "group id" in
  match Areas.chains a !! groupId with
  | None => Err NO_CHAIN
  | Some chain =>
      let* _ := uuid (JStr workspaceId) "workspace id" in
      refuse NOT_THE_FAMILYS when bool_decide (workspaceId ∈ Areas.personal a) ;;
      let* _ := recast NOT_THE_FAMILYS (checkId workspace_id groupId idSeed workspaceId) in
      match areaWriteVersion chain workspaceId with
      | None => Err NOT_LISTED_AREA
      | Some latest =>
          refuse NOT_CHECKED_KEYS when version <? 1 ;;
          let* commitment := areaKeyCommitment key in
          refuse NOT_CHECKED_KEYS when
            default [] (Body.areaKeys chain !! workspaceId) !! Z.to_nat (version - 1) !== Some commitment ;;
          Ok (latest,
            if version <? latest then Some no_grant_at_latest
            else if served <? latest then Some server_behind
            else if latest <? served then Some server_ahead else None)
      end
  end.
(** And recorded: the family opened it, and it is blocked while behind the chain or the server. *)
Definition record_opened (a : Areas.t) (groupId workspaceId : string) (version : Z) : Areas.t :=
  let areas := default ∅ (Areas.opened a !! groupId) in
  with_opened a (<[groupId := <[workspaceId := Z.max (default 0 (areas !! workspaceId)) version]> areas]> (Areas.opened a)).
Definition record_blocked (a : Areas.t) (groupId workspaceId : string) (reason : option AreaBlock) : Areas.t :=
  let at_ := areaSlot groupId workspaceId in
  with_blocked a match reason with
    | Some reason => <[at_ := reason]> (Areas.blocked a)
    | None => delete at_ (Areas.blocked a)
    end.
End areas.
