(* ===== verification/DriveKeys.v ===== *)
(** * The crypto worker's Drive keys (packages/crypto/src/area-ledger.ts)

    The second half of [createAreaLedger]: every workspace key and node key the
    session opened, which of them a write may use, listings, new nodes and the
    walks of a rotation. Keys are [Uint8Array]s that the code shares and
    zeroes, so a key is a buffer of the store [Worker.mem], and every
    [key.fill(0)] writes it. A function that awaits takes [others]: what other
    tasks of the worker made of the state while it waited. *)

From S2P Require Import Prelude Base64url Bytes Canonical Crypto Envelopes Roster Ledger Acceptance Areas.

Definition buf := positive.

Module Workspace.
Record t := { current : Z; keys : gmap Z buf }.
End Workspace.
(** [own]: a previous key this device opened itself as the node's current key. *)
Module NodeKey.
Record t := { key : buf; epoch : Z; own : bool }.
End NodeKey.
Module PendingKey.
Record t := { fresh : buf; epoch : Z; old : buf; oldEpoch : Z; rootedAt : option Z }.
End PendingKey.
(** A node key envelope as a listing serves it, with its previous one while a rotation runs. *)
Module ServedNodeKey.
Record t := {
  id : string; parentId : string; parentKeyEpoch : Z; keyEpoch : Z; keyEnvelope : string;
  prevKeyEnvelope : option string; prevKeyEpoch : option Z; prevParentKeyEpoch : option Z;
}.
End ServedNodeKey.
Module RotatingNodeKey.
Record t := {
  id : string; parentId : string; parentKeyEpoch : Z; keyEpoch : Z; wrappedParentKeyEpoch : Z; keyEnvelope : string;
}.
End RotatingNodeKey.
Module NewNode.
Record t := { id : string; parentId : string; parentKeyEpoch : Z; keyEpoch : Z }.
End NewNode.

(** The worker: its areas, the buffers, and the keys. *)
Module Worker.
Record t := {
  areas : Areas.t;
  mem : gmap buf bytes;
  workspaceKeys : gmap string Workspace.t;
  ownNodeKeys : gmap string NodeKey.t;
  guestNodeKeys : gmap string NodeKey.t;
  ownPrevNodeKeys : gmap string NodeKey.t;
  guestPrevNodeKeys : gmap string NodeKey.t;
  lineage : gmap string (option Z);
  pendingNodeKeys : gmap string PendingKey.t;
  rootOpenedUnder : gmap string Z;
}.
End Worker.

Section worker_setters.
Context (s : Worker.t).
Definition set_areas v : Worker.t := Worker.Build_t v (Worker.mem s) (Worker.workspaceKeys s) (Worker.ownNodeKeys s) (Worker.guestNodeKeys s) (Worker.ownPrevNodeKeys s) (Worker.guestPrevNodeKeys s) (Worker.lineage s) (Worker.pendingNodeKeys s) (Worker.rootOpenedUnder s).
Definition set_mem v : Worker.t := Worker.Build_t (Worker.areas s) v (Worker.workspaceKeys s) (Worker.ownNodeKeys s) (Worker.guestNodeKeys s) (Worker.ownPrevNodeKeys s) (Worker.guestPrevNodeKeys s) (Worker.lineage s) (Worker.pendingNodeKeys s) (Worker.rootOpenedUnder s).
Definition set_workspaceKeys v : Worker.t := Worker.Build_t (Worker.areas s) (Worker.mem s) v (Worker.ownNodeKeys s) (Worker.guestNodeKeys s) (Worker.ownPrevNodeKeys s) (Worker.guestPrevNodeKeys s) (Worker.lineage s) (Worker.pendingNodeKeys s) (Worker.rootOpenedUnder s).
Definition set_ownNodeKeys v : Worker.t := Worker.Build_t (Worker.areas s) (Worker.mem s) (Worker.workspaceKeys s) v (Worker.guestNodeKeys s) (Worker.ownPrevNodeKeys s) (Worker.guestPrevNodeKeys s) (Worker.lineage s) (Worker.pendingNodeKeys s) (Worker.rootOpenedUnder s).
Definition set_guestNodeKeys v : Worker.t := Worker.Build_t (Worker.areas s) (Worker.mem s) (Worker.workspaceKeys s) (Worker.ownNodeKeys s) v (Worker.ownPrevNodeKeys s) (Worker.guestPrevNodeKeys s) (Worker.lineage s) (Worker.pendingNodeKeys s) (Worker.rootOpenedUnder s).
Definition set_ownPrevNodeKeys v : Worker.t := Worker.Build_t (Worker.areas s) (Worker.mem s) (Worker.workspaceKeys s) (Worker.ownNodeKeys s) (Worker.guestNodeKeys s) v (Worker.guestPrevNodeKeys s) (Worker.lineage s) (Worker.pendingNodeKeys s) (Worker.rootOpenedUnder s).
Definition set_guestPrevNodeKeys v : Worker.t := Worker.Build_t (Worker.areas s) (Worker.mem s) (Worker.workspaceKeys s) (Worker.ownNodeKeys s) (Worker.guestNodeKeys s) (Worker.ownPrevNodeKeys s) v (Worker.lineage s) (Worker.pendingNodeKeys s) (Worker.rootOpenedUnder s).
Definition set_lineage v : Worker.t := Worker.Build_t (Worker.areas s) (Worker.mem s) (Worker.workspaceKeys s) (Worker.ownNodeKeys s) (Worker.guestNodeKeys s) (Worker.ownPrevNodeKeys s) (Worker.guestPrevNodeKeys s) v (Worker.pendingNodeKeys s) (Worker.rootOpenedUnder s).
Definition set_pendingNodeKeys v : Worker.t := Worker.Build_t (Worker.areas s) (Worker.mem s) (Worker.workspaceKeys s) (Worker.ownNodeKeys s) (Worker.guestNodeKeys s) (Worker.ownPrevNodeKeys s) (Worker.guestPrevNodeKeys s) (Worker.lineage s) v (Worker.rootOpenedUnder s).
Definition set_rootOpenedUnder v : Worker.t := Worker.Build_t (Worker.areas s) (Worker.mem s) (Worker.workspaceKeys s) (Worker.ownNodeKeys s) (Worker.guestNodeKeys s) (Worker.ownPrevNodeKeys s) (Worker.guestPrevNodeKeys s) (Worker.lineage s) (Worker.pendingNodeKeys s) v.
End worker_setters.

(** ** Tasks of the worker

    A task reads and changes the worker and answers or throws; what it changed
    before a throw stays. *)
Definition op (A : Type) : Type := Worker.t → Worker.t * result A.
#[export] Instance op_ret : MRet op := λ A a s, (s, Ok a).
#[export] Instance op_bind : MBind op := λ A B f m s,
  match m s with (s, Ok a) => f a s | (s, Err e) => (s, Err e) end.

Definition throw {A} (e : string) : op A := λ s, (s, Err e).
(** What a function that only reads the worker answers. *)
Definition ask {A} (f : Worker.t → result A) : op A := λ s, (s, f s).
Definition get {A} (f : Worker.t → A) : op A := λ s, (s, Ok (f s)).
Definition update (f : Worker.t → Worker.t) : op unit := λ s, (f s, Ok tt).
(** [try { m } catch (e) { cleanup; throw e; }] *)
Definition on_error {A} (m : op A) (cleanup : op unit) : op A := λ s,
  match m s with (s, Ok a) => (s, Ok a) | (s, Err e) => ((cleanup s).1, Err e) end.
(** [try { m } catch { /* nothing */ }] *)
Definition attempt {A} (m : op A) : op (option A) := λ s,
  match m s with (s, Ok a) => (s, Ok (Some a)) | (s, Err _) => (s, Ok None) end.
Definition unless_op (b : bool) (e : string) : op unit := if b then mret tt else throw e.
Definition when_op (b : bool) (m : op unit) : op unit := if b then m else mret tt.

(** A buffer's bytes, a new buffer, and [fill(0)]. *)
Definition bytes_at (mem : gmap buf bytes) (b : buf) : bytes := default "" (mem !! b).
Definition read (b : buf) : op bytes := get (λ s, bytes_at (Worker.mem s) b).
Definition new_buffer (v : bytes) : op buf := λ s,
  let b := fresh (dom (Worker.mem s)) in (set_mem s (<[b := v]> (Worker.mem s)), Ok b).
Definition zeros (v : bytes) : bytes := fill (String.length v) "000".
Definition zero_in (mem : gmap buf bytes) (b : buf) : gmap buf bytes := alter zeros b mem.
Definition zero (b : buf) : op unit := update (λ s, set_mem s (zero_in (Worker.mem s) b)).
Definition zero_all (l : list buf) : op unit := update (λ s, set_mem s (foldl zero_in (Worker.mem s) l)).
Definition zero_option (b : option buf) : op unit := match b with Some b => zero b | None => mret tt end.
(** [key.slice()] *)
Definition copy (b : buf) : op buf := v ← read b; new_buffer v.

Definition slot (workspaceId nodeId : string) : string := workspaceId +:+ "/" +:+ nodeId.

(** ** Workspace keys *)

Definition hasWorkspace (s : Worker.t) (workspaceId : string) : bool :=
  bool_decide (is_Some (Worker.workspaceKeys s !! workspaceId)).
Definition workspaceKey (s : Worker.t) (workspaceId : string) (version : Z) : option buf :=
  w ← Worker.workspaceKeys s !! workspaceId; Workspace.keys w !! version.
(** Every key version held, newest first. *)
Definition workspaceVersions (s : Worker.t) (workspaceId : string) : option (list Z) :=
  (λ w, reverse (merge_sort Z.le (elements (dom (Workspace.keys w))))) <$> Worker.workspaceKeys s !! workspaceId.

Definition holdWorkspaceKey (workspaceId : string) (version : Z) (key : buf) : op unit :=
  entry ← get (λ s, default (Workspace.Build_t version ∅) (Worker.workspaceKeys s !! workspaceId));
  _ ← zero_option (Workspace.keys entry !! version);
  update (λ s, set_workspaceKeys s (<[workspaceId :=
    Workspace.Build_t (Z.max (Workspace.current entry) version) (<[version := key]> (Workspace.keys entry))]>
    (Worker.workspaceKeys s))).

(** The keys a map of node keys holds, and those of the pending ones. *)
Definition held_keys (m : gmap string NodeKey.t) : list buf := map (λ e, NodeKey.key e.2) (map_to_list m).
Definition pending_keys (m : gmap string PendingKey.t) : list buf :=
  map (λ e, PendingKey.fresh e.2) (map_to_list m) ++ map (λ e, PendingKey.old e.2) (map_to_list m).
Definition workspace_keys (w : Workspace.t) : list buf := map snd (map_to_list (Workspace.keys w)).

(** A workspace's keys and every node key under it, zeroed. *)
Definition dropWorkspace (workspaceId : string) : op unit :=
  _ ← (λ s, zero_all (match Worker.workspaceKeys s !! workspaceId with Some w => workspace_keys w | None => [] end ++
      concat (map (λ pool, held_keys (listed_under workspaceId pool))
        [Worker.ownNodeKeys s; Worker.guestNodeKeys s; Worker.ownPrevNodeKeys s; Worker.guestPrevNodeKeys s]) ++
      pending_keys (listed_under workspaceId (Worker.pendingNodeKeys s))) s) : op unit;
  update (λ s, {|
    Worker.areas := Worker.areas s; Worker.mem := Worker.mem s;
    Worker.workspaceKeys := delete workspaceId (Worker.workspaceKeys s);
    Worker.ownNodeKeys := drop_under workspaceId (Worker.ownNodeKeys s);
    Worker.guestNodeKeys := drop_under workspaceId (Worker.guestNodeKeys s);
    Worker.ownPrevNodeKeys := drop_under workspaceId (Worker.ownPrevNodeKeys s);
    Worker.guestPrevNodeKeys := drop_under workspaceId (Worker.guestPrevNodeKeys s);
    Worker.lineage := drop_under workspaceId (Worker.lineage s);
    Worker.pendingNodeKeys := drop_under workspaceId (Worker.pendingNodeKeys s);
    Worker.rootOpenedUnder := drop_under workspaceId (Worker.rootOpenedUnder s) |}).

(** Every key, zeroed: a lock. *)
Definition every_key (s : Worker.t) : list buf :=
  concat (map (λ e : string * Workspace.t, workspace_keys e.2) (map_to_list (Worker.workspaceKeys s))) ++
  held_keys (Worker.ownNodeKeys s) ++ held_keys (Worker.guestNodeKeys s) ++
  held_keys (Worker.ownPrevNodeKeys s) ++ held_keys (Worker.guestPrevNodeKeys s) ++
  pending_keys (Worker.pendingNodeKeys s).
Definition clear : op unit :=
  _ ← (λ s, zero_all (every_key s) s) : op unit;
  update (λ s, Worker.Build_t (with_personal (Worker.areas s) ∅) (Worker.mem s) ∅ ∅ ∅ ∅ ∅ ∅ ∅ ∅).

(** The family's part of the areas' own operations. *)
Definition openPersonalWorkspace (workspaceId : string) (version : Z) (key : buf) : op unit :=
  _ ← ask (λ s, refuse FAMILY_FOLDER when openedByFamily (Worker.areas s) workspaceId ;; Ok tt);
  _ ← update (λ s, set_areas s (with_personal (Worker.areas s) ({[workspaceId]} ∪ Areas.personal (Worker.areas s))));
  holdWorkspaceKey workspaceId version key.

Fixpoint each_op {A} (f : A → op unit) (l : list A) : op unit :=
  match l with [] => mret tt | x :: rest => _ ← f x; each_op f rest end.

Definition forgetGroup (groupId : string) : op unit :=
  folders ← get (λ s, elements (dom (default ∅ (Areas.opened (Worker.areas s) !! groupId))));
  _ ← each_op dropWorkspace folders;
  update (λ s, set_areas s (forget_areas (Worker.areas s) groupId)).
Definition forgetAllGroups : op unit :=
  families ← get (λ s, let a := Worker.areas s in
    elements (dom (Areas.chains a) ∪ dom (Areas.opened a) ∪ dom (Areas.floors a)));
  _ ← update (λ s, set_areas s (with_guardOwed (Worker.areas s) ∅));
  each_op forgetGroup families.

Section families.
Context `{C : Crypto}.

Definition commit_chain (chain : Body.t) : op unit :=
  a ← ask (λ s, commit (Worker.areas s) chain); update (λ s, set_areas s a).
Definition openArea (others : Worker.t → Worker.t) (groupId workspaceId idSeed : string) (version : Z) (key : buf) (served : Z)
    : op (option AreaBlock) :=
  v ← read key;
  checked ← ask (λ s, check_area_key (Worker.areas s) groupId workspaceId idSeed version v served);
  let '(latest, reason) := checked : Z * option AreaBlock in
  _ ← update others;
  _ ← update (λ s, set_areas s (record_opened (Worker.areas s) groupId workspaceId version));
  _ ← holdWorkspaceKey workspaceId version key;
  _ ← update (λ s, set_areas s (record_blocked (Worker.areas s) groupId workspaceId reason));
  get (λ s, unwritable (Worker.areas s) groupId workspaceId latest).
End families.

(** [requireWritable], which every Drive write calls. *)
Definition requireWritable (s : Worker.t) (workspaceId : string) : result unit :=
  let* _ := requireGuardKept (Worker.areas s) workspaceId in
  let* version := writeVersion (Worker.areas s) workspaceId in
  match version with
  | None => Ok tt
  | Some version => refuse KEYS_CHANGED when bool_decide (workspaceKey s workspaceId version = None) ;; Ok tt
  end.

(** ** Node keys *)

Definition nodeKeysOf (s : Worker.t) (workspaceId : string) : gmap string NodeKey.t :=
  if hasWorkspace s workspaceId then Worker.ownNodeKeys s else Worker.guestNodeKeys s.
Definition prevNodeKeysOf (s : Worker.t) (workspaceId : string) : gmap string NodeKey.t :=
  if hasWorkspace s workspaceId then Worker.ownPrevNodeKeys s else Worker.guestPrevNodeKeys s.
Definition set_nodeKeysOf (s : Worker.t) (workspaceId : string) (m : gmap string NodeKey.t) : Worker.t :=
  if hasWorkspace s workspaceId then set_ownNodeKeys s m else set_guestNodeKeys s m.
Definition set_prevNodeKeysOf (s : Worker.t) (workspaceId : string) (m : gmap string NodeKey.t) : Worker.t :=
  if hasWorkspace s workspaceId then set_ownPrevNodeKeys s m else set_guestPrevNodeKeys s m.

Definition nodeKey (s : Worker.t) (workspaceId nodeId : string) : option NodeKey.t :=
  if heldBack (Worker.areas s) workspaceId then None else nodeKeysOf s workspaceId !! slot workspaceId nodeId.
Definition prevNodeKey (s : Worker.t) (workspaceId nodeId : string) : option NodeKey.t :=
  if heldBack (Worker.areas s) workspaceId then None else prevNodeKeysOf s workspaceId !! slot workspaceId nodeId.
Definition forgetNodeKey (workspaceId nodeId : string) : op unit :=
  update (λ s, set_nodeKeysOf s workspaceId (delete (slot workspaceId nodeId) (nodeKeysOf s workspaceId))).
Definition keyAtEpoch (s : Worker.t) (workspaceId nodeId : string) (epoch : Z) : option buf :=
  match nodeKey s workspaceId nodeId with
  | Some current => if NodeKey.epoch current =? epoch then Some (NodeKey.key current) else
      match prevNodeKey s workspaceId nodeId with
      | Some previous => if NodeKey.epoch previous =? epoch then Some (NodeKey.key previous) else None
      | None => None
      end
  | None =>
      match prevNodeKey s workspaceId nodeId with
      | Some previous => if NodeKey.epoch previous =? epoch then Some (NodeKey.key previous) else None
      | None => None
      end
  end.
Definition refuseOwnWorkspace (s : Worker.t) (workspaceId : string) : result unit :=
  refuse "This was refused: it claims to be a folder of your own." when hasWorkspace s workspaceId ;; Ok tt.

(** What a node's key is rooted at, [None] for one reached through a previous key. *)
Definition lineage_of (s : Worker.t) (workspaceId nodeId : string) : option Z :=
  mjoin (Worker.lineage s !! slot workspaceId nodeId).

(** The key a node is wrapped under, to open it, and what it is rooted at. *)
Definition parentKeyAndRoot (s : Worker.t) (workspaceId parentId : string) (parentKeyEpoch : Z) : result (buf * option Z) :=
  if parentId === workspaceId then
    match Worker.workspaceKeys s !! workspaceId with
    | None => Err "Open Drive again to continue."
    | Some workspace =>
        match Workspace.keys workspace !! parentKeyEpoch with
        | None => Err "This folder was wrapped under an older workspace key."
        | Some key => Ok (key, Some parentKeyEpoch)
        end
    end
  else
    let at_ := slot workspaceId parentId in
    let held :=
      match nodeKey s workspaceId parentId with
      | None => Err "Open the containing folder first."
      | Some parent =>
          if NodeKey.epoch parent =? parentKeyEpoch then Ok (NodeKey.key parent, lineage_of s workspaceId parentId)
          else match prevNodeKeysOf s workspaceId !! at_ with
               | Some previous => if NodeKey.epoch previous =? parentKeyEpoch then Ok (NodeKey.key previous, None)
                   else Err "This item was wrapped under an older folder key."
               | None => Err "This item was wrapped under an older folder key."
               end
      end in
    match Worker.pendingNodeKeys s !! at_ with
    | Some pending =>
        if PendingKey.epoch pending =? parentKeyEpoch then Ok (PendingKey.fresh pending, PendingKey.rootedAt pending)
        else if PendingKey.oldEpoch pending =? parentKeyEpoch then Ok (PendingKey.old pending, None)
        else held
    | None => held
    end.
Definition parentKeyFor (s : Worker.t) (workspaceId parentId : string) (parentKeyEpoch : Z) : result buf :=
  let* (key, _) := parentKeyAndRoot s workspaceId parentId parentKeyEpoch in Ok key.
Definition rootOf (s : Worker.t) (workspaceId parentId : string) (parentKeyEpoch : Z) : result (option Z) :=
  let* (_, rootedAt) := parentKeyAndRoot s workspaceId parentId parentKeyEpoch in Ok rootedAt.

(** Whether a key rooted at [rootedAt] is rooted at the area's write version now. *)
Definition rootedNow (s : Worker.t) (workspaceId : string) (rootedAt : option Z) : result bool :=
  match rootedAt with
  | None => Ok false
  | Some v => let* version := writeVersion (Worker.areas s) workspaceId in Ok (Some v === version)
  end.
Definition rootedAtWriteVersion (s : Worker.t) (workspaceId nodeId : string) : result bool :=
  rootedNow s workspaceId (lineage_of s workspaceId nodeId).

(** A node's key for a write that puts something under it. *)
Definition writableNodeKey (s : Worker.t) (workspaceId nodeId : string) : result (option NodeKey.t) :=
  refuse NO_CHAIN when heldBack (Worker.areas s) workspaceId ;;
  let* _ := requireGuardKept (Worker.areas s) workspaceId in
  let node := nodeKey s workspaceId nodeId in
  match node with
  | None => Ok None
  | Some _ =>
      if isArea (Worker.areas s) workspaceId then
        let* rooted := rootedAtWriteVersion s workspaceId nodeId in
        refuse KEY_CHANGE_PENDING unless (rooted : bool) ;; Ok node
      else Ok node
  end.

(** The workspace key version new things are wrapped under, and the key. *)
Definition writeVersionOf (s : Worker.t) (workspaceId : string) : result (Z * buf) :=
  let* _ := requireGuardKept (Worker.areas s) workspaceId in
  match Worker.workspaceKeys s !! workspaceId with
  | None => Err "Open Drive again to continue."
  | Some workspace =>
      let* version := writeVersion (Worker.areas s) workspaceId in
      let version := default (Workspace.current workspace) version in
      match Workspace.keys workspace !! version with None => Err KEYS_CHANGED | Some key => Ok (version, key) end
  end.

(** A parent's own current key, not being replaced ([current]): rooted at the write version. *)
Definition wrap_under (s : Worker.t) (workspaceId parentId : string) (parentKeyEpoch : Z) (current : bool) : result buf :=
  match nodeKey s workspaceId parentId with
  | None => Err "Open the containing folder first."
  | Some parent =>
      let* rooted := rootedAtWriteVersion s workspaceId parentId in
      refuse KEY_CHANGE_PENDING unless (rooted : bool) ;;
      refuse KEYS_CHANGED unless (NodeKey.epoch parent =? parentKeyEpoch) && current ;;
      Ok (NodeKey.key parent)
  end.
(** The key a new or re-wrapped node goes under. *)
Definition wrapKeyFor (s : Worker.t) (workspaceId parentId : string) (parentKeyEpoch : Z) : result buf :=
  let* _ := requireGuardKept (Worker.areas s) workspaceId in
  if parentId === workspaceId then
    refuse AREA_ROOT when isArea (Worker.areas s) workspaceId ;;
    let* (version, key) := writeVersionOf s workspaceId in
    refuse KEYS_CHANGED unless version =? parentKeyEpoch ;;
    Ok key
  else if negb (isArea (Worker.areas s) workspaceId) then parentKeyFor s workspaceId parentId parentKeyEpoch
  else
    let pending := Worker.pendingNodeKeys s !! slot workspaceId parentId in
    match pending with
    | Some p =>
        if PendingKey.epoch p =? parentKeyEpoch then
          let* rooted := rootedNow s workspaceId (PendingKey.rootedAt p) in
          refuse KEY_CHANGE_PENDING unless (rooted : bool) ;; Ok (PendingKey.fresh p)
        else wrap_under s workspaceId parentId parentKeyEpoch (negb (PendingKey.oldEpoch p =? parentKeyEpoch))
    | None => wrap_under s workspaceId parentId parentKeyEpoch true
    end.

(** [pool.get(at)?.key.fill(0)] *)
Definition held_key (e : option NodeKey.t) : option buf := NodeKey.key <$> e.

Definition rememberNodeKey (workspaceId nodeId : string) (key : buf) (epoch : Z) (rootedAt : option Z) : op unit :=
  let at_ := slot workspaceId nodeId in
  before ← get (λ s, held_key (nodeKeysOf s workspaceId !! at_));
  _ ← zero_option before;
  _ ← update (λ s, set_nodeKeysOf s workspaceId (<[at_ := NodeKey.Build_t key epoch false]> (nodeKeysOf s workspaceId)));
  _ ← update (λ s, set_lineage s (<[at_ := rootedAt]> (Worker.lineage s)));
  update (λ s, set_rootOpenedUnder s (delete at_ (Worker.rootOpenedUnder s))).
Definition rememberPrevNodeKey (workspaceId nodeId : string) (key : buf) (epoch : Z) (own : bool) : op unit :=
  let at_ := slot workspaceId nodeId in
  before ← get (λ s, held_key (prevNodeKeysOf s workspaceId !! at_));
  _ ← zero_option before;
  update (λ s, set_prevNodeKeysOf s workspaceId (<[at_ := NodeKey.Build_t key epoch own]> (prevNodeKeysOf s workspaceId))).

(** ** Listings *)

Section listings.
Context `{C : Crypto}.

(** [await openNodeKey(envelope, parent, ctx)], into a buffer of its own. *)
Definition open_envelope (others : Worker.t → Worker.t) (envelope : bytes) (parent : buf) (ctx : NodeKeyContext.t) : op buf :=
  k ← read parent;
  _ ← update others;
  v ← ask (λ _, openNodeKey envelope k ctx);
  new_buffer v.

(** An area root's previous key under the new area key is the previous-root
    envelope's; one a Drive batch kept is a plain node key. *)
Definition open_previous (others : Worker.t → Worker.t) (areaRoot : bool) (envelope : bytes) (parent : buf) (ctx : NodeKeyContext.t)
    : op buf :=
  k ← read parent;
  _ ← update others;
  k' ← read parent;
  v ← ask (λ _,
    if areaRoot then
      match openPreviousRootKey envelope k ctx with Ok v => Ok v | Err _ => openNodeKey envelope k' ctx end
    else openNodeKey envelope k ctx);
  new_buffer v.

(** [rootSeen]: what the committed chain of the area's family says of a root just opened. *)
Definition rootSeen (others : Worker.t → Worker.t) (workspaceId nodeId : string) (parentKeyEpoch : Z) (rootKey : buf) : op bool :=
  asked ← get (λ s, root_asked (Worker.areas s) workspaceId);
  match asked with
  | None => mret true
  | Some (groupId, chain) =>
      k ← read rootKey;
      let checked := checkAreaRoot chain workspaceId parentKeyEpoch k in
      _ ← update others;
      answered ← get (λ s, root_answered (Worker.areas s) groupId workspaceId nodeId parentKeyEpoch checked);
      _ ← update (λ s, set_areas s answered.1);
      mret answered.2
  end.

Definition requireCommitted (workspaceId : string) : op unit :=
  ask (λ s, refuse NO_CHAIN when heldBack (Worker.areas s) workspaceId ;; Ok tt).

(** The node's key taken from the session, when the row names the very key it holds. *)
Definition cached_key (s : Worker.t) (workspaceId : string) (node : ServedNodeKey.t) (areaRoot : bool) : option buf :=
  match nodeKey s workspaceId (ServedNodeKey.id node) with
  | Some cached =>
      if (NodeKey.epoch cached =? ServedNodeKey.keyEpoch node) &&
         (negb areaRoot ||
          (Worker.rootOpenedUnder s !! slot workspaceId (ServedNodeKey.id node) === Some (ServedNodeKey.parentKeyEpoch node)))
      then Some (NodeKey.key cached) else None
  | None => None
  end.
(** The key held of an area root re-keyed since: the root's previous one. *)
Definition held_previous (s : Worker.t) (workspaceId : string) (node : ServedNodeKey.t) (areaRoot : bool) : option buf :=
  match nodeKey s workspaceId (ServedNodeKey.id node), cached_key s workspaceId node areaRoot, ServedNodeKey.prevKeyEpoch node with
  | Some cached, None, Some prev =>
      if areaRoot && (NodeKey.epoch cached =? prev) && negb (NodeKey.epoch cached =? ServedNodeKey.keyEpoch node)
      then Some (NodeKey.key cached) else None
  | _, _, _ => None
  end.
Definition copy_option (b : option buf) : op (option buf) :=
  match b with Some b => b' ← copy b; mret (Some b') | None => mret None end.

Definition served_ctx (workspaceId : string) (node : ServedNodeKey.t) (parentKeyEpoch keyEpoch : Z) : NodeKeyContext.t :=
  NodeKeyContext.Build_t workspaceId (ServedNodeKey.id node) (ServedNodeKey.parentId node) parentKeyEpoch keyEpoch.

(** The node's key opened from its envelope and held. *)
Definition open_and_hold (others : Worker.t → Worker.t) (workspaceId : string) (node : ServedNodeKey.t) (areaRoot : bool)
    (heldPrevious : option buf) : op buf :=
  opened ← on_error
    (parent ← ask (λ s, parentKeyAndRoot s workspaceId (ServedNodeKey.parentId node) (ServedNodeKey.parentKeyEpoch node));
     envelope ← ask (λ _, decode (ServedNodeKey.keyEnvelope node) (Some 72));
     key ← open_envelope others envelope parent.1
       (served_ctx workspaceId node (ServedNodeKey.parentKeyEpoch node) (ServedNodeKey.keyEpoch node));
     mret (key, parent.2))
    (zero_option heldPrevious);
  let '(key, rootedAt) := opened : buf * option Z in
  _ ← on_error (requireCommitted workspaceId) (_ ← zero key; zero_option heldPrevious);
  _ ← rememberNodeKey workspaceId (ServedNodeKey.id node) key (ServedNodeKey.keyEpoch node) rootedAt;
  _ ← when_op areaRoot (update (λ s, set_rootOpenedUnder s
    (<[slot workspaceId (ServedNodeKey.id node) := ServedNodeKey.parentKeyEpoch node]> (Worker.rootOpenedUnder s))));
  mret key.

(** A root whose key is not the committed one: dropped. *)
Definition drop_root (workspaceId nodeId : string) (heldPrevious : option buf) : op unit :=
  let at_ := slot workspaceId nodeId in
  before ← get (λ s, held_key (nodeKeysOf s workspaceId !! at_));
  _ ← zero_option before;
  _ ← forgetNodeKey workspaceId nodeId;
  _ ← update (λ s, set_rootOpenedUnder s (delete at_ (Worker.rootOpenedUnder s)));
  zero_option heldPrevious.

(** The previous envelope's fields, all there: [node.prevKeyEnvelope && node.prevParentKeyEpoch && node.prevKeyEpoch]. *)
Definition served_previous (node : ServedNodeKey.t) : option (string * Z * Z) :=
  match ServedNodeKey.prevKeyEnvelope node, ServedNodeKey.prevParentKeyEpoch node, ServedNodeKey.prevKeyEpoch node with
  | Some envelope, Some parentEpoch, Some epoch =>
      if (slen envelope =? 0) || (parentEpoch =? 0) || (epoch =? 0) then None else Some (envelope, parentEpoch, epoch)
  | _, _, _ => None
  end.

(** The key that opens what the rotation has not reached: this device's own outranks the served one. *)
Definition hold_previous (others : Worker.t → Worker.t) (workspaceId : string) (node : ServedNodeKey.t) (areaRoot : bool)
    (heldPrevious : option buf) : op unit :=
  match served_previous node with
  | None => zero_option heldPrevious
  | Some (prevKeyEnvelope, prevParentKeyEpoch, prevKeyEpoch) =>
      previous ← attempt
        (parent ← ask (λ s, parentKeyFor s workspaceId (ServedNodeKey.parentId node) prevParentKeyEpoch);
         envelope ← ask (λ _, decode prevKeyEnvelope (Some 72));
         open_previous others areaRoot envelope parent (served_ctx workspaceId node prevParentKeyEpoch prevKeyEpoch));
      kept ← get (λ s, prevNodeKeysOf s workspaceId !! slot workspaceId (ServedNodeKey.id node));
      own ← match heldPrevious with
        | Some b => mret (Some b)
        | None => copy_option match kept with
            | Some kept => if areaRoot && NodeKey.own kept && (NodeKey.epoch kept =? prevKeyEpoch)
                then Some (NodeKey.key kept) else None
            | None => None
            end
        end;
      match own, previous with
      | Some own, _ =>
          _ ← zero_option previous;
          rememberPrevNodeKey workspaceId (ServedNodeKey.id node) own prevKeyEpoch true
      | None, Some previous => rememberPrevNodeKey workspaceId (ServedNodeKey.id node) previous prevKeyEpoch false
      | None, None => mret tt
      end
  end.

(** A listed node's key, opened or taken from the session; [others] is what
    ran while its envelope opened, while its root was checked and while its
    previous key opened. *)
Definition openListedNode (others : nat → Worker.t → Worker.t) (workspaceId : string) (node : ServedNodeKey.t) : op buf :=
  _ ← requireCommitted workspaceId;
  areaRoot ← get (λ s, (ServedNodeKey.parentId node === workspaceId) && isArea (Worker.areas s) workspaceId);
  _ ← ask (λ s, refuse NOT_COMMITTED_ROOT when
    areaRoot && notTheRoot (Worker.areas s) workspaceId (ServedNodeKey.id node) ;; Ok tt);
  cached ← get (λ s, cached_key s workspaceId node areaRoot);
  held ← get (λ s, held_previous s workspaceId node areaRoot);
  heldPrevious ← copy_option held;
  key ← match cached with
    | Some key => mret key
    | None => open_and_hold (others 0%nat) workspaceId node areaRoot heldPrevious
    end;
  committed ← (if areaRoot : bool
    then rootSeen (others 1%nat) workspaceId (ServedNodeKey.id node) (ServedNodeKey.parentKeyEpoch node) key
    else mret true);
  if committed : bool then
    _ ← hold_previous (others 2%nat) workspaceId node areaRoot heldPrevious;
    _ ← requireCommitted workspaceId;
    mret key
  else
    _ ← drop_root workspaceId (ServedNodeKey.id node) heldPrevious;
    throw NOT_COMMITTED_ROOT.

(** ** New nodes *)

Definition node_ctx (workspaceId nodeId parentId : string) (parentKeyEpoch keyEpoch : Z) : NodeKeyContext.t :=
  NodeKeyContext.Build_t workspaceId nodeId parentId parentKeyEpoch keyEpoch.

(** A new node's key, made ([drawn]) and wrapped under its parent with [nonce]. *)
Definition newNodeKey (others : Worker.t → Worker.t) (workspaceId : string) (node : NewNode.t) (drawn nonce : bytes)
    : op (buf * bytes) :=
  parentKey ← ask (λ s, wrapKeyFor s workspaceId (NewNode.parentId node) (NewNode.parentKeyEpoch node));
  key ← new_buffer drawn;
  on_error
    (pk ← read parentKey;
     _ ← update others;
     keyEnvelope ← ask (λ _, wrapNodeKey nonce drawn pk (node_ctx workspaceId (NewNode.id node) (NewNode.parentId node)
       (NewNode.parentKeyEpoch node) (NewNode.keyEpoch node)));
     rootedAt ← ask (λ s, rootOf s workspaceId (NewNode.parentId node) (NewNode.parentKeyEpoch node));
     _ ← rememberNodeKey workspaceId (NewNode.id node) key (NewNode.keyEpoch node) rootedAt;
     mret (key, keyEnvelope))
    (zero key).

(** ** Rotations *)

Definition rotating_ctx (workspaceId : string) (node : RotatingNodeKey.t) (parentKeyEpoch : Z) : NodeKeyContext.t :=
  node_ctx workspaceId (RotatingNodeKey.id node) (RotatingNodeKey.parentId node) parentKeyEpoch (RotatingNodeKey.keyEpoch node).

(** A node's key as it is now, the caller's to zero. *)
Definition currentKeyOf (others : Worker.t → Worker.t) (workspaceId : string) (node : RotatingNodeKey.t) : op buf :=
  cached ← get (λ s, nodeKey s workspaceId (RotatingNodeKey.id node));
  let from_envelope :=
    envelope ← ask (λ _, decode (RotatingNodeKey.keyEnvelope node) (Some 72));
    parent ← ask (λ s, parentKeyFor s workspaceId (RotatingNodeKey.parentId node) (RotatingNodeKey.wrappedParentKeyEpoch node));
    open_envelope others envelope parent (rotating_ctx workspaceId node (RotatingNodeKey.wrappedParentKeyEpoch node)) in
  match cached with
  | Some cached => if NodeKey.epoch cached =? RotatingNodeKey.keyEpoch node then copy (NodeKey.key cached) else from_envelope
  | None => from_envelope
  end.

(** The key a walk replaces (or re-wraps): never a family folder's top level. *)
Definition rotationOldKey (others : Worker.t → Worker.t) (workspaceId : string) (node : RotatingNodeKey.t) : op buf :=
  _ ← ask (λ s, refuse AREA_ROOT when
    (RotatingNodeKey.parentId node === workspaceId) && isArea (Worker.areas s) workspaceId ;; Ok tt);
  currentKeyOf others workspaceId node.

(** A node already at its target, re-wrapped under its parent's key: only one rooted at the write version. *)
Definition rewrapAtTarget (others : Worker.t → Worker.t) (workspaceId : string) (node : RotatingNodeKey.t) (old : buf)
    (nonce : bytes) : op bytes :=
  cached ← get (λ s, nodeKey s workspaceId (RotatingNodeKey.id node));
  on_error
    (rootedAt ← ask (λ s,
       if match cached with Some c => NodeKey.epoch c =? RotatingNodeKey.keyEpoch node | None => false end
       then Ok (lineage_of s workspaceId (RotatingNodeKey.id node))
       else rootOf s workspaceId (RotatingNodeKey.parentId node) (RotatingNodeKey.wrappedParentKeyEpoch node));
     _ ← ask (λ s,
       if isArea (Worker.areas s) workspaceId then
         let* rooted := rootedNow s workspaceId rootedAt in refuse NOT_CARRIED unless (rooted : bool) ;; Ok tt
       else Ok tt);
     parentKey ← ask (λ s, wrapKeyFor s workspaceId (RotatingNodeKey.parentId node) (RotatingNodeKey.parentKeyEpoch node));
     pk ← read parentKey;
     v ← read old;
     _ ← update others;
     keyEnvelope ← ask (λ _, wrapNodeKey nonce v pk (rotating_ctx workspaceId node (RotatingNodeKey.parentKeyEpoch node)));
     _ ← match cached with
       | None => rememberNodeKey workspaceId (RotatingNodeKey.id node) old (RotatingNodeKey.keyEpoch node) rootedAt
       | Some _ => zero old
       end;
     mret keyEnvelope)
    (zero old).

(** The parent key a walk's fresh key is wrapped under, and what it is rooted at. *)
Definition freshKeyParent (s : Worker.t) (workspaceId : string) (node : RotatingNodeKey.t) : result (buf * option Z) :=
  let* key := wrapKeyFor s workspaceId (RotatingNodeKey.parentId node) (RotatingNodeKey.parentKeyEpoch node) in
  let* (_, rootedAt) := parentKeyAndRoot s workspaceId (RotatingNodeKey.parentId node) (RotatingNodeKey.parentKeyEpoch node) in
  Ok (key, rootedAt).

Definition zero_pending (p : PendingKey.t) : op unit := _ ← zero (PendingKey.fresh p); zero (PendingKey.old p).
Definition setPending (workspaceId nodeId : string) (pending : PendingKey.t) : op unit :=
  let at_ := slot workspaceId nodeId in
  before ← get (λ s, Worker.pendingNodeKeys s !! at_);
  _ ← match before with Some p => zero_pending p | None => mret tt end;
  update (λ s, set_pendingNodeKeys s (<[at_ := pending]> (Worker.pendingNodeKeys s))).

Inductive Rotated (T : Type) :=
  | Rewrapped (keyEnvelope : bytes) (key : buf)
  | Rekeyed (answer : T).
Arguments Rewrapped {T}.
Arguments Rekeyed {T}.

(** One node of a walk: re-wrapped when it is at the target, else given a
    fresh key ([drawn]) that [rekey] re-keys its records with. *)
Definition rotateKey {T} (others : nat → Worker.t → Worker.t) (workspaceId : string) (node : RotatingNodeKey.t)
    (targetEpoch : Z) (rekey : bytes → bytes → bytes → op T) (drawn nonce : bytes) : op (Rotated T) :=
  _ ← ask (λ s, requireWritable s workspaceId);
  old ← rotationOldKey (others 0%nat) workspaceId node;
  if targetEpoch <=? RotatingNodeKey.keyEpoch node then
    key ← copy old;
    on_error
      (keyEnvelope ← rewrapAtTarget (others 1%nat) workspaceId node old nonce; mret (Rewrapped keyEnvelope key))
      (zero key)
  else
    _ ← on_error
      (ask (λ s, refuse ITEM_CHANGED when
        match Worker.pendingNodeKeys s !! slot workspaceId (RotatingNodeKey.id node) with
        | Some p => PendingKey.epoch p =? targetEpoch
        | None => false
        end ;; Ok tt))
      (zero old);
    fresh ← new_buffer drawn;
    on_error
      (parent ← ask (λ s, freshKeyParent s workspaceId node);
       pk ← read parent.1;
       o ← read old;
       answer ← rekey o drawn pk;
       _ ← setPending workspaceId (RotatingNodeKey.id node)
         (PendingKey.Build_t fresh targetEpoch old (RotatingNodeKey.keyEpoch node) parent.2);
       mret (Rekeyed answer))
      (_ ← zero fresh; zero old).

(** A move: the node's key, writable, wrapped under its new parent. *)
Definition rewrapNode (workspaceId : string) (node : NewNode.t) (nonce : bytes) : op bytes :=
  _ ← ask (λ s, requireWritable s workspaceId);
  entry ← ask (λ s, writableNodeKey s workspaceId (NewNode.id node));
  match entry with
  | None => throw "Open the containing folder first."
  | Some entry =>
      _ ← unless_op (NodeKey.epoch entry =? NewNode.keyEpoch node) ITEM_CHANGED;
      parentKey ← ask (λ s, wrapKeyFor s workspaceId (NewNode.parentId node) (NewNode.parentKeyEpoch node));
      pk ← read parentKey;
      v ← read (NodeKey.key entry);
      ask (λ _, wrapNodeKey nonce v pk (node_ctx workspaceId (NewNode.id node) (NewNode.parentId node)
        (NewNode.parentKeyEpoch node) (NewNode.keyEpoch node)))
  end.
End listings.

(** The server took the batch: each node's fresh key is its own, the old one its previous. *)
Definition commit_one (workspaceId nodeId : string) : op Z :=
  let at_ := slot workspaceId nodeId in
  pending ← get (λ s, Worker.pendingNodeKeys s !! at_);
  match pending with
  | None => mret 0
  | Some p =>
      _ ← update (λ s, set_pendingNodeKeys s (delete at_ (Worker.pendingNodeKeys s)));
      _ ← rememberPrevNodeKey workspaceId nodeId (PendingKey.old p) (PendingKey.oldEpoch p) true;
      _ ← rememberNodeKey workspaceId nodeId (PendingKey.fresh p) (PendingKey.epoch p) (PendingKey.rootedAt p);
      mret 1
  end.
(** The server refused it: the fresh key and the one it replaced are dropped. *)
Definition drop_one (workspaceId nodeId : string) : op Z :=
  let at_ := slot workspaceId nodeId in
  pending ← get (λ s, Worker.pendingNodeKeys s !! at_);
  match pending with
  | None => mret 0
  | Some p =>
      _ ← update (λ s, set_pendingNodeKeys s (delete at_ (Worker.pendingNodeKeys s)));
      _ ← zero_pending p;
      mret 1
  end.
Fixpoint sum_op {A} (f : A → op Z) (l : list A) : op Z :=
  match l with [] => mret 0 | x :: rest => n ← f x; m ← sum_op f rest; mret (n + m) end.
Definition commitPending (workspaceId : string) (nodeIds : list string) : op Z := sum_op (commit_one workspaceId) nodeIds.
Definition dropPending (workspaceId : string) (nodeIds : list string) : op Z := sum_op (drop_one workspaceId) nodeIds.
Definition dropAllPending (workspaceId : string) : op Z :=
  under ← get (λ s, listed_under workspaceId (Worker.pendingNodeKeys s));
  _ ← update (λ s, set_pendingNodeKeys s (drop_under workspaceId (Worker.pendingNodeKeys s)));
  _ ← zero_all (pending_keys under);
  mret (Z.of_nat (size under)).
