(* ===== verification/WriteKeys.v ===== *)
(** * What a write into a family folder is wrapped under

    The proofs about [Areas] and [DriveKeys]: every state the worker reaches
    keeps its key buffers apart and knows, of each key it calls rooted at an
    area version, the unbroken path of current keys from the root key the
    family's member list committed to. The session runs its operations one at
    a time (the queue of session.ts [handle]), and so do the steps here. *)

From S2P Require Import Prelude Base64url Bytes Canonical Crypto Envelopes Roster Ledger Chain Acceptance Areas DriveKeys.

(** ** Slots *)

Definition no_slash (s : string) : bool := string_forallb (λ c, negb (c =? "/")%char) s.

Lemma uuid_from_no_slash n s : uuid_from n s = true → no_slash s = true.
Proof.
  unfold no_slash. revert n; induction s as [|c s IH]; intros n; cbn [uuid_from string_forallb]; [done|].
  intros [Hc Hs]%andb_true_iff. rewrite (IH _ Hs), andb_true_r.
  pose proof (all_ascii_spec (λ c, implb ((c =? "-")%char || is_hex_char c) (negb (c =? "/")%char)) eq_refl c) as H.
  cbn beta in H. revert H Hc. generalize (is_hex_char c). intros hex. destruct (_ || _ || _ || _); intros H Hc.
  - rewrite Hc in H. done.
  - rewrite Hc, orb_true_r in H. done.
Qed.
Lemma UUID_no_slash s : UUID s = true → no_slash s = true.
Proof. apply uuid_from_no_slash. Qed.

Lemma slot_inj a b c d : no_slash a = true → no_slash c = true → slot a b = slot c d → a = c ∧ b = d.
Proof.
  unfold slot, no_slash. revert c; induction a as [|x a IH]; intros [|y c] Ha Hc H; cbn in *.
  - by injection H.
  - bool_simpl. injection H as <- _. done.
  - bool_simpl. injection H as -> _. done.
  - bool_simpl. injection H as -> H. by destruct (IH c) as [-> ->].
Qed.

Lemma prefix_app a b : String.prefix a (a +:+ b) = true.
Proof. induction a as [|x a IH]; [by destruct b|]. rewrite app_cons. cbn. by destruct (ascii_dec x x). Qed.
Lemma prefix_ok a s : String.prefix a s = true → ∃ b, s = a +:+ b.
Proof.
  revert s; induction a as [|x a IH]; intros s H; [by exists s|]. destruct s as [|y s]; [done|]. cbn in H.
  destruct (ascii_dec x y) as [->|]; [|done]. destruct (IH s H) as [b ->]. by exists b.
Qed.
Lemma starts_with_slot w n : starts_with w (slot w n) = true.
Proof. unfold starts_with, slot. rewrite <- app_assoc'. apply prefix_app. Qed.
Lemma starts_with_ok w at_ : starts_with w at_ = true → ∃ n, at_ = slot w n.
Proof. unfold starts_with, slot. intros [b ->]%prefix_ok. exists b. by rewrite app_assoc'. Qed.
Lemma starts_with_other w w' n : no_slash w = true → no_slash w' = true → starts_with w (slot w' n) = true → w = w'.
Proof. intros H H' [b E]%starts_with_ok. by destruct (slot_inj _ _ _ _ H' H E) as [-> _]. Qed.

Lemma drop_under_lookup {A} w (m : gmap string A) at_ x :
  drop_under w m !! at_ = Some x ↔ m !! at_ = Some x ∧ starts_with w at_ = false.
Proof. unfold drop_under. by rewrite map_lookup_filter_Some. Qed.
Lemma listed_under_lookup {A} w (m : gmap string A) at_ x :
  listed_under w m !! at_ = Some x ↔ m !! at_ = Some x ∧ starts_with w at_ = true.
Proof. unfold listed_under. by rewrite map_lookup_filter_Some. Qed.

(** ** The family of an area *)

Definition opened_in (a : Areas.t) (g w : string) : Prop := is_Some (Areas.opened a !! g ≫= λ areas, areas !! w).

Lemma openedBy_elem a g w : g ∈ openedBy a w ↔ opened_in a g w.
Proof.
  unfold openedBy, opened_in. rewrite list_elem_of_In, in_map_iff. split.
  - intros ([g' m] & <- & H%list_elem_of_In). apply list_elem_of_filter in H as [Hw Hin%elem_of_map_to_list].
    cbn in *. by rewrite Hin.
  - intros [v Hv]. apply bind_Some in Hv as (m & Hm & Hw). exists (g, m). split; [done|]. apply list_elem_of_In.
    apply list_elem_of_filter. split; [by exists v|by apply elem_of_map_to_list].
Qed.
Lemma openedBy_NoDup a w : NoDup (openedBy a w).
Proof.
  unfold openedBy. assert (∀ l : list (string * gmap string Z), NoDup (l.*1) →
    NoDup (map fst (filter (λ e : string * gmap string Z, is_Some (e.2 !! w)) l))) as H; [|apply H, NoDup_fst_map_to_list].
  induction l as [|e l IH]; [constructor|]. rewrite fmap_cons, NoDup_cons. intros [Hn Hl]. rewrite filter_cons.
  destruct (decide _); [|by apply IH]. cbn [map]. constructor; [|by apply IH]. rewrite list_elem_of_In, in_map_iff. intros (e' & He & Hin%list_elem_of_In).
  apply list_elem_of_filter in Hin as [_ Hin]. apply Hn. rewrite <- He. by apply list_elem_of_fmap_2.
Qed.
Lemma familyOf_ok a w g : familyOf a w = Some g ↔ opened_in a g w ∧ ∀ g', opened_in a g' w → g' = g.
Proof.
  unfold familyOf. pose proof (openedBy_elem a) as He. pose proof (openedBy_NoDup a w) as Hd.
  assert (∀ g', opened_in a g' w ↔ g' ∈ openedBy a w) as Hi by (intros; symmetry; apply He).
  setoid_rewrite Hi. clear He Hi. destruct (openedBy a w) as [|x [|y l]].
  - split; [done|]. intros [H _]. by apply not_elem_of_nil in H.
  - split.
    + intros [= ->]. split; [by left|]. by intros g' ->%list_elem_of_singleton.
    + intros [->%list_elem_of_singleton _]. done.
  - split; [done|]. intros [_ H]. apply NoDup_cons in Hd as [Hn _]. exfalso. apply Hn.
    rewrite (H x), (H y); [by left|by right; left|by left].
Qed.
Lemma heldBack_false a w g : heldBack a w = false → opened_in a g w → is_Some (Areas.chains a !! g).
Proof.
  unfold heldBack. intros H Hg%openedBy_elem. destruct (Areas.chains a !! g) eqn:E; [done|]. exfalso.
  apply not_true_iff_false in H. apply H, existsb_exists. exists g. split; [by apply list_elem_of_In|]. by rewrite E.
Qed.

(** ** Where the worker holds a key *)

Inductive place :=
  | at_workspace (workspaceId : string) (version : Z)
  | at_own (at_ : string) | at_guest (at_ : string)
  | at_own_prev (at_ : string) | at_guest_prev (at_ : string)
  | at_fresh (at_ : string) | at_old (at_ : string).
#[export] Instance place_eq_dec : EqDecision place.
Proof. solve_decision. Defined.

Definition held_at (s : Worker.t) (p : place) : option buf :=
  match p with
  | at_workspace w v => workspaceKey s w v
  | at_own k => NodeKey.key <$> Worker.ownNodeKeys s !! k
  | at_guest k => NodeKey.key <$> Worker.guestNodeKeys s !! k
  | at_own_prev k => NodeKey.key <$> Worker.ownPrevNodeKeys s !! k
  | at_guest_prev k => NodeKey.key <$> Worker.guestPrevNodeKeys s !! k
  | at_fresh k => PendingKey.fresh <$> Worker.pendingNodeKeys s !! k
  | at_old k => PendingKey.old <$> Worker.pendingNodeKeys s !! k
  end.

(** Every key buffer is there and is held in one place only: zeroing what one
    place held never touches another's key. *)
Record apart (s : Worker.t) : Prop := {
  ap_live p l : held_at s p = Some l → is_Some (Worker.mem s !! l);
  ap_one p q l : held_at s p = Some l → held_at s q = Some l → p = q;
}.

(** The four pools of node keys. *)
Inductive pool := own_keys | guest_keys | own_previous | guest_previous.
Definition pool_of (s : Worker.t) (π : pool) : gmap string NodeKey.t :=
  match π with
  | own_keys => Worker.ownNodeKeys s | guest_keys => Worker.guestNodeKeys s
  | own_previous => Worker.ownPrevNodeKeys s | guest_previous => Worker.guestPrevNodeKeys s
  end.
Definition set_pool (s : Worker.t) (π : pool) (m : gmap string NodeKey.t) : Worker.t :=
  match π with
  | own_keys => set_ownNodeKeys s m | guest_keys => set_guestNodeKeys s m
  | own_previous => set_ownPrevNodeKeys s m | guest_previous => set_guestPrevNodeKeys s m
  end.
Definition pool_place (π : pool) (at_ : string) : place :=
  match π with
  | own_keys => at_own at_ | guest_keys => at_guest at_ | own_previous => at_own_prev at_ | guest_previous => at_guest_prev at_
  end.
Definition pool_for (s : Worker.t) (w : string) : pool := if hasWorkspace s w then own_keys else guest_keys.
Definition previous_for (s : Worker.t) (w : string) : pool := if hasWorkspace s w then own_previous else guest_previous.

Lemma nodeKeysOf_pool s w : nodeKeysOf s w = pool_of s (pool_for s w).
Proof. unfold nodeKeysOf, pool_for. by destruct (hasWorkspace s w). Qed.
Lemma prevNodeKeysOf_pool s w : prevNodeKeysOf s w = pool_of s (previous_for s w).
Proof. unfold prevNodeKeysOf, previous_for. by destruct (hasWorkspace s w). Qed.
Lemma set_nodeKeysOf_pool s w m : set_nodeKeysOf s w m = set_pool s (pool_for s w) m.
Proof. unfold set_nodeKeysOf, pool_for. by destruct (hasWorkspace s w). Qed.
Lemma set_prevNodeKeysOf_pool s w m : set_prevNodeKeysOf s w m = set_pool s (previous_for s w) m.
Proof. unfold set_prevNodeKeysOf, previous_for. by destruct (hasWorkspace s w). Qed.
Lemma holds_pool s π at_ : held_at s (pool_place π at_) = NodeKey.key <$> pool_of s π !! at_.
Proof. by destruct π. Qed.
(** What a change of one entry of a pool does to the places. *)
Lemma holds_set_pool s π at_ (f : option NodeKey.t → option NodeKey.t) p : let m := partial_alter f at_ (pool_of s π) in
  held_at (set_pool s π m) p =
  if decide (p = pool_place π at_) then NodeKey.key <$> f (pool_of s π !! at_) else held_at s p.
Proof.
  cbv zeta. destruct (decide (p = pool_place π at_)) as [->|Hp].
  - rewrite holds_pool. destruct π; cbn; by rewrite lookup_partial_alter_eq.
  - destruct π, p as [w v|k|k|k|k|k|k]; try done; cbn in *; rewrite lookup_partial_alter_ne by congruence; done.
Qed.

(** ** The path of a key *)

(** What came into the session for a node: an envelope, in a listing or a walk,
    or a key this device drew for it. Each names the node, the parent and both
    epochs. *)
Inductive brought :=
  | was_served (ctx : NodeKeyContext.t) (keyEnvelope : string)
  | was_drawn (ctx : NodeKeyContext.t) (key : bytes).

Section paths.
Context `{C : Crypto}.
(** The chains the session committed and what came into it, so far. *)
Variables (past : list Body.t) (given : list brought).

(** The chain of the family listed this workspace key at that version. *)
Definition listed_key (g w : string) (v : Z) (k : bytes) : Prop := ∃ c commitment,
  c ∈ past ∧ Body.groupId c = g ∧ 1 ≤ v ∧ areaKeyCommitment k = Ok commitment ∧
  default [] (Body.areaKeys c !! w) !! Z.to_nat (v - 1) = Some commitment.
(** A chain of the family lists the area, not retired, and the commitment to its
    root key at that version is this key's, unless the version was first listed
    by a roster of the format that had none. *)
Definition listed_root (g w : string) (v : Z) (k : bytes) : Prop := ∃ c root,
  c ∈ past ∧ Body.groupId c = g ∧ w ∉ Body.retiredAreas c ∧
  default [] (Body.areaRoots c !! w) !! Z.to_nat (v - 1) = Some root ∧
  ∀ commitment, root = Some commitment → areaRootCommitment k = Ok commitment.
(** The envelope given for the node, under that parent and at those epochs, opens to the key. *)
Definition opens_to (ctx : NodeKeyContext.t) (kp k : bytes) : Prop := ∃ keyEnvelope envelope,
  was_served ctx keyEnvelope ∈ given ∧ decode keyEnvelope (Some 72) = Ok envelope ∧ openNodeKey envelope kp ctx = Ok k.

(** An unbroken path down to the key of the node [n] at its epoch [e], each key
    at the epoch its child was wrapped under: from the root of the area, opened
    under the area key at [v] that the family's chain lists, and taken by it. *)
Inductive rooted (g w : string) : string → Z → Z → bytes → Prop :=
  | rooted_root n v e wk k :
      listed_key g w v wk → opens_to (NodeKeyContext.Build_t w n w v e) wk k → listed_root g w v k → rooted g w n v e k
  | rooted_child p n v ep kp e k :
      rooted g w p v ep kp → opens_to (NodeKeyContext.Build_t w n p ep e) kp k → rooted g w n v e k
  | rooted_drawn p n v ep kp e k :
      rooted g w p v ep kp → was_drawn (NodeKeyContext.Build_t w n p ep e) k ∈ given → rooted g w n v e k.

Definition key_at (s : Worker.t) (p : place) : option bytes := bytes_at (Worker.mem s) <$> held_at s p.

(** A place of the worker's own tree: a node of a workspace it holds the key of. *)
Definition own_slot (s : Worker.t) (at_ : string) : Prop := ∃ w n, at_ = slot w n ∧ hasWorkspace s w = true.

(** [except] is a root just opened and not yet checked against its chain. *)
Record inv (except : option string) (s : Worker.t) : Prop := {
  inv_apart : apart s;
  inv_opened g w : opened_in (Worker.areas s) g w → UUID g = true ∧ UUID w = true ∧ w ∉ Areas.personal (Worker.areas s);
  inv_owner w : hasWorkspace s w = true →
    UUID w = true ∧ (w ∈ Areas.personal (Worker.areas s) ∨ ∃ g, opened_in (Worker.areas s) g w);
  inv_listed g w v k : key_at s (at_workspace w v) = Some k → familyOf (Worker.areas s) w = Some g → listed_key g w v k;
  inv_lineage at_ v : Worker.lineage s !! at_ = Some (Some v) → own_slot s at_;
  inv_pending at_ p v : Worker.pendingNodeKeys s !! at_ = Some p → PendingKey.rootedAt p = Some v → own_slot s at_;
  inv_rooted w n g v entry : except ≠ Some (slot w n) → Worker.ownNodeKeys s !! slot w n = Some entry →
    Worker.lineage s !! slot w n = Some (Some v) → familyOf (Worker.areas s) w = Some g →
    rooted g w n v (NodeKey.epoch entry) (bytes_at (Worker.mem s) (NodeKey.key entry));
  inv_fresh w n p g v : Worker.pendingNodeKeys s !! slot w n = Some p → PendingKey.rootedAt p = Some v →
    familyOf (Worker.areas s) w = Some g →
    rooted g w n v (PendingKey.epoch p) (bytes_at (Worker.mem s) (PendingKey.fresh p));
  inv_chains g c : Areas.chains (Worker.areas s) !! g = Some c → Body.groupId c = g ∧ c ∈ past;
  inv_write at_ v : Areas.areaWrite (Worker.areas s) !! at_ = Some v → ∃ g w c, at_ = areaSlot g w ∧ UUID g = true ∧
    Areas.chains (Worker.areas s) !! g = Some c ∧ (areaWriteVersion c w = Some v ∨ Body.areaKeys c !! w = None);
}.

Lemma family_opened a w g : familyOf a w = Some g → opened_in a g w.
Proof. by intros [? _]%familyOf_ok. Qed.

(** ** Tasks that keep the invariant *)

(** From a state of [P], the task answers in [Q] or throws in [E]. *)
Definition hoare {A} (P : Worker.t → Prop) (m : op A) (Q : A → Worker.t → Prop) (E : Worker.t → Prop) : Prop :=
  ∀ s, P s → match m s with (s', Ok a) => Q a s' | (s', Err _) => E s' end.

(** [loose]: the buffers a running task has in hand, with what they hold. *)
Record frame (except : option string) (a : Areas.t) (keys : gmap string Workspace.t) (loose : gmap buf bytes) (s : Worker.t)
    : Prop := {
  fr_inv : inv except s;
  fr_areas : Worker.areas s = a;
  fr_keys : Worker.workspaceKeys s = keys;
  fr_loose : loose ⊆ Worker.mem s;
  fr_apart p l : held_at s p = Some l → loose !! l = None;
}.

Lemma h_ret {A} (P : Worker.t → Prop) (x : A) (Q : A → Worker.t → Prop) E : (∀ s, P s → Q x s) → hoare P (mret x) Q E.
Proof. intros H s Hs. by apply H. Qed.
Lemma h_bind {A B} P (m : op A) (f : A → op B) R Q E : hoare P m R E → (∀ x, hoare (R x) (f x) Q E) → hoare P (m ≫= f) Q E.
Proof.
  intros Hm Hf s Hs. specialize (Hm s Hs). unfold mbind, op_bind. destruct (m s) as [s' [x|e]]; [|done]. by apply Hf.
Qed.
Lemma h_conseq {A} (P P' : Worker.t → Prop) (m : op A) (Q Q' : A → Worker.t → Prop) (E E' : Worker.t → Prop) :
  hoare P m Q E → (∀ s, P' s → P s) → (∀ x s, Q x s → Q' x s) → (∀ s, E s → E' s) → hoare P' m Q' E'.
Proof. intros H HP HQ HE s Hs. specialize (H s (HP s Hs)). destruct (m s) as [s' [x|e]]; auto. Qed.
Lemma h_ask {A B} P (f : Worker.t → result A) (k : A → op B) Q (E : Worker.t → Prop) : (∀ s, P s → E s) →
  (∀ x, (∃ s, P s ∧ f s = Ok x) → hoare P (k x) Q E) → hoare P (ask f ≫= k) Q E.
Proof.
  intros HE Hk s Hs. unfold mbind, op_bind, ask. destruct (f s) as [x|e] eqn:H; [|by apply HE]. apply (Hk x); [by exists s|done].
Qed.
Lemma h_get {A B} P (f : Worker.t → A) (k : A → op B) Q E :
  (∀ x, (∃ s, P s ∧ f s = x) → hoare P (k x) Q E) → hoare P (get f ≫= k) Q E.
Proof. intros Hk s Hs. unfold mbind, op_bind, get. apply (Hk (f s)); [by exists s|done]. Qed.
Lemma h_update {B} P R (f : Worker.t → Worker.t) (k : unit → op B) Q E :
  (∀ s, P s → R (f s)) → hoare R (k tt) Q E → hoare P (update f ≫= k) Q E.
Proof. intros HR Hk s Hs. unfold mbind, op_bind, update. by apply (Hk (f s)), HR. Qed.
Lemma h_on_error {A} P (m : op A) cleanup Q (E F : Worker.t → Prop) :
  hoare P m Q F → (∀ s, F s → E (cleanup s).1) → hoare P (on_error m cleanup) Q E.
Proof.
  intros Hm Hc s Hs. specialize (Hm s Hs). unfold on_error. destruct (m s) as [s' [x|e]]; [done|by apply Hc].
Qed.
Lemma h_throw {A} (P : Worker.t → Prop) e (Q : A → Worker.t → Prop) (E : Worker.t → Prop) : (∀ s, P s → E s) → hoare P (throw e) Q E.
Proof. intros H s Hs. by apply H. Qed.

(** *** Holding and letting go *)

(** Everything still held was held and is untouched, but for [key] at [q]. *)
Lemma apart_change s s' q key : apart s →
  (∀ p l, held_at s' p = Some l → (held_at s p = Some l ∧ Worker.mem s' !! l = Worker.mem s !! l) ∨ (p = q ∧ l = key)) →
  (∀ p, held_at s p ≠ Some key) → is_Some (Worker.mem s' !! key) → apart s'.
Proof.
  intros [Hl Ho] H Hn Hk. split.
  - intros p l Hp. destruct (H p l Hp) as [[Hp' ->]|[_ ->]]; [by eapply Hl|done].
  - intros p p' l Hp Hp'. destruct (H p l Hp) as [[Hs _]|[-> ->]], (H p' _ Hp') as [[Hs' _]|[-> E]]; [by eapply Ho| | |done].
    + subst l. by apply Hn in Hs.
    + by apply Hn in Hs'.
Qed.
Lemma apart_less s s' : apart s →
  (∀ p l, held_at s' p = Some l → held_at s p = Some l ∧ Worker.mem s' !! l = Worker.mem s !! l) → apart s'.
Proof.
  intros [Hl Ho] H. split.
  - intros p l Hp. destruct (H p l Hp) as [Hp' ->]. by eapply Hl.
  - intros p p' l [Hp _]%H [Hp' _]%H. by eapply Ho.
Qed.
Lemma holds_mem s m p : held_at (set_mem s m) p = held_at s p.
Proof. by destruct p. Qed.
Lemma zero_in_other m b l : l ≠ b → zero_in m b !! l = m !! l.
Proof. intros. unfold zero_in. by rewrite lookup_alter_ne. Qed.

(** The buffers nothing holds are no matter of the invariant. *)
Lemma inv_mem except s m : inv except s → (∀ p l, held_at s p = Some l → m !! l = Worker.mem s !! l) → inv except (set_mem s m).
Proof.
  intros Hi Hm. assert (∀ p, key_at (set_mem s m) p = key_at s p) as Hk.
  { intros p. unfold key_at. rewrite holds_mem. destruct (held_at s p) eqn:E; [|done]. cbn. unfold bytes_at. by rewrite (Hm _ _ E). }
  destruct Hi. split; try done.
  - apply (apart_less s); [done|]. intros p l Hp. rewrite holds_mem in Hp. split; [done|]. by apply (Hm p).
  - intros g w v k. rewrite Hk. eauto.
  - intros w n g v entry He Ho Hl Hg. replace (bytes_at _ _) with (bytes_at (Worker.mem s) (NodeKey.key entry)); [by eapply inv_rooted0|].
    unfold bytes_at. cbn in *. rewrite (Hm (at_own (slot w n))); [done|]. cbn. by rewrite Ho.
  - intros w n p g v Hp Hv Hg. replace (bytes_at _ _) with (bytes_at (Worker.mem s) (PendingKey.fresh p)); [by eapply inv_fresh0|].
    unfold bytes_at. cbn. rewrite (Hm (at_fresh (slot w n))); [done|]. cbn in *. by rewrite Hp.
Qed.

Lemma frame_inv except a keys loose s : frame except a keys loose s → inv except s.
Proof. by intros []. Qed.
Lemma frame_read except a keys loose s b v : frame except a keys loose s → loose !! b = Some v → bytes_at (Worker.mem s) b = v.
Proof. intros [] Hb. unfold bytes_at. by rewrite (lookup_weaken _ _ _ _ Hb fr_loose0). Qed.
Lemma frame_weaken except a keys loose loose' s : frame except a keys loose s → loose' ⊆ loose → frame except a keys loose' s.
Proof.
  intros [] Hl. split; try done; [by etrans|]. intros p l Hp. apply fr_apart0 in Hp. by eapply lookup_weaken_None.
Qed.

Lemma frame_new except a keys loose v s : frame except a keys loose s →
  let b := fresh (dom (Worker.mem s)) in frame except a keys (<[b := v]> loose) (set_mem s (<[b := v]> (Worker.mem s))).
Proof.
  intros [] b. assert (Worker.mem s !! b = None) as Hb by (apply not_elem_of_dom, is_fresh).
  assert (∀ p l, held_at s p = Some l → l ≠ b) as Hne.
  { intros p l Hp ->. destruct (ap_live _ (inv_apart _ _ fr_inv0) _ _ Hp) as [x Hx]. congruence. }
  split; try done.
  - apply inv_mem; [done|]. intros p l Hp. rewrite lookup_insert_ne; [done|]. by apply not_eq_sym, (Hne p).
  - cbn. by apply insert_mono.
  - intros p l Hp. rewrite holds_mem in Hp. rewrite lookup_insert_ne; [by eapply fr_apart0|by apply not_eq_sym, (Hne p)].
Qed.
Lemma frame_zero except a keys loose b v s : frame except a keys loose s → loose !! b = Some v →
  frame except a keys (delete b loose) (set_mem s (zero_in (Worker.mem s) b)).
Proof.
  intros [] Hb. split; try done.
  - apply inv_mem; [done|]. intros p l Hp. apply zero_in_other. intros ->. apply fr_apart0 in Hp. congruence.
  - cbn. apply map_subseteq_spec. intros l x [Hl Hx]%lookup_delete_Some. rewrite zero_in_other by congruence. by eapply lookup_weaken.
  - intros p l Hp. rewrite holds_mem in Hp. apply fr_apart0 in Hp. rewrite lookup_delete_None. by right.
Qed.

(** *** One entry of a pool *)

Definition take_pool (s : Worker.t) (π : pool) (at_ : string) : Worker.t := set_pool s π (delete at_ (pool_of s π)).
Definition put_pool (s : Worker.t) (π : pool) (at_ : string) (e : NodeKey.t) : Worker.t :=
  set_pool s π (<[at_ := e]> (pool_of s π)).

Lemma holds_take s π at_ p : held_at (take_pool s π at_) p = if decide (p = pool_place π at_) then None else held_at s p.
Proof. unfold take_pool, delete, map_delete. by rewrite holds_set_pool. Qed.
Lemma holds_put s π at_ e p :
  held_at (put_pool s π at_ e) p = if decide (p = pool_place π at_) then Some (NodeKey.key e) else held_at s p.
Proof. unfold put_pool, insert, map_insert. by rewrite holds_set_pool. Qed.
Lemma set_pool_same s π m : Worker.areas (set_pool s π m) = Worker.areas s ∧
  Worker.workspaceKeys (set_pool s π m) = Worker.workspaceKeys s ∧ Worker.mem (set_pool s π m) = Worker.mem s ∧
  Worker.lineage (set_pool s π m) = Worker.lineage s ∧ Worker.pendingNodeKeys (set_pool s π m) = Worker.pendingNodeKeys s.
Proof. by destruct π. Qed.
Ltac pool_same s π m := destruct (set_pool_same s π m) as (Ea & Ew & Em & El & Ep).

(** The invariant in terms of what it reads. *)
Lemma inv_same except s s' : inv except s → apart s' → Worker.areas s' = Worker.areas s →
  Worker.workspaceKeys s' = Worker.workspaceKeys s → Worker.mem s' = Worker.mem s →
  (∀ at_ v, Worker.lineage s' !! at_ = Some (Some v) → Worker.lineage s !! at_ = Some (Some v)) →
  (∀ at_ p, Worker.pendingNodeKeys s' !! at_ = Some p → Worker.pendingNodeKeys s !! at_ = Some p) →
  (∀ at_ e, Worker.ownNodeKeys s' !! at_ = Some e → Worker.ownNodeKeys s !! at_ = Some e) → inv except s'.
Proof.
  intros [] Hap Ea Ew Em Hl Hp Ho.
  assert (∀ w, hasWorkspace s' w = hasWorkspace s w) as Hh by (intros w; unfold hasWorkspace; by rewrite Ew).
  split; rewrite ?Ea; try done.
  - intros w. rewrite Hh. eauto.
  - intros g w v k Hk. apply (inv_listed0 g w v k). unfold key_at, held_at, workspaceKey in *. by rewrite Em, Ew in Hk.
  - intros at_ v Hv. destruct (inv_lineage0 _ _ (Hl _ _ Hv)) as (w & n & -> & ?). exists w, n. by rewrite Hh.
  - intros at_ p v Hpe Hv. destruct (inv_pending0 _ _ _ (Hp _ _ Hpe) Hv) as (w & n & -> & ?). exists w, n. by rewrite Hh.
  - intros w n g v entry He Hk Hv Hg. rewrite Em. apply (inv_rooted0 w n g v entry); auto.
  - intros w n p g v Hpe Hv Hg. rewrite Em. eapply inv_fresh0; eauto.
Qed.

Lemma frame_take except a keys loose s π at_ e : frame except a keys loose s → pool_of s π !! at_ = Some e →
  frame except a keys (<[NodeKey.key e := bytes_at (Worker.mem s) (NodeKey.key e)]> loose) (take_pool s π at_).
Proof.
  intros [] He. pool_same s π (delete at_ (pool_of s π)). fold (take_pool s π at_) in *.
  assert (held_at s (pool_place π at_) = Some (NodeKey.key e)) as Hat by (by rewrite holds_pool, He).
  assert (∀ p l, held_at (take_pool s π at_) p = Some l → held_at s p = Some l ∧ l ≠ NodeKey.key e) as Hless.
  { intros p l. rewrite holds_take. destruct (decide _) as [|Hp]; [done|]. intros Hl. split; [done|]. intros ->.
    by apply Hp, (ap_one _ (inv_apart _ _ fr_inv0) _ _ (NodeKey.key e)). }
  assert (apart (take_pool s π at_)) as Hap.
  { apply (apart_less s); [apply fr_inv0|]. intros p l [? _]%Hless. by rewrite Em. }
  split; try congruence.
  - eapply inv_same; eauto; try by rewrite ?El, ?Ep. intros k e'. unfold take_pool. destruct π; cbn; try done. by intros [_ ?]%lookup_delete_Some.
  - rewrite Em. destruct (ap_live _ (inv_apart _ _ fr_inv0) _ _ Hat) as [v Hv].
    apply insert_subseteq_l; [|done]. unfold bytes_at. by rewrite Hv.
  - intros p l [Hp Hne]%Hless. rewrite lookup_insert_ne by congruence. by eapply fr_apart0.
Qed.

(** A loose buffer held in a pool of previous keys, or anywhere a path is not kept. *)
Lemma apart_put s π at_ e loose : apart s → loose ⊆ Worker.mem s → (∀ p l, held_at s p = Some l → loose !! l = None) →
  is_Some (loose !! NodeKey.key e) → apart (put_pool s π at_ e).
Proof.
  intros Hap Hl Hn [k Hk]. pool_same s π (<[at_ := e]> (pool_of s π)). fold (put_pool s π at_ e) in *.
  apply (apart_change s _ (pool_place π at_) (NodeKey.key e)); [done| | |].
  - intros p l. rewrite holds_put, Em. destruct (decide _) as [->|]; [intros [= <-]; by right|by left].
  - intros p Hp%Hn. congruence.
  - rewrite Em. exists k. by eapply lookup_weaken.
Qed.
Lemma loose_put s π at_ e (loose : gmap buf bytes) : (∀ p l, held_at s p = Some l → loose !! l = None) →
  ∀ p l, held_at (put_pool s π at_ e) p = Some l → delete (NodeKey.key e) loose !! l = None.
Proof.
  intros Hn p l. rewrite holds_put, lookup_delete_None. destruct (decide _); [intros [= <-]; by left|].
  intros Hp%Hn. by right.
Qed.

Lemma frame_put_previous except a keys loose s π at_ e : frame except a keys loose s → is_Some (loose !! NodeKey.key e) →
  π = own_previous ∨ π = guest_previous → frame except a keys (delete (NodeKey.key e) loose) (put_pool s π at_ e).
Proof.
  intros [] Hk Hπ. pool_same s π (<[at_ := e]> (pool_of s π)). fold (put_pool s π at_ e) in *.
  pose proof (apart_put s π at_ e loose (inv_apart _ _ fr_inv0) fr_loose0 fr_apart0 Hk) as Hap.
  split; try congruence.
  - eapply inv_same; eauto; try by rewrite ?El, ?Ep. intros k e'. unfold put_pool. by destruct Hπ as [-> | ->].
  - rewrite Em. etrans; [apply delete_subseteq|done].
  - by apply loose_put.
Qed.

(** A node's key held with what its path is rooted at. *)
Definition remembered (s : Worker.t) (w n : string) (key : buf) (epoch : Z) (rootedAt : option Z) : Worker.t :=
  set_lineage (put_pool s (pool_for s w) (slot w n) (NodeKey.Build_t key epoch false))
    (<[slot w n := rootedAt]> (Worker.lineage s)).

(** What makes [rootedAt] right for the key: this worker holds the workspace's
    key, and the path is there in the family's folder it is, or will be checked. *)
Definition rooted_as (except : option string) (a : Areas.t) (keys : gmap string Workspace.t) (w n : string)
    (epoch : Z) (k : bytes) (rootedAt : option Z) : Prop :=
  ∀ v, rootedAt = Some v → is_Some (keys !! w) ∧
    (except = Some (slot w n) ∨ ∀ g, familyOf a w = Some g → rooted g w n v epoch k).

Lemma hasWorkspace_keys s keys w : Worker.workspaceKeys s = keys → hasWorkspace s w = true ↔ is_Some (keys !! w).
Proof. intros <-. apply bool_decide_eq_true. Qed.

Lemma inv_put_node except except' s w n key epoch rootedAt : inv except s →
  except' = except ∨ (except = None ∧ except' = Some (slot w n)) →
  rooted_as except' (Worker.areas s) (Worker.workspaceKeys s) w n epoch (bytes_at (Worker.mem s) key) rootedAt →
  apart (remembered s w n key epoch rootedAt) → inv except' (remembered s w n key epoch rootedAt).
Proof.
  intros Hi Hex Hr Hap. pose proof Hi as [].
  pool_same s (pool_for s w) (<[slot w n := NodeKey.Build_t key epoch false]> (pool_of s (pool_for s w))).
  assert (∀ p, held_at (remembered s w n key epoch rootedAt) p =
    if decide (p = pool_place (pool_for s w) (slot w n)) then Some key else held_at s p) as Hholds.
  { intros p. rewrite <- (holds_put s _ _ (NodeKey.Build_t key epoch false)). by destruct p. }
  assert (∀ w', hasWorkspace (remembered s w n key epoch rootedAt) w' = hasWorkspace s w') as Hh
    by (intros w'; unfold hasWorkspace, remembered; cbn; unfold put_pool; by rewrite Ew).
  assert (Worker.areas (remembered s w n key epoch rootedAt) = Worker.areas s) as Ear by (cbn; unfold put_pool; congruence).
  assert (Worker.mem (remembered s w n key epoch rootedAt) = Worker.mem s) as Emr by (cbn; unfold put_pool; congruence).
  split; rewrite ?Ear; try done.
  - intros w'. rewrite Hh. eauto.
  - intros g w' v k Hk. apply (inv_listed0 g w' v k). unfold key_at in Hk |- *. rewrite Hholds, Emr in Hk. destruct (decide _) as [E|]; [|done]. unfold pool_for in E. by destruct (hasWorkspace s w).
  - cbn. intros at_ v Hv. assert (Worker.lineage s !! at_ = Some (Some v) ∨ at_ = slot w n ∧ rootedAt = Some v) as [Hl|[-> ->]].
    { destruct (decide (at_ = slot w n)) as [->|]; [rewrite lookup_insert_eq in Hv; right; by injection Hv|].
      rewrite lookup_insert_ne in Hv by congruence. by left. }
    + destruct (inv_lineage0 _ _ Hl) as (w' & n' & -> & ?). exists w', n'. by rewrite Hh.
    + exists w, n. rewrite Hh. destruct (Hr v eq_refl) as [Hw _]. split; [done|]. by apply (hasWorkspace_keys s _ w eq_refl).
  - cbn. unfold put_pool. rewrite Ep. intros at_ p v Hp Hv. destruct (inv_pending0 _ _ _ Hp Hv) as (w' & n' & -> & ?).
    exists w', n'. by rewrite Hh.
  - intros w' n' g v e He Hk Hv Hg. rewrite Emr. cbn [Worker.lineage remembered set_lineage] in Hv.
    pose proof (inv_opened0 _ _ (family_opened _ _ _ Hg)) as (_ & Hw' & _).
    destruct (decide (slot w' n' = slot w n)) as [Es|Hs].
    + rewrite Es, lookup_insert_eq in Hv. injection Hv as ->. destruct (Hr v eq_refl) as [Hw Hg'].
      apply (hasWorkspace_keys s _ w eq_refl) in Hw. destruct (inv_owner0 _ Hw) as [Huw _].
      apply slot_inj in Es as [-> ->]; [|by apply UUID_no_slash..].
      assert (e = NodeKey.Build_t key epoch false) as ->.
      { unfold remembered, put_pool, pool_for in Hk. rewrite Hw in Hk. cbn in Hk. rewrite lookup_insert_eq in Hk. by injection Hk. }
      cbn. destruct Hg' as [->|Hg']; [done|]. by apply Hg'.
    + rewrite lookup_insert_ne in Hv by congruence. apply (inv_rooted0 w' n' g v e); try done.
      * destruct Hex as [-> | [-> _]]; done.
      * unfold remembered, put_pool, pool_for in Hk. destruct (hasWorkspace s w); cbn in Hk; [|done].
        by rewrite lookup_insert_ne in Hk by congruence.
  - rewrite Emr. cbn. unfold put_pool. rewrite Ep. eauto.
Qed.

Lemma frame_remember except except' a keys loose s w n key k epoch rootedAt : frame except a keys loose s →
  loose !! key = Some k → except' = except ∨ (except = None ∧ except' = Some (slot w n)) →
  rooted_as except' a keys w n epoch k rootedAt →
  frame except' a keys (delete key loose) (remembered s w n key epoch rootedAt).
Proof.
  intros Hf Hk Hex Hr. pose proof Hf as []. pose proof (frame_read _ _ _ _ _ _ _ Hf Hk) as Hb.
  pool_same s (pool_for s w) (<[slot w n := NodeKey.Build_t key epoch false]> (pool_of s (pool_for s w))).
  assert (apart (put_pool s (pool_for s w) (slot w n) (NodeKey.Build_t key epoch false))) as Hap.
  { apply (apart_put s _ _ _ loose); [apply fr_inv0|done|done|by exists k]. }
  assert (∀ p, held_at (remembered s w n key epoch rootedAt) p =
    held_at (put_pool s (pool_for s w) (slot w n) (NodeKey.Build_t key epoch false)) p) as Hholds by (by intros []).
  split.
  - apply (inv_put_node except); try done; [by rewrite fr_areas0, fr_keys0, Hb|].
    apply (apart_less _ _ Hap). intros p l. rewrite Hholds. done.
  - cbn. unfold put_pool. congruence.
  - cbn. unfold put_pool. congruence.
  - cbn. unfold put_pool. rewrite Em. etrans; [apply delete_subseteq|done].
  - intros p l. rewrite Hholds. by eapply loose_put.
Qed.

Lemma frame_rootOpened except a keys loose s m : frame except a keys loose s →
  frame except a keys loose (set_rootOpenedUnder s m).
Proof.
  intros Hf. pose proof Hf as []. assert (∀ p, held_at (set_rootOpenedUnder s m) p = held_at s p) as Hh by (by intros []).
  split; try done; try (intros p l; rewrite Hh; apply fr_apart0).
  apply (inv_same _ s); try done. apply (apart_less s); [apply fr_inv0|]. intros p l Hp. by destruct p.
Qed.

(** *** Pending keys *)

Definition take_pending (s : Worker.t) (at_ : string) : Worker.t :=
  set_pendingNodeKeys s (delete at_ (Worker.pendingNodeKeys s)).
Lemma holds_take_pending s at_ p : held_at (take_pending s at_) p =
  if decide (p = at_fresh at_ ∨ p = at_old at_) then None else held_at s p.
Proof.
  destruct (decide _) as [[-> | ->]|Hn]; cbn; [by rewrite lookup_delete_eq..|].
  destruct p as [w v|k|k|k|k|k|k]; try done; cbn; rewrite lookup_delete_ne; auto; intros ->; apply Hn; auto.
Qed.
Lemma frame_take_pending except a keys loose s at_ p : frame except a keys loose s → Worker.pendingNodeKeys s !! at_ = Some p →
  frame except a keys
    (<[PendingKey.old p := bytes_at (Worker.mem s) (PendingKey.old p)]>
      (<[PendingKey.fresh p := bytes_at (Worker.mem s) (PendingKey.fresh p)]> loose)) (take_pending s at_) ∧
  PendingKey.old p ≠ PendingKey.fresh p.
Proof.
  intros [] Hp. pose proof (inv_apart _ _ fr_inv0) as Hap.
  assert (held_at s (at_fresh at_) = Some (PendingKey.fresh p)) as Hf by (cbn; by rewrite Hp).
  assert (held_at s (at_old at_) = Some (PendingKey.old p)) as Ho by (cbn; by rewrite Hp).
  assert (PendingKey.old p ≠ PendingKey.fresh p) as Hne.
  { intros E. rewrite E in Ho. pose proof (ap_one _ Hap _ _ _ Hf Ho). done. }
  assert (∀ q l, held_at (take_pending s at_) q = Some l → held_at s q = Some l ∧ l ≠ PendingKey.fresh p ∧ l ≠ PendingKey.old p) as Hless.
  { intros q l. rewrite holds_take_pending. destruct (decide _) as [|Hq]; [done|]. intros Hl. split; [done|]. split; intros ->; apply Hq; [left|right]; by eapply ap_one. }
  destruct (ap_live _ Hap _ _ Hf) as [vf Hvf]. destruct (ap_live _ Hap _ _ Ho) as [vo Hvo].
  split; [|done]. split; try done.
  - eapply inv_same; eauto; try done.
    + apply (apart_less s); [done|]. by intros q l [? _]%Hless.
    + intros k q. cbn. by intros [_ ?]%lookup_delete_Some.
  - cbn. apply insert_subseteq_l; [unfold bytes_at; by rewrite Hvo|].
    apply insert_subseteq_l; [unfold bytes_at; by rewrite Hvf|done].
  - intros q l (Hq & H1 & H2)%Hless. rewrite !lookup_insert_ne by congruence. by eapply fr_apart0.
Qed.

Definition pending_as (a : Areas.t) (keys : gmap string Workspace.t) (w n : string) (epoch : Z) (k : bytes)
    (rootedAt : option Z) : Prop := rooted_as None a keys w n epoch k rootedAt.

Lemma frame_put_pending a keys loose s w n p k ko : frame None a keys loose s →
  loose !! PendingKey.fresh p = Some k → loose !! PendingKey.old p = Some ko → PendingKey.fresh p ≠ PendingKey.old p →
  pending_as a keys w n (PendingKey.epoch p) k (PendingKey.rootedAt p) →
  frame None a keys (delete (PendingKey.fresh p) (delete (PendingKey.old p) loose))
    (set_pendingNodeKeys s (<[slot w n := p]> (Worker.pendingNodeKeys s))).
Proof.
  intros Hf Hk Ho Hne Hr. pose proof Hf as []. pose proof (frame_read _ _ _ _ _ _ _ Hf Hk) as Hb. pose proof fr_inv0 as [].
  set (s' := set_pendingNodeKeys s (<[slot w n := p]> (Worker.pendingNodeKeys s))).
  assert (∀ q, held_at s' q = if decide (q = at_fresh (slot w n)) then Some (PendingKey.fresh p)
    else if decide (q = at_old (slot w n)) then Some (PendingKey.old p) else held_at s q) as Hh.
  { intros q. destruct (decide _) as [->|H1]; [cbn; by rewrite lookup_insert_eq|].
    destruct (decide _) as [->|H2]; [cbn; by rewrite lookup_insert_eq|].
    destruct q as [w' v|k'|k'|k'|k'|k'|k']; try done; cbn; rewrite lookup_insert_ne; auto; congruence. }
  assert (apart s') as Hap.
  { split.
    - intros q l. rewrite Hh. cbn. repeat destruct (decide _); [intros [= <-]|intros [= <-]|by eapply ap_live]; eauto using lookup_weaken.
    - intros q q' l. rewrite !Hh. repeat destruct (decide _); subst; try done; intros H1 H2; simplify_eq; try done;
        try (by apply fr_apart0 in H1; congruence); try (by apply fr_apart0 in H2; congruence).
      by apply (ap_one _ inv_apart0 _ _ l). }
  split; try done.
  - split; try done.
    + cbn. intros at_ q v Hq Hv. destruct (decide (at_ = slot w n)) as [->|].
      * rewrite lookup_insert_eq in Hq. injection Hq as <-. destruct (Hr v Hv) as [Hw _]. exists w, n. split; [done|].
        by apply (hasWorkspace_keys s' keys).
      * rewrite lookup_insert_ne in Hq by congruence. by eapply inv_pending0.
    + cbn. intros w' n' q g v Hq Hv Hg. pose proof (inv_opened0 _ _ (family_opened _ _ _ Hg)) as (_ & Hw' & _).
      destruct (decide (slot w' n' = slot w n)) as [Es|Hs].
      * rewrite Es, lookup_insert_eq in Hq. injection Hq as <-. destruct (Hr v Hv) as [Hw [?|Hg']]; [done|].
        apply (hasWorkspace_keys s _ w fr_keys0) in Hw. destruct (inv_owner0 _ Hw) as [Huw _].
        apply slot_inj in Es as [-> ->]; [|by apply UUID_no_slash..]. rewrite Hb. apply Hg'. congruence.
      * rewrite lookup_insert_ne in Hq by congruence. by eapply inv_fresh0.
  - cbn. etrans; [apply delete_subseteq|]. etrans; [apply delete_subseteq|done].
  - intros q l. rewrite Hh, !lookup_delete_None. repeat destruct (decide _); [intros [= <-]; by left|intros [= <-]; right; by left|].
    intros Hq. right. right. by eapply fr_apart0.
Qed.

(** *** The buffer operations *)

Lemma fresh_loose except a keys loose s : frame except a keys loose s → loose !! fresh (dom (Worker.mem s)) = None.
Proof.
  intros Hs. destruct (loose !! fresh (dom (Worker.mem s))) as [x|] eqn:El; [|done].
  exfalso. apply (is_fresh (dom (Worker.mem s))), elem_of_dom. exists x. by eapply lookup_weaken, fr_loose.
Qed.
Lemma h_new {B} except a keys loose v (f : buf → op B) Q (E : Worker.t → Prop) :
  (∀ b, loose !! b = None → hoare (frame except a keys (<[b := v]> loose)) (f b) Q E) →
  hoare (frame except a keys loose) (new_buffer v ≫= f) Q E.
Proof.
  intros Hf s Hs. unfold mbind, op_bind, new_buffer. cbv zeta. apply Hf; [by eapply fresh_loose|by apply frame_new].
Qed.
Lemma h_new_ret except a keys loose v (E : Worker.t → Prop) : hoare (frame except a keys loose) (new_buffer v)
  (λ b s, frame except a keys (<[b := v]> loose) s ∧ loose !! b = None) E.
Proof. intros s Hs. split; [by apply frame_new|by eapply fresh_loose]. Qed.
Lemma h_zero except a keys loose b v (Q : unit → Worker.t → Prop) (E : Worker.t → Prop) : loose !! b = Some v →
  (∀ s, frame except a keys (delete b loose) s → Q tt s) → hoare (frame except a keys loose) (zero b) Q E.
Proof. intros Hb HQ s Hs. by eapply HQ, frame_zero. Qed.
Lemma h_read {B} except a keys loose b v (f : bytes → op B) Q E : loose !! b = Some v →
  hoare (frame except a keys loose) (f v) Q E → hoare (frame except a keys loose) (read b ≫= f) Q E.
Proof. intros Hb Hf. apply h_get. intros x (s & Hs & <-). by rewrite (frame_read _ _ _ _ _ _ _ Hs Hb). Qed.

(** What [take_pool], then zeroing what it held, comes to. *)
Definition cleared (s : Worker.t) (π : pool) (at_ : string) : Worker.t :=
  match pool_of s π !! at_ with
  | Some e => set_mem (take_pool s π at_) (zero_in (Worker.mem s) (NodeKey.key e))
  | None => take_pool s π at_
  end.
Lemma frame_cleared except a keys loose s π at_ : frame except a keys loose s → frame except a keys loose (cleared s π at_).
Proof.
  intros Hf. unfold cleared. destruct (pool_of s π !! at_) as [e|] eqn:He.
  - pose proof (frame_take _ _ _ _ _ _ _ _ Hf He) as Ht. pool_same s π (delete at_ (pool_of s π)).
    assert (loose !! NodeKey.key e = None) as Hn.
    { apply (fr_apart _ _ _ _ _ Hf (pool_place π at_)). by rewrite holds_pool, He. }
    pose proof (frame_zero _ _ _ _ _ _ _ Ht (lookup_insert_eq _ _ _)) as Hz.
    unfold take_pool in Hz at 2. rewrite Em, delete_insert_id in Hz by done. done.
  - unfold take_pool. rewrite delete_id by done. by destruct π, s.
Qed.
Lemma cleared_same s π at_ : Worker.areas (cleared s π at_) = Worker.areas s ∧
  Worker.workspaceKeys (cleared s π at_) = Worker.workspaceKeys s.
Proof. unfold cleared, take_pool. destruct (pool_of s π !! at_); by destruct π. Qed.

Lemma rememberNodeKey_run w n key epoch rootedAt s : rememberNodeKey w n key epoch rootedAt s =
  (let s' := remembered (cleared s (pool_for s w) (slot w n)) w n key epoch rootedAt in
   set_rootOpenedUnder s' (delete (slot w n) (Worker.rootOpenedUnder s')), Ok tt).
Proof.
  unfold rememberNodeKey, remembered, cleared, take_pool, put_pool, mbind, op_bind, get, update, zero_option, mret, op_ret.
  cbv zeta. unfold set_nodeKeysOf, nodeKeysOf, pool_for, hasWorkspace.
  destruct (bool_decide (is_Some (Worker.workspaceKeys s !! w))) eqn:Eh; cbn;
    (destruct (_ !! slot w n) as [e|] eqn:He; cbn; unfold zero, update; cbn; rewrite ?Eh; cbn; rewrite insert_delete_eq; done).
Qed.
Lemma rememberPrev_run w n key epoch own s : rememberPrevNodeKey w n key epoch own s =
  (put_pool (cleared s (previous_for s w) (slot w n)) (previous_for s w) (slot w n) (NodeKey.Build_t key epoch own), Ok tt).
Proof.
  unfold rememberPrevNodeKey, cleared, take_pool, put_pool, mbind, op_bind, get, update, zero_option, mret, op_ret.
  cbv zeta. unfold set_prevNodeKeysOf, prevNodeKeysOf, previous_for, hasWorkspace.
  destruct (bool_decide (is_Some (Worker.workspaceKeys s !! w))) eqn:Eh; cbn;
    (destruct (_ !! slot w n) as [e|] eqn:He; cbn; unfold zero, update; cbn; rewrite ?Eh; cbn; rewrite insert_delete_eq; done).
Qed.

Lemma h_remember except except' a keys loose w n key k epoch rootedAt (Q : unit → Worker.t → Prop) (E : Worker.t → Prop) :
  loose !! key = Some k → except' = except ∨ (except = None ∧ except' = Some (slot w n)) →
  rooted_as except' a keys w n epoch k rootedAt →
  (∀ s, frame except' a keys (delete key loose) s → Q tt s) →
  hoare (frame except a keys loose) (rememberNodeKey w n key epoch rootedAt) Q E.
Proof.
  intros Hk Hex Hr HQ s Hs. rewrite rememberNodeKey_run. cbv zeta. apply HQ, frame_rootOpened.
  eapply frame_remember; eauto. by apply frame_cleared.
Qed.
Lemma h_rememberPrev except a keys loose w n key k epoch own (Q : unit → Worker.t → Prop) (E : Worker.t → Prop) :
  loose !! key = Some k → (∀ s, frame except a keys (delete key loose) s → Q tt s) →
  hoare (frame except a keys loose) (rememberPrevNodeKey w n key epoch own) Q E.
Proof.
  intros Hk HQ s Hs. rewrite rememberPrev_run. apply HQ.
  apply (frame_put_previous _ _ _ _ _ _ _ (NodeKey.Build_t key epoch own)); [by apply frame_cleared|by exists k|].
  unfold previous_for. destruct (hasWorkspace s w); auto.
Qed.

(** ** Opening a node under its parent *)

Lemma openNodeKey_UUID envelope kp ctx k : openNodeKey envelope kp ctx = Ok k → UUID (NodeKeyContext.workspaceId ctx) = true.
Proof.
  unfold openNodeKey, open_key_under, nodeKeyContext, node_key_fields. intros H. apply bind_ok in H as ([nonce body] & _ & H).
  apply bind_ok in H as (aad & Ha & _). by apply bind_ok in Ha as (w & [-> ?]%id_ok & _).
Qed.
Lemma opens_to_UUID ctx kp k : opens_to ctx kp k → UUID (NodeKeyContext.workspaceId ctx) = true.
Proof. intros (? & ? & _ & _ & H). by eapply openNodeKey_UUID. Qed.
Lemma wrapNodeKey_UUID nonce k kp ctx e : wrapNodeKey nonce k kp ctx = Ok e → UUID (NodeKeyContext.workspaceId ctx) = true.
Proof.
  unfold wrapNodeKey, nodeKeyContext, node_key_fields. intros H. not_refused H E1.
  apply bind_ok in H as (aad & Ha & _). by apply bind_ok in Ha as (w & [-> ?]%id_ok & _).
Qed.

Lemma own_slot_workspace except s w n : inv except s → UUID w = true → own_slot s (slot w n) → hasWorkspace s w = true.
Proof.
  intros [] Hw (w' & n' & E & Hh). destruct (inv_owner0 _ Hh) as [Hw' _]. by apply slot_inj in E as [-> _]; [|apply UUID_no_slash..].
Qed.
Lemma nodeKey_own_entry s w n e : nodeKey s w n = Some e → hasWorkspace s w = true → Worker.ownNodeKeys s !! slot w n = Some e.
Proof. unfold nodeKey, nodeKeysOf. intros H Hw. rewrite Hw in H. by destruct (heldBack _ _). Qed.
Lemma nodeKey_own s w n e : nodeKey s w n = Some e → hasWorkspace s w = true →
  held_at s (at_own (slot w n)) = Some (NodeKey.key e).
Proof.
  unfold nodeKey, nodeKeysOf. intros H Hw. rewrite Hw in H. destruct (heldBack _ _); [done|]. cbn. by rewrite H.
Qed.

Lemma lineage_of_ok s w n v : lineage_of s w n = Some v → Worker.lineage s !! slot w n = Some (Some v).
Proof. unfold lineage_of. destruct (_ !! _) as [[x|]|]; cbn; congruence. Qed.

(** What the parent key and its root say of each other. *)
Definition parent_path (a : Areas.t) (keys : gmap string Workspace.t) (w p : string) (parentKeyEpoch : Z) (kp : bytes) (v : Z) : Prop :=
  is_Some (keys !! w) ∧ (p = w → v = parentKeyEpoch) ∧
  ∀ g, familyOf a w = Some g → if decide (p = w) then listed_key g w v kp else rooted g w p v parentKeyEpoch kp.

Lemma parent_rooted a keys loose s w p parentKeyEpoch b v : frame None a keys loose s → UUID w = true →
  parentKeyAndRoot s w p parentKeyEpoch = Ok (b, Some v) →
  parent_path a keys w p parentKeyEpoch (bytes_at (Worker.mem s) b) v.
Proof.
  intros Hf Hw H. pose proof Hf as []. pose proof fr_inv0 as []. unfold parentKeyAndRoot in H. cbv zeta in H.
  pose proof (hasWorkspace_keys s keys w fr_keys0) as Hkeys. unfold parent_path.
  destruct (decide (p = w)) as [->|Hp].
  - rewrite bool_decide_eq_true_2 in H by done. destruct (Worker.workspaceKeys s !! w) as [ws|] eqn:Ew; [|done].
    destruct (Workspace.keys ws !! parentKeyEpoch) as [key|] eqn:Ek; [|done]. injection H as -> ->.
    split; [by rewrite <- fr_keys0, Ew|]. split; [done|]. intros g Hg. rewrite <- fr_areas0 in Hg.
    apply (inv_listed0 g w v); [|done]. unfold key_at, held_at, workspaceKey. by rewrite Ew; cbn; rewrite Ek.
  - rewrite bool_decide_eq_false_2 in H by done.
    assert (∀ e, nodeKey s w p = Some e → lineage_of s w p = Some v → is_Some (keys !! w) ∧
      ∀ g, familyOf a w = Some g → rooted g w p v (NodeKey.epoch e) (bytes_at (Worker.mem s) (NodeKey.key e))) as Hheld.
    { intros e He Hl. apply lineage_of_ok in Hl.
      assert (hasWorkspace s w = true) as Hh by (by eapply own_slot_workspace, inv_lineage0). split; [by apply Hkeys|].
      intros g Hg. rewrite <- fr_areas0 in Hg. apply (inv_rooted0 w p g v); try done. by eapply nodeKey_own_entry. }
    assert (∀ q, Worker.pendingNodeKeys s !! slot w p = Some q → PendingKey.rootedAt q = Some v → is_Some (keys !! w) ∧
      ∀ g, familyOf a w = Some g → rooted g w p v (PendingKey.epoch q) (bytes_at (Worker.mem s) (PendingKey.fresh q))) as Hpend.
    { intros q Hq Hv. assert (hasWorkspace s w = true) as Hh by (by eapply own_slot_workspace, inv_pending0). split; [by apply Hkeys|].
      intros g Hg. rewrite <- fr_areas0 in Hg. by apply (inv_fresh0 w p q g v). }
    destruct (Worker.pendingNodeKeys s !! slot w p) as [q|] eqn:Eq.
    + destruct (PendingKey.epoch q =? parentKeyEpoch) eqn:E1.
      { apply Z.eqb_eq in E1 as <-. injection H as <- Hv. destruct (Hpend q eq_refl Hv) as [? ?]. done. }
      destruct (PendingKey.oldEpoch q =? parentKeyEpoch); [done|].
      destruct (nodeKey s w p) as [e|] eqn:Ee; [|done]. destruct (NodeKey.epoch e =? parentKeyEpoch) eqn:Ehe.
      { apply Z.eqb_eq in Ehe as <-. injection H as <- Hv. destruct (Hheld e eq_refl Hv) as [? ?]. done. }
      destruct (prevNodeKeysOf s w !! slot w p) as [e'|]; [|done]. by destruct (NodeKey.epoch e' =? parentKeyEpoch).
    + destruct (nodeKey s w p) as [e|] eqn:Ee; [|done]. destruct (NodeKey.epoch e =? parentKeyEpoch) eqn:Ehe.
      { apply Z.eqb_eq in Ehe as <-. injection H as <- Hv. destruct (Hheld e eq_refl Hv) as [? ?]. done. }
      destruct (prevNodeKeysOf s w !! slot w p) as [e'|]; [|done]. by destruct (NodeKey.epoch e' =? parentKeyEpoch).
Qed.

(** A parent's key and root as some state had them. *)
Definition parent_at (a : Areas.t) (keys : gmap string Workspace.t) (w p : string) (parentKeyEpoch : Z) (kp : bytes) (r : option Z) : Prop :=
  UUID w = true → ∀ v, r = Some v → parent_path a keys w p parentKeyEpoch kp v.

(** A node opened or drawn under its parent is rooted where the parent is. *)
Lemma opened_rooted_as except a keys w n p parentKeyEpoch keyEpoch kp k r :
  parent_at a keys w p parentKeyEpoch kp r → opens_to (NodeKeyContext.Build_t w n p parentKeyEpoch keyEpoch) kp k →
  (p = w → except = Some (slot w n) ∨ familyOf a w = None) → rooted_as except a keys w n keyEpoch k r.
Proof.
  intros Hp Ho Hex v Hv. pose proof (opens_to_UUID _ _ _ Ho) as Hw. destruct (Hp Hw v Hv) as (Hk & _ & Hr). split; [done|].
  destruct (decide (p = w)) as [Hpw|Hpw].
  - destruct (Hex Hpw) as [->|Hn]; [by left|right]. intros g Hg. congruence.
  - right. intros g Hg. by eapply rooted_child; [apply Hr|].
Qed.
Lemma drawn_rooted_as except a keys w n p parentKeyEpoch keyEpoch kp k r : parent_at a keys w p parentKeyEpoch kp r →
  UUID w = true → was_drawn (NodeKeyContext.Build_t w n p parentKeyEpoch keyEpoch) k ∈ given → (p = w → familyOf a w = None) →
  rooted_as except a keys w n keyEpoch k r.
Proof.
  intros Hp Hw Hd Hn v Hv. destruct (Hp Hw v Hv) as (Hk & _ & Hr). split; [done|]. right. intros g Hg.
  destruct (decide (p = w)) as [Hpw|Hpw]; [rewrite (Hn Hpw) in Hg; done|]. by eapply rooted_drawn; [apply Hr|].
Qed.

Lemma isArea_family except s w g : inv except s → familyOf (Worker.areas s) w = Some g → isArea (Worker.areas s) w = true.
Proof.
  intros [] Hg. pose proof (family_opened _ _ _ Hg) as Ho. destruct (inv_opened0 _ _ Ho) as (_ & _ & Hp). unfold isArea.
  rewrite bool_decide_eq_false_2 by done. unfold openedByFamily. apply openedBy_elem in Ho. destruct (openedBy _ w); [by apply not_elem_of_nil in Ho|].
  replace (0 <? llen _) with true; [done|]. symmetry. apply Z.ltb_lt. unfold llen. cbn. lia.
Qed.

Lemma h_ask_keep {A B} P (f : Worker.t → result A) (k : A → op B) Q (E : Worker.t → Prop) : (∀ s, P s → E s) →
  (∀ x, hoare (λ s, P s ∧ f s = Ok x) (k x) Q E) → hoare P (ask f ≫= k) Q E.
Proof.
  intros HE Hk s Hs. unfold mbind, op_bind, ask. destruct (f s) as [x|e] eqn:H; [|by apply HE]. by apply (Hk x).
Qed.

(** A node opened under the parent just looked up, into a loose buffer. *)
Lemma h_open {B} a keys loose w p parentKeyEpoch parent r envelope ctx (f : buf → op B) Q (E : Worker.t → Prop) :
  (∀ s, frame None a keys loose s → E s) →
  (∀ key kp k, parent_at a keys w p parentKeyEpoch kp r → openNodeKey envelope kp ctx = Ok k → loose !! key = None →
    hoare (frame None a keys (<[key := k]> loose)) (f key) Q E) →
  hoare (λ s, frame None a keys loose s ∧ parentKeyAndRoot s w p parentKeyEpoch = Ok (parent, r))
    (open_envelope id envelope parent ctx ≫= f) Q E.
Proof.
  intros HE Hf s [Hs Hp]. unfold open_envelope, mbind, op_bind, read, get, update, ask. cbn [id].
  destruct (openNodeKey envelope _ ctx) as [k|e] eqn:Ho; [|by apply HE].
  refine (h_new None a keys loose k f Q E (λ b Hb, Hf b _ k _ Ho Hb) s Hs).
  intros Hw v ->. by eapply parent_rooted.
Qed.

(** *** The areas that say nothing new *)

Definition same_families (a a' : Areas.t) : Prop := Areas.chains a' = Areas.chains a ∧ Areas.opened a' = Areas.opened a ∧
  Areas.personal a' = Areas.personal a ∧ Areas.areaWrite a' = Areas.areaWrite a.
Lemma same_family a a' w : same_families a a' → familyOf a' w = familyOf a w.
Proof. intros (_ & H & _). unfold familyOf, openedBy. by rewrite H. Qed.
Lemma inv_same_families except s a' : inv except s → same_families (Worker.areas s) a' → inv except (set_areas s a').
Proof.
  intros [] Hs. pose proof (λ w, same_family _ _ w Hs) as Hf. destruct Hs as (Hc & Ho & Hp & Hw).
  assert (∀ p, held_at (set_areas s a') p = held_at s p) as Hh by (by intros []).
  assert (∀ g w, opened_in a' g w ↔ opened_in (Worker.areas s) g w) as Hi by (intros; unfold opened_in; by rewrite Ho).
  split; cbn [Worker.areas set_areas]; rewrite ?Hc, ?Hp, ?Hw; try done.
  - apply (apart_less s); [done|]. intros p l. by rewrite Hh.
  - intros g w. rewrite Hi. eauto.
  - intros w Hk. destruct (inv_owner0 w Hk) as [? [?|[g ?]]]; (split; [done|]); [by left|right; exists g; by apply Hi].
  - intros g w v k Hk. rewrite Hf. by apply inv_listed0.
  - intros w n g v e ? ? ?. rewrite Hf. by apply inv_rooted0.
  - intros w n p g v ? ?. rewrite Hf. by apply inv_fresh0.
Qed.
Lemma frame_areas except a a' keys loose s : frame except a keys loose s → same_families a a' →
  frame except a' keys loose (set_areas s a').
Proof.
  intros [] Hs. assert (∀ p, held_at (set_areas s a') p = held_at s p) as Hh by (by intros []).
  split; try done; try (intros p l; rewrite Hh; apply fr_apart0).
  apply inv_same_families; [done|by rewrite fr_areas0].
Qed.
Lemma root_answered_same a g w n v checked : same_families a (root_answered a g w n v checked).1.
Proof. unfold root_answered. destruct checked; cbv zeta; repeat case_match; done. Qed.
Lemma root_answered_ok a g w n v checked : (root_answered a g w n v checked).2 = is_ok checked.
Proof. by destruct checked. Qed.

(** *** A root just opened, settled *)

(** The key of the root is in its place, opened under the area's listed key. *)
Definition root_open (s : Worker.t) (w n : string) (v : Z) (key : buf) : Prop :=
  held_at s (pool_place (pool_for s w) (slot w n)) = Some key ∧ UUID w = true ∧
  ∀ g v', Worker.lineage s !! slot w n = Some (Some v') → familyOf (Worker.areas s) w = Some g →
    v' = v ∧ ∃ wk, listed_key g w v wk ∧ ∀ entry, Worker.ownNodeKeys s !! slot w n = Some entry →
    opens_to (NodeKeyContext.Build_t w n w v (NodeKey.epoch entry)) wk (bytes_at (Worker.mem s) key).

Lemma inv_settled s w n : inv (Some (slot w n)) s → UUID w = true →
  (∀ g v e, hasWorkspace s w = true → Worker.ownNodeKeys s !! slot w n = Some e → Worker.lineage s !! slot w n = Some (Some v) →
    familyOf (Worker.areas s) w = Some g → rooted g w n v (NodeKey.epoch e) (bytes_at (Worker.mem s) (NodeKey.key e))) → inv None s.
Proof.
  intros [] Hw Hr. split; try done. intros w' n' g v e _ Hk Hl Hg.
  destruct (decide (slot w' n' = slot w n)) as [E|Hn]; [|apply (inv_rooted0 w' n' g v e); try done; congruence].
  pose proof (inv_opened0 _ _ (family_opened _ _ _ Hg)) as (_ & Hw' & _).
  apply slot_inj in E as [-> ->]; [|by apply UUID_no_slash..]. apply Hr; try done.
  destruct (inv_lineage0 _ _ Hl) as (w2 & n2 & E & Hh). destruct (inv_owner0 _ Hh) as [Hw2 _].
  by apply slot_inj in E as [-> _]; [|apply UUID_no_slash..].
Qed.
Lemma inv_weaken s at_ : inv None s → inv (Some at_) s.
Proof. intros []. split; try done. intros w n g v e _. by apply inv_rooted0. Qed.

(** An own key taken from its place leaves nothing to settle. *)
Lemma inv_taken s w n : inv (Some (slot w n)) s → UUID w = true →
  (hasWorkspace s w = true → Worker.ownNodeKeys s !! slot w n = None) → inv None s.
Proof.
  intros Hi Hw Hn. apply (inv_settled s w n); [done..|]. intros g v e Hh Hk. by rewrite (Hn Hh) in Hk.
Qed.

(** *** Listings *)

Lemma h_requireCommitted {B} (P : Worker.t → Prop) a w (f : op B) Q (E : Worker.t → Prop) : (∀ s, P s → Worker.areas s = a) → (∀ s, P s → E s) →
  (heldBack a w = false → hoare P f Q E) → hoare P (requireCommitted w ≫= λ _, f) Q E.
Proof.
  intros Ha HE Hf. apply h_ask; [done|]. intros [] (s & Hs & H). not_refused H E1. apply Hf. by rewrite <- (Ha s Hs).
Qed.

Lemma h_zero_option except a keys loose b (Q : unit → Worker.t → Prop) (E : Worker.t → Prop) :
  (∀ b', b = Some b' → is_Some (loose !! b')) → (∀ s, frame except a keys (from_option (λ b, delete b loose) loose b) s → Q tt s) →
  hoare (frame except a keys loose) (zero_option b) Q E.
Proof.
  intros Hb HQ. destruct b as [b|]; [|by intros s Hs; apply HQ]. destruct (Hb b eq_refl) as [v Hv]. by eapply h_zero.
Qed.

Lemma h_copy_option {B} except a keys loose (b : option buf) (f : option buf → op B) Q (E : Worker.t → Prop) :
  (∀ b' loose', loose ⊆ loose' → (∀ x, b' = Some x → is_Some (loose' !! x) ∧ delete x loose' = loose) → (b' = None → loose' = loose) →
    hoare (frame except a keys loose') (f b') Q E) →
  hoare (frame except a keys loose) (copy_option b ≫= f) Q E.
Proof.
  intros Hf. destruct b as [b|].
  - intros s Hs. unfold copy_option, copy, mbind, op_bind, read, get, mret, op_ret.
    refine (h_new except a keys loose (bytes_at (Worker.mem s) b) (λ b', f (Some b')) Q E _ s Hs). intros b' Hb'.
    apply Hf; [by apply insert_subseteq| |done]. intros x [= <-]. rewrite lookup_insert_eq. split; [done|]. by apply delete_insert_id.
  - intros s Hs. unfold copy_option, mbind, op_bind, mret, op_ret. by refine (Hf None loose _ _ _ s Hs).
Qed.
End paths.
