(* ===== verification/WriteSteps.v ===== *)
(** * The worker's operations keep its paths

    Every operation of [DriveKeys] run from a state of [WriteKeys.inv] ends in
    one; [reached] are the states the session comes to, and what a write is
    wrapped under there. *)

From S2P Require Import Prelude Base64url Bytes Canonical Crypto Envelopes Roster Ledger Chain Acceptance Areas DriveKeys WriteKeys.

Section steps.
Context `{C : Crypto}.
Variables (past : list Body.t) (given : list brought).
Local Abbreviation frame := (WriteKeys.frame past given).
Local Abbreviation inv := (WriteKeys.inv past given).

Definition served_root (node : ServedNodeKey.t) (w : string) : string := slot w (ServedNodeKey.id node).

Lemma holds_rootOpened s m p : held_at (set_rootOpenedUnder s m) p = held_at s p.
Proof. by destruct p. Qed.
Lemma holds_lineage s m p : held_at (set_lineage s m) p = held_at s p.
Proof. by destruct p. Qed.

(** What remembering a node's key leaves. *)
Definition remembers (s : Worker.t) (w n : string) (key : buf) (epoch : Z) (k : bytes) (r : option Z) : Prop :=
  pool_of s (pool_for s w) !! slot w n = Some (NodeKey.Build_t key epoch false) ∧ Worker.lineage s !! slot w n = Some r ∧ Worker.mem s !! key = Some k.

Lemma pool_for_keys s s' w : Worker.workspaceKeys s' = Worker.workspaceKeys s → pool_for s' w = pool_for s w.
Proof. intros E. unfold pool_for, hasWorkspace. by rewrite E. Qed.

Lemma remember_state except except' a keys loose w n key k epoch r s : frame except a keys loose s → loose !! key = Some k →
  except' = except ∨ (except = None ∧ except' = Some (slot w n)) → rooted_as past given except' a keys w n epoch k r →
  ∃ s', rememberNodeKey w n key epoch r s = (s', Ok tt) ∧ frame except' a keys (delete key loose) s' ∧ remembers s' w n key epoch k r.
Proof.
  intros Hs Hk Hex Hr. rewrite rememberNodeKey_run. cbv zeta. eexists. split; [done|].
  pose proof (frame_cleared _ _ _ _ _ _ _ (pool_for s w) (slot w n) Hs) as Hc. set (s2 := cleared _ _ _) in *.
  split; [by apply frame_rootOpened, (frame_remember past given except except' a keys loose s2 w n key k)|].
  pose proof (set_pool_same s2 (pool_for s2 w) (<[slot w n := NodeKey.Build_t key epoch false]> (pool_of s2 (pool_for s2 w))))
    as (_ & Ew & Em & _). split; [|split].
  - rewrite (pool_for_keys s2) by (cbn; by rewrite <- Ew).
    unfold remembered, put_pool. destruct (pool_for s2 w); cbn; apply lookup_insert_eq.
  - cbn. apply lookup_insert_eq.
  - cbn. unfold put_pool. rewrite Em. by eapply lookup_weaken, fr_loose.
Qed.

(** A served root's key just remembered, by what its row says. *)
Lemma remembers_root_open except a keys loose s w n key k r pke keyEpoch kp : frame except a keys loose s →
  remembers s w n key keyEpoch k r → parent_at past given a keys w w pke kp r →
  opens_to given (NodeKeyContext.Build_t w n w pke keyEpoch) kp k → root_open past given s w n pke key.
Proof.
  intros Hs (Hh & Hl & Hm) Hat Ho. pose proof (opens_to_UUID _ _ _ _ Ho) as Hw. split; [by rewrite holds_pool, Hh|]. split; [done|].
  intros g v Hv Hg. rewrite Hl in Hv. injection Hv as ->. rewrite (fr_areas _ _ _ _ _ _ _ Hs) in Hg.
  destruct (Hat Hw v eq_refl) as (Hk & Hv & Hr). rewrite (Hv eq_refl) in *. split; [done|]. specialize (Hr g Hg).
  rewrite decide_True in Hr by done. exists kp. split; [done|]. intros entry He.
  apply (hasWorkspace_keys s keys w (fr_keys _ _ _ _ _ _ _ Hs)) in Hk. unfold pool_for in Hh. rewrite Hk in Hh. cbn in Hh.
  rewrite He in Hh. injection Hh as ->. unfold bytes_at. by rewrite Hm.
Qed.

Lemma rootOpened_root_open s w n pke key m : root_open past given s w n pke key → root_open past given (set_rootOpenedUnder s m) w n pke key.
Proof. intros (H1 & H2 & H3). split; [|done]. by rewrite (pool_for_keys s), holds_rootOpened. Qed.

(** The row's own context. *)
Definition listed_ctx (w : string) (node : ServedNodeKey.t) : NodeKeyContext.t :=
  served_ctx w node (ServedNodeKey.parentKeyEpoch node) (ServedNodeKey.keyEpoch node).
Definition listed_in (w : string) (node : ServedNodeKey.t) : Prop := was_served (listed_ctx w node) (ServedNodeKey.keyEnvelope node) ∈ given.
(** What the envelope of the row opened to, and under what. *)
Definition opened_node (a : Areas.t) (keys : gmap string Workspace.t) (w : string) (node : ServedNodeKey.t) (k : bytes) (r : option Z) : Prop :=
  ∃ kp, parent_at past given a keys w (ServedNodeKey.parentId node) (ServedNodeKey.parentKeyEpoch node) kp r ∧
    opens_to given (listed_ctx w node) kp k.

(** An area's root is the area's own top level, and nothing else is opened right under an area key. *)
Record root_row (a : Areas.t) (w : string) (node : ServedNodeKey.t) (areaRoot : bool) : Prop := {
  rr_top : areaRoot = true → ServedNodeKey.parentId node = w;
  rr_area : ServedNodeKey.parentId node = w → areaRoot = true ∨ familyOf a w = None;
}.

(** The first half of [open_and_hold]: the envelope. *)
Lemma h_open_row a keys loose w node hp : listed_in w node → (∀ b', hp = Some b' → is_Some (loose !! b')) →
  hoare (frame None a keys loose)
    (on_error
      (parent ← ask (λ s, parentKeyAndRoot s w (ServedNodeKey.parentId node) (ServedNodeKey.parentKeyEpoch node));
       envelope ← ask (λ _, decode (ServedNodeKey.keyEnvelope node) (Some 72));
       key ← open_envelope id envelope parent.1 (served_ctx w node (ServedNodeKey.parentKeyEpoch node) (ServedNodeKey.keyEpoch node));
       mret (key, parent.2)) (zero_option hp))
    (λ kr s, ∃ k, frame None a keys (<[kr.1 := k]> loose) s ∧ loose !! kr.1 = None ∧ opened_node a keys w node k kr.2) (inv None).
Proof.
  intros Hin Hhp. apply (h_on_error _ _ _ _ _ (frame None a keys loose)).
  - apply h_ask_keep; [done|]. intros [parent r] s [Hs Hp]. unfold mbind at 1, op_bind at 1, ask at 1.
    destruct (decode _ _) as [envelope|e] eqn:Hd; [|done]. revert s Hs Hp. cbn [fst snd]. intros s Hs Hp.
    refine (h_open past given a keys loose w _ _ parent r envelope _ (λ key, mret (key, r)) _ (frame None a keys loose) _ _ s (conj Hs Hp));
      [done|]. intros key kp k Hat Ho Hn. apply h_ret. intros s' Hs'. exists k. split; [done|]. split; [done|]. exists kp. split; [done|].
    by exists (ServedNodeKey.keyEnvelope node), envelope.
  - intros s Hs. pose proof (h_zero_option past given None a keys loose hp (λ _, inv None) (inv None) Hhp) as Hz.
    specialize (Hz (λ s' Hf, frame_inv _ _ _ _ _ _ _ Hf) s Hs). by destruct (zero_option hp s) as [s' [|]].
Qed.

Lemma h_open_and_hold a keys loose w node areaRoot hp (Q : buf → Worker.t → Prop) : listed_in w node → root_row a w node areaRoot →
  (∀ b', hp = Some b' → is_Some (loose !! b')) → heldBack a w = false →
  (∀ key s, UUID w = true → frame (if areaRoot then Some (slot w (ServedNodeKey.id node)) else None) a keys loose s →
    (areaRoot = true → root_open past given s w (ServedNodeKey.id node) (ServedNodeKey.parentKeyEpoch node) key) → Q key s) →
  hoare (frame None a keys loose) (open_and_hold id w node areaRoot hp) Q (inv None).
Proof.
  intros Hin [Htop Harea] Hhp Hheld HQ. unfold open_and_hold. eapply h_bind; [by apply h_open_row|].
  intros [key r] s (k & Hs & Hn & kp & Hat & Ho). cbn [fst snd] in *. pose proof (opens_to_UUID _ _ _ _ Ho) as Hw.
  set (n := ServedNodeKey.id node) in *. set (pke := ServedNodeKey.parentKeyEpoch node) in *.
  unfold mbind at 1, op_bind at 1, on_error, requireCommitted, ask. rewrite (fr_areas _ _ _ _ _ _ _ Hs), Hheld.
  destruct (remember_state None (if areaRoot then Some (slot w n) else None) a keys _ w n key k (ServedNodeKey.keyEpoch node) r s Hs)
    as (s' & E & Hs' & Hr); [apply lookup_insert_eq|by destruct areaRoot; auto| |].
  { eapply opened_rooted_as; [exact Hat|exact Ho|]. intros Hp. destruct (Harea Hp) as [->|]; auto. }
  rewrite delete_insert_id in Hs' by done. unfold mbind at 1, op_bind at 1. rewrite E.
  unfold mbind, op_bind, when_op, update. destruct areaRoot; cbn.
  - apply HQ; [done|by apply frame_rootOpened|]. intros _. apply rootOpened_root_open. unfold listed_ctx, served_ctx in Ho.
    rewrite (Htop eq_refl) in Hat, Ho. by eapply remembers_root_open.
  - by apply HQ.
Qed.

(** *** The root against its chain *)

Lemma cleared_own s w n : hasWorkspace s w = true →
  Worker.ownNodeKeys (cleared s (pool_for s w) (slot w n)) !! slot w n = None.
Proof.
  intros Hw. unfold cleared, pool_for, take_pool. rewrite Hw. destruct (pool_of s own_keys !! slot w n) as [e|] eqn:He; cbn; apply lookup_delete_eq.
Qed.

Lemma listed_root_ok g c w v k : c ∈ past → Body.groupId c = g → is_ok (checkAreaRoot c w v k) = true → listed_root past g w v k.
Proof.
  intros Hp Hg H. assert (∃ r, checkAreaRoot c w v k = Ok r) as [r Hr] by (destruct (checkAreaRoot c w v k); [by eexists|done]). clear H.
  unfold checkAreaRoot in Hr. apply bind_ok in Hr as (v' & Hv & Hr). apply integer_ok in Hv as [[= <-] _]. not_refused Hr Ew.
  destruct (listedArea c w v); [|done]. destruct (default [] (Body.areaRoots c !! w) !! _) as [root|] eqn:Er; [|done].
  exists c, root. split_and!; [done|done|by apply bool_decide_eq_false in Ew|done|]. intros x ->.
  apply bind_ok in Hr as (commitment & Hc & Hr). not_refused Hr E. bool_simpl. by subst x.
Qed.
Lemma root_settled a keys loose s w n pke key c g : frame (Some (slot w n)) a keys loose s → root_open past given s w n pke key →
  familyOf a w = Some g → Areas.chains a !! g = Some c → is_ok (checkAreaRoot c w pke (bytes_at (Worker.mem s) key)) = true → inv None s.
Proof.
  intros [Hi Ha _ _ _] (Hh & Hw & Ho) Hg Hc Hok. apply (inv_settled _ _ s w n Hi Hw). rewrite Ha. intros g' v e Hk Hkey Hl Hg'.
  assert (g' = g) as -> by congruence. rewrite <- Ha in Hg', Hc. destruct (Ho g v Hl Hg') as (-> & wk & Hlist & Hopen).
  destruct (inv_chains _ _ _ _ Hi _ _ Hc) as [Hgc Hp].
  specialize (Hopen e Hkey). unfold pool_for in Hh. rewrite Hk in Hh. cbn in Hh. rewrite Hkey in Hh. injection Hh as ->.
  eapply rooted_root; [done|done|]. by eapply listed_root_ok.
Qed.
Lemma root_unasked except a keys loose s w n : frame except a keys loose s → except = None ∨ except = Some (slot w n) ∧ UUID w = true →
  familyOf a w = None → inv None s.
Proof.
  intros [Hi Ha _ _ _] [-> | [-> Hw]] Hn; [done|]. apply (inv_settled _ _ s w n Hi Hw). rewrite Ha. intros g v k _ _ _ Hg. congruence.
Qed.

(** What is left of a frame when the root is taken or not. *)
Definition root_frame (except : option string) (a : Areas.t) (keys : gmap string Workspace.t) (loose : gmap buf bytes) (taken : bool)
    (s : Worker.t) : Prop :=
  ∃ a', same_families a a' ∧ frame (if taken then None else except) a' keys loose s.

Lemma same_families_refl a : same_families a a.
Proof. done. Qed.

Lemma h_rootSeen except a keys loose w n pke key : heldBack a w = false →
  hoare (λ s, frame except a keys loose s ∧ (except = None ∨ except = Some (slot w n) ∧ root_open past given s w n pke key))
    (rootSeen id w n pke key) (root_frame except a keys loose) (inv None).
Proof.
  intros Hheld s [Hs Hex]. unfold rootSeen, mbind, op_bind, get. rewrite (fr_areas _ _ _ _ _ _ _ Hs).
  assert (except = None ∨ except = Some (slot w n) ∧ UUID w = true) as Hex' by (destruct Hex as [|[? (_ & ? & _)]]; auto).
  destruct (familyOf a w) as [g|] eqn:Hg.
  - destruct (heldBack_false a w g Hheld (family_opened _ _ _ Hg)) as [c Hc]. pose proof Hs as [Hi Ha _ _ _].
    assert (isArea a w = true) as Harea by (rewrite <- Ha in *; by eapply isArea_family).
    unfold root_asked. rewrite Harea, Hg, Hc. cbn [negb fmap option_fmap option_map]. unfold read, get, update, mret, op_ret.
    cbv beta iota zeta. cbn [id]. rewrite Ha. set (checked := checkAreaRoot _ _ _ _).
    pose proof (root_answered_same a g w n pke checked) as Hsame. rewrite root_answered_ok.
    pose proof (frame_areas _ _ _ _ _ _ _ _ Hs Hsame) as Hs'. exists (root_answered a g w n pke checked).1. split; [done|].
    destruct (is_ok checked) eqn:Hok; [|done]. destruct Hex as [-> | [-> Ho]]; [done|].
    pose proof (root_settled _ _ _ _ _ _ _ _ _ _ Hs Ho Hg Hc Hok) as Hi'. destruct Hs'. split; try done.
    apply inv_same_families; [done|by rewrite Ha].
  - assert (root_asked a w = None) as Hn by (unfold root_asked; rewrite Hg; by destruct (negb _)). rewrite Hn.
    unfold mret, op_ret. exists a. split; [done|]. pose proof (root_unasked _ _ _ _ _ _ _ Hs Hex' Hg) as Hi. by destruct Hs.
Qed.

Lemma drop_root_run w n hp s : drop_root w n hp s =
  zero_option hp (let s' := cleared s (pool_for s w) (slot w n) in
    set_rootOpenedUnder s' (delete (slot w n) (Worker.rootOpenedUnder s'))).
Proof.
  unfold drop_root, forgetNodeKey, cleared, take_pool, mbind, op_bind, get, update. cbv zeta.
  unfold set_nodeKeysOf, nodeKeysOf, pool_for, hasWorkspace.
  destruct (bool_decide (is_Some (Worker.workspaceKeys s !! w))) eqn:Eh; cbn;
    (destruct (_ !! slot w n) as [e|] eqn:He; cbn; unfold zero, update, mret, op_ret; cbn; rewrite ?Eh; cbn; done).
Qed.

Lemma h_drop_root except a keys loose w n hp : except = None ∨ except = Some (slot w n) ∧ UUID w = true →
  (∀ b', hp = Some b' → is_Some (loose !! b')) →
  hoare (frame except a keys loose) (drop_root w n hp) (λ _, inv None) (inv None).
Proof.
  intros Hex Hhp s Hs. rewrite drop_root_run. cbv zeta.
  assert (frame None a keys loose (set_rootOpenedUnder (cleared s (pool_for s w) (slot w n))
    (delete (slot w n) (Worker.rootOpenedUnder (cleared s (pool_for s w) (slot w n)))))) as Hf.
  { apply frame_rootOpened. pose proof (frame_cleared _ _ _ _ _ _ _ (pool_for s w) (slot w n) Hs) as Hc.
    destruct Hex as [-> | [-> Hw]]; [done|]. pose proof (inv_taken _ _ _ w n (fr_inv _ _ _ _ _ _ _ Hc) Hw) as Hi. destruct Hc.
    split; try done. apply Hi. intros Hh. apply cleared_own. unfold hasWorkspace in *.
    pose proof (cleared_same s (pool_for s w) (slot w n)) as [_ E]. by rewrite E in Hh. }
  pose proof (h_zero_option past given None a keys loose hp (λ _, inv None) (inv None) Hhp) as Hz. apply Hz; [|done].
  intros s' Hs'. by eapply frame_inv.
Qed.

(** *** The previous key *)

Lemma h_attempt {A B} (P : Worker.t → Prop) (m : op A) (f : option A → op B) R F Q E : hoare P m R F →
  (∀ x, hoare (R x) (f (Some x)) Q E) → hoare F (f None) Q E → hoare P (attempt m ≫= f) Q E.
Proof.
  intros Hm Hx Hn s Hs. unfold mbind, op_bind, attempt. specialize (Hm s Hs). destruct (m s) as [s' [x|e]]; [by apply Hx|by apply Hn].
Qed.

Lemma h_open_previous a keys loose areaRoot envelope parent ctx :
  hoare (frame None a keys loose) (open_previous id areaRoot envelope parent ctx)
    (λ b s, ∃ k, frame None a keys (<[b := k]> loose) s ∧ loose !! b = None) (frame None a keys loose).
Proof.
  intros s Hs. unfold open_previous, mbind, op_bind, read, get, update, ask. cbn [id]. destruct (if areaRoot then _ else _) as [k|e]; [|done].
  pose proof (h_new_ret past given None a keys loose k (frame None a keys loose) s Hs) as H. destruct (new_buffer k s) as [s' [b|e]]; [by exists k|done].
Qed.

Definition in_hand (b : option buf) (loose : gmap buf bytes) : Prop := ∀ x, b = Some x → is_Some (loose !! x).

Lemma h_previous_of a keys loose w n epoch own previous : in_hand own loose → in_hand previous loose →
  (∀ o b, own = Some o → previous = Some b → o ≠ b) →
  hoare (frame None a keys loose)
    (match own, previous with
     | Some own, _ => _ ← zero_option previous; rememberPrevNodeKey w n own epoch true
     | None, Some previous => rememberPrevNodeKey w n previous epoch false
     | None, None => mret tt
     end) (λ _, frame None a keys ∅) (inv None).
Proof.
  intros Ho Hp Hne. destruct own as [o|].
  - apply h_bind with (R := λ _, frame None a keys (from_option (λ b, delete b loose) loose previous));
      [by apply (h_zero_option past given None a keys loose previous)|]. intros [].
    destruct (Ho o eq_refl) as [k Hk]. apply (h_rememberPrev past given None a keys _ w n o k).
    + destruct previous as [b|]; [|done]. cbn. rewrite lookup_delete_ne; [done|]. apply not_eq_sym. by apply Hne.
    + intros s Hs. eapply frame_weaken; [done|apply map_empty_subseteq].
  - destruct previous as [b|].
    + destruct (Hp b eq_refl) as [k Hk]. apply (h_rememberPrev past given None a keys _ w n b k); [done|].
      intros s Hs. eapply frame_weaken; [done|apply map_empty_subseteq].
    + apply h_ret. intros s Hs. eapply frame_weaken; [done|apply map_empty_subseteq].
Qed.

Lemma h_hold_previous a keys loose w node areaRoot hp : in_hand hp loose →
  hoare (frame None a keys loose) (hold_previous id w node areaRoot hp) (λ _, frame None a keys ∅) (inv None).
Proof.
  intros Hhp. unfold hold_previous. destruct (served_previous node) as [[[prev prevParent] prevEpoch]|].
  2:{ apply (h_zero_option past given None a keys loose hp); [done|]. intros s Hs. eapply frame_weaken; [done|apply map_empty_subseteq]. }
  set (P previous := λ s, ∃ loose', frame None a keys loose' s ∧ loose ⊆ loose' ∧ in_hand previous loose' ∧
    ∀ o b, hp = Some o → previous = Some b → o ≠ b).
  assert (∀ previous, hoare (P previous)
    (kept ← get (λ s, prevNodeKeysOf s w !! slot w (ServedNodeKey.id node));
     own ← match hp with
       | Some b => mret (Some b)
       | None => copy_option match kept with
           | Some kept => if areaRoot && NodeKey.own kept && (NodeKey.epoch kept =? prevEpoch) then Some (NodeKey.key kept) else None
           | None => None
           end
       end;
     match own, previous with
     | Some own, _ => _ ← zero_option previous; rememberPrevNodeKey w (ServedNodeKey.id node) own prevEpoch true
     | None, Some previous => rememberPrevNodeKey w (ServedNodeKey.id node) previous prevEpoch false
     | None, None => mret tt
     end) (λ _, frame None a keys ∅) (inv None)) as Hrest.
  { intros previous s (loose' & Hs & Hsub & Hp & Hne). revert s Hs. apply h_get. intros kept _. destruct hp as [o|].
    - intros s Hs. refine (h_previous_of a keys loose' w _ prevEpoch (Some o) previous _ Hp Hne s Hs).
      intros x [= <-]. destruct (Hhp o eq_refl) as [v Hv]. exists v. by eapply lookup_weaken.
    - apply (h_copy_option past given None a keys loose'). intros own loose2 Hsub2 Hown Hnone. apply h_previous_of.
      + intros x Hx. by apply Hown.
      + intros x Hx. destruct (Hp x Hx) as [v Hv]. exists v. by eapply lookup_weaken.
      + intros o b Ho Hb ->. destruct (Hown b Ho) as [_ Hd]. destruct (Hp b Hb) as [v Hv]. rewrite <- Hd, lookup_delete_eq in Hv. done. }
  apply (h_attempt _ _ _ (λ b, P (Some b)) (frame None a keys loose)).
  - apply h_ask; [done|]. intros parent _. apply h_ask; [done|]. intros envelope _.
    eapply h_conseq; [apply h_open_previous|done| |done]. intros b s (k & Hs & Hb). exists (<[b := k]> loose).
    split; [done|]. split; [by apply insert_subseteq|]. split.
    + intros x [= <-]. by rewrite lookup_insert_eq.
    + intros o b' -> [= <-] ->. destruct (Hhp b eq_refl) as [v Hv]. congruence.
  - intros b. apply Hrest.
  - intros s Hs. apply Hrest. exists loose. split; [done|]. split; [done|]. split; [done|]. done.
Qed.

(** ** A listing *)

Lemma h_listed_root a keys loose w node areaRoot hp key : heldBack a w = false → root_row a w node areaRoot → in_hand hp loose →
  hoare (λ s, frame (if areaRoot then Some (slot w (ServedNodeKey.id node)) else None) a keys loose s ∧
      (areaRoot = true → root_open past given s w (ServedNodeKey.id node) (ServedNodeKey.parentKeyEpoch node) key) ∨
      frame None a keys loose s)
    (committed ← (if areaRoot : bool then rootSeen id w (ServedNodeKey.id node) (ServedNodeKey.parentKeyEpoch node) key else mret true);
     if committed : bool then
       _ ← hold_previous id w node areaRoot hp; _ ← requireCommitted w; mret key
     else _ ← drop_root w (ServedNodeKey.id node) hp; throw NOT_COMMITTED_ROOT) (λ _, inv None) (inv None).
Proof.
  intros Hheld Hrow Hhp. set (n := ServedNodeKey.id node). set (pke := ServedNodeKey.parentKeyEpoch node).
  assert (∀ a', hoare (frame None a' keys loose) (_ ← hold_previous id w node areaRoot hp; _ ← requireCommitted w; mret key)
    (λ _, inv None) (inv None)) as Hgood.
  { intros a'. eapply h_bind; [by apply h_hold_previous|]. intros []. apply (h_requireCommitted _ a').
    - intros s Hs. apply Hs. - intros s Hs. apply Hs. - intros _. apply h_ret. intros s Hs. apply Hs. }
  assert (∀ except, except = None ∨ except = Some (slot w n) ∧ UUID w = true → hoare
    (λ s, frame except a keys loose s ∧ (except = None ∨ except = Some (slot w n) ∧ root_open past given s w n pke key))
    (committed ← rootSeen id w n pke key; if committed : bool then
       _ ← hold_previous id w node areaRoot hp; _ ← requireCommitted w; mret key
     else _ ← drop_root w n hp; throw NOT_COMMITTED_ROOT) (λ _, inv None) (inv None)) as Hseen.
  { intros except Hex. eapply h_bind; [by apply h_rootSeen|]. intros [] s (a' & _ & Hs); [by apply (Hgood a')|].
    revert s Hs. eapply h_bind; [by apply h_drop_root|]. intros []. by apply h_throw. }
  destruct areaRoot.
  - intros s [[Hs Ho]|Hs]; [|by apply (Hseen None); auto]. specialize (Ho eq_refl).
    apply (Hseen (Some (slot w n))); [right; split; [done|apply Ho]|]. split; [done|]. by right.
  - intros s Hs. apply (Hgood a). by destruct Hs as [[? _]|?].
Qed.

(** A task that keeps the invariant, whatever it answers. *)
Definition keeps {A} (m : op A) : Prop := ∀ s, inv None s → inv None (m s).1.
Lemma keeps_hoare {A} (m : op A) : (∀ a keys, hoare (frame None a keys ∅) m (λ _, inv None) (inv None)) → keeps m.
Proof.
  intros Hm s Hs. assert (frame None (Worker.areas s) (Worker.workspaceKeys s) ∅ s) as Hf by (split; try done; apply map_empty_subseteq).
  specialize (Hm _ _ s Hf). by destruct (m s) as [s' [x|e]].
Qed.

Lemma openListedNode_keeps w node : listed_in w node → keeps (openListedNode (λ _, id) w node).
Proof.
  intros Hlisted. apply keeps_hoare. intros a keys. apply (h_requireCommitted _ a); [by intros s []|by intros s []|]. intros Hheld.
  apply h_get. intros areaRoot (s0 & Hs0 & Hroot). assert (root_row a w node areaRoot) as Hrow.
  { rewrite (fr_areas _ _ _ _ _ _ _ Hs0) in Hroot. subst areaRoot. split.
    - intros [? _]%andb_true_iff. by bool_simpl.
    - intros ->. rewrite bool_decide_eq_true_2 by done. cbn. destruct (isArea a w) eqn:Ea; [by left|right].
      destruct (familyOf a w) as [g|] eqn:Hg; [|done]. pose proof Hs0 as [Hi Haa _ _ _]. rewrite <- Haa in Hg, Ea.
      pose proof (isArea_family _ _ _ _ _ _ Hi Hg). congruence. }
  apply h_ask; [by intros s []|]. intros [] _. apply h_get. intros cached _. apply h_get. intros held _.
  apply h_copy_option. intros hp loose _ Hhp Hnone. assert (in_hand hp loose) as Hin by (intros x Hx; by apply Hhp).
  destruct cached as [key|].
  - intros s Hs. apply (h_listed_root a keys loose w node areaRoot hp key); auto.
  - eapply h_bind; [apply (h_open_and_hold a keys loose w node areaRoot hp (λ key s,
      frame (if areaRoot then Some (slot w (ServedNodeKey.id node)) else None) a keys loose s ∧
      (areaRoot = true → root_open past given s w (ServedNodeKey.id node) (ServedNodeKey.parentKeyEpoch node) key))); auto|].
    intros key s Hs. apply (h_listed_root a keys loose w node areaRoot hp key); auto.
Qed.

(** ** New nodes *)

Lemma rootOf_at a keys loose s w p e r : frame None a keys loose s → rootOf s w p e = Ok r →
  ∃ kp, parent_at past given a keys w p e kp r.
Proof.
  intros Hs H. unfold rootOf in H. apply bind_ok in H as ([b r'] & H & [= <-]). exists (bytes_at (Worker.mem s) b).
  intros Hw v ->. by eapply parent_rooted.
Qed.

(** Nothing is wrapped right under an area key. *)
Lemma wrapKeyFor_below a keys loose s w p e b : frame None a keys loose s → wrapKeyFor s w p e = Ok b → p = w → familyOf a w = None.
Proof.
  intros [Hi Ha _ _ _] H ->. unfold wrapKeyFor in H. apply bind_ok in H as ([] & _ & H). rewrite bool_decide_eq_true_2 in H by done.
  not_refused H E. destruct (familyOf a w) as [g|] eqn:Hg; [|done]. rewrite <- Ha in Hg. pose proof (isArea_family _ _ _ _ _ _ Hi Hg). congruence.
Qed.

(** The context of a new node's key, and of the fresh key of a walk. *)
Definition new_ctx (w : string) (node : NewNode.t) : NodeKeyContext.t :=
  node_ctx w (NewNode.id node) (NewNode.parentId node) (NewNode.parentKeyEpoch node) (NewNode.keyEpoch node).
Definition fresh_ctx (w : string) (node : RotatingNodeKey.t) (targetEpoch : Z) : NodeKeyContext.t :=
  node_ctx w (RotatingNodeKey.id node) (RotatingNodeKey.parentId node) (RotatingNodeKey.parentKeyEpoch node) targetEpoch.
Definition walked_in (w : string) (node : RotatingNodeKey.t) : Prop :=
  was_served (rotating_ctx w node (RotatingNodeKey.wrappedParentKeyEpoch node)) (RotatingNodeKey.keyEnvelope node) ∈ given.

Lemma h_id {B} P (f : unit → op B) Q E : hoare P (f tt) Q E → hoare P (update id ≫= f) Q E.
Proof. intros Hf. by apply h_update with (R := P). Qed.
Lemma h_read_any {B} P b (f : bytes → op B) Q E : (∀ v, hoare P (f v) Q E) → hoare P (read b ≫= f) Q E.
Proof. intros Hf. apply h_get. intros v _. apply Hf. Qed.

Lemma newNodeKey_keeps w node key nonce : was_drawn (new_ctx w node) key ∈ given → keeps (newNodeKey id w node key nonce).
Proof.
  intros Hd. apply keeps_hoare. intros a keys. unfold newNodeKey. apply h_ask; [by intros s []|]. intros parentKey (s0 & Hs0 & Hwrap).
  pose proof (wrapKeyFor_below _ _ _ _ _ _ _ _ Hs0 Hwrap) as Hbelow.
  apply h_new. intros b Hb. set (loose := <[b := key]> ∅).
  apply (h_on_error _ _ _ _ _ (frame None a keys loose)).
  - apply h_read_any. intros pk. apply h_id. apply h_ask; [done|]. intros envelope (_ & _ & He).
    pose proof (wrapNodeKey_UUID _ _ _ _ _ He) as Hw. apply h_ask; [done|]. intros r (s1 & Hs1 & Hr).
    destruct (rootOf_at _ _ _ _ _ _ _ _ Hs1 Hr) as [kp Hat].
    apply h_bind with (R := λ _, frame None a keys (delete b loose)); [|intros []; apply h_ret; by intros s []].
    apply (h_remember past given None None a keys loose _ _ b key); [apply lookup_insert_eq|by left| |done].
    by eapply drawn_rooted_as.
  - intros s Hs. pose proof (h_zero past given None a keys loose b key (λ _, inv None) (inv None)) as Hz.
    specialize (Hz ltac:(apply lookup_insert_eq) ltac:(by intros s' []) s Hs). by destruct (zero b s) as [s' [|]].
Qed.

(** ** Walks *)

(** Keys read nothing of the buffers. *)
Lemma nodeKey_mem s m w n : nodeKey (set_mem s m) w n = nodeKey s w n.
Proof. done. Qed.
Lemma parentKeyAndRoot_mem s m w p e : parentKeyAndRoot (set_mem s m) w p e = parentKeyAndRoot s w p e.
Proof. done. Qed.

(** The key a walk starts from, and how it was come by when the session did not hold it. *)
Definition walked_key (a : Areas.t) (keys : gmap string Workspace.t) (s0 : Worker.t) (w : string) (node : RotatingNodeKey.t) (k : bytes) : Prop :=
  nodeKey s0 w (RotatingNodeKey.id node) = None → ∃ b r kp,
    parentKeyAndRoot s0 w (RotatingNodeKey.parentId node) (RotatingNodeKey.wrappedParentKeyEpoch node) = Ok (b, r) ∧
    parent_at past given a keys w (RotatingNodeKey.parentId node) (RotatingNodeKey.wrappedParentKeyEpoch node) kp r ∧
    opens_to given (rotating_ctx w node (RotatingNodeKey.wrappedParentKeyEpoch node)) kp k.

Lemma currentKeyOf_run a keys loose s0 w node : walked_in w node → frame None a keys loose s0 →
  match currentKeyOf id w node s0 with
  | (s1, Ok old) => ∃ k, frame None a keys (<[old := k]> loose) s1 ∧ loose !! old = None ∧ s1 = set_mem s0 (Worker.mem s1) ∧
      walked_key a keys s0 w node k
  | (s1, Err _) => s1 = s0
  end.
Proof.
  intros Hin Hs. unfold currentKeyOf, mbind at 1, op_bind at 1, get at 1. cbv zeta.
  set (fe := envelope ← _; _). assert (match fe s0 with
    | (s1, Ok old) => ∃ k, frame None a keys (<[old := k]> loose) s1 ∧ loose !! old = None ∧ s1 = set_mem s0 (Worker.mem s1) ∧
        walked_key a keys s0 w node k
    | (s1, Err _) => s1 = s0 end) as Hfe.
  { unfold fe, mbind, op_bind, ask. destruct (decode _ _) as [envelope|] eqn:Hd; [|done]. unfold parentKeyFor.
    destruct (parentKeyAndRoot s0 w _ _) as [[b r]|] eqn:Hp; [|done]. cbn [mbind res_bind].
    unfold open_envelope, mbind, op_bind, read, get, update, ask. cbn [id]. destruct (openNodeKey _ _ _) as [k|] eqn:Ho; [|done].
    exists k. split; [by apply frame_new|]. split; [by eapply fresh_loose|]. split; [done|]. intros _.
    exists b, r, (bytes_at (Worker.mem s0) b). split; [done|]. split; [intros Hw v ->; by eapply parent_rooted|]. by eexists _, envelope. }
  destruct (nodeKey s0 w (RotatingNodeKey.id node)) as [c|] eqn:Hc; [|done].
  destruct (NodeKey.epoch c =? RotatingNodeKey.keyEpoch node); [|done].
  unfold copy, mbind, op_bind, read, get. cbv zeta. exists (bytes_at (Worker.mem s0) (NodeKey.key c)).
  split; [by apply frame_new|]. split; [by eapply fresh_loose|]. split; [done|]. intros Hn. congruence.
Qed.

Lemma zero_run except a keys loose b v s : frame except a keys loose s → loose !! b = Some v → inv except (zero b s).1.
Proof. intros Hs Hb. by apply (frame_zero _ _ _ _ _ _ _ _ _ Hs Hb). Qed.

(** A node re-wrapped: the state it started from is [s0], but for buffers. *)
Lemma h_rewrapAtTarget a keys loose s0 w node old k nonce : loose !! old = Some k → walked_key a keys s0 w node k →
  (RotatingNodeKey.parentId node = w → familyOf a w = None) →
  hoare (λ s, frame None a keys loose s ∧ s = set_mem s0 (Worker.mem s)) (rewrapAtTarget id w node old nonce)
    (λ _, frame None a keys (delete old loose)) (frame None a keys (delete old loose)).
Proof.
  intros Hold Hk Hbelow s [Hs Hs0]. unfold rewrapAtTarget, mbind at 1, op_bind at 1, get at 1.
  refine (h_on_error (λ s, frame None a keys loose s ∧ s = set_mem s0 (Worker.mem s)) _ _ _ _ (frame None a keys loose) _ _ s (conj Hs Hs0)).
  - set (cached := nodeKey s w _). assert (cached = nodeKey s0 w (RotatingNodeKey.id node)) as Hc by (unfold cached; by rewrite Hs0, nodeKey_mem).
    clearbody cached. clear s Hs Hs0. apply h_ask_keep; [by intros s []|]. intros r s [[Hs Hs0] Hr].
    assert (cached = None → rooted_as past given None a keys w (RotatingNodeKey.id node) (RotatingNodeKey.keyEpoch node) k r) as Hroot.
    { intros ->. destruct (Hk (eq_sym Hc)) as (b & r' & kp & Hp & Hat & Ho). rewrite Hs0 in Hr. unfold rootOf in Hr.
      rewrite parentKeyAndRoot_mem, Hp in Hr. injection Hr as <-. eapply opened_rooted_as; [exact Hat|exact Ho|]. intros E. right. by apply Hbelow. }
    clear Hr Hs0 Hk. revert s Hs. apply h_ask; [done|]. intros [] _. apply h_ask; [done|]. intros parentKey _.
    apply h_read_any. intros pk. apply h_read_any. intros v. apply h_id. apply h_ask; [done|]. intros envelope _.
    apply h_bind with (R := λ _, frame None a keys (delete old loose)); [|intros []; apply h_ret; done].
    destruct cached as [c|]; [by eapply h_zero|]. apply (h_remember past given None None a keys loose _ _ old k); auto.
  - intros s' Hs'. by eapply frame_zero.
Qed.

(** The walk's start: never the top level of a family folder. *)
Lemma h_rotationOldKey {B} a keys w node (k : buf → op B) Q : walked_in w node →
  (∀ s0 old v, walked_key a keys s0 w node v → (RotatingNodeKey.parentId node = w → familyOf a w = None) →
    hoare (λ s, frame None a keys {[old := v]} s ∧ s = set_mem s0 (Worker.mem s)) (k old) Q (inv None)) →
  hoare (frame None a keys ∅) (rotationOldKey id w node ≫= k) Q (inv None).
Proof.
  intros Hin Hk s Hs. unfold rotationOldKey, mbind, op_bind, ask.
  destruct (refuse AREA_ROOT when (RotatingNodeKey.parentId node === w) && isArea (Worker.areas s) w ;; Ok tt) as [[]|e] eqn:Hroot;
    [|by destruct Hs].
  assert (RotatingNodeKey.parentId node = w → familyOf a w = None) as Hbelow.
  { intros Hp. not_refused Hroot E. rewrite bool_decide_eq_true_2 in E by done. destruct (familyOf a w) as [g|] eqn:Hg; [|done].
    destruct Hs as [Hi Ha _ _ _]. rewrite <- Ha in Hg. by rewrite (isArea_family _ _ _ _ _ _ Hi Hg) in E. }
  pose proof (currentKeyOf_run a keys ∅ s w node Hin Hs) as Hrun. destruct (currentKeyOf id w node s) as [s1 [old|e]].
  - destruct Hrun as (v & Hs1 & _ & E & Hv). by apply (Hk s old v Hv Hbelow s1).
  - subst s1. by destruct Hs.
Qed.

Lemma h_setPending a keys loose w n p k ko (E : Worker.t → Prop) : loose !! PendingKey.fresh p = Some k →
  loose !! PendingKey.old p = Some ko → PendingKey.fresh p ≠ PendingKey.old p →
  pending_as past given a keys w n (PendingKey.epoch p) k (PendingKey.rootedAt p) →
  hoare (frame None a keys loose) (setPending w n p) (λ _, inv None) E.
Proof.
  intros Hf Ho Hne Hr s Hs. unfold setPending, mbind, op_bind, get, update.
  assert (∀ s', frame None a keys loose s' → Worker.pendingNodeKeys s' = delete (slot w n) (Worker.pendingNodeKeys s) →
    inv None (set_pendingNodeKeys s' (<[slot w n := p]> (Worker.pendingNodeKeys s)))) as Hput.
  { intros s' Hs' E'. pose proof (frame_put_pending _ _ a keys loose s' w n p k ko Hs' Hf Ho Hne Hr) as H.
    rewrite E', insert_delete_eq in H. apply H. }
  destruct (Worker.pendingNodeKeys s !! slot w n) as [q|] eqn:Hq.
  - destruct (frame_take_pending _ _ _ _ _ _ _ _ _ Hs Hq) as [Ht Hqq].
    pose proof (frame_zero _ _ _ _ _ _ (PendingKey.fresh q) _ _ Ht ltac:(rewrite lookup_insert_ne by done; apply lookup_insert_eq)) as Hz.
    rewrite delete_insert_ne in Hz by done.
    pose proof (frame_zero _ _ _ _ _ _ (PendingKey.old q) _ _ Hz (lookup_insert_eq _ _ _)) as Hz'.
    assert (loose !! PendingKey.fresh q = None) as Hn1 by (apply (fr_apart _ _ _ _ _ _ _ Hs (at_fresh (slot w n))); cbn; by rewrite Hq).
    assert (loose !! PendingKey.old q = None) as Hn2 by (apply (fr_apart _ _ _ _ _ _ _ Hs (at_old (slot w n))); cbn; by rewrite Hq).
    rewrite delete_insert_id in Hz' by (rewrite lookup_delete_ne by done; rewrite lookup_insert_ne by done; done).
    rewrite delete_insert_id in Hz' by done. apply (Hput _ Hz' eq_refl).
  - unfold mret, op_ret. apply (Hput _ Hs). by rewrite delete_id.
Qed.

Lemma h_zero_end a keys loose b v : loose !! b = Some v → ∀ s, frame None a keys loose s → inv None (zero b s).1.
Proof. intros Hb s Hs. by eapply zero_run. Qed.

(** Re-keying a node's records answers or throws, and leaves the worker as it is. *)
Lemma rotateKey_keeps {T} w node target (r : bytes → bytes → bytes → result T) key nonce : UUID w = true → walked_in w node →
  was_drawn (fresh_ctx w node target) key ∈ given → keeps (rotateKey (λ _, id) w node target (λ o k pk, ask (λ _, r o k pk)) key nonce).
Proof.
  intros Hw Hin Hd. apply keeps_hoare. intros a keys. unfold rotateKey. apply h_ask; [by intros s []|]. intros [] _.
  apply h_rotationOldKey; [done|]. intros s0 old v Hv Hbelow. case_match.
  - intros s [Hs E]. unfold copy, mbind at 1, op_bind at 1, read, get.
    pose proof (frame_new _ _ None a keys {[old := v]} (bytes_at (Worker.mem s) old) s Hs) as Hn. cbv zeta in Hn.
    pose proof (fresh_loose _ _ _ _ _ _ _ Hs) as Hl. unfold new_buffer, mbind at 1, op_bind at 1. cbv zeta.
    set (b := fresh _) in *. assert (old ≠ b) as Hne by (intros ->; by rewrite lookup_singleton_eq in Hl).
    set (v' := bytes_at (Worker.mem s) old) in *.
    refine (h_on_error (λ s, frame None a keys (<[b := v']> {[old := v]}) s ∧ s = set_mem s0 (Worker.mem s))
      _ _ _ _ (frame None a keys (delete old (<[b := v']> {[old := v]}))) _ _ _ (conj Hn _)).
    + eapply h_bind; [eapply h_rewrapAtTarget; [rewrite lookup_insert_ne by done; apply lookup_singleton_eq|done|done]|].
      intros envelope. apply h_ret. by intros s' [].
    + apply h_zero_end with (v := v'). by rewrite lookup_delete_ne, lookup_insert_eq.
    + by rewrite E.
  - apply h_conseq with (P := frame None a keys {[old := v]}) (Q := λ _, inv None) (E := inv None); [|by intros s [Hs _]|done|done].
    eapply h_bind with (R := λ _, frame None a keys {[old := v]}).
    + apply (h_on_error _ _ _ _ _ (frame None a keys {[old := v]})).
      * intros s Hs. unfold ask. by case_match.
      * apply h_zero_end with (v := v), lookup_singleton_eq.
    + intros []. apply h_new. intros b Hb. assert (old ≠ b) as Hne by (intros ->; by rewrite lookup_singleton_eq in Hb).
      set (loose := <[b := key]> {[old := v]}). apply (h_on_error _ _ _ _ _ (frame None a keys loose)).
      * apply h_ask; [done|]. intros [parent root] (s & Hs & Hp). unfold freshKeyParent in Hp.
        apply bind_ok in Hp as (wrap & Hwrap & Hp). apply bind_ok in Hp as ([b' root'] & Hroot & [= -> ->]).
        pose proof (rootOf_at a keys _ s w (RotatingNodeKey.parentId node) (RotatingNodeKey.parentKeyEpoch node) root Hs
          ltac:(unfold rootOf; by rewrite Hroot)) as [kp Hat].
        apply h_read_any. intros pk. apply h_read_any. intros o. apply h_ask; [done|]. intros answer _.
        apply h_bind with (R := λ _, inv None); [|intros []; by apply h_ret].
        eapply h_setPending with (k := key) (ko := v); cbn; [apply lookup_insert_eq| |done|].
        { unfold loose. rewrite lookup_insert_ne by done. apply lookup_singleton_eq. }
        eapply drawn_rooted_as; eauto.
      * intros s Hs. unfold mbind, op_bind. pose proof (frame_zero _ _ _ _ _ loose b key s Hs (lookup_insert_eq _ _ _)) as Hz.
        unfold zero at 1, update at 1. apply (zero_run _ _ _ _ old v _ Hz). unfold loose.
        rewrite lookup_delete_ne, lookup_insert_ne by done. apply lookup_singleton_eq.
Qed.
End steps.
