(* ===== verification/WriteDrops.v ===== *)
(** * Keys let go, kept and listed anew

    The rest of the worker's operations over [WriteKeys.inv]: a batch the
    server took or refused, a workspace dropped, a lock, a family's chain
    committed or forgotten, and the areas and personal workspace opened. *)

From S2P Require Import Prelude Base64url Bytes Canonical Crypto Envelopes Roster Ledger Chain Acceptance Areas DriveKeys WriteKeys WriteSteps.

(** ** Buffers zeroed together *)

Lemma zeros_zeros v : zeros (zeros v) = zeros v.
Proof. unfold zeros. pose proof (slen_fill (String.length v) "000") as H. unfold slen in H. f_equal. lia. Qed.
Lemma zero_all_other m bs l : l ∉ bs → foldl zero_in m bs !! l = m !! l.
Proof.
  revert m; induction bs as [|b bs IH]; intros m; [done|]. rewrite not_elem_of_cons. intros [? ?]. cbn [foldl].
  rewrite IH by done. by apply zero_in_other.
Qed.
Lemma zero_all_in m bs l v : m !! l = Some v → l ∈ bs → foldl zero_in m bs !! l = Some (zeros v).
Proof.
  revert m v; induction bs as [|b bs IH]; intros m v Hm; [by intros ?%not_elem_of_nil|].
  rewrite elem_of_cons. cbn [foldl]. intros Hl. destruct (decide (l = b)) as [->|Hne].
  - assert (zero_in m b !! b = Some (zeros v)) as Hz by (unfold zero_in; by rewrite lookup_alter_eq, Hm).
    destruct (decide (b ∈ bs)); [|by rewrite zero_all_other]. rewrite <- (zeros_zeros v). by apply IH.
  - apply IH; [by rewrite zero_in_other|]. by destruct Hl.
Qed.

Lemma list_elem_of_concat {A} (x : A) l : x ∈ concat l ↔ ∃ y, x ∈ y ∧ y ∈ l.
Proof. setoid_rewrite list_elem_of_In. rewrite in_concat. naive_solver. Qed.
Lemma held_keys_elem m b : b ∈ held_keys m ↔ ∃ at_ e, m !! at_ = Some e ∧ NodeKey.key e = b.
Proof.
  unfold held_keys. rewrite list_elem_of_fmap. split.
  - intros ([at_ e] & -> & H%elem_of_map_to_list). by exists at_, e.
  - intros (at_ & e & H & <-). exists (at_, e). split; [done|]. by apply elem_of_map_to_list.
Qed.
Lemma pending_keys_elem m b : b ∈ pending_keys m ↔ ∃ at_ p, m !! at_ = Some p ∧ (PendingKey.fresh p = b ∨ PendingKey.old p = b).
Proof.
  unfold pending_keys. rewrite elem_of_app, !list_elem_of_fmap. split.
  - intros [([at_ e] & -> & H%elem_of_map_to_list)|([at_ e] & -> & H%elem_of_map_to_list)]; exists at_, e; auto.
  - intros (at_ & p & H & [<-|<-]); [left|right]; (exists (at_, p); split; [done|]; by apply elem_of_map_to_list).
Qed.
Lemma workspace_keys_elem ws b : b ∈ workspace_keys ws ↔ ∃ v, Workspace.keys ws !! v = Some b.
Proof.
  unfold workspace_keys. rewrite list_elem_of_fmap. split.
  - intros ([v x] & -> & H%elem_of_map_to_list). by exists v.
  - intros (v & H). exists (v, b). split; [done|]. by apply elem_of_map_to_list.
Qed.

(** ** Tasks in a row *)

Section drops.
Context `{C : Crypto}.
Variables (past : list Body.t) (given : list brought).
Local Abbreviation frame := (WriteKeys.frame past given).
Local Abbreviation inv := (WriteKeys.inv past given).
Local Abbreviation keeps := (WriteSteps.keeps past given).

Lemma inv_frame s : inv None s → frame None (Worker.areas s) (Worker.workspaceKeys s) ∅ s.
Proof. intros Hs. split; try done. apply map_empty_subseteq. Qed.
Lemma keeps_ret {A} (x : A) : keeps (mret x).
Proof. by intros s Hs. Qed.
Lemma keeps_bind {A B} (m : op A) (f : A → op B) : keeps m → (∀ x, keeps (f x)) → keeps (m ≫= f).
Proof. intros Hm Hf s Hs. specialize (Hm s Hs). unfold mbind, op_bind. destruct (m s) as [s' [x|e]]; [by apply Hf|done]. Qed.
Lemma keeps_each {A} (f : A → op unit) l : (∀ x, x ∈ l → keeps (f x)) → keeps (each_op f l).
Proof.
  induction l as [|x l IH]; intros Hf; [apply keeps_ret|]. cbn [each_op]. apply keeps_bind; [apply Hf; by left|].
  intros _. apply IH. intros y Hy. apply Hf. by right.
Qed.
Lemma keeps_sum {A} (f : A → op Z) l : (∀ x, keeps (f x)) → keeps (sum_op f l).
Proof.
  intros Hf. induction l as [|x l IH]; [apply keeps_ret|]. cbn [sum_op]. apply keeps_bind; [done|]. intros n.
  apply keeps_bind; [done|]. intros m. apply keeps_ret.
Qed.

(** ** A batch the server took, or refused *)

Lemma pending_rooted s w n p : inv None s → UUID w = true → Worker.pendingNodeKeys s !! slot w n = Some p →
  rooted_as past given None (Worker.areas s) (Worker.workspaceKeys s) w n (PendingKey.epoch p)
    (bytes_at (Worker.mem s) (PendingKey.fresh p)) (PendingKey.rootedAt p).
Proof.
  intros Hi Hw Hp v Hv. split.
  - apply (hasWorkspace_keys s _ w eq_refl). eapply own_slot_workspace; [done..|]. by apply (inv_pending _ _ _ _ Hi _ p v).
  - right. intros g Hg. by apply (inv_fresh _ _ _ _ Hi w n p g v).
Qed.

Lemma commit_one_keeps w n : UUID w = true → keeps (commit_one w n).
Proof.
  intros Hw s Hs. unfold commit_one, mbind at 1, op_bind at 1, get.
  destruct (Worker.pendingNodeKeys s !! slot w n) as [p|] eqn:Hp; [|done].
  pose proof (pending_rooted s w n p Hs Hw Hp) as Hr. destruct (frame_take_pending _ _ _ _ _ _ _ _ _ (inv_frame s Hs) Hp) as [Ht Hne].
  fold (take_pending s (slot w n)). unfold mbind at 1, op_bind at 1, update. fold (take_pending s (slot w n)).
  set (kf := bytes_at _ (PendingKey.fresh p)) in *. set (ko := bytes_at _ (PendingKey.old p)) in *.
  set (a := Worker.areas s) in *. set (keys := Worker.workspaceKeys s) in *. clearbody a keys kf ko.
  assert (hoare (frame None a keys (<[PendingKey.old p := ko]> (<[PendingKey.fresh p := kf]> ∅)))
    (_ ← rememberPrevNodeKey w n (PendingKey.old p) (PendingKey.oldEpoch p) true;
     _ ← rememberNodeKey w n (PendingKey.fresh p) (PendingKey.epoch p) (PendingKey.rootedAt p); mret 1) (λ _, inv None) (inv None)) as H.
  { apply h_bind with (R := λ _, frame None a keys (<[PendingKey.fresh p := kf]> ∅)).
    - eapply h_rememberPrev; [apply lookup_insert_eq|]. intros s'. rewrite delete_insert_id; [done|]. by rewrite lookup_insert_ne.
    - intros []. apply h_bind with (R := λ _, inv None); [|intros []; by apply h_ret].
      eapply h_remember with (except' := None); [apply lookup_insert_eq|by left|done|]. by intros s' []. }
  specialize (H _ Ht). by case_match; case_match.
Qed.
Lemma commitPending_keeps w ns : UUID w = true → keeps (commitPending w ns).
Proof. intros Hw. apply keeps_sum. intros n. by apply commit_one_keeps. Qed.

Lemma drop_one_keeps w n : keeps (drop_one w n).
Proof.
  intros s Hs. unfold drop_one, mbind at 1, op_bind at 1, get.
  destruct (Worker.pendingNodeKeys s !! slot w n) as [p|] eqn:Hp; [|done].
  destruct (frame_take_pending _ _ _ _ _ _ _ _ _ (inv_frame s Hs) Hp) as [Ht Hne].
  pose proof (frame_zero _ _ _ _ _ _ (PendingKey.fresh p) _ _ Ht ltac:(rewrite lookup_insert_ne by done; apply lookup_insert_eq)) as Hz.
  rewrite delete_insert_ne in Hz by done. by apply (frame_zero _ _ _ _ _ _ (PendingKey.old p) _ _ Hz (lookup_insert_eq _ _ _)).
Qed.
Lemma dropPending_keeps w ns : keeps (dropPending w ns).
Proof. apply keeps_sum, drop_one_keeps. Qed.

(** ** Keys dropped together *)

(** What is left was there, and nothing left was zeroed. *)
Record dropped (s s' : Worker.t) (bs : list buf) : Prop := {
  dr_mem : Worker.mem s' = foldl zero_in (Worker.mem s) bs;
  dr_less p l : held_at s' p = Some l → held_at s p = Some l;
  dr_own at_ e : Worker.ownNodeKeys s' !! at_ = Some e → Worker.ownNodeKeys s !! at_ = Some e;
  dr_gone b : b ∈ bs → ∃ p, held_at s p = Some b ∧ held_at s' p = None;
  dr_lineage at_ v : Worker.lineage s' !! at_ = Some (Some v) → Worker.lineage s !! at_ = Some (Some v) ∧ (own_slot s at_ → own_slot s' at_);
  dr_pending at_ p : Worker.pendingNodeKeys s' !! at_ = Some p → Worker.pendingNodeKeys s !! at_ = Some p ∧ (own_slot s at_ → own_slot s' at_);
  dr_workspace w : hasWorkspace s' w = true → hasWorkspace s w = true;
}.

Lemma inv_dropped s s' bs : inv None s → dropped s s' bs → Worker.areas s' = Worker.areas s → inv None s'.
Proof.
  intros Hi [] Ea. pose proof Hi as [].
  assert (∀ p l, held_at s' p = Some l → held_at s p = Some l ∧ Worker.mem s' !! l = Worker.mem s !! l) as Hl.
  { intros p l Hp. pose proof (dr_less0 p l Hp) as Hp'. split; [done|]. rewrite dr_mem0. apply zero_all_other. intros Hb.
    destruct (dr_gone0 l Hb) as (q & Hq & Hn). assert (p = q) as -> by (by eapply ap_one). congruence. }
  assert (∀ p k, key_at s' p = Some k → key_at s p = Some k) as Hk.
  { intros p k. unfold key_at. destruct (held_at s' p) as [l|] eqn:E; [|done]. destruct (Hl p l E) as [-> Hm]. cbn. unfold bytes_at. by rewrite Hm. }
  split; rewrite ?Ea; try done.
  - by apply (apart_less s).
  - intros w Hw. by apply inv_owner, dr_workspace0.
  - intros g w v k H%Hk. eauto.
  - intros at_ v [H1 H2]%dr_lineage0. eauto.
  - intros at_ p v [H1 H2]%dr_pending0 Hv. eauto.
  - intros w n g v e He H [H1 _]%dr_lineage0 Hg. pose proof (inv_rooted w n g v e He (dr_own0 _ _ H) H1 Hg) as Hr.
    assert (held_at s' (at_own (slot w n)) = Some (NodeKey.key e)) as Hh by (cbn; by rewrite H).
    unfold bytes_at in *. by rewrite (proj2 (Hl _ _ Hh)).
  - intros w n p g v Hp Hv Hg. pose proof (dr_pending0 _ _ Hp) as [H1 _]. pose proof (inv_fresh w n p g v H1 Hv Hg) as Hr.
    assert (held_at s' (at_fresh (slot w n)) = Some (PendingKey.fresh p)) as Hh by (cbn; by rewrite Hp).
    unfold bytes_at in *. by rewrite (proj2 (Hl _ _ Hh)).
Qed.

(** *** A workspace *)

Definition workspace_buffers (s : Worker.t) (w : string) : list buf :=
  match Worker.workspaceKeys s !! w with Some w => workspace_keys w | None => [] end ++
  concat (map (λ pool, held_keys (listed_under w pool))
    [Worker.ownNodeKeys s; Worker.guestNodeKeys s; Worker.ownPrevNodeKeys s; Worker.guestPrevNodeKeys s]) ++
  pending_keys (listed_under w (Worker.pendingNodeKeys s)).

(** The places a workspace's keys are held in. *)
Definition under (w : string) (p : place) : Prop :=
  match p with
  | at_workspace w' _ => w' = w
  | at_own k | at_guest k | at_own_prev k | at_guest_prev k | at_fresh k | at_old k => starts_with w k = true
  end.

#[export] Instance under_dec w p : Decision (under w p).
Proof. destruct p; cbn; apply _. Defined.

Lemma fmap_pool {A B} (f : A → B) w (m : gmap string A) k b : f <$> m !! k = Some b → starts_with w k = true →
  ∃ e, listed_under w m !! k = Some e ∧ f e = b.
Proof. intros (e & He & ->)%fmap_Some Hk. exists e. split; [|done]. by apply listed_under_lookup. Qed.

Lemma workspace_buffers_elem s w b : b ∈ workspace_buffers s w ↔ ∃ p, under w p ∧ held_at s p = Some b.
Proof.
  unfold workspace_buffers. cbn [map concat]. rewrite app_nil_r, !elem_of_app, !held_keys_elem, pending_keys_elem. split.
  - intros [H|[[H|[H|[H|H]]]|H]].
    + destruct (Worker.workspaceKeys s !! w) as [ws|] eqn:Hw; [|by apply not_elem_of_nil in H].
      apply workspace_keys_elem in H as [v Hv]. exists (at_workspace w v). split; [done|]. cbn. unfold workspaceKey. by rewrite Hw.
    + destruct H as (k & e & [He Hk]%listed_under_lookup & <-). exists (at_own k). cbn. by rewrite He.
    + destruct H as (k & e & [He Hk]%listed_under_lookup & <-). exists (at_guest k). cbn. by rewrite He.
    + destruct H as (k & e & [He Hk]%listed_under_lookup & <-). exists (at_own_prev k). cbn. by rewrite He.
    + destruct H as (k & e & [He Hk]%listed_under_lookup & <-). exists (at_guest_prev k). cbn. by rewrite He.
    + destruct H as (k & p & [He Hk]%listed_under_lookup & [<-|<-]); [exists (at_fresh k)|exists (at_old k)]; cbn; by rewrite He.
  - intros (p & Hp & H). destruct p as [w' v|k|k|k|k|k|k]; cbn in Hp, H.
    { left. subst w'. unfold workspaceKey in H. destruct (Worker.workspaceKeys s !! w); [|done]. apply workspace_keys_elem. by exists v. }
    all: right; eapply fmap_pool in H as (e & He & <-); [|done].
    + left; left. by exists k, e. + left; right; left. by exists k, e.
    + left; right; right; left. by exists k, e. + left; right; right; right. by exists k, e.
    + right. exists k, e. auto. + right. exists k, e. auto.
Qed.

Lemma holds_under s w p : held_at (dropWorkspace w s).1 p = if decide (under w p) then None else held_at s p.
Proof.
  assert (∀ {A B} (f : A → B) (m : gmap string A) k, f <$> drop_under w m !! k = if decide (starts_with w k = true) then None else f <$> m !! k) as Hd.
  { intros A B f m k. case_decide as Hk.
    - destruct (drop_under w m !! k) as [e|] eqn:E; [|done]. apply drop_under_lookup in E as [_ E]. congruence.
    - destruct (m !! k) as [e|] eqn:E.
      + apply not_true_iff_false in Hk. assert (drop_under w m !! k = Some e) as -> by (by apply drop_under_lookup). done.
      + destruct (drop_under w m !! k) as [e|] eqn:E'; [|done]. apply drop_under_lookup in E' as [E' _]. congruence. }
  unfold dropWorkspace, mbind, op_bind, zero_all, update. cbn [fst]. destruct p as [w' v|k|k|k|k|k|k]; cbn; try apply Hd.
  unfold workspaceKey. cbn. case_decide as E; [subst w'; by rewrite lookup_delete_eq|by rewrite lookup_delete_ne].
Qed.

Lemma own_slot_kept s w at_ : own_slot s at_ → starts_with w at_ = false → own_slot (dropWorkspace w s).1 at_.
Proof.
  intros (w' & n & -> & Hw) Hs. exists w', n. split; [done|]. unfold hasWorkspace in *. rewrite bool_decide_eq_true in *.
  change (is_Some (delete w (Worker.workspaceKeys s) !! w')). rewrite lookup_delete_ne; [done|]. intros ->. by rewrite starts_with_slot in Hs.
Qed.

Lemma dropWorkspace_dropped s w : dropped s (dropWorkspace w s).1 (workspace_buffers s w).
Proof.
  split.
  - done.
  - intros p l. rewrite holds_under. by destruct (decide _).
  - by intros at_ e [? _]%drop_under_lookup.
  - intros b (p & Hu & Hp)%workspace_buffers_elem. exists p. rewrite holds_under, decide_True by done. done.
  - intros at_ v [H Hs]%drop_under_lookup. split; [done|]. intros Ho. by apply own_slot_kept.
  - intros at_ p [H Hs]%drop_under_lookup. split; [done|]. intros Ho. by apply own_slot_kept.
  - intros w'. unfold hasWorkspace. rewrite !bool_decide_eq_true.
    change (is_Some (delete w (Worker.workspaceKeys s) !! w') → is_Some (Worker.workspaceKeys s !! w')). intros [x [_ Hx]%lookup_delete_Some]. by exists x.
Qed.
Lemma dropWorkspace_keeps w : keeps (dropWorkspace w).
Proof. intros s Hs. by apply (inv_dropped s _ _ Hs (dropWorkspace_dropped s w)). Qed.

Lemma dropAllPending_keeps w : keeps (dropAllPending w).
Proof.
  intros s Hs. set (bs := pending_keys (listed_under w (Worker.pendingNodeKeys s))).
  assert (∀ p l, held_at (dropAllPending w s).1 p = Some l → held_at s p = Some l ∧ (under w p → match p with at_fresh _ | at_old _ => False | _ => True end)) as Hh.
  { intros [w' v|k|k|k|k|k|k] l; cbn; try done; intros (e & [He Hk]%drop_under_lookup & ->)%fmap_Some; rewrite He; cbn; (split; [done|congruence]). }
  apply (inv_dropped s _ bs Hs); [|done]. split; try done.
  - intros p l H. by apply Hh.
  - intros b (k & e & [He Hk]%listed_under_lookup & [<-|<-])%pending_keys_elem; [exists (at_fresh k)|exists (at_old k)];
      (split; [cbn; by rewrite He|]); (destruct (held_at _ _) eqn:E; [|done]); by apply Hh in E as [_ E]; destruct (E Hk).
  - intros at_ p [H _]%drop_under_lookup. split; [done|]. done.
Qed.

(** *** Everything: a lock *)

Lemma every_key_elem s b : b ∈ every_key s ↔ ∃ p, held_at s p = Some b.
Proof.
  unfold every_key. rewrite !elem_of_app, !held_keys_elem, pending_keys_elem. split.
  - intros [H|[H|[H|[H|[H|H]]]]].
    + apply list_elem_of_concat in H as (l & Hb & Hl). apply list_elem_of_fmap in Hl as ([w ws] & -> & Hw%elem_of_map_to_list).
      apply workspace_keys_elem in Hb as [v Hv]. exists (at_workspace w v). cbn in *. unfold workspaceKey. by rewrite Hw.
    + destruct H as (k & e & He & <-). exists (at_own k). cbn. by rewrite He.
    + destruct H as (k & e & He & <-). exists (at_guest k). cbn. by rewrite He.
    + destruct H as (k & e & He & <-). exists (at_own_prev k). cbn. by rewrite He.
    + destruct H as (k & e & He & <-). exists (at_guest_prev k). cbn. by rewrite He.
    + destruct H as (k & p & He & [<-|<-]); [exists (at_fresh k)|exists (at_old k)]; cbn; by rewrite He.
  - intros ([w v|k|k|k|k|k|k] & H); cbn in H.
    { left. unfold workspaceKey in H. destruct (Worker.workspaceKeys s !! w) as [ws|] eqn:Hw; [|done]. apply list_elem_of_concat.
      exists (workspace_keys ws). split; [by apply workspace_keys_elem; exists v|]. apply list_elem_of_fmap. exists (w, ws).
      split; [done|]. by apply elem_of_map_to_list. }
    all: right; apply fmap_Some in H as (e & He & ->).
    + left. by exists k, e. + right; left. by exists k, e. + do 2 right; left. by exists k, e. + do 3 right; left. by exists k, e.
    + do 4 right. exists k, e. auto. + do 4 right. exists k, e. auto.
Qed.
Lemma holds_clear s p : held_at (clear s).1 p = None.
Proof. destruct p; cbn; unfold workspaceKey; cbn; by rewrite ?lookup_empty. Qed.

(** ** Areas *)

(** What the invariant asks of the areas, of a worker that holds these workspaces. *)
Record sound_areas (s : Worker.t) (a : Areas.t) : Prop := {
  sa_opened g w : opened_in a g w → UUID g = true ∧ UUID w = true ∧ w ∉ Areas.personal a;
  sa_owner w : hasWorkspace s w = true → w ∈ Areas.personal a ∨ ∃ g, opened_in a g w;
  sa_family w g : hasWorkspace s w = true → familyOf a w = Some g → familyOf (Worker.areas s) w = Some g;
  sa_chains g c : Areas.chains a !! g = Some c → Body.groupId c = g ∧ c ∈ past;
  sa_write at_ v : Areas.areaWrite a !! at_ = Some v → ∃ g w c, at_ = areaSlot g w ∧ UUID g = true ∧
    Areas.chains a !! g = Some c ∧ (areaWriteVersion c w = Some v ∨ Body.areaKeys c !! w = None);
}.
Lemma inv_areas s a : inv None s → sound_areas s a → inv None (set_areas s a).
Proof.
  intros Hi []. pose proof Hi as [].
  assert (∀ p, held_at (set_areas s a) p = held_at s p) as Hh by (by intros []).
  split; try done.
  - apply (apart_less s); [done|]. intros p l. by rewrite Hh.
  - intros w Hw. split; [by apply inv_owner|]. by apply sa_owner0.
  - intros g w v k Hk Hg. apply (inv_listed g w v k Hk). apply sa_family0; [|done].
    unfold key_at in Hk. cbn in Hk. unfold workspaceKey in Hk. unfold hasWorkspace. rewrite bool_decide_eq_true. cbn in Hk.
    by destruct (Worker.workspaceKeys s !! w).
  - intros w n g v e He Hk Hl Hg. apply (inv_rooted w n g v e He Hk Hl). apply sa_family0; [|done].
    pose proof (sa_opened0 _ _ (family_opened _ _ _ Hg)) as (_ & Hw & _). by eapply own_slot_workspace, inv_lineage.
  - intros w n p g v Hp Hv Hg. apply (inv_fresh w n p g v Hp Hv). apply sa_family0; [|done].
    pose proof (sa_opened0 _ _ (family_opened _ _ _ Hg)) as (_ & Hw & _). by eapply own_slot_workspace, inv_pending.
Qed.
Lemma sound_now s : inv None s → sound_areas s (Worker.areas s).
Proof. intros []. split; try done. intros w Hw. by apply inv_owner. Qed.
End drops.
