(* ===== verification/WriteAreas.v ===== *)
(** * Areas opened, committed and forgotten

    The operations of [DriveKeys] that change which families the worker knows:
    a family's chain committed or forgotten, its area or the personal
    workspace opened, a lock. *)

From S2P Require Import Prelude Base64url Bytes Canonical Crypto Envelopes Roster Ledger Chain Acceptance Areas DriveKeys WriteKeys WriteSteps WriteDrops.

Section areas_steps.
Context `{C : Crypto}.

(** ** More chains, more brought in *)

Lemma listed_key_mono past past' g w v k : past ⊆ past' → listed_key past g w v k → listed_key past' g w v k.
Proof. intros Hp (c & x & Hc & H). exists c, x. split; [by apply Hp|done]. Qed.
Lemma listed_root_mono past past' g w v k : past ⊆ past' → listed_root past g w v k → listed_root past' g w v k.
Proof. intros Hp (c & x & Hc & H). exists c, x. split; [by apply Hp|done]. Qed.
Lemma opens_to_mono given given' ctx kp k : given ⊆ given' → opens_to given ctx kp k → opens_to given' ctx kp k.
Proof. intros Hg (s & e & Hs & H). exists s, e. split; [by apply Hg|done]. Qed.
Lemma rooted_mono past past' given given' g w n v e k : past ⊆ past' → given ⊆ given' →
  rooted past given g w n v e k → rooted past' given' g w n v e k.
Proof.
  intros Hp Hd. induction 1.
  - eapply rooted_root; eauto using listed_key_mono, listed_root_mono, opens_to_mono.
  - eapply rooted_child; eauto using opens_to_mono.
  - eapply rooted_drawn; eauto.
Qed.
Lemma inv_mono past past' given given' s : past ⊆ past' → given ⊆ given' → inv past given None s → inv past' given' None s.
Proof.
  intros Hp Hd []. split; try done.
  - intros g w v k Hk Hg. eapply listed_key_mono; eauto.
  - intros w n g v e He Hk Hl Hg. eapply rooted_mono; eauto.
  - intros w n p g v Hq Hv Hg. eapply rooted_mono; eauto.
  - intros g c Hc. destruct (inv_chains g c Hc). auto.
Qed.

Variables (past : list Body.t) (given : list brought).
Local Abbreviation frame := (WriteKeys.frame past given).
Local Abbreviation inv := (WriteKeys.inv past given).
Local Abbreviation keeps := (WriteSteps.keeps past given).

(** ** A chain committed *)

Lemma commit_areas_same chain ws a : let a' := foldl (commit_area chain) a ws in
  Areas.opened a' = Areas.opened a ∧ Areas.personal a' = Areas.personal a ∧ Areas.chains a' = Areas.chains a ∧
  Areas.floors a' = Areas.floors a.
Proof.
  revert a; induction ws as [|w ws IH]; intros a; [done|]. cbn [foldl]. destruct (IH (commit_area chain a w)) as (-> & -> & -> & ->).
  unfold commit_area. by destruct (areaWriteVersion chain w).
Qed.
Lemma commit_areas_write chain ws a at_ v : Areas.areaWrite (foldl (commit_area chain) a ws) !! at_ = Some v →
  (∃ w, at_ = areaSlot (Body.groupId chain) w ∧ areaWriteVersion chain w = Some v) ∨
  (Areas.areaWrite a !! at_ = Some v ∧ ∀ w, w ∈ ws → at_ ≠ areaSlot (Body.groupId chain) w).
Proof.
  revert a; induction ws as [|w ws IH]; intros a; cbn [foldl]; [right; split; [done|by intros ? ?%not_elem_of_nil]|].
  intros [?|[Hw Hn]]%IH; [by left|]. unfold commit_area in Hw. destruct (areaWriteVersion chain w) as [x|] eqn:Hx; cbn in Hw.
  - destruct (decide (at_ = areaSlot (Body.groupId chain) w)) as [->|Hne].
    + rewrite lookup_insert_eq in Hw. injection Hw as ->. left. by exists w.
    + rewrite lookup_insert_ne in Hw by congruence. right. split; [done|]. intros w' [->|?]%elem_of_cons; auto.
  - apply lookup_delete_Some in Hw as [Hne Hw]. right. split; [done|]. intros w' [->|?]%elem_of_cons; auto.
Qed.

Lemma commit_ok a chain a' : commit a chain = Ok a' → ∃ a0, Areas.opened a0 = Areas.opened a ∧ Areas.personal a0 = Areas.personal a ∧
  Areas.areaWrite a0 = Areas.areaWrite a ∧ Areas.chains a0 = <[Body.groupId chain := chain]> (Areas.chains a) ∧
  Areas.floors a0 = (if raises (Areas.floors a !! Body.groupId chain) chain
    then <[Body.groupId chain := chain]> (Areas.floors a) else Areas.floors a) ∧
  a' = foldl (commit_area chain) a0 (elements (dom (Body.areaKeys chain))) ∧ checkCommit a chain = Ok tt.
Proof.
  unfold commit. intros H. apply bind_ok in H as ([] & Hc & [= <-]).
  eexists. split; [|split; [|split; [|split; [|split; [|split; [reflexivity|done]]]]]]; by case_match.
Qed.

Lemma sound_commit s chain a' : inv None s → UUID (Body.groupId chain) = true → chain ∈ past →
  commit (Worker.areas s) chain = Ok a' → sound_areas past s a'.
Proof.
  intros Hi Hg Hp (a0 & Eo & Ep & Ew & Ec & _ & -> & _)%commit_ok. pose proof Hi as [].
  pose proof (commit_areas_same chain (elements (dom (Body.areaKeys chain))) a0) as (Eo' & Ep' & Ec' & _). cbv zeta in *.
  assert (∀ g w, opened_in (foldl (commit_area chain) a0 (elements (dom (Body.areaKeys chain)))) g w ↔ opened_in (Worker.areas s) g w) as Ho
    by (intros; unfold opened_in; by rewrite Eo', Eo).
  split.
  - intros g w. rewrite Ho, Ep', Ep. apply inv_opened.
  - intros w Hw. rewrite Ep', Ep. setoid_rewrite Ho. by apply inv_owner.
  - intros w g Hw. unfold familyOf, openedBy. by rewrite Eo', Eo.
  - intros g c. rewrite Ec', Ec. destruct (decide (g = Body.groupId chain)) as [->|Hne].
    + rewrite lookup_insert_eq. by intros [= <-].
    + rewrite lookup_insert_ne by congruence. apply inv_chains.
  - intros at_ v. rewrite Ec', Ec. intros [(w & -> & Hv)|[Hv Hn]]%commit_areas_write.
    + exists (Body.groupId chain), w, chain. rewrite lookup_insert_eq. auto.
    + rewrite Ew in Hv. destruct (inv_write _ _ Hv) as (g & w & c & -> & HU & Hc & Hw).
      destruct (decide (g = Body.groupId chain)) as [->|Hne].
      * exists (Body.groupId chain), w, chain. rewrite lookup_insert_eq. split; [done|]. split; [done|]. split; [done|]. right.
        apply not_elem_of_dom. intros Hd. apply (Hn w); [by apply elem_of_elements|done].
      * exists g, w, c. rewrite lookup_insert_ne by congruence. auto.
Qed.
Lemma commit_chain_keeps chain : UUID (Body.groupId chain) = true → chain ∈ past → keeps (commit_chain chain).
Proof.
  intros Hg Hp s Hs. unfold commit_chain, mbind, op_bind, ask, update.
  destruct (commit (Worker.areas s) chain) as [a'|e] eqn:Hc; [|done]. by eapply inv_areas, sound_commit.
Qed.

Lemma owe_keeps g : keeps (update (λ s, set_areas s (owe (Worker.areas s) g))).
Proof. intros s Hs. by apply inv_same_families. Qed.
Lemma kept_keeps g : keeps (update (λ s, set_areas s (kept (Worker.areas s) g))).
Proof. intros s Hs. by apply inv_same_families. Qed.

Lemma starts_with_area g g' w : UUID g = true → UUID g' = true → starts_with g (areaSlot g' w) = true → g = g'.
Proof. intros Hg Hg'. by apply starts_with_other; apply UUID_no_slash. Qed.
Lemma starts_with_own_area g w : starts_with g (areaSlot g w) = true.
Proof. apply (starts_with_slot g w). Qed.

Lemma sound_uncommit s g : inv None s → sound_areas past s (uncommit (Worker.areas s) g).
Proof.
  intros Hi. destruct (sound_now past given s Hi). split; try done.
  - intros g' c. cbn. intros [_ H]%lookup_delete_Some. by apply sa_chains.
  - intros at_ v. cbn. intros [Hv Hn]%drop_under_lookup. destruct (sa_write _ _ Hv) as (g' & w & c & -> & HU & Hc & Hw).
    exists g', w, c. rewrite lookup_delete_ne; [auto|]. intros ->. by rewrite starts_with_own_area in Hn.
Qed.
Lemma uncommit_keeps g : keeps (update (λ s, set_areas s (uncommit (Worker.areas s) g))).
Proof. intros s Hs. by eapply inv_areas, sound_uncommit. Qed.

(** ** A family forgotten *)

Lemma opened_forget a g g' w : opened_in (forget_areas a g) g' w ↔ g' ≠ g ∧ opened_in a g' w.
Proof.
  unfold opened_in. cbn. destruct (decide (g' = g)) as [->|Hne].
  - rewrite lookup_delete_eq. cbn. split; [by intros [? ?]|by intros [? _]].
  - rewrite lookup_delete_ne by congruence. naive_solver.
Qed.
Lemma sound_forget s g : inv None s → (∀ w, opened_in (Worker.areas s) g w → hasWorkspace s w = false) →
  sound_areas past s (forget_areas (Worker.areas s) g).
Proof.
  intros Hi Hn. destruct (sound_now past given s Hi). split.
  - intros g' w [_ Ho]%opened_forget. by apply (sa_opened g').
  - intros w Hw. destruct (sa_owner w Hw) as [?|[g' Hg']]; [by left|right]. exists g'. apply opened_forget. split; [|done].
    intros ->. specialize (Hn w Hg'). congruence.
  - intros w g' Hw [Ho Hu]%familyOf_ok. apply opened_forget in Ho as [Hne Ho]. apply familyOf_ok. split; [done|]. intros x Hx.
    apply Hu, opened_forget. split; [|done]. intros ->. specialize (Hn w Hx). congruence.
  - intros g' c. cbn. intros [_ H]%lookup_delete_Some. by apply sa_chains.
  - intros at_ v. cbn. intros [Hv Hn']%drop_under_lookup. destruct (sa_write _ _ Hv) as (g' & w & c & -> & HU & Hc & Hw).
    exists g', w, c. rewrite lookup_delete_ne; [auto|]. intros ->. by rewrite starts_with_own_area in Hn'.
Qed.

Lemma dropWorkspace_state s w : Worker.areas (dropWorkspace w s).1 = Worker.areas s ∧ (dropWorkspace w s).2 = Ok tt ∧
  ∀ w', hasWorkspace (dropWorkspace w s).1 w' = true → hasWorkspace s w' = true ∧ w' ≠ w.
Proof.
  split; [done|]. split; [done|]. intros w'. unfold hasWorkspace. rewrite !bool_decide_eq_true.
  change (is_Some (delete w (Worker.workspaceKeys s) !! w') → is_Some (Worker.workspaceKeys s !! w') ∧ w' ≠ w).
  intros [x [Hne Hx]%lookup_delete_Some]. split; [by exists x|congruence].
Qed.
Lemma drop_each_state ws s : ∃ s', each_op dropWorkspace ws s = (s', Ok tt) ∧ Worker.areas s' = Worker.areas s ∧
  (∀ w, hasWorkspace s' w = true → hasWorkspace s w = true ∧ w ∉ ws) ∧ (inv None s → inv None s').
Proof.
  revert s; induction ws as [|w ws IH]; intros s; [exists s; split; [done|]; split; [done|]; split; [|done]|].
  { intros w Hw. split; [done|]. apply not_elem_of_nil. }
  cbn [each_op]. unfold mbind at 1, op_bind at 1. destruct (dropWorkspace_state s w) as (Ea & Er & Hw).
  pose proof (dropWorkspace_keeps past given w s) as Hk. destruct (dropWorkspace w s) as [s1 r]. cbn in *. subst r.
  destruct (IH s1) as (s' & -> & Ea' & Hw' & Hi). exists s'. split; [done|]. split; [congruence|]. split; [|auto].
  intros x Hx. destruct (Hw' x Hx) as [H1 H2]. destruct (Hw x H1) as [H3 H4]. split; [done|]. by rewrite not_elem_of_cons.
Qed.
Lemma forgetGroup_keeps g : keeps (forgetGroup g).
Proof.
  intros s Hs. unfold forgetGroup, mbind at 1, op_bind at 1, get. set (ws := elements _).
  destruct (drop_each_state ws s) as (s' & E & Ea & Hw & Hi). unfold mbind, op_bind. rewrite E. unfold update. cbn [fst].
  apply (inv_areas past given); [by apply Hi|]. apply sound_forget; [by apply Hi|]. intros w Ho.
  destruct (hasWorkspace s' w) eqn:Hh; [|done]. destruct (Hw w Hh) as [_ Hn]. exfalso. apply Hn. unfold ws.
  rewrite elem_of_elements, elem_of_dom. unfold opened_in in Ho. rewrite Ea in Ho.
  destruct (Areas.opened (Worker.areas s) !! g) as [m|]; [done|by destruct Ho].
Qed.
Lemma forgetAllGroups_keeps : keeps forgetAllGroups.
Proof.
  intros s Hs. unfold forgetAllGroups, mbind at 1, op_bind at 1, get.
  apply (keeps_bind past given (update (λ s, set_areas s (with_guardOwed (Worker.areas s) ∅)))); [|intros _|done].
  - intros s' Hs'. by apply inv_same_families.
  - apply keeps_each. intros g _. apply forgetGroup_keeps.
Qed.

(** ** A lock *)

Lemma clear_keeps : keeps clear.
Proof.
  intros s Hs. pose proof Hs as []. assert (∀ w, hasWorkspace (clear s).1 w = false) as Hh by done. split; try done.
  - split; intros p l; by rewrite holds_clear.
  - intros g w Ho. destruct (inv_opened g w Ho) as (? & ? & _). split; [done|]. split; [done|]. set_solver.
Qed.

(** ** Workspace keys *)

Definition put_workspace (s : Worker.t) (w : string) (ws : Workspace.t) (v : Z) (key : buf) : Worker.t :=
  set_workspaceKeys s (<[w := Workspace.Build_t (Z.max (Workspace.current ws) v) (<[v := key]> (Workspace.keys ws))]>
    (Worker.workspaceKeys s)).
Definition held_workspace (s : Worker.t) (w : string) (v : Z) : Workspace.t := default (Workspace.Build_t v ∅) (Worker.workspaceKeys s !! w).

Lemma holdWorkspaceKey_run w v key s : holdWorkspaceKey w v key s =
  (let s' := match workspaceKey s w v with Some old => set_mem s (zero_in (Worker.mem s) old) | None => s end in
   put_workspace s' w (held_workspace s w v) v key, Ok tt).
Proof.
  unfold holdWorkspaceKey, mbind, op_bind, get, update, zero_option, held_workspace, workspaceKey, mret, op_ret.
  destruct (Worker.workspaceKeys s !! w) as [ws|]; cbn; [|done]. by destruct (Workspace.keys ws !! v).
Qed.
Lemma holds_put_workspace s w v key p : held_at (put_workspace s w (held_workspace s w v) v key) p =
  if decide (p = at_workspace w v) then Some key else held_at s p.
Proof.
  destruct p as [w' v'|k|k|k|k|k|k]; try done. cbn. unfold workspaceKey, put_workspace, held_workspace. cbn.
  destruct (decide (w' = w)) as [->|Hw]; [rewrite lookup_insert_eq|rewrite lookup_insert_ne by congruence; case_decide; [congruence|done]].
  cbn. destruct (decide (v' = v)) as [->|Hv]; [rewrite lookup_insert_eq; by rewrite decide_True|].
  rewrite lookup_insert_ne by congruence. rewrite decide_False by congruence. by destruct (Worker.workspaceKeys s !! w).
Qed.
Lemma hasWorkspace_put s w ws v key w' : hasWorkspace (put_workspace s w ws v key) w' = true ↔ w' = w ∨ hasWorkspace s w' = true.
Proof.
  unfold hasWorkspace. rewrite !bool_decide_eq_true. cbn. destruct (decide (w' = w)) as [->|Hw].
  - rewrite lookup_insert_eq. naive_solver.
  - rewrite lookup_insert_ne by congruence. naive_solver.
Qed.

(** A loose buffer held as a workspace's key, where the family lists it. *)
Lemma put_workspace_inv a keys loose s w v key k : frame None a keys loose s → loose !! key = Some k → UUID w = true →
  (w ∈ Areas.personal a ∨ ∃ g, opened_in a g w) → (∀ g, familyOf a w = Some g → listed_key past g w v k) →
  inv None (put_workspace s w (held_workspace s w v) v key).
Proof.
  intros Hf Hk HU Ho Hl. pose proof (frame_read _ _ _ _ _ _ _ _ _ Hf Hk) as Hb. pose proof Hf as [Hi Ha _ Hsub Hap]. pose proof Hi as [].
  set (s' := put_workspace _ _ _ _ _). assert (∀ w', hasWorkspace s w' = true → hasWorkspace s' w' = true) as Hh
    by (intros w' H; apply hasWorkspace_put; by right).
  assert (∀ at_, own_slot s at_ → own_slot s' at_) as Hos by (intros at_ (w' & n & -> & Hw'); exists w', n; auto).
  assert (∀ p, held_at s' p = if decide (p = at_workspace w v) then Some key else held_at s p) as Hholds by (intros; apply holds_put_workspace).
  assert (∀ p, p ≠ at_workspace w v → key_at s' p = key_at s p) as Hkey by (intros p Hp; unfold key_at; by rewrite Hholds, decide_False).
  split; try done.
  - apply (apart_change s _ (at_workspace w v) key); [done| | |exists k; by eapply lookup_weaken].
    + intros p l. rewrite Hholds. case_decide; [intros [= <-]; by right|by left].
    + intros p Hp. apply Hap in Hp. congruence.
  - intros w' [->|Hw']%hasWorkspace_put; [|by apply inv_owner]. cbn. by rewrite Ha.
  - intros g w' v' k' Hk' Hg. change (Worker.areas s') with (Worker.areas s) in Hg.
    destruct (decide (at_workspace w' v' = at_workspace w v)) as [E|Hne]; [|rewrite Hkey in Hk' by done; eauto].
    injection E as -> ->. unfold key_at in Hk'. rewrite Hholds, decide_True in Hk' by done. cbn in Hk'.
    change (Worker.mem s') with (Worker.mem s) in Hk'. rewrite Hb in Hk'. injection Hk' as <-. apply Hl. congruence.
  - intros at_ v' H. apply Hos. eauto.
  - intros at_ p v' H1 H2. apply Hos. eauto.
Qed.
Lemma h_holdWorkspaceKey a keys loose w v key k (E : Worker.t → Prop) : loose !! key = Some k → UUID w = true →
  (w ∈ Areas.personal a ∨ ∃ g, opened_in a g w) → (∀ g, familyOf a w = Some g → listed_key past g w v k) →
  hoare (frame None a keys loose) (holdWorkspaceKey w v key) (λ _ s, inv None s ∧ Worker.areas s = a) E.
Proof.
  intros Hk HU Ho Hl s Hs. rewrite holdWorkspaceKey_run. cbv zeta. pose proof (put_workspace_inv _ _ _ _ _ v _ _ Hs Hk HU Ho Hl) as Hi.
  pose proof Hs as [Hi0 Ha _ _ Hap]. destruct (workspaceKey s w v) as [old|] eqn:Hold; [|done]. split; [|done].
  apply (inv_mem _ _ _ (put_workspace s w (held_workspace s w v) v key)); [done|]. intros p l Hp. apply zero_in_other. intros ->.
  assert (held_at s (at_workspace w v) = Some old) as Hh by done. rewrite holds_put_workspace in Hp. destruct (decide (p = at_workspace w v)) as [Hpw|Hpw].
  - injection Hp as ->. apply Hap in Hh. congruence.
  - by apply Hpw, (ap_one _ (inv_apart _ _ _ _ Hi0) _ _ old).
Qed.

Lemma opened_record a g w v g' w' : opened_in (record_opened a g w v) g' w' ↔ (g' = g ∧ w' = w) ∨ opened_in a g' w'.
Proof.
  unfold opened_in, record_opened. cbn. destruct (decide (g' = g)) as [->|Hg].
  - rewrite lookup_insert_eq. cbn. destruct (decide (w' = w)) as [->|Hw]; [rewrite lookup_insert_eq; naive_solver|].
    rewrite lookup_insert_ne by congruence. destruct (Areas.opened a !! g); cbn; [naive_solver|]. rewrite lookup_empty. split; [by intros []|].
    intros [[_ ?]|[]]; done.
  - rewrite lookup_insert_ne by congruence. naive_solver.
Qed.
Lemma sound_opened s g w v : inv None s → UUID g = true → UUID w = true → w ∉ Areas.personal (Worker.areas s) →
  sound_areas past s (record_opened (Worker.areas s) g w v).
Proof.
  intros Hi HUg HUw Hp. destruct (sound_now past given s Hi). split; try done.
  - intros g' w' [[-> ->]|H]%opened_record; [done|]. by apply (sa_opened g').
  - intros w' Hw. destruct (sa_owner w' Hw) as [?|[g' Hg']]; [by left|right]. exists g'. apply opened_record. by right.
  - intros w' g' Hw [Ho Hu]%familyOf_ok. apply familyOf_ok.
    assert (∀ x, opened_in (Worker.areas s) x w' → x = g') as Hx by (intros x Hx; apply Hu, opened_record; by right).
    split; [|done]. apply opened_record in Ho as [[-> ->]|Ho]; [|done].
    destruct (sa_owner w Hw) as [?|[x Hx']]; [done|]. by rewrite <- (Hx x Hx').
Qed.

(** What [openArea] checks before it holds the key. *)
Lemma check_area_ok a g w seed v k served r : check_area_key a g w seed v k served = Ok r →
  ∃ c commitment, UUID g = true ∧ UUID w = true ∧ w ∉ Areas.personal a ∧ Areas.chains a !! g = Some c ∧ 1 ≤ v ∧
  areaKeyCommitment k = Ok commitment ∧ default [] (Body.areaKeys c !! w) !! Z.to_nat (v - 1) = Some commitment ∧
  areaWriteVersion c w = Some r.1 ∧ is_ok (checkId workspace_id g seed w) = true.
Proof.
  unfold check_area_key. intros H. apply bind_ok in H as (g' & Hg & H). destruct (Areas.chains a !! g) as [c|] eqn:Hc; [|done].
  apply bind_ok in H as (w' & Hw & H). not_refused H Ep. apply bind_ok in H as (x & Hid & H).
  destruct (areaWriteVersion c w) as [latest|] eqn:Hl; [|done]. not_refused H Ev. apply bind_ok in H as (commitment & Hk & H).
  not_refused H Ek. injection H as <-. exists c, commitment. apply uuid_ok in Hg as [[= <-] ?], Hw as [[= <-] ?]. bool_simpl.
  repeat split; try done; try lia. unfold recast in Hid. by destruct (checkId _ _ _ _).
Qed.

(** The key a grant opened, from the buffer the caller has it in. *)
Definition open_area_key (g w seed : string) (v : Z) (key : bytes) (served : Z) : op (option AreaBlock) :=
  b ← new_buffer key; openArea id g w seed v b served.
Lemma openArea_keeps g w seed v key served : keeps (open_area_key g w seed v key served).
Proof.
  intros s Hs. unfold open_area_key, mbind at 1, op_bind at 1, new_buffer. cbv zeta.
  pose proof (frame_new _ _ _ _ _ _ key _ (inv_frame past given s Hs)) as Hf. cbv zeta in Hf. set (b := fresh _) in *.
  set (s1 := set_mem s _) in *. unfold openArea, mbind at 1, op_bind at 1, read, get.
  rewrite (frame_read _ _ _ _ _ _ _ b key Hf (lookup_insert_eq _ _ _)). unfold mbind at 1, op_bind at 1, ask.
  destruct (check_area_key (Worker.areas s1) g w seed v key served) as [[latest reason]|e] eqn:Hc; [|by destruct Hf].
  destruct (check_area_ok _ _ _ _ _ _ _ _ Hc) as (c & commitment & HUg & HUw & Hp & Hch & Hv & Hk & Hl & _).
  unfold mbind at 1, op_bind at 1, update. cbn [id]. unfold mbind at 1, op_bind at 1.
  pose proof Hf as [Hi Ha _ Hsub Hap]. set (a' := record_opened (Worker.areas s1) g w v).
  assert (frame None a' (Worker.workspaceKeys s) {[b := key]} (set_areas s1 a')) as Hf'.
  { split; try done. eapply inv_areas; [done|]. by apply sound_opened. }
  assert (opened_in a' g w) as Ho by (apply opened_record; by left).
  assert (∀ g', familyOf a' w = Some g' → listed_key past g' w v key) as Hlist.
  { intros g' [_ Hu]%familyOf_ok. rewrite <- (Hu g Ho). destruct (inv_chains _ _ _ _ Hi _ _ Hch) as [? ?]. by exists c, commitment. }
  pose proof (h_holdWorkspaceKey a' _ {[b := key]} w v b key (inv None) (lookup_singleton_eq _ _) HUw ltac:(right; by exists g) Hlist
    (set_areas s1 a') Hf') as H.
  unfold mbind at 1, op_bind at 1. destruct (holdWorkspaceKey w v b (set_areas s1 a')) as [s2 [[]|e]]; [|done].
  destruct H as [H _]. by apply inv_same_families.
Qed.

Lemma openPersonalWorkspace_keeps w v key : UUID w = true → keeps (b ← new_buffer key; openPersonalWorkspace w v b).
Proof.
  intros HU s Hs. unfold mbind at 1, op_bind at 1, new_buffer. cbv zeta.
  pose proof (frame_new _ _ _ _ _ _ key _ (inv_frame past given s Hs)) as Hf. cbv zeta in Hf. set (b := fresh _) in *.
  set (s1 := set_mem s _) in *. unfold openPersonalWorkspace, mbind at 1, op_bind at 1, ask.
  destruct (refuse FAMILY_FOLDER when openedByFamily (Worker.areas s1) w ;; Ok tt) as [[]|e] eqn:Hr; [|by destruct Hf].
  not_refused Hr E. unfold mbind at 1, op_bind at 1, update. pose proof Hf as [Hi Ha _ Hsub Hap].
  set (a' := with_personal (Worker.areas s1) _). assert (∀ g, ¬ opened_in (Worker.areas s1) g w) as Hn.
  { intros g Ho%openedBy_elem. unfold openedByFamily in E. destruct (openedBy _ w); [by apply not_elem_of_nil in Ho|]. apply Z.ltb_ge in E. unfold llen in E. cbn [length] in E. lia. }
  assert (∀ g w', opened_in a' g w' ↔ opened_in (Worker.areas s1) g w') as Hi' by done.
  assert (frame None a' (Worker.workspaceKeys s) {[b := key]} (set_areas s1 a')) as Hf'.
  { split; try done. eapply inv_areas; [done|].
    destruct (sound_now past given s1 Hi). split; try done.
    - intros g w' Ho. destruct (sa_opened g w' Ho) as (? & ? & ?). split; [done|]. split; [done|]. cbn. rewrite elem_of_union, elem_of_singleton.
      intros [->|?]; [|done]. by apply (Hn g).
    - intros w' Hw. destruct (sa_owner w' Hw) as [?|?]; [left|by right]. cbn. set_solver. }
  assert (∀ g, familyOf a' w = Some g → listed_key past g w v key) as Hl by (intros g Hg%family_opened; by apply Hn in Hg).
  pose proof (h_holdWorkspaceKey a' _ {[b := key]} w v b key (inv None) (lookup_singleton_eq _ _) HU ltac:(left; cbn; set_solver) Hl
    (set_areas s1 a') Hf') as H.
  destruct (holdWorkspaceKey w v b (set_areas s1 a')) as [s2 [[]|e]]; [by destruct H|done].
Qed.

(** ** Keys from a share, a link or a report, and a failed batch *)

(** [refuseOwnWorkspace], the key opened, [rememberNodeKey] without a root. *)
Definition take_shared (w n : string) (key : bytes) (epoch : Z) (previous : option (bytes * Z)) : op unit :=
  _ ← ask (λ s, refuseOwnWorkspace s w);
  b ← new_buffer key;
  _ ← rememberNodeKey w n b epoch None;
  match previous with
  | None => mret tt
  | Some (key, epoch) => b ← new_buffer key; rememberPrevNodeKey w n b epoch false
  end.
Lemma take_shared_keeps w n key epoch previous : keeps (take_shared w n key epoch previous).
Proof.
  apply keeps_hoare. intros a keys. unfold take_shared. apply h_ask; [by intros s []|]. intros [] _.
  apply h_new. intros b Hb. apply h_bind with (R := λ _, frame None a keys ∅).
  - apply (h_remember past given None None a keys _ w n b key); [apply lookup_insert_eq|by left|done|].
    intros s. by rewrite delete_insert_id.
  - intros []. destruct previous as [[key' epoch']|]; [|by apply h_ret; intros s []]. apply h_new. intros b' Hb'.
    apply (h_rememberPrev past given None a keys _ w n b' key'); [apply lookup_insert_eq|]. by intros s [].
Qed.

(** A node made by a batch that failed, let go. *)
Definition drop_created (w n : string) : op unit :=
  before ← get (λ s, held_key (nodeKeysOf s w !! slot w n)); _ ← forgetNodeKey w n; zero_option before.
Lemma drop_created_keeps w n : keeps (drop_created w n).
Proof.
  intros s Hs. assert ((drop_created w n s).1 = cleared s (pool_for s w) (slot w n)) as ->.
  { unfold drop_created, forgetNodeKey, cleared, take_pool, mbind, op_bind, get, update, zero_option. unfold set_nodeKeysOf, nodeKeysOf, pool_for, hasWorkspace.
    destruct (bool_decide (is_Some (Worker.workspaceKeys s !! w))) eqn:Eh; cbn; by destruct (_ !! slot w n). }
  apply (frame_inv past given None _ _ _ _ (frame_cleared past given _ _ _ _ _ _ _ (inv_frame past given s Hs))).
Qed.
End areas_steps.
