(* ===== verification/WriteSafety.v ===== *)
(** * What the worker writes into a family folder, at any time

    A session of the crypto worker is a list of events, one operation of
    [DriveKeys] each, and the states it comes to are what they make of a
    locked worker that holds nothing. The invariant of [WriteKeys] holds of
    all of them, and the theorems are what that says of a write, of a lock and
    of the floors a family's chain never goes back behind. *)

From S2P Require Import Prelude Base64url Bytes Canonical Crypto Envelopes Roster Ledger Chain Acceptance Areas DriveKeys WriteKeys WriteSteps WriteDrops WriteAreas.

(** What a session asks of the keys, one at a time ([session.ts], [handle]). *)
Inductive event :=
  | Commit (chain : Body.t) | Uncommit (groupId : string) | Owe (groupId : string) | Kept (groupId : string)
  | OpenArea (groupId workspaceId idSeed : string) (version : Z) (key : bytes) (served : Z)
  | OpenPersonal (workspaceId : string) (version : Z) (key : bytes)
  | OpenListed (workspaceId : string) (node : ServedNodeKey.t)
  | Create (workspaceId : string) (node : NewNode.t) (key nonce : bytes)
  | DropCreated (workspaceId nodeId : string)
  | Rotate (workspaceId : string) (node : RotatingNodeKey.t) (targetEpoch : Z) (rekey : bytes → bytes → bytes → result unit)
      (key nonce : bytes)
  | CommitBatch (workspaceId : string) (nodeIds : list string) | DropBatch (workspaceId : string) (nodeIds : list string)
  | DropBatches (workspaceId : string) | DropWorkspace (workspaceId : string)
  | TakeShared (workspaceId nodeId : string) (key : bytes) (epoch : Z) (previous : option (bytes * Z))
  | Forget (groupId : string) | ForgetAll | Lock.

Section session.
Context `{C : Crypto}.

Definition on_areas (f : Areas.t → Areas.t) (s : Worker.t) : Worker.t := set_areas s (f (Worker.areas s)).
(** The worker after an event, whether it was answered or refused. *)
Definition handled (s : Worker.t) (e : event) : Worker.t :=
  match e with
  | Commit chain => (commit_chain chain s).1
  | Uncommit g => on_areas (λ a, uncommit a g) s
  | Owe g => on_areas (λ a, owe a g) s
  | Kept g => on_areas (λ a, kept a g) s
  | OpenArea g w seed version key served => (open_area_key g w seed version key served s).1
  | OpenPersonal w version key => ((b ← new_buffer key; openPersonalWorkspace w version b) s).1
  | OpenListed w node => (openListedNode (λ _, id) w node s).1
  | Create w node key nonce => (newNodeKey id w node key nonce s).1
  | DropCreated w n => (drop_created w n s).1
  | Rotate w node target rekey key nonce =>
      (rotateKey (λ _, id) w node target (λ o k p, ask (λ _, rekey o k p)) key nonce s).1
  | CommitBatch w ns => (commitPending w ns s).1
  | DropBatch w ns => (dropPending w ns s).1
  | DropBatches w => (dropAllPending w s).1
  | DropWorkspace w => (dropWorkspace w s).1
  | TakeShared w n key epoch previous => (take_shared w n key epoch previous s).1
  | Forget g => (forgetGroup g s).1
  | ForgetAll => (forgetAllGroups s).1
  | Lock => (clear s).1
  end.
Definition NO_KEYS : Worker.t := Worker.Build_t NO_AREAS ∅ ∅ ∅ ∅ ∅ ∅ ∅ ∅ ∅.
Definition session (events : list event) : Worker.t := foldl handled NO_KEYS events.

(** Accepted chains and the session's messages name UUIDs. *)
Definition names_uuids (e : event) : bool :=
  match e with
  | Commit chain => UUID (Body.groupId chain)
  | OpenPersonal w _ _ | Rotate w _ _ _ _ _ | CommitBatch w _ => UUID w
  | _ => true
  end.
(** The chains committed, the envelopes listings and walks came with, and the
    keys drawn on this device. *)
Definition chain_of (e : event) : list Body.t := match e with Commit chain => [chain] | _ => [] end.
Definition brought_by (e : event) : list brought :=
  match e with
  | OpenListed w node => [was_served (listed_ctx w node) (ServedNodeKey.keyEnvelope node)]
  | Create w node key _ => [was_drawn (new_ctx w node) key]
  | Rotate w node target _ key _ =>
      [was_served (rotating_ctx w node (RotatingNodeKey.wrappedParentKeyEpoch node)) (RotatingNodeKey.keyEnvelope node);
       was_drawn (fresh_ctx w node target) key]
  | _ => []
  end.
Definition chains_of (events : list event) : list Body.t := events ≫= chain_of.
Definition brought_in (events : list event) : list brought := events ≫= brought_by.

Lemma handled_keeps past given s e : chain_of e ⊆ past → brought_by e ⊆ given → names_uuids e = true →
  inv past given None s → inv past given None (handled s e).
Proof.
  intros Hp Hd Hn Hs. destruct e; cbn [handled names_uuids chain_of brought_by] in *.
  - apply commit_chain_keeps; [done|set_solver|done].
  - by apply (uncommit_keeps past given).
  - by apply (owe_keeps past given).
  - by apply (kept_keeps past given).
  - by apply openArea_keeps.
  - by apply openPersonalWorkspace_keeps.
  - apply openListedNode_keeps; [apply Hd; by left|done].
  - apply newNodeKey_keeps; [apply Hd; by left|done].
  - by apply drop_created_keeps.
  - apply rotateKey_keeps; [done|apply Hd; by left|apply Hd; by right; left|done].
  - by apply commitPending_keeps.
  - by apply dropPending_keeps.
  - by apply dropAllPending_keeps.
  - by apply dropWorkspace_keeps.
  - by apply take_shared_keeps.
  - by apply forgetGroup_keeps.
  - by apply forgetAllGroups_keeps.
  - by apply clear_keeps.
Qed.

Lemma inv_start : inv [] [] None NO_KEYS.
Proof.
  split; try done.
  - split; [intros p l|intros p q l]; by destruct p.
  - by intros g w [v H].
Qed.
Lemma session_inv events : forallb names_uuids events = true → inv (chains_of events) (brought_in events) None (session events).
Proof.
  induction events as [|e events IH] using rev_ind; [intros _; apply inv_start|].
  rewrite forallb_app. intros [Hes He]%andb_true_iff. cbn in He. rewrite andb_true_r in He.
  unfold session, chains_of, brought_in. rewrite foldl_app, !bind_app. cbn [foldl mbind list_bind]. rewrite !app_nil_r.
  apply handled_keeps; [set_solver|set_solver|done|]. apply (inv_mono (chains_of events) _ (brought_in events)); [set_solver|set_solver|by apply IH].
Qed.

(** ** Writes *)

Section writes.
Variables (past : list Body.t) (given : list brought) (s : Worker.t) (w : string).
Hypothesis Hinv : inv past given None s.

(** The one family that opened the area, its committed chain, and the version written under. *)
Record written_under (g : string) (v : Z) (c : Body.t) : Prop := {
  wu_family : familyOf (Worker.areas s) w = Some g;
  wu_chain : Areas.chains (Worker.areas s) !! g = Some c;
  wu_past : c ∈ past ∧ Body.groupId c = g;
  wu_version : areaWriteVersion c w = Some v ∨ Body.areaKeys c !! w = None;
}.
Lemma writeVersion_ok v : writeVersion (Worker.areas s) w = Ok (Some v) → ∃ g c, written_under g v c.
Proof.
  unfold writeVersion, readAt. intros H. apply bind_ok in H as (at_ & Ha & H). destruct (negb _); [by injection Ha as <-|].
  destruct (familyOf (Worker.areas s) w) as [g|] eqn:Hg; [|done].
  destruct (Areas.areaWrite (Worker.areas s) !! areaSlot g w) as [v'|] eqn:Hw; [|done]. injection Ha as <-.
  not_refused H E1. not_refused H E2. not_refused H E3. injection H as ->.
  destruct (inv_write _ _ _ _ Hinv _ _ Hw) as (g' & w' & c & E & HU & Hc & Hv).
  destruct (inv_opened _ _ _ _ Hinv _ _ (family_opened _ _ _ Hg)) as (HUg & _ & _).
  apply slot_inj in E as [<- <-]; [|by apply UUID_no_slash..].
  destruct (inv_chains _ _ _ _ Hinv _ _ Hc) as [? ?]. by exists g, c.
Qed.
Lemma rootedNow_ok r : rootedNow s w r = Ok true → ∃ v, r = Some v ∧ writeVersion (Worker.areas s) w = Ok (Some v).
Proof.
  unfold rootedNow. destruct r as [v|]; [|done]. intros H. apply bind_ok in H as (v' & Hv & [= E]). bool_simpl. subst v'. by exists v.
Qed.

Lemma family_UUID g : familyOf (Worker.areas s) w = Some g → UUID w = true.
Proof. intros Hg. by apply (inv_opened _ _ _ _ Hinv _ _ (family_opened _ _ _ Hg)). Qed.

(** A held key whose lineage is the write version. *)
Lemma held_rooted n e v g : nodeKey s w n = Some e → lineage_of s w n = Some v → familyOf (Worker.areas s) w = Some g →
  rooted past given g w n v (NodeKey.epoch e) (bytes_at (Worker.mem s) (NodeKey.key e)).
Proof.
  intros He Hl%lineage_of_ok Hg. pose proof (family_UUID g Hg) as HU.
  assert (hasWorkspace s w = true) as Hh by (eapply own_slot_workspace; [done..|]; by eapply inv_lineage).
  apply (inv_rooted _ _ _ _ Hinv w n g v); [done| |done|done]. by eapply nodeKey_own_entry.
Qed.
Lemma rooted_write n e : nodeKey s w n = Some e → rootedAtWriteVersion s w n = Ok true →
  ∃ g v c, written_under g v c ∧ rooted past given g w n v (NodeKey.epoch e) (bytes_at (Worker.mem s) (NodeKey.key e)).
Proof.
  intros He Hr. destruct (rootedNow_ok _ Hr) as (v & Hl & Hv). destruct (writeVersion_ok v Hv) as (g & c & Hu).
  exists g, v, c. split; [done|]. apply held_rooted; [done|done|apply Hu].
Qed.

Lemma wrapKeyFor_rooted p e b : isArea (Worker.areas s) w = true → wrapKeyFor s w p e = Ok b →
  requireGuardKept (Worker.areas s) w = Ok tt ∧ ∃ g v c, written_under g v c ∧ rooted past given g w p v e (bytes_at (Worker.mem s) b).
Proof.
  intros Ha H. unfold wrapKeyFor in H. apply bind_ok in H as ([] & Hk & H). split; [done|].
  destruct (decide (p = w)) as [->|Hp]; [rewrite bool_decide_eq_true_2, Ha in H by done; done|].
  rewrite bool_decide_eq_false_2, Ha in H by done. cbn [negb] in H.
  assert (∀ current, wrap_under s w p e current = Ok b → ∃ g v c, written_under g v c ∧ rooted past given g w p v e (bytes_at (Worker.mem s) b)) as Hunder.
  { intros current Hu. unfold wrap_under in Hu. destruct (nodeKey s w p) as [parent|] eqn:He; [|done].
    apply bind_ok in Hu as (r & Hr & Hu). not_refused Hu E1. not_refused Hu E2. injection Hu as <-. subst r.
    bool_simpl. subst e. by apply rooted_write. }
  destruct (Worker.pendingNodeKeys s !! slot w p) as [q|] eqn:Hq; [|by apply (Hunder true)].
  destruct (PendingKey.epoch q =? e) eqn:Eq; [apply Z.eqb_eq in Eq as <-|by eapply Hunder]. apply bind_ok in H as (r & Hr & H). not_refused H E1. injection H as <-. subst r.
  destruct (rootedNow_ok _ Hr) as (v & Hv & Hw). destruct (writeVersion_ok v Hw) as (g & c & Hu). exists g, v, c. split; [done|].
  apply (inv_fresh _ _ _ _ Hinv w p q g v Hq Hv). apply Hu.
Qed.
Lemma writableNodeKey_rooted n e : isArea (Worker.areas s) w = true → writableNodeKey s w n = Ok (Some e) →
  requireGuardKept (Worker.areas s) w = Ok tt ∧
  ∃ g v c, written_under g v c ∧ rooted past given g w n v (NodeKey.epoch e) (bytes_at (Worker.mem s) (NodeKey.key e)).
Proof.
  intros Ha H. unfold writableNodeKey in H. not_refused H E1. apply bind_ok in H as ([] & Hk & H). split; [done|].
  destruct (nodeKey s w n) as [e'|] eqn:He; [|done]. rewrite Ha in H. apply bind_ok in H as (r & Hr & H). not_refused H E2.
  injection H as ->. subst r. by apply rooted_write.
Qed.

(** A guard owed by the family stops every write. *)
Lemma guard_kept g : requireGuardKept (Worker.areas s) w = Ok tt → familyOf (Worker.areas s) w = Some g → g ∉ Areas.guardOwed (Worker.areas s).
Proof.
  unfold requireGuardKept. intros H Hg%family_opened%openedBy_elem Ho. not_refused H E. apply not_true_iff_false in E. apply E, existsb_exists.
  exists g. rewrite bool_decide_eq_true. split; [by apply list_elem_of_In|done].
Qed.
End writes.
End session.

(** Any key a write goes under, with what it is rooted at. *)
Lemma written_rooted `{C : Crypto} events w n e b : let s := session events in
  forallb names_uuids events = true → isArea (Worker.areas s) w = true →
  wrapKeyFor s w n e = Ok b ∨
  (∃ entry, writableNodeKey s w n = Ok (Some entry) ∧ NodeKey.key entry = b ∧ NodeKey.epoch entry = e) →
  ∃ g v c, (∀ g', opened_in (Worker.areas s) g' w ↔ g' = g) ∧ g ∉ Areas.guardOwed (Worker.areas s) ∧
    Areas.chains (Worker.areas s) !! g = Some c ∧ (areaWriteVersion c w = Some v ∨ Body.areaKeys c !! w = None) ∧
    rooted (chains_of events) (brought_in events) g w n v e (bytes_at (Worker.mem s) b).
Proof.
  intros s Hu Ha Hb. pose proof (session_inv events Hu) as Hi. fold s in Hi.
  assert (requireGuardKept (Worker.areas s) w = Ok tt ∧ ∃ g v c, written_under (chains_of events) s w g v c ∧
    rooted (chains_of events) (brought_in events) g w n v e (bytes_at (Worker.mem s) b)) as (Hk & g & v & c & [Hf Hc _ Hv] & Hr).
  { destruct Hb as [Hb|(entry & He & <- & <-)]; [by eapply wrapKeyFor_rooted|by eapply writableNodeKey_rooted]. }
  exists g, v, c. split; [|split; [by eapply guard_kept|done]]. apply familyOf_ok in Hf as [Ho Hn].
  intros g'. split; [apply Hn|by intros ->].
Qed.

(** C25. Whatever events a session handled before, a key that new or moved
    things of a family folder are wrapped under, asked for at the epoch [e], is
    that node's key at that epoch, reached by an unbroken path: the root of the
    folder, opened from an envelope this session was served under an area key
    that a member list of the family committed here lists at the very version
    written under, and the root key such a list commits to where it commits one
    (a version first listed in the older roster format has none); then, node by
    node, the envelope served for that node under that parent at those epochs,
    or the key this device drew for it there. One family opened the folder, and
    it owes no guard; [v] is the write version its committed list gives the
    area, unless that list has nothing of it. *)
Theorem write_keys_rooted `{C : Crypto} events w n e b : let s := session events in
  forallb names_uuids events = true → isArea (Worker.areas s) w = true →
  wrapKeyFor s w n e = Ok b ∨
  (∃ entry, writableNodeKey s w n = Ok (Some entry) ∧ NodeKey.key entry = b ∧ NodeKey.epoch entry = e) →
  ∃ g v c, (∀ g', opened_in (Worker.areas s) g' w ↔ g' = g) ∧ g ∉ Areas.guardOwed (Worker.areas s) ∧
    Areas.chains (Worker.areas s) !! g = Some c ∧ (areaWriteVersion c w = Some v ∨ Body.areaKeys c !! w = None) ∧
    rooted (chains_of events) (brought_in events) g w n v e (bytes_at (Worker.mem s) b).
Proof. intros s. apply (written_rooted events w n e b). Qed.

(** ** Keys let go *)

(** C26. No two places of the worker share a key's buffer, so a lock zeroes
    every key it held and holds none, and dropping one workspace zeroes every
    key under it and leaves every other key held as it was. *)
Theorem keys_zeroed `{C : Crypto} events p b : let s := session events in
  forallb names_uuids events = true → held_at s p = Some b →
  (∀ q, held_at s q = Some b → q = p) ∧
  (let s' := (clear s).1 in (∀ q, held_at s' q = None) ∧ Worker.mem s' !! b = Some (zeros (bytes_at (Worker.mem s) b))) ∧
  ∀ w, let s' := (dropWorkspace w s).1 in
    if decide (under w p) then held_at s' p = None ∧ Worker.mem s' !! b = Some (zeros (bytes_at (Worker.mem s) b))
    else held_at s' p = Some b ∧ Worker.mem s' !! b = Worker.mem s !! b.
Proof.
  intros s Hu Hp. destruct (inv_apart _ _ _ _ (session_inv events Hu)) as [Hlive Hone]. fold s in Hlive, Hone.
  destruct (Hlive p b Hp) as [k Hk]. assert (zeros (bytes_at (Worker.mem s) b) = zeros k) as -> by (unfold bytes_at; by rewrite Hk).
  split; [intros q Hq; by eapply Hone|]. split.
  - split; [intros q; apply holds_clear|]. apply (zero_all_in _ (every_key s)); [done|]. apply every_key_elem. by exists p.
  - intros w. cbv zeta. rewrite holds_under. rewrite (dr_mem _ _ _ (dropWorkspace_dropped s w)). destruct (decide (under w p)) as [H|H].
    + split; [done|]. apply zero_all_in; [done|]. apply workspace_buffers_elem. by exists p.
    + split; [done|]. apply zero_all_other. intros (q & Hq & Hb)%workspace_buffers_elem. apply H. by rewrite (Hone p q b Hp Hb).
Qed.

(** ** Floors *)

Section floors.
Context `{C : Crypto}.

(** Where a family's chain stands. *)
Definition rank (b : Body.t) : Z * Z := (Roster.rosterVersion (Body.roster b), Body.groupKeyVersion b).
Definition at_or_past (b b' : Body.t) : Prop := (rank b).1 ≤ (rank b').1 ∧ (rank b).2 ≤ (rank b').2.

Definition same_chains (s s' : Worker.t) : Prop :=
  Areas.chains (Worker.areas s') = Areas.chains (Worker.areas s) ∧ Areas.floors (Worker.areas s') = Areas.floors (Worker.areas s).
#[local] Instance same_chains_preorder : PreOrder same_chains.
Proof. split; [done|]. intros s1 s2 s3 [] []. split; congruence. Qed.
(** A task that commits and forgets no chain. *)
Definition stays {A} (m : op A) : Prop := ∀ s, same_chains s (m s).1.

Lemma stays_ret {A} (x : A) : stays (mret x).
Proof. done. Qed.
Lemma stays_throw {A} e : stays (throw e : op A).
Proof. done. Qed.
Lemma stays_ask {A} (f : Worker.t → result A) : stays (ask f).
Proof. done. Qed.
Lemma stays_get {A} (f : Worker.t → A) : stays (get f).
Proof. done. Qed.
Lemma stays_update f : (∀ s, same_chains s (f s)) → stays (update f).
Proof. done. Qed.
Lemma stays_new v : stays (new_buffer v).
Proof. done. Qed.
Lemma stays_bind {A B} (m : op A) (f : A → op B) : stays m → (∀ x, stays (f x)) → stays (m ≫= f).
Proof.
  intros Hm Hf s. specialize (Hm s). unfold mbind, op_bind. destruct (m s) as [s' [x|e]]; [|done].
  etrans; [exact Hm|apply Hf].
Qed.
Lemma stays_on_error {A} (m : op A) cleanup : stays m → stays cleanup → stays (on_error m cleanup).
Proof.
  intros Hm Hc s. specialize (Hm s). unfold on_error. destruct (m s) as [s' [x|e]]; [done|]. etrans; [exact Hm|apply Hc].
Qed.
Lemma stays_attempt {A} (m : op A) : stays m → stays (attempt m).
Proof. intros Hm s. specialize (Hm s). unfold attempt. by destruct (m s) as [s' [x|e]]. Qed.
Lemma stays_each {A} (f : A → op unit) l : (∀ x, stays (f x)) → stays (each_op f l).
Proof. intros Hf. induction l as [|x l IH]; [done|]. cbn [each_op]. by apply stays_bind. Qed.
Lemma stays_sum {A} (f : A → op Z) l : (∀ x, stays (f x)) → stays (sum_op f l).
Proof. intros Hf. induction l as [|x l IH]; [done|]. cbn [sum_op]. apply stays_bind; [done|]. intros n. by apply stays_bind. Qed.

Create HintDb stays.
Hint Resolve stays_ret stays_throw stays_ask stays_get stays_new stays_attempt stays_each stays_sum : stays.
Ltac stay :=
  repeat first
    [ progress intros
    | solve [auto with stays]
    | apply stays_bind | apply stays_on_error | apply stays_attempt
    | apply stays_update; intros; cbn; by repeat case_match
    | case_match ].


Lemma stays_zero b : stays (zero b).
Proof. done. Qed.
Lemma stays_zero_option b : stays (zero_option b).
Proof. unfold zero_option. stay. Qed.
Lemma stays_dropWorkspace w : stays (dropWorkspace w).
Proof. done. Qed.
Hint Resolve stays_zero stays_zero_option stays_dropWorkspace : stays.

Lemma set_pool_chains s π m : same_chains s (set_pool s π m).
Proof. by destruct π. Qed.
Lemma stays_remember w n key epoch r : stays (rememberNodeKey w n key epoch r).
Proof.
  unfold rememberNodeKey. cbv zeta. stay; apply stays_update; intros s; rewrite ?set_nodeKeysOf_pool; [apply set_pool_chains|done..].
Qed.
Lemma stays_rememberPrev w n key epoch own : stays (rememberPrevNodeKey w n key epoch own).
Proof. unfold rememberPrevNodeKey. cbv zeta. stay. apply stays_update. intros s. rewrite set_prevNodeKeysOf_pool. apply set_pool_chains. Qed.
Lemma stays_forgetNodeKey w n : stays (forgetNodeKey w n).
Proof. apply stays_update. intros s. rewrite set_nodeKeysOf_pool. apply set_pool_chains. Qed.
Lemma stays_copy b : stays (copy b).
Proof. unfold copy, read. stay. Qed.
Lemma stays_open envelope parent ctx : stays (open_envelope id envelope parent ctx).
Proof. unfold open_envelope, read. stay. Qed.
Hint Resolve stays_remember stays_rememberPrev stays_forgetNodeKey stays_copy stays_open : stays.
Lemma stays_copy_option b : stays (copy_option b).
Proof. unfold copy_option. stay. Qed.
Lemma root_answered_chains a g w n v checked : let a' := (root_answered a g w n v checked).1 in
  Areas.chains a' = Areas.chains a ∧ Areas.floors a' = Areas.floors a.
Proof. unfold root_answered. destruct checked; cbv zeta; repeat case_match; done. Qed.
Lemma stays_rootSeen w n v key : stays (rootSeen id w n v key).
Proof.
  intros s. unfold rootSeen, mbind, op_bind, get, read, update, mret, op_ret. destruct (root_asked (Worker.areas s) w) as [[g c]|]; [|done].
  cbv zeta. apply root_answered_chains.
Qed.
Hint Resolve stays_copy_option stays_rootSeen : stays.
Lemma stays_listed w node : stays (openListedNode (λ _, id) w node).
Proof.
  unfold openListedNode, open_and_hold, hold_previous, drop_root, open_previous, requireCommitted, when_op, read. cbv zeta. stay.
Qed.
Lemma stays_new_node w node key nonce : stays (newNodeKey id w node key nonce).
Proof. unfold newNodeKey, read. stay. Qed.
Lemma stays_rotate {T} w node target (r : bytes → bytes → bytes → result T) key nonce :
  stays (rotateKey (λ _, id) w node target (λ o k p, ask (λ _, r o k p)) key nonce).
Proof. unfold rotateKey, rotationOldKey, currentKeyOf, rewrapAtTarget, setPending, zero_pending, read. cbv zeta. stay. Qed.
Lemma stays_pending_one w n : stays (commit_one w n) ∧ stays (drop_one w n).
Proof. unfold commit_one, drop_one, zero_pending. cbv zeta. split; stay. Qed.
Lemma stays_hold w v key : stays (holdWorkspaceKey w v key).
Proof. unfold holdWorkspaceKey. stay. Qed.
Hint Resolve stays_hold : stays.
Lemma stays_openArea g w seed v key served : stays (open_area_key g w seed v key served).
Proof. unfold open_area_key, openArea, read. stay. Qed.
Lemma stays_personal w v key : stays (b ← new_buffer key; openPersonalWorkspace w v b).
Proof. unfold openPersonalWorkspace. stay. Qed.
Lemma stays_shared w n key epoch previous : stays (take_shared w n key epoch previous).
Proof. unfold take_shared. stay. Qed.
Lemma stays_drop_created w n : stays (drop_created w n).
Proof. unfold drop_created. stay. Qed.

(** The events that commit or forget chains, and what the others leave. *)
Definition forgets (e : event) (g : string) : Prop := match e with Forget g' => g' = g | ForgetAll => True | _ => False end.
Definition moves_chains (e : event) : bool := match e with Commit _ | Uncommit _ | Forget _ | ForgetAll => true | _ => false end.
Lemma handled_stays s e : moves_chains e = false → same_chains s (handled s e).
Proof.
  destruct e; try done; intros _; cbn [handled].
  - apply stays_openArea. - apply stays_personal. - apply stays_listed. - apply stays_new_node. - apply stays_drop_created.
  - apply stays_rotate. - apply stays_sum. intros n. apply stays_pending_one. - apply stays_sum. intros n. apply stays_pending_one.
  - apply stays_shared.
Qed.

(** A committed chain is at its family's floor. *)
Definition at_floor (s : Worker.t) : Prop := ∀ g c, Areas.chains (Worker.areas s) !! g = Some c →
  ∃ f, floor (Worker.areas s) g = Some f ∧ rank c = rank f.
Lemma at_floor_same s s' : same_chains s s' → at_floor s → at_floor s'.
Proof. intros [Ec Ef] Hs g c. unfold floor. rewrite Ec, Ef. apply Hs. Qed.

Lemma not_overtaken_ok held chain : not_overtaken (Some held) chain = Ok tt →
  at_or_past held chain ∧ Body.rosterDigests chain !! Z.to_nat (Roster.rosterVersion (Body.roster held) - 1) = Some (Body.rosterDigest held).
Proof.
  unfold not_overtaken, overtakenBy, at_or_past, rank. cbv zeta. cbn [fst snd]. destruct (_ <? _) eqn:E1; [done|].
  destruct (_ !== _) eqn:E2; [done|]. destruct (Body.groupKeyVersion chain <? _) eqn:E3; [done|]. intros _. bool_simpl.
  split; [split; lia|done].
Qed.
Lemma floor_commit s chain a' : commit (Worker.areas s) chain = Ok a' →
  (∀ g, g ≠ Body.groupId chain → floor a' g = floor (Worker.areas s) g ∧ Areas.chains a' !! g = Areas.chains (Worker.areas s) !! g) ∧
  Areas.chains a' !! Body.groupId chain = Some chain ∧
  (∃ f, floor a' (Body.groupId chain) = Some f ∧ rank f = rank chain) ∧
  (∀ f, floor (Worker.areas s) (Body.groupId chain) = Some f → at_or_past f chain).
Proof.
  intros (a0 & _ & _ & _ & Ec & Ef & -> & Hc)%commit_ok.
  pose proof (commit_areas_same chain (elements (dom (Body.areaKeys chain))) a0) as (_ & _ & Ec' & Ef'). cbv zeta in *.
  unfold floor. rewrite Ec', Ef', Ec, Ef. unfold checkCommit in Hc. apply bind_ok in Hc as ([] & Hf & _).
  assert (∀ f, Areas.floors (Worker.areas s) !! Body.groupId chain = Some f → at_or_past f chain) as Hpast
    by (intros f Hf'; rewrite Hf' in Hf; apply (not_overtaken_ok f chain Hf)).
  split; [|split; [apply lookup_insert_eq|split; [|done]]].
  - intros g Hg. rewrite lookup_insert_ne by congruence. split; [|done]. destruct (raises _ _); [|done]. by rewrite lookup_insert_ne.
  - destruct (Areas.floors (Worker.areas s) !! Body.groupId chain) as [f|] eqn:Efl; [|cbn [raises]; exists chain; by rewrite lookup_insert_eq].
    destruct (raises (Some f) chain) eqn:Er; [exists chain; by rewrite lookup_insert_eq|]. exists f. split; [done|].
    destruct (Hpast f eq_refl) as [H1 H2]. unfold raises in Er. unfold rank in *. cbn [fst snd] in *. apply orb_false_iff in Er as [E1 E2].
    apply Z.ltb_ge in E1. assert (Roster.rosterVersion (Body.roster f) = Roster.rosterVersion (Body.roster chain)) as E by lia.
    rewrite (proj2 (Z.eqb_eq _ _) E) in E2. cbn in E2. apply Z.ltb_ge in E2. f_equal; lia.
Qed.

Lemma forgetGroup_chains g s : Areas.chains (Worker.areas (forgetGroup g s).1) = delete g (Areas.chains (Worker.areas s)) ∧
  Areas.floors (Worker.areas (forgetGroup g s).1) = delete g (Areas.floors (Worker.areas s)).
Proof.
  unfold forgetGroup, mbind at 1, op_bind at 1, get. unfold mbind, op_bind.
  destruct (drop_each_state [] [] (elements (dom (default ∅ (Areas.opened (Worker.areas s) !! g)))) s) as (s' & E & Ea & _).
  rewrite E. cbn. by rewrite Ea.
Qed.
Lemma at_floor_forget g s : at_floor s → at_floor (forgetGroup g s).1.
Proof.
  intros Hs g' c. unfold floor. destruct (forgetGroup_chains g s) as [-> ->]. intros [Hne Hc]%lookup_delete_Some.
  rewrite lookup_delete_ne by done. by apply Hs.
Qed.
Lemma at_floor_step s e : at_floor s → at_floor (handled s e).
Proof.
  intros Hs. destruct (moves_chains e) eqn:Em; [|by apply (at_floor_same s), Hs; apply handled_stays].
  destruct e as [chain|g| | | | | | | | | | | | | |g| |]; try done; cbn [handled].
  - unfold commit_chain, mbind, op_bind, ask, update. destruct (commit (Worker.areas s) chain) as [a'|e] eqn:Hc; [|done]. cbn [fst].
    destruct (floor_commit s chain a' Hc) as (Hother & Hown & (f & Hf & Hr) & _). intros g c Hg. cbn in Hg |- *.
    destruct (decide (g = Body.groupId chain)) as [->|Hne].
    + rewrite Hown in Hg. injection Hg as <-. by exists f.
    + destruct (Hother g Hne) as [-> E]. rewrite E in Hg. by apply Hs.
  - intros g' c. cbn. intros [_ Hc]%lookup_delete_Some. by apply Hs.
  - by apply at_floor_forget.
  - unfold forgetAllGroups, mbind at 1, op_bind at 1, get. set (l := elements _). clearbody l. unfold mbind, op_bind, update.
    set (s1 := set_areas s _). assert (at_floor s1) as H1 by done. clearbody s1. clear Hs. revert s1 H1.
    induction l as [|g l IH]; intros s1 H1; [done|]. cbn [each_op]. unfold mbind, op_bind.
    pose proof (at_floor_forget g s1 H1) as H2. destruct (forgetGroup g s1) as [s2 [[]|e]]; [by apply IH|done].
Qed.
Lemma floor_step s e g f : floor (Worker.areas s) g = Some f → ¬ forgets e g →
  ∃ f', floor (Worker.areas (handled s e)) g = Some f' ∧ at_or_past f f'.
Proof.
  intros Hf Hn. assert (at_or_past f f) as Hrefl by done.
  destruct (moves_chains e) eqn:Em; [|exists f; split; [|done]; unfold floor; by rewrite (proj2 (handled_stays s e Em))].
  destruct e as [chain|g'| | | | | | | | | | | | | |g'| |]; try done; cbn [handled].
  - unfold commit_chain, mbind, op_bind, ask, update. destruct (commit (Worker.areas s) chain) as [a'|e] eqn:Hc; [|by exists f]. cbn [fst].
    destruct (floor_commit s chain a' Hc) as (Hother & _ & (f' & Hf' & Hr) & Hpast). cbn.
    destruct (decide (g = Body.groupId chain)) as [->|Hne].
    + exists f'. split; [done|]. unfold at_or_past. rewrite Hr. by apply Hpast.
    + exists f. by rewrite (proj1 (Hother g Hne)).
  - by exists f.
  - exists f. split; [|done]. unfold floor. rewrite (proj2 (forgetGroup_chains g' s)), lookup_delete_ne; done.
Qed.
End floors.

(** C28. A family's member list never goes back on this device: whatever the
    session does after a list was committed, short of forgetting the family,
    the floor is there and at or past that roster and group key, and a list
    committed again, after a lock or a missed check too, is at the floor. *)
Theorem floor_never_back `{C : Crypto} events later g f : floor (Worker.areas (session events)) g = Some f →
  (∀ e, e ∈ later → ¬ forgets e g) →
  ∃ f', floor (Worker.areas (session (events ++ later))) g = Some f' ∧ at_or_past f f' ∧
    ∀ c, committedChain (Worker.areas (session (events ++ later))) g = Some c → rank c = rank f'.
Proof.
  intros Hf Hn. assert (∀ es, at_floor (session es)) as Hfloor.
  { intros es. induction es as [|e es IH] using rev_ind; [by intros x c|]. unfold session. rewrite foldl_app. by apply at_floor_step. }
  assert (∃ f', floor (Worker.areas (session (events ++ later))) g = Some f' ∧ at_or_past f f') as (f' & Hf' & Hp).
  { induction later as [|e later IH] using rev_ind; [rewrite app_nil_r; by exists f|].
    destruct IH as (f1 & Hf1 & Hp1); [intros x Hx; apply Hn, elem_of_app; by left|]. unfold session. rewrite app_assoc, foldl_app.
    destruct (floor_step _ e g f1 Hf1) as (f2 & Hf2 & Hp2); [apply Hn, elem_of_app; right; by left|].
    exists f2. split; [done|]. destruct Hp1, Hp2. split; lia. }
  exists f'. split; [done|]. split; [done|]. intros c Hc. destruct (Hfloor _ g c Hc) as (f2 & Hf2 & Hr). congruence.
Qed.

Module WriteWitness.
Definition seed := encode (fill 16 "s").
Definition family_id := RosterWitness.gid.
Definition area := match deriveId (C := Toy.crypto) workspace_id family_id seed with Ok w => w | Err _ => "" end.
Definition root := "0c0c0c0c-0000-4000-8000-000000000001".
Definition area_key : bytes := fill 32 "a".
Definition root_key : bytes := fill 32 "r".
Definition no_cache := RawCache.Build_t (JInt 0) None None (JInt 0) None None None (JInt 0) None None None None 0 None.
Definition chain := Body.Build_t family_id family RosterWitness.roster "" "" [""] false 1 (GroupPublicKey.Build_t "" "") ""
  [GroupPublicKey.Build_t "" ""] RosterWitness.alice false ∅ {[ area := [Ledger.commit (C := Toy.crypto) area_key AREA_COMMIT_INFO] ]}
  {[ area := [Some (Ledger.commit (C := Toy.crypto) root_key AREA_ROOT_COMMIT_INFO)] ]} [] [] [] [] no_cache None.
Definition envelope := match wrapNodeKey (C := Toy.crypto) (fill 24 "x") root_key area_key (NodeKeyContext.Build_t area root area 1 1) with
  Ok e => e | Err _ => "" end.
Definition row := ServedNodeKey.Build_t root area 1 1 (encode envelope) None None None.
Definition opened := [Commit chain; OpenArea family_id area seed 1 area_key 1].
(** A folder made right under the root, to put things under. *)
Definition child := "0c0c0c0c-0000-4000-8000-000000000002".
Definition child_key : bytes := fill 32 "k".
Definition events := opened ++ [OpenListed area row; Create area (NewNode.Build_t child root 1 1) child_key (fill 24 "y")].

Lemma wraps : (λ b, bytes_at (Worker.mem (session (C := Toy.crypto) events)) b) <$>
  match wrapKeyFor (session (C := Toy.crypto) events) area child 1 with Ok b => Some b | Err _ => None end = Some child_key.
Proof. vm_compute. reflexivity. Qed.
Lemma uuids : forallb names_uuids events = true.
Proof. vm_compute. reflexivity. Qed.
Lemma is_area : isArea (Worker.areas (session (C := Toy.crypto) events)) area = true.
Proof. vm_compute. reflexivity. Qed.
Lemma floored : floor (Worker.areas (session (C := Toy.crypto) opened)) family_id = Some chain.
Proof. vm_compute. reflexivity. Qed.
Lemma wrap_key : ∃ b, wrapKeyFor (session (C := Toy.crypto) events) area child 1 = Ok b ∧
  bytes_at (Worker.mem (session (C := Toy.crypto) events)) b = child_key.
Proof.
  generalize (session (C := Toy.crypto) events) wraps. intros s H. destruct (wrapKeyFor _ _ _ _) as [b|e]; [|discriminate H]. exists b. split; [reflexivity|]. by injection H.
Qed.
End WriteWitness.

Lemma write_keys_rooted_witness : ∃ g v,
  rooted (C := Toy.crypto) (chains_of WriteWitness.events) (brought_in WriteWitness.events) g WriteWitness.area WriteWitness.child v 1
    WriteWitness.child_key.
Proof.
  destruct WriteWitness.wrap_key as (b & Hb & <-).
  pose proof (write_keys_rooted (C := Toy.crypto) WriteWitness.events WriteWitness.area WriteWitness.child 1 b) as H. cbv zeta in H.
  destruct (H WriteWitness.uuids WriteWitness.is_area) as (g & v & c & _ & _ & _ & _ & Hr); [left; exact Hb|].
  exists g, v. exact Hr.
Defined.

Lemma keys_zeroed_witness : ∃ b, Worker.mem (clear (session (C := Toy.crypto) WriteWitness.opened)).1 !! b = Some (fill 32 "000").
Proof.
  exists 1%positive.
  destruct (keys_zeroed (C := Toy.crypto) WriteWitness.opened (at_workspace WriteWitness.area 1) 1%positive) as (_ & [_ H] & _);
    [reflexivity|vm_compute; reflexivity|]. rewrite H. vm_compute. reflexivity.
Defined.

Lemma floor_never_back_witness : ∃ f, floor (Worker.areas (session (C := Toy.crypto) (WriteWitness.opened ++ [Lock; Uncommit WriteWitness.family_id])))
  WriteWitness.family_id = Some f ∧ at_or_past WriteWitness.chain f.
Proof.
  pose proof (floor_never_back (C := Toy.crypto) WriteWitness.opened [Lock; Uncommit WriteWitness.family_id] WriteWitness.family_id
    WriteWitness.chain WriteWitness.floored) as H.
  destruct H as (f & Hf & Hp & _); [|exists f; exact (conj Hf Hp)].
  intros e [->|[->|[]%elem_of_nil]%elem_of_cons]%elem_of_cons; intros [].
Defined.
