(* ===== verification/WalkHolds.v ===== *)
(** * The window a walk's batch holds folders for (packages/drive/src/walk-holds.ts)

    A batch of a rotation and a write that wraps a key under the same folder at
    the same epoch exclude each other in a tab: [takeFolders] waits until no
    one holds any of its folders, takes them all at once and answers the
    function that releases them. A promise is an identity and the set of those
    resolved; the code between two awaits runs in one piece, so a step here is
    a task's run from one [await] to the next ([attempt], [release]). *)

From S2P Require Import Prelude Base64url Bytes Canonical.

Definition promise := positive.
(** The worker a hold is in: the [rpc], by identity. *)
Definition worker := positive.

Module HeldFolder.
Record t := { id : string; keyEpoch : Z }.
End HeldFolder.

(** [byWorker], and the promises resolved. *)
Module Holds.
Record t := { byWorker : gmap worker (gmap string promise); resolved : gset promise }.
End Holds.

Definition slot_at (workspaceId : string) (f : HeldFolder.t) : string :=
  workspaceId +:+ "/" +:+ HeldFolder.id f +:+ "@" +:+ string_of_Z (HeldFolder.keyEpoch f).
Definition slots_of (workspaceId : string) (folders : list HeldFolder.t) : list string :=
  first_seen [] (map (slot_at workspaceId) folders).

(** A task: before its first look, waiting on the promises it raced, holding
    under its own promise, and after it released. *)
Inductive task :=
  | Looking (rpc : worker) (slots : list string)
  | Waiting (rpc : worker) (slots : list string) (busy : list promise)
  | Holding (rpc : worker) (slots : list string) (done_ : promise)
  | Released (rpc : worker) (slots : list string) (done_ : promise).

Definition held_of (rpc : worker) (s : Holds.t) : gmap string promise := default ∅ (Holds.byWorker s !! rpc).
(** [slots.flatMap((at) => held.get(at) ?? [])] *)
Definition busy_of (held : gmap string promise) (slots : list string) : list promise := omap (λ at_, held !! at_) slots.
Definition set_all (slots : list string) (p : promise) (held : gmap string promise) : gmap string promise :=
  foldl (λ held at_, <[at_ := p]> held) held slots.
Definition delete_own (slots : list string) (p : promise) (held : gmap string promise) : gmap string promise :=
  foldl (λ held at_, if bool_decide (held !! at_ = Some p) then delete at_ held else held) held slots.

(** The loop of [takeFolders] until it awaits or returns; [fresh] the promise it makes. *)
Definition attempt (fresh : promise) (rpc : worker) (slots : list string) (s : Holds.t) : Holds.t * task :=
  let held := held_of rpc s in
  match busy_of held slots with
  | [] => (Holds.Build_t (<[rpc := set_all slots fresh held]> (Holds.byWorker s)) (Holds.resolved s), Holding rpc slots fresh)
  | busy => (Holds.Build_t (<[rpc := held]> (Holds.byWorker s)) (Holds.resolved s), Waiting rpc slots busy)
  end.
(** The function [takeFolders] answers. *)
Definition release (rpc : worker) (slots : list string) (done_ : promise) (s : Holds.t) : Holds.t :=
  Holds.Build_t (<[rpc := delete_own slots done_ (held_of rpc s)]> (Holds.byWorker s)) ({[ done_ ]} ∪ Holds.resolved s).

(** ** Tasks interleaved *)

Module World.
Record t := { holds : Holds.t; tasks : gmap positive task; made : gset promise }.
End World.

Definition set_task (n : positive) (k : task) (w : World.t) : World.t :=
  World.Build_t (World.holds w) (<[n := k]> (World.tasks w)) (World.made w).

Inductive step : World.t → World.t → Prop :=
  | step_call w n rpc workspaceId folders : World.tasks w !! n = None →
      step w (set_task n (Looking rpc (slots_of workspaceId folders)) w)
  | step_look w n rpc slots fresh : World.tasks w !! n = Some (Looking rpc slots) → fresh ∉ World.made w →
      step w (let '(s, k) := attempt fresh rpc slots (World.holds w) in
        World.Build_t s (<[n := k]> (World.tasks w)) ({[ fresh ]} ∪ World.made w))
  | step_woken w n rpc slots busy p fresh : World.tasks w !! n = Some (Waiting rpc slots busy) →
      p ∈ busy → p ∈ Holds.resolved (World.holds w) → fresh ∉ World.made w →
      step w (let '(s, k) := attempt fresh rpc slots (World.holds w) in
        World.Build_t s (<[n := k]> (World.tasks w)) ({[ fresh ]} ∪ World.made w))
  | step_release w n rpc slots p : World.tasks w !! n = Some (Holding rpc slots p) →
      step w (World.Build_t (release rpc slots p (World.holds w)) (<[n := Released rpc slots p]> (World.tasks w)) (World.made w))
  | step_release_again w n rpc slots p : World.tasks w !! n = Some (Released rpc slots p) →
      step w (World.Build_t (release rpc slots p (World.holds w)) (World.tasks w) (World.made w)).

Definition start : World.t := World.Build_t (Holds.Build_t ∅ ∅) ∅ ∅.
Definition reached := rtc step start.

(** ** Lemmas *)

Lemma set_all_lookup slots p held at_ : set_all slots p held !! at_ = if bool_decide (at_ ∈ slots) then Some p else held !! at_.
Proof.
  unfold set_all. revert held. induction slots as [|x slots IH]; intros held; cbn.
  - rewrite bool_decide_eq_false_2; [done|]. apply not_elem_of_nil.
  - rewrite IH. destruct (decide (at_ ∈ slots)) as [Hin|Hin].
    + rewrite !bool_decide_eq_true_2; [done| |done]. by right.
    + rewrite (bool_decide_eq_false_2 (at_ ∈ slots)) by done. destruct (decide (at_ = x)) as [->|Hne].
      * rewrite lookup_insert_eq, bool_decide_eq_true_2; [done|by left].
      * rewrite lookup_insert_ne by done. rewrite bool_decide_eq_false_2; [done|]. by rewrite not_elem_of_cons.
Qed.
Lemma delete_own_lookup slots p held at_ :
  delete_own slots p held !! at_ = if bool_decide (at_ ∈ slots ∧ held !! at_ = Some p) then None else held !! at_.
Proof.
  unfold delete_own. revert held. induction slots as [|x slots IH]; intros held; cbn.
  - rewrite bool_decide_eq_false_2; [done|]. intros [[]%not_elem_of_nil _].
  - rewrite IH. destruct (decide (held !! x = Some p)) as [Hx|Hx].
    + rewrite (bool_decide_eq_true_2 _ Hx). destruct (decide (at_ = x)) as [->|Hne].
      * rewrite lookup_delete_eq, bool_decide_eq_false_2 by (by intros [_ [=]]).
        rewrite bool_decide_eq_true_2; [done|]. split; [by left|done].
      * rewrite lookup_delete_ne by done. erewrite bool_decide_ext; [reflexivity|]. set_solver.
    + rewrite (bool_decide_eq_false_2 _ Hx). erewrite bool_decide_ext; [reflexivity|]. set_solver.
Qed.

(** ** What every interleaving keeps *)

Definition holds_task (w : World.t) (n : positive) (rpc : worker) (slots : list string) (p : promise) : Prop :=
  World.tasks w !! n = Some (Holding rpc slots p).

Record inv (w : World.t) : Prop := {
  inv_held rpc at_ p : held_of rpc (World.holds w) !! at_ = Some p ↔ ∃ n slots, holds_task w n rpc slots p ∧ at_ ∈ slots;
  inv_live n rpc slots p : holds_task w n rpc slots p → p ∈ World.made w ∧ p ∉ Holds.resolved (World.holds w);
  inv_own n m rpc rpc' slots slots' p : holds_task w n rpc slots p → holds_task w m rpc' slots' p → n = m;
  inv_done n rpc slots p : World.tasks w !! n = Some (Released rpc slots p) → p ∈ Holds.resolved (World.holds w);
  inv_made : Holds.resolved (World.holds w) ⊆ World.made w;
  inv_waits n rpc slots busy : World.tasks w !! n = Some (Waiting rpc slots busy) → busy ≠ [] ∧ ∀ p, p ∈ busy →
    p ∈ Holds.resolved (World.holds w) ∨ ∃ m slots' at_, holds_task w m rpc slots' p ∧ at_ ∈ slots ∧ at_ ∈ slots';
}.

Lemma held_of_set rpc rpc' held s r :
  held_of rpc' (Holds.Build_t (<[rpc := held]> (Holds.byWorker s)) r) = if bool_decide (rpc' = rpc) then held else held_of rpc' s.
Proof.
  unfold held_of. cbn. destruct (decide (rpc' = rpc)) as [->|Hne].
  - by rewrite lookup_insert_eq, bool_decide_eq_true_2.
  - by rewrite lookup_insert_ne, bool_decide_eq_false_2 by congruence.
Qed.
Lemma busy_of_elem held slots p : p ∈ busy_of held slots ↔ ∃ at_, at_ ∈ slots ∧ held !! at_ = Some p.
Proof. unfold busy_of. rewrite list_elem_of_omap. naive_solver. Qed.
Lemma busy_of_nil held slots at_ : busy_of held slots = [] → at_ ∈ slots → held !! at_ = None.
Proof.
  intros Hb Hin. destruct (held !! at_) as [p|] eqn:E; [|done].
  assert (p ∈ busy_of held slots) as Hp by (apply busy_of_elem; eauto). rewrite Hb in Hp. by apply not_elem_of_nil in Hp.
Qed.

(** A task that held nothing, turned into one that holds nothing: nothing changes. *)
Lemma holds_task_idle w n k s made : (∀ rpc slots p, k ≠ Holding rpc slots p) →
  (∀ rpc slots p, World.tasks w !! n ≠ Some (Holding rpc slots p)) → ∀ m rpc slots p,
  holds_task (World.Build_t s (<[n := k]> (World.tasks w)) made) m rpc slots p ↔ holds_task w m rpc slots p.
Proof.
  intros Hk Hn m rpc slots p. unfold holds_task. cbn. destruct (decide (m = n)) as [->|Hne].
  - rewrite lookup_insert_eq. split; [intros [= E]; by apply Hk in E|intros E; by apply Hn in E].
  - by rewrite lookup_insert_ne.
Qed.


(** What a task waits for, as [w] has it. *)
Definition waits_on (w : World.t) (rpc : worker) (slots : list string) (busy : list promise) : Prop :=
  busy ≠ [] ∧ ∀ p, p ∈ busy → p ∈ Holds.resolved (World.holds w) ∨
    ∃ m slots' at_, holds_task w m rpc slots' p ∧ at_ ∈ slots ∧ at_ ∈ slots'.

Lemma inv_idle w n k s made : inv w → (∀ rpc slots p, k ≠ Holding rpc slots p ∧ k ≠ Released rpc slots p) →
  (∀ rpc slots p, World.tasks w !! n ≠ Some (Holding rpc slots p)) →
  (∀ rpc, held_of rpc s = held_of rpc (World.holds w)) → Holds.resolved s = Holds.resolved (World.holds w) → World.made w ⊆ made →
  (∀ rpc slots busy, k = Waiting rpc slots busy → waits_on w rpc slots busy) →
  inv (World.Build_t s (<[n := k]> (World.tasks w)) made).
Proof.
  intros Hi Hk Hnot Hheld Hres Hmade Hwait.
  pose proof (holds_task_idle w n k s made (λ rpc slots p, proj1 (Hk rpc slots p)) Hnot) as Hht. split; cbn; rewrite ?Hres.
  - intros rpc at_ p. rewrite Hheld, (inv_held w Hi). by setoid_rewrite Hht.
  - intros m rpc slots p H%Hht. apply (inv_live w Hi) in H. set_solver.
  - intros m m' rpc1 rpc2 slots1 slots2 p H1%Hht H2%Hht. exact (inv_own w Hi _ _ _ _ _ _ _ H1 H2).
  - intros m rpc slots p. destruct (decide (m = n)) as [->|Hne]; [rewrite lookup_insert_eq; intros [= E]; by apply Hk in E|].
    rewrite lookup_insert_ne by done. apply (inv_done w Hi).
  - pose proof (inv_made w Hi). set_solver.
  - intros m rpc slots busy Hm. assert (waits_on w rpc slots busy) as [Hb Hp].
    { destruct (decide (m = n)) as [->|Hne]; [rewrite lookup_insert_eq in Hm; injection Hm as ->; by apply Hwait|].
      rewrite lookup_insert_ne in Hm by done. by apply (inv_waits w Hi) in Hm. }
    split; [done|]. intros p [?|(m' & s' & a & H & ?)]%Hp; [auto|]. right. exists m', s', a. by rewrite Hht.
Qed.

(** A task that takes its slots, none of them busy. *)
Lemma inv_take w n rpc slots fresh : inv w → fresh ∉ World.made w → busy_of (held_of rpc (World.holds w)) slots = [] →
  (∀ rpc' slots' p, World.tasks w !! n ≠ Some (Holding rpc' slots' p)) →
  inv (World.Build_t (Holds.Build_t (<[rpc := set_all slots fresh (held_of rpc (World.holds w))]> (Holds.byWorker (World.holds w)))
    (Holds.resolved (World.holds w))) (<[n := Holding rpc slots fresh]> (World.tasks w)) ({[fresh]} ∪ World.made w)).
Proof.
  intros Hi Hfresh Eb Hnot. set (w' := World.Build_t _ _ _).
  assert (∀ m rpc' slots' p, holds_task w' m rpc' slots' p ↔
    (m = n ∧ rpc' = rpc ∧ slots' = slots ∧ p = fresh) ∨ holds_task w m rpc' slots' p) as Hht.
  { intros m rpc' slots' p. unfold holds_task, w'. cbn. destruct (decide (m = n)) as [->|Hne].
    - rewrite lookup_insert_eq. split; [intros [= -> -> ->]; auto|intros [(_ & -> & -> & ->)|H]; [done|by apply Hnot in H]].
    - rewrite lookup_insert_ne by done. naive_solver. }
  split; cbn.
  - intros rpc' at_ p. setoid_rewrite Hht. rewrite held_of_set. pose proof (inv_held w Hi rpc' at_ p) as Hold.
    case_bool_decide as Hr; [subst rpc'|naive_solver]. rewrite set_all_lookup.
    destruct (decide (at_ ∈ slots)) as [Hin|Hin]; [|rewrite bool_decide_eq_false_2 by done; naive_solver].
    rewrite bool_decide_eq_true_2 by done. rewrite (busy_of_nil _ _ _ Eb Hin) in Hold. split; [intros [= <-]; eauto 10|].
    intros (m & slots' & [(_ & _ & _ & ->)|H] & Hin'); [done|]. destruct Hold as [_ Hold]. by discriminate (Hold ltac:(eauto)).
  - intros m rpc' slots' p [(_ & _ & _ & ->)|H]%Hht.
    + split; [set_solver|]. intros Hr. by apply (inv_made w Hi) in Hr.
    + apply (inv_live w Hi) in H. set_solver.
  - intros m m' rpc1 rpc2 slots1 slots2 p H1%Hht H2%Hht. destruct H1 as [(-> & _ & _ & ->)|H1], H2 as [(-> & _ & _ & E)|H2]; [done|..].
    + by apply (inv_live w Hi) in H2 as [H2 _].
    + subst p. by apply (inv_live w Hi) in H1 as [H1 _].
    + exact (inv_own w Hi _ _ _ _ _ _ _ H1 H2).
  - intros m rpc' slots' p. destruct (decide (m = n)) as [->|Hne]; [by rewrite lookup_insert_eq|].
    rewrite lookup_insert_ne by done. apply (inv_done w Hi).
  - pose proof (inv_made w Hi). set_solver.
  - intros m rpc' slots' busy'. destruct (decide (m = n)) as [->|Hne]; [by rewrite lookup_insert_eq|].
    rewrite lookup_insert_ne by done. intros [Hb Hp]%(inv_waits w Hi). split; [done|]. intros p [?|(m' & s' & a & H & ?)]%Hp; [auto|].
    right. exists m', s', a. split; [apply Hht; auto|done].
Qed.

Lemma inv_attempt w n rpc slots fresh : inv w → fresh ∉ World.made w →
  (∀ rpc' slots' p, World.tasks w !! n ≠ Some (Holding rpc' slots' p)) →
  inv (let '(s, k) := attempt fresh rpc slots (World.holds w) in
    World.Build_t s (<[n := k]> (World.tasks w)) ({[ fresh ]} ∪ World.made w)).
Proof.
  intros Hi Hfresh Hnot. unfold attempt. destruct (busy_of _ _) as [|b busy] eqn:Eb; [by apply inv_take|].
  apply inv_idle; try done; [|set_solver|].
  - intros rpc'. rewrite held_of_set. by case_bool_decide; subst.
  - intros ? ? ? [= <- <- <-]. split; [done|]. intros p. rewrite <- Eb, busy_of_elem.
    intros (at_ & Hin & (m & s' & H & Hin')%(inv_held w Hi)). right. by exists m, s', at_.
Qed.

Lemma inv_release w n rpc slots p : inv w → holds_task w n rpc slots p →
  inv (World.Build_t (release rpc slots p (World.holds w)) (<[n := Released rpc slots p]> (World.tasks w)) (World.made w)).
Proof.
  intros Hi Hn. set (w' := World.Build_t _ _ _).
  assert (∀ m rpc' slots' q, holds_task w' m rpc' slots' q ↔ m ≠ n ∧ holds_task w m rpc' slots' q) as Hht.
  { intros m rpc' slots' q. unfold holds_task, w'. cbn. destruct (decide (m = n)) as [->|Hne].
    - rewrite lookup_insert_eq. naive_solver.
    - rewrite lookup_insert_ne by done. naive_solver. }
  split; cbn.
  - intros rpc' at_ q. setoid_rewrite Hht. unfold release. rewrite held_of_set. pose proof (inv_held w Hi rpc' at_ q) as Hold.
    assert (∀ m rpc' slots', holds_task w m rpc' slots' p → m = n) as Hown by (intros; eapply (inv_own w Hi); eauto).
    unfold holds_task in *. case_bool_decide as Hr; [subst rpc'; rewrite delete_own_lookup; case_bool_decide as Hd|]; naive_solver.
  - intros m rpc' slots' q [Hne H]%Hht.
    assert (q ≠ p) by (intros ->; exact (Hne (inv_own w Hi _ _ _ _ _ _ _ H Hn))). apply (inv_live w Hi) in H. set_solver.
  - intros m m' rpc1 rpc2 slots1 slots2 q [_ H1]%Hht [_ H2]%Hht. exact (inv_own w Hi _ _ _ _ _ _ _ H1 H2).
  - intros m rpc' slots' q. destruct (decide (m = n)) as [->|Hne]; [rewrite lookup_insert_eq; set_solver|].
    rewrite lookup_insert_ne by done. intros H%(inv_done w Hi). set_solver.
  - pose proof (inv_made w Hi). apply (inv_live w Hi) in Hn. set_solver.
  - intros m rpc' slots' busy'. destruct (decide (m = n)) as [->|Hne]; [by rewrite lookup_insert_eq|].
    rewrite lookup_insert_ne by done. intros [Hb Hp]%(inv_waits w Hi). split; [done|].
    intros q [?|(m' & s' & a & H & ?)]%Hp; [set_solver|]. destruct (decide (m' = n)) as [->|Hne'].
    + left. unfold holds_task in *. assert (q = p) as -> by congruence. set_solver.
    + right. exists m', s', a. by rewrite Hht.
Qed.

Lemma holds_inv_same w s : inv w → (∀ rpc at_, held_of rpc s !! at_ = held_of rpc (World.holds w) !! at_) →
  Holds.resolved s = Holds.resolved (World.holds w) → inv (World.Build_t s (World.tasks w) (World.made w)).
Proof. intros [] Hheld Hres. split; cbn; rewrite ?Hres; try done. intros rpc at_ p. by rewrite Hheld. Qed.

(** Releasing again does nothing more. *)
Lemma inv_release_again w n rpc slots p : inv w → World.tasks w !! n = Some (Released rpc slots p) →
  ∀ rpc' at_, held_of rpc' (release rpc slots p (World.holds w)) !! at_ = held_of rpc' (World.holds w) !! at_.
Proof.
  intros Hi Hn rpc' at_. unfold release. rewrite held_of_set. case_bool_decide as Hr; [subst rpc'|done].
  rewrite delete_own_lookup. case_bool_decide as Hd; [|done]. destruct Hd as [_ Hd].
  apply (inv_held w Hi) in Hd as (m & slots' & H & _). apply (inv_live w Hi) in H as [_ H]. by apply (inv_done w Hi) in Hn.
Qed.

Lemma holds_inv_step w w' : inv w → step w w' → inv w'.
Proof.
  intros Hi Hs. destruct Hs as [w n rpc ws folders Hn|w n rpc slots fresh Hn Hf|w n rpc slots busy p fresh Hn _ _ Hf
    |w n rpc slots p Hn|w n rpc slots p Hn].
  - apply inv_idle; try done; congruence.
  - apply inv_attempt; [done..|]. congruence.
  - apply inv_attempt; [done..|]. congruence.
  - by apply inv_release.
  - apply holds_inv_same; [done|by eapply inv_release_again|]. cbn. apply (inv_done w Hi) in Hn. set_solver.
Qed.
Lemma holds_inv_start : inv start.
Proof.
  split; cbn; try done. intros rpc at_ p. unfold held_of, holds_task. cbn. rewrite lookup_empty. cbn. rewrite lookup_empty.
  split; [done|]. intros (n & slots & H & _). by rewrite lookup_empty in H.
Qed.
Lemma holds_inv_reached w : reached w → inv w.
Proof. intros H. pose proof holds_inv_start as Hi. induction H as [|? ? ? Hs _ IH]; [done|]. eauto using holds_inv_step. Qed.

(** C30. No two holds in one worker ever overlap: whatever tasks called
    [takeFolders], waited, woke and released, and in whatever order, two tasks
    that hold have no folder at the same epoch in common, and the map says of
    each slot held whose it is. *)
Theorem holds_exclusive w n m rpc slots slots' p q (Hr : reached w) (Hne : n ≠ m)
    (Hn : World.tasks w !! n = Some (Holding rpc slots p)) (Hm : World.tasks w !! m = Some (Holding rpc slots' q)) :
  slots ## slots' ∧ p ≠ q ∧ (∀ at_, at_ ∈ slots → held_of rpc (World.holds w) !! at_ = Some p) ∧
  (∀ at_, at_ ∈ slots' → held_of rpc (World.holds w) !! at_ = Some q).
Proof.
  pose proof (holds_inv_reached w Hr) as Hi. assert (p ≠ q) as Hpq by (intros ->; exact (Hne (inv_own w Hi _ _ _ _ _ _ _ Hn Hm))).
  assert (∀ at_, at_ ∈ slots → held_of rpc (World.holds w) !! at_ = Some p) as H1 by (intros; apply (inv_held w Hi); eauto).
  assert (∀ at_, at_ ∈ slots' → held_of rpc (World.holds w) !! at_ = Some q) as H2 by (intros; apply (inv_held w Hi); eauto).
  split_and!; try done. intros at_ Ha Hb. apply H1 in Ha. apply H2 in Hb. congruence.
Qed.

(** ** No task waits for good *)

(** A task that holds releases. *)
Inductive release_step : World.t → World.t → Prop :=
  | releases w n rpc slots p : World.tasks w !! n = Some (Holding rpc slots p) →
      release_step w (World.Build_t (release rpc slots p (World.holds w)) (<[n := Released rpc slots p]> (World.tasks w)) (World.made w)).
Lemma release_step_step w w' : release_step w w' → step w w'.
Proof. intros [? ? ? ? ? H]. by apply step_release. Qed.

Definition is_holding (k : task) : bool := match k with Holding _ _ _ => true | _ => false end.

(** Every task of [ns] releases what it holds, and no other task changes. *)
Lemma release_tasks (ns : list positive) w : ∃ w', rtc release_step w w' ∧ (∀ n k, World.tasks w !! n = Some k → is_holding k = false →
    World.tasks w' !! n = Some k) ∧
  (∀ n k, World.tasks w' !! n = Some k → is_holding k = true → (n ∉ ns) ∧ World.tasks w !! n = Some k).
Proof.
  revert w. induction ns as [|n ns IH]; intros w.
  { exists w. split_and!; [done|done|]. intros n k H _. split; [apply not_elem_of_nil|done]. }
  destruct (World.tasks w !! n) as [[rpc slots|rpc slots busy|rpc slots p|rpc slots p]|] eqn:En.
  3: { destruct (IH (World.Build_t (release rpc slots p (World.holds w)) (<[n := Released rpc slots p]> (World.tasks w))
      (World.made w))) as (w' & Hs & Hkeep & Hh). exists w'. split_and!.
    - eapply rtc_l; [by constructor|done].
    - intros m k Hm Hk. apply Hkeep; [|done]. cbn. rewrite lookup_insert_ne; [done|]. intros ->. rewrite En in Hm. by simplify_eq.
    - intros m k Hm Hk. destruct (Hh m k Hm Hk) as [Hns Hw]. cbn in Hw. apply lookup_insert_Some in Hw as [[<- <-]|[Hne Hw]]; [done|].
      split; [|done]. rewrite not_elem_of_cons. auto. }
  all: destruct (IH w) as (w' & Hs & Hkeep & Hh); exists w'; split_and!; [done..|]; intros m k Hm Hk;
    destruct (Hh m k Hm Hk) as [Hns Hw]; split; [|done]; rewrite not_elem_of_cons; split; [|done]; intros ->; rewrite En in Hw; by simplify_eq.
Qed.

(** C32. No task waits for good. A task that waits has a promise it raced
    already resolved, or another task holds a folder it wants, which waits for
    no one: and once the tasks that hold release, the first wake takes every
    folder wanted at once. *)
Theorem waits_end w n rpc slots busy (Hr : reached w) (Hn : World.tasks w !! n = Some (Waiting rpc slots busy)) :
  ((∃ p, p ∈ busy ∧ p ∈ Holds.resolved (World.holds w)) ∨
    ∃ m slots' q at_, World.tasks w !! m = Some (Holding rpc slots' q) ∧ at_ ∈ slots ∧ at_ ∈ slots') ∧
  ∃ w1 w2 p, rtc release_step w w1 ∧ step w1 w2 ∧ World.tasks w2 !! n = Some (Holding rpc slots p).
Proof.
  pose proof (holds_inv_reached w Hr) as Hi. destruct (inv_waits w Hi _ _ _ _ Hn) as [Hb Hp]. split.
  - destruct busy as [|b busy]; [done|]. destruct (Hp b ltac:(by left)) as [?|(m & s' & a & ? & ? & ?)].
    + left. exists b. split; [by left|done].
    + right. by exists m, s', b, a.
  - destruct (release_tasks (map fst (map_to_list (World.tasks w))) w) as (w1 & Hs & Hkeep & Hnone).
    assert (reached w1) as Hr1 by (unfold reached; etrans; [exact Hr|]; eapply rtc_subrel; [|exact Hs]; apply release_step_step).
    pose proof (holds_inv_reached w1 Hr1) as Hi1. assert (∀ m rpc' s' q, ¬ holds_task w1 m rpc' s' q) as Hfree.
    { intros m rpc' s' q H. destruct (Hnone _ _ H eq_refl) as [Hm Hw]. apply Hm, list_elem_of_fmap. exists (m, Holding rpc' s' q).
      by rewrite elem_of_map_to_list. }
    specialize (Hkeep _ _ Hn eq_refl). destruct (inv_waits w1 Hi1 _ _ _ _ Hkeep) as [_ Hp1].
    destruct busy as [|b busy]; [done|]. destruct (Hp1 b ltac:(by left)) as [Hres|(m & s' & a & H & _)]; [|by apply Hfree in H].
    exists w1. eexists. exists (fresh (World.made w1)). split_and!; [done| |].
    + eapply step_woken; [done|by left|done|apply is_fresh].
    + unfold attempt. assert (busy_of (held_of rpc (World.holds w1)) slots = []) as ->; [|cbn; by rewrite lookup_insert_eq].
      destruct (busy_of _ _) as [|q l] eqn:Eq; [done|]. exfalso.
      assert (q ∈ busy_of (held_of rpc (World.holds w1)) slots) as (a & _ & (m & s' & H & _)%(inv_held w1 Hi1))%busy_of_elem by (rewrite Eq; by left).
      by apply Hfree in H.
Qed.

Module HoldsWitness.
Definition f := HeldFolder.Build_t "f" 2.
Definition g := HeldFolder.Build_t "g" 2.
Definition h := HeldFolder.Build_t "h" 2.
Definition call (n : positive) (folders : list HeldFolder.t) (w : World.t) : World.t :=
  set_task n (Looking 1%positive (slots_of "w" folders)) w.
Definition look (n : positive) (folders : list HeldFolder.t) (fresh : promise) (w : World.t) : World.t :=
  let '(s, k) := attempt fresh 1%positive (slots_of "w" folders) (World.holds w) in
  World.Build_t s (<[n := k]> (World.tasks w)) ({[ fresh ]} ∪ World.made w).
(** A batch holds [f] and [g], a write into [h] goes at once, one into [f] waits. *)
Definition w1 := call 1%positive [f; g; f] start.
Definition w2 := look 1%positive [f; g; f] 1%positive w1.
Definition w3 := call 2%positive [h] w2.
Definition w4 := look 2%positive [h] 2%positive w3.
Definition w5 := call 3%positive [f] w4.
Definition w6 := look 3%positive [f] 3%positive w5.
Lemma reached_w6 : reached w6.
Proof.
  apply rtc_l with w1; [by apply step_call|].
  apply rtc_l with w2; [apply step_look; [reflexivity|refine (bool_decide_unpack (_ ∉ _) _); vm_compute; exact I]|].
  apply rtc_l with w3; [by apply step_call|].
  apply rtc_l with w4; [apply step_look; [reflexivity|refine (bool_decide_unpack (_ ∉ _) _); vm_compute; exact I]|].
  apply rtc_l with w5; [by apply step_call|].
  apply rtc_l with w6; [apply step_look; [reflexivity|refine (bool_decide_unpack (_ ∉ _) _); vm_compute; exact I]|]. done.
Defined.
End HoldsWitness.

Lemma holds_exclusive_witness :
  World.tasks HoldsWitness.w6 !! 1%positive = Some (Holding 1%positive ["w/f@2"; "w/g@2"] 1%positive) ∧ ["w/f@2"; "w/g@2"] ## ["w/h@2"].
Proof.
  split; [reflexivity|].
  refine (proj1 (holds_exclusive HoldsWitness.w6 1%positive 2%positive 1%positive ["w/f@2"; "w/g@2"] ["w/h@2"] 1%positive 2%positive HoldsWitness.reached_w6 _ _ _));
    [discriminate|reflexivity..].
Defined.

Lemma waits_end_witness :
  ∃ w1 w2 p, rtc release_step HoldsWitness.w6 w1 ∧ step w1 w2 ∧ World.tasks w2 !! 3%positive = Some (Holding 1%positive ["w/f@2"] p).
Proof.
  refine (proj2 (waits_end HoldsWitness.w6 3%positive 1%positive ["w/f@2"] [1%positive] HoldsWitness.reached_w6 _)). reflexivity.
Defined.
