(* ===== verification/Tags.v ===== *)
(** * The tag registry two devices edit (packages/drive/src/tags.ts, client.ts)

    A workspace's tags and which items carry each are one sealed document. A
    save the server refuses as stale is merged with what another device saved
    and tried again ([mergeRegistries], [saveTags]). An object used as a map is
    a [gmap]; [V] is any JSON value this app keeps unread. Reading names
    ([parseRegistry], [checkTagName]) needs Unicode case and spaces and is not
    modelled: a registry read is an answer of the server. *)

From S2P Require Import Prelude Base64url Bytes Canonical Signatures.

Definition MAX_TAGS : Z := 200.
Definition MAX_TAGS_PER_NODE : Z := 16.
Definition TOO_MANY_ON_ITEM : string := "An item can carry at most 16 tags.".
Definition KEEPS_CHANGING : string := "The tag list keeps changing on another device. Try again.".

(** ** Data *)

(** A tag, with the fields a newer app added. *)
Module Tag.
Record t {V : Type} := { id : string; name : string; colour : string; rest : gmap string V }.
Arguments t : clear implicits.
#[global] Instance t_eq_dec `{!EqDecision V} : EqDecision (t V) := ltac:(solve_decision).
End Tag.
Module Kept.
Record t {V : Type} := { fields : gmap string V; items : gmap string V }.
Arguments t : clear implicits.
End Kept.
Module TagRegistry.
Record t {V : Type} := { tags : list (Tag.t V); items : gmap string (list string); kept : option (Kept.t V) }.
Arguments t : clear implicits.
End TagRegistry.

(** ** Colours *)

Definition TAG_PRESETS : list string := ["blue"; "ink"; "yellow"; "teal"; "coral"].
Definition FOLDER_COLOURS : list string :=
  ["#70adfb"; "#53c48e"; "#f28881"; "#aa9cf7"; "#00c3cb"; "#e488be"; "#8fbb5f"; "#e99355"].
(** [/^#[0-9a-f]{6}$/i]: whatever the case, for ASCII. *)
Definition is_hex (value : string) : bool :=
  match value with
  | String c digits => (c =? "#")%char && (slen digits =? 6) && string_forallb is_hex_char (toLowerCase digits)
  | EmptyString => false
  end.
Definition isTagColour (value : string) : bool := bool_decide (value ∈ TAG_PRESETS) || is_hex value.
Definition normaliseColour (value : string) : string := if is_hex value then toLowerCase value else value.

Section tags.
Context {V : Type} `{!EqDecision V}.
Local Abbreviation Tag := (Tag.t V).
Local Abbreviation TagRegistry := (TagRegistry.t V).
Local Abbreviation tags_of := (@TagRegistry.tags V).
Implicit Types (registry base ours theirs : TagRegistry).

Definition emptyRegistry : TagRegistry := TagRegistry.Build_t V [] ∅ None.
(** [registry.items[id] ?? []] *)
Definition items_at (id : string) registry : list string := default [] (TagRegistry.items registry !! id).
Definition nextColour registry : string :=
  FOLDER_COLOURS !!! (length (tags_of registry) `mod` length FOLDER_COLOURS)%nat.

Definition recolourTag registry (id colour : string) : result TagRegistry :=
  refuse "Pick a colour." unless isTagColour colour ;;
  let clean := normaliseColour colour in
  Ok (TagRegistry.Build_t V (map (λ tag, if Tag.id tag === id then Tag.Build_t V (Tag.id tag) (Tag.name tag) clean (Tag.rest tag) else tag)
    (tags_of registry)) (TagRegistry.items registry) (TagRegistry.kept registry)).
Definition removeTag registry (id : string) : TagRegistry :=
  TagRegistry.Build_t V (filter (λ tag, Tag.id tag ≠ id) (tags_of registry)) (delete id (TagRegistry.items registry))
    (TagRegistry.kept registry).
(** The ids of the tags a node carries, in the registry's order. *)
Definition tagsOf registry (nodeId : string) : list string :=
  map Tag.id (filter (λ tag, nodeId ∈ items_at (Tag.id tag) registry) (tags_of registry)).

(** The memberships of each tag of [tags], one after the other, empty ones left out. *)
Definition items_by (next : string → list string) (tags : list Tag) : gmap string (list string) :=
  foldl (λ items tag, match next (Tag.id tag) with [] => items | list => <[Tag.id tag := list]> items end) ∅ tags.

(** The node in exactly these tags and no other. *)
Definition assign registry (nodeId : string) (tagIds : list string) : result TagRegistry :=
  let wanted := first_seen [] (filter (λ id, id ∈ map Tag.id (tags_of registry)) tagIds) in
  refuse TOO_MANY_ON_ITEM when MAX_TAGS_PER_NODE <? Z.of_nat (length wanted) ;;
  let next id :=
    let current := items_at id registry in
    if bool_decide (id ∈ wanted) then if bool_decide (nodeId ∈ current) then current else current ++ [nodeId]
    else filter (λ other, other ≠ nodeId) current in
  Ok (TagRegistry.Build_t V (tags_of registry) (items_by next (tags_of registry)) (TagRegistry.kept registry)).

(** ** Merging another device's save *)

(** [new Map(tags.map((tag) => [tag.id, tag]))] *)
Definition by_id (tags : list Tag) : gmap string Tag := foldl (λ m tag, <[Tag.id tag := tag]> m) ∅ tags.
Definition changed_by_us (before : option Tag) (mine : Tag) : bool :=
  match before with
  | None => true
  | Some before => (Tag.name before !== Tag.name mine) || (Tag.colour before !== Tag.colour mine)
  end.
(** What the merged list has of one id. *)
Definition merge_tag (before mine other : option Tag) : option Tag :=
  match mine, other with
  | Some mine, Some other => Some (if changed_by_us before mine then mine else other)
  | Some mine, None => if changed_by_us before mine then Some mine else None
  | None, Some other => match before with None => Some other | Some _ => None end
  | None, None => None
  end.
Definition set_add (x : string) (s : list string) : list string := if bool_decide (x ∈ s) then s else s ++ [x].
Definition set_delete (x : string) (s : list string) : list string := filter (λ y, y ≠ x) s.
(** The nodes in one tag: theirs, with what we added and without what we removed. *)
Definition merge_items (was mine other : list string) : list string :=
  let merged := foldl (λ s x, if bool_decide (x ∈ was) then s else set_add x s) (first_seen [] other) (first_seen [] mine) in
  foldl (λ s x, if bool_decide (x ∈ mine) then s else set_delete x s) merged (first_seen [] was).

Definition merge_kept (theirs ours : option (Kept.t V)) : Kept.t V :=
  let fields k := match k with Some k => Kept.fields k | None => ∅ end in
  let items k := match k with Some k => Kept.items k | None => ∅ end in
  Kept.Build_t V (fields ours ∪ fields theirs) (items ours ∪ items theirs).

Definition mergeRegistries base ours theirs : TagRegistry :=
  let ids := first_seen [] (map Tag.id (tags_of ours) ++ map Tag.id (tags_of theirs)) in
  let tags := omap (λ id, merge_tag (by_id (tags_of base) !! id) (by_id (tags_of ours) !! id) (by_id (tags_of theirs) !! id)) ids in
  let tags := take (Z.to_nat MAX_TAGS) tags in
  TagRegistry.Build_t V tags (items_by (λ id, merge_items (items_at id base) (items_at id ours) (items_at id theirs)) tags)
    (Some (merge_kept (TagRegistry.kept theirs) (TagRegistry.kept ours))).

(** ** Saving *)

(** What a save tries: the document, the one it started from and its version. *)
Record Attempt := { value : TagRegistry; base_of : TagRegistry; version : Z }.
(** The server's answer to a put: stored; stale, with what reading the document
    again gave; or anything else thrown. *)
Inductive PutAnswer :=
  | Stored (version : Z)
  | Stale (theirs : result (TagRegistry * Z))
  | Refused (error : string).
(** The registry after a save, and every document sent with the version it was sent over. *)
Record Saved := { registry_ : TagRegistry; saved_version : Z; attempts : list Attempt }.

(** [saveTags]' loop, [tries] left. *)
Fixpoint save_tries (tries : nat) (answers : nat → PutAnswer) (index : nat) (sent : list Attempt) (attempt : Attempt) : result Saved :=
  match tries with
  | O => Err KEEPS_CHANGING
  | S tries =>
      match answers index with
      | Stored version => Ok {| registry_ := value attempt; saved_version := version; attempts := sent ++ [attempt] |}
      | Refused error => Err error
      | Stale theirs =>
          let* (theirs, version) := theirs in
          save_tries tries answers (S index) (sent ++ [attempt])
            {| value := mergeRegistries (base_of attempt) (value attempt) theirs; base_of := theirs; version := version |}
      end
  end.
Definition saveTags (answers : nat → PutAnswer) (base : TagRegistry) (version : Z) (next : TagRegistry) : result Saved :=
  save_tries 3 answers 0 [] {| value := next; base_of := base; version := version |}.

(** ** Lemmas *)

Definition ids_of registry : list string := map Tag.id (tags_of registry).
(** Tags by their ids, memberships only of tags there are, each a set that is not empty. *)
Record wf registry : Prop := {
  wf_ids : NoDup (ids_of registry);
  wf_items i l : TagRegistry.items registry !! i = Some l → i ∈ ids_of registry ∧ l ≠ [] ∧ NoDup l;
}.

Lemma ids_elem (tags : list Tag) i : i ∈ map Tag.id tags ↔ ∃ tag, tag ∈ tags ∧ Tag.id tag = i.
Proof. rewrite list_elem_of_fmap. naive_solver. Qed.
Lemma items_absent registry i : wf registry → i ∉ ids_of registry → items_at i registry = [].
Proof.
  intros Hw Hi. unfold items_at. destruct (TagRegistry.items registry !! i) as [l|] eqn:E; [|done]. by apply (wf_items _ Hw) in E as [? _].
Qed.

Lemma by_id_Some (tags : list Tag) i tag : by_id tags !! i = Some tag → tag ∈ tags ∧ Tag.id tag = i.
Proof.
  unfold by_id. assert (∀ m : gmap string Tag, foldl (λ m (tag : Tag), <[Tag.id tag := tag]> m) m tags !! i = Some tag →
    (tag ∈ tags ∧ Tag.id tag = i) ∨ m !! i = Some tag) as H.
  { induction tags as [|y tags IH]; intros m; cbn; [auto|]. intros [[? ?]|Hm]%IH; [left; split; [by right|done]|].
    apply lookup_insert_Some in Hm as [[<- <-]|[_ ?]]; [left; split; [by left|done]|auto]. }
  intros [?|Hm]%H; [done|]. by rewrite lookup_empty in Hm.
Qed.
Lemma by_id_None (tags : list Tag) i : by_id tags !! i = None ↔ i ∉ map Tag.id tags.
Proof.
  unfold by_id. assert (∀ m : gmap string Tag, foldl (λ m (tag : Tag), <[Tag.id tag := tag]> m) m tags !! i = None ↔ (i ∉ map Tag.id tags) ∧ m !! i = None) as H.
  { induction tags as [|y tags IH]; intros m; cbn; [split; [intros; split; [apply not_elem_of_nil|done]|by intros [_ ?]]|].
    rewrite IH, lookup_insert_None, not_elem_of_cons. naive_solver. }
  rewrite H, lookup_empty. naive_solver.
Qed.
Lemma by_id_elem registry tag : wf registry → by_id (tags_of registry) !! Tag.id tag = Some tag ↔ tag ∈ tags_of registry.
Proof.
  intros Hw. split; [by intros [? _]%by_id_Some|]. intros Hin.
  destruct (by_id (tags_of registry) !! Tag.id tag) as [other|] eqn:E.
  - apply by_id_Some in E as [Hother Hid]. f_equal. pose proof (wf_ids _ Hw) as Hnd. unfold ids_of in Hnd.
    apply list_elem_of_lookup in Hin as [a Ha]. apply list_elem_of_lookup in Hother as [b Hb].
    assert (a = b) as ->; [|congruence]. eapply (NoDup_lookup _ a b (Tag.id tag) Hnd); rewrite list_lookup_fmap; [by rewrite Ha|].
    rewrite Hb. cbn. by rewrite Hid.
  - apply by_id_None in E. exfalso. apply E, ids_elem. eauto.
Qed.

Lemma items_by_lookup next (tags : list Tag) i :
  items_by next tags !! i = if bool_decide (i ∈ map Tag.id tags) then match next i with [] => None | l => Some l end else None.
Proof.
  unfold items_by. assert (∀ m : gmap string (list string), (m !! i = None ∨ (next i ≠ [] ∧ m !! i = Some (next i))) →
    foldl (λ items (tag : Tag), match next (Tag.id tag) with [] => items | list => <[Tag.id tag := list]> items end) m tags !! i =
    if bool_decide (i ∈ map Tag.id tags) then match next i with [] => None | l => Some l end else m !! i) as H.
  { induction tags as [|y tags IH]; intros m Hm; cbn.
    - rewrite bool_decide_eq_false_2; [done|apply not_elem_of_nil].
    - rewrite IH. 2: { destruct (next (Tag.id y)) as [|a l] eqn:E; [done|]. destruct (decide (Tag.id y = i)) as [<-|Hne].
        - right. rewrite lookup_insert_eq, E. done.
        - by rewrite lookup_insert_ne. }
      destruct (decide (i ∈ map Tag.id tags)) as [Hi|Hi].
      + rewrite !bool_decide_eq_true_2; [done| |done]. by right.
      + rewrite (bool_decide_eq_false_2 (i ∈ map _ tags)) by done. destruct (decide (Tag.id y = i)) as [<-|Hne].
        * rewrite bool_decide_eq_true_2 by left. destruct (next (Tag.id y)) as [|a l] eqn:E; [by destruct Hm as [?|[]]|].
          by rewrite lookup_insert_eq.
        * rewrite bool_decide_eq_false_2 by (rewrite not_elem_of_cons; auto).
          destruct (next (Tag.id y)); [done|]. by rewrite lookup_insert_ne. }
  rewrite H; [by rewrite lookup_empty|by left].
Qed.

Lemma set_add_elem x y s : x ∈ set_add y s ↔ x = y ∨ x ∈ s.
Proof. unfold set_add. case_bool_decide; [naive_solver|]. rewrite elem_of_app, list_elem_of_singleton. naive_solver. Qed.
Lemma set_add_NoDup y s : NoDup s → NoDup (set_add y s).
Proof.
  intros Hs. unfold set_add. case_bool_decide; [done|]. apply NoDup_app. split_and!; [done| |apply NoDup_singleton].
  intros x Hx ->%list_elem_of_singleton. done.
Qed.
Lemma set_delete_elem x y s : x ∈ set_delete y s ↔ x ∈ s ∧ x ≠ y.
Proof. unfold set_delete. rewrite list_elem_of_filter. naive_solver. Qed.

Lemma merge_items_elem was mine other x :
  x ∈ merge_items was mine other ↔ (x ∈ other ∧ ¬ (x ∈ was ∧ x ∉ mine)) ∨ (x ∈ mine ∧ x ∉ was).
Proof.
  unfold merge_items. assert (∀ l s, x ∈ foldl (λ s x, if bool_decide (x ∈ was) then s else set_add x s) s l ↔
    x ∈ s ∨ (x ∈ l ∧ x ∉ was)) as Hadd.
  { induction l as [|y l IH]; intros s; cbn; [rewrite elem_of_nil; naive_solver|]. rewrite IH, elem_of_cons.
    case_bool_decide; [naive_solver|]. rewrite set_add_elem. naive_solver. }
  assert (∀ l s, x ∈ foldl (λ s x, if bool_decide (x ∈ mine) then s else set_delete x s) s l ↔
    x ∈ s ∧ ¬ (x ∈ l ∧ x ∉ mine)) as Hdel.
  { induction l as [|y l IH]; intros s; cbn; [rewrite elem_of_nil; naive_solver|]. rewrite IH, elem_of_cons.
    case_bool_decide; [naive_solver|]. rewrite set_delete_elem. naive_solver. }
  rewrite Hdel, Hadd, !first_seen_elem. pose proof (not_elem_of_nil x). naive_solver.
Qed.
Lemma merge_items_NoDup was mine other : NoDup (merge_items was mine other).
Proof.
  unfold merge_items. assert (∀ l s, NoDup s → NoDup (foldl (λ s x, if bool_decide (x ∈ was) then s else set_add x s) s l)) as Hadd.
  { induction l as [|y l IH]; intros s Hs; cbn; [done|]. apply IH. case_bool_decide; [done|by apply set_add_NoDup]. }
  assert (∀ l s, NoDup s → NoDup (foldl (λ s x, if bool_decide (x ∈ mine) then s else set_delete x s) s l)) as Hdel.
  { induction l as [|y l IH]; intros s Hs; cbn; [done|]. apply IH. case_bool_decide; [done|by apply NoDup_filter]. }
  apply Hdel, Hadd, first_seen_NoDup.
Qed.

(** *** The merged list *)

Lemma merge_tag_id before mine other i tag : (∀ t : Tag, mine = Some t → Tag.id t = i) → (∀ t : Tag, other = Some t → Tag.id t = i) →
  merge_tag before mine other = Some tag → Tag.id tag = i.
Proof. intros Hm Ho. destruct mine, other; cbn; repeat case_match; naive_solver. Qed.

Section merged.
Variables base ours theirs : TagRegistry.
Let at_ (i : string) : option Tag :=
  merge_tag (by_id (tags_of base) !! i) (by_id (tags_of ours) !! i) (by_id (tags_of theirs) !! i).
Let ids : list string := first_seen [] (ids_of ours ++ ids_of theirs).
Let all : list Tag := omap at_ ids.

Lemma at_id i tag : at_ i = Some tag → Tag.id tag = i.
Proof. apply merge_tag_id; intros t Ht; by apply by_id_Some in Ht as [_ ?]. Qed.
Lemma at_in i tag : at_ i = Some tag → i ∈ ids.
Proof.
  intros H. unfold ids. apply first_seen_elem. split; [|apply not_elem_of_nil]. apply elem_of_app.
  destruct (decide (i ∈ ids_of ours)) as [|Ho]; [by left|]. right. apply by_id_None in Ho. unfold at_ in H. rewrite Ho in H. cbn in H.
  destruct (by_id (tags_of theirs) !! i) as [t|] eqn:E; [|done]. apply by_id_Some in E. apply ids_elem. eauto.
Qed.
Lemma all_elem tag : tag ∈ all ↔ at_ (Tag.id tag) = Some tag.
Proof.
  unfold all. rewrite list_elem_of_omap. split.
  - intros (i & _ & H). by rewrite (at_id _ _ H).
  - intros H. eauto using at_in.
Qed.
Lemma all_ids : NoDup (map Tag.id all).
Proof.
  unfold all. pose proof (first_seen_NoDup [] (ids_of ours ++ ids_of theirs)) as Hnd. fold ids in Hnd.
  induction Hnd as [|i l Hi Hl IH]; cbn; [constructor|]. destruct (at_ i) as [tag|] eqn:E; cbn; [|done].
  constructor; [|done]. rewrite (at_id _ _ E), ids_elem. intros (t & (j & Hj & Ht)%list_elem_of_omap & Hid).
  apply at_id in Ht. congruence.
Qed.

Let merged := mergeRegistries base ours theirs.
Lemma merged_tags : tags_of merged = take (Z.to_nat MAX_TAGS) all.
Proof. done. Qed.
Lemma merged_elem tag : tag ∈ tags_of merged → at_ (Tag.id tag) = Some tag.
Proof. rewrite merged_tags, <- all_elem. intros H. rewrite <- (take_drop (Z.to_nat MAX_TAGS) all). apply elem_of_app. by left. Qed.
Lemma merged_all i tag : at_ i = Some tag → tag ∈ tags_of merged ∨ Z.of_nat (length (tags_of merged)) = MAX_TAGS.
Proof.
  intros H. pose proof (at_id _ _ H) as Hid. rewrite <- Hid in H. apply all_elem in H. rewrite merged_tags.
  destruct (decide (length all ≤ Z.to_nat MAX_TAGS)%nat) as [Hle|Hgt].
  - left. by rewrite take_ge.
  - right. rewrite length_take. unfold MAX_TAGS in *. lia.
Qed.
Lemma merged_ids_NoDup : NoDup (ids_of merged).
Proof.
  unfold ids_of. rewrite merged_tags. pose proof all_ids as H. rewrite <- (take_drop (Z.to_nat MAX_TAGS) all), map_app in H.
  by apply NoDup_app in H as [? _].
Qed.
Lemma merged_items i : items_at i merged =
  if bool_decide (i ∈ ids_of merged) then merge_items (items_at i base) (items_at i ours) (items_at i theirs) else [].
Proof.
  unfold items_at at 1. unfold merged, mergeRegistries. cbv zeta. cbn [TagRegistry.items]. rewrite items_by_lookup.
  unfold ids_of. cbn [TagRegistry.tags]. case_bool_decide; [|done]. by destruct (merge_items _ _ _).
Qed.
Lemma merged_wf : wf merged.
Proof.
  split; [apply merged_ids_NoDup|]. intros i l. unfold merged, mergeRegistries. cbv zeta. cbn [TagRegistry.items].
  rewrite items_by_lookup. unfold ids_of. cbn [TagRegistry.tags]. case_bool_decide as Hi; [|done].
  destruct (merge_items _ _ _) as [|x l'] eqn:E; [done|]. intros [= <-]. split_and!; [done|done|]. rewrite <- E. apply merge_items_NoDup.
Qed.
End merged.

Lemma by_id_is_Some registry i : is_Some (by_id (tags_of registry) !! i) ↔ i ∈ ids_of registry.
Proof. rewrite <- not_eq_None_Some, by_id_None. destruct (decide (i ∈ ids_of registry)); naive_solver. Qed.
Lemma merged_lookup base ours theirs i tag : by_id (tags_of (mergeRegistries base ours theirs)) !! i = Some tag →
  merge_tag (by_id (tags_of base) !! i) (by_id (tags_of ours) !! i) (by_id (tags_of theirs) !! i) = Some tag.
Proof. intros [Hin <-]%by_id_Some. by apply merged_elem. Qed.
Lemma merged_lookup_or_full base ours theirs i tag :
  merge_tag (by_id (tags_of base) !! i) (by_id (tags_of ours) !! i) (by_id (tags_of theirs) !! i) = Some tag →
  by_id (tags_of (mergeRegistries base ours theirs)) !! i = Some tag ∨
  Z.of_nat (length (tags_of (mergeRegistries base ours theirs))) = MAX_TAGS.
Proof.
  intros H. destruct (merged_all _ _ _ _ _ H) as [Hin|?]; [left|by right]. rewrite <- (at_id _ _ _ _ _ H).
  apply by_id_elem; [apply merged_wf|done].
Qed.

(** ** What a merge and a save keep *)

Definition label (tag : Tag) : string * string := (Tag.name tag, Tag.colour tag).
Lemma changed_by_us_label before mine : changed_by_us (Some before) mine = true ↔ label before ≠ label mine.
Proof.
  unfold changed_by_us, label. rewrite orb_true_iff, !negb_true_iff, !bool_decide_eq_false. split.
  - by intros [H|H] [= E1 E2].
  - intros H. destruct (decide (Tag.name before = Tag.name mine)); [right|by left]. congruence.
Qed.

(** [n] is what we made of tag [i] since [base]: new, renamed or recoloured. *)
Definition edited base next (i : string) (n : Tag) : Prop :=
  by_id (tags_of next) !! i = Some n ∧ ∀ b, by_id (tags_of base) !! i = Some b → label b ≠ label n.

(** [saved] over [prev] is only what we changed between [base] and [next]: a
    tag is whole as [prev] has it, or whole as [next] has it where we changed
    it; a tag we did not remove goes only where the list is [full]. *)
Record only_ours base next prev saved (full : Prop) : Prop := {
  oo_added i x : x ∈ items_at i saved → x ∉ items_at i prev → x ∈ items_at i next ∧ (x ∉ items_at i base);
  oo_removed i x : i ∈ ids_of saved → x ∈ items_at i prev → x ∉ items_at i saved → x ∈ items_at i base ∧ (x ∉ items_at i next);
  oo_tag i s : by_id (tags_of saved) !! i = Some s →
    by_id (tags_of prev) !! i = Some s ∨ (by_id (tags_of next) !! i = Some s ∧ by_id (tags_of base) !! i ≠ Some s);
  oo_gone i : i ∈ ids_of prev → i ∉ ids_of saved → (i ∈ ids_of base ∧ (i ∉ ids_of next)) ∨ full;
}.
(** What we changed between [base] and [next] is in [saved] and was not in
    [prev], or another device had done it, or had removed the tag, in one of
    the registries read since ([reads]). *)
Record ours_done base next (reads : list TagRegistry) prev saved (full : Prop) : Prop := {
  od_tag i n : edited base next i n →
    (by_id (tags_of saved) !! i = Some n ∧ ∀ p, by_id (tags_of prev) !! i = Some p → label p ≠ label n) ∨
    (∃ r t, r ∈ reads ∧ by_id (tags_of r) !! i = Some t ∧ label t = label n) ∨ full;
  od_gone i : i ∈ ids_of base → i ∉ ids_of next →
    (i ∈ ids_of prev ∧ i ∉ ids_of saved) ∨ ∃ r, r ∈ reads ∧ i ∉ ids_of r;
  od_added i x : x ∈ items_at i next → x ∉ items_at i base →
    (x ∈ items_at i saved ∧ x ∉ items_at i prev) ∨
    (∃ r, r ∈ reads ∧ (x ∈ items_at i r ∨ (i ∉ ids_of r ∧ ∃ b, b ∈ base :: reads ∧ i ∈ ids_of b))) ∨ full;
  od_removed i x : x ∈ items_at i base → x ∉ items_at i next →
    (x ∈ items_at i prev ∧ x ∉ items_at i saved) ∨ ∃ r, r ∈ reads ∧ x ∉ items_at i r;
}.

Lemma only_ours_start base next full : only_ours base next base next full.
Proof.
  split; [done|done| |by left]. intros i s Hs. destruct (by_id (tags_of base) !! i) as [b|] eqn:Eb; [|by right].
  destruct (decide (b = s)) as [->|Hne]; [by left|]. right. split; [done|congruence].
Qed.
Lemma ours_done_start base next full : ours_done base next [] base next full.
Proof. split; [intros i n []|..]; by left. Qed.
(** Merging with what another device saved keeps that. *)
Lemma only_ours_merge base next prev saved theirs (full full' : Prop) : wf prev → wf saved → (full → full') →
  (Z.of_nat (length (tags_of (mergeRegistries prev saved theirs))) = MAX_TAGS → full') →
  only_ours base next prev saved full → only_ours base next theirs (mergeRegistries prev saved theirs) full'.
Proof.
  intros Hp Hs Hf Hm Hoo. pose proof (merged_items prev saved theirs) as Hitems. split.
  - intros i x. rewrite Hitems. case_bool_decide; [|by intros ?%not_elem_of_nil]. rewrite merge_items_elem. intros Hx Hx'.
    apply (oo_added _ _ _ _ _ Hoo); naive_solver.
  - intros i x Hi Hx. rewrite Hitems, bool_decide_eq_true_2, merge_items_elem by done. intros Hx'.
    destruct (decide (x ∈ items_at i prev)) as [Hxp|]; [|naive_solver]. destruct (decide (x ∈ items_at i saved)) as [|Hxs]; [naive_solver|].
    apply (oo_removed _ _ _ _ _ Hoo); [|done..]. apply by_id_is_Some in Hi as [m Hi%merged_lookup].
    apply by_id_is_Some. destruct (by_id (tags_of saved) !! i) eqn:Es; [by eexists|]. cbn in Hi.
    destruct (by_id (tags_of prev) !! i) eqn:Epr; [by destruct (by_id (tags_of theirs) !! i)|]. exfalso.
    apply by_id_None in Epr. rewrite (items_absent _ _ Hp Epr) in Hxp. by apply not_elem_of_nil in Hxp.
  - intros i m Hi%merged_lookup. destruct (by_id (tags_of saved) !! i) as [mine|] eqn:Es.
    + assert (changed_by_us (by_id (tags_of prev) !! i) mine = true →
        by_id (tags_of next) !! i = Some mine ∧ by_id (tags_of base) !! i ≠ Some mine) as Hch.
      { intros Hc. destruct (oo_tag _ _ _ _ _ Hoo i mine Es) as [Epr|]; [|done]. rewrite Epr in Hc.
        by apply changed_by_us_label in Hc. }
      cbn in Hi. destruct (by_id (tags_of theirs) !! i) as [other|]; destruct (changed_by_us _ _); naive_solver.
    + cbn in Hi. destruct (by_id (tags_of theirs) !! i) as [other|]; [|done]. destruct (by_id (tags_of prev) !! i); naive_solver.
  - intros i Hi Hn. apply by_id_is_Some in Hi as [other Eo].
    destruct (merge_tag (by_id (tags_of prev) !! i) (by_id (tags_of saved) !! i) (by_id (tags_of theirs) !! i)) as [m|] eqn:Em.
    + apply merged_lookup_or_full in Em as [Em|?]; [|by right; auto]. exfalso. apply Hn, by_id_is_Some. by eexists.
    + rewrite Eo in Em. destruct (by_id (tags_of saved) !! i) as [mine|] eqn:Es; cbn in Em; [done|].
      destruct (by_id (tags_of prev) !! i) as [b|] eqn:Epr; [|done].
      destruct (oo_gone _ _ _ _ _ Hoo i) as [?|?]; [apply by_id_is_Some; by eexists|by apply by_id_None|by left|by right; auto].
Qed.
Lemma kept_tag prev saved theirs i n (full : Prop) :
  (Z.of_nat (length (tags_of (mergeRegistries prev saved theirs))) = MAX_TAGS → full) →
  by_id (tags_of saved) !! i = Some n →
  (∀ p, by_id (tags_of prev) !! i = Some p → label p ≠ label n) ∨ is_Some (by_id (tags_of theirs) !! i) →
  (∃ m, by_id (tags_of (mergeRegistries prev saved theirs)) !! i = Some m ∧
     ((∀ p, by_id (tags_of prev) !! i = Some p → label p ≠ label n) → m = n)) ∨ full.
Proof.
  intros Hm Hs Hor. destruct (merge_tag (by_id (tags_of prev) !! i) (by_id (tags_of saved) !! i) (by_id (tags_of theirs) !! i)) as [m|] eqn:E.
  - pose proof E as E'. apply merged_lookup_or_full in E' as [E'|?]; [left; exists m; split; [exact E'|]|by right; auto]. intros Hl.
    assert (changed_by_us (by_id (tags_of prev) !! i) n = true) as Hc.
    { destruct (by_id (tags_of prev) !! i) as [p|] eqn:Ep; [|done]. by apply changed_by_us_label, Hl. }
    rewrite Hs in E. cbn in E. rewrite Hc in E. destruct (by_id (tags_of theirs) !! i); congruence.
  - exfalso. rewrite Hs in E. cbn in E. destruct (by_id (tags_of theirs) !! i) as [t|] eqn:Et; [done|].
    destruct Hor as [Hl|[? ?]]; [|done]. destruct (by_id (tags_of prev) !! i) as [p|] eqn:Ep; [|done].
    assert (changed_by_us (Some p) n = true) as Hc by (apply changed_by_us_label; auto). by rewrite Hc in E.
Qed.

Lemma ours_done_merge base next reads prev saved theirs (full full' : Prop) : wf saved → prev ∈ base :: reads → (full → full') →
  (Z.of_nat (length (tags_of (mergeRegistries prev saved theirs))) = MAX_TAGS → full') →
  ours_done base next reads prev saved full →
  ours_done base next (reads ++ [theirs]) theirs (mergeRegistries prev saved theirs) full'.
Proof.
  intros Hs Hprev Hf Hm Hod. pose proof (merged_items prev saved theirs) as Hitems.
  assert (∀ r, r ∈ reads → r ∈ reads ++ [theirs]) as Hin by (intros; apply elem_of_app; by left).
  assert (theirs ∈ reads ++ [theirs]) as Hlast by (apply elem_of_app; right; by apply list_elem_of_singleton). split.
  - intros i n Hn. destruct (od_tag _ _ _ _ _ _ Hod i n Hn) as [[Hsaved Hl]|[(r & t & Hr & Ht & El)|?]].
    2: { right; left. exists r, t. auto. } 2: { right; right. auto. }
    destruct (kept_tag prev saved theirs i n full' Hm Hsaved (or_introl Hl)) as [(m & Hmerged & E)|?]; [|by right; right].
    rewrite (E Hl) in Hmerged. destruct (by_id (tags_of theirs) !! i) as [t|] eqn:Et; [|left; by split].
    destruct (decide (label t = label n)) as [El|Hne]; [right; left; eauto|]. left. split; [done|]. by intros p [= <-].
  - intros i Hb Hn. destruct (od_gone _ _ _ _ _ _ Hod i Hb Hn) as [[Hip Hi]|(r & Hr & ?)]; [|right; exists r; auto].
    destruct (decide (i ∈ ids_of theirs)) as [Hit|]; [left; split; [done|]|right; eauto].
    apply by_id_is_Some in Hip as [p Hp]. apply by_id_None in Hi. intros [m Hmm%merged_lookup]%by_id_is_Some.
    rewrite Hi, Hp in Hmm. cbn in Hmm. by destruct (by_id (tags_of theirs) !! i).
  - intros i x Hx Hxb. destruct (od_added _ _ _ _ _ _ Hod i x Hx Hxb) as [[Hxs Hxp]|[(r & Hr & Hor)|?]].
    3: { right; right. auto. }
    2: { right; left. exists r. split; [auto|]. destruct Hor as [?|(? & b & Hb & ?)]; [by left|right; split; [done|]].
      exists b. split; [|done]. rewrite elem_of_cons in *. naive_solver. }
    destruct (decide (x ∈ items_at i theirs)) as [|Hxt]; [right; left; eauto|].
    destruct (by_id (tags_of saved) !! i) as [n|] eqn:En.
    2: { apply by_id_None in En. rewrite (items_absent _ _ Hs En) in Hxs. by apply not_elem_of_nil in Hxs. }
    assert (is_Some (by_id (tags_of theirs) !! i) ∨ by_id (tags_of prev) !! i = None ∨
      (i ∉ ids_of theirs ∧ i ∈ ids_of prev)) as Hcase.
    { destruct (by_id (tags_of theirs) !! i) eqn:Et; [left; by eexists|right]. apply by_id_None in Et.
      destruct (by_id (tags_of prev) !! i) eqn:Ep; [right; split; [done|apply by_id_is_Some; by eexists]|by left]. }
    destruct Hcase as [Ht|[Hp|[Hit Hip]]].
    3: { right; left. exists theirs. split; [done|]. right. split; [done|]. exists prev. split; [|done].
      rewrite elem_of_cons in *. naive_solver. }
    all: destruct (kept_tag prev saved theirs i n full' Hm En) as [(m & Hmerged & _)|?]; [|left|by right; right].
    1: by right. 2: { left. intros p. congruence. }
    all: split; [|done]; rewrite Hitems, bool_decide_eq_true_2, merge_items_elem by (apply by_id_is_Some; by eexists); by right.
  - intros i x Hx Hn. destruct (od_removed _ _ _ _ _ _ Hod i x Hx Hn) as [[Hxp Hxs]|(r & ? & ?)]; [|right; exists r; auto].
    destruct (decide (x ∈ items_at i theirs)) as [|]; [left; split; [done|]|right; eauto].
    rewrite Hitems. case_bool_decide; [|apply not_elem_of_nil]. rewrite merge_items_elem. tauto.
Qed.

(** A save's attempts: each over the version it read its base at. *)
Definition read_at (answers : nat → PutAnswer) base (version_ : Z) (k : nat) (a : Attempt) : Prop :=
  match k with
  | O => base_of a = base ∧ version a = version_
  | S k => answers k = Stale (Ok (base_of a, version a))
  end.
(** The registries read during a save, and whether a list it sent was full. *)
Definition reads_of (sent : list Attempt) : list TagRegistry := base_of <$> tail sent.
Definition full_at (sent : list Attempt) : Prop := ∃ a, a ∈ sent ∧ Z.of_nat (length (tags_of (value a))) = MAX_TAGS.
(** What this app keeps unread: the document's other fields, and the
    memberships of tags it could not read. *)
Definition unread_fields registry : gmap string V := match TagRegistry.kept registry with Some k => Kept.fields k | None => ∅ end.
Definition unread_items registry : gmap string V := match TagRegistry.kept registry with Some k => Kept.items k | None => ∅ end.

(** The last of the attempts [sent]: over what its base was, only what we
    changed and all of it; unread values are ours where we have one, else
    those of the first registry read that has one. *)
Record tried base next (sent : list Attempt) (a : Attempt) : Prop := {
  tr_base : base_of a ∈ base :: reads_of sent;
  tr_wf : wf (base_of a) ∧ wf (value a);
  tr_ours : only_ours base next (base_of a) (value a) (full_at sent);
  tr_done : ours_done base next (reads_of sent) (base_of a) (value a) (full_at sent);
  tr_fields : unread_fields (value a) = foldl (∪) (unread_fields next) (unread_fields <$> reads_of sent);
  tr_items : unread_items (value a) = foldl (∪) (unread_items next) (unread_items <$> reads_of sent);
}.

Lemma tail_snoc {A} (l : list A) x y : tail ((l ++ [x]) ++ [y]) = tail (l ++ [x]) ++ [y].
Proof. by destruct l. Qed.
Lemma tried_again base next sent attempt theirs v : wf theirs → tried base next (sent ++ [attempt]) attempt →
  let a := {| value := mergeRegistries (base_of attempt) (value attempt) theirs; base_of := theirs; version := v |} in
  tried base next ((sent ++ [attempt]) ++ [a]) a.
Proof.
  intros Ht [Hb [Hwb Hwv] Ho Hd Hf Hi] a.
  assert (reads_of ((sent ++ [attempt]) ++ [a]) = reads_of (sent ++ [attempt]) ++ [theirs]) as Hreads.
  { unfold reads_of. by rewrite tail_snoc, fmap_app. }
  assert (full_at (sent ++ [attempt]) → full_at ((sent ++ [attempt]) ++ [a])) as Hfull.
  { intros (x & ? & ?). exists x. split; [apply elem_of_app; by left|done]. }
  assert (Z.of_nat (length (tags_of (value a))) = MAX_TAGS → full_at ((sent ++ [attempt]) ++ [a])) as Hfull'.
  { intros ?. exists a. split; [apply elem_of_app; right; by apply list_elem_of_singleton|done]. }
  split; rewrite ?Hreads, ?fmap_app, ?foldl_app.
  - right. apply elem_of_app. right. by apply list_elem_of_singleton.
  - split; [done|apply merged_wf].
  - exact (only_ours_merge _ _ _ _ _ _ _ Hwb Hwv Hfull Hfull' Ho).
  - exact (ours_done_merge _ _ _ _ _ _ _ _ Hwv Hb Hfull Hfull' Hd).
  - cbn [foldl fmap list_fmap]. rewrite <- Hf. done.
  - cbn [foldl fmap list_fmap]. rewrite <- Hi. done.
Qed.

Lemma save_tries_keeps answers base version_ next tries : (∀ k t v, answers k = Stale (Ok (t, v)) → wf t) →
  ∀ index sent attempt saved,
  save_tries tries answers index sent attempt = Ok saved → length sent = index →
  (∀ k a, (sent ++ [attempt]) !! k = Some a → read_at answers base version_ k a) →
  tried base next (sent ++ [attempt]) attempt →
  ∃ a, last (attempts saved) = Some a ∧ value a = registry_ saved ∧
    (length (attempts saved) ≤ index + tries)%nat ∧
    (∀ k a, attempts saved !! k = Some a → read_at answers base version_ k a) ∧
    tried base next (attempts saved) a.
Proof.
  intros Hans. induction tries as [|tries IH]; intros index sent attempt saved H Hlen Hread Ht; [done|].
  cbn in H. destruct (answers index) as [v|[[theirs v]|]|e] eqn:Ea; [..|done].
  - injection H as <-. cbn. exists attempt. rewrite last_snoc, length_app. cbn. split_and!; try done. lia.
  - cbn in H. destruct (IH (S index) (sent ++ [attempt]) _ _ H) as (a & ? & ? & ? & ? & ?).
    + rewrite length_app. cbn. lia.
    + intros k a Hk. apply lookup_app_Some in Hk as [Hk|[Hge Hk]]; [by apply Hread|].
      rewrite length_app in Hge, Hk. cbn in Hge, Hk. apply list_lookup_singleton_Some in Hk as [Hk <-].
      assert (k = S index) as -> by lia. exact Ea.
    + apply tried_again; [exact (Hans _ _ _ Ea)|done].
    + exists a. split_and!; [done..|lia|done|done].
  - done.
Qed.

Definition wf_b registry : bool :=
  bool_decide (NoDup (ids_of registry)) &&
  bool_decide (map_Forall (λ i l, i ∈ ids_of registry ∧ l ≠ [] ∧ NoDup l) (TagRegistry.items registry)).
Lemma wf_of_b registry : wf_b registry = true → wf registry.
Proof. intros [H1%bool_decide_eq_true_1 H2%bool_decide_eq_true_1]%andb_true_iff. split; [done|]. intros i l Hl. by apply (H2 i l). Qed.

(** C33. What a save of the tag list does to what the server held, whatever the
    server answered on the way (each stale answer is read and merged, three
    tries at most, each over the version its base was read at). Over the
    registry it replaced, the one stored differs only by what this device
    changed since it started: a node enters or leaves a tag only if this device
    put it in or took it out; every tag is whole as the server had it, fields a
    newer app added included, or whole as this device has it where this device
    changed it since it started - so a tag renamed here undoes another device's
    new colour for it; and a tag leaves only if this device removed it or a
    list sent had reached the cap. Everything this device renamed, recoloured,
    added or removed is done by this save, unless another device had done the
    same or had removed the tag, or the cap was reached. The values this app
    keeps unread are this device's first, then those of each registry read. *)
Theorem saveTags_only_ours answers base version_ next saved (Hb : wf base) (Hn : wf next)
    (Ht : ∀ k t v, answers k = Stale (Ok (t, v)) → wf t) (Hs : saveTags answers base version_ next = Ok saved) :
  ∃ a, last (attempts saved) = Some a ∧ value a = registry_ saved ∧ (length (attempts saved) ≤ 3)%nat ∧
    (∀ k a, attempts saved !! k = Some a → read_at answers base version_ k a) ∧
    tried base next (attempts saved) a.
Proof.
  refine (save_tries_keeps answers base version_ next 3 Ht 0 [] _ saved Hs eq_refl _ _).
  - intros k a. cbn. by intros [-> <-]%list_lookup_singleton_Some.
  - split; [by left|done|apply only_ours_start|apply ours_done_start|done|done].
Qed.

(** Two registries with the same tags, by name and colour, and the same items in each. *)
Definition same_tags r s : Prop :=
  (∀ i, option_map label (by_id (tags_of r) !! i) = option_map label (by_id (tags_of s) !! i)) ∧
  ∀ i x, x ∈ items_at i r ↔ x ∈ items_at i s.

Lemma merged_short base ours theirs : Z.of_nat (length (tags_of (mergeRegistries base ours theirs))) ≠ MAX_TAGS → ∀ i,
  by_id (tags_of (mergeRegistries base ours theirs)) !! i =
  merge_tag (by_id (tags_of base) !! i) (by_id (tags_of ours) !! i) (by_id (tags_of theirs) !! i).
Proof.
  intros Hlen i. destruct (merge_tag (by_id (tags_of base) !! i) (by_id (tags_of ours) !! i) (by_id (tags_of theirs) !! i)) as [tag|] eqn:E.
  - apply merged_lookup_or_full in E as [E|E]; [exact E|by apply Hlen in E].
  - destruct (by_id (tags_of (mergeRegistries base ours theirs)) !! i) as [tag|] eqn:Et; [|done]. apply merged_lookup in Et. congruence.
Qed.

Lemma merge_tag_ours b o : option_map label (merge_tag b o b) = option_map label o.
Proof.
  destruct b as [b|], o as [o|]; [|done..]. cbn.
  destruct (decide (label b = label o)) as [E|E].
  - assert (changed_by_us (Some b) o = false) as Hc by (apply not_true_iff_false; rewrite changed_by_us_label; intros H; by apply H).
    unfold changed_by_us in Hc. rewrite Hc. cbn. by rewrite E.
  - apply changed_by_us_label in E. unfold changed_by_us in E. by rewrite E.
Qed.
Lemma merge_tag_theirs b t : merge_tag b b t = t.
Proof.
  destruct b as [b|]; [|by destruct t]. cbn. rewrite !bool_decide_eq_true_2 by done. by destruct t.
Qed.

(** Where only one side changed the tags, the merge is that side's: our
    registry if the other device saved what we started from, and theirs if we
    changed nothing (up to the cap). *)
Theorem merge_one_sided base other (Hb : wf base) (Ho : wf other)
    (Hl : Z.of_nat (length (tags_of (mergeRegistries base other base))) ≠ MAX_TAGS)
    (Hr : Z.of_nat (length (tags_of (mergeRegistries base base other))) ≠ MAX_TAGS) :
  same_tags (mergeRegistries base other base) other ∧ same_tags (mergeRegistries base base other) other.
Proof.
  assert (∀ i, option_map label (by_id (tags_of (mergeRegistries base other base)) !! i) = option_map label (by_id (tags_of other) !! i)) as H1.
  { intros i. by rewrite merged_short, merge_tag_ours. }
  assert (∀ i, option_map label (by_id (tags_of (mergeRegistries base base other)) !! i) = option_map label (by_id (tags_of other) !! i)) as H2.
  { intros i. by rewrite merged_short, merge_tag_theirs. }
  assert (∀ r i, option_map label (by_id (tags_of r) !! i) = option_map label (by_id (tags_of other) !! i) →
    i ∉ ids_of r → items_at i other = []) as Hnone.
  { intros r i E Hi. apply by_id_None in Hi. rewrite Hi in E. apply items_absent; [done|]. apply by_id_None.
    by destruct (by_id (tags_of other) !! i). }
  split; (split; [done|]); intros i x; rewrite merged_items; case_bool_decide as Hi.
  - rewrite merge_items_elem. destruct (decide (x ∈ items_at i base)), (decide (x ∈ items_at i other)); tauto.
  - by rewrite (Hnone _ _ (H1 i) Hi).
  - rewrite merge_items_elem. destruct (decide (x ∈ items_at i base)), (decide (x ∈ items_at i other)); tauto.
  - by rewrite (Hnone _ _ (H2 i) Hi).
Qed.

(** A tag we removed stays removed, though another device renamed it since. *)
Lemma merge_removal_sticks base ours theirs i : i ∈ ids_of base → i ∉ ids_of ours →
  i ∉ ids_of (mergeRegistries base ours theirs).
Proof.
  intros [b Hb]%by_id_is_Some Ho%by_id_None Hm. apply by_id_is_Some in Hm as [m Hm%merged_lookup]. rewrite Hb, Ho in Hm. cbn in Hm.
  by destruct (by_id (tags_of theirs) !! i).
Qed.

(** [assign] puts the node in exactly the known tags asked for and moves no other. *)
Lemma assign_exact registry nodeId tagIds out : wf registry → assign registry nodeId tagIds = Ok out →
  wf out ∧ tags_of out = tags_of registry ∧
  (∀ i, nodeId ∈ items_at i out ↔ i ∈ ids_of registry ∧ i ∈ tagIds) ∧
  ∀ i x, x ≠ nodeId → x ∈ items_at i out ↔ x ∈ items_at i registry.
Proof.
  unfold assign. intros Hw H. destruct (_ <? _); [done|]. injection H as <-.
  set (wanted := first_seen _ _). assert (∀ i, i ∈ wanted ↔ i ∈ ids_of registry ∧ i ∈ tagIds) as Hwant.
  { intros i. unfold wanted. rewrite first_seen_elem, list_elem_of_filter. pose proof (not_elem_of_nil i). naive_solver. }
  set (next := λ id : string, _). assert (∀ i, items_at i (TagRegistry.Build_t V (tags_of registry) (items_by next (tags_of registry))
    (TagRegistry.kept registry)) = if bool_decide (i ∈ ids_of registry) then next i else []) as Hitems.
  { intros i. unfold items_at. cbn [TagRegistry.items]. rewrite items_by_lookup. fold (ids_of registry). case_bool_decide; [|done]. by destruct (next i). }
  split_and!; [split|done|..].
  - exact (wf_ids _ Hw).
  - intros i l. cbn [TagRegistry.items]. rewrite items_by_lookup. fold (ids_of registry). case_bool_decide as Hi; [|done].
    destruct (next i) as [|y l'] eqn:E; [done|]. intros [= <-]. split_and!; [done|done|]. rewrite <- E. unfold next.
    assert (NoDup (items_at i registry)) as Hnd.
    { unfold items_at. destruct (TagRegistry.items registry !! i) eqn:E'; [by apply (wf_items _ Hw) in E' as (? & ? & ?)|constructor]. }
    repeat case_bool_decide; [done| |by apply NoDup_filter]. apply NoDup_app. split_and!; [done| |apply NoDup_singleton].
    by intros x Hx ->%list_elem_of_singleton.
  - intros i. rewrite Hitems, <- Hwant. case_bool_decide as Hi; [|rewrite elem_of_nil, Hwant; tauto].
    unfold next. repeat case_bool_decide; rewrite ?elem_of_app, ?list_elem_of_filter, ?list_elem_of_singleton; intuition congruence.
  - intros i x Hx. rewrite Hitems. case_bool_decide as Hi; [|by rewrite (items_absent _ _ Hw Hi)]. unfold next.
    repeat case_bool_decide; rewrite ?elem_of_app, ?list_elem_of_filter, ?list_elem_of_singleton; intuition congruence.
Qed.
End tags.

Module TagsWitness.
Definition tag (id name colour : string) : Tag.t unit := Tag.Build_t unit id name colour ∅.
Definition base := TagRegistry.Build_t unit [tag "t1" "work" "blue"; tag "t2" "home" "ink"] {[ "t1" := ["a"; "b"] ]} None.
(** We recolour [t1], take [b] out of it and add [t3]; another device renames [t2] and puts [c] in [t1]. *)
Definition next := TagRegistry.Build_t unit [tag "t1" "work" "#70adfb"; tag "t2" "home" "ink"; tag "t3" "tax" "teal"]
  (<["t3" := ["a"]]> {[ "t1" := ["a"] ]}) None.
Definition theirs := TagRegistry.Build_t unit [tag "t1" "work" "blue"; tag "t2" "house" "ink"] {[ "t1" := ["a"; "b"; "c"] ]} None.
Definition answers (k : nat) : PutAnswer := match k with O => Stale (Ok (theirs, 2)) | _ => Stored 3 end.
Definition saved := match saveTags answers base 1 next with Ok s => s | Err _ => {| registry_ := base; saved_version := 0; attempts := [] |} end.
End TagsWitness.

Lemma saveTags_only_ours_witness :
  TagRegistry.items (registry_ TagsWitness.saved) = <["t3" := ["a"]]> {[ "t1" := ["a"; "c"] ]} ∧
  ∃ a, last (attempts TagsWitness.saved) = Some a ∧ value a = registry_ TagsWitness.saved ∧
    tried TagsWitness.base TagsWitness.next (attempts TagsWitness.saved) a.
Proof.
  split; [vm_compute; reflexivity|].
  destruct (saveTags_only_ours TagsWitness.answers TagsWitness.base 1 TagsWitness.next TagsWitness.saved) as (a & Hlast & Hvalue & _ & _ & Htried).
  - apply wf_of_b. vm_compute. reflexivity.
  - apply wf_of_b. vm_compute. reflexivity.
  - intros [|k] t v; [|discriminate]. intros [= <- <-]. apply wf_of_b. vm_compute. reflexivity.
  - vm_compute. reflexivity.
  - exists a. exact (conj Hlast (conj Hvalue Htried)).
Defined.

(** Two things a merge takes from another device: a tag renamed here loses the
    colour it was given there, and the unread field that device wrote is
    overwritten by the one this device read before. *)
Lemma rename_undoes_recolour :
  let kept (v : nat) := Some (Kept.Build_t nat {[ "theme" := v ]} ∅) in
  let registry name colour v := TagRegistry.Build_t nat [Tag.Build_t nat "t1" name colour ∅] ∅ (kept v) in
  mergeRegistries (registry "work" "blue" 1%nat) (registry "jobs" "blue" 1%nat) (registry "work" "teal" 2%nat) = registry "jobs" "blue" 1%nat.
Proof. vm_compute. reflexivity. Qed.

Lemma merge_one_sided_witness :
  Z.of_nat (length (TagRegistry.tags (mergeRegistries TagsWitness.base TagsWitness.next TagsWitness.base))) ≠ MAX_TAGS ∧
  same_tags (mergeRegistries TagsWitness.base TagsWitness.next TagsWitness.base) TagsWitness.next.
Proof.
  split; [vm_compute; discriminate|].
  refine (proj1 (merge_one_sided TagsWitness.base TagsWitness.next _ _ _ _)); [apply wf_of_b; vm_compute; reflexivity..| |];
    vm_compute; discriminate.
Defined.
