(* ===== verification/Mirror.v ===== *)
(** * The tree mirror and the tabs that pull into it (packages/drive/src/mirror.ts, client.ts, packages/db/src/drive.ts)

    Every node of a workspace as the server serves it, kept on the device, with
    the cursor of the change feed it stands at. The mirror's operations are
    transactions ([apply], [dropBelow], [clear]); a page of the feed is read by
    two queries ([list_ids], [page_changes]); and any number of tabs run
    [pullFeed], one transaction or request at a time, while the server's tree
    changes ([step]). What a row says beyond its place is [Rest]. The server's
    tombstones are kept for good here: [resync], which it says once it dropped
    some, is answered freely. *)

From S2P Require Import Prelude Base64url Bytes Canonical Signatures.

Module NodeView.
Record t {Rest : Type} := { id : string; workspaceId : string; parentId : option string; kind : NodeKind; rest : Rest }.
Arguments t : clear implicits.
End NodeView.

(** One change of the feed. *)
Inductive NodeChange {Rest : Type} :=
  | ChangedNode (changeSeq : Z) (node : NodeView.t Rest)
  | Tombstone (changeSeq : Z) (nodeId : string) (parentId : option string)
  | EnteredOrLeft (changeSeq : Z) (nodeId : string).
Arguments NodeChange : clear implicits.

Module TreeMirror.
Record t {Rest : Type} := { nodes : gmap string (NodeView.t Rest); cursors : gmap string Z }.
Arguments t : clear implicits.
End TreeMirror.

(** A node's row in the database; a purged one has no key envelope. *)
Module Row.
Record t {Rest : Type} := { changeSeq : Z; node : NodeView.t Rest; purged : bool }.
Arguments t : clear implicits.
End Row.
(** The workspace's rows and its last sequence. *)
Module Server.
Record t {Rest : Type} := { table : gmap string (Row.t Rest); head : Z }.
Arguments t : clear implicits.
End Server.

(** [pullFeed]'s variables, between two awaits. *)
Module Pull.
Record t := {
  cursor : Z; mirrored : Z; first : bool; foldersDropped : list string; tombstoned : list string; parents : list string;
}.
End Pull.

Section mirror.
Context {Rest : Type}.
Local Abbreviation NodeView := (NodeView.t Rest).
Local Abbreviation NodeChange := (NodeChange Rest).
Local Abbreviation TreeMirror := (TreeMirror.t Rest).
Local Abbreviation Row := (Row.t Rest).
Local Abbreviation Server := (Server.t Rest).
Implicit Types (m : TreeMirror) (srv : Server) (rows : gmap string NodeView).

(** ** The mirror's operations *)

Definition cursor_of (workspaceId : string) m : Z := match TreeMirror.cursors m !! workspaceId with Some cursor => cursor | None => 0 end.
Definition change_seq (change : NodeChange) : Z :=
  match change with ChangedNode s _ | Tombstone s _ _ | EnteredOrLeft s _ => s end.
(** One change past [current], and the folders its tombstone took off. *)
Definition apply_change (current : Z) (state : gmap string NodeView * list string) (change : NodeChange)
    : gmap string NodeView * list string :=
  let '(nodes, folders) := state in
  if change_seq change <=? current then (nodes, folders)
  else match change with
  | ChangedNode _ node => (<[NodeView.id node := node]> nodes, folders)
  | Tombstone _ nodeId _ =>
      (delete nodeId nodes,
       match nodes !! nodeId with
       | Some row => if decide (NodeView.kind row = Folder) then folders ++ [NodeView.id row] else folders
       | None => folders
       end)
  | EnteredOrLeft _ _ => (nodes, folders)
  end.
Definition apply (workspaceId : string) (from : Z) (changes : list NodeChange) (nextCursor : Z) m : TreeMirror * option (list string) :=
  let current := cursor_of workspaceId m in
  if current <? from then (m, None)
  else
    let '(nodes, folders) := foldl (apply_change current) (TreeMirror.nodes m, []) changes in
    (TreeMirror.Build_t Rest nodes (<[workspaceId := Z.max current nextCursor]> (TreeMirror.cursors m)), Some folders).
Definition rows (workspaceId : string) m : gmap string NodeView :=
  filter (λ row, NodeView.workspaceId row.2 = workspaceId) (TreeMirror.nodes m).
Definition snapshot (workspaceId : string) m : Z * gmap string NodeView := (cursor_of workspaceId m, rows workspaceId m).

(** [children.get(parent) ?? []] *)
Definition children_of (rows : gmap string NodeView) (parent : string) : list string :=
  map fst (filter (λ row, NodeView.parentId row.2 = Some parent) (map_to_list rows)).
(** The queue's loop, [fuel] turns at most: nothing when it takes more. *)
Fixpoint purged_loop (fuel : nat) (rows : gmap string NodeView) (queue gone : list string) : option (list string) :=
  match queue with
  | [] => Some gone
  | id :: queue =>
      match fuel with
      | O => None
      | S fuel => let children := children_of rows id in purged_loop fuel rows (queue ++ children) (gone ++ children)
      end
  end.
Definition purgedBelow (fuel : nat) (nodeIds : list string) (rows : gmap string NodeView) : option (list string) :=
  purged_loop fuel rows nodeIds [].
Definition dropBelow (fuel : nat) (workspaceId : string) (nodeIds : list string) m : option TreeMirror :=
  gone ← purgedBelow fuel nodeIds (rows workspaceId m);
  Some (TreeMirror.Build_t Rest (foldl (λ nodes id, delete id nodes) (TreeMirror.nodes m) gone) (TreeMirror.cursors m)).

(** [clear(workspaceId)], and [clear()] *)
Definition clear_workspace (workspaceId : string) m : TreeMirror :=
  TreeMirror.Build_t Rest (filter (λ row, NodeView.workspaceId row.2 ≠ workspaceId) (TreeMirror.nodes m))
    (delete workspaceId (TreeMirror.cursors m)).
Definition clear_all : TreeMirror := TreeMirror.Build_t Rest ∅ ∅.
Definition workspaces m : gset string := dom (TreeMirror.cursors m).

(** ** A page of the feed *)

Definition before (a b : string * Z) : Prop := a.2 ≤ b.2.
#[local] Instance before_dec a b : Decision (before a b).
Proof. unfold before. apply _. Defined.
(** [listChanges]' first query: what changed since, in order, and whether there is more. *)
Definition list_ids (limit : nat) (since : Z) srv : list (string * Z) * bool :=
  let ids := merge_sort before (filter (λ row, since < row.2)
    (map (λ '(id, row), (id, Row.changeSeq row)) (map_to_list (Server.table srv)))) in
  let ids := take (S limit) ids in (take limit ids, (limit <? length ids)%nat).
(** Its second: the rows themselves, read later; nothing where one is gone. *)
Definition page_changes (ids : list (string * Z)) srv : option (list NodeChange) :=
  mapM (λ '(id, seq), row ← Server.table srv !! id;
    Some (if Row.purged row then Tombstone seq id (NodeView.parentId (Row.node row)) else ChangedNode seq (Row.node row))) ids.
Definition next_cursor (since : Z) (ids : list (string * Z)) : Z := match last ids with Some (_, seq) => seq | None => since end.

(** ** Tabs that pull *)

Inductive tab :=
  | Idle
  | Ask (pull : Pull.t)
  | Asked (pull : Pull.t) (ids : list (string * Z)) (hasMore resync : bool)
  | Page (pull : Pull.t) (changes : list NodeChange) (nextCursor : Z) (hasMore resync : bool)
  | Clearing (pull : Pull.t)
  | Refused (pull : Pull.t)
  | Sweeping (below : list string).

Definition start_pull (from : option Z) (mirrored : Z) : Pull.t :=
  {| Pull.cursor := match from with Some from => Z.min from mirrored | None => mirrored end; Pull.mirrored := mirrored;
     Pull.first := true; Pull.foldersDropped := []; Pull.tombstoned := []; Pull.parents := [] |}.
Definition set_cursor (cursor : Z) (first : bool) (pull : Pull.t) : Pull.t :=
  Pull.Build_t cursor (Pull.mirrored pull) first (Pull.foldersDropped pull) (Pull.tombstoned pull) (Pull.parents pull).
(** The [finally]: what was inside the folders deleted leaves with them. *)
Definition finish (pull : Pull.t) : tab :=
  match first_seen [] (Pull.foldersDropped pull ++ filter (λ id, id ∈ Pull.parents pull) (Pull.tombstoned pull)) with
  | [] => Idle
  | below => Sweeping below
  end.
Definition tombstones (changes : list NodeChange) : list string :=
  omap (λ change, match change with Tombstone _ nodeId _ => Some nodeId | _ => None end) changes.
Definition parents_named (changes : list NodeChange) : list string :=
  omap (λ change, match change with ChangedNode _ node => NodeView.parentId node | _ => None end) changes.
(** A page that came back, and its transaction. *)
Definition deliver (workspaceId : string) (pull : Pull.t) (changes : list NodeChange) (nextCursor : Z) (hasMore resync : bool) m
    : TreeMirror * tab :=
  let cursor := Pull.cursor pull in
  if Pull.first pull && resync && (0 <? cursor) then
    (m, if cursor <? Pull.mirrored pull then Ask (set_cursor (Pull.mirrored pull) true pull) else Clearing pull)
  else
    let '(m, dropped) := apply workspaceId cursor changes nextCursor m in
    (m, match dropped with
        | None => Refused (set_cursor cursor false pull)
        | Some dropped =>
            let pull := Pull.Build_t nextCursor (Pull.mirrored pull) false (Pull.foldersDropped pull ++ dropped)
              (Pull.tombstoned pull ++ tombstones changes) (Pull.parents pull ++ parents_named changes) in
            if hasMore then Ask pull else finish pull
        end).
(** What a tab has pulled so far, when it is pulling. *)
Definition pulling (t : tab) : option Pull.t :=
  match t with
  | Ask pull | Asked pull _ _ _ | Page pull _ _ _ _ | Clearing pull | Refused pull => Some pull
  | Idle | Sweeping _ => None
  end.
End mirror.
Arguments tab : clear implicits.

(** ** The server, the mirror and the tabs together *)

Module World.
Record t {Rest : Type} := {
  server : Server.t Rest; mirror : TreeMirror.t Rest; tabs : gmap positive (tab Rest); swept : gset string;
}.
Arguments t : clear implicits.
End World.

Section world.
Context {Rest : Type} (workspaceId : string) (limit : nat).
Local Abbreviation World := (World.t Rest).
Local Abbreviation Row := (Row.t Rest).
Local Abbreviation Server := (Server.t Rest).
Local Abbreviation tab := (tab Rest).
Implicit Types (w : World) (srv : Server).

Definition set_tab (n : positive) (t : tab) w : World :=
  World.Build_t Rest (World.server w) (World.mirror w) (<[n := t]> (World.tabs w)) (World.swept w).
Definition set_mirror (m : TreeMirror.t Rest) (n : positive) (t : tab) (swept : gset string) w : World :=
  World.Build_t Rest (World.server w) m (<[n := t]> (World.tabs w)) swept.
(** A row written: the node takes the workspace's next sequence. *)
Definition write_row (id : string) (node : NodeView.t Rest) (purged : bool) srv : Server :=
  Server.Build_t Rest (<[id := Row.Build_t Rest (Server.head srv + 1) node purged]> (Server.table srv)) (Server.head srv + 1).
Definition server_step (srv : Server) w : World :=
  World.Build_t Rest srv (World.mirror w) (World.tabs w) (World.swept w).
(** The ids a sweep takes, and the mirror without them. *)
Definition sweep (fuel : nat) (below : list string) (n : positive) w : option World :=
  gone ← purgedBelow fuel below (rows workspaceId (World.mirror w));
  m ← dropBelow fuel workspaceId below (World.mirror w);
  Some (set_mirror m n Idle (World.swept w ∪ list_to_set gone) w).
Definition do_deliver (n : positive) (pull : Pull.t) (changes : list (NodeChange Rest)) (nextCursor : Z) (hasMore resync : bool) w : World :=
  let '(m, t) := deliver workspaceId pull changes nextCursor hasMore resync (World.mirror w) in
  set_mirror m n t (World.swept w) w.

Inductive step : World → World → Prop :=
  | step_write w node : NodeView.workspaceId node = workspaceId →
      (∀ row, Server.table (World.server w) !! NodeView.id node = Some row → Row.purged row = false) →
      step w (server_step (write_row (NodeView.id node) node false (World.server w)) w)
  | step_purge w id row : Server.table (World.server w) !! id = Some row → Row.purged row = false →
      step w (server_step (write_row id (Row.node row) true (World.server w)) w)
  (** A tab pulls from where the mirror stands, or from where its catalogue does. *)
  | step_start w n from : default Idle (World.tabs w !! n) = Idle → (∀ c, from = Some c → 0 ≤ c) →
      step w (set_tab n (Ask (start_pull from (cursor_of workspaceId (World.mirror w)))) w)
  | step_ids w n pull resync : World.tabs w !! n = Some (Ask pull) →
      step w (let '(ids, hasMore) := list_ids limit (Pull.cursor pull) (World.server w) in set_tab n (Asked pull ids hasMore resync) w)
  | step_answer w n pull ids hasMore resync changes : World.tabs w !! n = Some (Asked pull ids hasMore resync) →
      page_changes ids (World.server w) = Some changes →
      step w (set_tab n (Page pull changes (next_cursor (Pull.cursor pull) ids) hasMore resync) w)
  | step_deliver w n pull changes nextCursor hasMore resync :
      World.tabs w !! n = Some (Page pull changes nextCursor hasMore resync) →
      step w (do_deliver n pull changes nextCursor hasMore resync w)
  | step_clear w n pull : World.tabs w !! n = Some (Clearing pull) →
      step w (set_mirror (clear_workspace workspaceId (World.mirror w)) n
        (Ask (Pull.Build_t 0 0 true (Pull.foldersDropped pull) (Pull.tombstoned pull) (Pull.parents pull))) ∅ w)
  | step_refused w n pull : World.tabs w !! n = Some (Refused pull) →
      step w (set_tab n (Ask (set_cursor (Z.min (Pull.cursor pull) (cursor_of workspaceId (World.mirror w))) false pull)) w)
  (** A request failed: what was applied is swept all the same. *)
  | step_fail w n t pull : World.tabs w !! n = Some t → pulling t = Some pull → step w (set_tab n (finish pull) w)
  (** A tab locked or closed: nothing more of it. *)
  | step_close w n : step w (set_tab n Idle w)
  | step_sweep w w' n below fuel : World.tabs w !! n = Some (Sweeping below) → sweep fuel below n w = Some w' → step w w'
  (** The mirror cleared by a build that found orphans, or by a sign-out. *)
  | step_wipe w : step w (World.Build_t Rest (World.server w) (clear_workspace workspaceId (World.mirror w)) (World.tabs w) ∅).

Definition start : World := World.Build_t Rest (Server.Build_t Rest ∅ 0) (TreeMirror.Build_t Rest ∅ ∅) ∅ ∅.
Definition reached := rtc step start.

(** ** What every interleaving keeps *)

(** What a row leaves in a mirror that has it. *)
Definition live (row : Row) : option (NodeView.t Rest) := if Row.purged row then None else Some (Row.node row).
Definition change_of (id : string) (seq : Z) (row : Row) : NodeChange Rest :=
  if Row.purged row then Tombstone seq id (NodeView.parentId (Row.node row)) else ChangedNode seq (Row.node row).
Definition row_ok (id : string) (row : Row) : Prop := NodeView.id (Row.node row) = id ∧ NodeView.workspaceId (Row.node row) = workspaceId.

(** What was read of the feed past [c]: every row the page covers, as it was
    then; one changed since has a sequence past the page. *)
Record ids_ok (c : Z) (ids : list (string * Z)) srv : Prop := {
  io_next : c ≤ next_cursor c ids ≤ Server.head srv;
  io_NoDup : NoDup ids.*1;
  io_row id seq : (id, seq) ∈ ids → c < seq ≤ next_cursor c ids ∧
    ∃ row, Server.table srv !! id = Some row ∧ (Row.changeSeq row = seq ∨ next_cursor c ids < Row.changeSeq row);
  io_all id row : Server.table srv !! id = Some row → c < Row.changeSeq row ≤ next_cursor c ids → (id, Row.changeSeq row) ∈ ids;
}.
Definition content_ok srv (id_seq : string * Z) (change : NodeChange Rest) : Prop :=
  ∃ row, change = change_of id_seq.1 id_seq.2 row ∧ row_ok id_seq.1 row ∧
    ∀ now, Server.table srv !! id_seq.1 = Some now → Row.changeSeq now = id_seq.2 → now = row.
Definition tab_ok srv (t : tab) : Prop :=
  match t with
  | Ask pull | Clearing pull | Refused pull => 0 ≤ Pull.cursor pull ≤ Server.head srv ∧ 0 ≤ Pull.mirrored pull ≤ Server.head srv
  | Asked pull ids _ _ => ids_ok (Pull.cursor pull) ids srv ∧ 0 ≤ Pull.cursor pull ∧ 0 ≤ Pull.mirrored pull ≤ Server.head srv
  | Page pull changes next _ _ => 0 ≤ Pull.cursor pull ∧ 0 ≤ Pull.mirrored pull ≤ Server.head srv ∧
      ∃ ids, ids_ok (Pull.cursor pull) ids srv ∧ next = next_cursor (Pull.cursor pull) ids ∧ Forall2 (content_ok srv) ids changes
  | Idle | Sweeping _ => True
  end.

Record inv w : Prop := {
  inv_row id row : Server.table (World.server w) !! id = Some row → row_ok id row ∧ 0 < Row.changeSeq row ≤ Server.head (World.server w);
  inv_unique id id' row row' : Server.table (World.server w) !! id = Some row → Server.table (World.server w) !! id' = Some row' →
    Row.changeSeq row = Row.changeSeq row' → id = id';
  inv_cursor : 0 ≤ cursor_of workspaceId (World.mirror w) ≤ Server.head (World.server w);
  inv_nodes id node : TreeMirror.nodes (World.mirror w) !! id = Some node →
    NodeView.id node = id ∧ NodeView.workspaceId node = workspaceId ∧ is_Some (Server.table (World.server w) !! id);
  inv_exact id row : Server.table (World.server w) !! id = Some row →
    Row.changeSeq row ≤ cursor_of workspaceId (World.mirror w) →
    TreeMirror.nodes (World.mirror w) !! id = live row ∨ (id ∈ World.swept w ∧ TreeMirror.nodes (World.mirror w) !! id = None);
  inv_tab n t : World.tabs w !! n = Some t → tab_ok (World.server w) t;
}.

Lemma foldl_delete {A} (l : list string) (nodes : gmap string A) i :
  foldl (λ nodes id, delete id nodes) nodes l !! i = if bool_decide (i ∈ l) then None else nodes !! i.
Proof.
  revert nodes. induction l as [|x l IH]; intros nodes; cbn.
  - rewrite bool_decide_eq_false_2; [done|apply not_elem_of_nil].
  - rewrite IH. destruct (decide (i ∈ l)) as [Hil|Hil]; [rewrite !bool_decide_eq_true_2; [done|by right|done]|].
    rewrite (bool_decide_eq_false_2 (i ∈ l)) by done. destruct (decide (i = x)) as [->|Hne].
    + by rewrite lookup_delete_eq, bool_decide_eq_true_2 by left.
    + rewrite lookup_delete_ne, bool_decide_eq_false_2; [done| |done]. rewrite not_elem_of_cons. auto.
Qed.
Lemma Forall2_impl_l {A B} (P : A → Prop) (Q R : A → B → Prop) l k :
  Forall P l → Forall2 Q l k → (∀ x y, P x → Q x y → R x y) → Forall2 R l k.
Proof. intros HP HQ HR. induction HQ; [constructor|]. inversion HP; subst. constructor; auto. Qed.

(** *** A row written keeps every page in flight *)

Lemma ids_ok_write c ids srv id node purged : ids_ok c ids srv → ids_ok c ids (write_row id node purged srv).
Proof.
  intros [Hn Hd Hr Ha]. split; cbn; [lia|done| |].
  - intros i seq Hin. destruct (Hr i seq Hin) as (? & row & Hrow & Hseq). split; [done|]. destruct (decide (i = id)) as [->|Hne].
    + rewrite lookup_insert_eq. eexists. split; [done|]. right. cbn. lia.
    + rewrite lookup_insert_ne by done. eauto.
  - intros i row. destruct (decide (i = id)) as [->|Hne]; [rewrite lookup_insert_eq; intros [= <-]; cbn; lia|].
    rewrite lookup_insert_ne by done. apply Ha.
Qed.
Lemma content_ok_write srv id node purged id_seq change : id_seq.2 ≤ Server.head srv →
  content_ok srv id_seq change → content_ok (write_row id node purged srv) id_seq change.
Proof.
  intros Hle (row & ? & ? & Hnow). exists row. split_and!; [done..|]. intros now. cbn. destruct (decide (id_seq.1 = id)) as [<-|Hne].
  - rewrite lookup_insert_eq. intros [= <-]. cbn. lia.
  - rewrite lookup_insert_ne by done. apply Hnow.
Qed.
Lemma tab_ok_write srv id node purged t : tab_ok srv t → tab_ok (write_row id node purged srv) t.
Proof.
  destruct t; cbn; try done; try lia.
  - intros (? & ? & ?). split_and!; [by apply ids_ok_write|lia..].
  - intros (? & ? & ids & Hids & -> & Hch). split_and!; [lia..|]. exists ids. split_and!; [by apply ids_ok_write|done|].
    apply (Forall2_impl_l (λ x : string * Z, x.2 ≤ Server.head srv) (content_ok srv)); [|done|intros; by apply content_ok_write].
    apply Forall_forall. intros [i seq] Hin. destruct (io_row _ _ _ Hids i seq Hin) as [? _]. pose proof (io_next _ _ _ Hids). cbn. lia.
Qed.

(** *** A page of the feed *)

Lemma next_cursor_last c (ids : list (string * Z)) : ids = [] ∧ next_cursor c ids = c ∨
  ∃ l id, ids = l ++ [(id, next_cursor c ids)].
Proof.
  destruct ids as [|x l _] using rev_ind; [by left|right]. unfold next_cursor. rewrite last_snoc. destruct x as [id seq]. by exists l, id.
Qed.
Lemma before_sorted (l k : list (string * Z)) x y :
  Sorted before (l ++ x :: k) → y ∈ k → x.2 ≤ y.2.
Proof.
  intros H Hy. apply Sorted_StronglySorted in H; [|intros [] [] []; unfold before; cbn; lia].
  induction l as [|z l IH]; cbn in H; apply StronglySorted_inv in H as [H Hall]; [|by apply IH].
  rewrite Forall_forall in Hall. exact (Hall y Hy).
Qed.

Lemma list_ids_ok c srv ids hasMore : 0 ≤ c ≤ Server.head srv →
  (∀ id row, Server.table srv !! id = Some row → Row.changeSeq row ≤ Server.head srv) →
  (∀ id id' row row', Server.table srv !! id = Some row → Server.table srv !! id' = Some row' →
    Row.changeSeq row = Row.changeSeq row' → id = id') →
  list_ids limit c srv = (ids, hasMore) → ids_ok c ids srv.
Proof.
  intros Hc Hhead Huniq. unfold list_ids. set (all := merge_sort _ _). intros [= <- _].
  replace (take limit (take (S limit) all)) with (take limit all) by (rewrite take_take; f_equal; lia). set (n := limit). set (ids := take n all).
  assert (∀ id seq, (id, seq) ∈ all ↔ c < seq ∧ ∃ row, Server.table srv !! id = Some row ∧ Row.changeSeq row = seq) as Hall.
  { intros id seq. unfold all. rewrite merge_sort_Permutation, list_elem_of_filter. cbn. rewrite list_elem_of_fmap. split.
    - intros [? ([i row] & [= -> ->] & Hin%elem_of_map_to_list)]. eauto.
    - intros (? & row & Hrow & <-). split; [done|]. exists (id, row). by rewrite elem_of_map_to_list. }
  assert (Sorted before all) as Hsorted by (apply Sorted_merge_sort; intros [] []; unfold before; cbn; lia).
  assert (NoDup all.*1) as Hnd.
  { unfold all. rewrite merge_sort_Permutation. pose proof (NoDup_fst_map_to_list (Server.table srv)) as H. revert H.
    generalize (map_to_list (Server.table srv)). intros l. induction l as [|[i row] l IH]; cbn; [done|].
    intros [Hi Hl]%NoDup_cons. case_decide; cbn; [|by apply IH]. constructor; [|by apply IH]. intros Hin. apply Hi.
    apply list_elem_of_fmap in Hin as ([i' seq] & -> & [_ Hin]%list_elem_of_filter). apply list_elem_of_fmap in Hin as ([j r] & [= -> _] & Hin).
    apply list_elem_of_fmap. by exists (j, r). }
  assert (ids ⊆ all) as Hsub by (intros x Hx; rewrite <- (take_drop n all); apply elem_of_app; by left).
  assert (c ≤ next_cursor c ids) as Hge.
  { destruct (next_cursor_last c ids) as [[_ ->]|(l & id & E)]; [lia|].
    assert ((id, next_cursor c ids) ∈ all) as [? _]%Hall; [|lia]. apply Hsub. rewrite E at 2. apply elem_of_app. right. by apply list_elem_of_singleton. }
  assert (∀ id seq, (id, seq) ∈ ids → seq ≤ next_cursor c ids) as Hle.
  { intros id seq Hin. destruct (next_cursor_last c ids) as [[E _]|(l & i & E)]; [rewrite E in Hin; by apply not_elem_of_nil in Hin|].
    rewrite E in Hin. apply elem_of_app in Hin as [Hin|Hin%list_elem_of_singleton]; [|injection Hin as _ ->; lia].
    apply list_elem_of_split in Hin as (l1 & l2 & ->). pose proof Hsorted as Hs. rewrite <- (take_drop n all) in Hs. fold ids in Hs.
    rewrite E, <- !app_assoc in Hs. cbn in Hs. apply (before_sorted l1 _ _ (i, next_cursor c ids) Hs).
    apply elem_of_app. right. by left. }
  split.
  - split; [done|]. destruct (next_cursor_last c ids) as [[_ ->]|(l & id & E)]; [lia|].
    assert ((id, next_cursor c ids) ∈ all) as (_ & row & Hrow & <-)%Hall; [|by eapply Hhead]. apply Hsub. rewrite E at 2.
    apply elem_of_app. right. by apply list_elem_of_singleton.
  - rewrite <- (take_drop n all), fmap_app in Hnd. by apply NoDup_app in Hnd as [? _].
  - intros id seq Hin. split; [split; [by apply Hsub, Hall in Hin as [? _]|by eapply Hle]|].
    apply Hsub, Hall in Hin as (_ & row & ? & ?). eauto.
  - intros id row Hrow [Hlo Hhi]. assert ((id, Row.changeSeq row) ∈ all) as Hin by (apply Hall; eauto).
    rewrite <- (take_drop n all) in Hin. apply elem_of_app in Hin as [Hin|Hin]; [done|]. fold ids in Hin. exfalso.
    destruct (next_cursor_last c ids) as [[E E']|(l & i & E)]; [lia|].
    assert (next_cursor c ids ≤ Row.changeSeq row) as Hge'.
    { rewrite <- (take_drop n all) in Hsorted. fold ids in Hsorted. rewrite E, <- app_assoc in Hsorted. cbn in Hsorted.
      exact (before_sorted l _ (i, next_cursor c ids) _ Hsorted Hin). }
    assert ((i, next_cursor c ids) ∈ ids) as Hi by (rewrite E at 2; apply elem_of_app; right; by apply list_elem_of_singleton).
    pose proof Hi as (_ & row' & Hrow' & Hseq')%Hsub%Hall. assert (i = id) as -> by (eapply Huniq; [done..|lia]).
    rewrite <- (take_drop n all), fmap_app in Hnd. apply NoDup_app in Hnd as (_ & Hdis & _). apply (Hdis id).
    + apply list_elem_of_fmap. by exists (id, next_cursor c ids).
    + apply list_elem_of_fmap. by exists (id, Row.changeSeq row).
Qed.

Lemma page_changes_ok srv c ids changes : ids_ok c ids srv →
  (∀ id row, Server.table srv !! id = Some row → row_ok id row) →
  page_changes ids srv = Some changes → Forall2 (content_ok srv) ids changes.
Proof.
  intros Hids Hrow H. unfold page_changes in H. apply mapM_Some in H. eapply Forall2_impl; [exact H|].
  intros [id seq] change E. cbn in E. destruct (Server.table srv !! id) as [row|] eqn:Er; [|done]. cbn in E. injection E as <-.
  exists row. cbn. split_and!; [done|by apply Hrow|]. intros now. rewrite Er. by intros [= <-].
Qed.

(** *** What a page leaves of each node *)

Lemma apply_change_other srv current state id seq change i : content_ok srv (id, seq) change → (i ≠ id ∨ seq ≤ current) →
  (apply_change current state change).1 !! i = state.1 !! i.
Proof.
  intros (row & -> & [Hid _] & _) Hi. cbn in Hid. destruct state as [nodes folders]. unfold apply_change, change_of. cbn.
  destruct (Row.purged row); cbn; (destruct (seq <=? current) eqn:E; [done|]); apply Z.leb_gt in E; cbn;
    (destruct Hi as [Hi|]; [|lia]); [by rewrite lookup_delete_ne|rewrite Hid; by rewrite lookup_insert_ne].
Qed.
Lemma apply_change_same srv current state id seq change : content_ok srv (id, seq) change → current < seq →
  ∃ row, row_ok id row ∧ (∀ now, Server.table srv !! id = Some now → Row.changeSeq now = seq → now = row) ∧
    (apply_change current state change).1 !! id = live row.
Proof.
  intros (row & -> & [Hid Hws] & Hnow) Hseq. cbn in *. exists row. split_and!; [done|done|]. destruct state as [nodes folders].
  unfold apply_change, change_of, live. destruct (Row.purged row); cbn; (destruct (seq <=? current) eqn:E; [apply Z.leb_le in E; lia|]); cbn.
  - by rewrite lookup_delete_eq.
  - by rewrite Hid, lookup_insert_eq.
Qed.
Lemma foldl_apply_other srv current ids changes : Forall2 (content_ok srv) ids changes → ∀ state i,
  (∀ seq, (i, seq) ∈ ids → seq ≤ current) → (foldl (apply_change current) state changes).1 !! i = state.1 !! i.
Proof.
  induction 1 as [|[id seq] change ids changes Hch _ IH]; intros state i Hi; cbn; [done|]. rewrite IH.
  - eapply apply_change_other; [exact Hch|]. destruct (decide (i = id)) as [->|]; [right; apply Hi; by left|by left].
  - intros seq' Hin. apply Hi. by right.
Qed.
Lemma foldl_apply_same srv current ids changes : Forall2 (content_ok srv) ids changes → NoDup ids.*1 → ∀ state id seq,
  (id, seq) ∈ ids → current < seq →
  ∃ row, row_ok id row ∧ (∀ now, Server.table srv !! id = Some now → Row.changeSeq now = seq → now = row) ∧
    (foldl (apply_change current) state changes).1 !! id = live row.
Proof.
  induction 1 as [|[id' seq'] change ids changes Hch Hall IH]; intros Hnd state id seq Hin Hseq; cbn in *; [by apply not_elem_of_nil in Hin|].
  apply NoDup_cons in Hnd as [Hni Hnd]. apply elem_of_cons in Hin as [[= -> ->]|Hin]; [|by eapply IH].
  destruct (apply_change_same srv current state id' seq' change Hch Hseq) as (row & ? & ? & E). exists row. split_and!; [done|done|].
  rewrite (foldl_apply_other _ _ _ _ Hall); [done|]. intros s Hin. exfalso. apply Hni, list_elem_of_fmap. by exists (id', s).
Qed.

(** A node a page moved on is as the page has it; any other is as it was. *)
Lemma page_lookup srv current ids changes nodes : Forall2 (content_ok srv) ids changes → NoDup ids.*1 → ∀ id,
  (∃ seq row, (id, seq) ∈ ids ∧ current < seq ∧ row_ok id row ∧
    (∀ now, Server.table srv !! id = Some now → Row.changeSeq now = seq → now = row) ∧
    (foldl (apply_change current) (nodes, []) changes).1 !! id = live row) ∨
  ((∀ seq, (id, seq) ∈ ids → seq ≤ current) ∧ (foldl (apply_change current) (nodes, []) changes).1 !! id = nodes !! id).
Proof.
  intros Hch Hnd id. destruct (decide (Exists (λ x : string * Z, x.1 = id ∧ current < x.2) ids)) as [H|H].
  - left. apply Exists_exists in H as ([i seq] & Hin & <- & Hlt).
    destruct (foldl_apply_same srv current _ _ Hch Hnd (nodes, []) i seq Hin Hlt) as (row & ? & ? & ?). by exists seq, row.
  - assert (∀ seq, (id, seq) ∈ ids → seq ≤ current) as Hid.
    { intros seq Hin. destruct (decide (seq ≤ current)); [done|]. exfalso. apply H, Exists_exists. exists (id, seq). cbn. split_and!; [done|done|lia]. }
    right. split; [done|]. exact (foldl_apply_other srv current _ _ Hch (nodes, []) id Hid).
Qed.
Lemma set_tab_ok w n t : inv w → tab_ok (World.server w) t →
  ∀ k t', <[n := t]> (World.tabs w) !! k = Some t' → tab_ok (World.server w) t'.
Proof.
  intros Hi Ht k t'. destruct (decide (k = n)) as [->|]; [rewrite lookup_insert_eq; by intros [= <-]|].
  rewrite lookup_insert_ne by done. apply (inv_tab w Hi).
Qed.

(** A page's transaction: every node still exact, and the cursor where the page ends. *)
Lemma apply_exact w pull ids changes m dropped : inv w → ids_ok (Pull.cursor pull) ids (World.server w) →
  Forall2 (content_ok (World.server w)) ids changes → 0 ≤ Pull.cursor pull →
  apply workspaceId (Pull.cursor pull) changes (next_cursor (Pull.cursor pull) ids) (World.mirror w) = (m, dropped) → ∀ n t,
  tab_ok (World.server w) t → inv (set_mirror m n t (World.swept w) w).
Proof.
  intros Hi Hids Hch Hc Happ n t Ht. pose proof (set_tab_ok w n t Hi Ht) as Htabs.
  unfold apply in Happ. destruct (cursor_of workspaceId (World.mirror w) <? Pull.cursor pull) eqn:Efrom.
  { injection Happ as <- _. destruct Hi. by split. }
  apply Z.ltb_ge in Efrom. set (cur := cursor_of workspaceId (World.mirror w)) in *. set (nxt := next_cursor _ _) in *.
  pose proof (page_lookup _ cur _ _ (TreeMirror.nodes (World.mirror w)) Hch (io_NoDup _ _ _ Hids)) as Hcase.
  destruct (foldl (apply_change cur) (TreeMirror.nodes (World.mirror w), []) changes) as [nodes folders] eqn:Ef. injection Happ as <- _.
  pose proof (inv_cursor w Hi) as Hcur. fold cur in Hcur. pose proof (io_next _ _ _ Hids) as Hnext. fold nxt in Hnext.
  assert (cursor_of workspaceId (TreeMirror.Build_t Rest nodes (<[workspaceId := Z.max cur nxt]> (TreeMirror.cursors (World.mirror w)))) = Z.max cur nxt)
    as Hcur' by (unfold cursor_of; cbn; by rewrite lookup_insert_eq).
  split; cbn [set_mirror World.server World.mirror World.tabs World.swept TreeMirror.nodes]; rewrite ?Hcur'.
  - apply (inv_row w Hi).
  - apply (inv_unique w Hi).
  - lia.
  - intros id node Hnode. cbn in Hcase. destruct (Hcase id) as [(seq & row & Hin & Hlt & [Hrid Hws] & _ & E)|[Hid E]]; rewrite E in Hnode.
    + unfold live in Hnode. destruct (Row.purged row); [done|]. injection Hnode as <-. split_and!; [done|done|].
      destruct (io_row _ _ _ Hids id seq Hin) as (_ & row' & Hrow' & _). by eexists.
    + by apply (inv_nodes w Hi).
  - intros id row Hrow Hle. cbn in Hcase. destruct (Hcase id) as [(seq & row' & Hin & Hlt & _ & Hnow & ->)|[Hid ->]].
    + left. destruct (io_row _ _ _ Hids id seq Hin) as (Hseq & row'' & Hrow'' & Hs). fold nxt in Hseq, Hs.
      assert (row'' = row) as -> by congruence. rewrite (Hnow row Hrow); [done|]. lia.
    + destruct (decide (Row.changeSeq row ≤ cur)) as [Hold|Hnew]; [by apply (inv_exact w Hi)|].
      exfalso. pose proof (io_all _ _ _ Hids id row Hrow ltac:(fold nxt; lia)) as Hin. apply Hid in Hin. lia.
  - exact Htabs.
Qed.

(** *** Every step *)

Lemma finish_ok srv pull : tab_ok srv (finish pull).
Proof. unfold finish. by destruct (first_seen _ _). Qed.
Lemma inv_tab_only w n t : inv w → tab_ok (World.server w) t → inv (set_tab n t w).
Proof. intros Hi Ht. pose proof (set_tab_ok w n t Hi Ht). destruct Hi. by split. Qed.

Lemma inv_write w id node purged : inv w → row_ok id (Row.Build_t Rest 0 node purged) →
  inv (server_step (write_row id node purged (World.server w)) w).
Proof.
  intros Hi [Hid Hws]. cbn in Hid, Hws. split; cbn.
  - intros i row. destruct (decide (i = id)) as [->|Hne].
    + rewrite lookup_insert_eq. intros [= <-]. cbn. pose proof (inv_cursor w Hi). split; [done|lia].
    + rewrite lookup_insert_ne by done. intros [? ?]%(inv_row w Hi). split; [done|lia].
  - intros i j r1 r2 H1 H2 E. apply lookup_insert_Some in H1 as [[<- <-]|[Hi1 H1]]; apply lookup_insert_Some in H2 as [[<- <-]|[Hi2 H2]]; cbn in E.
    + done.
    + apply (inv_row w Hi) in H2 as [_ H2]. lia.
    + apply (inv_row w Hi) in H1 as [_ H1]. lia.
    + exact (inv_unique w Hi _ _ _ _ H1 H2 E).
  - pose proof (inv_cursor w Hi). lia.
  - intros i v Hv. apply (inv_nodes w Hi) in Hv as (? & ? & ?). split_and!; [done|done|]. rewrite lookup_insert_is_Some. by destruct (decide (id = i)); auto.
  - intros i row. destruct (decide (i = id)) as [->|Hne].
    + rewrite lookup_insert_eq. intros [= <-]. cbn. pose proof (inv_cursor w Hi). lia.
    + rewrite lookup_insert_ne by done. apply (inv_exact w Hi).
  - intros n t Ht. by apply tab_ok_write, (inv_tab w Hi n).
Qed.

(** A mirror that was cleared holds nothing, and claims nothing. *)
Lemma inv_clear w n t : inv w → tab_ok (World.server w) t →
  inv (World.Build_t Rest (World.server w) (clear_workspace workspaceId (World.mirror w)) (<[n := t]> (World.tabs w)) ∅).
Proof.
  intros Hi Ht. assert (cursor_of workspaceId (clear_workspace workspaceId (World.mirror w)) = 0) as Hc.
  { unfold cursor_of. cbn. by rewrite lookup_delete_eq. }
  split; cbn [World.server World.mirror World.tabs World.swept]; rewrite ?Hc; try apply Hi; [| |
    |intros k t'; by apply set_tab_ok].
  - pose proof (inv_cursor w Hi). lia.
  - intros id node [Hnode _]%map_lookup_filter_Some. by apply (inv_nodes w Hi).
  - intros id row Hrow. apply (inv_row w Hi) in Hrow as [_ ?]. lia.
Qed.

Lemma sweep_inv w w' n below fuel : inv w → sweep fuel below n w = Some w' → inv w'.
Proof.
  intros Hi H. unfold sweep, dropBelow in H. destruct (purgedBelow fuel below (rows workspaceId (World.mirror w))) as [gone|]; [|done].
  cbn in H. injection H as <-.
  split; cbn [set_mirror World.server World.mirror World.tabs World.swept TreeMirror.nodes]; try apply Hi.
  - intros id node. rewrite foldl_delete. case_bool_decide; [done|]. apply (inv_nodes w Hi).
  - intros id row Hrow Hle. rewrite foldl_delete. case_bool_decide as Hg; [right; set_solver|].
    destruct (inv_exact w Hi id row Hrow Hle) as [?|[? ?]]; [by left|right]. split; [set_solver|done].
  - intros k t. by apply set_tab_ok.
Qed.

Lemma deliver_inv w n pull changes next hasMore resync : inv w →
  World.tabs w !! n = Some (Page pull changes next hasMore resync) → inv (do_deliver n pull changes next hasMore resync w).
Proof.
  intros Hi Hn. pose proof (inv_tab w Hi _ _ Hn) as (Hc & Hm & ids & Hids & -> & Hch). unfold do_deliver, deliver.
  pose proof (io_next _ _ _ Hids) as Hnext. destruct (_ && _).
  - apply (inv_tab_only w n _ Hi). destruct (_ <? _); cbn; lia.
  - destruct (apply _ _ _ _ _) as [m dropped] eqn:Ea. apply (apply_exact w pull ids changes m dropped); try done.
    destruct dropped as [dropped|]; [|cbn; lia]. destruct hasMore; [cbn; lia|apply finish_ok].
Qed.

Lemma mirror_inv_step w w' : inv w → step w w' → inv w'.
Proof.
  intros Hi Hs. destruct Hs as [w node Hws Hnew|w id row Hrow _|w n from _ Hfrom|w n pull resync Hn|w n pull ids more resync changes Hn Hch
    |w n pull changes next more resync Hn|w n pull Hn|w n pull Hn|w n t pull _ _|w n|w w' n below fuel _ Hsw|w].
  - by apply inv_write.
  - apply inv_write; [done|]. apply (inv_row w Hi) in Hrow as [? _]. done.
  - apply inv_tab_only; [done|]. cbn. pose proof (inv_cursor w Hi). destruct from as [c|]; [specialize (Hfrom c eq_refl)|]; cbn; lia.
  - destruct (list_ids limit (Pull.cursor pull) (World.server w)) as [ids more] eqn:E. apply (inv_tab w Hi) in Hn as [Hc Hm].
    apply inv_tab_only; [done|]. cbn. split_and!; [|lia..]. eapply list_ids_ok; [done| |apply (inv_unique w Hi)|done].
    intros id row Hrow. apply (inv_row w Hi) in Hrow as [_ ?]. lia.
  - apply (inv_tab w Hi) in Hn as (Hids & Hc & Hm). apply inv_tab_only; [done|]. cbn. split_and!; [lia..|]. exists ids. split_and!; [done|done|].
    eapply page_changes_ok; [done| |done]. intros id row Hrow. by apply (inv_row w Hi) in Hrow as [? _].
  - by apply deliver_inv.
  - apply inv_clear; [done|]. pose proof (inv_cursor w Hi). cbn. lia.
  - apply (inv_tab w Hi) in Hn as [Hc Hm]. apply inv_tab_only; [done|]. pose proof (inv_cursor w Hi). cbn. lia.
  - apply inv_tab_only; [done|apply finish_ok].
  - by apply inv_tab_only.
  - by eapply sweep_inv.
  - pose proof (inv_clear w 1%positive Idle Hi I) as H. destruct H. split; try done. apply (inv_tab w Hi).
Qed.
Lemma mirror_inv_start : inv start.
Proof.
  by split; cbn; try done; intros *; rewrite lookup_empty.
Qed.
Lemma mirror_inv_reached w : reached w → inv w.
Proof. intros H. pose proof mirror_inv_start as Hi. induction H as [|? ? ? Hs _ IH]; [done|]. eauto using mirror_inv_step. Qed.

(** C27. The mirror's cursor never claims what the mirror does not hold,
    whatever the tabs of a device do: any number of pulls in flight, pages read
    in two queries and arriving late or after newer ones, failures, sweeps and
    the mirror cleared under a pull. A node whose last change the cursor is at
    or past is held exactly as that change left it, gone if it was purged, or
    was dropped by a sweep; and the mirror holds no node the server never had. *)
Theorem mirror_exact w (Hr : reached w) :
  (∀ id row, Server.table (World.server w) !! id = Some row → Row.changeSeq row ≤ cursor_of workspaceId (World.mirror w) →
    TreeMirror.nodes (World.mirror w) !! id = live row ∨ (id ∈ World.swept w ∧ TreeMirror.nodes (World.mirror w) !! id = None)) ∧
  (∀ id node, TreeMirror.nodes (World.mirror w) !! id = Some node →
    NodeView.id node = id ∧ is_Some (Server.table (World.server w) !! id)) ∧
  cursor_of workspaceId (World.mirror w) ≤ Server.head (World.server w).
Proof.
  pose proof (mirror_inv_reached w Hr) as Hi. split_and!; [apply (inv_exact w Hi)|intros id node H; by apply (inv_nodes w Hi) in H as (? & _ & ?)|].
  apply (inv_cursor w Hi).
Qed.
End world.

(** ** What a sweep takes *)

Section sweep.
Context {Rest : Type}.
Implicit Types (rows : gmap string (NodeView.t Rest)).

(** [x] sits below one of [ids] among [rows], at any depth. *)
Inductive below (rows : gmap string (NodeView.t Rest)) (ids : list string) : string → Prop :=
  | below_here x row p : rows !! x = Some row → NodeView.parentId row = Some p → p ∈ ids → below rows ids x
  | below_child x row p : rows !! x = Some row → NodeView.parentId row = Some p → below rows ids p → below rows ids x.

Lemma children_of_elem rows parent x : x ∈ children_of rows parent ↔ ∃ row, rows !! x = Some row ∧ NodeView.parentId row = Some parent.
Proof.
  unfold children_of. rewrite list_elem_of_fmap. split.
  - intros ([i row] & -> & [Hp Hin%elem_of_map_to_list]%list_elem_of_filter). by exists row.
  - intros (row & Hrow & Hp). exists (x, row). rewrite list_elem_of_filter, elem_of_map_to_list. done.
Qed.
Lemma children_of_NoDup rows parent : NoDup (children_of rows parent).
Proof.
  unfold children_of. pose proof (NoDup_fst_map_to_list rows) as H. revert H. generalize (map_to_list rows). intros l.
  induction l as [|[i row] l IH]; cbn; [constructor|]. intros [Hi Hl]%NoDup_cons. case_decide; cbn; [|by apply IH].
  constructor; [|by apply IH]. intros ([j r] & E & [_ Hin]%list_elem_of_filter)%list_elem_of_fmap. apply Hi, list_elem_of_fmap. exists (j, r).
  by cbn in *; subst.
Qed.

(** What the loop has come to: [done_] ids processed, [queue] to process, every
    row of theirs among [gone], no id twice. *)
Record loop_inv rows (ids done_ queue gone : list string) : Prop := {
  li_queue : done_ ++ queue ≡ₚ ids ++ gone;
  li_NoDup : NoDup (ids ++ gone);
  li_gone x : x ∈ gone ↔ ∃ row p, rows !! x = Some row ∧ NodeView.parentId row = Some p ∧ p ∈ done_;
  li_below x : x ∈ gone → below rows ids x;
}.

Lemma loop_step rows ids done_ id queue gone : (∀ i, i ∈ ids → rows !! i = None) → loop_inv rows ids done_ (id :: queue) gone →
  loop_inv rows ids (done_ ++ [id]) (queue ++ children_of rows id) (gone ++ children_of rows id).
Proof.
  intros Hids [Hq Hnd Hg Hb]. assert (id ∈ ids ++ gone) as Hid by (rewrite <- Hq; apply elem_of_app; right; by left).
  assert (id ∉ done_) as Hnew by (rewrite <- Hq in Hnd; apply NoDup_app in Hnd as (_ & Hd & _); intros H; apply (Hd id H); by left).
  split.
  - by rewrite (app_assoc ids), <- Hq, <- !app_assoc.
  - rewrite app_assoc. apply NoDup_app. split_and!; [done| |apply children_of_NoDup].
    intros x Hx (row & Hrow & Hp)%children_of_elem. apply elem_of_app in Hx as [Hx|Hx]; [by rewrite (Hids x Hx) in Hrow|].
    apply Hg in Hx as (row' & p & Hrow' & Hp' & Hin). congruence.
  - intros x. rewrite elem_of_app, Hg, children_of_elem. setoid_rewrite elem_of_app. setoid_rewrite list_elem_of_singleton. naive_solver.
  - intros x [Hx|(row & Hrow & Hp)%children_of_elem]%elem_of_app; [by apply Hb|]. apply elem_of_app in Hid as [Hid|Hid].
    + by eapply below_here.
    + eapply below_child; [done..|by apply Hb].
Qed.

Lemma loop_ends rows ids : (∀ i, i ∈ ids → rows !! i = None) → ∀ fuel done_ queue gone,
  loop_inv rows ids done_ queue gone → (length ids + size rows < length done_ + fuel)%nat →
  ∃ gone' done', purged_loop fuel rows queue gone = Some gone' ∧ loop_inv rows ids done' [] gone'.
Proof.
  intros Hids. induction fuel as [|fuel IH]; intros done_ queue gone Hinv Hlt.
  - exfalso. pose proof (Permutation_length (li_queue _ _ _ _ _ Hinv)) as E. rewrite !length_app in E.
    assert (length gone ≤ size rows)%nat; [|lia]. pose proof (li_NoDup _ _ _ _ _ Hinv) as Hnd. apply NoDup_app in Hnd as (_ & _ & Hnd).
    rewrite <- size_dom, <- (size_list_to_set (C := gset string) gone Hnd). apply subseteq_size. intros x Hx%elem_of_list_to_set.
    apply (li_gone _ _ _ _ _ Hinv) in Hx as (row & _ & Hrow & _). by apply elem_of_dom_2 in Hrow.
  - destruct queue as [|id queue]; cbn; [by exists gone, done_|].
    apply (IH (done_ ++ [id])); [by apply loop_step|]. rewrite length_app. cbn. lia.
Qed.

Lemma purgedBelow_exact rows ids fuel : NoDup ids → (∀ i, i ∈ ids → rows !! i = None) → (length ids + size rows < fuel)%nat →
  ∃ gone, purgedBelow fuel ids rows = Some gone ∧ NoDup gone ∧ ∀ x, x ∈ gone ↔ below rows ids x.
Proof.
  intros Hnd Hids Hfuel. destruct (loop_ends rows ids Hids fuel [] ids []) as (gone & done_ & Hrun & Hinv).
  - split; rewrite ?app_nil_r; try done; intros x; [|by intros ?%not_elem_of_nil].
    split; [by intros ?%not_elem_of_nil|]. by intros (? & ? & _ & _ & ?%not_elem_of_nil).
  - cbn. lia.
  - exists gone. split_and!; [done|by pose proof (li_NoDup _ _ _ _ _ Hinv) as [_ [_ ?]]%NoDup_app|]. intros x. split; [apply (li_below _ _ _ _ _ Hinv)|].
    assert (∀ y, y ∈ done_ ↔ y ∈ ids ∨ y ∈ gone) as Hdone.
    { intros y. pose proof (li_queue _ _ _ _ _ Hinv) as Hq. rewrite app_nil_r in Hq. by rewrite Hq, elem_of_app. }
    induction 1 as [x row p Hrow Hp Hin|x row p Hrow Hp _ IH]; apply (li_gone _ _ _ _ _ Hinv); exists row, p; rewrite Hdone; auto.
Qed.
End sweep.

Section dropping.
Context {Rest : Type}.

(** [dropBelow] ends, and takes exactly what sits below the nodes named, at
    any depth, where none of them has a row itself (the feed's tombstone took
    it): its loop turns at most once for each node named and each row held,
    every other row stays, and the cursors are left alone. *)
Theorem dropBelow_exact workspaceId ids (m : TreeMirror.t Rest) fuel
    (Hids : ∀ i, i ∈ ids → rows workspaceId m !! i = None) (Hnd : NoDup ids)
    (Hfuel : (length ids + size (rows workspaceId m) < fuel)%nat) :
  ∃ m', dropBelow fuel workspaceId ids m = Some m' ∧ TreeMirror.cursors m' = TreeMirror.cursors m ∧ ∀ x,
    (below (rows workspaceId m) ids x → TreeMirror.nodes m' !! x = None) ∧
    (¬ below (rows workspaceId m) ids x → TreeMirror.nodes m' !! x = TreeMirror.nodes m !! x).
Proof.
  destruct (purgedBelow_exact (rows workspaceId m) ids fuel Hnd Hids Hfuel) as (gone & Hrun & _ & Hgone).
  unfold dropBelow. rewrite Hrun. cbn. eexists. split_and!; [done|done|]. intros x. cbn. rewrite foldl_delete, <- Hgone.
  case_bool_decide; tauto.
Qed.
End dropping.

(** ** Runs *)

(** One step of one tab, or of the server, chosen. *)
Inductive command {Rest : Type} :=
  | Write (node : NodeView.t Rest) | Purge (id : string) | StartPull (from : option Z) | ReadIds | ReadRows | Deliver | Fail_
  | SweepBelow (fuel : nat).
Arguments command : clear implicits.

Section runs.
Context {Rest : Type} (workspaceId : string) (limit : nat).

Definition run1 (c : command Rest) (w : World.t Rest) : option (World.t Rest) :=
  match c, World.tabs w !! 1%positive with
  | Write node, _ =>
      if bool_decide (NodeView.workspaceId node = workspaceId) &&
         match Server.table (World.server w) !! NodeView.id node with Some row => negb (Row.purged row) | None => true end
      then Some (server_step (write_row (NodeView.id node) node false (World.server w)) w) else None
  | Purge id, _ =>
      match Server.table (World.server w) !! id with
      | Some row => if Row.purged row then None else Some (server_step (write_row id (Row.node row) true (World.server w)) w)
      | None => None
      end
  | StartPull from, (None | Some Idle) =>
      if match from with Some c => 0 <=? c | None => true end
      then Some (set_tab 1 (Ask (start_pull from (cursor_of workspaceId (World.mirror w)))) w) else None
  | ReadIds, Some (Ask pull) =>
      Some (let '(ids, hasMore) := list_ids limit (Pull.cursor pull) (World.server w) in set_tab 1 (Asked pull ids hasMore false) w)
  | ReadRows, Some (Asked pull ids hasMore resync) =>
      match page_changes ids (World.server w) with
      | Some changes => Some (set_tab 1 (Page pull changes (next_cursor (Pull.cursor pull) ids) hasMore resync) w)
      | None => None
      end
  | Deliver, Some (Page pull changes nextCursor hasMore resync) =>
      Some (do_deliver workspaceId 1 pull changes nextCursor hasMore resync w)
  | Fail_, Some t => match pulling t with Some pull => Some (set_tab 1 (finish pull) w) | None => None end
  | SweepBelow fuel, Some (Sweeping below) => sweep workspaceId fuel below 1 w
  | _, _ => None
  end.
Fixpoint run (cs : list (command Rest)) (w : World.t Rest) : option (World.t Rest) :=
  match cs with [] => Some w | c :: cs => match run1 c w with Some w => run cs w | None => None end end.

Lemma run1_step c w w' : run1 c w = Some w' → step workspaceId limit w w'.
Proof.
  unfold run1. destruct c as [node|id|from| | | | |fuel].
  - destruct (bool_decide _ && _) eqn:E; [|done]. apply andb_true_iff in E as [E1%bool_decide_eq_true_1 E2]. intros [= <-].
    apply step_write; [done|]. intros row Hrow. rewrite Hrow in E2. by apply negb_true_iff.
  - destruct (Server.table _ !! id) as [row|] eqn:Er; [|done]. destruct (Row.purged row) eqn:Ep; [done|]. intros [= <-]. by apply step_purge.
  - intros H. assert (default Idle (World.tabs w !! 1%positive) = Idle ∧
      (if match from with Some c => 0 <=? c | None => true end
       then Some (set_tab 1 (Ask (start_pull from (cursor_of workspaceId (World.mirror w)))) w) else None) = Some w') as [Ht H'].
    { by destruct (World.tabs w !! 1%positive) as [[]|]. }
    destruct (match from with Some c => 0 <=? c | None => true end) eqn:Ef; [|done]. injection H' as <-.
    apply step_start; [done|]. intros c ->. by apply Z.leb_le.
  - destruct (World.tabs w !! 1%positive) as [[]|] eqn:Et; try done. intros [= <-]. by apply step_ids.
  - destruct (World.tabs w !! 1%positive) as [[]|] eqn:Et; try done. destruct (page_changes _ _) eqn:Ec; [|done]. intros [= <-].
    by eapply step_answer.
  - destruct (World.tabs w !! 1%positive) as [[]|] eqn:Et; try done. intros [= <-]. by apply step_deliver.
  - destruct (World.tabs w !! 1%positive) as [t|] eqn:Et; [|done]. destruct (pulling t) as [pull|] eqn:Ep; [|done]. intros [= <-].
    by eapply step_fail.
  - destruct (World.tabs w !! 1%positive) as [[]|] eqn:Et; try done. intros H. by eapply step_sweep.
Qed.
Lemma run_reached cs w : run cs start = Some w → reached workspaceId limit w.
Proof.
  unfold reached. generalize (@start Rest) as v. induction cs as [|c cs IH]; intros v; cbn; [by intros [= <-]|].
  destruct (run1 c v) as [v'|] eqn:E; [|done]. intros H. eapply rtc_l; [by eapply run1_step|by apply IH].
Qed.
End runs.

Module MirrorWitness.
Definition node (id : string) (parentId : option string) (kind : NodeKind) : NodeView.t unit := NodeView.Build_t unit id "w" parentId kind tt.
Definition page : list (command unit) := [ReadIds; ReadRows; Deliver].
(** A device holds a folder [f] with a folder [y] in it and a file [x] in that.
    Elsewhere [y] is moved out of [f], [f] is deleted for good, [z] is made and
    [y] renamed. The device's next pull gets [f]'s tombstone, and fails before
    the page [y] is on. *)
Definition commands : list (command unit) :=
  [Write (node "r" None Folder); Write (node "f" (Some "r") Folder); Write (node "y" (Some "f") Folder); Write (node "x" (Some "y") File);
   StartPull None] ++ page ++ page ++
  [Write (node "y" (Some "r") Folder); Purge "f"; Write (node "z" (Some "r") File); Write (node "y" (Some "r") Folder);
   StartPull (Some 4)] ++ page ++ [Fail_].
Definition more : list (command unit) := [SweepBelow 9; StartPull None] ++ page.
Definition world (cs : list (command unit)) : World.t unit := match run "w" 2 cs start with Some w => w | None => start end.
Definition before_sweep := world commands.
Definition after := world (commands ++ more).
Lemma reached_before : reached "w" 2 before_sweep.
Proof. apply (run_reached "w" 2 commands). vm_compute. reflexivity. Defined.
Lemma reached_after : reached "w" 2 after.
Proof. apply (run_reached "w" 2 (commands ++ more)). vm_compute. reflexivity. Defined.
End MirrorWitness.

Lemma mirror_exact_witness :
  cursor_of "w" (World.mirror MirrorWitness.before_sweep) = 7 ∧
  TreeMirror.nodes (World.mirror MirrorWitness.before_sweep) !! "f" = None.
Proof.
  split; [vm_compute; reflexivity|].
  destruct (proj1 (mirror_exact "w" 2 MirrorWitness.before_sweep MirrorWitness.reached_before) "f"
    (Row.Build_t unit 6 (MirrorWitness.node "f" (Some "r") Folder) true)) as [H|[_ H]];
    [vm_compute; reflexivity|vm_compute; discriminate|exact H|exact H].
Defined.

Lemma dropBelow_exact_witness :
  ∃ m', dropBelow 9 "w" ["f"] (World.mirror MirrorWitness.before_sweep) = Some m' ∧
    TreeMirror.nodes m' !! "z" = TreeMirror.nodes (World.mirror MirrorWitness.before_sweep) !! "z".
Proof.
  destruct (dropBelow_exact "w" ["f"] (World.mirror MirrorWitness.before_sweep) 9) as (m' & Hm & _ & Hx).
  - intros i ->%list_elem_of_singleton. vm_compute. reflexivity.
  - apply NoDup_singleton.
  - vm_compute. lia.
  - exists m'. split; [exact Hm|]. apply (Hx "z"). intros H. inversion H as [x row p Hrow Hp Hin|x row p Hrow Hp Hb]; subst.
    + apply list_elem_of_singleton in Hin as ->. vm_compute in Hrow. injection Hrow as <-. discriminate Hp.
    + vm_compute in Hrow. injection Hrow as <-. injection Hp as <-. inversion Hb as [x row p Hrow Hp Hin|x row p Hrow Hp Hb']; subst;
        vm_compute in Hrow; injection Hrow as <-; discriminate Hp.
Defined.

(** The server has [x] and every folder above it, all live. *)
Inductive alive {Rest} (table : gmap string (Row.t Rest)) : string → Prop :=
  | alive_root id row : table !! id = Some row → Row.purged row = false → NodeView.parentId (Row.node row) = None → alive table id
  | alive_child id row p : table !! id = Some row → Row.purged row = false → NodeView.parentId (Row.node row) = Some p →
      alive table p → alive table id.

(** A pull that fails between two pages sweeps below a folder deleted, and
    takes with it what had been moved out of it by a change on a page it never
    got: the node is live, the mirror's cursor is past its last change and at
    the feed's head, no tab pulls, and the mirror has it no more. *)
Theorem sweep_loses_moved : ∃ w id row, reached "w" 2 w ∧ World.tabs w !! 1%positive = Some (@Idle unit) ∧
  cursor_of "w" (World.mirror w) = Server.head (World.server w) ∧ alive (Server.table (World.server w)) id ∧
  Server.table (World.server w) !! id = Some row ∧ Row.changeSeq row ≤ cursor_of "w" (World.mirror w) ∧
  TreeMirror.nodes (World.mirror w) !! id = None.
Proof.
  exists MirrorWitness.after, "x", (Row.Build_t unit 4 (MirrorWitness.node "x" (Some "y") File) false).
  split_and!; [exact MirrorWitness.reached_after|vm_compute; reflexivity|vm_compute; reflexivity| |vm_compute; reflexivity|
    vm_compute; discriminate|vm_compute; reflexivity].
  eapply alive_child; [vm_compute; reflexivity..|]. eapply alive_child; [vm_compute; reflexivity..|].
  eapply alive_root; vm_compute; reflexivity.
Qed.
