(* ===== verification/JoinSession.v ===== *)
(** * Comparing the join code (packages/crypto/src/join-session.ts, join-check.ts, session-groups.ts)

    A newcomer to a family compares twelve words with a member: the page hides
    two of them, and the newcomer types those. What the worker keeps of it per
    family ([Family.t]) is the positions each code was shown with and whether a
    wrong pair was typed; the data layer keeps the wrong pairs across reloads
    and locks ([HoldsValue.t]). Positions drawn at random are arguments
    ([hiddenPositions] says which the draws give). The module [Join] is the
    worker and its data layer together. *)

From S2P Require Import Prelude Base64url Bytes Canonical Crypto Signatures Roster Pins Acceptance.

(** ** The two words (join-check.ts) *)

(** What [String.prototype.trim] removes, in UTF-8. *)
Definition WHITE_SPACE : list string := map (λ l, foldr (λ n s, String (ascii_of_nat n) s) "" l)
  ([[9]; [10]; [11]; [12]; [13]; [32]; [194; 160]; [225; 154; 128]; [226; 128; 168]; [226; 128; 169]; [226; 128; 175];
    [226; 129; 159]; [227; 128; 128]; [239; 187; 191]] ++ map (λ n, [226; 128; n]) (List.seq 128 11))%nat.
Definition without_prefix (p s : string) : option string :=
  if String.prefix p s then Some (drop_bytes (String.length p) s) else None.
Fixpoint first_some {A B} (f : A → option B) (l : list A) : option B :=
  match l with [] => None | x :: rest => match f x with Some y => Some y | None => first_some f rest end end.
Fixpoint trim_with (fuel : nat) (spaces : list string) (s : string) : string :=
  match fuel with
  | O => s
  | S n => match first_some (λ p, without_prefix p s) spaces with Some rest => trim_with n spaces rest | None => s end
  end.
Fixpoint rev_string (s acc : string) : string :=
  match s with EmptyString => acc | String c s' => rev_string s' (String c acc) end.
Definition trim (s : string) : string :=
  let front := trim_with (String.length s) WHITE_SPACE s in
  rev_string (trim_with (String.length front) (map (λ p, rev_string p "") WHITE_SPACE) (rev_string front "")) "".

(** [toLowerCase] where it gives an ASCII letter: of capitals, and of the Kelvin sign. *)
Definition KELVIN : string := String "226" (String "132" (String "170" "")).
Fixpoint without_kelvin (fuel : nat) (s : string) : string :=
  match fuel, s with
  | S n, String c s' =>
      match without_prefix KELVIN s with Some rest => String "k" (without_kelvin n rest) | None => String c (without_kelvin n s') end
  | _, _ => s
  end.
Definition lower_word (s : string) : string := toLowerCase (without_kelvin (String.length s) s).

Inductive JoinCheck := match_ | no_match | incomplete.
#[export] Instance JoinCheck_eq_dec : EqDecision JoinCheck.
Proof. solve_decision. Defined.

Definition joinCheck (code : list string) (hidden : list Z) (typed : list string) : result JoinCheck :=
  refuse "Invalid join code." when match twelveWords (Some (map JStr code)) with Some _ => false | None => true end ;;
  match hidden with
  | [a; b] =>
      refuse "Invalid hidden positions." unless (0 <=? a) && (a <=? 11) && (0 <=? b) && (b <=? 11) && (a <? b) ;;
      match typed with
      | [x; y] =>
          if (trim x === "") || (trim y === "") then Ok incomplete
          else Ok (if (Some (lower_word (trim x)) === code !! Z.to_nat a) && (Some (lower_word (trim y)) === code !! Z.to_nat b)
                   then match_ else no_match)
      | _ => Ok incomplete
      end
  | _ => Err "Invalid hidden positions."
  end.

(** ** One family's escalation (join-session.ts) *)

Definition NOT_SHOWN : string := "Compare the join code again.".
Definition TOO_MANY : string := "Too many join codes were shown for this family. Compare it again later.".
Definition MAX_SHOWN_CODES : Z := 64.

Module Issued.
Record t := { positions : Z * Z; held : bool; seq : Z }.
End Issued.
Module Family.
Record t := { tried : bool; issued : gmap string Issued.t; seq : Z }.
End Family.
#[export] Instance Issued_eq_dec : EqDecision Issued.t.
Proof. solve_decision. Defined.
Definition newJoinFamily : Family.t := Family.Build_t false ∅ 0.
Definition with_issued (f : Family.t) (m : gmap string Issued.t) : Family.t := Family.Build_t (Family.tried f) m (Family.seq f).

(** The earliest shown code no wrong pair holds. *)
Definition oldest_step (oldest : option (string * Issued.t)) (entry : string * Issued.t) : option (string * Issued.t) :=
  if Issued.held entry.2 then oldest
  else match oldest with
       | Some o => if Issued.seq entry.2 <? Issued.seq o.2 then Some entry else oldest
       | None => Some entry
       end.
Definition makeRoom (f : Family.t) : result Family.t :=
  if Z.of_nat (size (Family.issued f)) <? MAX_SHOWN_CODES then Ok f
  else match foldl oldest_step None (map_to_list (Family.issued f)) with
       | Some (key, _) => Ok (with_issued f (delete key (Family.issued f)))
       | None => Err TOO_MANY
       end.
Definition insert_code (f : Family.t) (key : string) (positions : Z * Z) (held : bool) : Family.t :=
  let seq := Family.seq f + 1 in
  Family.Build_t (Family.tried f) (<[key := Issued.Build_t positions held seq]> (Family.issued f)) seq.
Definition codeKey (mark : JoinMark.t) : string :=
  string_of_Z (JoinMark.rosterVersion mark) +:+ " " +:+ words_join (JoinMark.code mark).

(** One of 0 to 11 from 32-bit draws; [None] while draws are wanting. *)
Definition DRAW_LIMIT : Z := 2 ^ 32 - 2 ^ 32 mod 12.
Fixpoint position (draws : list Z) : option (Z * list Z) :=
  match draws with
  | [] => None
  | value :: rest => if value <? DRAW_LIMIT then Some (value mod 12, rest) else position rest
  end.
(** [second = position(next)] until it is another than [first]. *)
Fixpoint other_position (fuel : nat) (first_ : Z) (draws : list Z) : option (Z * list Z) :=
  match fuel with
  | O => None
  | S n => match position draws with
           | None => None
           | Some (second_, rest) => if second_ =? first_ then other_position n first_ rest else Some (second_, rest)
           end
  end.
Definition hiddenPositions (draws : list Z) : option (Z * Z) :=
  match position draws with
  | None => None
  | Some (first_, rest) =>
      match other_position (S (length rest)) first_ rest with
      | None => None
      | Some (second_, _) => Some (if first_ <? second_ then (first_, second_) else (second_, first_))
      end
  end.

(** One showing of [mark]: the positions it has, or those drawn. *)
Definition showCode (f : Family.t) (mark : JoinMark.t) (drawn : Z * Z) : result (Family.t * (Z * Z)) :=
  let key := codeKey mark in
  match Family.issued f !! key with
  | Some issued => Ok (f, Issued.positions issued)
  | None => let* f := makeRoom f in Ok (insert_code f key drawn false, drawn)
  end.

Definition stillShown (f : option Family.t) (mark : JoinMark.t) (hidden : list Z) : bool :=
  match f with
  | None => false
  | Some f =>
      match Family.issued f !! codeKey mark with
      | None => false
      | Some issued => hidden === [(Issued.positions issued).1; (Issued.positions issued).2]
      end
  end.
Definition typedComplete (typed : list string) : bool :=
  (llen typed =? 2) && forallb (λ word, trim word !== "") typed.

Inductive Outcome := matched | wrong_words | mismatch.
#[export] Instance Outcome_eq_dec : EqDecision Outcome.
Proof. solve_decision. Defined.
Definition checkCode (f : Family.t) (mark : JoinMark.t) (typed : list string) : result (Family.t * Outcome) :=
  let key := codeKey mark in
  match Family.issued f !! key with
  | None => Err NOT_SHOWN
  | Some issued =>
      let hold b := <[key := Issued.Build_t (Issued.positions issued) b (Issued.seq issued)]> (Family.issued f) in
      let* answer := joinCheck (JoinMark.code mark) [(Issued.positions issued).1; (Issued.positions issued).2] typed in
      Ok (if answer === match_ then (Family.Build_t false (hold false) (Family.seq f), matched)
          else (Family.Build_t true (hold true) (Family.seq f),
                if Issued.held issued || Family.tried f then mismatch else wrong_words))
  end.

(** ** What is kept of it *)

Module HeldCode.
Record t := { rosterVersion : Z; code : list string; positions : Z * Z }.
End HeldCode.
Module HoldsValue.
Record t := { tried : bool; held : list HeldCode.t }.
End HoldsValue.

(** [key.split(' ')] *)
Fixpoint split_spaces (s : string) : list string :=
  match s with
  | EmptyString => [""]
  | String c s' =>
      if Ascii.eqb c " " then "" :: split_spaces s'
      else match split_spaces s' with w :: rest => String c w :: rest | [] => [String c ""] end
  end.
Definition held_code (entry : string * Issued.t) : HeldCode.t :=
  match split_spaces entry.1 with
  | version :: code => HeldCode.Build_t (default 0 (parse_number version)) code (Issued.positions entry.2)
  | [] => HeldCode.Build_t 0 [] (Issued.positions entry.2)
  end.
Fixpoint lists_le (a b : list string) : bool :=
  match a, b with
  | x :: a', y :: b' => if x === y then lists_le a' b' else str_ltb x y
  | [], _ => true
  | _ :: _, [] => false
  end.
Definition held_le (a b : HeldCode.t) : Prop :=
  (if HeldCode.rosterVersion a =? HeldCode.rosterVersion b then lists_le (HeldCode.code a) (HeldCode.code b)
   else HeldCode.rosterVersion a <? HeldCode.rosterVersion b) = true.
#[export] Instance held_le_dec : RelDecision held_le.
Proof. intros a b. unfold held_le. apply _. Defined.
Definition held_entries (m : gmap string Issued.t) : list (string * Issued.t) :=
  filter (λ e : string * Issued.t, Issued.held e.2 = true) (map_to_list m).
Definition holdsValue (f : option Family.t) : option HoldsValue.t :=
  match f with
  | None => None
  | Some f =>
      let held := merge_sort held_le (map held_code (held_entries (Family.issued f))) in
      if negb (Family.tried f) && (llen held =? 0) then None else Some (HoldsValue.Build_t (Family.tried f) held)
  end.

(** The kept value as it opens; [None] where a property is missing or no array. *)
Module RawHeld.
Record t := { rosterVersion : jsval; code : option (list jsval); positions : option (list jsval) }.
End RawHeld.
Module RawHolds.
Record t := { v : jsval; tried : bool; held : option (list (option RawHeld.t)) }.
End RawHolds.
Definition raw_held (h : HeldCode.t) : RawHeld.t :=
  RawHeld.Build_t (JInt (HeldCode.rosterVersion h)) (Some (map JStr (HeldCode.code h)))
    (Some [JInt (HeldCode.positions h).1; JInt (HeldCode.positions h).2]).
Definition raw_holds (h : HoldsValue.t) : RawHolds.t :=
  RawHolds.Build_t (JInt 1) (HoldsValue.tried h) (Some (map (λ c, Some (raw_held c)) (HoldsValue.held h))).

(** A kept code that reads: a roster version, twelve words and two positions. *)
Definition read_held (entry : option RawHeld.t) : option (JoinMark.t * (Z * Z)) :=
  match entry with
  | Some (RawHeld.Build_t (JInt version) code (Some [JInt a; JInt b])) =>
      match twelveWords code with
      | Some code =>
          if is_safe_integer version && (1 <=? version) && (0 <=? a) && (a <? b) && (b <=? 11)
          then Some (JoinMark.Build_t version code, (a, b)) else None
      | None => None
      end
  | _ => None
  end.
Definition restore_one (f : Family.t) (entry : option RawHeld.t) : Family.t :=
  match read_held entry with
  | None => f
  | Some (mark, positions) =>
      let key := codeKey mark in
      match Family.issued f !! key with
      | Some issued =>
          if Issued.held issued then f
          else with_issued f (<[key := Issued.Build_t positions true (Issued.seq issued)]> (Family.issued f))
      | None => match makeRoom f with Ok f => insert_code f key positions true | Err _ => f end
      end
  end.
Definition restoreHolds (f : Family.t) (value : option RawHolds.t) : Family.t :=
  match value with
  | None => f
  | Some kept =>
      if RawHolds.v kept !== JInt 1 then f
      else
        let f := if RawHolds.tried kept then Family.Build_t true (Family.issued f) (Family.seq f) else f in
        match RawHolds.held kept with None => f | Some held => foldl restore_one f held end
  end.

(** ** The worker and what its caller keeps (session-groups.ts) *)

Definition sameMark (a b : JoinMark.t) : bool :=
  (JoinMark.rosterVersion a =? JoinMark.rosterVersion b) && (words_join (JoinMark.code a) === words_join (JoinMark.code b)).

Module Join.
(** The worker's escalation of one family, its session, and the [holds] its
    last answer gave the caller to keep, who hands it back with every call. *)
Record t := { family : option Family.t; generation : Z; kept : option HoldsValue.t }.

(** What the person asks; [now] is the code the admission gives then, [None]
    where it gives another status; [drawn] are positions drawn if any are. *)
Inductive op :=
  | preview (now : option JoinMark.t) (drawn : Z * Z)
  | check (session : Z) (mark : JoinMark.t) (hidden : list Z) (typed : list string) (now : option JoinMark.t) (drawn : Z * Z)
  | lock.
(** What it answers. *)
Inductive answer :=
  | code (mark : JoinMark.t) (hidden : Z * Z)
  | changed (mark : JoinMark.t) (hidden : Z * Z)
  | said (outcome : Outcome)
  | unfinished
  | other_status
  | refused (e : string)
  | done_.

Definition with_family (s : t) f : t := Build_t f (generation s) (kept s).
Definition joinFamily (s : t) : Family.t := default newJoinFamily (family s).
Definition restoreFrom (s : t) : t :=
  match kept s with
  | None => s
  | Some v => with_family s (Some (restoreHolds (joinFamily s) (Some (raw_holds v))))
  end.
Definition showing (s : t) (mark : JoinMark.t) (drawn : Z * Z) (status : JoinMark.t → Z * Z → answer) : t * answer :=
  match showCode (joinFamily s) mark drawn with
  | Ok (f, hidden) => (with_family s (Some f), status mark hidden)
  | Err e => (with_family s (Some (joinFamily s)), refused e)
  end.
Definition joinPreview (s : t) (now : option JoinMark.t) (drawn : Z * Z) : t * answer :=
  let s := restoreFrom s in
  match now with None => (s, other_status) | Some mark => showing s mark drawn code end.
(** Locked meanwhile, nothing is answered: that is a [lock]. *)
Definition joinCheckOf (s : t) (session : Z) (mark : JoinMark.t) (hidden : list Z) (typed : list string)
    (now : option JoinMark.t) (drawn : Z * Z) : t * answer :=
  let s := restoreFrom s in
  if (session !== generation s) || negb (stillShown (family s) mark hidden) then (s, refused NOT_SHOWN)
  else if negb (typedComplete typed) then (s, unfinished)
  else match now with
  | None => (s, other_status)
  | Some now =>
      if negb (sameMark now mark) then showing s now drawn changed
      else match checkCode (joinFamily s) now typed with
           | Err e => (s, refused e)
           | Ok (f, outcome) => (Build_t (Some f) (generation s) (holdsValue (Some f)), said outcome)
           end
  end.
Definition forget (s : t) : t := Build_t None (generation s + 1) (kept s).

Definition perform (s : t) (o : op) : t * answer :=
  match o with
  | preview now drawn => joinPreview s now drawn
  | check session mark hidden typed now drawn => joinCheckOf s session mark hidden typed now drawn
  | lock => (forget s, done_)
  end.
Fixpoint run (s : t) (ops : list op) : t * list answer :=
  match ops with
  | [] => (s, [])
  | o :: rest => let '(s, a) := perform s o in let '(s, l) := run s rest in (s, a :: l)
  end.
Definition fresh_worker : t := Build_t None 0 None.
End Join.

(** ** The promise

    Whatever is shown and locked in between: a code typed wrong stays hidden at
    the positions it was typed wrong at until it is typed right, and a wrong
    pair is the alarm whenever one went before it with no match since. *)
Module Promise.
Record t := { tried : bool; wrong : gmap string (Z * Z) }.
Definition fresh_promise : t := Build_t false ∅.
Definition after (p : t) (key : string) (positions : Z * Z) (outcome : Outcome) : t :=
  match outcome with
  | matched => Build_t false (delete key (wrong p))
  | _ => Build_t true (<[key := positions]> (wrong p))
  end.
(** Whether an answer keeps the promise, and what is promised after it. *)
Definition allows (p : t) (o : Join.op) (a : Join.answer) : Prop :=
  match o, a with
  | _, Join.code mark hidden | _, Join.changed mark hidden =>
      ∀ positions, wrong p !! codeKey mark = Some positions → hidden = positions
  | Join.check _ mark hidden _ _ _, Join.said outcome =>
      (∀ positions, wrong p !! codeKey mark = Some positions → hidden = [positions.1; positions.2]) ∧
      (outcome ≠ matched → outcome = if tried p || bool_decide (is_Some (wrong p !! codeKey mark)) then mismatch else wrong_words)
  | _, _ => True
  end.
Definition next (p : t) (o : Join.op) (a : Join.answer) : t :=
  match o, a with
  | Join.check _ mark hidden _ _ _, Join.said outcome =>
      match hidden with [x; y] => after p (codeKey mark) (x, y) outcome | _ => p end
  | _, _ => p
  end.
(** The promise along a history, and what is promised at its end. *)
Fixpoint kept_along (p : t) (history : list (Join.op * Join.answer)) : Prop :=
  match history with [] => True | (o, a) :: rest => allows p o a ∧ kept_along (next p o a) rest end.
Fixpoint promised (p : t) (history : list (Join.op * Join.answer)) : t :=
  match history with [] => p | (o, a) :: rest => promised (next p o a) rest end.
End Promise.

(** ** Keys of codes *)

Definition word_ok (w : string) : Prop := is_word (JStr w) = Some w.
(** A code as the worker makes one ([Acceptance.joinCode]) or accepts one kept. *)
Definition mark_ok (mark : JoinMark.t) : Prop :=
  1 ≤ JoinMark.rosterVersion mark ≤ MAX_SAFE_INTEGER ∧ length (JoinMark.code mark) = 12%nat ∧ Forall word_ok (JoinMark.code mark).
Definition positions_ok (p : Z * Z) : Prop := 0 ≤ p.1 ∧ p.1 < p.2 ∧ p.2 ≤ 11.

Definition no_space (s : string) : Prop := string_forallb (λ c, negb (Ascii.eqb c " ")) s = true.
Lemma split_word w rest : no_space w →
  split_spaces (w +:+ " " +:+ rest) = w :: split_spaces rest.
Proof.
  unfold no_space. induction w as [|c w IH]; intros H; [done|]. rewrite (app_cons c w). cbn [split_spaces].
  cbn [string_forallb] in H. apply andb_true_iff in H as [Hc H]. apply negb_true_iff in Hc. rewrite Hc.
  by rewrite IH.
Qed.
Lemma split_last w : no_space w → split_spaces w = [w].
Proof.
  unfold no_space. induction w as [|c w IH]; intros H; [done|]. cbn [split_spaces].
  cbn [string_forallb] in H. apply andb_true_iff in H as [Hc H]. apply negb_true_iff in Hc. by rewrite Hc, IH.
Qed.
Lemma split_words ws : ws ≠ [] → Forall no_space ws → split_spaces (words_join ws) = ws.
Proof.
  unfold words_join. intros Hne Hws. induction Hws as [|w ws Hw Hws IH]; [done|].
  destruct ws as [|w' ws]; [by apply split_last|].
  change (String.concat " " (w :: w' :: ws)) with (w +:+ " " +:+ String.concat " " (w' :: ws)).
  by rewrite split_word, IH.
Qed.

Lemma word_no_space w : word_ok w → no_space w.
Proof.
  unfold word_ok, no_space, is_word. destruct (string_forallb _ w) eqn:E; [|done]. intros _.
  revert E. apply string_forallb_impl. intros c. apply implb_true_iff. revert c.
  apply all_ascii_spec with (p := λ c, implb (in_range "a" "z" c) (negb (Ascii.eqb c " "))). vm_compute. reflexivity.
Qed.
Lemma digits_no_space n : no_space (string_of_N n).
Proof.
  unfold no_space. generalize (string_of_uint_digits (N.to_uint n)). apply string_forallb_impl.
  intros c. apply implb_true_iff. revert c.
  apply all_ascii_spec with (p := λ c, implb (is_digit c) (negb (Ascii.eqb c " "))). vm_compute. reflexivity.
Qed.

Lemma mark_words (mark : JoinMark.t) : mark_ok mark → JoinMark.code mark ≠ [].
Proof. intros (_ & Hl & _) E. by rewrite E in Hl. Qed.
Lemma split_codeKey mark : mark_ok mark →
  split_spaces (codeKey mark) = string_of_N (Z.to_N (JoinMark.rosterVersion mark)) :: JoinMark.code mark.
Proof.
  intros Hm. pose proof (mark_words _ Hm). destruct Hm as (Hv & _ & Hw). unfold codeKey, string_of_Z.
  destruct (Z.ltb_spec (JoinMark.rosterVersion mark) 0); [lia|].
  rewrite split_word by apply digits_no_space. f_equal. apply split_words; [done|].
  eapply Forall_impl; [done|]. apply word_no_space.
Qed.
Lemma held_codeKey mark issued : mark_ok mark → held_code (codeKey mark, issued) =
  HeldCode.Build_t (JoinMark.rosterVersion mark) (JoinMark.code mark) (Issued.positions issued).
Proof.
  intros Hm. unfold held_code. cbn [fst snd]. rewrite split_codeKey by done. rewrite parse_number_string. cbn.
  destruct Hm as (Hv & _). by rewrite Z2N.id by lia.
Qed.
Lemma codeKey_inj m m' : mark_ok m → mark_ok m' → codeKey m = codeKey m' → m = m'.
Proof.
  intros Hm Hm' E. pose proof (held_codeKey m (Issued.Build_t (0, 0) false 0) Hm) as H.
  rewrite E, held_codeKey in H by done. destruct m, m'. by injection H as -> ->.
Qed.
Lemma twelveWords_ok code : length code = 12%nat → Forall word_ok code → twelveWords (Some (map JStr code)) = Some code.
Proof.
  intros Hl Hw. unfold twelveWords, llen. rewrite length_map, Hl. cbn [Z.of_nat Z.eqb].
  change (Z.of_nat 12 =? 12) with true. cbn iota. clear Hl. induction Hw as [|w code Hw _ IH]; [done|].
  cbn [map mapM]. rewrite Hw. cbn [mbind option_bind]. by rewrite IH.
Qed.
Lemma read_raw mark p : mark_ok mark → positions_ok p →
  read_held (Some (raw_held (HeldCode.Build_t (JoinMark.rosterVersion mark) (JoinMark.code mark) p))) = Some (mark, p).
Proof.
  intros (Hv & Hl & Hw) (? & ? & ?). unfold raw_held, read_held. cbn [HeldCode.rosterVersion HeldCode.code HeldCode.positions].
  rewrite twelveWords_ok by done. rewrite (proj2 (is_safe_integer_true _)) by lia.
  rewrite !(proj2 (Z.leb_le _ _)), (proj2 (Z.ltb_lt _ _)) by lia. by destruct mark, p.
Qed.

(** ** The codes a wrong pair holds *)

Definition hold_of (i : Issued.t) : option (Z * Z) := if Issued.held i then Some (Issued.positions i) else None.
Definition held_map (f : Family.t) : gmap string (Z * Z) := omap hold_of (Family.issued f).
Lemma held_map_lookup f key p : held_map f !! key = Some p ↔
  ∃ i, Family.issued f !! key = Some i ∧ Issued.held i = true ∧ Issued.positions i = p.
Proof.
  unfold held_map. rewrite lookup_omap. unfold hold_of. destruct (Family.issued f !! key) as [i|]; cbn.
  - destruct (Issued.held i) eqn:E; split; [intros [= <-]; eauto|by intros (? & [= <-] & _ & ->)|done|intros (? & [= <-] & ? & _); congruence].
  - split; [done|by intros (? & ? & _)].
Qed.
Lemma held_map_none f key : held_map f !! key = None ↔ ∀ i, Family.issued f !! key = Some i → Issued.held i = false.
Proof.
  rewrite eq_None_not_Some. split.
  - intros H i Hi. apply not_true_is_false. intros Hh. apply H. exists (Issued.positions i). rewrite held_map_lookup. eauto.
  - intros H (p & (i & Hi & Hh & _)%held_map_lookup). specialize (H _ Hi). congruence.
Qed.
Lemma held_map_size f : (size (held_map f) ≤ size (Family.issued f))%nat.
Proof.
  rewrite <- !size_dom. apply subseteq_size. intros key. rewrite !elem_of_dom. intros (p & (i & Hi & _)%held_map_lookup). eauto.
Qed.

(** What a family's escalation is kept as: its codes are codes, its positions positions, and at most 64. *)
Record wf (f : Family.t) : Prop := {
  wf_size : (size (Family.issued f) ≤ 64)%nat;
  wf_codes : ∀ key i, Family.issued f !! key = Some i → ∃ mark, mark_ok mark ∧ key = codeKey mark ∧ positions_ok (Issued.positions i);
}.

(** The code [oldest_step] chose is one no wrong pair holds; there is none only when all are held. *)
Lemma oldest_held l o : foldl oldest_step o l = None → o = None ∧ Forall (λ e : string * Issued.t, Issued.held e.2 = true) l.
Proof.
  revert o. induction l as [|e l IH]; intros o H; [by split|]. cbn in H. destruct (IH _ H) as [Ho Hl].
  unfold oldest_step in Ho. destruct (Issued.held e.2) eqn:E; [by split; [|constructor]|].
  destruct o as [o|]; [|done]. by destruct (_ <? _).
Qed.
Lemma oldest_unheld l o e : foldl oldest_step o l = Some e → (o = Some e ∨ e ∈ l ∧ Issued.held e.2 = false).
Proof.
  revert o. induction l as [|x l IH]; intros o H; [by left|]. cbn in H.
  destruct (IH _ H) as [Ho|[? ?]]; [|right; by split; [right|]]. unfold oldest_step in Ho.
  destruct (Issued.held x.2) eqn:E; [by left|].
  destruct o as [o|]; [|injection Ho as ->; right; by split; [left|]].
  destruct (_ <? _); [|by left]. injection Ho as ->. right. by split; [left|].
Qed.

Lemma makeRoom_ok f f' : makeRoom f = Ok f' → (size (Family.issued f) ≤ 64)%nat →
  (size (Family.issued f') < 64)%nat ∧ Family.tried f' = Family.tried f ∧ Family.issued f' ⊆ Family.issued f ∧
  held_map f' = held_map f.
Proof.
  unfold makeRoom, MAX_SHOWN_CODES. destruct (Z.ltb_spec (Z.of_nat (size (Family.issued f))) 64) as [Hlt|Hge]; intros Hm Hs;
    [injection Hm as <-; split; [lia|done]|].
  destruct (foldl _ _ _) as [[key i]|] eqn:E; [|done]. injection Hm as <-. cbn.
  apply oldest_unheld in E as [|[Hin%elem_of_map_to_list Hh]]; [done|]. cbn in Hin, Hh.
  rewrite map_size_delete_Some by eauto. split; [lia|]. split; [done|]. split; [apply delete_subseteq|].
  apply map_eq. intros k. unfold held_map. cbn [Family.issued with_issued]. rewrite !lookup_omap.
  destruct (decide (k = key)) as [->|]; [|by rewrite lookup_delete_ne]. rewrite lookup_delete_eq, Hin. cbn. unfold hold_of. by rewrite Hh.
Qed.
Lemma makeRoom_full f e : makeRoom f = Err e → (64 ≤ size (held_map f))%nat.
Proof.
  unfold makeRoom, MAX_SHOWN_CODES. destruct (Z.ltb_spec (Z.of_nat (size (Family.issued f))) 64) as [|Hs]; intros Hm; [done|].
  destruct (foldl _ _ _) as [[key i]|] eqn:E; [done|]. apply oldest_held in E as [_ E].
  assert (size (held_map f) = size (Family.issued f)) as ->; [|lia].
  rewrite <- !size_dom. f_equal. apply set_eq. intros key. rewrite !elem_of_dom. split.
  - intros (p & (i & ? & _)%held_map_lookup). eauto.
  - intros (i & Hi). exists (Issued.positions i). apply held_map_lookup. exists i. split_and!; [done| |done].
    rewrite Forall_forall in E. by apply (E (key, i)), elem_of_map_to_list.
Qed.

(** ** What is kept, and taken back *)

Definition mark_of (h : HeldCode.t) : JoinMark.t := JoinMark.Build_t (HeldCode.rosterVersion h) (HeldCode.code h).
Definition kept_entry (h : HeldCode.t) : string * (Z * Z) := (codeKey (mark_of h), HeldCode.positions h).
Definition kept_map (v : HoldsValue.t) : gmap string (Z * Z) := list_to_map (map kept_entry (HoldsValue.held v)).
Definition held_ok (h : HeldCode.t) : Prop := mark_ok (mark_of h) ∧ positions_ok (HeldCode.positions h).
Record kept_ok (v : HoldsValue.t) : Prop := {
  ko_held : Forall held_ok (HoldsValue.held v);
  ko_size : (size (kept_map v) ≤ 64)%nat;
}.

Lemma read_held_ok h : held_ok h → read_held (Some (raw_held h)) = Some (mark_of h, HeldCode.positions h).
Proof. intros [Hm Hp]. pose proof (read_raw _ _ Hm Hp) as H. destruct h. exact H. Qed.

Lemma held_map_union_r f key p i : Family.issued f !! key = Some i → Issued.held i = true →
  held_map f ∪ {[key := p]} = held_map f.
Proof.
  intros Hi Hh. apply map_eq. intros k. rewrite lookup_union. destruct (decide (k = key)) as [->|].
  - rewrite (proj2 (held_map_lookup f key (Issued.positions i))) by eauto. by rewrite lookup_singleton_eq.
  - rewrite lookup_singleton_ne by done. by destruct (held_map f !! k).
Qed.
Lemma held_map_set f key i p seq : held_map f !! key = None → Issued.held i = true → Issued.positions i = p →
  held_map (Family.Build_t (Family.tried f) (<[key := i]> (Family.issued f)) seq) = held_map f ∪ {[key := p]}.
Proof.
  intros Hn Hh Hp. unfold held_map. cbn. apply map_eq. intros k. rewrite lookup_union, !lookup_omap.
  destruct (decide (k = key)) as [->|].
  - rewrite lookup_insert_eq, lookup_singleton_eq. unfold held_map in Hn. rewrite lookup_omap in Hn. rewrite Hn. cbn.
    unfold hold_of. by rewrite Hh, Hp.
  - rewrite lookup_insert_ne, lookup_singleton_ne by done. by destruct (Family.issued f !! k ≫= hold_of).
Qed.
Lemma wf_set f key i seq : wf f → (∃ mark, mark_ok mark ∧ key = codeKey mark) → positions_ok (Issued.positions i) →
  (is_Some (Family.issued f !! key) ∨ (size (Family.issued f) < 64)%nat) →
  wf (Family.Build_t (Family.tried f) (<[key := i]> (Family.issued f)) seq).
Proof.
  intros [Hs Hc] (mark & Hm & Hk) Hp Hroom. constructor; cbn.
  - destruct (Family.issued f !! key) eqn:E.
    + by rewrite map_size_insert_Some.
    + destruct Hroom as [[? ?]|]; [done|]. rewrite map_size_insert_None by done. lia.
  - intros k j. destruct (decide (k = key)) as [->|]; [rewrite lookup_insert_eq; intros [= <-]; eauto|].
    rewrite lookup_insert_ne by done. apply Hc.
Qed.
Lemma wf_sub f f' : wf f → Family.issued f' ⊆ Family.issued f → wf f'.
Proof.
  intros [Hs Hc] Hsub. constructor.
  - pose proof (map_subseteq_size _ _ Hsub). lia.
  - intros k i Hi. eapply Hc, lookup_weaken; eauto.
Qed.

Lemma restore_one_spec f h : wf f → held_ok h → (size (held_map f ∪ {[codeKey (mark_of h) := HeldCode.positions h]}) ≤ 64)%nat →
  wf (restore_one f (Some (raw_held h))) ∧ Family.tried (restore_one f (Some (raw_held h))) = Family.tried f ∧
  held_map (restore_one f (Some (raw_held h))) = held_map f ∪ {[codeKey (mark_of h) := HeldCode.positions h]}.
Proof.
  intros Hwf Hh Hsize. unfold restore_one. rewrite (read_held_ok h) by done. destruct Hh as [Hm Hp].
  destruct (Family.issued f !! codeKey (mark_of h)) as [i|] eqn:Ei.
  - destruct (Issued.held i) eqn:Eh; [split_and!; [done|done|]; symmetry; by eapply held_map_union_r|].
    split_and!; [apply wf_set; eauto|done|]. apply held_map_set; [|done|done]. rewrite held_map_none. congruence.
  - assert (held_map f !! codeKey (mark_of h) = None) as Hnone by (rewrite held_map_none; congruence).
    destruct (makeRoom f) as [g|e] eqn:Eg.
    + destruct (makeRoom_ok _ _ Eg (wf_size _ Hwf)) as (Hlt & Ht & Hsub & Hheld). unfold insert_code.
      split_and!; [apply wf_set; eauto using wf_sub|done|]. rewrite <- Hheld. apply held_map_set; [by rewrite Hheld|done|done].
    + apply makeRoom_full in Eg. exfalso. rewrite map_size_disj_union in Hsize by (by apply map_disjoint_singleton_r).
      rewrite map_size_singleton in Hsize. lia.
Qed.
Lemma restore_list f l : wf f → Forall held_ok l → (size (held_map f ∪ list_to_map (map kept_entry l)) ≤ 64)%nat →
  let f' := foldl restore_one f (map (λ h, Some (raw_held h)) l) in
  wf f' ∧ Family.tried f' = Family.tried f ∧ held_map f' = held_map f ∪ list_to_map (map kept_entry l).
Proof.
  cbv zeta. intros Hwf Hl. revert f Hwf. induction Hl as [|h l Hh Hl IH]; intros f Hwf Hsize; cbn [map foldl].
  { split_and!; [done|done|]. symmetry. apply map_union_empty. }
  cbn [map] in Hsize.
  change (list_to_map (kept_entry h :: map kept_entry l) : gmap string (Z * Z))
    with (<[codeKey (mark_of h) := HeldCode.positions h]> (list_to_map (map kept_entry l)) : gmap string (Z * Z)) in *.
  rewrite insert_union_singleton_l, (assoc_L (∪)) in *.
  destruct (restore_one_spec f h Hwf Hh) as (Hwf' & Ht & Hheld).
  { etrans; [|exact Hsize]. apply map_subseteq_size, map_union_subseteq_l. }
  rewrite <- Hheld in *. destruct (IH _ Hwf' Hsize) as (? & Ht' & ?). by rewrite Ht', Ht.
Qed.

(** A family with the kept value folded in holds what both hold, a code held here keeping its positions. *)
Lemma restore_kept f v : wf f → kept_ok v → (size (held_map f ∪ kept_map v) ≤ 64)%nat →
  let f' := restoreHolds f (Some (raw_holds v)) in
  wf f' ∧ Family.tried f' = Family.tried f || HoldsValue.tried v ∧ held_map f' = held_map f ∪ kept_map v.
Proof.
  cbv zeta. intros Hwf [Hl _] Hsize. unfold restoreHolds, raw_holds. cbn [RawHolds.v RawHolds.tried RawHolds.held].
  rewrite bool_decide_eq_true_2 by done. cbn [negb]. set (g := if HoldsValue.tried v then _ else f).
  assert (Family.issued g = Family.issued f ∧ Family.tried g = Family.tried f || HoldsValue.tried v) as [Hi Ht].
  { unfold g. destruct (HoldsValue.tried v); cbn; by rewrite ?orb_true_r, ?orb_false_r. }
  assert (wf g) as Hg by (apply (wf_sub f); [done|by rewrite Hi]).
  assert (held_map g = held_map f) as Hm by (unfold held_map; by rewrite Hi).
  rewrite <- (map_map raw_held Some (HoldsValue.held v)), (map_map raw_held Some).
  destruct (restore_list g (HoldsValue.held v) Hg Hl) as (? & Ht' & Hm'); [by rewrite Hm|].
  split; [done|]. by rewrite Ht', Hm', Hm.
Qed.

(** What a family is kept as says what it holds. *)
Lemma held_entries_elem f key i : (key, i) ∈ held_entries (Family.issued f) ↔ Family.issued f !! key = Some i ∧ Issued.held i = true.
Proof. unfold held_entries. rewrite list_elem_of_filter, elem_of_map_to_list. cbn. naive_solver. Qed.
Lemma held_entries_NoDup (m : gmap string Issued.t) :
  NoDup (map fst (map (λ e : string * Issued.t, (e.1, Issued.positions e.2)) (held_entries m))).
Proof.
  rewrite map_map. cbn. unfold held_entries. eapply sublist_NoDup; [apply (NoDup_fst_map_to_list m)|].
  apply fmap_sublist, sublist_filter.
Qed.
Lemma held_entries_map f : (list_to_map (map (λ e : string * Issued.t, (e.1, Issued.positions e.2)) (held_entries (Family.issued f))) : gmap string (Z * Z))
  = held_map f.
Proof.
  apply map_eq. intros key. apply option_eq. intros p. rewrite held_map_lookup. rewrite <- elem_of_list_to_map.
  - rewrite list_elem_of_fmap. split.
    + intros ((k & i) & [= -> ->] & [Hi Hh]%held_entries_elem). eauto.
    + intros (i & Hi & Hh & <-). exists (key, i). split; [done|]. by apply held_entries_elem.
  - apply held_entries_NoDup.
Qed.
Lemma kept_entries f : wf f → map kept_entry (map held_code (held_entries (Family.issued f))) =
  map (λ e : string * Issued.t, (e.1, Issued.positions e.2)) (held_entries (Family.issued f)).
Proof.
  intros [_ Hc]. rewrite map_map. apply list_fmap_ext. intros n [key i] [Hi _]%list_elem_of_lookup_2%held_entries_elem.
  destruct (Hc _ _ Hi) as (mark & Hm & -> & _). unfold kept_entry. rewrite held_codeKey by done. cbn. by destruct mark.
Qed.
Lemma holdsValue_some f v : wf f → holdsValue (Some f) = Some v →
  kept_ok v ∧ kept_map v = held_map f ∧ HoldsValue.tried v = Family.tried f.
Proof.
  intros Hwf. unfold holdsValue. destruct (_ && _); [done|]. intros [= <-].
  assert (kept_map (HoldsValue.Build_t (Family.tried f) (merge_sort held_le (map held_code (held_entries (Family.issued f))))) = held_map f) as Hmap.
  { unfold kept_map. cbn. rewrite <- held_entries_map, <- kept_entries by done. apply list_to_map_proper; [|by rewrite merge_sort_Permutation].
    rewrite merge_sort_Permutation, kept_entries by done. apply held_entries_NoDup. }
  split_and!; [|done|done]. constructor; [|rewrite Hmap; etrans; [apply held_map_size|apply (wf_size _ Hwf)]].
  cbn. rewrite merge_sort_Permutation. rewrite Forall_map, Forall_forall. intros [key i] [Hi _]%held_entries_elem.
  destruct (wf_codes _ Hwf _ _ Hi) as (mark & Hm & -> & Hp). unfold held_ok. rewrite held_codeKey by done. cbn. by destruct mark.
Qed.

Lemma holdsValue_none f : holdsValue (Some f) = None → held_map f = ∅ ∧ Family.tried f = false.
Proof.
  unfold holdsValue. destruct (Family.tried f) eqn:Et; cbn [negb andb]; [done|].
  destruct (Z.eqb_spec (llen (merge_sort held_le (map held_code (held_entries (Family.issued f))))) 0) as [E|]; [|done]. intros _.
  split; [|done]. rewrite <- held_entries_map. unfold llen in E. rewrite merge_sort_Permutation, length_map in E.
  destruct (held_entries (Family.issued f)); [done|cbn in E; lia].
Qed.

(** ** Drawing the positions *)

(** Each of the twelve positions is drawn by as many of the 32-bit words. *)
Lemma position_even v p : 0 ≤ p < 12 → 0 ≤ v < 2 ^ 32 → (position [v] = Some (p, [])) ↔ ∃ q, 0 ≤ q < DRAW_LIMIT / 12 ∧ v = 12 * q + p.
Proof.
  intros Hp Hv. cbn. change (DRAW_LIMIT / 12) with 357913941. change DRAW_LIMIT with (12 * 357913941).
  destruct (Z.ltb_spec v (12 * 357913941)); split.
  - intros [= <-]. exists (v / 12). pose proof (Z.div_mod v 12 ltac:(lia)). pose proof (Z.mod_pos_bound v 12 ltac:(lia)). split; [|lia].
    split; [apply Z.div_pos; lia|apply Z.div_lt_upper_bound; lia].
  - intros (q & Hq & ->). rewrite Z.mul_comm, Z.add_comm, Z_mod_plus_full, Z.mod_small by lia. done.
  - done.
  - intros (q & Hq & ->). lia.
Qed.
Lemma position_range draws p rest : position draws = Some (p, rest) → 0 ≤ p < 12.
Proof.
  induction draws as [|v draws IH]; [done|]. cbn. destruct (v <? DRAW_LIMIT); [|done].
  intros [= <- _]. apply Z.mod_pos_bound. lia.
Qed.
Lemma position_shorter draws p rest : position draws = Some (p, rest) → (length rest < length draws)%nat.
Proof.
  induction draws as [|v draws IH]; [done|]. cbn. destruct (v <? DRAW_LIMIT); [intros [= _ <-]; lia|].
  intros H. specialize (IH H). lia.
Qed.
Lemma other_position_ok fuel first_ draws p rest : other_position fuel first_ draws = Some (p, rest) → 0 ≤ p < 12 ∧ p ≠ first_.
Proof.
  revert draws. induction fuel as [|n IH]; intros draws; [done|]. cbn.
  destruct (position draws) as [[q l]|] eqn:E; [|done]. destruct (Z.eqb_spec q first_); [apply IH|].
  intros [= <- _]. split; [by eapply position_range|done].
Qed.
Lemma hiddenPositions_ok draws p : hiddenPositions draws = Some p → positions_ok p.
Proof.
  unfold hiddenPositions. destruct (position draws) as [[a l]|] eqn:Ea; [|done].
  destruct (other_position _ a l) as [[b r]|] eqn:Eb; [|done]. apply position_range in Ea. apply other_position_ok in Eb as [Hb Hne].
  unfold positions_ok. destruct (Z.ltb_spec a b); intros [= <-]; cbn; lia.
Qed.
(** [other_position] has turns for every draw: more change nothing. *)
Lemma other_position_fuel n m first_ draws : (length draws < n)%nat → (length draws < m)%nat →
  other_position n first_ draws = other_position m first_ draws.
Proof.
  revert m draws. induction n as [|n IH]; intros m draws Hn Hm; [lia|]. destruct m as [|m]; [lia|]. cbn.
  destruct (position draws) as [[q l]|] eqn:E; [|done]. destruct (q =? first_); [|done].
  apply position_shorter in E. apply IH; lia.
Qed.

(** ** The promise is kept *)

Lemma held_map_unheld f key p seq : Family.issued f !! key = None →
  held_map (Family.Build_t (Family.tried f) (<[key := Issued.Build_t p false seq]> (Family.issued f)) seq) = held_map f.
Proof.
  intros Hn. unfold held_map. cbn. apply map_eq. intros k. rewrite !lookup_omap.
  destruct (decide (k = key)) as [->|]; [by rewrite lookup_insert_eq, Hn|by rewrite lookup_insert_ne].
Qed.

(** What is kept says what is promised, and a family taken back holds just that. *)
Definition kept_says (s : Join.t) (p : Promise.t) : Prop :=
  match Join.kept s with
  | None => Promise.wrong p = ∅ ∧ Promise.tried p = false
  | Some v => kept_ok v ∧ kept_map v = Promise.wrong p ∧ HoldsValue.tried v = Promise.tried p
  end.
Definition says (f : Family.t) (p : Promise.t) : Prop :=
  wf f ∧ held_map f = Promise.wrong p ∧ Family.tried f = Promise.tried p.
Definition join_inv (s : Join.t) (p : Promise.t) : Prop :=
  kept_says s p ∧ ∀ f, Join.family s = Some f →
    wf f ∧ held_map f ⊆ Promise.wrong p ∧ (Family.tried f = true → Promise.tried p = true).

Lemma wf_fresh : wf newJoinFamily.
Proof. constructor; [vm_compute; lia|done]. Qed.

Lemma restored s p : join_inv s p → says (Join.joinFamily (Join.restoreFrom s)) p ∧ kept_says (Join.restoreFrom s) p ∧
  Join.generation (Join.restoreFrom s) = Join.generation s.
Proof.
  intros [Hk Hf]. unfold Join.restoreFrom, kept_says in *. destruct (Join.kept s) as [v|] eqn:Ek.
  - destruct Hk as (Hv & Hm & Ht). cbn [Join.with_family Join.kept Join.generation]. rewrite Ek. split; [|done].
    change (says (restoreHolds (Join.joinFamily s) (Some (raw_holds v))) p).
    assert (wf (Join.joinFamily s) ∧ held_map (Join.joinFamily s) ⊆ Promise.wrong p ∧
      (Family.tried (Join.joinFamily s) = true → Promise.tried p = true)) as (Hwf & Hsub & Ht').
    { unfold Join.joinFamily. destruct (Join.family s) as [f|]; [by apply Hf|]. cbn.
      split_and!; [apply wf_fresh| |done]. unfold held_map. cbn. rewrite omap_empty. apply map_empty_subseteq. }
    assert (held_map (Join.joinFamily s) ∪ kept_map v = kept_map v) as E.
    { rewrite Hm. by apply map_subseteq_union. }
    destruct (restore_kept _ v Hwf Hv) as (H1 & H2 & H3); [rewrite E; apply (ko_size _ Hv)|].
    split_and!; [done|by rewrite H3, E|]. rewrite H2, Ht. destruct (Family.tried (Join.joinFamily s)); [by rewrite Ht'|done].
  - rewrite Ek. split; [|done]. destruct Hk as [Hw Ht]. unfold says, Join.joinFamily.
    destruct (Join.family s) as [f|]; cbn; [destruct (Hf f eq_refl) as (Hwf & Hsub & Ht')|].
    + split_and!; [done| |]. { rewrite Hw in *. apply map_empty. intros k. apply eq_None_not_Some. intros [q Hq].
        pose proof (lookup_weaken _ _ _ _ Hq Hsub) as Hk. by rewrite lookup_empty in Hk. }
      rewrite Ht in *. destruct (Family.tried f); [by rewrite Ht'|done].
    + split_and!; [apply wf_fresh| |done]. by rewrite Hw.
Qed.

Lemma showing_ok s p mark drawn status : says (Join.joinFamily s) p → kept_says s p → mark_ok mark → positions_ok drawn →
  let r := Join.showing s mark drawn status in
  join_inv r.1 p ∧ Join.kept r.1 = Join.kept s ∧
  ((∃ e, r.2 = Join.refused e) ∨ ∃ hidden, r.2 = status mark hidden ∧
     ∀ positions, Promise.wrong p !! codeKey mark = Some positions → hidden = positions).
Proof.
  cbv zeta. intros (Hwf & Hm & Ht) Hk Hmark Hd. unfold Join.showing, showCode.
  assert (∀ f, says f p → join_inv (Join.with_family s (Some f)) p) as Hinv.
  { intros f (? & Hfm & Hft). split; [done|]. cbn. intros g [= <-]. rewrite Hfm, Hft. done. }
  destruct (Family.issued _ !! codeKey mark) as [i|] eqn:Ei; cbn.
  - split; [by apply Hinv|]. split; [done|]. right. eexists. split; [done|]. intros positions Hp.
    rewrite <- Hm in Hp. apply held_map_lookup in Hp as (j & Hj & _ & <-). congruence.
  - destruct (makeRoom _) as [g|e] eqn:Eg; cbn; [|split; [by apply Hinv|split; [done|left; eauto]]].
    destruct (makeRoom_ok _ _ Eg (wf_size _ Hwf)) as (Hlt & Hgt & Hsub & Hgm).
    assert (Family.issued g !! codeKey mark = None) as Hn by (eapply lookup_weaken_None; eauto).
    split; [|split; [done|right; eexists; split; [done|]]].
    + apply Hinv. unfold insert_code. split_and!; [apply wf_set; eauto using wf_sub|by rewrite held_map_unheld, Hgm|by cbn; rewrite Hgt].
    + intros positions Hp. rewrite <- Hm in Hp. apply held_map_lookup in Hp as (j & Hj & _). congruence.
Qed.

Lemma kept_of f p s : says f p → kept_says (Join.Build_t (Some f) s (holdsValue (Some f))) p.
Proof.
  intros (Hwf & Hm & Ht). unfold kept_says. cbn [Join.kept]. destruct (holdsValue (Some f)) as [v|] eqn:E.
  - destruct (holdsValue_some _ _ Hwf E) as (? & Hv & Hv'). by rewrite Hv, Hv', Hm, Ht.
  - apply holdsValue_none in E as [E1 E2]. by rewrite <- Hm, <- Ht.
Qed.

(** A check of a code shown: the promise after it, and the outcome it asks for. *)
Lemma checkCode_says f p mark typed f' outcome i : says f p → mark_ok mark → Family.issued f !! codeKey mark = Some i →
  checkCode f mark typed = Ok (f', outcome) →
  says f' (Promise.after p (codeKey mark) (Issued.positions i) outcome) ∧
  (outcome ≠ matched → outcome = if Promise.tried p || bool_decide (is_Some (Promise.wrong p !! codeKey mark)) then mismatch else wrong_words).
Proof.
  intros (Hwf & Hm & Ht) Hmark Hi H. unfold checkCode in H. rewrite Hi in H. apply bind_ok in H as (a & _ & H).
  assert (bool_decide (is_Some (Promise.wrong p !! codeKey mark)) = Issued.held i) as Eheld.
  { rewrite <- Hm. destruct (Issued.held i) eqn:Eh.
    - apply bool_decide_eq_true_2. exists (Issued.positions i). apply held_map_lookup. eauto.
    - apply bool_decide_eq_false_2. intros (q & (j & Hj & Hh & _)%held_map_lookup). congruence. }
  assert (∀ b, wf (Family.Build_t (negb (bool_decide (a = match_))) (<[codeKey mark := Issued.Build_t (Issued.positions i) b (Issued.seq i)]> (Family.issued f)) (Family.seq f))) as Hwf'.
  { intros b. destruct (wf_codes _ Hwf _ _ Hi) as (m & _ & _ & Hp).
    destruct (wf_set f (codeKey mark) (Issued.Build_t (Issued.positions i) b (Issued.seq i)) (Family.seq f) Hwf) as [H1 H2]; eauto. by constructor. }
  destruct (a === match_) eqn:Ea; injection H as <- <-; split.
  - split_and!; [apply Hwf'| |done]. cbn [Promise.after Promise.wrong]. rewrite <- Hm. unfold held_map. cbn. by rewrite omap_insert.
  - done.
  - assert (Promise.after p (codeKey mark) (Issued.positions i) (if Issued.held i || Family.tried f then mismatch else wrong_words) =
      Promise.Build_t true (<[codeKey mark := Issued.positions i]> (Promise.wrong p))) as -> by (by destruct (_ || _)).
    split_and!; [apply Hwf'| |done]. cbn [Promise.after Promise.wrong]. rewrite <- Hm. unfold held_map. cbn. by rewrite omap_insert.
  - intros _. rewrite Eheld, <- Ht. by rewrite orb_comm.
Qed.

(** What is asked of the codes the admission gives and of the positions drawn. *)
Definition shows_ok (now : option JoinMark.t) (drawn : Z * Z) : Prop :=
  match now with Some mark => mark_ok mark ∧ ∃ draws, hiddenPositions draws = Some drawn | None => True end.
Definition op_ok (o : Join.op) : Prop :=
  match o with Join.preview now drawn | Join.check _ _ _ _ now drawn => shows_ok now drawn | Join.lock => True end.

Lemma join_inv_ready s p : says (Join.joinFamily s) p → kept_says s p → join_inv s p.
Proof.
  intros (Hwf & Hm & Ht) Hk. split; [done|]. intros f Hf. unfold Join.joinFamily in *. rewrite Hf in *. cbn in *. by rewrite Hm, Ht.
Qed.

Lemma shown_issued s mark hidden : stillShown (Join.family s) mark hidden = true →
  ∃ i, Family.issued (Join.joinFamily s) !! codeKey mark = Some i ∧ hidden = [(Issued.positions i).1; (Issued.positions i).2].
Proof.
  unfold stillShown, Join.joinFamily. destruct (Join.family s) as [f|]; [|done]. cbn.
  destruct (Family.issued f !! codeKey mark) as [i|]; [|done]. intros H. apply bool_decide_eq_true in H. eauto.
Qed.
Lemma sameMark_key a b : sameMark a b = true → codeKey a = codeKey b.
Proof. unfold sameMark, codeKey. intros H. bool_simpl. congruence. Qed.

Lemma check_ok s p session mark hidden typed now drawn : join_inv s p → shows_ok now drawn →
  let o := Join.check session mark hidden typed now drawn in let r := Join.perform s o in
  join_inv r.1 (Promise.next p o r.2) ∧ Promise.allows p o r.2.
Proof.
  cbv zeta. intros Hinv Hok. destruct (restored _ _ Hinv) as (Hsays & Hk & _). cbn [Join.perform]. unfold Join.joinCheckOf.
  set (t := Join.restoreFrom s) in *. pose proof (join_inv_ready _ _ Hsays Hk) as Hback.
  destruct ((session !== _) || _) eqn:E1; [done|]. bool_simpl. destruct (negb (typedComplete typed)); [done|].
  destruct now as [now|]; [|done]. destruct Hok as (Hmark & draws & Hd%hiddenPositions_ok).
  destruct (sameMark now mark) eqn:Esame; cbn [negb].
  - apply sameMark_key in Esame. destruct (shown_issued t mark hidden ltac:(done)) as (i & Hi & ->).
    destruct (checkCode _ now typed) as [[f' outcome]|e] eqn:Ec; [|done]. rewrite <- Esame in Hi.
    destruct (checkCode_says _ _ _ _ _ _ _ Hsays Hmark Hi Ec) as [Hsays' Hout]. cbn [fst snd Promise.next Promise.allows].
    rewrite Esame, <- surjective_pairing in *. split; [|split; [|done]].
    + apply join_inv_ready; [done|by apply kept_of].
    + intros positions Hp. destruct Hsays as (_ & Hm & _). rewrite <- Hm in Hp.
      apply held_map_lookup in Hp as (j & Hj & _ & <-). congruence.
  - destruct (showing_ok t p now drawn Join.changed Hsays Hk Hmark Hd) as (H1 & _ & [(e & ->)|(h & -> & Hh)]); split; try done.
Qed.
Lemma preview_ok s p now drawn : join_inv s p → shows_ok now drawn →
  let o := Join.preview now drawn in let r := Join.perform s o in
  join_inv r.1 (Promise.next p o r.2) ∧ Promise.allows p o r.2.
Proof.
  cbv zeta. intros Hinv Hok. destruct (restored _ _ Hinv) as (Hsays & Hk & _). cbn [Join.perform]. unfold Join.joinPreview.
  destruct now as [now|]; [|split; [by apply join_inv_ready|done]]. destruct Hok as (Hmark & draws & Hd%hiddenPositions_ok).
  destruct (showing_ok _ p now drawn Join.code Hsays Hk Hmark Hd) as (H1 & _ & [(e & ->)|(h & -> & Hh)]); split; done.
Qed.
Lemma run_inv s p ops : join_inv s p → Forall op_ok ops →
  let r := Join.run s ops in let history := zip ops r.2 in
  join_inv r.1 (Promise.promised p history) ∧ Promise.kept_along p history.
Proof.
  cbv zeta. intros Hinv Hops. revert s p Hinv. induction Hops as [|o ops Ho _ IH]; intros s p Hinv; [done|]. cbn.
  assert (join_inv (Join.perform s o).1 (Promise.next p o (Join.perform s o).2) ∧ Promise.allows p o (Join.perform s o).2) as [Hinv' Ha].
  { destruct o; [by apply preview_ok|by apply check_ok|]. split; [|done]. destruct Hinv as [Hk _]. split; [exact Hk|done]. }
  destruct (Join.perform s o) as [s' a]. cbn in *. destruct (IH _ _ Hinv') as [IH1 IH2].
  destruct (Join.run s' ops) as [s'' l]. cbn in *. by split_and!.
Qed.

(** C31. The code comparison across showings, checks and locks, whatever a
    server serves in between: a code typed wrong is shown again at the very
    positions it was typed wrong at until it is typed right; a wrong pair is
    the alarm whenever a wrong one came before it with no match since, in any
    session; what the caller keeps says exactly that, and no family keeps more
    than 64 codes. *)
Theorem join_keeps_promise ops : Forall op_ok ops →
  let r := Join.run Join.fresh_worker ops in let history := zip ops r.2 in
  Promise.kept_along Promise.fresh_promise history ∧
  kept_says r.1 (Promise.promised Promise.fresh_promise history) ∧
  ∀ f, Join.family r.1 = Some f → Z.of_nat (size (Family.issued f)) ≤ MAX_SHOWN_CODES.
Proof.
  cbv zeta. intros Hops. destruct (run_inv Join.fresh_worker Promise.fresh_promise ops ltac:(by split) Hops) as [[Hk Hf] Ha].
  split_and!; [done|done|]. intros f Hff. destruct (Hf _ Hff) as (Hwf & _). pose proof (wf_size _ Hwf). unfold MAX_SHOWN_CODES. lia.
Qed.

(** What a lock or a reload keeps of an escalation comes back whole:
    restored, it holds every code a wrong pair held, at its positions and no
    other, and the family's wrong pair; where nothing is kept there was
    nothing held. *)
Theorem holds_roundtrip f : wf f →
  let f' := restoreHolds newJoinFamily (raw_holds <$> holdsValue (Some f)) in
  held_map f' = held_map f ∧ Family.tried f' = Family.tried f ∧ wf f'.
Proof.
  cbv zeta. intros Hwf. destruct (holdsValue (Some f)) as [v|] eqn:E; cbn [fmap option_fmap option_map].
  - destruct (holdsValue_some _ _ Hwf E) as (Hv & Hm & Ht).
    assert (held_map newJoinFamily ∪ kept_map v = kept_map v) as Eu.
    { unfold held_map. cbn. rewrite omap_empty. apply map_empty_union. }
    destruct (restore_kept newJoinFamily v wf_fresh Hv) as (H1 & H2 & H3); [rewrite Eu; apply (ko_size _ Hv)|].
    by rewrite H3, Eu, Hm, H2, Ht.
  - apply holdsValue_none in E as [-> ->]. split_and!; [|done|apply wf_fresh]. unfold held_map. cbn. apply omap_empty.
Qed.

(** ** Witnesses *)

(** A code shown, typed wrong, and typed wrong again after a lock. *)
Module JoinWitness.
Definition mark : JoinMark.t := JoinMark.Build_t 3 (replicate 12 "apple").
Definition ops : list Join.op :=
  [Join.preview (Some mark) (2, 7); Join.check 0 mark [2; 7] ["pear"; "apple"] (Some mark) (0, 1); Join.lock;
   Join.preview (Some mark) (4, 5); Join.check 1 mark [2; 7] ["apple"; "plum"] (Some mark) (0, 1);
   Join.check 1 mark [2; 7] ["apple"; " Apple "] (Some mark) (0, 1)].
Lemma answers : (Join.run Join.fresh_worker ops).2 =
  [Join.code mark (2, 7); Join.said wrong_words; Join.done_; Join.code mark (2, 7); Join.said mismatch; Join.said matched].
Proof. vm_compute. reflexivity. Qed.
Lemma mark_is_ok : mark_ok mark.
Proof. split; [split; vm_compute; discriminate|split; [reflexivity|repeat constructor]]. Qed.
Lemma ops_ok : Forall op_ok ops.
Proof.
  assert (∀ draws p, hiddenPositions draws = Some p → shows_ok (Some mark) p) as H by (intros; split; [apply mark_is_ok|eauto]).
  unfold ops. repeat apply Forall_cons_2; try apply Forall_nil_2; cbn [op_ok];
    first [done|by apply (H [2; 7])|by apply (H [0; 1])|by apply (H [4; 5])].
Qed.
Definition family : Family.t := default newJoinFamily (Join.family (Join.run Join.fresh_worker (take 2 ops)).1).
Lemma family_wf : wf family.
Proof.
  destruct (run_inv Join.fresh_worker Promise.fresh_promise (take 2 ops) ltac:(by split) ltac:(apply Forall_take, ops_ok)) as [[_ Hf] _].
  apply Hf. vm_compute. reflexivity.
Qed.
End JoinWitness.

Lemma join_keeps_promise_witness : Forall op_ok JoinWitness.ops ∧
  Promise.kept_along Promise.fresh_promise (zip JoinWitness.ops (Join.run Join.fresh_worker JoinWitness.ops).2).
Proof. split; [apply JoinWitness.ops_ok|]. exact (proj1 (join_keeps_promise JoinWitness.ops JoinWitness.ops_ok)). Defined.

Lemma holds_roundtrip_witness : held_map (restoreHolds newJoinFamily (raw_holds <$> holdsValue (Some JoinWitness.family))) = held_map JoinWitness.family.
Proof.
  exact (proj1 (holds_roundtrip JoinWitness.family JoinWitness.family_wf)).
Defined.
