(* ===== verification/GroupSession.v ===== *)
(** * A family's acceptances in the crypto worker (packages/crypto/src/session-groups.ts, settings-marks.ts)

    What the worker keeps of the families of one unlocked account
    ([Session.t], the state of [createGroupSession] with the area ledger it
    tells), and an acceptance as the worker runs it: begun, its marks read
    once the device record is open, the floor read, the served chain verified,
    committed or refused, and its guard worked out. Each part between two
    awaits is one function of the session; between them the session may be
    locked, the family forgotten, or another acceptance committed.

    The device record and the saved change of a creation are given as they
    opened; [GroupRuns] has the steps' interleavings and the theorems. *)

From S2P Require Import Prelude Base64url Bytes Canonical Crypto Roster Identity Ledger Pins Chain Acceptance NextRoster Areas DriveKeys.

Definition NOT_THIS_ACCOUNT : string := "These keys are not this account's. Unlock again and retry.".
Definition NO_ACCOUNT : string := "Unlock your account first.".
Definition OPEN_SETTINGS : string := "Open your settings first.".
Definition FAMILY_FORGOTTEN : string := "This family was removed from this device while it was being checked. Sync again.".
Definition GUARD_UNREADABLE : string := "HushOS couldn’t check this right now.".
Definition GUARD_CONFLICT : string :=
  "This family looks different from what this device already checked, so nothing of it was removed.".
Definition GUARD_AHEAD : string :=
  "This device already checked a later member list for this family. Sync it first, then remove it.".
Definition OLDER_SETTINGS : string :=
  "The server sent older settings than this device has opened, so nothing was changed.".

(** ** The settings this session opened (settings-marks.ts) *)

(** A family's check record: one without a code, or one acceptance reads as a pair mark. *)
Inductive FamilyCheck := check_before | check_mark (mark : RawMark.t).
(** [groups] and [familyChecks] as filed, a member that is null left out; a pin that is no object is [None]. *)
Module Settings.
Record t := { groups : gmap string (option RawGroupPin.t); familyChecks : gmap string FamilyCheck }.
End Settings.
Module SettingsMarks.
Record t := {
  userId : string; pins : gmap string (option RawGroupPin.t); checks : gmap string FamilyCheck; opened : bool; settingsVersion : Z;
}.
End SettingsMarks.

Definition held_open (held : option SettingsMarks.t) (userId : string) : option SettingsMarks.t :=
  match held with
  | Some h => if (SettingsMarks.userId h === userId) && SettingsMarks.opened h then Some h else None
  | None => None
  end.
Definition refuseDowngrade (held : option SettingsMarks.t) (userId : string) : result unit :=
  match held_open held userId with Some _ => Err OLDER_SETTINGS | None => Ok tt end.
Definition settingsMarks (held : option SettingsMarks.t) (userId : string) (settings : option Settings.t) (settingsVersion : Z)
    : result SettingsMarks.t :=
  match settings with
  | None => let* _ := refuseDowngrade held userId in Ok (SettingsMarks.Build_t userId ∅ ∅ false 0)
  | Some settings =>
      refuse OLDER_SETTINGS when
        match held_open held userId with Some h => settingsVersion <? SettingsMarks.settingsVersion h | None => false end ;;
      Ok (SettingsMarks.Build_t userId (Settings.groups settings) (Settings.familyChecks settings) true settingsVersion)
  end.
Definition familyCheckOf (marks : SettingsMarks.t) (groupId : string) : bool * list RawMark.t :=
  match SettingsMarks.checks marks !! groupId with
  | None => (false, [])
  | Some check_before => (true, [])
  | Some (check_mark mark) => (true, [mark])
  end.
Definition settingsPinOf (marks : SettingsMarks.t) (groupId : string) : option (option RawGroupPin.t) :=
  SettingsMarks.pins marks !! groupId.

(** ** What the session keeps *)

(** A change saved until the server takes it: the chain it makes and the buffers of its secrets. *)
Module Staged.
Record t := { groupId : string; chain : option Body.t; secrets : list buf }.
End Staged.
(** [unlocked] and [identity] are the host's; a seed's slot is its group and key
    version. Seeds and secrets are buffers of [memory], the ledger's keys of its own. *)
Module Session.
Record t := {
  ledger : Worker.t; memory : gmap buf bytes; chains : gmap string Body.t; forked : gset string; seeds : gmap (string * Z) buf;
  staged : gmap string Staged.t; opened : gmap string (gmap string (string * Z)); generation : Z; forgets : gmap string Z;
  guardsOwed : gmap string GroupPin.t; settings : option SettingsMarks.t; unlocked : option string; identity : option Me.t;
}.
End Session.

Section session_setters.
Context (s : Session.t).
Definition set_ledger v : Session.t := Session.Build_t v (Session.memory s) (Session.chains s) (Session.forked s) (Session.seeds s) (Session.staged s) (Session.opened s) (Session.generation s) (Session.forgets s) (Session.guardsOwed s) (Session.settings s) (Session.unlocked s) (Session.identity s).
Definition set_memory v : Session.t := Session.Build_t (Session.ledger s) v (Session.chains s) (Session.forked s) (Session.seeds s) (Session.staged s) (Session.opened s) (Session.generation s) (Session.forgets s) (Session.guardsOwed s) (Session.settings s) (Session.unlocked s) (Session.identity s).
Definition set_families chains forked : Session.t := Session.Build_t (Session.ledger s) (Session.memory s) chains forked (Session.seeds s) (Session.staged s) (Session.opened s) (Session.generation s) (Session.forgets s) (Session.guardsOwed s) (Session.settings s) (Session.unlocked s) (Session.identity s).
Definition set_seeds v : Session.t := Session.Build_t (Session.ledger s) (Session.memory s) (Session.chains s) (Session.forked s) v (Session.staged s) (Session.opened s) (Session.generation s) (Session.forgets s) (Session.guardsOwed s) (Session.settings s) (Session.unlocked s) (Session.identity s).
Definition set_staged v : Session.t := Session.Build_t (Session.ledger s) (Session.memory s) (Session.chains s) (Session.forked s) (Session.seeds s) v (Session.opened s) (Session.generation s) (Session.forgets s) (Session.guardsOwed s) (Session.settings s) (Session.unlocked s) (Session.identity s).
Definition set_opened v : Session.t := Session.Build_t (Session.ledger s) (Session.memory s) (Session.chains s) (Session.forked s) (Session.seeds s) (Session.staged s) v (Session.generation s) (Session.forgets s) (Session.guardsOwed s) (Session.settings s) (Session.unlocked s) (Session.identity s).
Definition set_generation v : Session.t := Session.Build_t (Session.ledger s) (Session.memory s) (Session.chains s) (Session.forked s) (Session.seeds s) (Session.staged s) (Session.opened s) v (Session.forgets s) (Session.guardsOwed s) (Session.settings s) (Session.unlocked s) (Session.identity s).
Definition set_forgets v : Session.t := Session.Build_t (Session.ledger s) (Session.memory s) (Session.chains s) (Session.forked s) (Session.seeds s) (Session.staged s) (Session.opened s) (Session.generation s) v (Session.guardsOwed s) (Session.settings s) (Session.unlocked s) (Session.identity s).
Definition set_guardsOwed v : Session.t := Session.Build_t (Session.ledger s) (Session.memory s) (Session.chains s) (Session.forked s) (Session.seeds s) (Session.staged s) (Session.opened s) (Session.generation s) (Session.forgets s) v (Session.settings s) (Session.unlocked s) (Session.identity s).
Definition set_settings v : Session.t := Session.Build_t (Session.ledger s) (Session.memory s) (Session.chains s) (Session.forked s) (Session.seeds s) (Session.staged s) (Session.opened s) (Session.generation s) (Session.forgets s) (Session.guardsOwed s) v (Session.unlocked s) (Session.identity s).
Definition set_host unlocked identity : Session.t := Session.Build_t (Session.ledger s) (Session.memory s) (Session.chains s) (Session.forked s) (Session.seeds s) (Session.staged s) (Session.opened s) (Session.generation s) (Session.forgets s) (Session.guardsOwed s) (Session.settings s) unlocked identity.
End session_setters.

(** The ledger's own operations. *)
Definition ledger_op {A} (m : op A) (s : Session.t) : Session.t := set_ledger s (m (Session.ledger s)).1.
Definition on_ledger (f : Areas.t → Areas.t) (s : Session.t) : Session.t :=
  set_ledger s (set_areas (Session.ledger s) (f (Worker.areas (Session.ledger s)))).
Definition ledger_areas (s : Session.t) : Areas.t := Worker.areas (Session.ledger s).
Definition epoch_of (s : Session.t) (groupId : string) : Z := default 0 (Session.forgets s !! groupId).

(** Refused once the session an acceptance began in was forgotten, or another account is open. *)
Definition stillTheSession (s : Session.t) (began : Z) (userId : string) : result unit :=
  refuse NOT_THIS_ACCOUNT when negb (Session.generation s =? began) ;;
  match Session.unlocked s with
  | None => Err NO_ACCOUNT
  | Some now => refuse NOT_THIS_ACCOUNT when now !== userId ;; Ok tt
  end.
(** Refused once the family was let go of after an acceptance of it began at [epoch]. *)
Definition stillTheFamily (s : Session.t) (groupId : string) (epoch : Z) : result unit :=
  refuse FAMILY_FORGOTTEN unless epoch_of s groupId =? epoch ;; Ok tt.

(** [dropStaged] of each, their secrets zeroed; seeds the same. *)
Definition zero_buffers (bufs : list buf) (s : Session.t) : Session.t := set_memory s (foldl zero_in (Session.memory s) bufs).
Definition drop_all_staged (gone : string * Staged.t → Prop) `{∀ e, Decision (gone e)} (s : Session.t) : Session.t :=
  set_staged (zero_buffers (map_to_list (filter gone (Session.staged s)) ≫= (λ e, Staged.secrets e.2)) s)
    (filter (λ e, ¬ gone e) (Session.staged s)).
Definition dropStaged (outboxId : string) (s : Session.t) : Session.t := drop_all_staged (λ e, e.1 = outboxId) s.
Definition drop_seeds (gone : (string * Z) * buf → Prop) `{∀ e, Decision (gone e)} (s : Session.t) : Session.t :=
  set_seeds (zero_buffers (map snd (map_to_list (filter gone (Session.seeds s)))) s) (filter (λ e, ¬ gone e) (Session.seeds s)).

(** The chain committed: the ledger first; what it replaced goes. *)
Definition built_elsewhere (chain : Body.t) (e : string * Staged.t) : Prop :=
  Staged.groupId e.2 = Body.groupId chain ∧
  match Staged.chain e.2 with Some staged => Roster.previousRosterDigest (Body.roster staged) ≠ Body.rosterDigest chain | None => False end.
#[export] Instance built_elsewhere_dec chain e : Decision (built_elsewhere chain e).
Proof. unfold built_elsewhere. destruct (Staged.chain e.2); apply _. Defined.
Definition replaced_seed (chain : Body.t) (e : (string * Z) * buf) : Prop :=
  e.1.1 = Body.groupId chain ∧ e.1.2 < Body.groupKeyVersion chain.
#[export] Instance replaced_seed_dec chain e : Decision (replaced_seed chain e).
Proof. unfold replaced_seed. apply _. Defined.

Definition commit (chain : Body.t) (s : Session.t) : result Session.t :=
  let '(ledger, committed) := commit_chain chain (Session.ledger s) in
  let* _ := committed in
  let s := set_ledger s ledger in
  let groupId := Body.groupId chain in
  let s := set_families s (<[groupId := chain]> (Session.chains s)) (Session.forked s ∖ {[groupId]}) in
  Ok (drop_all_staged (built_elsewhere chain) (drop_seeds (replaced_seed chain) s)).
(** A refusal or a fork. *)
Definition uncommit (groupId : string) (fork : bool) (s : Session.t) : Session.t :=
  let s := on_ledger (λ a, Areas.uncommit a groupId) s in
  set_families s (delete groupId (Session.chains s))
    (if fork then {[groupId]} ∪ Session.forked s else Session.forked s ∖ {[groupId]}).

Definition forgetGroup (groupId : string) (s : Session.t) : Session.t :=
  let s := set_guardsOwed s (delete groupId (Session.guardsOwed s)) in
  let s := set_forgets s (<[groupId := epoch_of s groupId + 1]> (Session.forgets s)) in
  let s := drop_seeds (λ e, e.1.1 = groupId) s in
  let s := drop_all_staged (λ e, Staged.groupId e.2 = groupId) s in
  let s := ledger_op (DriveKeys.forgetGroup groupId) s in
  let s := set_opened s (delete groupId (Session.opened s)) in
  set_families s (delete groupId (Session.chains s)) (Session.forked s ∖ {[groupId]}).
Definition forget (s : Session.t) : Session.t :=
  let s := set_guardsOwed s ∅ in
  let s := foldl (λ s groupId, forgetGroup groupId s) s (elements (dom (Session.chains s) ∪ dom (Session.opened s))) in
  let s := drop_seeds (λ _, True) s in
  let s := drop_all_staged (λ _, True) s in
  let s := ledger_op DriveKeys.forgetAllGroups s in
  let s := set_families s ∅ ∅ in
  let s := set_generation s (Session.generation s + 1) in
  set_settings (set_opened s ∅) None.
(** A lock, as [session.ts] makes one: the group state goes at once, whatever runs. *)
Definition lock (s : Session.t) : Session.t := ledger_op clear (forget (set_host s None None)).

Definition useSettings (userId : string) (settings : option Settings.t) (settingsVersion : Z) (s : Session.t) : result Session.t :=
  let* marks := settingsMarks (Session.settings s) userId settings settingsVersion in Ok (set_settings s (Some marks)).

(** ** An acceptance *)

(** The family guard as the caller passes it: not kept at all, none yet, unreadable, or held. *)
Inductive HeldGuard := guard_not_kept | guard_none | guard_unreadable | guard_held (pin : option RawGroupPin.t).
(** The device record as it opened: its record of a chain and its pin. *)
Module DeviceRecord.
Record t := { cache : option (option RawCache.t); pin : option (option RawGroupPin.t) }.
End DeviceRecord.
Module SignedStatementWire.
Record t := { statement : string; ed25519 : string; mlDsa : string; signerSignature : string }.
End SignedStatementWire.
(** [record]: none kept, kept but unreadable here, or as it opened; [creating]:
    the public key of the seed in the saved change of a creation. *)
Module AcceptInput.
Record t := {
  userId : string; groupId : string; firstKeys : GroupPublicKey.t; rosters : list SignedStatementWire.t;
  successions : list SignedStatementWire.t; signerKeys : gmap string string; record : option (option DeviceRecord.t);
  withoutCache : bool; guard : HeldGuard; creating : option (option GroupPublicKey.t); joining : bool; retried : bool;
  checkedAt : jsval;
}.
End AcceptInput.

Definition UNREADABLE : string := "The server sent a member list this device cannot read.".
Definition unwire (value : SignedStatementWire.t) : result SignedGroupStatement.t :=
  recast UNREADABLE (
    let* statement := decode (SignedStatementWire.statement value) None in
    let* ed25519 := decode (SignedStatementWire.ed25519 value) None in
    let* mlDsa := decode (SignedStatementWire.mlDsa value) None in
    let* signer := decode (SignedStatementWire.signerSignature value) None in
    Ok (SignedGroupStatement.Build_t statement (GroupSignature.Build_t ed25519 mlDsa) signer)).

(** What marks the family for this person: [marksOf], read once the record is open. *)
Module Marked.
Record t := {
  groupId : string; pins : list (option RawGroupPin.t); pairMarks : list RawMark.t;
  cache : option (option RawCache.t); marks : bool;
}.
End Marked.
(** *** The parts of a run *)

Inductive outcome :=
  | record_unreadable
  | fork_found (fork : RosterFork.t)
  | accepted_as (chain : Body.t) (pin : GroupPin.t) (guard : option GroupPin.t)
  | thrown (e : string).
(** Where a run waits: for a join's record and admission, for the device
    record, for the saved change, for the served chain's checks, for the pin. *)
Module Run.
Record began := {
  input : AcceptInput.t; generation : Z; epoch : Z; joinMark : option JoinMark.t; checkedAt : jsval; firstUse : option (option RawGroupPin.t);
}.
Inductive t :=
  | begun (r : began)
  | opening (r : began) (groupId : string)
  | marked (r : began) (m : Marked.t)
  | verifying (r : began) (m : Marked.t) (anchor : option Anchor) (held : option Body.t) (me : Me.t)
  | committed (r : began) (m : Marked.t) (chain : Body.t)
  | ended (o : outcome).
End Run.

Module ForgetAnswer.
Record t := { forgotten : bool; guard : option GroupPin.t; unreadable : bool }.
End ForgetAnswer.

Section accepting.
Context `{C : Crypto}.

(** The latest roster version what was served reaches, or the record's when nothing after it was served. *)
Definition servedHead (rosters : list SignedStatementWire.t) (cache : option (option RawCache.t)) : Z :=
  let kept := match cache with
    | Some (Some cache) => match RawCache.rosterDigests cache with Some digests => llen digests | None => 0 end
    | _ => 0
    end in
  foldl (λ head roster,
    match decode (SignedStatementWire.statement roster) None ≫= parseRoster with
    | Ok roster => Z.max head (Roster.rosterVersion roster)
    | Err _ => head
    end) kept rosters.

Definition unlocked_as (s : Session.t) (userId : string) : result unit :=
  match Session.unlocked s with
  | None => Err NO_ACCOUNT
  | Some now => refuse NO_ACCOUNT when userId !== now ;; Ok tt
  end.
(** Before the record is opened. *)
Definition marksOf_begin (s : Session.t) (input : AcceptInput.t) : result string :=
  refuse GUARD_UNREADABLE when match AcceptInput.guard input with guard_unreadable => true | _ => false end ;;
  let* groupId := uuid (JStr (AcceptInput.groupId input)) "group id" in
  let* _ := unlocked_as s (AcceptInput.userId input) in
  Ok groupId.
(** After: [None] when it does not open here. *)
Definition marksOf (s : Session.t) (input : AcceptInput.t) (groupId : string) : result (option Marked.t) :=
  match AcceptInput.record input with
  | Some None => Ok None
  | _ =>
      match Session.settings s with
      | None => Err OPEN_SETTINGS
      | Some settings =>
          refuse OPEN_SETTINGS when SettingsMarks.userId settings !== AcceptInput.userId input ;;
          let record := mjoin (AcceptInput.record input) in
          let cache := if AcceptInput.withoutCache input then None else record ≫= DeviceRecord.cache in
          let pins := omap id [settingsPinOf settings groupId; record ≫= DeviceRecord.pin;
            match AcceptInput.guard input with guard_held pin => Some pin | _ => None end] in
          let '(checked, pairMarks) := familyCheckOf settings groupId in
          Ok (Some (Marked.Build_t groupId pins pairMarks cache
            ((0 <? llen pins) || bool_decide (is_Some cache) || checked ||
             bool_decide (is_Some (Session.chains s !! groupId)) || bool_decide (groupId ∈ Session.forked s))))
      end
  end.

Definition ALREADY_CHECKED : string := "This device has already checked this family.".
Definition NOT_THE_CREATION : string := "This saved change did not create the family.".
Definition NOT_THE_CREATED_KEYS : string := "These are not the family keys this device made.".
Definition OPEN_IDENTITY : string := "Open your identity first.".

(** What vouches for the first keys where nothing marks the family. *)
Definition anchor_of (s : Session.t) (input : AcceptInput.t) (marked : Marked.t) (joinMark : option JoinMark.t)
    : result (option Anchor) :=
  match AcceptInput.creating input with
  | Some seed =>
      refuse ALREADY_CHECKED when Marked.marks marked ;;
      refuse NO_ACCOUNT when bool_decide (Session.unlocked s = None) ;;
      match seed with
      | None => Err NOT_THE_CREATION
      | Some key => refuse NOT_THE_CREATED_KEYS unless sameGroupKey key (AcceptInput.firstKeys input) ;; Ok (Some created)
      end
  | None => Ok (if AcceptInput.joining input && negb (Marked.marks marked) && bool_decide (is_Some joinMark) then Some join else None)
  end.

Definition join_raw (mark : JoinMark.t) : RawMark.t :=
  RawMark.Build_t (JInt (JoinMark.rosterVersion mark)) None (Some (map JStr (JoinMark.code mark))).
(** What acceptance is asked, with the session's floor as one more mark. *)
Definition accepting (input : AcceptInput.t) (marked : Marked.t) (anchor : option Anchor) (joinMark : option JoinMark.t)
    (marking : list (option RawGroupPin.t)) (sessionPin : option GroupPin.t) (me : Me.t)
    (rosters successions : list SignedGroupStatement.t) : Accepting.t := {|
  Accepting.groupId := Marked.groupId marked; Accepting.firstKeys := AcceptInput.firstKeys input;
  Accepting.pins := marking ++ match sessionPin with Some pin => [Some (raw_group_pin pin)] | None => [] end;
  Accepting.rosters := rosters; Accepting.successions := successions; Accepting.mlDsaKeys := AcceptInput.signerKeys input;
  Accepting.joinMark := join_raw <$> joinMark; Accepting.pairMarks := Marked.pairMarks marked; Accepting.anchor := anchor;
  Accepting.me := Some me; Accepting.cache := Marked.cache marked; Accepting.server := false |}.

(** The digests of the rosters served; one that does not decode has none. *)
Definition served_digests (rosters : list SignedStatementWire.t) : list string :=
  map (λ roster, match decode (SignedStatementWire.statement roster) None with
    | Ok statement => rosterDigest statement | Err _ => "" end) rosters.
(** A staged call of the chain's group whose roster was served and taken. *)
Definition landed (served : list string) (groupId : string) (chain : Body.t) (e : string * Staged.t) : Prop :=
  Staged.groupId e.2 = groupId ∧
  match Staged.chain e.2 with
  | Some staged => Body.rosterDigest staged ∈ served ∧ Body.rosterDigest staged ∈ Body.rosterDigests chain
  | None => False
  end.
#[export] Instance landed_dec served groupId chain e : Decision (landed served groupId chain e).
Proof. unfold landed. destruct (Staged.chain e.2); apply _. Defined.

Definition marking (r : Run.began) (m : Marked.t) : list (option RawGroupPin.t) :=
  Marked.pins m ++ match Run.firstUse r with Some pin => [pin] | None => [] end.
Definition or_throw (m : result Run.t) : Run.t := match m with Ok r => r | Err e => Run.ended (thrown e) end.

Definition JOINED_AND_CREATED : string := "A family is either joined or created, not both.".
(** The session and the family as the call found them. *)
Definition begin_run (s : Session.t) (input : AcceptInput.t) : Run.t := or_throw (
  let* id := uuid (JStr (AcceptInput.groupId input)) "group id" in
  refuse JOINED_AND_CREATED when AcceptInput.joining input && bool_decide (is_Some (AcceptInput.creating input)) ;;
  Ok (Run.begun (Run.Build_began input (Session.generation s) (epoch_of s id) None (AcceptInput.checkedAt input) None))).
(** Until the record opens; a join brings the code compared, or its first use. *)
Definition start_run (s : Session.t) (r : Run.began) (joinMark : option JoinMark.t) (checkedAt : jsval)
    (firstUse : option (option RawGroupPin.t)) : Run.t := or_throw (
  let* groupId := marksOf_begin s (Run.input r) in
  Ok (Run.opening (Run.Build_began (Run.input r) (Run.generation r) (Run.epoch r) joinMark checkedAt firstUse) groupId)).
Definition take_marks (s : Session.t) (r : Run.began) (groupId : string) : Run.t := or_throw (
  let* m := marksOf s (Run.input r) groupId in
  match m with
  | None => Ok (Run.ended record_unreadable)
  | Some m => Ok (Run.marked r m)
  end).
(** The identity, the floor, and whether what was served reaches it. *)
Definition take_floor (s : Session.t) (r : Run.began) (m : Marked.t) : Run.t := or_throw (
  let* anchor := anchor_of s (Run.input r) m (Run.joinMark r) in
  match Session.identity s with
  | None => Err OPEN_IDENTITY
  | Some me =>
      refuse OPEN_IDENTITY when Me.userId me !== AcceptInput.userId (Run.input r) ;;
      let held := floor (ledger_areas s) (Marked.groupId m) in
      refuse OLDER_CHAIN when
        match held with
        | Some held => servedHead (AcceptInput.rosters (Run.input r)) (Marked.cache m) <? Roster.rosterVersion (Body.roster held)
        | None => false
        end ;;
      Ok (Run.verifying r m anchor held me)
  end).

(** What the served chain comes to, over the floor as it was read. *)
Definition verify (r : Run.began) (m : Marked.t) (anchor : option Anchor) (held : option Body.t) (me : Me.t)
    : result (result RosterChain) :=
  let* sessionPin := match held with
    | Some held => let* pin := pinAfter [] held (Run.checkedAt r) in Ok (Some pin)
    | None => Ok None
    end in
  Ok (let* rosters := mapM unwire (AcceptInput.rosters (Run.input r)) in
      let* successions := mapM unwire (AcceptInput.successions (Run.input r)) in
      acceptRosters (accepting (Run.input r) m anchor (Run.joinMark r) (marking r m) sessionPin me rosters successions)).
Definition still (s : Session.t) (r : Run.began) (m : Marked.t) : result unit :=
  let* _ := stillTheSession s (Run.generation r) (AcceptInput.userId (Run.input r)) in
  stillTheFamily s (Marked.groupId m) (Run.epoch r).
Definition keeps_guard (r : Run.began) : bool :=
  match AcceptInput.guard (Run.input r) with guard_not_kept => false | _ => true end.

(** The chain verified, and what the session makes of it, with no await. *)
Definition settle (s : Session.t) (r : Run.began) (m : Marked.t) (anchor : option Anchor) (held : option Body.t) (me : Me.t)
    : Session.t * Run.t :=
  let groupId := Marked.groupId m in
  let ended e := Run.ended (thrown e) in
  match verify r m anchor held me with
  | Err e => (s, ended e)
  | Ok answered =>
      match still s r m with
      | Err e => (s, ended e)
      | Ok _ =>
          match answered with
          | Err e =>
              (if AcceptInput.retried (Run.input r) then s else uncommit groupId (bool_decide (groupId ∈ Session.forked s)) s, ended e)
          | Ok (Forked fork) => (uncommit groupId true s, Run.ended (fork_found fork))
          | Ok (Accepted chain) =>
              match checkCommit (ledger_areas s) chain with
              | Err e => (s, ended e)
              | Ok _ =>
                  let s := drop_all_staged (landed (served_digests (AcceptInput.rosters (Run.input r))) groupId chain) s in
                  let s := if keeps_guard r then on_ledger (λ a, owe a groupId) s else s in
                  match commit chain s with
                  | Err e => (s, ended e)
                  | Ok s => (s, Run.committed r m chain)
                  end
              end
          end
      end
  end.

(** The pin and the guard after it: the held one raised, only when that records anything new. *)
Definition opened_areas (s : Session.t) (groupId : string) : list OpenedArea.t :=
  map (λ e, OpenedArea.Build_t groupId e.1 e.2.2) (map_to_list (default ∅ (Session.opened s !! groupId))).
Definition new_guard (s : Session.t) (r : Run.began) (m : Marked.t) (chain : Body.t) : result (GroupPin.t * Guard) :=
  let groupId := Marked.groupId m in
  let* pin := pinAfter (marking r m) chain (Run.checkedAt r) in
  let* held := match AcceptInput.guard (Run.input r) with
    | guard_held held => let* pin := checkGroupPin groupId held in Ok (Some pin)
    | _ => Ok None
    end in
  let* next := guardAfter groupId held pin (opened_areas s groupId) in
  Ok (pin, next).
Definition finish (s : Session.t) (r : Run.began) (m : Marked.t) (chain : Body.t) : Session.t * Run.t :=
  let groupId := Marked.groupId m in
  match new_guard s r m chain with
  | Err e => (s, Run.ended (thrown e))
  | Ok (pin, next) =>
      let guard := match next with Store guard => Some guard | _ => None end in
      let s := match guard with
        | None => on_ledger (λ a, kept a groupId) (set_guardsOwed s (delete groupId (Session.guardsOwed s)))
        | Some guard => if keeps_guard r then set_guardsOwed s (<[groupId := guard]> (Session.guardsOwed s)) else s
        end in
      (s, match Session.unlocked s with
          | None => Run.ended (thrown NO_ACCOUNT)
          | Some _ => Run.ended (accepted_as chain pin guard)
          end)
  end.

(** ** What else the session is asked *)

(** The wipe of a family ([groupForget]): only once the guard given covers the floor. *)
Definition groupForget (s : Session.t) (id : string) (held : HeldGuard) (checkedAt : jsval) : result (Session.t * ForgetAnswer.t) :=
  let* groupId := uuid (JStr id) "group id" in
  let* heldPin := match held with guard_held held => let* pin := checkGroupPin groupId held in Ok (Some pin) | _ => Ok None end in
  let known := bool_decide (is_Some (Session.chains s !! groupId)) || bool_decide (is_Some (Session.opened s !! groupId)) ||
    bool_decide (groupId ∈ Session.forked s) in
  let forgotten := Ok (forgetGroup groupId s, ForgetAnswer.Build_t known None false) in
  match floor (ledger_areas s) groupId with
  | None => forgotten
  | Some held_floor =>
      let* pin := pinAfter [] held_floor checkedAt in
      let* guard := guardAfter groupId heldPin pin (opened_areas s groupId) in
      let kept guard unreadable := Ok (s, ForgetAnswer.Build_t false (Some guard) unreadable) in
      match guard, held with
      | Disagrees, _ => Err GUARD_CONFLICT
      | Ahead, _ => Err GUARD_AHEAD
      | Store guard, guard_unreadable => kept guard true
      | Covered, guard_unreadable => kept pin true
      | Store guard, _ => kept guard false
      | Covered, _ => forgotten
      end
  end.
(** The guard handed back is stored ([groupGuardKept]). *)
Definition groupGuardKept (s : Session.t) (id : string) (guard : option RawGroupPin.t) : result (Session.t * bool) :=
  let* groupId := uuid (JStr id) "group id" in
  match Session.guardsOwed s !! groupId with
  | None => Ok (s, negb (owes (ledger_areas s) groupId))
  | Some owed =>
      let* guard := checkGroupPin groupId guard in
      let* after := guardAfter groupId (Some guard) owed [] in
      match after with
      | Covered | Ahead => Ok (on_ledger (λ a, kept a groupId) (set_guardsOwed s (delete groupId (Session.guardsOwed s))), true)
      | _ => Ok (s, false)
      end
  end.

(** A new buffer of the session's. *)
Definition hold_secret (v : bytes) (s : Session.t) : Session.t * buf :=
  let b := fresh (dom (Session.memory s)) in (set_memory s (<[b := v]> (Session.memory s)), b).
(** A group seed opened under [chain], the chain committed when [groupOpenSeal] began ([openSeal] once its seal is open). *)
Definition keep_seed (chain : Body.t) (groupKeyVersion : Z) (seed : bytes) (s : Session.t) : Session.t :=
  if groupKeyVersion <? Body.groupKeyVersion chain then s
  else
    let slot := (Body.groupId chain, groupKeyVersion) in
    let s := zero_buffers (option_list (Session.seeds s !! slot)) s in
    let '(s, b) := hold_secret seed s in
    set_seeds s (<[slot := b]> (Session.seeds s)).
(** A family folder's key opened ([openArea] once its grant is open): the ledger's check, then what was opened. *)
Definition keep_area (groupId workspaceId idSeed : string) (version : Z) (key : bytes) (served : Z) (s : Session.t)
    : Session.t * result (option AreaBlock) :=
  let '(ledger, held) := (b ← new_buffer key; openArea id groupId workspaceId idSeed version b served) (Session.ledger s) in
  let s := set_ledger s ledger in
  match held with
  | Err e => (s, Err e)
  | Ok reason =>
      let areas := default ∅ (Session.opened s !! groupId) in
      let before := match areas !! workspaceId with Some (_, v) => v | None => 0 end in
      (set_opened s (<[groupId := <[workspaceId := (idSeed, Z.max before version)]> areas]> (Session.opened s)), Ok reason)
  end.
Fixpoint hold_secrets (secrets : list bytes) (s : Session.t) : Session.t * list buf :=
  match secrets with
  | [] => (s, [])
  | v :: rest => let '(s, b) := hold_secret v s in let '(s, bufs) := hold_secrets rest s in (s, b :: bufs)
  end.
(** A change signed and saved ([stage], [restage] and [create] at their end). *)
Definition keep_staged (outboxId groupId : string) (chain : option Body.t) (secrets : list bytes) (s : Session.t) : Session.t :=
  let '(s, bufs) := hold_secrets secrets (dropStaged outboxId s) in
  set_staged s (<[outboxId := Staged.Build_t groupId chain bufs]> (Session.staged s)).

(** A run's next part; a join's is [start_run] with what its admission gave. *)
Definition advance (s : Session.t) (r : Run.t) : Session.t * Run.t :=
  match r with
  | Run.begun r => (s, if AcceptInput.joining (Run.input r) then Run.begun r else start_run s r None (AcceptInput.checkedAt (Run.input r)) None)
  | Run.opening r groupId => (s, take_marks s r groupId)
  | Run.marked r m => (s, take_floor s r m)
  | Run.verifying r m anchor held me => settle s r m anchor held me
  | Run.committed r m chain => finish s r m chain
  | Run.ended o => (s, Run.ended o)
  end.
End accepting.
