(* ===== verification/GroupRuns.v ===== *)
(** * Acceptances beside locks and wipes (packages/crypto/src/session-groups.ts)

    Any number of acceptances run at once, each waiting between the parts
    [GroupSession.advance] makes of it; between any two of them the account is
    locked or changed, its settings opened, a family wiped, a guard stored, a
    seed or a folder opened, a change staged, or the ledger used for anything
    else. The worker queues its calls (session.ts), but a lock does not wait:
    what holds of every interleaving holds of those.

    The session's ledger is always what [WriteSafety.session] makes of some
    events, so what [WriteSafety] proves of every write, lock and floor holds
    of it. *)

From S2P Require Import Prelude Base64url Bytes Canonical Crypto Roster Identity Ledger Pins Chain Acceptance NextRoster Areas DriveKeys WriteKeys WriteSteps WriteDrops WriteAreas WriteSafety GroupSession.

Module Config.
Record t := { session : Session.t; runs : gmap nat Run.t }.
End Config.
Definition NO_SESSION : Session.t := Session.Build_t NO_KEYS ∅ ∅ ∅ ∅ ∅ ∅ 0 ∅ ∅ None None None.
Definition start : Config.t := Config.Build_t NO_SESSION ∅.
Definition with_session (c : Config.t) (s : Session.t) : Config.t := Config.Build_t s (Config.runs c).
Definition with_run (c : Config.t) (s : Session.t) (n : nat) (r : Run.t) : Config.t := Config.Build_t s (<[n := r]> (Config.runs c)).

Section runs.
Context `{C : Crypto}.

(** What happens between two awaits. *)
Inductive gstep (c : Config.t) : Config.t → Prop :=
  | begins n input : Config.runs c !! n = None →
      gstep c (with_run c (Config.session c) n (begin_run (Config.session c) input))
  | admitted n r joinMark checkedAt firstUse : Config.runs c !! n = Some (Run.begun r) → AcceptInput.joining (Run.input r) = true →
      gstep c (with_run c (Config.session c) n (start_run (Config.session c) r joinMark checkedAt firstUse))
  | advances n r : Config.runs c !! n = Some r →
      gstep c (with_run c (advance (Config.session c) r).1 n (advance (Config.session c) r).2)
  | locks : gstep c (with_session c (lock (Config.session c)))
  | opens_account unlocked identity : gstep c (with_session c (set_host (Config.session c) unlocked identity))
  | opens_settings userId settings version s : useSettings userId settings version (Config.session c) = Ok s →
      gstep c (with_session c s)
  | wipes id held checkedAt s answer : groupForget (Config.session c) id held checkedAt = Ok (s, answer) →
      gstep c (with_session c s)
  | stores_guard id guard s answer : groupGuardKept (Config.session c) id guard = Ok (s, answer) → gstep c (with_session c s)
  | opens_seal chain version seed : gstep c (with_session c (keep_seed chain version seed (Config.session c)))
  | opens_area groupId workspaceId idSeed version key served :
      gstep c (with_session c (keep_area groupId workspaceId idSeed version key served (Config.session c)).1)
  | stages outboxId groupId chain secrets : gstep c (with_session c (keep_staged outboxId groupId chain secrets (Config.session c)))
  | drops outboxId : gstep c (with_session c (dropStaged outboxId (Config.session c)))
  | uses_keys e : moves_chains e = false → names_uuids e = true →
      gstep c (with_session c (set_ledger (Config.session c) (handled (Session.ledger (Config.session c)) e))).
Definition reachable : Config.t → Prop := rtc gstep start.

(** ** What each operation does to the families *)

(** The ledger follows its events, every chain of which acceptance answered;
    the session's chains are the ledger's; no forked family has one. *)
Definition accepted_chain (chain : Body.t) : Prop := ∃ input, acceptRosters input = Ok (Accepted chain).
Definition ledger_follows (w : Worker.t) (events : list event) : Prop :=
  forallb names_uuids events = true ∧ Forall accepted_chain (chains_of events) ∧ w = session events.
Record good (s : Session.t) : Prop := {
  gd_events : ∃ events, ledger_follows (Session.ledger s) events;
  gd_chains : Session.chains s = Areas.chains (ledger_areas s);
  gd_forked : ∀ g, g ∈ Session.forked s → Session.chains s !! g = None;
}.

Lemma ledger_event s s' e : (∃ events, ledger_follows (Session.ledger s) events) → names_uuids e = true → Forall accepted_chain (chain_of e) →
  Session.ledger s' = handled (Session.ledger s) e → ∃ events, ledger_follows (Session.ledger s') events.
Proof.
  intros (es & Hes & Hc & E) He Hce ->. exists (es ++ [e]). unfold ledger_follows. rewrite forallb_app, Hes. cbn. rewrite He. split; [done|].
  unfold chains_of. rewrite bind_app, Forall_app. cbn. rewrite app_nil_r. split; [done|]. unfold session. by rewrite foldl_app, E.
Qed.
Lemma no_chain e : moves_chains e = false → Forall accepted_chain (chain_of e).
Proof. by destruct e. Qed.
Lemma session_at_floor events : at_floor (session events).
Proof.
  induction events as [|e events IH] using rev_ind; [by intros g chain|]. unfold session. rewrite foldl_app. by apply at_floor_step.
Qed.

Lemma forgetGroup_ok g (w : Worker.t) : (DriveKeys.forgetGroup g w).2 = Ok tt.
Proof.
  unfold DriveKeys.forgetGroup, mbind at 1, op_bind at 1, get. unfold mbind, op_bind.
  destruct (drop_each_state [] [] (elements (dom (default ∅ (Areas.opened (Worker.areas w) !! g)))) w) as (s' & E & _).
  by rewrite E.
Qed.
Lemma each_forget_chains l (w : Worker.t) g : g ∈ l ∨ Areas.chains (Worker.areas w) !! g = None →
  Areas.chains (Worker.areas (each_op DriveKeys.forgetGroup l w).1) !! g = None.
Proof.
  revert w. induction l as [|x l IH]; intros w H; cbn [each_op]; [destruct H as [[]%elem_of_nil|H]; done|].
  unfold mbind, op_bind. pose proof (forgetGroup_ok x w) as Hok. pose proof (proj1 (forgetGroup_chains x w)) as Hc.
  destruct (DriveKeys.forgetGroup x w) as [w' r]. cbn in Hok, Hc |- *. subst r. apply IH. rewrite Hc.
  destruct (decide (g = x)) as [->|Hne]; [right; apply lookup_delete_eq|]. rewrite lookup_delete_ne by done.
  destruct H as [[->|?]%elem_of_cons|?]; [done|by left|by right].
Qed.
Lemma forgetAll_chains (w : Worker.t) : Areas.chains (Worker.areas (forgetAllGroups w).1) = ∅.
Proof.
  apply map_empty. intros g. unfold forgetAllGroups, mbind at 1, op_bind at 1, get. unfold mbind, op_bind, update.
  apply each_forget_chains. cbn. destruct (Areas.chains (Worker.areas w) !! g) eqn:E; [left|by right].
  apply elem_of_elements. rewrite !elem_of_union, !elem_of_dom. naive_solver.
Qed.

Lemma good_start : good NO_SESSION.
Proof. constructor; [exists []; split; [done|split; [by apply Forall_nil|done]]|done|set_solver]. Qed.
(** Operations that only touch what the invariant does not speak of. *)
Lemma good_same s s' : Session.ledger s' = Session.ledger s → Session.chains s' = Session.chains s → Session.forked s' = Session.forked s →
  good s → good s'.
Proof. intros E1 E2 E3 [H1 H2 H3]. constructor; [by rewrite E1|unfold ledger_areas in *; by rewrite E1, E2|by rewrite E2, E3]. Qed.
Lemma good_ledger s e : good s → names_uuids e = true → Forall accepted_chain (chain_of e) →
  Areas.chains (Worker.areas (handled (Session.ledger s) e)) = Areas.chains (ledger_areas s) →
  good (set_ledger s (handled (Session.ledger s) e)).
Proof.
  intros [H1 H2 H3] He Hce Hc. constructor; [by eapply ledger_event|unfold ledger_areas; cbn; rewrite Hc; apply H2|done].
Qed.
Lemma good_dropped gone `{∀ e, Decision (gone e)} s : good s → good (drop_all_staged gone s).
Proof. by apply good_same. Qed.
Lemma good_seeds gone `{∀ e, Decision (gone e)} s : good s → good (drop_seeds gone s).
Proof. by apply good_same. Qed.

Lemma commit_inv chain s s' : GroupSession.commit chain s = Ok s' → ∃ a, Areas.commit (ledger_areas s) chain = Ok a ∧
  s' = drop_all_staged (built_elsewhere chain) (drop_seeds (replaced_seed chain)
    (set_families (set_ledger s (handled (Session.ledger s) (Commit chain)))
      (<[Body.groupId chain := chain]> (Session.chains s)) (Session.forked s ∖ {[Body.groupId chain]}))) ∧
  ledger_areas s' = a.
Proof.
  unfold GroupSession.commit, handled. unfold commit_chain, mbind, op_bind, ask, update, ledger_areas.
  destruct (Areas.commit (Worker.areas (Session.ledger s)) chain) as [a|e] eqn:E; [|done]. cbn. intros [= <-]. by exists a.
Qed.
Lemma good_commit chain s s' : UUID (Body.groupId chain) = true → accepted_chain chain → good s → GroupSession.commit chain s = Ok s' → good s'.
Proof.
  intros Hu Hac [H1 H2 H3] (a & Ha & -> & Hl)%commit_inv. apply good_dropped, good_seeds.
  destruct (floor_commit (Session.ledger s) chain a Ha) as (Hother & Hown & _).
  constructor.
  - eapply (ledger_event s _ (Commit chain)); [done|done|by apply Forall_singleton|done].
  - change (<[Body.groupId chain := chain]> (Session.chains s) = Areas.chains (Worker.areas (handled (Session.ledger s) (Commit chain)))).
    change (Worker.areas (handled (Session.ledger s) (Commit chain)) = a) in Hl. rewrite Hl. apply map_eq. intros g.
    destruct (decide (g = Body.groupId chain)) as [->|Hne]; [by rewrite lookup_insert_eq, Hown|].
    rewrite lookup_insert_ne by done. rewrite (proj2 (Hother g Hne)). by rewrite H2.
  - cbn. intros g [Hg Hne]%elem_of_difference. rewrite lookup_insert_ne by set_solver. by apply H3.
Qed.
Lemma good_uncommit g fork s : good s → good (GroupSession.uncommit g fork s).
Proof.
  intros [H1 H2 H3]. constructor.
  - eapply (ledger_event s _ (Uncommit g)); [done|done|by apply Forall_nil|done].
  - cbn. by rewrite H2.
  - cbn. intros g' Hg. rewrite lookup_delete_None. destruct (decide (g = g')); [by left|right]. apply H3. destruct fork; set_solver.
Qed.
Lemma good_areas s e f : good s → names_uuids e = true → Forall accepted_chain (chain_of e) → handled (Session.ledger s) e = set_areas (Session.ledger s) (f (ledger_areas s)) →
  Areas.chains (f (ledger_areas s)) = Areas.chains (ledger_areas s) → good (on_ledger f s).
Proof. intros Hs He Hce E Hc. unfold on_ledger. fold (ledger_areas s). rewrite <- E. apply good_ledger; [done..|]. by rewrite E. Qed.
Lemma good_owe g s : good s → good (on_ledger (λ a, owe a g) s).
Proof. intros Hs. by apply (good_areas s (Owe g)). Qed.
Lemma good_kept g s : good s → good (on_ledger (λ a, kept a g) s).
Proof. intros Hs. by apply (good_areas s (Kept g)). Qed.

Lemma forgetGroup_parts g s : let s' := GroupSession.forgetGroup g s in
  Session.ledger s' = handled (Session.ledger s) (Forget g) ∧ Session.chains s' = delete g (Session.chains s) ∧
  Session.forked s' = Session.forked s ∖ {[g]} ∧ Session.opened s' = delete g (Session.opened s) ∧
  Session.generation s' = Session.generation s ∧ Session.forgets s' = <[g := epoch_of s g + 1]> (Session.forgets s).
Proof. by cbv zeta. Qed.
Lemma good_forgetGroup g s : good s → good (GroupSession.forgetGroup g s).
Proof.
  intros [H1 H2 H3]. destruct (forgetGroup_parts g s) as (E1 & E2 & E3 & _). constructor.
  - eapply (ledger_event s _ (Forget g)); [done|done|by apply Forall_nil|done].
  - unfold ledger_areas. rewrite E1, E2. cbn. rewrite (proj1 (forgetGroup_chains g (Session.ledger s))), H2. done.
  - rewrite E2, E3. intros g' [Hg Hne]%elem_of_difference. rewrite lookup_delete_ne by set_solver. by apply H3.
Qed.
Lemma good_forget s : good s → good (forget s).
Proof.
  intros Hs. unfold forget. set (s1 := foldl _ _ _). assert (good s1) as [H1 H2 H3].
  { unfold s1. generalize (elements (dom (Session.chains (set_guardsOwed s ∅)) ∪ dom (Session.opened (set_guardsOwed s ∅)))). intros l.
    assert (good (set_guardsOwed s ∅)) as H0 by by apply (good_same s). revert H0. generalize (set_guardsOwed s ∅). induction l as [|g l IH]; intros t Ht; [done|].
    cbn. by apply IH, good_forgetGroup. }
  constructor.
  - eapply (ledger_event s1 _ ForgetAll); [done|done|by apply Forall_nil|done].
  - cbn. symmetry. apply (forgetAll_chains (Session.ledger s1)).
  - set_solver.
Qed.
Lemma good_lock s : good s → good (lock s).
Proof.
  intros Hs. unfold lock, ledger_op. change (clear (Session.ledger ?t)).1 with (handled (Session.ledger t) Lock).
  apply good_ledger; [|done|by apply Forall_nil|done]. apply good_forget. by apply (good_same s).
Qed.

(** ** What a run holds *)

Lemma accepted_group input chain : acceptRosters input = Ok (Accepted chain) →
  Body.groupId chain = Accepting.groupId input ∧ UUID (Body.groupId chain) = true.
Proof.
  unfold acceptRosters. destruct (accept input) as [[body st]|[| |]] eqn:E; try done. intros [= <-].
  destruct (accept_inv _ _ _ E) as (given & marks & rosters & firstUse & path & latest & key & c & Ha).
  pose proof (ac_body _ _ _ _ _ _ _ _ _ _ _ Ha) as Hb. unfold Acceptance.answer in Hb. cbv zeta in Hb. apply bind_ok in Hb as (d & _ & Hb).
  assert (Body.groupId body = Given.groupId given) as -> by (injection Hb as <-; done).
  pose proof (ac_given _ _ _ _ _ _ _ _ _ _ _ Ha) as Hg. unfold check_input in Hg. apply bind_ok in Hg as (g & Hg & H).
  apply uuid_ok in Hg as [[= Eg] Hu]. assert (Given.groupId given = g) as -> by (res_inv; done). by rewrite Eg in *.
Qed.

(** The call a run is of, until it ends. *)
Definition call_of (run : Run.t) : option Run.began :=
  match run with
  | Run.begun r | Run.opening r _ | Run.marked r _ | Run.verifying r _ _ _ _ | Run.committed r _ _ => Some r
  | Run.ended _ => None
  end.
Definition group_of (r : Run.began) : string := AcceptInput.groupId (Run.input r).
Definition run_names (run : Run.t) : Prop :=
  match run with
  | Run.opening r g => g = group_of r
  | Run.marked r m | Run.verifying r m _ _ _ => Marked.groupId m = group_of r
  | Run.committed r m chain => Marked.groupId m = group_of r ∧ ∃ anchor sessionPin me rosters successions,
      acceptRosters (accepting (Run.input r) m anchor (Run.joinMark r) (marking r m) sessionPin me rosters successions) = Ok (Accepted chain)
  | _ => True
  end.
(** No session and no family a call began with is ahead of what is there. *)
Definition run_ok (s : Session.t) (run : Run.t) : Prop := run_names run ∧
  ∀ r, call_of run = Some r → Run.generation r ≤ Session.generation s ∧ Run.epoch r ≤ epoch_of s (group_of r).
Definition session_le (s s' : Session.t) : Prop :=
  Session.generation s ≤ Session.generation s' ∧ ∀ g, epoch_of s g ≤ epoch_of s' g.
#[export] Instance session_le_preorder : PreOrder session_le.
Proof. split; [done|intros s t u [H1 H2] [H3 H4]; split; [lia|intros g; specialize (H2 g); specialize (H4 g); lia]]. Qed.
Lemma run_ok_le s s' run : session_le s s' → run_ok s run → run_ok s' run.
Proof. intros [Hg He] [Hn Hr]. split; [done|]. intros r Hc. destruct (Hr r Hc). specialize (He (group_of r)). lia. Qed.

Lemma le_same s s' : Session.generation s' = Session.generation s → Session.forgets s' = Session.forgets s → session_le s s'.
Proof. intros E1 E2. unfold session_le, epoch_of. by rewrite E1, E2. Qed.
Lemma le_forgetGroup g s : session_le s (GroupSession.forgetGroup g s).
Proof.
  destruct (forgetGroup_parts g s) as (_ & _ & _ & _ & Eg & Ef). split; [by rewrite Eg|]. intros g'.
  unfold epoch_of at 2. rewrite Ef. destruct (decide (g' = g)) as [->|Hne]; [rewrite lookup_insert_eq; cbn; lia|].
  by rewrite lookup_insert_ne.
Qed.
Lemma le_forget s : session_le s (forget s) ∧ Session.generation s < Session.generation (forget s).
Proof.
  unfold forget. set (s1 := foldl _ _ _). assert (session_le s s1) as H1.
  { unfold s1. generalize (elements (dom (Session.chains (set_guardsOwed s ∅)) ∪ dom (Session.opened (set_guardsOwed s ∅)))). intros l.
    assert (session_le s (set_guardsOwed s ∅)) as H0 by by apply le_same. revert H0. generalize (set_guardsOwed s ∅).
    induction l as [|g l IH]; intros t Ht; [done|]. cbn. apply IH. etrans; [done|]. apply le_forgetGroup. }
  destruct H1 as [Hg He]. split; [split; [cbn; lia|done]|cbn; lia].
Qed.
Lemma commit_le chain s s' : GroupSession.commit chain s = Ok s' → session_le s s'.
Proof. intros (a & _ & -> & _)%commit_inv. by apply le_same. Qed.

(** A run's parts keep all of it. *)
Lemma or_throw_ok m run : or_throw m = run → (∃ e, run = Run.ended (thrown e)) ∨ m = Ok run.
Proof. destruct m; cbn; intros <-; [by right|left; eauto]. Qed.
Lemma run_ok_thrown s e : run_ok s (Run.ended (thrown e)).
Proof. by split. Qed.
Lemma run_ok_same s run r run' : run_ok s run → call_of run = Some r → run_names run' →
  (∀ r', call_of run' = Some r' → Run.generation r' = Run.generation r ∧ Run.epoch r' = Run.epoch r ∧ group_of r' = group_of r) → run_ok s run'.
Proof. intros [_ Hr] Hc Hn H. split; [done|]. intros r' Hc'. destruct (H r' Hc') as (-> & -> & ->). by apply Hr. Qed.

Lemma start_ok s r joinMark checkedAt firstUse : run_ok s (Run.begun r) → run_ok s (start_run s r joinMark checkedAt firstUse).
Proof.
  intros Hr. unfold start_run. destruct (marksOf_begin s (Run.input r)) as [g|e] eqn:E; [|apply run_ok_thrown].
  eapply (run_ok_same s (Run.begun r)); [done|done| |by intros r' [= <-]]. cbn. unfold marksOf_begin in E. not_refused E E1.
  apply bind_ok in E as (g' & Hg & E). apply bind_ok in E as (u & _ & [= <-]). by apply uuid_ok in Hg as [[= <-] _].
Qed.
Lemma marks_ok s r g : run_ok s (Run.opening r g) → run_ok s (take_marks s r g).
Proof.
  intros Hr. pose proof (proj1 Hr) as Hg. cbn in Hg. unfold take_marks. destruct (marksOf s (Run.input r) g) as [[m|]|e] eqn:E; [|by split|apply run_ok_thrown].
  eapply (run_ok_same s (Run.opening r g)); [done|done| |by intros r' [= <-]]. cbn. unfold marksOf in E. cbv zeta in E.
  assert (Marked.groupId m = g) as ->; [|done].
  destruct (AcceptInput.record (Run.input r)) as [[rec|]|]; try done; destruct (Session.settings s) as [st|]; try done; not_refused E E1;
    destruct (familyCheckOf st g); by injection E as <-.
Qed.
Lemma floor_ok s r m : run_ok s (Run.marked r m) → run_ok s (take_floor s r m).
Proof.
  intros Hr. unfold take_floor. destruct (anchor_of _ _ _ _) as [anchor|e]; [|apply run_ok_thrown]. cbn.
  destruct (Session.identity s) as [me|]; [|apply run_ok_thrown]. destruct (_ !== _); [apply run_ok_thrown|].
  destruct (match floor _ _ with Some _ => _ | None => _ end); [apply run_ok_thrown|].
  eapply (run_ok_same s (Run.marked r m)); [done|done|apply (proj1 Hr)|by intros r' [= <-]].
Qed.
Lemma verify_accepts r m anchor held me chain : verify r m anchor held me = Ok (Ok (Accepted chain)) →
  ∃ sessionPin rosters successions, match held with Some h => (∃ pin, pinAfter [] h (Run.checkedAt r) = Ok pin ∧ sessionPin = Some pin) | None => sessionPin = None end ∧
  acceptRosters (accepting (Run.input r) m anchor (Run.joinMark r) (marking r m) sessionPin me rosters successions) = Ok (Accepted chain).
Proof.
  unfold verify. intros H. apply bind_ok in H as (pin & Hp & H). injection H as H.
  apply bind_ok in H as (rosters & _ & H). apply bind_ok in H as (successions & _ & H).
  exists pin, rosters, successions. split; [|done]. destruct held as [h|]; [|by injection Hp as <-].
  apply bind_ok in Hp as (p & Hp & [= <-]). eauto.
Qed.

Lemma commit_total chain s : checkCommit (ledger_areas s) chain = Ok tt → ∃ s', GroupSession.commit chain s = Ok s'.
Proof.
  intros H. unfold GroupSession.commit, commit_chain, mbind, op_bind, ask, update. unfold Areas.commit. fold (ledger_areas s). rewrite H.
  cbn. eauto.
Qed.
(** What settling does, on every branch. *)
Lemma settle_cases s r m anchor held me (P : Session.t * Run.t → Prop) :
  (∀ e, P (s, Run.ended (thrown e))) →
  (∀ e, still s r m = Ok tt → AcceptInput.retried (Run.input r) = false →
    P (GroupSession.uncommit (Marked.groupId m) (bool_decide (Marked.groupId m ∈ Session.forked s)) s, Run.ended (thrown e))) →
  (∀ fork, still s r m = Ok tt → verify r m anchor held me = Ok (Ok (Forked fork)) →
    P (GroupSession.uncommit (Marked.groupId m) true s, Run.ended (fork_found fork))) →
  (∀ chain s', still s r m = Ok tt → verify r m anchor held me = Ok (Ok (Accepted chain)) → checkCommit (ledger_areas s) chain = Ok tt →
    GroupSession.commit chain (let s1 := drop_all_staged (landed (served_digests (AcceptInput.rosters (Run.input r))) (Marked.groupId m) chain) s in
      if keeps_guard r then on_ledger (λ a, owe a (Marked.groupId m)) s1 else s1) = Ok s' → P (s', Run.committed r m chain)) →
  P (settle s r m anchor held me).
Proof.
  intros H1 H2 H3 H4. unfold settle. cbv zeta. destruct (verify r m anchor held me) as [answered|e] eqn:Ev; [|apply H1].
  destruct (still s r m) as [[]|e] eqn:Es; [|apply H1].
  destruct answered as [[chain|fork]|e]; [|by apply H3|destruct (AcceptInput.retried _) eqn:Er; [apply H1|by apply H2]].
  destruct (checkCommit _ _) as [[]|e] eqn:Ec; [|apply H1]. destruct (GroupSession.commit chain _) as [s'|e] eqn:Em; [by eapply H4|].
  destruct (commit_total chain (if keeps_guard r then on_ledger (λ a, owe a (Marked.groupId m))
    (drop_all_staged (landed (served_digests (AcceptInput.rosters (Run.input r))) (Marked.groupId m) chain) s) else
    drop_all_staged (landed (served_digests (AcceptInput.rosters (Run.input r))) (Marked.groupId m) chain) s)) as [s' Hs']; [by destruct (keeps_guard r)|].
  cbv zeta in *. congruence.
Qed.

Lemma advance_ok s run : good s → run_ok s run →
  good (advance s run).1 ∧ session_le s (advance s run).1 ∧ run_ok (advance s run).1 (advance s run).2.
Proof.
  intros Hs Hr. destruct run as [r|r g|r m|r m anchor held me|r m chain|o]; cbn [advance].
  - split_and!; [done|done|]. cbn [snd]. destruct (AcceptInput.joining _); [done|by apply start_ok].
  - split_and!; [done|done|by apply marks_ok].
  - split_and!; [done|done|by apply floor_ok].
  - pose proof Hr as [Hm Hc]. cbn in Hm.
    apply settle_cases with (P := λ q, good q.1 ∧ session_le s q.1 ∧ run_ok q.1 q.2); cbn [fst snd].
    + intros e. split_and!; [done|done|apply run_ok_thrown].
    + intros e _ _. split_and!; [by apply good_uncommit|by apply le_same|apply run_ok_thrown].
    + intros fork _ _. split_and!; [by apply good_uncommit|by apply le_same|by split].
    + intros chain s' _ Hv _ Hcommit. destruct (verify_accepts _ _ _ _ _ _ Hv) as (sp & rs & ss & _ & Ha).
      pose proof (commit_le _ _ _ Hcommit) as Hle. cbv zeta in Hcommit, Hle.
      assert (session_le s s') as Hle' by (etrans; [|exact Hle]; by destruct (keeps_guard r); apply le_same).
      split_and!; [|done|].
      * eapply good_commit; [apply (accepted_group _ _ Ha)|by eexists| |exact Hcommit]. destruct (keeps_guard r); [apply good_owe|]; by apply good_dropped.
      * apply (run_ok_le s); [done|]. eapply (run_ok_same s (Run.verifying r m anchor held me)); [done|done| |by intros r' [= <-]].
        cbn. split; [done|]. eauto 10.
  - unfold finish. cbv zeta. destruct (new_guard s r m chain) as [[pin next]|e]; [|split_and!; [done|done|apply run_ok_thrown]].
    assert (∀ t, run_ok t (match Session.unlocked t with
      | None => Run.ended (thrown NO_ACCOUNT) | Some _ => Run.ended (accepted_as chain pin (match next with Store guard => Some guard | _ => None end)) end)) as Hend
      by (intros t; by destruct (Session.unlocked t)).
    cbn [fst snd]. destruct next; cbn [fst snd]; try (split_and!; [apply good_kept; by apply (good_same s)|by apply le_same|by apply Hend]).
    destruct (keeps_guard r); split_and!; try apply Hend; [by apply (good_same s)|by apply le_same|done|done].
  - done.
Qed.

Definition all_ok (c : Config.t) : Prop :=
  good (Config.session c) ∧ ∀ n run, Config.runs c !! n = Some run → run_ok (Config.session c) run.
Lemma all_ok_session c s : good s → session_le (Config.session c) s → all_ok c → all_ok (with_session c s).
Proof. intros Hs Hle [_ Hr]. split; [done|]. intros n run Hn. eapply run_ok_le; [done|by eapply Hr]. Qed.
Lemma all_ok_run c s n run : good s → session_le (Config.session c) s → run_ok s run → all_ok c → all_ok (with_run c s n run).
Proof.
  intros Hs Hle Hrun [_ Hr]. split; [done|]. intros k run'. cbn. destruct (decide (k = n)) as [->|Hne].
  - rewrite lookup_insert_eq. by intros [= <-].
  - rewrite lookup_insert_ne by done. intros Hk. eapply run_ok_le; [done|by eapply Hr].
Qed.
Lemma hold_secrets_same secrets s : good s → good (hold_secrets secrets s).1 ∧ session_le s (hold_secrets secrets s).1.
Proof.
  revert s. induction secrets as [|v secrets IH]; intros s Hs; cbn; [done|].
  set (t := set_memory s _). assert (good t) as Ht by by apply (good_same s). assert (session_le s t) as Hle by by apply le_same.
  destruct (IH t Ht) as [H1 H2]. destruct (hold_secrets secrets t). split; [done|by etrans].
Qed.
Lemma keep_staged_same id g chain secrets s : good s → good (keep_staged id g chain secrets s) ∧ session_le s (keep_staged id g chain secrets s).
Proof.
  intros Hs. unfold keep_staged. destruct (hold_secrets_same secrets (dropStaged id s) ltac:(by apply good_dropped)) as [H1 H2].
  destruct (hold_secrets secrets _) as [t bufs]. split; [by apply (good_same t)|]. etrans; [|etrans; [exact H2|]]; by apply le_same.
Qed.

(** What each other operation leaves. *)
Definition keeps_session (s s' : Session.t) : Prop := good s' ∧ session_le s s'.
Lemma set_host_ok s unlocked identity : good s → keeps_session s (set_host s unlocked identity).
Proof. intros Hs. split; [by apply (good_same s)|by apply le_same]. Qed.
Lemma lock_ok s : good s → keeps_session s (lock s).
Proof. intros Hs. split; [by apply good_lock|apply (le_forget (set_host s None None))]. Qed.
Lemma useSettings_ok s userId settings version s' : good s → useSettings userId settings version s = Ok s' → keeps_session s s'.
Proof.
  intros Hs. unfold useSettings. destruct (settingsMarks _ _ _ _); [|done]. intros [= <-].
  split; [by apply (good_same s)|by apply le_same].
Qed.
Lemma groupForget_ok s id held checkedAt s' answer : good s → groupForget s id held checkedAt = Ok (s', answer) → keeps_session s s'.
Proof.
  intros Hs H. assert (s' = s ∨ ∃ g, s' = GroupSession.forgetGroup g s) as [->|(g & ->)]; [|done|].
  - unfold groupForget in H. apply bind_ok in H as (g & _ & H). apply bind_ok in H as (hp & _ & H).
    destruct (floor _ _) as [f|]; [|injection H as <- _; eauto]. apply bind_ok in H as (pin & _ & H). apply bind_ok in H as (guard & _ & H).
    destruct guard, held; try done; injection H as <- _; eauto.
  - split; [by apply good_forgetGroup|apply le_forgetGroup].
Qed.
Lemma groupGuardKept_ok s id guard s' answer : good s → groupGuardKept s id guard = Ok (s', answer) → keeps_session s s'.
Proof.
  intros Hs H. unfold groupGuardKept in H. apply bind_ok in H as (g & _ & H). destruct (Session.guardsOwed s !! g) as [owed|]; [|by injection H as <- _].
  apply bind_ok in H as (gd & _ & H). apply bind_ok in H as (after & _ & H).
  destruct after; injection H as <- _; try done; split; try (by apply le_same); apply good_kept; by apply (good_same s).
Qed.
Lemma keep_seed_ok s chain version seed : good s → keeps_session s (keep_seed chain version seed s).
Proof. intros Hs. unfold keep_seed. destruct (_ <? _); [done|]. cbv zeta. split; [by apply (good_same s)|by apply le_same]. Qed.
Lemma keep_area_ok s g w idSeed version key served : good s → keeps_session s (keep_area g w idSeed version key served s).1.
Proof.
  intros Hs. pose proof (good_ledger s (OpenArea g w idSeed version key served) Hs eq_refl (Forall_nil_2 _)) as Hg.
  specialize (Hg (proj1 (handled_stays (Session.ledger s) (OpenArea g w idSeed version key served) eq_refl))).
  unfold keep_area. cbn [handled] in Hg. unfold open_area_key in Hg.
  destruct ((b ← new_buffer key; _) (Session.ledger s)) as [t [reason|e]]; cbn in Hg |- *.
  - split; [by apply (good_same (set_ledger s t))|by apply le_same].
  - split; [done|by apply le_same].
Qed.
Lemma dropStaged_ok s id : good s → keeps_session s (dropStaged id s).
Proof. intros Hs. split; [apply good_dropped, Hs|by apply le_same]. Qed.
Lemma uses_keys_ok s e : good s → moves_chains e = false → names_uuids e = true →
  keeps_session s (set_ledger s (handled (Session.ledger s) e)).
Proof. intros Hs Hm Hn. split; [|by apply le_same]. apply good_ledger; [done|done|by apply no_chain|]. by apply (handled_stays (Session.ledger s) e). Qed.

Lemma gstep_ok c c' : gstep c c' → all_ok c → all_ok c' ∧ session_le (Config.session c) (Config.session c').
Proof.
  intros Hstep Hall. pose proof Hall as [Hs Hr].
  assert (∀ s', keeps_session (Config.session c) s' → all_ok (with_session c s') ∧ session_le (Config.session c) s') as Hkeep
    by (intros s' [H1 H2]; split; [by apply all_ok_session|done]).
  destruct Hstep; [| | |apply Hkeep..].
  - split; [|done]. apply all_ok_run; [done|done| |done]. unfold begin_run. destruct (uuid _ _) as [g|e] eqn:E; [|apply run_ok_thrown].
    cbn. destruct (_ && _); [apply run_ok_thrown|]. apply uuid_ok in E as [[= E] _]. split; [done|]. intros r [= <-]. unfold group_of. cbn. by rewrite E.
  - split; [|done]. apply all_ok_run; [done|done| |done]. apply start_ok. by eapply Hr.
  - destruct (advance_ok _ r Hs ltac:(by eapply Hr)) as (H1 & H2 & H3). split; [|done]. by apply all_ok_run.
  - by apply lock_ok. - by apply set_host_ok. - by eapply useSettings_ok. - by eapply groupForget_ok. - by eapply groupGuardKept_ok.
  - by apply keep_seed_ok. - by apply keep_area_ok. - by apply keep_staged_same. - by apply dropStaged_ok. - by apply uses_keys_ok.
Qed.
Lemma reachable_ok c : reachable c → all_ok c.
Proof.
  unfold reachable. intros H. assert (all_ok start) as H0 by (split; [apply good_start|done]). revert H0.
  induction H as [c|c c1 c2 Hs _ IH]; intros H0; [done|]. apply IH. by apply (gstep_ok c).
Qed.

(** ** A run let go of *)

Definition gone (s : Session.t) (run : Run.t) : Prop := ∀ r, call_of run = Some r →
  Run.generation r < Session.generation s ∨ Run.epoch r < epoch_of s (group_of r).
Definition not_committed (run : Run.t) : Prop :=
  match run with
  | Run.committed _ _ _ | Run.ended (accepted_as _ _ _) | Run.ended (fork_found _) => False
  | _ => True
  end.
Lemma gone_le s s' run : session_le s s' → gone s run → gone s' run.
Proof. intros [Hg He] H r Hr. specialize (He (group_of r)). destruct (H r Hr); [left|right]; lia. Qed.
Lemma gone_still s r m : Marked.groupId m = group_of r → (Run.generation r < Session.generation s ∨ Run.epoch r < epoch_of s (group_of r)) →
  is_ok (still s r m) = false.
Proof.
  intros Hm Hgone. unfold still, stillTheSession, stillTheFamily. destruct (Z.eqb_spec (Session.generation s) (Run.generation r)) as [Eg|]; [|done].
  destruct (Session.unlocked s); [|done]. cbn. destruct (_ !== _); [done|]. cbn. rewrite Hm.
  destruct (Z.eqb_spec (epoch_of s (group_of r)) (Run.epoch r)); [destruct Hgone; lia|done].
Qed.
Lemma gone_same s r run' : gone s (Run.begun r) → call_of run' = None ∨ (∃ r', call_of run' = Some r' ∧
  Run.generation r' = Run.generation r ∧ Run.epoch r' = Run.epoch r ∧ group_of r' = group_of r) → gone s run'.
Proof. intros Hg H r' Hr'. destruct H as [|(r'' & E & H1 & H2 & H3)]; [congruence|]. assert (r'' = r') as -> by congruence. rewrite H1, H2, H3. by apply Hg. Qed.

(** Its parts change nothing, and it ends refused. *)
Lemma advance_gone s run : run_ok s run → gone s run → not_committed run →
  (advance s run).1 = s ∧ gone s (advance s run).2 ∧ not_committed (advance s run).2.
Proof.
  intros [Hn Hle] Hgone Hc. destruct run as [r|r g|r m|r m anchor held me|r m chain|o]; try done; cbn [advance].
  - assert (gone s (start_run s r None (AcceptInput.checkedAt (Run.input r)) None) ∧
      not_committed (start_run s r None (AcceptInput.checkedAt (Run.input r)) None)) as [H1 H2].
    { unfold start_run. destruct (marksOf_begin _ _); [|done]. split; [|done]. apply (gone_same s r); [done|right; eexists; done]. }
    cbn. by destruct (AcceptInput.joining _).
  - cbn. unfold take_marks. destruct (marksOf _ _ _) as [[m|]|e]; done.
  - cbn. unfold take_floor. destruct (anchor_of _ _ _ _) as [anchor|e]; [|done]. cbn.
    destruct (Session.identity s) as [me|]; [|done]. destruct (_ !== _); [done|].
    destruct (match floor _ _ with Some _ => _ | None => _ end); [done|]. split_and!; [done| |done]. apply (gone_same s r); [done|right; eexists; done].
  - pose proof (gone_still s r m Hn (Hgone r eq_refl)) as Hstill. unfold settle. destruct (verify _ _ _ _ _); [|done].
    destruct (still s r m); done.
Qed.
Lemma gone_step c c' n run : all_ok c → gstep c c' → Config.runs c !! n = Some run → gone (Config.session c) run → not_committed run →
  ∃ run', Config.runs c' !! n = Some run' ∧ gone (Config.session c') run' ∧ not_committed run'.
Proof.
  intros Hall Hstep Hn Hgone Hnc. destruct (gstep_ok _ _ Hstep Hall) as [_ Hle].
  assert (∀ s m r, Config.session c' = s → Config.runs c' = <[m := r]> (Config.runs c) → (m = n → gone s r ∧ not_committed r) →
    ∃ run', Config.runs c' !! n = Some run' ∧ gone (Config.session c') run' ∧ not_committed run') as Hrun.
  { intros s m r <- E H. rewrite E. destruct (decide (m = n)) as [Em|Hne].
    - exists r. rewrite Em, lookup_insert_eq. split; [done|by apply H].
    - exists run. rewrite lookup_insert_ne by done. split_and!; [done|by eapply gone_le|done]. }
  destruct Hstep; try (exists run; split_and!; [done|by eapply gone_le|done]).
  - eapply Hrun; [done|done|]. intros ->. congruence.
  - eapply Hrun; [done|done|]. intros ->. assert (run = Run.begun r) as -> by congruence.
    unfold start_run. destruct (marksOf_begin _ _); [|done]. split; [|done]. eapply (gone_same _ r); [done|right; eexists; done].
  - eapply Hrun; [done|done|]. intros ->. assert (run = r) as -> by congruence.
    destruct (advance_gone _ r (proj2 Hall _ _ Hn) Hgone Hnc) as (E & H1 & H2). by rewrite E.
Qed.

(** ** What a commit and a lock drop *)

Lemma dropped_staged_lookup gone `{∀ e, Decision (gone e)} s id e :
  Session.staged (drop_all_staged gone s) !! id = Some e ↔ Session.staged s !! id = Some e ∧ ¬ gone (id, e).
Proof. cbn. by rewrite map_lookup_filter_Some. Qed.
Lemma dropped_seeds_lookup gone `{∀ e, Decision (gone e)} s slot b :
  Session.seeds (drop_seeds gone s) !! slot = Some b ↔ Session.seeds s !! slot = Some b ∧ ¬ gone (slot, b).
Proof. cbn. by rewrite map_lookup_filter_Some. Qed.
Lemma commit_guards a chain a' : Areas.commit a chain = Ok a' → Areas.guardOwed a' = Areas.guardOwed a.
Proof.
  unfold Areas.commit. intros H. apply bind_ok in H as ([] & _ & [= <-]). cbv zeta.
  assert (∀ ws b, Areas.guardOwed (foldl (commit_area chain) b ws) = Areas.guardOwed b) as ->; [|by case_match].
  induction ws as [|w ws IH]; intros b; [done|]. cbn [foldl]. rewrite IH. unfold commit_area. by case_match.
Qed.

(** A seed or a secret some map names, and the buffer it is in: dropped, it is zeroed. *)
Definition held_secret (s : Session.t) (b : buf) : Prop :=
  (∃ slot, Session.seeds s !! slot = Some b) ∨ ∃ id e, Session.staged s !! id = Some e ∧ b ∈ Staged.secrets e.
Definition kept_or_zeroed (s : Session.t) (b : buf) (v : bytes) : Prop :=
  Session.memory s !! b = Some (zeros v) ∨ (Session.memory s !! b = Some v ∧ held_secret s b).
Lemma zero_again m bs b v : m !! b = Some (zeros v) → foldl zero_in m bs !! b = Some (zeros v).
Proof.
  intros H. destruct (decide (b ∈ bs)) as [Hin|Hout]; [|by rewrite zero_all_other]. by rewrite (zero_all_in _ _ _ _ H Hin), zeros_zeros.
Qed.
Lemma zeroed_or_kept s s' bs b v : Session.memory s' = foldl zero_in (Session.memory s) bs →
  (held_secret s b → b ∉ bs → held_secret s' b) → kept_or_zeroed s b v → kept_or_zeroed s' b v.
Proof.
  intros E Hheld [H|[H Hb]]; unfold kept_or_zeroed; rewrite E; [left; by apply zero_again|].
  destruct (decide (b ∈ bs)) as [Hin|Hout]; [left; by apply zero_all_in|right]. rewrite zero_all_other by done. auto.
Qed.
Lemma staged_kept_or_zeroed gone `{∀ e, Decision (gone e)} s b v : kept_or_zeroed s b v → kept_or_zeroed (drop_all_staged gone s) b v.
Proof.
  eapply zeroed_or_kept; [done|]. intros [?|(id & e & He & Hb)] Hout; [by left|right]. exists id, e. split; [|done].
  apply dropped_staged_lookup. split; [done|]. intros Hg. apply Hout, list_elem_of_bind. exists (id, e). split; [done|].
  by apply elem_of_map_to_list, map_lookup_filter_Some.
Qed.
Lemma seeds_kept_or_zeroed gone `{∀ e, Decision (gone e)} s b v : kept_or_zeroed s b v → kept_or_zeroed (drop_seeds gone s) b v.
Proof.
  eapply zeroed_or_kept; [done|]. intros [(slot & He)|?] Hout; [left|by right]. exists slot.
  apply dropped_seeds_lookup. split; [done|]. intros Hg. apply Hout, list_elem_of_fmap. exists (slot, b). split; [done|].
  by apply elem_of_map_to_list, map_lookup_filter_Some.
Qed.
Lemma forgetGroup_kept_or_zeroed g s b v : kept_or_zeroed s b v → kept_or_zeroed (GroupSession.forgetGroup g s) b v.
Proof.
  intros H. unfold GroupSession.forgetGroup. cbv zeta.
  match goal with |- kept_or_zeroed (set_families (set_opened (ledger_op _ ?t) _) _ _) _ _ => change (kept_or_zeroed t b v) end.
  apply staged_kept_or_zeroed, seeds_kept_or_zeroed. exact H.
Qed.
Lemma forget_zeroes s b v : kept_or_zeroed s b v → Session.memory (forget s) !! b = Some (zeros v).
Proof.
  intros H. unfold forget. set (s1 := foldl _ _ _). assert (kept_or_zeroed s1 b v) as H1.
  { unfold s1. generalize (elements (dom (Session.chains (set_guardsOwed s ∅)) ∪ dom (Session.opened (set_guardsOwed s ∅)))). intros l.
    assert (kept_or_zeroed (set_guardsOwed s ∅) b v) as H0 by exact H. revert H0. generalize (set_guardsOwed s ∅).
    induction l as [|g l IH]; intros t Ht; [done|]. cbn. by apply IH, forgetGroup_kept_or_zeroed. }
  apply (seeds_kept_or_zeroed (λ _, True)), (staged_kept_or_zeroed (λ _, True)) in H1. destruct H1 as [H1|[_ [(slot & Hs)|(id & e & He & _)]]]; [exact H1| |].
  - exfalso. change (Session.seeds (drop_seeds (λ _, True) s1) !! slot = Some b) in Hs. by apply dropped_seeds_lookup in Hs as [_ []].
  - by apply dropped_staged_lookup in He as [_ []].
Qed.

Lemma forget_unlocked s : Session.unlocked (forget s) = Session.unlocked s.
Proof.
  unfold forget. cbn. generalize (elements (dom (Session.chains s) ∪ dom (Session.opened s))). intros l.
  change (Session.unlocked s) with (Session.unlocked (set_guardsOwed s ∅)). generalize (set_guardsOwed s ∅).
  induction l as [|g l IH]; intros t; [done|]. cbn [foldl]. by rewrite IH.
Qed.

(** ** The theorems *)

(** C29. The families of a session, in any interleaving of acceptances with
    locks, wipes and everything else: the chains the session believes are the
    ledger's, each one acceptance answered and at its family's floor, and a
    forked family has none. *)
Theorem session_families c : reachable c →
  let s := Config.session c in
  Session.chains s = Areas.chains (ledger_areas s) ∧
  (∀ g, g ∈ Session.forked s → Session.chains s !! g = None) ∧
  ∀ g chain, Session.chains s !! g = Some chain → accepted_chain chain ∧ Body.groupId chain = g ∧
    ∃ f, floor (ledger_areas s) g = Some f ∧ rank chain = rank f.
Proof.
  cbv zeta. intros [[(es & Hn & Hac & E) H2 H3] _]%reachable_ok. split; [done|]. split; [done|]. intros g chain. rewrite H2. unfold ledger_areas. rewrite E.
  intros Hc. destruct (inv_chains _ _ _ _ (session_inv es Hn) _ _ Hc) as [Hpast Hg]. rewrite Forall_forall in Hac.
  split; [by apply Hac|]. split; [done|]. by apply (session_at_floor es).
Qed.

(** From acceptance to a write: in any interleaving, any key a write into
    a family folder goes under is reached, by keys at the epochs their children
    were wrapped under, from a root key a member list acceptance answered
    names; the family's guard is stored and its committed list is the one
    written under. *)
Theorem session_writes_rooted c w n e b : reachable c → let s := Session.ledger (Config.session c) in
  isArea (Worker.areas s) w = true →
  wrapKeyFor s w n e = Ok b ∨
  (∃ entry, writableNodeKey s w n = Ok (Some entry) ∧ NodeKey.key entry = b ∧ NodeKey.epoch entry = e) →
  ∃ events g v chain, s = session events ∧ Forall accepted_chain (chains_of events) ∧
    Session.chains (Config.session c) !! g = Some chain ∧ g ∉ Areas.guardOwed (Worker.areas s) ∧
    (areaWriteVersion chain w = Some v ∨ Body.areaKeys chain !! w = None) ∧
    rooted (chains_of events) (brought_in events) g w n v e (bytes_at (Worker.mem s) b).
Proof.
  cbv zeta. intros [[(es & Hn & Hac & E) H2 _] _]%reachable_ok Ha Hb. rewrite H2. unfold ledger_areas. rewrite E in *.
  destruct (written_rooted es w n e b Hn Ha Hb) as (g & v & chain & _ & Hg & Hc & Hv & Hr). by exists es, g, v, chain.
Qed.

(** A lock, or the wipe of its family, ends an acceptance for good: however
    far it had come short of committing, and whatever happens afterwards, it
    commits nothing, uncommits nothing, marks no fork and answers no chain. *)
Theorem gone_runs_commit_nothing c c1 c2 n run r : reachable c → Config.runs c !! n = Some run → call_of run = Some r →
  not_committed run →
  (c1 = with_session c (lock (Config.session c)) ∨ c1 = with_session c (GroupSession.forgetGroup (group_of r) (Config.session c))) →
  rtc gstep c1 c2 →
  ∃ run2, Config.runs c2 !! n = Some run2 ∧ not_committed run2 ∧ (advance (Config.session c2) run2).1 = Config.session c2.
Proof.
  intros Hc Hn Hr Hnc Hgone Hsteps. pose proof (reachable_ok _ Hc) as Hall. destruct (proj2 Hall _ _ Hn) as [_ Hle]. destruct (Hle r Hr) as [Hg He].
  assert (all_ok c1 ∧ Config.runs c1 !! n = Some run ∧ gone (Config.session c1) run) as (Hall1 & Hn1 & Hg1).
  { destruct Hgone as [->| ->].
    - split_and!; [apply all_ok_session; [apply lock_ok, Hall|apply (lock_ok (Config.session c)), Hall|done]|done|].
      intros r' Hr'. left. assert (r' = r) as -> by congruence. cbn. pose proof (proj2 (le_forget (set_host (Config.session c) None None))). cbn in *. lia.
    - split_and!; [apply all_ok_session; [apply good_forgetGroup, Hall|apply le_forgetGroup|done]|done|].
      intros r' Hr'. right. assert (r' = r) as -> by congruence. cbn [with_session Config.session].
      destruct (forgetGroup_parts (group_of r) (Config.session c)) as (_ & _ & _ & _ & _ & E). unfold epoch_of at 1. rewrite E, lookup_insert_eq. cbn. lia. }
  clear c Hc Hn Hall Hle Hg He Hgone Hr r. revert run Hn1 Hg1 Hnc. induction Hsteps as [c|c c' c'' Hstep _ IH]; intros run Hn Hg Hnc.
  - exists run. split_and!; [done|done|]. by apply (advance_gone _ _ (proj2 Hall1 _ _ Hn)).
  - destruct (gone_step _ _ _ _ Hall1 Hstep Hn Hg Hnc) as (run' & Hn' & Hg' & Hnc').
    destruct (gstep_ok _ _ Hstep Hall1) as [Hall' _]. by apply (IH Hall' run').
Qed.

(** An acceptance that commits believes the chain verified and no other:
    one acceptance answered, at the floor or past it through the very roster
    and group key the floor names; no fork of the family is left; it owes the
    guard before anything may be written; what is still staged builds on this
    chain's last roster, and every seed kept is of its group key or a later one. *)
Theorem settle_commits s r m anchor held me s' chain : settle s r m anchor held me = (s', Run.committed r m chain) →
  let g := Body.groupId chain in
  g = Marked.groupId m ∧ still s r m = Ok tt ∧ accepted_chain chain ∧
  Session.chains s' = <[g := chain]> (Session.chains s) ∧ Session.forked s' = Session.forked s ∖ {[g]} ∧
  (∀ f, floor (ledger_areas s) g = Some f → at_or_past f chain ∧
    Body.rosterDigests chain !! Z.to_nat (Roster.rosterVersion (Body.roster f) - 1) = Some (Body.rosterDigest f)) ∧
  (keeps_guard r = true → owes (ledger_areas s') g = true) ∧
  (∀ id e staged, Session.staged s' !! id = Some e → Staged.groupId e = g → Staged.chain e = Some staged →
    Roster.previousRosterDigest (Body.roster staged) = Body.rosterDigest chain) ∧
  (∀ v b, Session.seeds s' !! (g, v) = Some b → Body.groupKeyVersion chain ≤ v).
Proof.
  cbv zeta. intros H. pattern (settle s r m anchor held me) in H. revert H. apply settle_cases; try (intros; discriminate).
  intros chain0 s1 Hstill Hv Hcheck Hcommit [= <- E0]. subst chain0. destruct (verify_accepts _ _ _ _ _ _ Hv) as (sp & rs & ss & _ & Ha).
  destruct (accepted_group _ _ Ha) as [Hg _]. cbn in Hg. rewrite Hg. cbv zeta in Hcommit.
  set (s1' := if keeps_guard r then _ else _) in Hcommit. destruct (commit_inv _ _ _ Hcommit) as (a & Ha' & E & Hl).
  assert (Session.chains s1' = Session.chains s ∧ Session.forked s1' = Session.forked s) as [E1 E2] by (unfold s1'; by destruct (keeps_guard r)).
  split_and!; [done|done|by eexists|subst s1; cbn; by rewrite E1, Hg|subst s1; cbn; by rewrite E2, Hg| | | |].
  - intros f Hf. rewrite <- Hg in Hf. unfold checkCommit in Hcheck. apply bind_ok in Hcheck as ([] & Hover & _).
    unfold floor in Hf. rewrite Hf in Hover. by apply not_overtaken_ok.
  - intros Hk. rewrite Hl. unfold s1' in Ha'. rewrite Hk in Ha'. unfold owes. rewrite (commit_guards _ _ _ Ha'). cbn.
    apply bool_decide_eq_true_2. set_solver.
  - intros id e staged He Hge Hc. rewrite E in He. apply dropped_staged_lookup in He as [_ Hne].
    destruct (decide (Roster.previousRosterDigest (Body.roster staged) = Body.rosterDigest chain)) as [|Hdiff]; [done|].
    exfalso. apply Hne. unfold built_elsewhere. cbn. by rewrite Hc, Hge, Hg.
  - intros v b Hb. rewrite E in Hb. cbn in Hb. rewrite map_lookup_filter_Some in Hb. destruct Hb as [_ Hne].
    destruct (decide (Body.groupKeyVersion chain ≤ v)); [done|]. exfalso. apply Hne. unfold replaced_seed. cbn. rewrite Hg. split; [done|lia].
Qed.

(** A lock leaves nothing of any family: no chain, fork, seed, staged
    change or opened folder, and every seed and staged secret that was held is
    zeroed, as the ledger's keys are. *)
Theorem lock_clears s : let s' := lock s in
  Session.chains s' = ∅ ∧ Session.forked s' = ∅ ∧ Session.seeds s' = ∅ ∧ Session.staged s' = ∅ ∧ Session.opened s' = ∅ ∧
  Session.settings s' = None ∧ Session.unlocked s' = None ∧
  (∀ b v, held_secret s b → Session.memory s !! b = Some v → Session.memory s' !! b = Some (zeros v)) ∧
  (∀ p, held_at (Session.ledger s') p = None).
Proof.
  cbv zeta. unfold lock. split_and!; try done.
  - cbn. apply map_empty. intros k. apply map_lookup_filter_None. right. intros x _ Hx. by apply Hx.
  - cbn. apply map_empty. intros k. apply map_lookup_filter_None. right. intros x _ Hx. by apply Hx.
  - apply (forget_unlocked (set_host s None None)).
  - intros b v Hb Hv. apply (forget_zeroes (set_host s None None)). by right.
  - intros p. apply holds_clear.
Qed.
End runs.

(** ** Witnesses *)

(** Steps one after another, as far as they can be taken. *)
Module Play.
Inductive move := account (unlocked : option string) (identity : option Me.t) | settings (userId : string)
  | begin (input : AcceptInput.t) | next | locked | store (groupId : string)
  | area (groupId workspaceId idSeed : string) (version : Z) (key : bytes) (served : Z)
  | listed (workspaceId : string) (node : ServedNodeKey.t).
Definition play1 `{C : Crypto} (c : Config.t) (m : move) : Config.t :=
  match m with
  | account unlocked identity => with_session c (set_host (Config.session c) unlocked identity)
  | settings userId => match useSettings userId None 0 (Config.session c) with Ok s => with_session c s | Err _ => c end
  | begin input => match Config.runs c !! 0%nat with
      | None => with_run c (Config.session c) 0 (begin_run (Config.session c) input) | Some _ => c end
  | next => match Config.runs c !! 0%nat with
      | Some r => with_run c (advance (Config.session c) r).1 0 (advance (Config.session c) r).2 | None => c end
  | locked => with_session c (lock (Config.session c))
  | store g => match groupGuardKept (Config.session c) g (raw_group_pin <$> Session.guardsOwed (Config.session c) !! g) with
      | Ok (s, _) => with_session c s | Err _ => c end
  | area g w seed version key served => with_session c (keep_area g w seed version key served (Config.session c)).1
  | listed w node => with_session c (set_ledger (Config.session c) (handled (Session.ledger (Config.session c)) (OpenListed w node)))
  end.
Definition play `{C : Crypto} (c : Config.t) (moves : list move) : Config.t := foldl play1 c moves.
Lemma play_reached `{C : Crypto} c moves : rtc gstep c (play c moves).
Proof.
  revert c. induction moves as [|m moves IH]; intros c; [done|]. cbn. etrans; [|apply IH].
  destruct m; cbn [play1]; try (apply rtc_once; by constructor).
  - destruct (useSettings _ _ _ _) eqn:E; [apply rtc_once; by econstructor|done].
  - destruct (_ !! _) eqn:E; [done|apply rtc_once; by constructor].
  - destruct (_ !! _) eqn:E; [apply rtc_once; by constructor|done].
  - destruct (groupGuardKept _ _ _) as [[s answer]|e] eqn:E; [apply rtc_once; by econstructor|done].
Qed.
End Play.

(** A family created on this device, its member list accepted, its guard
    stored, and its one folder opened with the root under it. *)
Module RunWitness.
Definition gid := RosterWitness.gid.
Definition alice := RosterWitness.alice.
Definition roster := Roster.Build_t gid family 1 "" 1 alice [AcceptWitness.member]
  [Area.Build_t WriteWitness.area 1 (Ledger.commit (C := Toy.crypto) WriteWitness.area_key AREA_COMMIT_INFO)
    (Some (Ledger.commit (C := Toy.crypto) WriteWitness.root_key AREA_ROOT_COMMIT_INFO)) false] format2.
Definition statement := match rosterStatement roster with Ok b => b | Err _ => "" end.
Definition wire : SignedStatementWire.t := SignedStatementWire.Build_t (encode statement)
  (encode (Toy.sign 64 AcceptWitness.ed statement "")) (encode (Toy.sign 3309 AcceptWitness.ml statement GROUP_SIGNATURE_CONTEXT))
  (encode (Toy.sign_hybrid AcceptWitness.ed AcceptWitness.ml statement)).
Definition now : jsval := JStr "2026-01-01T00:00:00.000Z".
Definition input : AcceptInput.t := AcceptInput.Build_t alice gid AcceptWitness.key [wire] []
  (Accepting.mlDsaKeys AcceptWitness.input) None false guard_none (Some (Some AcceptWitness.key)) false false now.
Definition begun : Config.t := Play.play (C := Toy.crypto) start
  [Play.account (Some alice) (Some (Me.Build_t alice [])); Play.settings alice; Play.begin input; Play.next; Play.next; Play.next].
Definition accepted : Config.t := Play.play (C := Toy.crypto) begun [Play.next; Play.next].
Definition written : Config.t := Play.play (C := Toy.crypto) accepted
  [Play.store gid; Play.area gid WriteWitness.area WriteWitness.seed 1 WriteWitness.area_key 1; Play.listed WriteWitness.area WriteWitness.row].

Definition verifying_run (r : option Run.t) : option (Run.began * Marked.t * option Anchor * option Body.t * Me.t) :=
  match r with Some (Run.verifying r m anchor held me) => Some (r, m, anchor, held, me) | _ => None end.
Definition committed_chain (r : Run.t) : option Body.t := match r with Run.committed _ _ chain => Some chain | _ => None end.
Definition commits `{C : Crypto} (s : Session.t) (run : option Run.t) : bool :=
  match verifying_run run with
  | Some (r, m, anchor, held, me) => bool_decide (is_Some (committed_chain (settle s r m anchor held me).2))
  | None => false
  end.
Lemma commits_of `{C : Crypto} s run : commits s run = true → ∃ r m anchor held me s' chain, settle s r m anchor held me = (s', Run.committed r m chain).
Proof.
  destruct run as [[r|r g|r m|r m anchor held me|r m chain|o]|]; try discriminate. unfold commits. cbn [verifying_run].
  intros H. apply bool_decide_eq_true in H. revert H. exists r, m, anchor, held, me.
  revert H. apply settle_cases with (P := λ q, is_Some (committed_chain q.2) → ∃ s' chain, q = (s', Run.committed r m chain));
    try (intros; match goal with H : is_Some _ |- _ => by destruct H end). eauto.
Qed.
Lemma begun_runs : commits (C := Toy.crypto) (Config.session begun) (Config.runs begun !! 0%nat) = true.
Proof. vm_compute. reflexivity. Qed.
Lemma begun_reachable : reachable (C := Toy.crypto) begun.
Proof. apply Play.play_reached. Qed.
Lemma accepted_reachable : reachable (C := Toy.crypto) accepted.
Proof. unfold reachable, accepted. etrans; [apply begun_reachable|apply Play.play_reached]. Qed.
Lemma written_reachable : reachable (C := Toy.crypto) written.
Proof. unfold reachable, written. etrans; [apply accepted_reachable|apply Play.play_reached]. Qed.
Lemma accepted_chain_there : bool_decide (is_Some (Session.chains (Config.session accepted) !! gid)) = true.
Proof. vm_compute. reflexivity. Qed.
Definition ledger := Session.ledger (Config.session written).
Lemma written_area : isArea (Worker.areas ledger) WriteWitness.area = true.
Proof. vm_compute. reflexivity. Qed.
Lemma written_wraps : is_ok (wrapKeyFor ledger WriteWitness.area WriteWitness.root 1) = true.
Proof. vm_compute. reflexivity. Qed.
End RunWitness.

Lemma session_families_witness : ∃ chain f, Session.chains (Config.session RunWitness.accepted) !! RunWitness.gid = Some chain ∧
  floor (ledger_areas (Config.session RunWitness.accepted)) RunWitness.gid = Some f ∧ rank chain = rank f.
Proof.
  destruct (session_families (C := Toy.crypto) RunWitness.accepted RunWitness.accepted_reachable) as (_ & _ & H).
  destruct (bool_decide_eq_true_1 _ RunWitness.accepted_chain_there) as [chain Hc]. exists chain.
  destruct (H _ _ Hc) as (_ & _ & f & Hf & Hr). exists f. exact (conj Hc (conj Hf Hr)).
Defined.

Lemma session_writes_rooted_witness : ∃ events g v b, Forall (accepted_chain (C := Toy.crypto)) (chains_of events) ∧
  rooted (C := Toy.crypto) (chains_of events) (brought_in events) g WriteWitness.area WriteWitness.root v 1
    (bytes_at (Worker.mem RunWitness.ledger) b).
Proof.
  pose proof (session_writes_rooted (C := Toy.crypto) RunWitness.written WriteWitness.area WriteWitness.root 1) as H.
  destruct (wrapKeyFor RunWitness.ledger WriteWitness.area WriteWitness.root 1) as [b|e] eqn:E;
    [|exfalso; pose proof RunWitness.written_wraps as Hw; rewrite E in Hw; discriminate Hw].
  destruct (H b RunWitness.written_reachable RunWitness.written_area (or_introl E))
    as (events & g & v & chain & _ & Hp & _ & _ & _ & Hr). exists events, g, v, b. exact (conj Hp Hr).
Defined.

Lemma gone_runs_commit_nothing_witness : ∃ c2 run2, rtc (gstep (C := Toy.crypto)) (with_session RunWitness.begun (lock (Config.session RunWitness.begun))) c2 ∧
  Config.runs c2 !! 0%nat = Some run2 ∧ not_committed run2.
Proof.
  set (c1 := with_session _ _). pose proof (Play.play_reached (C := Toy.crypto) c1 [Play.next; Play.next]) as Hs.
  pose proof RunWitness.begun_runs as Hb. destruct (Config.runs RunWitness.begun !! 0%nat) as [run|] eqn:Hrun; [|discriminate Hb].
  destruct run as [r|r g|r m|r m anchor held me|r m chain|o]; try discriminate Hb. clear Hb.
  destruct (gone_runs_commit_nothing (C := Toy.crypto) RunWitness.begun c1 _ 0%nat _ r RunWitness.begun_reachable Hrun eq_refl I (or_introl eq_refl) Hs)
    as (run2 & H2 & Hn & _). eexists _, run2. exact (conj Hs (conj H2 Hn)).
Defined.

Lemma settle_commits_witness : ∃ s r m anchor held me s' chain, settle (C := Toy.crypto) s r m anchor held me = (s', Run.committed r m chain) ∧
  Session.chains s' !! Body.groupId chain = Some chain.
Proof.
  destruct (RunWitness.commits_of (C := Toy.crypto) (Config.session RunWitness.begun) (Config.runs RunWitness.begun !! 0%nat) RunWitness.begun_runs) as (r & m & anchor & held & me & s' & chain & E).
  generalize dependent (Config.session RunWitness.begun). intros s E. exists s, r, m, anchor, held, me, s', chain. split; [exact E|].
  destruct (settle_commits (C := Toy.crypto) _ _ _ _ _ _ _ _ E) as (_ & _ & _ & Hc & _). rewrite Hc. apply lookup_insert_eq.
Defined.
