(* ===== verification/DriveTables.v ===== *)
(** * The Drive server's tables (packages/db/src/drive.ts, membership.ts, schema/)

    The rows a Drive transaction reads and writes, as finite maps by id, and
    the statements its transactions are made of: the walk to the root, the
    workspace's change number and its writer's check, storage, what retires an
    object, releases an upload and purges a version or a node.

    A transaction is a function of the whole database: every one takes the
    row of its workspace first and holds it until it commits, so transactions
    of one workspace are one after another. A refusal that a transaction
    throws, or a constraint that fails, is an error and leaves the database
    as it was ([transaction]). Envelopes and signatures are the clients': they
    are checked when written ([SignedBy]) and the rows do not keep them here,
    since nothing modelled reads one back. [now] is the clock in milliseconds. *)

From S2P Require Import Prelude.

(** ** Rows *)

Inductive NodeKind := folder | file.
Inductive VersionStatus := version_pending | version_ready | version_purged.
Inductive ObjectStatus := object_pending | object_ready | object_missing.
Inductive UploadStatus := upload_open | upload_completing | upload_conflicted | upload_completed | upload_aborted.
Inductive ShareRole := viewer | editor.
Inductive GroupKind := family_group | org.
#[export] Instance node_kind_eq : EqDecision NodeKind. Proof. solve_decision. Defined.
#[export] Instance version_status_eq : EqDecision VersionStatus. Proof. solve_decision. Defined.
#[export] Instance object_status_eq : EqDecision ObjectStatus. Proof. solve_decision. Defined.
#[export] Instance upload_status_eq : EqDecision UploadStatus. Proof. solve_decision. Defined.
#[export] Instance share_role_eq : EqDecision ShareRole. Proof. solve_decision. Defined.
#[export] Instance group_kind_eq : EqDecision GroupKind. Proof. solve_decision. Defined.

(** [groupId]: the group whose area it is, none for a personal workspace. *)
Module Workspace.
Record t := { changeSeq : Z; keyEpochSeq : Z; groupId : option string; deletedAt : option Z; tombstonesDroppedThrough : Z }.
End Workspace.
Module Storage.
Record t := { baseQuotaBytes : Z; usedBytes : Z; reservedBytes : Z }.
End Storage.
(** [reached]: it carries its previous key's envelope, as a rotation under way left it. *)
Module Node.
Record t := {
  workspaceId : string; parentId : option string; kind : NodeKind; keyEpoch : Z; parentKeyEpoch : Z; reached : bool; metadataVersion : Z;
  currentVersionId : option string; trashedAt : option Z; removedAt : option Z; heightBound : Z; changeSeq : option Z;
  purgedAt : option Z; purgedAncestorIds : option (list string);
}.
End Node.
Module Obj.
Record t := { workspaceId : string; objectKey : string; contentSuite : Z; ciphertextSize : Z; status : ObjectStatus; replicated : bool }.
End Obj.
Module Version.
Record t := { nodeId : string; workspaceId : string; objectId : option string; status : VersionStatus; supersededAt : option Z }.
End Version.
(** A move's source as begin found it ([MoveRecord]). *)
Module MoveRecord.
Record t := { workspaceId : string; nodeId : string; versionId : string; changeSeq : Z; freedBytes : Z; by_ : string }.
End MoveRecord.
Module Upload.
Record t := {
  workspaceId : string; nodeId : string; versionId : string; objectId : option string; objectKey : string; keyEpoch : Z;
  expectedVersionId : option string; newNode : bool; reservedBytes : Z; expiresAt : Z; status : UploadStatus; move : option MoveRecord.t;
}.
End Upload.
(** An object's deletion still in, or done with, the outbox. *)
Module Deletion.
Record t := {
  workspaceId : string; objectKey : string; published : bool; replicated : bool; primaryDeleted : bool; deleteReplicaAfter : option Z; done : bool;
}.
End Deletion.
Module Share.
Record t := { workspaceId : string; nodeId : string; granteeUserId : string; role : ShareRole; revoked : bool }.
End Share.
Module Link.
Record t := { nodeId : string; revoked : bool }.
End Link.
Module Rotation.
Record t := { nodeId : string; targetEpoch : Z }.
End Rotation.
Module Membership.
Record t := { groupKind : GroupKind; active : bool }.
End Membership.
Module PoolRow.
Record t := { quotaBytes : Z; expiresAt : option Z }.
End PoolRow.
Module Entitlement.
Record t := { workspaceId : string; quotaBytes : Z; startsAt : Z; expiresAt : option Z; revoked : bool }.
End Entitlement.

(** What Drive's transactions only read: who is in which group, who holds
    which workspace's key, and what was bought. [personal] is each account's
    own workspace; [billing]: a payment provider is configured. *)
Module People.
Record t := {
  keys : gset (string * string); groups : gmap string GroupKind; memberships : gmap (string * string) Membership.t;
  holds : gmap (string * string) Z; personal : gmap string string; pools : gmap string PoolRow.t;
  entitlements : gmap string Entitlement.t; billing : bool;
}.
End People.
Module Db.
Record t := {
  workspaces : gmap string Workspace.t; storage : gmap string Storage.t; nodes : gmap string Node.t; versions : gmap string Version.t;
  objects : gmap string Obj.t; deletions : gmap string Deletion.t; uploads : gmap string Upload.t; shares : gmap string Share.t;
  links : gmap string Link.t; rotations : gmap string Rotation.t; people : People.t;
}.
End Db.

Section db_setters.
Context (d : Db.t).
Definition set_workspaces v : Db.t := Db.Build_t v (Db.storage d) (Db.nodes d) (Db.versions d) (Db.objects d) (Db.deletions d) (Db.uploads d) (Db.shares d) (Db.links d) (Db.rotations d) (Db.people d).
Definition set_storage v : Db.t := Db.Build_t (Db.workspaces d) v (Db.nodes d) (Db.versions d) (Db.objects d) (Db.deletions d) (Db.uploads d) (Db.shares d) (Db.links d) (Db.rotations d) (Db.people d).
Definition set_nodes v : Db.t := Db.Build_t (Db.workspaces d) (Db.storage d) v (Db.versions d) (Db.objects d) (Db.deletions d) (Db.uploads d) (Db.shares d) (Db.links d) (Db.rotations d) (Db.people d).
Definition set_versions v : Db.t := Db.Build_t (Db.workspaces d) (Db.storage d) (Db.nodes d) v (Db.objects d) (Db.deletions d) (Db.uploads d) (Db.shares d) (Db.links d) (Db.rotations d) (Db.people d).
Definition set_objects v : Db.t := Db.Build_t (Db.workspaces d) (Db.storage d) (Db.nodes d) (Db.versions d) v (Db.deletions d) (Db.uploads d) (Db.shares d) (Db.links d) (Db.rotations d) (Db.people d).
Definition set_deletions v : Db.t := Db.Build_t (Db.workspaces d) (Db.storage d) (Db.nodes d) (Db.versions d) (Db.objects d) v (Db.uploads d) (Db.shares d) (Db.links d) (Db.rotations d) (Db.people d).
Definition set_uploads v : Db.t := Db.Build_t (Db.workspaces d) (Db.storage d) (Db.nodes d) (Db.versions d) (Db.objects d) (Db.deletions d) v (Db.shares d) (Db.links d) (Db.rotations d) (Db.people d).
Definition set_grants shares links : Db.t := Db.Build_t (Db.workspaces d) (Db.storage d) (Db.nodes d) (Db.versions d) (Db.objects d) (Db.deletions d) (Db.uploads d) shares links (Db.rotations d) (Db.people d).
Definition set_others rotations people : Db.t := Db.Build_t (Db.workspaces d) (Db.storage d) (Db.nodes d) (Db.versions d) (Db.objects d) (Db.deletions d) (Db.uploads d) (Db.shares d) (Db.links d) rotations people.
End db_setters.

Section node_setters.
Context (n : Node.t).
Definition with_seq v : Node.t := Node.Build_t (Node.workspaceId n) (Node.parentId n) (Node.kind n) (Node.keyEpoch n) (Node.parentKeyEpoch n) (Node.reached n) (Node.metadataVersion n) (Node.currentVersionId n) (Node.trashedAt n) (Node.removedAt n) (Node.heightBound n) v (Node.purgedAt n) (Node.purgedAncestorIds n).
Definition with_current v : Node.t := Node.Build_t (Node.workspaceId n) (Node.parentId n) (Node.kind n) (Node.keyEpoch n) (Node.parentKeyEpoch n) (Node.reached n) (Node.metadataVersion n) v (Node.trashedAt n) (Node.removedAt n) (Node.heightBound n) (Node.changeSeq n) (Node.purgedAt n) (Node.purgedAncestorIds n).
Definition with_height v : Node.t := Node.Build_t (Node.workspaceId n) (Node.parentId n) (Node.kind n) (Node.keyEpoch n) (Node.parentKeyEpoch n) (Node.reached n) (Node.metadataVersion n) (Node.currentVersionId n) (Node.trashedAt n) (Node.removedAt n) v (Node.changeSeq n) (Node.purgedAt n) (Node.purgedAncestorIds n).
Definition with_trash trashed removed : Node.t := Node.Build_t (Node.workspaceId n) (Node.parentId n) (Node.kind n) (Node.keyEpoch n) (Node.parentKeyEpoch n) (Node.reached n) (Node.metadataVersion n) (Node.currentVersionId n) trashed removed (Node.heightBound n) (Node.changeSeq n) (Node.purgedAt n) (Node.purgedAncestorIds n).
Definition with_parent parent epoch : Node.t := Node.Build_t (Node.workspaceId n) parent (Node.kind n) (Node.keyEpoch n) epoch (Node.reached n) (Node.metadataVersion n) (Node.currentVersionId n) (Node.trashedAt n) (Node.removedAt n) (Node.heightBound n) (Node.changeSeq n) (Node.purgedAt n) (Node.purgedAncestorIds n).
Definition with_metadata version : Node.t := Node.Build_t (Node.workspaceId n) (Node.parentId n) (Node.kind n) (Node.keyEpoch n) (Node.parentKeyEpoch n) (Node.reached n) version (Node.currentVersionId n) (Node.trashedAt n) (Node.removedAt n) (Node.heightBound n) (Node.changeSeq n) (Node.purgedAt n) (Node.purgedAncestorIds n).
Definition with_purge at_ ancestors : Node.t := Node.Build_t (Node.workspaceId n) (Node.parentId n) (Node.kind n) (Node.keyEpoch n) (Node.parentKeyEpoch n) (Node.reached n) (Node.metadataVersion n) (Node.currentVersionId n) (Node.trashedAt n) (Node.removedAt n) (Node.heightBound n) (Node.changeSeq n) at_ ancestors.
End node_setters.

Section version_setters.
Context (v : Version.t).
Definition with_status status : Version.t := Version.Build_t (Version.nodeId v) (Version.workspaceId v) (Version.objectId v) status (Version.supersededAt v).
Definition with_superseded at_ : Version.t := Version.Build_t (Version.nodeId v) (Version.workspaceId v) (Version.objectId v) (Version.status v) at_.
Definition without_object : Version.t := Version.Build_t (Version.nodeId v) (Version.workspaceId v) None (Version.status v) (Version.supersededAt v).
Definition at_node node : Version.t := Version.Build_t node (Version.workspaceId v) (Version.objectId v) (Version.status v) (Version.supersededAt v).
End version_setters.

Section upload_setters.
Context (u : Upload.t).
Definition upload_as status reserved : Upload.t := Upload.Build_t (Upload.workspaceId u) (Upload.nodeId u) (Upload.versionId u) (Upload.objectId u) (Upload.objectKey u) (Upload.keyEpoch u) (Upload.expectedVersionId u) (Upload.newNode u) reserved (Upload.expiresAt u) status (Upload.move u).
Definition upload_onto node epoch expected new : Upload.t := Upload.Build_t (Upload.workspaceId u) node (Upload.versionId u) (Upload.objectId u) (Upload.objectKey u) epoch expected new (Upload.reservedBytes u) (Upload.expiresAt u) (Upload.status u) (Upload.move u).
Definition upload_without_object : Upload.t := Upload.Build_t (Upload.workspaceId u) (Upload.nodeId u) (Upload.versionId u) None (Upload.objectKey u) (Upload.keyEpoch u) (Upload.expectedVersionId u) (Upload.newNode u) (Upload.reservedBytes u) (Upload.expiresAt u) (Upload.status u) (Upload.move u).
Definition upload_settled : Upload.t := Upload.Build_t (Upload.workspaceId u) (Upload.nodeId u) (Upload.versionId u) (Upload.objectId u) (Upload.objectKey u) (Upload.keyEpoch u) (Upload.expectedVersionId u) (Upload.newNode u) (Upload.reservedBytes u) (Upload.expiresAt u) (Upload.status u) None.
End upload_setters.

(** Whether some row of a table is as asked. *)
Definition any {A} (f : A → bool) (m : gmap string A) : bool := existsb (λ e, f e.2) (map_to_list m).

(** ** Transactions *)

(** One transaction: what it answers and the database it commits, or what it throws. *)
Definition transaction {A} (work : Db.t → result (Db.t * A)) (d : Db.t) : Db.t * result A :=
  match work d with Ok (d', a) => (d', Ok a) | Err e => (d, Err e) end.
(** One whose refusals undo what came before them. *)
Definition transactionKeeping {A} (keep : A → bool) (work : Db.t → result (Db.t * A)) : Db.t → result (Db.t * A) := λ d,
  let* (d', a) := work d in Ok (if keep a then d' else d, a).

Definition NO_WORKSPACE : string := "Workspace not found.".
Definition ACCESS_ENDED : string := "Access to this workspace ended.".
Definition ACCESS_HELD : string := "Writes here are paused.".
(** Constraints of the tables that a write may meet. *)
Definition STORAGE_NONNEGATIVE : string := "workspace_storage_nonnegative".
Definition HAS_CHILDREN : string := "drive_nodes_parent_fk".

(** *** Who may write *)

Definition holdsWorkspace (d : Db.t) (userId workspaceId : string) : bool :=
  bool_decide ((workspaceId, userId) ∈ People.keys (Db.people d)) &&
  match Db.workspaces d !! workspaceId with
  | Some w =>
      bool_decide (Workspace.deletedAt w = None) &&
      match Workspace.groupId w with
      | None => true
      | Some g => match People.memberships (Db.people d) !! (g, userId) with Some m => Membership.active m | None => false end
      end
  | None => false
  end.
Definition heldIn (now : Z) (d : Db.t) (groupId userId : string) : bool :=
  match People.holds (Db.people d) !! (groupId, userId) with Some expiresAt => now <? expiresAt | None => false end.
Definition requireStillWriter (now : Z) (d : Db.t) (workspaceId writer : string) (groupId : option string) : result unit :=
  match groupId with
  | None => Ok tt
  | Some g =>
      refuse ACCESS_HELD when heldIn now d g writer ;;
      if holdsWorkspace d writer workspaceId then Ok tt
      else refuse ACCESS_ENDED unless
        any (λ s, (Share.workspaceId s === workspaceId) && (Share.granteeUserId s === writer) && (Share.role s === editor) &&
                  negb (Share.revoked s)) (Db.shares d) ;;
        Ok tt
  end.
(** Whether [userId] may still delete what the workspace holds: held, or not theirs, no. *)
Definition mayStillRemove (now : Z) (d : Db.t) (userId workspaceId : string) : bool :=
  holdsWorkspace d userId workspaceId &&
  match Db.workspaces d !! workspaceId with
  | Some w => match Workspace.groupId w with Some g => negb (heldIn now d g userId) | None => true end
  | None => false
  end.
Definition movePolicyAllows (d : Db.t) (sourceWorkspaceId : string) : bool :=
  match (Db.workspaces d !! sourceWorkspaceId ≫= Workspace.groupId) ≫= (λ g, People.groups (Db.people d) !! g) with
  | Some org => false
  | _ => true
  end.

Definition bump (w : Workspace.t) (by_ : Z) : Workspace.t :=
  Workspace.Build_t (Workspace.changeSeq w + by_) (Workspace.keyEpochSeq w) (Workspace.groupId w) (Workspace.deletedAt w) (Workspace.tombstonesDroppedThrough w).
(** The workspace's row taken, with its next change number. *)
Definition nextChangeSeq (now : Z) (workspaceId : string) (writer : option string) (d : Db.t) : result (Db.t * Z) :=
  match Db.workspaces d !! workspaceId with
  | None => Err NO_WORKSPACE
  | Some w =>
      let d := set_workspaces d (<[workspaceId := bump w 1]> (Db.workspaces d)) in
      let* _ := match writer with Some writer => requireStillWriter now d workspaceId writer (Workspace.groupId w) | None => Ok tt end in
      Ok (d, Workspace.changeSeq w + 1)
  end.
Definition moreChangeSeqs (workspaceId : string) (count : Z) (d : Db.t) : Db.t :=
  set_workspaces d (alter (λ w, bump w count) workspaceId (Db.workspaces d)).
Definition epochWasAllocated (d : Db.t) (workspaceId : string) (keyEpoch : Z) : bool :=
  match Db.workspaces d !! workspaceId with
  | Some w => (1 <=? keyEpoch) && (keyEpoch <=? Workspace.keyEpochSeq w)
  | None => false
  end.
Definition allocateKeyEpochs (now : Z) (workspaceId : string) (count : Z) (writer : option string) (d : Db.t)
    : result (Db.t * option (Z * Z)) :=
  refuse "Invalid epoch count." when (count <? 1) || (10000 <? count) ;;
  match Db.workspaces d !! workspaceId with
  | None => Ok (d, None)
  | Some w =>
      let seq := Workspace.keyEpochSeq w + count in
      let d := set_workspaces d (<[workspaceId := Workspace.Build_t (Workspace.changeSeq w) seq (Workspace.groupId w)
        (Workspace.deletedAt w) (Workspace.tombstonesDroppedThrough w)]> (Db.workspaces d)) in
      let* _ := match writer with Some writer => requireStillWriter now d workspaceId writer (Workspace.groupId w) | None => Ok tt end in
      Ok (d, Some (seq - count + 1, seq))
  end.

(** ** The walk to the root *)

Definition MAX_DEPTH : Z := 64.
Definition WALK_CAP : nat := 128.

Module Ancestor.
Record t := { id : string; parentId : option string; keyEpoch : Z }.
End Ancestor.
Module Walk.
Record t := {
  id : string; node : Node.t; ancestors : list Ancestor.t; depth : Z; trashed : bool; trashedAncestors : list string; purged : bool;
  rootId : string;
}.
End Walk.
Fixpoint chain_rows (nodes : gmap string Node.t) (cap : nat) (id : string) : list (string * Node.t) :=
  match cap with
  | O => []
  | S cap =>
      match nodes !! id with
      | None => []
      | Some n => (id, n) :: match Node.parentId n with Some p => chain_rows nodes cap p | None => [] end
      end
  end.
Definition ancestor_of (row : string * Node.t) : Ancestor.t := Ancestor.Build_t row.1 (Node.parentId row.2) (Node.keyEpoch row.2).
Definition is_trashed (row : string * Node.t) : bool := bool_decide (is_Some (Node.trashedAt row.2)).
Definition is_purged (row : string * Node.t) : bool := bool_decide (is_Some (Node.purgedAt row.2)).
(** From its chain's rows, the node first and the root last. *)
Definition chainWalk (rows : list (string * Node.t)) : option Walk.t :=
  match rows, last rows with
  | (id, node) :: above, Some (rootId, top) =>
      match Node.parentId top with
      | Some _ => None
      | None => Some (Walk.Build_t id node (reverse (map ancestor_of above)) (Z.of_nat (length above)) (existsb is_trashed rows)
          (reverse (map fst (List.filter is_trashed above))) (existsb is_purged rows) rootId)
      end
  | _, _ => None
  end.
Definition walk (d : Db.t) (nodeId : string) : option Walk.t := chainWalk (chain_rows (Db.nodes d) WALK_CAP nodeId).
Definition ancestorIds (w : Walk.t) : list string := map Ancestor.id (Walk.ancestors w).
(** The node itself, as the last ancestor of what goes under it. *)
Definition and_itself (w : Walk.t) : list Ancestor.t := Walk.ancestors w ++ [ancestor_of (Walk.id w, Walk.node w)].

Definition underUnrotatedParent (d : Db.t) (workspaceId : string) (parent : Walk.t) : bool :=
  match Db.rotations d !! workspaceId with
  | None => false
  | Some r =>
      (bool_decide (Walk.id parent = Rotation.nodeId r) || bool_decide (Rotation.nodeId r ∈ ancestorIds parent)) &&
      ((Node.keyEpoch (Walk.node parent) <? Rotation.targetEpoch r) ||
       (bool_decide (is_Some (Node.parentId (Walk.node parent))) &&
        (Node.parentKeyEpoch (Walk.node parent) <? Rotation.targetEpoch r))) &&
      bool_decide (is_Some ((Db.workspaces d !! workspaceId) ≫= Workspace.groupId))
  end.

Definition raise_to (distance : Z) (n : Node.t) : Node.t := if Node.heightBound n <? distance then with_height n distance else n.
Definition raise_one (nodes : gmap string Node.t) (id : string) (distance : Z) : gmap string Node.t := alter (raise_to distance) id nodes.
(** [ids] root first; the last is the parent, one above the leaf. *)
Fixpoint raise_each (nodes : gmap string Node.t) (ids : list string) (leafHeight : Z) : gmap string Node.t :=
  match ids with
  | [] => nodes
  | id :: rest => raise_each (raise_one nodes id (Z.of_nat (length ids) + leafHeight)) rest leafHeight
  end.
Definition raiseHeightBounds (ancestors : list Ancestor.t) (leafHeight : Z) (d : Db.t) : Db.t :=
  set_nodes d (raise_each (Db.nodes d) (map Ancestor.id ancestors) leafHeight).

(** ** Storage *)

Definition adjust (s : Storage.t) (used reserved : Z) : Storage.t :=
  Storage.Build_t (Storage.baseQuotaBytes s) (Storage.usedBytes s + used) (Storage.reservedBytes s + reserved).
Definition adjustStorage (workspaceId : string) (used reserved : Z) (d : Db.t) : result Db.t :=
  match Db.storage d !! workspaceId with
  | None => Ok d
  | Some s =>
      let s := adjust s used reserved in
      refuse STORAGE_NONNEGATIVE when (Storage.usedBytes s <? 0) || (Storage.reservedBytes s <? 0) ;;
      Ok (set_storage d (<[workspaceId := s]> (Db.storage d)))
  end.

(** ** What a row's end takes with it (foreign keys) *)

(** Versions gone: their uploads too, and no node points at them. *)
Definition drop_versions (gone : string * Version.t → Prop) `{∀ e, Decision (gone e)} (d : Db.t) : Db.t :=
  let ids := dom (filter gone (Db.versions d)) in
  let d := set_versions d (filter (λ e, ¬ gone e) (Db.versions d)) in
  let d := set_uploads d (filter (λ e, Upload.versionId e.2 ∉ ids) (Db.uploads d)) in
  set_nodes d ((λ n, match Node.currentVersionId n with
    | Some v => if decide (v ∈ ids) then with_current n None else n
    | None => n end) <$> Db.nodes d).
(** A node gone; one with children is refused. *)
Definition delete_node (nodeId : string) (d : Db.t) : result Db.t :=
  refuse HAS_CHILDREN when any (λ n, Node.parentId n === Some nodeId) (Db.nodes d) ;;
  let d := drop_versions (λ e, Version.nodeId e.2 = nodeId) d in
  let d := set_uploads d (filter (λ e, Upload.nodeId e.2 ≠ nodeId) (Db.uploads d)) in
  let d := set_grants d (filter (λ e, Share.nodeId e.2 ≠ nodeId) (Db.shares d)) (filter (λ e, Link.nodeId e.2 ≠ nodeId) (Db.links d)) in
  Ok (set_nodes d (delete nodeId (Db.nodes d))).
Definition delete_object (objectId : string) (d : Db.t) : Db.t :=
  let d := set_objects d (delete objectId (Db.objects d)) in
  let d := set_versions d ((λ v, if Version.objectId v === Some objectId then without_object v else v) <$> Db.versions d) in
  set_uploads d ((λ u, if Upload.objectId u === Some objectId then upload_without_object u else u) <$> Db.uploads d).

(** When a version's last reference to an object goes, the object's row becomes an outbox row. *)
Definition deletion_of (o : Obj.t) : Deletion.t :=
  Deletion.Build_t (Obj.workspaceId o) (Obj.objectKey o) (Obj.status o === object_ready) (Obj.replicated o) false None false.
Definition retireObjectIfUnreferenced (objectId : string) (d : Db.t) : Db.t :=
  if any (λ v, (Version.objectId v === Some objectId) && (Version.status v !== version_purged)) (Db.versions d) then d
  else match Db.objects d !! objectId with
  | None => d
  | Some o =>
      let d := delete_object objectId d in
      set_deletions d (match Db.deletions d !! objectId with
        | Some _ => Db.deletions d
        | None => <[objectId := deletion_of o]> (Db.deletions d)
        end)
  end.
Definition retire_option (objectId : option string) (d : Db.t) : Db.t :=
  match objectId with Some o => retireObjectIfUnreferenced o d | None => d end.

(** Releases what an upload holds: its reservation, its version, its object, and the node begin made for it. *)
Definition purge_version_row (versionId : string) (d : Db.t) : Db.t :=
  set_versions d (alter (λ v, with_status v version_purged) versionId (Db.versions d)).
Definition releaseUpload (uploadId : string) (upload : Upload.t) (status : UploadStatus) (d : Db.t) : result Db.t :=
  let* d := adjustStorage (Upload.workspaceId upload) 0 (- Upload.reservedBytes upload) d in
  let d := purge_version_row (Upload.versionId upload) d in
  let d := set_uploads d (alter (λ u, upload_as u status 0) uploadId (Db.uploads d)) in
  let d := retire_option (Upload.objectId upload) d in
  if Upload.newNode upload
  then let d := drop_versions (λ e, Version.nodeId e.2 = Upload.nodeId upload) d in
       if bool_decide (is_Some (Db.nodes d !! Upload.nodeId upload)) then delete_node (Upload.nodeId upload) d else Ok d
  else Ok d.

(** *** Purging *)

Definition object_size (d : Db.t) (v : Version.t) : option Z :=
  Version.objectId v ≫= λ o, Obj.ciphertextSize <$> Db.objects d !! o.
(** The upload of a version, as the purge reads it. *)
Definition upload_of_version (d : Db.t) (versionId : string) : option (string * Upload.t) :=
  head (List.filter (λ e, Upload.versionId e.2 === versionId) (map_to_list (Db.uploads d))).
Definition keep_node (u : Upload.t) : Upload.t := upload_onto u (Upload.nodeId u) (Upload.keyEpoch u) (Upload.expectedVersionId u) false.
(** [version] as it was read with its object's [size], before this purge's writes. *)
Definition purge_row (workspaceId versionId : string) (version : Version.t) (size : option Z) (d : Db.t) : result Db.t :=
  let d := purge_version_row versionId d in
  let* d := match Version.status version, size with
    | version_ready, Some size => adjustStorage workspaceId (- size) 0 d
    | _, _ => Ok d
    end in
  Ok (retire_option (Version.objectId version) d).
Definition purgeVersion (workspaceId versionId : string) (version : Version.t) (size : option Z) (d : Db.t) : result Db.t :=
  match Version.status version with
  | version_purged => Ok d
  | version_ready => purge_row workspaceId versionId version size d
  | version_pending =>
      match upload_of_version d versionId with
      | Some (id, u) =>
          match Upload.status u with
          | upload_completing => Ok d
          | upload_open | upload_conflicted => releaseUpload id (keep_node u) upload_aborted d
          | _ => purge_row workspaceId versionId version size d
          end
      | None => purge_row workspaceId versionId version size d
      end
  end.
Fixpoint purge_each (workspaceId : string) (versions : list (string * Version.t * option Z)) (d : Db.t) : result Db.t :=
  match versions with
  | [] => Ok d
  | (id, v, size) :: rest => let* d := purgeVersion workspaceId id v size d in purge_each workspaceId rest d
  end.
Definition versions_of (d : Db.t) (nodeId : string) : list (string * Version.t * option Z) :=
  map (λ e, (e, object_size d e.2)) (List.filter (λ e, Version.nodeId e.2 === nodeId) (map_to_list (Db.versions d))).
Definition revoke_share (s : Share.t) : Share.t := Share.Build_t (Share.workspaceId s) (Share.nodeId s) (Share.granteeUserId s) (Share.role s) true.
Definition revoke_link (l : Link.t) : Link.t := Link.Build_t (Link.nodeId l) true.
Definition revoke_grants (nodeId : string) (d : Db.t) : Db.t :=
  set_grants d ((λ s, if Share.nodeId s === nodeId then revoke_share s else s) <$> Db.shares d)
    ((λ l, if Link.nodeId l === nodeId then revoke_link l else l) <$> Db.links d).
(** One node under its workspace's row: every version goes, its grants, and the row stays as a tombstone. *)
Definition purgeOne (now : Z) (workspaceId nodeId : string) (changeSeq : Z) (ancestors : option (list string)) (d : Db.t) : result (Db.t * bool) :=
  match Db.nodes d !! nodeId with
  | None => Ok (d, false)
  | Some node =>
      if (Node.workspaceId node !== workspaceId) || bool_decide (is_Some (Node.purgedAt node)) then Ok (d, false)
      else
        let* d := purge_each workspaceId (versions_of d nodeId) d in
        let above := match ancestors with Some ids => ids | None => from_option ancestorIds [] (walk d nodeId) end in
        let d := set_nodes d (alter (λ n, with_seq (with_purge n (Some now) (Some above)) (Some changeSeq)) nodeId (Db.nodes d)) in
        Ok (revoke_grants nodeId d, true)
  end.

(** ** Signed statements *)

Module SignedStatement.
Inductive t :=
  | metadata_signed (workspaceId nodeId : string) (kind : NodeKind) (metadataVersion : Z) (envelope signature : string)
  | version_signed (workspaceId nodeId versionId objectId : string) (contentSuite : Z) (envelope signature : string).
End SignedStatement.
(** Whether each statement carries a signature by the account's current key ([Signatures] has the
    statements; the account's key is the server's); an outdated identity is an error. *)
Class SignedBy := signedBy : string → list SignedStatement.t → result bool.
