(* ===== verification/Pool.v ===== *)
(** * What a workspace may still take (packages/db/src/pool.ts, pool-count.ts)

    A family's one storage pool and a workspace's own allowance, as a Drive
    transaction reads them. The membership [storageFigures] reads again under
    the pool's lock is the one it read before: a transaction is one step here,
    and every membership change takes that lock (settlingPool starts over the
    ones that saw it move). *)

From S2P Require Import Prelude DriveTables.

Definition GIB : Z := Z.shiftl 1 30.
Definition wholeGibUp (bytes : Z) : Z := if bytes <=? 0 then 0 else (bytes + GIB - 1) / GIB * GIB.
Definition countedPool (parts : list Z) : Z := foldl (λ sum part, sum + wholeGibUp part) 0 parts.

Fixpoint sum_of {A} (f : A → Z) (l : list A) : Z := match l with [] => 0 | x :: l => f x + sum_of f l end.

(** A part of the pool: the family's folders together, or one member's own files. *)
Module PoolPart.
Record t := { workspaceId : option string; used : Z; reserved : Z }.
End PoolPart.
Definition part_bytes (reserved : bool) (p : PoolPart.t) : Z := PoolPart.used p + (if reserved then PoolPart.reserved p else 0).
Definition counted (p : PoolPart.t) (reserved : bool) : Z := wholeGibUp (part_bytes reserved p).
Definition countedAll (parts : list PoolPart.t) (reserved : bool) : Z := countedPool (map (part_bytes reserved) parts).

Definition in_group (d : Db.t) (groupId workspaceId : string) : bool :=
  match Db.workspaces d !! workspaceId with Some w => Workspace.groupId w === Some groupId | None => false end.
Definition pooled_member (d : Db.t) (groupId userId : string) : bool :=
  match People.memberships (Db.people d) !! (groupId, userId) with
  | Some m => (Membership.groupKind m === family_group) && Membership.active m
  | None => false
  end.
Definition folder_rows (d : Db.t) (groupId : string) : list Storage.t :=
  map snd (List.filter (λ e, in_group d groupId e.1) (map_to_list (Db.storage d))).
Definition member_part (d : Db.t) (groupId : string) (e : string * string) : list PoolPart.t :=
  if pooled_member d groupId e.1
  then match Db.storage d !! e.2 with
    | Some s => [PoolPart.Build_t (Some e.2) (Storage.usedBytes s) (Storage.reservedBytes s)]
    | None => []
    end
  else [].
Definition poolParts (d : Db.t) (groupId : string) : list PoolPart.t :=
  PoolPart.Build_t None (sum_of Storage.usedBytes (folder_rows d groupId)) (sum_of Storage.reservedBytes (folder_rows d groupId)) ::
  (map_to_list (People.personal (Db.people d)) ≫= member_part d groupId).
Module PoolUsage.
Record t := { used : Z; reserved : Z; counted : Z; countedReserved : Z; parts : list PoolPart.t }.
End PoolUsage.
Definition poolUsage (d : Db.t) (groupId : string) : PoolUsage.t :=
  let parts := poolParts d groupId in
  PoolUsage.Build_t (sum_of PoolPart.used parts) (sum_of PoolPart.reserved parts) (countedAll parts false) (countedAll parts true) parts.

(** The family an account is an active member of. *)
Definition activeFamilyId (d : Db.t) (userId : string) : option string :=
  fst ∘ fst <$> head (List.filter (λ e, (e.1.2 === userId) && (Membership.groupKind e.2 === family_group) && Membership.active e.2)
    (map_to_list (People.memberships (Db.people d)))).
Definition planLive (pool : PoolRow.t) (at_ : Z) : bool :=
  match PoolRow.expiresAt pool with Some e => at_ <? e | None => false end.

Module StorageFigures.
Record t := { allowance : Z; used : Z; reserved : Z; free : Z; shown : option (Z * Z); pool : option string }.
End StorageFigures.
Definition in_force (at_ : Z) (workspaceId : string) (e : Entitlement.t) : bool :=
  (Entitlement.workspaceId e === workspaceId) && negb (Entitlement.revoked e) && (Entitlement.startsAt e <=? at_) &&
  match Entitlement.expiresAt e with None => true | Some x => at_ <? x end.
Definition grants (d : Db.t) (at_ : Z) (workspaceId : string) : list Entitlement.t :=
  List.filter (in_force at_ workspaceId) (map snd (map_to_list (People.entitlements (Db.people d)))).
Definition ownFigures (d : Db.t) (workspaceId : string) (own : Storage.t) (at_ : Z) : StorageFigures.t :=
  let allowance := foldl (λ sum g, sum + Entitlement.quotaBytes g) (Storage.baseQuotaBytes own) (grants d at_ workspaceId) in
  StorageFigures.Build_t allowance (Storage.usedBytes own) (Storage.reservedBytes own)
    (allowance - Storage.usedBytes own - Storage.reservedBytes own) None None.

Definition is_own (workspaceId : string) (isArea : bool) (p : PoolPart.t) : bool :=
  if isArea then PoolPart.workspaceId p === None else PoolPart.workspaceId p === Some workspaceId.
Definition own_part (workspaceId : string) (isArea : bool) (parts : list PoolPart.t) : PoolPart.t :=
  match List.find (is_own workspaceId isArea) parts with Some p => p | None => PoolPart.Build_t None 0 0 end.
Definition poolFigures (d : Db.t) (groupId workspaceId : string) (isArea : bool) (pool : PoolRow.t) (at_ : Z) : StorageFigures.t :=
  let usage := poolUsage d groupId in
  let allowance := if planLive pool at_ then PoolRow.quotaBytes pool else 0 in
  let own := own_part workspaceId isArea (PoolUsage.parts usage) in
  let others := PoolUsage.countedReserved usage - counted own true in
  let mine := if isArea then counted own true else PoolPart.used own + PoolPart.reserved own in
  StorageFigures.Build_t allowance (PoolUsage.used usage) (PoolUsage.reserved usage) (allowance - others - mine)
    (Some (PoolUsage.counted usage, allowance - PoolUsage.countedReserved usage)) (Some groupId).

Definition owner_of (d : Db.t) (workspaceId : string) : option string :=
  fst <$> head (List.filter (λ e, e.2 === workspaceId) (map_to_list (People.personal (Db.people d)))).
Definition storageFigures (now : Z) (d : Db.t) (workspaceId : string) : option StorageFigures.t :=
  match Db.workspaces d !! workspaceId with
  | None => None
  | Some w =>
      let own_only := (λ own, ownFigures d workspaceId own now) <$> Db.storage d !! workspaceId in
      if negb (People.billing (Db.people d)) then own_only
      else match Workspace.groupId w, owner_of d workspaceId with
      | Some groupId, _ =>
          match Db.storage d !! workspaceId with
          | None => None
          | Some own => Some match People.pools (Db.people d) !! groupId with
              | Some pool => poolFigures d groupId workspaceId true pool now
              | None => ownFigures d workspaceId own now
              end
          end
      | None, Some userId =>
          match activeFamilyId d userId with
          | None => own_only
          | Some familyId =>
              match Db.storage d !! workspaceId with
              | None => None
              | Some own => Some match People.pools (Db.people d) !! familyId with
                  | Some pool => if planLive pool now then poolFigures d familyId workspaceId false pool now else ownFigures d workspaceId own now
                  | None => ownFigures d workspaceId own now
                  end
              end
          end
      | None, None => own_only
      end
  end.

(** Whether a newcomer's own files fit ([pool-full]). *)
Definition admissionFits (now : Z) (d : Db.t) (groupId userId : string) : bool :=
  if negb (People.billing (Db.people d)) then true
  else match People.pools (Db.people d) !! groupId, People.personal (Db.people d) !! userId with
  | Some pool, Some workspaceId =>
      match Db.storage d !! workspaceId with
      | None => true
      | Some own =>
          if negb (planLive pool now) then true
          else PoolUsage.countedReserved (poolUsage d groupId) +
            wholeGibUp (Storage.usedBytes own + Storage.reservedBytes own) <=? PoolRow.quotaBytes pool
      end
  | _, _ => true
  end.
(** Whether a move's source draws from the destination's pool. *)
Definition samePool (now : Z) (d : Db.t) (destination : StorageFigures.t) (sourceWorkspaceId : string) : bool :=
  match StorageFigures.pool destination with
  | None => false
  | Some g => (storageFigures now d sourceWorkspaceId ≫= StorageFigures.pool) === Some g
  end.

(** ** Counting in whole GiB *)

Lemma GIB_pos : 0 < GIB.
Proof. done. Qed.
Lemma wholeGibUp_bounds b : Z.max b 0 ≤ wholeGibUp b < Z.max b 0 + GIB ∧ wholeGibUp b mod GIB = 0.
Proof.
  unfold wholeGibUp. pose proof GIB_pos. destruct (Z.leb_spec b 0); [split; [lia|by rewrite Zmod_0_l]|].
  pose proof (Z.div_mod (b + GIB - 1) GIB ltac:(lia)). pose proof (Z.mod_pos_bound (b + GIB - 1) GIB ltac:(lia)).
  rewrite (Z.mul_comm GIB) in *. split; [lia|]. apply Z_mod_mult.
Qed.
Lemma wholeGibUp_mono a b : a ≤ b → wholeGibUp a ≤ wholeGibUp b.
Proof.
  intros H. unfold wholeGibUp. pose proof GIB_pos. destruct (Z.leb_spec a 0), (Z.leb_spec b 0); try lia.
  - apply Z.mul_nonneg_nonneg; [apply Z.div_pos; lia|lia].
  - apply Z.mul_le_mono_nonneg_r; [lia|]. apply Z.div_le_mono; lia.
Qed.
Lemma countedPool_sum parts : countedPool parts = sum_of wholeGibUp parts.
Proof.
  unfold countedPool. assert (∀ s, foldl (λ sum part, sum + wholeGibUp part) s parts = s + sum_of wholeGibUp parts) as ->; [|lia].
  induction parts as [|p parts IH]; intros s; cbn; [lia|]. rewrite IH. lia.
Qed.
Lemma countedAll_sum parts reserved : countedAll parts reserved = sum_of (λ p, counted p reserved) parts.
Proof. unfold countedAll. rewrite countedPool_sum. induction parts; cbn; [done|]. by rewrite IHparts. Qed.
Lemma sum_of_le {A} (f g : A → Z) l : (∀ x, x ∈ l → f x ≤ g x) → sum_of f l ≤ sum_of g l.
Proof. induction l as [|x l IH]; intros H; cbn; [done|]. pose proof (H x ltac:(left)). assert (sum_of f l ≤ sum_of g l) by (apply IH; intros; apply H; by right). lia. Qed.
Lemma sum_of_ext2 {A B} (f : A → Z) (g : B → Z) l k : Forall2 (λ x y, f x = g y) l k → sum_of f l = sum_of g k.
Proof. induction 1 as [|x y l k E _ IH]; cbn; lia. Qed.
(** A sum with one element of the list taken out. *)
Lemma sum_of_find {A} (p : A → bool) (f : A → Z) l x : List.find p l = Some x → ∃ l1 l2, l = l1 ++ x :: l2 ∧
  sum_of f l = f x + sum_of f (l1 ++ l2).
Proof.
  induction l as [|y l IH]; cbn; [done|]. destruct (p y); [intros [= ->]; by exists [], l|].
  intros (l1 & l2 & -> & E)%IH. exists (y :: l1), l2. split; [done|]. cbn. lia.
Qed.

(** The other parts, and this one to the byte where it is the writer's own. *)
Definition same_part (workspaceId : string) (isArea : bool) (p q : PoolPart.t) : Prop :=
  PoolPart.workspaceId p = PoolPart.workspaceId q ∧ counted p true = counted q true ∧
  (isArea = false → PoolPart.workspaceId p = Some workspaceId →
    PoolPart.used p + PoolPart.reserved p = PoolPart.used q + PoolPart.reserved q).
Lemma find_same w isArea l k : Forall2 (same_part w isArea) l k →
  match List.find (is_own w isArea) l, List.find (is_own w isArea) k with
  | Some p, Some q => same_part w isArea p q ∧ is_own w isArea p = true
  | None, None => True
  | _, _ => False
  end.
Proof.
  induction 1 as [|p q l k Hpq _ IH]; cbn; [done|]. assert (is_own w isArea q = is_own w isArea p) as -> by (unfold is_own; by rewrite (proj1 Hpq)).
  by destruct (is_own w isArea p) eqn:E.
Qed.
Lemma poolFigures_same d d' g w isArea pool at_ : Forall2 (same_part w isArea) (poolParts d g) (poolParts d' g) →
  StorageFigures.free (poolFigures d g w isArea pool at_) = StorageFigures.free (poolFigures d' g w isArea pool at_).
Proof.
  intros H. unfold poolFigures, poolUsage. cbn [StorageFigures.free PoolUsage.countedReserved PoolUsage.parts]. rewrite !countedAll_sum. rewrite (sum_of_ext2 _ (λ p, counted p true) _ (poolParts d' g));
    [|eapply Forall2_impl; [exact H|]; by intros p q (_ & ? & _)].
  pose proof (find_same w isArea _ _ H) as Hf. unfold own_part.
  destruct (List.find _ (poolParts d g)) as [p|], (List.find _ (poolParts d' g)) as [q|]; try done.
  destruct Hf as [(_ & Hc & Hb) Ho]. destruct isArea; [by rewrite Hc|]. rewrite Hc. unfold is_own in Ho. apply bool_decide_eq_true in Ho.
  rewrite (Hb eq_refl Ho). done.
Qed.
