(* ===== verification/DriveUploads.v ===== *)
(** * Uploads, copies, versions and purges on the Drive server (packages/db/src/drive.ts)

    The transactions that move bytes: an upload begun, completing, published,
    attached or aborted; a copy; versions restored and discarded; what a purge
    takes; and the outbox and audit the worker's jobs run (drive/src/jobs.ts).
    Each is one function of the database ([DriveTables]); what its caller hands
    on as [status] is an answer here. An upload's move is read with the upload:
    begin writes it once. *)

From S2P Require Import Prelude DriveTables Pool.

(** Why a transaction refuses ([status]). *)
Module Refusal.
Inductive t :=
  | not_found | trashed | parent_trashed | rotating | stale | too_deep | bad_signature | invalid | policy | conflict | moving
  | over_quota (free : Z) | unavailable (status : ObjectStatus) | not_superseded | current | root | not_trashed.
End Refusal.

Module NodeEnvelopes.
Record t := { keyEpoch : Z; parentKeyEpoch : Z; metadataEnvelope : string; metadataSignature : string }.
End NodeEnvelopes.
Module MoveOf.
Record t := { workspaceId : string; nodeId : string; versionId : string }.
End MoveOf.
Inductive UploadNode :=
  | new_file (id parentId : string) (envelopes : NodeEnvelopes.t)
  | existing_file (id : string) (keyEpoch : Z) (expectedVersionId : option string).
(** [uploadId]: the id the database draws for the upload's row. *)
Module UploadBegin.
Record t := {
  workspaceId : string; userId : string; node : UploadNode; versionId : string; contentKeyEnvelope : string; signature : string;
  objectId : string; objectKey : string; contentSuite : Z; ciphertextSize : Z; expiresAt : Z; moveOf : option MoveOf.t; uploadId : string;
}.
End UploadBegin.

Definition objectKeyFor (workspaceId objectId : string) : string := "ws/" +:+ workspaceId +:+ "/" +:+ objectId.
Definition envelopeLengthFor (contentSuite : Z) : Z := if contentSuite =? 1 then 72 else 84.
Definition named (free : Z) : Z := Z.max free 0.

(** What removing a node gives back: every ready version's object. *)
Definition bytesFreedBy (d : Db.t) (nodeId : string) : Z :=
  sum_of (λ v, if (Version.nodeId v === nodeId) && (Version.status v === version_ready) then default 0 (object_size d v) else 0)
    (map snd (map_to_list (Db.versions d))).

Definition live_upload (u : Upload.t) : bool :=
  match Upload.status u with upload_open | upload_completing | upload_conflicted => true | _ => false end.

Inductive AttachMode := same_node (keyEpoch : Z) | sibling (id parentId : string) (envelopes : NodeEnvelopes.t).
Module Started.
Inductive t := not_found | completed | aborted | conflicted | expired | ok (upload : Upload.t) (stale : bool).
End Started.
Module Finished.
Inductive t :=
  | published (displaced : option string) | completed | conflicted (current : option string) | purged | size_mismatch | move_stale
  | not_found | not_completing (status : UploadStatus).
End Finished.
Module AttachInput.
Record t := { userId : string; contentKeyEnvelope : string; versionSignature : string; mode : AttachMode }.
End AttachInput.
Module Attached.
Inductive t :=
  | published (displaced : option string) | completed | not_conflicted (status : UploadStatus) | conflicted (current : option string)
  | purged | move_stale | refused (r : Refusal.t).
End Attached.
Module Aborted.
Inductive t := not_found | completing | completed | ok (alreadyAborted : bool).
End Aborted.

Section uploads.
Context `{SB : SignedBy}.

(** A walked node that is there, in this workspace and of a kind. *)
Definition walked (d : Db.t) (workspaceId nodeId : string) (kind : NodeKind) : option Walk.t :=
  match walk d nodeId with
  | Some w => if (Node.workspaceId (Walk.node w) === workspaceId) && negb (Walk.purged w) && (Node.kind (Walk.node w) === kind)
      then Some w else None
  | None => None
  end.
(** Where a new file may go. *)
Definition new_parent (d : Db.t) (workspaceId parentId : string) (keyEpoch parentKeyEpoch : Z) : Refusal.t + Walk.t :=
  match walked d workspaceId parentId folder with
  | None => inl Refusal.not_found
  | Some parent =>
      if Walk.trashed parent then inl Refusal.parent_trashed
      else if underUnrotatedParent d workspaceId parent then inl Refusal.rotating
      else if MAX_DEPTH <? Walk.depth parent + 1 then inl Refusal.too_deep
      else if negb (parentKeyEpoch =? Node.keyEpoch (Walk.node parent)) then inl Refusal.stale
      else if negb (epochWasAllocated d workspaceId keyEpoch) then inl Refusal.stale
      else inr parent
  end.
Definition current_of (d : Db.t) (nodeId : string) : option string := Db.nodes d !! nodeId ≫= Node.currentVersionId.

(** ** Begin *)

Definition upload_node_id (n : UploadNode) : string := match n with new_file id _ _ | existing_file id _ _ => id end.
(** The epoch the content key is wrapped under, and the version expected to be current. *)
Definition begin_target (d : Db.t) (workspaceId : string) (n : UploadNode) : Refusal.t + (Z * option string) :=
  match n with
  | existing_file id keyEpoch expected =>
      match walked d workspaceId id file with
      | None => inl Refusal.not_found
      | Some chain =>
          if Walk.trashed chain then inl Refusal.trashed
          else if underUnrotatedParent d workspaceId chain then inl Refusal.rotating
          else if negb (Node.keyEpoch (Walk.node chain) =? keyEpoch) then inl Refusal.stale
          else if current_of d id !== expected then inl Refusal.stale
          else inr (keyEpoch, current_of d id)
      end
  | new_file _ parentId e =>
      match new_parent d workspaceId parentId (NodeEnvelopes.keyEpoch e) (NodeEnvelopes.parentKeyEpoch e) with
      | inl r => inl r
      | inr _ => inr (NodeEnvelopes.keyEpoch e, None)
      end
  end.
Definition begin_statements (i : UploadBegin.t) : list SignedStatement.t :=
  SignedStatement.version_signed (UploadBegin.workspaceId i) (upload_node_id (UploadBegin.node i)) (UploadBegin.versionId i)
    (UploadBegin.objectId i) (UploadBegin.contentSuite i) (UploadBegin.contentKeyEnvelope i) (UploadBegin.signature i) ::
  match UploadBegin.node i with
  | new_file id _ e => [SignedStatement.metadata_signed (UploadBegin.workspaceId i) id file 1 (NodeEnvelopes.metadataEnvelope e) (NodeEnvelopes.metadataSignature e)]
  | existing_file _ _ _ => []
  end.
Definition moveSourceAtBegin (now : Z) (d : Db.t) (i : UploadBegin.t) (m : MoveOf.t) : Refusal.t + MoveRecord.t :=
  let user := UploadBegin.userId i in
  if match UploadBegin.node i with existing_file _ _ _ => true | _ => MoveOf.workspaceId m === UploadBegin.workspaceId i end then inl Refusal.invalid
  else if negb (holdsWorkspace d user (UploadBegin.workspaceId i)) then inl Refusal.not_found
  else if negb (mayStillRemove now d user (MoveOf.workspaceId m)) then inl Refusal.not_found
  else if negb (movePolicyAllows d (MoveOf.workspaceId m)) then inl Refusal.policy
  else match walked d (MoveOf.workspaceId m) (MoveOf.nodeId m) file with
  | None => inl Refusal.not_found
  | Some chain =>
      if Walk.trashed chain then inl Refusal.stale
      else match Db.nodes d !! MoveOf.nodeId m with
      | None => inl Refusal.stale
      | Some n =>
          match Node.changeSeq n with
          | None => inl Refusal.stale
          | Some seq =>
              if Node.currentVersionId n !== Some (MoveOf.versionId m) then inl Refusal.stale
              else inr (MoveRecord.Build_t (MoveOf.workspaceId m) (MoveOf.nodeId m) (MoveOf.versionId m) seq (bytesFreedBy d (MoveOf.nodeId m)) user)
          end
      end
  end.
Definition move_source (now : Z) (d : Db.t) (i : UploadBegin.t) : Refusal.t + option MoveRecord.t :=
  match UploadBegin.moveOf i with
  | None => inr None
  | Some m => match moveSourceAtBegin now d i m with inl r => inl r | inr move => inr (Some move) end
  end.
(** What is reserved: all of it, or within one pool only what the copy takes beyond what its source frees. *)
Definition reserve_for (now : Z) (d : Db.t) (storage : StorageFigures.t) (move : option MoveRecord.t) (size : Z) : Z :=
  match move with
  | Some m => if samePool now d storage (MoveRecord.workspaceId m)
      then if MoveRecord.freedBytes m <? size then size - MoveRecord.freedBytes m else 0
      else size
  | None => size
  end.

Definition new_node_row (workspaceId parentId : string) (keyEpoch parentKeyEpoch : Z) (changeSeq : option Z) : Node.t :=
  Node.Build_t workspaceId (Some parentId) file keyEpoch parentKeyEpoch false 1 None None None 0 changeSeq None None.
(** An insert that does nothing on a conflict: [None] when the id is taken. *)
Definition insert_node (id : string) (n : Node.t) (d : Db.t) : option Db.t :=
  match Db.nodes d !! id with Some _ => None | None => Some (set_nodes d (<[id := n]> (Db.nodes d))) end.
Definition insert_object (id : string) (o : Obj.t) (d : Db.t) : option Db.t :=
  if bool_decide (is_Some (Db.objects d !! id)) || any (λ x, Obj.objectKey x === Obj.objectKey o) (Db.objects d) then None
  else Some (set_objects d (<[id := o]> (Db.objects d))).
Definition insert_version (id : string) (v : Version.t) (d : Db.t) : option Db.t :=
  match Db.versions d !! id with Some _ => None | None => Some (set_versions d (<[id := v]> (Db.versions d))) end.
(** One live move per file. *)
Definition same_move (move : option MoveRecord.t) (u : Upload.t) : bool :=
  match move, Upload.move u with
  | Some m, Some x => live_upload u && (MoveRecord.nodeId x === MoveRecord.nodeId m)
  | _, _ => false
  end.
Definition insert_upload (id : string) (u : Upload.t) (d : Db.t) : option Db.t :=
  if bool_decide (is_Some (Db.uploads d !! id)) || any (same_move (Upload.move u)) (Db.uploads d) then None
  else Some (set_uploads d (<[id := u]> (Db.uploads d))).

Definition begin_object (i : UploadBegin.t) : Obj.t :=
  Obj.Build_t (UploadBegin.workspaceId i) (UploadBegin.objectKey i) (UploadBegin.contentSuite i) (UploadBegin.ciphertextSize i) object_pending false.
Definition begin_version (i : UploadBegin.t) : Version.t :=
  Version.Build_t (upload_node_id (UploadBegin.node i)) (UploadBegin.workspaceId i) (Some (UploadBegin.objectId i)) version_pending None.
Definition begin_upload_row (i : UploadBegin.t) (keyEpoch : Z) (expected : option string) (reserve : Z) (move : option MoveRecord.t) : Upload.t :=
  Upload.Build_t (UploadBegin.workspaceId i) (upload_node_id (UploadBegin.node i)) (UploadBegin.versionId i) (Some (UploadBegin.objectId i))
    (UploadBegin.objectKey i) keyEpoch expected match UploadBegin.node i with new_file _ _ _ => true | _ => false end reserve
    (UploadBegin.expiresAt i) upload_open move.
Definition begin_node (i : UploadBegin.t) (d : Db.t) : option Db.t :=
  match UploadBegin.node i with
  | new_file id parentId e =>
      insert_node id (new_node_row (UploadBegin.workspaceId i) parentId (NodeEnvelopes.keyEpoch e) (NodeEnvelopes.parentKeyEpoch e) None) d
  | existing_file _ _ _ => Some d
  end.
(** The pending rows, or which insert found its id taken. *)
Definition begin_rows (i : UploadBegin.t) (keyEpoch : Z) (expected : option string) (reserve : Z) (move : option MoveRecord.t) (d : Db.t)
    : Refusal.t + Db.t :=
  match (begin_node i d ≫= insert_object (UploadBegin.objectId i) (begin_object i)) ≫= insert_version (UploadBegin.versionId i) (begin_version i) with
  | None => inl Refusal.conflict
  | Some d =>
      match insert_upload (UploadBegin.uploadId i) (begin_upload_row i keyEpoch expected reserve move) d with
      | None => inl Refusal.moving
      | Some d => inr d
      end
  end.
Definition beginUploadOnce (now : Z) (i : UploadBegin.t) (d : Db.t) : result (Db.t * (Refusal.t + string)) :=
  let w := UploadBegin.workspaceId i in
  let* (d, _) := nextChangeSeq now w (Some (UploadBegin.userId i)) d in
  match begin_target d w (UploadBegin.node i) with
  | inl r => Ok (d, inl r)
  | inr (keyEpoch, expected) =>
      let* signed := signedBy (UploadBegin.userId i) (begin_statements i) in
      if negb signed then Ok (d, inl Refusal.bad_signature)
      else match move_source now d i with
      | inl r => Ok (d, inl r)
      | inr move =>
          match storageFigures now d w with
          | None => Ok (d, inl Refusal.not_found)
          | Some storage =>
              let reserve := reserve_for now d storage move (UploadBegin.ciphertextSize i) in
              if (0 <? reserve) && (StorageFigures.free storage <? reserve)
              then Ok (d, inl (Refusal.over_quota (named (StorageFigures.free storage))))
              else
                let* d := adjustStorage w 0 reserve d in
                match begin_rows i keyEpoch expected reserve move d with
                | inl r => Ok (d, inl r)
                | inr d => Ok (d, inr (UploadBegin.uploadId i))
                end
          end
      end
  end.
Definition began {A B} (a : A + B) : bool := match a with inr _ => true | inl _ => false end.
Definition beginUpload (now : Z) (i : UploadBegin.t) : Db.t → result (Db.t * (Refusal.t + string)) :=
  transactionKeeping began (beginUploadOnce now i).

(** ** Completing *)

Definition upload_in (d : Db.t) (workspaceId uploadId : string) : option Upload.t :=
  match Db.uploads d !! uploadId with
  | Some u => if Upload.workspaceId u === workspaceId then Some u else None
  | None => None
  end.
(** The object's size beside an upload's row, none once the object is retired. *)
Definition upload_size (d : Db.t) (u : Upload.t) : option Z :=
  Upload.objectId u ≫= λ o, Obj.ciphertextSize <$> Db.objects d !! o.

Definition startCompleting (now : Z) (workspaceId uploadId : string) (writer : option string) (d : Db.t) : result (Db.t * Started.t) :=
  let* _ := match writer with
    | Some writer => requireStillWriter now d workspaceId writer (Db.workspaces d !! workspaceId ≫= Workspace.groupId)
    | None => Ok tt
    end in
  match upload_in d workspaceId uploadId with
  | None => Ok (d, Started.not_found)
  | Some u =>
      match Upload.status u with
      | upload_completed => Ok (d, Started.completed)
      | upload_aborted => Ok (d, Started.aborted)
      | upload_conflicted => Ok (d, Started.conflicted)
      | _ =>
          if (Upload.status u === upload_open) && (Upload.expiresAt u <=? now) then Ok (d, Started.expired)
          else
            let d := if Upload.status u === upload_open
              then set_uploads d (<[uploadId := upload_as u upload_completing (Upload.reservedBytes u)]> (Db.uploads d)) else d in
            let stale := match Db.nodes d !! Upload.nodeId u with
              | None => true
              | Some n => negb (Node.keyEpoch n =? Upload.keyEpoch u) ||
                  (negb (Upload.newNode u) && (Node.currentVersionId n !== Upload.expectedVersionId u))
              end in
            Ok (d, Started.ok u stale)
      end
  end.

(** Both workspaces' rows, the destination's with its writer checked; the source's number is none when it is gone. *)
Definition lockForCompletion (now : Z) (workspaceId : string) (writer : option string) (move : option MoveRecord.t) (d : Db.t)
    : result (Db.t * (Z * option Z)) :=
  let* (d, changeSeq) := nextChangeSeq now workspaceId writer d in
  match move with
  | None => Ok (d, (changeSeq, None))
  | Some m =>
      match Db.workspaces d !! MoveRecord.workspaceId m with
      | None => Ok (d, (changeSeq, None))
      | Some w => Ok (moreChangeSeqs (MoveRecord.workspaceId m) 1 d, (changeSeq, Some (Workspace.changeSeq w + 1)))
      end
  end.
Definition moveStillHolds (now : Z) (d : Db.t) (u : Upload.t) (m : MoveRecord.t) (sourceSeq : option Z) : bool :=
  bool_decide (is_Some sourceSeq) &&
  match Db.workspaces d !! MoveRecord.workspaceId m with Some w => bool_decide (Workspace.deletedAt w = None) | None => false end &&
  mayStillRemove now d (MoveRecord.by_ m) (MoveRecord.workspaceId m) && mayStillRemove now d (MoveRecord.by_ m) (Upload.workspaceId u) &&
  (match upload_size d u with Some size => size <=? Upload.reservedBytes u | None => false end ||
   match storageFigures now d (Upload.workspaceId u) with
   | Some destination => samePool now d destination (MoveRecord.workspaceId m)
   | None => false
   end) &&
  match walked d (MoveRecord.workspaceId m) (MoveRecord.nodeId m) file with Some chain => negb (Walk.trashed chain) | None => false end &&
  match Db.nodes d !! MoveRecord.nodeId m with
  | Some n => (Node.currentVersionId n === Some (MoveRecord.versionId m)) && (Node.changeSeq n === Some (MoveRecord.changeSeq m))
  | None => false
  end &&
  negb (any (λ x, (Upload.nodeId x === MoveRecord.nodeId m) && live_upload x) (Db.uploads d)) &&
  (bytesFreedBy d (MoveRecord.nodeId m) =? MoveRecord.freedBytes m).

Definition settle_row (uploadId : string) (d : Db.t) : Db.t := set_uploads d (alter upload_settled uploadId (Db.uploads d)).
(** The source purged with the copy's publish, and the upload forgets where it came from. *)
Definition settleMove (now : Z) (uploadId : string) (m : MoveRecord.t) (sourceSeq : Z) (d : Db.t) : result Db.t :=
  let* (d, _) := purgeOne now (MoveRecord.workspaceId m) (MoveRecord.nodeId m) sourceSeq None d in
  Ok (settle_row uploadId d).
Definition settle_move (now : Z) (uploadId : string) (move : option MoveRecord.t) (sourceSeq : option Z) (d : Db.t) : result Db.t :=
  match move, sourceSeq with Some m, Some seq => settleMove now uploadId m seq d | _, _ => Ok d end.

(** The versions a publish purges: ready ones of the node, neither the displaced nor the new one. *)
Definition older_versions (d : Db.t) (nodeId displaced versionId : string) : list (string * Version.t * Z) :=
  omap (λ e, (λ size, (e, size)) <$> object_size d e.2)
    (List.filter (λ e, (Version.nodeId e.2 === nodeId) && (Version.status e.2 === version_ready) && (e.1 !== displaced) && (e.1 !== versionId))
      (map_to_list (Db.versions d))).
Fixpoint purge_older (workspaceId : string) (older : list (string * Version.t * Z)) (d : Db.t) : result Db.t :=
  match older with
  | [] => Ok d
  | (id, v, size) :: rest =>
      let d := purge_version_row id d in
      let* d := adjustStorage workspaceId (- size) 0 d in
      purge_older workspaceId rest (retire_option (Version.objectId v) d)
  end.
Definition set_object_status (objectId : string) (status : ObjectStatus) (d : Db.t) : Db.t :=
  set_objects d (alter (λ o, Obj.Build_t (Obj.workspaceId o) (Obj.objectKey o) (Obj.contentSuite o) (Obj.ciphertextSize o) status (Obj.replicated o))
    objectId (Db.objects d)).
(** The displaced version superseded, the ones before it purged. *)
Definition displace (now : Z) (workspaceId nodeId displaced versionId : string) (d : Db.t) : result Db.t :=
  let* d := purge_older workspaceId (older_versions d nodeId displaced versionId) d in
  Ok (set_versions d (alter (λ v, with_superseded v (Some now)) displaced (Db.versions d))).
Definition publishUpload (now : Z) (uploadId : string) (u : Upload.t) (objectId : string) (size : Z) (ancestors : list Ancestor.t)
    (displaced : option string) (changeSeq : Z) (d : Db.t) : result Db.t :=
  let* d := adjustStorage (Upload.workspaceId u) size (- Upload.reservedBytes u) d in
  let d := set_object_status objectId object_ready d in
  let d := set_versions d (alter (λ v, with_status v version_ready) (Upload.versionId u) (Db.versions d)) in
  let* d := match displaced with
    | Some x => displace now (Upload.workspaceId u) (Upload.nodeId u) x (Upload.versionId u) d
    | None => Ok d
    end in
  let d := set_nodes d (alter (λ n, with_seq (with_current n (Some (Upload.versionId u))) (Some changeSeq)) (Upload.nodeId u) (Db.nodes d)) in
  let d := if Upload.newNode u then raiseHeightBounds ancestors 0 d else d in
  Ok (set_uploads d (alter (λ x, upload_as x upload_completed 0) uploadId (Db.uploads d))).

Definition release_as {A} (uploadId : string) (u : Upload.t) (a : A) (d : Db.t) : result (Db.t * A) :=
  let* d := releaseUpload uploadId u upload_aborted d in Ok (d, a).
Definition finishCompleting (now : Z) (workspaceId uploadId : string) (storedSize : option Z) (writer : option string) (d : Db.t)
    : result (Db.t * Finished.t) :=
  let move := upload_in d workspaceId uploadId ≫= Upload.move in
  let* (d, (changeSeq, sourceSeq)) := lockForCompletion now workspaceId writer move d in
  match upload_in d workspaceId uploadId with
  | None => Ok (d, Finished.not_found)
  | Some u =>
      match Upload.status u with
      | upload_completed => Ok (d, Finished.completed)
      | upload_open | upload_aborted => Ok (d, Finished.not_completing (Upload.status u))
      | upload_completing | upload_conflicted =>
          if bool_decide (is_Some (Db.workspaces d !! workspaceId ≫= Workspace.deletedAt)) then release_as uploadId u Finished.purged d
          else match storedSize, upload_size d u, Upload.objectId u with
          | Some stored, Some size, Some objectId =>
              if negb (stored =? size) then release_as uploadId u Finished.size_mismatch d
              else match walk d (Upload.nodeId u) with
              | None => release_as uploadId u Finished.purged d
              | Some chain =>
                  if Walk.purged chain then release_as uploadId u Finished.purged d
                  else if match move with Some m => negb (moveStillHolds now d u m sourceSeq) | None => false end
                  then release_as uploadId u Finished.move_stale d
                  else
                    let node := Walk.node chain in
                    if negb (Node.keyEpoch node =? Upload.keyEpoch u) ||
                      (if Upload.newNode u
                       then match last (Walk.ancestors chain) with
                         | Some parent => negb (Ancestor.keyEpoch parent =? Node.parentKeyEpoch node)
                         | None => true
                         end
                       else Node.currentVersionId node !== Upload.expectedVersionId u)
                    then Ok (set_uploads d (<[uploadId := upload_as u upload_conflicted (Upload.reservedBytes u)]> (Db.uploads d)),
                             Finished.conflicted (Node.currentVersionId node))
                    else
                      let* d := publishUpload now uploadId u objectId size (Walk.ancestors chain) (Node.currentVersionId node) changeSeq d in
                      let* d := settle_move now uploadId move sourceSeq d in
                      Ok (d, Finished.published (Node.currentVersionId node))
              end
          | _, _, _ => release_as uploadId u Finished.size_mismatch d
          end
      end
  end.

(** ** Attach: a conflicted upload's object under fresh keys *)

Definition attach_statements (workspaceId : string) (u : Upload.t) (objectId : string) (suite : Z) (i : AttachInput.t) : list SignedStatement.t :=
  let node := match AttachInput.mode i with same_node _ => Upload.nodeId u | sibling id _ _ => id end in
  SignedStatement.version_signed workspaceId node (Upload.versionId u) objectId suite (AttachInput.contentKeyEnvelope i) (AttachInput.versionSignature i) ::
  match AttachInput.mode i with
  | sibling id _ e => [SignedStatement.metadata_signed workspaceId id file 1 (NodeEnvelopes.metadataEnvelope e) (NodeEnvelopes.metadataSignature e)]
  | same_node _ => []
  end.
Definition attach_same (now : Z) (uploadId : string) (u : Upload.t) (objectId : string) (size keyEpoch changeSeq : Z) (sourceSeq : option Z)
    (d : Db.t) : result (Db.t * Attached.t) :=
  match walk d (Upload.nodeId u) with
  | None => release_as uploadId u Attached.purged d
  | Some chain =>
      if Walk.purged chain then release_as uploadId u Attached.purged d
      else if underUnrotatedParent d (Upload.workspaceId u) chain then Ok (d, Attached.refused Refusal.rotating)
      else if negb (Node.keyEpoch (Walk.node chain) =? keyEpoch) then Ok (d, Attached.refused Refusal.stale)
      else
        let current := Node.currentVersionId (Walk.node chain) in
        if Upload.newNode u || (current !== Upload.expectedVersionId u) then Ok (d, Attached.conflicted current)
        else
          let u := upload_onto u (Upload.nodeId u) keyEpoch (Upload.expectedVersionId u) (Upload.newNode u) in
          let d := set_uploads d (<[uploadId := u]> (Db.uploads d)) in
          let* d := publishUpload now uploadId u objectId size (Walk.ancestors chain) current changeSeq d in
          let* d := settle_move now uploadId (Upload.move u) sourceSeq d in
          Ok (d, Attached.published current)
  end.
Definition attach_sibling (now : Z) (uploadId : string) (u : Upload.t) (objectId : string) (size : Z) (id parentId : string) (e : NodeEnvelopes.t)
    (changeSeq : Z) (sourceSeq : option Z) (d : Db.t) : result (Db.t * Attached.t) :=
  let w := Upload.workspaceId u in
  match new_parent d w parentId (NodeEnvelopes.keyEpoch e) (NodeEnvelopes.parentKeyEpoch e) with
  | inl r => Ok (d, Attached.refused r)
  | inr parent =>
      match insert_node id (new_node_row w parentId (NodeEnvelopes.keyEpoch e) (NodeEnvelopes.parentKeyEpoch e) None) d with
      | None => Ok (d, Attached.refused Refusal.conflict)
      | Some d =>
          let moved := upload_onto u id (NodeEnvelopes.keyEpoch e) None true in
          let d := set_versions d (alter (λ v, at_node v id) (Upload.versionId u) (Db.versions d)) in
          let d := set_uploads d (<[uploadId := moved]> (Db.uploads d)) in
          let* d := if Upload.newNode u
            then delete_node (Upload.nodeId u) (drop_versions (λ x, Version.nodeId x.2 = Upload.nodeId u) d) else Ok d in
          let* d := publishUpload now uploadId moved objectId size (and_itself parent) None changeSeq d in
          let* d := settle_move now uploadId (Upload.move u) sourceSeq d in
          Ok (d, Attached.published None)
      end
  end.
Definition attachUpload (now : Z) (workspaceId uploadId : string) (i : AttachInput.t) (writer : option string) (d : Db.t)
    : result (Db.t * Attached.t) :=
  let move := upload_in d workspaceId uploadId ≫= Upload.move in
  let* (d, (changeSeq, sourceSeq)) := lockForCompletion now workspaceId writer move d in
  match upload_in d workspaceId uploadId with
  | None => Ok (d, Attached.refused Refusal.not_found)
  | Some u =>
      match Upload.status u with
      | upload_completed => Ok (d, Attached.completed)
      | upload_conflicted =>
          match Upload.objectId u ≫= λ o, (λ x, (o, x)) <$> Db.objects d !! o with
          | None => Ok (d, Attached.not_conflicted (Upload.status u))
          | Some (objectId, o) =>
              if match move with Some m => negb (moveStillHolds now d u m sourceSeq) | None => false end
              then release_as uploadId u Attached.move_stale d
              else
                let* signed := signedBy (AttachInput.userId i) (attach_statements workspaceId u objectId (Obj.contentSuite o) i) in
                if negb signed then Ok (d, Attached.refused Refusal.bad_signature)
                else match AttachInput.mode i with
                | same_node keyEpoch => attach_same now uploadId u objectId (Obj.ciphertextSize o) keyEpoch changeSeq sourceSeq d
                | sibling id parentId e => attach_sibling now uploadId u objectId (Obj.ciphertextSize o) id parentId e changeSeq sourceSeq d
                end
          end
      | s => Ok (d, Attached.not_conflicted s)
      end
  end.

(** ** Abort *)

Definition abortUpload (now : Z) (workspaceId uploadId : string) (force : bool) (d : Db.t) : result (Db.t * Aborted.t) :=
  let* (d, _) := nextChangeSeq now workspaceId None d in
  match upload_in d workspaceId uploadId with
  | None => Ok (d, Aborted.not_found)
  | Some u =>
      match Upload.status u with
      | upload_completed => Ok (d, Aborted.completed)
      | upload_aborted => Ok (d, Aborted.ok true)
      | upload_completing => if force then release_as uploadId u (Aborted.ok false) d else Ok (d, Aborted.completing)
      | _ => release_as uploadId u (Aborted.ok false) d
      end
  end.
End uploads.
