(* ===== verification/DrivePurges.v ===== *)
(** * Copies, versions, purges and the outbox on the Drive server (packages/db/src/drive.ts, packages/drive/src/jobs.ts)

    The transactions that share, swap and drop versions, the fan-out and the
    sweeps of what was purged, and the worker's jobs over the outbox and the
    two object stores. What selects rows by age, or a page at a time, is
    given the rows: each job's loop body is one function of a row. *)

From S2P Require Import Prelude DriveTables Pool DriveUploads.

Module CopyFile.
Record t := {
  workspaceId : string; userId : string; sourceNodeId : string; sourceVersionId : string; id : string; parentId : string;
  envelopes : NodeEnvelopes.t; versionId : string; contentKeyEnvelope : string; signature : string;
}.
End CopyFile.

Section purges.
Context `{SB : SignedBy}.

(** ** Copy *)

(** The current version of a file with its object. *)
Definition current_version (d : Db.t) (nodeId : string) : option (string * Version.t * (string * Obj.t)) :=
  match current_of d nodeId with
  | None => None
  | Some v =>
      match Db.versions d !! v with
      | None => None
      | Some version =>
          match Version.objectId version with
          | None => None
          | Some o => (λ obj, (v, version, (o, obj))) <$> Db.objects d !! o
          end
      end
  end.
Definition copy_statements (i : CopyFile.t) (objectId : string) (suite : Z) : list SignedStatement.t :=
  [SignedStatement.metadata_signed (CopyFile.workspaceId i) (CopyFile.id i) file 1 (NodeEnvelopes.metadataEnvelope (CopyFile.envelopes i)) (NodeEnvelopes.metadataSignature (CopyFile.envelopes i));
   SignedStatement.version_signed (CopyFile.workspaceId i) (CopyFile.id i) (CopyFile.versionId i) objectId suite (CopyFile.contentKeyEnvelope i) (CopyFile.signature i)].
Definition copy_version (i : CopyFile.t) (objectId : string) : Version.t :=
  Version.Build_t (CopyFile.id i) (CopyFile.workspaceId i) (Some objectId) version_ready None.
Definition copy_node (i : CopyFile.t) (changeSeq : Z) : Node.t :=
  new_node_row (CopyFile.workspaceId i) (CopyFile.parentId i) (NodeEnvelopes.keyEpoch (CopyFile.envelopes i)) (NodeEnvelopes.parentKeyEpoch (CopyFile.envelopes i)) (Some changeSeq).
Definition copyFileOnce (now : Z) (i : CopyFile.t) (d : Db.t) : result (Db.t * (Refusal.t + Z)) :=
  let w := CopyFile.workspaceId i in
  let* (d, changeSeq) := nextChangeSeq now w (Some (CopyFile.userId i)) d in
  let refused r := Ok (d, inl r) in
  match walked d w (CopyFile.sourceNodeId i) file with
  | None => refused Refusal.not_found
  | Some source =>
      if Walk.trashed source then refused Refusal.trashed
      else match current_version d (CopyFile.sourceNodeId i) with
      | None => refused Refusal.stale
      | Some (vid, version, (objectId, object)) =>
          if (vid !== CopyFile.sourceVersionId i) || (Version.status version !== version_ready) then refused Refusal.stale
          else if Obj.status object !== object_ready then refused (Refusal.unavailable (Obj.status object))
          else match new_parent d w (CopyFile.parentId i) (NodeEnvelopes.keyEpoch (CopyFile.envelopes i)) (NodeEnvelopes.parentKeyEpoch (CopyFile.envelopes i)) with
          | inl r => refused r
          | inr parent =>
              if negb (slen (CopyFile.contentKeyEnvelope i) =? envelopeLengthFor (Obj.contentSuite object)) then refused Refusal.invalid
              else
                let* signed := signedBy (CopyFile.userId i) (copy_statements i objectId (Obj.contentSuite object)) in
                if negb signed then refused Refusal.bad_signature
                else match storageFigures now d w with
                | None => refused Refusal.not_found
                | Some storage =>
                    let cost := Obj.ciphertextSize object in
                    if StorageFigures.free storage <? cost then refused (Refusal.over_quota (named (StorageFigures.free storage)))
                    else match insert_node (CopyFile.id i) (copy_node i changeSeq) d ≫= insert_version (CopyFile.versionId i) (copy_version i objectId) with
                    | None => refused Refusal.conflict
                    | Some d =>
                        let* d := adjustStorage w cost 0 d in
                        let d := set_nodes d (alter (λ n, with_current n (Some (CopyFile.versionId i))) (CopyFile.id i) (Db.nodes d)) in
                        Ok (raiseHeightBounds (and_itself parent) 0 d, inr changeSeq)
                    end
                end
          end
      end
  end.
Definition copyFile (now : Z) (i : CopyFile.t) : Db.t → result (Db.t * (Refusal.t + Z)) := transactionKeeping began (copyFileOnce now i).

(** ** Versions *)

Definition version_in (d : Db.t) (workspaceId versionId : string) : option Version.t :=
  match Db.versions d !! versionId with
  | Some v => if Version.workspaceId v === workspaceId then Some v else None
  | None => None
  end.
(** One swap: the earlier version becomes current, the displaced one takes its place. *)
Definition restoreVersion (now : Z) (workspaceId versionId : string) (writer : option string) (d : Db.t) : result (Db.t * (Refusal.t + string)) :=
  let* (d, changeSeq) := nextChangeSeq now workspaceId writer d in
  let refused r := Ok (d, inl r) in
  match version_in d workspaceId versionId, (version_in d workspaceId versionId ≫= Version.objectId) ≫= (λ o, Db.objects d !! o) with
  | Some v, Some object =>
      if Version.status v !== version_ready then refused Refusal.not_found
      else match walk d (Version.nodeId v) with
      | None => refused Refusal.not_found
      | Some chain =>
          if Walk.purged chain then refused Refusal.not_found
          else if Walk.trashed chain then refused Refusal.trashed
          else match current_of d (Version.nodeId v), Version.supersededAt v with
          | Some current, Some _ =>
              if current === versionId then refused Refusal.not_superseded
              else if Obj.status object !== object_ready then refused (Refusal.unavailable (Obj.status object))
              else
                let d := set_versions d (alter (λ x, with_superseded x None) versionId
                  (alter (λ x, with_superseded x (Some now)) current (Db.versions d))) in
                let d := set_nodes d (alter (λ n, with_seq (with_current n (Some versionId)) (Some changeSeq)) (Version.nodeId v) (Db.nodes d)) in
                Ok (d, inr current)
          | _, _ => refused Refusal.not_superseded
          end
      end
  | _, _ => refused Refusal.not_found
  end.
Definition discardVersion (now : Z) (workspaceId versionId : string) (writer : option string) (d : Db.t) : result (Db.t * (Refusal.t + unit)) :=
  let* (d, _) := nextChangeSeq now workspaceId writer d in
  let refused r := Ok (d, inl r) in
  match version_in d workspaceId versionId with
  | None => refused Refusal.not_found
  | Some v =>
      if Version.status v !== version_ready then refused Refusal.not_found
      else match walk d (Version.nodeId v) with
      | None => refused Refusal.not_found
      | Some chain =>
          if Walk.purged chain then refused Refusal.not_found
          else if (current_of d (Version.nodeId v) === Some versionId) || bool_decide (Version.supersededAt v = None) then refused Refusal.current
          else
            let* d := purgeVersion workspaceId versionId v (object_size d v) d in
            Ok (d, inr tt)
      end
  end.

(** ** Purges *)

Definition purgeRefusal (chain : option Walk.t) (workspaceId : string) : option Refusal.t :=
  match chain with
  | Some c =>
      if (Node.workspaceId (Walk.node c) !== workspaceId) || Walk.purged c then Some Refusal.not_found
      else if bool_decide (Node.parentId (Walk.node c) = None) then Some Refusal.root
      else if bool_decide (Node.trashedAt (Walk.node c) = None) then Some Refusal.not_trashed
      else None
  | None => Some Refusal.not_found
  end.
Definition purgeNode (now : Z) (workspaceId nodeId : string) (writer : option string) (d : Db.t) : result (Db.t * option Refusal.t) :=
  let* (d, changeSeq) := nextChangeSeq now workspaceId writer d in
  match purgeRefusal (walk d nodeId) workspaceId with
  | Some r => Ok (d, Some r)
  | None => let* (d, _) := purgeOne now workspaceId nodeId changeSeq None d in Ok (d, None)
  end.

(** A selection: what goes in the time given ([fits] of them), each its own number; the rest busy, or covered. *)
Inductive PurgeOutcome := purged (changeSeq : Z) | covered (by_ : string) | purge_refused (r : Refusal.t) | busy.
Definition covering (d : Db.t) (passed : list string) (id : string) : option string :=
  match walk d id with Some c => List.find (λ a, bool_decide (a ∈ passed)) (ancestorIds c) | None => None end.
Fixpoint purge_going (now : Z) (workspaceId : string) (going : list (string * list string)) (seq : Z) (d : Db.t) : result (Db.t * list (string * PurgeOutcome)) :=
  match going with
  | [] => Ok (d, [])
  | (id, above) :: rest =>
      let* (d, _) := purgeOne now workspaceId id seq (Some above) d in
      let* (d, outcomes) := purge_going now workspaceId rest (seq + 1) d in
      Ok (d, (id, purged seq) :: outcomes)
  end.
Definition outcome_of (d : Db.t) (workspaceId : string) (passed left : list string) (done : list (string * PurgeOutcome)) (id : string) : PurgeOutcome :=
  match purgeRefusal (walk d id) workspaceId with
  | Some r => purge_refused r
  | None =>
      match covering d passed id with
      | Some by_ => if bool_decide (by_ ∈ left) then busy else covered by_
      | None => match List.find (λ e, e.1 === id) done with Some e => e.2 | None => busy end
      end
  end.
Definition purgeNodes (now : Z) (workspaceId : string) (nodeIds : list string) (writer : string) (fits : nat) (d : Db.t)
    : result (Db.t * list (string * PurgeOutcome)) :=
  refuse "Delete between 1 and 200 items at a time." when (Z.of_nat (length nodeIds) <? 1) || (200 <? Z.of_nat (length nodeIds)) ;;
  refuse "An item is named twice." unless bool_decide (NoDup nodeIds) ;;
  if negb (holdsWorkspace d writer workspaceId) then Ok (d, map (λ id, (id, purge_refused Refusal.not_found)) nodeIds)
  else
    let* (d, firstSeq) := nextChangeSeq now workspaceId (Some writer) d in
    let passed := List.filter (λ id, bool_decide (purgeRefusal (walk d id) workspaceId = None)) nodeIds in
    let going := List.filter (λ id, bool_decide (covering d passed id = None)) passed in
    let now_ := take (S fits) going in
    let left := drop (S fits) going in
    let* (d', done) := purge_going now workspaceId (map (λ id, (id, from_option ancestorIds [] (walk d id))) now_) firstSeq d in
    let d' := if 1 <? Z.of_nat (length now_) then moreChangeSeqs workspaceId (Z.of_nat (length now_) - 1) d' else d' in
    Ok (d', map (λ id, (id, outcome_of d workspaceId passed left done id)) nodeIds).

(** The fan-out's rows, one of its transactions, and one pass. *)
Definition orphaned (d : Db.t) : list (string * string) :=
  omap (λ e, match Node.parentId e.2 ≫= (λ p, Db.nodes d !! p) with
    | Some p => if bool_decide (is_Some (Node.purgedAt p)) && bool_decide (Node.purgedAt e.2 = None) then Some (e.1, Node.workspaceId e.2) else None
    | None => None end) (map_to_list (Db.nodes d)).
Definition purge_descendant (now : Z) (row : string * string) (d : Db.t) : result (Db.t * bool) :=
  let* (d, changeSeq) := nextChangeSeq now row.2 None d in purgeOne now row.2 row.1 changeSeq None d.
Fixpoint purge_rows (now : Z) (rows : list (string * string)) (d : Db.t) : result (Db.t * Z) :=
  match rows with
  | [] => Ok (d, 0)
  | row :: rest =>
      let* (d, gone) := purge_descendant now row d in
      let* (d, count) := purge_rows now rest d in
      Ok (d, (if (gone : bool) then 1 else 0) + count)
  end.
Definition purgeDescendants (now : Z) (limit : nat) (d : Db.t) : result (Db.t * Z) := purge_rows now (take limit (orphaned d)) d.

(** One superseded version past retention: a current one is never touched. *)
Definition purge_superseded (now : Z) (workspaceId versionId : string) (d : Db.t) : result (Db.t * bool) :=
  let* (d, _) := nextChangeSeq now workspaceId None d in
  match Db.versions d !! versionId with
  | None => Ok (d, false)
  | Some v =>
      if (Version.status v !== version_ready) || (current_of d (Version.nodeId v) === Some versionId) then Ok (d, false)
      else let* d := purgeVersion workspaceId versionId v (object_size d v) d in Ok (d, true)
  end.

(** Tombstones past their window, leaves first. *)
Definition childless (d : Db.t) (id : string) : bool := negb (any (λ c, Node.parentId c === Some id) (Db.nodes d)).
Definition expired_tombstone (before : Z) (d : Db.t) (id : string) : bool :=
  match Db.nodes d !! id with
  | Some n => match Node.purgedAt n with Some p => (p <? before) && childless d id | None => false end
  | None => false
  end.
Definition drop_through (d : Db.t) (workspaceId : string) (seq : Z) : Db.t :=
  set_workspaces d (alter (λ w, Workspace.Build_t (Workspace.changeSeq w) (Workspace.keyEpochSeq w) (Workspace.groupId w) (Workspace.deletedAt w)
    (Z.max (Workspace.tombstonesDroppedThrough w) seq)) workspaceId (Db.workspaces d)).
Fixpoint delete_tombstones (ids : list string) (d : Db.t) : result Db.t :=
  match ids with
  | [] => Ok d
  | id :: rest =>
      let note := match Db.nodes d !! id with Some n => λ d, drop_through d (Node.workspaceId n) (default 0 (Node.changeSeq n)) | None => λ d, d end in
      let* d := delete_node id d in
      delete_tombstones rest (note d)
  end.
Definition deleteExpiredTombstones (before : Z) (ids : list string) (d : Db.t) : result (Db.t * Z) :=
  let due := List.filter (expired_tombstone before d) (remove_dups ids) in
  let* d := delete_tombstones due d in Ok (d, Z.of_nat (length due)).
End purges.
