(* ===== verification/DriveAccounting.v ===== *)
(** * The Drive server's accounts (packages/db/src/drive.ts, auditUsage)

    What the tables say of each other after every transaction of
    [DriveUploads] and [DrivePurges]: each workspace's used bytes are those of
    its ready versions and its reserved bytes those of its uploads, every
    version that is not purged has its object, every upload in flight its
    pending version, and a node begin made is its upload's alone. *)

From S2P Require Import Prelude DriveTables Pool DriveUploads DrivePurges.

(** ** Sums over a table *)

Definition total {A} (f : A → Z) (m : gmap string A) : Z := sum_of f (map snd (map_to_list m)).

Section totals.
Context {A : Type}.
Implicit Types (f : A → Z) (m : gmap string A).

Lemma sum_of_perm f (l k : list A) : l ≡ₚ k → sum_of f l = sum_of f k.
Proof. induction 1; cbn; lia. Qed.
Lemma total_empty f : total f ∅ = 0.
Proof. unfold total. by rewrite map_to_list_empty. Qed.
Lemma total_new f m k x : m !! k = None → total f (<[k := x]> m) = f x + total f m.
Proof.
  intros H. unfold total. rewrite (sum_of_perm f _ (map snd ((k, x) :: map_to_list m))); [done|].
  by rewrite (map_to_list_insert m k x H).
Qed.
Lemma total_delete f m k x : m !! k = Some x → total f (delete k m) = total f m - f x.
Proof.
  intros H. rewrite <- (insert_delete_id m k x H) at 2. rewrite total_new by apply lookup_delete_eq. lia.
Qed.
Lemma total_insert f m k x y : m !! k = Some y → total f (<[k := x]> m) = total f m - f y + f x.
Proof.
  intros H. rewrite <- insert_delete_eq, total_new by apply lookup_delete_eq. rewrite (total_delete f m k y H). lia.
Qed.
Lemma alter_known (g : A → A) m k y : m !! k = Some y → alter g k m = <[k := g y]> m.
Proof.
  intros H. apply map_eq. intros j. destruct (decide (k = j)) as [->|Hne].
  - by rewrite lookup_alter_eq, lookup_insert_eq, H.
  - by rewrite lookup_alter_ne, lookup_insert_ne.
Qed.
Lemma total_alter f m k y (g : A → A) : m !! k = Some y → total f (alter g k m) = total f m - f y + f (g y).
Proof. intros H. rewrite (alter_known g m k y H). apply total_insert, H. Qed.
Lemma total_ext f g m : (∀ k x, m !! k = Some x → f x = g x) → total f m = total g m.
Proof.
  induction m as [|k x m Hk IH] using map_ind; intros H; [by rewrite !total_empty|]. rewrite !total_new by done.
  rewrite (H k x) by apply lookup_insert_eq. rewrite IH; [done|]. intros j y Hj. apply (H j). rewrite lookup_insert_ne; [done|congruence].
Qed.
Lemma total_fmap f (g : A → A) m : (∀ k x, m !! k = Some x → f (g x) = f x) → total f (g <$> m) = total f m.
Proof.
  induction m as [|k x m Hk IH] using map_ind; intros H; [by rewrite fmap_empty|]. rewrite fmap_insert, !total_new by (done || by rewrite lookup_fmap, Hk).
  rewrite (H k x) by apply lookup_insert_eq. rewrite IH; [done|]. intros j y Hj. apply (H j). rewrite lookup_insert_ne; [done|congruence].
Qed.
Lemma total_filter f (P : string * A → Prop) `{∀ e, Decision (P e)} m : (∀ k x, m !! k = Some x → ¬ P (k, x) → f x = 0) → total f (filter P m) = total f m.
Proof.
  induction m as [|k x m Hk IH] using map_ind; intros H'; [by rewrite map_filter_empty|].
  assert (total f (filter P m) = total f m) as E by (apply IH; intros j y Hj; apply (H' j); rewrite lookup_insert_ne; [done|congruence]).
  rewrite total_new by done. destruct (decide (P (k, x))) as [Hp|Hp].
  - rewrite map_filter_insert_True by done. rewrite total_new by (apply map_lookup_filter_None; by left). lia.
  - rewrite map_filter_insert_False by done. rewrite delete_id by done. rewrite (H' k x) by (done || apply lookup_insert_eq). lia.
Qed.
Lemma total_nonneg f m : (∀ k x, m !! k = Some x → 0 ≤ f x) → 0 ≤ total f m.
Proof.
  induction m as [|k x m Hk IH] using map_ind; intros H; [by rewrite total_empty|]. rewrite total_new by done.
  pose proof (H k x (lookup_insert_eq _ _ _)). assert (0 ≤ total f m); [|lia]. apply IH. intros j y Hj. apply (H j). rewrite lookup_insert_ne; [done|congruence].
Qed.
Lemma total_ge f m k x : (∀ k x, m !! k = Some x → 0 ≤ f x) → m !! k = Some x → f x ≤ total f m.
Proof.
  intros H Hk. pose proof (total_delete f m k x Hk). assert (0 ≤ total f (delete k m)); [|lia].
  apply total_nonneg. intros j y [_ Hj]%lookup_delete_Some. by apply (H j).
Qed.
End totals.

Lemma any_true {A} (f : A → bool) (m : gmap string A) : any f m = true ↔ ∃ k x, m !! k = Some x ∧ f x = true.
Proof.
  unfold any. rewrite existsb_exists. split.
  - intros ([k x] & H & Hf). exists k, x. split; [|done]. apply elem_of_map_to_list. by apply list_elem_of_In.
  - intros (k & x & H & Hf). exists (k, x). split; [|done]. apply list_elem_of_In. by apply elem_of_map_to_list.
Qed.
Lemma any_false {A} (f : A → bool) (m : gmap string A) : any f m = false ↔ ∀ k x, m !! k = Some x → f x = false.
Proof.
  rewrite <- not_true_iff_false, any_true. split.
  - intros H k x Hk. destruct (f x) eqn:E; [|done]. exfalso. eauto.
  - intros H (k & x & Hk & E). by rewrite (H k x Hk) in E.
Qed.

(** ** The nightly accounting check *)

Definition ready_bytes (d : Db.t) (workspaceId : string) (v : Version.t) : Z :=
  if (Version.workspaceId v === workspaceId) && (Version.status v === version_ready) then default 0 (object_size d v) else 0.
Lemma ready_bytes_not d w v : Version.status v ≠ version_ready → ready_bytes d w v = 0.
Proof. intros H. unfold ready_bytes. rewrite (bool_decide_eq_false_2 (Version.status v = version_ready)) by done. by rewrite andb_false_r. Qed.
Definition computed_usage (d : Db.t) (workspaceId : string) : Z := total (ready_bytes d workspaceId) (Db.versions d).
Definition reserved_bytes (workspaceId : string) (u : Upload.t) : Z := if Upload.workspaceId u === workspaceId then Upload.reservedBytes u else 0.
Definition computed_reserved (d : Db.t) (workspaceId : string) : Z := total (reserved_bytes workspaceId) (Db.uploads d).
(** The workspaces whose used bytes drifted, with what they should be. *)
Definition auditUsage (d : Db.t) : list (string * Z * Z) :=
  omap (λ e, let computed := computed_usage d e.1 in
    if Storage.usedBytes e.2 =? computed then None else Some (e.1, Storage.usedBytes e.2, computed)) (map_to_list (Db.storage d)).

(** ** What holds between the tables *)

Record accounted (d : Db.t) : Prop := {
  ac_object : ∀ v V, Db.versions d !! v = Some V → Version.status V ≠ version_purged → ∃ o O, Version.objectId V = Some o ∧ Db.objects d !! o = Some O;
  ac_node : ∀ v V, Db.versions d !! v = Some V → ∃ N, Db.nodes d !! Version.nodeId V = Some N ∧ Node.workspaceId N = Version.workspaceId V;
  ac_gone : ∀ v V N, Db.versions d !! v = Some V → Db.nodes d !! Version.nodeId V = Some N → is_Some (Node.purgedAt N) → Version.status V ≠ version_ready;
  ac_pending : ∀ v V, Db.versions d !! v = Some V → Version.status V = version_pending →
    ∃ u U, Db.uploads d !! u = Some U ∧ Upload.versionId U = v ∧ live_upload U = true;
  ac_version : ∀ u U, Db.uploads d !! u = Some U → is_Some (Db.versions d !! Upload.versionId U);
  ac_one : ∀ u u' U U', Db.uploads d !! u = Some U → Db.uploads d !! u' = Some U' → Upload.versionId U = Upload.versionId U' → u = u';
  ac_live : ∀ u U, Db.uploads d !! u = Some U → live_upload U = true → ∃ V, Db.versions d !! Upload.versionId U = Some V ∧
    Version.status V = version_pending ∧ Version.workspaceId V = Upload.workspaceId U ∧ Version.nodeId V = Upload.nodeId U ∧
    Version.objectId V = Upload.objectId U;
  ac_done : ∀ u U, Db.uploads d !! u = Some U → live_upload U = false → Upload.reservedBytes U = 0;
  ac_new : ∀ u U, Db.uploads d !! u = Some U → live_upload U = true → Upload.newNode U = true → current_of d (Upload.nodeId U) = None ∧
    (∀ v V, Db.versions d !! v = Some V → Version.nodeId V = Upload.nodeId U → v = Upload.versionId U);
  ac_sizes : ∀ o O, Db.objects d !! o = Some O → 0 ≤ Obj.ciphertextSize O;
  ac_reserve : ∀ u U, Db.uploads d !! u = Some U → 0 ≤ Upload.reservedBytes U;
  ac_used : ∀ w S, Db.storage d !! w = Some S → Storage.usedBytes S = computed_usage d w;
  ac_reserved : ∀ w S, Db.storage d !! w = Some S → Storage.reservedBytes S = computed_reserved d w;
}.

Lemma object_size_same d d' : Db.objects d' = Db.objects d → ∀ v, object_size d' v = object_size d v.
Proof. intros E v. unfold object_size. by rewrite E. Qed.
Lemma accounted_same d d' : Db.storage d' = Db.storage d → Db.nodes d' = Db.nodes d → Db.versions d' = Db.versions d →
  Db.objects d' = Db.objects d → Db.uploads d' = Db.uploads d → accounted d → accounted d'.
Proof.
  intros E1 E2 E3 E4 E5 []. assert (∀ w, computed_usage d' w = computed_usage d w ∧ computed_reserved d' w = computed_reserved d w) as Hc.
  { intros w. unfold computed_usage, computed_reserved, ready_bytes, object_size. by rewrite E3, E4, E5. }
  constructor; unfold current_of in *; rewrite ?E1, ?E2, ?E3, ?E4, ?E5; try done; intros w S HS; [rewrite (proj1 (Hc w))|rewrite (proj2 (Hc w))]; eauto.
Qed.
(** Nodes that stay where their versions are, not purged over a ready version, their currents as they were or none. *)
Lemma accounted_nodes d nodes : accounted d →
  (∀ n N, Db.nodes d !! n = Some N → (∃ v V, Db.versions d !! v = Some V ∧ Version.nodeId V = n) → ∃ N', nodes !! n = Some N' ∧
    Node.workspaceId N' = Node.workspaceId N ∧ (is_Some (Node.purgedAt N') → is_Some (Node.purgedAt N) ∨
      ∀ v V, Db.versions d !! v = Some V → Version.nodeId V = n → Version.status V ≠ version_ready) ∧
    (Node.currentVersionId N' = Node.currentVersionId N ∨
      ∀ u U, Db.uploads d !! u = Some U → live_upload U = true → Upload.newNode U = true → Upload.nodeId U ≠ n)) →
  accounted (set_nodes d nodes).
Proof.
  intros [] H. constructor; try done.
  - intros v V HV. destruct (ac_node0 v V HV) as (N & HN & E). destruct (H _ N HN ltac:(eauto)) as (N' & HN' & E' & _). exists N'. cbn. by rewrite E'.
  - intros v V N' HV HN' Hp. destruct (ac_node0 v V HV) as (N & HN & _). destruct (H _ N HN ltac:(eauto)) as (N'' & HN'' & _ & Hg & _).
    cbn in HN'. assert (N'' = N') as -> by congruence. destruct (Hg Hp) as [Hp'|Hr]; [by eapply ac_gone0|by eapply Hr].
  - intros u U HU Hl Hn. destruct (ac_new0 u U HU Hl Hn) as [Hc Hv]. split; [|done]. destruct (ac_live0 u U HU Hl) as (V & HV & _ & _ & En & _).
    destruct (ac_node0 _ V HV) as (N & HN & _). rewrite En in HN. destruct (H _ N HN ltac:(eauto)) as (N' & HN' & _ & _ & [Ec|Hne]); [|by destruct (Hne u U)].
    unfold current_of in *. rewrite HN in Hc. cbn in Hc |- *. rewrite HN'. cbn. by rewrite Ec.
Qed.

Lemma alter_inv {A} (f : A → A) (m : gmap string A) k j y : alter f k m !! j = Some y →
  (j = k ∧ ∃ x, m !! k = Some x ∧ y = f x) ∨ (j ≠ k ∧ m !! j = Some y).
Proof.
  destruct (decide (j = k)) as [->|Hne]; [|rewrite lookup_alter_ne by done; by right]. rewrite lookup_alter_eq.
  destruct (m !! k) eqn:E; cbn; [|done]. intros [= <-]. left. eauto.
Qed.
Lemma alter_missing {A} (f : A → A) (m : gmap string A) k : m !! k = None → alter f k m = m.
Proof. intros H. apply map_eq. intros j. destruct (decide (j = k)) as [->|Hne]; [by rewrite lookup_alter_eq, H|by rewrite lookup_alter_ne]. Qed.
Lemma alter_is_Some {A} (f : A → A) (m : gmap string A) k j : is_Some (alter f k m !! j) ↔ is_Some (m !! j).
Proof.
  destruct (decide (j = k)) as [->|Hne]; [|by rewrite lookup_alter_ne]. rewrite lookup_alter_eq. apply fmap_is_Some.
Qed.

Definition adjusted (w : string) (used reserved : Z) (d : Db.t) : Db.t := set_storage d (alter (λ s, adjust s used reserved) w (Db.storage d)).
Lemma adjust_ok w used reserved d d' : adjustStorage w used reserved d = Ok d' → d' = adjusted w used reserved d.
Proof.
  unfold adjustStorage, adjusted. destruct (Db.storage d !! w) as [s|] eqn:E.
  - intros H. not_refused H G. injection H as <-. f_equal. symmetry. apply (alter_known (λ s, adjust s used reserved) _ _ s E).
  - intros [= <-]. rewrite alter_missing by done. by destruct d.
Qed.
Lemma adjusted_inv w used reserved d k S : Db.storage (adjusted w used reserved d) !! k = Some S →
  ∃ S0, Db.storage d !! k = Some S0 ∧ Storage.usedBytes S = Storage.usedBytes S0 + (if k === w then used else 0) ∧
    Storage.reservedBytes S = Storage.reservedBytes S0 + (if k === w then reserved else 0).
Proof.
  intros [(-> & S0 & H & ->)|(Hne & H)]%alter_inv; [exists S0; rewrite bool_decide_eq_true_2 by done; done|].
  exists S. rewrite bool_decide_eq_false_2 by done. split; [done|lia].
Qed.

(** *** An object retired *)

Lemma delete_object_ok d o : accounted d →
  (∀ v V, Db.versions d !! v = Some V → Version.objectId V = Some o → Version.status V = version_purged) → accounted (delete_object o d).
Proof.
  intros [] Hun.
  assert (∀ v V', Db.versions (delete_object o d) !! v = Some V' → ∃ V, Db.versions d !! v = Some V ∧ Version.nodeId V' = Version.nodeId V ∧
    Version.workspaceId V' = Version.workspaceId V ∧ Version.status V' = Version.status V ∧
    (Version.status V ≠ version_purged → V' = V ∧ Version.objectId V ≠ Some o)) as Hv.
  { intros v V'. cbn. rewrite lookup_fmap. intros (V & HV & ->)%fmap_Some_1. exists V. case_bool_decide as E; split_and!; try done; intros Hp; by destruct Hp; eapply Hun. }
  assert (∀ u U', Db.uploads (delete_object o d) !! u = Some U' → ∃ U, Db.uploads d !! u = Some U ∧
    (U' = U ∨ (U' = upload_without_object U ∧ Upload.objectId U = Some o))) as Hu.
  { intros u U'. cbn. rewrite lookup_fmap. intros (U & HU & ->)%fmap_Some_1. exists U. case_bool_decide; eauto. }
  assert (∀ w v V, Db.versions d !! v = Some V → ready_bytes (delete_object o d) w V = ready_bytes d w V) as Hr.
  { intros w v V HV. unfold ready_bytes. destruct (Version.workspaceId V === w); [|done]. cbn. case_bool_decide as Es; [|done].
    unfold object_size. destruct (Version.objectId V) as [x|] eqn:Ex; [|done]. cbn. destruct (decide (x = o)) as [->|]; [by rewrite (Hun _ _ HV Ex) in Es|].
    by rewrite lookup_delete_ne. }
  constructor.
  - intros v V' HV' Hp. destruct (Hv v V' HV') as (V & HV & _ & _ & Es & Hsame). rewrite Es in Hp. destruct (Hsame Hp) as [-> Hne].
    destruct (ac_object0 v V HV Hp) as (x & O & Ex & HO). exists x, O. split; [done|]. cbn. rewrite lookup_delete_ne; [done|congruence].
  - intros v V' HV'. destruct (Hv v V' HV') as (V & HV & En & Ew & _). cbn. rewrite En, Ew. eauto.
  - intros v V' N HV' HN Hp. destruct (Hv v V' HV') as (V & HV & En & _ & Es & _). rewrite Es. cbn in HN. rewrite En in HN. by eapply ac_gone0.
  - intros v V' HV' Hp. destruct (Hv v V' HV') as (V & HV & _ & _ & Es & _). rewrite Es in Hp. destruct (ac_pending0 v V HV Hp) as (u & U & HU & E & Hl).
    cbn. exists u. setoid_rewrite lookup_fmap. rewrite HU. eexists. split; [done|]. by case_bool_decide.
  - intros u U' HU'. destruct (Hu u U' HU') as (U & HU & HE). assert (Upload.versionId U' = Upload.versionId U) as -> by (by destruct HE as [->|[-> _]]).
    cbn. rewrite lookup_fmap, fmap_is_Some. eauto.
  - intros u u' U1' U2' H1 H2. destruct (Hu _ _ H1) as (U1 & HU1 & E1), (Hu _ _ H2) as (U2 & HU2 & E2). intros E. apply (ac_one0 u u' U1 U2 HU1 HU2).
    destruct E1 as [->|[-> _]], E2 as [->|[-> _]]; done.
  - intros u U' HU' Hl. destruct (Hu u U' HU') as (U & HU & HE). assert (live_upload U = true) as Hl' by (by destruct HE as [->|[-> _]]).
    destruct (ac_live0 u U HU Hl') as (V & HV & Es & Ew & En & Eo). destruct HE as [->|[-> Ex]].
    + exists V. split_and!; try done. cbn. rewrite lookup_fmap, HV. cbn. rewrite bool_decide_eq_false_2; [done|]. intros Ex. by rewrite (Hun _ _ HV Ex) in Es.
    + exfalso. rewrite Ex in Eo. by rewrite (Hun _ _ HV Eo) in Es.
  - intros u U' HU' Hl. destruct (Hu u U' HU') as (U & HU & [->|[-> _]]); [by eapply ac_done0|]. by apply (ac_done0 u U).
  - intros u U' HU' Hl Hn. destruct (Hu u U' HU') as (U & HU & HE). assert (Upload.nodeId U' = Upload.nodeId U ∧ Upload.versionId U' = Upload.versionId U) as [-> ->] by (by destruct HE as [->|[-> _]]).
    destruct (ac_new0 u U HU) as [Hc Hs]; [by destruct HE as [->|[-> _]]..|]. split; [done|]. intros v V' HV' Hnode.
    destruct (Hv v V' HV') as (V & HV & En & _). rewrite En in Hnode. by eapply Hs.
  - intros x O HO. cbn in HO. apply lookup_delete_Some in HO as [_ HO]. by eapply ac_sizes0.
  - intros u U' HU'. destruct (Hu u U' HU') as (U & HU & [->|[-> _]]); by apply (ac_reserve0 u U).
  - intros w S HS. rewrite (ac_used0 w S HS). unfold computed_usage. cbn. rewrite total_fmap; [symmetry; apply total_ext; intros; by eapply Hr|].
    intros v V HV. case_bool_decide as Eo; [|done]. pose proof (Hun _ _ HV Eo) as Es. by rewrite !ready_bytes_not by (cbn; congruence).
  - intros w S HS. rewrite (ac_reserved0 w S HS). unfold computed_reserved. cbn. symmetry. apply total_fmap. intros u U _. by case_bool_decide.
Qed.
Lemma retire_ok d o : accounted d → accounted (retire_option o d).
Proof.
  intros Ha. destruct o as [o|]; [|done]. cbn. unfold retireObjectIfUnreferenced. destruct (any _ _) eqn:E; [done|].
  destruct (Db.objects d !! o); [|done]. apply (accounted_same (delete_object o d)); try done. apply delete_object_ok; [done|].
  intros v V HV Ho. pose proof (proj1 (any_false _ _) E v V HV) as H. cbn in H. rewrite bool_decide_eq_true_2 in H by done. cbn in H.
  apply negb_false_iff, bool_decide_eq_true in H. done.
Qed.

(** *** An upload settled: its version purged, or ready with its object's bytes *)

Definition ended_status (s : UploadStatus) : bool := match s with upload_completed | upload_aborted => true | _ => false end.
Definition settle_rows (uploadId : string) (U : Upload.t) (s : VersionStatus) (used : Z) (st : UploadStatus) (d : Db.t) : Db.t :=
  set_uploads (set_versions (adjusted (Upload.workspaceId U) used (- Upload.reservedBytes U) d)
    (alter (λ v, with_status v s) (Upload.versionId U) (Db.versions d)))
    (alter (λ u, upload_as u st 0) uploadId (Db.uploads d)).
Lemma settle_rows_ok d id U s used st : accounted d → Db.uploads d !! id = Some U → live_upload U = true → ended_status st = true →
  match s with
  | version_ready => (∃ V, Db.versions d !! Upload.versionId U = Some V ∧ object_size d V = Some used) ∧
      (∀ N, Db.nodes d !! Upload.nodeId U = Some N → Node.purgedAt N = None)
  | version_purged => used = 0
  | version_pending => False
  end → accounted (settle_rows id U s used st d).
Proof.
  intros [] HU Hl Hst Hs. destruct (ac_live0 id U HU Hl) as (V & HV & Ep & Ew & En & Eo).
  assert (∀ u U', Db.uploads (settle_rows id U s used st d) !! u = Some U' → (u = id ∧ U' = upload_as U st 0) ∨ (u ≠ id ∧ Db.uploads d !! u = Some U')) as Hu.
  { intros u U' [(-> & x & Hx & ->)|?]%alter_inv; [left|by right]. split; [done|]. by assert (x = U) as -> by congruence. }
  assert (∀ v V', Db.versions (settle_rows id U s used st d) !! v = Some V' →
    (v = Upload.versionId U ∧ V' = with_status V s) ∨ (v ≠ Upload.versionId U ∧ Db.versions d !! v = Some V')) as Hv.
  { intros v V' [(-> & x & Hx & ->)|?]%alter_inv; [left|by right]. split; [done|]. by assert (x = V) as -> by congruence. }
  assert (s ≠ version_pending) as Hsp by (by destruct s).
  assert (∀ u U', Db.uploads (settle_rows id U s used st d) !! u = Some U' → live_upload U' = true → u ≠ id ∧ Db.uploads d !! u = Some U' ∧ Upload.versionId U' ≠ Upload.versionId U) as Hul.
  { intros u U' HU' Hl'. destruct (Hu u U' HU') as [[-> ->]|[Hne HU0]]; [by destruct st|]. split_and!; [done|done|]. intros E. by apply Hne, (ac_one0 _ _ _ _ HU0 HU). }
  constructor.
  - intros v V' HV' Hp. cbn. destruct (Hv v V' HV') as [[-> ->]|[_ H]]; [|by eapply ac_object0]. apply (ac_object0 (Upload.versionId U) V HV). by rewrite Ep.
  - intros v V' HV'. cbn. destruct (Hv v V' HV') as [[-> ->]|[_ H]]; [|by eapply ac_node0]. by apply (ac_node0 (Upload.versionId U) V).
  - intros v V' N HV' HN Hp. cbn in HN. destruct (Hv v V' HV') as [[-> ->]|[_ H]]; [|by eapply ac_gone0]. cbn in HN |- *. destruct s; try done.
    destruct Hs as [_ Hn]. rewrite En in HN. destruct Hp as [x Hx]. by rewrite (Hn N HN) in Hx.
  - intros v V' HV' Hp. destruct (Hv v V' HV') as [[-> ->]|[Hne H]]; [by cbn in Hp|]. destruct (ac_pending0 v V' H Hp) as (u & U' & HU' & E & Hl').
    exists u, U'. split; [|done]. cbn. rewrite lookup_alter_ne; [done|]. intros ->. congruence.
  - intros u U' HU'. cbn. apply alter_is_Some. destruct (Hu u U' HU') as [[-> ->]|[_ H]]; [by eapply (ac_version0 id U)|by eapply ac_version0].
  - intros u u' U1 U2 H1 H2 E. destruct (Hu _ _ H1) as [[-> ->]|[Hn1 H1']], (Hu _ _ H2) as [[-> ->]|[Hn2 H2']]; [done|..|by eapply ac_one0].
    + exfalso. apply Hn2. symmetry. by apply (ac_one0 id u' U U2).
    + exfalso. apply Hn1. by apply (ac_one0 u id U1 U).
  - intros u U' HU' Hl'. destruct (Hul u U' HU' Hl') as (_ & H & Hne). destruct (ac_live0 u U' H Hl') as (V' & HV' & ?). exists V'. split; [|done].
    cbn. by rewrite lookup_alter_ne.
  - intros u U' HU' Hl'. destruct (Hu u U' HU') as [[-> ->]|[_ H]]; [done|by eapply ac_done0].
  - intros u U' HU' Hl' Hn. destruct (Hul u U' HU' Hl') as (_ & H & _). destruct (ac_new0 u U' H Hl' Hn) as [Hc Ho]. split; [done|].
    intros v V' HV' E. destruct (Hv v V' HV') as [[-> ->]|[_ HV0]]; [by apply (Ho (Upload.versionId U) V)|by eapply Ho].
  - done.
  - intros u U' HU'. destruct (Hu u U' HU') as [[-> ->]|[_ H]]; [done|by eapply ac_reserve0].
  - intros w S HS. destruct (adjusted_inv _ _ _ _ _ _ HS) as (S0 & HS0 & E & _). rewrite E, (ac_used0 w S0 HS0). unfold computed_usage. cbn [settle_rows Db.versions set_uploads set_versions adjusted].
    rewrite (total_alter _ _ _ V) by done.
    change (ready_bytes (settle_rows id U s used st d) w) with (ready_bytes d w). rewrite (ready_bytes_not d w V) by (by rewrite Ep).
    assert (ready_bytes d w (with_status V s) = if w === Upload.workspaceId U then used else 0) as ->; [|lia].
    unfold ready_bytes. cbn [with_status Version.workspaceId Version.status]. rewrite Ew, (bool_decide_ext (w = Upload.workspaceId U) (Upload.workspaceId U = w)) by done.
    destruct (Upload.workspaceId U === w); [|done]. destruct s; [done| |by rewrite Hs].
    destruct Hs as [(V0 & HV0 & Hz) _]. assert (V0 = V) as -> by congruence. unfold object_size in Hz |- *. cbn. by rewrite Hz.
  - intros w S HS. destruct (adjusted_inv _ _ _ _ _ _ HS) as (S0 & HS0 & _ & E). rewrite E, (ac_reserved0 w S0 HS0). unfold computed_reserved. cbn [settle_rows Db.uploads set_uploads].
    rewrite (total_alter _ _ _ U) by done. unfold reserved_bytes at 3 4. cbn [upload_as Upload.workspaceId Upload.reservedBytes].
    rewrite (bool_decide_ext (w = Upload.workspaceId U) (Upload.workspaceId U = w)) by done. repeat case_bool_decide; try done; lia.
Qed.

(** *** A ready version purged *)

Lemma purge_ready_ok d id V size : accounted d → Db.versions d !! id = Some V → Version.status V = version_ready → object_size d V = Some size →
  accounted (adjusted (Version.workspaceId V) (- size) 0 (purge_version_row id d)).
Proof.
  intros [] HV Hr Hz. set (d' := adjusted _ _ _ _).
  assert (∀ v V', Db.versions d' !! v = Some V' → (v = id ∧ V' = with_status V version_purged) ∨ (v ≠ id ∧ Db.versions d !! v = Some V')) as Hv.
  { intros v V' [(-> & x & Hx & ->)|?]%alter_inv; [left|by right]. split; [done|]. by assert (x = V) as -> by congruence. }
  constructor.
  - intros v V' HV' Hp. destruct (Hv v V' HV') as [[-> ->]|[_ H]]; [done|by eapply ac_object0].
  - intros v V' HV'. destruct (Hv v V' HV') as [[-> ->]|[_ H]]; [by apply (ac_node0 id V)|by eapply ac_node0].
  - intros v V' N HV' HN Hp. destruct (Hv v V' HV') as [[-> ->]|[_ H]]; [done|by eapply ac_gone0].
  - intros v V' HV' Hp. destruct (Hv v V' HV') as [[-> ->]|[_ H]]; [done|by eapply ac_pending0].
  - intros u U HU. apply alter_is_Some. by eapply ac_version0.
  - done.
  - intros u U HU Hl. destruct (ac_live0 u U HU Hl) as (V' & HV' & Hp & ?). exists V'. split; [|done]. cbn. rewrite lookup_alter_ne; [done|]. intros E. rewrite E in HV. congruence.
  - done.
  - intros u U HU Hl Hn. destruct (ac_new0 u U HU Hl Hn) as [Hc Ho]. split; [done|]. intros v V' HV' E. destruct (Hv v V' HV') as [[-> ->]|[_ H]]; [by apply (Ho id V)|by eapply Ho].
  - done.
  - done.
  - intros w S HS. destruct (adjusted_inv _ _ _ _ _ _ HS) as (S0 & HS0 & E & _). cbn in HS0. rewrite E, (ac_used0 w S0 HS0). unfold computed_usage.
    change (ready_bytes d' w) with (ready_bytes d w). change (Db.versions d') with (alter (λ v, with_status v version_purged) id (Db.versions d)).
    rewrite (total_alter _ _ _ V) by done. rewrite (ready_bytes_not d w (with_status V version_purged)) by done. unfold ready_bytes at 3. rewrite Hr, Hz. cbn.
    rewrite (bool_decide_ext (w = Version.workspaceId V) (Version.workspaceId V = w)) by done. repeat case_bool_decide; try done; cbn; lia.
  - intros w S HS. destruct (adjusted_inv _ _ _ _ _ _ HS) as (S0 & HS0 & _ & E). cbn in HS0. rewrite E, (ac_reserved0 w S0 HS0).
    change (computed_reserved d' w) with (computed_reserved d w). case_bool_decide; lia.
Qed.

(** *** Rows that go with their node *)

Definition only_purged (d : Db.t) (gone : string * Version.t → Prop) : Prop :=
  ∀ v V, Db.versions d !! v = Some V → gone (v, V) → Version.status V = version_purged.
Lemma drop_versions_ok d gone `{∀ e, Decision (gone e)} : accounted d → only_purged d gone → accounted (drop_versions gone d).
Proof.
  intros [] Hg. set (d' := drop_versions gone d). set (ids := dom (filter gone (Db.versions d))).
  assert (∀ v V, Db.versions d' !! v = Some V ↔ Db.versions d !! v = Some V ∧ ¬ gone (v, V)) as Hv by (intros; cbn; by rewrite map_lookup_filter_Some).
  assert (∀ v V, Db.versions d !! v = Some V → v ∈ ids ↔ gone (v, V)) as Hi.
  { intros v V HV. unfold ids. rewrite elem_of_dom. split; [|intros Hx; exists V; by rewrite map_lookup_filter_Some].
    intros [V' HV']. rewrite map_lookup_filter_Some in HV'. destruct HV' as [HV' Hx]. by assert (V' = V) as -> by congruence. }
  assert (∀ u U, Db.uploads d' !! u = Some U ↔ Db.uploads d !! u = Some U ∧ Upload.versionId U ∉ ids) as Hu by (intros; cbn; by rewrite map_lookup_filter_Some).
  assert (∀ u U, Db.uploads d !! u = Some U → live_upload U = true → Upload.versionId U ∉ ids) as Hlive.
  { intros u U HU Hl Hin. destruct (ac_live0 u U HU Hl) as (V & HV & Hp & _). apply (Hi _ V HV) in Hin. by rewrite (Hg _ _ HV Hin) in Hp. }
  assert (∀ n N', Db.nodes d' !! n = Some N' → ∃ N, Db.nodes d !! n = Some N ∧ Node.workspaceId N' = Node.workspaceId N ∧ Node.purgedAt N' = Node.purgedAt N) as Hn.
  { intros n N'. cbn. rewrite lookup_fmap. intros (N & HN & ->)%fmap_Some_1. exists N. destruct (Node.currentVersionId N); [|done]. by case_decide. }
  constructor.
  - intros v V [HV _]%Hv. by apply (ac_object0 v V).
  - intros v V [HV _]%Hv. destruct (ac_node0 v V HV) as (N & HN & E). cbn. rewrite lookup_fmap, HN. cbn. eexists. split; [done|].
    destruct (Node.currentVersionId N); [|done]. by case_decide.
  - intros v V N' [HV _]%Hv HN' Hp. destruct (Hn _ _ HN') as (N & HN & _ & E). rewrite E in Hp. by eapply ac_gone0.
  - intros v V [HV _]%Hv Hp. destruct (ac_pending0 v V HV Hp) as (u & U & HU & E & Hl). exists u, U. split; [|done]. apply Hu. split; [done|by eapply Hlive].
  - intros u U [HU Hi']%Hu. destruct (ac_version0 u U HU) as [V HV]. exists V. apply Hv. split; [done|]. intros Hx. by apply Hi', (Hi _ V HV).
  - intros u u' U U' [HU _]%Hu [HU' _]%Hu. by apply (ac_one0 u u' U U').
  - intros u U [HU Hi']%Hu Hl. destruct (ac_live0 u U HU Hl) as (V & HV & Hr). exists V. split; [|done]. apply Hv. split; [done|]. intros Hx. by apply Hi', (Hi _ V HV).
  - intros u U [HU _]%Hu. by apply (ac_done0 u U).
  - intros u U [HU _]%Hu Hl Hnew. destruct (ac_new0 u U HU Hl Hnew) as [Hc Ho]. split; [|intros v V [HV _]%Hv; by apply Ho].
    unfold current_of in *. cbn. rewrite lookup_fmap. destruct (Db.nodes d !! Upload.nodeId U) as [N|]; [|done]. cbn in *. by rewrite Hc.
  - done.
  - intros u U [HU _]%Hu. by eapply ac_reserve0.
  - intros w S HS. rewrite (ac_used0 w S HS). symmetry. unfold computed_usage. change (ready_bytes d' w) with (ready_bytes d w).
    apply total_filter. intros v V HV Hx. apply ready_bytes_not. rewrite (Hg v V HV); [done|]. destruct (decide (gone (v, V))); [done|]. by destruct Hx.
  - intros w S HS. rewrite (ac_reserved0 w S HS). symmetry. unfold computed_reserved. apply total_filter. intros u U HU Hx. unfold reserved_bytes.
    rewrite (ac_done0 u U HU); [by case_match|]. apply not_true_is_false. intros Hl. by apply Hx, (Hlive u U).
Qed.
Definition only_done (d : Db.t) (nodeId : string) : Prop := ∀ u U, Db.uploads d !! u = Some U → Upload.nodeId U = nodeId → live_upload U = false.
Lemma filter_uploads_ok d (gone : string → Prop) `{∀ n, Decision (gone n)} : accounted d →
  (∀ u U, Db.uploads d !! u = Some U → gone (Upload.nodeId U) → live_upload U = false) →
  accounted (set_uploads d (filter (λ e, ¬ gone (Upload.nodeId e.2)) (Db.uploads d))).
Proof.
  intros [] Hg. set (d' := set_uploads _ _).
  assert (∀ u U, Db.uploads d' !! u = Some U ↔ Db.uploads d !! u = Some U ∧ ¬ gone (Upload.nodeId U)) as Hu by (intros; cbn; by rewrite map_lookup_filter_Some).
  constructor; try done.
  - intros v V HV Hp. destruct (ac_pending0 v V HV Hp) as (u & U & HU & E & Hl). exists u, U. split; [|done]. apply Hu. split; [done|].
    intros Hx. by rewrite (Hg _ _ HU Hx) in Hl.
  - intros u U [HU _]%Hu. by eapply ac_version0.
  - intros u u' U U' [HU _]%Hu [HU' _]%Hu. by apply (ac_one0 u u' U U').
  - intros u U [HU _]%Hu. by eapply ac_live0.
  - intros u U [HU _]%Hu. by apply (ac_done0 u U).
  - intros u U [HU _]%Hu. by eapply ac_new0.
  - intros u U [HU _]%Hu. by eapply ac_reserve0.
  - intros w S HS. rewrite (ac_reserved0 w S HS). symmetry. apply total_filter. intros u U HU Hx. unfold reserved_bytes.
    rewrite (ac_done0 u U HU); [by case_match|]. apply (Hg u U HU). destruct (decide (gone (Upload.nodeId U))); [done|]. by destruct Hx.
Qed.
Lemma delete_node_ok d n d' : accounted d → only_purged d (λ e, Version.nodeId e.2 = n) → only_done d n → delete_node n d = Ok d' → accounted d'.
Proof.
  intros Ha Hp Hd H. unfold delete_node in H. not_refused H Hc. injection H as <-.
  set (d1 := drop_versions _ d). assert (accounted d1) as H1 by by apply drop_versions_ok.
  assert (accounted (set_uploads d1 (filter (λ e, Upload.nodeId e.2 ≠ n) (Db.uploads d1)))) as H2.
  { pose proof (filter_uploads_ok d1 (λ x, x = n) H1) as Hf. apply Hf. intros u U HU E. cbn in HU. rewrite map_lookup_filter_Some in HU. destruct HU as [HU _]. by apply (Hd u U). }
  set (d2 := set_uploads d1 _) in *. apply (accounted_same (set_nodes d2 (delete n (Db.nodes d2)))); try done.
  apply accounted_nodes; [done|]. intros x N HN (v & V & HV & <-). exists N. split; [|tauto]. rewrite lookup_delete_ne; [done|].
  intros ->. unfold d2, d1 in HV. cbn in HV. rewrite map_lookup_filter_Some in HV. by destruct HV as [_ []].
Qed.
