(* ===== verification/DriveAlike.v ===== *)
(** * Writes the Drive server's accounts do not see, and rows added (packages/db/src/drive.ts)

    What a transaction changes of the rows without changing what [accounted]
    says of them: states, numbers, heights, envelopes. And what begin, copy
    and attach insert or move. *)

From S2P Require Import Prelude DriveTables Pool DriveUploads DrivePurges DriveAccounting.

Record same_node_row (n m : Node.t) : Prop := {
  sn_workspace : Node.workspaceId n = Node.workspaceId m; sn_current : Node.currentVersionId n = Node.currentVersionId m;
  sn_purged : is_Some (Node.purgedAt n) ↔ is_Some (Node.purgedAt m);
}.
Record same_version_row (v x : Version.t) : Prop := {
  sv_node : Version.nodeId v = Version.nodeId x; sv_workspace : Version.workspaceId v = Version.workspaceId x;
  sv_object : Version.objectId v = Version.objectId x; sv_status : Version.status v = Version.status x;
}.
Record same_upload_row (u x : Upload.t) : Prop := {
  su_workspace : Upload.workspaceId u = Upload.workspaceId x; su_node : Upload.nodeId u = Upload.nodeId x;
  su_version : Upload.versionId u = Upload.versionId x; su_object : Upload.objectId u = Upload.objectId x;
  su_new : Upload.newNode u = Upload.newNode x; su_reserved : Upload.reservedBytes u = Upload.reservedBytes x;
  su_live : live_upload u = live_upload x;
}.
Definition same_object_row (o x : Obj.t) : Prop := Obj.ciphertextSize o = Obj.ciphertextSize x.
#[export] Instance same_node_row_eq : Equivalence same_node_row.
Proof. split; [done|intros ?? []; done|intros ??? [] []; split; [congruence|congruence|tauto]]. Qed.
#[export] Instance same_version_row_eq : Equivalence same_version_row.
Proof. split; [done|intros ?? []; done|intros ??? [] []; split; congruence]. Qed.
#[export] Instance same_upload_row_eq : Equivalence same_upload_row.
Proof. split; [done|intros ?? []; done|intros ??? [] []; split; congruence]. Qed.
#[export] Instance same_object_row_eq : Equivalence same_object_row.
Proof. unfold same_object_row. split; [done|by intros ??|intros ???; congruence]. Qed.

Record alike (d d' : Db.t) : Prop := {
  al_storage : Db.storage d' = Db.storage d;
  al_nodes : map_Forall2 (λ _, same_node_row) (Db.nodes d) (Db.nodes d');
  al_versions : map_Forall2 (λ _, same_version_row) (Db.versions d) (Db.versions d');
  al_objects : map_Forall2 (λ _, same_object_row) (Db.objects d) (Db.objects d');
  al_uploads : map_Forall2 (λ _, same_upload_row) (Db.uploads d) (Db.uploads d');
}.

Lemma total_map {A} (f : A → Z) (m : gmap string A) : total f m = total (λ z, z) (f <$> m).
Proof.
  induction m as [|k x m Hk IH] using map_ind; [by rewrite fmap_empty|]. rewrite fmap_insert, !total_new by (done || by rewrite lookup_fmap, Hk). by rewrite IH.
Qed.

Section rows.
Context {A : Type} {R : A → A → Prop} `{!Equivalence R}.
Implicit Types (m : gmap string A) (k : string).
Lemma rows_refl m : map_Forall2 (λ _, R) m m.
Proof. intros i. by destruct (m !! i); constructor. Qed.
Lemma rows_trans m1 m2 m3 : map_Forall2 (λ _, R) m1 m2 → map_Forall2 (λ _, R) m2 m3 → map_Forall2 (λ _, R) m1 m3.
Proof. intros H1 H2 i. specialize (H1 i). specialize (H2 i). inversion H1; inversion H2; try congruence; constructor. etrans; [done|]. congruence. Qed.
Lemma rows_alter f k m : (∀ x, m !! k = Some x → R x (f x)) → map_Forall2 (λ _, R) m (alter f k m).
Proof.
  intros H i. destruct (decide (i = k)) as [->|Hne]; [rewrite lookup_alter_eq|rewrite lookup_alter_ne by done; apply rows_refl].
  destruct (m !! k) as [x|] eqn:E; cbn; constructor. by apply H.
Qed.
Lemma rows_insert m k x y : m !! k = Some x → R x y → map_Forall2 (λ _, R) m (<[k := y]> m).
Proof.
  intros Hk H i. destruct (decide (i = k)) as [->|Hne]; [rewrite lookup_insert_eq, Hk; by constructor|rewrite lookup_insert_ne by done; apply rows_refl].
Qed.
Lemma rows_fwd m m' i x : map_Forall2 (λ _, R) m m' → m !! i = Some x → ∃ y, m' !! i = Some y ∧ R x y.
Proof. intros H E. specialize (H i). rewrite E in H. inversion H. eauto. Qed.
Lemma rows_bwd m m' i y : map_Forall2 (λ _, R) m m' → m' !! i = Some y → ∃ x, m !! i = Some x ∧ R x y.
Proof. intros H E. specialize (H i). rewrite E in H. inversion H. eauto. Qed.
Lemma total_rows m m' (f g : A → Z) : map_Forall2 (λ _, R) m m' → (∀ x y, R x y → f x = g y) → total f m = total g m'.
Proof.
  intros H Hf. rewrite (total_map f), (total_map g). f_equal. apply map_eq. intros i. rewrite !lookup_fmap. specialize (H i).
  inversion H; cbn; [|done]. f_equal. by apply Hf.
Qed.
End rows.

#[export] Instance alike_refl : Reflexive alike.
Proof. intros d. split; [done|apply rows_refl..]. Qed.
#[export] Instance alike_trans : Transitive alike.
Proof. intros d e f [] []. split; [congruence|eapply rows_trans; eassumption..]. Qed.

Lemma alike_size d d' v x : alike d d' → same_version_row v x → object_size d' x = object_size d v.
Proof.
  intros [] []. unfold object_size. rewrite <- sv_object0. destruct (Version.objectId v) as [o|]; [|done]. cbn. specialize (al_objects0 o). by inversion al_objects0; cbn; [f_equal|].
Qed.
Lemma alike_current d d' n : alike d d' → current_of d' n = current_of d n.
Proof. intros []. unfold current_of. specialize (al_nodes0 n). inversion al_nodes0 as [?? []|]; by cbn. Qed.
Lemma alike_ok d d' : alike d d' → accounted d → accounted d'.
Proof.
  intros Hal []. pose proof (λ V V', alike_size d d' V V' Hal) as Hz. destruct (Hal) as [E Hn Hv Ho Hu].
  constructor.
  - intros v V' H Hp. destruct (rows_bwd _ _ _ _ Hv H) as (V & HV & []). destruct (ac_object v V HV ltac:(congruence)) as (o & O & Eo & HO).
    destruct (rows_fwd _ _ _ _ Ho HO) as (O' & ? & _). exists o, O'. split; [congruence|done].
  - intros v V' H. destruct (rows_bwd _ _ _ _ Hv H) as (V & HV & []). destruct (ac_node v V HV) as (N & HN & ?).
    destruct (rows_fwd _ _ _ _ Hn HN) as (N' & HN' & []). exists N'. rewrite <- sv_node0. split; [done|congruence].
  - intros v V' N' H HN' Hp. destruct (rows_bwd _ _ _ _ Hv H) as (V & HV & []), (rows_bwd _ _ _ _ Hn HN') as (N & HN & []).
    rewrite <- sv_status0. apply (ac_gone v V N); [done|congruence|tauto].
  - intros v V' H Hp. destruct (rows_bwd _ _ _ _ Hv H) as (V & HV & []). destruct (ac_pending v V HV ltac:(congruence)) as (u & U & HU & ? & ?).
    destruct (rows_fwd _ _ _ _ Hu HU) as (U' & HU' & []). exists u, U'. split_and!; [done|congruence..].
  - intros u U' H. destruct (rows_bwd _ _ _ _ Hu H) as (U & HU & []). destruct (ac_version u U HU) as [V HV].
    destruct (rows_fwd _ _ _ _ Hv HV) as (V' & HV' & _). rewrite <- su_version0. eauto.
  - intros u u' U1 U2 H1 H2 Ev. destruct (rows_bwd _ _ _ _ Hu H1) as (X1 & HX1 & []), (rows_bwd _ _ _ _ Hu H2) as (X2 & HX2 & []).
    apply (ac_one u u' X1 X2); congruence.
  - intros u U' H Hlive. destruct (rows_bwd _ _ _ _ Hu H) as (U & HU & []). destruct (ac_live u U HU ltac:(congruence)) as (V & HV & ? & ? & ? & ?).
    destruct (rows_fwd _ _ _ _ Hv HV) as (V' & HV' & []). exists V'. split_and!; congruence.
  - intros u U' H Hlive. destruct (rows_bwd _ _ _ _ Hu H) as (U & HU & []). rewrite <- su_reserved0. apply (ac_done u U HU). congruence.
  - intros u U' H Hlive Hnew. destruct (rows_bwd _ _ _ _ Hu H) as (U & HU & []). destruct (ac_new u U HU ltac:(congruence) ltac:(congruence)) as [Hc Hs].
    rewrite (alike_current d d') by done. split; [congruence|]. intros v V' HV' En. destruct (rows_bwd _ _ _ _ Hv HV') as (V & HV & []).
    rewrite <- su_version0. apply (Hs v V HV). congruence.
  - intros o O' H. destruct (rows_bwd _ _ _ _ Ho H) as (O & HO & Es). unfold same_object_row in Es. rewrite <- Es. eauto.
  - intros u U' H. destruct (rows_bwd _ _ _ _ Hu H) as (U & HU & []). rewrite <- su_reserved0. eauto.
  - intros w S HS. rewrite E in HS. rewrite (ac_used w S HS). apply (total_rows _ _ _ _ Hv). intros V V' HV. pose proof (Hz V V' HV) as Es.
    destruct HV. unfold ready_bytes. by rewrite Es, sv_workspace0, sv_status0.
  - intros w S HS. rewrite E in HS. rewrite (ac_reserved w S HS). apply (total_rows _ _ _ _ Hu). intros U U' []. unfold reserved_bytes. by rewrite su_workspace0, su_reserved0.
Qed.

(** ** The writes that change nothing of it *)

Lemma alike_workspaces d v : alike d (set_workspaces d v).
Proof. split; [done|apply rows_refl..]. Qed.
Lemma alike_nodes d v : map_Forall2 (λ _, same_node_row) (Db.nodes d) v → alike d (set_nodes d v).
Proof. intros H. split; [done|done|apply rows_refl..]. Qed.
Lemma alike_versions d v : map_Forall2 (λ _, same_version_row) (Db.versions d) v → alike d (set_versions d v).
Proof. intros H. split; [done|apply rows_refl|done|apply rows_refl..]. Qed.
Lemma alike_objects d v : map_Forall2 (λ _, same_object_row) (Db.objects d) v → alike d (set_objects d v).
Proof. intros H. split; [done|apply rows_refl..|done|apply rows_refl]. Qed.
Lemma alike_uploads d v : map_Forall2 (λ _, same_upload_row) (Db.uploads d) v → alike d (set_uploads d v).
Proof. intros H. split; [done|apply rows_refl..|done]. Qed.
Lemma alike_grants d s l : alike d (set_grants d s l).
Proof. split; [done|apply rows_refl..]. Qed.
Lemma alike_raise ids leafHeight d : alike d (set_nodes d (raise_each (Db.nodes d) ids leafHeight)).
Proof.
  apply alike_nodes. generalize (Db.nodes d). induction ids as [|id ids IH]; intros m; cbn [raise_each]; [apply rows_refl|].
  eapply rows_trans; [|apply IH]. apply rows_alter. intros n _. unfold raise_to. by case_match.
Qed.
Lemma alike_superseded d v t : alike d (set_versions d (alter (λ x, with_superseded x t) v (Db.versions d))).
Proof. by apply alike_versions, rows_alter. Qed.
Lemma alike_object_status d o s : alike d (set_object_status o s d).
Proof. by apply alike_objects, rows_alter. Qed.
Lemma alike_settled d u : alike d (settle_row u d).
Proof. by apply alike_uploads, rows_alter. Qed.
Lemma alike_upload d u U x : Db.uploads d !! u = Some U → same_upload_row U x → alike d (set_uploads d (<[u := x]> (Db.uploads d))).
Proof. intros H Hs. apply alike_uploads. by eapply rows_insert. Qed.
(** ** Rows added *)

Lemma new_node_ok d id N : accounted d → Db.nodes d !! id = None → accounted (set_nodes d (<[id := N]> (Db.nodes d))).
Proof.
  intros Ha Hid. apply accounted_nodes; [done|]. intros n N0 HN _. exists N0. split; [|tauto]. rewrite lookup_insert_ne; [done|congruence].
Qed.
Lemma object_size_mono d d' v z : Db.objects d ⊆ Db.objects d' → object_size d v = Some z → object_size d' v = Some z.
Proof.
  intros Hs. unfold object_size. destruct (Version.objectId v) as [o|]; [|done]. cbn. destruct (Db.objects d !! o) as [O|] eqn:E; [|done].
  by rewrite (lookup_weaken _ _ _ _ E Hs).
Qed.
Lemma version_has_size d v V : accounted d → Db.versions d !! v = Some V → Version.status V ≠ version_purged → ∃ z, object_size d V = Some z ∧ 0 ≤ z.
Proof.
  intros [] HV Hp. destruct (ac_object v V HV Hp) as (o & O & Eo & HO). exists (Obj.ciphertextSize O). unfold object_size. rewrite Eo. cbn. rewrite HO. eauto.
Qed.
Lemma new_object_ok d id O : accounted d → Db.objects d !! id = None → 0 ≤ Obj.ciphertextSize O → accounted (set_objects d (<[id := O]> (Db.objects d))).
Proof.
  intros Ha Hid Hz. pose proof (λ v V, version_has_size d v V Ha) as Hs. destruct Ha. set (d' := set_objects _ _).
  assert (Db.objects d ⊆ Db.objects d') as Hsub by by apply insert_subseteq.
  assert (∀ w, computed_usage d' w = computed_usage d w) as Hu.
  { intros w. apply total_ext. intros v V HV. unfold ready_bytes. destruct (_ === w), (Version.status V === version_ready) eqn:E; try done. cbn.
    apply bool_decide_eq_true in E. destruct (Hs v V HV ltac:(congruence)) as (z & Hz' & _). by rewrite Hz', (object_size_mono d d' V z Hsub Hz'). }
  constructor; try done.
  - intros v V HV Hp. destruct (ac_object v V HV Hp) as (o & X & Eo & HX). exists o, X. split; [done|]. by eapply lookup_weaken.
  - intros o X. cbn. rewrite lookup_insert. case_decide; [intros [= <-]; done|eauto].
  - intros w S HS. rewrite Hu. eauto.
Qed.

(** No upload in flight made this node. *)
Definition not_being_made (d : Db.t) (nodeId : string) : Prop :=
  ∀ u U, Db.uploads d !! u = Some U → live_upload U = true → Upload.newNode U = true → Upload.nodeId U ≠ nodeId.
Definition no_versions (d : Db.t) (nodeId : string) : Prop := ∀ v V, Db.versions d !! v = Some V → Version.nodeId V ≠ nodeId.

Lemma not_made_of_none d n : accounted d → no_versions d n → not_being_made d n.
Proof. intros [] Hn u U HU Hl _ E. destruct (ac_live u U HU Hl) as (V & HV & _ & _ & En & _). apply (Hn _ V HV). congruence. Qed.
Lemma not_made_of_current d n v : accounted d → current_of d n = Some v → not_being_made d n.
Proof. intros [] Hc u U HU Hl Hn E. destruct (ac_new u U HU Hl Hn) as [Hc' _]. congruence. Qed.
Lemma not_made_of_ready d n v V : accounted d → Db.versions d !! v = Some V → Version.nodeId V = n → Version.status V ≠ version_pending → not_being_made d n.
Proof.
  intros [] HV En Hp u U HU Hl Hn E. destruct (ac_live u U HU Hl) as (V' & HV' & Hp' & _). destruct (ac_new u U HU Hl Hn) as [_ Ho].
  rewrite <- (Ho v V HV) in HV' by congruence. congruence.
Qed.

Lemma add_version_new {d} {v} {V} : Db.versions d !! v = None → ∀ x X, <[v := V]> (Db.versions d) !! x = Some X →
  (x = v ∧ X = V) ∨ (x ≠ v ∧ Db.versions d !! x = Some X).
Proof. intros _ x X. rewrite lookup_insert. case_decide; [intros [= <-]; by left|right; split; congruence]. Qed.

(** A version ready from the start: its bytes counted with it. *)
Lemma add_ready_ok d v V N size : accounted d → Db.versions d !! v = None → Version.status V = version_ready → object_size d V = Some size →
  Db.nodes d !! Version.nodeId V = Some N → Node.workspaceId N = Version.workspaceId V → Node.purgedAt N = None → not_being_made d (Version.nodeId V) →
  accounted (adjusted (Version.workspaceId V) size 0 (set_versions d (<[v := V]> (Db.versions d)))).
Proof.
  intros [] Hv Hr Hz HN Hw Hp Hm. set (d' := adjusted _ _ _ _). pose proof (add_version_new (V:=V) Hv) as Hc.
  change (<[v:=V]> (Db.versions d)) with (Db.versions d') in Hc. assert (∀ x X, Db.versions d !! x = Some X → Db.versions d' !! x = Some X) as Hf
    by (intros x X HX; cbn; rewrite lookup_insert_ne; [done|congruence]).
  constructor; try done.
  - intros x X HX Hx. destruct (Hc x X HX) as [[-> ->]|[_ H]]; [|by eapply ac_object]. unfold object_size in Hz.
    destruct (Version.objectId V) as [o|]; [|done]. exists o. cbn in Hz. change (Db.objects d') with (Db.objects d). destruct (Db.objects d !! o) as [O|]; [eauto|done].
  - intros x X HX. destruct (Hc x X HX) as [[-> ->]|[_ H]]; [eauto|by eapply ac_node].
  - intros x X N' HX HN' [p Hp']. destruct (Hc x X HX) as [[-> ->]|[_ H]]; [|by eapply ac_gone]. cbn in HN'. congruence.
  - intros x X HX Hx. destruct (Hc x X HX) as [[-> ->]|[_ H]]; [congruence|by apply (ac_pending x X)].
  - intros u U HU. destruct (ac_version u U HU) as [X HX]. eauto.
  - intros u U HU Hl. destruct (ac_live u U HU Hl) as (X & HX & ?). eauto.
  - intros u U HU Hl Hn. destruct (ac_new u U HU Hl Hn) as [Hcur Ho]. split; [done|]. intros x X HX E. destruct (Hc x X HX) as [[-> ->]|[_ H]]; [|by eapply Ho].
    by destruct (Hm u U HU Hl Hn).
  - intros w S HS. destruct (adjusted_inv _ _ _ _ _ _ HS) as (S0 & HS0 & E & _). cbn in HS0. rewrite E, (ac_used w S0 HS0). unfold computed_usage.
    change (Db.versions d') with (<[v := V]> (Db.versions d)). rewrite total_new by done. change (ready_bytes d' w) with (ready_bytes d w).
    unfold ready_bytes at 2. rewrite Hr, Hz, (bool_decide_ext (w = Version.workspaceId V) (Version.workspaceId V = w)) by done. repeat case_bool_decide; try done; cbn; lia.
  - intros w S HS. destruct (adjusted_inv _ _ _ _ _ _ HS) as (S0 & HS0 & _ & E). cbn in HS0. rewrite E, (ac_reserved w S0 HS0).
    change (computed_reserved d' w) with (computed_reserved d w). case_bool_decide; lia.
Qed.

(** A pending version with the upload that will make it ready, and what it reserves. *)
Lemma add_pending_ok d v V u U N : accounted d → Db.versions d !! v = None → Db.uploads d !! u = None → Version.status V = version_pending →
  live_upload U = true → Upload.versionId U = v → Version.workspaceId V = Upload.workspaceId U → Version.nodeId V = Upload.nodeId U →
  Version.objectId V = Upload.objectId U → is_Some (object_size d V) → 0 ≤ Upload.reservedBytes U →
  Db.nodes d !! Version.nodeId V = Some N → Node.workspaceId N = Version.workspaceId V → not_being_made d (Upload.nodeId U) →
  (Upload.newNode U = true → Node.currentVersionId N = None ∧ no_versions d (Upload.nodeId U)) →
  accounted (set_uploads (set_versions (adjusted (Upload.workspaceId U) 0 (Upload.reservedBytes U) d) (<[v := V]> (Db.versions d))) (<[u := U]> (Db.uploads d))).
Proof.
  intros [] Hv Hu Hp Hl Ev Ew En Eo [z Hz] Hres HN HNw Hm Hnew. set (d' := set_uploads _ _). pose proof (add_version_new (V:=V) Hv) as Hc.
  change (<[v:=V]> (Db.versions d)) with (Db.versions d') in Hc. assert (∀ x X, Db.versions d !! x = Some X → Db.versions d' !! x = Some X) as Hf
    by (intros x X HX; cbn; rewrite lookup_insert_ne; [done|congruence]).
  assert (∀ x X, Db.uploads d' !! x = Some X → (x = u ∧ X = U) ∨ (x ≠ u ∧ Db.uploads d !! x = Some X ∧ Upload.versionId X ≠ v)) as Hd.
  { intros x X. cbn. rewrite lookup_insert. case_decide; [intros [= <-]; by left|right]. split_and!; [congruence|done|]. intros E. destruct (ac_version x X H0) as [Y HY]. congruence. }
  assert (Db.versions d' !! v = Some V) as HVv by apply lookup_insert_eq.
  constructor; try done.
  - intros x X HX Hx. destruct (Hc x X HX) as [[-> ->]|[_ H]]; [|by eapply ac_object]. unfold object_size in Hz.
    destruct (Version.objectId V) as [o|]; [|done]. exists o. cbn in Hz. change (Db.objects d') with (Db.objects d). destruct (Db.objects d !! o) as [O|]; [eauto|done].
  - intros x X HX. destruct (Hc x X HX) as [[-> ->]|[_ H]]; [eauto|by eapply ac_node].
  - intros x X N' HX HN' Hpu. destruct (Hc x X HX) as [[-> ->]|[_ H]]; [congruence|by eapply ac_gone].
  - intros x X HX Hx. destruct (Hc x X HX) as [[-> ->]|[_ H]]; [exists u, U; split; [apply lookup_insert_eq|done]|].
    destruct (ac_pending x X H Hx) as (y & Y & HY & ?). exists y, Y. split; [|done]. cbn. rewrite lookup_insert_ne; [done|congruence].
  - intros x X HX. destruct (Hd x X HX) as [[-> ->]|(_ & H & _)]; [rewrite Ev; eauto|]. destruct (ac_version x X H) as [Y HY]. eauto.
  - intros x y X Y HX HY E. destruct (Hd x X HX) as [[-> ->]|(_ & H1 & ?)], (Hd y Y HY) as [[-> ->]|(_ & H2 & ?)]; [done|congruence|congruence|by apply (ac_one x y X Y)].
  - intros x X HX Hlx. destruct (Hd x X HX) as [[-> ->]|(_ & H & _)]; [exists V; by rewrite Ev|]. destruct (ac_live x X H Hlx) as (Y & HY & ?). eauto.
  - intros x X HX Hlx. destruct (Hd x X HX) as [[-> ->]|(_ & H & _)]; [congruence|by apply (ac_done x X)].
  - intros x X HX Hlx Hnx. change (current_of d') with (current_of d). destruct (Hd x X HX) as [[-> ->]|(_ & H & _)].
    + destruct (Hnew Hnx) as [Hcur Hno]. split; [unfold current_of; by rewrite <- En, HN|]. intros y Y HY E. destruct (Hc y Y HY) as [[-> ->]|[_ HY']]; [done|].
      by destruct (Hno y Y HY').
    + destruct (ac_new x X H Hlx Hnx) as [Hcur Ho]. split; [done|]. intros y Y HY E. destruct (Hc y Y HY) as [[-> ->]|[_ HY']]; [|by eapply Ho].
      destruct (Hm x X H Hlx Hnx). congruence.
  - intros x X HX. destruct (Hd x X HX) as [[-> ->]|(_ & H & _)]; [done|by eapply ac_reserve].
  - intros w S HS. destruct (adjusted_inv _ _ _ _ _ _ HS) as (S0 & HS0 & E & _). rewrite E, (ac_used w S0 HS0). unfold computed_usage.
    change (Db.versions d') with (<[v := V]> (Db.versions d)). rewrite total_new by done. change (ready_bytes d' w) with (ready_bytes d w).
    rewrite ready_bytes_not by congruence. case_bool_decide; lia.
  - intros w S HS. destruct (adjusted_inv _ _ _ _ _ _ HS) as (S0 & HS0 & _ & E). rewrite E, (ac_reserved w S0 HS0). unfold computed_reserved.
    change (Db.uploads d') with (<[u := U]> (Db.uploads d)). rewrite total_new by done. unfold reserved_bytes at 2.
    rewrite (bool_decide_ext (w = Upload.workspaceId U) (Upload.workspaceId U = w)) by done. case_bool_decide; lia.
Qed.

(** An upload in flight taken to a node made for it, with its version. *)
Definition taken (u : string) (U : Upload.t) (id : string) (epoch : Z) (d : Db.t) : Db.t :=
  set_uploads (set_versions d (alter (λ v, at_node v id) (Upload.versionId U) (Db.versions d))) (<[u := upload_onto U id epoch None true]> (Db.uploads d)).
Lemma taken_ok d u U id epoch N : accounted d → Db.uploads d !! u = Some U → live_upload U = true → Db.nodes d !! id = Some N →
  Node.workspaceId N = Upload.workspaceId U → Node.currentVersionId N = None → no_versions d id → accounted (taken u U id epoch d).
Proof.
  intros Ha HU Hl HN Hw Hcur Hno. pose proof (not_made_of_none d id Ha Hno) as Hm. destruct Ha. set (d' := taken _ _ _ _ _).
  destruct (ac_live u U HU Hl) as (V & HV & Ep & Ew & En & Eo).
  assert (∀ x X, Db.versions d' !! x = Some X → (x = Upload.versionId U ∧ X = at_node V id) ∨ (x ≠ Upload.versionId U ∧ Db.versions d !! x = Some X)) as Hc.
  { intros x X [(-> & Y & HY & ->)|?]%alter_inv; [left|by right]. split; [done|]. congruence. }
  assert (∀ x X, Db.uploads d' !! x = Some X → (x = u ∧ X = upload_onto U id epoch None true) ∨ (x ≠ u ∧ Db.uploads d !! x = Some X ∧ Upload.versionId X ≠ Upload.versionId U)) as Hd.
  { intros x X. cbn. rewrite lookup_insert. case_decide; [intros [= <-]; by left|right]. split_and!; [congruence|done|]. intros E. by destruct H, (ac_one u x U X). }
  assert (Db.versions d' !! Upload.versionId U = Some (at_node V id)) as HVv by (cbn; by rewrite lookup_alter_eq, HV).
  assert (∀ x X, Db.versions d !! x = Some X → x ≠ Upload.versionId U → Db.versions d' !! x = Some X) as Hf by (intros x X HX Hne; cbn; by rewrite lookup_alter_ne).
  constructor; try done.
  - intros x X HX Hx. change (Db.objects d') with (Db.objects d). destruct (Hc x X HX) as [[-> ->]|[_ H]]; [by apply (ac_object _ V HV)|by eapply ac_object].
  - intros x X HX. change (Db.nodes d') with (Db.nodes d). destruct (Hc x X HX) as [[-> ->]|[_ H]]; [exists N; split; [done|cbn; congruence]|by eapply ac_node].
  - intros x X N' HX HN' Hpu. destruct (Hc x X HX) as [[-> ->]|[_ H]]; [cbn; congruence|by eapply ac_gone].
  - intros x X HX Hx. destruct (Hc x X HX) as [[-> ->]|[Hne H]]; [exists u, (upload_onto U id epoch None true); split; [apply lookup_insert_eq|done]|].
    destruct (ac_pending x X H Hx) as (y & Y & HY & Ey & ?). exists y, Y. split; [|done]. cbn. rewrite lookup_insert_ne; [done|]. intros ->. congruence.
  - intros x X HX. destruct (Hd x X HX) as [[-> ->]|(_ & H & Hne)]; [cbn [upload_onto Upload.versionId]; eauto|]. destruct (ac_version x X H) as [Y HY]. eauto.
  - intros x y X Y HX HY E. destruct (Hd x X HX) as [[-> ->]|(_ & H1 & ?)], (Hd y Y HY) as [[-> ->]|(_ & H2 & ?)]; [done|by cbn in E|by cbn in E|by apply (ac_one x y X Y)].
  - intros x X HX Hlx. destruct (Hd x X HX) as [[-> ->]|(_ & H & Hne)]; [by exists (at_node V id)|]. destruct (ac_live x X H Hlx) as (Y & HY & ?). eauto.
  - intros x X HX Hlx. destruct (Hd x X HX) as [[-> ->]|(_ & H & _)]; [by change (live_upload U = false) in Hlx; congruence|by apply (ac_done x X)].
  - intros x X HX Hlx Hnx. change (current_of d') with (current_of d). destruct (Hd x X HX) as [[-> ->]|(_ & H & _)].
    + cbn [upload_onto Upload.nodeId Upload.versionId]. split; [unfold current_of; by rewrite HN|]. intros y Y HY E. destruct (Hc y Y HY) as [[-> ->]|[_ HY']]; [done|].
      by destruct (Hno y Y HY').
    + destruct (ac_new x X H Hlx Hnx) as [Hcx Ho]. split; [done|]. intros y Y HY E. destruct (Hc y Y HY) as [[-> ->]|[_ HY']]; [|by eapply Ho].
      by destruct (Hm x X H Hlx Hnx).
  - intros x X HX. destruct (Hd x X HX) as [[-> ->]|(_ & H & _)]; [by apply (ac_reserve u U)|by eapply ac_reserve].
  - intros w S HS. rewrite (ac_used w S HS). unfold computed_usage. change (ready_bytes d' w) with (ready_bytes d w).
    change (Db.versions d') with (alter (λ v, at_node v id) (Upload.versionId U) (Db.versions d)). rewrite (total_alter _ _ _ V) by done.
    change (ready_bytes d w (at_node V id)) with (ready_bytes d w V). lia.
  - intros w S HS. rewrite (ac_reserved w S HS). unfold computed_reserved. change (Db.uploads d') with (<[u := upload_onto U id epoch None true]> (Db.uploads d)).
    rewrite (total_insert _ _ _ _ U) by done. change (reserved_bytes w (upload_onto U id epoch None true)) with (reserved_bytes w U). lia.
Qed.
