(* ===== verification/DriveBalance.v ===== *)
(** * The Drive server's accounts after every transaction (packages/db/src/drive.ts)

    Releases, purges, publishes and the transactions made of them keep
    [accounted], and the steps of a Drive server with it: what its storage
    rows say is what its versions and uploads hold. *)

From S2P Require Import Prelude DriveTables Pool DriveUploads DrivePurges DriveAccounting DriveAlike.

(** ** Versions purged: what goes and what stays *)

(** From [d] to [d'] some versions were purged, none of them outside [ids]. *)
Record shrinks (ids : list string) (d d' : Db.t) : Prop := {
  sr_nodes : Db.nodes d' = Db.nodes d;
  sr_versions : ∀ v V', Db.versions d' !! v = Some V' → ∃ V, Db.versions d !! v = Some V ∧ Version.nodeId V' = Version.nodeId V ∧
    Version.workspaceId V' = Version.workspaceId V ∧ (Version.status V' = Version.status V ∨ Version.status V' = version_purged);
  sr_frame : ∀ v V, Db.versions d !! v = Some V → Version.status V ≠ version_purged → v ∉ ids →
    Db.versions d' !! v = Some V ∧ object_size d' V = object_size d V;
}.
Lemma shrinks_refl ids d : shrinks ids d d.
Proof. split; eauto 10. Qed.
Lemma shrinks_trans ids d d1 d2 : shrinks ids d d1 → shrinks ids d1 d2 → shrinks ids d d2.
Proof.
  intros [E1 H1 F1] [E2 H2 F2]. split; [congruence|..].
  - intros v V2 HV2. destruct (H2 v V2 HV2) as (V1 & HV1 & ? & ? & S2), (H1 v V1 HV1) as (V & HV & ? & ? & S1). exists V.
    split_and!; [done|congruence|congruence|]. destruct S2 as [->|?]; [exact S1|by right].
  - intros v V HV Hp Hi. destruct (F1 v V HV Hp Hi) as [HV1 E]. destruct (F2 v V HV1 Hp Hi) as [HV2 E']. split; [done|congruence].
Qed.
Lemma shrinks_more ids ids' d d' : ids ⊆ ids' → shrinks ids d d' → shrinks ids' d d'.
Proof. intros Hs []. split; [done|done|]. intros v V HV Hp Hi. apply sr_frame0; [done|done|]. set_solver. Qed.

Lemma purge_row_shrinks v d : shrinks [v] d (purge_version_row v d).
Proof.
  split; [done|..].
  - intros x V' [(-> & V & HV & ->)|(_ & H)]%alter_inv; [exists V; split_and!; [done..|by right]|exists V'; auto].
  - intros x V HV Hp Hi. cbn. rewrite lookup_alter_ne; [done|]. set_solver.
Qed.
Lemma shrinks_same ids d d' : Db.nodes d' = Db.nodes d → Db.versions d' = Db.versions d → Db.objects d' = Db.objects d → shrinks ids d d'.
Proof. intros E1 E2 E3. split; [done|rewrite E2; eauto 10|]. intros v V HV _ _. split; [by rewrite E2|]. by apply object_size_same. Qed.
Lemma retire_shrinks ids o d : shrinks ids d (retire_option o d).
Proof.
  destruct o as [o|]; [|apply shrinks_refl]. cbn. unfold retireObjectIfUnreferenced. destruct (any _ _) eqn:E; [apply shrinks_refl|].
  destruct (Db.objects d !! o); [|apply shrinks_refl]. split; [done|..].
  - intros v V'. cbn. rewrite lookup_fmap. intros (V & HV & ->)%fmap_Some_1. exists V. case_bool_decide; auto 10.
  - intros v V HV Hp _. pose proof (proj1 (any_false _ _) E v V HV) as Hn. cbn in Hn. cbn. rewrite lookup_fmap, HV. cbn.
    assert (Version.objectId V ≠ Some o) as Hne. { intros Eo. rewrite bool_decide_eq_true_2 in Hn by done. cbn in Hn. apply negb_false_iff, bool_decide_eq_true in Hn. done. }
    rewrite bool_decide_eq_false_2 by done. split; [done|]. unfold object_size. destruct (Version.objectId V) as [x|]; [|done]. cbn. rewrite lookup_delete_ne; [done|congruence].
Qed.

(** ** An upload released *)

(** The rows a release writes before anything is dropped. *)
Definition released (id : string) (U : Upload.t) (d : Db.t) : Db.t :=
  retire_option (Upload.objectId U) (settle_rows id U version_purged 0 upload_aborted d).
Lemma release_rows id U d d' : releaseUpload id U upload_aborted d = Ok d' →
  (if Upload.newNode U
   then let d := drop_versions (λ e, Version.nodeId e.2 = Upload.nodeId U) (released id U d) in
        if bool_decide (is_Some (Db.nodes d !! Upload.nodeId U)) then delete_node (Upload.nodeId U) d else Ok d
   else Ok (released id U d)) = Ok d'.
Proof. unfold releaseUpload. intros H. apply bind_ok in H as (x & ->%adjust_ok & H). exact H. Qed.
Lemma released_ok id U d : accounted d → Db.uploads d !! id = Some U → live_upload U = true → accounted (released id U d).
Proof. intros Ha HU Hl. apply retire_ok. by apply settle_rows_ok. Qed.
Lemma released_shrinks id U d : shrinks [Upload.versionId U] d (released id U d).
Proof.
  eapply shrinks_trans; [|apply retire_shrinks]. eapply shrinks_trans; [apply purge_row_shrinks|]. by apply shrinks_same.
Qed.
(** ** The writes transactions are made of *)

(** A ready version purged, its bytes given back, its object retired. *)
Definition purged_ready (v : string) (V : Version.t) (size : Z) (d : Db.t) : Db.t :=
  retire_option (Version.objectId V) (adjusted (Version.workspaceId V) (- size) 0 (purge_version_row v d)).
(** One row of a node's purge. *)
Inductive row_purge (n : string) (d : Db.t) : Db.t → Prop :=
  | rp_release id U : Db.uploads d !! id = Some U → live_upload U = true → Upload.nodeId U = n → row_purge n d (released id U d)
  | rp_ready v V size : Db.versions d !! v = Some V → Version.nodeId V = n → Version.status V = version_ready → object_size d V = Some size →
      row_purge n d (purged_ready v V size d).
Definition tombstone (now : Z) (n : string) (seq : Z) (above : list string) (d : Db.t) : Db.t :=
  revoke_grants n (set_nodes d (alter (λ x, with_seq (with_purge x (Some now) (Some above)) (Some seq)) n (Db.nodes d))).
Definition none_ready (d : Db.t) (n : string) : Prop := ∀ v V, Db.versions d !! v = Some V → Version.nodeId V = n → Version.status V ≠ version_ready.

(** An object's id and key that the outbox does not name. *)
Definition fresh_key (d : Db.t) (objectId objectKey : string) : Prop :=
  Db.deletions d !! objectId = None ∧ ∀ x D, Db.deletions d !! x = Some D → Deletion.objectKey D ≠ objectKey.
(** The upload's row marked completed, its reservation given back, and the node's current version. *)
Definition mark (id n v : string) (seq : Z) (d : Db.t) : Db.t :=
  set_nodes (set_uploads d (alter (λ x, upload_as x upload_completed 0) id (Db.uploads d)))
    (alter (λ x, with_seq (with_current x (Some v)) (Some seq)) n (Db.nodes d)).
(** The rows a publish writes before it purges what it displaced. *)
Definition published (id : string) (U : Upload.t) (o : string) (size seq : Z) (d : Db.t) : Db.t :=
  mark id (Upload.nodeId U) (Upload.versionId U) seq
    (set_versions (set_object_status o object_ready (adjusted (Upload.workspaceId U) size (- Upload.reservedBytes U) d))
      (alter (λ v, with_status v version_ready) (Upload.versionId U) (Db.versions d))).
Definition make_current (n v : string) (seq : Z) (d : Db.t) : Db.t :=
  set_nodes d (alter (λ x, with_seq (with_current x (Some v)) (Some seq)) n (Db.nodes d)).
(** The rows begin inserts. *)
Definition pending_rows (v : string) (V : Version.t) (u : string) (U : Upload.t) (o : string) (O : Obj.t) (d : Db.t) : Db.t :=
  set_uploads (set_versions (set_objects (adjusted (Upload.workspaceId U) 0 (Upload.reservedBytes U) d) (<[o := O]> (Db.objects d)))
    (<[v := V]> (Db.versions d))) (<[u := U]> (Db.uploads d)).
Definition copied (v : string) (V : Version.t) (size : Z) (d : Db.t) : Db.t :=
  set_nodes (adjusted (Version.workspaceId V) size 0 (set_versions d (<[v := V]> (Db.versions d))))
    (alter (λ x, with_current x (Some v)) (Version.nodeId V) (Db.nodes d)).

(** Objects and outbox rows under the keys they had; what was pending still is, and nothing else. *)
Definition same_name (o x : Obj.t) : Prop := Obj.objectKey o = Obj.objectKey x ∧ (Obj.status o = object_pending ↔ Obj.status x = object_pending).
Definition same_deletion (D x : Deletion.t) : Prop := Deletion.objectKey D = Deletion.objectKey x.
Definition same_conflict (u x : Upload.t) : Prop :=
  Upload.objectKey u = Upload.objectKey x ∧ Upload.objectId u = Upload.objectId x ∧ (Upload.status u = upload_conflicted ↔ Upload.status x = upload_conflicted).
(** Rows that keep their names, and those that change nothing of objects and the outbox. *)
Record named_alike (d d' : Db.t) : Prop := {
  na_objects : map_Forall2 (λ _, same_name) (Db.objects d) (Db.objects d');
  na_deletions : map_Forall2 (λ _, same_deletion) (Db.deletions d) (Db.deletions d');
}.
Record unnamed (d d' : Db.t) : Prop := {
  un_objects : Db.objects d' = Db.objects d; un_deletions : Db.deletions d' = Db.deletions d;
  un_uploads : map_Forall2 (λ _, same_conflict) (Db.uploads d) (Db.uploads d');
}.
#[export] Instance same_conflict_eq : Equivalence same_conflict.
Proof. unfold same_conflict. split; [done|intros ?? (? & ? & ?); split_and!; [done|done|tauto]|intros ??? (? & ? & ?) (? & ? & ?); split_and!; [congruence|congruence|tauto]]. Qed.
#[export] Instance same_name_eq : Equivalence same_name.
Proof. unfold same_name. split; [done|intros ?? []; split; [done|tauto]|intros ??? [] []; split; [congruence|tauto]]. Qed.
#[export] Instance same_deletion_eq : Equivalence same_deletion.
Proof. unfold same_deletion. split; [done|by intros ??|intros ???; congruence]. Qed.
Lemma named_rows d d' : Db.objects d' = Db.objects d → Db.deletions d' = Db.deletions d → map_Forall2 (λ _, same_conflict) (Db.uploads d) (Db.uploads d') → unnamed d d'.
Proof. by split. Qed.
Lemma named_same d d' : Db.objects d' = Db.objects d → Db.deletions d' = Db.deletions d → Db.uploads d' = Db.uploads d → unnamed d d'.
Proof. intros Eo Ed Eu. split; [done|done|]. rewrite Eu. apply rows_refl. Qed.
Lemma unnamed_named d d' : unnamed d d' → named_alike d d'.
Proof. intros []. split; rewrite ?un_objects0, ?un_deletions0; apply rows_refl. Qed.

(** [told]: what the object store has said it holds, by object. *)
Inductive prim (told : string → Z → Prop) (d : Db.t) : Db.t → Prop :=
  | p_alike d' : alike d d' → unnamed d d' → prim told d d'
  | p_release id U : Db.uploads d !! id = Some U → live_upload U = true → prim told d (released id U d)
  | p_purge v V size : Db.versions d !! v = Some V → Version.status V = version_ready → object_size d V = Some size →
      current_of d (Version.nodeId V) ≠ Some v → prim told d (purged_ready v V size d)
  | p_gone now n seq above d1 : rtc (row_purge n) d d1 → none_ready d1 n → prim told d (tombstone now n seq above d1)
  | p_publish id U o size seq N : Db.uploads d !! id = Some U → live_upload U = true → Upload.objectId U = Some o → upload_size d U = Some size →
      Db.nodes d !! Upload.nodeId U = Some N → Node.purgedAt N = None →
      told o size ∨ Upload.status U = upload_conflicted → prim told d (published id U o size seq d)
  | p_conflict id U o size : Db.uploads d !! id = Some U → live_upload U = true → Upload.objectId U = Some o → upload_size d U = Some size → told o size →
      prim told d (set_uploads d (<[id := upload_as U upload_conflicted (Upload.reservedBytes U)]> (Db.uploads d)))
  | p_drop n d' : only_purged d (λ e, Version.nodeId e.2 = n) → only_done d n → delete_node n d = Ok d' → prim told d d'
  | p_drop_rows n : only_purged d (λ e, Version.nodeId e.2 = n) → prim told d (drop_versions (λ e, Version.nodeId e.2 = n) d)
  | p_node n N : Db.nodes d !! n = None → Node.currentVersionId N = None → prim told d (set_nodes d (<[n := N]> (Db.nodes d)))
  | p_pending v V u U o O N : Db.versions d !! v = None → Db.uploads d !! u = None → Db.objects d !! o = None → any (λ x, Obj.objectKey x === Obj.objectKey O) (Db.objects d) = false →
      fresh_key d o (Obj.objectKey O) → Obj.status O = object_pending → 0 ≤ Obj.ciphertextSize O → Version.status V = version_pending → live_upload U = true → Upload.versionId U = v →
      Version.workspaceId V = Upload.workspaceId U → Version.nodeId V = Upload.nodeId U → Version.objectId V = Some o → Upload.objectId U = Some o → Upload.objectKey U = Obj.objectKey O → Upload.status U ≠ upload_conflicted →
      (∀ z, ¬ told o z) → Obj.replicated O = false → 0 ≤ Upload.reservedBytes U → Db.nodes d !! Version.nodeId V = Some N → Node.workspaceId N = Version.workspaceId V → not_being_made d (Upload.nodeId U) →
      (Upload.newNode U = true → Node.currentVersionId N = None ∧ no_versions d (Upload.nodeId U)) → prim told d (pending_rows v V u U o O d)
  | p_copy v V o O N : Db.versions d !! v = None → Version.status V = version_ready → Version.objectId V = Some o → Db.objects d !! o = Some O →
      Obj.status O = object_ready → Db.nodes d !! Version.nodeId V = Some N → Node.workspaceId N = Version.workspaceId V → Node.purgedAt N = None →
      no_versions d (Version.nodeId V) → prim told d (copied v V (Obj.ciphertextSize O) d)
  | p_current n v V seq : Db.versions d !! v = Some V → Version.nodeId V = n → Version.status V = version_ready → prim told d (make_current n v seq d)
  | p_taken u U id epoch N : Db.uploads d !! u = Some U → live_upload U = true → Db.nodes d !! id = Some N → Node.workspaceId N = Upload.workspaceId U →
      Node.currentVersionId N = None → no_versions d id → prim told d (taken u U id epoch d).
Definition goes (told : string → Z → Prop) : Db.t → Db.t → Prop := rtc (prim told).

Lemma purged_ready_ok v V size d : accounted d → Db.versions d !! v = Some V → Version.status V = version_ready → object_size d V = Some size → accounted (purged_ready v V size d).
Proof. intros Ha HV Hr Hz. apply retire_ok. by apply purge_ready_ok. Qed.
Lemma row_purge_ok n d d' : accounted d → row_purge n d d' → accounted d'.
Proof. intros Ha [id U HU Hl _|v V size HV _ Hr Hz]; [by apply released_ok|by apply purged_ready_ok]. Qed.
Lemma row_purges_ok n d d' : accounted d → rtc (row_purge n) d d' → accounted d'.
Proof. intros Ha H. induction H as [|d d1 d' H1 _ IH]; [done|]. apply IH. by eapply row_purge_ok. Qed.
(** Nodes whose current version becomes one of theirs that is ready. *)
Lemma current_ok d n v V f : accounted d → Db.versions d !! v = Some V → Version.nodeId V = n → Version.status V = version_ready →
  (∀ x, Node.workspaceId (f x) = Node.workspaceId x ∧ Node.purgedAt (f x) = Node.purgedAt x) → accounted (set_nodes d (alter f n (Db.nodes d))).
Proof.
  intros Ha HV En Er Hf. apply accounted_nodes; [done|]. intros x X HX _. destruct (decide (x = n)) as [->|Hne].
  - eexists. split; [by rewrite lookup_alter_eq, HX|]. split; [apply Hf|]. split; [left; by rewrite <- (proj2 (Hf X))|right]. apply (not_made_of_ready d n v V Ha HV En). by rewrite Er.
  - exists X. split; [by rewrite lookup_alter_ne|]. tauto.
Qed.
Lemma tombstone_ok now n seq above d : accounted d → none_ready d n → accounted (tombstone now n seq above d).
Proof.
  intros Ha Hn. eapply alike_ok; [apply alike_grants|]. apply accounted_nodes; [done|]. intros x X HX _. destruct (decide (x = n)) as [->|Hne].
  - eexists. split; [by rewrite lookup_alter_eq, HX|]. split; [done|]. split; [intros _; by right|by left].
  - exists X. split; [by rewrite lookup_alter_ne|]. tauto.
Qed.
Lemma published_ok id U o size seq N d : accounted d → Db.uploads d !! id = Some U → live_upload U = true → upload_size d U = Some size →
  Db.nodes d !! Upload.nodeId U = Some N → Node.purgedAt N = None → accounted (published id U o size seq d).
Proof.
  intros Ha HU Hl Hz HN Hp. destruct (ac_live _ Ha id U HU Hl) as (V & HV & Ep & Ew & En & Eo).
  set (d2 := set_object_status o object_ready (settle_rows id U version_ready size upload_completed d)).
  assert (accounted d2) as Ha2.
  { eapply alike_ok; [apply alike_object_status|]. apply settle_rows_ok; [done..|]. split; [|congruence]. exists V. split; [done|].
    unfold upload_size in Hz. unfold object_size. by rewrite Eo. }
  apply (current_ok d2 (Upload.nodeId U) (Upload.versionId U) (with_status V version_ready)); [done| |done..]. cbn. by rewrite lookup_alter_eq, HV.
Qed.
Lemma pending_rows_ok v V u U o O N d : accounted d → Db.versions d !! v = None → Db.uploads d !! u = None → Db.objects d !! o = None →
  0 ≤ Obj.ciphertextSize O → Version.status V = version_pending → live_upload U = true → Upload.versionId U = v →
  Version.workspaceId V = Upload.workspaceId U → Version.nodeId V = Upload.nodeId U → Version.objectId V = Some o → Upload.objectId U = Some o → 0 ≤ Upload.reservedBytes U →
  Db.nodes d !! Version.nodeId V = Some N → Node.workspaceId N = Version.workspaceId V → not_being_made d (Upload.nodeId U) →
  (Upload.newNode U = true → Node.currentVersionId N = None ∧ no_versions d (Upload.nodeId U)) → accounted (pending_rows v V u U o O d).
Proof.
  intros Ha Hv Hu Ho Hz Hp Hl Ev Ew En EV EU Hr HN Hw Hm Hnew. assert (accounted (set_objects d (<[o := O]> (Db.objects d)))) as Ha1 by by apply new_object_ok.
  apply (add_pending_ok (set_objects d (<[o := O]> (Db.objects d))) v V u U N); try done; [congruence|]. unfold object_size. rewrite EV. cbn. by rewrite lookup_insert_eq.
Qed.
Lemma copied_ok v V o O N d : accounted d → Db.versions d !! v = None → Version.status V = version_ready → Version.objectId V = Some o → Db.objects d !! o = Some O →
  Db.nodes d !! Version.nodeId V = Some N → Node.workspaceId N = Version.workspaceId V → Node.purgedAt N = None → no_versions d (Version.nodeId V) →
  accounted (copied v V (Obj.ciphertextSize O) d).
Proof.
  intros Ha Hv Hr Eo HO HN Hw Hp Hno. assert (object_size d V = Some (Obj.ciphertextSize O)) as Hz by (unfold object_size; rewrite Eo; cbn; by rewrite HO).
  pose proof (add_ready_ok d v V N _ Ha Hv Hr Hz HN Hw Hp (not_made_of_none d _ Ha Hno)) as Ha1.
  by apply (current_ok _ (Version.nodeId V) v V _ Ha1 (lookup_insert_eq _ _ _)).
Qed.
Lemma conflict_step_ok id U d : accounted d → Db.uploads d !! id = Some U → live_upload U = true →
  accounted (set_uploads d (<[id := upload_as U upload_conflicted (Upload.reservedBytes U)]> (Db.uploads d))).
Proof. intros Ha HU Hl. eapply alike_ok; [|exact Ha]. eapply alike_upload; [done|]. by split. Qed.
Lemma prim_ok told d d' : accounted d → prim told d d' → accounted d'.
Proof.
  intros Ha []; eauto using alike_ok, released_ok, purged_ready_ok, published_ok, delete_node_ok, drop_versions_ok, new_node_ok, pending_rows_ok, copied_ok, taken_ok, conflict_step_ok.
  - apply tombstone_ok; [by eapply row_purges_ok|done].
  - by eapply current_ok.
Qed.
Lemma goes_ok told d d' : accounted d → goes told d d' → accounted d'.
Proof. intros Ha H. induction H as [|d d1 d' H1 _ IH]; [done|]. apply IH. by eapply prim_ok. Qed.

(** Steps before [d], then what [d] goes to. *)
Lemma goes_alike told d d1 d' : alike d d1 → unnamed d d1 → goes told d1 d' → goes told d d'.
Proof. intros Ha Hn H. eapply rtc_l; [by apply p_alike|done]. Qed.
Lemma goes_then_alike told d d1 d' : goes told d d1 → alike d1 d' → unnamed d1 d' → goes told d d'.
Proof. intros H Ha Hn. eapply rtc_r; [done|by apply p_alike]. Qed.
Lemma goes_one told d d' : prim told d d' → goes told d d'.
Proof. apply rtc_once. Qed.

(** ** An upload released, a node left *)

Lemma dropped_no_versions d n : no_versions (drop_versions (λ e, Version.nodeId e.2 = n) d) n.
Proof. intros v V HV E. cbn in HV. rewrite map_lookup_filter_Some in HV. by destruct HV as [_ []]. Qed.
Lemma no_versions_done d n : accounted d → no_versions d n → only_done d n.
Proof.
  intros Ha Hno u U HU E. apply not_true_is_false. intros Hl. destruct (ac_live _ Ha u U HU Hl) as (V & HV & _ & _ & En & _). by apply (Hno _ V HV); rewrite En.
Qed.
Lemma drop_node_goes told n d d' : accounted d → only_purged d (λ e, Version.nodeId e.2 = n) →
  delete_node n (drop_versions (λ e, Version.nodeId e.2 = n) d) = Ok d' → goes told d d'.
Proof.
  intros Ha Hp H. pose proof (dropped_no_versions d n) as Hno. assert (accounted (drop_versions (λ e, Version.nodeId e.2 = n) d)) as H1 by by apply drop_versions_ok.
  eapply rtc_l; [by apply p_drop_rows|]. apply rtc_once. apply (p_drop _ _ n d'); [|by apply no_versions_done|done]. intros v V HV E. by destruct (Hno v V HV).
Qed.
Lemma release_goes told id U d d' : accounted d → Db.uploads d !! id = Some U → live_upload U = true → releaseUpload id U upload_aborted d = Ok d' → goes told d d'.
Proof.
  intros Ha HU Hl H%release_rows. pose proof (released_ok id U d Ha HU Hl) as Hr. eapply rtc_l; [by apply (p_release _ d id U)|].
  destruct (Upload.newNode U) eqn:En; [|injection H as <-; apply rtc_refl].
  assert (only_purged (released id U d) (λ e, Version.nodeId e.2 = Upload.nodeId U)) as Hp.
  { intros v V HV E. cbn in E. pose proof (released_shrinks id U d) as Hs. destruct (sr_versions _ _ _ Hs v V HV) as (V0 & HV0 & E0 & _ & Hst).
    destruct (ac_new _ Ha id U HU Hl En) as [_ Ho]. pose proof (Ho v V0 HV0 ltac:(congruence)) as ->.
    assert (∃ X, Db.versions (settle_rows id U version_purged 0 upload_aborted d) !! Upload.versionId U = Some X ∧ Version.status X = version_purged) as (X & HX & Ex).
    { cbn. rewrite lookup_alter_eq, HV0. cbn. eauto. }
    pose proof (retire_shrinks [] (Upload.objectId U) (settle_rows id U version_purged 0 upload_aborted d)) as Hr'.
    destruct (sr_versions _ _ _ Hr' _ V HV) as (X' & HX' & _ & _ & [E1|E1]); [congruence|done]. }
  cbn zeta in H. case_bool_decide; [by apply drop_node_goes with (Upload.nodeId U)|]. injection H as <-. apply goes_one. by apply p_drop_rows.
Qed.
Lemma release_kept_rows id U d d' : releaseUpload id (keep_node U) upload_aborted d = Ok d' → d' = released id U d.
Proof. intros H%release_rows. cbn in H. by injection H as <-. Qed.

(** ** Purges *)

(** What a purge read of a version, still as it is: or it had nothing to purge. *)
Definition as_read (d : Db.t) (row : string * Version.t * option Z) : Prop :=
  Version.status row.1.2 = version_purged ∨ (Db.versions d !! row.1.1 = Some row.1.2 ∧ row.2 = object_size d row.1.2).
(** Purged, or nothing to purge of it now: its bytes are still arriving. *)
Definition not_ready (d : Db.t) (v : string) : Prop := ∀ V, Db.versions d !! v = Some V → Version.status V ≠ version_ready.
Lemma not_ready_shrinks ids d d' v : shrinks ids d d' → not_ready d v → not_ready d' v.
Proof. intros [] Hn V HV. destruct (sr_versions0 v V HV) as (V0 & HV0 & _ & _ & [->| ->]); [by apply (Hn V0)|done]. Qed.

Lemma the_upload d v V : accounted d → Db.versions d !! v = Some V → Version.status V = version_pending →
  ∃ u U, upload_of_version d v = Some (u, U) ∧ Db.uploads d !! u = Some U ∧ Upload.versionId U = v ∧ live_upload U = true.
Proof.
  intros [] HV Hp. destruct (ac_pending v V HV Hp) as (u & U & HU & E & Hl). exists u, U. split_and!; try done. unfold upload_of_version.
  assert (∀ e, e ∈ List.filter (λ e, Upload.versionId e.2 === v) (map_to_list (Db.uploads d)) → e = (u, U)) as H1.
  { intros [x X] Hin. apply list_elem_of_In, List.filter_In in Hin as [Hin Hv]. apply list_elem_of_In, elem_of_map_to_list in Hin. apply bool_decide_eq_true in Hv. cbn in Hv.
    assert (x = u) as -> by (apply (ac_one x u X U); congruence). congruence. }
  destruct (List.filter _ _) as [|e l] eqn:El; [|cbn; f_equal; apply H1; by left]. exfalso.
  assert ((u, U) ∈ []) as Hin; [|by apply elem_of_nil in Hin]. rewrite <- El. apply list_elem_of_In, List.filter_In.
  split; [by apply list_elem_of_In, elem_of_map_to_list|]. by apply bool_decide_eq_true.
Qed.
Lemma purge_row_is v V size w d d' : Version.status V = version_ready → purge_row w v V (Some size) d = Ok d' → w = Version.workspaceId V → d' = purged_ready v V size d.
Proof. intros Hr H ->. unfold purge_row in H. rewrite Hr in H. apply bind_ok in H as (x & ->%adjust_ok & H). by injection H as <-. Qed.
Lemma purged_ready_shrinks v V size d : shrinks [v] d (purged_ready v V size d).
Proof.
  eapply shrinks_trans; [|apply retire_shrinks]. eapply shrinks_trans; [apply purge_row_shrinks|by apply shrinks_same].
Qed.
Lemma purged_ready_not v V size d : Db.versions d !! v = Some V → not_ready (purged_ready v V size d) v.
Proof.
  intros HV. eapply not_ready_shrinks; [apply (retire_shrinks [])|]. intros X HX. cbn in HX. rewrite lookup_alter_eq, HV in HX. by injection HX as <-.
Qed.
(** A version purged as it was read: one row of its node's purge at most. *)
Lemma purgeVersion_goes d v V size w d' : accounted d → as_read d (v, V, size) → w = Version.workspaceId V → purgeVersion w v V size d = Ok d' →
  rtc (row_purge (Version.nodeId V)) d d' ∧ shrinks [v] d d' ∧ (Version.status V ≠ version_purged → not_ready d' v).
Proof.
  intros Ha [Hp|[HV Hz]] Hw H; cbn in *; unfold purgeVersion in H; [rewrite Hp in H; injection H as <-; split_and!; [apply rtc_refl|apply shrinks_refl|done]|].
  destruct (Version.status V) eqn:Es.
  - destruct (the_upload d v V Ha HV Es) as (u & U & Eu & HU & Ev & Hl). rewrite Eu in H. assert (not_ready d v) as Hn by (intros X HX; congruence).
    assert (d' = d ∨ d' = released u U d) as [->| ->].
    { unfold live_upload in Hl. destruct (Upload.status U); try done; [right|left|right]; [by apply release_kept_rows|by injection H|by apply release_kept_rows]. }
    + split_and!; [apply rtc_refl|apply shrinks_refl|done].
    + pose proof (released_shrinks u U d) as Hs. rewrite Ev in Hs. split_and!; [|done|by intros _; apply (not_ready_shrinks _ _ _ _ Hs)].
      destruct (ac_live _ Ha u U HU Hl) as (V' & HV' & _ & _ & En & _). apply rtc_once, rp_release; [done|done|]. congruence.
  - destruct (version_has_size d v V Ha HV ltac:(congruence)) as (z & Ez & _). rewrite Hz, Ez in H. apply (purge_row_is v V z w d d' Es) in H as ->; [|done].
    split_and!; [by apply rtc_once, rp_ready|apply purged_ready_shrinks|by intros _; apply purged_ready_not].
  - injection H as <-. split_and!; [apply rtc_refl|apply shrinks_refl|done].
Qed.
Lemma as_read_shrinks ids d d' row : shrinks ids d d' → row.1.1 ∉ ids → as_read d row → as_read d' row.
Proof.
  intros [] Hi [Hp|[HV Hz]]; [by left|]. destruct (decide (Version.status row.1.2 = version_purged)) as [|Hp]; [by left|].
  destruct (sr_frame0 _ _ HV Hp Hi) as [HV' E]. right. split; [done|congruence].
Qed.
Lemma later_as_read {R} (k : R → string) rows v d d1 r row : shrinks [v] d d1 → v ∉ map k rows → r ∈ rows → k r = row.1.1 → as_read d row → as_read d1 row.
Proof.
  intros Hs Hni Hin E. apply (as_read_shrinks _ _ _ _ Hs). intros Ev. apply list_elem_of_singleton in Ev. apply Hni. apply list_elem_of_In, in_map_iff.
  exists r. split; [congruence|by apply list_elem_of_In].
Qed.
Definition rows_of (d : Db.t) (w n : string) (rows : list (string * Version.t * option Z)) : Prop :=
  ∀ r, r ∈ rows → as_read d r ∧ Version.workspaceId r.1.2 = w ∧ Version.nodeId r.1.2 = n.
Lemma purge_each_goes rows w n : ∀ d d', accounted d → NoDup (map (λ r, r.1.1) rows) → rows_of d w n rows → purge_each w rows d = Ok d' →
  rtc (row_purge n) d d' ∧ shrinks (map (λ r, r.1.1) rows) d d' ∧ (∀ r, r ∈ rows → Version.status r.1.2 ≠ version_purged → not_ready d' r.1.1).
Proof.
  induction rows as [|[[v V] size] rows IH]; intros d d' Ha Hnd Hr H; cbn [purge_each] in H.
  { injection H as <-. split_and!; [apply rtc_refl|apply shrinks_refl|]. intros r Hin. by apply elem_of_nil in Hin. }
  apply bind_ok in H as (d1 & H1 & H). apply NoDup_cons in Hnd as [Hni Hnd]. destruct (Hr (v, V, size) ltac:(left)) as (Hv & Hw & En). cbn in Hw, En.
  destruct (purgeVersion_goes d v V size w d1 Ha Hv (eq_sym Hw) H1) as (Hg1 & Hs1 & Hn1). rewrite En in Hg1.
  destruct (IH d1 d' (row_purges_ok n d d1 Ha Hg1) Hnd) as (Hg & Hs & Hn); [|exact H|].
  { intros r Hin. destruct (Hr r ltac:(by right)) as [Hx ?]. split; [|done]. by apply (later_as_read _ _ _ _ _ _ _ Hs1 Hni Hin). }
  split_and!; [by etrans| |].
  - eapply shrinks_trans; (eapply shrinks_more; [|eassumption]); set_solver.
  - intros r [->|Hin]%elem_of_cons Hp; [apply (not_ready_shrinks _ _ _ _ Hs); by apply Hn1|by apply Hn].
Qed.
Lemma versions_of_rows d n r : r ∈ versions_of d n ↔ ∃ v V, r = (v, V, object_size d V) ∧ Db.versions d !! v = Some V ∧ Version.nodeId V = n.
Proof.
  unfold versions_of. rewrite list_elem_of_In, in_map_iff. split.
  - intros ([v V] & <- & H). apply List.filter_In in H as [H E]. apply list_elem_of_In, elem_of_map_to_list in H. apply bool_decide_eq_true in E. cbn in *. eauto.
  - intros (v & V & -> & H & E). exists (v, V). split; [done|]. apply List.filter_In. split; [by apply list_elem_of_In, elem_of_map_to_list|by apply bool_decide_eq_true].
Qed.
Lemma versions_of_NoDup d n : NoDup (map (λ r, r.1.1) (versions_of d n)).
Proof.
  unfold versions_of. rewrite map_map. cbn. pose proof (NoDup_fst_map_to_list (Db.versions d)) as H. revert H. change (fst <$> ?l) with (map (fst (B:=Version.t)) l).
  generalize (map_to_list (Db.versions d)). intros l. induction l as [|[v V] l IH]; cbn [map List.filter]; [intros; constructor|]. intros [Hn Hl]%NoDup_cons.
  destruct (Version.nodeId (v, V).2 === n); [|by apply IH]. cbn. apply NoDup_cons. split; [|by apply IH]. contradict Hn.
  apply list_elem_of_In, in_map_iff in Hn as (e & <- & Hin). apply List.filter_In in Hin as [Hin _]. apply list_elem_of_In, (in_map fst l e Hin).
Qed.
Lemma versions_of_are d w n N : accounted d → Db.nodes d !! n = Some N → Node.workspaceId N = w → rows_of d w n (versions_of d n).
Proof.
  intros Ha HN Hw r (v & V & -> & HV & E)%versions_of_rows. split_and!; [by right| |done]. cbn. destruct (ac_node _ Ha v V HV) as (N' & HN' & <-). congruence.
Qed.
Lemma purgeOne_goes told now w n seq anc d d' b : accounted d → purgeOne now w n seq anc d = Ok (d', b) → goes told d d'.
Proof.
  intros Ha H. unfold purgeOne in H. destruct (Db.nodes d !! n) as [N|] eqn:HN; [|injection H as <- _; apply rtc_refl].
  destruct (_ || _) eqn:Eg; [injection H as <- _; apply rtc_refl|]. apply orb_false_iff in Eg as [Ew _]. apply negb_false_iff, bool_decide_eq_true in Ew.
  apply bind_ok in H as (d1 & H1 & H). injection H as <- _.
  destruct (purge_each_goes _ w n d d1 Ha (versions_of_NoDup d n) (versions_of_are d w n N Ha HN Ew) H1) as (Hg & Hs & Hn).
  apply goes_one, p_gone; [done|]. intros v V HV E. destruct (sr_versions _ _ _ Hs v V HV) as (V0 & HV0 & E0 & _ & [Es|Es]); [|by rewrite Es].
  destruct (decide (Version.status V0 = version_purged)) as [Hp|Hp]; [congruence|]. apply (Hn (v, V0, object_size d V0)); [|done|done].
  apply versions_of_rows. exists v, V0. split_and!; [done|done|congruence].
Qed.

(** ** Publishes *)

Lemma adjustStorage_mark id n v seq w a b d : adjustStorage w a b (mark id n v seq d) = (let* x := adjustStorage w a b d in Ok (mark id n v seq x)).
Proof. unfold adjustStorage. cbn. destruct (Db.storage d !! w); [|done]. by destruct (_ || _). Qed.
Lemma retire_mark id n v seq o d : retire_option o (mark id n v seq d) = mark id n v seq (retire_option o d).
Proof.
  destruct o as [o|]; [|done]. cbn. unfold retireObjectIfUnreferenced. cbn. destruct (any _ _); [done|]. destruct (Db.objects d !! o); [|done].
  unfold delete_object, mark. cbn. unfold set_deletions, set_uploads, set_nodes. cbn. f_equal. apply map_eq. intros i. rewrite lookup_fmap.
  destruct (decide (i = id)) as [->|Hne]; [rewrite !lookup_alter_eq, lookup_fmap|rewrite !lookup_alter_ne, lookup_fmap by done; done].
  destruct (Db.uploads d !! id) as [U|]; [|done]. cbn. f_equal. by destruct (_ === _).
Qed.
Lemma purge_older_mark id n v seq w older : ∀ d, purge_older w older (mark id n v seq d) = (let* x := purge_older w older d in Ok (mark id n v seq x)).
Proof.
  induction older as [|[[x X] size] older IH]; intros d; [done|]. cbn [purge_older]. change (purge_version_row x (mark id n v seq d)) with (mark id n v seq (purge_version_row x d)).
  rewrite adjustStorage_mark. destruct (adjustStorage _ _ _ (purge_version_row x d)) as [y|]; [|done]. cbn. rewrite retire_mark. apply IH.
Qed.
Lemma displace_mark id n v seq now w m x y d : displace now w m x y (mark id n v seq d) = (let* z := displace now w m x y d in Ok (mark id n v seq z)).
Proof.
  unfold displace. change (older_versions (mark id n v seq d) m x y) with (older_versions d m x y). rewrite purge_older_mark. by destruct (purge_older _ _ _).
Qed.

Lemma older_rows d n x v r : r ∈ older_versions d n x v → Db.versions d !! r.1.1 = Some r.1.2 ∧ Version.nodeId r.1.2 = n ∧
  Version.status r.1.2 = version_ready ∧ object_size d r.1.2 = Some r.2 ∧ r.1.1 ≠ x ∧ r.1.1 ≠ v.
Proof.
  unfold older_versions. rewrite list_elem_of_omap. intros ([y Y] & Hin & E). apply list_elem_of_In, List.filter_In in Hin as [Hin Hb].
  apply list_elem_of_In, elem_of_map_to_list in Hin. cbn in *. bool_simpl. destruct (object_size d Y) as [z|] eqn:Ez; [|done]. injection E as <-. done.
Qed.
Lemma older_NoDup d n x v : NoDup (map (λ r, r.1.1) (older_versions d n x v)).
Proof.
  pose proof (NoDup_fst_map_to_list (Db.versions d)) as H. revert H. unfold older_versions. generalize (map_to_list (Db.versions d)). intros l.
  induction l as [|[y Y] l IH]; cbn [map List.filter fmap list_fmap]; [intros; constructor|]. intros [Hn Hl]%NoDup_cons. specialize (IH Hl).
  destruct (_ && _); [|done]. cbn [omap list_omap snd]. destruct (object_size d Y); [|done]. cbn. apply NoDup_cons. split; [|done]. contradict Hn.
  apply list_elem_of_In, in_map_iff in Hn as (e & <- & Hin). apply list_elem_of_In, list_elem_of_omap in Hin as ([a A] & Hin & E).
  apply list_elem_of_In, List.filter_In in Hin as [Hin _]. cbn in E. destruct (object_size d A); [|done]. injection E as <-. apply list_elem_of_In, (in_map fst l (a, A) Hin).
Qed.
Lemma shrinks_current ids d d' n : shrinks ids d d' → current_of d' n = current_of d n.
Proof. intros []. unfold current_of. by rewrite sr_nodes0. Qed.
(** Older versions of a node purged, none of them its current one. *)
Lemma purge_older_goes told older w n : ∀ d d', accounted d → NoDup (map (λ r, r.1.1) older) →
  rows_of d w n (map (λ r, (r.1, Some r.2)) older) → (∀ r, r ∈ older → Version.status r.1.2 = version_ready ∧ current_of d n ≠ Some r.1.1) →
  purge_older w older d = Ok d' → goes told d d' ∧ shrinks (map (λ r, r.1.1) older) d d'.
Proof.
  induction older as [|[[v V] size] older IH]; intros d d' Ha Hnd Hrow Hr H; cbn [purge_older] in H; [injection H as <-; split; [apply rtc_refl|apply shrinks_refl]|].
  destruct (Hr (v, V, size) ltac:(left)) as [Hs Hc]. cbn [map] in Hrow. destruct (Hrow (v, V, Some size) ltac:(left)) as ([Hx|[HV Hz]] & Hw & En); cbn in *; [congruence|].
  apply bind_ok in H as (x & Hadj & H).
  assert (purge_row w v V (Some size) d = Ok (retire_option (Version.objectId V) x)) as H1 by (unfold purge_row; by rewrite Hs, Hadj).
  apply (purge_row_is v V size w d _ Hs) in H1; [|done]. rewrite H1 in H. clear H1 Hadj x. pose proof (purged_ready_shrinks v V size d) as Hs1.
  apply NoDup_cons in Hnd as [Hni Hnd]. destruct (IH _ d' (purged_ready_ok v V size d Ha HV Hs (eq_sym Hz)) Hnd) as [Hg' Hs']; [..|exact H|].
  - intros r' Hin. destruct (Hrow r' ltac:(by right)) as [Hx ?]. split; [|done]. apply list_elem_of_In, in_map_iff in Hin as (r & <- & Hin). apply list_elem_of_In in Hin.
    by apply (later_as_read _ _ _ _ _ _ _ Hs1 Hni Hin).
  - intros r Hin. rewrite (shrinks_current _ _ _ _ Hs1). apply Hr. by right.
  - split; [|eapply shrinks_trans; (eapply shrinks_more; [|eassumption]); set_solver]. eapply rtc_l; [|exact Hg']. apply p_purge; [done|done|done|by rewrite En].
Qed.
(** What a publish displaces: superseded, and the versions before it purged. *)
Lemma displace_goes told now w n x v V d d' : accounted d → Db.versions d !! v = Some V → Version.nodeId V = n → Version.workspaceId V = w →
  current_of d n = Some v → displace now w n x v d = Ok d' → goes told d d'.
Proof.
  intros Ha HV En Ew Hc H. unfold displace in H. apply bind_ok in H as (d1 & H1 & H). injection H as <-.
  destruct (purge_older_goes told _ w n d d1 Ha (older_NoDup d n x v)) as [Hg Hs]; [| |exact H1|].
  - intros r' Hin. apply list_elem_of_In, in_map_iff in Hin as (r & <- & Hin). apply list_elem_of_In in Hin. destruct (older_rows _ _ _ _ _ Hin) as (HR & En' & Es & Ez & _).
    split_and!; [by right| |done]. cbn. destruct (ac_node _ Ha _ _ HR) as (N & HN & E1), (ac_node _ Ha v V HV) as (N' & HN' & E2). congruence.
  - intros r Hin. destruct (older_rows _ _ _ _ _ Hin) as (_ & _ & Es & _ & _ & Hne). split; [done|congruence].
  - eapply goes_then_alike; [exact Hg|apply alike_superseded|by apply named_same].
Qed.
Lemma published_rows id U o size seq d V : Db.versions d !! Upload.versionId U = Some V →
  Db.versions (published id U o size seq d) !! Upload.versionId U = Some (with_status V version_ready).
Proof. intros HV. cbn. by rewrite lookup_alter_eq, HV. Qed.
Lemma published_current id U o size seq d N : Db.nodes d !! Upload.nodeId U = Some N → current_of (published id U o size seq d) (Upload.nodeId U) = Some (Upload.versionId U).
Proof. intros HN. unfold current_of. cbn. by rewrite lookup_alter_eq, HN. Qed.
Lemma publishUpload_goes told now id U o size anc displaced seq N d d' : accounted d → Db.uploads d !! id = Some U → live_upload U = true → Upload.objectId U = Some o →
  upload_size d U = Some size → Db.nodes d !! Upload.nodeId U = Some N → Node.purgedAt N = None → told o size ∨ Upload.status U = upload_conflicted →
  publishUpload now id U o size anc displaced seq d = Ok d' → goes told d d'.
Proof.
  intros Ha HU Hl Eo Hz HN Hp Ht H. pose proof (published_ok id U o size seq N d Ha HU Hl Hz HN Hp) as Ha2.
  unfold publishUpload in H. apply bind_ok in H as (d1 & ->%adjust_ok & H). apply bind_ok in H as (d4 & H4 & H). injection H as <-.
  assert (goes told d (mark id (Upload.nodeId U) (Upload.versionId U) seq d4)) as Hg.
  { eapply rtc_l; [by apply (p_publish _ d id U o size seq N)|]. destruct displaced as [x|]; [|injection H4 as <-; apply rtc_refl].
    destruct (ac_live _ Ha id U HU Hl) as (V & HV & _ & Ew & En & _).
    apply (displace_goes told now (Upload.workspaceId U) (Upload.nodeId U) x (Upload.versionId U) (with_status V version_ready)); [done|by apply published_rows|done|done|by eapply published_current|].
    unfold published. rewrite displace_mark. cbn [set_object_status set_objects Db.versions adjusted set_storage] in H4 |- *. by rewrite H4. }
  destruct (Upload.newNode U); [|exact Hg]. apply (goes_then_alike _ _ _ _ Hg (alike_raise _ _ _)). by apply named_same.
Qed.
Lemma settle_move_goes told now id move seq d d' : accounted d → settle_move now id move seq d = Ok d' → goes told d d'.
Proof.
  intros Ha H. destruct move as [m|]; [|injection H as <-; apply rtc_refl]. destruct seq as [s|]; [|injection H as <-; apply rtc_refl]. cbn in H. unfold settleMove in H.
  apply bind_ok in H as ([x b] & H1 & H). injection H as <-. eapply goes_then_alike; [by eapply purgeOne_goes|apply alike_settled|]. apply named_rows; [done|done|by apply rows_alter].
Qed.
