(* ===== verification/DriveReached.v ===== *)
(** * What a Drive server's storage says, after any of its transactions (packages/db/src/drive.ts)

    The steps of a Drive server: each transaction of [DriveUploads] and
    [DrivePurges] as it commits, and what else moves the rows they read. From
    tables that account for themselves every step leads to such tables
    ([accounted]): the nightly check ([auditUsage]) finds nothing. *)

From S2P Require Import Prelude DriveTables Pool DriveUploads DrivePurges DriveAccounting DriveAlike DriveBalance.

(** ** Walks *)

Lemma chainWalk_head id N above w : chainWalk ((id, N) :: above) = Some w →
  Walk.id w = id ∧ Walk.node w = N ∧ Walk.purged w = (is_purged (id, N) || existsb is_purged above).
Proof.
  unfold chainWalk. destruct (last ((id, N) :: above)) as [[r top]|]; [|done]. destruct (Node.parentId top); [done|]. by intros [= <-].
Qed.
Lemma walk_spec d n w : walk d n = Some w → Walk.id w = n ∧ Db.nodes d !! n = Some (Walk.node w) ∧ (Walk.purged w = false → Node.purgedAt (Walk.node w) = None).
Proof.
  unfold walk. change WALK_CAP with (S 127). cbn [chain_rows]. destruct (Db.nodes d !! n) as [N|]; [|done]. intros (E1 & E2 & E3)%chainWalk_head. rewrite E2.
  split_and!; [done|done|]. rewrite E3. intros [Hp _]%orb_false_iff. unfold is_purged in Hp. apply bool_decide_eq_false in Hp. by apply eq_None_not_Some.
Qed.
Lemma walked_spec d w n k c : walked d w n k = Some c → Walk.id c = n ∧ Db.nodes d !! n = Some (Walk.node c) ∧ Node.workspaceId (Walk.node c) = w ∧
  Node.purgedAt (Walk.node c) = None ∧ Node.kind (Walk.node c) = k.
Proof.
  unfold walked. destruct (walk d n) as [c'|] eqn:Ew; [|done]. destruct (_ && _) eqn:E; [|done]. intros [= ->]. apply andb_true_iff in E as [[E1 E2]%andb_true_iff E3].
  apply bool_decide_eq_true in E1, E3. apply negb_true_iff in E2. destruct (walk_spec _ _ _ Ew) as (H1 & H2 & H3). split_and!; auto.
Qed.
Lemma next_is now w writer d d' seq : nextChangeSeq now w writer d = Ok (d', seq) → ∃ v, d' = set_workspaces d v.
Proof. unfold nextChangeSeq. destruct (Db.workspaces d !! w) as [x|]; [|done]. intros H. res_inv. eauto. Qed.

(** ** Each transaction keeps the accounts *)

Section transactions.
Context `{SB : SignedBy}.

Lemma new_node_no_versions d id : accounted d → Db.nodes d !! id = None → no_versions d id.
Proof. intros [] Hid v V HV E. destruct (ac_node v V HV) as (N & HN & _). congruence. Qed.

(** Begin on a file another upload in flight is making, an object id or key the outbox still names, and a
    negative size, are not its clients': [beginUpload] checks none of them, its caller only the size. *)
Definition begin_fits (d : Db.t) (i : UploadBegin.t) : Prop :=
  0 ≤ UploadBegin.ciphertextSize i ∧ fresh_key d (UploadBegin.objectId i) (UploadBegin.objectKey i) ∧ match UploadBegin.node i with existing_file id _ _ => not_being_made d id | _ => True end.
Lemma reserve_nonneg now d s m size : 0 ≤ size → 0 ≤ reserve_for now d s m size.
Proof. intros H. unfold reserve_for. repeat case_match; lia. Qed.
Lemma insert_object_is id O d d' : insert_object id O d = Some d' → Db.objects d !! id = None ∧ any (λ x, Obj.objectKey x === Obj.objectKey O) (Db.objects d) = false ∧ d' = set_objects d (<[id := O]> (Db.objects d)).
Proof. unfold insert_object. destruct (_ || _) eqn:E; [done|]. intros [= <-]. apply orb_false_iff in E as [E Hk]. apply bool_decide_eq_false, eq_None_not_Some in E. done. Qed.
Lemma insert_version_is id V d d' : insert_version id V d = Some d' → Db.versions d !! id = None ∧ d' = set_versions d (<[id := V]> (Db.versions d)).
Proof. unfold insert_version. destruct (Db.versions d !! id); [done|]. by intros [= <-]. Qed.
Lemma insert_upload_is id U d d' : insert_upload id U d = Some d' → Db.uploads d !! id = None ∧ d' = set_uploads d (<[id := U]> (Db.uploads d)).
Proof. unfold insert_upload. destruct (_ || _) eqn:E; [done|]. intros [= <-]. apply orb_false_iff in E as [E _]. apply bool_decide_eq_false, eq_None_not_Some in E. done. Qed.
Lemma insert_node_is id N d d' : insert_node id N d = Some d' → Db.nodes d !! id = None ∧ d' = set_nodes d (<[id := N]> (Db.nodes d)).
Proof. unfold insert_node. destruct (Db.nodes d !! id); [done|]. by intros [= <-]. Qed.

(** What a transaction does once it has its workspace's row. *)
Lemma goes_next told now w writer d d0 n : accounted d → nextChangeSeq now w writer d = Ok (d0, n) → accounted d0 ∧ ∀ d', goes told d0 d' → goes told d d'.
Proof.
  intros Ha H. apply next_is in H as [v ->]. pose proof (alike_workspaces d v) as Hal. split; [by eapply alike_ok|]. intros d' Hg. eapply goes_alike; [done|by apply named_same|done].
Qed.
Lemma lock_is now w writer move d d' s : lockForCompletion now w writer move d = Ok (d', s) → ∃ v, d' = set_workspaces d v.
Proof.
  unfold lockForCompletion. intros H. apply bind_ok in H as ([d1 n] & H1 & H). apply next_is in H1 as [v ->].
  destruct move as [m|]; [|injection H as <- _; eauto]. destruct (Db.workspaces _ !! _); injection H as <- _; eauto.
Qed.
Lemma goes_lock told now w writer move d d0 s : accounted d → lockForCompletion now w writer move d = Ok (d0, s) → accounted d0 ∧ ∀ d', goes told d0 d' → goes told d d'.
Proof.
  intros Ha H. apply lock_is in H as [v ->]. pose proof (alike_workspaces d v) as Hal. split; [by eapply alike_ok|]. intros d' Hg. eapply goes_alike; [done|by apply named_same|done].
Qed.

(** The node an upload writes to, once begin has made it. *)
Lemma begin_node_goes told d i d1 t : accounted d → begin_fits d i → begin_target d (UploadBegin.workspaceId i) (UploadBegin.node i) = inr t → begin_node i d = Some d1 →
  goes told d d1 ∧ not_being_made d1 (upload_node_id (UploadBegin.node i)) ∧ ∃ N, Db.nodes d1 !! upload_node_id (UploadBegin.node i) = Some N ∧ Node.workspaceId N = UploadBegin.workspaceId i ∧
    match UploadBegin.node i with new_file id _ _ => Node.currentVersionId N = None ∧ no_versions d1 id | _ => True end.
Proof.
  intros Ha (_ & _ & Hf) Ht H. unfold begin_node in H. destruct (UploadBegin.node i) as [id parentId e|id epoch expected]; cbn [upload_node_id].
  - apply insert_node_is in H as [Hid ->]. pose proof (new_node_no_versions d id Ha Hid) as Hno. pose proof (not_made_of_none d id Ha Hno) as Hm.
    split_and!; [by apply goes_one, p_node|done|]. eexists. split; [apply lookup_insert_eq|done].
  - injection H as <-. split_and!; [apply rtc_refl|done|]. unfold begin_target in Ht. destruct (walked d _ id file) as [c|] eqn:Hw; [|done].
    destruct (walked_spec _ _ _ _ _ Hw) as (_ & HN & Hws & _). eauto.
Qed.
Lemma begin_node_deletions d i d1 : begin_node i d = Some d1 → Db.deletions d1 = Db.deletions d.
Proof. unfold begin_node. destruct (UploadBegin.node i); [|by intros [= <-]]. by intros [_ ->]%insert_node_is. Qed.
Lemma begin_rows_goes (told : string → Z → Prop) d i epoch expected reserve move d' t : (∀ o z, ¬ told o z) → accounted d → begin_fits d i → 0 ≤ reserve →
  begin_target d (UploadBegin.workspaceId i) (UploadBegin.node i) = inr t →
  begin_rows i epoch expected reserve move (adjusted (UploadBegin.workspaceId i) 0 reserve d) = inr d' → goes told d d'.
Proof.
  intros Hno Ha Hf Hres Ht H. unfold begin_rows in H.
  destruct ((begin_node i _ ≫= _) ≫= _) as [d3|] eqn:H3; [|done]. destruct (insert_upload _ _ d3) as [d4|] eqn:H4; [|done]. injection H as <-.
  apply bind_Some in H3 as (d2 & (dx & Hx & H2)%bind_Some & H3). assert (∃ d1, begin_node i d = Some d1 ∧ dx = adjusted (UploadBegin.workspaceId i) 0 reserve d1) as (d1 & H1 & ->).
  { unfold begin_node in *. destruct (UploadBegin.node i) as [id parentId e|]; [|injection Hx as <-; eauto]. unfold insert_node in *. cbn in Hx.
    destruct (Db.nodes d !! id); [done|]. injection Hx as <-. eauto. }
  destruct (begin_node_goes told d i d1 t Ha Hf Ht H1) as (Hg & Hm & N & HN & Hw & Hnew). etrans; [exact Hg|].
  apply insert_object_is in H2 as (Ho & Hk & ->). apply insert_version_is in H3 as [Hv ->]. apply insert_upload_is in H4 as [Hu ->]. cbn in Ho, Hk, Hv, Hu.
  apply goes_one. apply (p_pending _ d1 (UploadBegin.versionId i) (begin_version i) (UploadBegin.uploadId i) (begin_upload_row i epoch expected reserve move)
    (UploadBegin.objectId i) (begin_object i) N); try done; [|apply Hf|cbn; by destruct (UploadBegin.node i)].
  assert (Db.deletions d1 = Db.deletions d) as Ed by (by apply begin_node_deletions in H1). unfold fresh_key. rewrite Ed. apply Hf.
Qed.
Lemma beginUpload_goes (told : string → Z → Prop) now i d d' r : (∀ o z, ¬ told o z) → accounted d → begin_fits d i → beginUpload now i d = Ok (d', r) → goes told d d'.
Proof.
  intros Hno Ha Hf H. unfold beginUpload, transactionKeeping in H. apply bind_ok in H as ([d1 r1] & H1 & H). injection H as <- <-.
  destruct r1 as [|id]; [apply rtc_refl|]. cbn. unfold beginUploadOnce in H1. apply bind_ok in H1 as ([d0 n] & H0 & H1).
  destruct (goes_next told _ _ _ _ _ _ Ha H0) as [Ha0 Hg0]. assert (begin_fits d0 i) as Hf0 by (apply next_is in H0 as [v ->]; exact Hf). apply Hg0.
  destruct (begin_target d0 _ _) as [|[epoch expected]] eqn:Ht; [done|]. apply bind_ok in H1 as (signed & _ & H1). destruct signed; [|done]. cbn in H1.
  destruct (move_source now d0 i) as [|move]; [done|]. destruct (storageFigures now d0 _) as [s|]; [|done]. destruct (_ && _); [done|].
  apply bind_ok in H1 as (dx & ->%adjust_ok & H1). destruct (begin_rows _ _ _ _ _ _) as [|d4] eqn:H4; [done|]. injection H1 as <- _.
  refine (begin_rows_goes told d0 i epoch expected _ move d4 _ Hno Ha0 Hf0 _ Ht H4). by apply reserve_nonneg, Hf.
Qed.

Lemma upload_in_is d w id U : upload_in d w id = Some U → Db.uploads d !! id = Some U ∧ Upload.workspaceId U = w.
Proof. unfold upload_in. destruct (Db.uploads d !! id) as [X|]; [|done]. case_bool_decide; [|done]. by intros [= ->]. Qed.
Lemma completing_goes told d id U : Db.uploads d !! id = Some U → Upload.status U = upload_open →
  goes told d (set_uploads d (<[id := upload_as U upload_completing (Upload.reservedBytes U)]> (Db.uploads d))).
Proof.
  intros HU Es. apply goes_one, p_alike.
  - eapply alike_upload; [done|]. split; try done. unfold live_upload. by rewrite Es.
  - apply named_rows; [done|done|]. eapply rows_insert; [done|]. split_and!; [done|done|]. cbn. by rewrite Es.
Qed.
Lemma startCompleting_goes told now w id writer d d' r : startCompleting now w id writer d = Ok (d', r) → goes told d d'.
Proof.
  intros H. unfold startCompleting in H. apply bind_ok in H as (? & _ & H). destruct (upload_in d w id) as [U|] eqn:HU; [|injection H as <- _; apply rtc_refl].
  apply upload_in_is in HU as [HU _]. destruct (Upload.status U) eqn:Es; try (injection H as <- _; apply rtc_refl).
  destruct (_ && _); injection H as <- _; [apply rtc_refl|]. cbn. by apply completing_goes.
Qed.
Lemma release_as_goes {A} told id U (a b : A) d d' : accounted d → Db.uploads d !! id = Some U → live_upload U = true → release_as id U a d = Ok (d', b) → goes told d d'.
Proof. intros Ha HU Hl H. unfold release_as in H. apply bind_ok in H as (x & Hx & H). injection H as <- _. by apply (release_goes told id U d x). Qed.
Lemma publish_settle_goes {A} told now id U o size anc displaced seq move sourceSeq (a b : A) N d d' : accounted d → Db.uploads d !! id = Some U → live_upload U = true →
  Upload.objectId U = Some o → upload_size d U = Some size → Db.nodes d !! Upload.nodeId U = Some N → Node.purgedAt N = None →
  told o size ∨ Upload.status U = upload_conflicted →
  (let* d := publishUpload now id U o size anc displaced seq d in let* d := settle_move now id move sourceSeq d in Ok (d, a)) = Ok (d', b) → goes told d d'.
Proof.
  intros Ha HU Hl Eo Hz HN Hp Ht H. apply bind_ok in H as (d1 & H1 & H). apply bind_ok in H as (d2 & H2 & H). injection H as <- _.
  assert (goes told d d1) as Hg by by eapply publishUpload_goes. etrans; [exact Hg|]. eapply settle_move_goes; [|exact H2]. by eapply goes_ok.
Qed.
Lemma finishCompleting_goes told now w id stored writer d d' r : accounted d →
  (∀ s U o, stored = Some s → Db.uploads d !! id = Some U → Upload.objectId U = Some o → told o s) → finishCompleting now w id stored writer d = Ok (d', r) → goes told d d'.
Proof.
  intros Ha Ht H. unfold finishCompleting in H. apply bind_ok in H as ([d0 [seq sourceSeq]] & H0 & H). assert (Db.uploads d0 = Db.uploads d) as Eu by (apply lock_is in H0 as [v ->]; done). destruct (goes_lock told _ _ _ _ _ _ _ Ha H0) as [Ha0 Hg0]. apply Hg0. clear Hg0.
  destruct (upload_in d0 w id) as [U|] eqn:HU; [|injection H as <- _; apply rtc_refl].
  apply upload_in_is in HU as [HU _]. destruct (Upload.status U) eqn:Es; try (injection H as <- _; apply rtc_refl).
  all: assert (live_upload U = true) as Hl by (unfold live_upload; by rewrite Es).
  all: case_bool_decide; [by eapply release_as_goes|]; destruct stored as [stored|]; [|by eapply release_as_goes];
    destruct (upload_size d0 U) as [size|] eqn:Ez; [|by eapply release_as_goes]; destruct (Upload.objectId U) as [o|] eqn:Eo; [|by eapply release_as_goes];
    destruct (negb (stored =? size)) eqn:Esz; [by eapply release_as_goes|]; assert (told o size) as Hto by (apply (Ht size U o); [bool_simpl; congruence|congruence|done]);
    destruct (walk d0 (Upload.nodeId U)) as [chain|] eqn:Hw; [|by eapply release_as_goes];
    destruct (Walk.purged chain) eqn:Hp; [by eapply release_as_goes|]; destruct (match _ with Some _ => _ | None => false end); [by eapply release_as_goes|];
    destruct (_ || _); [injection H as <- _; by eapply goes_one, p_conflict|]; destruct (walk_spec _ _ _ Hw) as (_ & HN & Hpn);
    eapply publish_settle_goes; [done|exact HU|done|exact Eo|exact Ez|exact HN|by apply Hpn|by left|exact H].
Qed.
Lemma onto_alike d id U epoch : Db.uploads d !! id = Some U → alike d (set_uploads d (<[id := upload_onto U (Upload.nodeId U) epoch (Upload.expectedVersionId U) (Upload.newNode U)]> (Db.uploads d))).
Proof. intros HU. eapply alike_upload; [done|]. by split. Qed.
Lemma attach_same_goes told now id U o size epoch seq sourceSeq d d' r : accounted d → Db.uploads d !! id = Some U → live_upload U = true → Upload.objectId U = Some o →
  upload_size d U = Some size → Upload.status U = upload_conflicted → attach_same now id U o size epoch seq sourceSeq d = Ok (d', r) → goes told d d'.
Proof.
  intros Ha HU Hl Eo Hz Hcf H. unfold attach_same in H. destruct (walk d (Upload.nodeId U)) as [chain|] eqn:Hw; [|by eapply release_as_goes].
  destruct (Walk.purged chain) eqn:Hp; [by eapply release_as_goes|]. destruct (underUnrotatedParent _ _ _); [injection H as <- _; apply rtc_refl|].
  destruct (negb _); [injection H as <- _; apply rtc_refl|]. destruct (_ || _); [injection H as <- _; apply rtc_refl|]. destruct (walk_spec _ _ _ Hw) as (_ & HN & Hpn).
  eapply goes_alike; [exact (onto_alike d id U epoch HU)|apply named_rows; [done|done|by eapply rows_insert]|].
  eapply publish_settle_goes in H; [exact H| |apply lookup_insert_eq|exact Hl|exact Eo|exact Hz|exact HN|by apply Hpn|by right]. exact (alike_ok _ _ (onto_alike d id U epoch HU) Ha).
Qed.
Lemma new_parent_spec d w p e pe parent : new_parent d w p e pe = inr parent → Walk.id parent = p ∧ Db.nodes d !! p = Some (Walk.node parent) ∧ Node.workspaceId (Walk.node parent) = w.
Proof.
  unfold new_parent. destruct (walked d w p folder) as [c|] eqn:Hw; [|done]. repeat case_match; try done. intros [= <-].
  destruct (walked_spec _ _ _ _ _ Hw) as (? & ? & ? & _). done.
Qed.
(** The node an upload leaves, made for it: gone with its rows. *)
Lemma leave_node_goes told d id U n d' : accounted d → Db.uploads d !! id = Some U → Upload.nodeId U ≠ n → no_versions d n →
  delete_node n (drop_versions (λ x, Version.nodeId x.2 = n) d) = Ok d' →
  goes told d d' ∧ Db.uploads d' !! id = Some U ∧ Db.objects d' = Db.objects d ∧ (∀ m N, m ≠ n → Db.nodes d !! m = Some N → ∃ N', Db.nodes d' !! m = Some N' ∧ Node.purgedAt N' = Node.purgedAt N).
Proof.
  intros Ha HU Hne Hno H. split; [by eapply drop_node_goes; [exact Ha| |exact H]; intros v V HV E; destruct (Hno v V HV)|].
  unfold delete_node in H. not_refused H Hc. injection H as <-.
  split; [|split].
  - cbn. rewrite !map_lookup_filter_Some. split_and!; [done| | |done]; intros [V HV]%elem_of_dom; cbn in HV; rewrite !map_lookup_filter_Some in HV.
    + destruct HV as [HV E]. apply (Hno _ V HV). exact E.
    + destruct HV as [[_ Hx] E]. apply Hx. exact E.
  - done.
  - intros m N Hm HN. cbn. rewrite lookup_delete_ne by done. rewrite !lookup_fmap, HN. cbn. eexists. split; [done|].
    destruct (Node.currentVersionId N) as [v|] eqn:Ev; cbn; [case_decide|]; cbn; rewrite ?Ev; try done; by repeat case_match.
Qed.
(** What attach has once the upload is at its sibling and has left the node begin made. *)
Lemma sibling_ready told d id U n N epoch d3 : accounted d → Db.uploads d !! id = Some U → live_upload U = true → Db.nodes d !! n = None →
  Node.workspaceId N = Upload.workspaceId U → Node.currentVersionId N = None → Node.purgedAt N = None →
  (if Upload.newNode U
   then delete_node (Upload.nodeId U) (drop_versions (λ x, Version.nodeId x.2 = Upload.nodeId U) (taken id U n epoch (set_nodes d (<[n := N]> (Db.nodes d)))))
   else Ok (taken id U n epoch (set_nodes d (<[n := N]> (Db.nodes d))))) = Ok d3 →
  goes told d d3 ∧ accounted d3 ∧ Db.uploads d3 !! id = Some (upload_onto U n epoch None true) ∧ Db.objects d3 = Db.objects d ∧
  ∃ N', Db.nodes d3 !! n = Some N' ∧ Node.purgedAt N' = None.
Proof.
  intros Ha HU Hl Hn Hw Hcur Hpu H3. set (d1 := set_nodes d _) in *.
  assert (accounted d1) as Ha1 by by apply new_node_ok. pose proof (new_node_no_versions d n Ha Hn) as Hno.
  destruct (ac_live _ Ha id U HU Hl) as (V & HV & _ & _ & EV & _). assert (Upload.nodeId U ≠ n) as Hne by (intros E; apply (Hno _ V HV); congruence).
  assert (accounted (taken id U n epoch d1)) as Ha2 by (eapply taken_ok; [exact Ha1|exact HU|exact Hl|apply lookup_insert_eq|done..]).
  assert (goes told d (taken id U n epoch d1)) as Hg2.
  { eapply rtc_l; [by apply (p_node _ d n N)|]. apply goes_one. by apply (p_taken _ d1 id U n epoch N); [done|done|apply lookup_insert_eq|..]. }
  set (U' := upload_onto U n epoch None true) in *. assert (Db.uploads (taken id U n epoch d1) !! id = Some U') as HU' by apply lookup_insert_eq.
  destruct (Upload.newNode U) eqn:Enew; [|injection H3 as <-; split_and!; [done|done|done|done|]; eexists; split; [apply lookup_insert_eq|done]].
  destruct (leave_node_goes told _ id U' (Upload.nodeId U) d3 Ha2 HU') as (A & B & C & D); [cbn; congruence| |exact H3|].
  - intros v X HX E. destruct (ac_new _ Ha id U HU Hl Enew) as [_ Ho]. apply alter_inv in HX as [(_ & Y & _ & ->)|(Hv & HX)]; [by cbn in E|].
    by apply Hv, (Ho v X HX).
  - assert (goes told d d3) as Hg3 by by etrans. split_and!; [done|by eapply goes_ok|done|done|].
    destruct (D n N (not_eq_sym Hne) (lookup_insert_eq _ _ _)) as (N' & ? & E). exists N'. split; [done|congruence].
Qed.
Lemma attach_sibling_goes told now id U o size n parentId e seq sourceSeq d d' r : accounted d → Db.uploads d !! id = Some U → live_upload U = true → Upload.objectId U = Some o →
  upload_size d U = Some size → Upload.status U = upload_conflicted → attach_sibling now id U o size n parentId e seq sourceSeq d = Ok (d', r) → goes told d d'.
Proof.
  intros Ha HU Hl Eo Hz Hcf H. unfold attach_sibling in H. destruct (new_parent d _ _ _ _) as [|parent] eqn:Hpar; [injection H as <- _; apply rtc_refl|].
  destruct (insert_node n _ d) as [d1|] eqn:H1; [|injection H as <- _; apply rtc_refl]. apply insert_node_is in H1 as [Hn ->]. cbv zeta in H. apply bind_ok in H as (d3 & H3 & H).
  destruct (sibling_ready told d id U n (new_node_row (Upload.workspaceId U) parentId (NodeEnvelopes.keyEpoch e) (NodeEnvelopes.parentKeyEpoch e) None)
    (NodeEnvelopes.keyEpoch e) d3 Ha HU Hl Hn eq_refl eq_refl eq_refl H3) as (Hg & Ha3 & HU3 & Ho3 & N3 & HN3 & Hp3). etrans; [exact Hg|].
  eapply publish_settle_goes in H; [exact H|exact Ha3|exact HU3|exact Hl|exact Eo| |exact HN3|exact Hp3|by right]. unfold upload_size in *. cbn. by rewrite Ho3.
Qed.
Lemma upload_object d U o O : (Upload.objectId U ≫= λ o, (λ x, (o, x)) <$> Db.objects d !! o) = Some (o, O) →
  Upload.objectId U = Some o ∧ upload_size d U = Some (Obj.ciphertextSize O).
Proof. unfold upload_size. destruct (Upload.objectId U) as [x|]; [|done]. cbn. destruct (Db.objects d !! x); [|done]. by intros [= -> ->]. Qed.
Lemma attachUpload_goes told now w id i writer d d' r : accounted d → attachUpload now w id i writer d = Ok (d', r) → goes told d d'.
Proof.
  intros Ha H. unfold attachUpload in H. apply bind_ok in H as ([d0 [seq sourceSeq]] & H0 & H). destruct (goes_lock told _ _ _ _ _ _ _ Ha H0) as [Ha0 Hg0]. apply Hg0. clear Hg0.
  destruct (upload_in d0 w id) as [U|] eqn:HU; [|injection H as <- _; apply rtc_refl].
  apply upload_in_is in HU as [HU _]. destruct (Upload.status U) eqn:Es; try (injection H as <- _; apply rtc_refl). assert (live_upload U = true) as Hl by (unfold live_upload; by rewrite Es).
  destruct (Upload.objectId U ≫= _) as [[o O]|] eqn:Eo; [|injection H as <- _; apply rtc_refl]. destruct (match _ with Some _ => _ | None => false end); [by eapply release_as_goes|].
  apply bind_ok in H as (signed & _ & H). destruct signed; [|injection H as <- _; apply rtc_refl]. cbn in H. destruct (upload_object _ _ _ _ Eo) as (Eo' & Hz).
  destruct (AttachInput.mode i); [by eapply attach_same_goes|by eapply attach_sibling_goes].
Qed.
Lemma abortUpload_goes told now w id force d d' r : accounted d → abortUpload now w id force d = Ok (d', r) → goes told d d'.
Proof.
  intros Ha H. unfold abortUpload in H. apply bind_ok in H as ([d0 n] & H0 & H). destruct (goes_next told _ _ _ _ _ _ Ha H0) as [Ha0 Hg0]. apply Hg0. clear Hg0.
  destruct (upload_in d0 w id) as [U|] eqn:HU; [|injection H as <- _; apply rtc_refl].
  apply upload_in_is in HU as [HU _]. destruct (Upload.status U) eqn:Es; try (injection H as <- _; apply rtc_refl).
  all: assert (live_upload U = true) as Hl by (unfold live_upload; by rewrite Es).
  2: destruct force; [|injection H as <- _; apply rtc_refl]. all: by eapply release_as_goes.
Qed.

Lemma current_version_spec d n v V o O : current_version d n = Some (v, V, (o, O)) → current_of d n = Some v ∧ Db.versions d !! v = Some V ∧
  Version.objectId V = Some o ∧ Db.objects d !! o = Some O.
Proof.
  unfold current_version. destruct (current_of d n) as [x|]; [|done]. destruct (Db.versions d !! x) as [X|] eqn:HX; [|done].
  destruct (Version.objectId X) as [y|] eqn:Eo; [|done]. destruct (Db.objects d !! y) as [Y|] eqn:HY; [|done]. cbn. by intros [= <- <- <- <-].
Qed.
Lemma copyFile_goes told now i d d' r : accounted d → copyFile now i d = Ok (d', r) → goes told d d'.
Proof.
  intros Ha H. unfold copyFile, transactionKeeping in H. apply bind_ok in H as ([d1 r1] & H1 & H). injection H as <- <-.
  destruct r1 as [|id]; [apply rtc_refl|]. cbn. unfold copyFileOnce in H1. apply bind_ok in H1 as ([d0 n] & H0 & H1).
  destruct (goes_next told _ _ _ _ _ _ Ha H0) as [Ha0 Hg0]. apply Hg0. clear Hg0. cbv zeta in H1. destruct (walked d0 _ _ file); [|done]. destruct (Walk.trashed _); [done|].
  destruct (current_version d0 _) as [[[x V] [o O]]|] eqn:Hc; [|done]. apply current_version_spec in Hc as (_ & HV & Eo & HO).
  destruct (_ || _); [done|]. destruct (Obj.status O !== object_ready) eqn:Er; [done|]. destruct (new_parent d0 _ _ _ _) as [|parent] eqn:Hpar; [done|]. destruct (negb (slen _ =? _)); [done|].
  apply bind_ok in H1 as (signed & _ & H1). destruct signed; [|done]. cbn in H1. destruct (storageFigures now d0 _) as [s|]; [|done]. destruct (_ <? _); [done|].
  destruct (insert_node _ _ d0 ≫= _) as [d3|] eqn:H3; [|done]. apply bind_Some in H3 as (d2 & H2 & H3). apply insert_node_is in H2 as [Hn ->].
  apply insert_version_is in H3 as [Hv ->]. cbn in Hv. apply bind_ok in H1 as (d4 & ->%adjust_ok & H1). injection H1 as <- _.
  pose proof (new_node_no_versions d0 _ Ha0 Hn) as Hno. eapply rtc_l; [by apply (p_node _ d0 (CopyFile.id i) (copy_node i n))|]. set (d2 := set_nodes d0 _) in *.
  eapply goes_then_alike; [|exact (alike_raise _ _ _)|by apply named_same]. apply goes_one.
  apply (p_copy _ d2 (CopyFile.versionId i) (copy_version i o) o O (copy_node i n)); try done; [by bool_simpl|apply lookup_insert_eq].
Qed.
Lemma version_in_is d w v V : version_in d w v = Some V → Db.versions d !! v = Some V ∧ Version.workspaceId V = w.
Proof. unfold version_in. destruct (Db.versions d !! v) as [X|]; [|done]. case_bool_decide; [|done]. by intros [= ->]. Qed.
Lemma restoreVersion_goes told now w v writer d d' r : accounted d → restoreVersion now w v writer d = Ok (d', r) → goes told d d'.
Proof.
  intros Ha H. unfold restoreVersion in H. apply bind_ok in H as ([d0 n] & H0 & H). destruct (goes_next told _ _ _ _ _ _ Ha H0) as [Ha0 Hg0]. apply Hg0. clear Hg0. cbv zeta in H.
  destruct (version_in d0 w v) as [V|] eqn:HV; [|injection H as <- _; apply rtc_refl]. cbn [mbind option_bind] in H. destruct (Version.objectId V ≫= _) as [O|]; [|injection H as <- _; apply rtc_refl].
  destruct (_ !== _) eqn:Hs; [injection H as <- _; apply rtc_refl|]. destruct (walk d0 _) as [chain|]; [|injection H as <- _; apply rtc_refl]. destruct (Walk.purged chain); [injection H as <- _; apply rtc_refl|].
  destruct (Walk.trashed chain); [injection H as <- _; apply rtc_refl|]. destruct (current_of d0 (Version.nodeId V)) as [cur|]; [|injection H as <- _; apply rtc_refl].
  destruct (Version.supersededAt V); [|injection H as <- _; apply rtc_refl]. destruct (cur === v); [injection H as <- _; apply rtc_refl|]. destruct (Obj.status O !== object_ready); [injection H as <- _; apply rtc_refl|]. injection H as <- _.
  apply version_in_is in HV as [HV _]. assert (Version.status V = version_ready) as Hr by by bool_simpl.
  set (d1 := set_versions d0 _). assert (alike d0 d1) as Hal by (eapply alike_versions, rows_trans; by apply rows_alter).
  destruct (rows_fwd _ _ _ _ (al_versions _ _ Hal) HV) as (V1 & HV1 & []). eapply goes_alike; [exact Hal|by apply named_same|].
  apply goes_one. apply (p_current _ d1 (Version.nodeId V) v V1); [done|congruence|congruence].
Qed.
(** A ready version that is not current, purged as it was read. *)
Lemma purge_read_goes told w v V d d' : accounted d → Db.versions d !! v = Some V → Version.workspaceId V = w → Version.status V = version_ready →
  current_of d (Version.nodeId V) ≠ Some v → purgeVersion w v V (object_size d V) d = Ok d' → goes told d d'.
Proof.
  intros Ha HV Hw Hr Hc H. unfold purgeVersion in H. rewrite Hr in H. destruct (version_has_size d v V Ha HV ltac:(congruence)) as (z & Ez & _). rewrite Ez in H.
  apply (purge_row_is v V z w d d' Hr) in H as ->; [|done]. by apply goes_one, p_purge.
Qed.
Lemma discardVersion_goes told now w v writer d d' r : accounted d → discardVersion now w v writer d = Ok (d', r) → goes told d d'.
Proof.
  intros Ha H. unfold discardVersion in H. apply bind_ok in H as ([d0 n] & H0 & H). destruct (goes_next told _ _ _ _ _ _ Ha H0) as [Ha0 Hg0]. apply Hg0. clear Hg0. cbv zeta in H.
  destruct (version_in d0 w v) as [V|] eqn:HV; [|injection H as <- _; apply rtc_refl]. destruct (_ !== _) eqn:Er; [injection H as <- _; apply rtc_refl|]. destruct (walk d0 _) as [chain|]; [|injection H as <- _; apply rtc_refl].
  destruct (Walk.purged chain); [injection H as <- _; apply rtc_refl|]. destruct (_ || _) eqn:Ec; [injection H as <- _; apply rtc_refl|]. apply bind_ok in H as (d1 & H1 & H). injection H as <- _.
  apply version_in_is in HV as [HV Hw]. apply orb_false_iff in Ec as [Ec _]. apply (purge_read_goes told w v V d0); [done|done|done|by bool_simpl|by apply bool_decide_eq_false in Ec|done].
Qed.
Lemma purgeNode_goes told now w n writer d d' r : accounted d → purgeNode now w n writer d = Ok (d', r) → goes told d d'.
Proof.
  intros Ha H. unfold purgeNode in H. apply bind_ok in H as ([d0 s] & H0 & H). destruct (goes_next told _ _ _ _ _ _ Ha H0) as [Ha0 Hg0]. apply Hg0. clear Hg0.
  destruct (purgeRefusal _ _); [injection H as <- _; apply rtc_refl|]. apply bind_ok in H as ([d1 b] & H1 & H). injection H as <- _. by eapply purgeOne_goes.
Qed.
Lemma purge_going_goes told now w going : ∀ seq d d' r, accounted d → purge_going now w going seq d = Ok (d', r) → goes told d d'.
Proof.
  induction going as [|[id above] going IH]; intros seq d d' r Ha H; cbn in H; [injection H as <- _; apply rtc_refl|].
  apply bind_ok in H as ([d1 b] & H1 & H). apply bind_ok in H as ([d2 r2] & H2 & H). injection H as <- _.
  pose proof (purgeOne_goes told _ _ _ _ _ _ _ _ Ha H1) as Hg. etrans; [exact Hg|]. eapply IH; [by eapply goes_ok|exact H2].
Qed.
Lemma purgeNodes_goes told now w ids writer fits d d' r : accounted d → purgeNodes now w ids writer fits d = Ok (d', r) → goes told d d'.
Proof.
  intros Ha H. unfold purgeNodes in H. not_refused H E1. not_refused H E2. destruct (negb _); [injection H as <- _; apply rtc_refl|].
  apply bind_ok in H as ([d0 s] & H0 & H). destruct (goes_next told _ _ _ _ _ _ Ha H0) as [Ha0 Hg0]. apply Hg0. clear Hg0.
  apply bind_ok in H as ([d1 done] & H1 & H). injection H as <- _. pose proof (purge_going_goes told _ _ _ _ _ _ _ Ha0 H1) as Hg.
  destruct (1 <? _); [|done]. apply (goes_then_alike _ _ _ _ Hg (alike_workspaces _ _)). by apply named_same.
Qed.
Lemma purge_rows_goes told now rows : ∀ d d' r, accounted d → purge_rows now rows d = Ok (d', r) → goes told d d'.
Proof.
  induction rows as [|row rows IH]; intros d d' r Ha H; cbn in H; [injection H as <- _; apply rtc_refl|]. apply bind_ok in H as ([d1 b] & H1 & H). apply bind_ok in H as ([d2 c] & H2 & H).
  injection H as <- _. unfold purge_descendant in H1. apply bind_ok in H1 as ([d0 s] & H0 & H1). destruct (goes_next told _ _ _ _ _ _ Ha H0) as [Ha0 Hg0].
  pose proof (Hg0 _ (purgeOne_goes told _ _ _ _ _ _ _ _ Ha0 H1)) as Hg. etrans; [exact Hg|]. eapply IH; [exact (goes_ok told d d1 Ha Hg)|exact H2].
Qed.
Lemma purge_superseded_goes told now w v d d' r : accounted d → (∀ V, Db.versions d !! v = Some V → Version.workspaceId V = w) → purge_superseded now w v d = Ok (d', r) → goes told d d'.
Proof.
  intros Ha Hw H. unfold purge_superseded in H. apply bind_ok in H as ([d0 s] & H0 & H). destruct (goes_next told _ _ _ _ _ _ Ha H0) as [Ha0 Hg0]. apply Hg0. clear Hg0.
  assert (Db.versions d0 = Db.versions d) as Ev by (apply next_is in H0 as [y ->]; done). destruct (Db.versions d0 !! v) as [V|] eqn:HV; [|injection H as <- _; apply rtc_refl].
  destruct (_ || _) eqn:Ec; [injection H as <- _; apply rtc_refl|]. apply bind_ok in H as (d1 & H1 & H). injection H as <- _. apply orb_false_iff in Ec as [Er Ec].
  apply (purge_read_goes told w v V d0); [done|done|apply Hw; congruence|by bool_simpl|by apply bool_decide_eq_false in Ec|exact H1].
Qed.

(** A tombstone to drop: nothing of it is in flight. *)
Definition tomb (d : Db.t) (n : string) : Prop := (∀ N, Db.nodes d !! n = Some N → is_Some (Node.purgedAt N)) ∧ only_done d n.
Lemma tomb_only_purged d n : accounted d → tomb d n → only_purged d (λ e, Version.nodeId e.2 = n).
Proof.
  intros [] [Hn Hd] v V HV E. cbn in E. destruct (ac_node v V HV) as (N & HN & _). rewrite E in HN. pose proof (Hn N HN) as Hp. rewrite <- E in HN.
  pose proof (ac_gone v V N HV HN Hp) as Hr. destruct (Version.status V) eqn:Es; [|done|done]. destruct (ac_pending v V HV Es) as (u & U & HU & Ev & Hl).
  destruct (ac_live u U HU Hl) as (V' & HV' & _ & _ & En & _). rewrite Ev in HV'. rewrite (Hd u U HU) in Hl; [done|congruence].
Qed.
Lemma delete_node_tomb d n m d' : delete_node n d = Ok d' → tomb d m → tomb d' m.
Proof.
  intros H [Hn Hd]. unfold delete_node in H. not_refused H Hc. injection H as <-. split.
  - intros N. cbn. intros [_ HN]%lookup_delete_Some. rewrite lookup_fmap in HN. apply fmap_Some in HN as (N0 & HN0 & ->). pose proof (Hn N0 HN0).
    destruct (Node.currentVersionId N0); [by case_decide|done].
  - intros u U HU E. cbn in HU. rewrite !map_lookup_filter_Some in HU. destruct HU as [[HU _] _]. by apply (Hd u U).
Qed.
Lemma delete_tombstones_goes told ids : ∀ d d', accounted d → (∀ n, n ∈ ids → tomb d n) → delete_tombstones ids d = Ok d' → goes told d d'.
Proof.
  induction ids as [|n ids IH]; intros d d' Ha Ht H; cbn in H; [injection H as <-; apply rtc_refl|]. apply bind_ok in H as (d1 & H1 & H).
  assert (prim told d d1) as Hp by (apply (p_drop _ d n d1); [apply tomb_only_purged; [done|apply Ht; left]|apply Ht; left|exact H1]). eapply rtc_l; [exact Hp|].
  pose proof (prim_ok told d d1 Ha Hp) as Ha1. assert (∀ m, m ∈ ids → tomb d1 m) as Ht1 by (intros m Hm; eapply delete_node_tomb; [exact H1|apply Ht; by right]).
  destruct (Db.nodes d !! n) as [N|]; [|by eapply IH]. set (d2 := drop_through d1 (Node.workspaceId N) (default 0 (Node.changeSeq N))) in *.
  pose proof (alike_workspaces d1 (Db.workspaces d2)) as Hal. change (set_workspaces d1 (Db.workspaces d2)) with d2 in Hal.
  eapply goes_alike; [exact Hal|by apply named_same|]. eapply IH; [exact (alike_ok _ _ Hal Ha1)|exact Ht1|exact H].
Qed.
Lemma deleteExpiredTombstones_goes told before ids d d' r : accounted d → (∀ n, n ∈ ids → expired_tombstone before d n = true → only_done d n) →
  deleteExpiredTombstones before ids d = Ok (d', r) → goes told d d'.
Proof.
  intros Ha Hd H. unfold deleteExpiredTombstones in H. apply bind_ok in H as (d1 & H1 & H). injection H as <- _. eapply delete_tombstones_goes; [exact Ha| |exact H1].
  intros n Hn. apply list_elem_of_In, List.filter_In in Hn as [Hn He]. rewrite <- list_elem_of_In, elem_of_remove_dups in Hn. split; [|exact (Hd n Hn He)].
  intros N HN. unfold expired_tombstone in He. rewrite HN in He. destruct (Node.purgedAt N); [done|discriminate].
Qed.

Lemma ready_nonneg d w v V : accounted d → Db.versions d !! v = Some V → 0 ≤ ready_bytes d w V.
Proof.
  intros Ha HV. unfold ready_bytes. destruct (_ && _) eqn:E; [|done]. bool_simpl. destruct (version_has_size d v V Ha HV) as (z & -> & ?); [congruence|done].
Qed.
Lemma reserved_nonneg d w u U : accounted d → Db.uploads d !! u = Some U → 0 ≤ reserved_bytes w U.
Proof. intros Ha HU. unfold reserved_bytes. case_bool_decide; [by apply (ac_reserve _ Ha u)|done]. Qed.
Lemma usage_nonneg d w : accounted d → 0 ≤ computed_usage d w ∧ 0 ≤ computed_reserved d w.
Proof. intros Ha. split; apply total_nonneg; intros k x Hk; [by apply (ready_nonneg d w k)|by apply (reserved_nonneg d w k)]. Qed.

(** ** The server's steps *)

Inductive Request :=
  | begins (i : UploadBegin.t)
  | starts_completing (workspaceId uploadId : string) (writer : option string)
  | finishes (workspaceId uploadId : string) (storedSize : option Z) (writer : option string)
  | attaches (workspaceId uploadId : string) (i : AttachInput.t) (writer : option string)
  | aborts (workspaceId uploadId : string) (force : bool)
  | copies (i : CopyFile.t)
  | restores (workspaceId versionId : string) (writer : option string)
  | discards (workspaceId versionId : string) (writer : option string)
  | purges (workspaceId nodeId : string) (writer : option string)
  | purges_many (workspaceId : string) (nodeIds : list string) (writer : string) (fits : nat)
  | purges_below (limit : nat)
  | purges_old (workspaceId versionId : string)
  | drops_tombstones (before : Z) (ids : list string).
Definition forget {A} (answer : result (Db.t * A)) : result (Db.t * unit) := let* (d, _) := answer in Ok (d, tt).
Definition run (now : Z) (q : Request) (d : Db.t) : result (Db.t * unit) :=
  match q with
  | begins i => forget (beginUpload now i d)
  | starts_completing w u writer => forget (startCompleting now w u writer d)
  | finishes w u size writer => forget (finishCompleting now w u size writer d)
  | attaches w u i writer => forget (attachUpload now w u i writer d)
  | aborts w u force => forget (abortUpload now w u force d)
  | copies i => forget (copyFile now i d)
  | restores w v writer => forget (restoreVersion now w v writer d)
  | discards w v writer => forget (discardVersion now w v writer d)
  | purges w n writer => forget (purgeNode now w n writer d)
  | purges_many w ns writer fits => forget (purgeNodes now w ns writer fits d)
  | purges_below limit => forget (purgeDescendants now limit d)
  | purges_old w v => forget (purge_superseded now w v d)
  | drops_tombstones before ns => forget (deleteExpiredTombstones before ns d)
  end.
Definition serve (now : Z) (q : Request) (d : Db.t) : Db.t := (transaction (run now q) d).1.
(** What its callers keep to: begin as [begin_fits], the sweep's rows as they were read, and a
    tombstone's window far longer than a completion. *)
Definition fitting (d : Db.t) (q : Request) : Prop :=
  match q with
  | begins i => begin_fits d i
  | purges_old w v => ∀ V, Db.versions d !! v = Some V → Version.workspaceId V = w
  | drops_tombstones before ns => ∀ n, n ∈ ns → expired_tombstone before d n = true → only_done d n
  | _ => True
  end.
(** A workspace opened: nothing is in it. *)
Definition nothing_in (d : Db.t) (w : string) : Prop :=
  (∀ v V, Db.versions d !! v = Some V → Version.workspaceId V ≠ w) ∧ (∀ u U, Db.uploads d !! u = Some U → Upload.workspaceId U ≠ w).
Inductive step (d : Db.t) : Db.t → Prop :=
  | step_served now q : fitting d q → step d (serve now q d)
  | step_opened w quota : nothing_in d w → step d (set_storage d (<[w := Storage.Build_t quota 0 0]> (Db.storage d)))
  | step_folder n N : Db.nodes d !! n = None → Node.currentVersionId N = None → step d (set_nodes d (<[n := N]> (Db.nodes d)))
  | step_other d' : alike d d' → named_alike d d' → step d d'.

Lemma transaction_keeps {A} (P : Db.t → Prop) (work : Db.t → result (Db.t * A)) d : P d → (∀ d' a, work d = Ok (d', a) → P d') → P (transaction work d).1.
Proof. intros Hd Hw. unfold transaction. destruct (work d) as [[d' a]|] eqn:E; [by eapply Hw|done]. Qed.
Lemma forget_ok {A} (m : result (Db.t * A)) d u : forget m = Ok (d, u) → ∃ a, m = Ok (d, a).
Proof. intros ([d1 a] & -> & H)%bind_ok. injection H as <- _. eauto. Qed.
(** What the store has told the one who asks: the size of what it holds of an upload. *)
Definition told_by (d : Db.t) (q : Request) (o : string) (size : Z) : Prop :=
  match q with
  | finishes _ u (Some stored) _ => stored = size ∧ ∃ U, Db.uploads d !! u = Some U ∧ Upload.objectId U = Some o
  | _ => False
  end.
(** Every request goes through these writes. *)
Lemma run_goes now q d d' u : accounted d → fitting d q → run now q d = Ok (d', u) → goes (told_by d q) d d'.
Proof.
  intros Ha Hf H. destruct q; cbn [run fitting] in *; apply forget_ok in H as (a & H).
  - refine (beginUpload_goes _ _ _ _ _ _ _ Ha Hf H). by intros o z [].
  - exact (startCompleting_goes _ _ _ _ _ _ _ _ H).
  - refine (finishCompleting_goes _ _ _ _ _ _ _ _ _ Ha _ H). intros s U o -> HU Eo. cbn. eauto.
  - exact (attachUpload_goes _ _ _ _ _ _ _ _ _ Ha H).
  - exact (abortUpload_goes _ _ _ _ _ _ _ _ Ha H).
  - exact (copyFile_goes _ _ _ _ _ _ Ha H).
  - exact (restoreVersion_goes _ _ _ _ _ _ _ _ Ha H).
  - exact (discardVersion_goes _ _ _ _ _ _ _ _ Ha H).
  - exact (purgeNode_goes _ _ _ _ _ _ _ _ Ha H).
  - exact (purgeNodes_goes _ _ _ _ _ _ _ _ _ Ha H).
  - exact (purge_rows_goes _ _ _ _ _ _ Ha H).
  - exact (purge_superseded_goes _ _ _ _ _ _ _ Ha Hf H).
  - exact (deleteExpiredTombstones_goes _ _ _ _ _ _ Ha Hf H).
Qed.
Lemma serve_goes now q d : accounted d → fitting d q → goes (told_by d q) d (serve now q d).
Proof. intros Ha Hf. unfold serve. apply transaction_keeps; [apply rtc_refl|]. intros d' u H. by eapply run_goes. Qed.
Lemma total_zero {A} (f : A → Z) (m : gmap string A) : (∀ k x, m !! k = Some x → f x = 0) → total f m = 0.
Proof.
  induction m as [|k x m Hk IH] using map_ind; intros H; [apply total_empty|]. rewrite total_new by done. rewrite (H k x) by apply lookup_insert_eq.
  rewrite IH; [done|]. intros j y Hj. apply (H j). rewrite lookup_insert_ne; [done|congruence].
Qed.
Lemma opened_ok d w quota : accounted d → nothing_in d w → accounted (set_storage d (<[w := Storage.Build_t quota 0 0]> (Db.storage d))).
Proof.
  intros [] [Hv Hu]. constructor; try done.
  - intros x S. cbn. rewrite lookup_insert. case_decide as E; [intros [= <-]; subst x|apply ac_used]. symmetry. apply total_zero. intros v V HV. unfold ready_bytes.
    by rewrite (bool_decide_eq_false_2 (Version.workspaceId V = w)) by by apply (Hv v V).
  - intros x S. cbn. rewrite lookup_insert. case_decide as E; [intros [= <-]; subst x|apply ac_reserved]. symmetry. apply total_zero. intros u U HU. unfold reserved_bytes.
    by rewrite (bool_decide_eq_false_2 (Upload.workspaceId U = w)) by by apply (Hu u U).
Qed.
Lemma step_ok d d' : step d d' → accounted d → accounted d'.
Proof. intros [now q Hf|w quota Hn|n N Hn _|d2 Hal _] Ha; [by eapply goes_ok, serve_goes|by apply opened_ok|by apply new_node_ok|by eapply alike_ok]. Qed.

(** A server's first tables: no versions, no uploads, nothing stored. *)
Definition blank (d : Db.t) : Prop :=
  Db.versions d = ∅ ∧ Db.objects d = ∅ ∧ Db.uploads d = ∅ ∧ Db.deletions d = ∅ ∧
  (∀ n N, Db.nodes d !! n = Some N → Node.currentVersionId N = None) ∧ ∀ w S, Db.storage d !! w = Some S → Storage.usedBytes S = 0 ∧ Storage.reservedBytes S = 0.
Lemma blank_ok d : blank d → accounted d.
Proof.
  intros (Ev & Eo & Eu & _ & _ & Hs). constructor; rewrite ?Ev, ?Eo, ?Eu; intros *; try by rewrite lookup_empty.
  - intros HS. unfold computed_usage. rewrite Ev, total_empty. by apply (Hs w S).
  - intros HS. unfold computed_reserved. rewrite Eu, total_empty. by apply (Hs w S).
Qed.
Lemma reached_ok d0 d : blank d0 → rtc step d0 d → accounted d.
Proof. intros Hb%blank_ok Hr. induction Hr as [|d0 d1 d H _ IH]; [done|]. apply IH. by eapply step_ok. Qed.
Lemma audit_clean d : accounted d → auditUsage d = [].
Proof.
  intros Ha. apply elem_of_nil_inv. intros x. unfold auditUsage. rewrite list_elem_of_omap. intros ([w S] & Hin & E). cbn in E. apply elem_of_map_to_list in Hin.
  by rewrite (ac_used _ Ha w S Hin), Z.eqb_refl in E.
Qed.
End transactions.

(** C16. Through any run of the server's transactions, in whatever order, whose begins name no file that an
    upload in flight is still making and no object id or key the outbox still has, of no negative size
    ([begin_fits]: the clients draw fresh ids and begin versions of published files, and the server checks
    only the size; [unfit_begin_leaks] and [unfit_publish_leaks] are what one that does not fit leaves), whose
    version sweep has rows as they were read, and whose tombstones are dropped only once their uploads are
    over ([fitting]): every workspace's storage row says exactly the bytes of its ready versions' objects
    and the reservations of its uploads, and the nightly accounting check finds no workspace whose used
    bytes drifted. *)
Theorem usage_exact `{SB : SignedBy} d0 d : blank d0 → rtc step d0 d → auditUsage d = [] ∧
  ∀ w S, Db.storage d !! w = Some S → Storage.usedBytes S = computed_usage d w ∧ Storage.reservedBytes S = computed_reserved d w ∧
    0 ≤ Storage.usedBytes S ∧ 0 ≤ Storage.reservedBytes S.
Proof.
  intros Hb Hr. pose proof (reached_ok d0 d Hb Hr) as Ha. split; [by apply audit_clean|].
  intros w S HS. rewrite (ac_used _ Ha w S HS), (ac_reserved _ Ha w S HS). pose proof (usage_nonneg d w Ha). tauto.
Qed.

(** A personal workspace with its root folder, and a file uploaded to it twice. *)
Module DriveToy.
#[local] Instance signed : SignedBy := λ _ _, Ok true.
Definition root : Node.t := Node.Build_t "w" None folder 1 0 false 1 None None None 0 (Some 1) None None.
Definition people : People.t := People.Build_t {[("w", "a")]} ∅ ∅ ∅ {["a" := "w"]} ∅ ∅ false.
Definition start : Db.t :=
  Db.Build_t {["w" := Workspace.Build_t 1 5 None None 0]} {["w" := Storage.Build_t 1000 0 0]} {["r" := root]} ∅ ∅ ∅ ∅ ∅ ∅ ∅ people.
Definition first : UploadBegin.t :=
  UploadBegin.Build_t "w" "a" (new_file "n" "r" (NodeEnvelopes.Build_t 2 1 "e" "s")) "v1" "k" "s" "o1" "key1" 1 300 100 None "u1".
Definition second : UploadBegin.t :=
  UploadBegin.Build_t "w" "a" (existing_file "n" 2 (Some "v1")) "v2" "k" "s" "o2" "key2" 1 200 100 None "u2".
Definition requests : list Request :=
  [begins first; starts_completing "w" "u1" (Some "a"); finishes "w" "u1" (Some 300) (Some "a"); begins second].
Definition after (n : nat) : Db.t := foldl (λ d q, serve 10 q d) start (take n requests).
End DriveToy.
Lemma toy_blank : blank DriveToy.start.
Proof.
  split_and!; try done; intros k x H; cbn in H; by apply lookup_singleton_Some in H as [_ <-].
Qed.
Lemma toy_reached_3 : rtc (step (SB := DriveToy.signed)) DriveToy.start (DriveToy.after 3).
Proof.
  apply (rtc_l _ _ (DriveToy.after 1)); [by apply (step_served (SB := DriveToy.signed) _ 10 (begins DriveToy.first))|].
  apply (rtc_l _ _ (DriveToy.after 2)); [by apply (step_served (SB := DriveToy.signed) _ 10 (starts_completing "w" "u1" (Some "a")))|].
  apply rtc_once. by apply (step_served (SB := DriveToy.signed) (DriveToy.after 2) 10 (finishes "w" "u1" (Some 300) (Some "a"))).
Qed.
Lemma toy_reached : rtc (step (SB := DriveToy.signed)) DriveToy.start (DriveToy.after 4).
Proof.
  eapply rtc_r; [exact toy_reached_3|]. apply (step_served (SB := DriveToy.signed) (DriveToy.after 3) 10 (begins DriveToy.second)).
  assert (Db.deletions (DriveToy.after 3) = ∅) as Ed by by vm_compute. split; [done|]. split; [unfold fresh_key; by rewrite Ed|]. apply (not_made_of_current _ _ "v1"); [exact (reached_ok (SB := DriveToy.signed) _ _ toy_blank toy_reached_3)|by vm_compute].
Qed.
Lemma usage_exact_witness : auditUsage (DriveToy.after 4) = [] ∧ computed_usage (DriveToy.after 4) "w" = 300 ∧ computed_reserved (DriveToy.after 4) "w" = 200.
Proof.
  split; [exact (proj1 (usage_exact (SB := DriveToy.signed) _ _ toy_blank toy_reached))|]. split; by vm_compute.
Defined.

(** Begin on a file another upload is making, which [begin_fits] keeps out: the first upload's abort
    takes the node, and with it the second's version and row, and no one gives its reservation back. *)
Definition unfit : UploadBegin.t :=
  UploadBegin.Build_t "w" "a" (existing_file "n" 2 None) "v2" "k" "s" "o2" "key2" 1 200 100 None "u2".
Lemma unfit_begin_leaks : let d := foldl (λ d q, serve (SB := DriveToy.signed) 10 q d) DriveToy.start [begins DriveToy.first; begins unfit; aborts "w" "u1" false] in
  Db.uploads d = ∅ ∧ Db.storage d !! "w" = Some (Storage.Build_t 1000 0 200).
Proof. by vm_compute. Qed.
(** And once the second was published, its bytes stay counted for good, and its object's row with them. *)
Lemma unfit_publish_leaks : let d := foldl (λ d q, serve (SB := DriveToy.signed) 10 q d) DriveToy.start
    [begins DriveToy.first; begins unfit; starts_completing "w" "u2" (Some "a"); finishes "w" "u2" (Some 200) (Some "a"); aborts "w" "u1" false] in
  Db.versions d = ∅ ∧ is_Some (Db.objects d !! "o2") ∧ Db.storage d !! "w" = Some (Storage.Build_t 1000 200 0).
Proof. vm_compute. split_and!; [done|by eexists|done]. Qed.
