(* ===== verification/DriveCommits.v ===== *)
(** * The storage constraint is never met (packages/db/src/drive.ts, schema: workspace_storage_nonnegative)

    No transaction that gives bytes or a reservation back can take a storage
    row below zero: the constraint the schema keeps as a last defence refuses
    none of them, so a purge, a publish or an abort is never lost to it. *)

From S2P Require Import Prelude DriveTables Pool DriveUploads DrivePurges DriveAccounting DriveAlike DriveBalance DriveReached.

(** ** Answers that are not the constraint's *)

Definition unrefused {A} (r : result A) : Prop := r ≠ Err STORAGE_NONNEGATIVE.
Lemma unrefused_ok {A} (a : A) : unrefused (Ok a).
Proof. done. Qed.
Lemma unrefused_bind {A B} (m : result A) (f : A → result B) : unrefused m → (∀ a, m = Ok a → unrefused (f a)) → unrefused (m ≫= f).
Proof. intros Hm Hf. destruct m as [a|e]; [by apply Hf|]. intros [= E]. apply Hm. by rewrite E. Qed.
Lemma unrefused_forget {A} (r : result (Db.t * A)) : unrefused r → unrefused (forget r).
Proof. intros H. apply unrefused_bind; [done|]. by intros [d a] _. Qed.
#[local] Hint Resolve unrefused_ok : core.

Lemma adjust_unrefused w a b d : (∀ S, Db.storage d !! w = Some S → 0 ≤ Storage.usedBytes S + a ∧ 0 ≤ Storage.reservedBytes S + b) → unrefused (adjustStorage w a b d).
Proof.
  intros H. unfold adjustStorage. destruct (Db.storage d !! w) as [S|] eqn:E; [|done]. destruct (H S eq_refl). cbn.
  by rewrite (proj2 (Z.ltb_ge _ 0)), (proj2 (Z.ltb_ge _ 0)) by lia.
Qed.
Lemma give_back_unrefused d u U : accounted d → Db.uploads d !! u = Some U → unrefused (adjustStorage (Upload.workspaceId U) 0 (- Upload.reservedBytes U) d).
Proof.
  intros Ha HU. apply adjust_unrefused. intros S HS. rewrite (ac_used _ Ha _ S HS), (ac_reserved _ Ha _ S HS).
  pose proof (usage_nonneg d (Upload.workspaceId U) Ha) as [? _]. pose proof (total_ge (reserved_bytes (Upload.workspaceId U)) (Db.uploads d) u U
    ltac:(intros k x Hk; by apply (reserved_nonneg d _ k)) HU) as Hge. unfold reserved_bytes in Hge at 1. rewrite bool_decide_eq_true_2 in Hge by done. unfold computed_reserved. lia.
Qed.
Lemma free_unrefused d v V z : accounted d → Db.versions d !! v = Some V → Version.status V = version_ready → object_size d V = Some z →
  unrefused (adjustStorage (Version.workspaceId V) (- z) 0 (purge_version_row v d)).
Proof.
  intros Ha HV Hr Hz. apply adjust_unrefused. intros S HS. cbn in HS. rewrite (ac_used _ Ha _ S HS), (ac_reserved _ Ha _ S HS).
  pose proof (usage_nonneg d (Version.workspaceId V) Ha) as [_ ?]. pose proof (total_ge (ready_bytes d (Version.workspaceId V)) (Db.versions d) v V
    ltac:(intros k x Hk; by apply (ready_nonneg d _ k)) HV) as Hge. unfold ready_bytes in Hge at 1. rewrite Hr, Hz, !bool_decide_eq_true_2 in Hge by done. cbn in Hge. unfold computed_usage. lia.
Qed.

(** ** Releases, purges, publishes *)

Lemma delete_node_unrefused n d : unrefused (delete_node n d).
Proof. unfold delete_node. by destruct (any _ _). Qed.
Lemma release_unrefused id U d : accounted d → Db.uploads d !! id = Some U → unrefused (releaseUpload id U upload_aborted d).
Proof.
  intros Ha HU. unfold releaseUpload. apply unrefused_bind; [by apply (give_back_unrefused d id)|]. intros x _. destruct (Upload.newNode U); [|done].
  case_bool_decide; [apply delete_node_unrefused|done].
Qed.
Lemma release_kept_unrefused id U d : accounted d → Db.uploads d !! id = Some U → unrefused (releaseUpload id (keep_node U) upload_aborted d).
Proof. intros Ha HU. unfold releaseUpload. apply unrefused_bind; [exact (give_back_unrefused d id U Ha HU)|]. by intros x _. Qed.
Lemma purgeVersion_unrefused d v V size w : accounted d → as_read d (v, V, size) → w = Version.workspaceId V → unrefused (purgeVersion w v V size d).
Proof.
  intros Ha [Hp|[HV Hz]] ->; cbn in *; unfold purgeVersion; [by rewrite Hp|]. destruct (Version.status V) eqn:Es; [| |done].
  - destruct (the_upload d v V Ha HV Es) as (u & U & Eu & HU & _ & Hl). rewrite Eu. unfold live_upload in Hl. destruct (Upload.status U); try done; by apply release_kept_unrefused.
  - unfold purge_row. rewrite Es, Hz. destruct (version_has_size d v V Ha HV ltac:(congruence)) as (z & Ez & _). rewrite Ez.
    apply unrefused_bind; [by apply free_unrefused|done].
Qed.
Lemma purge_each_unrefused rows w n : ∀ d, accounted d → NoDup (map (λ r, r.1.1) rows) → rows_of d w n rows → unrefused (purge_each w rows d).
Proof.
  induction rows as [|[[v V] size] rows IH]; intros d Ha Hnd Hr; cbn [purge_each]; [done|]. destruct (Hr (v, V, size) ltac:(left)) as (Hv & Hw & En).
  apply unrefused_bind; [by apply purgeVersion_unrefused|]. intros d1 H1. destruct (purgeVersion_goes d v V size w d1 Ha Hv (eq_sym Hw) H1) as (Hg1 & Hs1 & _).
  apply NoDup_cons in Hnd as [Hni Hnd]. apply IH; [by eapply row_purges_ok|done|]. intros r Hin. destruct (Hr r ltac:(by right)) as [Hx ?]. split; [|done].
  by apply (later_as_read _ _ _ _ _ _ _ Hs1 Hni Hin).
Qed.
Lemma purgeOne_unrefused now w n seq anc d : accounted d → unrefused (purgeOne now w n seq anc d).
Proof.
  intros Ha. unfold purgeOne. destruct (Db.nodes d !! n) as [N|] eqn:HN; [|done]. destruct (_ || _) eqn:Eg; [done|]. apply orb_false_iff in Eg as [Ew _].
  apply negb_false_iff, bool_decide_eq_true in Ew. apply unrefused_bind; [|done]. apply (purge_each_unrefused _ w n); [done|apply versions_of_NoDup|by apply (versions_of_are d w n N)].
Qed.
Lemma purge_older_unrefused older w n : ∀ d, accounted d → NoDup (map (λ r, r.1.1) older) →
  rows_of d w n (map (λ r, (r.1, Some r.2)) older) → (∀ r, r ∈ older → Version.status r.1.2 = version_ready) → unrefused (purge_older w older d).
Proof.
  induction older as [|[[v V] size] older IH]; intros d Ha Hnd Hrow Hr; cbn [purge_older]; [done|]. pose proof (Hr (v, V, size) ltac:(left)) as Hs. cbn [map] in Hrow.
  destruct (Hrow (v, V, Some size) ltac:(left)) as ([Hx|[HV Hz]] & Hw & En); cbn in *; [congruence|]. apply unrefused_bind; [rewrite <- Hw; by apply free_unrefused|].
  intros x Hadj. assert (purge_row w v V (Some size) d = Ok (retire_option (Version.objectId V) x)) as H1 by (unfold purge_row; by rewrite Hs, Hadj).
  apply (purge_row_is v V size w d _ Hs) in H1; [|done]. rewrite H1. pose proof (purged_ready_shrinks v V size d) as Hs1.
  apply NoDup_cons in Hnd as [Hni Hnd]. apply IH; [by apply purged_ready_ok|done| |intros r Hin; apply Hr; by right]. intros r' Hin. destruct (Hrow r' ltac:(by right)) as [Hy ?].
  split; [|done]. apply list_elem_of_In, in_map_iff in Hin as (r & <- & Hin). apply list_elem_of_In in Hin. by apply (later_as_read _ _ _ _ _ _ _ Hs1 Hni Hin).
Qed.
Lemma displace_unrefused now w n x v V d : accounted d → Db.versions d !! v = Some V → Version.nodeId V = n → Version.workspaceId V = w →
  unrefused (displace now w n x v d).
Proof.
  intros Ha HV En Ew. apply unrefused_bind; [|done]. apply (purge_older_unrefused _ w n); [done|apply older_NoDup|..].
  - intros r' Hin. apply list_elem_of_In, in_map_iff in Hin as (r & <- & Hin). apply list_elem_of_In in Hin. destruct (older_rows _ _ _ _ _ Hin) as (HR & En' & Es & Ez & _).
    split_and!; [by right| |done]. cbn. destruct (ac_node _ Ha _ _ HR) as (N & HN & E1), (ac_node _ Ha v V HV) as (N' & HN' & E2). congruence.
  - intros r Hin. by destruct (older_rows _ _ _ _ _ Hin) as (_ & _ & Es & _).
Qed.
Lemma publish_unrefused now id U o size anc displaced seq N d : accounted d → Db.uploads d !! id = Some U → live_upload U = true → upload_size d U = Some size →
  Db.nodes d !! Upload.nodeId U = Some N → Node.purgedAt N = None → unrefused (publishUpload now id U o size anc displaced seq d).
Proof.
  intros Ha HU Hl Hz HN Hp. unfold publishUpload. apply unrefused_bind.
  - pose proof (give_back_unrefused d id U Ha HU) as Hg. unfold adjustStorage in *. destruct (Db.storage d !! Upload.workspaceId U) as [S|] eqn:ES; [|done].
    assert (0 ≤ size) as Hs. { unfold upload_size in Hz. destruct (Upload.objectId U) as [x|]; [|done]. cbn in Hz. destruct (Db.objects d !! x) as [O|] eqn:HO; [|done]. injection Hz as <-. by apply (ac_sizes _ Ha x). }
    pose proof (usage_nonneg d (Upload.workspaceId U) Ha) as [Hu _]. rewrite <- (ac_used _ Ha _ S ES) in Hu. cbn in *.
    destruct (Z.ltb_spec (Storage.usedBytes S + size) 0); [lia|]. cbn. destruct (Storage.reservedBytes S + - Upload.reservedBytes U <? 0); [|done]. rewrite orb_true_r in Hg. exfalso. exact (Hg eq_refl).
  - intros d1 ->%adjust_ok. apply unrefused_bind; [|done]. destruct displaced as [x|]; [|done].
    destruct (ac_live _ Ha id U HU Hl) as (V & HV & _ & Ew & En & _). pose proof (published_ok id U o size seq N d Ha HU Hl Hz HN Hp) as Ha2.
    pose proof (displace_unrefused now (Upload.workspaceId U) (Upload.nodeId U) x _ _ _ Ha2 (published_rows id U o size seq d V HV) En Ew) as Hd.
    unfold published in Hd. rewrite displace_mark in Hd. cbn [set_object_status set_objects Db.versions adjusted set_storage] in Hd |- *.
    destruct (displace _ _ _ _ _ _) as [y|e]; [done|]. exact Hd.
Qed.
Lemma settle_move_unrefused now id move seq d : accounted d → unrefused (settle_move now id move seq d).
Proof.
  intros Ha. destruct move as [m|]; [|done]. destruct seq as [s|]; [|done]. apply unrefused_bind; [by apply purgeOne_unrefused|]. by intros [x b] _.
Qed.
Lemma publish_settle_unrefused {A} now id U o size anc displaced seq move sourceSeq (a : A) N d : accounted d → Db.uploads d !! id = Some U → live_upload U = true →
  Upload.objectId U = Some o → upload_size d U = Some size → Db.nodes d !! Upload.nodeId U = Some N → Node.purgedAt N = None →
  unrefused (let* d := publishUpload now id U o size anc displaced seq d in let* d := settle_move now id move sourceSeq d in Ok (d, a)).
Proof.
  intros Ha HU Hl Eo Hz HN Hp. apply unrefused_bind; [by apply (publish_unrefused now id U o size anc displaced seq N)|]. intros d1 H1. apply unrefused_bind; [|done].
  apply settle_move_unrefused. apply (goes_ok (λ _ _, True) d d1 Ha). apply (publishUpload_goes _ now id U o size anc displaced seq N); auto.
Qed.

(** ** Every transaction *)

Section requests.
Context `{SB : SignedBy} (Hsigned : ∀ user statements, unrefused (signedBy user statements)).

Lemma writer_unrefused now d w writer g : unrefused (requireStillWriter now d w writer g).
Proof. unfold requireStillWriter. by repeat case_match. Qed.
Lemma next_unrefused now w writer d : unrefused (nextChangeSeq now w writer d).
Proof.
  unfold nextChangeSeq. destruct (Db.workspaces d !! w) as [x|]; [|done]. apply unrefused_bind; [|done].
  destruct writer; [apply writer_unrefused|done].
Qed.
(** What a transaction does once it has its workspace's row. *)
Lemma after_next {A} now w writer d (f : Db.t * Z → result A) : accounted d →
  (∀ d0 n, accounted d0 → nextChangeSeq now w writer d = Ok (d0, n) → unrefused (f (d0, n))) → unrefused (nextChangeSeq now w writer d ≫= f).
Proof.
  intros Ha Hf. apply unrefused_bind; [apply next_unrefused|]. intros [d0 n] H. apply Hf; [|done]. by apply (goes_next (λ _ _, False) _ _ _ _ _ _ Ha H).
Qed.
Lemma lock_unrefused now w writer move d : unrefused (lockForCompletion now w writer move d).
Proof.
  unfold lockForCompletion. apply unrefused_bind; [apply next_unrefused|]. intros [d1 n] _. by repeat case_match.
Qed.
Lemma after_lock {A} now w writer move d (f : Db.t * (Z * option Z) → result A) : accounted d →
  (∀ d0 s, accounted d0 → unrefused (f (d0, s))) → unrefused (lockForCompletion now w writer move d ≫= f).
Proof.
  intros Ha Hf. apply unrefused_bind; [apply lock_unrefused|]. intros [d0 s] H. apply Hf. by apply (goes_lock (λ _ _, False) _ _ _ _ _ _ _ Ha H).
Qed.
Lemma keeping_unrefused {A} keep (work : Db.t → result (Db.t * A)) d : unrefused (work d) → unrefused (transactionKeeping keep work d).
Proof. intros H. apply unrefused_bind; [done|]. by intros [d' a] _. Qed.

Lemma begin_unrefused now i d : accounted d → begin_fits d i → unrefused (beginUpload now i d).
Proof.
  intros Ha [Hs _]. apply keeping_unrefused, after_next; [done|]. intros d0 n Ha0 _. destruct (begin_target d0 _ _) as [|[epoch expected]]; [done|].
  apply unrefused_bind; [apply Hsigned|]. intros signed _. destruct (negb signed); [done|]. destruct (move_source now d0 i) as [|move]; [done|].
  destruct (storageFigures now d0 _) as [s|]; [|done]. cbv zeta. case_match; [done|]. apply unrefused_bind; [|intros d1 _; by destruct (begin_rows _ _ _ _ _ _)].
  apply adjust_unrefused. intros S HS. rewrite (ac_used _ Ha0 _ S HS), (ac_reserved _ Ha0 _ S HS). pose proof (usage_nonneg d0 (UploadBegin.workspaceId i) Ha0).
  pose proof (reserve_nonneg now d0 s move _ Hs). lia.
Qed.
Lemma release_as_unrefused {A} id U (a : A) d : accounted d → Db.uploads d !! id = Some U → unrefused (release_as id U a d).
Proof. intros Ha HU. apply unrefused_bind; [by apply release_unrefused|done]. Qed.
Lemma start_unrefused now w id writer d : unrefused (startCompleting now w id writer d).
Proof.
  unfold startCompleting. apply unrefused_bind; [destruct writer; [apply writer_unrefused|done]|]. intros _ _. by repeat case_match.
Qed.
Lemma finish_unrefused now w id stored writer d : accounted d → unrefused (finishCompleting now w id stored writer d).
Proof.
  intros Ha. unfold finishCompleting. apply after_lock; [done|]. intros d0 [seq sourceSeq] Ha0. destruct (upload_in d0 w id) as [U|] eqn:HU; [|done].
  apply upload_in_is in HU as [HU _]. destruct (Upload.status U) eqn:Es; try done.
  all: assert (live_upload U = true) as Hl by (unfold live_upload; by rewrite Es).
  all: pose proof (λ a : Finished.t, release_as_unrefused id U a d0 Ha0 HU) as Hrel.
  all: case_bool_decide; [apply Hrel|]; destruct stored as [stored|]; [|apply Hrel]; destruct (upload_size d0 U) as [size|] eqn:Ez; [|apply Hrel];
    destruct (Upload.objectId U) as [o|] eqn:Eo; [|apply Hrel]; destruct (negb (stored =? size)); [apply Hrel|];
    destruct (walk d0 (Upload.nodeId U)) as [chain|] eqn:Hw; [|apply Hrel]; destruct (Walk.purged chain) eqn:Hp; [apply Hrel|];
    destruct (match _ with Some _ => _ | None => false end); [apply Hrel|]; destruct (_ || _); [done|]; destruct (walk_spec _ _ _ Hw) as (_ & HN & Hpn);
    apply (publish_settle_unrefused _ _ _ _ _ _ _ _ _ _ _ (Walk.node chain)); [done..|]; by apply Hpn.
Qed.
Lemma attach_same_unrefused now id U o size epoch seq sourceSeq d : accounted d → Db.uploads d !! id = Some U → live_upload U = true → Upload.objectId U = Some o →
  upload_size d U = Some size → unrefused (attach_same now id U o size epoch seq sourceSeq d).
Proof.
  intros Ha HU Hl Eo Hz. unfold attach_same. destruct (walk d (Upload.nodeId U)) as [chain|] eqn:Hw; [|by apply release_as_unrefused].
  destruct (Walk.purged chain) eqn:Hp; [by apply release_as_unrefused|]. destruct (underUnrotatedParent _ _ _); [done|].
  destruct (negb _); [done|]. destruct (_ || _); [done|]. destruct (walk_spec _ _ _ Hw) as (_ & HN & Hpn).
  eapply publish_settle_unrefused; [exact (alike_ok _ _ (onto_alike d id U epoch HU) Ha)|apply lookup_insert_eq|exact Hl|exact Eo|exact Hz|exact HN|by apply Hpn].
Qed.
Lemma attach_sibling_unrefused now id U o size n parentId e seq sourceSeq d : accounted d → Db.uploads d !! id = Some U → live_upload U = true → Upload.objectId U = Some o →
  upload_size d U = Some size → unrefused (attach_sibling now id U o size n parentId e seq sourceSeq d).
Proof.
  intros Ha HU Hl Eo Hz. unfold attach_sibling. destruct (new_parent d _ _ _ _) as [|parent] eqn:Hpar; [done|].
  destruct (insert_node n _ d) as [d1|] eqn:H1; [|done]. apply insert_node_is in H1 as [Hn ->]. cbv zeta.
  apply unrefused_bind; [destruct (Upload.newNode U); [apply delete_node_unrefused|done]|]. intros d3 H3.
  destruct (sibling_ready (λ _ _, False) d id U n (new_node_row (Upload.workspaceId U) parentId (NodeEnvelopes.keyEpoch e) (NodeEnvelopes.parentKeyEpoch e) None) (NodeEnvelopes.keyEpoch e) d3 Ha HU Hl Hn eq_refl eq_refl eq_refl H3) as (_ & Ha3 & HU3 & Ho3 & N3 & HN3 & Hp3).
  eapply publish_settle_unrefused; [exact Ha3|exact HU3|exact Hl|exact Eo| |exact HN3|exact Hp3]. unfold upload_size in *. cbn. by rewrite Ho3.
Qed.
Lemma attach_unrefused now w id i writer d : accounted d → unrefused (attachUpload now w id i writer d).
Proof.
  intros Ha. apply after_lock; [done|]. intros d0 [seq sourceSeq] Ha0. destruct (upload_in d0 w id) as [U|] eqn:HU; [|done].
  apply upload_in_is in HU as [HU _]. destruct (Upload.status U) eqn:Es; try done. assert (live_upload U = true) as Hl by (unfold live_upload; by rewrite Es).
  destruct (Upload.objectId U ≫= _) as [[o O]|] eqn:Eo; [|done]. destruct (match _ with Some _ => _ | None => false end); [by apply release_as_unrefused|].
  apply unrefused_bind; [apply Hsigned|]. intros signed _. destruct (negb signed); [done|]. destruct (upload_object _ _ _ _ Eo) as (Eo' & Hz).
  destruct (AttachInput.mode i); [by apply attach_same_unrefused|by apply attach_sibling_unrefused].
Qed.
Lemma abort_unrefused now w id force d : accounted d → unrefused (abortUpload now w id force d).
Proof.
  intros Ha. apply after_next; [done|]. intros d0 n Ha0 _. destruct (upload_in d0 w id) as [U|] eqn:HU; [|done]. apply upload_in_is in HU as [HU _].
  destruct (Upload.status U); try done; [by apply release_as_unrefused|destruct force; [by apply release_as_unrefused|done]|by apply release_as_unrefused].
Qed.
Lemma copy_unrefused now i d : accounted d → unrefused (copyFile now i d).
Proof.
  intros Ha. apply keeping_unrefused, after_next; [done|]. intros d0 n Ha0 _. cbv zeta. destruct (walked d0 _ _ file); [|done]. destruct (Walk.trashed _); [done|].
  destruct (current_version d0 _) as [[[x V] [o O]]|] eqn:Hc; [|done]. apply current_version_spec in Hc as (_ & _ & _ & HO).
  destruct (_ || _); [done|]. destruct (negb _); [done|]. destruct (new_parent d0 _ _ _ _) as [|parent]; [done|]. destruct (negb _); [done|].
  apply unrefused_bind; [apply Hsigned|]. intros signed _. destruct (negb signed); [done|]. destruct (storageFigures now d0 _) as [s|]; [|done]. destruct (_ <? _); [done|].
  destruct (insert_node _ _ d0 ≫= _) as [d3|] eqn:H3; [|done]. apply bind_Some in H3 as (d2 & H2 & H3). apply insert_node_is in H2 as [Hn ->].
  apply insert_version_is in H3 as [Hv ->]. apply unrefused_bind; [|done]. apply adjust_unrefused. intros S HS. cbn in HS.
  rewrite (ac_used _ Ha0 _ S HS), (ac_reserved _ Ha0 _ S HS). pose proof (usage_nonneg d0 (CopyFile.workspaceId i) Ha0). pose proof (ac_sizes _ Ha0 o O HO). lia.
Qed.
Lemma restore_unrefused now w v writer d : accounted d → unrefused (restoreVersion now w v writer d).
Proof. intros Ha. apply after_next; [done|]. intros d0 n _ _. by repeat case_match. Qed.
Lemma purge_read_unrefused w v V d : accounted d → Db.versions d !! v = Some V → Version.workspaceId V = w → unrefused (purgeVersion w v V (object_size d V) d).
Proof. intros Ha HV Hw. apply purgeVersion_unrefused; [done|by right|done]. Qed.
Lemma discard_unrefused now w v writer d : accounted d → unrefused (discardVersion now w v writer d).
Proof.
  intros Ha. apply after_next; [done|]. intros d0 n Ha0 _. cbv zeta. destruct (version_in d0 w v) as [V|] eqn:HV; [|done]. apply version_in_is in HV as [HV Hw].
  destruct (_ !== _); [done|]. destruct (walk d0 _) as [chain|]; [|done]. destruct (Walk.purged chain); [done|]. destruct (_ || _); [done|].
  apply unrefused_bind; [by apply purge_read_unrefused|done].
Qed.
Lemma purgeNode_unrefused now w n writer d : accounted d → unrefused (purgeNode now w n writer d).
Proof.
  intros Ha. apply after_next; [done|]. intros d0 s Ha0 _. destruct (purgeRefusal _ _); [done|]. apply unrefused_bind; [by apply purgeOne_unrefused|]. by intros [d1 b] _.
Qed.
Lemma purge_going_unrefused now w going : ∀ seq d, accounted d → unrefused (purge_going now w going seq d).
Proof.
  induction going as [|[id above] going IH]; intros seq d Ha; cbn [purge_going]; [done|]. apply unrefused_bind; [by apply purgeOne_unrefused|]. intros [d1 b] H1.
  apply unrefused_bind; [|by intros [d2 r] _]. apply IH. apply (goes_ok (λ _ _, False) d d1 Ha). by eapply purgeOne_goes.
Qed.
Lemma purgeNodes_unrefused now w ids writer fits d : accounted d → unrefused (purgeNodes now w ids writer fits d).
Proof.
  intros Ha. unfold purgeNodes. destruct (_ || _); [done|]. destruct (bool_decide _); [|done]. destruct (negb _); [done|].
  apply after_next; [done|]. intros d0 s Ha0 _. cbv zeta. apply unrefused_bind; [by apply purge_going_unrefused|]. by intros [d1 done] _.
Qed.
Lemma purge_rows_unrefused now rows : ∀ d, accounted d → unrefused (purge_rows now rows d).
Proof.
  induction rows as [|row rows IH]; intros d Ha; cbn [purge_rows]; [done|]. apply unrefused_bind.
  - apply after_next; [done|]. intros d0 n Ha0 _. by apply purgeOne_unrefused.
  - intros [d1 b] H1. apply unrefused_bind; [|by intros [d2 c] _]. apply IH. unfold purge_descendant in H1. apply bind_ok in H1 as ([d0 s] & H0 & H1).
    destruct (goes_next (λ _ _, False) _ _ _ _ _ _ Ha H0) as [Ha0 _]. apply (goes_ok (λ _ _, False) d0 d1 Ha0). by eapply purgeOne_goes.
Qed.
Lemma superseded_unrefused now w v d : accounted d → (∀ V, Db.versions d !! v = Some V → Version.workspaceId V = w) → unrefused (purge_superseded now w v d).
Proof.
  intros Ha Hw. apply after_next; [done|]. intros d0 n Ha0 H0. apply next_is in H0 as [y ->]. destruct (Db.versions _ !! v) as [V|] eqn:HV; [|done].
  destruct (_ || _); [done|]. apply unrefused_bind; [|done]. apply purge_read_unrefused; [done|done|by apply Hw].
Qed.
Lemma delete_tombstones_unrefused ids : ∀ d, unrefused (delete_tombstones ids d).
Proof. induction ids as [|n ids IH]; intros d; cbn [delete_tombstones]; [done|]. apply unrefused_bind; [apply delete_node_unrefused|]. intros d1 _. apply IH. Qed.
Lemma run_unrefused now q d : accounted d → fitting d q → unrefused (run now q d).
Proof.
  intros Ha Hf. destruct q; cbn [run fitting] in *; apply unrefused_forget.
  - by apply begin_unrefused.
  - apply start_unrefused.
  - by apply finish_unrefused.
  - by apply attach_unrefused.
  - by apply abort_unrefused.
  - by apply copy_unrefused.
  - by apply restore_unrefused.
  - by apply discard_unrefused.
  - by apply purgeNode_unrefused.
  - by apply purgeNodes_unrefused.
  - by apply purge_rows_unrefused.
  - by apply superseded_unrefused.
  - apply unrefused_bind; [apply delete_tombstones_unrefused|done].
Qed.
End requests.

(** C21. After any run as in [usage_exact], of requests that fit, no request that fits ([fitting]: the server
    itself does not check what a begin names) is lost to the constraint that a storage row's used and
    reserved bytes stay at or above zero: a purge, a publish, an abort or a copy that the code does not
    refuse itself commits. *)
Theorem storage_never_refuses `{SB : SignedBy} d0 d now q : (∀ user statements, signedBy user statements ≠ Err STORAGE_NONNEGATIVE) →
  blank d0 → rtc step d0 d → fitting d q → run now q d ≠ Err STORAGE_NONNEGATIVE.
Proof. intros Hs Hb Hr Hf. apply run_unrefused; [exact Hs|by eapply reached_ok|done]. Qed.
Lemma storage_never_refuses_witness : run (SB := DriveToy.signed) 20 (aborts "w" "u2" false) (DriveToy.after 4) ≠ Err STORAGE_NONNEGATIVE ∧
  (serve (SB := DriveToy.signed) 20 (aborts "w" "u2" false) (DriveToy.after 4)).(Db.storage) !! "w" = Some (Storage.Build_t 1000 300 0).
Proof.
  split; [|by vm_compute]. apply (storage_never_refuses (SB := DriveToy.signed) DriveToy.start); [done|exact toy_blank|exact toy_reached|done].
Defined.

(** ** An abort *)

Lemma adjust_commits w a b d : unrefused (adjustStorage w a b d) → adjustStorage w a b d = Ok (adjusted w a b d).
Proof.
  intros H. destruct (adjustStorage w a b d) as [x|e] eqn:E; [by apply adjust_ok in E as ->|]. exfalso. unfold adjustStorage in E. destruct (Db.storage d !! w); [|done].
  cbv zeta in E. destruct (_ || _); [|done]. injection E as <-. exact (H eq_refl).
Qed.
Lemma retire_storage o d : Db.storage (retire_option o d) = Db.storage d ∧ Db.nodes (retire_option o d) = Db.nodes d.
Proof. destruct o as [o|]; [|done]. cbn. unfold retireObjectIfUnreferenced. destruct (any _ _); [done|]. by destruct (Db.objects d !! o). Qed.
Definition nothing_under (d : Db.t) (n : string) : Prop := ∀ m N, Db.nodes d !! m = Some N → Node.parentId N ≠ Some n.
Lemma delete_node_commits d n : nothing_under d n → ∃ d', delete_node n (drop_versions (λ e, Version.nodeId e.2 = n) d) = Ok d' ∧ Db.storage d' = Db.storage d ∧
  Db.nodes d' !! n = None ∧ no_versions d' n ∧ ∀ v V, Db.versions d' !! v = Some V → Db.versions d !! v = Some V.
Proof.
  intros Hn. unfold delete_node. destruct (any _ _) eqn:E.
  - exfalso. apply any_true in E as (m & N & HN & E). apply bool_decide_eq_true in E. cbn in HN. rewrite lookup_fmap in HN. apply fmap_Some in HN as (N0 & HN0 & ->).
    apply (Hn m N0 HN0). rewrite <- E. by repeat case_match.
  - eexists. split; [done|]. split; [done|]. split; [apply lookup_delete_eq|]. split; intros v V HV; [intros Ev|]; cbn in HV; rewrite !map_lookup_filter_Some in HV; [by destruct HV as [_ []]|tauto].
Qed.
Lemma released_not_ready id U d : not_ready (released id U d) (Upload.versionId U).
Proof.
  eapply not_ready_shrinks; [apply (retire_shrinks [])|]. intros V HV. cbn in HV. rewrite lookup_alter_eq in HV. apply fmap_Some in HV as (V0 & _ & ->). done.
Qed.
Lemma release_commits id U d : accounted d → Db.uploads d !! id = Some U → nothing_under d (Upload.nodeId U) →
  ∃ d', releaseUpload id U upload_aborted d = Ok d' ∧ Db.storage d' = alter (λ S, adjust S 0 (- Upload.reservedBytes U)) (Upload.workspaceId U) (Db.storage d) ∧
    not_ready d' (Upload.versionId U) ∧ (Upload.newNode U = true → Db.nodes d' !! Upload.nodeId U = None ∧ no_versions d' (Upload.nodeId U)).
Proof.
  intros Ha HU Hc. pose proof (released_not_ready id U d) as Hnr. destruct (retire_storage (Upload.objectId U) (settle_rows id U version_purged 0 upload_aborted d)) as [Es En].
  change (retire_option _ (settle_rows _ _ _ _ _ _)) with (released id U d) in Es, En.
  assert (releaseUpload id U upload_aborted d = if Upload.newNode U
    then if bool_decide (is_Some (Db.nodes (drop_versions (λ e, Version.nodeId e.2 = Upload.nodeId U) (released id U d)) !! Upload.nodeId U))
      then delete_node (Upload.nodeId U) (drop_versions (λ e, Version.nodeId e.2 = Upload.nodeId U) (released id U d))
      else Ok (drop_versions (λ e, Version.nodeId e.2 = Upload.nodeId U) (released id U d))
    else Ok (released id U d)) as ->.
  { unfold releaseUpload. by rewrite (adjust_commits _ _ _ d (give_back_unrefused d id U Ha HU)). }
  destruct (Upload.newNode U); [|eexists; split; [done|]; split; [exact Es|done]].
  destruct (delete_node_commits (released id U d) (Upload.nodeId U)) as (d' & Hd & Es' & Hn' & Hv' & Hs'); [intros m N; rewrite En; apply Hc|].
  case_bool_decide as Hin; [exists d'|eexists]; (split; [done|]).
  - split; [by rewrite Es', Es|]. split; [|done]. intros V HV. by apply Hnr, Hs'.
  - split; [exact Es|]. split; [|intros _; split; [by apply eq_None_not_Some|apply dropped_no_versions]].
    intros V HV. cbn in HV. rewrite map_lookup_filter_Some in HV. destruct HV as [HV _]. by apply Hnr.
Qed.
(** An upload that is open or conflicted is always given up when asked (one being completed only by force):
    the abort commits, gives its workspace back exactly what it had reserved and nothing of any other row,
    purges its version, and takes the file begin made for it. *)
Theorem abort_gives_back `{SB : SignedBy} d0 d now id U force W : blank d0 → rtc step d0 d → Db.uploads d !! id = Some U → live_upload U = true →
  Upload.status U ≠ upload_completing ∨ force = true → Db.workspaces d !! Upload.workspaceId U = Some W → nothing_under d (Upload.nodeId U) →
  ∃ d', abortUpload now (Upload.workspaceId U) id force d = Ok (d', Aborted.ok false) ∧
    Db.storage d' = alter (λ S, adjust S 0 (- Upload.reservedBytes U)) (Upload.workspaceId U) (Db.storage d) ∧
    not_ready d' (Upload.versionId U) ∧ (Upload.newNode U = true → Db.nodes d' !! Upload.nodeId U = None ∧ no_versions d' (Upload.nodeId U)).
Proof.
  intros Hb Hr HU Hl Hs HW Hc. pose proof (reached_ok d0 d Hb Hr) as Ha. unfold abortUpload, nextChangeSeq. rewrite HW. cbn [mbind res_bind].
  set (d1 := set_workspaces d _). assert (accounted d1) as Ha1 by (eapply alike_ok; [apply alike_workspaces|done]).
  assert (upload_in d1 (Upload.workspaceId U) id = Some U) as -> by (unfold upload_in; cbn; rewrite HU; by rewrite bool_decide_eq_true_2).
  destruct (release_commits id U d1 Ha1 HU Hc) as (d' & H' & HS & HV & HN).
  exists d'. split; [|done]. unfold release_as. rewrite H'. unfold live_upload in Hl. destruct (Upload.status U); try done. by destruct Hs as [| ->].
Qed.
Lemma abort_gives_back_witness : ∃ d', abortUpload 20 "w" "u2" false (DriveToy.after 4) = Ok (d', Aborted.ok false) ∧
    Db.storage d' = alter (λ S, adjust S 0 (- 200)) "w" (Db.storage (DriveToy.after 4)) ∧ not_ready d' "v2".
Proof.
  assert (nothing_under (DriveToy.after 4) "n") as Hn.
  { intros m N HN E. assert (map_to_list ((λ N, Node.parentId N) <$> Db.nodes (DriveToy.after 4)) = [("n", Some "r"); ("r", None)]) as El by by vm_compute.
    assert ((m, Some "n") ∈ map_to_list ((λ N, Node.parentId N) <$> Db.nodes (DriveToy.after 4))) as Hin by (apply elem_of_map_to_list; rewrite lookup_fmap, HN; cbn; by rewrite E).
    rewrite El in Hin. clear -Hin. apply elem_of_cons in Hin as [Hin|[Hin|[]%elem_of_nil]%elem_of_cons]; inversion Hin. }
  destruct (Db.uploads (DriveToy.after 4) !! "u2") as [U|] eqn:HU; [|by vm_compute in HU]. vm_compute in HU. injection HU as HU.
  edestruct (abort_gives_back (SB := DriveToy.signed) DriveToy.start (DriveToy.after 4) 20 "u2") as (d' & H1 & H2 & H3 & _);
    [exact toy_blank|exact toy_reached|vm_compute; reflexivity|reflexivity|by left|vm_compute; reflexivity|exact Hn|]. exists d'. split_and!; [exact H1|exact H2|exact H3].
Defined.
