(* ===== verification/DriveKept.v ===== *)
(** * What a Drive server keeps (packages/db/src/drive.ts)

    Every object row is some version's, every object that has been let go is
    named by the outbox and by nothing else, and a file that is there has a
    current version that is ready: what a transaction may purge, and what it
    may not. Proved of every write a transaction is made of ([prim]). *)

From S2P Require Import Prelude DriveTables Pool DriveUploads DrivePurges DriveAccounting DriveAlike DriveBalance DriveReached.

(** A version, not purged, whose object this is. *)
Definition referenced (d : Db.t) (o : string) : Prop :=
  ∃ v V, Db.versions d !! v = Some V ∧ Version.objectId V = Some o ∧ Version.status V ≠ version_purged.
(** [but]: an object about to be let go, if no version needs it. *)
Record objects_kept (but : option string) (d : Db.t) : Prop := {
  ok_referenced : ∀ o O, Db.objects d !! o = Some O → Some o = but ∨ referenced d o;
  ok_ready : ∀ v V o O, Db.versions d !! v = Some V → Version.status V = version_ready → Version.objectId V = Some o → Db.objects d !! o = Some O → Obj.status O ≠ object_pending;
  ok_fresh : ∀ o O, Db.objects d !! o = Some O → fresh_key d o (Obj.objectKey O);
  ok_keys : ∀ o o' O O', Db.objects d !! o = Some O → Db.objects d !! o' = Some O' → Obj.objectKey O = Obj.objectKey O' → o = o';
  ok_outbox : ∀ x y X Y, Db.deletions d !! x = Some X → Db.deletions d !! y = Some Y → Deletion.objectKey X = Deletion.objectKey Y → x = y;
}.
(** [but]: a node whose versions are being purged. *)
Record currents_kept (but : option string) (d : Db.t) : Prop := {
  ck_current : ∀ n N v, Some n ≠ but → Db.nodes d !! n = Some N → Node.purgedAt N = None → Node.currentVersionId N = Some v →
    ∃ V, Db.versions d !! v = Some V ∧ Version.nodeId V = n ∧ Version.status V = version_ready;
  ck_has : ∀ v V N, Some (Version.nodeId V) ≠ but → Db.versions d !! v = Some V → Version.status V = version_ready → Db.nodes d !! Version.nodeId V = Some N →
    is_Some (Node.currentVersionId N);
}.
Definition kept (d : Db.t) : Prop := objects_kept None d ∧ currents_kept None d.

(** ** Objects and the outbox *)

Lemma referenced_any d o : any (λ v, (Version.objectId v === Some o) && (Version.status v !== version_purged)) (Db.versions d) = true ↔ referenced d o.
Proof.
  rewrite any_true. unfold referenced. split; intros (v & V & HV & H); exists v, V.
  - apply andb_true_iff in H as [H1 H2]. apply bool_decide_eq_true in H1. apply negb_true_iff, bool_decide_eq_false in H2. done.
  - destruct H as [H1 H2]. split; [done|]. rewrite bool_decide_eq_true_2 by done. by rewrite bool_decide_eq_false_2.
Qed.
Lemma referenced_shrinks d d' o : shrinks [] d d' → referenced d o → referenced d' o.
Proof.
  intros [] (v & V & HV & Eo & Hp). destruct (sr_frame v V HV Hp) as [HV' _]; [by apply not_elem_of_nil|]. by exists v, V.
Qed.
Lemma objects_retire o d : objects_kept o d → objects_kept None (retire_option o d).
Proof.
  intros [Hr Hp Hf Hk Hob]. destruct o as [o|]; cbn; [|split; [|done..]; intros x O HO; by apply Hr in HO].
  pose proof (retire_shrinks [] (Some o) d) as Hs. cbn in Hs. unfold retireObjectIfUnreferenced in *.
  destruct (any _ _) eqn:E; [split; [|done..]; intros x O HO; right; destruct (Hr x O HO) as [[= ->]|?]; [by apply referenced_any|done]|].
  destruct (Db.objects d !! o) as [O0|] eqn:HO0; [|split; [|done..]; intros x O HO; right; destruct (Hr x O HO) as [[= ->]|?]; [congruence|done]].
  pose proof (Hf o O0 HO0) as [Hd _]. cbn in Hs |- *. rewrite Hd in Hs |- *. set (d' := set_deletions _ _) in *.
  assert (∀ x O, Db.objects d' !! x = Some O → x ≠ o ∧ Db.objects d !! x = Some O) as Ho by (intros x O HO; cbn in HO; apply lookup_delete_Some in HO as [? ?]; done).
  split.
  - intros x O [Hne HO]%Ho. right. destruct (Hr x O HO) as [[= ->]|Href]; [done|]. by apply (referenced_shrinks d).
  - intros v V' x O HV' Es Ex [Hne HO]%Ho. cbn in HV'. rewrite lookup_fmap in HV'. apply fmap_Some in HV' as (V & HV & ->).
    case_bool_decide as Eo; [by cbn in Ex|]. by apply (Hp v V x O).
  - intros x O [Hne HO]%Ho. destruct (Hf x O HO) as [Hx Hy]. split; cbn; [by rewrite lookup_insert_ne|]. intros y D. rewrite lookup_insert. case_decide; [|by apply Hy].
    intros [= <-]. cbn. intros E'. by apply Hne, (Hk x o O O0).
  - intros x y X Y [_ HX]%Ho [_ HY]%Ho. by apply Hk.
  - pose proof (Hf o O0 HO0) as [_ Hn]. intros x y X Y. cbn. rewrite !lookup_insert. case_decide; case_decide; [congruence|..|by apply Hob].
    + intros [= <-] HY E'. by destruct (Hn y Y HY).
    + intros HX [= <-] E'. by destruct (Hn x X HX).
Qed.
(** A version's status changed: the others still hold what they held. *)
Lemma objects_status d v V s d' : Db.versions d !! v = Some V → Db.versions d' = alter (λ x, with_status x s) v (Db.versions d) → s ≠ version_pending →
  (s = version_ready → ∀ o O, Version.objectId V = Some o → Db.objects d' !! o = Some O → Obj.status O ≠ object_pending) →
  map_Forall2 (λ _ (O O' : Obj.t), Obj.objectKey O = Obj.objectKey O' ∧ (Obj.status O' = object_pending → Obj.status O = object_pending)) (Db.objects d) (Db.objects d') →
  Db.deletions d' = Db.deletions d → objects_kept None d → objects_kept (match s with version_purged => Version.objectId V | _ => None end) d'.
Proof.
  intros HV Ev Hs Hready Eo Ed [Hr Hp Hf Hk Hob].
  assert (∀ o O', Db.objects d' !! o = Some O' → ∃ O, Db.objects d !! o = Some O ∧ Obj.objectKey O = Obj.objectKey O' ∧ (Obj.status O' = object_pending → Obj.status O = object_pending)) as Ho.
  { intros o O' HO'. specialize (Eo o). rewrite HO' in Eo. inversion Eo as [O ? [] HO|]; subst. eauto. }
  split.
  - intros o O' HO'. destruct (Ho o O' HO') as (O & HO & _). destruct (Hr o O HO) as [?|(x & X & HX & EX & Hn)]; [done|]. destruct (decide (x = v)) as [->|Hne].
    + assert (X = V) as -> by congruence. destruct s; [done|right|left; by rewrite EX]. exists v, (with_status V version_ready). rewrite Ev, lookup_alter_eq, HV. done.
    + right. exists x, X. rewrite Ev, lookup_alter_ne by done. done.
  - intros x X' o O' HX'. rewrite Ev in HX'. intros Es Ex HO'. apply alter_inv in HX' as [(-> & X & HX & ->)|[Hne HX]].
    + assert (X = V) as -> by congruence. cbn in Es, Ex. subst s. by apply (Hready eq_refl o O').
    + destruct (Ho o O' HO') as (O & HO & _ & Hst). intros E. by apply (Hp x X' o O HX Es Ex HO), Hst.
  - intros o O' HO'. destruct (Ho o O' HO') as (O & HO & <- & _). unfold fresh_key. rewrite Ed. by apply Hf.
  - intros o o' O O' HO HO' E. destruct (Ho o O HO) as (X & HX & EX & _), (Ho o' O' HO') as (Y & HY & EY & _). apply (Hk o o' X Y); [done|done|congruence].
  - by rewrite Ed.
Qed.
Lemma objects_same_rows (d : Db.t) : map_Forall2 (λ _ (O O' : Obj.t), Obj.objectKey O = Obj.objectKey O' ∧ (Obj.status O' = object_pending → Obj.status O = object_pending)) (Db.objects d) (Db.objects d).
Proof. intros i. by destruct (Db.objects d !! i); constructor. Qed.
Lemma objects_released id U d : accounted d → Db.uploads d !! id = Some U → live_upload U = true → objects_kept None d → objects_kept None (released id U d).
Proof.
  intros Ha HU Hl H. destruct (ac_live _ Ha id U HU Hl) as (V & HV & _ & _ & _ & Eo). apply objects_retire. rewrite <- Eo.
  apply (objects_status d (Upload.versionId U) V version_purged); try done. exact (objects_same_rows d).
Qed.
Lemma objects_purged_ready v V size d : Db.versions d !! v = Some V → objects_kept None d → objects_kept None (purged_ready v V size d).
Proof. intros HV H. apply objects_retire. apply (objects_status d v V version_purged); try done. exact (objects_same_rows d). Qed.
Definition same_bytes (V V' : Version.t) : Prop := Version.objectId V = Version.objectId V' ∧ Version.status V = Version.status V'.
#[export] Instance same_bytes_eq : Equivalence same_bytes.
Proof. unfold same_bytes. split; [done|by intros ?? []|intros ??? [] []; split; congruence]. Qed.
Lemma objects_rows d d' : map_Forall2 (λ _, same_name) (Db.objects d) (Db.objects d') → map_Forall2 (λ _, same_deletion) (Db.deletions d) (Db.deletions d') →
  map_Forall2 (λ _, same_bytes) (Db.versions d) (Db.versions d') → objects_kept None d → objects_kept None d'.
Proof.
  intros Eo Ed Ev [Hr Hp Hf Hk Hob]. split.
  - intros o O' HO'. destruct (rows_bwd _ _ _ _ Eo HO') as (O & HO & _). right. destruct (Hr o O HO) as [?|(v & V & HV & EV & Hn)]; [done|].
    destruct (rows_fwd _ _ _ _ Ev HV) as (V' & HV' & [E1 E2]). exists v, V'. split_and!; [done|congruence|congruence].
  - intros v V' o O' HV' Es Ex HO'. destruct (rows_bwd _ _ _ _ Eo HO') as (O & HO & _ & Hst), (rows_bwd _ _ _ _ Ev HV') as (V & HV & [E1 E2]).
    rewrite <- Hst. apply (Hp v V o O); congruence.
  - intros o O' HO'. destruct (rows_bwd _ _ _ _ Eo HO') as (O & HO & <- & _), (Hf o O HO) as [H1 H2]. split.
    + destruct (Db.deletions d' !! o) as [D|] eqn:E; [|done]. destruct (rows_bwd _ _ _ _ Ed E) as (D0 & HD0 & _). congruence.
    + intros x D HD. destruct (rows_bwd _ _ _ _ Ed HD) as (D0 & HD0 & <-). by apply (H2 x).
  - intros o o' O O' HO HO' E. destruct (rows_bwd _ _ _ _ Eo HO) as (X & HX & EX & _), (rows_bwd _ _ _ _ Eo HO') as (Y & HY & EY & _).
    apply (Hk o o' X Y); [done|done|congruence].
  - intros x y X' Y' HX HY E. destruct (rows_bwd _ _ _ _ Ed HX) as (X & HX0 & E1), (rows_bwd _ _ _ _ Ed HY) as (Y & HY0 & E2). unfold same_deletion in *.
    apply (Hob x y X Y); [done|done|congruence].
Qed.
Lemma objects_alike d d' : alike d d' → named_alike d d' → objects_kept None d → objects_kept None d'.
Proof. intros [] [Hn Hd]. apply objects_rows; [done|done|]. intros v. specialize (al_versions v). inversion al_versions as [?? []|]; constructor. split; done. Qed.
(** Rows dropped that were purged, or versions unchanged. *)
Lemma objects_fewer d d' : Db.objects d' = Db.objects d → Db.deletions d' = Db.deletions d →
  (∀ v V, Db.versions d' !! v = Some V → Db.versions d !! v = Some V) →
  (∀ v V, Db.versions d !! v = Some V → Version.status V ≠ version_purged → Db.versions d' !! v = Some V) → objects_kept None d → objects_kept None d'.
Proof.
  intros Eo Ed Hb Hfw [Hr Hp Hf Hk Hob]. split; unfold fresh_key; rewrite ?Eo, ?Ed; [| |exact Hf|exact Hk|exact Hob].
  - intros o O HO. right. destruct (Hr o O HO) as [?|(v & V & HV & EV & Hn)]; [done|]. exists v, V. auto.
  - intros v V o O HV%Hb. exact (Hp v V o O HV).
Qed.
Lemma objects_published id U o size seq d : accounted d → Db.uploads d !! id = Some U → live_upload U = true → Upload.objectId U = Some o →
  objects_kept None d → objects_kept None (published id U o size seq d).
Proof.
  intros Ha HU Hl Eo H. destruct (ac_live _ Ha id U HU Hl) as (V & HV & _ & _ & _ & EV).
  apply (objects_status d (Upload.versionId U) V version_ready); try done.
  - intros _ x O Ex HO. assert (x = o) as -> by congruence. cbn in HO. rewrite lookup_alter_eq in HO. apply fmap_Some in HO as (O0 & _ & ->). done.
  - intros x. cbn. destruct (decide (x = o)) as [->|Hne]; [rewrite lookup_alter_eq|rewrite lookup_alter_ne by done]; destruct (Db.objects d !! _); constructor; done.
Qed.
Lemma objects_pending v V u U o O d : Db.versions d !! v = None → Db.objects d !! o = None → any (λ x, Obj.objectKey x === Obj.objectKey O) (Db.objects d) = false →
  fresh_key d o (Obj.objectKey O) → Version.status V = version_pending → Version.objectId V = Some o → accounted d → objects_kept None d → objects_kept None (pending_rows v V u U o O d).
Proof.
  intros Hv Ho Hk' Hfr Es EV Ha [Hr Hp Hf Hk Hob]. set (d' := pending_rows _ _ _ _ _ _ _).
  assert (∀ x X, Db.objects d' !! x = Some X → (x = o ∧ X = O) ∨ (x ≠ o ∧ Db.objects d !! x = Some X)) as Hx.
  { intros x X. cbn. rewrite lookup_insert. case_decide; [intros [= <-]; by left|right; split; congruence]. }
  assert (∀ x X, Db.objects d !! x = Some X → Obj.objectKey X ≠ Obj.objectKey O) as Hne.
  { intros x X HX E. pose proof (proj1 (any_false _ _) Hk' x X HX) as Hb. cbn in Hb. by rewrite bool_decide_eq_true_2 in Hb. }
  split.
  - intros x X HX. right. destruct (Hx x X HX) as [[-> ->]|[_ HX0]]; [exists v, V; split_and!; [apply lookup_insert_eq|done|congruence]|].
    destruct (Hr x X HX0) as [?|(w & W & HW & EW & Hn)]; [done|]. exists w, W. split_and!; [cbn; rewrite lookup_insert_ne; [done|congruence]|done|done].
  - intros w W x X HW. cbn in HW. rewrite lookup_insert in HW. case_decide; [injection HW as <-; congruence|]. intros Er EW HX. destruct (Hx x X HX) as [[-> ->]|[_ HX0]]; [|by apply (Hp w W x X)].
    destruct (ac_object _ Ha w W HW ltac:(congruence)) as (y & Y & Ey & HY). congruence.
  - intros x X HX. destruct (Hx x X HX) as [[-> ->]|[_ HX0]]; [exact Hfr|exact (Hf x X HX0)].
  - intros x y X Y HX HY E. destruct (Hx x X HX) as [[-> ->]|[_ HX0]], (Hx y Y HY) as [[-> ->]|[_ HY0]]; [done|..|by apply (Hk x y X Y)].
    + by destruct (Hne y Y HY0).
    + by destruct (Hne x X HX0).
  - exact Hob.
Qed.
Lemma objects_copied v V o O d : Db.versions d !! v = None → Version.objectId V = Some o → Db.objects d !! o = Some O → Obj.status O = object_ready →
  objects_kept None d → objects_kept None (copied v V (Obj.ciphertextSize O) d).
Proof.
  intros Hv EV HO Es [Hr Hp Hf Hk Hob]. split; [|..|exact Hf|exact Hk|exact Hob].
  - intros x X HX. right. destruct (Hr x X HX) as [?|(w & W & HW & EW & Hn)]; [done|]. exists w, W. split_and!; [cbn; rewrite lookup_insert_ne; [done|congruence]|done|done].
  - intros w W x X HW. cbn in HW. rewrite lookup_insert in HW. case_decide; [injection HW as <-|exact (Hp w W x X HW)]. intros _ Ex HX. assert (x = o) as -> by congruence. cbn in HX. congruence.
Qed.
Lemma objects_row_purges n d d' : accounted d → rtc (row_purge n) d d' → objects_kept None d → objects_kept None d'.
Proof.
  intros Ha H. induction H as [|d d1 d' H1 _ IH]; [done|]. intros Hk. apply IH; [by eapply row_purge_ok|].
  destruct H1 as [id U HU Hl _|v V size HV _ Hr Hz]; [by apply objects_released|by apply objects_purged_ready].
Qed.
Lemma objects_drop d gone `{∀ e, Decision (gone e)} : only_purged d gone → objects_kept None d → objects_kept None (drop_versions gone d).
Proof.
  intros Hg. apply objects_fewer; [done|done|..]; intros v V; cbn; rewrite map_lookup_filter_Some; [by intros []|]. intros HV Hp. split; [done|].
  intros Hx. by apply Hp, (Hg v V).
Qed.
Lemma objects_prim told d d' : accounted d → prim told d d' → objects_kept None d → objects_kept None d'.
Proof.
  intros Ha Hp. destruct Hp; intros Hk.
  - eapply objects_alike; [done|by apply unnamed_named|done].
  - by apply objects_released.
  - by apply objects_purged_ready.
  - apply (objects_fewer d1); [done..|]. by eapply objects_row_purges.
  - by eapply objects_published.
  - by apply (objects_fewer d).
  - unfold delete_node in H1. not_refused H1 Hc. injection H1 as <-. apply (objects_fewer (drop_versions (λ e, Version.nodeId e.2 = n) d)); [done..|]. by apply objects_drop.
  - by apply objects_drop.
  - by apply (objects_fewer d).
  - by apply objects_pending.
  - by eapply objects_copied.
  - by apply (objects_fewer d).
  - apply (objects_rows d); [apply rows_refl..| |done]. by apply rows_alter.
Qed.

(** ** Current versions *)

Lemma currents_shrinks but w d d' : shrinks [w] d d' → (∀ n N, Some n ≠ but → Db.nodes d !! n = Some N → Node.purgedAt N = None → Node.currentVersionId N ≠ Some w) →
  currents_kept but d → currents_kept but d'.
Proof.
  intros [En Ev Hf] Hw [Hc Hh]. split; rewrite ?En.
  - intros n N v Hb HN Hp Hcur. destruct (Hc n N v Hb HN Hp Hcur) as (V & HV & EV & Es). exists V. split; [|done]. apply (Hf v V HV); [congruence|].
    intros E%list_elem_of_singleton. subst v. by apply (Hw n N).
  - intros v V' N Hb HV' Es HN. destruct (Ev v V' HV') as (V & HV & E1 & _ & [E2|E2]); [|congruence]. rewrite E1 in Hb, HN. apply (Hh v V N); [done|done|congruence|done].
Qed.
Lemma pending_not_current but d v V : currents_kept but d → Db.versions d !! v = Some V → Version.status V ≠ version_ready →
  ∀ n N, Some n ≠ but → Db.nodes d !! n = Some N → Node.purgedAt N = None → Node.currentVersionId N ≠ Some v.
Proof. intros [Hc _] HV Hs n N Hb HN Hp E. destruct (Hc n N v Hb HN Hp E) as (V' & HV' & _ & Es). congruence. Qed.
Lemma currents_weaken n d : currents_kept None d → currents_kept (Some n) d.
Proof. intros [Hc Hh]. split; [intros m N v _; by apply Hc|intros v V N _; by apply Hh]. Qed.
Lemma currents_row_purges n d d' : accounted d → rtc (row_purge n) d d' → currents_kept (Some n) d → currents_kept (Some n) d' ∧ Db.nodes d' = Db.nodes d.
Proof.
  intros Ha H. induction H as [|d d1 d' H1 _ IH]; [done|]. intros Hk. assert (currents_kept (Some n) d1 ∧ Db.nodes d1 = Db.nodes d) as [Hk1 En].
  { destruct H1 as [id U HU Hl En|v V size HV En Hr Hz].
    - destruct (ac_live _ Ha id U HU Hl) as (V & HV & Hp & _). pose proof (released_shrinks id U d) as Hs. split; [|apply Hs]. eapply currents_shrinks; [exact Hs| |done].
      eapply pending_not_current; [exact Hk|exact HV|congruence].
    - pose proof (purged_ready_shrinks v V size d) as Hs. split; [|apply Hs]. eapply currents_shrinks; [exact Hs| |done].
      intros m N Hb HN Hp E. destruct (ck_current _ _ Hk m N v Hb HN Hp E) as (V' & HV' & Em & _). congruence. }
  destruct (IH (row_purge_ok n d d1 Ha H1) Hk1) as [? E]. split; [done|congruence].
Qed.
(** Nodes and versions as they were, but for what the accounts do not see. *)
Lemma currents_alike d d' : alike d d' → currents_kept None d → currents_kept None d'.
Proof.
  intros [_ Hn Hv _ _] [Hc Hh]. split.
  - intros n N' v Hb HN' Hp E. destruct (rows_bwd _ _ _ _ Hn HN') as (N & HN & []). destruct (Hc n N v Hb HN) as (V & HV & EV & Es); [|congruence|].
    { apply eq_None_not_Some. intros Hx%sn_purged. by rewrite Hp in Hx; destruct Hx. }
    destruct (rows_fwd _ _ _ _ Hv HV) as (V' & HV' & []). exists V'. split_and!; [done|congruence|congruence].
  - intros v V' N' Hb HV' Es HN'. destruct (rows_bwd _ _ _ _ Hn HN') as (N & HN & []), (rows_bwd _ _ _ _ Hv HV') as (V & HV & []).
    rewrite <- sn_current. apply (Hh v V N); [congruence|done|congruence|congruence].
Qed.
Lemma currents_same but d d' : Db.nodes d' = Db.nodes d → Db.versions d' = Db.versions d → currents_kept but d → currents_kept but d'.
Proof. intros En Ev [Hc Hh]. split; by rewrite En, Ev. Qed.
Lemma currents_fewer d d' : (∀ n N, Db.nodes d' !! n = Some N → Db.nodes d !! n = Some N) → Db.versions d' = Db.versions d → currents_kept None d → currents_kept None d'.
Proof. intros Hn Ev [Hc Hh]. split; rewrite Ev; [intros n N v Hb HN%Hn; by apply Hc|intros v V N Hb HV Es HN%Hn; by apply (Hh v V N)]. Qed.
(** A node whose current version becomes one of its ready ones. *)
Lemma currents_set n v V f d : Db.versions d !! v = Some V → Version.nodeId V = n → Version.status V = version_ready → (∀ x, Node.currentVersionId (f x) = Some v) →
  currents_kept (Some n) d → currents_kept None (set_nodes d (alter f n (Db.nodes d))).
Proof.
  intros HV En Es Hf [Hc Hh]. split.
  - intros m M w _ HM Hp E. cbn in HM. apply alter_inv in HM as [(-> & M0 & HM0 & ->)|[Hne HM]]; [rewrite Hf in E; injection E as <-; by exists V|].
    apply (Hc m M w); [congruence|done..].
  - intros w W M _ HW Er HM. cbn in HM. apply alter_inv in HM as [(E & M0 & HM0 & ->)|[Hne HM]]; [by rewrite Hf|]. apply (Hh w W M); [congruence|done..].
Qed.
(** A version's status becomes ready, on a node that gets it as its current one. *)
Lemma currents_ready v V d d' : Db.versions d !! v = Some V → Db.nodes d' = Db.nodes d → Db.versions d' = alter (λ x, with_status x version_ready) v (Db.versions d) →
  Version.status V = version_pending → currents_kept None d → currents_kept (Some (Version.nodeId V)) d'.
Proof.
  intros HV En Ev Hp [Hc Hh]. split; rewrite ?En, ?Ev.
  - intros m M w _ HM Hpu E. destruct (Hc m M w ltac:(done) HM Hpu E) as (W & HW & EW & Er). exists W. split; [|done]. rewrite lookup_alter_ne; [done|]. intros ->. congruence.
  - intros w W M Hb HW Er HM. apply alter_inv in HW as [(-> & X & HX & ->)|[Hne HW]]; [exfalso; apply Hb; cbn; congruence|]. by apply (Hh w W M).
Qed.
Lemma currents_drop d gone `{∀ e, Decision (gone e)} : accounted d → only_purged d gone → currents_kept None d → currents_kept None (drop_versions gone d).
Proof.
  intros Ha Hg [Hc Hh].
  assert (∀ n N', Db.nodes (drop_versions gone d) !! n = Some N' → ∃ N, Db.nodes d !! n = Some N ∧ Node.purgedAt N' = Node.purgedAt N ∧
    (Node.currentVersionId N' = Node.currentVersionId N ∨ (Node.currentVersionId N' = None ∧ ∃ v V, Node.currentVersionId N = Some v ∧ Db.versions d !! v = Some V ∧ gone (v, V)))) as Hn.
  { intros n N'. cbn. rewrite lookup_fmap. intros (N & HN & ->)%fmap_Some_1. exists N. split; [done|]. destruct (Node.currentVersionId N) as [v|] eqn:E; [|by rewrite E; auto].
    case_decide as Hv; cbn; [|by rewrite E; auto]. split; [done|]. right. split; [done|]. apply elem_of_dom in Hv as [V HV]. rewrite map_lookup_filter_Some in HV. destruct HV. eauto. }
  split.
  - intros n N' v _ HN' Hp E. destruct (Hn n N' HN') as (N & HN & Ep & [Ec|[Ec _]]); [|congruence]. destruct (Hc n N v ltac:(done) HN ltac:(congruence) ltac:(congruence)) as (V & HV & EV & Es).
    exists V. split; [|done]. cbn. rewrite map_lookup_filter_Some. split; [done|]. intros Hx. pose proof (Hg v V HV Hx). congruence.
  - intros v V N' _ HV Es HN'. cbn in HV. rewrite map_lookup_filter_Some in HV. destruct HV as [HV _]. destruct (Hn _ N' HN') as (N & HN & Ep & Hcur).
    destruct (Hh v V N ltac:(done) HV Es HN) as [x Hx]. destruct Hcur as [->|(_ & y & Y & Ey & HY & HyG)]; [by exists x|]. exfalso.
    destruct (Node.purgedAt N) as [p|] eqn:Ep'; [by apply (ac_gone _ Ha v V N HV HN); [rewrite Ep'|]|].
    destruct (Hc _ N y ltac:(done) HN Ep' Ey) as (Y' & HY' & _ & Er). pose proof (Hg y Y HY HyG). congruence.
Qed.
Lemma currents_tombstone now n seq above d d1 : accounted d → rtc (row_purge n) d d1 → none_ready d1 n → currents_kept None d → currents_kept None (tombstone now n seq above d1).
Proof.
  intros Ha Hg Hn Hk. destruct (currents_row_purges n d d1 Ha Hg (currents_weaken n d Hk)) as [[Hc Hh] En]. split.
  - intros m M v _ HM Hp E. cbn in HM. apply alter_inv in HM as [(-> & M0 & HM0 & ->)|[Hne HM]]; [by cbn in Hp|]. apply (Hc m M v); [congruence|done..].
  - intros v V M _ HV Es HM. cbn in HV, HM. apply alter_inv in HM as [(E & M0 & HM0 & ->)|[Hne HM]]; [by destruct (Hn v V HV E)|]. apply (Hh v V M); [congruence|done..].
Qed.
Lemma currents_new_node n N d : Node.currentVersionId N = None → Db.nodes d !! n = None → accounted d → currents_kept None d → currents_kept None (set_nodes d (<[n := N]> (Db.nodes d))).
Proof.
  intros Hcur Hn Ha [Hc Hh]. split; cbn.
  - intros m M v _ HM. rewrite lookup_insert in HM. case_decide; [injection HM as <-; congruence|]. by apply Hc.
  - intros v V M _ HV Es HM. destruct (ac_node _ Ha v V HV) as (N0 & HN0 & _). rewrite lookup_insert_ne in HM by congruence. by apply (Hh v V M).
Qed.
Lemma currents_new_version v V d d' : Db.versions d !! v = None → Db.nodes d' = Db.nodes d → Db.versions d' = <[v := V]> (Db.versions d) →
  currents_kept None d → currents_kept (match Version.status V with version_ready => Some (Version.nodeId V) | _ => None end) d'.
Proof.
  intros Hv En Ev [Hc Hh]. split; rewrite ?En, ?Ev.
  - intros m M w _ HM Hp E. destruct (Hc m M w ltac:(done) HM Hp E) as (W & HW & ?). exists W. split; [|done]. rewrite lookup_insert_ne; [done|congruence].
  - intros w W M Hb HW Es HM. rewrite lookup_insert in HW. case_decide; [injection HW as <-; by rewrite Es in Hb|]. by apply (Hh w W M).
Qed.
Lemma currents_taken u U id epoch d : accounted d → Db.uploads d !! u = Some U → live_upload U = true → currents_kept None d → currents_kept None (taken u U id epoch d).
Proof.
  intros Ha HU Hl [Hc Hh]. destruct (ac_live _ Ha u U HU Hl) as (V & HV & Ep & _). split; cbn.
  - intros m M w _ HM Hp E. destruct (Hc m M w ltac:(done) HM Hp E) as (W & HW & EW & Er). exists W. split; [|done]. rewrite lookup_alter_ne; [done|]. intros E'. congruence.
  - intros w W M _ HW Es HM. apply alter_inv in HW as [(-> & X & HX & ->)|[Hne HW]]; [cbn in Es; congruence|]. by apply (Hh w W M).
Qed.
Lemma currents_prim told d d' : accounted d → prim told d d' → currents_kept None d → currents_kept None d'.
Proof.
  intros Ha Hp. destruct Hp; intros Hk.
  - by eapply currents_alike.
  - destruct (ac_live _ Ha id U) as (V & HV & Ep & _); [done..|]. eapply currents_shrinks; [apply released_shrinks| |done].
    eapply pending_not_current; [exact Hk|exact HV|congruence].
  - eapply currents_shrinks; [apply purged_ready_shrinks| |done]. intros m N _ HN Hp E. destruct (ck_current _ _ Hk m N v ltac:(done) HN Hp E) as (V' & HV' & Em & _).
    assert (V' = V) as -> by congruence. apply H2. unfold current_of. rewrite Em, HN. exact E.
  - by eapply currents_tombstone.
  - destruct (ac_live _ Ha id U) as (V & HV & Ep & _ & En & _); [done..|].
    set (d0 := set_versions d (alter (λ v, with_status v version_ready) (Upload.versionId U) (Db.versions d))).
    pose proof (currents_ready (Upload.versionId U) V d d0 HV eq_refl eq_refl Ep Hk) as H0k. rewrite En in H0k.
    pose proof (currents_set (Upload.nodeId U) (Upload.versionId U) (with_status V version_ready) (λ x, with_seq (with_current x (Some (Upload.versionId U))) (Some seq)) d0) as Hset.
    apply (currents_same None (make_current (Upload.nodeId U) (Upload.versionId U) seq d0)); [done..|]. apply Hset; [cbn; by rewrite lookup_alter_eq, HV|done..].
  - by apply (currents_same None d).
  - unfold delete_node in H1. not_refused H1 Hc. injection H1 as <-. apply (currents_fewer (drop_versions (λ e, Version.nodeId e.2 = n) d)); [|done|by apply currents_drop].
    intros m M HM. cbn [set_nodes set_grants set_uploads Db.nodes] in HM. by apply lookup_delete_Some in HM as [_ HM].
  - by apply currents_drop.
  - by apply currents_new_node.
  - pose proof (currents_new_version v V d (pending_rows v V u U o O d) H eq_refl eq_refl Hk) as Hk'. by rewrite H6 in Hk'.
  - pose proof (currents_new_version v V d (adjusted (Version.workspaceId V) (Obj.ciphertextSize O) 0 (set_versions d (<[v := V]> (Db.versions d)))) H eq_refl eq_refl Hk) as Hk'. rewrite H0 in Hk'.
    apply (currents_set (Version.nodeId V) v V (λ x, with_current x (Some v)) _ (lookup_insert_eq _ _ _) eq_refl H0 (λ _, eq_refl) Hk').
  - apply (currents_set n v V); [done..|]. by apply currents_weaken.
  - by eapply currents_taken.
Qed.
