(* ===== verification/DriveStores.v ===== *)
(** * The object stores behind the Drive server (packages/drive/src/jobs.ts, packages/db/src/drive.ts)

    The worker's jobs over the deletion outbox, the replica, the audit and the
    orphan sweep, each a function of the database and the two stores, a row at
    a time. A store here is the size of what it holds, by key. *)

From S2P Require Import Prelude DriveTables Pool DriveUploads DrivePurges DriveAccounting DriveAlike DriveBalance DriveReached DriveKept.

Module World.
Record t := { db : Db.t; primary : gmap string Z; replica : option (gmap string Z) }.
End World.
Definition with_db (w : World.t) (d : Db.t) : World.t := World.Build_t d (World.primary w) (World.replica w).
Definition with_primary (w : World.t) (p : gmap string Z) : World.t := World.Build_t (World.db w) p (World.replica w).
Definition with_replica (w : World.t) (r : gmap string Z) : World.t := World.Build_t (World.db w) (World.primary w) (Some r).

(** ** Outbox rows *)

Definition DAY : Z := 24 * 3600 * 1000.
Definition REPLICA_UNDO_DAYS : Z := 30.
Definition ORPHAN_MIN_AGE_DAYS : Z := 7.
Definition primary_gone (after : option Z) (D : Deletion.t) : Deletion.t :=
  Deletion.Build_t (Deletion.workspaceId D) (Deletion.objectKey D) (Deletion.published D) (Deletion.replicated D) true after (bool_decide (after = None)).
Definition markPrimaryDeleted (objectId : string) (deleteReplicaAfter : option Z) (d : Db.t) : Db.t :=
  set_deletions d (alter (primary_gone deleteReplicaAfter) objectId (Db.deletions d)).
Definition all_gone (D : Deletion.t) : Deletion.t :=
  Deletion.Build_t (Deletion.workspaceId D) (Deletion.objectKey D) (Deletion.published D) (Deletion.replicated D) (Deletion.primaryDeleted D) (Deletion.deleteReplicaAfter D) true.
Definition markObjectDeletionDone (objectId : string) (d : Db.t) : Db.t := set_deletions d (alter all_gone objectId (Db.deletions d)).
Definition object_held (held : bool) (O : Obj.t) : Obj.t :=
  Obj.Build_t (Obj.workspaceId O) (Obj.objectKey O) (Obj.contentSuite O) (Obj.ciphertextSize O) (Obj.status O) held.
Definition deletion_held (D : Deletion.t) : Deletion.t :=
  Deletion.Build_t (Deletion.workspaceId D) (Deletion.objectKey D) (Deletion.published D) true (Deletion.primaryDeleted D) (Deletion.deleteReplicaAfter D) (Deletion.done D).
Definition markObjectReplicated (objectId : string) (d : Db.t) : Db.t :=
  let d := set_objects d (alter (object_held true) objectId (Db.objects d)) in
  set_deletions d (alter deletion_held objectId (Db.deletions d)).

(** [held]: the objects an open or held report names. *)
Definition listPendingObjectDeletions (held : gset string) (d : Db.t) : list (string * Deletion.t) :=
  List.filter (λ e, negb (Deletion.done e.2) && negb (Deletion.primaryDeleted e.2) && negb (bool_decide (e.1 ∈ held))) (map_to_list (Db.deletions d)).
Definition listReplicaDeletionsDue (now : Z) (d : Db.t) : list (string * Deletion.t) :=
  List.filter (λ e, negb (Deletion.done e.2) && Deletion.primaryDeleted e.2 && match Deletion.deleteReplicaAfter e.2 with Some t => t <=? now | None => false end)
    (map_to_list (Db.deletions d)).
Definition listUnreplicatedObjects (d : Db.t) : list (string * string) :=
  map (λ e, (e.1, Obj.objectKey e.2)) (List.filter (λ e, (Obj.status e.2 === object_ready) && negb (Obj.replicated e.2)) (map_to_list (Db.objects d))) ++
  map (λ e, (e.1, Deletion.objectKey e.2))
    (List.filter (λ e, Deletion.published e.2 && negb (Deletion.replicated e.2) && negb (Deletion.primaryDeleted e.2)) (map_to_list (Db.deletions d))).

(** ** The worker's jobs, a row at a time *)

Definition delete_in (key : string) (w : World.t) : World.t := with_primary w (delete key (World.primary w)).
(** One row of the outbox: its primary copy, once the replica holds what was published. *)
Definition deleteObject (now : Z) (objectId : string) (row : Deletion.t) (w : World.t) : World.t :=
  let keepReplicaCopy := bool_decide (is_Some (World.replica w)) && Deletion.published row in
  if keepReplicaCopy && negb (Deletion.replicated row) then w
  else
    let w := delete_in (Deletion.objectKey row) w in
    with_db w (markPrimaryDeleted objectId (if keepReplicaCopy then Some (now + REPLICA_UNDO_DAYS * DAY) else None) (World.db w)).
(** One whose undo window has passed: its replica copy. *)
Definition deleteReplicaCopy (objectId : string) (row : Deletion.t) (w : World.t) : World.t :=
  match World.replica w with
  | None => w
  | Some r =>
      let w := with_replica w (delete (Deletion.objectKey row) r) in
      with_db w (markObjectDeletionDone objectId (World.db w))
  end.
Fixpoint each_row {A} (f : string → A → World.t → World.t) (rows : list (string * A)) (w : World.t) : World.t :=
  match rows with [] => w | (id, row) :: rest => each_row f rest (f id row w) end.
Definition deleteObjects (now : Z) (held : gset string) (limit : nat) (w : World.t) : World.t :=
  let w := each_row (deleteObject now) (take limit (listPendingObjectDeletions held (World.db w))) w in
  match World.replica w with
  | Some _ => each_row deleteReplicaCopy (take limit (listReplicaDeletionsDue now (World.db w))) w
  | None => w
  end.
(** A copy of what the primary holds; nothing there is an error, and the row waits. *)
Definition replicateObject (objectId key : string) (w : World.t) : World.t :=
  match World.replica w, World.primary w !! key with
  | Some r, Some size =>
      let w := with_replica w (<[key := size]> r) in
      with_db w (markObjectReplicated objectId (World.db w))
  | _, _ => w
  end.
Definition replicateObjects (limit : nat) (w : World.t) : World.t := each_row replicateObject (take limit (listUnreplicatedObjects (World.db w))) w.

(** *** The audit *)

Inductive AuditTarget := audit_primary | audit_replica.
Inductive AuditOutcome := present | missing | recovered | replica_missing.
Inductive Verdict := is_present | is_missing | recoverable | replica_is_missing.
#[export] Instance audit_target_eq : EqDecision AuditTarget. Proof. solve_decision. Defined.
Definition judgeObject (target : AuditTarget) (ciphertextSize : Z) (primary replica : option Z) : Verdict :=
  let matches head := match head with Some size => size =? ciphertextSize | None => false end in
  match target with
  | audit_replica => if matches replica then is_present else replica_is_missing
  | audit_primary => if matches primary then is_present else if matches replica then recoverable else is_missing
  end.
Definition object_status_as (s : ObjectStatus) (O : Obj.t) : Obj.t :=
  match Obj.status O with
  | object_pending => O
  | _ => Obj.Build_t (Obj.workspaceId O) (Obj.objectKey O) (Obj.contentSuite O) (Obj.ciphertextSize O) s (Obj.replicated O)
  end.
Definition recordObjectAudit (objectId : string) (outcome : AuditOutcome) (d : Db.t) : Db.t :=
  set_objects d (alter match outcome with
    | replica_missing => object_held false
    | missing => object_status_as object_missing
    | _ => object_status_as object_ready
    end objectId (Db.objects d)).
Definition auditObject (target : AuditTarget) (objectId : string) (row : Obj.t) (w : World.t) : World.t :=
  let key := Obj.objectKey row in
  let primary := match target with audit_primary => World.primary w !! key | audit_replica => None end in
  let replica := match World.replica w with
    | Some r => if (target === audit_replica) || bool_decide (primary = None) then r !! key else None
    | None => None
    end in
  let record outcome w := with_db w (recordObjectAudit objectId outcome (World.db w)) in
  match judgeObject target (Obj.ciphertextSize row) primary replica with
  | is_present => record present w
  | is_missing => record missing w
  | recoverable => record recovered (match replica with Some size => with_primary w (<[key := size]> (World.primary w)) | None => w end)
  | replica_is_missing => record replica_missing w
  end.
Definition listObjectsForAudit (target : AuditTarget) (d : Db.t) : list (string * Obj.t) :=
  List.filter (λ e, negb (Obj.status e.2 === object_pending) && match target with audit_replica => Obj.replicated e.2 | audit_primary => true end)
    (map_to_list (Db.objects d)).
Definition auditObjects (target : AuditTarget) (limit : nat) (w : World.t) : World.t :=
  match target, World.replica w with
  | audit_replica, None => w
  | _, _ => each_row (auditObject target) (take limit (listObjectsForAudit target (World.db w))) w
  end.

(** *** The orphan sweep *)

(** The keys among [keys] that a row still names. *)
Definition knownObjectKey (d : Db.t) (key : string) : bool :=
  any (λ O, Obj.objectKey O === key) (Db.objects d) || any (λ D, Deletion.objectKey D === key) (Db.deletions d).
Definition selectOrphans (listed : list (string * option Z)) (known : string → bool) (now minAgeDays : Z) : list string :=
  map fst (List.filter (λ e, negb (known e.1) && match e.2 with Some modifiedAt => modifiedAt <? now - minAgeDays * DAY | None => false end) listed).
(** One page of the listing, with what was known once it was read. *)
Definition sweepPage (now : Z) (listed : list (string * option Z)) (w : World.t) : World.t :=
  foldl (λ w key, delete_in key w) w (selectOrphans listed (knownObjectKey (World.db w)) now ORPHAN_MIN_AGE_DAYS).

(** ** What the stores hold *)

Section held.
Context (primary : gmap string Z) (replica : option (gmap string Z)).

(** An object's bytes are at its key, whole. *)
Definition at_primary (O : Obj.t) : Prop := primary !! Obj.objectKey O = Some (Obj.ciphertextSize O).
Record stocked (d : Db.t) : Prop := {
  st_ready : ∀ o O, Db.objects d !! o = Some O → Obj.status O ≠ object_pending → Obj.status O = object_ready ∧ at_primary O;
  st_conflict : ∀ u U o O, Db.uploads d !! u = Some U → Upload.status U = upload_conflicted → Upload.objectId U = Some o → Db.objects d !! o = Some O → at_primary O;
  st_fk : ∀ u U o, Db.uploads d !! u = Some U → Upload.objectId U = Some o → is_Some (Db.objects d !! o);
  st_key : ∀ u U o O, Db.uploads d !! u = Some U → Upload.objectId U = Some o → Db.objects d !! o = Some O → Upload.objectKey U = Obj.objectKey O;
  st_gone : ∀ x D, Db.deletions d !! x = Some D → Deletion.published D = true → Deletion.done D = false →
    if Deletion.primaryDeleted D then ∃ r, replica = Some r ∧ is_Some (r !! Deletion.objectKey D) else is_Some (primary !! Deletion.objectKey D);
  st_replica_object : ∀ r o O, replica = Some r → Db.objects d !! o = Some O → Obj.replicated O = true → r !! Obj.objectKey O = Some (Obj.ciphertextSize O);
  st_replica_gone : ∀ r x D, replica = Some r → Db.deletions d !! x = Some D → Deletion.replicated D = true → Deletion.done D = false → is_Some (r !! Deletion.objectKey D);
}.
(** What the store has said of an object is what it holds. *)
Definition told_right (told : string → Z → Prop) (d : Db.t) : Prop := ∀ o z O, told o z → Db.objects d !! o = Some O → primary !! Obj.objectKey O = Some z.

(** Rows changed only in what the stores' invariant does not read. *)
Lemma stocked_fewer d d' : Db.objects d' = Db.objects d → Db.deletions d' = Db.deletions d → (∀ u U', Db.uploads d' !! u = Some U' → ∃ U, Db.uploads d !! u = Some U ∧ same_conflict U U') →
  stocked d → stocked d'.
Proof.
  intros Eo Ed Hu []. split; rewrite ?Eo, ?Ed; try done.
  - intros u U' o O HU' Es Ex HO. destruct (Hu u U' HU') as (U & HU & E1 & E2 & E3). apply (st_conflict0 u U o O); [done|tauto|congruence|done].
  - intros u U' o HU' Ex. destruct (Hu u U' HU') as (U & HU & E1 & E2 & E3). apply (st_fk0 u U); [done|congruence].
  - intros u U' o O HU' Ex HO. destruct (Hu u U' HU') as (U & HU & E1 & E2 & E3). rewrite <- E1. apply (st_key0 u U o O); [done|congruence|done].
Qed.
(** An object let go: its outbox row says what it was. *)
Lemma stocked_retire o d : objects_kept o d → stocked d → stocked (retire_option o d).
Proof.
  intros Hk Hs. destruct o as [o|]; [|done]. cbn. unfold retireObjectIfUnreferenced. destruct (any _ _); [done|]. destruct (Db.objects d !! o) as [O|] eqn:HO; [|done].
  destruct (ok_fresh _ _ Hk o O HO) as [Hd _]. cbn. rewrite Hd. set (d' := set_deletions _ _). destruct Hs.
  assert (∀ x X, Db.objects d' !! x = Some X → Db.objects d !! x = Some X) as Ho by (intros x X HX; cbn in HX; by apply lookup_delete_Some in HX as [_ ?]).
  assert (∀ u U', Db.uploads d' !! u = Some U' → ∃ U, Db.uploads d !! u = Some U ∧ Upload.status U' = Upload.status U ∧ Upload.objectKey U' = Upload.objectKey U ∧ ∀ x, Upload.objectId U' = Some x → Upload.objectId U = Some x ∧ x ≠ o) as Hu.
  { intros u U'. cbn. rewrite lookup_fmap. intros (U & HU & ->)%fmap_Some_1. exists U. case_bool_decide; split_and!; try done. intros x Ex. split; [done|congruence]. }
  assert (∀ x D, Db.deletions d' !! x = Some D → (D = deletion_of O) ∨ Db.deletions d !! x = Some D) as HD.
  { intros x D. cbn. rewrite lookup_insert. case_decide; [intros [= <-]; by left|by right]. }
  split.
  - intros x X HX%Ho. by apply (st_ready0 x).
  - intros u U' x X HU' Es Ex HX%Ho. destruct (Hu u U' HU') as (U & HU & E1 & _ & E2). apply (st_conflict0 u U x X); [done|congruence|by apply E2|done].
  - intros u U' x HU' Ex. destruct (Hu u U' HU') as (U & HU & _ & _ & E2). destruct (E2 x Ex) as [E3 Hne]. cbn. rewrite lookup_delete_ne by done. by apply (st_fk0 u U).
  - intros u U' x X HU' Ex HX%Ho. destruct (Hu u U' HU') as (U & HU & _ & -> & E2). apply (st_key0 u U x X); [done|by apply E2|done].
  - intros x D [->|H]%HD; [|by apply (st_gone0 x)]. cbn. intros Hp _. apply bool_decide_eq_true in Hp. destruct (st_ready0 o O HO ltac:(congruence)) as [_ Hat]. by rewrite Hat.
  - intros r x X Er HX%Ho. by apply (st_replica_object0 r x).
  - intros r x D Er [->|H]%HD; [|by apply (st_replica_gone0 r x)]. cbn. intros Hp _. by rewrite (st_replica_object0 r o O Er HO Hp).
Qed.
Lemma told_fewer told d d' : (∀ o O', Db.objects d' !! o = Some O' → ∃ O, Db.objects d !! o = Some O ∧ Obj.objectKey O = Obj.objectKey O') → told_right told d → told_right told d'.
Proof. intros Ho Ht o z O' Hoz HO'. destruct (Ho o O' HO') as (O & HO & <-). by apply (Ht o z). Qed.
Lemma told_retire told o d : told_right told d → told_right told (retire_option o d).
Proof.
  apply told_fewer. intros x X HX. exists X. split; [|done]. destruct o as [o|]; [|done]. cbn in HX. unfold retireObjectIfUnreferenced in HX.
  destruct (any _ _); [done|]. destruct (Db.objects d !! o); [|done]. cbn in HX. by apply lookup_delete_Some in HX as [_ ?].
Qed.
Definition stock (told : string → Z → Prop) (d : Db.t) : Prop := stocked d ∧ told_right told d.
Lemma stock_fewer told d d' : Db.objects d' = Db.objects d → Db.deletions d' = Db.deletions d →
  (∀ u U', Db.uploads d' !! u = Some U' → ∃ U, Db.uploads d !! u = Some U ∧ same_conflict U U') → stock told d → stock told d'.
Proof. intros Eo Ed Hu [Hs Ht]. split; [by apply (stocked_fewer d)|]. apply (told_fewer told d d'); [|done]. rewrite Eo. eauto. Qed.
Lemma stock_rows told d d' : unnamed d d' → stock told d → stock told d'.
Proof. intros []. apply stock_fewer; [done|done|]. intros u U' HU'. by apply (rows_bwd _ _ _ _ un_uploads HU'). Qed.
Lemma stock_retire told o d : objects_kept o d → stock told d → stock told (retire_option o d).
Proof. intros Hk [Hs Ht]. split; [by apply stocked_retire|by apply told_retire]. Qed.
(** An upload's row settled: its conflict is over. *)
Lemma settled_uploads id st d : st ≠ upload_conflicted → ∀ u U', alter (λ u, upload_as u st 0) id (Db.uploads d) !! u = Some U' → ∃ U, Db.uploads d !! u = Some U ∧
  Upload.objectKey U' = Upload.objectKey U ∧ Upload.objectId U' = Upload.objectId U ∧ (Upload.status U' = upload_conflicted → Upload.status U = upload_conflicted).
Proof. intros Hst u U' [(-> & U & HU & ->)|[_ HU]]%alter_inv; [exists U; done|by exists U']. Qed.
Lemma stock_settled told d d' id st : Db.objects d' = Db.objects d → Db.deletions d' = Db.deletions d → Db.uploads d' = alter (λ u, upload_as u st 0) id (Db.uploads d) →
  st ≠ upload_conflicted → stock told d → stock told d'.
Proof.
  intros Eo Ed Eu Hst [[] Ht]. split; [|apply (told_fewer told d d'); [rewrite Eo; eauto|done]]. pose proof (settled_uploads id st d Hst) as Hu. rewrite <- Eu in Hu.
  split; rewrite ?Eo, ?Ed; try done.
  - intros u U' o O HU' Es Ex HO. destruct (Hu u U' HU') as (U & HU & E1 & E2 & E3). apply (st_conflict0 u U o O); [done|by apply E3|congruence|done].
  - intros u U' o HU' Ex. destruct (Hu u U' HU') as (U & HU & _ & E2 & _). apply (st_fk0 u U); [done|congruence].
  - intros u U' o O HU' Ex HO. destruct (Hu u U' HU') as (U & HU & E1 & E2 & E3). rewrite E1. apply (st_key0 u U o O); [done|congruence|done].
Qed.
Lemma stock_released told id U d : accounted d → Db.uploads d !! id = Some U → live_upload U = true → objects_kept None d → stock told d → stock told (released id U d).
Proof.
  intros Ha HU Hl Hk Hs. destruct (ac_live _ Ha id U HU Hl) as (V & HV & _ & _ & _ & Eo). apply stock_retire; [|by apply (stock_settled told d _ id upload_aborted)].
  rewrite <- Eo. apply (objects_status d (Upload.versionId U) V version_purged); try done. exact (objects_same_rows d).
Qed.
Lemma stock_purged_ready told v V size d : Db.versions d !! v = Some V → objects_kept None d → stock told d → stock told (purged_ready v V size d).
Proof.
  intros HV Hk Hs. apply stock_retire; [apply (objects_status d v V version_purged); try done; exact (objects_same_rows d)|].
  apply (stock_fewer told d); [done|done| |done]. intros u U HU. by exists U.
Qed.
Lemma stock_row_purges told n d d' : accounted d → rtc (row_purge n) d d' → objects_kept None d → stock told d → stock told d'.
Proof.
  intros Ha H. induction H as [|d d1 d' H1 _ IH]; [done|]. intros Hk Hs. apply IH; [by eapply row_purge_ok|by eapply objects_row_purges; [exact Ha|apply rtc_once; exact H1|]|].
  destruct H1 as [id U HU Hl _|v V size HV _ Hr Hz]; [by apply stock_released|by apply stock_purged_ready].
Qed.
(** A publish: the object is ready, and its bytes are there. *)
Lemma stock_published told id U o O size seq d : stock told d → Upload.objectId U = Some o → Db.objects d !! o = Some O → Obj.ciphertextSize O = size → at_primary O →
  stock told (published id U o size seq d).
Proof.
  intros [[] Ht] Eo HO Ez Hat. set (d' := published _ _ _ _ _ _).
  assert (∀ x X', Db.objects d' !! x = Some X' → ∃ X, Db.objects d !! x = Some X ∧ Obj.objectKey X' = Obj.objectKey X ∧ Obj.ciphertextSize X' = Obj.ciphertextSize X ∧
    Obj.replicated X' = Obj.replicated X ∧ ((x = o ∧ X = O ∧ Obj.status X' = object_ready) ∨ X' = X)) as Hx.
  { intros x X' HX'. cbn in HX'. apply alter_inv in HX' as [(-> & X & HX & ->)|[_ HX]]; [exists X; split_and!; try done; left; split_and!; [done|congruence|done]|exists X'; auto 10]. }
  assert (∀ X X', Obj.objectKey X' = Obj.objectKey X → Obj.ciphertextSize X' = Obj.ciphertextSize X → at_primary X → at_primary X') as Hsame by (unfold at_primary; congruence).
  pose proof (settled_uploads id upload_completed d ltac:(done)) as Hu.
  split; [split; try done|].
  - intros x X' HX' Hp. destruct (Hx x X' HX') as (X & HX & E1 & E2 & _ & [(-> & -> & E3)| ->]); [split; [done|by apply (Hsame O)]|by apply (st_ready0 x)].
  - intros u U' x X' HU' Es Ex HX'. destruct (Hu u U' HU') as (U0 & HU0 & _ & E4 & E5), (Hx x X' HX') as (X & HX & E1 & E2 & _). apply (Hsame X); [done|done|].
    apply (st_conflict0 u U0 x X); [done|by apply E5|congruence|done].
  - intros u U' x HU' Ex. destruct (Hu u U' HU') as (U0 & HU0 & _ & E4 & _). cbn. apply alter_is_Some. apply (st_fk0 u U0); [done|congruence].
  - intros u U' x X' HU' Ex HX'. destruct (Hu u U' HU') as (U0 & HU0 & E3 & E4 & _), (Hx x X' HX') as (X & HX & E1 & _). rewrite E1, E3. apply (st_key0 u U0 x X); [done|congruence|done].
  - intros r x X' Er HX' Hr. destruct (Hx x X' HX') as (X & HX & E1 & E2 & E3 & _). rewrite E1, E2. apply (st_replica_object0 r x X); [done|done|congruence].
  - apply (told_fewer told d d'); [|done]. intros x X' HX'. destruct (Hx x X' HX') as (X & HX & E1 & _). eauto.
Qed.
Lemma stock_conflict told id U o size d : stock told d → Db.uploads d !! id = Some U → Upload.objectId U = Some o → upload_size d U = Some size → told o size →
  stock told (set_uploads d (<[id := upload_as U upload_conflicted (Upload.reservedBytes U)]> (Db.uploads d))).
Proof.
  intros [[] Ht] HU Eo Hz Hto. split; [split; try done|done].
  - intros u U' x X HU' Es Ex HX. cbn in HU', HX. rewrite lookup_insert in HU'. case_decide; [injection HU' as <-|by apply (st_conflict0 u U' x X)].
    cbn in Ex. assert (x = o) as -> by congruence. pose proof (Ht o size X Hto HX) as Hp. unfold upload_size in Hz. rewrite Eo in Hz. cbn in Hz. rewrite HX in Hz. injection Hz as <-. exact Hp.
  - intros u U' x HU' Ex. cbn in HU'. rewrite lookup_insert in HU'. case_decide; [injection HU' as <-; by apply (st_fk0 id U x)|by apply (st_fk0 u U' x)].
  - intros u U' x X HU' Ex HX. cbn in HU', HX. rewrite lookup_insert in HU'. case_decide; [injection HU' as <-; by apply (st_key0 id U x X)|by apply (st_key0 u U' x X)].
Qed.
Lemma stock_pending told v V u U o O d : accounted d → objects_kept None d → Db.objects d !! o = None → Db.uploads d !! u = None → fresh_key d o (Obj.objectKey O) → Obj.status O = object_pending →
  Upload.objectId U = Some o → Upload.objectKey U = Obj.objectKey O → Upload.status U ≠ upload_conflicted → (∀ z, ¬ told o z) → Obj.replicated O = false → stock told d → stock told (pending_rows v V u U o O d).
Proof.
  intros Ha Hk Ho Hu Hfr Es EU Ek Hst Hno Hrep [[] Ht].
  assert (∀ x X, Db.uploads d !! x = Some X → Upload.objectId X ≠ Some o) as Hnx by (intros x X HX E; destruct (st_fk0 x X o HX E); congruence). set (d' := pending_rows _ _ _ _ _ _ _).
  assert (∀ x X, Db.objects d' !! x = Some X → (x = o ∧ X = O) ∨ (x ≠ o ∧ Db.objects d !! x = Some X)) as Hx.
  { intros x X. cbn. rewrite lookup_insert. case_decide; [intros [= <-]; by left|right; split; congruence]. }
  assert (∀ x X, Db.uploads d' !! x = Some X → X = U ∨ (Db.uploads d !! x = Some X ∧ Upload.objectId X ≠ Some o)) as Hy.
  { intros x X. cbn. rewrite lookup_insert. case_decide; [intros [= <-]; by left|intros HX; right; eauto]. }
  split; [split; try done|].
  - intros x X HX Hp. destruct (Hx x X HX) as [[-> ->]|[_ HX0]]; [done|by apply (st_ready0 x)].
  - intros w W x X HW Ec Ex HX. destruct (Hy w W HW) as [->|[HW0 Hne]]; [done|]. destruct (Hx x X HX) as [[-> ->]|[_ HX0]]; [done|by apply (st_conflict0 w W x X)].
  - intros w W x HW Ex. cbn. rewrite lookup_insert. case_decide; [by eexists|]. destruct (Hy w W HW) as [->|[HW0 Hne]]; [congruence|by apply (st_fk0 w W x)].
  - intros w W x X HW Ex HX. destruct (Hy w W HW) as [->|[HW0 Hne]]; [assert (x = o) as -> by congruence; destruct (Hx o X HX) as [[_ ->]|[? _]]; done|].
    destruct (Hx x X HX) as [[-> ->]|[_ HX0]]; [done|by apply (st_key0 w W x X)].
  - intros r x X Er HX Hr. destruct (Hx x X HX) as [[-> ->]|[_ HX0]]; [congruence|by apply (st_replica_object0 r x X)].
  - intros x z X Htx HX. destruct (Hx x X HX) as [[-> ->]|[_ HX0]]; [by destruct (Hno z)|by apply (Ht x z X)].
Qed.
Lemma fewer_refl (d d' : Db.t) : (∀ u U, Db.uploads d' !! u = Some U → Db.uploads d !! u = Some U) →
  ∀ u U', Db.uploads d' !! u = Some U' → ∃ U, Db.uploads d !! u = Some U ∧ same_conflict U U'.
Proof. intros H u U HU%H. by exists U. Qed.
Lemma stock_prim told d d' : accounted d → objects_kept None d → prim told d d' → stock told d → stock told d'.
Proof.
  intros Ha Hk Hp. destruct Hp; intros Hs.
  - by eapply stock_rows.
  - by apply stock_released.
  - by apply stock_purged_ready.
  - apply (stock_fewer told d1); [done|done|by apply fewer_refl|]. by eapply stock_row_purges.
  - assert (∃ O, Db.objects d !! o = Some O ∧ Obj.ciphertextSize O = size) as (O & HO & Ez).
    { match goal with H : upload_size d U = Some size |- _ => unfold upload_size in H; rewrite H1 in H; cbn in H; destruct (Db.objects d !! o) as [O|]; [|done]; injection H as <-; eauto end. }
    apply (stock_published told id U o O); [done|done|done|done|]. destruct Hs as [Hst Ht].
    match goal with H : told o size ∨ _ |- _ => destruct H as [Hto|Hcf] end; [unfold at_primary; rewrite Ez; by apply (Ht o)|by apply (st_conflict _ Hst id U o)].
  - by eapply stock_conflict.
  - unfold delete_node in H1. not_refused H1 Hc. injection H1 as <-. apply (stock_fewer told d); [done|done| |done]. apply fewer_refl. intros u U. cbn.
    rewrite !map_lookup_filter_Some. tauto.
  - apply (stock_fewer told d); [done|done| |done]. apply fewer_refl. intros u U. cbn. rewrite map_lookup_filter_Some. tauto.
  - apply (stock_fewer told d); [done|done|by apply fewer_refl|done].
  - by eapply stock_pending.
  - apply (stock_fewer told d); [done|done|by apply fewer_refl|done].
  - apply (stock_fewer told d); [done|done|by apply fewer_refl|done].
  - apply (stock_fewer told d); [done|done| |done]. intros x X'. cbn. rewrite lookup_insert. case_decide; [intros [= <-]|intros HX; by exists X'].
    subst x. exists U. split; [done|]. by split_and!.
Qed.
End held.

(** ** The server with its stores *)

(** What the store is asked before a completion is committed: the object is named by its upload's row
    from begin on, so nothing deletes it in between. *)
Definition asked_right (w : World.t) (q : Request) : Prop :=
  match q with
  | finishes _ u (Some stored) _ => ∀ U o O, Db.uploads (World.db w) !! u = Some U → Upload.objectId U = Some o → Db.objects (World.db w) !! o = Some O →
      World.primary w !! Upload.objectKey U = Some stored
  | _ => True
  end.
(** A multipart upload completed at the store: a key whose object is still on its way. *)
Definition arriving (d : Db.t) (key : string) : Prop :=
  ∀ o O, Db.objects d !! o = Some O → Obj.objectKey O = key → Obj.status O = object_pending ∧
    ∀ u U, Db.uploads d !! u = Some U → Upload.objectId U = Some o → Upload.status U ≠ upload_conflicted.
Section worlds.
Context `{SB : SignedBy}.
(** [now]: the clock's reading, for what reads it. *)
Inductive turn (now : Z) (w : World.t) : World.t → Prop :=
  | t_served q : fitting (World.db w) q → asked_right w q → turn now w (with_db w (serve now q (World.db w)))
  | t_opened x quota : nothing_in (World.db w) x → turn now w (with_db w (set_storage (World.db w) (<[x := Storage.Build_t quota 0 0]> (Db.storage (World.db w)))))
  | t_folder n N : Db.nodes (World.db w) !! n = None → Node.currentVersionId N = None → turn now w (with_db w (set_nodes (World.db w) (<[n := N]> (Db.nodes (World.db w)))))
  | t_other d' : alike (World.db w) d' → unnamed (World.db w) d' → turn now w (with_db w d')
  | t_stored key size : arriving (World.db w) key → turn now w (with_primary w (<[key := size]> (World.primary w)))
  | t_deleted held x D : (x, D) ∈ listPendingObjectDeletions held (World.db w) → turn now w (deleteObject now x D w)
  | t_replica_deleted x D : (x, D) ∈ listReplicaDeletionsDue now (World.db w) → turn now w (deleteReplicaCopy x D w)
  | t_replicated x key : (x, key) ∈ listUnreplicatedObjects (World.db w) → turn now w (replicateObject x key w)
  | t_audited target o O : (o, O) ∈ listObjectsForAudit target (World.db w) → turn now w (auditObject target o O w)
  | t_swept listed : turn now w (sweepPage now listed w).
(** Any turns at all, and those while the clock reads less than [until]. *)
Definition turns : World.t → World.t → Prop := rtc (λ w w', ∃ now, turn now w w').
Definition turns_before (until : Z) : World.t → World.t → Prop := rtc (λ w w', ∃ now, now < until ∧ turn now w w').
Lemma turn_turns now w w' : turn now w w' → turns w w'.
Proof. intros H. apply rtc_once. by exists now. Qed.

(** The invariant of a server with its stores. *)
Record held (w : World.t) : Prop := {
  hd_accounted : accounted (World.db w); hd_kept : kept (World.db w); hd_stocked : stocked (World.primary w) (World.replica w) (World.db w);
}.
Lemma goes_held p r told d d' : accounted d → kept d → stock p r told d → goes told d d' → accounted d' ∧ kept d' ∧ stocked p r d'.
Proof.
  intros Ha Hk Hs H. revert Ha Hk Hs. induction H as [d|d d1 d' H1 _ IH]; intros Ha Hk Hs; [by destruct Hs|]. apply IH.
  - by eapply prim_ok.
  - destruct Hk as [Ho Hc]. split; [by eapply objects_prim|by eapply currents_prim].
  - eapply stock_prim; [done|apply Hk|done|done].
Qed.
Lemma held_goes w told d' : held w → told_right (World.primary w) told (World.db w) → goes told (World.db w) d' → held (with_db w d').
Proof. intros [Ha Hk Hs] Ht Hg. destruct (goes_held _ _ told _ _ Ha Hk (conj Hs Ht) Hg) as (? & ? & ?). by split. Qed.
Lemma told_nothing p d : told_right p (λ _ _, False) d.
Proof. by intros o z O []. Qed.
Lemma held_served w now q : held w → fitting (World.db w) q → asked_right w q → held (with_db w (serve now q (World.db w))).
Proof.
  intros Hh Hf Hq. eapply held_goes; [done| |apply serve_goes; [apply Hh|done]]. intros o z O Ht HO. destruct q as [| |x u [stored|] writer| | | | | | | | | |]; try done.
  destruct Ht as (-> & U & HU & Eo). rewrite <- (st_key _ _ _ (hd_stocked _ Hh) u U o O HU Eo HO). by apply (Hq U o O).
Qed.
(** Outbox and object rows relabelled: what accounts, currents and names say stays. *)
Lemma kept_relabelled d d' : alike d d' → named_alike d d' → accounted d → kept d → accounted d' ∧ kept d'.
Proof.
  intros Hal Hn Ha [Ho Hc]. split; [by eapply alike_ok|]. split; [by eapply objects_alike|by eapply currents_alike].
Qed.
Lemma deletions_relabelled d f x : (∀ D, Deletion.objectKey (f D) = Deletion.objectKey D) →
  alike d (set_deletions d (alter f x (Db.deletions d))) ∧ named_alike d (set_deletions d (alter f x (Db.deletions d))).
Proof.
  intros Hf. split; [split; [done|apply rows_refl..]|]. split; [apply rows_refl|]. apply rows_alter. intros D _. unfold same_deletion. by rewrite Hf.
Qed.
Lemma objects_relabelled d f o : (∀ O, same_object_row O (f O) ∧ same_name O (f O)) →
  alike d (set_objects d (alter f o (Db.objects d))) ∧ named_alike d (set_objects d (alter f o (Db.objects d))).
Proof.
  intros Hf. split; [apply alike_objects|split; [|apply rows_refl]]; apply rows_alter; intros O _; apply Hf.
Qed.
(** A key that goes from the primary, and the outbox row that says so. *)
Lemma stocked_deleted p r d x D f : objects_kept None d → stocked p r d → Db.deletions d !! x = Some D → (∀ X, Deletion.objectKey (f X) = Deletion.objectKey X) →
  (Deletion.published (f D) = true → Deletion.done (f D) = false → Deletion.primaryDeleted (f D) = true ∧ ∃ m, r = Some m ∧ is_Some (m !! Deletion.objectKey D)) →
  (Deletion.replicated (f D) = true → Deletion.done (f D) = false → Deletion.replicated D = true ∧ Deletion.done D = false) →
  stocked (delete (Deletion.objectKey D) p) r (set_deletions d (alter f x (Db.deletions d))).
Proof.
  intros Hk [] HD Hf Hgone Hrep. assert (∀ o O, Db.objects d !! o = Some O → Obj.objectKey O ≠ Deletion.objectKey D) as Hne.
  { intros o O HO E. destruct (ok_fresh _ _ Hk o O HO) as [_ Hn]. by apply (Hn x D HD). }
  assert (∀ o O, Db.objects d !! o = Some O → at_primary p O → at_primary (delete (Deletion.objectKey D) p) O) as Hat.
  { intros o O HO. unfold at_primary. rewrite lookup_delete_ne; [done|]. intros E. by apply (Hne o O HO). }
  split; try done.
  - intros o O HO Hp. destruct (st_ready0 o O HO Hp). split; [done|by apply (Hat o)].
  - intros u U o O HU Ec Eo HO. by apply (Hat o), (st_conflict0 u U o O).
  - intros y Y HY Hp Hd. cbn in HY. apply alter_inv in HY as [(-> & X & HX & ->)|[Hxy HY]].
    + assert (X = D) as -> by congruence. destruct (Hgone Hp Hd) as (-> & m & -> & Hm). rewrite Hf. eauto.
    + pose proof (st_gone0 y Y HY Hp Hd) as Hg. destruct (Deletion.primaryDeleted Y); [done|]. rewrite lookup_delete_ne; [done|].
      intros E. by apply Hxy, (ok_outbox _ _ Hk y x Y D).
  - intros m y Y Er HY Hr Hd. cbn in HY. apply alter_inv in HY as [(-> & X & HX & ->)|[Hxy HY]]; [|by apply (st_replica_gone0 m y Y)].
    assert (X = D) as -> by congruence. rewrite Hf. destruct (Hrep Hr Hd). by apply (st_replica_gone0 m x D).
Qed.
Lemma held_deleted w now held_ x D : held w → (x, D) ∈ listPendingObjectDeletions held_ (World.db w) → held (deleteObject now x D w).
Proof.
  intros Hh Hin. destruct (Hh) as [Ha Hk Hs]. unfold listPendingObjectDeletions in Hin. apply list_elem_of_In, List.filter_In in Hin as [Hin Hb]. apply list_elem_of_In, elem_of_map_to_list in Hin. cbn in Hb. bool_simpl.
  unfold deleteObject. destruct (bool_decide (is_Some (World.replica w)) && Deletion.published D) eqn:Ek; cbn; [destruct (Deletion.replicated D) eqn:Er; cbn; [|done]|].
  - apply andb_true_iff in Ek as [[r Hr]%bool_decide_eq_true Hp]. destruct (deletions_relabelled (World.db w) (primary_gone (Some (now + REPLICA_UNDO_DAYS * DAY))) x ltac:(done)) as [Hal Hn].
    destruct (kept_relabelled _ _ Hal Hn Ha Hk). split; [done|done|]. apply stocked_deleted; try done; [apply Hk|]. intros _ _. split; [done|]. exists r. split; [done|].
    by apply (st_replica_gone _ _ _ Hs r x D).
  - destruct (deletions_relabelled (World.db w) (primary_gone None) x ltac:(done)) as [Hal Hn]. destruct (kept_relabelled _ _ Hal Hn Ha Hk). split; [done|done|].
    apply stocked_deleted; try done. apply Hk.
Qed.
Lemma held_replica_deleted w now x D : held w → (x, D) ∈ listReplicaDeletionsDue now (World.db w) → held (deleteReplicaCopy x D w).
Proof.
  intros Hh Hin. destruct (Hh) as [Ha Hk Hs]. unfold listReplicaDeletionsDue in Hin. apply list_elem_of_In, List.filter_In in Hin as [Hin Hb]. apply list_elem_of_In, elem_of_map_to_list in Hin.
  unfold deleteReplicaCopy. destruct (World.replica w) as [r|] eqn:Er; [|done].
  destruct (deletions_relabelled (World.db w) all_gone x ltac:(done)) as [Hal Hn]. destruct (kept_relabelled _ _ Hal Hn Ha Hk) as [Ha' Hk']. split; [done|done|]. cbn. destruct Hs. destruct Hk as [Ho _].
  split; try done.
  - intros y Y HY Hp Hd. cbn in HY. apply alter_inv in HY as [(-> & X & HX & ->)|[Hxy HY]]; [done|]. pose proof (st_gone0 y Y HY Hp Hd) as Hg. destruct (Deletion.primaryDeleted Y); [|done].
    destruct Hg as (m & Em & Hm). assert (m = r) as -> by congruence. eexists. split; [done|]. rewrite lookup_delete_ne; [done|]. intros E. by apply Hxy, (ok_outbox _ _ Ho y x Y D).
  - intros m o O [= <-] HO Hrep. rewrite lookup_delete_ne; [by apply (st_replica_object0 r o O)|]. intros E. destruct (ok_fresh _ _ Ho o O HO) as [_ Hne]. by apply (Hne x D Hin).
  - intros m y Y [= <-] HY Hrep Hd. cbn in HY. apply alter_inv in HY as [(-> & X & HX & ->)|[Hxy HY]]; [done|]. rewrite lookup_delete_ne; [by apply (st_replica_gone0 r y Y)|].
    intros E. by apply Hxy, (ok_outbox _ _ Ho y x Y D).
Qed.
Lemma held_stored w key size : held w → arriving (World.db w) key → held (with_primary w (<[key := size]> (World.primary w))).
Proof.
  intros [Ha Hk Hs] Har. split; [done|done|]. destruct Hs. split; try done.
  - intros o O HO Hp. destruct (st_ready0 o O HO Hp) as [Er Hat]. split; [done|]. unfold at_primary. cbn [with_primary World.primary]. rewrite lookup_insert_ne; [done|]. intros E. by destruct (Har o O HO (eq_sym E)).
  - intros u U o O HU Ec Eo HO. unfold at_primary. cbn [with_primary World.primary]. rewrite lookup_insert_ne; [by apply (st_conflict0 u U o O)|]. intros E. destruct (Har o O HO (eq_sym E)) as [_ Hn]. by apply (Hn u U).
  - intros x D HD Hp Hd. pose proof (st_gone0 x D HD Hp Hd) as Hg. destruct (Deletion.primaryDeleted D); [done|]. cbn. rewrite lookup_insert. by case_decide.
Qed.
(** Objects and outbox rows whose replica flags change: [r'] holds what they say. *)
Lemma stocked_replicated p r r' d x key size : objects_kept None d → stocked p (Some r) d → p !! key = Some size → r' = <[key := size]> r →
  (∀ O, Db.objects d !! x = Some O → Obj.objectKey O = key ∧ Obj.ciphertextSize O = size) → (∀ D, Db.deletions d !! x = Some D → Deletion.objectKey D = key) →
  (∀ o O, Db.objects d !! o = Some O → Obj.objectKey O = key → Obj.ciphertextSize O = size ∨ Obj.replicated O = false) →
  stocked p (Some r') (markObjectReplicated x d).
Proof.
  intros Hk [] Hp -> HxO HxD Hsz. set (d' := markObjectReplicated _ _).
  assert (∀ o O', Db.objects d' !! o = Some O' → ∃ O, Db.objects d !! o = Some O ∧ Obj.objectKey O' = Obj.objectKey O ∧ Obj.ciphertextSize O' = Obj.ciphertextSize O ∧
    Obj.status O' = Obj.status O ∧ (o = x ∨ Obj.replicated O' = Obj.replicated O)) as Ho.
  { intros o O' [(-> & O & HO & ->)|[_ HO]]%alter_inv; [exists O; split_and!; auto|exists O'; auto 10]. }
  assert (∀ y D', Db.deletions d' !! y = Some D' → ∃ D, Db.deletions d !! y = Some D ∧ Deletion.objectKey D' = Deletion.objectKey D ∧ Deletion.published D' = Deletion.published D ∧
    Deletion.done D' = Deletion.done D ∧ Deletion.primaryDeleted D' = Deletion.primaryDeleted D ∧ (y = x ∨ Deletion.replicated D' = Deletion.replicated D)) as HD.
  { intros y D' [(-> & D & HD & ->)|[_ HD]]%alter_inv; [exists D; split_and!; auto|exists D'; auto 10]. }
  assert (∀ O O', Obj.objectKey O' = Obj.objectKey O → Obj.ciphertextSize O' = Obj.ciphertextSize O → at_primary p O → at_primary p O') as Hat by (unfold at_primary; congruence).
  split.
  - intros o O' HO' Hpd. destruct (Ho o O' HO') as (O & HO & E1 & E2 & E3 & _). destruct (st_ready0 o O HO ltac:(congruence)) as [Er Hr]. split; [congruence|by apply (Hat O)].
  - intros u U o O' HU Ec Eo HO'. destruct (Ho o O' HO') as (O & HO & E1 & E2 & _). apply (Hat O); [done|done|by apply (st_conflict0 u U o O)].
  - intros u U o HU Eo. cbn. apply alter_is_Some. by apply (st_fk0 u U).
  - intros u U o O' HU Eo HO'. destruct (Ho o O' HO') as (O & HO & E1 & _). rewrite E1. by apply (st_key0 u U o O).
  - intros y D' HD' Hpb Hdn. destruct (HD y D' HD') as (D & HD0 & E1 & E2 & E3 & E4 & _). rewrite E1, E4. pose proof (st_gone0 y D HD0 ltac:(congruence) ltac:(congruence)) as Hg.
    destruct (Deletion.primaryDeleted D); [|done]. destruct Hg as (m & [= <-] & Hm). eexists. split; [done|]. rewrite lookup_insert. by case_decide.
  - intros m o O' [= <-] HO' Hrep. destruct (Ho o O' HO') as (O & HO & E1 & E2 & _ & E5). rewrite E1, E2. rewrite lookup_insert. case_decide as Ek.
    + f_equal. destruct E5 as [->|E5]; [symmetry; by apply HxO|]. destruct (Hsz o O HO (eq_sym Ek)) as [->|Hf]; [done|congruence].
    + destruct E5 as [->|E5]; [by destruct Ek, (HxO O HO)|]. apply (st_replica_object0 r o O); [done|done|congruence].
  - intros m y D' [= <-] HD' Hrep Hdn. destruct (HD y D' HD') as (D & HD0 & E1 & _ & E3 & _ & E5). rewrite E1. rewrite lookup_insert. case_decide as Ek; [done|].
    destruct E5 as [->|E5]; [by destruct Ek; rewrite (HxD D HD0)|]. apply (st_replica_gone0 r y D); [done|done|congruence|congruence].
Qed.
Lemma held_replicated w x key : held w → (x, key) ∈ listUnreplicatedObjects (World.db w) → held (replicateObject x key w).
Proof.
  intros Hh Hin. destruct (Hh) as [Ha Hk Hs]. unfold replicateObject. destruct (World.replica w) as [r|] eqn:Er; [|done]. destruct (World.primary w !! key) as [size|] eqn:Ep; [|done].
  destruct (objects_relabelled (World.db w) (object_held true) x ltac:(done)) as [Hal1 Hn1]. destruct (kept_relabelled _ _ Hal1 Hn1 Ha Hk) as [Ha1 Hk1].
  destruct (deletions_relabelled (set_objects (World.db w) (alter (object_held true) x (Db.objects (World.db w)))) deletion_held x ltac:(done)) as [Hal2 Hn2].
  destruct (kept_relabelled _ _ Hal2 Hn2 Ha1 Hk1) as [Ha2 Hk2]. split; [done|done|]. cbn. destruct Hk as [Ho _].
  assert ((∃ O, Db.objects (World.db w) !! x = Some O ∧ Obj.status O = object_ready ∧ Obj.objectKey O = key) ∨ (∃ D, Db.deletions (World.db w) !! x = Some D ∧ Deletion.objectKey D = key)) as Hx.
  { unfold listUnreplicatedObjects in Hin. apply elem_of_app in Hin as [Hin|Hin]; apply list_elem_of_In, in_map_iff in Hin as ([y Y] & [= -> <-] & Hin);
      apply List.filter_In in Hin as [Hin Hb]; apply list_elem_of_In, elem_of_map_to_list in Hin; cbn in Hb; bool_simpl; eauto. }
  apply (stocked_replicated _ r _ _ x key size); [done|exact Hs|done|done|..].
  - intros O HO. destruct Hx as [(O' & HO' & Es & Ek)|(D & HD & _)].
    + assert (O' = O) as -> by congruence. destruct (st_ready _ _ _ Hs x O HO ltac:(congruence)) as [_ Hat]. unfold at_primary in Hat. split; [done|congruence].
    + destruct (ok_fresh _ _ Ho x O HO) as [Hn _]. congruence.
  - intros D HD. destruct Hx as [(O & HO & _)|(D' & HD' & Ek)]; [|congruence]. destruct (ok_fresh _ _ Ho x O HO) as [Hn _]. congruence.
  - intros o O HO Ek. destruct Hx as [(O' & HO' & Es & Ek')|(D & HD & Ek')].
    + assert (o = x) as -> by (apply (ok_keys _ _ Ho o x O O'); congruence). assert (O' = O) as -> by congruence. left.
      destruct (st_ready _ _ _ Hs x O HO ltac:(congruence)) as [_ Hat]. unfold at_primary in Hat. congruence.
    + destruct (ok_fresh _ _ Ho o O HO) as [_ Hn]. destruct (Hn x D HD). congruence.
Qed.
(** An audit of a server that lost nothing: what it looks at is there. *)
Lemma audit_finds w target o O : held w → (o, O) ∈ listObjectsForAudit target (World.db w) →
  Db.objects (World.db w) !! o = Some O ∧ Obj.status O = object_ready ∧
  auditObject target o O w = with_db w (recordObjectAudit o match target, World.replica w with audit_replica, None => replica_missing | _, _ => present end (World.db w)).
Proof.
  intros [_ _ Hs] Hin. unfold listObjectsForAudit in Hin. apply list_elem_of_In, List.filter_In in Hin as [Hin Hb]. apply list_elem_of_In, elem_of_map_to_list in Hin. cbn in Hb.
  apply andb_true_iff in Hb as [Hst Hb]. apply negb_true_iff, bool_decide_eq_false in Hst. destruct (st_ready _ _ _ Hs o O Hin Hst) as [Er Hat]. split; [done|]. split; [done|].
  unfold auditObject, judgeObject, at_primary in *. destruct target.
  - by rewrite Hat, Z.eqb_refl.
  - destruct (World.replica w) as [r|] eqn:Erep; [|done]. rewrite (bool_decide_eq_true_2 (audit_replica = audit_replica)) by done. cbn [orb].
    by rewrite (st_replica_object _ _ _ Hs r o O eq_refl Hin Hb), Z.eqb_refl.
Qed.
Lemma held_audited w target o O : held w → (o, O) ∈ listObjectsForAudit target (World.db w) → held (auditObject target o O w).
Proof.
  intros Hh Hin. destruct (audit_finds w target o O Hh Hin) as (HO & Er & ->). destruct Hh as [Ha Hk Hs].
  set (f := match match target, World.replica w with audit_replica, None => replica_missing | _, _ => present end with
    | replica_missing => object_held false | missing => object_status_as object_missing | _ => object_status_as object_ready end).
  assert (∀ X, same_object_row X (f X) ∧ same_name X (f X)) as Hf.
  { intros X. unfold f, object_status_as, same_object_row, same_name. destruct target, (World.replica w); cbn; try done; destruct (Obj.status X) eqn:E; cbn; rewrite ?E; done. }
  destruct (objects_relabelled (World.db w) f o Hf) as [Hal Hn]. destruct (kept_relabelled _ _ Hal Hn Ha Hk) as [Ha' Hk']. split; [exact Ha'|exact Hk'|].
  assert (f O = O ∨ (f O = object_held false O ∧ World.replica w = None)) as HfO.
  { unfold f, object_status_as. destruct target, (World.replica w); rewrite ?Er; [left|left|left|by right]; destruct O; cbn in *; by rewrite Er. }
  assert (∀ x X', alter f o (Db.objects (World.db w)) !! x = Some X' → ∃ X, Db.objects (World.db w) !! x = Some X ∧ (X' = X ∨ (X' = object_held false X ∧ World.replica w = None))) as Hx.
  { intros x X' [(-> & X & HX & ->)|[_ HX]]%alter_inv; [|by eauto]. exists X. assert (X = O) as -> by congruence. eauto. }
  change (recordObjectAudit o _ (World.db w)) with (set_objects (World.db w) (alter f o (Db.objects (World.db w)))). destruct Hs. split; cbn; try done.
  - intros x X' HX'. destruct (Hx x X' HX') as (X & HX & [->|[-> _]]); by apply (st_ready0 x X).
  - intros u U x X' HU Ec Eo HX'. destruct (Hx x X' HX') as (X & HX & [->|[-> _]]); by apply (st_conflict0 u U x X).
  - intros u U x HU Eo. apply alter_is_Some. by apply (st_fk0 u U).
  - intros u U x X' HU Eo HX'. destruct (Hx x X' HX') as (X & HX & [->|[-> _]]); by apply (st_key0 u U x X).
  - intros r x X' Erep HX'. destruct (Hx x X' HX') as (X & HX & [->|[_ En]]); [by apply (st_replica_object0 r x X)|congruence].
Qed.
(** Keys no row names go: none of them is an object's or the outbox's. *)
Lemma stocked_unnamed p r d key : knownObjectKey d key = false → stocked p r d → stocked (delete key p) r d.
Proof.
  intros [Ho Hd]%orb_false_iff []. pose proof (proj1 (any_false _ _) Ho) as Hno. pose proof (proj1 (any_false _ _) Hd) as Hnd. cbn in Hno, Hnd.
  assert (∀ o O, Db.objects d !! o = Some O → at_primary p O → at_primary (delete key p) O) as Hat.
  { intros o O HO. unfold at_primary. rewrite lookup_delete_ne; [done|]. intros E. specialize (Hno o O HO). by rewrite bool_decide_eq_true_2 in Hno. }
  split; try done.
  - intros o O HO Hp. destruct (st_ready0 o O HO Hp). split; [done|by apply (Hat o)].
  - intros u U o O HU Ec Eo HO. by apply (Hat o), (st_conflict0 u U o O).
  - intros x D HD Hp Hdn. pose proof (st_gone0 x D HD Hp Hdn) as Hg. destruct (Deletion.primaryDeleted D); [done|]. rewrite lookup_delete_ne; [done|].
    intros E. specialize (Hnd x D HD). by rewrite bool_decide_eq_true_2 in Hnd.
Qed.
Lemma held_swept w now listed : held w → held (sweepPage now listed w).
Proof.
  intros [Ha Hk Hs]. unfold sweepPage. assert (∀ key, key ∈ selectOrphans listed (knownObjectKey (World.db w)) now ORPHAN_MIN_AGE_DAYS → knownObjectKey (World.db w) key = false) as Hkeys.
  { intros key Hin. unfold selectOrphans in Hin. apply list_elem_of_In, in_map_iff in Hin as (e & <- & Hin). apply List.filter_In in Hin as [_ Hb]. by bool_simpl. }
  revert Hkeys. generalize (selectOrphans listed (knownObjectKey (World.db w)) now ORPHAN_MIN_AGE_DAYS). intros keys. revert w Ha Hk Hs. induction keys as [|key keys IH]; intros w Ha Hk Hs Hkeys; [by split|].
  cbn. apply IH; [done|done| |].
  - cbn. apply stocked_unnamed; [apply Hkeys; left|done].
  - intros k Hin. apply (Hkeys k). by right.
Qed.
Lemma held_turn now w w' : turn now w w' → held w → held w'.
Proof.
  intros Ht Hh. destruct Ht.
  - by apply held_served.
  - destruct Hh as [Ha [Ho Hc] Hs]. split; cbn; [by apply opened_ok| |by apply (stocked_fewer _ _ (World.db w)); [done|done|apply fewer_refl|]].
    split; [by apply (objects_fewer (World.db w))|by apply (currents_same None (World.db w))].
  - apply (held_goes w (λ _ _, False)); [done|apply told_nothing|]. by apply goes_one, p_node.
  - apply (held_goes w (λ _ _, False)); [done|apply told_nothing|]. by apply goes_one, p_alike.
  - by apply held_stored.
  - by eapply held_deleted.
  - by eapply held_replica_deleted.
  - by apply held_replicated.
  - by apply held_audited.
  - by apply held_swept.
Qed.
Lemma held_blank w : blank (World.db w) → held w.
Proof.
  intros Hb. pose proof (blank_ok _ Hb) as Ha. destruct Hb as (Ev & Eo & Eu & Ed & Hc & _). split; [done|split|].
  - split; unfold fresh_key, referenced; rewrite ?Ev, ?Eo, ?Ed; intros *; by rewrite lookup_empty.
  - split; rewrite ?Ev; intros *; [|by rewrite lookup_empty]. intros _ HN _ E. by rewrite (Hc _ _ HN) in E.
  - split; rewrite ?Eo, ?Eu, ?Ed; intros *; rewrite ?lookup_empty; try done; intros ?; by rewrite lookup_empty.
Qed.
Lemma turns_held w0 w : turns w0 w → held w0 → held w.
Proof. intros Hr. induction Hr as [|w0 w1 w [now H] _ IH]; [done|]. intros Hh. by eapply IH, held_turn. Qed.
Lemma reached_held w0 w : blank (World.db w0) → turns w0 w → held w.
Proof. intros Hb%held_blank Hr. by eapply turns_held. Qed.

(** *** The replica's copy through the undo window *)

Lemma retire_outbox o d x D : Db.deletions d !! x = Some D → Db.deletions (retire_option o d) !! x = Some D.
Proof.
  intros HD. destruct o as [o|]; [|done]. cbn. unfold retireObjectIfUnreferenced. destruct (any _ _); [done|]. destruct (Db.objects d !! o) as [O|]; [|done]. cbn.
  destruct (Db.deletions d !! o) eqn:E; [done|]. rewrite lookup_insert_ne; [done|congruence].
Qed.
Lemma row_purges_outbox n d d' x D : rtc (row_purge n) d d' → Db.deletions d !! x = Some D → Db.deletions d' !! x = Some D.
Proof. intros H. induction H as [|d d1 d' H1 _ IH]; [done|]. intros HD. apply IH. destruct H1; by apply retire_outbox. Qed.
Lemma goes_outbox told d d' x D : goes told d d' → Db.deletions d !! x = Some D → Db.deletions d' !! x = Some D.
Proof.
  intros H. induction H as [|d d1 d' H1 _ IH]; [done|]. intros HD. apply IH. destruct H1; try done; try by apply retire_outbox.
  - match goal with H : unnamed _ _ |- _ => by rewrite (un_deletions _ _ H) end.
  - cbn. by eapply row_purges_outbox.
  - match goal with H : delete_node _ _ = Ok _ |- _ => unfold delete_node in H; not_refused H Hc; by injection H as <- end.
Qed.
(** An outbox row whose primary copy is gone, and the copy the replica keeps of it until [until]. *)
Record copy_kept (x key : string) (size until : Z) (w : World.t) : Prop := {
  cp_row : ∃ D, Db.deletions (World.db w) !! x = Some D ∧ Deletion.objectKey D = key ∧ Deletion.primaryDeleted D = true ∧ Deletion.done D = false ∧ Deletion.deleteReplicaAfter D = Some until;
  cp_copy : ∃ r, World.replica w = Some r ∧ r !! key = Some size;
}.
Lemma copy_same x key size until w w' : World.replica w' = World.replica w → (∀ D, Db.deletions (World.db w) !! x = Some D → Db.deletions (World.db w') !! x = Some D) →
  copy_kept x key size until w → copy_kept x key size until w'.
Proof. intros Er Hd [(D & HD & H) Hc]. split; [exists D; split; [by apply Hd|done]|by rewrite Er]. Qed.
Lemma audited_same target o O w : World.replica (auditObject target o O w) = World.replica w ∧ Db.deletions (World.db (auditObject target o O w)) = Db.deletions (World.db w).
Proof. unfold auditObject. destruct (judgeObject _ _ _ _); try done. by case_match. Qed.
Lemma swept_same listed now w : World.replica (sweepPage now listed w) = World.replica w ∧ World.db (sweepPage now listed w) = World.db w.
Proof. unfold sweepPage. generalize (selectOrphans listed (knownObjectKey (World.db w)) now ORPHAN_MIN_AGE_DAYS). intros keys. revert w. induction keys as [|key keys IH]; intros w; [done|]. cbn. by destruct (IH (delete_in key w)) as [-> ->]. Qed.
Lemma copy_turn now x key size until w w' : held w → now < until → turn now w w' → copy_kept x key size until w → copy_kept x key size until w'.
Proof.
  intros Hh Hnow Ht Hcopy. pose proof (hd_kept _ Hh) as [Ho _]. destruct Ht as [q Hf Hq|y quota _|n N _ _|d' Hal Hn|key' size' _|held_ y Y Hin|y Y Hin|y key' Hin|target o O _|listed].
  - apply (copy_same _ _ _ _ w); [done| |done]. intros D. eapply goes_outbox, serve_goes; [apply Hh|done].
  - by apply (copy_same _ _ _ _ w).
  - by apply (copy_same _ _ _ _ w).
  - apply (copy_same _ _ _ _ w); [done| |done]. intros D. cbn. by rewrite (un_deletions _ _ Hn).
  - by apply (copy_same _ _ _ _ w).
  - unfold listPendingObjectDeletions in Hin. apply list_elem_of_In, List.filter_In in Hin as [Hin Hb]. apply list_elem_of_In, elem_of_map_to_list in Hin. cbn in Hin, Hb. bool_simpl.
    assert (x ≠ y) as Hne by (intros ->; destruct (cp_row _ _ _ _ _ Hcopy) as (D & HD & _ & Hp & _); congruence).
    unfold deleteObject. destruct (bool_decide _ && _); cbn; [destruct (negb _); [done|]|]; (apply (copy_same _ _ _ _ w); [done| |done]); intros D HD; cbn; by rewrite lookup_alter_ne.
  - unfold listReplicaDeletionsDue in Hin. apply list_elem_of_In, List.filter_In in Hin as [Hin Hb]. apply list_elem_of_In, elem_of_map_to_list in Hin. cbn in Hin, Hb. bool_simpl.
    destruct Hcopy as [(D & HD & Ek & Hp & Hd & Ea) (r & Er & Hr)]. assert (x ≠ y) as Hne.
    { intros ->. assert (Y = D) as -> by congruence. match goal with H : (match Deletion.deleteReplicaAfter D with _ => _ end) = true |- _ => rewrite Ea in H; apply Z.leb_le in H; lia end. }
    unfold deleteReplicaCopy. rewrite Er. split; cbn; [exists D; split; [by rewrite lookup_alter_ne|done]|]. eexists. split; [done|]. rewrite lookup_delete_ne; [done|]. intros E. apply Hne. apply (ok_outbox _ _ Ho x y D Y); congruence.
  - unfold replicateObject. destruct Hcopy as [(D & HD & Ek & Hp & Hd & Ea) (r & Er & Hr)]. rewrite Er. destruct (World.primary w !! key') as [z|]; [|by split; eauto 10].
    assert (x ≠ y ∧ key' ≠ key) as [Hne Hk].
    { unfold listUnreplicatedObjects in Hin. apply elem_of_app in Hin as [Hin|Hin]; apply list_elem_of_In, in_map_iff in Hin as ([u U] & [= <- <-] & Hin);
        apply List.filter_In in Hin as [Hin Hb]; apply list_elem_of_In, elem_of_map_to_list in Hin; cbn in Hin, Hb; bool_simpl.
      - destruct (ok_fresh _ _ Ho u U Hin) as [Hn Hnk]. split; [congruence|]. intros E. apply (Hnk x D HD). congruence.
      - assert (x ≠ u) as Hne by (intros ->; congruence). split; [done|]. intros E. apply Hne, (ok_outbox _ _ Ho x u D U); congruence. }
    split; cbn; [exists D; split; [by rewrite lookup_alter_ne|done]|]. eexists. split; [done|]. by rewrite lookup_insert_ne.
  - destruct (audited_same target o O w) as [E1 E2]. apply (copy_same _ _ _ _ w); [done| |done]. by rewrite E2.
  - destruct (swept_same listed now w) as [E1 E2]. apply (copy_same _ _ _ _ w); [done| |done]. by rewrite E2.
Qed.
Lemma copy_through x key size until w w' : turns_before until w w' → held w → copy_kept x key size until w → copy_kept x key size until w'.
Proof. intros H. induction H as [|w w1 w' (now & Hnow & H1) _ IH]; [done|]. intros Hh Hc. apply IH; [by eapply held_turn|by eapply copy_turn]. Qed.
(** The outbox takes the primary copy of what the replica holds: the window opens. *)
Lemma window_opens now held_ x D w r : held w → (x, D) ∈ listPendingObjectDeletions held_ (World.db w) → Deletion.published D = true → Deletion.replicated D = true → World.replica w = Some r →
  ∃ size, r !! Deletion.objectKey D = Some size ∧ copy_kept x (Deletion.objectKey D) size (now + REPLICA_UNDO_DAYS * DAY) (deleteObject now x D w).
Proof.
  intros Hh Hin Hp Hr Er. unfold listPendingObjectDeletions in Hin. apply list_elem_of_In, List.filter_In in Hin as [Hin Hb]. apply list_elem_of_In, elem_of_map_to_list in Hin. cbn in Hin, Hb. bool_simpl.
  destruct (st_replica_gone _ _ _ (hd_stocked _ Hh) r x D Er Hin Hr ltac:(done)) as [size Hs]. exists size. split; [done|]. unfold deleteObject. rewrite Er, Hp, Hr, bool_decide_true by eauto. cbn.
  split; cbn; [|by exists r]. exists (primary_gone (Some (now + REPLICA_UNDO_DAYS * DAY)) D). split; [by rewrite lookup_alter_eq, Hin|done].
Qed.
End worlds.

(** C17. No loss: whatever the server, its worker and the orphan sweep did, in whatever order, a node that is
    not purged and has a current version has its bytes: the version is ready, its object's row says so,
    and the primary store holds the object whole at its key. The turns are those of [turn]: begins that
    name no file whose first upload is unpublished and no object id or key used before ([fitting]; the
    server checks neither, and [reused_key_loses_bytes] is what a reused id then does), completions
    the store was asked about ([asked_right]), and jobs on rows as they are read. *)
Theorem current_bytes_kept `{SB : SignedBy} w0 w n N v : blank (World.db w0) → turns w0 w → Db.nodes (World.db w) !! n = Some N → Node.purgedAt N = None →
  Node.currentVersionId N = Some v → ∃ V o O, Db.versions (World.db w) !! v = Some V ∧ Version.nodeId V = n ∧ Version.status V = version_ready ∧
    Version.objectId V = Some o ∧ Db.objects (World.db w) !! o = Some O ∧ Obj.status O = object_ready ∧
    World.primary w !! Obj.objectKey O = Some (Obj.ciphertextSize O).
Proof.
  intros Hb Hr HN Hp Hc. destruct (reached_held w0 w Hb Hr) as [Ha [Ho Hk] Hs]. destruct (ck_current _ _ Hk n N v ltac:(done) HN Hp Hc) as (V & HV & En & Es).
  destruct (ac_object _ Ha v V HV ltac:(congruence)) as (o & O & Eo & HO). pose proof (ok_ready _ _ Ho v V o O HV Es Eo HO) as Hst.
  destruct (st_ready _ _ _ Hs o O HO Hst) as [Er Hat]. exists V, o, O. done.
Qed.

(** C18. The undo window: an object that was published and let go stays in the primary store until the
    worker's outbox pass takes it from there, which a server with a replica does only to what the replica
    holds; and from that moment, through any turns while the clock reads less than thirty days later,
    the replica holds at its key what it held then, and the row says until when. *)
Theorem published_object_undoable `{SB : SignedBy} w0 w x D : blank (World.db w0) → turns w0 w → Db.deletions (World.db w) !! x = Some D →
  Deletion.published D = true → Deletion.done D = false →
  (Deletion.primaryDeleted D = false → is_Some (World.primary w !! Deletion.objectKey D)) ∧
  ∀ held_ r now, World.replica w = Some r → (x, D) ∈ listPendingObjectDeletions held_ (World.db w) →
    if Deletion.replicated D
    then ∃ size, r !! Deletion.objectKey D = Some size ∧ ∀ w', turns_before (now + 30 * (24 * 60 * 60 * 1000)) (deleteObject now x D w) w' →
      (∃ r', World.replica w' = Some r' ∧ r' !! Deletion.objectKey D = Some size) ∧
      ∃ D', Db.deletions (World.db w') !! x = Some D' ∧ Deletion.done D' = false ∧ Deletion.deleteReplicaAfter D' = Some (now + 30 * (24 * 60 * 60 * 1000))
    else deleteObject now x D w = w.
Proof.
  intros Hb Hr HD Hp Hd. pose proof (reached_held w0 w Hb Hr) as Hh. split.
  - intros Hpd. pose proof (st_gone _ _ _ (hd_stocked _ Hh) x D HD Hp Hd) as Hg. by rewrite Hpd in Hg.
  - intros held_ r now Er Hin. destruct (Deletion.replicated D) eqn:Erep.
    + destruct (window_opens now held_ x D w r Hh Hin Hp Erep Er) as (size & Hs & Hc). exists size. split; [done|]. intros w' Hw'.
      assert (held (deleteObject now x D w)) as Hh1 by by eapply held_deleted. destruct (copy_through _ _ _ _ _ _ Hw' Hh1 Hc) as [(D' & HD' & _ & _ & Hdn & Ha) Hcp]. split; [done|]. by exists D'.
    + unfold deleteObject. by rewrite Er, Hp, Erep, bool_decide_true by eauto.
Qed.

(** Nothing is kept for nothing, and nothing is named twice: every object row is the object of a version
    that is not purged, and no outbox row has its id or its key. *)
Theorem objects_needed `{SB : SignedBy} w0 w o O : blank (World.db w0) → turns w0 w → Db.objects (World.db w) !! o = Some O →
  referenced (World.db w) o ∧ Db.deletions (World.db w) !! o = None ∧ ∀ x D, Db.deletions (World.db w) !! x = Some D → Deletion.objectKey D ≠ Obj.objectKey O.
Proof.
  intros Hb Hr HO. destruct (reached_held w0 w Hb Hr) as [_ [Ho _] _]. split; [by destruct (ok_referenced _ _ Ho o O HO)|]. apply (ok_fresh _ _ Ho o O HO).
Qed.

(** A file published, thrown away, purged, copied to the replica and deleted from the primary. *)
Module StoreToy.
Definition trashed (d : Db.t) : Db.t := set_nodes d (alter (λ n, with_trash n (Some 5) (Some 5)) "n" (Db.nodes d)).
Definition of_request (q : Request) (w : World.t) : World.t := with_db w (serve (SB := DriveToy.signed) 10 q (World.db w)).
Definition w0 : World.t := World.Build_t DriveToy.start ∅ (Some ∅).
Definition w1 : World.t := of_request (begins DriveToy.first) w0.
Definition w2 : World.t := of_request (starts_completing "w" "u1" (Some "a")) w1.
Definition w3 : World.t := with_primary w2 (<["key1" := 300]> (World.primary w2)).
Definition w4 : World.t := of_request (finishes "w" "u1" (Some 300) (Some "a")) w3.
Definition w5 : World.t := with_db w4 (trashed (World.db w4)).
Definition w6 : World.t := of_request (purges "w" "n" (Some "a")) w5.
Definition w7 : World.t := replicateObject "o1" "key1" w6.
Definition row : Deletion.t := Deletion.Build_t "w" "key1" true true false None false.
Definition w8 : World.t := deleteObject 20 "o1" row w7.
End StoreToy.
Import StoreToy.
#[local] Existing Instance DriveToy.signed.
Lemma toy_served w q : fitting (World.db w) q → asked_right w q → turns w (of_request q w).
Proof. intros Hf Ha. by apply (turn_turns 10), (t_served 10). Qed.
Lemma toy_published : turns w0 w4.
Proof.
  transitivity w1; [by apply toy_served|]. transitivity w2; [by apply toy_served|]. transitivity w3.
  - apply (turn_turns 10), t_stored. intros o O HO _. assert (Db.objects (World.db w2) = {["o1" := begin_object DriveToy.first]}) as E by by vm_compute. rewrite E in HO.
    apply lookup_singleton_Some in HO as [<- <-]. split; [done|]. intros u U HU _. assert (Upload.status <$> Db.uploads (World.db w2) !! "u1" = Some upload_completing) as E2 by by vm_compute.
    assert (dom (Db.uploads (World.db w2)) = {["u1"]}) as E3 by by vm_compute. assert (u ∈ dom (Db.uploads (World.db w2))) as Hin by (apply elem_of_dom; eauto).
    rewrite E3 in Hin. apply elem_of_singleton in Hin. subst u. rewrite HU in E2. cbn in E2. congruence.
  - apply toy_served; [done|]. intros U o O HU _ _. assert ((λ U, World.primary w3 !! Upload.objectKey U) <$> Db.uploads (World.db w3) !! "u1" = Some (Some 300)) as E by by vm_compute.
    rewrite HU in E. by injection E.
Qed.
Lemma toy_copied : turns w0 w7.
Proof.
  transitivity w4; [exact toy_published|]. transitivity w5.
  { apply (turn_turns 10), t_other; [apply alike_nodes, rows_alter; by intros x _|by apply named_same]. }
  transitivity w6; [by apply toy_served|]. apply (turn_turns 20), t_replicated. assert (listUnreplicatedObjects (World.db w6) = [("o1", "key1")]) as -> by by vm_compute. by left.
Qed.
Lemma toy_pending : ("o1", row) ∈ listPendingObjectDeletions ∅ (World.db w7).
Proof. assert (listPendingObjectDeletions ∅ (World.db w7) = [("o1", row)]) as -> by by vm_compute. by left. Qed.
Lemma current_bytes_kept_witness : ∃ V o O, Db.versions (World.db w4) !! "v1" = Some V ∧ Version.nodeId V = "n" ∧ Version.status V = version_ready ∧
    Version.objectId V = Some o ∧ Db.objects (World.db w4) !! o = Some O ∧ Obj.status O = object_ready ∧ World.primary w4 !! Obj.objectKey O = Some (Obj.ciphertextSize O).
Proof. eapply (current_bytes_kept w0 w4 "n"); [exact toy_blank|exact toy_published|vm_compute; reflexivity|reflexivity|reflexivity]. Defined.
Lemma published_object_undoable_witness : World.primary w8 = ∅ ∧ ∃ r', World.replica (sweepPage 30 [("key1", Some 0)] w8) = Some r' ∧ r' !! "key1" = Some 300.
Proof.
  split; [by vm_compute|]. destruct (published_object_undoable w0 w7 "o1" row toy_blank toy_copied) as [_ H]; [by vm_compute|done|done|].
  destruct (World.replica w7) as [r|] eqn:Er; [|by vm_compute in Er]. destruct (H ∅ r 20 eq_refl toy_pending) as (size & Hs & Hw). fold w8 in Hw.
  assert (size = 300) as -> by (vm_compute in Er; injection Er as <-; vm_compute in Hs; by injection Hs as <-).
  destruct (Hw (sweepPage 30 [("key1", Some 0)] w8)) as [Hc _]; [|exact Hc]. apply rtc_once. exists 30. split; [lia|apply t_swept].
Defined.
Lemma objects_needed_witness : referenced (World.db w4) "o1".
Proof. eapply (objects_needed w0 w4 "o1"); [exact toy_blank|exact toy_published|vm_compute; reflexivity]. Defined.

(** The primary audit asks the replica only when the primary holds nothing: a primary copy of the wrong size
    is called missing though the replica's copy is whole. *)
Lemma truncated_copy_not_recovered :
  let O := Obj.Build_t "w" "k" 1 300 object_ready true in
  let d := set_objects DriveToy.start {["o" := O]} in
  auditObject audit_primary "o" O (World.Build_t d {["k" := 200]} (Some {["k" := 300]})) =
    World.Build_t (recordObjectAudit "o" missing d) {["k" := 200]} (Some {["k" := 300]}).
Proof. by vm_compute. Qed.
(** An audit of a row read before its object was purged puts the primary copy back after the outbox took it. *)
Lemma audit_restores_purged :
  let O := Obj.Build_t "w" "key1" 1 300 object_ready true in
  World.primary w8 = ∅ ∧ World.primary (auditObject audit_primary "o1" O w8) = {["key1" := 300]} ∧
  listPendingObjectDeletions ∅ (World.db (auditObject audit_primary "o1" O w8)) = [] ∧ knownObjectKey (World.db (auditObject audit_primary "o1" O w8)) "key1" = true.
Proof. by vm_compute. Qed.
(** An object's id named again by a begin after it was let go ([fresh_key] keeps it out): the new object is
    published, and the old outbox row deletes its bytes. *)
Lemma reused_key_loses_bytes :
  let again := UploadBegin.Build_t "w" "a" (new_file "m" "r" (NodeEnvelopes.Build_t 3 1 "e" "s")) "v9" "k" "s" "o1" "key1" 1 300 100 None "u9" in
  let w := foldl (λ w q, of_request q w) w6 [begins again; starts_completing "w" "u9" (Some "a"); finishes "w" "u9" (Some 300) (Some "a")] in
  let w' := deleteObject 20 "o1" (Deletion.Build_t "w" "key1" true true false None false) w in
  current_of (World.db w') "m" = Some "v9" ∧ World.primary w' = ∅.
Proof. by vm_compute. Qed.
