(* ===== verification/DriveQuota.v ===== *)
(** * What begin and copy admit, and what a refusal tells (packages/db/src/pool.ts, drive.ts)

    An upload or a copy that is admitted fits the allowance with everything
    already used and reserved, in a family's pool as in a workspace of its own;
    and the free space an answer is made from tells nothing finer than whole
    GiB of anyone else's part of a pool. *)

From S2P Require Import Prelude DriveTables Pool DriveUploads DrivePurges DriveAccounting DriveAlike DriveBalance DriveReached.

(** ** What the figures read *)

(** A change number taken is not read by any figure. *)
Lemma figures_bumped now d w x k y : Db.workspaces d !! w = Some x →
  storageFigures now (set_workspaces d (<[w := bump x k]> (Db.workspaces d))) y = storageFigures now d y.
Proof.
  intros Hw. set (d' := set_workspaces _ _).
  assert (∀ a, Workspace.groupId <$> Db.workspaces d' !! a = Workspace.groupId <$> Db.workspaces d !! a) as Hg.
  { intros a. cbn. rewrite lookup_insert. case_decide as E; [subst a; by rewrite Hw|done]. }
  assert (∀ g, folder_rows d' g = folder_rows d g) as Hf.
  { intros g. unfold folder_rows. change (Db.storage d') with (Db.storage d). f_equal. apply filter_ext. intros e. unfold in_group. specialize (Hg e.1).
    destruct (Db.workspaces d' !! e.1), (Db.workspaces d !! e.1); cbn in Hg; try done. injection Hg as ->. done. }
  assert (∀ g, poolParts d' g = poolParts d g) as Hp by (intros g; unfold poolParts; by rewrite Hf).
  assert (∀ g a b p, poolFigures d' g a b p now = poolFigures d g a b p now) as Hpf by (intros; unfold poolFigures, poolUsage; by rewrite Hp).
  unfold storageFigures. specialize (Hg y). destruct (Db.workspaces d' !! y), (Db.workspaces d !! y); cbn in Hg; try done. injection Hg as ->.
  change (owner_of d' y) with (owner_of d y). change (activeFamilyId d') with (activeFamilyId d). change (ownFigures d') with (ownFigures d).
  change (Db.people d') with (Db.people d). change (Db.storage d') with (Db.storage d). repeat (case_match; try done); f_equal; apply Hpf.
Qed.

(** ** Bytes counted and bytes there *)

Definition bytes_of (p : PoolPart.t) : Z := PoolPart.used p + PoolPart.reserved p.
Lemma sum_of_nonneg {A} (f : A → Z) l : (∀ x, x ∈ l → 0 ≤ f x) → 0 ≤ sum_of f l.
Proof. induction l as [|x l IH]; intros H; cbn; [done|]. pose proof (H x ltac:(left)). assert (0 ≤ sum_of f l) by (apply IH; intros; apply H; by right). lia. Qed.
Lemma sum_of_plus {A} (f g : A → Z) l : sum_of (λ x, f x + g x) l = sum_of f l + sum_of g l.
Proof. induction l as [|x l IH]; cbn; lia. Qed.
Lemma counted_ge p : bytes_of p ≤ counted p true.
Proof. unfold counted, part_bytes, bytes_of. pose proof (wholeGibUp_bounds (PoolPart.used p + PoolPart.reserved p)) as [? _]. lia. Qed.
Lemma storage_nonneg d w S : accounted d → Db.storage d !! w = Some S → 0 ≤ Storage.usedBytes S ∧ 0 ≤ Storage.reservedBytes S.
Proof. intros Ha HS. rewrite (ac_used _ Ha w S HS), (ac_reserved _ Ha w S HS). by apply usage_nonneg. Qed.
Lemma parts_nonneg d g p : accounted d → p ∈ poolParts d g → 0 ≤ bytes_of p.
Proof.
  intros Ha Hin. unfold poolParts in Hin. apply elem_of_cons in Hin as [->|Hin]; unfold bytes_of; cbn.
  - assert (∀ S, S ∈ folder_rows d g → 0 ≤ Storage.usedBytes S ∧ 0 ≤ Storage.reservedBytes S) as H.
    { intros S HS. unfold folder_rows in HS. apply list_elem_of_In, in_map_iff in HS as ([w S'] & <- & HS). apply List.filter_In in HS as [HS _].
      apply list_elem_of_In, elem_of_map_to_list in HS. by apply (storage_nonneg d w). }
    pose proof (sum_of_nonneg Storage.usedBytes (folder_rows d g) ltac:(intros; by apply H)). pose proof (sum_of_nonneg Storage.reservedBytes (folder_rows d g) ltac:(intros; by apply H)). lia.
  - apply list_elem_of_bind in Hin as (e & Hin & _). unfold member_part in Hin. destruct (pooled_member _ _ _); [|by apply elem_of_nil in Hin].
    destruct (Db.storage d !! e.2) as [S|] eqn:HS; [|by apply elem_of_nil in Hin]. apply list_elem_of_singleton in Hin as ->. cbn. pose proof (storage_nonneg d _ S Ha HS). lia.
Qed.
(** A pool's free space and everything in it stay within its allowance. *)
Lemma pool_free_within d g w isArea pool now : accounted d → let s := poolFigures d g w isArea pool now in
  StorageFigures.used s + StorageFigures.reserved s + StorageFigures.free s ≤ StorageFigures.allowance s.
Proof.
  intros Ha. unfold poolFigures. cbn [StorageFigures.used StorageFigures.reserved StorageFigures.free StorageFigures.allowance]. set (allowance := if planLive pool now then _ else _).
  unfold poolUsage. cbn [PoolUsage.used PoolUsage.reserved PoolUsage.countedReserved PoolUsage.parts]. rewrite countedAll_sum, <- sum_of_plus. change (λ x, PoolPart.used x + PoolPart.reserved x) with bytes_of.
  unfold own_part. destruct (List.find (is_own w isArea) (poolParts d g)) as [p|] eqn:Ef.
  - destruct (sum_of_find _ bytes_of _ p Ef) as (l1 & l2 & El & E1). destruct (sum_of_find _ (λ p, counted p true) _ p Ef) as (k1 & k2 & Ek & E2).
    assert (∃ l, sum_of bytes_of (poolParts d g) = bytes_of p + sum_of bytes_of l ∧ sum_of (λ p, counted p true) (poolParts d g) = counted p true + sum_of (λ p, counted p true) l) as (l & -> & ->).
    { exists (l1 ++ l2). split; [done|]. rewrite El. clear. induction l1 as [|x l1 IH]; cbn; [done|]. rewrite IH. lia. }
    pose proof (sum_of_le bytes_of (λ p, counted p true) l ltac:(intros; apply counted_ge)). pose proof (counted_ge p). unfold bytes_of in *. destruct isArea; lia.
  - pose proof (sum_of_le bytes_of (λ p, counted p true) (poolParts d g) ltac:(intros; apply counted_ge)).
    assert (counted (PoolPart.Build_t None 0 0) true = 0) as E by done. cbn [PoolPart.used PoolPart.reserved]. destruct isArea; rewrite E; lia.
Qed.
Lemma free_within now d w s : accounted d → storageFigures now d w = Some s →
  StorageFigures.used s + StorageFigures.reserved s + StorageFigures.free s ≤ StorageFigures.allowance s.
Proof.
  intros Ha. assert (∀ own, let s := ownFigures d w own now in StorageFigures.used s + StorageFigures.reserved s + StorageFigures.free s ≤ StorageFigures.allowance s) as Hown
    by (intros own; unfold ownFigures; cbn; lia).
  unfold storageFigures. destruct (Db.storage d !! w) as [own|]; cbn; repeat (case_match; try done); cbn; intros; simplify_eq; try apply Hown; by apply pool_free_within.
Qed.

(** ** What was admitted *)

Lemma begin_rows_storage i epoch expected reserve move d d' : begin_rows i epoch expected reserve move d = inr d' → Db.storage d' = Db.storage d.
Proof.
  unfold begin_rows. destruct ((begin_node i d ≫= _) ≫= _) as [d3|] eqn:H3; [|done]. destruct (insert_upload _ _ d3) as [d4|] eqn:H4; [|done]. intros [= <-].
  apply bind_Some in H3 as (d2 & (d1 & H1 & H2)%bind_Some & H3). apply insert_upload_is in H4 as [_ ->]. apply insert_version_is in H3 as [_ ->].
  apply insert_object_is in H2 as (_ & _ & ->). cbn. unfold begin_node in H1. destruct (UploadBegin.node i); [by apply insert_node_is in H1 as [_ ->]|by injection H1 as <-].
Qed.

(** C22. An upload that begin admits fits: what it reserves, with everything used and reserved where it
    draws from (a pool's parts together, or the workspace's own), is within the allowance; a plain upload
    reserves its whole size; and the storage row moves by exactly what was reserved. *)
Theorem begun_within_allowance `{SB : SignedBy} now i d d' id : accounted d → 0 ≤ UploadBegin.ciphertextSize i → beginUpload now i d = Ok (d', inr id) →
  ∃ s reserve, storageFigures now d (UploadBegin.workspaceId i) = Some s ∧ (UploadBegin.moveOf i = None → reserve = UploadBegin.ciphertextSize i) ∧ 0 ≤ reserve ∧
    (reserve = 0 ∨ StorageFigures.used s + StorageFigures.reserved s + reserve ≤ StorageFigures.allowance s) ∧
    Db.storage d' = alter (λ S, adjust S 0 reserve) (UploadBegin.workspaceId i) (Db.storage d).
Proof.
  intros Ha Hz H. unfold beginUpload, transactionKeeping in H. apply bind_ok in H as ([d1 r] & H1 & H). destruct r as [|id1]; [discriminate|]. injection H as <- _.
  unfold beginUploadOnce in H1. apply bind_ok in H1 as ([d0 n] & H0 & H1).
  assert (storageFigures now d0 (UploadBegin.workspaceId i) = storageFigures now d (UploadBegin.workspaceId i) ∧ Db.storage d0 = Db.storage d) as [Ef Es].
  { unfold nextChangeSeq in H0. destruct (Db.workspaces d !! UploadBegin.workspaceId i) as [x|] eqn:Hw; [|done]. apply bind_ok in H0 as (? & _ & H0). injection H0 as <- _.
    split; [by apply figures_bumped|done]. }
  destruct (begin_target d0 _ _) as [|[epoch expected]]; [done|]. apply bind_ok in H1 as (signed & _ & H1). destruct signed; [|done]. cbn in H1.
  destruct (move_source now d0 i) as [|move] eqn:Em; [done|]. destruct (storageFigures now d0 _) as [s|] eqn:Hs; [|done].
  destruct (_ && _) eqn:Eq; [done|]. apply bind_ok in H1 as (dx & ->%adjust_ok & H1). destruct (begin_rows _ _ _ _ _ _) as [|d4] eqn:H4; [done|]. injection H1 as <- _.
  set (reserve := reserve_for now d0 s move (UploadBegin.ciphertextSize i)) in *. exists s, reserve. split; [done|]. split; [|split; [by apply reserve_nonneg|split]].
  - intros En. unfold move_source in Em. rewrite En in Em. by injection Em as <-.
  - pose proof (reserve_nonneg now d0 s move _ Hz) as Hr. fold reserve in Hr. apply andb_false_iff in Eq as [Eq|Eq]; [apply Z.ltb_ge in Eq; left; lia|right].
    apply Z.ltb_ge in Eq. pose proof (free_within now d _ s Ha (eq_sym Ef)). lia.
  - apply begin_rows_storage in H4. rewrite H4. cbn. by rewrite Es.
Qed.

(** *** What the free space tells *)



Lemma begun_within_allowance_witness : ∃ s reserve, storageFigures 10 DriveToy.start "w" = Some s ∧ (UploadBegin.moveOf DriveToy.first = None → reserve = 300) ∧ 0 ≤ reserve ∧
    (reserve = 0 ∨ StorageFigures.used s + StorageFigures.reserved s + reserve ≤ StorageFigures.allowance s) ∧
    Db.storage (DriveToy.after 1) = alter (λ S, adjust S 0 reserve) "w" (Db.storage DriveToy.start).
Proof.
  apply (begun_within_allowance (SB := DriveToy.signed) 10 DriveToy.first DriveToy.start (DriveToy.after 1) "u1"); [apply blank_ok, toy_blank|done|by vm_compute].
Defined.
(** Two members of a family with one pool: what the second stores moves within its first GiB. *)
Module PoolToy.
Definition people : People.t := People.Build_t ∅ {["f" := family_group]}
  {[("f", "a") := Membership.Build_t family_group true; ("f", "b") := Membership.Build_t family_group true]} ∅ {["a" := "w"; "b" := "x"]}
  {["f" := PoolRow.Build_t (10 * GIB) (Some 100)]} ∅ true.
Definition storage (bytes : Z) : gmap string Storage.t := {["w" := Storage.Build_t 0 700 0; "x" := Storage.Build_t 0 bytes 0]}.
End PoolToy.
