(* ===== verification/DriveTree.v ===== *)
(** * Folders made, renamed, moved and trashed on the Drive server (packages/db/src/drive.ts)

    The transactions that shape the tree and move no bytes. Each is one
    function of the database ([DriveTables]); what its caller hands on as
    [status] is an answer here. A batch's time limits only throw, which
    undoes it whole; its first look at what someone who is not a member may
    trash is a transaction of its own, so [trashNodes] is given the database
    it saw. *)

From S2P Require Import Prelude DriveTables Pool DriveUploads.

(** Why one of these refuses, beside what an upload may be refused for. *)
Inductive TreeRefusal := refusal (r : Refusal.t) | cycle | removed | forbidden.

Module NewFolder.
Record t := { id : string; parentId : string; envelopes : NodeEnvelopes.t }.
End NewFolder.
(** A parent as a new folder needs it, walked or made earlier in the batch. *)
Module Made.
Record t := { depth : Z; keyEpoch : Z; ancestors : list Ancestor.t }.
End Made.
Module Rename.
Record t := { workspaceId : string; nodeId : string; userId : string; metadataVersion : Z; keyEpoch : Z; metadataEnvelope : string; metadataSignature : string }.
End Rename.
(** Each as its own item of a batch; [trash_covered]: inside a folder of the same request that went. *)
Inductive TrashOutcome := trash_moved (trashedAt changeSeq : Z) | trash_covered (by_ : string) | trash_refused (r : TreeRefusal).
Inductive RestoreOutcome := restored (changeSeq : Z) | restore_refused (r : TreeRefusal).
Inductive Role := owner | shared (role : ShareRole).
Module ToRoot.
Record t := { parentKeyEpoch : Z }.
End ToRoot.

Section tree.
Context `{SB : SignedBy}.

(** ** Folders made *)

Definition folder_statements (workspaceId : string) (folders : list NewFolder.t) : list SignedStatement.t :=
  map (λ f, SignedStatement.metadata_signed workspaceId (NewFolder.id f) folder 1 (NodeEnvelopes.metadataEnvelope (NewFolder.envelopes f))
    (NodeEnvelopes.metadataSignature (NewFolder.envelopes f))) folders.
Definition folder_row (workspaceId : string) (f : NewFolder.t) (changeSeq : Z) : Node.t :=
  Node.Build_t workspaceId (Some (NewFolder.parentId f)) folder (NodeEnvelopes.keyEpoch (NewFolder.envelopes f))
    (NodeEnvelopes.parentKeyEpoch (NewFolder.envelopes f)) false 1 None None None 0 (Some changeSeq) None None.
Definition parent_made (d : Db.t) (workspaceId : string) (created : gmap string Made.t) (parentId : string) : Refusal.t + Made.t :=
  match created !! parentId with
  | Some made => inr made
  | None =>
      match walked d workspaceId parentId folder with
      | None => inl Refusal.not_found
      | Some chain =>
          if Walk.trashed chain then inl Refusal.parent_trashed
          else if underUnrotatedParent d workspaceId chain then inl Refusal.rotating
          else inr (Made.Build_t (Walk.depth chain) (Node.keyEpoch (Walk.node chain)) (and_itself chain))
      end
  end.
Definition made_under (f : NewFolder.t) (parent : Made.t) : Made.t :=
  Made.Build_t (Made.depth parent + 1) (NodeEnvelopes.keyEpoch (NewFolder.envelopes f))
    (Made.ancestors parent ++ [Ancestor.Build_t (NewFolder.id f) (Some (NewFolder.parentId f)) (NodeEnvelopes.keyEpoch (NewFolder.envelopes f))]).
(** One folder, or the refusal with the id it names. *)
Definition create_one (workspaceId : string) (f : NewFolder.t) (changeSeq : Z) (created : gmap string Made.t) (d : Db.t)
    : (Refusal.t * string) + (Db.t * Made.t) :=
  let e := NewFolder.envelopes f in
  match parent_made d workspaceId created (NewFolder.parentId f) with
  | inl r => inl (r, NewFolder.parentId f)
  | inr parent =>
      if MAX_DEPTH <? Made.depth parent + 1 then inl (Refusal.too_deep, NewFolder.id f)
      else if negb (NodeEnvelopes.parentKeyEpoch e =? Made.keyEpoch parent) then inl (Refusal.stale, NewFolder.parentId f)
      else if negb (epochWasAllocated d workspaceId (NodeEnvelopes.keyEpoch e)) then inl (Refusal.stale, NewFolder.id f)
      else match insert_node (NewFolder.id f) (folder_row workspaceId f changeSeq) d with
      | None => inl (Refusal.conflict, NewFolder.id f)
      | Some d => inr (raiseHeightBounds (Made.ancestors parent) 0 d, made_under f parent)
      end
  end.
Fixpoint create_each (workspaceId : string) (folders : list NewFolder.t) (changeSeq : Z) (created : gmap string Made.t) (d : Db.t)
    : (Refusal.t * string) + Db.t :=
  match folders with
  | [] => inr d
  | f :: rest =>
      match create_one workspaceId f changeSeq created d with
      | inl r => inl r
      | inr (d, made) => create_each workspaceId rest (changeSeq + 1) (<[NewFolder.id f := made]> created) d
      end
  end.
(** Answers the last folder's number. *)
Definition createFoldersOnce (now : Z) (workspaceId userId : string) (folders : list NewFolder.t) (d : Db.t)
    : result (Db.t * ((Refusal.t * option string) + Z)) :=
  let* (d, firstSeq) := nextChangeSeq now workspaceId (Some userId) d in
  let count := Z.of_nat (length folders) in
  let d := if 1 <? count then moreChangeSeqs workspaceId (count - 1) d else d in
  let* signed := signedBy userId (folder_statements workspaceId folders) in
  if negb signed then Ok (d, inl (Refusal.bad_signature, None))
  else match create_each workspaceId folders firstSeq ∅ d with
  | inl (r, id) => Ok (d, inl (r, Some id))
  | inr d => Ok (d, inr (if 1 <? count then firstSeq + (count - 1) else firstSeq))
  end.
Definition createFolders (now : Z) (workspaceId userId : string) (folders : list NewFolder.t)
    : Db.t → result (Db.t * ((Refusal.t * option string) + Z)) :=
  transactionKeeping began (createFoldersOnce now workspaceId userId folders).

(** ** Renamed, moved *)

(** A node of a workspace, walked and not purged. *)
Definition node_in (d : Db.t) (workspaceId nodeId : string) : option Walk.t :=
  match walk d nodeId with
  | Some w => if (Node.workspaceId (Walk.node w) === workspaceId) && negb (Walk.purged w) then Some w else None
  | None => None
  end.
Definition renameNode (now : Z) (i : Rename.t) (d : Db.t) : result (Db.t * option Refusal.t) :=
  let* (d, changeSeq) := nextChangeSeq now (Rename.workspaceId i) (Some (Rename.userId i)) d in
  match node_in d (Rename.workspaceId i) (Rename.nodeId i) with
  | None => Ok (d, Some Refusal.not_found)
  | Some chain =>
      if Walk.trashed chain then Ok (d, Some Refusal.trashed)
      else
        let* signed := signedBy (Rename.userId i) [SignedStatement.metadata_signed (Rename.workspaceId i) (Rename.nodeId i)
          (Node.kind (Walk.node chain)) (Rename.metadataVersion i + 1) (Rename.metadataEnvelope i) (Rename.metadataSignature i)] in
        if negb signed then Ok (d, Some Refusal.bad_signature)
        else match Db.nodes d !! Rename.nodeId i with
        | Some n =>
            if (Node.metadataVersion n =? Rename.metadataVersion i) && (Node.keyEpoch n =? Rename.keyEpoch i)
            then Ok (set_nodes d (<[Rename.nodeId i := with_seq (with_metadata n (Rename.metadataVersion i + 1)) (Some changeSeq)]> (Db.nodes d)), None)
            else Ok (d, Some Refusal.stale)
        | None => Ok (d, Some Refusal.stale)
        end
  end.

(** The live shares that see a node leave ([true]) or come in. *)
Definition share_events (d : Db.t) (from to : list string) : list (string * bool) :=
  omap (λ e, if Share.revoked e.2 then None
    else let before := bool_decide (Share.nodeId e.2 ∈ from) in
      let after := bool_decide (Share.nodeId e.2 ∈ to) in
      if Bool.eqb before after then None else Some (e.1, before)) (map_to_list (Db.shares d)).
Definition inside_of (nodeId : string) (w : Walk.t) : bool := (Walk.id w === nodeId) || bool_decide (nodeId ∈ ancestorIds w).
(** While a rotation runs, nothing leaves its subtree, and what it has reached stays put. *)
Definition move_rotating (d : Db.t) (workspaceId : string) (chain destination : Walk.t) : bool :=
  match Db.rotations d !! workspaceId with
  | None => false
  | Some r => Node.reached (Walk.node chain) ||
      (inside_of (Rotation.nodeId r) chain && negb (inside_of (Rotation.nodeId r) destination)) ||
      underUnrotatedParent d workspaceId destination
  end.
(** Answers the events the move wrote for the shares above either place. *)
Definition moveNode (now : Z) (workspaceId : string) (writer : option string) (nodeId parentId : string) (parentKeyEpoch : Z) (d : Db.t)
    : result (Db.t * (TreeRefusal + list (string * bool))) :=
  let* (d, changeSeq) := nextChangeSeq now workspaceId writer d in
  let refused r := Ok (d, inl (refusal r)) in
  match node_in d workspaceId nodeId with
  | None => refused Refusal.not_found
  | Some chain =>
      if bool_decide (Node.parentId (Walk.node chain) = None) then refused Refusal.root
      else if Walk.trashed chain then refused Refusal.trashed
      else match walked d workspaceId parentId folder with
      | None => refused Refusal.not_found
      | Some destination =>
          if Walk.trashed destination then refused Refusal.parent_trashed
          else if inside_of nodeId destination then Ok (d, inl cycle)
          else if MAX_DEPTH <? Walk.depth destination + 1 + Node.heightBound (Walk.node chain) then refused Refusal.too_deep
          else if move_rotating d workspaceId chain destination then refused Refusal.rotating
          else if negb (parentKeyEpoch =? Node.keyEpoch (Walk.node destination)) then refused Refusal.stale
          else
            let d := set_nodes d (alter (λ n, with_seq (with_parent n (Some parentId) parentKeyEpoch) (Some changeSeq)) nodeId (Db.nodes d)) in
            let events := share_events d (ancestorIds chain) (map Ancestor.id (and_itself destination)) in
            Ok (raiseHeightBounds (and_itself destination) (Node.heightBound (Walk.node chain)) d, inr events)
      end
  end.

(** ** The trash *)

Definition MAX_NODE_BATCH : Z := 200.
Definition NAMED_TWICE : string := "An item is named twice.".
Definition trashRefusal (chain : option Walk.t) (workspaceId : string) : option TreeRefusal :=
  match chain with
  | Some c =>
      if (Node.workspaceId (Walk.node c) !== workspaceId) || Walk.purged c then Some (refusal Refusal.not_found)
      else if bool_decide (Node.parentId (Walk.node c) = None) then Some (refusal Refusal.root)
      else if Walk.trashed c then Some (refusal Refusal.trashed)
      else None
  | None => Some (refusal Refusal.not_found)
  end.
(** Into the trash, or back in place, each with the next number. *)
Definition mark_one (at_ : option Z) (changeSeq : Z) (n : Node.t) : Node.t := with_seq (with_trash n at_ (Node.removedAt n)) (Some changeSeq).
Fixpoint markTrashed (ids : list string) (firstSeq : Z) (at_ : option Z) (d : Db.t) : Db.t :=
  match ids with
  | [] => d
  | id :: rest => markTrashed rest (firstSeq + 1) at_ (set_nodes d (alter (mark_one at_ firstSeq) id (Db.nodes d)))
  end.
Definition trashNode (now : Z) (workspaceId nodeId : string) (writer : option string) (d : Db.t) : result (Db.t * option TreeRefusal) :=
  let* (d, changeSeq) := nextChangeSeq now workspaceId writer d in
  match trashRefusal (walk d nodeId) workspaceId with
  | Some r => Ok (d, Some r)
  | None => Ok (markTrashed [nodeId] changeSeq (Some now) d, None)
  end.

(** A member owns everything; anyone else by the nearest live share above, of the envelopes [served]. *)
Fixpoint nearest_share (shares : list Share.t) (above : list string) : option ShareRole :=
  match above with
  | [] => None
  | id :: rest =>
      match List.find (λ s, Share.nodeId s === id) shares with Some s => Some (Share.role s) | None => nearest_share shares rest end
  end.
Definition accessFor (served : string → bool) (d : Db.t) (userId : string) (chain : Walk.t) : option Role :=
  if holdsWorkspace d userId (Node.workspaceId (Walk.node chain)) then Some owner
  else shared <$> nearest_share (map snd (List.filter (λ e, (Share.granteeUserId e.2 === userId) && negb (Share.revoked e.2) && served e.1) (map_to_list (Db.shares d))))
    (Walk.id chain :: reverse (ancestorIds chain)).
Definition atLeast_editor (r : Role) : bool := match r with owner | shared editor => true | shared viewer => false end.
Definition trash_access (served : string → bool) (d : Db.t) (workspaceId writer : string) (chain : option Walk.t) : option TreeRefusal :=
  match chain with
  | Some c =>
      if (Node.workspaceId (Walk.node c) !== workspaceId) || Walk.purged c then Some (refusal Refusal.not_found)
      else match accessFor served d writer c with
      | None => Some (refusal Refusal.not_found)
      | Some r => if atLeast_editor r then None else Some forbidden
      end
  | None => Some (refusal Refusal.not_found)
  end.
(** What someone who is not a member may not trash, as seen before the lock. *)
Definition refused_before (served : string → bool) (seen : Db.t) (workspaceId writer : string) (nodeIds : list string) : list (string * TreeRefusal) :=
  if holdsWorkspace seen writer workspaceId then []
  else omap (λ id, (λ r, (id, r)) <$> trash_access served seen workspaceId writer (walk seen id)) nodeIds.
Definition refused_as {A} (refused : list (string * A)) (id : string) : option A := snd <$> List.find (λ e, e.1 === id) refused.
Definition trash_check (served : string → bool) (d : Db.t) (workspaceId writer : string) (refused : list (string * TreeRefusal)) (id : string)
    : option TreeRefusal :=
  match refused_as refused id with
  | Some r => Some r
  | None =>
      let chain := walk d id in
      match (if holdsWorkspace d writer workspaceId then None else trash_access served d workspaceId writer chain) with
      | Some r => Some r
      | None => trashRefusal chain workspaceId
      end
  end.
Definition covered_by (d : Db.t) (passed : list string) (id : string) : option string :=
  match walk d id with Some c => List.find (λ a, bool_decide (a ∈ passed)) (ancestorIds c) | None => None end.
Definition trash_outcome (now : Z) (d : Db.t) (check : string → option TreeRefusal) (passed : list string) (moved : list (string * Z)) (id : string)
    : TrashOutcome :=
  match check id with
  | Some r => trash_refused r
  | None =>
      match covered_by d passed id with
      | Some by_ => trash_covered by_
      | None => trash_moved now (default 0 (refused_as moved id))
      end
  end.
Fixpoint numbered_from (ids : list string) (seq : Z) : list (string * Z) :=
  match ids with [] => [] | id :: rest => (id, seq) :: numbered_from rest (seq + 1) end.
Definition trash_batch (now : Z) (served : string → bool) (workspaceId writer : string) (nodeIds : list string) (refused : list (string * TreeRefusal)) (d : Db.t)
    : result (Db.t * list (string * TrashOutcome)) :=
  let* (d, firstSeq) := nextChangeSeq now workspaceId (Some writer) d in
  let check := trash_check served d workspaceId writer refused in
  let passed := List.filter (λ id, bool_decide (check id = None)) nodeIds in
  let going := List.filter (λ id, bool_decide (covered_by d passed id = None)) passed in
  let count := Z.of_nat (length going) in
  let d' := if 1 <? count then moreChangeSeqs workspaceId (count - 1) d else d in
  Ok (markTrashed going firstSeq (Some now) d', map (λ id, (id, trash_outcome now d check passed (numbered_from going firstSeq) id)) nodeIds).
Definition trashNodes (now : Z) (served : string → bool) (seen : Db.t) (workspaceId : string) (nodeIds : list string) (writer : string) (d : Db.t)
    : result (Db.t * list (string * TrashOutcome)) :=
  refuse "Trash between 1 and 200 items at a time." when (Z.of_nat (length nodeIds) <? 1) || (MAX_NODE_BATCH <? Z.of_nat (length nodeIds)) ;;
  refuse NAMED_TWICE unless bool_decide (NoDup nodeIds) ;;
  let refused := refused_before served seen workspaceId writer nodeIds in
  if (negb (holdsWorkspace seen writer workspaceId)) && (Z.of_nat (length refused) =? Z.of_nat (length nodeIds))
  then Ok (d, map (λ e, (e.1, trash_refused e.2)) refused)
  else trash_batch now served workspaceId writer nodeIds refused d.

(** An operator's removal: trashed, not to be restored, its shares and links revoked. *)
Definition removeNode (now : Z) (workspaceId nodeId : string) (d : Db.t) : result (Db.t * option Refusal.t) :=
  let* (d, changeSeq) := nextChangeSeq now workspaceId None d in
  match node_in d workspaceId nodeId with
  | None => Ok (d, Some Refusal.not_found)
  | Some chain =>
      if bool_decide (Node.parentId (Walk.node chain) = None) then Ok (d, Some Refusal.root)
      else
        let trashed := match Node.trashedAt (Walk.node chain) with Some t => t | None => now end in
        let d := set_nodes d (alter (λ n, with_seq (with_trash n (Some trashed) (Some now)) (Some changeSeq)) nodeId (Db.nodes d)) in
        Ok (revoke_grants nodeId d, None)
  end.

(** ** Back from the trash *)

Definition restoreRefusal (chain : option Walk.t) (workspaceId : string) : option TreeRefusal :=
  match chain with
  | Some c =>
      if (Node.workspaceId (Walk.node c) !== workspaceId) || Walk.purged c then Some (refusal Refusal.not_found)
      else if bool_decide (Node.trashedAt (Walk.node c) = None) then Some (refusal Refusal.not_trashed)
      else if bool_decide (is_Some (Node.removedAt (Walk.node c))) then Some removed
      else None
  | None => Some (refusal Refusal.not_found)
  end.
(** Under the top folder, when a folder above it is in the trash. *)
Definition restore_to_root (workspaceId nodeId : string) (chain : Walk.t) (toRoot : option ToRoot.t) (changeSeq : Z) (d : Db.t) : Refusal.t + Db.t :=
  match toRoot with
  | None => inl Refusal.parent_trashed
  | Some t =>
      match walk d (Walk.rootId chain) with
      | None => inl Refusal.not_found
      | Some root =>
          if underUnrotatedParent d workspaceId root then inl Refusal.rotating
          else if negb (ToRoot.parentKeyEpoch t =? Node.keyEpoch (Walk.node root)) then inl Refusal.stale
          else if MAX_DEPTH <? 1 + Node.heightBound (Walk.node chain) then inl Refusal.too_deep
          else
            let d := set_nodes d (alter (λ n, with_parent (mark_one None changeSeq n) (Some (Walk.rootId chain)) (ToRoot.parentKeyEpoch t)) nodeId (Db.nodes d)) in
            inr match walk d (Walk.rootId chain) with
              | Some root => raiseHeightBounds [Ancestor.Build_t (Walk.id root) None (Node.keyEpoch (Walk.node root))] (Node.heightBound (Walk.node chain)) d
              | None => d
              end
      end
  end.
Definition restoreNode (now : Z) (workspaceId : string) (writer : option string) (nodeId : string) (toRoot : option ToRoot.t) (d : Db.t)
    : result (Db.t * option TreeRefusal) :=
  let* (d, changeSeq) := nextChangeSeq now workspaceId writer d in
  match walk d nodeId with
  | None => Ok (d, Some (refusal Refusal.not_found))
  | Some chain =>
      match restoreRefusal (Some chain) workspaceId with
      | Some r => Ok (d, Some r)
      | None =>
          if bool_decide (Walk.trashedAncestors chain = []) then Ok (markTrashed [nodeId] changeSeq None d, None)
          else match restore_to_root workspaceId nodeId chain toRoot changeSeq d with
          | inl r => Ok (d, Some (refusal r))
          | inr d => Ok (d, None)
          end
      end
  end.

(** One pass over what waits, in the order given: back comes what has every trashed folder above it back. *)
Fixpoint restore_pass (waiting : list (string * list string)) (back : list string) : list (string * list string) * list string :=
  match waiting with
  | [] => ([], back)
  | (id, above) :: rest =>
      if forallb (λ a, bool_decide (a ∈ back)) above then restore_pass rest (back ++ [id])
      else let '(still, back) := restore_pass rest back in ((id, above) :: still, back)
  end.
(** Passes until one brings nothing back: [fuel] is one more than what waits. *)
Fixpoint restore_passes (fuel : nat) (waiting : list (string * list string)) (back : list string) : list (string * list string) * list string :=
  match fuel with
  | O => (waiting, back)
  | S fuel =>
      let '(still, back) := restore_pass waiting back in
      if bool_decide (length still = length waiting) then (still, back) else restore_passes fuel still back
  end.
Definition waiting_for (d : Db.t) (workspaceId : string) (nodeIds : list string) : list (string * list string) :=
  omap (λ id, match walk d id with
    | Some c => match restoreRefusal (Some c) workspaceId with None => Some (id, Walk.trashedAncestors c) | Some _ => None end
    | None => None end) nodeIds.
Definition coming_back (d : Db.t) (workspaceId : string) (nodeIds : list string) : list string :=
  let waiting := waiting_for d workspaceId nodeIds in (restore_passes (S (length waiting)) waiting []).2.
Definition restore_outcome (d : Db.t) (workspaceId : string) (numbers : list (string * Z)) (id : string) : RestoreOutcome :=
  match restoreRefusal (walk d id) workspaceId with
  | Some r => restore_refused r
  | None => match refused_as numbers id with Some seq => restored seq | None => restore_refused (refusal Refusal.parent_trashed) end
  end.
Definition restoreNodes (now : Z) (workspaceId : string) (nodeIds : list string) (writer : string) (d : Db.t)
    : result (Db.t * list (string * RestoreOutcome)) :=
  refuse "Restore between 1 and 200 items at a time." when (Z.of_nat (length nodeIds) <? 1) || (MAX_NODE_BATCH <? Z.of_nat (length nodeIds)) ;;
  refuse NAMED_TWICE unless bool_decide (NoDup nodeIds) ;;
  let* (d, firstSeq) := nextChangeSeq now workspaceId (Some writer) d in
  let back := coming_back d workspaceId nodeIds in
  let count := Z.of_nat (length back) in
  let d' := if 1 <? count then moreChangeSeqs workspaceId (count - 1) d else d in
  Ok (markTrashed back firstSeq None d', map (λ id, (id, restore_outcome d workspaceId (numbered_from back firstSeq) id)) nodeIds).
End tree.
