(* ===== verification/DriveForest.v ===== *)
(** * The Drive server's trees stay trees (packages/db/src/drive.ts)

    What every transaction keeps of the nodes' parents and height bounds: each
    node hangs from a root by folders of its own workspace, no deeper than a
    walk goes, and a folder's bound is above the bounds of the folders in it.
    So no move makes a cycle, and no walk is cut short. *)

From S2P Require Import Prelude DriveTables Pool DriveUploads DrivePurges DriveAccounting DriveAlike DriveBalance DriveReached.

(** ** Paths *)

Implicit Types (m : gmap string Node.t) (ids : list string).

(** [ids] hang one from another, the first from [above]. *)
Fixpoint linked m (above : option string) ids : Prop :=
  match ids with
  | [] => True
  | a :: rest => (∃ N, m !! a = Some N ∧ Node.parentId N = above) ∧ linked m (Some a) rest
  end.
Definition path m ids (id : string) : Prop := linked m None (ids ++ [id]).

Lemma linked_app m ids ids' above : linked m above (ids ++ ids') ↔
  linked m above ids ∧ linked m (match last ids with Some a => Some a | None => above end) ids'.
Proof.
  revert above. induction ids as [|a ids IH]; intros above; cbn; [tauto|]. rewrite IH. destruct ids as [|b ids]; [cbn; tauto|].
  change (last (a :: b :: ids)) with (last (b :: ids)). destruct (last (b :: ids)) eqn:E; [tauto|]. by apply last_None in E.
Qed.
Lemma linked_snoc m ids above id : linked m above (ids ++ [id]) ↔
  linked m above ids ∧ ∃ N, m !! id = Some N ∧ Node.parentId N = match last ids with Some a => Some a | None => above end.
Proof. rewrite linked_app. cbn. tauto. Qed.
Lemma linked_elem m ids above a : linked m above ids → a ∈ ids → ∃ N, m !! a = Some N.
Proof.
  revert above. induction ids as [|b ids IH]; intros above H Hin; [by apply elem_of_nil in Hin|]. destruct H as [(N & HN & _) H].
  apply elem_of_cons in Hin as [->|Hin]; eauto.
Qed.
Lemma path_unique m ids : ∀ ids' id, path m ids id → path m ids' id → ids = ids'.
Proof.
  induction ids as [|a ids IH] using rev_ind; intros ids' id H H'.
  - apply linked_snoc in H as (_ & N & HN & E). apply linked_snoc in H' as (_ & N' & HN' & E'). assert (N' = N) as -> by congruence. rewrite E in E'.
    destruct ids' as [|b ids'] using rev_ind; [done|]. by rewrite last_snoc in E'.
  - apply linked_snoc in H as (Hl & N & HN & E). apply linked_snoc in H' as (Hl' & N' & HN' & E'). assert (N' = N) as -> by congruence. rewrite E, last_snoc in E'.
    destruct ids' as [|b ids' _] using rev_ind; [done|]. rewrite last_snoc in E'. injection E' as <-. f_equal. by apply (IH ids' a).
Qed.
Lemma path_split m l1 l2 a id : path m (l1 ++ a :: l2) id → path m l1 a ∧ linked m (Some a) (l2 ++ [id]).
Proof.
  unfold path. replace ((l1 ++ a :: l2) ++ [id]) with ((l1 ++ [a]) ++ l2 ++ [id]) by by rewrite <-!app_assoc. intros H. apply linked_app in H as [H H']. by rewrite last_snoc in H'.
Qed.
(** No node is above itself. *)
Lemma path_fresh m ids id : path m ids id → id ∉ ids.
Proof.
  intros H Hin. apply list_elem_of_split in Hin as (l1 & l2 & ->). destruct (path_split _ _ _ _ _ H) as [H1 _].
  pose proof (path_unique _ _ _ _ H H1) as E. apply (f_equal length) in E. rewrite length_app in E. cbn in E. lia.
Qed.
Lemma path_distinct m ids : ∀ id, path m ids id → NoDup (ids ++ [id]).
Proof.
  induction ids as [|a ids IH] using rev_ind; intros id H; [apply NoDup_singleton|]. pose proof (path_fresh _ _ _ H) as Hn.
  apply NoDup_app. split_and!; [|by intros x Hx ->%list_elem_of_singleton|apply NoDup_singleton]. apply IH. by destruct (path_split _ _ _ _ _ H) as [H1 _].
Qed.

(** Rows as they hang: parents, kinds, workspaces and bounds. *)
Record same_place (n x : Node.t) : Prop := {
  pl_parent : Node.parentId n = Node.parentId x; pl_kind : Node.kind n = Node.kind x;
  pl_workspace : Node.workspaceId n = Node.workspaceId x; pl_height : Node.heightBound n = Node.heightBound x;
}.
#[export] Instance same_place_eq : Equivalence same_place.
Proof. split; [done|intros ?? []; done|intros ??? [] []; split; congruence]. Qed.

Definition hung_alike m m' : Prop := ∀ a N, m !! a = Some N → ∃ N', m' !! a = Some N' ∧ Node.parentId N' = Node.parentId N.
Lemma linked_mono m m' ids : hung_alike m m' → ∀ above, linked m above ids → linked m' above ids.
Proof.
  intros Hm. induction ids as [|a ids IH]; intros above; [done|]. intros [(N & HN & E) H]. destruct (Hm a N HN) as (N' & HN' & E'). split; [exists N'; split; [done|congruence]|by apply IH].
Qed.
Lemma linked_ne m m' ids : (∀ a, a ∈ ids → m' !! a = m !! a) → ∀ above, linked m above ids → linked m' above ids.
Proof.
  induction ids as [|a ids IH]; intros Hm above; [done|]. intros [(N & HN & E) H]. split; [exists N; rewrite Hm by left; done|]. apply IH; [|done]. intros b Hb. apply Hm. by right.
Qed.
Lemma rows_hung m m' : map_Forall2 (λ _, same_place) m m' → hung_alike m m'.
Proof. intros H a N HN. destruct (rows_fwd _ _ _ _ H HN) as (N' & HN' & []). eauto. Qed.

(** *** Walks are paths *)

Lemma chain_rows_path m cap : ∀ id rows r, chain_rows m cap id = rows → last rows = Some r → Node.parentId r.2 = None →
  match rows with (i, N) :: above => i = id ∧ m !! id = Some N ∧ path m (reverse (map fst above)) id | [] => False end.
Proof.
  induction cap as [|cap IH]; intros id rows r H Hl Hr; cbn in H; [by subst rows|]. destruct (m !! id) as [N|] eqn:HN; [|by subst rows]. subst rows.
  split_and!; [done|done|]. destruct (Node.parentId N) as [p|] eqn:Ep; [|unfold path; cbn; eauto].
  destruct (chain_rows m cap p) as [|[q Q] above] eqn:Ec; [cbn in Hl; injection Hl as <-; by cbn in Hr; congruence|].
  destruct (IH p _ r Ec Hl Hr) as (-> & HQ & Hp). cbn [map fst]. rewrite reverse_cons. unfold path. apply linked_snoc. split; [exact Hp|]. exists N. by rewrite last_snoc.
Qed.
Lemma map_reverse {A B} (f : A → B) l : map f (reverse l) = reverse (map f l).
Proof. unfold reverse. rewrite <-!rev_alt. apply map_rev. Qed.
Lemma walk_path d id w : walk d id = Some w → path (Db.nodes d) (ancestorIds w) id ∧ Z.of_nat (length (ancestorIds w)) = Walk.depth w ∧ map Ancestor.id (and_itself w) = ancestorIds w ++ [id].
Proof.
  intros H. destruct (walk_spec _ _ _ H) as (Ei & _). unfold walk, chainWalk in H. destruct (chain_rows _ _ id) as [|[i N] above] eqn:Ec; [done|]. destruct (last _) as [[r top]|] eqn:El; [|done].
  destruct (Node.parentId top) eqn:Et; [done|]. injection H as H. destruct (chain_rows_path _ _ _ _ _ Ec El Et) as (-> & _ & Hp).
  assert (ancestorIds w = reverse (map fst above)) as E by (rewrite <-H; unfold ancestorIds; cbn [Walk.ancestors]; by rewrite map_reverse, map_map).
  assert (Walk.depth w = Z.of_nat (length above)) as -> by by rewrite <-H.
  rewrite E. split_and!; [done|by rewrite length_reverse, length_map|]. unfold and_itself. rewrite map_app. cbn. by rewrite Ei, <-E.
Qed.
(** A path shorter than the walk's cap is walked to its root. *)
Lemma path_chain m ids : ∀ id cap, path m ids id → (length ids < cap)%nat →
  ∃ r, last (chain_rows m cap id) = Some r ∧ Node.parentId r.2 = None.
Proof.
  induction ids as [|a ids IH] using rev_ind; intros id cap Hp Hc; (destruct cap as [|cap]; [lia|]); apply linked_snoc in Hp as (Hl & N & HN & E); cbn; rewrite HN, E.
  - by exists (id, N).
  - rewrite last_snoc. rewrite length_app in Hc. cbn in Hc. destruct (IH a cap Hl ltac:(lia)) as (r & Hr & Er). exists r. split; [|done].
    destruct (chain_rows m cap a) as [|x rows]; [done|exact Hr].
Qed.
Lemma path_walk d ids id N : path (Db.nodes d) ids id → (length ids < WALK_CAP)%nat → Db.nodes d !! id = Some N →
  ∃ w, walk d id = Some w ∧ ancestorIds w = ids.
Proof.
  intros Hp Hc HN. destruct (path_chain _ _ _ _ Hp Hc) as (r & Hr & Er). assert (∃ w, walk d id = Some w) as [w Hw].
  { unfold walk, chainWalk. change WALK_CAP with (S 127) in *. cbn [chain_rows] in *. rewrite HN in *. destruct r as [r top]. cbn in Er. rewrite Hr, Er. eauto. }
  exists w. split; [done|]. by apply (path_unique _ _ _ _ (proj1 (walk_path _ _ _ Hw)) Hp).
Qed.
(** Where a walk ends, and which folders of it are in the trash. *)
Lemma walk_root d id w : walk d id = Some w → path (Db.nodes d) [] (Walk.rootId w) ∧ Walk.rootId w = match ancestorIds w with [] => id | a :: _ => a end.
Proof.
  intros H. pose proof (walk_path _ _ _ H) as (Hp & _). assert (Walk.rootId w = match ancestorIds w with [] => id | a :: _ => a end) as E.
  { unfold walk, chainWalk in H. destruct (chain_rows _ _ id) as [|[i N] above] eqn:Ec; [done|]. destruct (last _) as [[r top]|] eqn:El; [|done]. destruct (Node.parentId top) eqn:Et; [done|].
    destruct (chain_rows_path _ _ _ _ _ Ec El Et) as (-> & _). injection H as <-. unfold ancestorIds. cbn [Walk.ancestors Walk.rootId]. rewrite map_reverse, map_map. cbn [ancestor_of Ancestor.id].
    destruct above as [|x above _] using rev_ind; [by injection El as -> _|]. rewrite map_app. change (map _ [x]) with [x.1]. rewrite reverse_snoc. rewrite app_comm_cons, last_snoc in El. by injection El as ->. }
  split; [|done]. rewrite E. destruct (ancestorIds w) as [|a ids]; [exact Hp|]. destruct Hp as [Ha _]. by split.
Qed.
Lemma chain_rows_lookup m cap : ∀ id i N, (i, N) ∈ chain_rows m cap id → m !! i = Some N.
Proof.
  induction cap as [|cap IH]; intros id i N H; cbn in H; [by apply elem_of_nil in H|]. destruct (m !! id) as [X|] eqn:HX; [|by apply elem_of_nil in H].
  apply elem_of_cons in H as [[= -> ->]|H]; [done|]. destruct (Node.parentId X); [by eapply IH|by apply elem_of_nil in H].
Qed.
Lemma trashed_above d id w a : walk d id = Some w → a ∈ Walk.trashedAncestors w ↔ a ∈ ancestorIds w ∧ ∃ A, Db.nodes d !! a = Some A ∧ is_Some (Node.trashedAt A).
Proof.
  intros H. unfold walk, chainWalk in H. destruct (chain_rows _ _ id) as [|[i N] above] eqn:Ec; [done|]. destruct (last _) as [[r top]|]; [|done]. destruct (Node.parentId top); [done|]. injection H as <-.
  unfold ancestorIds. cbn [Walk.ancestors Walk.trashedAncestors]. rewrite map_reverse, map_map, !elem_of_reverse. cbn [ancestor_of Ancestor.id].
  assert (∀ x X, (x, X) ∈ above → Db.nodes d !! x = Some X) as Hrow by (intros x X Hx; eapply chain_rows_lookup; rewrite Ec; by right). rewrite !list_elem_of_fmap. split.
  - intros ([x X] & -> & Hx). apply list_elem_of_In, List.filter_In in Hx as [Hx Ht]. apply list_elem_of_In in Hx. apply bool_decide_eq_true in Ht. split; [by exists (x, X)|]. exists X. split; [by apply Hrow|done].
  - intros [([x X] & -> & Hx) (A & HA & Ht)]. exists (x, X). split; [done|]. apply list_elem_of_In, List.filter_In. split; [by apply list_elem_of_In|]. apply bool_decide_eq_true. cbn in HA. rewrite (Hrow x X Hx) in HA. by injection HA as <-.
Qed.

(** ** Height bounds *)

(** A folder's bound is below its parent's, for the folders [ok] says. *)
Definition heights (ok : string → Prop) m : Prop := ∀ c N p P, ok c → m !! c = Some N → Node.kind N = folder → Node.parentId N = Some p → m !! p = Some P →
  Node.heightBound N + 1 ≤ Node.heightBound P.
(** What raising leaves of a row. *)
Definition raised (n x : Node.t) : Prop :=
  Node.parentId n = Node.parentId x ∧ Node.kind n = Node.kind x ∧ Node.workspaceId n = Node.workspaceId x ∧ Node.heightBound n ≤ Node.heightBound x.
#[export] Instance raised_preorder : PreOrder raised.
Proof. unfold raised. split; [by intros ?|intros ??? (?&?&?&?) (?&?&?&?); split_and!; (congruence || lia)]. Qed.
Lemma raise_to_raised distance n : raised n (raise_to distance n) ∧ Node.heightBound (raise_to distance n) = Z.max (Node.heightBound n) distance.
Proof. unfold raise_to. destruct (Z.ltb_spec (Node.heightBound n) distance); (split; [split_and!; cbn; (done || lia)|cbn; lia]). Qed.
Lemma raise_one_lookup m id distance a : raise_one m id distance !! a = if decide (a = id) then raise_to distance <$> m !! a else m !! a.
Proof. unfold raise_one. case_decide as E; [subst a; by rewrite lookup_alter_eq|by rewrite lookup_alter_ne]. Qed.
Lemma raise_one_raised m id distance a N : m !! a = Some N → ∃ N', raise_one m id distance !! a = Some N' ∧ raised N N'.
Proof. intros HN. rewrite raise_one_lookup, HN. case_decide; eexists; (split; [done|]); [apply raise_to_raised|done]. Qed.
Lemma raise_each_raised ids h : ∀ m a N, m !! a = Some N → ∃ N', raise_each m ids h !! a = Some N' ∧ raised N N'.
Proof.
  induction ids as [|b ids IH]; intros m a N HN; [by exists N|]. cbn [raise_each]. destruct (raise_one_raised m b (Z.of_nat (length (b :: ids)) + h) a N HN) as (N1 & H1 & E1).
  destruct (IH _ _ _ H1) as (N2 & H2 & E2). exists N2. split; [done|]. by etrans.
Qed.
Lemma raise_each_ne ids h a : a ∉ ids → ∀ m, raise_each m ids h !! a = m !! a.
Proof. induction ids as [|b ids IH]; intros Ha m; [done|]. cbn. apply not_elem_of_cons in Ha as [Hne Ha]. rewrite IH by done. rewrite raise_one_lookup. by rewrite decide_False. Qed.
Lemma raise_each_back ids h m a N' : raise_each m ids h !! a = Some N' → ∃ N, m !! a = Some N ∧ raised N N'.
Proof.
  intros H. destruct (m !! a) as [N|] eqn:HN; [destruct (raise_each_raised ids h m a N HN) as (N1 & H1 & E); exists N; split; [done|congruence]|]. exfalso.
  revert m HN H. induction ids as [|b ids IH]; intros m HN H; cbn in H; [congruence|]. apply (IH _ ) in H; [done|]. rewrite raise_one_lookup, HN. by case_decide.
Qed.
(** Raising along a path keeps every folder's bound below its parent's. *)
Lemma raise_heights ok ids h : ∀ m above, linked m above ids → heights ok m →
  match above with Some p => ∃ P, m !! p = Some P ∧ (ids = [] ∨ Z.of_nat (length ids) + h + 1 ≤ Node.heightBound P) | None => True end → heights ok (raise_each m ids h).
Proof.
  induction ids as [|b ids IH]; intros m above Hl Hh Hp; [done|]. destruct Hl as [(B & HB & EB) Hl]. cbn [raise_each]. set (D := Z.of_nat (length (b :: ids)) + h).
  assert (hung_alike m (raise_one m b D)) as Hm.
  { intros a N HN. destruct (raise_one_raised m b D a N HN) as (N' & HN' & E & _). eauto. }
  apply (IH _ (Some b)); [by eapply linked_mono| |].
  - intros c N q Q Hok HN Hk Eq HQ. rewrite raise_one_lookup in HN, HQ.
    assert (∃ N0 Q0, m !! c = Some N0 ∧ m !! q = Some Q0 ∧ raised N0 N ∧ raised Q0 Q ∧ (c = b → Node.heightBound N = Z.max (Node.heightBound N0) D) ∧ (c ≠ b → N = N0)) as (N0 & Q0 & HN0 & HQ0 & (E1 & E2 & _) & (_ & _ & _ & E3) & Ec & En).
    { destruct (m !! c) as [N0|] eqn:HN0; [|by destruct (decide (c = b))]. destruct (m !! q) as [Q0|] eqn:HQ0; [|by destruct (decide (q = b))]. exists N0, Q0. destruct (raise_to_raised D N0), (raise_to_raised D Q0).
      destruct (decide (c = b)), (decide (q = b)); cbn in HN, HQ; injection HN as <-; injection HQ as <-; split_and!; try done. }
    pose proof (Hh c N0 q Q0 Hok HN0 ltac:(congruence) ltac:(congruence) HQ0). destruct (decide (c = b)) as [->|Hne]; [|rewrite (En Hne); lia]. rewrite (Ec eq_refl). assert (N0 = B) as -> by congruence.
    rewrite EB in E1. destruct above as [p|]; [|congruence]. destruct Hp as (P & HP & [Hx|Hx]); [done|]. assert (q = p) as -> by congruence. assert (P = Q0) as -> by congruence. unfold D. lia.
  - rewrite raise_one_lookup, decide_True, HB by done. eexists. split; [done|]. destruct ids as [|c ids]; [by left|]. right. rewrite (proj2 (raise_to_raised D B)). unfold D. cbn [length]. lia.
Qed.
Lemma raise_last ids h p : ∀ m P, m !! p = Some P → ∃ P', raise_each m (ids ++ [p]) h !! p = Some P' ∧ raised P P' ∧ 1 + h ≤ Node.heightBound P'.
Proof.
  induction ids as [|b ids IH]; intros m P HP.
  - exists (raise_to (1 + h) P). cbn [app raise_each length]. rewrite raise_one_lookup, decide_True, HP by done. cbn. destruct (raise_to_raised (1 + h) P). split_and!; [done|done|lia].
  - cbn [app raise_each]. destruct (raise_one_raised m b (Z.of_nat (length (b :: ids ++ [p])) + h) p P HP) as (P1 & HP1 & E1).
    destruct (IH _ _ HP1) as (P2 & HP2 & E2 & ?). exists P2. split_and!; [done|by etrans|done].
Qed.

(** ** Forests *)

(** How deep a node can come to hang. A folder and whatever a transaction makes or hangs are capped ([settled] below); a file
    carried down with its folder, which the folder's bound does not count while it is uploaded, can be one deeper. *)
Definition depth_of (k : NodeKind) : Z := match k with folder => MAX_DEPTH | file => MAX_DEPTH + 1 end.
Record forest m : Prop := {
  fo_path : ∀ id N, m !! id = Some N → ∃ ids, path m ids id ∧ Z.of_nat (length ids) ≤ depth_of (Node.kind N);
  fo_under : ∀ id N p P, m !! id = Some N → Node.parentId N = Some p → m !! p = Some P → Node.kind P = folder ∧ Node.workspaceId P = Node.workspaceId N;
  fo_heights : heights (λ _, True) m;
  fo_nonneg : ∀ id N, m !! id = Some N → 0 ≤ Node.heightBound N;
}.
(** What a transaction that moves no node does to the tree, a write at a time. *)
Inductive sprout m : gmap string Node.t → Prop :=
  | sp_rows m' : map_Forall2 (λ _, same_place) m m' → sprout m m'
  | sp_raise ids h : linked m None ids → sprout m (raise_each m ids h)
  | sp_file id N p P : m !! id = None → Node.kind N = file → Node.heightBound N = 0 → Node.parentId N = Some p → m !! p = Some P →
      Node.kind P = folder → Node.workspaceId P = Node.workspaceId N → (∀ ids, path m ids p → Z.of_nat (length ids) + 1 ≤ MAX_DEPTH) → sprout m (<[id := N]> m)
  | sp_fell id : (∀ c C, m !! c = Some C → Node.parentId C ≠ Some id) → sprout m (delete id m).
Definition grows : gmap string Node.t → gmap string Node.t → Prop := rtc sprout.

Lemma forest_rows m m' : forest m → map_Forall2 (λ _, same_place) m m' → forest m'.
Proof.
  intros [] Hr. pose proof (rows_hung _ _ Hr) as Hm. constructor.
  - intros id N' HN'. destruct (rows_bwd _ _ _ _ Hr HN') as (N & HN & []). destruct (fo_path0 _ _ HN) as (ids & Hp & Hd). exists ids. split; [by eapply linked_mono|congruence].
  - intros id N' p P' HN' Ep HP'. destruct (rows_bwd _ _ _ _ Hr HN') as (N & HN & []), (rows_bwd _ _ _ _ Hr HP') as (P & HP & []).
    destruct (fo_under0 id N p P HN ltac:(congruence) HP). split; congruence.
  - intros id N' p P' _ HN' Hk Ep HP'. destruct (rows_bwd _ _ _ _ Hr HN') as (N & HN & []), (rows_bwd _ _ _ _ Hr HP') as (P & HP & []).
    pose proof (fo_heights0 id N p P I HN ltac:(congruence) ltac:(congruence) HP). lia.
  - intros id N' HN'. destruct (rows_bwd _ _ _ _ Hr HN') as (N & HN & []). pose proof (fo_nonneg0 _ _ HN). lia.
Qed.
(** All of a forest but its bounds is what [raise_each] keeps. *)
Definition hung m : Prop :=
  (∀ id N, m !! id = Some N → ∃ ids, path m ids id ∧ Z.of_nat (length ids) ≤ depth_of (Node.kind N)) ∧
  (∀ id N p P, m !! id = Some N → Node.parentId N = Some p → m !! p = Some P → Node.kind P = folder ∧ Node.workspaceId P = Node.workspaceId N) ∧
  (∀ id N, m !! id = Some N → 0 ≤ Node.heightBound N).
Lemma forest_hung m : forest m ↔ hung m ∧ heights (λ _, True) m.
Proof. split; [intros []; by split_and!|intros [(?&?&?) ?]; by constructor]. Qed.
Lemma hung_raised m ids h : hung m → hung (raise_each m ids h).
Proof.
  intros (Hp & Hu & Hn). assert (hung_alike m (raise_each m ids h)) as Hm by (intros a N HN; destruct (raise_each_raised ids h m a N HN) as (N' & HN' & E & _); eauto). split_and!.
  - intros id N' HN'. destruct (raise_each_back _ _ _ _ _ HN') as (N & HN & E1 & E2 & E3 & E4). destruct (Hp _ _ HN) as (l & Hl & Hd). exists l. split; [by eapply linked_mono|congruence].
  - intros id N' p P' HN' Ep HP'. destruct (raise_each_back _ _ _ _ _ HN') as (N & HN & E1 & E2 & E3 & E4), (raise_each_back _ _ _ _ _ HP') as (P & HP & F1 & F2 & F3 & F4).
    destruct (Hu id N p P HN ltac:(congruence) HP). split; congruence.
  - intros id N' HN'. destruct (raise_each_back _ _ _ _ _ HN') as (N & HN & E1 & E2 & E3 & E4). pose proof (Hn _ _ HN). lia.
Qed.
Lemma fresh_linked m id N ids above : m !! id = None → linked m above ids → linked (<[id := N]> m) above ids.
Proof. intros Hid. apply linked_mono. intros a A HA. exists A. split; [|done]. rewrite lookup_insert_ne; [done|congruence]. Qed.
(** Nothing hangs from what is not there. *)
Lemma unhung m id : (∀ c C, m !! c = Some C → ∃ ids, path m ids c ∧ Z.of_nat (length ids) ≤ depth_of (Node.kind C)) → m !! id = None → ∀ c C, m !! c = Some C → Node.parentId C ≠ Some id.
Proof.
  intros Hpath Hid c C HC E. destruct (Hpath c C HC) as (ids & Hpa & _). apply linked_snoc in Hpa as (Hl & C' & HC' & E'). assert (C' = C) as -> by congruence. rewrite E in E'.
  destruct (last ids) as [y|] eqn:Ey; [|done]. injection E' as <-. apply last_Some_elem_of in Ey. destruct (linked_elem _ _ _ _ Hl Ey). congruence.
Qed.
(** A new row under a folder it is deep enough for. *)
Lemma forest_leaf m id N p P : forest m → m !! id = None → 0 ≤ Node.heightBound N → Node.parentId N = Some p → m !! p = Some P → Node.kind P = folder →
  Node.workspaceId P = Node.workspaceId N → (∀ ids, path m ids p → Z.of_nat (length ids) + 1 ≤ depth_of (Node.kind N)) →
  (Node.kind N = folder → Node.heightBound N + 1 ≤ Node.heightBound P) → forest (<[id := N]> m).
Proof.
  intros [] Hid H0 Ep HP Hk Hw Hdep Hhei. pose proof (unhung m id fo_path0 Hid) as Hno.
  assert (id ≠ p) as Hne by congruence. constructor.
  - intros x X. rewrite lookup_insert. case_decide as E; [intros [= <-]; subst x|intros HX].
    + destruct (fo_path0 p P HP) as (ids & Hpa & _). exists (ids ++ [p]). split; [|rewrite length_app; cbn; specialize (Hdep ids Hpa); lia]. apply linked_snoc.
      split; [by apply fresh_linked|]. exists N. by rewrite lookup_insert_eq, last_snoc.
    + destruct (fo_path0 x X HX) as (ids & Hpa & ?). exists ids. split; [by apply fresh_linked|done].
  - intros x X q Q. rewrite !lookup_insert. repeat case_decide; subst; [congruence| | |apply fo_under0].
    + intros [= <-] Eq HQ. assert (q = p) as -> by congruence. assert (Q = P) as -> by congruence. done.
    + intros HX Eq [= <-]. by destruct (Hno x X HX).
  - intros x X q Q _. rewrite !lookup_insert. repeat case_decide; subst; [congruence| | |by apply (fo_heights0 x X)].
    + intros [= <-] Hf Eq HQ. assert (q = p) as -> by congruence. assert (Q = P) as -> by congruence. by apply Hhei.
    + intros HX _ Eq [= <-]. by destruct (Hno x X HX).
  - intros x X. rewrite lookup_insert. case_decide; [by intros [= <-]|apply fo_nonneg0].
Qed.
(** A top folder made. *)
Lemma forest_top m id N : forest m → m !! id = None → Node.parentId N = None → Node.kind N = folder → Node.heightBound N = 0 → forest (<[id := N]> m).
Proof.
  intros [] Hid Ep Hk Hh. pose proof (unhung m id fo_path0 Hid) as Hno. constructor.
  - intros x X. rewrite lookup_insert. case_decide as E; [intros [= <-]; subst x; exists []|intros HX].
    + split; [split; [exists N; by rewrite lookup_insert_eq|done]|by rewrite Hk].
    + destruct (fo_path0 x X HX) as (ids & Hpa & ?). exists ids. split; [by apply fresh_linked|done].
  - intros x X q Q. rewrite !lookup_insert. repeat case_decide; subst; [congruence|congruence| |apply fo_under0]. intros HX Eq [= <-]. by destruct (Hno x X HX).
  - intros x X q Q _. rewrite !lookup_insert. repeat case_decide; subst; [congruence|congruence| |by apply (fo_heights0 x X)]. intros HX _ Eq [= <-]. by destruct (Hno x X HX).
  - intros x X. rewrite lookup_insert. case_decide; [intros [= <-]; lia|apply fo_nonneg0].
Qed.
(** What is above a node: folders of its workspace. *)
Lemma above_folders m : forest m → ∀ ids id N, path m ids id → m !! id = Some N → ∀ a, a ∈ ids → ∃ A, m !! a = Some A ∧ Node.kind A = folder ∧ Node.workspaceId A = Node.workspaceId N.
Proof.
  intros Hf ids. induction ids as [|b ids IH] using rev_ind; intros id N Hp HN a Ha; [by apply elem_of_nil in Ha|]. apply linked_snoc in Hp as (Hl & N' & HN' & E). assert (N' = N) as -> by congruence. rewrite last_snoc in E.
  destruct (linked_elem _ _ _ b Hl) as [B HB]; [apply elem_of_app; right; by left|]. destruct (fo_under _ Hf id N b B HN E HB) as [HkB HwB].
  apply elem_of_app in Ha as [Ha|Ha%list_elem_of_singleton]; [|subst a; eauto]. destruct (IH b B Hl HB a Ha) as (A & HA & HkA & HwA). exists A. split_and!; [done|done|congruence].
Qed.
Lemma fell_path m id x ids : (∀ c C, m !! c = Some C → Node.parentId C ≠ Some id) → id ≠ x → path m ids x → path (delete id m) ids x.
Proof.
  intros Hno Hne Hp. unfold path in *. eapply linked_ne; [|exact Hp]. intros a Ha. apply lookup_delete_ne. intros <-. apply elem_of_app in Ha as [Ha|Ha]; [|by apply list_elem_of_singleton in Ha].
  apply list_elem_of_split in Ha as (l1 & l2 & ->). rewrite <-app_assoc in Hp. apply linked_app in Hp as [_ Hp]. cbn in Hp. destruct Hp as [_ Hp].
  destruct l2 as [|b l2]; cbn in Hp; destruct Hp as [(B & HB & E) _]; by apply (Hno _ _ HB).
Qed.
Lemma forest_fell m id : forest m → (∀ c C, m !! c = Some C → Node.parentId C ≠ Some id) → forest (delete id m).
Proof.
  intros [] Hno. constructor.
  - intros x X [Hne HX]%lookup_delete_Some. destruct (fo_path0 x X HX) as (ids & Hp & Hd). exists ids. split; [by apply fell_path|done].
  - intros x X q Q [_ HX]%lookup_delete_Some Eq [_ HQ]%lookup_delete_Some. by apply (fo_under0 x X q Q).
  - intros x X q Q _ [_ HX]%lookup_delete_Some Hk Eq [_ HQ]%lookup_delete_Some. by apply (fo_heights0 x X q Q).
  - intros x X [_ HX]%lookup_delete_Some. by apply (fo_nonneg0 x X).
Qed.
Lemma sprout_forest m m' : forest m → sprout m m' → forest m'.
Proof.
  intros Hf [m2 Hr|ids h Hl|id N p P Hid Hk Hh Ep HP HkP Hw Hd|id Hno]; [by eapply forest_rows| | |by apply forest_fell].
  - apply forest_hung. apply forest_hung in Hf as [Hh Hb]. split; [by apply hung_raised|by eapply raise_heights].
  - eapply forest_leaf; [done|done|by rewrite Hh|done|done|done|done| |by rewrite Hk]. intros ids Hp. rewrite Hk. cbn. specialize (Hd _ Hp). lia.
Qed.
Lemma grows_forest m m' : forest m → grows m m' → forest m'.
Proof. intros Hf Hg. induction Hg as [|m1 m2 m3 H _ IH]; [done|]. apply IH. by eapply sprout_forest. Qed.

(** *** The cap on what is made or hung *)

(** Each file is where it was, or within the cap. *)
Definition settled m0 m : Prop := ∀ n N, m !! n = Some N → Node.kind N = file →
  Node.parentId <$> m0 !! n = Some (Node.parentId N) ∨ ∃ ids, path m ids n ∧ Z.of_nat (length ids) ≤ MAX_DEPTH.
Lemma settled_refl m : settled m m.
Proof. intros n N HN _. left. by rewrite HN. Qed.
(** Rows hung and of the kinds they were. *)
Lemma settled_alike m0 m m' : settled m0 m → hung_alike m m' → (∀ n N', m' !! n = Some N' → ∃ N, m !! n = Some N ∧ Node.parentId N = Node.parentId N' ∧ Node.kind N = Node.kind N') → settled m0 m'.
Proof.
  intros Hs Ha Hb n N' HN' Hk. destruct (Hb n N' HN') as (N & HN & Ep & Ek). destruct (Hs n N HN ltac:(congruence)) as [E|(ids & Hp & Hd)]; [left; congruence|right]. exists ids. split; [by eapply linked_mono|done].
Qed.
Lemma settled_raised m0 m ids h : settled m0 m → settled m0 (raise_each m ids h).
Proof.
  intros Hs. eapply settled_alike; [exact Hs| |].
  - intros a N HN. destruct (raise_each_raised ids h m a N HN) as (N' & HN' & E & _). eauto.
  - intros n N' HN'. destruct (raise_each_back _ _ _ _ _ HN') as (N & HN & E1 & E2 & _). exists N. by split_and!.
Qed.
Lemma sprout_settled m0 m m' : forest m → settled m0 m → sprout m m' → settled m0 m'.
Proof.
  intros Hf Hs [m2 Hr|ids h Hl|id N p P Hid Hk Hh Ep HP HkP Hw Hd|id Hno]; [|by apply settled_raised| |].
  - eapply settled_alike; [exact Hs|by apply rows_hung|]. intros n N' HN'. destruct (rows_bwd _ _ _ _ Hr HN') as (N & HN & []). exists N. by split_and!.
  - intros n X. rewrite lookup_insert. case_decide as E; [intros [= <-] _; subst n; right|intros HX HkX].
    + destruct (fo_path _ Hf p P HP) as (ids & Hp & _). exists (ids ++ [p]). split; [|rewrite length_app; cbn; specialize (Hd _ Hp); lia]. apply linked_snoc. split; [by apply fresh_linked|].
      exists N. by rewrite lookup_insert_eq, last_snoc.
    + destruct (Hs n X HX HkX) as [?|(ids & Hp & ?)]; [by left|right]. exists ids. split; [by apply fresh_linked|done].
  - intros n X [Hne HX]%lookup_delete_Some Hk. destruct (Hs n X HX Hk) as [?|(ids & Hp & ?)]; [by left|right]. exists ids. split; [by apply fell_path|done].
Qed.
Lemma grows_settled m0 m m' : forest m → settled m0 m → grows m m' → settled m0 m'.
Proof. intros Hf Hs Hg. induction Hg as [|m1 m2 m3 H _ IH]; [done|]. apply IH; [by eapply sprout_forest|by eapply sprout_settled]. Qed.

(** *** A node moved *)

(** What hangs below a folder, within its bound. *)
Lemma below_height m : forest m → ∀ ids a A, m !! a = Some A → linked m (Some a) ids → ∀ x X, last ids = Some x → m !! x = Some X → Node.kind X = folder →
  Z.of_nat (length ids) + Node.heightBound X ≤ Node.heightBound A.
Proof.
  intros Hf ids. induction ids as [|b ids IH]; intros a A HA Hl x X Hx HX Hk; [done|]. destruct Hl as [(B & HB & EB) Hl].
  assert (Node.kind B = folder) as HkB.
  { destruct ids as [|c ids]; [cbn in Hx; congruence|]. destruct Hl as [(C & HC & EC) _]. by destruct (fo_under _ Hf c C b B HC EC HB). }
  pose proof (fo_heights _ Hf b B a A I HB HkB EB HA). destruct ids as [|c ids]; [cbn in Hx; injection Hx as <-; assert (X = B) as -> by congruence; cbn; lia|].
  pose proof (IH b B HB Hl x X Hx HX Hk). cbn [length] in *. lia.
Qed.
Definition moved_to m id N ids p : gmap string Node.t := raise_each (<[id := N]> m) (ids ++ [p]) (Node.heightBound N).
Section moved.
Context m (id p : string) (N N' P : Node.t) ids.
Hypothesis Hf : forest m.
Hypothesis HN : m !! id = Some N.
Hypothesis HN' : Node.parentId N' = Some p ∧ Node.kind N' = Node.kind N ∧ Node.workspaceId N' = Node.workspaceId N ∧ Node.heightBound N' = Node.heightBound N.
Hypothesis Hp : path m ids p.
Hypothesis Hid : id ∉ ids ++ [p].
Hypothesis HP : m !! p = Some P.
Hypothesis HkP : Node.kind P = folder.
Hypothesis HwP : Node.workspaceId P = Node.workspaceId N.
Hypothesis Hdeep : Z.of_nat (length ids) + 1 + Node.heightBound N ≤ MAX_DEPTH.

Lemma moved_row a A : <[id := N']> m !! a = Some A → ∃ A0, m !! a = Some A0 ∧ Node.kind A = Node.kind A0 ∧ Node.workspaceId A = Node.workspaceId A0 ∧
  Node.heightBound A = Node.heightBound A0 ∧ (a ≠ id → A = A0).
Proof. rewrite lookup_insert. case_decide as E; [intros [= <-]; subst a; exists N; by destruct HN' as (?&?&?&?)|intros HA; by exists A]. Qed.
Lemma moved_path a A0 : m !! a = Some A0 → ∃ l, path (<[id := N']> m) l a ∧ Z.of_nat (length l) ≤ depth_of (Node.kind A0).
Proof.
  intros HA. destruct (fo_path _ Hf a A0 HA) as (l & Hl & Hd). destruct (decide (id ∈ l ++ [a])) as [Hin|Hni].
  2: { exists l. split; [|done]. eapply linked_ne; [|exact Hl]. intros b Hb. apply lookup_insert_ne. by intros ->. }
  apply list_elem_of_split_r in Hin as (l1 & l2 & E & Hni). exists (ids ++ p :: removelast (id :: l2)).
  assert (linked m (Some id) l2) as Hl2 by (unfold path in Hl; rewrite E in Hl; apply linked_app in Hl as [_ Hl]; apply Hl).
  assert (last (id :: l2) = Some a) as Ela by (rewrite <-(last_app_cons l1 l2 id), <-E; apply last_snoc).
  assert (removelast (id :: l2) ++ [a] = id :: l2) as Er by (pose proof Ela as [k Ek]%last_Some; by rewrite Ek, List.removelast_last).
  split.
  - unfold path. rewrite <-app_assoc. change ((p :: ?x) ++ [a]) with (p :: (x ++ [a])). rewrite Er. replace (ids ++ p :: id :: l2) with ((ids ++ [p]) ++ id :: l2) by by rewrite <-app_assoc.
    apply linked_app. rewrite last_snoc. split; [eapply linked_ne; [|exact Hp]; intros b Hb; apply lookup_insert_ne; by intros ->|]. split; [exists N'; rewrite lookup_insert_eq; split; [done|apply HN']|].
    eapply linked_ne; [|exact Hl2]. intros b Hb. apply lookup_insert_ne. by intros ->.
  - pose proof (fo_nonneg _ Hf id N HN). assert (length (removelast (id :: l2)) = length l2) as El by (apply (f_equal length) in Er; rewrite length_app in Er; cbn in *; lia).
    rewrite length_app. cbn [length]. rewrite El. destruct l2 as [|b l2] using rev_ind; [cbn; assert (A0 = N) as -> by (cbn in Ela; congruence); destruct (Node.kind N); cbn [depth_of]; lia|].
    clear IHl2. assert (b = a) as -> by (rewrite app_comm_cons, last_snoc in Ela; congruence). destruct (Node.kind A0) eqn:Ek; cbn [depth_of].
    + pose proof (below_height m Hf (l2 ++ [a]) id N HN Hl2 a A0 (last_snoc _ _) HA Ek). pose proof (fo_nonneg _ Hf a A0 HA). lia.
    + rewrite length_app. cbn [length]. apply linked_snoc in Hl2 as (Hl2 & A1 & HA1 & Ep). assert (A1 = A0) as -> by congruence.
      destruct l2 as [|c l2 _] using rev_ind; [cbn; lia|]. rewrite last_snoc in Ep. destruct (linked_elem _ _ _ c Hl2) as [C HC]; [set_solver|]. destruct (fo_under _ Hf a A0 c C HA Ep HC) as [HkC _].
      pose proof (below_height m Hf (l2 ++ [c]) id N HN Hl2 c C (last_snoc _ _) HC HkC). pose proof (fo_nonneg _ Hf c C HC). lia.
Qed.
Lemma forest_moved : forest (moved_to m id N' ids p).
Proof.
  assert (id ≠ p) as Hne by set_solver. apply forest_hung. split.
  - apply hung_raised. split_and!.
    + intros a A HA. destruct (moved_row a A HA) as (A0 & HA0 & -> & _). by apply moved_path.
    + intros a A q Q HA Eq HQ. destruct (moved_row a A HA) as (A0 & HA0 & E1 & E2 & _ & E3), (moved_row q Q HQ) as (Q0 & HQ0 & F1 & F2 & _). rewrite F1, F2, E2.
      destruct (decide (a = id)) as [->|Ha]; [|rewrite (E3 Ha) in Eq; by apply (fo_under _ Hf a A0 q Q0)]. rewrite lookup_insert_eq in HA. injection HA as <-.
      assert (q = p) as -> by (destruct HN'; congruence). assert (Q0 = P) as -> by congruence. assert (A0 = N) as -> by congruence. done.
    + intros a A HA. destruct (moved_row a A HA) as (A0 & HA0 & _ & _ & -> & _). by apply (fo_nonneg _ Hf a).
  - set (m1 := <[id := N']> m). assert (heights (λ c, c ≠ id) m1) as Hh.
    { intros c C q Q Hc HC Hk Eq HQ. destruct (moved_row c C HC) as (C0 & HC0 & _ & _ & _ & E3), (moved_row q Q HQ) as (Q0 & HQ0 & _ & _ & F3 & _). rewrite (E3 Hc) in *. rewrite F3. by apply (fo_heights _ Hf c C0 q Q0). }
    assert (linked m1 None (ids ++ [p])) as Hl by (eapply linked_ne; [|exact Hp]; intros b Hb; apply lookup_insert_ne; by intros ->).
    pose proof (raise_heights _ _ (Node.heightBound N') _ _ Hl Hh I) as Hr. intros c C q Q _ HC Hk Eq HQ. destruct (decide (c = id)) as [->|Hc]; [|by apply (Hr c C q Q)].
    assert (m1 !! p = Some P) as HP1 by (unfold m1; by rewrite lookup_insert_ne). destruct (raise_last ids (Node.heightBound N') p m1 P HP1) as (P' & HP' & _ & Hge).
    unfold moved_to in HC, HQ. rewrite raise_each_ne in HC by done. unfold m1 in HC. rewrite lookup_insert_eq in HC. injection HC as <-. assert (q = p) as -> by (destruct HN'; congruence).
    fold m1 in HQ. assert (Q = P') as -> by congruence. lia.
Qed.
Lemma settled_moved : settled m (moved_to m id N' ids p).
Proof.
  apply settled_raised. intros a A. rewrite lookup_insert. case_decide as E; [intros [= <-] _; subst a; right|intros HA _; left; by rewrite HA].
  exists (ids ++ [p]). split; [|rewrite length_app; cbn; pose proof (fo_nonneg _ Hf id N HN); lia]. apply linked_snoc. rewrite last_snoc. split; [|exists N'; by rewrite lookup_insert_eq; destruct HN'].
  eapply linked_ne; [|exact Hp]. intros b Hb. apply lookup_insert_ne. by intros ->.
Qed.
End moved.
