(* ===== verification/DriveGrows.v ===== *)
(** * What transactions that move bytes leave of the tree (packages/db/src/drive.ts)

    Each transaction of [DriveUploads] and [DrivePurges] only grows the nodes'
    trees or takes leaves of them ([DriveForest.grows]). *)

From S2P Require Import Prelude DriveTables Pool DriveUploads DrivePurges DriveAccounting DriveAlike DriveBalance DriveReached DriveForest.

Implicit Types (d : Db.t).
Abbreviation nodes_grow d d' := (grows (Db.nodes d) (Db.nodes d')).

Lemma same_grows d d' : Db.nodes d' = Db.nodes d → nodes_grow d d'.
Proof. intros ->. apply rtc_refl. Qed.
Lemma rows_grow m m' : map_Forall2 (λ _, same_place) m m' → grows m m'.
Proof. intros H. by apply rtc_once, sp_rows. Qed.
Lemma alter_grows f k m : (∀ n, same_place n (f n)) → grows m (alter f k m).
Proof. intros H. apply rows_grow, rows_alter. intros x _. apply H. Qed.
Lemma next_nodes now w writer d d' s : nextChangeSeq now w writer d = Ok (d', s) → Db.nodes d' = Db.nodes d.
Proof. by intros [v ->]%next_is. Qed.
Lemma lock_nodes now w writer move d d' s : lockForCompletion now w writer move d = Ok (d', s) → Db.nodes d' = Db.nodes d.
Proof. by intros [v ->]%lock_is. Qed.
Lemma retire_nodes o d : Db.nodes (retire_option o d) = Db.nodes d.
Proof. destruct o as [o|]; [|done]. cbn. unfold retireObjectIfUnreferenced. destruct (any _ _); [done|]. by destruct (Db.objects d !! o). Qed.
Lemma drop_places (gone : string * Version.t → Prop) `{∀ e, Decision (gone e)} d : map_Forall2 (λ _, same_place) (Db.nodes d) (Db.nodes (drop_versions gone d)).
Proof.
  intros i. cbn. rewrite lookup_fmap. destruct (Db.nodes d !! i) as [n|]; [|constructor]. cbn. constructor. destruct (Node.currentVersionId n); [|done]. by case_decide.
Qed.
Lemma delete_node_grows n d d' : delete_node n d = Ok d' → nodes_grow d d'.
Proof.
  unfold delete_node. intros H. not_refused H Hc. injection H as <-. etrans; [apply rows_grow, (drop_places (λ e, Version.nodeId e.2 = n))|]. apply rtc_once, sp_fell.
  intros c C HC E. cbn in HC. rewrite lookup_fmap in HC. apply fmap_Some in HC as (C0 & HC0 & ->).
  assert (Node.parentId C0 ≠ Some n) as Hne; [|by repeat case_match].
  intros E0. apply not_true_iff_false in Hc. apply Hc, any_true. exists c, C0. split; [done|]. by apply bool_decide_eq_true_2.
Qed.
Lemma release_grows id U st d d' : releaseUpload id U st d = Ok d' → nodes_grow d d'.
Proof.
  unfold releaseUpload. intros H. apply bind_ok in H as (d1 & ->%adjust_ok & H). cbv zeta in H. set (d2 := retire_option _ _) in H.
  assert (Db.nodes d2 = Db.nodes d) as E by (unfold d2; by rewrite retire_nodes). rewrite <-E.
  destruct (Upload.newNode U); [|injection H as <-; apply rtc_refl]. etrans; [apply rows_grow, (drop_places (λ e, Version.nodeId e.2 = Upload.nodeId U))|].
  case_bool_decide; [by eapply delete_node_grows|injection H as <-; apply rtc_refl].
Qed.
Lemma release_as_grows {A} id U (a b : A) d d' : release_as id U a d = Ok (d', b) → nodes_grow d d'.
Proof. unfold release_as. intros H. apply bind_ok in H as (x & Hx & H). injection H as <- _. by eapply release_grows. Qed.
Lemma purge_row_grows w v V size d d' : purge_row w v V size d = Ok d' → nodes_grow d d'.
Proof.
  unfold purge_row. intros H. apply bind_ok in H as (d1 & H1 & H). injection H as <-. apply same_grows. rewrite retire_nodes.
  destruct (Version.status V), size; try (by injection H1 as <-); by apply adjust_ok in H1 as ->.
Qed.
Lemma purgeVersion_grows w v V size d d' : purgeVersion w v V size d = Ok d' → nodes_grow d d'.
Proof.
  unfold purgeVersion. intros H. destruct (Version.status V); [|by eapply purge_row_grows|injection H as <-; apply rtc_refl].
  destruct (upload_of_version d v) as [[id u]|]; [|by eapply purge_row_grows]. destruct (Upload.status u); try (by eapply release_grows); try (by eapply purge_row_grows).
  injection H as <-. apply rtc_refl.
Qed.
Lemma purge_each_grows w rows : ∀ d d', purge_each w rows d = Ok d' → nodes_grow d d'.
Proof.
  induction rows as [|[[v V] size] rows IH]; intros d d' H; cbn in H; [injection H as <-; apply rtc_refl|]. apply bind_ok in H as (d1 & H1 & H).
  etrans; [by eapply purgeVersion_grows|by eapply IH].
Qed.
Lemma purgeOne_grows now w n seq anc d d' b : purgeOne now w n seq anc d = Ok (d', b) → nodes_grow d d'.
Proof.
  unfold purgeOne. intros H. destruct (Db.nodes d !! n); [|injection H as <- _; apply rtc_refl]. destruct (_ || _); [injection H as <- _; apply rtc_refl|].
  apply bind_ok in H as (d1 & H1 & H). injection H as <- _. etrans; [by eapply purge_each_grows|]. by apply alter_grows.
Qed.
Lemma purge_older_nodes w older : ∀ d d', purge_older w older d = Ok d' → Db.nodes d' = Db.nodes d.
Proof.
  induction older as [|[[v V] size] older IH]; intros d d' H; cbn in H; [by injection H as <-|]. apply bind_ok in H as (d1 & ->%adjust_ok & H). apply IH in H. by rewrite H, retire_nodes.
Qed.
(** The rows a publish's bounds are raised over are those it was given. *)
Lemma publishUpload_grows now id U o size anc displaced seq d d' : (Upload.newNode U = true → linked (Db.nodes d) None (map Ancestor.id anc)) →
  publishUpload now id U o size anc displaced seq d = Ok d' → nodes_grow d d'.
Proof.
  unfold publishUpload. intros Hl H. apply bind_ok in H as (d1 & ->%adjust_ok & H). apply bind_ok in H as (d4 & H4 & H). injection H as <-.
  assert (Db.nodes d4 = Db.nodes d) as E.
  { destruct displaced as [x|]; [|by injection H4 as <-]. unfold displace in H4. apply bind_ok in H4 as (d3 & H3 & H4). injection H4 as <-. cbn. apply purge_older_nodes in H3. by rewrite H3. }
  set (m := alter _ _ (Db.nodes d4)). assert (map_Forall2 (λ _, same_place) (Db.nodes d) m) as Hm by (rewrite <-E; by apply rows_alter).
  etrans; [by apply rows_grow|]. destruct (Upload.newNode U); [|apply rtc_refl]. apply rtc_once, sp_raise. eapply linked_mono; [by apply rows_hung|by apply Hl].
Qed.
Lemma settle_grows now id move seq d d' : settle_move now id move seq d = Ok d' → nodes_grow d d'.
Proof.
  intros H. destruct move as [m|]; [|injection H as <-; apply rtc_refl]. destruct seq as [s|]; [|injection H as <-; apply rtc_refl]. cbn in H. unfold settleMove in H.
  apply bind_ok in H as ([x b] & H1 & H). injection H as <-. by eapply purgeOne_grows in H1.
Qed.
Lemma publish_settle_grows {A} now id U o size anc displaced seq move sourceSeq (a b : A) d d' : (Upload.newNode U = true → linked (Db.nodes d) None (map Ancestor.id anc)) →
  (let* d := publishUpload now id U o size anc displaced seq d in let* d := settle_move now id move sourceSeq d in Ok (d, a)) = Ok (d', b) → nodes_grow d d'.
Proof.
  intros Hl H. apply bind_ok in H as (d1 & H1 & H). apply bind_ok in H as (d2 & H2 & H). injection H as <- _.
  etrans; [by eapply publishUpload_grows|by eapply settle_grows].
Qed.

(** ** Transactions that move bytes *)

Section transactions.
Context `{SB : SignedBy}.

Lemma new_parent_folder d w p e pe c : new_parent d w p e pe = inr c → walked d w p folder = Some c.
Proof. unfold new_parent. destruct (walked d w p folder) as [x|]; [|done]. repeat case_match; try done. by intros [= <-]. Qed.
Lemma new_parent_room d w p e pe c ids : new_parent d w p e pe = inr c → path (Db.nodes d) ids p → Z.of_nat (length ids) + 1 ≤ MAX_DEPTH.
Proof.
  unfold new_parent, walked. destruct (walk d p) as [x|] eqn:Hw; [|done]. destruct (_ && _); [|done]. destruct (Walk.trashed x); [done|]. destruct (underUnrotatedParent _ _ _); [done|].
  destruct (Z.ltb_spec MAX_DEPTH (Walk.depth x + 1)) as [|Hd]; [done|]. intros _ Hp. destruct (walk_path _ _ _ Hw) as (Hp' & Ed & _). rewrite (path_unique _ _ _ _ Hp Hp'). lia.
Qed.
Lemma walked_walk d w n k c : walked d w n k = Some c → walk d n = Some c.
Proof. unfold walked. destruct (walk d n); [|done]. destruct (_ && _); [|done]. by intros [= ->]. Qed.
Lemma begin_rows_grow d i t epoch expected reserve move w d' : begin_target d (UploadBegin.workspaceId i) (UploadBegin.node i) = inr t →
  begin_rows i epoch expected reserve move (adjusted w 0 reserve d) = inr d' → nodes_grow d d'.
Proof.
  intros Ht H. unfold begin_rows in H. destruct ((begin_node i _ ≫= _) ≫= _) as [d3|] eqn:H3; [|done]. destruct (insert_upload _ _ d3) as [d4|] eqn:H4; [|done]. injection H as <-.
  apply bind_Some in H3 as (d2 & (dx & Hx & H2)%bind_Some & H3). apply insert_object_is in H2 as (_ & _ & ->). apply insert_version_is in H3 as [_ ->]. apply insert_upload_is in H4 as [_ ->]. cbn.
  unfold begin_node, begin_target in *. destruct (UploadBegin.node i) as [id p e|]; [|injection Hx as <-; apply rtc_refl]. destruct (new_parent d _ p _ _) as [|c] eqn:Hc; [done|].
  pose proof (new_parent_folder _ _ _ _ _ _ Hc) as Hw. destruct (walked_spec _ _ _ _ _ Hw) as (_ & HP & HwP & _ & HkP). apply insert_node_is in Hx as [Hid ->]. apply rtc_once. eapply sp_file; try done. intros ids. by eapply new_parent_room.
Qed.
Lemma beginUpload_grows now i d d' r : beginUpload now i d = Ok (d', r) → nodes_grow d d'.
Proof.
  intros H. unfold beginUpload, transactionKeeping in H. apply bind_ok in H as ([d1 r1] & H1 & H). injection H as <- <-.
  destruct r1 as [|id]; [apply rtc_refl|]. cbn. unfold beginUploadOnce in H1. apply bind_ok in H1 as ([d0 n] & H0 & H1). rewrite <-(next_nodes _ _ _ _ _ _ H0).
  destruct (begin_target d0 _ _) as [|[epoch expected]] eqn:Ht; [done|]. apply bind_ok in H1 as (signed & _ & H1). destruct signed; [|done]. cbn in H1.
  destruct (move_source now d0 i) as [|move]; [done|]. destruct (storageFigures now d0 _) as [s|]; [|done]. destruct (_ && _); [done|].
  apply bind_ok in H1 as (dx & ->%adjust_ok & H1). destruct (begin_rows _ _ _ _ _ _) as [|d4] eqn:H4; [done|]. injection H1 as <- _. by eapply begin_rows_grow.
Qed.
Lemma startCompleting_grows now w id writer d d' r : startCompleting now w id writer d = Ok (d', r) → nodes_grow d d'.
Proof.
  intros H. apply same_grows. unfold startCompleting in H. apply bind_ok in H as (? & _ & H). destruct (upload_in d w id) as [U|]; [|by injection H as <- _].
  destruct (Upload.status U); try (by injection H as <- _). all: destruct (_ && _); injection H as <- _; done.
Qed.
Lemma walk_linked d id c : walk d id = Some c → linked (Db.nodes d) None (ancestorIds c) ∧ linked (Db.nodes d) None (map Ancestor.id (and_itself c)).
Proof. intros (Hp & _ & ->)%walk_path. split; [|exact Hp]. by apply linked_app in Hp as [? _]. Qed.
Lemma finishCompleting_grows now w id stored writer d d' r : finishCompleting now w id stored writer d = Ok (d', r) → nodes_grow d d'.
Proof.
  intros H. unfold finishCompleting in H. apply bind_ok in H as ([d0 [seq sourceSeq]] & H0 & H). rewrite <-(lock_nodes _ _ _ _ _ _ _ H0).
  destruct (upload_in d0 w id) as [U|]; [|injection H as <- _; apply rtc_refl]. destruct (Upload.status U); try (injection H as <- _; apply rtc_refl).
  all: case_bool_decide; [by eapply release_as_grows|]; destruct stored as [stored|]; [|by eapply release_as_grows];
    destruct (upload_size d0 U) as [size|]; [|by eapply release_as_grows]; destruct (Upload.objectId U) as [o|]; [|by eapply release_as_grows];
    destruct (negb (stored =? size)); [by eapply release_as_grows|]; destruct (walk d0 (Upload.nodeId U)) as [chain|] eqn:Hw; [|by eapply release_as_grows];
    destruct (Walk.purged chain); [by eapply release_as_grows|]; destruct (match _ with Some _ => _ | None => false end); [by eapply release_as_grows|];
    destruct (_ || _); [injection H as <- _; apply rtc_refl|]; eapply publish_settle_grows; [|exact H]; intros _; by apply (walk_linked _ _ _ Hw).
Qed.
Lemma attach_same_grows now id U o size epoch seq sourceSeq d d' r : attach_same now id U o size epoch seq sourceSeq d = Ok (d', r) → nodes_grow d d'.
Proof.
  intros H. unfold attach_same in H. destruct (walk d (Upload.nodeId U)) as [chain|] eqn:Hw; [|by eapply release_as_grows].
  destruct (Walk.purged chain); [by eapply release_as_grows|]. destruct (underUnrotatedParent _ _ _); [injection H as <- _; apply rtc_refl|].
  destruct (negb _); [injection H as <- _; apply rtc_refl|]. destruct (_ || _); [injection H as <- _; apply rtc_refl|].
  eapply publish_settle_grows in H; [exact H|]. intros _. by apply (walk_linked _ _ _ Hw).
Qed.
Lemma linked_child m ids p a : linked m None (ids ++ [p]) → a ∈ ids → ∃ c C, m !! c = Some C ∧ Node.parentId C = Some a.
Proof.
  intros Hl Ha. apply list_elem_of_split in Ha as (l1 & l2 & ->). rewrite <-app_assoc in Hl. apply linked_app in Hl as [_ [_ Hl]].
  destruct l2 as [|b l2]; destruct Hl as [(B & HB & E) _]; eauto.
Qed.
(** What begin made for an upload goes with the plan it was for: the path to its new parent stays. *)
Lemma sibling_linked m d d' id x N p ids : linked m None (ids ++ [p]) → m !! id = None → Node.parentId N = Some p →
  map_Forall2 (λ _, same_place) (<[id := N]> m) (Db.nodes d) → delete_node x d = Ok d' → linked (Db.nodes d') None (ids ++ [p]).
Proof.
  intros Hl Hid Ep Hr H. assert (linked (Db.nodes d) None (ids ++ [p])) as Hl1 by (eapply linked_mono; [by apply rows_hung|by apply fresh_linked]).
  unfold delete_node in H. not_refused H Hc. injection H as <-. assert (x ∉ ids ++ [p]) as Hx.
  { intros Hin. assert (∃ c C, Db.nodes d !! c = Some C ∧ Node.parentId C = Some x) as (c & C & HC & E).
    { apply elem_of_app in Hin as [Hin| ->%list_elem_of_singleton]; [by eapply linked_child|].
      destruct (rows_fwd _ _ _ _ Hr (lookup_insert_eq _ _ _)) as (C & HC & []). exists id, C. split; [done|congruence]. }
    apply not_true_iff_false in Hc. apply Hc, any_true. exists c, C. split; [done|]. by apply bool_decide_eq_true_2. }
  eapply linked_ne; [|eapply linked_mono; [apply rows_hung, (drop_places (λ e, Version.nodeId e.2 = x))|exact Hl1]].
  intros a Ha. cbn. apply lookup_delete_ne. by intros ->.
Qed.
Lemma attach_sibling_grows now id U o size n p e seq sourceSeq d d' r : attach_sibling now id U o size n p e seq sourceSeq d = Ok (d', r) → nodes_grow d d'.
Proof.
  intros H. unfold attach_sibling in H. destruct (new_parent d _ _ _ _) as [|parent] eqn:Hpar; [injection H as <- _; apply rtc_refl|].
  pose proof (new_parent_folder _ _ _ _ _ _ Hpar) as Hw. destruct (walked_spec _ _ _ _ _ Hw) as (_ & HP & HwP & _ & HkP).
  destruct (walk_linked _ _ _ (walked_walk _ _ _ _ _ Hw)) as [_ Hl]. destruct (walk_path _ _ _ (walked_walk _ _ _ _ _ Hw)) as (_ & _ & Ea).
  destruct (insert_node n _ d) as [d1|] eqn:H1; [|injection H as <- _; apply rtc_refl]. apply insert_node_is in H1 as [Hn ->]. set (d1 := set_nodes d _) in H. cbv zeta in H.
  assert (nodes_grow d d1) as Hg1 by (apply rtc_once; eapply sp_file; try done; intros ids; by eapply new_parent_room). etrans; [exact Hg1|]. apply bind_ok in H as (d3 & H3 & H).
  assert (nodes_grow d1 d3 ∧ linked (Db.nodes d3) None (map Ancestor.id (and_itself parent))) as [Hg3 Hl3].
  { destruct (Upload.newNode U); [|injection H3 as <-; split; [apply rtc_refl|by apply fresh_linked]]. set (dx := set_uploads (set_versions d1 _) _) in H3. set (d2 := drop_versions _ dx) in H3.
    assert (map_Forall2 (λ _, same_place) (Db.nodes d1) (Db.nodes d2)) as Hr by exact (drop_places (λ x, Version.nodeId x.2 = Upload.nodeId U) dx). split.
    - etrans; [by apply rows_grow|by eapply delete_node_grows].
    - rewrite Ea in *. exact (sibling_linked _ d2 d3 n _ (new_node_row (Upload.workspaceId U) p (NodeEnvelopes.keyEpoch e) (NodeEnvelopes.parentKeyEpoch e) None) p _ Hl Hn eq_refl Hr H3). }
  etrans; [exact Hg3|]. eapply publish_settle_grows; [|exact H]. by intros _.
Qed.
Lemma attachUpload_grows now w id i writer d d' r : attachUpload now w id i writer d = Ok (d', r) → nodes_grow d d'.
Proof.
  intros H. unfold attachUpload in H. apply bind_ok in H as ([d0 [seq sourceSeq]] & H0 & H). rewrite <-(lock_nodes _ _ _ _ _ _ _ H0).
  destruct (upload_in d0 w id) as [U|]; [|injection H as <- _; apply rtc_refl]. destruct (Upload.status U); try (injection H as <- _; apply rtc_refl).
  destruct (Upload.objectId U ≫= _) as [[o O]|]; [|injection H as <- _; apply rtc_refl]. destruct (match _ with Some _ => _ | None => false end); [by eapply release_as_grows|].
  apply bind_ok in H as (signed & _ & H). destruct signed; [|injection H as <- _; apply rtc_refl]. cbn in H.
  destruct (AttachInput.mode i); [by eapply attach_same_grows|by eapply attach_sibling_grows].
Qed.
Lemma abortUpload_grows now w id force d d' r : abortUpload now w id force d = Ok (d', r) → nodes_grow d d'.
Proof.
  intros H. unfold abortUpload in H. apply bind_ok in H as ([d0 n] & H0 & H). rewrite <-(next_nodes _ _ _ _ _ _ H0).
  destruct (upload_in d0 w id) as [U|]; [|injection H as <- _; apply rtc_refl]. destruct (Upload.status U); try (injection H as <- _; apply rtc_refl).
  2: destruct force; [|injection H as <- _; apply rtc_refl]. all: by eapply release_as_grows.
Qed.
Lemma copyFile_grows now i d d' r : copyFile now i d = Ok (d', r) → nodes_grow d d'.
Proof.
  intros H. unfold copyFile, transactionKeeping in H. apply bind_ok in H as ([d1 r1] & H1 & H). injection H as <- <-.
  destruct r1 as [|id]; [apply rtc_refl|]. cbn. unfold copyFileOnce in H1. apply bind_ok in H1 as ([d0 n] & H0 & H1). rewrite <-(next_nodes _ _ _ _ _ _ H0).
  cbv zeta in H1. destruct (walked d0 _ _ file); [|done]. destruct (Walk.trashed _); [done|]. destruct (current_version d0 _) as [[[x V] [o O]]|]; [|done].
  destruct (_ || _); [done|]. destruct (Obj.status O !== object_ready); [done|]. destruct (new_parent d0 _ _ _ _) as [|parent] eqn:Hpar; [done|]. destruct (negb (slen _ =? _)); [done|].
  apply bind_ok in H1 as (signed & _ & H1). destruct signed; [|done]. cbn in H1. destruct (storageFigures now d0 _) as [s|]; [|done]. destruct (_ <? _); [done|].
  destruct (insert_node _ _ d0 ≫= _) as [d3|] eqn:H3; [|done]. apply bind_Some in H3 as (d2 & H2 & H3). apply insert_node_is in H2 as [Hn ->].
  apply insert_version_is in H3 as [_ ->]. apply bind_ok in H1 as (d4 & ->%adjust_ok & H1). injection H1 as <- _.
  pose proof (new_parent_folder _ _ _ _ _ _ Hpar) as Hw. destruct (walked_spec _ _ _ _ _ Hw) as (_ & HP & HwP & _ & HkP). destruct (walk_linked _ _ _ (walked_walk _ _ _ _ _ Hw)) as [_ Hl].
  eapply rtc_l; [apply (sp_file (Db.nodes d0) (CopyFile.id i) (copy_node i n) (CopyFile.parentId i) (Walk.node parent)); try done; intros ids; by eapply new_parent_room|]. set (m := <[_ := _]> _).
  assert (map_Forall2 (λ _, same_place) m (alter (λ n, with_current n (Some (CopyFile.versionId i))) (CopyFile.id i) m)) as Hm by by apply rows_alter.
  etrans; [by apply rows_grow|]. apply rtc_once, sp_raise. eapply linked_mono; [by apply rows_hung|by apply fresh_linked].
Qed.
Lemma restoreVersion_grows now w v writer d d' r : restoreVersion now w v writer d = Ok (d', r) → nodes_grow d d'.
Proof.
  intros H. unfold restoreVersion in H. apply bind_ok in H as ([d0 n] & H0 & H). rewrite <-(next_nodes _ _ _ _ _ _ H0). cbv zeta in H. repeat case_match; try (injection H as <- _; apply rtc_refl).
  injection H as <- _. by apply alter_grows.
Qed.
Lemma discardVersion_grows now w v writer d d' r : discardVersion now w v writer d = Ok (d', r) → nodes_grow d d'.
Proof.
  intros H. unfold discardVersion in H. apply bind_ok in H as ([d0 n] & H0 & H). rewrite <-(next_nodes _ _ _ _ _ _ H0). cbv zeta in H.
  destruct (version_in d0 w v) as [V|]; [|injection H as <- _; apply rtc_refl]. destruct (_ !== _); [injection H as <- _; apply rtc_refl|]. destruct (walk d0 _) as [chain|]; [|injection H as <- _; apply rtc_refl].
  destruct (Walk.purged chain); [injection H as <- _; apply rtc_refl|]. destruct (_ || _); [injection H as <- _; apply rtc_refl|]. apply bind_ok in H as (d1 & H1 & H). injection H as <- _. by eapply purgeVersion_grows.
Qed.
Lemma purgeNode_grows now w n writer d d' r : purgeNode now w n writer d = Ok (d', r) → nodes_grow d d'.
Proof.
  intros H. unfold purgeNode in H. apply bind_ok in H as ([d0 s] & H0 & H). rewrite <-(next_nodes _ _ _ _ _ _ H0).
  destruct (purgeRefusal _ _); [injection H as <- _; apply rtc_refl|]. apply bind_ok in H as ([d1 b] & H1 & H). injection H as <- _. by eapply purgeOne_grows.
Qed.
Lemma purge_going_grows now w going : ∀ seq d d' r, purge_going now w going seq d = Ok (d', r) → nodes_grow d d'.
Proof.
  induction going as [|[id above] going IH]; intros seq d d' r H; cbn in H; [injection H as <- _; apply rtc_refl|].
  apply bind_ok in H as ([d1 b] & H1 & H). apply bind_ok in H as ([d2 r2] & H2 & H). injection H as <- _. etrans; [by eapply purgeOne_grows|by eapply IH].
Qed.
Lemma purgeNodes_grows now w ids writer fits d d' r : purgeNodes now w ids writer fits d = Ok (d', r) → nodes_grow d d'.
Proof.
  intros H. unfold purgeNodes in H. not_refused H E1. not_refused H E2. destruct (negb _); [injection H as <- _; apply rtc_refl|].
  apply bind_ok in H as ([d0 s] & H0 & H). rewrite <-(next_nodes _ _ _ _ _ _ H0). apply bind_ok in H as ([d1 done] & H1 & H). injection H as <- _. apply purge_going_grows in H1. by destruct (1 <? _).
Qed.
Lemma purge_rows_grows now rows : ∀ d d' r, purge_rows now rows d = Ok (d', r) → nodes_grow d d'.
Proof.
  induction rows as [|row rows IH]; intros d d' r H; cbn in H; [injection H as <- _; apply rtc_refl|]. apply bind_ok in H as ([d1 b] & H1 & H). apply bind_ok in H as ([d2 c] & H2 & H).
  injection H as <- _. unfold purge_descendant in H1. apply bind_ok in H1 as ([d0 s] & H0 & H1). etrans; [rewrite <-(next_nodes _ _ _ _ _ _ H0); by eapply purgeOne_grows|by eapply IH].
Qed.
Lemma purge_superseded_grows now w v d d' r : purge_superseded now w v d = Ok (d', r) → nodes_grow d d'.
Proof.
  intros H. unfold purge_superseded in H. apply bind_ok in H as ([d0 s] & H0 & H). rewrite <-(next_nodes _ _ _ _ _ _ H0). destruct (Db.versions d0 !! v) as [V|]; [|injection H as <- _; apply rtc_refl].
  destruct (_ || _); [injection H as <- _; apply rtc_refl|]. apply bind_ok in H as (d1 & H1 & H). injection H as <- _. by eapply purgeVersion_grows.
Qed.
Lemma delete_tombstones_grows ids : ∀ d d', delete_tombstones ids d = Ok d' → nodes_grow d d'.
Proof.
  induction ids as [|n ids IH]; intros d d' H; cbn in H; [injection H as <-; apply rtc_refl|]. apply bind_ok in H as (d1 & H1 & H). apply delete_node_grows in H1. etrans; [exact H1|].
  apply IH in H. by destruct (Db.nodes d !! n).
Qed.
(** A request that commits grows the tree or takes leaves. *)
Lemma run_grows now q d d' u : run now q d = Ok (d', u) → nodes_grow d d'.
Proof.
  intros H. destruct q; cbn [run] in H; apply forget_ok in H as (a & H).
  - by eapply beginUpload_grows.
  - by eapply startCompleting_grows.
  - by eapply finishCompleting_grows.
  - by eapply attachUpload_grows.
  - by eapply abortUpload_grows.
  - by eapply copyFile_grows.
  - by eapply restoreVersion_grows.
  - by eapply discardVersion_grows.
  - by eapply purgeNode_grows.
  - by eapply purgeNodes_grows.
  - by eapply purge_rows_grows.
  - by eapply purge_superseded_grows.
  - unfold deleteExpiredTombstones in H. apply bind_ok in H as (d1 & H1 & H). injection H as <- _. by eapply delete_tombstones_grows.
Qed.
End transactions.
