(* ===== verification/DriveTrees.v ===== *)
(** * The tree after any transaction (packages/db/src/drive.ts)

    The transactions of [DriveTree] keep the nodes a forest: most only write a
    row where it hangs, a move hangs it elsewhere ([DriveForest.forest_moved]),
    and a batch of folders adds each under a parent it walked or made. *)

From S2P Require Import Prelude DriveTables Pool DriveUploads DrivePurges DriveAccounting DriveAlike DriveBalance DriveReached DriveTree DriveForest DriveGrows.

Implicit Types (d : Db.t).

(** ** Folders made *)

(** Where a folder hangs, as the batch remembers it. *)
Definition stands m (w id : string) (made : Made.t) : Prop := ∃ ids N, map Ancestor.id (Made.ancestors made) = ids ++ [id] ∧ path m ids id ∧
  Made.depth made = Z.of_nat (length ids) ∧ m !! id = Some N ∧ Node.kind N = folder ∧ Node.workspaceId N = w.
Lemma stands_mono m m' w id made : (∀ a N, m !! a = Some N → ∃ N', m' !! a = Some N' ∧ raised N N') → stands m w id made → stands m' w id made.
Proof.
  intros Hm (ids & N & E & Hp & Ed & HN & Hk & Hw). destruct (Hm id N HN) as (N' & HN' & E1 & E2 & E3 & _). exists ids, N'. split_and!; [done| |done|done|congruence|congruence].
  eapply linked_mono; [|exact Hp]. intros a A HA. destruct (Hm a A HA) as (A' & HA' & F & _). eauto.
Qed.
Lemma raise_each_insert ids h id N : id ∉ ids → ∀ m, raise_each (<[id := N]> m) ids h = <[id := N]> (raise_each m ids h).
Proof.
  induction ids as [|b ids IH]; intros Hid m; [done|]. apply not_elem_of_cons in Hid as [Hne Hid]. cbn [raise_each]. rewrite <-IH by done. f_equal.
  unfold raise_one. apply map_eq. intros a. rewrite lookup_alter, !lookup_insert, lookup_alter. by repeat case_decide; subst.
Qed.

Section tree.
Context `{SB : SignedBy}.

Lemma parent_stands d w created p made : (∀ a x, created !! a = Some x → stands (Db.nodes d) w a x) → parent_made d w created p = inr made → stands (Db.nodes d) w p made.
Proof.
  intros Hc. unfold parent_made. destruct (created !! p) as [x|] eqn:Ex; [intros [= <-]; by apply Hc|]. destruct (walked d w p folder) as [c|] eqn:Hw; [|done].
  destruct (Walk.trashed c); [done|]. destruct (underUnrotatedParent _ _ _); [done|]. intros [= <-]. destruct (walk_path _ _ _ (walked_walk _ _ _ _ _ Hw)) as (Hp & Ed & Ea).
  destruct (walked_spec _ _ _ _ _ Hw) as (_ & HP & HwP & _ & HkP). exists (ancestorIds c), (Walk.node c). by split_and!.
Qed.
Lemma create_one_forest w f seq created d d' made : forest (Db.nodes d) → (∀ a x, created !! a = Some x → stands (Db.nodes d) w a x) →
  create_one w f seq created d = inr (d', made) →
  forest (Db.nodes d') ∧ stands (Db.nodes d') w (NewFolder.id f) made ∧ ∀ a x, created !! a = Some x → stands (Db.nodes d') w a x.
Proof.
  intros Hf Hc H. unfold create_one in H. cbv zeta in H. destruct (parent_made _ _ _ _) as [|parent] eqn:Hpar; [done|]. destruct (Z.ltb_spec MAX_DEPTH (Made.depth parent + 1)) as [|Hdeep]; [done|].
  destruct (negb _); [done|]. destruct (negb _); [done|]. destruct (insert_node _ _ d) as [d1|] eqn:Hi; [|done]. apply insert_node_is in Hi as [Hid ->].
  injection H as <- <-. destruct (parent_stands _ _ _ _ _ Hc Hpar) as (ids & P & Ea & Hp & Ed & HP & Hk & Hw). set (id := NewFolder.id f) in *. set (p := NewFolder.parentId f) in *. set (N := folder_row w f seq).
  cbn [raiseHeightBounds Db.nodes set_nodes]. rewrite Ea. set (m := Db.nodes d) in *.
  assert (id ∉ ids ++ [p]) as Hfresh by (intros Hin; destruct (linked_elem _ _ _ id Hp Hin); congruence). rewrite raise_each_insert by done. set (m1 := raise_each m (ids ++ [p]) 0).
  assert (forest m1) as Hf1 by (eapply sprout_forest; [exact Hf|by apply sp_raise]).
  assert (m1 !! id = None) as Hid1 by (unfold m1; by rewrite raise_each_ne).
  assert (∀ a A, m !! a = Some A → ∃ A', <[id := N]> m1 !! a = Some A' ∧ raised A A') as Hr.
  { intros a A HA. destruct (raise_each_raised (ids ++ [p]) 0 m a A HA) as (A' & HA' & E). exists A'. split; [|done]. rewrite lookup_insert_ne; [done|congruence]. }
  destruct (raise_last ids 0 p m P HP) as (P1 & HP1 & (E1 & E2 & E3 & _) & Hh). assert (path m1 ids p) as Hp1.
  { eapply linked_mono; [|exact Hp]. intros a A HA. destruct (raise_each_raised (ids ++ [p]) 0 m a A HA) as (A' & HA' & F & _). eauto. }
  split_and!.
  - apply (forest_leaf m1 id N p P1 Hf1 Hid1); [cbn; lia|done|done|congruence|cbn; congruence| |cbn; lia]. intros ids' Hp'. rewrite (path_unique _ _ _ _ Hp' Hp1). cbn. lia.
  - exists (ids ++ [p]), N. split_and!; [by cbn; rewrite map_app, Ea| |cbn; rewrite length_app; cbn; lia|apply lookup_insert_eq|done|done].
    apply linked_snoc. split; [by apply fresh_linked|]. exists N. by rewrite lookup_insert_eq, last_snoc.
  - intros a x Hx. by eapply stands_mono, Hc.
Qed.
Lemma create_each_forest w folders : ∀ seq created d d', forest (Db.nodes d) → (∀ a x, created !! a = Some x → stands (Db.nodes d) w a x) →
  create_each w folders seq created d = inr d' → forest (Db.nodes d').
Proof.
  induction folders as [|f folders IH]; intros seq created d d' Hf Hc H; cbn in H; [by injection H as <-|]. destruct (create_one w f seq created d) as [|[d1 made]] eqn:H1; [done|].
  destruct (create_one_forest _ _ _ _ _ _ _ Hf Hc H1) as (Hf1 & Hs & Hc1). eapply IH; [exact Hf1| |exact H]. intros a x. rewrite lookup_insert. case_decide; [intros [= <-]; by subst a|by apply Hc1].
Qed.
Lemma createFolders_forest now w user folders d d' r : forest (Db.nodes d) → createFolders now w user folders d = Ok (d', r) → forest (Db.nodes d').
Proof.
  intros Hf H. unfold createFolders, transactionKeeping in H. apply bind_ok in H as ([d1 r1] & H1 & H). injection H as <- <-. destruct r1 as [|seq]; [done|]. cbn.
  unfold createFoldersOnce in H1. apply bind_ok in H1 as ([d0 n] & H0 & H1). cbv zeta in H1. apply bind_ok in H1 as (signed & _ & H1). destruct signed; [|done]. cbn in H1.
  set (d2 := if 1 <? _ then moreChangeSeqs w _ d0 else d0) in H1. destruct (create_each w folders n ∅ d2) as [[]|d3] eqn:H3; [done|]. injection H1 as <- _. eapply create_each_forest; [| |exact H3].
  - replace (Db.nodes d2) with (Db.nodes d); [done|]. rewrite <-(next_nodes _ _ _ _ _ _ H0). unfold d2. by destruct (1 <? _).
  - intros a x Hx. by rewrite lookup_empty in Hx.
Qed.

(** A batch makes folders only: its files are where they were. *)
Definition kept_files (m0 m : gmap string Node.t) : Prop := ∀ n N, m !! n = Some N → Node.kind N = file → Node.parentId <$> m0 !! n = Some (Node.parentId N).
Lemma create_one_files m0 w f seq created d d' made : kept_files m0 (Db.nodes d) → create_one w f seq created d = inr (d', made) → kept_files m0 (Db.nodes d').
Proof.
  intros Hk H. unfold create_one in H. cbv zeta in H. destruct (parent_made _ _ _ _) as [|parent]; [done|]. destruct (_ <? _); [done|].
  destruct (negb _); [done|]. destruct (negb _); [done|]. destruct (insert_node _ _ d) as [d1|] eqn:Hi; [|done]. apply insert_node_is in Hi as [Hid ->]. injection H as <- _.
  intros n N HN HkN. cbn [raiseHeightBounds Db.nodes set_nodes] in HN. apply raise_each_back in HN as (N0 & HN0 & E1 & E2 & _). rewrite lookup_insert in HN0. case_decide; [injection HN0 as <-; cbn in E2; congruence|].
  rewrite <-E1. by apply Hk; [|congruence].
Qed.
Lemma create_each_files m0 w folders : ∀ seq created d d', kept_files m0 (Db.nodes d) → create_each w folders seq created d = inr d' → kept_files m0 (Db.nodes d').
Proof.
  induction folders as [|f folders IH]; intros seq created d d' Hk H; cbn in H; [by injection H as <-|]. destruct (create_one w f seq created d) as [|[d1 made]] eqn:H1; [done|].
  eapply IH; [|exact H]. by eapply create_one_files.
Qed.
Lemma createFolders_settled now w user folders d d' r : createFolders now w user folders d = Ok (d', r) → settled (Db.nodes d) (Db.nodes d').
Proof.
  intros H. enough (kept_files (Db.nodes d) (Db.nodes d')) as Hk by (intros n N HN HkN; left; by apply Hk). assert (kept_files (Db.nodes d) (Db.nodes d)) as Hr by (intros n N HN _; by rewrite HN).
  unfold createFolders, transactionKeeping in H. apply bind_ok in H as ([d1 r1] & H1 & H). injection H as <- <-. destruct r1 as [|seq]; [done|]. cbn.
  unfold createFoldersOnce in H1. apply bind_ok in H1 as ([d0 n] & H0 & H1). cbv zeta in H1. apply bind_ok in H1 as (signed & _ & H1). destruct signed; [|done]. cbn in H1.
  set (d2 := if 1 <? _ then moreChangeSeqs w _ d0 else d0) in H1. destruct (create_each w folders n ∅ d2) as [[]|d3] eqn:H3; [done|]. injection H1 as <- _. eapply create_each_files; [|exact H3].
  replace (Db.nodes d2) with (Db.nodes d); [done|]. rewrite <-(next_nodes _ _ _ _ _ _ H0). unfold d2. by destruct (1 <? _).
Qed.

(** ** Renamed, moved *)

Lemma renameNode_grows now i d d' r : renameNode now i d = Ok (d', r) → nodes_grow d d'.
Proof.
  intros H. unfold renameNode in H. apply bind_ok in H as ([d0 n] & H0 & H). rewrite <-(next_nodes _ _ _ _ _ _ H0). destruct (node_in _ _ _) as [c|]; [|injection H as <- _; apply rtc_refl].
  destruct (Walk.trashed c); [injection H as <- _; apply rtc_refl|]. apply bind_ok in H as (signed & _ & H). destruct (negb signed); [injection H as <- _; apply rtc_refl|].
  destruct (Db.nodes d0 !! Rename.nodeId i) as [N|] eqn:HN; [|injection H as <- _; apply rtc_refl]. destruct (_ && _); injection H as <- _; [|apply rtc_refl].
  apply rows_grow. by eapply rows_insert.
Qed.
Lemma node_in_spec d w n c : node_in d w n = Some c → walk d n = Some c ∧ Db.nodes d !! n = Some (Walk.node c) ∧ Node.workspaceId (Walk.node c) = w.
Proof.
  unfold node_in. destruct (walk d n) as [x|] eqn:Hw; [|done]. destruct (_ && _) eqn:E; [|done]. intros [= ->]. apply andb_true_iff in E as [E _]. apply bool_decide_eq_true in E.
  by destruct (walk_spec _ _ _ Hw) as (_ & HN & _).
Qed.
(** A row hung under another that is not below it. *)
Lemma hang_forest d id N f p anc P : forest (Db.nodes d) → Db.nodes d !! id = Some N →
  Node.parentId (f N) = Some p ∧ Node.kind (f N) = Node.kind N ∧ Node.workspaceId (f N) = Node.workspaceId N ∧ Node.heightBound (f N) = Node.heightBound N →
  path (Db.nodes d) anc p → id ∉ anc ++ [p] → Db.nodes d !! p = Some P → Node.kind P = folder → Node.workspaceId P = Node.workspaceId N →
  Z.of_nat (length anc) + 1 + Node.heightBound N ≤ MAX_DEPTH →
  let m' := raise_each (alter f id (Db.nodes d)) (anc ++ [p]) (Node.heightBound N) in forest m' ∧ settled (Db.nodes d) m'.
Proof.
  intros Hf HN HN' Hp Hid HP Hk Hw Hd. cbv zeta. pose proof HN' as (_ & _ & _ & Eh).
  replace (alter f id (Db.nodes d)) with (<[id := f N]> (Db.nodes d)).
  { rewrite <-Eh at 1 2. split; [exact (forest_moved (Db.nodes d) id p N (f N) P anc Hf HN HN' Hp Hid HP Hk Hw Hd)|exact (settled_moved (Db.nodes d) id p N (f N) anc Hf HN HN' Hp Hid Hd)]. }
  apply map_eq. intros a. rewrite lookup_insert, lookup_alter. by case_decide; [subst a; rewrite HN|].
Qed.
Lemma not_inside id w : inside_of id w = false → Walk.id w ≠ id ∧ id ∉ ancestorIds w.
Proof. unfold inside_of. intros [E1 E2]%orb_false_iff. by apply bool_decide_eq_false in E1, E2. Qed.
Lemma moveNode_forest now w writer n p e d d' r : forest (Db.nodes d) → moveNode now w writer n p e d = Ok (d', r) → forest (Db.nodes d') ∧ settled (Db.nodes d) (Db.nodes d').
Proof.
  intros Hf H. unfold moveNode in H. apply bind_ok in H as ([d0 seq] & H0 & H). rewrite <-(next_nodes _ _ _ _ _ _ H0) in Hf |- *. pose proof (settled_refl (Db.nodes d0)) as Hr0. destruct (node_in d0 w n) as [c|] eqn:Hn; [|injection H as <- _; by split].
  case_bool_decide; [injection H as <- _; by split|]. destruct (Walk.trashed c); [injection H as <- _; by split|]. destruct (walked d0 w p folder) as [t|] eqn:Ht; [|injection H as <- _; by split].
  destruct (Walk.trashed t); [injection H as <- _; by split|]. destruct (inside_of n t) eqn:Hin; [injection H as <- _; by split|]. destruct (Z.ltb_spec MAX_DEPTH (Walk.depth t + 1 + Node.heightBound (Walk.node c))); [injection H as <- _; by split|].
  destruct (move_rotating _ _ _ _); [injection H as <- _; by split|]. destruct (negb _); [injection H as <- _; by split|]. injection H as <- _.
  destruct (node_in_spec _ _ _ _ Hn) as (_ & HN & HwN). destruct (walked_spec _ _ _ _ _ Ht) as (Ei & HP & HwP & _ & HkP). destruct (walk_path _ _ _ (walked_walk _ _ _ _ _ Ht)) as (Hp & Ed & Ea).
  destruct (not_inside _ _ Hin) as [Hne Hni]. cbn [raiseHeightBounds set_nodes Db.nodes]. rewrite Ea. apply hang_forest with (P := Walk.node t); try done; [|congruence|lia].
  intros [?|?%list_elem_of_singleton]%elem_of_app; [done|congruence].
Qed.

(** ** Trashed, restored *)

Lemma mark_place at_ seq n : same_place n (mark_one at_ seq n).
Proof. done. Qed.
Lemma markTrashed_grows ids at_ : ∀ seq d, nodes_grow d (markTrashed ids seq at_ d).
Proof. induction ids as [|id ids IH]; intros seq d; cbn; [apply rtc_refl|]. etrans; [|apply IH]. by apply alter_grows. Qed.
Lemma trashNode_grows now w n writer d d' r : trashNode now w n writer d = Ok (d', r) → nodes_grow d d'.
Proof.
  intros H. unfold trashNode in H. apply bind_ok in H as ([d0 s] & H0 & H). rewrite <-(next_nodes _ _ _ _ _ _ H0). destruct (trashRefusal _ _); injection H as <- _; [apply rtc_refl|exact (markTrashed_grows [n] (Some now) s d0)].
Qed.
Lemma marked_grow ids seq at_ w count d : nodes_grow d (markTrashed ids seq at_ (if 1 <? count then moreChangeSeqs w (count - 1) d else d)).
Proof. etrans; [|apply markTrashed_grows]. by destruct (1 <? count); apply same_grows. Qed.
Lemma trashNodes_grows now served seen w ids writer d d' r : trashNodes now served seen w ids writer d = Ok (d', r) → nodes_grow d d'.
Proof.
  intros H. unfold trashNodes in H. not_refused H E1. not_refused H E2. cbv zeta in H. destruct (_ && _); [injection H as <- _; apply rtc_refl|].
  unfold trash_batch in H. apply bind_ok in H as ([d0 s] & H0 & H). rewrite <-(next_nodes _ _ _ _ _ _ H0). injection H as <- _. apply marked_grow.
Qed.
Lemma removeNode_grows now w n d d' r : removeNode now w n d = Ok (d', r) → nodes_grow d d'.
Proof.
  intros H. unfold removeNode in H. apply bind_ok in H as ([d0 s] & H0 & H). rewrite <-(next_nodes _ _ _ _ _ _ H0). destruct (node_in _ _ _) as [c|]; [|injection H as <- _; apply rtc_refl].
  case_bool_decide; injection H as <- _; [apply rtc_refl|]. by apply alter_grows.
Qed.
Lemma restoreNodes_grows now w ids writer d d' r : restoreNodes now w ids writer d = Ok (d', r) → nodes_grow d d'.
Proof.
  intros H. unfold restoreNodes in H. not_refused H E1. not_refused H E2. apply bind_ok in H as ([d0 s] & H0 & H). rewrite <-(next_nodes _ _ _ _ _ _ H0). injection H as <- _. apply marked_grow.
Qed.

Lemma restore_to_root_forest w n c t seq d d' : forest (Db.nodes d) → walk d n = Some c → Walk.trashedAncestors c ≠ [] → restore_to_root w n c t seq d = inr d' → forest (Db.nodes d') ∧ settled (Db.nodes d) (Db.nodes d').
Proof.
  intros Hf Hw Ht H. unfold restore_to_root in H. destruct t as [t|]; [|done]. destruct (walk d (Walk.rootId c)) as [root|] eqn:Hr; [|done]. destruct (underUnrotatedParent _ _ _); [done|].
  destruct (negb _); [done|]. destruct (Z.ltb_spec MAX_DEPTH (1 + Node.heightBound (Walk.node c))) as [|Hd]; [done|]. injection H as <-.
  destruct (walk_spec _ _ _ Hw) as (_ & HN & _). destruct (walk_path _ _ _ Hw) as (Hp & _). destruct (walk_root _ _ _ Hw) as [Hpr Er].
  assert (∃ ids, ancestorIds c = Walk.rootId c :: ids) as [ids Ea].
  { rewrite Er. destruct (ancestorIds c) as [|a ids] eqn:Ea; [|eauto]. exfalso. destruct (Walk.trashedAncestors c) as [|a l] eqn:El; [done|].
    destruct (trashed_above d n c a Hw) as [Hx _]. rewrite El, Ea in Hx. destruct Hx as [Hx _]; [by left|]. by apply elem_of_nil in Hx. }
  destruct (above_folders _ Hf _ _ _ Hp HN (Walk.rootId c)) as (R & HR & HkR & HwR); [rewrite Ea; by left|]. assert (n ≠ Walk.rootId c) as Hne by (intros E; apply (path_fresh _ _ _ Hp); rewrite Ea, <-E; by left).
  set (f := λ n0, with_parent (mark_one None seq n0) _ _). set (d1 := set_nodes d (alter f n (Db.nodes d))).
  assert (Db.nodes d1 !! Walk.rootId c = Some R) as HR1 by (cbn; by rewrite lookup_alter_ne). assert (path (Db.nodes d1) [] (Walk.rootId c)) as Hp1 by (destruct Hpr as [(R0 & HR0 & E) _]; split; [exists R; split; [done|congruence]|done]).
  destruct (path_walk d1 [] _ R Hp1 ltac:(cbn; unfold WALK_CAP; lia) HR1) as (root1 & Hw1 & _). rewrite Hw1. destruct (walk_spec _ _ _ Hw1) as (-> & _).
  apply (hang_forest d n (Walk.node c) f (Walk.rootId c) [] R); try done. by intros ?%list_elem_of_singleton.
Qed.
Lemma grown d d' : forest (Db.nodes d) → nodes_grow d d' → forest (Db.nodes d') ∧ settled (Db.nodes d) (Db.nodes d').
Proof. intros Hf Hg. split; [by eapply grows_forest|]. eapply grows_settled; [exact Hf|apply settled_refl|exact Hg]. Qed.
Lemma restoreNode_forest now w writer n t d d' r : forest (Db.nodes d) → restoreNode now w writer n t d = Ok (d', r) → forest (Db.nodes d') ∧ settled (Db.nodes d) (Db.nodes d').
Proof.
  intros Hf H. unfold restoreNode in H. apply bind_ok in H as ([d0 s] & H0 & H). rewrite <-(next_nodes _ _ _ _ _ _ H0) in Hf |- *. pose proof (settled_refl (Db.nodes d0)) as Hr0.
  destruct (walk d0 n) as [c|] eqn:Hw; [|injection H as <- _; by split].
  destruct (restoreRefusal _ _); [injection H as <- _; by split|]. case_bool_decide as Ht; [injection H as <- _; apply grown; [exact Hf|exact (markTrashed_grows [n] None s d0)]|].
  destruct (restore_to_root _ _ _ _ _ _) as [|d1] eqn:H1; injection H as <- _; [by split|]. by eapply restore_to_root_forest.
Qed.

(** ** The server's requests *)

Inductive TreeRequest :=
  | makes (workspaceId userId : string) (folders : list NewFolder.t)
  | renames (i : Rename.t)
  | moves (workspaceId : string) (writer : option string) (nodeId parentId : string) (parentKeyEpoch : Z)
  | trashes (workspaceId nodeId : string) (writer : option string)
  | trashes_many (served : string → bool) (seen : Db.t) (workspaceId : string) (nodeIds : list string) (writer : string)
  | removes (workspaceId nodeId : string)
  | brings_back (workspaceId : string) (writer : option string) (nodeId : string) (toRoot : option ToRoot.t)
  | brings_back_many (workspaceId : string) (nodeIds : list string) (writer : string).
Definition run_tree (now : Z) (q : TreeRequest) (d : Db.t) : result (Db.t * unit) :=
  match q with
  | makes w user folders => forget (createFolders now w user folders d)
  | renames i => forget (renameNode now i d)
  | moves w writer n p e => forget (moveNode now w writer n p e d)
  | trashes w n writer => forget (trashNode now w n writer d)
  | trashes_many served seen w ns writer => forget (trashNodes now served seen w ns writer d)
  | removes w n => forget (removeNode now w n d)
  | brings_back w writer n t => forget (restoreNode now w writer n t d)
  | brings_back_many w ns writer => forget (restoreNodes now w ns writer d)
  end.
Lemma run_tree_forest now q d d' u : forest (Db.nodes d) → run_tree now q d = Ok (d', u) → forest (Db.nodes d') ∧ settled (Db.nodes d) (Db.nodes d').
Proof.
  intros Hf H. destruct q; cbn [run_tree] in H; apply forget_ok in H as (a & H).
  - split; [by eapply createFolders_forest|by eapply createFolders_settled].
  - apply grown; [exact Hf|by eapply renameNode_grows].
  - by eapply moveNode_forest.
  - apply grown; [exact Hf|by eapply trashNode_grows].
  - apply grown; [exact Hf|by eapply trashNodes_grows].
  - apply grown; [exact Hf|by eapply removeNode_grows].
  - by eapply restoreNode_forest.
  - apply grown; [exact Hf|by eapply restoreNodes_grows].
Qed.

(** Any request as it commits, a workspace's top folder made, and what writes rows where they hang: keys, grants and the other tables. *)
Inductive tree_step d : Db.t → Prop :=
  | ts_moved_bytes now q : tree_step d (serve now q d)
  | ts_shaped now q : tree_step d (transaction (run_tree now q) d).1
  | ts_top n N : Db.nodes d !! n = None → Node.parentId N = None → Node.kind N = folder → Node.heightBound N = 0 → tree_step d (set_nodes d (<[n := N]> (Db.nodes d)))
  | ts_other d' : map_Forall2 (λ _, same_place) (Db.nodes d) (Db.nodes d') → tree_step d d'.
Lemma tree_step_both d d' : forest (Db.nodes d) → tree_step d d' → forest (Db.nodes d') ∧ settled (Db.nodes d) (Db.nodes d').
Proof.
  intros Hf [now q|now q|n N Hn Ep Hk Hh|d2 Hr].
  - unfold serve. apply (transaction_keeps (λ x, forest (Db.nodes x) ∧ settled (Db.nodes d) (Db.nodes x))); [split; [done|apply settled_refl]|]. intros d2 u H. apply grown; [exact Hf|by eapply run_grows].
  - apply (transaction_keeps (λ x, forest (Db.nodes x) ∧ settled (Db.nodes d) (Db.nodes x))); [split; [done|apply settled_refl]|]. intros d2 u H. by eapply run_tree_forest.
  - split; [by apply forest_top|]. intros a A. cbn [set_nodes Db.nodes]. rewrite lookup_insert. case_decide; [intros [= <-] ?; congruence|intros HA _; left; by rewrite HA].
  - apply grown; [exact Hf|]. by apply rows_grow.
Qed.
Lemma tree_step_forest d d' : forest (Db.nodes d) → tree_step d d' → forest (Db.nodes d').
Proof. intros Hf H. by destruct (tree_step_both d d' Hf H). Qed.
Lemma empty_forest : forest ∅.
Proof. constructor; intros *; by rewrite ?lookup_empty. Qed.
Lemma tree_reached d0 d : Db.nodes d0 = ∅ → rtc tree_step d0 d → forest (Db.nodes d).
Proof.
  intros E H. assert (forest (Db.nodes d0)) as Hf by (rewrite E; apply empty_forest). clear E. induction H as [d|d1 d2 d3 Hs _ IH]; [done|]. apply IH. by eapply tree_step_forest.
Qed.

End tree.

(** ** The tree *)

Lemma walked_to_root d n N : forest (Db.nodes d) → Db.nodes d !! n = Some N → ∃ c, walk d n = Some c ∧ Walk.depth c ≤ depth_of (Node.kind N).
Proof.
  intros Hf HN. destruct (fo_path _ Hf n N HN) as (ids & Hp & Hd). assert (length ids < WALK_CAP)%nat as Hc by (unfold WALK_CAP, depth_of, MAX_DEPTH in *; destruct (Node.kind N); lia).
  destruct (path_walk d ids n N Hp Hc HN) as (c & Hw & Ea). destruct (walk_path _ _ _ Hw) as (_ & Ed & _). exists c. split; [done|]. rewrite <-Ed, Ea. lia.
Qed.

(** C10. After any of the server's transactions, begun with no nodes: every
    node is walked to a root of its workspace, through folders of that
    workspace none of which is it or met twice; each folder, and every node
    the transaction made or hung under another parent, is no deeper than
    [MAX_DEPTH] (a file carried down with a folder it was being uploaded to
    can be one deeper, and no more: [file_past_depth]); and each folder's
    height bound covers the folders it is above, so that the move's depth
    check, which reads only the bound, is enough for them. *)
Theorem tree_stays_a_tree `{SB : SignedBy} d0 d d' n N : Db.nodes d0 = ∅ → rtc tree_step d0 d → tree_step d d' → Db.nodes d' !! n = Some N →
  ∃ w, walk d' n = Some w ∧
    (Node.kind N = folder ∨ Node.parentId <$> Db.nodes d !! n ≠ Some (Node.parentId N) → Walk.depth w ≤ MAX_DEPTH) ∧ Walk.depth w ≤ MAX_DEPTH + 1 ∧
    Node.parentId N = last (ancestorIds w) ∧ NoDup (ancestorIds w ++ [n]) ∧
    (∀ a, a ∈ ancestorIds w → ∃ A, Db.nodes d' !! a = Some A ∧ Node.kind A = folder ∧ Node.workspaceId A = Node.workspaceId N) ∧
    (∀ above a below A, ancestorIds w = above ++ a :: below → Db.nodes d' !! a = Some A → Node.kind N = folder →
      Z.of_nat (length below) + 1 + Node.heightBound N ≤ Node.heightBound A).
Proof.
  intros E H Hs HN. destruct (tree_step_both d d' (tree_reached d0 d E H) Hs) as [Hf Hset]. destruct (walked_to_root d' n N Hf HN) as (w & Hw & Hd). destruct (walk_path _ _ _ Hw) as (Hp & Ed & _). exists w. split; [done|]. split_and!.
  - destruct (Node.kind N) eqn:Hk; [done|]. intros [|Hne]; [done|]. destruct (Hset n N HN Hk) as [?|(ids & Hp' & ?)]; [done|]. rewrite <-Ed. by rewrite (path_unique _ _ _ _ Hp Hp').
  - unfold depth_of in Hd. destruct (Node.kind N); lia.
  - apply linked_snoc in Hp as (_ & N' & HN' & E'). assert (N' = N) as -> by congruence. by destruct (last (ancestorIds w)).
  - by apply path_distinct in Hp.
  - by apply (above_folders _ Hf _ n N).
  - intros above a below A Ea HA Hk. rewrite Ea in Hp. apply path_split in Hp as [_ Hl].
    pose proof (below_height _ Hf (below ++ [n]) a A HA Hl n N (last_snoc _ _) HN Hk) as Hb. rewrite length_app in Hb. cbn in Hb. lia.
Qed.

(** Two folders in the top folder, one in the first, and that one moved into the second. *)
Module TreeToy.
#[local] Instance signed : SignedBy := λ _ _, Ok true.
Definition made_in (id parent : string) (epoch parentEpoch : Z) : NewFolder.t := NewFolder.Build_t id parent (NodeEnvelopes.Build_t epoch parentEpoch "e" "s").
Definition none : Db.t := set_nodes DriveToy.start ∅.
Definition top : Db.t := set_nodes none (<["r" := DriveToy.root]> (Db.nodes none)).
Definition makes_three : TreeRequest := makes "w" "a" [made_in "a" "r" 2 1; made_in "b" "a" 3 2; made_in "c" "r" 4 1].
Definition made : Db.t := (transaction (run_tree 5 makes_three) top).1.
Definition moved : Db.t := (transaction (run_tree 6 (moves "w" (Some "a") "b" "c" 4)) made).1.
End TreeToy.
Lemma tree_stays_a_tree_witness : ∃ w, walk TreeToy.moved "b" = Some w ∧ ancestorIds w = ["r"; "c"] ∧ Walk.depth w ≤ MAX_DEPTH ∧ NoDup (ancestorIds w ++ ["b"]).
Proof.
  assert (rtc (tree_step (SB := TreeToy.signed)) TreeToy.none TreeToy.made) as Hr.
  { apply (rtc_l _ _ TreeToy.top); [by apply (ts_top (SB := TreeToy.signed) TreeToy.none "r" DriveToy.root)|]. apply rtc_once, (ts_shaped (SB := TreeToy.signed) TreeToy.top 5 TreeToy.makes_three). }
  destruct (Db.nodes TreeToy.moved !! "b") as [N|] eqn:HN; [|by vm_compute in HN].
  destruct (tree_stays_a_tree (SB := TreeToy.signed) TreeToy.none TreeToy.made TreeToy.moved "b" N eq_refl Hr (ts_shaped (SB := TreeToy.signed) TreeToy.made 6 (moves "w" (Some "a") "b" "c" 4)) HN) as (w & Hw & Hdep & _ & _ & Hd & _).
  exists w. split_and!; [done| | |done]; [|apply Hdep; right; intros E; vm_compute in HN; injection HN as <-; vm_compute in E; discriminate E].
  assert (ancestorIds <$> walk TreeToy.moved "b" = Some ["r"; "c"]) as Ea by by vm_compute. rewrite Hw in Ea. by injection Ea.
Defined.

(** Why a file is given one level more: a folder's bound does not count a file still being uploaded
    to it, so the folder may be moved to the last level meanwhile, and the file is published under it. *)
Module DeepToy.
Import TreeToy.
#[local] Existing Instance TreeToy.signed.
Definition level (n : nat) : string := String (Ascii.ascii_of_nat (n + 128)) "".
(** Folders one in another, 63 deep, and an empty one beside them. *)
Definition chain : list NewFolder.t := made_in (level 1) "r" 2 1 :: map (λ n, made_in (level (S n)) (level n) 2 2) (seq 1 62).
Definition into := new_file "n" "a" (NodeEnvelopes.Build_t 3 2 "e" "s").
Definition upload : UploadBegin.t := UploadBegin.Build_t "w" "a" into "v" "k" "s" "o" "key" 1 300 100 None "u".
Definition deep : Db.t := (transaction (run_tree 5 (makes "w" "a" (chain ++ [made_in "a" "r" 2 1]))) top).1.
Definition begun : Db.t := serve 6 (begins upload) deep.
Definition shifted : Db.t := (transaction (run_tree 7 (moves "w" (Some "a") "a" (level 63) 2)) begun).1.
Definition published : Db.t := serve 9 (finishes "w" "u" (Some 300) (Some "a")) (serve 8 (starts_completing "w" "u" (Some "a")) shifted).
End DeepToy.
Lemma file_past_depth : Walk.depth <$> walk DeepToy.published "n" = Some (MAX_DEPTH + 1) ∧ is_Some (current_of DeepToy.published "n").
Proof. vm_compute. split; [done|by eexists]. Qed.
