(* ===== verification/DriveTrash.v ===== *)
(** * A selection to the trash, and back (packages/db/src/drive.ts)

    What a batch of [DriveTree] answers for each item and writes to each row:
    which come back and in what order, and that Undo of what a request moved
    to the trash puts every row back where and as it was. *)

From S2P Require Import Prelude DriveTables Pool DriveUploads DrivePurges DriveAccounting DriveAlike DriveBalance DriveReached DriveTree DriveForest DriveGrows.

Implicit Types (d : Db.t) (w : string) (waiting still W : list (string * list string)) (back : list string).

(** ** Passes *)

(** Each was waiting, and came after every trashed folder above it. *)
Definition in_order W back : Prop := ∀ l1 id l2, back = l1 ++ id :: l2 → ∃ above, (id, above) ∈ W ∧ ∀ a, a ∈ above → a ∈ l1.
Lemma in_order_snoc W back id above : in_order W back → (id, above) ∈ W → (∀ a, a ∈ above → a ∈ back) → in_order W (back ++ [id]).
Proof.
  intros Ho Hin Ha l1 x l2 E. destruct l2 as [|y l2 _] using rev_ind.
  - apply app_inj_tail in E as [-> ->]. eauto.
  - rewrite app_comm_cons, app_assoc in E. apply app_inj_tail in E as [-> ->]. by apply (Ho l1 x l2).
Qed.
Lemma every_back above back : forallb (λ a, bool_decide (a ∈ back)) above = true ↔ ∀ a, a ∈ above → a ∈ back.
Proof. rewrite List.forallb_forall. split; intros H a Ha; [by apply list_elem_of_In, H, bool_decide_eq_true in Ha|apply bool_decide_eq_true, H, list_elem_of_In, Ha]. Qed.
Lemma missing above back : forallb (λ a, bool_decide (a ∈ back)) above = false → ∃ a, a ∈ above ∧ a ∉ back.
Proof.
  intros H. induction above as [|a above IH]; [done|]. cbn in H. apply andb_false_iff in H as [H|H].
  - exists a. split; [by left|by apply bool_decide_eq_false in H].
  - destruct (IH H) as (b & Hb & ?). exists b. split; [by right|done].
Qed.
Definition stuck still back : Prop := ∀ id above, (id, above) ∈ still → ∃ a, a ∈ above ∧ a ∉ back.
Lemma restore_pass_spec W waiting : ∀ back still back', restore_pass waiting back = (still, back') → (∀ e, e ∈ waiting → e ∈ W) → in_order W back →
  in_order W back' ∧ (∀ e, e ∈ still → e ∈ waiting) ∧ map fst waiting ++ back ≡ₚ map fst still ++ back' ∧ (∀ a, a ∈ back → a ∈ back') ∧
  (length still ≤ length waiting)%nat ∧ (length still = length waiting → still = waiting ∧ back' = back ∧ stuck still back').
Proof.
  induction waiting as [|[id above] waiting IH]; intros back still back' H Hw Ho; cbn in H; [injection H as <- <-; split_and!; try done; intros _; split_and!; [done|done|]; intros ? ? Hx; by apply elem_of_nil in Hx|].
  assert (∀ e, e ∈ waiting → e ∈ W) as Hw' by (intros e He; apply Hw; by right). destruct (forallb _ above) eqn:Ea.
  - pose proof (proj1 (every_back _ _) Ea) as Eb. destruct (IH _ _ _ H Hw' (in_order_snoc _ _ _ _ Ho (Hw _ (list_elem_of_here _ _)) Eb)) as (H1 & H2 & H3 & H4 & H5 & H6). split_and!; [done| | | |cbn; lia|cbn; lia].
    + intros e He. right. by apply H2.
    + rewrite <-H3. cbn. rewrite app_assoc. apply Permutation_cons_append.
    + intros a Hin. apply H4, elem_of_app. by left.
  - destruct (restore_pass waiting back) as [st bk] eqn:Er. injection H as <- <-. destruct (IH _ _ _ Er Hw' Ho) as (H1 & H2 & H3 & H4 & H5 & H6). split_and!; [done| | |done|cbn; lia|].
    + intros e [->|He]%elem_of_cons; [by left|]. right. by apply H2.
    + cbn. by rewrite H3.
    + cbn. intros El. destruct H6 as (-> & -> & Hs); [lia|]. split_and!; [done|done|]. intros x ab [[= -> ->]|Hx]%elem_of_cons; [|by apply (Hs x)].
      apply missing. by rewrite Ea.
Qed.
(** The passes end with nothing left that could come back. *)
Lemma restore_passes_spec W fuel : ∀ waiting back still back', (length waiting < fuel)%nat → restore_passes fuel waiting back = (still, back') → (∀ e, e ∈ waiting → e ∈ W) → in_order W back →
  in_order W back' ∧ map fst waiting ++ back ≡ₚ map fst still ++ back' ∧ (∀ e, e ∈ still → e ∈ waiting) ∧ stuck still back'.
Proof.
  induction fuel as [|fuel IH]; intros waiting back still back' Hf H Hw Ho; [lia|]. cbn in H. destruct (restore_pass waiting back) as [st bk] eqn:Er.
  destruct (restore_pass_spec W _ _ _ _ Er Hw Ho) as (H1 & H2 & H3 & H4 & H5 & H6). case_bool_decide as El.
  - injection H as <- <-. destruct (H6 El) as (_ & _ & ?). by split_and!.
  - destruct (IH st bk still back' ltac:(lia) H) as (J1 & J2 & J3 & J4); [intros e He; by apply Hw, H2|done|]. split_and!; [done|by rewrite H3|intros e He; by apply H2, J3|done].
Qed.

(** ** Which come back *)

Definition restorable d w (id : string) : Prop := restoreRefusal (walk d id) w = None.
Lemma waiting_spec d w ids id above : (id, above) ∈ waiting_for d w ids ↔ id ∈ ids ∧ ∃ c, walk d id = Some c ∧ restoreRefusal (Some c) w = None ∧ above = Walk.trashedAncestors c.
Proof.
  unfold waiting_for. rewrite list_elem_of_omap. split.
  - intros (x & Hx & E). destruct (walk d x) as [c|] eqn:Hc; [|done]. destruct (restoreRefusal (Some c) w) eqn:Er; [done|]. injection E as <- <-. eauto.
  - intros (Hin & c & Hc & Hr & ->). exists id. split; [done|]. by rewrite Hc, Hr.
Qed.
Lemma waiting_names d w ids : NoDup ids → NoDup (map fst (waiting_for d w ids)).
Proof.
  intros Hn. induction Hn as [|x ids Hx Hn IH]; [constructor|]. unfold waiting_for. cbn [omap list_omap]. fold (waiting_for d w ids). destruct (walk d x) as [c|]; [|done]. destruct (restoreRefusal (Some c) w); [done|].
  cbn. constructor; [|done]. intros ([y above] & E & Hy)%list_elem_of_fmap. cbn in E. subst y. apply waiting_spec in Hy as [? _]. done.
Qed.
Lemma coming_back_spec d w ids : let back := coming_back d w ids in let W := waiting_for d w ids in
  ∃ still, in_order W back ∧ map fst W ≡ₚ map fst still ++ back ∧ (∀ e, e ∈ still → e ∈ W) ∧ stuck still back.
Proof.
  cbv zeta. unfold coming_back. set (W := waiting_for d w ids). destruct (restore_passes _ _ _) as [still back] eqn:E. exists still. cbn.
  destruct (restore_passes_spec W (S (length W)) W [] still back ltac:(lia) E) as (H1 & H2 & H3 & H4); [done|by intros [] ? ?|].
  rewrite app_nil_r in H2. by split_and!.
Qed.
(** What is above one that is itself above. *)
Lemma walk_above d id c a ca : walk d id = Some c → walk d a = Some ca → a ∈ ancestorIds c → ∃ l2, ancestorIds c = ancestorIds ca ++ a :: l2.
Proof.
  intros Hc Hca Ha. destruct (walk_path _ _ _ Hc) as (Hp & _), (walk_path _ _ _ Hca) as (Hpa & _). apply list_elem_of_split in Ha as (l1 & l2 & E). rewrite E in Hp. destruct (path_split _ _ _ _ _ Hp) as [H1 _].
  exists l2. by rewrite (path_unique _ _ _ _ Hpa H1).
Qed.
Lemma trashed_above_above d id c a ca b : walk d id = Some c → walk d a = Some ca → a ∈ ancestorIds c → b ∈ Walk.trashedAncestors ca →
  b ∈ Walk.trashedAncestors c.
Proof.
  intros Hc Hca Ha Hb. destruct (walk_above _ _ _ _ _ Hc Hca Ha) as (l2 & E). apply (trashed_above _ _ _ _ Hca) in Hb as [Hb Ht].
  apply (trashed_above _ _ _ _ Hc). split; [|done]. rewrite E. apply elem_of_app. by left.
Qed.
Lemma coming_back_iff d w ids id : id ∈ coming_back d w ids ↔
  id ∈ ids ∧ ∃ c, walk d id = Some c ∧ restoreRefusal (Some c) w = None ∧ ∀ a, a ∈ Walk.trashedAncestors c → a ∈ ids ∧ restorable d w a.
Proof.
  destruct (coming_back_spec d w ids) as (still & Ho & Hp & Hs & Hstuck). set (back := coming_back d w ids) in *.
  assert (∀ x, x ∈ back → ∃ c, x ∈ ids ∧ walk d x = Some c ∧ restoreRefusal (Some c) w = None ∧ ∀ a, a ∈ Walk.trashedAncestors c → a ∈ back) as Hback.
  { intros x Hx. apply list_elem_of_split in Hx as (l1 & l2 & E). destruct (Ho _ _ _ E) as (above & (Hx & c & Hc & Hr & ->)%waiting_spec & Ha). exists c. split_and!; try done.
    intros a Hin. rewrite E. apply elem_of_app. left. by apply Ha. }
  split.
  - intros (c & Hin & Hc & Hr & Ha)%Hback. split; [done|]. exists c. split_and!; [done|done|]. intros a Hb%Ha. destruct (Hback a Hb) as (ca & Hi & Hca & Hra & _). split; [done|]. unfold restorable. by rewrite Hca.
  - intros (Hin & c & Hc & Hr & Ha). remember (length (ancestorIds c)) as n eqn:En. revert id c Hin Hc Hr Ha En. induction n as [n IH] using (well_founded_induction lt_wf). intros id c Hin Hc Hr Ha ->.
    assert (∀ a, a ∈ Walk.trashedAncestors c → a ∈ back) as Hall.
    { intros a Hina. destruct (Ha a Hina) as [Hids Hra]. unfold restorable in Hra. destruct (walk d a) as [ca|] eqn:Hca; [|done]. assert (a ∈ ancestorIds c) as Hup by by apply (trashed_above _ _ _ _ Hc) in Hina as [? _].
      destruct (walk_above _ _ _ _ _ Hc Hca Hup) as (l2 & E). apply (IH (length (ancestorIds ca))) with ca; try done; [rewrite E, length_app; cbn; lia|].
      intros b Hb. by apply Ha, (trashed_above_above d id c a ca b). }
    assert (id ∈ map fst still ++ back) as [([x above] & Ex & Hx)%list_elem_of_fmap|]%elem_of_app; [| |done].
    + rewrite <-Hp. apply list_elem_of_fmap. exists (id, Walk.trashedAncestors c). split; [done|]. apply waiting_spec. eauto.
    + cbn in Ex. subst x. destruct (Hstuck _ _ Hx) as (a & Hab & Hno). apply Hs, waiting_spec in Hx as (_ & c' & Hc' & _ & ->). assert (c' = c) as -> by congruence. by destruct (Hno (Hall a Hab)).
Qed.

(** ** Rows and numbers *)

Lemma refused_numbered ids : ∀ seq id, id ∈ ids →
  ∃ l1 l2, ids = l1 ++ id :: l2 ∧ id ∉ l1 ∧ refused_as (numbered_from ids seq) id = Some (seq + Z.of_nat (length l1)).
Proof.
  induction ids as [|x ids IH]; intros seq id Hid; [by apply elem_of_nil in Hid|]. unfold refused_as. cbn. case_bool_decide as E.
  - subst x. exists [], ids. split_and!; [done|by intros ?%elem_of_nil|]. cbn. f_equal. lia.
  - apply elem_of_cons in Hid as [|Hid]; [congruence|]. destruct (IH (seq + 1) id Hid) as (l1 & l2 & -> & Hn & Hs). exists (x :: l1), l2. split_and!; [done|by apply not_elem_of_cons|].
    unfold refused_as in Hs. rewrite Hs. f_equal. cbn [length]. lia.
Qed.
Lemma not_numbered ids : ∀ seq id, id ∉ ids → refused_as (numbered_from ids seq) id = None.
Proof.
  induction ids as [|x ids IH]; intros seq id Hid; [done|]. apply not_elem_of_cons in Hid as [Hne Hid]. unfold refused_as. cbn. rewrite bool_decide_eq_false_2 by congruence. by apply IH.
Qed.
(** A row's number, and its mark. *)
Lemma markTrashed_row ids at_ : NoDup ids → ∀ seq d id, Db.nodes (markTrashed ids seq at_ d) !! id =
  match refused_as (numbered_from ids seq) id with Some s => mark_one at_ s <$> Db.nodes d !! id | None => Db.nodes d !! id end.
Proof.
  intros Hn. induction Hn as [|x ids Hx Hn IH]; intros seq d id; [done|]. cbn [markTrashed]. rewrite IH. unfold refused_as at 2. cbn. case_bool_decide as E.
  - subst x. rewrite not_numbered by done. cbn. by rewrite lookup_alter_eq.
  - cbn. rewrite lookup_alter_ne by done. done.
Qed.

(** ** Back from the trash *)

Lemma walk_nodes d d' : Db.nodes d' = Db.nodes d → ∀ id, walk d' id = walk d id.
Proof. intros E id. unfold walk. by rewrite E. Qed.
Lemma back_distinct d w ids : NoDup ids → NoDup (coming_back d w ids).
Proof. intros Hn. destruct (coming_back_spec d w ids) as (still & _ & Hp & _). pose proof (waiting_names d w ids Hn) as H. rewrite Hp in H. by apply NoDup_app in H as (_ & _ & H). Qed.
Lemma outcome_restored d w ids seq id s : restore_outcome d w (numbered_from (coming_back d w ids) seq) id = restored s ↔ refused_as (numbered_from (coming_back d w ids) seq) id = Some s.
Proof.
  unfold restore_outcome. destruct (restoreRefusal (walk d id) w) as [r|] eqn:Er.
  - split; [done|]. intros E. rewrite not_numbered in E; [done|]. intros (_ & c & Hc & Hr & _)%coming_back_iff. congruence.
  - destruct (refused_as _ id) as [x|]; [|done]. split; intros [= ->]; done.
Qed.
Lemma numbered_iff ids seq id : is_Some (refused_as (numbered_from ids seq) id) ↔ id ∈ ids.
Proof.
  split; [|intros (l1 & l2 & _ & _ & ->)%(refused_numbered ids seq); eauto]. intros [s E]. destruct (decide (id ∈ ids)) as [|Hn]; [done|]. by rewrite not_numbered in E.
Qed.
Lemma answers_in {A} (f : string → A) ids id a : (id, a) ∈ map (λ x, (x, f x)) ids ↔ id ∈ ids ∧ a = f id.
Proof. rewrite list_elem_of_fmap. split; [intros (x & [= -> ->] & Hx); done|intros [Hx ->]; eauto]. Qed.
Lemma batch_nodes w count d : Db.nodes (if 1 <? count then moreChangeSeqs w (count - 1) d else d) = Db.nodes d.
Proof. by destruct (1 <? count). Qed.
(** What a batch that commits did. *)
Lemma restoreNodes_is now w ids writer d d' answers : restoreNodes now w ids writer d = Ok (d', answers) → NoDup ids ∧ ∃ seq,
  answers = map (λ id, (id, restore_outcome d w (numbered_from (coming_back d w ids) seq) id)) ids ∧
  ∀ id, Db.nodes d' !! id = match refused_as (numbered_from (coming_back d w ids) seq) id with Some s => mark_one None s <$> Db.nodes d !! id | None => Db.nodes d !! id end.
Proof.
  intros H. unfold restoreNodes in H. not_refused H E1. not_refused H E2. apply bool_decide_eq_true in E2. split; [done|]. apply bind_ok in H as ([d0 s] & H0 & H). pose proof (next_nodes _ _ _ _ _ _ H0) as En. injection H as <- <-.
  assert (∀ id, walk d0 id = walk d id) as Ew by by apply walk_nodes. assert (coming_back d0 w ids = coming_back d w ids) as Eb.
  { unfold coming_back. replace (waiting_for d0 w ids) with (waiting_for d w ids); [done|]. unfold waiting_for. apply list_omap_ext, Forall_Forall2_diag, Forall_true. intros id. by rewrite Ew. }
  rewrite Eb. exists s. split.
  - apply map_ext. intros id. unfold restore_outcome. by rewrite Ew.
  - intros id. rewrite markTrashed_row by by apply back_distinct. by rewrite batch_nodes, En.
Qed.
(** An item named, by its own folders above. *)
Lemma coming_back_spec' d w ids id : id ∈ ids → id ∈ coming_back d w ids ↔
  ∃ c, walk d id = Some c ∧ restoreRefusal (Some c) w = None ∧ ∀ b, b ∈ Walk.trashedAncestors c → b ∈ ids ∧ restoreRefusal (walk d b) w = None.
Proof. intros Hid. rewrite coming_back_iff. unfold restorable. tauto. Qed.
Lemma first_before {A} (l1 l2 k1 k2 : list A) x y : l1 ++ x :: l2 = k1 ++ y :: k2 → y ∈ l1 → y ∉ k1 → (length k1 < length l1)%nat.
Proof.
  revert k1. induction l1 as [|z l1 IH]; intros k1 E Hy Hk; [by apply elem_of_nil in Hy|]. destruct k1 as [|z' k1]; [cbn; lia|]. injection E as -> E.
  apply not_elem_of_cons in Hk as [Hne Hk]. apply elem_of_cons in Hy as [|Hy]; [done|]. specialize (IH k1 E Hy Hk). cbn. lia.
Qed.

(** C19. A batch of items to restore: an item comes back exactly when it may and
    every trashed folder above it is named in the same request and may too,
    whatever the order they are named in. Each is answered; what comes back
    is out of the trash under its own number, one above those of the folders
    it is in that came back with it; no other row is written. *)
Theorem restore_batch_exact now w ids writer d d' answers : restoreNodes now w ids writer d = Ok (d', answers) →
  map fst answers = ids ∧
  (∀ id a, (id, a) ∈ answers → (∃ s, a = restored s) ↔
    ∃ c, walk d id = Some c ∧ restoreRefusal (Some c) w = None ∧ ∀ b, b ∈ Walk.trashedAncestors c → b ∈ ids ∧ restoreRefusal (walk d b) w = None) ∧
  (∀ id s, (id, restored s) ∈ answers → Db.nodes d' !! id = mark_one None s <$> Db.nodes d !! id) ∧
  (∀ id s c b, (id, restored s) ∈ answers → walk d id = Some c → b ∈ Walk.trashedAncestors c → ∃ t, (b, restored t) ∈ answers ∧ t < s) ∧
  (∀ id, (∀ s, (id, restored s) ∉ answers) → Db.nodes d' !! id = Db.nodes d !! id).
Proof.
  intros (Hn & seq & -> & Hrow)%restoreNodes_is. set (back := coming_back d w ids) in *.
  assert (∀ id s, (id, restored s) ∈ map (λ x, (x, restore_outcome d w (numbered_from back seq) x)) ids ↔ refused_as (numbered_from back seq) id = Some s) as Hans.
  { intros id s. rewrite answers_in. split; [intros [_ E]; by apply outcome_restored|]. intros E. split; [|symmetry; by apply outcome_restored].
    assert (id ∈ back) as [? _]%coming_back_iff by (apply (numbered_iff back seq); eauto). done. }
  split_and!.
  - rewrite map_map. apply map_id.
  - intros id a [Hid ->]%answers_in. rewrite <-(coming_back_spec' d w ids id Hid). fold back. rewrite <-(numbered_iff back seq). split.
    + intros [s E%outcome_restored]. eauto.
    + intros [s E]. exists s. by apply outcome_restored.
  - intros id s E%Hans. by rewrite Hrow, E.
  - intros id s c b E%Hans Hc Hb. assert (id ∈ back) as Hid by (apply (numbered_iff back seq); eauto). destruct (refused_numbered back seq id Hid) as (l1 & l2 & Eb & Hl1 & Es).
    destruct (coming_back_spec d w ids) as (_ & Ho & _). destruct (Ho l1 id l2 Eb) as (above & (_ & c' & Hc' & _ & ->)%waiting_spec & Ha). assert (c' = c) as -> by congruence. specialize (Ha b Hb).
    assert (b ∈ back) as Hbb by (rewrite Eb; apply elem_of_app; by left). destruct (refused_numbered back seq b Hbb) as (k1 & k2 & Ek & Hk1 & Et). exists (seq + Z.of_nat (length k1)). split; [by apply Hans|].
    assert (length k1 < length l1)%nat by exact (first_before l1 l2 k1 k2 id b ltac:(congruence) Ha Hk1). assert (s = seq + Z.of_nat (length l1)) as -> by congruence. lia.
  - intros id Hno. rewrite Hrow. destruct (refused_as _ id) as [s|] eqn:E; [|done]. by destruct (Hno s); apply Hans.
Qed.

(** ** Rows marked where they hang *)

Lemma walk_short d id c : walk d id = Some c → (length (ancestorIds c) < WALK_CAP)%nat.
Proof.
  intros H. assert (∀ m cap i, length (chain_rows m cap i) ≤ cap)%nat as Hl.
  { intros m cap. induction cap as [|cap IH]; intros i; cbn; [lia|]. destruct (m !! i) as [N|]; [|cbn; lia]. cbn. destruct (Node.parentId N); [specialize (IH s)|cbn]; lia. }
  specialize (Hl (Db.nodes d) WALK_CAP id). unfold walk, chainWalk in H. destruct (chain_rows _ _ id) as [|[i N] above]; [done|]. destruct (last _) as [[r top]|]; [|done]. destruct (Node.parentId top); [done|]. injection H as <-.
  unfold ancestorIds. cbn [Walk.ancestors]. rewrite length_map, length_reverse, length_map. cbn [length] in Hl. lia.
Qed.
Lemma walk_rows d id c : walk d id = Some c → ∃ rows, Walk.purged c = existsb is_purged rows ∧ Walk.trashed c = existsb is_trashed rows ∧
  ∀ x X, (x, X) ∈ rows ↔ x ∈ ancestorIds c ++ [id] ∧ Db.nodes d !! x = Some X.
Proof.
  intros H. unfold walk, chainWalk in H. destruct (chain_rows _ _ id) as [|[i N] above] eqn:Ec; [done|]. destruct (last _) as [[r top]|] eqn:El; [|done]. destruct (Node.parentId top) eqn:Et; [done|].
  destruct (chain_rows_path _ _ _ _ _ Ec El Et) as (-> & HN & _). injection H as <-. exists ((id, N) :: above). split_and!; [done|done|].
  assert (∀ x X, (x, X) ∈ (id, N) :: above → Db.nodes d !! x = Some X) as Hrow by (intros x X Hx; eapply chain_rows_lookup; by rewrite Ec).
  unfold ancestorIds. cbn [Walk.ancestors]. rewrite map_reverse, map_map. cbn [ancestor_of Ancestor.id]. intros x X. rewrite elem_of_app, elem_of_reverse, list_elem_of_singleton. split.
  - intros Hx. split; [|by apply Hrow]. apply elem_of_cons in Hx as [[= -> ->]|Hx]; [by right|]. left. apply list_elem_of_fmap. by exists (x, X).
  - intros [[([y Y] & -> & Hx)%list_elem_of_fmap| ->] HX]; cbn in *.
    + rewrite (Hrow y Y) in HX by (by right). injection HX as <-. by right.
    + rewrite HN in HX. injection HX as <-. by left.
Qed.
Lemma marked_rows (f : string * Node.t → bool) rows : existsb f rows = true ↔ ∃ x X, (x, X) ∈ rows ∧ f (x, X) = true.
Proof. rewrite List.existsb_exists. split; [intros ([x X] & Hx%list_elem_of_In & E)|intros (x & X & Hx%list_elem_of_In & E)]; eauto. Qed.
Lemma walk_purged d id c : walk d id = Some c → Walk.purged c = true ↔ ∃ x X, x ∈ ancestorIds c ++ [id] ∧ Db.nodes d !! x = Some X ∧ is_Some (Node.purgedAt X).
Proof.
  intros (rows & -> & _ & Hr)%walk_rows. rewrite marked_rows. setoid_rewrite Hr. unfold is_purged. setoid_rewrite bool_decide_eq_true. cbn. naive_solver.
Qed.
Lemma walk_trashed d id c : walk d id = Some c → Walk.trashed c = true ↔ ∃ x X, x ∈ ancestorIds c ++ [id] ∧ Db.nodes d !! x = Some X ∧ is_Some (Node.trashedAt X).
Proof.
  intros (rows & _ & -> & Hr)%walk_rows. rewrite marked_rows. setoid_rewrite Hr. unfold is_trashed. setoid_rewrite bool_decide_eq_true. cbn. naive_solver.
Qed.
Lemma untrashed d id c x X : walk d id = Some c → Walk.trashed c = false → x ∈ ancestorIds c ++ [id] → Db.nodes d !! x = Some X → Node.trashedAt X = None.
Proof. intros Hc Ht Hx HX. destruct (Node.trashedAt X) eqn:E; [|done]. assert (Walk.trashed c = true); [|congruence]. apply (walk_trashed _ _ _ Hc). exists x, X. by rewrite E. Qed.
Lemma itself_in id (ids : list string) : id ∈ ids ++ [id].
Proof. apply elem_of_app. right. by left. Qed.
(** Marks in the trash keep every walk's path, and its purge. *)
Lemma walk_marked d d' id c : map_Forall2 (λ _ n x, same_place n x ∧ Node.purgedAt x = Node.purgedAt n) (Db.nodes d) (Db.nodes d') → walk d id = Some c →
  ∃ c', walk d' id = Some c' ∧ ancestorIds c' = ancestorIds c ∧ Walk.purged c' = Walk.purged c.
Proof.
  intros Hr Hc. destruct (walk_path _ _ _ Hc) as (Hp & _). destruct (walk_spec _ _ _ Hc) as (_ & HN & _). assert (hung_alike (Db.nodes d) (Db.nodes d')) as Hh.
  { intros a A HA. destruct (rows_fwd _ _ _ _ Hr HA) as (A' & HA' & [E _ _ _] & _). eauto. }
  destruct (rows_fwd _ _ _ _ Hr HN) as (N' & HN' & _). destruct (path_walk d' (ancestorIds c) id N' (linked_mono _ _ _ Hh _ Hp) (walk_short _ _ _ Hc) HN') as (c' & Hc' & Ea). exists c'. split_and!; [done|done|].
  apply eq_true_iff_eq. rewrite (walk_purged _ _ _ Hc), (walk_purged _ _ _ Hc'), Ea. split; intros (x & X & Hx & HX & Hp').
  - destruct (rows_bwd _ _ _ _ Hr HX) as (X0 & HX0 & _ & E). exists x, X0. split_and!; [done|done|congruence].
  - destruct (rows_fwd _ _ _ _ Hr HX) as (X0 & HX0 & _ & E). exists x, X0. split_and!; [done|done|congruence].
Qed.

(** ** To the trash *)

Definition moved_of (outcomes : list (string * TrashOutcome)) : list string :=
  omap (λ e, match e.2 with trash_moved _ _ => Some e.1 | _ => None end) outcomes.
(** Of a live node of the workspace, not its top folder. *)
Definition may_go d w (id : string) : Prop :=
  ∃ c, walk d id = Some c ∧ Node.workspaceId (Walk.node c) = w ∧ Walk.purged c = false ∧ Walk.trashed c = false ∧ Node.parentId (Walk.node c) ≠ None.
Lemma trash_may d w id : trashRefusal (walk d id) w = None → may_go d w id.
Proof.
  unfold trashRefusal. destruct (walk d id) as [c|] eqn:Hc; [|done]. destruct ((_ !== _) || _) eqn:E; [done|]. destruct (bool_decide (Node.parentId _ = None)) eqn:Ep; [done|]. destruct (Walk.trashed c) eqn:Et; [done|]. intros _.
  apply orb_false_iff in E as [E1%negb_false_iff%bool_decide_eq_true E2]. apply bool_decide_eq_false in Ep. exists c. by split_and!.
Qed.
Lemma check_may served d w writer refused id : trash_check served d w writer refused id = None → may_go d w id.
Proof.
  unfold trash_check. destruct (refused_as refused id); [done|]. cbv zeta. destruct (if holdsWorkspace d writer w then _ else _); [done|]. apply trash_may.
Qed.
Lemma filter_elem (f : string → bool) ids id : id ∈ List.filter f ids ↔ id ∈ ids ∧ f id = true.
Proof. rewrite !list_elem_of_In, List.filter_In. done. Qed.
Lemma filter_distinct (f : string → bool) ids : NoDup ids → NoDup (List.filter f ids).
Proof. rewrite !NoDup_ListNoDup. apply List.NoDup_filter. Qed.
Lemma find_first (f : string → bool) l a : List.find f l = Some a → ∃ l1 l2, l = l1 ++ a :: l2 ∧ f a = true ∧ ∀ x, x ∈ l1 → f x = false.
Proof.
  induction l as [|x l IH]; cbn; [done|]. destruct (f x) eqn:E.
  - intros [= ->]. exists [], l. split_and!; [done|done|]. by intros y ?%elem_of_nil.
  - intros (l1 & l2 & -> & Ha & Hn)%IH. exists (x :: l1), l2. split_and!; [done|done|]. by intros y [->|Hy%Hn]%elem_of_cons.
Qed.
Lemma uncovered d passed id c : walk d id = Some c → covered_by d passed id = None → ∀ a, a ∈ ancestorIds c → a ∉ passed.
Proof. unfold covered_by. intros -> H a Ha Hp. apply list_elem_of_In in Ha. apply (List.find_none _ _ H) in Ha. by apply bool_decide_eq_false in Ha. Qed.
(** The outermost of the request's items above one goes itself. *)
Lemma cover_goes d w passed id b c : (∀ x, x ∈ passed → may_go d w x) → walk d id = Some c → covered_by d passed id = Some b → b ∈ ancestorIds c ∧ b ∈ passed ∧ covered_by d passed b = None.
Proof.
  intros Hp Hc H. unfold covered_by in H. rewrite Hc in H. destruct (find_first _ _ _ H) as (l1 & l2 & E & Hb%bool_decide_eq_true & Hn). assert (b ∈ ancestorIds c) as Hin by (rewrite E; apply elem_of_app; right; by left).
  split_and!; [done|done|]. destruct (Hp b Hb) as (cb & Hcb & _). unfold covered_by. rewrite Hcb. destruct (List.find _ (ancestorIds cb)) as [x|] eqn:Ex; [|done]. exfalso.
  apply List.find_some in Ex as [Hx%list_elem_of_In Hxp]. assert (ancestorIds cb = l1) as E1.
  { destruct (walk_path _ _ _ Hc) as (Hq & _), (walk_path _ _ _ Hcb) as (Hqb & _). rewrite E in Hq. destruct (path_split _ _ _ _ _ Hq) as [H1 _]. by apply (path_unique _ _ _ _ Hqb H1). }
  rewrite E1 in Hx. rewrite (Hn x Hx) in Hxp. done.
Qed.
Lemma moved_going now d check passed numbers ids : moved_of (map (λ id, (id, trash_outcome now d check passed numbers id)) ids) =
  List.filter (λ id, bool_decide (covered_by d passed id = None)) (List.filter (λ id, bool_decide (check id = None)) ids).
Proof.
  induction ids as [|id ids IH]; [done|]. unfold moved_of in *. cbn [map omap list_omap List.filter fst snd]. unfold trash_outcome at 1. destruct (check id); [by rewrite bool_decide_eq_false_2|].
  rewrite bool_decide_eq_true_2 by done. cbn [List.filter]. destruct (covered_by d passed id); [by rewrite bool_decide_eq_false_2|]. rewrite bool_decide_eq_true_2 by done. by f_equal.
Qed.
(** What a batch that commits did. *)
Lemma trashNodes_is now served seen w ids writer d d1 outcomes : trashNodes now served seen w ids writer d = Ok (d1, outcomes) → let going := moved_of outcomes in
  NoDup going ∧ (∀ id, id ∈ going → ∃ c, walk d id = Some c ∧ may_go d w id ∧ ∀ a, a ∈ ancestorIds c → a ∉ going) ∧
  (∃ seq, ∀ id, Db.nodes d1 !! id = match refused_as (numbered_from going seq) id with Some s => mark_one (Some now) s <$> Db.nodes d !! id | None => Db.nodes d !! id end) ∧
  ∀ id o, (id, o) ∈ outcomes → (∃ r, o = trash_refused r) ∨ id ∈ going ∨ ∃ b c, o = trash_covered b ∧ b ∈ going ∧ walk d id = Some c ∧ b ∈ ancestorIds c.
Proof.
  intros H. unfold trashNodes in H. not_refused H E1. not_refused H E2. apply bool_decide_eq_true in E2. cbv zeta in H. destruct (_ && _).
  - injection H as <- <-. assert (moved_of (map (λ e, (e.1, trash_refused e.2)) (refused_before served seen w writer ids)) = []) as Em.
    { generalize (refused_before served seen w writer ids). intros l. induction l as [|x l IH]; [done|exact IH]. }
    cbv zeta. rewrite Em. split_and!; [constructor|by intros ? ?%elem_of_nil|by exists 0|]. intros id o ([x r] & [= -> ->] & _)%list_elem_of_fmap. left. by exists r.
  - set (refused := refused_before served seen w writer ids) in H. clearbody refused. unfold trash_batch in H. apply bind_ok in H as ([d0 s] & H0 & H). pose proof (next_nodes _ _ _ _ _ _ H0) as En. assert (∀ x, walk d0 x = walk d x) as Ew by by apply walk_nodes. cbv zeta in H.
    set (check := trash_check served d0 w writer refused) in H. set (passed := List.filter _ ids) in H. set (going := List.filter _ passed) in H. injection H as <- <-. cbv zeta. rewrite moved_going. fold passed. fold going.
    assert (∀ x, x ∈ passed → may_go d0 w x) as Hmay by (intros x [_ Hx%bool_decide_eq_true]%filter_elem; by eapply check_may).
    assert (∀ x, may_go d0 w x → may_go d w x) as Hd by (intros x (c & Hc & Hx); exists c; by rewrite <-Ew).
    assert (NoDup going) as Hnd by by apply filter_distinct, filter_distinct. split_and!; [done| | |].
    + intros id [Hid Hcov%bool_decide_eq_true]%filter_elem. destruct (Hmay id Hid) as (c & Hc & Hx). exists c. split_and!; [by rewrite <-Ew|apply Hd; by exists c|].
      intros a Ha [Hap _]%filter_elem. by apply (uncovered d0 passed id c Hc Hcov a Ha).
    + exists s. intros id. rewrite markTrashed_row by done. by rewrite batch_nodes, En.
    + intros id o [Hid ->]%answers_in. unfold trash_outcome. destruct (check id) as [r|] eqn:Ek; [left; by exists r|]. right.
      assert (id ∈ passed) as Hpa by (apply filter_elem; split; [done|by apply bool_decide_eq_true]). destruct (covered_by d0 passed id) as [b|] eqn:Ecov.
      * right. destruct (Hmay id Hpa) as (c & Hc & _). destruct (cover_goes d0 w passed id b c Hmay Hc Ecov) as (Hb & Hbp & Hbc). exists b, c. split_and!; [done| |by rewrite <-Ew|done].
        apply filter_elem. split; [done|by apply bool_decide_eq_true].
      * left. apply filter_elem. split; [done|by apply bool_decide_eq_true].
Qed.
Lemma marked_alike d d1 ids seq at_ :
  (∀ id, Db.nodes d1 !! id = match refused_as (numbered_from ids seq) id with Some s => mark_one at_ s <$> Db.nodes d !! id | None => Db.nodes d !! id end) →
  map_Forall2 (λ _ n x, same_place n x ∧ Node.purgedAt x = Node.purgedAt n) (Db.nodes d) (Db.nodes d1).
Proof. intros H id. rewrite H. destruct (refused_as _ id), (Db.nodes d !! id); by constructor. Qed.
(** What went, once there: in the trash, and free to come back. *)
Lemma gone_back d d1 w going seq at_ id c : (∀ x X, Db.nodes d !! x = Some X → Node.trashedAt X = None → Node.removedAt X = None) →
  (∀ x, Db.nodes d1 !! x = match refused_as (numbered_from going seq) x with Some s => mark_one (Some at_) s <$> Db.nodes d !! x | None => Db.nodes d !! x end) →
  id ∈ going → walk d id = Some c → may_go d w id → (∀ a, a ∈ ancestorIds c → a ∉ going) →
  ∃ c1, walk d1 id = Some c1 ∧ restoreRefusal (Some c1) w = None ∧ Walk.trashedAncestors c1 = [].
Proof.
  intros Hrem Hrow Hid Hc (c0 & Hc0 & Hw & Hp & Ht & _) Hno. assert (c0 = c) as -> by congruence. destruct (walk_marked _ _ _ _ (marked_alike _ _ _ _ _ Hrow) Hc) as (c1 & Hc1 & Ea & Ep).
  pose proof (λ x X, untrashed d id c x X Hc Ht) as Hlive.
  destruct (walk_spec _ _ _ Hc) as (_ & HN & _), (walk_spec _ _ _ Hc1) as (_ & HN1 & _). exists c1. split_and!; [done| |].
  - destruct (proj2 (numbered_iff going seq id) Hid) as [s Es]. rewrite Hrow, Es, HN in HN1. injection HN1 as HN1. unfold restoreRefusal. rewrite Ep, Hp, <-HN1. cbn. rewrite Hw, (bool_decide_eq_true_2 (w = w)) by done.
    rewrite (Hrem id _ HN); [by cbn|]. apply (Hlive id); [apply itself_in|done].
  - apply elem_of_nil_inv. intros a Ha. apply (trashed_above _ _ _ _ Hc1) in Ha as (Ha & A & HA & HtA). rewrite Ea in Ha. rewrite Hrow in HA. rewrite not_numbered in HA by by apply Hno.
    rewrite (Hlive a A) in HtA; [by destruct HtA|apply elem_of_app; by left|done].
Qed.

(** C20. A selection moved to the trash, and Undo: every item not refused is in
    the trash after the first, on its own or with a folder of the selection;
    restoring what moved brings all of it back, and leaves every row of the
    table as it was but for the change numbers. *)
Theorem trash_undone now served seen w ids writer d d1 outcomes now' writer' d2 answers :
  (∀ id N, Db.nodes d !! id = Some N → Node.trashedAt N = None → Node.removedAt N = None) →
  trashNodes now served seen w ids writer d = Ok (d1, outcomes) → restoreNodes now' w (moved_of outcomes) writer' d1 = Ok (d2, answers) →
  (∀ id o, (id, o) ∈ outcomes → (∃ r, o = trash_refused r) ∨ ∃ c, walk d1 id = Some c ∧ Walk.trashed c = true) ∧
  map fst answers = moved_of outcomes ∧ (∀ id a, (id, a) ∈ answers → ∃ s, a = restored s) ∧
  ∀ id, (λ n, with_seq n None) <$> Db.nodes d2 !! id = (λ n, with_seq n None) <$> Db.nodes d !! id.
Proof.
  intros Hrem (Hnd & Hgo & (seq & Hrow) & Hout)%trashNodes_is (_ & seq2 & -> & Hrow2)%restoreNodes_is. set (going := moved_of outcomes) in *.
  assert (∀ id, id ∈ going → id ∈ coming_back d1 w going) as Hback.
  { intros id Hid. destruct (Hgo id Hid) as (c & Hc & Hm & Hno). destruct (gone_back d d1 w going seq now id c Hrem Hrow Hid Hc Hm Hno) as (c1 & Hc1 & Hr & Et).
    apply coming_back_iff. split; [done|]. exists c1. rewrite Et. split_and!; [done|done|]. by intros a ?%elem_of_nil. }
  assert (∀ x c, x ∈ going → walk d x = Some c → ∃ X, Db.nodes d1 !! x = Some X ∧ is_Some (Node.trashedAt X)) as Hin.
  { intros x c Hx Hc. destruct (walk_spec _ _ _ Hc) as (_ & HN & _). destruct (proj2 (numbered_iff going seq x) Hx) as [s Es]. rewrite Hrow, Es, HN. eexists. by split. }
  split_and!.
  - intros id o Ho. destruct (Hout id o Ho) as [?|[Hid|(b & c & _ & Hb & Hc & Hup)]]; [by left| |]; right.
    + destruct (Hgo id Hid) as (c & Hc & _). destruct (walk_marked _ _ _ _ (marked_alike _ _ _ _ _ Hrow) Hc) as (c1 & Hc1 & Ea & _). destruct (Hin id c Hid Hc) as (X & HX & Ht).
      exists c1. split; [done|]. apply (walk_trashed _ _ _ Hc1). exists id, X. split_and!; [apply itself_in|done|done].
    + destruct (Hgo b Hb) as (cb & Hcb & _). destruct (walk_marked _ _ _ _ (marked_alike _ _ _ _ _ Hrow) Hc) as (c1 & Hc1 & Ea & _). destruct (Hin b cb Hb Hcb) as (X & HX & Ht).
      exists c1. split; [done|]. apply (walk_trashed _ _ _ Hc1). exists b, X. rewrite Ea. split_and!; [apply elem_of_app; by left|done|done].
  - rewrite map_map. apply map_id.
  - intros id a [Hid ->]%answers_in. destruct (proj2 (numbered_iff (coming_back d1 w going) seq2 id) (Hback id Hid)) as [s Es]. exists s. by apply outcome_restored.
  - intros id. rewrite Hrow2, Hrow. destruct (decide (id ∈ going)) as [Hid|Hno].
    + destruct (proj2 (numbered_iff (coming_back d1 w going) seq2 id) (Hback id Hid)) as [s2 ->]. destruct (proj2 (numbered_iff going seq id) Hid) as [s ->]. destruct (Hgo id Hid) as (c & Hc & (c0 & Hc0 & _ & _ & Ht & _) & _).
      assert (c0 = c) as -> by congruence. destruct (walk_spec _ _ _ Hc) as (_ & HN & _). rewrite HN. cbn. f_equal. pose proof (untrashed d id c id _ Hc Ht (itself_in _ _) HN).
      destruct (Walk.node c). cbn in *. by subst.
    + rewrite (not_numbered (coming_back d1 w going)), (not_numbered going) by (done || by intros [? _]%coming_back_iff). done.
Qed.

Definition as_option {A} (r : result A) : option A := match r with Ok a => Some a | Err _ => None end.
(** A folder in another, the inner one named first, to the trash and back. *)
Module TrashToy.
Definition folder_in (parent : string) : Node.t := Node.Build_t "w" (Some parent) folder 2 1 false 1 None None None 1 (Some 1) None None.
Definition start : Db.t := set_nodes DriveToy.start {["r" := DriveToy.root; "c" := folder_in "r"; "b" := folder_in "c"; "a" := folder_in "r"]}.
(** The inner one trashed by itself before, and both restored at once. *)
Definition both : Db.t := markTrashed ["b"; "c"] 2 (Some 5) start.
End TrashToy.
Lemma toy_removed : ∀ id N, Db.nodes TrashToy.start !! id = Some N → Node.trashedAt N = None → Node.removedAt N = None.
Proof.
  intros id N HN. cbn in HN. repeat (apply lookup_insert_Some in HN as [[_ <-]|[_ HN]]; [done|]). by apply lookup_singleton_Some in HN as [_ <-].
Qed.
Lemma restore_batch_exact_witness : ∃ d' answers, restoreNodes 6 "w" ["b"; "c"] "a" TrashToy.both = Ok (d', answers) ∧ answers = [("b", restored 3); ("c", restored 2)] ∧ map fst answers = ["b"; "c"].
Proof.
  destruct (restoreNodes 6 "w" ["b"; "c"] "a" TrashToy.both) as [[d' answers]|] eqn:E; [|by vm_compute in E]. exists d', answers.
  split_and!; [done| |exact (proj1 (restore_batch_exact 6 "w" ["b"; "c"] "a" TrashToy.both d' answers E))].
  assert (snd <$> as_option (restoreNodes 6 "w" ["b"; "c"] "a" TrashToy.both) = Some [("b", restored 3); ("c", restored 2)]) as E' by by vm_compute. rewrite E in E'. by injection E'.
Defined.
Lemma trash_undone_witness : ∃ d1 outcomes d2 answers, trashNodes 5 (λ _, false) TrashToy.start "w" ["b"; "a"; "c"] "a" TrashToy.start = Ok (d1, outcomes) ∧ outcomes = [("b", trash_covered "c"); ("a", trash_moved 5 2); ("c", trash_moved 5 3)] ∧
  restoreNodes 6 "w" (moved_of outcomes) "a" d1 = Ok (d2, answers) ∧ map fst answers = ["a"; "c"] ∧ (λ n, with_seq n None) <$> Db.nodes d2 !! "c" = (λ n, with_seq n None) <$> Db.nodes TrashToy.start !! "c".
Proof.
  destruct (trashNodes 5 (λ _, false) TrashToy.start "w" ["b"; "a"; "c"] "a" TrashToy.start) as [[d1 outcomes]|] eqn:E1; [|by vm_compute in E1]. exists d1, outcomes.
  assert (snd <$> as_option (trashNodes 5 (λ _, false) TrashToy.start "w" ["b"; "a"; "c"] "a" TrashToy.start) = Some [("b", trash_covered "c"); ("a", trash_moved 5 2); ("c", trash_moved 5 3)]) as Ho by by vm_compute.
  assert (is_Some (as_option (trashNodes 5 (λ _, false) TrashToy.start "w" ["b"; "a"; "c"] "a" TrashToy.start) ≫= λ x, as_option (restoreNodes 6 "w" ["a"; "c"] "a" x.1))) as Hr by (vm_compute; eauto).
  rewrite E1 in Ho, Hr. cbn in Ho, Hr. injection Ho as ->. cbn [moved_of omap list_omap fst snd]. destruct (restoreNodes 6 "w" ["a"; "c"] "a" d1) as [[d2 answers]|] eqn:E2; [|by destruct Hr]. exists d2, answers.
  destruct (trash_undone 5 (λ _, false) TrashToy.start "w" ["b"; "a"; "c"] "a" TrashToy.start d1 _ 6 "a" d2 answers toy_removed E1 E2) as (_ & Hf & _ & Hrow). by split_and!.
Defined.
