(* ===== verification/DriveWhole.v ===== *)
(** * A whole Drive server (packages/db/src/drive.ts)

    The requests of [DriveReached] and of [DriveTrees] in one run: those that
    shape the tree move no bytes, so through any run of both the accounts stay
    exact and the nodes stay a forest. *)

From S2P Require Import Prelude DriveTables Pool DriveUploads DrivePurges DriveAccounting DriveAlike DriveBalance DriveReached DriveTree DriveForest DriveGrows DriveTrees.

Implicit Types (d : Db.t).

(** ** Requests that move no bytes *)

(** Bytes as they were: what is stored, of which versions, by which uploads. *)
Record same_bytes d d' : Prop := {
  sb_storage : Db.storage d' = Db.storage d; sb_versions : Db.versions d' = Db.versions d; sb_objects : Db.objects d' = Db.objects d;
  sb_deletions : Db.deletions d' = Db.deletions d; sb_uploads : Db.uploads d' = Db.uploads d;
}.
#[export] Instance same_bytes_preorder : PreOrder same_bytes.
Proof. split; [done|intros ??? [] []; split; congruence]. Qed.
(** One write of such a request: rows marked or hung elsewhere, or a folder made. *)
Inductive shapes d : Db.t → Prop :=
  | sh_rows d' : same_bytes d d' → map_Forall2 (λ _, same_node_row) (Db.nodes d) (Db.nodes d') → shapes d d'
  | sh_folder id N : Db.nodes d !! id = None → Node.currentVersionId N = None → shapes d (set_nodes d (<[id := N]> (Db.nodes d))).
Lemma shapes_bytes d d' : rtc shapes d d' → same_bytes d d'.
Proof. intros H. induction H as [d|d1 d2 d3 H _ IH]; [done|]. etrans; [|exact IH]. by destruct H. Qed.
Lemma shapes_altered d f k : (∀ n, same_node_row n (f n)) → rtc shapes d (set_nodes d (alter f k (Db.nodes d))).
Proof. intros H. apply rtc_once, sh_rows; [done|]. apply rows_alter. intros x _. apply H. Qed.
Lemma shapes_raised d anc h : rtc shapes d (raiseHeightBounds anc h d).
Proof. apply rtc_once, sh_rows; [done|]. apply (al_nodes _ _ (alike_raise (map Ancestor.id anc) h d)). Qed.
Lemma shapes_beside d d' : same_bytes d d' → Db.nodes d' = Db.nodes d → rtc shapes d d'.
Proof. intros H E. apply rtc_once, sh_rows; [done|]. rewrite E. apply rows_refl. Qed.
Lemma shapes_next now w writer d d' s : nextChangeSeq now w writer d = Ok (d', s) → rtc shapes d d'.
Proof. intros [v ->]%next_is. by apply shapes_beside. Qed.
Lemma shapes_marked ids at_ : ∀ seq d, rtc shapes d (markTrashed ids seq at_ d).
Proof. induction ids as [|id ids IH]; intros seq d; cbn; [done|]. etrans; [|apply IH]. by apply shapes_altered. Qed.
Lemma shapes_batch ids seq at_ w count d : rtc shapes d (markTrashed ids seq at_ (if 1 <? count then moreChangeSeqs w (count - 1) d else d)).
Proof. etrans; [|apply shapes_marked]. destruct (1 <? count); [by apply shapes_beside|done]. Qed.

Section requests.
Context `{SB : SignedBy}.

Lemma create_one_shapes w f seq created d d' made : create_one w f seq created d = inr (d', made) → rtc shapes d d'.
Proof.
  intros H. unfold create_one in H. cbv zeta in H. destruct (parent_made _ _ _ _); [done|]. destruct (_ <? _); [done|]. destruct (negb _); [done|]. destruct (negb _); [done|].
  destruct (insert_node _ _ d) as [d1|] eqn:Hi; [|done]. apply insert_node_is in Hi as [Hid ->]. injection H as <- _. eapply rtc_l; [|apply shapes_raised]. by apply sh_folder.
Qed.
Lemma create_each_shapes w folders : ∀ seq created d d', create_each w folders seq created d = inr d' → rtc shapes d d'.
Proof.
  induction folders as [|f folders IH]; intros seq created d d' H; cbn in H; [by injection H as <-|]. destruct (create_one w f seq created d) as [|[d1 made]] eqn:H1; [done|].
  etrans; [by eapply create_one_shapes|by eapply IH].
Qed.
Lemma createFolders_shapes now w user folders d d' r : createFolders now w user folders d = Ok (d', r) → rtc shapes d d'.
Proof.
  intros H. unfold createFolders, transactionKeeping in H. apply bind_ok in H as ([d1 r1] & H1 & H). injection H as <- <-. destruct r1 as [|seq]; [done|]. cbn.
  unfold createFoldersOnce in H1. apply bind_ok in H1 as ([d0 n] & H0 & H1). etrans; [by eapply shapes_next|]. cbv zeta in H1. apply bind_ok in H1 as (signed & _ & H1). destruct signed; [|done]. cbn in H1.
  set (d2 := if 1 <? _ then moreChangeSeqs w _ d0 else d0) in H1. destruct (create_each w folders n ∅ d2) as [[]|d3] eqn:H3; [done|]. injection H1 as <- _.
  etrans; [|by eapply create_each_shapes]. unfold d2. destruct (1 <? _); [by apply shapes_beside|done].
Qed.
Lemma renameNode_shapes now i d d' r : renameNode now i d = Ok (d', r) → rtc shapes d d'.
Proof.
  intros H. unfold renameNode in H. apply bind_ok in H as ([d0 n] & H0 & H). etrans; [by eapply shapes_next|]. destruct (node_in _ _ _) as [c|]; [|by injection H as <- _]. destruct (Walk.trashed c); [by injection H as <- _|].
  apply bind_ok in H as (signed & _ & H). destruct (negb signed); [by injection H as <- _|]. destruct (Db.nodes d0 !! Rename.nodeId i) as [N|] eqn:HN; [|by injection H as <- _].
  destruct (_ && _); injection H as <- _; [|done]. apply rtc_once, sh_rows; [done|]. by eapply rows_insert.
Qed.
Lemma moveNode_shapes now w writer n p e d d' r : moveNode now w writer n p e d = Ok (d', r) → rtc shapes d d'.
Proof.
  intros H. unfold moveNode in H. apply bind_ok in H as ([d0 seq] & H0 & H). etrans; [by eapply shapes_next|]. cbv zeta in H. destruct (node_in d0 w n) as [c|]; [|by injection H as <- _].
  repeat match type of H with
  | (if ?b then _ else _) = _ => destruct b; [by injection H as <- _|]
  | match walked ?a ?b ?c ?k with _ => _ end = _ => destruct (walked a b c k) as [t|]; [|by injection H as <- _]
  end.
  injection H as <- _. etrans; [|apply shapes_raised]. by apply shapes_altered.
Qed.
Lemma trashNodes_shapes now served seen w ids writer d d' r : trashNodes now served seen w ids writer d = Ok (d', r) → rtc shapes d d'.
Proof.
  intros H. unfold trashNodes in H. not_refused H E1. not_refused H E2. cbv zeta in H. destruct (_ && _); [by injection H as <- _|].
  unfold trash_batch in H. apply bind_ok in H as ([d0 s] & H0 & H). etrans; [by eapply shapes_next|]. injection H as <- _. apply shapes_batch.
Qed.
Lemma removeNode_shapes now w n d d' r : removeNode now w n d = Ok (d', r) → rtc shapes d d'.
Proof.
  intros H. unfold removeNode in H. apply bind_ok in H as ([d0 s] & H0 & H). etrans; [by eapply shapes_next|]. destruct (node_in _ _ _) as [c|]; [|by injection H as <- _].
  case_bool_decide; injection H as <- _; [done|]. set (d1 := set_nodes d0 _). transitivity d1; [by apply shapes_altered|by apply shapes_beside].
Qed.
Lemma restoreNode_shapes now w writer n t d d' r : restoreNode now w writer n t d = Ok (d', r) → rtc shapes d d'.
Proof.
  intros H. unfold restoreNode in H. apply bind_ok in H as ([d0 s] & H0 & H). etrans; [by eapply shapes_next|]. destruct (walk d0 n) as [c|]; [|by injection H as <- _]. destruct (restoreRefusal _ _); [by injection H as <- _|].
  case_bool_decide; [injection H as <- _; exact (shapes_marked [n] None s d0)|]. destruct (restore_to_root _ _ _ _ _ _) as [|dr] eqn:Hr; injection H as <- _; [done|].
  unfold restore_to_root in Hr. destruct t as [t|]; [|done]. destruct (walk d0 (Walk.rootId c)) as [root|]; [|done]. destruct (underUnrotatedParent _ _ _); [done|]. destruct (negb _); [done|]. destruct (_ <? _); [done|]. injection Hr as <-.
  set (d1 := set_nodes d0 _). transitivity d1; [apply shapes_altered; by split|]. case_match; [apply shapes_raised|done].
Qed.
Lemma run_tree_shapes now q d d' u : run_tree now q d = Ok (d', u) → rtc shapes d d'.
Proof.
  intros H. destruct q; cbn [run_tree] in H; apply forget_ok in H as (a & H).
  - by eapply createFolders_shapes.
  - by eapply renameNode_shapes.
  - by eapply moveNode_shapes.
  - unfold trashNode in H. apply bind_ok in H as ([d0 s] & H0 & H). etrans; [by eapply shapes_next|]. destruct (trashRefusal _ _); injection H as <- _; [done|exact (shapes_marked [nodeId] (Some now) s d0)].
  - by eapply trashNodes_shapes.
  - by eapply removeNode_shapes.
  - by eapply restoreNode_shapes.
  - unfold restoreNodes in H. not_refused H E1. not_refused H E2. apply bind_ok in H as ([d0 s] & H0 & H). etrans; [by eapply shapes_next|]. injection H as <- _. apply shapes_batch.
Qed.
End requests.

(** ** One run of all of them *)

Lemma shapes_step `{SB : SignedBy} d d' : rtc shapes d d' → rtc step d d'.
Proof.
  intros H. induction H as [d|d1 d2 d3 H _ IH]; [done|]. eapply rtc_l; [|exact IH]. destruct H as [d2 [] Hn|id N Hid Hc]; [|by apply step_folder].
  apply step_other; [|by apply unnamed_named, named_same]. constructor; [done|done|..]; rewrite ?sb_versions0, ?sb_objects0, ?sb_uploads0; apply rows_refl.
Qed.
(** A workspace opened has its storage's row and its top folder; what else writes leaves accounts and places alike. *)
Inductive server_step `{SB : SignedBy} d : Db.t → Prop :=
  | sv_bytes now q : fitting d q → server_step d (serve now q d)
  | sv_shape now q : server_step d (transaction (run_tree now q) d).1
  | sv_opened w quota : nothing_in d w → server_step d (set_storage d (<[w := Storage.Build_t quota 0 0]> (Db.storage d)))
  | sv_top n N : Db.nodes d !! n = None → Node.parentId N = None → Node.kind N = folder → Node.heightBound N = 0 → Node.currentVersionId N = None →
      server_step d (set_nodes d (<[n := N]> (Db.nodes d)))
  | sv_other d' : alike d d' → named_alike d d' → map_Forall2 (λ _, same_place) (Db.nodes d) (Db.nodes d') → server_step d d'.
Lemma server_step_both `{SB : SignedBy} d d' : server_step d d' → rtc step d d' ∧ tree_step d d'.
Proof.
  intros [now q Hf|now q|w quota Hw|n N Hn Hp Hk Hh Hc|d2 Ha Hna Hr].
  - split; [by apply rtc_once, step_served|apply ts_moved_bytes].
  - split; [|apply ts_shaped]. apply transaction_keeps; [done|]. intros d2 u H. by eapply shapes_step, run_tree_shapes.
  - split; [by apply rtc_once, step_opened|]. apply ts_other. cbn. apply rows_refl.
  - split; [by apply rtc_once, step_folder|by apply ts_top].
  - split; [by apply rtc_once, step_other|by apply ts_other].
Qed.

(** A server begun with empty tables, through any run of all its
    transactions, those that move bytes and those that shape the tree: each
    workspace's storage row is exactly its versions' bytes and its uploads'
    reservations, the nightly check finds nothing, and every node is walked to
    a root, a folder within [MAX_DEPTH] and a file within one more. *)
Theorem server_sound `{SB : SignedBy} d0 d : blank d0 → Db.nodes d0 = ∅ → rtc server_step d0 d →
  auditUsage d = [] ∧
  (∀ w S, Db.storage d !! w = Some S → Storage.usedBytes S = computed_usage d w ∧ Storage.reservedBytes S = computed_reserved d w) ∧
  ∀ n N, Db.nodes d !! n = Some N → ∃ c, walk d n = Some c ∧ Walk.depth c ≤ depth_of (Node.kind N).
Proof.
  intros Hb E H. assert (rtc step d0 d ∧ rtc tree_step d0 d) as [Hs Ht].
  { clear Hb E. induction H as [d|d1 d2 d3 H _ [IHs IHt]]; [done|]. destruct (server_step_both d1 d2 H) as [H1 H2]. split; [by etrans|by eapply rtc_l]. }
  pose proof (reached_ok d0 d Hb Hs) as Ha. split_and!.
  - by apply audit_clean.
  - intros w S HS. split; [by apply (ac_used _ Ha)|by apply (ac_reserved _ Ha)].
  - intros n N HN. by apply walked_to_root with (1 := tree_reached d0 d E Ht).
Qed.
Lemma toy_blank_none : blank TreeToy.none.
Proof. split_and!; try done; intros k x Hk; cbn in Hk; by apply lookup_singleton_Some in Hk as [_ <-]. Qed.
Lemma toy_server_run : rtc (server_step (SB := TreeToy.signed)) TreeToy.none TreeToy.moved.
Proof.
  apply (rtc_l _ _ TreeToy.top); [by apply (sv_top (SB := TreeToy.signed) TreeToy.none "r" DriveToy.root)|]. apply (rtc_l _ _ TreeToy.made); [apply (sv_shape (SB := TreeToy.signed) TreeToy.top 5 TreeToy.makes_three)|].
  apply rtc_once, (sv_shape (SB := TreeToy.signed) TreeToy.made 6 (moves "w" (Some "a") "b" "c" 4)).
Qed.
Lemma server_sound_witness : auditUsage TreeToy.moved = [] ∧ ∃ c, walk TreeToy.moved "b" = Some c ∧ Walk.depth c ≤ MAX_DEPTH.
Proof.
  destruct (Db.nodes TreeToy.moved !! "b") as [N|] eqn:HN; [|by vm_compute in HN]. assert (Node.kind N = folder) as Ek by (vm_compute in HN; by injection HN as <-).
  destruct (server_sound (SB := TreeToy.signed) TreeToy.none TreeToy.moved toy_blank_none eq_refl toy_server_run) as (Ha & _ & Hw). split; [exact Ha|].
  destruct (Hw "b" N HN) as (c & Hc & Hd). exists c. rewrite Ek in Hd. by split.
Defined.
