(* ===== verification/DriveRotations.v ===== *)
(** * Subtree key rotations on the Drive server (packages/db/src/rotations.ts)

    A rotation of a workspace's folder: started at a target epoch, its nodes
    re-keyed one transaction each, parents first, and finished when none is
    left to visit. The columns that hold no key of the accounts or the tree
    (records, previous epochs, grants' epochs) stand beside the tables in
    [Keys]; keys' own envelopes, which nothing here reads, are left out. *)

From S2P Require Import Prelude Base64url Bytes Canonical HChaCha Crypto Content Envelopes Signatures RotationRecords ServerSignatures.
From S2P Require Import DriveTables Pool DriveUploads.

Definition SHARE_ENVELOPE_BYTES : Z := 4565.
(** [currentSigningKey]: none without an identity, and an old one throws. *)
Class SigningKeys := currentSigningKey : string → result (option bytes).

(** ** Rows beside the tables *)

(** The lengths are the envelopes': they name a share's suite. *)
Module ShareRow.
Record t := { granterUserId : string; keyEpoch : Z; envelopeBytes : Z; previous : option (Z * Z) }.
End ShareRow.
Module LinkRow.
Record t := { workspaceId : string; granterUserId : string; tokenHash : bytes; keyEpoch : Z; hasPassword : bool; expiresAt : option Z }.
End LinkRow.
(** A drop kept as evidence. *)
Module Drop.
Record t := {
  workspaceId : string; nodeId : string; versionId : option string; metadataVersion : option Z; dropped : Dropped.t; previousKeyEpoch : Z;
  droppedBy : string; targetEpoch : Z;
}.
End Drop.
(** [prevEpochs]: a reached node's key epoch and its parent's before the rotation
    ([Node.reached] says whether it has one). [droppers]: a
    record's first dropped signer and who dropped it, by node or version. [areaVersions]: a group
    area's key version. [due]: the areas whose roster has a rotation to make. *)
Module Keys.
Record t := {
  db : Db.t; metadata : gmap string StoredRecord.t; versions : gmap string StoredRecord.t; prevEpochs : gmap string (Z * Z);
  droppers : gmap string (string * string); drops : list Drop.t; shareRows : gmap string ShareRow.t; linkRows : gmap string LinkRow.t;
  areaVersions : gmap string Z; due : gset string;
}.
End Keys.
Definition set_db (k : Keys.t) (d : Db.t) : Keys.t :=
  Keys.Build_t d (Keys.metadata k) (Keys.versions k) (Keys.prevEpochs k) (Keys.droppers k) (Keys.drops k) (Keys.shareRows k) (Keys.linkRows k) (Keys.areaVersions k) (Keys.due k).

(** ** What a rotation is asked *)

Module StartRotation.
Record t := { workspaceId : string; nodeId : string; startedBy : option string; targetEpoch : option Z; byRoster : bool }.
End StartRotation.
Inductive StartOutcome := started (r : Rotation.t) | start_active (r : Rotation.t) | start_not_found | start_stale.
Module RotationInput.
Record t := { workspaceId : string; rootId : string; targetEpoch : Z; userId : string; byRoster : bool }.
End RotationInput.
Module RotatedVersionIn.
Record t := { id : string; contentKeyEnvelope : bytes; sent : RotatedRecordSignatures.t }.
End RotatedVersionIn.
(** [shares]: each with its new envelope's length. *)
Module RotatedRecords.
Record t := {
  metadataEnvelope : bytes; metadata : RotatedRecordSignatures.t; versions : list RotatedVersionIn.t; shares : list (string * Z);
  links : list string; unsealableLinks : list string;
}.
End RotatedRecords.
Module RotatedNodeInput.
Record t := { id : string; changeSeq : Z; parentKeyEpoch : Z; rotated : option RotatedRecords.t }.
End RotatedNodeInput.
Inductive RotateOutcome :=
  | rotate_ok | rotate_stale | rotate_not_found | rotate_parent_not_ready | rotate_already | rotate_bad_signature | rotate_unsupported | rotate_forbidden.
#[export] Instance RotateOutcome_eq_dec : EqDecision RotateOutcome.
Proof. solve_decision. Defined.

(** ** Change numbers, as a roster takes them *)

Definition requireStillWriterAs (roster : bool) (now : Z) (d : Db.t) (workspaceId writer : string) (groupId : option string) : result unit :=
  match groupId with
  | None => Ok tt
  | Some g =>
      refuse ACCESS_HELD when negb roster && heldIn now d g writer ;;
      if holdsWorkspace d writer workspaceId then Ok tt
      else refuse ACCESS_ENDED unless
        any (λ s, (Share.workspaceId s === workspaceId) && (Share.granteeUserId s === writer) && (Share.role s === editor) && negb (Share.revoked s)) (Db.shares d) ;;
        Ok tt
  end.
Definition nextChangeSeqAs (roster : bool) (now : Z) (workspaceId : string) (writer : option string) (d : Db.t) : result (Db.t * Z) :=
  match Db.workspaces d !! workspaceId with
  | None => Err NO_WORKSPACE
  | Some w =>
      let d := set_workspaces d (<[workspaceId := bump w 1]> (Db.workspaces d)) in
      let* _ := match writer with Some writer => requireStillWriterAs roster now d workspaceId writer (Workspace.groupId w) | None => Ok tt end in
      Ok (d, Workspace.changeSeq w + 1)
  end.
Definition in_group_area (d : Db.t) (workspaceId : string) : bool := bool_decide (is_Some (Db.workspaces d !! workspaceId ≫= Workspace.groupId)).
Definition grantedByMember (d : Db.t) (granter workspaceId : string) : bool :=
  match Db.workspaces d !! workspaceId with
  | Some w =>
      match Workspace.groupId w with
      | None => true
      | Some g => match People.memberships (Db.people d) !! (g, granter) with Some m => Membership.active m | None => false end
      end
  | None => false
  end.

(** ** Started *)

(** Before a rotation under way reached the node. *)
Definition previous_epoch (k : Keys.t) (id : string) (n : Node.t) : Z :=
  if Node.reached n then match Keys.prevEpochs k !! id with Some (epoch, _) => epoch | None => 0 end else 0.
(** The highest epoch a node of the workspace carries, now or before a rotation reached it. *)
Definition carried_epoch (k : Keys.t) (workspaceId : string) : Z :=
  foldr (λ e top, if Node.workspaceId e.2 === workspaceId
    then Z.max top (Z.max (Node.keyEpoch e.2) (previous_epoch k e.1 e.2)) else top)
    0 (map_to_list (Db.nodes (Keys.db k))).
Definition set_rotations (d : Db.t) (v : gmap string Rotation.t) : Db.t :=
  Db.Build_t (Db.workspaces d) (Db.storage d) (Db.nodes d) (Db.versions d) (Db.objects d) (Db.deletions d) (Db.uploads d) (Db.shares d) (Db.links d) v (Db.people d).
Definition with_epochs (w : Workspace.t) (seq : Z) : Workspace.t :=
  Workspace.Build_t (Workspace.changeSeq w) seq (Workspace.groupId w) (Workspace.deletedAt w) (Workspace.tombstonesDroppedThrough w).
Definition start_at (i : StartRotation.t) (targetEpoch : Z) (k : Keys.t) (d : Db.t) : Keys.t * StartOutcome :=
  let r := Rotation.Build_t (StartRotation.nodeId i) targetEpoch in
  (set_db k (set_rotations d (<[StartRotation.workspaceId i := r]> (Db.rotations d))), started r).
Definition startRotationIn (now : Z) (i : StartRotation.t) (k : Keys.t) : result (Keys.t * StartOutcome) :=
  let workspaceId := StartRotation.workspaceId i in
  let* (d, _) := nextChangeSeqAs (StartRotation.byRoster i) now workspaceId (StartRotation.startedBy i) (Keys.db k) in
  let answer s := Ok (set_db k d, s) in
  match walk d (StartRotation.nodeId i) with
  | None => answer start_not_found
  | Some chain =>
      if (Node.workspaceId (Walk.node chain) !== workspaceId) || Walk.purged chain then answer start_not_found
      else match Db.rotations d !! workspaceId with
      | Some active => answer (start_active active)
      | None =>
          match StartRotation.targetEpoch i, Db.workspaces d !! workspaceId with
          | None, Some w =>
              let seq := Workspace.keyEpochSeq w + 1 in
              Ok (start_at i seq k (set_workspaces d (<[workspaceId := with_epochs w seq]> (Db.workspaces d))))
          | None, None => answer start_not_found
          | Some target, Some w =>
              if (Workspace.keyEpochSeq w <? target) || (target <=? carried_epoch (set_db k d) workspaceId) then answer start_stale
              else Ok (start_at i target k d)
          | Some _, None => answer start_stale
          end
      end
  end.

(** ** What is left to visit *)

Definition children (m : gmap string Node.t) (id : string) : list string :=
  elements (dom (filter (λ e, Node.parentId e.2 = Some id ∧ Node.purgedAt e.2 = None) m)).
(** The nodes below, a level at a time: the queries stop 64 down. *)
Definition SUBTREE_LEVELS : nat := 64.
Fixpoint levels (m : gmap string Node.t) (fuel : nat) (depth : Z) (level : list string) : list (string * Z) :=
  map (λ id, (id, depth)) level ++
  match fuel with O => [] | S fuel => levels m fuel (depth + 1) (level ≫= children m) end.
Definition subtree (m : gmap string Node.t) (rootId : string) : list (string * Z) :=
  match m !! rootId with Some _ => levels m SUBTREE_LEVELS 0 [rootId] | None => [] end.
Definition unvisited (m : gmap string Node.t) (targetEpoch : Z) (row : string * Z) : bool :=
  match m !! row.1 with
  | Some n => bool_decide (Node.purgedAt n = None) && ((Node.keyEpoch n <? targetEpoch) || ((0 <? row.2) && (Node.parentKeyEpoch n <? targetEpoch)))
  | None => false
  end.
(** All its pages, a depth at a time; the order of ids within a depth is not kept. *)
Definition listRotationWork (d : Db.t) (workspaceId rootId : string) (targetEpoch : Z) : list (string * Z) :=
  match Db.nodes d !! rootId with
  | Some root => if Node.workspaceId root === workspaceId then List.filter (unvisited (Db.nodes d) targetEpoch) (levels (Db.nodes d) SUBTREE_LEVELS 0 [rootId]) else []
  | None => []
  end.

(** ** One node *)

(** What refuses a node before its key is looked at: the parent it is to be wrapped under. *)
Definition parent_refusal (k : Keys.t) (d : Db.t) (i : RotationInput.t) (item : RotatedNodeInput.t) (n : Node.t) : option RotateOutcome :=
  let group := in_group_area d (RotationInput.workspaceId i) in
  let parent := Node.parentId n ≫= λ p, Db.nodes d !! p in
  if RotatedNodeInput.id item !== RotationInput.rootId i then
    match parent with
    | None => Some rotate_parent_not_ready
    | Some p =>
        if Node.keyEpoch p <? RotationInput.targetEpoch i then Some rotate_parent_not_ready
        else if negb (Node.keyEpoch p =? RotatedNodeInput.parentKeyEpoch item) then Some rotate_stale else None
    end
  else if bool_decide (Node.parentId n = None) then
    if group && negb (RotationInput.byRoster i) then Some rotate_forbidden
    else if group && negb (bool_decide (Keys.areaVersions k !! RotationInput.workspaceId i = Some (RotatedNodeInput.parentKeyEpoch item))) then Some rotate_stale
    else None
  else match parent with
  | None => Some rotate_stale
  | Some p => if negb (Node.keyEpoch p =? RotatedNodeInput.parentKeyEpoch item) then Some rotate_stale else None
  end.
Definition with_wrap (n : Node.t) (parentKeyEpoch changeSeq : Z) : Node.t := with_seq (with_parent n (Node.parentId n) parentKeyEpoch) (Some changeSeq).
Definition with_node_key (n : Node.t) (keyEpoch parentKeyEpoch changeSeq : Z) : Node.t :=
  Node.Build_t (Node.workspaceId n) (Node.parentId n) (Node.kind n) keyEpoch parentKeyEpoch true (Node.metadataVersion n) (Node.currentVersionId n) (Node.trashedAt n)
    (Node.removedAt n) (Node.heightBound n) (Some changeSeq) (Node.purgedAt n) (Node.purgedAncestorIds n).
Module ReadyVersion.
Record t := { id : string; objectId : string; contentSuite : Z; stored : StoredRecord.t }.
End ReadyVersion.
Definition no_record : StoredRecord.t := StoredRecord.Build_t None None None None None None None None.
Definition ready_versions (k : Keys.t) (d : Db.t) (nodeId : string) : list ReadyVersion.t :=
  omap (λ e, if bool_decide (Version.nodeId e.2 = nodeId) && (Version.status e.2 === version_ready) then
      o ← Version.objectId e.2; object ← Db.objects d !! o;
      Some (ReadyVersion.Build_t e.1 o (Obj.contentSuite object) (default no_record (Keys.versions k !! e.1)))
    else None) (map_to_list (Db.versions d)).
(** Exactly the ready versions, each once. *)
Definition versions_match (sent : list RotatedVersionIn.t) (ready : list ReadyVersion.t) : bool :=
  bool_decide (NoDup (map RotatedVersionIn.id sent)) && (Z.of_nat (length sent) =? Z.of_nat (length ready)) &&
  forallb (λ r, bool_decide (ReadyVersion.id r ∈ map RotatedVersionIn.id sent)) ready.

Section rotate.
Context `{C : Crypto} `{NC : NodeCrypto} `{SK : SigningKeys}.

Definition kind_of (k : DriveTables.NodeKind) : Signatures.NodeKind := match k with folder => Folder | file => File end.
Definition refused_by (r : CheckRefusal) : RotateOutcome := match r with check_bad_signature => rotate_bad_signature | check_unsupported => rotate_unsupported end.
Definition check_against (stored : StoredRecord.t) (sent : RotatedRecordSignatures.t) (key : bytes) (i : RotationInput.t) (group : bool) (statement : RecordStatement)
    (envelope : bytes) : RotateOutcome + SignedRecord.t :=
  match checkRotatedRecord stored sent key (RotationInput.userId i) (rekeyedFor (if group then owner_group else owner_personal)) group (server_signed statement) envelope
    (server_rekeyed statement (RotationInput.targetEpoch i) envelope) with
  | inl r => inl (refused_by r)
  | inr signed => inr signed
  end.
(** Each version checked, in the order sent: with its row. *)
Fixpoint check_versions (key : bytes) (i : RotationInput.t) (nodeId : string) (group : bool) (ready : list ReadyVersion.t) (sent : list RotatedVersionIn.t)
    : RotateOutcome + list (RotatedVersionIn.t * ReadyVersion.t * SignedRecord.t) :=
  match sent with
  | [] => inr []
  | v :: rest =>
      match List.find (λ r, ReadyVersion.id r === RotatedVersionIn.id v) ready with
      | None => inl rotate_stale
      | Some row =>
          let statement := VersionRecord_ (VersionStatement.Build_t (RotationInput.workspaceId i) nodeId (RotatedVersionIn.id v) (ReadyVersion.objectId row) (ReadyVersion.contentSuite row)) in
          match check_against (ReadyVersion.stored row) (RotatedVersionIn.sent v) key i group statement (RotatedVersionIn.contentKeyEnvelope v) with
          | inl r => inl r
          | inr signed => match check_versions key i nodeId group ready rest with inl r => inl r | inr out => inr ((v, row, signed) :: out) end
          end
      end
  end.

(** *** What is written *)

(** A record's first drop counts. *)
Definition note_drop (id userId : string) (signed : SignedRecord.t) (m : gmap string (string * string)) : gmap string (string * string) :=
  match SignedRecord.dropped signed, m !! id with Some d, None => <[id := (Dropped.signerId d, userId)]> m | _, _ => m end.
Definition drop_row (i : RotationInput.t) (nodeId : string) (n : Node.t) (versionId : option string) (signed : SignedRecord.t) : list Drop.t :=
  match SignedRecord.dropped signed with
  | Some d => [Drop.Build_t (RotationInput.workspaceId i) nodeId versionId match versionId with None => Some (Node.metadataVersion n) | Some _ => None end d (Node.keyEpoch n)
      (RotationInput.userId i) (RotationInput.targetEpoch i)]
  | None => []
  end.
Definition store_version (userId : string) (m : gmap string StoredRecord.t) (v : RotatedVersionIn.t * ReadyVersion.t * SignedRecord.t) : gmap string StoredRecord.t :=
  <[RotatedVersionIn.id v.1.1 := stored_after userId (RotatedVersionIn.contentKeyEnvelope v.1.1) v.2]> m.
Definition resealed_share (targetEpoch bytes_ : Z) (g : ShareRow.t) : ShareRow.t :=
  ShareRow.Build_t (ShareRow.granterUserId g) targetEpoch bytes_
    (Some match ShareRow.previous g with Some p => p | None => (ShareRow.keyEpoch g, ShareRow.envelopeBytes g) end).
Definition resealed_link (targetEpoch : Z) (g : LinkRow.t) : LinkRow.t :=
  LinkRow.Build_t (LinkRow.workspaceId g) (LinkRow.granterUserId g) (LinkRow.tokenHash g) targetEpoch (LinkRow.hasPassword g) (LinkRow.expiresAt g).
(** The shares sealed again: only suite 4 is written. *)
Definition seal_share (d : Db.t) (nodeId : string) (targetEpoch : Z) (rows : gmap string ShareRow.t) (share : string * Z) : gmap string ShareRow.t :=
  match Db.shares d !! share.1, rows !! share.1 with
  | Some s, Some g =>
      if (share.2 =? SHARE_ENVELOPE_BYTES) && (Share.nodeId s === nodeId) && negb (Share.revoked s) && grantedByMember d (ShareRow.granterUserId g) (Share.workspaceId s)
      then <[share.1 := resealed_share targetEpoch share.2 g]> rows else rows
  | _, _ => rows
  end.
Definition seal_link (d : Db.t) (nodeId : string) (targetEpoch : Z) (rows : gmap string LinkRow.t) (id : string) : gmap string LinkRow.t :=
  match Db.links d !! id, rows !! id with
  | Some l, Some g =>
      if (Link.nodeId l === nodeId) && grantedByMember d (LinkRow.granterUserId g) (LinkRow.workspaceId g) then <[id := resealed_link targetEpoch g]> rows else rows
  | _, _ => rows
  end.
Definition stays_sealed (epoch : option Z) (targetEpoch : Z) : bool := match epoch with Some e => targetEpoch <=? e | None => false end.
(** Anything still under the old key is revoked, with the links its owner could not seal. *)
Definition revoke_unsealed (nodeId : string) (targetEpoch : Z) (unsealable : list string) (shareRows : gmap string ShareRow.t) (linkRows : gmap string LinkRow.t) (d : Db.t) : Db.t :=
  set_grants d
    (map_imap (λ id s, Some (if (Share.nodeId s === nodeId) && negb (stays_sealed (ShareRow.keyEpoch <$> shareRows !! id) targetEpoch) then revoke_share s else s)) (Db.shares d))
    (map_imap (λ id l, Some (if (Link.nodeId l === nodeId) && (bool_decide (id ∈ unsealable) || negb (stays_sealed (LinkRow.keyEpoch <$> linkRows !! id) targetEpoch)) then revoke_link l else l)) (Db.links d)).
Definition write_rotated (i : RotationInput.t) (item : RotatedNodeInput.t) (rotated : RotatedRecords.t) (n : Node.t) (changeSeq : Z) (metadata : SignedRecord.t)
    (versions : list (RotatedVersionIn.t * ReadyVersion.t * SignedRecord.t)) (k : Keys.t) (d : Db.t) : Keys.t :=
  let id := RotatedNodeInput.id item in
  let target := RotationInput.targetEpoch i in
  let user := RotationInput.userId i in
  let d := set_nodes d (<[id := with_node_key n target (RotatedNodeInput.parentKeyEpoch item) changeSeq]> (Db.nodes d)) in
  let shareRows := foldl (seal_share d id target) (Keys.shareRows k) (RotatedRecords.shares rotated) in
  let linkRows := foldl (seal_link d id target) (Keys.linkRows k) (RotatedRecords.links rotated) in
  Keys.Build_t (revoke_unsealed id target (RotatedRecords.unsealableLinks rotated) shareRows linkRows d)
    (<[id := stored_after user (RotatedRecords.metadataEnvelope rotated) metadata]> (Keys.metadata k))
    (foldl (store_version user) (Keys.versions k) versions)
    (if Node.reached n && bool_decide (is_Some (Keys.prevEpochs k !! id)) then Keys.prevEpochs k else <[id := (Node.keyEpoch n, Node.parentKeyEpoch n)]> (Keys.prevEpochs k))
    (foldl (λ m v, note_drop (RotatedVersionIn.id v.1.1) user v.2 m) (note_drop id user metadata (Keys.droppers k)) versions)
    (Keys.drops k ++ drop_row i id n None metadata ++ (versions ≫= λ v, drop_row i id n (Some (RotatedVersionIn.id v.1.1)) v.2))
    shareRows linkRows (Keys.areaVersions k) (Keys.due k).
Definition rotate_records (i : RotationInput.t) (item : RotatedNodeInput.t) (rotated : RotatedRecords.t) (n : Node.t) (changeSeq : Z) (k : Keys.t) (d : Db.t)
    : result (Keys.t * RotateOutcome) :=
  let id := RotatedNodeInput.id item in
  let group := in_group_area d (RotationInput.workspaceId i) in
  let answer r := Ok (set_db k d, r) in
  let ready := ready_versions k d id in
  if negb (versions_match (RotatedRecords.versions rotated) ready) then answer rotate_stale
  else
    let* key := currentSigningKey (RotationInput.userId i) in
    match key with
    | None => answer rotate_bad_signature
    | Some key =>
        let statement := MetadataRecord (MetadataStatement.Build_t (RotationInput.workspaceId i) id (kind_of (Node.kind n)) (Node.metadataVersion n)) in
        match check_against (default no_record (Keys.metadata k !! id)) (RotatedRecords.metadata rotated) key i group statement (RotatedRecords.metadataEnvelope rotated) with
        | inl r => answer r
        | inr metadata =>
            match check_versions key i id group ready (RotatedRecords.versions rotated) with
            | inl r => answer r
            | inr versions => Ok (write_rotated i item rotated n changeSeq metadata versions k d, rotate_ok)
            end
        end
    end.
Definition rotateNodeIn (now : Z) (i : RotationInput.t) (item : RotatedNodeInput.t) (k : Keys.t) : result (Keys.t * RotateOutcome) :=
  let workspaceId := RotationInput.workspaceId i in
  let id := RotatedNodeInput.id item in
  let target := RotationInput.targetEpoch i in
  let* (d, changeSeq) := nextChangeSeqAs (RotationInput.byRoster i) now workspaceId (Some (RotationInput.userId i)) (Keys.db k) in
  let answer r := Ok (set_db k d, r) in
  match Db.rotations d !! workspaceId with
  | None => answer rotate_not_found
  | Some rotation =>
      if (Rotation.nodeId rotation !== RotationInput.rootId i) || negb (Rotation.targetEpoch rotation =? target) then answer rotate_not_found
      else match Db.nodes d !! id with
      | None => answer rotate_not_found
      | Some n =>
          if (Node.workspaceId n !== workspaceId) || bool_decide (is_Some (Node.purgedAt n)) then answer rotate_not_found
          else if bool_decide (Node.changeSeq n ≠ Some (RotatedNodeInput.changeSeq item)) then answer rotate_stale
          else match parent_refusal k d i item n with
          | Some r => answer r
          | None =>
              match target <=? Node.keyEpoch n, RotatedNodeInput.rotated item with
              | true, Some _ | false, None => answer rotate_stale
              | true, None =>
                  if target <=? Node.parentKeyEpoch n then answer rotate_already
                  else Ok (set_db k (set_nodes d (<[id := with_wrap n (RotatedNodeInput.parentKeyEpoch item) changeSeq]> (Db.nodes d))), rotate_ok)
              | false, Some rotated => rotate_records i item rotated n changeSeq k d
              end
          end
      end
  end.

(** Each in a transaction of its own: one that throws ends the request, with those before it kept. *)
Fixpoint rotateNodes (now : Z) (i : RotationInput.t) (items : list RotatedNodeInput.t) (k : Keys.t) : Keys.t * result (list (string * RotateOutcome)) :=
  match items with
  | [] => (k, Ok [])
  | item :: rest =>
      match rotateNodeIn now i item k with
      | Err e => (k, Err e)
      | Ok (k, r) =>
          let '(k, out) := rotateNodes now i rest k in
          (k, let* out := out in Ok ((RotatedNodeInput.id item, r) :: out))
      end
  end.
End rotate.

(** ** Finished *)

Definition with_reached (n : Node.t) : Node.t :=
  Node.Build_t (Node.workspaceId n) (Node.parentId n) (Node.kind n) (Node.keyEpoch n) (Node.parentKeyEpoch n) false (Node.metadataVersion n) (Node.currentVersionId n)
    (Node.trashedAt n) (Node.removedAt n) (Node.heightBound n) (Node.changeSeq n) (Node.purgedAt n) (Node.purgedAncestorIds n).
Definition clear_previous (ids : list string) (k : Keys.t) (d : Db.t) : Keys.t :=
  Keys.Build_t (set_nodes d (map_imap (λ id n, Some (if bool_decide (id ∈ ids) then with_reached n else n)) (Db.nodes d))) (Keys.metadata k) (Keys.versions k)
    (filter (λ e, e.1 ∉ ids) (Keys.prevEpochs k)) (Keys.droppers k) (Keys.drops k)
    (map_imap (λ id g, Some match Db.shares d !! id with
      | Some s => if bool_decide (Share.nodeId s ∈ ids) then ShareRow.Build_t (ShareRow.granterUserId g) (ShareRow.keyEpoch g) (ShareRow.envelopeBytes g) None else g
      | None => g end) (Keys.shareRows k))
    (Keys.linkRows k) (Keys.areaVersions k) (Keys.due k).
(** [seen]: what its first look, a transaction of its own, found left. *)
Definition finishRotation (now : Z) (workspaceId rootId : string) (targetEpoch : Z) (seen : Db.t) (k : Keys.t) : result (Keys.t * bool) :=
  if negb (bool_decide (listRotationWork seen workspaceId rootId targetEpoch = [])) then Ok (k, false)
  else
    let* (d, _) := nextChangeSeq now workspaceId None (Keys.db k) in
    match Db.rotations d !! workspaceId with
    | None => Ok (set_db k d, false)
    | Some rotation =>
        if Rotation.nodeId rotation !== rootId then Ok (set_db k d, false)
        else
          let k := clear_previous (map fst (subtree (Db.nodes d) rootId)) k d in
          Ok (set_db k (set_rotations (Keys.db k) (delete workspaceId (Db.rotations d))), true)
    end.
