(* ===== verification/DriveWork.v ===== *)
(** * What a subtree rotation visits and leaves (packages/db/src/rotations.ts)

    Theorems of [DriveRotations]: what a node answered [ok] is left as, what
    any other answer leaves, the work a batch takes off the list, and that a
    client which answers the list's first node each time drains it, so that
    the rotation finishes with every node it can reach re-keyed. *)

From S2P Require Import Prelude Base64url Bytes Canonical HChaCha Crypto Content Envelopes Signatures RotationRecords ServerSignatures.
From S2P Require Import DriveTables Pool DriveUploads DrivePurges DriveAccounting DriveAlike DriveBalance DriveReached DriveTree DriveForest DriveGrows DriveTrees DriveRotations.

Implicit Types (d : Db.t) (m : gmap string Node.t) (k : Keys.t) (i : RotationInput.t) (item : RotatedNodeInput.t).

(** ** Below a node *)

Definition hangs m (a b : string) : Prop := ∃ B, m !! b = Some B ∧ Node.parentId B = Some a ∧ Node.purgedAt B = None.
(** [c] is [n] levels below [a], through nodes that are not purged. *)
Inductive below m : nat → string → string → Prop :=
  | below_here a : below m 0 a a
  | below_child n a b c : hangs m a b → below m n b c → below m (S n) a c.

Lemma children_spec m a b : b ∈ children m a ↔ hangs m a b.
Proof.
  unfold children, hangs. rewrite elem_of_elements, elem_of_dom. split.
  - intros [B HB]. apply map_lookup_filter_Some in HB as [HB [? ?]]. eauto.
  - intros (B & HB & ? & ?). exists B. by apply map_lookup_filter_Some.
Qed.
Lemma levels_spec m fuel : ∀ depth level c D, (c, D) ∈ levels m fuel depth level ↔
  ∃ a n, a ∈ level ∧ below m n a c ∧ (n ≤ fuel)%nat ∧ D = depth + Z.of_nat n.
Proof.
  induction fuel as [|fuel IH]; intros depth level c D; cbn [levels]; rewrite elem_of_app, list_elem_of_fmap.
  - split; [intros [(a & [= -> ->] & Ha)|H%elem_of_nil]; [|done]|].
    + exists a, 0%nat. split_and!; [done|constructor|lia|lia].
    + intros (a & n & Ha & Hb & Hn & ->). left. inversion Hb; subst; [|lia]. exists c. split; [f_equal; lia|done].
  - rewrite IH. split.
    + intros [(a & [= -> ->] & Ha)|(b & n & Hb & Hc & Hn & ->)]; [exists a, 0%nat; split_and!; [done|constructor|lia|lia]|].
      apply list_elem_of_bind in Hb as (a & Hb & Ha). apply children_spec in Hb. exists a, (S n). split_and!; [done|by econstructor|lia|lia].
    + intros (a & n & Ha & Hb & Hn & ->). inversion Hb as [|n' ? b ? Hab Hbc]; subst; [left; exists c; split; [f_equal; lia|done]|right].
      exists b, n'. split_and!; [|done|lia|lia]. apply list_elem_of_bind. exists a. by rewrite children_spec.
Qed.
(** A level's nodes come after their parents. *)
Lemma levels_parent_first m fuel : ∀ depth level l1 c D l2, levels m fuel depth level = l1 ++ (c, D) :: l2 → depth < D → ∃ p, hangs m p c ∧ (p, D - 1) ∈ l1.
Proof.
  induction fuel as [|fuel IH]; intros depth level l1 c D l2 E HD; cbn [levels] in E.
  - rewrite app_nil_r in E. assert ((c, D) ∈ map (λ id, (id, depth)) level) as (x & [= -> ->] & _)%list_elem_of_fmap by (rewrite E; apply elem_of_app; right; by left). lia.
  - assert (∃ l1', l1 = map (λ id, (id, depth)) level ++ l1' ∧ levels m fuel (depth + 1) (level ≫= children m) = l1' ++ (c, D) :: l2) as (l1' & -> & E').
    { apply app_eq_app in E as (l & [[E E']|[E E']]); [|by exists l]. destruct l as [|r l]; [exists []; rewrite app_nil_r in E; rewrite app_nil_r; by split|]. exfalso. injection E' as <- E'.
      assert ((c, D) ∈ map (λ id, (id, depth)) level) as (x & [= -> ->] & _)%list_elem_of_fmap by (rewrite E; apply elem_of_app; right; by left). lia. }
    destruct (decide (D = depth + 1)) as [->|Hne].
    + assert ((c, depth + 1) ∈ levels m fuel (depth + 1) (level ≫= children m)) as Hin by (rewrite E'; apply elem_of_app; right; by left).
      apply levels_spec in Hin as (b & n & Hb & Hbc & Hn & En). assert (n = 0%nat) as -> by lia. inversion Hbc; subst. apply list_elem_of_bind in Hb as (a & Hb & Ha). apply children_spec in Hb.
      exists a. split; [done|]. apply elem_of_app. left. apply list_elem_of_fmap. exists a. split; [f_equal; lia|done].
    + assert ((c, D) ∈ levels m fuel (depth + 1) (level ≫= children m)) as (a & n & _ & _ & _ & ->)%levels_spec by (rewrite E'; apply elem_of_app; right; by left).
      destruct (IH _ _ _ _ _ _ E' ltac:(lia)) as (p & Hp & Hin). exists p. split; [done|]. apply elem_of_app. by right.
Qed.

(** Rows hung and purged as before have the same levels. *)
Definition hung_same m m' : Prop := ∀ a, (λ N, (Node.parentId N, Node.purgedAt N)) <$> m' !! a = (λ N, (Node.parentId N, Node.purgedAt N)) <$> m !! a.
Lemma hung_same_hangs m m' a b : hung_same m m' → hangs m' a b ↔ hangs m a b.
Proof.
  intros H. specialize (H b). unfold hangs. destruct (m !! b) as [B|], (m' !! b) as [B'|]; try done; cbn in H; injection H as E1 E2.
  split; intros (X & [= <-] & ? & ?); eexists; (split; [done|split; congruence]).
Qed.
Lemma children_same m m' a : hung_same m m' → children m' a = children m a.
Proof.
  intros H. unfold children. f_equal. apply leibniz_equiv. intros b. rewrite !elem_of_dom. pose proof (hung_same_hangs m m' a b H) as E. unfold hangs in E.
  split; intros [B HB]; apply map_lookup_filter_Some in HB as [HB [? ?]]; [destruct (proj1 E) as (B' & ? & ? & ?)|destruct (proj2 E) as (B' & ? & ? & ?)]; eauto; exists B'; by apply map_lookup_filter_Some.
Qed.
Lemma levels_same m m' fuel : hung_same m m' → ∀ depth level, levels m' fuel depth level = levels m fuel depth level.
Proof.
  intros H. induction fuel as [|fuel IH]; intros depth level; cbn [levels]; [done|]. f_equal. rewrite IH. f_equal. induction level as [|a level IHl]; [done|]. cbn. f_equal; [by apply children_same|done].
Qed.
Lemma hung_same_insert m id n n' : m !! id = Some n → Node.parentId n' = Node.parentId n → Node.purgedAt n' = Node.purgedAt n → hung_same m (<[id := n']> m).
Proof. intros Hn E1 E2 a. rewrite lookup_insert. case_decide as E; [subst a; rewrite Hn; cbn; by rewrite E1, E2|done]. Qed.

Lemma below_linked m n a c : below m n a c → ∃ rest, linked m (Some a) rest ∧ length rest = n ∧ default a (last rest) = c.
Proof.
  induction 1 as [a|n a b c (B & HB & EB & _) _ (rest & Hl & <- & E)]; [by exists []|]. exists (b :: rest). split; [cbn; split; [by exists B|done]|]. split; [done|]. rewrite last_cons. by destruct (last rest).
Qed.
Lemma below_path m n a c ids : below m n a c → path m ids a → ∃ ids' rest, path m ids' c ∧ ids' ++ [c] = ids ++ a :: rest ∧ length rest = n.
Proof.
  intros (rest & Hl & El & E)%below_linked Hp. assert (linked m None ((ids ++ [a]) ++ rest)) as H by (apply linked_app; rewrite last_snoc; by split).
  destruct rest as [|b rest] using rev_ind; [cbn in E; subst c; by exists ids, []|clear IHrest]. rewrite last_snoc in E. cbn in E. subst b. exists (ids ++ a :: rest), (rest ++ [c]).
  unfold path. rewrite <-(app_assoc ids). cbn [app]. rewrite <-(app_assoc ids) in H. split; [exact H|by split].
Qed.
(** In a forest nothing is below itself, and a node is at one distance. *)
Lemma below_once m n a c : forest m → is_Some (m !! a) → below m n a c → ∀ n', below m n' a c → n' = n.
Proof.
  intros Hf [A HA] H n' H'. destruct (fo_path _ Hf a A HA) as (ids & Hp & _). destruct (below_path _ _ _ _ _ H Hp) as (l & r & Hl & E & <-). destruct (below_path _ _ _ _ _ H' Hp) as (l' & r' & Hl' & E' & <-).
  rewrite (path_unique _ _ _ _ Hl' Hl), E in E'. apply app_inv_head in E'. by injection E' as ->.
Qed.

(** ** What one node's transaction does *)

Lemma nextAs_is roster now w writer d d' s : nextChangeSeqAs roster now w writer d = Ok (d', s) →
  ∃ W, Db.workspaces d !! w = Some W ∧ s = Workspace.changeSeq W + 1 ∧ d' = set_workspaces d (<[w := bump W 1]> (Db.workspaces d)).
Proof.
  unfold nextChangeSeqAs. intros H. destruct (Db.workspaces d !! w) as [W|]; [|done]. apply bind_ok in H as ([] & _ & H). injection H as <- <-. by exists W.
Qed.

(** What is not a roster's takes its number as every other write does. *)
Lemma nextAs_plain now w writer d : nextChangeSeqAs false now w writer d = nextChangeSeq now w writer d.
Proof. done. Qed.

Section rotate.
Context `{C : Crypto} `{NC : NodeCrypto} `{SK : SigningKeys}.

(** A transaction's end: the change number alone is taken, or the node is written too. *)
Definition only_counted k i k' : Prop := ∃ W, Db.workspaces (Keys.db k) !! RotationInput.workspaceId i = Some W ∧
  k' = set_db k (set_workspaces (Keys.db k) (<[RotationInput.workspaceId i := bump W 1]> (Db.workspaces (Keys.db k)))).
Lemma check_versions_answers key i n group ready sent r : check_versions key i n group ready sent = inl r → r ≠ rotate_ok.
Proof.
  induction sent as [|v sent IH]; cbn; [done|]. destruct (List.find _ _) as [row|]; [|by intros [= <-]]. unfold check_against. destruct (checkRotatedRecord _ _ _ _ _ _ _ _ _) as [e|]; [intros [= <-]; by destruct e|].
  destruct (check_versions _ _ _ _ _ _); [|done]. intros [= <-]. by apply IH.
Qed.
(** Everything a rotated node brings is as the server holds it, and every record of it signed as it asks. *)
Record checked i item (rotated : RotatedRecords.t) (n : Node.t) k d metadata versions : Prop := {
  ch_versions : versions_match (RotatedRecords.versions rotated) (ready_versions k d (RotatedNodeInput.id item)) = true;
  ch_signed : ∃ key, currentSigningKey (RotationInput.userId i) = Ok (Some key) ∧
    check_against (default no_record (Keys.metadata k !! RotatedNodeInput.id item)) (RotatedRecords.metadata rotated) key i (in_group_area d (RotationInput.workspaceId i))
      (MetadataRecord (MetadataStatement.Build_t (RotationInput.workspaceId i) (RotatedNodeInput.id item) (kind_of (Node.kind n)) (Node.metadataVersion n))) (RotatedRecords.metadataEnvelope rotated) = inr metadata ∧
    check_versions key i (RotatedNodeInput.id item) (in_group_area d (RotationInput.workspaceId i)) (ready_versions k d (RotatedNodeInput.id item)) (RotatedRecords.versions rotated) = inr versions;
}.
Lemma rotate_records_lands i item rotated n seq k d metadata versions : checked i item rotated n k d metadata versions →
  rotate_records i item rotated n seq k d = Ok (write_rotated i item rotated n seq metadata versions k d, rotate_ok).
Proof. intros [Hv (key & Hk & Hm & Hs)]. unfold rotate_records. by rewrite Hv, Hk; cbn; rewrite Hm, Hs. Qed.
Lemma rotate_records_ok i item rotated n seq k d k' r : rotate_records i item rotated n seq k d = Ok (k', r) →
  (r ≠ rotate_ok ∧ k' = set_db k d) ∨ (r = rotate_ok ∧ ∃ metadata versions, checked i item rotated n k d metadata versions ∧ k' = write_rotated i item rotated n seq metadata versions k d).
Proof.
  unfold rotate_records. intros H. destruct (versions_match _ _) eqn:Hv; cbn in H; [|injection H as <- <-; by left]. apply bind_ok in H as (key & Hk & H). destruct key as [key|]; [|injection H as <- <-; by left].
  destruct (check_against _ _ _ _ _ _ _) as [e|metadata] eqn:Hm.
  { injection H as <- <-. left. split; [|done]. unfold check_against in Hm. destruct (checkRotatedRecord _ _ _ _ _ _ _ _ _) as [e'|]; [|done]. injection Hm as <-. by destruct e'. }
  destruct (check_versions _ _ _ _ _ _) as [e|versions] eqn:Hs; injection H as <- <-; [left; split; [by eapply check_versions_answers|done]|right]. split; [done|]. exists metadata, versions. split; [|done]. constructor; eauto.
Qed.

(** A node answered [ok]: whose it is, what it was sent against, and what it is left as. *)
Record node_rotated i item k k' (n n' : Node.t) : Prop := {
  nr_found : Db.nodes (Keys.db k) !! RotatedNodeInput.id item = Some n;
  nr_stored : Db.nodes (Keys.db k') = <[RotatedNodeInput.id item := n']> (Db.nodes (Keys.db k));
  nr_live : Node.purgedAt n = None ∧ Node.workspaceId n = RotationInput.workspaceId i;
  nr_same : Node.purgedAt n' = Node.purgedAt n ∧ same_place n n';
  nr_epochs : RotationInput.targetEpoch i ≤ Node.keyEpoch n' ∧ Node.parentKeyEpoch n' = RotatedNodeInput.parentKeyEpoch item;
  nr_parent : RotatedNodeInput.id item ≠ RotationInput.rootId i →
    ∃ p P, Node.parentId n = Some p ∧ Db.nodes (Keys.db k) !! p = Some P ∧ RotationInput.targetEpoch i ≤ Node.keyEpoch P ∧ Node.keyEpoch P = RotatedNodeInput.parentKeyEpoch item;
  nr_kept : Db.rotations (Keys.db k') = Db.rotations (Keys.db k) ∧ Db.people (Keys.db k') = Db.people (Keys.db k) ∧ Keys.areaVersions k' = Keys.areaVersions k;
  nr_written : Node.keyEpoch n < RotationInput.targetEpoch i → ∃ rotated metadata versions seq d, RotatedNodeInput.rotated item = Some rotated ∧
    only_counted k i (set_db k d) ∧ checked i item rotated n k d metadata versions ∧ k' = write_rotated i item rotated n seq metadata versions k d;
  nr_wrapped : RotationInput.targetEpoch i ≤ Node.keyEpoch n → ∃ seq d, only_counted k i (set_db k d) ∧
    k' = set_db k (set_nodes d (<[RotatedNodeInput.id item := with_wrap n (RotatedNodeInput.parentKeyEpoch item) seq]> (Db.nodes d)));
  nr_target : Db.rotations (Keys.db k) !! RotationInput.workspaceId i = Some (Rotation.Build_t (RotationInput.rootId i) (RotationInput.targetEpoch i));
  nr_counted : ∃ W, Db.workspaces (Keys.db k) !! RotationInput.workspaceId i = Some W ∧ Db.workspaces (Keys.db k') = <[RotationInput.workspaceId i := bump W 1]> (Db.workspaces (Keys.db k));
}.
Lemma rotated_shape now i item k k' r : rotateNodeIn now i item k = Ok (k', r) →
  (r ≠ rotate_ok ∧ only_counted k i k') ∨ (r = rotate_ok ∧ ∃ n n', node_rotated i item k k' n n').
Proof.
  unfold rotateNodeIn. intros H. apply bind_ok in H as ([d seq] & (W & HW & -> & ->)%nextAs_is & H). cbn [Db.rotations Db.nodes set_workspaces] in H.
  set (d := set_workspaces _ _) in H. assert (only_counted k i (set_db k d)) as Hc by by exists W. set (id := RotatedNodeInput.id item) in *.
  destruct (Db.rotations (Keys.db k) !! _) as [rot|] eqn:Hrot; [|injection H as <- <-; by left]. destruct (_ || _) eqn:E1; [injection H as <- <-; by left|]. apply orb_false_iff in E1 as [Er1%negb_false_iff%bool_decide_eq_true Er2%negb_false_iff%Z.eqb_eq].
  assert (Db.rotations (Keys.db k) !! RotationInput.workspaceId i = Some (Rotation.Build_t (RotationInput.rootId i) (RotationInput.targetEpoch i))) as Htarget by (destruct rot; cbn in *; congruence).
  destruct (Db.nodes (Keys.db k) !! id) as [n|] eqn:Hn; [|injection H as <- <-; by left]. destruct (_ || _) eqn:E2; [injection H as <- <-; by left|]. apply orb_false_iff in E2 as [Ew Ep]. apply bool_decide_eq_false in Ep.
  assert (Node.workspaceId n = RotationInput.workspaceId i) as Ew' by by apply negb_false_iff, bool_decide_eq_true in Ew. assert (Node.purgedAt n = None) as Ep' by (destruct (Node.purgedAt n); [by destruct Ep; eauto|done]). clear Ew Ep.
  case_bool_decide as Es; [injection H as <- <-; by left|]. destruct (parent_refusal k d i item n) as [e|] eqn:Hpar.
  { injection H as <- <-. left. split; [|done]. unfold parent_refusal in Hpar. repeat case_match; by simplify_eq. }
  assert (id ≠ RotationInput.rootId i → ∃ p P, Node.parentId n = Some p ∧ Db.nodes (Keys.db k) !! p = Some P ∧ RotationInput.targetEpoch i ≤ Node.keyEpoch P ∧ Node.keyEpoch P = RotatedNodeInput.parentKeyEpoch item) as Hp.
  { intros Hne. unfold parent_refusal in Hpar. cbn in Hpar. fold id in Hpar. rewrite bool_decide_false in Hpar by done. cbn in Hpar. destruct (Node.parentId n) as [p|]; [|done]. cbn in Hpar. destruct (Db.nodes (Keys.db k) !! p) as [P|] eqn:HP; [|done].
    destruct (Z.ltb_spec (Node.keyEpoch P) (RotationInput.targetEpoch i)); [done|]. destruct (Z.eqb_spec (Node.keyEpoch P) (RotatedNodeInput.parentKeyEpoch item)); [|done]. by exists p, P. }
  destruct (Z.leb_spec (RotationInput.targetEpoch i) (Node.keyEpoch n)) as [Hk|Hk], (RotatedNodeInput.rotated item) as [rotated|] eqn:Erot; try (injection H as <- <-; by left).
  - destruct (_ <=? _); [injection H as <- <-; by left|]. injection H as <- <-. right. split; [done|]. exists n, (with_wrap n (RotatedNodeInput.parentKeyEpoch item) (Workspace.changeSeq W + 1)). constructor; try done; [lia| |by exists W]. intros _. by exists (Workspace.changeSeq W + 1), d.
  - apply rotate_records_ok in H as [[? ->]|(-> & metadata & versions & Hch & ->)]; [by left|right]. split; [done|].
    exists n, (with_node_key n (RotationInput.targetEpoch i) (RotatedNodeInput.parentKeyEpoch item) (Workspace.changeSeq W + 1)). constructor; try done; [|lia|by exists W].
    intros _. exists rotated, metadata, versions, (Workspace.changeSeq W + 1), d. by split_and!.
Qed.

(** *** The list it takes a node off *)

Definition work i k : list (string * Z) := listRotationWork (Keys.db k) (RotationInput.workspaceId i) (RotationInput.rootId i) (RotationInput.targetEpoch i).
Definition off (done : list string) (rows : list (string * Z)) : list (string * Z) := List.filter (λ row, bool_decide (row.1 ∉ done)) rows.
Lemma filter_off (f g : string * Z → bool) done l : (∀ r, r ∈ l → f r = g r && bool_decide (r.1 ∉ done)) → List.filter f l = off done (List.filter g l).
Proof.
  unfold off. induction l as [|r l IH]; intros H; [done|]. cbn. rewrite (H r) by left. rewrite IH by (intros r' Hr; apply H; by right). destruct (g r); cbn; [|done]. by destruct (bool_decide _).
Qed.
Lemma off_nil l : off [] l = l.
Proof. unfold off. induction l as [|r l IH]; [done|]. cbn. by rewrite IH. Qed.
Lemma off_off a b l : off b (off a l) = off (a ++ b) l.
Proof. symmetry. apply filter_off. intros r _. rewrite <-bool_decide_and. apply bool_decide_ext. rewrite not_elem_of_app. tauto. Qed.
Lemma off_first r l : (length (off [r.1] (r :: l)) ≤ length l)%nat.
Proof. unfold off. cbn. rewrite bool_decide_false by (intros []; by left). apply filter_length_le. Qed.
Lemma rotated_work i item k k' n n' : forest (Db.nodes (Keys.db k)) → node_rotated i item k k' n n' → work i k' = off [RotatedNodeInput.id item] (work i k).
Proof.
  intros Hf [Hn Hn' _ [Ep [E1 E2 E3 E4]] [Hk Hpk] Hpar _ _ _ _ _]. unfold work, listRotationWork. rewrite Hn'. set (m := Db.nodes (Keys.db k)) in *. set (id := RotatedNodeInput.id item) in *. set (root := RotationInput.rootId i) in *.
  rewrite (levels_same m (<[id := n']> m)) by (by eapply hung_same_insert).
  assert (∀ R, m !! root = Some R → ∀ r, r ∈ levels m SUBTREE_LEVELS 0 [root] →
    unvisited (<[id := n']> m) (RotationInput.targetEpoch i) r = unvisited m (RotationInput.targetEpoch i) r && bool_decide (r.1 ∉ [id])) as Hr.
  { intros R HR [c D] Hin. unfold unvisited. cbn [fst snd]. rewrite lookup_insert. case_decide as E; [subst c|rewrite (bool_decide_true (c ∉ _)), andb_true_r by (by rewrite list_elem_of_singleton); done].
    rewrite (bool_decide_false (id ∉ _)), andb_false_r by (intros []; by left). apply levels_spec in Hin as (a & l & ->%list_elem_of_singleton & Hb & _ & ->).
    rewrite (proj2 (Z.ltb_ge _ _) Hk). cbn. destruct (Z.ltb_spec 0 (0 + Z.of_nat l)) as [Hl|]; cbn; [|by rewrite andb_false_r].
    destruct (decide (id = root)) as [Er|Er].
    - subst id. rewrite Er in Hb. pose proof (below_once m _ _ _ Hf (ex_intro _ R HR) Hb 0 (below_here m root)). lia.
    - destruct (Hpar Er) as (p & P & _ & _ & HP & EP). rewrite Hpk, <-EP. rewrite (proj2 (Z.ltb_ge _ _) HP). by rewrite andb_false_r. }
  rewrite lookup_insert. case_decide as E; [subst id|].
  - rewrite E in Hn. rewrite Hn. rewrite <-E3. destruct (_ === _); [|done]. apply filter_off. by eapply Hr.
  - destruct (m !! root) as [R|] eqn:HR; [|done]. destruct (_ === _); [|done]. apply filter_off. by eapply Hr.
Qed.

(** *** What a rotated node's writes leave *)

Lemma check_versions_ids key i n group ready sent : ∀ versions, check_versions key i n group ready sent = inr versions → map (λ v, RotatedVersionIn.id v.1.1) versions = map RotatedVersionIn.id sent.
Proof.
  induction sent as [|v sent IH]; intros versions; cbn; [by intros [= <-]|]. destruct (List.find _ _) as [row|]; [|done]. destruct (check_against _ _ _ _ _ _ _); [done|]. destruct (check_versions _ _ _ _ _ _) as [|out] eqn:E; [done|].
  intros [= <-]. cbn. f_equal. by apply IH.
Qed.
Lemma stored_versions user versions : ∀ rows id, id ∈ map (λ v, RotatedVersionIn.id v.1.1) versions →
  ∃ rec, foldl (store_version user) rows versions !! id = Some rec ∧ StoredRecord.signerId rec = Some user.
Proof.
  induction versions as [|v versions IH] using rev_ind; intros rows id Hin; [by apply elem_of_nil in Hin|]. rewrite map_app in Hin. rewrite foldl_app. cbn [foldl]. unfold store_version at 1. rewrite lookup_insert. case_decide as E; [by eexists|].
  apply elem_of_app in Hin as [Hin|Hin%list_elem_of_singleton]; [by apply IH|]. by destruct E.
Qed.
(** No grant of the node stays live under an epoch before the target. *)
Definition grants_sealed (id : string) (targetEpoch : Z) k : Prop :=
  (∀ s S, Db.shares (Keys.db k) !! s = Some S → Share.nodeId S = id → Share.revoked S = false → stays_sealed (ShareRow.keyEpoch <$> Keys.shareRows k !! s) targetEpoch = true) ∧
  (∀ l L, Db.links (Keys.db k) !! l = Some L → Link.nodeId L = id → Link.revoked L = false → stays_sealed (LinkRow.keyEpoch <$> Keys.linkRows k !! l) targetEpoch = true).
Lemma written_grants i item rotated n seq metadata versions k d : grants_sealed (RotatedNodeInput.id item) (RotationInput.targetEpoch i) (write_rotated i item rotated n seq metadata versions k d).
Proof.
  split; intros x X; cbn [write_rotated Keys.db revoke_unsealed set_grants Db.shares Db.links Keys.shareRows Keys.linkRows]; rewrite map_lookup_imap; intros H Hx Hr; apply bind_Some in H as (X0 & HX & [= <-]).
  all: destruct (stays_sealed _ _) eqn:E; [done|]; destruct (_ && _) eqn:E2; [done|]; rewrite Hx, bool_decide_true in E2 by done; by rewrite ?orb_true_r in E2.
Qed.
(** Every ready version of the node is stored again, sealed by who rotates. *)
Definition versions_resealed (user id : string) k k' : Prop := ∀ v V o, Db.versions (Keys.db k) !! v = Some V → Version.nodeId V = id → Version.status V = version_ready →
  Version.objectId V = Some o → is_Some (Db.objects (Keys.db k) !! o) → ∃ rec, Keys.versions k' !! v = Some rec ∧ StoredRecord.signerId rec = Some user.
Lemma written_versions i item rotated n seq metadata versions k d : Db.versions d = Db.versions (Keys.db k) → Db.objects d = Db.objects (Keys.db k) → checked i item rotated n k d metadata versions →
  versions_resealed (RotationInput.userId i) (RotatedNodeInput.id item) k (write_rotated i item rotated n seq metadata versions k d).
Proof.
  intros Ev Eo [Hm (key & _ & _ & Hs)] v V o HV Hn Hst Ho [O HO]. cbn [write_rotated Keys.versions]. apply stored_versions. rewrite (check_versions_ids _ _ _ _ _ _ _ Hs).
  unfold versions_match in Hm. bool_simpl. match goal with H : forallb _ _ = true |- _ => rewrite forallb_forall in H; specialize (H (ReadyVersion.Build_t v o (Obj.contentSuite O) (default no_record (Keys.versions k !! v)))); cbn in H; apply bool_decide_eq_true in H end; [done|].
  apply list_elem_of_In. unfold ready_versions. apply list_elem_of_omap. exists (v, V). split; [by apply elem_of_map_to_list; rewrite Ev|]. cbn. rewrite bool_decide_true, (bool_decide_true (Version.status V = _)) by done. cbn. rewrite Ho. cbn. by rewrite Eo, HO.
Qed.
Lemma counted_work i k k' : only_counted k i k' → work i k' = work i k ∧ Db.nodes (Keys.db k') = Db.nodes (Keys.db k).
Proof. by intros (W & _ & ->). Qed.
Lemma rotated_forest i item k k' n n' : forest (Db.nodes (Keys.db k)) → node_rotated i item k k' n n' → forest (Db.nodes (Keys.db k')).
Proof. intros Hf [Hn Hn' _ [_ Hs] _ _ _ _ _ _ _]. rewrite Hn'. eapply forest_rows; [exact Hf|]. by eapply rows_insert. Qed.
Lemma node_work now i item k k' r : forest (Db.nodes (Keys.db k)) → rotateNodeIn now i item k = Ok (k', r) →
  forest (Db.nodes (Keys.db k')) ∧ work i k' = off (if bool_decide (r = rotate_ok) then [RotatedNodeInput.id item] else []) (work i k).
Proof.
  intros Hf H. destruct (rotated_shape _ _ _ _ _ _ H) as [[Hr Hc]|(-> & n & n' & Hn)].
  - destruct (counted_work _ _ _ Hc) as [-> ->]. by rewrite bool_decide_false, off_nil.
  - rewrite bool_decide_true by done. split; [by eapply rotated_forest|by eapply rotated_work].
Qed.
End rotate.

(** ** One node *)

(** C13. A node's transaction either takes a change number and nothing more,
    whatever it refuses, or leaves the node in its place, wrapped under the
    parent's key as sent (at the target, unless it is the rotation's root) and
    at the target itself. A node that was below the target then has no live
    share or link left under an older epoch, every ready version and the
    metadata sealed by who rotates, and the epochs of before its first
    rotation kept. *)
Theorem rotated_or_untouched `{C : Crypto} `{NC : NodeCrypto} `{SK : SigningKeys} now i item k k' r : rotateNodeIn now i item k = Ok (k', r) →
  let id := RotatedNodeInput.id item in
  (r ≠ rotate_ok ∧ only_counted k i k') ∨
  (r = rotate_ok ∧ ∃ n n', Db.nodes (Keys.db k) !! id = Some n ∧ Db.nodes (Keys.db k') = <[id := n']> (Db.nodes (Keys.db k)) ∧ same_place n n' ∧
    RotationInput.targetEpoch i ≤ Node.keyEpoch n' ∧ Node.parentKeyEpoch n' = RotatedNodeInput.parentKeyEpoch item ∧
    (id ≠ RotationInput.rootId i → ∃ p P, Node.parentId n = Some p ∧ Db.nodes (Keys.db k) !! p = Some P ∧ RotationInput.targetEpoch i ≤ Node.keyEpoch P ∧ Node.keyEpoch P = Node.parentKeyEpoch n') ∧
    (Node.keyEpoch n < RotationInput.targetEpoch i → grants_sealed id (RotationInput.targetEpoch i) k' ∧ versions_resealed (RotationInput.userId i) id k k' ∧
      StoredRecord.signerId <$> Keys.metadata k' !! id = Some (Some (RotationInput.userId i)) ∧
      Keys.prevEpochs k' !! id = Some (default (Node.keyEpoch n, Node.parentKeyEpoch n) (if Node.reached n then Keys.prevEpochs k !! id else None)))).
Proof.
  intros H. destruct (rotated_shape _ _ _ _ _ _ H) as [?|(-> & n & n' & [Hn Hn' _ [_ Hs] [Hk Hp] Hpar _ Hw _ _ _])]; [by left|right]. split; [done|]. exists n, n'. rewrite Hp. split_and!; try done.
  intros (rotated & metadata & versions & seq & d & _ & (W & _ & Ed) & Hch & ->)%Hw. apply (f_equal Keys.db) in Ed. cbn in Ed. split_and!; [apply written_grants|apply written_versions; by subst d|cbn; by rewrite lookup_insert_eq|].
  cbn. destruct (Node.reached n); cbn; [|rewrite lookup_insert_eq; done]. case_bool_decide as E; [by destruct E as [x ->]|]. rewrite lookup_insert_eq. by destruct (Keys.prevEpochs k !! _); [destruct E|].
Qed.

(** ** A batch *)

(** C14. A batch takes off the list exactly the nodes it answers [ok], each
    for good, and puts none on it: so a rotation of whatever tree ends after
    as many answered nodes as it listed. One that throws part of the way
    keeps what it did. *)
Theorem batch_work `{C : Crypto} `{NC : NodeCrypto} `{SK : SigningKeys} now i items : ∀ k k' out, forest (Db.nodes (Keys.db k)) → rotateNodes now i items k = (k', out) →
  ∃ done, work i k' = off done (work i k) ∧ done ⊆ map RotatedNodeInput.id items ∧
    ∀ results, out = Ok results → done = map fst (filter (λ e, e.2 = rotate_ok) results) ∧ map fst results = map RotatedNodeInput.id items.
Proof.
  induction items as [|item items IH]; intros k k' out Hf H; cbn in H; [injection H as <- <-; exists []; rewrite off_nil; split_and!; [done|done|by intros ? [= <-]]|].
  destruct (rotateNodeIn now i item k) as [[k1 r]|e] eqn:E; [|injection H as <- <-; exists []; rewrite off_nil; split_and!; [done|apply list_subseteq_nil|done]].
  destruct (node_work _ _ _ _ _ _ Hf E) as [Hf1 Hw1]. destruct (rotateNodes now i items k1) as [k2 out2] eqn:E2. injection H as <- <-. destruct (IH _ _ _ Hf1 E2) as (done & Hw & Hin & Hres).
  set (first := if bool_decide _ then _ else _) in *. exists (first ++ done). split_and!.
  - by rewrite Hw, Hw1, off_off.
  - cbn. intros x [Hx|Hx]%elem_of_app; [|right; by apply Hin]. unfold first in Hx. case_bool_decide; [apply list_elem_of_singleton in Hx as ->; by left|by apply elem_of_nil in Hx].
  - intros results Hr. destruct out2 as [res2|]; [|done]. injection Hr as <-. destruct (Hres _ eq_refl) as [-> Em]. rewrite filter_cons. cbn. rewrite Em. split; [|done]. unfold first. by case_bool_decide; case_decide.
Qed.

(** ** A client that answers the list *)

(** The rotation's own top: neither purged nor, in a group area, the roster's to re-key. *)
Record under_way (now : Z) i k : Prop := {
  uw_rotation : Db.rotations (Keys.db k) !! RotationInput.workspaceId i = Some (Rotation.Build_t (RotationInput.rootId i) (RotationInput.targetEpoch i));
  uw_writer : ∃ W, Db.workspaces (Keys.db k) !! RotationInput.workspaceId i = Some W ∧ match Workspace.groupId W with
    | None => True
    | Some g => (RotationInput.byRoster i = true ∨ heldIn now (Keys.db k) g (RotationInput.userId i) = false) ∧ holdsWorkspace (Keys.db k) (RotationInput.userId i) (RotationInput.workspaceId i) = true
    end;
  uw_root : ∃ R, Db.nodes (Keys.db k) !! RotationInput.rootId i = Some R ∧ Node.workspaceId R = RotationInput.workspaceId i ∧ Node.purgedAt R = None ∧
    (in_group_area (Keys.db k) (RotationInput.workspaceId i) = true → RotationInput.byRoster i = false → Node.parentId R = None → RotationInput.targetEpoch i ≤ Node.keyEpoch R);
}.
Lemma bumped_holds d w W user : Db.workspaces d !! w = Some W → holdsWorkspace (set_workspaces d (<[w := bump W 1]> (Db.workspaces d))) user w = holdsWorkspace d user w.
Proof. intros HW. unfold holdsWorkspace. cbn. by rewrite lookup_insert_eq, HW. Qed.
Lemma bumped_area d w W : Db.workspaces d !! w = Some W → in_group_area (set_workspaces d (<[w := bump W 1]> (Db.workspaces d))) w = in_group_area d w.
Proof. intros HW. unfold in_group_area. cbn. by rewrite lookup_insert_eq, HW. Qed.
Lemma under_way_next now i k : under_way now i k → ∃ W, Db.workspaces (Keys.db k) !! RotationInput.workspaceId i = Some W ∧
  nextChangeSeqAs (RotationInput.byRoster i) now (RotationInput.workspaceId i) (Some (RotationInput.userId i)) (Keys.db k) =
    Ok (set_workspaces (Keys.db k) (<[RotationInput.workspaceId i := bump W 1]> (Db.workspaces (Keys.db k))), Workspace.changeSeq W + 1).
Proof.
  intros [_ (W & HW & Hw) _]. exists W. split; [done|]. unfold nextChangeSeqAs. rewrite HW. cbv zeta. unfold requireStillWriterAs. destruct (Workspace.groupId W) as [g|]; [|done]. destruct Hw as [Hh Hw].
  rewrite (bumped_holds _ _ _ _ HW), Hw. change (heldIn now (set_workspaces _ _) g) with (heldIn now (Keys.db k) g). by destruct Hh as [->| ->]; [|rewrite andb_false_r].
Qed.

Lemma below_hung m n a c : below m n a c → c = a ∧ n = 0%nat ∨ ∃ p, hangs m p c.
Proof. induction 1 as [a|n a b c Hab _ IH]; [by left|right]. destruct IH as [[-> _]|?]; [by exists a|done]. Qed.
Lemma below_workspace m n a c A : forest m → below m n a c → m !! a = Some A → ∃ N, m !! c = Some N ∧ Node.workspaceId N = Node.workspaceId A.
Proof.
  intros Hf H. revert A. induction H as [a|n a b c (B & HB & EB & _) _ IH]; intros A HA; [by exists A|]. destruct (IH B HB) as (N & HN & E). exists N. split; [done|]. destruct (fo_under _ Hf b B a A HB EB HA). congruence.
Qed.
Lemma filter_head {A} (f : A → bool) l x rest : List.filter f l = x :: rest → ∃ l1 l2, l = l1 ++ x :: l2 ∧ f x = true ∧ ∀ y, y ∈ l1 → f y = false.
Proof.
  induction l as [|y l IH]; [done|]. cbn. destruct (f y) eqn:E.
  - intros [= -> _]. exists [], l. split_and!; [done|done|by intros ? ?%elem_of_nil].
  - intros H. destruct (IH H) as (l1 & l2 & -> & Hx & Hl). exists (y :: l1), l2. split_and!; [done|done|]. intros z [->|Hz]%elem_of_cons; [done|by apply Hl].
Qed.
(** The list's first node is one whose parent is done. *)
Lemma work_first now i k c D rest : forest (Db.nodes (Keys.db k)) → under_way now i k → work i k = (c, D) :: rest →
  ∃ N, Db.nodes (Keys.db k) !! c = Some N ∧ Node.workspaceId N = RotationInput.workspaceId i ∧ Node.purgedAt N = None ∧
    (Node.keyEpoch N < RotationInput.targetEpoch i ∨ c ≠ RotationInput.rootId i ∧ Node.parentKeyEpoch N < RotationInput.targetEpoch i) ∧
    (c ≠ RotationInput.rootId i → ∃ p P, Node.parentId N = Some p ∧ Db.nodes (Keys.db k) !! p = Some P ∧ RotationInput.targetEpoch i ≤ Node.keyEpoch P).
Proof.
  intros Hf [_ _ (R & HR & Ew & Ep & _)] H. unfold work, listRotationWork in H. rewrite HR in H. destruct (_ === _); [|done]. apply filter_head in H as (l1 & l2 & El & Hc & Hl1).
  set (m := Db.nodes (Keys.db k)) in *. set (root := RotationInput.rootId i) in *. assert ((c, D) ∈ levels m SUBTREE_LEVELS 0 [root]) as Hin by (rewrite El; apply elem_of_app; right; by left).
  apply levels_spec in Hin as (a & n & ->%list_elem_of_singleton & Hb & _ & ED). destruct (below_workspace m n root c R Hf Hb HR) as (N & HN & EN). exists N. unfold unvisited in Hc. cbn [fst snd] in Hc. rewrite HN in Hc. apply andb_true_iff in Hc as [Hp%bool_decide_eq_true Hc].
  split_and!; [done|congruence|done| |].
  - apply orb_true_iff in Hc as [Hc|Hc]; [left; by apply Z.ltb_lt|right]. apply andb_true_iff in Hc as [H0%Z.ltb_lt Hc%Z.ltb_lt]. split; [|done]. intros ->.
    pose proof (below_once m _ _ _ Hf (ex_intro _ R HR) Hb 0 (below_here m root)). lia.
  - intros Hne. assert (0 < D) as HD by (destruct n; [inversion Hb; congruence|lia]). destruct (levels_parent_first _ _ _ _ _ _ _ _ El HD) as (p & (N' & HN' & E & _) & Hpin). assert (N' = N) as -> by congruence.
    assert ((p, D - 1) ∈ levels m SUBTREE_LEVELS 0 [root]) as (a & n' & ->%list_elem_of_singleton & Hb' & _ & _)%levels_spec by (rewrite El; apply elem_of_app; by left).
    assert (∃ P, m !! p = Some P ∧ Node.purgedAt P = None) as (P & HP & EP) by (destruct (below_hung _ _ _ _ Hb') as [[-> _]|(q & P & HP & _ & EP)]; eauto).
    exists p, P. split_and!; [done|done|]. specialize (Hl1 _ Hpin). unfold unvisited in Hl1. cbn [fst snd] in Hl1. rewrite HP, bool_decide_true in Hl1 by done. cbn in Hl1. apply orb_false_iff in Hl1 as [Hl1%Z.ltb_ge _]. done.
Qed.

(** *** The records a client makes *)

Section drain.
Context `{C : Crypto} `{NC : NodeCrypto} `{SG : Signing} `{SK : SigningKeys}.

(** How the rotating client makes one record, [key] the one the server knows
    it by: in a group's area what [rekeyRecord] makes of the row as served; in
    a personal workspace a signature in one of the three forms and no more. *)
Inductive makes i (key : bytes) (stored : StoredRecord.t) (statement : RecordStatement) (sent : RotatedRecordSignatures.t) (envelope : bytes) : bool → Prop :=
  | makes_family random random' input out signer : ResealInput.statement input = statement → ResealInput.targetEpoch input = RotationInput.targetEpoch i →
      ResealInput.by_ input = Ok signer → verifies_own key (RotationSigner.signingKey signer) statement envelope →
      served_as stored input → rekeyRecord random random' rekeyOnly input = Ok out → RotatedRecord.envelope out = envelope → carried out sent →
      makes i key stored statement sent envelope true
  | makes_alone secret form : (∀ message, verifySignature key message (crypto_sign_detached message secret) = true) →
      sent = RotatedRecordSignatures.Build_t (Some (crypto_sign_detached (server_form statement envelope form) secret)) None false →
      makes i key stored statement sent envelope false.
Lemma makes_checks i key group stored statement sent envelope : whole stored → makes i key stored statement sent envelope group →
  ∃ signed, check_against stored sent key i group statement envelope = inr signed.
Proof.
  intros Hw [random random' input out signer <- Ht Hby Hkey Hs Hout He Hc|secret form Hkey ->]; unfold check_against.
  - destruct (record_taken random random' input stored key (RotationInput.userId i) signer Hby envelope Hkey Hs Hw out Hout He) as (sent' & signed & Hc' & Hch & _).
    rewrite (carried_unique _ _ _ Hc Hc'). exists signed. rewrite <-Ht. change (rekeyedFor owner_group) with true. by rewrite Hch.
  - assert (signedForm key (server_signed statement envelope (crypto_sign_detached (server_form statement envelope form) secret)) ≠ None) as Hf.
    { pose proof (Hkey (server_form statement envelope form)) as Hv. unfold signedForm. destruct statement as [m|v], form; cbn in *; rewrite Hv; by repeat case_match. }
    unfold checkRotatedRecord, legacy_form. cbn [RotatedRecordSignatures.signature RotatedRecordSignatures.rekey mbind option_bind]. change (rekeyedFor owner_personal) with false.
    destruct (signedForm _ _) as [f|]; [|done]. by eexists.
Qed.

(** The metadata's statement and each version's. *)
Definition metadata_of i (id : string) (N : Node.t) : RecordStatement :=
  MetadataRecord (MetadataStatement.Build_t (RotationInput.workspaceId i) id (kind_of (Node.kind N)) (Node.metadataVersion N)).
Definition version_of i (id : string) (row : ReadyVersion.t) : RecordStatement :=
  VersionRecord_ (VersionStatement.Build_t (RotationInput.workspaceId i) id (ReadyVersion.id row) (ReadyVersion.objectId row) (ReadyVersion.contentSuite row)).
(** All a node's records made: the metadata's and every ready version's, once each, in any order. *)
Record makes_all i (key : bytes) k (id : string) (N : Node.t) (rotated : RotatedRecords.t) : Prop := {
  ma_metadata : makes i key (default no_record (Keys.metadata k !! id)) (metadata_of i id N) (RotatedRecords.metadata rotated) (RotatedRecords.metadataEnvelope rotated)
    (in_group_area (Keys.db k) (RotationInput.workspaceId i));
  ma_ids : map RotatedVersionIn.id (RotatedRecords.versions rotated) ≡ₚ map ReadyVersion.id (ready_versions k (Keys.db k) id);
  ma_versions : ∀ v row, v ∈ RotatedRecords.versions rotated → row ∈ ready_versions k (Keys.db k) id → ReadyVersion.id row = RotatedVersionIn.id v →
    makes i key (ReadyVersion.stored row) (version_of i id row) (RotatedVersionIn.sent v) (RotatedVersionIn.contentKeyEnvelope v) (in_group_area (Keys.db k) (RotationInput.workspaceId i));
}.
(** Every record's row as the server writes it. *)
Definition rows_whole k : Prop := (∀ id row, Keys.metadata k !! id = Some row → whole row) ∧ (∀ id row, Keys.versions k !! id = Some row → whole row).
Lemma no_record_whole : whole no_record.
Proof. split; [by intros []|done]. Qed.
Lemma metadata_whole k id : rows_whole k → whole (default no_record (Keys.metadata k !! id)).
Proof. intros [Hm _]. destruct (Keys.metadata k !! id) as [row|] eqn:E; [by eapply Hm|apply no_record_whole]. Qed.
Lemma ready_whole k d id row : rows_whole k → row ∈ ready_versions k d id → whole (ReadyVersion.stored row).
Proof.
  intros [_ Hv] ([v V] & _ & H)%list_elem_of_omap. cbn in H. destruct (_ && _); [|done]. destruct (Version.objectId V) as [o|]; [|done]. cbn in H. destruct (Db.objects d !! o) as [O|]; [|done]. injection H as <-. cbn.
  destruct (Keys.versions k !! v) as [r|] eqn:E; [by eapply Hv|apply no_record_whole].
Qed.
Lemma ready_ids_NoDup k d id : NoDup (map ReadyVersion.id (ready_versions k d id)).
Proof.
  unfold ready_versions. pose proof (NoDup_fst_map_to_list (Db.versions d)) as Hn. induction (map_to_list (Db.versions d)) as [|[v V] l IH]; [constructor|]. cbn in Hn. apply NoDup_cons in Hn as [Hv Hn]. specialize (IH Hn).
  cbn [omap list_omap fst snd]. destruct (bool_decide _ && _); [|done]. destruct (Version.objectId V) as [o|]; [|done]. cbn [mbind option_bind]. destruct (Db.objects d !! o) as [O|]; [|done]. cbn. constructor; [|done].
  intros (row & -> & Hin)%list_elem_of_fmap. apply Hv. apply list_elem_of_omap in Hin as ([v' V'] & Hin & H). cbn in H. destruct (_ && _); [|done]. destruct (Version.objectId V') as [o'|]; [|done]. cbn in H. destruct (Db.objects d !! o'); [|done].
  injection H as <-. cbn. apply list_elem_of_fmap. by exists (v', V').
Qed.
Lemma sent_ids_match k d id sent : map RotatedVersionIn.id sent ≡ₚ map ReadyVersion.id (ready_versions k d id) → versions_match sent (ready_versions k d id) = true.
Proof.
  intros H. unfold versions_match. rewrite bool_decide_true by (rewrite H; apply ready_ids_NoDup). pose proof (Permutation_length H) as Hl. rewrite !length_map in Hl. rewrite Hl, Z.eqb_refl. cbn.
  apply forallb_forall. intros row Hin. apply bool_decide_eq_true. rewrite H. apply list_elem_of_fmap. exists row. split; [done|by apply list_elem_of_In].
Qed.
Lemma find_id (id : string) l row : List.find (λ r, ReadyVersion.id r === id) l = Some row → row ∈ l ∧ ReadyVersion.id row = id.
Proof. intros [Hin E%bool_decide_eq_true]%find_some. split; [by apply list_elem_of_In|done]. Qed.
Lemma makes_versions i key group id ready sent : (∀ v, v ∈ sent → RotatedVersionIn.id v ∈ map ReadyVersion.id ready) → (∀ row, row ∈ ready → whole (ReadyVersion.stored row)) →
  (∀ v row, v ∈ sent → row ∈ ready → ReadyVersion.id row = RotatedVersionIn.id v → makes i key (ReadyVersion.stored row) (version_of i id row) (RotatedVersionIn.sent v) (RotatedVersionIn.contentKeyEnvelope v) group) →
  ∃ versions, check_versions key i id group ready sent = inr versions.
Proof.
  intros Hid Hw. induction sent as [|v sent IH]; intros Hm; [by eexists|]. cbn [check_versions]. destruct (List.find _ _) as [row|] eqn:E.
  - apply find_id in E as [Hin Ev]. destruct (makes_checks i key group (ReadyVersion.stored row) (version_of i id row) (RotatedVersionIn.sent v) (RotatedVersionIn.contentKeyEnvelope v) (Hw _ Hin)) as (signed & Hs); [apply Hm; [by left|done|done]|].
    unfold version_of in Hs. rewrite Ev in Hs. rewrite Hs. destruct IH as (versions & ->); [intros u Hu; apply Hid; by right|intros u row' Hu; apply Hm; by right|]. by eexists.
  - exfalso. destruct (proj1 (list_elem_of_fmap _ _ _) (Hid v ltac:(by left))) as (row & Ev & Hin). apply list_elem_of_In in Hin. pose proof (find_none _ _ E row Hin) as Hf. cbn in Hf. apply bool_decide_eq_false in Hf. congruence.
Qed.
(** So what the server checks of the node holds. *)
Lemma makes_checked i item key k N rotated : currentSigningKey (RotationInput.userId i) = Ok (Some key) → rows_whole k → makes_all i key k (RotatedNodeInput.id item) N rotated →
  ∃ metadata versions, checked i item rotated N k (Keys.db k) metadata versions.
Proof.
  intros Hkey Hw [Hm Hid Hv]. destruct (makes_checks i key _ _ _ _ _ (metadata_whole k _ Hw) Hm) as (metadata & Em).
  destruct (makes_versions i key (in_group_area (Keys.db k) (RotationInput.workspaceId i)) (RotatedNodeInput.id item) (ready_versions k (Keys.db k) (RotatedNodeInput.id item)) (RotatedRecords.versions rotated)) as (versions & Ev).
  - intros v Hin. rewrite <-Hid. apply list_elem_of_fmap. by exists v.
  - intros row. by apply ready_whole.
  - exact Hv.
  - exists metadata, versions. constructor; [by apply sent_ids_match|]. by exists key.
Qed.
(** The rows stay whole. *)
Lemma check_versions_whole key i id group ready sent : ∀ versions, check_versions key i id group ready sent = inr versions → ∀ v, v ∈ versions → SignedRecord.signature v.2 ≠ Some "".
Proof.
  induction sent as [|v sent IH]; intros versions; cbn; [by intros [= <-] v ?%elem_of_nil|]. destruct (List.find _ _) as [row|]; [|done]. unfold check_against. destruct (checkRotatedRecord _ _ _ _ _ _ _ _ _) as [|signed] eqn:E; [done|].
  destruct (check_versions _ _ _ _ _ _) as [|out]; [done|]. intros [= <-] u [->|Hu]%elem_of_cons; [by eapply checked_signature|by eapply IH].
Qed.
Lemma store_versions_whole user versions : (∀ v, v ∈ versions → SignedRecord.signature v.2 ≠ Some "") → ∀ rows, (∀ id row, rows !! id = Some row → whole row) →
  ∀ id row, foldl (store_version user) rows versions !! id = Some row → whole row.
Proof.
  induction versions as [|v versions IH]; intros Hs rows Hr; [done|]. cbn [foldl]. apply IH; [intros u Hu; apply Hs; by right|]. intros id row. unfold store_version. rewrite lookup_insert. case_decide; [intros [= <-]|by apply Hr].
  apply stored_after_whole, Hs. by left.
Qed.
Lemma rotated_whole i item k k' n n' : node_rotated i item k k' n n' → rows_whole k → rows_whole k'.
Proof.
  intros Hr [Hm Hv]. destruct (decide (RotationInput.targetEpoch i ≤ Node.keyEpoch n)) as [Hk|Hk%Z.nle_gt].
  - destruct (nr_wrapped _ _ _ _ _ _ Hr Hk) as (seq & d & _ & ->). by split.
  - destruct (nr_written _ _ _ _ _ _ Hr Hk) as (rotated & metadata & versions & seq & d & _ & _ & [_ (key & _ & Em & Ev)] & ->). split; cbn [write_rotated Keys.metadata Keys.versions].
    + intros id row. rewrite lookup_insert. case_decide; [intros [= <-]|by apply Hm]. apply stored_after_whole. unfold check_against in Em. destruct (checkRotatedRecord _ _ _ _ _ _ _ _ _) as [|signed] eqn:E; [done|]. injection Em as <-. by eapply checked_signature.
    + apply store_versions_whole; [by eapply check_versions_whole|done].
Qed.

(** *** An answer to a listed node *)

(** An item sent for a listed node: read as the node is now, wrapped under its parent's key as it is now, with its
    records made where the node is below the target, and none where only the wrap is. *)
Record answers i (key : bytes) k (id : string) item : Prop := {
  an_id : RotatedNodeInput.id item = id;
  an_read : ∀ N, Db.nodes (Keys.db k) !! id = Some N → Node.changeSeq N = Some (RotatedNodeInput.changeSeq item);
  an_parent : ∀ N p P, Db.nodes (Keys.db k) !! id = Some N → Node.parentId N = Some p → Db.nodes (Keys.db k) !! p = Some P → RotatedNodeInput.parentKeyEpoch item = Node.keyEpoch P;
  an_area : ∀ N, Db.nodes (Keys.db k) !! id = Some N → Node.parentId N = None → in_group_area (Keys.db k) (RotationInput.workspaceId i) = true →
    Keys.areaVersions k !! RotationInput.workspaceId i = Some (RotatedNodeInput.parentKeyEpoch item);
  an_wrap : ∀ N, Db.nodes (Keys.db k) !! id = Some N → RotationInput.targetEpoch i ≤ Node.keyEpoch N → RotatedNodeInput.rotated item = None;
  an_rotated : ∀ N, Db.nodes (Keys.db k) !! id = Some N → Node.keyEpoch N < RotationInput.targetEpoch i →
    ∃ rotated, RotatedNodeInput.rotated item = Some rotated ∧ makes_all i key k id N rotated;
}.
Lemma answer_lands now i key k c D rest item : currentSigningKey (RotationInput.userId i) = Ok (Some key) → forest (Db.nodes (Keys.db k)) → rows_whole k → under_way now i k →
  work i k = (c, D) :: rest → answers i key k c item → ∃ k', rotateNodeIn now i item k = Ok (k', rotate_ok).
Proof.
  intros Hown Hf Hrows Hu Hwork [<- Hread Hpar Harea Hwrap Hrot]. destruct (work_first _ _ _ _ _ _ Hf Hu Hwork) as (N & HN & Ew & Ep & Hlow & Hparent). destruct (under_way_next _ _ _ Hu) as (W & HW & Hnext).
  specialize (Hread N HN). specialize (Hwrap N HN). specialize (Hrot N HN). specialize (Hpar N). specialize (Harea N HN). set (id := RotatedNodeInput.id item) in *. set (ws := RotationInput.workspaceId i) in *.
  unfold rotateNodeIn. fold ws id. rewrite Hnext. cbn [mbind res_bind]. set (d := set_workspaces _ _). change (Db.rotations d) with (Db.rotations (Keys.db k)). change (Db.nodes d) with (Db.nodes (Keys.db k)).
  destruct Hu as [Hr _ (R & HR & _ & _ & Htop)]. fold ws in Hr, Htop. rewrite Hr. cbn [Rotation.nodeId Rotation.targetEpoch]. rewrite bool_decide_true, Z.eqb_refl by done. cbn [negb orb]. rewrite HN, (bool_decide_true (Node.workspaceId N = _)), (bool_decide_false (is_Some _)) by (rewrite ?Ep; done || by intros [? [=]]). cbn [negb orb].
  rewrite bool_decide_false by (intros Hne; by apply Hne). assert (parent_refusal k d i item N = None) as ->.
  { unfold parent_refusal. fold ws id. unfold d. rewrite bumped_area by done. fold d. change (Db.nodes d) with (Db.nodes (Keys.db k)). case_bool_decide as Er; cbn [negb].
    - destruct (Node.parentId N) as [p|] eqn:EN.
      + rewrite bool_decide_false by done. cbn. destruct (fo_path _ Hf id N HN) as (ids & Hp & _). apply linked_snoc in Hp as (Hl & N' & HN' & E). assert (N' = N) as -> by congruence. rewrite EN in E. destruct (last ids) as [q|] eqn:Eq; [injection E as <-|done].
        apply last_Some_elem_of in Eq. destruct (linked_elem _ _ _ _ Hl Eq) as [P HP]. rewrite HP. by rewrite <-(Hpar p P HN eq_refl HP), Z.eqb_refl.
      + rewrite bool_decide_true by done. destruct (in_group_area _ ws) eqn:Eg; [|done]. rewrite (bool_decide_true (_ = _)) by by apply Harea. cbn. destruct (RotationInput.byRoster i) eqn:Eb; [done|]. exfalso.
        rewrite <-Er, HN in HR. injection HR as <-. specialize (Htop eq_refl eq_refl EN). destruct Hlow as [|[]]; [lia|done].
    - destruct (Hparent Er) as (p & P & EN & HP & Hk). rewrite EN. cbn. rewrite HP, (proj2 (Z.ltb_ge _ _) Hk). by rewrite <-(Hpar p P HN EN HP), Z.eqb_refl. }
  destruct (Z.leb_spec (RotationInput.targetEpoch i) (Node.keyEpoch N)) as [Hk|Hk].
  - rewrite (Hwrap Hk). destruct Hlow as [|[_ Hlow]]; [lia|]. rewrite (proj2 (Z.leb_gt _ _) Hlow). by eexists.
  - destruct (Hrot Hk) as (rotated & -> & Hmade). destruct (makes_checked i item key k N rotated Hown Hrows Hmade) as (metadata & versions & Hch). erewrite rotate_records_lands; [by eexists|]. destruct Hch as [Hv (key' & Hkey & Hm & Hs)]. constructor; [exact Hv|]. exists key'.
    unfold d. fold ws in Hm, Hs. rewrite bumped_area by done. by split_and!.
Qed.
Lemma rotated_under_way now i item k k' n n' : under_way now i k → node_rotated i item k k' n n' → under_way now i k'.
Proof.
  intros [Hr (W & HW & Hw) (R & HR & Ew & Ep & Htop)] [Hn Hn' [Hlive _] [Epn [Epar _ Ews _]] [Hk _] _ (Erot & Epeople & _) _ _ _ (W' & HW' & Ews')]. assert (W' = W) as -> by congruence.
  assert (in_group_area (Keys.db k') (RotationInput.workspaceId i) = in_group_area (Keys.db k) (RotationInput.workspaceId i)) as Earea by (unfold in_group_area; by rewrite Ews', lookup_insert_eq, HW).
  constructor; [congruence| |].
  - exists (bump W 1). rewrite Ews', lookup_insert_eq. split; [done|]. cbn. destruct (Workspace.groupId W); [|done]. unfold heldIn, holdsWorkspace in *. rewrite Epeople, Ews', lookup_insert_eq. by rewrite HW in Hw.
  - rewrite Hn', Earea, lookup_insert. case_decide as E; [|by exists R]. rewrite <-E, Hn in HR. injection HR as <-. exists n'. split_and!; [done|congruence|congruence|done].
Qed.

(** Each time the list's first node, until the list is empty or an answer is not [ok]. *)
Fixpoint rekey_all (fuel : nat) (now : Z) i (client : Keys.t → string → RotatedNodeInput.t) k : Keys.t :=
  match work i k, fuel with
  | (id, _) :: _, S fuel => match rotateNodeIn now i (client k id) k with Ok (k', rotate_ok) => rekey_all fuel now i client k' | _ => k end
  | _, _ => k
  end.
Lemma rekey_drains now i key client fuel : currentSigningKey (RotationInput.userId i) = Ok (Some key) → ∀ k, forest (Db.nodes (Keys.db k)) → rows_whole k → under_way now i k → (length (work i k) ≤ fuel)%nat →
  (∀ n id D rest, work i (rekey_all n now i client k) = (id, D) :: rest → answers i key (rekey_all n now i client k) id (client (rekey_all n now i client k) id)) →
  work i (rekey_all fuel now i client k) = [] ∧ under_way now i (rekey_all fuel now i client k) ∧ forest (Db.nodes (Keys.db (rekey_all fuel now i client k))).
Proof.
  intros Hown. induction fuel as [|fuel IH]; intros k Hf Hrows Hu Hl Hc.
  - cbn. destruct (work i k) as [|[] ?] eqn:E; [by split_and!|cbn in Hl; lia].
  - destruct (work i k) as [|[id D] rest] eqn:E; [cbn [rekey_all]; rewrite E; by split_and!|]. pose proof (Hc 0%nat id D rest) as H0. assert (rekey_all 0 now i client k = k) as E0 by (cbn [rekey_all]; by rewrite E). rewrite E0 in H0. specialize (H0 E). clear E0.
    destruct (answer_lands _ _ _ _ _ _ _ _ Hown Hf Hrows Hu E H0) as (k' & Hk). destruct (rotated_shape _ _ _ _ _ _ Hk) as [[? _]|(_ & n & n' & Hn)]; [done|].
    assert (∀ f, rekey_all (S f) now i client k = rekey_all f now i client k') as Estep by (intros f; cbn [rekey_all]; by rewrite E, Hk). rewrite Estep. apply IH.
    + by eapply rotated_forest.
    + by eapply rotated_whole.
    + by eapply rotated_under_way.
    + rewrite (rotated_work _ _ _ _ _ _ Hf Hn), E. rewrite (an_id _ _ _ _ _ H0). pose proof (off_first (id, D) rest) as Ho. cbn in *. lia.
    + intros f. specialize (Hc (S f)). by rewrite Estep in Hc.
Qed.
Lemma rekey_forest now i client fuel : ∀ k, forest (Db.nodes (Keys.db k)) → forest (Db.nodes (Keys.db (rekey_all fuel now i client k))).
Proof.
  induction fuel as [|fuel IH]; intros k Hf; cbn [rekey_all]; destruct (work i k) as [|[id D] rest]; try done. destruct (rotateNodeIn _ _ _ _) as [[k' r]|] eqn:E; [|done].
  destruct (node_work _ _ _ _ _ _ Hf E) as [Hf' _]. destruct r; try done. by apply IH.
Qed.
Lemma rekey_done now i client fuel k : work i k = [] → rekey_all fuel now i client k = k.
Proof. intros E. destruct fuel; cbn [rekey_all]; by rewrite E. Qed.
Lemma rekey_add now i client a b : ∀ k, rekey_all (a + b) now i client k = rekey_all b now i client (rekey_all a now i client k).
Proof.
  induction a as [|a IH]; intros k.
  - cbn [Nat.add]. f_equal. cbn [rekey_all]. by destruct (work i k) as [|[] ?].
  - cbn [Nat.add rekey_all]. destruct (work i k) as [|[id D] rest] eqn:E; [by rewrite rekey_done|]. destruct (rotateNodeIn _ _ _ _) as [[k' r]|] eqn:Er; [destruct r; [by apply IH|..]|].
    all: destruct b; cbn [rekey_all]; rewrite E; [done|]; by rewrite Er.
Qed.
End drain.

(** ** Finished *)

(** Every folder is within the levels the queries look at. *)
Lemma folder_levels m root R n c N : forest m → m !! root = Some R → below m n root c → m !! c = Some N → Node.kind N = folder → (n ≤ SUBTREE_LEVELS)%nat.
Proof.
  intros Hf HR Hb HN Hk. destruct (fo_path _ Hf root R HR) as (ids & Hp & _). destruct (below_path _ _ _ _ _ Hb Hp) as (ids' & rest & Hp' & El & <-).
  destruct (fo_path _ Hf c N HN) as (l & Hl & Hd'). rewrite (path_unique _ _ _ _ Hp' Hl) in El. apply (f_equal length) in El. rewrite !length_app in El. cbn in El. rewrite Hk in Hd'. unfold depth_of, MAX_DEPTH, SUBTREE_LEVELS in *. lia.
Qed.
(** What an empty list says of a node within the levels. *)
Lemma emptied d w root target R n c : forest (Db.nodes d) → listRotationWork d w root target = [] → Db.nodes d !! root = Some R → Node.workspaceId R = w → Node.purgedAt R = None →
  below (Db.nodes d) n root c → (n ≤ SUBTREE_LEVELS)%nat → ∃ N, Db.nodes d !! c = Some N ∧ target ≤ Node.keyEpoch N ∧ (c ≠ root → target ≤ Node.parentKeyEpoch N).
Proof.
  intros Hf Hwork HR Ew Ep Hb Hn. destruct (below_workspace _ n root c R Hf Hb HR) as (N & HN & _). exists N. split; [done|]. unfold listRotationWork in Hwork. rewrite HR, bool_decide_true in Hwork by done.
  assert ((c, 0 + Z.of_nat n) ∈ levels (Db.nodes d) SUBTREE_LEVELS 0 [root]) as Hin by (apply levels_spec; exists root, n; split_and!; [by left|done|done|done]).
  assert (unvisited (Db.nodes d) target (c, 0 + Z.of_nat n) = false) as Hu.
  { destruct (unvisited _ _ _) eqn:Eu; [|done]. exfalso. assert ((c, 0 + Z.of_nat n) ∈ []) as Hx by (rewrite <-Hwork; apply list_elem_of_In, filter_In; split; [by apply list_elem_of_In|done]). by apply elem_of_nil in Hx. }
  unfold unvisited in Hu. cbn [fst snd] in Hu. rewrite HN in Hu. assert (Node.purgedAt N = None) as EN by (destruct (below_hung _ _ _ _ Hb) as [[-> _]|(p & N' & HN' & _ & EN)]; congruence).
  rewrite bool_decide_true in Hu by done. cbn in Hu. apply orb_false_iff in Hu as [Hk%Z.ltb_ge Hpk]. split; [done|]. intros Hne. destruct n; [inversion Hb; congruence|]. apply andb_false_iff in Hpk as [Hpk|Hpk]; [apply Z.ltb_ge in Hpk; lia|by apply Z.ltb_ge in Hpk].
Qed.
Lemma finish_emptied now w root target seen k k' : finishRotation now w root target seen k = Ok (k', true) → listRotationWork seen w root target = [].
Proof. unfold finishRotation. by case_bool_decide. Qed.

(** C11. A rotation that finishes left no node behind that it can visit: when
    its look found the list empty, every live node hung under the rotation's
    root through live nodes, at most 64 levels down, had its key at the target
    or later and was wrapped under a key of the target or later; every folder
    is within those levels. What finishing writes is the cleared columns. *)
Theorem finished_rekeyed now w root target seen k k' R : forest (Db.nodes seen) → finishRotation now w root target seen k = Ok (k', true) →
  Db.nodes seen !! root = Some R → Node.workspaceId R = w → Node.purgedAt R = None →
  (∀ n c, below (Db.nodes seen) n root c → ((n ≤ SUBTREE_LEVELS)%nat ∨ ∃ N, Db.nodes seen !! c = Some N ∧ Node.kind N = folder) →
    ∃ N, Db.nodes seen !! c = Some N ∧ target ≤ Node.keyEpoch N ∧ (c ≠ root → target ≤ Node.parentKeyEpoch N)) ∧
  Db.rotations (Keys.db k') !! w = None ∧ map_Forall2 (λ _, same_place) (Db.nodes (Keys.db k)) (Db.nodes (Keys.db k')) ∧
  (∀ n c, is_Some (Db.nodes (Keys.db k) !! root) → below (Db.nodes (Keys.db k)) n root c → (n ≤ SUBTREE_LEVELS)%nat → Keys.prevEpochs k' !! c = None).
Proof.
  intros Hf H HR Ew Ep. pose proof (finish_emptied _ _ _ _ _ _ _ H) as Hwork. unfold finishRotation in H. rewrite bool_decide_true in H by done. cbn [negb] in H.
  apply bind_ok in H as ([d s] & Hd & H). rewrite <-(next_nodes _ _ _ _ _ _ Hd). destruct (Db.rotations d !! w) as [rot|]; [|done].
  destruct (_ !== _) eqn:E; [done|]. injection H as <-. split_and!.
  - intros n c Hb [Hn|(N & HN & Hk)]; apply (emptied seen w root target R n c); try done. exact (folder_levels _ _ _ _ _ _ Hf HR Hb HN Hk).
  - cbn. by rewrite lookup_delete_eq.
  - intros a. cbn. rewrite map_lookup_imap. destruct (Db.nodes d !! a) as [A|]; [|constructor]. destruct (bool_decide (a ∈ _)); by repeat constructor.
  - intros n c [R' HR'] Hb Hn. cbn. rewrite map_lookup_filter_None_2; [done|]. right. intros x _ Hx. apply Hx. cbn. apply list_elem_of_fmap. exists (c, 0 + Z.of_nat n). split; [done|]. unfold subtree. rewrite HR'.
    apply levels_spec. exists root, n. by split_and!; [left| | |].
Qed.

(** ** Drained *)

(** C12. While a member who may write the workspace rotates a folder whose
    key is the members' to change (a group area's top folder is its roster's)
    and no one else writes, the client that answers the list's first node each
    time is never refused: sent what the list and the rows say of the node,
    with its records as the clients make them, the server takes it; the list
    is empty after as many answers as it held nodes, and the rotation
    finishes. *)
Theorem rotation_drains `{C : Crypto} `{NC : NodeCrypto} `{SG : Signing} `{SK : SigningKeys} now i key client k :
  currentSigningKey (RotationInput.userId i) = Ok (Some key) → forest (Db.nodes (Keys.db k)) → rows_whole k → under_way now i k →
  (∀ n id D rest, work i (rekey_all n now i client k) = (id, D) :: rest → answers i key (rekey_all n now i client k) id (client (rekey_all n now i client k) id)) →
  let k' := rekey_all (length (work i k)) now i client k in
  work i k' = [] ∧ ∃ k2, finishRotation now (RotationInput.workspaceId i) (RotationInput.rootId i) (RotationInput.targetEpoch i) (Keys.db k') k' = Ok (k2, true).
Proof.
  intros Hown Hf Hrows Hu Hc k'. destruct (rekey_drains now i key client (length (work i k)) Hown k Hf Hrows Hu ltac:(done) Hc) as (Hw & [Hr (W & HW & _) _] & _). fold k' in Hw, Hr, HW. split; [done|].
  unfold finishRotation. unfold work in Hw. rewrite Hw, bool_decide_true by done. cbn [negb]. unfold nextChangeSeq. rewrite HW. cbn [mbind res_bind set_workspaces Db.rotations]. rewrite Hr. cbn [Rotation.nodeId]. rewrite bool_decide_true by done. by eexists.
Qed.

(** ** Started *)

Lemma carried_node k w n N : Db.nodes (Keys.db k) !! n = Some N → Node.workspaceId N = w → Node.keyEpoch N ≤ carried_epoch k w.
Proof.
  intros HN Hw. unfold carried_epoch. apply elem_of_map_to_list in HN. induction (map_to_list _) as [|e l IH]; [by apply elem_of_nil in HN|]. cbn [foldr]. apply elem_of_cons in HN as [<-|HN].
  - cbn. rewrite bool_decide_true by done. lia.
  - specialize (IH HN). destruct (_ === _); lia.
Qed.
Lemma carried_same k k' w : Db.nodes (Keys.db k') = Db.nodes (Keys.db k) → Keys.prevEpochs k' = Keys.prevEpochs k → carried_epoch k' w = carried_epoch k w.
Proof. unfold carried_epoch, previous_epoch. by intros -> ->. Qed.

(** What starting says of the root and of the target, above all that was ever drawn. *)
Lemma started_inv now (i : StartRotation.t) k k' r : startRotationIn now i k = Ok (k', started r) →
  let w := StartRotation.workspaceId i in
  ∃ R, Db.nodes (Keys.db k) !! StartRotation.nodeId i = Some R ∧ Node.workspaceId R = w ∧ Node.purgedAt R = None ∧
    Rotation.nodeId r = StartRotation.nodeId i ∧ Db.rotations (Keys.db k) !! w = None ∧ Db.rotations (Keys.db k') !! w = Some r ∧ Db.nodes (Keys.db k') = Db.nodes (Keys.db k) ∧
    (∃ W, Db.workspaces (Keys.db k') !! w = Some W ∧ Rotation.targetEpoch r ≤ Workspace.keyEpochSeq W) ∧ carried_epoch k' w = carried_epoch k w ∧
    ((∀ W, Db.workspaces (Keys.db k) !! w = Some W → carried_epoch k w ≤ Workspace.keyEpochSeq W) → carried_epoch k w < Rotation.targetEpoch r).
Proof.
  intros H w. unfold startRotationIn in H. fold w in H. apply bind_ok in H as ([d s] & (W & HW & -> & ->)%nextAs_is & H). set (d := set_workspaces _ _) in *.
  destruct (walk d _) as [chain|] eqn:Hwalk; [|done]. destruct (_ || _) eqn:E; [done|]. apply orb_false_iff in E as [Ew%negb_false_iff%bool_decide_eq_true Ep]. destruct (Db.rotations d !! w) eqn:Hrot; [done|].
  assert (Db.workspaces d !! w = Some (bump W 1)) as HWd by apply lookup_insert_eq. rewrite HWd in H.
  assert (∃ target d1, k' = set_db k (set_rotations d1 (<[w := r]> (Db.rotations d1))) ∧ r = Rotation.Build_t (StartRotation.nodeId i) target ∧ Db.nodes d1 = Db.nodes (Keys.db k) ∧
    (∃ W', Db.workspaces d1 !! w = Some W' ∧ target ≤ Workspace.keyEpochSeq W') ∧ (carried_epoch k w ≤ Workspace.keyEpochSeq W → carried_epoch k w < target)) as (target & d1 & -> & -> & En & HW' & Hc).
  { destruct (StartRotation.targetEpoch i) as [target|].
    - destruct (_ || _) eqn:Et; [done|]. apply orb_false_iff in Et as [Ea%Z.ltb_ge Ec%Z.leb_gt]. injection H as <- <-. exists target, d. split_and!; [done|done|done|by exists (bump W 1)|]. intros _. by erewrite carried_same in Ec.
    - injection H as <- <-. exists (Workspace.keyEpochSeq W + 1), (set_workspaces d (<[w := with_epochs (bump W 1) (Workspace.keyEpochSeq W + 1)]> (Db.workspaces d))).
      split_and!; [reflexivity|reflexivity|reflexivity| |cbn; lia]. cbn. eexists. split; [apply lookup_insert_eq|done]. }
  destruct (walk_spec _ _ _ Hwalk) as (_ & HR & Hlive). exists (Walk.node chain). split_and!; [exact HR|done|by apply Hlive|done|done|cbn; apply lookup_insert_eq|done|done|by apply carried_same|].
  intros Hd. by apply Hc, Hd.
Qed.
(** A rotation above what the nodes carry lists all it can reach. *)
Lemma start_lists k w root target R n c : forest (Db.nodes (Keys.db k)) → Db.nodes (Keys.db k) !! root = Some R → Node.workspaceId R = w → Node.purgedAt R = None → carried_epoch k w < target →
  below (Db.nodes (Keys.db k)) n root c → (n ≤ SUBTREE_LEVELS)%nat → (c, Z.of_nat n) ∈ listRotationWork (Keys.db k) w root target.
Proof.
  intros Hf HR Ew Ep Hc Hb Hn. unfold listRotationWork. rewrite HR, bool_decide_true by done. destruct (below_workspace _ _ _ _ _ Hf Hb HR) as (N & HN & EN).
  apply list_elem_of_In, filter_In. split; [apply list_elem_of_In, levels_spec; exists root, n; split_and!; [by left|done|done|lia]|]. unfold unvisited. cbn [fst snd]. rewrite HN.
  pose proof (carried_node k w c N HN ltac:(congruence)). rewrite (proj2 (Z.ltb_lt (Node.keyEpoch N) _)) by lia. rewrite bool_decide_true; [done|]. destruct (below_hung _ _ _ _ Hb) as [[-> _]|(p & N' & HN' & _ & EP)]; [|congruence].
  congruence.
Qed.

(** ** What the levels miss *)

(** More than 64 levels below the root nothing is ever listed, whatever its epochs: a rotation of a workspace's
    top folder finishes with the files [DriveTrees.file_past_depth] puts there under the old key. *)
Lemma deeper_never_listed d w root target n c : forest (Db.nodes d) → is_Some (Db.nodes d !! root) → below (Db.nodes d) n root c → (SUBTREE_LEVELS < n)%nat → c ∉ map fst (listRotationWork d w root target).
Proof.
  intros Hf Hroot Hb Hn Hin. unfold listRotationWork in Hin. destruct Hroot as [R HR]. rewrite HR in Hin. destruct (_ === _); [|by apply elem_of_nil in Hin].
  apply list_elem_of_fmap in Hin as ([c' D] & -> & [Hin _]%list_elem_of_In%filter_In). apply list_elem_of_In, levels_spec in Hin as (a & n' & ->%list_elem_of_singleton & Hb' & Hn' & _). pose proof (below_once _ _ _ _ Hf (ex_intro _ R HR) Hb n' Hb'). lia.
Qed.

(** A folder shared until now, with a file of one version in it, re-keyed to epoch 5 in a personal workspace. *)
Module RotationToy.
#[local] Instance node_crypto : NodeCrypto := {| node_verify _ _ _ := true |}.
#[local] Instance keys : SigningKeys := λ _, Ok (Some (fill 32 "s")).
Definition row (parent : string) (kind : NodeKind) (epoch parentEpoch : Z) (trashed : option Z) : Node.t :=
  Node.Build_t "w" (Some parent) kind epoch parentEpoch false 1 None trashed None 0 (Some 3) None None.
Definition shelf : Node.t := Node.Build_t "w" (Some "r") folder 2 1 false 1 None None None 0 (Some 2) None None.
Definition top : Node.t := Node.Build_t "w" None folder 1 0 false 1 None None None 2 (Some 1) None None.
Definition db : Db.t :=
  Db.Build_t {["w" := Workspace.Build_t 4 5 None None 0]} ∅ (<["x" := row "f" file 3 2 None]> (<["f" := shelf]> {["r" := top]}))
    {["v" := Version.Build_t "x" "w" (Some "o") version_ready None]} {["o" := Obj.Build_t "w" "key" 1 300 object_ready true]} ∅ ∅
    {["s" := Share.Build_t "w" "f" "b" viewer false]} ∅ {["w" := Rotation.Build_t "f" 5]} DriveToy.people.
Definition start : Keys.t := Keys.Build_t db ∅ ∅ ∅ ∅ [] {["s" := ShareRow.Build_t "a" 2 SHARE_ENVELOPE_BYTES None]} ∅ ∅ ∅.
Definition input : RotationInput.t := RotationInput.Build_t "w" "f" 5 "a" false.
Definition signed (statement : RecordStatement) : RotatedRecordSignatures.t :=
  RotatedRecordSignatures.Build_t (Some (crypto_sign_detached (Signing := RotationWitness.signing) (server_form (C := Toy.crypto) statement "sealed" ordinary) (fill 64 "s"))) None false.
Definition rotated (k : Keys.t) (id : string) (N : Node.t) : RotatedRecords.t :=
  RotatedRecords.Build_t "sealed" (signed (metadata_of input id N))
    (map (λ v, RotatedVersionIn.Build_t (ReadyVersion.id v) "sealed" (signed (version_of input id v))) (ready_versions k (Keys.db k) id)) [] [] [].
Definition client (k : Keys.t) (id : string) : RotatedNodeInput.t :=
  match Db.nodes (Keys.db k) !! id with
  | Some n => RotatedNodeInput.Build_t id (default 0 (Node.changeSeq n)) (default 0 (Node.keyEpoch <$> (Node.parentId n ≫= λ p, Db.nodes (Keys.db k) !! p)))
      (if 5 <=? Node.keyEpoch n then None else Some (rotated k id n))
  | None => RotatedNodeInput.Build_t id 0 0 None
  end.
Definition after (n : nat) : Keys.t := rekey_all (C := Toy.crypto) (NC := node_crypto) (SK := keys) n 10 input client start.
Definition before_start : Keys.t := set_db start (set_others db ∅ DriveToy.people).
Definition starting := startRotationIn 10 (StartRotation.Build_t "w" "f" (Some "a") None false) before_start.
End RotationToy.
Lemma toy_forest : forest (Db.nodes (Keys.db RotationToy.start)).
Proof.
  cbn [Keys.db RotationToy.start RotationToy.db Db.nodes].
  apply (forest_leaf _ "x" _ "f" RotationToy.shelf); try done.
  - apply (forest_leaf _ "f" _ "r" RotationToy.top); try done.
    + constructor.
      * intros id N [<- <-]%lookup_singleton_Some. exists []. split; [|done]. split; [|done]. by exists RotationToy.top.
      * by intros id N p P [<- <-]%lookup_singleton_Some.
      * by intros id N p P _ [<- <-]%lookup_singleton_Some.
      * by intros id N [<- <-]%lookup_singleton_Some.
    + intros ids Hp. assert (path {["r" := RotationToy.top]} [] "r") as Hr by (split; [by exists RotationToy.top|done]). by rewrite (path_unique _ _ _ _ Hp Hr).
  - intros ids Hp. assert (path (<["f" := RotationToy.shelf]> {["r" := RotationToy.top]}) ["r"] "f") as Hr by (split; [by exists RotationToy.top|split; [by exists RotationToy.shelf|done]]). by rewrite (path_unique _ _ _ _ Hp Hr).
Qed.
Lemma toy_work : work RotationToy.input RotationToy.start = [("f", 0); ("x", 1)] ∧ work RotationToy.input (RotationToy.after 1) = [("x", 1)] ∧ work RotationToy.input (RotationToy.after 2) = [].
Proof. vm_compute. split_and!; reflexivity. Qed.
Lemma toy_under_way : under_way 10 RotationToy.input RotationToy.start.
Proof. constructor; [done| |]; [exists (Workspace.Build_t 4 5 None None 0); by split|exists RotationToy.shelf; by split_and!]. Qed.
Lemma rotated_or_untouched_witness : ∃ k', rotateNodeIn (C := Toy.crypto) (NC := RotationToy.node_crypto) (SK := RotationToy.keys) 10 RotationToy.input (RotationToy.client RotationToy.start "f") RotationToy.start = Ok (k', rotate_ok) ∧
  grants_sealed "f" 5 k' ∧ Keys.prevEpochs k' !! "f" = Some (2, 1).
Proof.
  destruct (rotateNodeIn (C := Toy.crypto) (NC := RotationToy.node_crypto) (SK := RotationToy.keys) 10 RotationToy.input (RotationToy.client RotationToy.start "f") RotationToy.start) as [[k' r]|] eqn:E; [|by vm_compute in E].
  assert (r = rotate_ok) as -> by (vm_compute in E; by injection E as _ <-). exists k'. split; [done|].
  destruct (rotated_or_untouched (C := Toy.crypto) (NC := RotationToy.node_crypto) (SK := RotationToy.keys) _ _ _ _ _ _ E) as [[]|(_ & n & n' & Hn & _ & _ & _ & _ & _ & H)]; [done|].
  change (Some RotationToy.shelf = Some n) in Hn. injection Hn as <-. destruct H as (Hg & _ & _ & Hp); [done|]. by split.
Defined.
Lemma batch_work_witness : ∃ k' results, rotateNodes (C := Toy.crypto) (NC := RotationToy.node_crypto) (SK := RotationToy.keys) 10 RotationToy.input
    [RotationToy.client RotationToy.start "f"; RotationToy.client RotationToy.start "x"] RotationToy.start = (k', Ok results) ∧
  results = [("f", rotate_ok); ("x", rotate_stale)] ∧ work RotationToy.input k' = [("x", 1)].
Proof.
  destruct (rotateNodes (C := Toy.crypto) (NC := RotationToy.node_crypto) (SK := RotationToy.keys) 10 RotationToy.input
    [RotationToy.client RotationToy.start "f"; RotationToy.client RotationToy.start "x"] RotationToy.start) as [k' out] eqn:E.
  destruct (batch_work (C := Toy.crypto) (NC := RotationToy.node_crypto) (SK := RotationToy.keys) _ _ _ _ _ _ toy_forest E) as (ids & Hw & _ & Hr).
  destruct out as [results|]; [|by vm_compute in E]. exists k', results. split; [done|]. assert (results = [("f", rotate_ok); ("x", rotate_stale)]) as -> by (vm_compute in E; by injection E as _ <-). split; [done|].
  destruct (Hr _ eq_refl) as [-> _]. rewrite Hw, (proj1 toy_work). reflexivity.
Defined.
Lemma toy_rest n : RotationToy.after (2 + n) = RotationToy.after 2.
Proof. unfold RotationToy.after. rewrite rekey_add. apply rekey_done. exact (proj2 (proj2 toy_work)). Qed.
Lemma finished_rekeyed_witness : ∃ k' N, finishRotation 10 "w" "f" 5 (Keys.db (RotationToy.after 2)) (RotationToy.after 2) = Ok (k', true) ∧
  Db.nodes (Keys.db (RotationToy.after 2)) !! "x" = Some N ∧ 5 ≤ Node.keyEpoch N.
Proof.
  destruct (finishRotation 10 "w" "f" 5 (Keys.db (RotationToy.after 2)) (RotationToy.after 2)) as [[k' []]|] eqn:E; [|vm_compute in E; discriminate E|vm_compute in E; discriminate E].
  destruct (Db.nodes (Keys.db (RotationToy.after 2)) !! "f") as [R|] eqn:HR; [|vm_compute in HR; discriminate HR].
  destruct (finished_rekeyed _ _ _ _ _ _ _ R (rekey_forest (C := Toy.crypto) (NC := RotationToy.node_crypto) (SK := RotationToy.keys) 10 RotationToy.input RotationToy.client 2 RotationToy.start toy_forest) E HR) as (H & _); [vm_compute in HR; injection HR as <-; reflexivity..|].
  destruct (H 1%nat "x") as (N & HN & Hk & _); [|left; clear; unfold SUBTREE_LEVELS; lia|exists k', N; exact (conj eq_refl (conj HN Hk))].
  apply (below_child _ 0 "f" "x" "x"); [|constructor]. destruct (Db.nodes (Keys.db (RotationToy.after 2)) !! "x") as [X|] eqn:HX; [|vm_compute in HX; discriminate HX]. exists X. split; [exact HX|]. vm_compute in HX. injection HX as <-. split; reflexivity.
Defined.
Lemma toy_signs (message : bytes) : verifySignature (NC := RotationToy.node_crypto) (fill 32 "s") message (crypto_sign_detached (Signing := RotationWitness.signing) message (fill 64 "s")) = true.
Proof. unfold verifySignature. by rewrite (crypto_sign_length (SG := RotationWitness.signing) (SigningLaws := RotationWitness.signing_laws)). Qed.
Lemma toy_makes k id N : in_group_area (Keys.db k) "w" = false → makes_all (C := Toy.crypto) (NC := RotationToy.node_crypto) (SG := RotationWitness.signing) RotationToy.input (fill 32 "s") k id N (RotationToy.rotated k id N).
Proof.
  intros Hg. constructor; cbn [RotationToy.rotated RotatedRecords.metadata RotatedRecords.metadataEnvelope RotatedRecords.versions]; change (RotationInput.workspaceId RotationToy.input) with "w"; rewrite ?Hg.
  - apply (makes_alone _ _ _ _ _ _ (fill 64 "s") ordinary); [exact toy_signs|reflexivity].
  - rewrite map_map. reflexivity.
  - intros v row (row' & -> & Hin')%list_elem_of_fmap Hin E. cbn [RotatedVersionIn.id RotatedVersionIn.sent RotatedVersionIn.contentKeyEnvelope] in *.
    assert (row' = row) as ->.
    { pose proof (ready_ids_NoDup k (Keys.db k) id) as Hn. revert Hin Hin' E Hn. generalize (ready_versions k (Keys.db k) id). intros l. induction l as [|x l IH]; [by intros ?%elem_of_nil|]. cbn. intros H1 H2 E Hn. apply NoDup_cons in Hn as [Hx Hn].
      apply elem_of_cons in H1 as [->|H1], H2 as [->|H2]; [done| | |by apply IH]. all: destruct Hx; apply list_elem_of_fmap; eauto. }
    apply (makes_alone _ _ _ _ _ _ (fill 64 "s") ordinary); [exact toy_signs|reflexivity].
Qed.
Lemma rotation_drains_witness : work RotationToy.input (RotationToy.after 2) = [] ∧ ∃ k2, finishRotation 10 "w" "f" 5 (Keys.db (RotationToy.after 2)) (RotationToy.after 2) = Ok (k2, true).
Proof.
  apply (rotation_drains (C := Toy.crypto) (NC := RotationToy.node_crypto) (SG := RotationWitness.signing) (SK := RotationToy.keys) 10 RotationToy.input (fill 32 "s") RotationToy.client RotationToy.start eq_refl toy_forest); [split; by intros ? ? [=]|exact toy_under_way|].
  destruct toy_work as (E0 & E1 & E2). intros n id D rest E. fold (RotationToy.after n) in E |- *. destruct n as [|[|n]].
  3: { pose proof (toy_rest n) as En. cbn [Nat.add] in En. rewrite En, E2 in E. discriminate E. }
  - change (RotationToy.after 0) with RotationToy.start in *. rewrite E0 in E. injection E as <- <- <-.
    assert (∀ N, Db.nodes (Keys.db RotationToy.start) !! "f" = Some N → N = RotationToy.shelf) as HN by (intros N HN; vm_compute in HN; by injection HN as <-).
    constructor; [reflexivity|intros N ->%HN; reflexivity| |intros N ->%HN [=]|intros N ->%HN []; reflexivity|].
    + intros N p P ->%HN [= <-] HP. vm_compute in HP. injection HP as <-. reflexivity.
    + intros N ->%HN _. eexists. split; [reflexivity|]. apply toy_makes. reflexivity.
  - rewrite E1 in E. injection E as <- <- <-.
    assert (∀ N, Db.nodes (Keys.db (RotationToy.after 1)) !! "x" = Some N → N = RotationToy.row "f" file 3 2 None) as HN by (intros N HN; vm_compute in HN; injection HN as <-; reflexivity).
    constructor; [vm_compute; reflexivity|intros N ->%HN; vm_compute; reflexivity| |intros N ->%HN [=]|intros N ->%HN []; reflexivity|].
    + intros N p P ->%HN [= <-] HP. vm_compute in HP. injection HP as <-. vm_compute. reflexivity.
    + intros N ->%HN _. exists (RotationToy.rotated (RotationToy.after 1) "x" (RotationToy.row "f" file 3 2 None)). split; [vm_compute; reflexivity|]. apply toy_makes. vm_compute. reflexivity.
Defined.

(** What is moved may not leave the subtree a rotation re-keys; what is restored to the top folder from a folder
    still in the trash leaves it, under the key it had, and the list no longer names it. *)
Module RestoreToy.
Definition db : Db.t := set_nodes RotationToy.db
  (<["t" := RotationToy.row "f" folder 3 2 (Some 7)]> (<["y" := RotationToy.row "t" file 4 3 (Some 6)]> (Db.nodes RotationToy.db))).
Definition restored : Db.t := (transaction (restoreNode 10 "w" (Some "a") "y" (Some (ToRoot.Build_t 1))) db).1.
End RestoreToy.
Lemma restored_leaves_rotation :
  (λ n, (Node.parentId n, Node.keyEpoch n, Node.trashedAt n)) <$> Db.nodes RestoreToy.restored !! "y" = Some (Some "r", 4, None) ∧
  listRotationWork RestoreToy.db "w" "f" 5 = [("f", 0); ("t", 1); ("x", 1); ("y", 2)] ∧ listRotationWork RestoreToy.restored "w" "f" 5 = [("f", 0); ("t", 1); ("x", 1)] ∧
  (moveNode 10 "w" (Some "a") "x" "r" 1 RestoreToy.db ≫= λ r, Ok r.2) = Ok (inl (refusal Refusal.rotating)).
Proof. vm_compute. split_and!; reflexivity. Qed.
