(* ===== verification/DriveSharing.v ===== *)
(** * Shares, links and access on the Drive server (packages/db/src/drive.ts)

    Who may read or write a node: the members of its workspace, whoever holds
    a live share on it or on a folder above it, and whoever has a live link's
    token. The grants' rows stand beside the tables as a rotation has them
    ([DriveRotations.Keys]); their envelopes are only measured, visits are
    not counted, and lists come in no order. *)

From S2P Require Import Prelude Base64url Bytes Canonical HChaCha Crypto Content Envelopes Signatures RotationRecords ServerSignatures.
From S2P Require Import DriveTables Pool DriveUploads DriveTree DriveRotations.

(** ** Access *)

Module Access.
Record t := { role : Role; shareId : option string; shareRootId : option string }.
End Access.
(** Only a suite 4 envelope is served: another grants nothing. *)
Definition servedShare (k : Keys.t) (id : string) : bool :=
  match Keys.shareRows k !! id with Some g => ShareRow.envelopeBytes g =? SHARE_ENVELOPE_BYTES | None => false end.
Definition shares_to (k : Keys.t) (userId : string) : list (string * Share.t) :=
  List.filter (λ e, (Share.granteeUserId e.2 === userId) && negb (Share.revoked e.2) && servedShare k e.1) (map_to_list (Db.shares (Keys.db k))).
(** Nearest first. *)
Fixpoint nearest (shares : list (string * Share.t)) (ids : list string) : option (string * Share.t) :=
  match ids with
  | [] => None
  | id :: rest => match List.find (λ e, Share.nodeId e.2 === id) shares with Some e => Some e | None => nearest shares rest end
  end.
Definition upwards (chain : Walk.t) : list string := Walk.id chain :: reverse (ancestorIds chain).
Definition access_of (k : Keys.t) (userId : string) (chain : Walk.t) : option Access.t :=
  if holdsWorkspace (Keys.db k) userId (Node.workspaceId (Walk.node chain)) then Some (Access.Build_t owner None None)
  else (λ e, Access.Build_t (shared (Share.role e.2)) (Some e.1) (Some (Share.nodeId e.2))) <$> nearest (shares_to k userId) (upwards chain).
(** With the node's kind, and whether it is in the trash. *)
Definition authorize (k : Keys.t) (userId workspaceId nodeId : string) : option (Access.t * NodeKind * bool) :=
  match node_in (Keys.db k) workspaceId nodeId with
  | None => None
  | Some chain => (λ a, (a, Node.kind (Walk.node chain), Walk.trashed chain)) <$> access_of k userId chain
  end.
Definition may_read (k : Keys.t) (userId nodeId : string) : bool :=
  match walk (Keys.db k) nodeId with Some chain => negb (Walk.purged chain) && bool_decide (is_Some (access_of k userId chain)) | None => false end.
Definition authorizeVersions (k : Keys.t) (userId workspaceId : string) (versionIds : list string) : list string :=
  List.filter (λ id, match Db.versions (Keys.db k) !! id with
    | Some v => (Version.workspaceId v === workspaceId) && may_read k userId (Version.nodeId v)
    | None => false end) versionIds.
Definition hasEditorShare (k : Keys.t) (userId workspaceId : string) : bool :=
  existsb (λ e, (Share.workspaceId e.2 === workspaceId) && (Share.role e.2 === editor)) (shares_to k userId).
Definition authorizeVersion (k : Keys.t) (userId workspaceId versionId : string) : option (Access.t * NodeKind * bool) :=
  match Db.versions (Keys.db k) !! versionId with
  | Some v => if Version.workspaceId v === workspaceId then authorize k userId workspaceId (Version.nodeId v) else None
  | None => None
  end.
Definition authorizeUpload (k : Keys.t) (userId workspaceId uploadId : string) : option (Access.t * NodeKind * bool) :=
  match upload_in (Keys.db k) workspaceId uploadId with Some u => authorize k userId workspaceId (Upload.nodeId u) | None => None end.

(** ** Shares *)

(** [shareId]: the id the database draws. *)
Module CreateShare.
Record t := {
  shareId : string; workspaceId : string; nodeId : string; granterUserId : string; granteeUserId : string; role : ShareRole; keyEpoch : Z; envelopeBytes : Z;
}.
End CreateShare.
Inductive ShareAnswer :=
  | share_unsupported | family_sharing | share_not_found | share_trashed | share_stale | share_self | share_conflict | share_ok (id : string) (replaced : bool).
Definition sealedOnNode (nodeId : string) (changeSeq : Z) (d : Db.t) : Db.t := set_nodes d (alter (λ n, with_seq n (Some changeSeq)) nodeId (Db.nodes d)).
Definition set_shares (d : Db.t) (v : gmap string Share.t) : Db.t := set_grants d v (Db.links d).
Definition set_links (d : Db.t) (v : gmap string Link.t) : Db.t := set_grants d (Db.shares d) v.
Definition set_rows (k : Keys.t) (d : Db.t) (shareRows : gmap string ShareRow.t) (linkRows : gmap string LinkRow.t) : Keys.t :=
  Keys.Build_t d (Keys.metadata k) (Keys.versions k) (Keys.prevEpochs k) (Keys.droppers k) (Keys.drops k) shareRows linkRows (Keys.areaVersions k) (Keys.due k).
Definition set_due (k : Keys.t) (due : gset string) : Keys.t :=
  Keys.Build_t (Keys.db k) (Keys.metadata k) (Keys.versions k) (Keys.prevEpochs k) (Keys.droppers k) (Keys.drops k) (Keys.shareRows k) (Keys.linkRows k) (Keys.areaVersions k) due.
Definition live_share (d : Db.t) (nodeId granteeUserId : string) : option string :=
  fst <$> List.find (λ e, (Share.nodeId e.2 === nodeId) && (Share.granteeUserId e.2 === granteeUserId) && negb (Share.revoked e.2)) (map_to_list (Db.shares d)).
Definition SHARE_TAKEN : string := "drive_shares_pkey".
(** A live share to the same person takes the new values; its previous envelope stays. *)
Definition put_share (i : CreateShare.t) (id : string) (k : Keys.t) (d : Db.t) : Keys.t :=
  set_rows k
    (set_shares d (<[id := Share.Build_t (CreateShare.workspaceId i) (CreateShare.nodeId i) (CreateShare.granteeUserId i) (CreateShare.role i) false]> (Db.shares d)))
    (<[id := ShareRow.Build_t (CreateShare.granterUserId i) (CreateShare.keyEpoch i) (CreateShare.envelopeBytes i) (Keys.shareRows k !! id ≫= ShareRow.previous)]> (Keys.shareRows k))
    (Keys.linkRows k).
Definition createShare (now : Z) (i : CreateShare.t) (k : Keys.t) : result (Keys.t * ShareAnswer) :=
  if negb (CreateShare.envelopeBytes i =? SHARE_ENVELOPE_BYTES) then Ok (k, share_unsupported)
  else if in_group_area (Keys.db k) (CreateShare.workspaceId i) then Ok (k, family_sharing)
  else
    let* (d, changeSeq) := nextChangeSeq now (CreateShare.workspaceId i) (Some (CreateShare.granterUserId i)) (Keys.db k) in
    let answer a := Ok (set_db k d, a) in
    match node_in d (CreateShare.workspaceId i) (CreateShare.nodeId i) with
    | None => answer share_not_found
    | Some chain =>
        if Walk.trashed chain then answer share_trashed
        else if negb (Node.keyEpoch (Walk.node chain) =? CreateShare.keyEpoch i) then answer share_stale
        else if CreateShare.granteeUserId i === CreateShare.granterUserId i then answer share_self
        else
          let d := sealedOnNode (CreateShare.nodeId i) changeSeq d in
          match live_share d (CreateShare.nodeId i) (CreateShare.granteeUserId i) with
          | Some id => Ok (put_share i id k d, share_ok id true)
          | None =>
              refuse SHARE_TAKEN when bool_decide (is_Some (Db.shares d !! CreateShare.shareId i)) ;;
              Ok (put_share i (CreateShare.shareId i) (set_rows k d (delete (CreateShare.shareId i) (Keys.shareRows k)) (Keys.linkRows k)) d, share_ok (CreateShare.shareId i) false)
          end
    end.
(** A live grant of a workspace. *)
Definition share_in (d : Db.t) (workspaceId shareId : string) : option Share.t :=
  match Db.shares d !! shareId with Some s => if (Share.workspaceId s === workspaceId) && negb (Share.revoked s) then Some s else None | None => None end.
(** Its granter seals it again, under the node's key as it is. *)
Definition resealShare (now : Z) (workspaceId shareId granterUserId : string) (keyEpoch envelopeBytes : Z) (k : Keys.t) : result (Keys.t * ShareAnswer) :=
  if negb (envelopeBytes =? SHARE_ENVELOPE_BYTES) then Ok (k, share_unsupported)
  else if in_group_area (Keys.db k) workspaceId then Ok (k, family_sharing)
  else
    let* (d, changeSeq) := nextChangeSeq now workspaceId (Some granterUserId) (Keys.db k) in
    let answer a := Ok (set_db k d, a) in
    match share_in d workspaceId shareId, Keys.shareRows k !! shareId with
    | Some s, Some g =>
        if ShareRow.granterUserId g !== granterUserId then answer share_not_found
        else match walk d (Share.nodeId s) with
        | None => answer share_not_found
        | Some chain =>
            if Walk.purged chain then answer share_not_found
            else if negb (Node.keyEpoch (Walk.node chain) =? keyEpoch) then answer share_stale
            else Ok (set_rows k (sealedOnNode (Share.nodeId s) changeSeq d)
              (<[shareId := ShareRow.Build_t granterUserId keyEpoch envelopeBytes (ShareRow.previous g)]> (Keys.shareRows k)) (Keys.linkRows k), share_ok shareId true)
        end
    | _, _ => answer share_not_found
    end.
(** In a group area whatever is stopped leaves a rotation owed. *)
Definition rotationDueAfterRevocation (workspaceId : string) (k : Keys.t) : Keys.t :=
  if in_group_area (Keys.db k) workspaceId then set_due k ({[workspaceId]} ∪ Keys.due k) else k.
Definition revokeShare (workspaceId shareId : string) (k : Keys.t) : Keys.t * option (string * string) :=
  match Db.workspaces (Keys.db k) !! workspaceId, share_in (Keys.db k) workspaceId shareId with
  | Some _, Some s => (rotationDueAfterRevocation workspaceId (set_db k (set_shares (Keys.db k) (<[shareId := revoke_share s]> (Db.shares (Keys.db k))))), Some (shareId, Share.nodeId s))
  | _, _ => (k, None)
  end.

(** ** Links *)

Module CreateLink.
Record t := { id : string; workspaceId : string; nodeId : string; granterUserId : string; tokenHash : bytes; keyEpoch : Z; hasPassword : bool; expiresAt : option Z }.
End CreateLink.
Inductive LinkAnswer := link_family_sharing | link_not_found | link_trashed | link_stale | link_conflict | link_ok (id : string).
(** The link of a token, live or not. *)
Definition link_of (k : Keys.t) (tokenHash : bytes) : option (string * LinkRow.t * Link.t) :=
  head (omap (λ e, if LinkRow.tokenHash e.2 === tokenHash then (λ l, (e, l)) <$> Db.links (Keys.db k) !! e.1 else None) (map_to_list (Keys.linkRows k))).
Definition createLink (now : Z) (i : CreateLink.t) (k : Keys.t) : result (Keys.t * LinkAnswer) :=
  if in_group_area (Keys.db k) (CreateLink.workspaceId i) then Ok (k, link_family_sharing)
  else
    let* (d, changeSeq) := nextChangeSeq now (CreateLink.workspaceId i) (Some (CreateLink.granterUserId i)) (Keys.db k) in
    let answer a := Ok (set_db k d, a) in
    match node_in d (CreateLink.workspaceId i) (CreateLink.nodeId i) with
    | None => answer link_not_found
    | Some chain =>
        if Walk.trashed chain then answer link_trashed
        else if negb (Node.keyEpoch (Walk.node chain) =? CreateLink.keyEpoch i) then answer link_stale
        else if bool_decide (is_Some (Db.links d !! CreateLink.id i)) || bool_decide (is_Some (link_of k (CreateLink.tokenHash i))) then answer link_conflict
        else
          let row := LinkRow.Build_t (CreateLink.workspaceId i) (CreateLink.granterUserId i) (CreateLink.tokenHash i) (CreateLink.keyEpoch i) (CreateLink.hasPassword i) (CreateLink.expiresAt i) in
          let d := set_links d (<[CreateLink.id i := Link.Build_t (CreateLink.nodeId i) false]> (Db.links d)) in
          Ok (set_rows k (sealedOnNode (CreateLink.nodeId i) changeSeq d) (Keys.shareRows k) (<[CreateLink.id i := row]> (Keys.linkRows k)), link_ok (CreateLink.id i))
    end.
Definition link_in (k : Keys.t) (workspaceId linkId : string) : option (Link.t * LinkRow.t) :=
  match Db.links (Keys.db k) !! linkId, Keys.linkRows k !! linkId with
  | Some l, Some row => if (LinkRow.workspaceId row === workspaceId) && negb (Link.revoked l) then Some (l, row) else None
  | _, _ => None
  end.
Module UpdateLink.
Record t := { workspaceId : string; linkId : string; keyEpoch : Z; seal : option bool; expiresAt : option (option Z) }.
End UpdateLink.
(** A new seal, with whether it has a password, or a new expiry; only a seal moves the node's number. *)
Definition updateLink (now : Z) (i : UpdateLink.t) (k : Keys.t) : result (Keys.t * LinkAnswer) :=
  if in_group_area (Keys.db k) (UpdateLink.workspaceId i) then Ok (k, link_family_sharing)
  else
    let* (d, changeSeq) := match UpdateLink.seal i with
      | Some _ => let* (d, seq) := nextChangeSeq now (UpdateLink.workspaceId i) None (Keys.db k) in Ok (d, Some seq)
      | None => Ok (Keys.db k, None)
      end in
    let answer a := Ok (set_db k d, a) in
    match link_in k (UpdateLink.workspaceId i) (UpdateLink.linkId i) with
    | None => answer link_not_found
    | Some (l, row) =>
        match walk d (Link.nodeId l) with
        | None => answer link_not_found
        | Some chain =>
            if Walk.purged chain then answer link_not_found
            else if negb (Node.keyEpoch (Walk.node chain) =? UpdateLink.keyEpoch i) then answer link_stale
            else
              let d := match changeSeq with Some seq => sealedOnNode (Link.nodeId l) seq d | None => d end in
              let row := LinkRow.Build_t (LinkRow.workspaceId row) (LinkRow.granterUserId row) (LinkRow.tokenHash row) (LinkRow.keyEpoch row)
                (default (LinkRow.hasPassword row) (UpdateLink.seal i)) (default (LinkRow.expiresAt row) (UpdateLink.expiresAt i)) in
              Ok (set_rows k d (Keys.shareRows k) (<[UpdateLink.linkId i := row]> (Keys.linkRows k)), link_ok (UpdateLink.linkId i))
        end
    end.
Definition revokeLink (workspaceId linkId : string) (k : Keys.t) : Keys.t * option (string * string) :=
  match Db.workspaces (Keys.db k) !! workspaceId, link_in k workspaceId linkId with
  | Some _, Some (l, _) => (rotationDueAfterRevocation workspaceId (set_db k (set_links (Keys.db k) (<[linkId := revoke_link l]> (Db.links (Keys.db k))))), Some (linkId, Link.nodeId l))
  | _, _ => (k, None)
  end.
(** A live link that has not expired, of a token. *)
Definition live_link (now : Z) (k : Keys.t) (tokenHash : bytes) : option (string * LinkRow.t * Link.t) :=
  match link_of k tokenHash with
  | Some (id, row, l) =>
      if Link.revoked l || match LinkRow.expiresAt row with Some t => t <=? now | None => false end then None else Some (id, row, l)
  | None => None
  end.
Definition reachable (d : Db.t) (nodeId : string) : option Walk.t :=
  match walk d nodeId with Some chain => if Walk.purged chain || Walk.trashed chain then None else Some chain | None => None end.
(** What a visitor sees: the link and its node. *)
Definition resolveLink (now : Z) (k : Keys.t) (tokenHash : bytes) : option (string * string) :=
  match live_link now k tokenHash with
  | Some (id, _, l) => (λ _, (id, Link.nodeId l)) <$> reachable (Keys.db k) (Link.nodeId l)
  | None => None
  end.
Module LinkAccess.
Record t := { linkId : string; workspaceId : string; boundary : string }.
End LinkAccess.
Definition authorizeLink (now : Z) (k : Keys.t) (tokenHash : bytes) (nodeId : string) : option LinkAccess.t :=
  match live_link now k tokenHash with
  | None => None
  | Some (id, row, l) =>
      match reachable (Keys.db k) nodeId with
      | None => None
      | Some chain =>
          if (Node.workspaceId (Walk.node chain) === LinkRow.workspaceId row) && inside_of (Link.nodeId l) chain
          then Some (LinkAccess.Build_t id (LinkRow.workspaceId row) (Link.nodeId l)) else None
      end
  end.
(** The versions a link opens, with the workspace of the last. *)
Definition authorizeLinkVersions (now : Z) (k : Keys.t) (tokenHash : bytes) (versionIds : list string) : option string * list string :=
  let opened := omap (λ id, v ← Db.versions (Keys.db k) !! id; a ← authorizeLink now k tokenHash (Version.nodeId v); Some (id, LinkAccess.workspaceId a)) versionIds in
  (snd <$> last opened, map fst opened).

(** ** Lists *)

(** What is shared with someone: the live served shares of what is still there. *)
Definition listSharesForGrantee (k : Keys.t) (userId : string) : list (string * Share.t) :=
  List.filter (λ e, bool_decide (is_Some (reachable (Keys.db k) (Share.nodeId e.2)))) (shares_to k userId).
Definition listNodeShares (k : Keys.t) (workspaceId nodeId : string) : list (string * Share.t) :=
  List.filter (λ e, (Share.workspaceId e.2 === workspaceId) && (Share.nodeId e.2 === nodeId) && negb (Share.revoked e.2)) (map_to_list (Db.shares (Keys.db k))).
Definition listSharesByGranter (k : Keys.t) (userId : string) : list (string * Share.t) :=
  List.filter (λ e, match Keys.shareRows k !! e.1 with Some g => ShareRow.granterUserId g === userId | None => false end && negb (Share.revoked e.2) &&
    bool_decide (is_Some (reachable (Keys.db k) (Share.nodeId e.2)))) (map_to_list (Db.shares (Keys.db k))).
Definition listLinksByGranter (k : Keys.t) (userId : string) : list (string * Link.t) :=
  List.filter (λ e, match Keys.linkRows k !! e.1 with Some g => LinkRow.granterUserId g === userId | None => false end && negb (Link.revoked e.2) &&
    bool_decide (is_Some (reachable (Keys.db k) (Link.nodeId e.2)))) (map_to_list (Db.links (Keys.db k))).
Definition listNodeLinks (k : Keys.t) (workspaceId nodeId : string) : list (string * Link.t) :=
  List.filter (λ e, match Keys.linkRows k !! e.1 with Some g => LinkRow.workspaceId g === workspaceId | None => false end && (Link.nodeId e.2 === nodeId) && negb (Link.revoked e.2))
    (map_to_list (Db.links (Keys.db k))).
