(* ===== verification/DriveQuiet.v ===== *)
(** * What transactions leave of keys and grants (packages/db/src/drive.ts)

    No transaction of [DriveUploads], [DrivePurges] or [DriveTree] touches a
    node's key, seals a grant or takes back an epoch: each only writes rows
    whose keys stay ([calm]), adds a node under an epoch the workspace has
    drawn, or takes a node with all that is granted on it ([quiet]). *)

From S2P Require Import Prelude DriveTables Pool DriveUploads DrivePurges DriveAccounting DriveAlike DriveBalance DriveReached DriveTree DriveForest DriveGrows DriveTrees.

Implicit Types (d : Db.t).

Record same_key (n x : Node.t) : Prop := {
  sk_epoch : Node.keyEpoch n = Node.keyEpoch x; sk_workspace : Node.workspaceId n = Node.workspaceId x; sk_reached : Node.reached n = Node.reached x;
}.
#[export] Instance same_key_equiv : Equivalence same_key.
Proof. split; [by intros ?|by intros ?? []|intros ??? [] []; split; congruence]. Qed.
Definition fewer_shares (m m' : gmap string Share.t) : Prop := ∀ s S', m' !! s = Some S' → ∃ S, m !! s = Some S ∧ (S' = S ∨ S' = revoke_share S).
Definition fewer_links (m m' : gmap string Link.t) : Prop := ∀ l L', m' !! l = Some L' → ∃ L, m !! l = Some L ∧ (L' = L ∨ L' = revoke_link L).
Definition seqs_grow (m m' : gmap string Workspace.t) : Prop := ∀ w W, m !! w = Some W → ∃ W', m' !! w = Some W' ∧ Workspace.keyEpochSeq W ≤ Workspace.keyEpochSeq W'.
Lemma fewer_shares_refl m : fewer_shares m m.
Proof. intros s S ?. exists S. auto. Qed.
Lemma fewer_links_refl m : fewer_links m m.
Proof. intros l L ?. exists L. auto. Qed.
Lemma seqs_grow_refl m : seqs_grow m m.
Proof. intros w W ?. by exists W. Qed.
#[local] Hint Resolve fewer_shares_refl fewer_links_refl seqs_grow_refl : core.
Record calm d d' : Prop := {
  cm_nodes : map_Forall2 (λ _, same_key) (Db.nodes d) (Db.nodes d'); cm_shares : fewer_shares (Db.shares d) (Db.shares d');
  cm_links : fewer_links (Db.links d) (Db.links d'); cm_seqs : seqs_grow (Db.workspaces d) (Db.workspaces d'); cm_rotations : Db.rotations d' = Db.rotations d;
}.
#[export] Instance calm_preorder : PreOrder calm.
Proof.
  split.
  - intros d. split; [apply rows_refl|auto..].
  - intros d1 d2 d3 [] []. split; [by eapply rows_trans| | | |congruence].
    + intros s S H. destruct (cm_shares1 s S H) as (S1 & H1 & E1). destruct (cm_shares0 s S1 H1) as (S2 & H2 & E2). exists S2. split; [done|]. destruct E1 as [-> | ->], E2 as [-> | ->]; auto.
    + intros s S H. destruct (cm_links1 s S H) as (S1 & H1 & E1). destruct (cm_links0 s S1 H1) as (S2 & H2 & E2). exists S2. split; [done|]. destruct E1 as [-> | ->], E2 as [-> | ->]; auto.
    + intros w W H. destruct (cm_seqs0 w W H) as (W1 & H1 & E1). destruct (cm_seqs1 w W1 H1) as (W2 & H2 & E2). exists W2. split; [done|lia].
Qed.
Definition drawn d (N : Node.t) : Prop := Node.reached N = false ∧ epochWasAllocated d (Node.workspaceId N) (Node.keyEpoch N) = true.
Inductive hush d : Db.t → Prop :=
  | hu_calm d' : calm d d' → hush d d'
  | hu_node n N : Db.nodes d !! n = None → drawn d N → hush d (set_nodes d (<[n := N]> (Db.nodes d)))
  | hu_gone n : hush d (set_nodes (set_grants d (filter (λ e, Share.nodeId e.2 ≠ n) (Db.shares d)) (filter (λ e, Link.nodeId e.2 ≠ n) (Db.links d))) (delete n (Db.nodes d))).
Definition quiet : Db.t → Db.t → Prop := rtc hush.

Lemma calm_quiet d d' : calm d d' → quiet d d'.
Proof. intros H. by apply rtc_once, hu_calm. Qed.
Lemma calm_nodes d d' : map_Forall2 (λ _, same_key) (Db.nodes d) (Db.nodes d') → Db.shares d' = Db.shares d → Db.links d' = Db.links d → Db.workspaces d' = Db.workspaces d →
  Db.rotations d' = Db.rotations d → calm d d'.
Proof. intros Hn E1 E2 E3 E4. split; [done|rewrite E1|rewrite E2|rewrite E3|done]; auto. Qed.
(** What else is written: the other tables. *)
Lemma calm_same d d' : Db.nodes d' = Db.nodes d → Db.shares d' = Db.shares d → Db.links d' = Db.links d → Db.workspaces d' = Db.workspaces d →
  Db.rotations d' = Db.rotations d → calm d d'.
Proof. intros E. apply calm_nodes. rewrite E. apply rows_refl. Qed.
Ltac elsewhere := by apply calm_quiet, calm_same.
Lemma calm_alter d f n : (∀ x, same_key x (f x)) → calm d (set_nodes d (alter f n (Db.nodes d))).
Proof. intros H. apply calm_nodes; [|done..]. apply rows_alter. intros x _. apply H. Qed.
Lemma calm_row d n N N' : Db.nodes d !! n = Some N → same_key N N' → calm d (set_nodes d (<[n := N']> (Db.nodes d))).
Proof. intros HN H. apply calm_nodes; [|done..]. by eapply rows_insert. Qed.
Lemma calm_workspaces d v : seqs_grow (Db.workspaces d) v → calm d (set_workspaces d v).
Proof. intros H. split; [apply rows_refl|auto..]. Qed.
Lemma seqs_alter (m : gmap string Workspace.t) f w : (∀ W, Workspace.keyEpochSeq W ≤ Workspace.keyEpochSeq (f W)) → seqs_grow m (alter f w m).
Proof. intros Hf x X HX. rewrite lookup_alter. case_decide as E; [subst x; rewrite HX; eexists; split; [done|apply Hf]|exists X; split; [done|lia]]. Qed.
Lemma seqs_insert (m : gmap string Workspace.t) w W W' : m !! w = Some W → Workspace.keyEpochSeq W ≤ Workspace.keyEpochSeq W' → seqs_grow m (<[w := W']> m).
Proof. intros HW H x X HX. rewrite lookup_insert. case_decide as E; [subst x; exists W'; split; [done|congruence]|exists X; split; [done|lia]]. Qed.
Lemma next_calm now w writer d d' s : nextChangeSeq now w writer d = Ok (d', s) → calm d d'.
Proof.
  unfold nextChangeSeq. intros H. destruct (Db.workspaces d !! w) as [W|] eqn:HW; [|done]. apply bind_ok in H as ([] & _ & H). injection H as <- _.
  apply calm_workspaces. by eapply seqs_insert.
Qed.
Lemma more_calm w n d : calm d (moreChangeSeqs w n d).
Proof. apply calm_workspaces, seqs_alter. intros W. cbn. lia. Qed.
Lemma lock_calm now w writer move d d' s : lockForCompletion now w writer move d = Ok (d', s) → calm d d'.
Proof.
  unfold lockForCompletion. intros H. apply bind_ok in H as ([d1 n] & H1 & H). apply next_calm in H1. destruct move as [m|]; [|by injection H as <- _]. destruct (Db.workspaces d1 !! _); injection H as <- _; [|done].
  etrans; [exact H1|apply more_calm].
Qed.
Lemma adjusted_calm w a b d d' : adjustStorage w a b d = Ok d' → calm d d'.
Proof. intros ->%adjust_ok. by apply calm_same. Qed.
Lemma retire_calm o d : calm d (retire_option o d).
Proof. destruct o as [o|]; [|done]. cbn. unfold retireObjectIfUnreferenced. destruct (any _ _); [done|]. destruct (Db.objects d !! o); [|done]. by apply calm_same. Qed.
Lemma raise_calm ids h d : calm d (raiseHeightBounds ids h d).
Proof.
  apply calm_nodes; [|done..]. cbn. generalize (Db.nodes d). induction (map Ancestor.id ids) as [|a l IH]; intros m; cbn [raise_each]; [apply rows_refl|]. eapply rows_trans; [|apply IH].
  apply rows_alter. intros x _. unfold raise_to. by destruct (_ <? _).
Qed.
Lemma drop_calm (gone : string * Version.t → Prop) `{∀ e, Decision (gone e)} d : calm d (drop_versions gone d).
Proof.
  apply calm_nodes; [|done..]. intros i. cbn. rewrite lookup_fmap. destruct (Db.nodes d !! i) as [n|]; [|constructor]. cbn. constructor. destruct (Node.currentVersionId n); [|done]. by case_decide.
Qed.
Lemma revoke_calm n d : calm d (revoke_grants n d).
Proof.
  split; [apply rows_refl| | |apply seqs_grow_refl|done]; intros x X; cbn; rewrite lookup_fmap; intros (Y & HY & ->)%fmap_Some; exists Y; (split; [done|]); case_bool_decide; auto.
Qed.
Lemma allocate_calm now w count writer d d' r : allocateKeyEpochs now w count writer d = Ok (d', r) → calm d d'.
Proof.
  unfold allocateKeyEpochs. intros H. not_refused H E. destruct (Db.workspaces d !! w) as [W|] eqn:HW; [|by injection H as <- _]. cbv zeta in H. apply bind_ok in H as ([] & _ & H). injection H as <- _.
  apply orb_false_iff in E as [E%Z.ltb_ge _]. apply calm_workspaces. eapply seqs_insert; [exact HW|cbn; lia].
Qed.
Lemma delete_node_quiet n d d' : delete_node n d = Ok d' → quiet d d'.
Proof.
  unfold delete_node. intros H. not_refused H Hc. injection H as <-. eapply rtc_l; [apply hu_calm, (drop_calm (λ e, Version.nodeId e.2 = n))|].
  set (d1 := drop_versions _ d). set (d2 := set_uploads d1 (filter (λ e, Upload.nodeId e.2 ≠ n) (Db.uploads d1))). eapply rtc_l; [apply hu_calm; by apply (calm_same d1 d2)|]. apply rtc_once. exact (hu_gone d2 n).
Qed.

(** ** Transactions that move bytes *)

Lemma release_quiet id U st d d' : releaseUpload id U st d = Ok d' → quiet d d'.
Proof.
  unfold releaseUpload. intros H. apply bind_ok in H as (d1 & H1%adjusted_calm & H). cbv zeta in H. set (d2 := set_uploads _ _) in H.
  assert (calm d (retire_option (Upload.objectId U) d2)) as H2 by (etrans; [exact H1|]; etrans; [by apply (calm_same d1 d2)|apply retire_calm]).
  eapply rtc_l; [by apply hu_calm|]. destruct (Upload.newNode U); [|injection H as <-; apply rtc_refl]. eapply rtc_l; [apply hu_calm, (drop_calm (λ e, Version.nodeId e.2 = Upload.nodeId U))|].
  case_bool_decide; [by eapply delete_node_quiet|injection H as <-; apply rtc_refl].
Qed.
Lemma release_as_quiet {A} id U (a b : A) d d' : release_as id U a d = Ok (d', b) → quiet d d'.
Proof. unfold release_as. intros H. apply bind_ok in H as (x & Hx & H). injection H as <- _. by eapply release_quiet. Qed.
Lemma purge_row_calm w v V size d d' : purge_row w v V size d = Ok d' → calm d d'.
Proof.
  unfold purge_row. intros H. apply bind_ok in H as (d1 & H1 & H). injection H as <-. etrans; [|apply retire_calm]. etrans; [by apply (calm_same d (purge_version_row v d))|].
  destruct (Version.status V), size; try (injection H1 as <-; apply calm_preorder). by eapply adjusted_calm.
Qed.
Lemma purgeVersion_quiet w v V size d d' : purgeVersion w v V size d = Ok d' → quiet d d'.
Proof.
  unfold purgeVersion. intros H. destruct (Version.status V); [|by apply calm_quiet; eapply purge_row_calm|injection H as <-; apply rtc_refl].
  destruct (upload_of_version d v) as [[id u]|]; [|by apply calm_quiet; eapply purge_row_calm]. destruct (Upload.status u); try (by eapply release_quiet); try (by apply calm_quiet; eapply purge_row_calm).
  injection H as <-. apply rtc_refl.
Qed.
Lemma purge_each_quiet w rows : ∀ d d', purge_each w rows d = Ok d' → quiet d d'.
Proof.
  induction rows as [|[[v V] size] rows IH]; intros d d' H; cbn in H; [injection H as <-; apply rtc_refl|]. apply bind_ok in H as (d1 & H1 & H).
  etrans; [by eapply purgeVersion_quiet|by eapply IH].
Qed.
Lemma purgeOne_quiet now w n seq anc d d' b : purgeOne now w n seq anc d = Ok (d', b) → quiet d d'.
Proof.
  unfold purgeOne. intros H. destruct (Db.nodes d !! n); [|injection H as <- _; apply rtc_refl]. destruct (_ || _); [injection H as <- _; apply rtc_refl|].
  apply bind_ok in H as (d1 & H1 & H). injection H as <- _. etrans; [by eapply purge_each_quiet|]. apply calm_quiet. etrans; [|apply revoke_calm]. by apply calm_alter.
Qed.
Lemma purge_older_calm w older : ∀ d d', purge_older w older d = Ok d' → calm d d'.
Proof.
  induction older as [|[[v V] size] older IH]; intros d d' H; cbn in H; [by injection H as <-|]. apply bind_ok in H as (d1 & H1%adjusted_calm & H). apply IH in H.
  etrans; [by apply (calm_same d (purge_version_row v d))|]. etrans; [exact H1|]. etrans; [apply retire_calm|exact H].
Qed.
Lemma publishUpload_calm now id U o size anc displaced seq d d' : publishUpload now id U o size anc displaced seq d = Ok d' → calm d d'.
Proof.
  unfold publishUpload. intros H. apply bind_ok in H as (d1 & H1%adjusted_calm & H). apply bind_ok in H as (d4 & H4 & H). injection H as <-. set (d2 := set_versions _ _) in H4.
  assert (calm d d4) as Hc.
  { etrans; [exact H1|]. etrans; [by apply (calm_same d1 d2)|]. destruct displaced as [x|]; [|by injection H4 as <-]. unfold displace in H4. apply bind_ok in H4 as (d3 & H3%purge_older_calm & H4). injection H4 as <-.
    etrans; [exact H3|]. by apply calm_same. }
  etrans; [exact Hc|]. set (d5 := set_nodes d4 _). assert (calm d4 d5) as H5 by by apply calm_alter. etrans; [exact H5|]. destruct (Upload.newNode U); [etrans; [apply (raise_calm anc 0 d5)|]|]; by apply calm_same.
Qed.
Lemma settle_quiet now id move seq d d' : settle_move now id move seq d = Ok d' → quiet d d'.
Proof.
  intros H. destruct move as [m|]; [|injection H as <-; apply rtc_refl]. destruct seq as [s|]; [|injection H as <-; apply rtc_refl]. cbn in H. unfold settleMove in H.
  apply bind_ok in H as ([x b] & H1 & H). injection H as <-. etrans; [by eapply purgeOne_quiet|]. elsewhere.
Qed.
Lemma publish_settle_quiet {A} now id U o size anc displaced seq move sourceSeq (a b : A) d d' :
  (let* d := publishUpload now id U o size anc displaced seq d in let* d := settle_move now id move sourceSeq d in Ok (d, a)) = Ok (d', b) → quiet d d'.
Proof.
  intros H. apply bind_ok in H as (d1 & H1 & H). apply bind_ok in H as (d2 & H2 & H). injection H as <- _.
  etrans; [by apply calm_quiet; eapply publishUpload_calm|by eapply settle_quiet].
Qed.
(** A node made where its epoch was checked. *)
Lemma insert_quiet id N d d' : insert_node id N d = Some d' → drawn d N → quiet d d'.
Proof. intros [Hid ->]%insert_node_is Hd. by apply rtc_once, hu_node. Qed.
Lemma new_parent_drawn d w p e pe c changeSeq : new_parent d w p e pe = inr c → drawn d (new_node_row w p e pe changeSeq).
Proof.
  unfold new_parent. destruct (walked d w p folder) as [x|]; [|done]. destruct (Walk.trashed x); [done|]. destruct (underUnrotatedParent _ _ _); [done|]. destruct (_ <? _); [done|].
  destruct (negb (_ =? _)); [done|]. destruct (epochWasAllocated d w e) eqn:E; [|done]. intros _. by split.
Qed.

Section transactions.
Context `{SB : SignedBy}.

Lemma begin_rows_quiet d i t epoch expected reserve move w d' : begin_target d (UploadBegin.workspaceId i) (UploadBegin.node i) = inr t →
  begin_rows i epoch expected reserve move (adjusted w 0 reserve d) = inr d' → quiet d d'.
Proof.
  intros Ht H. unfold begin_rows in H. destruct ((begin_node i _ ≫= _) ≫= _) as [d3|] eqn:H3; [|done]. destruct (insert_upload _ _ d3) as [d4|] eqn:H4; [|done]. injection H as <-.
  apply bind_Some in H3 as (d2 & (dx & Hx & H2)%bind_Some & H3). apply insert_object_is in H2 as (_ & _ & ->). apply insert_version_is in H3 as [_ ->]. apply insert_upload_is in H4 as [_ ->].
  etrans; [|by apply calm_quiet, (calm_same dx)]. eapply rtc_l; [apply hu_calm; by apply (calm_same d (adjusted w 0 reserve d))|].
  unfold begin_node, begin_target in *. destruct (UploadBegin.node i) as [id p e|]; [|injection Hx as <-; apply rtc_refl]. destruct (new_parent d _ p _ _) as [|c] eqn:Hc; [done|].
  eapply insert_quiet; [exact Hx|]. exact (new_parent_drawn _ _ _ _ _ _ None Hc).
Qed.
Lemma beginUpload_quiet now i d d' r : beginUpload now i d = Ok (d', r) → quiet d d'.
Proof.
  intros H. unfold beginUpload, transactionKeeping in H. apply bind_ok in H as ([d1 r1] & H1 & H). injection H as <- <-.
  destruct r1 as [|id]; [apply rtc_refl|]. cbn. unfold beginUploadOnce in H1. apply bind_ok in H1 as ([d0 n] & H0%next_calm & H1). etrans; [by apply calm_quiet|].
  destruct (begin_target d0 _ _) as [|[epoch expected]] eqn:Ht; [done|]. apply bind_ok in H1 as (signed & _ & H1). destruct signed; [|done]. cbn in H1.
  destruct (move_source now d0 i) as [|move]; [done|]. destruct (storageFigures now d0 _) as [s|]; [|done]. destruct (_ && _); [done|].
  apply bind_ok in H1 as (dx & ->%adjust_ok & H1). destruct (begin_rows _ _ _ _ _ _) as [|d4] eqn:H4; [done|]. injection H1 as <- _. by eapply begin_rows_quiet.
Qed.
Lemma startCompleting_quiet now w id writer d d' r : startCompleting now w id writer d = Ok (d', r) → quiet d d'.
Proof.
  intros H. unfold startCompleting in H. apply bind_ok in H as (? & _ & H). destruct (upload_in d w id) as [U|]; [|injection H as <- _; apply rtc_refl].
  destruct (Upload.status U); try (injection H as <- _; apply rtc_refl). all: destruct (_ && _); injection H as <- _; [apply rtc_refl|elsewhere].
Qed.
Lemma finishCompleting_quiet now w id stored writer d d' r : finishCompleting now w id stored writer d = Ok (d', r) → quiet d d'.
Proof.
  intros H. unfold finishCompleting in H. apply bind_ok in H as ([d0 [seq sourceSeq]] & H0%lock_calm & H). etrans; [by apply calm_quiet|].
  destruct (upload_in d0 w id) as [U|]; [|injection H as <- _; apply rtc_refl]. destruct (Upload.status U); try (injection H as <- _; apply rtc_refl).
  all: case_bool_decide; [by eapply release_as_quiet|]; destruct stored as [stored|]; [|by eapply release_as_quiet];
    destruct (upload_size d0 U) as [size|]; [|by eapply release_as_quiet]; destruct (Upload.objectId U) as [o|]; [|by eapply release_as_quiet];
    destruct (negb (stored =? size)); [by eapply release_as_quiet|]; destruct (walk d0 (Upload.nodeId U)) as [chain|] eqn:Hw; [|by eapply release_as_quiet];
    destruct (Walk.purged chain); [by eapply release_as_quiet|]; destruct (match _ with Some _ => _ | None => false end); [by eapply release_as_quiet|];
    destruct (_ || _); [injection H as <- _; elsewhere|]; by eapply publish_settle_quiet.
Qed.
Lemma attach_same_quiet now id U o size epoch seq sourceSeq d d' r : attach_same now id U o size epoch seq sourceSeq d = Ok (d', r) → quiet d d'.
Proof.
  intros H. unfold attach_same in H. destruct (walk d (Upload.nodeId U)) as [chain|]; [|by eapply release_as_quiet].
  destruct (Walk.purged chain); [by eapply release_as_quiet|]. destruct (underUnrotatedParent _ _ _); [injection H as <- _; apply rtc_refl|].
  destruct (negb _); [injection H as <- _; apply rtc_refl|]. destruct (_ || _); [injection H as <- _; apply rtc_refl|]. cbv zeta in H.
  set (d1 := set_uploads _ _) in H. etrans; [by apply calm_quiet, (calm_same d d1)|]. by eapply publish_settle_quiet.
Qed.
Lemma attach_sibling_quiet now id U o size n p e seq sourceSeq d d' r : attach_sibling now id U o size n p e seq sourceSeq d = Ok (d', r) → quiet d d'.
Proof.
  intros H. unfold attach_sibling in H. destruct (new_parent d _ _ _ _) as [|parent] eqn:Hpar; [injection H as <- _; apply rtc_refl|].
  destruct (insert_node n _ d) as [d1|] eqn:H1; [|injection H as <- _; apply rtc_refl]. cbv zeta in H. apply insert_quiet in H1; [|exact (new_parent_drawn _ _ _ _ _ _ None Hpar)]. etrans; [exact H1|].
  apply bind_ok in H as (d3 & H3 & H). set (dx := set_uploads (set_versions d1 _) _) in H3. etrans; [by apply calm_quiet, (calm_same d1 dx)|].
  assert (quiet dx d3) as Hx; [|etrans; [exact Hx|by eapply publish_settle_quiet]].
  destruct (Upload.newNode U); [|injection H3 as <-; apply rtc_refl]. etrans; [apply calm_quiet, (drop_calm (λ x, Version.nodeId x.2 = Upload.nodeId U))|by eapply delete_node_quiet].
Qed.
Lemma attachUpload_quiet now w id i writer d d' r : attachUpload now w id i writer d = Ok (d', r) → quiet d d'.
Proof.
  intros H. unfold attachUpload in H. apply bind_ok in H as ([d0 [seq sourceSeq]] & H0%lock_calm & H). etrans; [by apply calm_quiet|].
  destruct (upload_in d0 w id) as [U|]; [|injection H as <- _; apply rtc_refl]. destruct (Upload.status U); try (injection H as <- _; apply rtc_refl).
  destruct (Upload.objectId U ≫= _) as [[o O]|]; [|injection H as <- _; apply rtc_refl]. destruct (match _ with Some _ => _ | None => false end); [by eapply release_as_quiet|].
  apply bind_ok in H as (signed & _ & H). destruct signed; [|injection H as <- _; apply rtc_refl]. cbn in H.
  destruct (AttachInput.mode i); [by eapply attach_same_quiet|by eapply attach_sibling_quiet].
Qed.
Lemma abortUpload_quiet now w id force d d' r : abortUpload now w id force d = Ok (d', r) → quiet d d'.
Proof.
  intros H. unfold abortUpload in H. apply bind_ok in H as ([d0 n] & H0%next_calm & H). etrans; [by apply calm_quiet|].
  destruct (upload_in d0 w id) as [U|]; [|injection H as <- _; apply rtc_refl]. destruct (Upload.status U); try (injection H as <- _; apply rtc_refl).
  2: destruct force; [|injection H as <- _; apply rtc_refl]. all: by eapply release_as_quiet.
Qed.
Lemma copyFile_quiet now i d d' r : copyFile now i d = Ok (d', r) → quiet d d'.
Proof.
  intros H. unfold copyFile, transactionKeeping in H. apply bind_ok in H as ([d1 r1] & H1 & H). injection H as <- <-.
  destruct r1 as [|id]; [apply rtc_refl|]. cbn. unfold copyFileOnce in H1. apply bind_ok in H1 as ([d0 n] & H0%next_calm & H1). etrans; [by apply calm_quiet|].
  cbv zeta in H1. destruct (walked d0 _ _ file); [|done]. destruct (Walk.trashed _); [done|]. destruct (current_version d0 _) as [[[x V] [o O]]|]; [|done].
  destruct (_ || _); [done|]. destruct (Obj.status O !== object_ready); [done|]. destruct (new_parent d0 _ _ _ _) as [|parent] eqn:Hpar; [done|]. destruct (negb (slen _ =? _)); [done|].
  apply bind_ok in H1 as (signed & _ & H1). destruct signed; [|done]. cbn in H1. destruct (storageFigures now d0 _) as [s|]; [|done]. destruct (_ <? _); [done|].
  destruct (insert_node _ _ d0 ≫= _) as [d3|] eqn:H3; [|done]. apply bind_Some in H3 as (d2 & H2 & H3). apply insert_quiet in H2; [|exact (new_parent_drawn _ _ _ _ _ _ (Some n) Hpar)].
  apply insert_version_is in H3 as [_ ->]. apply bind_ok in H1 as (d4 & H4%adjusted_calm & H1). injection H1 as <- _. etrans; [exact H2|]. apply calm_quiet. set (d3 := set_versions d2 _) in H4.
  etrans; [by apply (calm_same d2 d3)|]. etrans; [exact H4|]. etrans; [|apply raise_calm]. by apply calm_alter.
Qed.
Lemma restoreVersion_quiet now w v writer d d' r : restoreVersion now w v writer d = Ok (d', r) → quiet d d'.
Proof.
  intros H. unfold restoreVersion in H. apply bind_ok in H as ([d0 n] & H0%next_calm & H). etrans; [by apply calm_quiet|]. cbv zeta in H. repeat case_match; try (injection H as <- _; apply rtc_refl).
  injection H as <- _. set (d1 := set_versions d0 _). etrans; [by apply calm_quiet, (calm_same d0 d1)|]. apply calm_quiet. by apply (calm_alter d1).
Qed.
Lemma discardVersion_quiet now w v writer d d' r : discardVersion now w v writer d = Ok (d', r) → quiet d d'.
Proof.
  intros H. unfold discardVersion in H. apply bind_ok in H as ([d0 n] & H0%next_calm & H). etrans; [by apply calm_quiet|]. cbv zeta in H.
  destruct (version_in d0 w v) as [V|]; [|injection H as <- _; apply rtc_refl]. destruct (_ !== _); [injection H as <- _; apply rtc_refl|]. destruct (walk d0 _) as [chain|]; [|injection H as <- _; apply rtc_refl].
  destruct (Walk.purged chain); [injection H as <- _; apply rtc_refl|]. destruct (_ || _); [injection H as <- _; apply rtc_refl|]. apply bind_ok in H as (d1 & H1 & H). injection H as <- _. by eapply purgeVersion_quiet.
Qed.
Lemma purgeNode_quiet now w n writer d d' r : purgeNode now w n writer d = Ok (d', r) → quiet d d'.
Proof.
  intros H. unfold purgeNode in H. apply bind_ok in H as ([d0 s] & H0%next_calm & H). etrans; [by apply calm_quiet|].
  destruct (purgeRefusal _ _); [injection H as <- _; apply rtc_refl|]. apply bind_ok in H as ([d1 b] & H1 & H). injection H as <- _. by eapply purgeOne_quiet.
Qed.
Lemma purge_going_quiet now w going : ∀ seq d d' r, purge_going now w going seq d = Ok (d', r) → quiet d d'.
Proof.
  induction going as [|[id above] going IH]; intros seq d d' r H; cbn in H; [injection H as <- _; apply rtc_refl|].
  apply bind_ok in H as ([d1 b] & H1 & H). apply bind_ok in H as ([d2 r2] & H2 & H). injection H as <- _. etrans; [by eapply purgeOne_quiet|by eapply IH].
Qed.
Lemma purgeNodes_quiet now w ids writer fits d d' r : purgeNodes now w ids writer fits d = Ok (d', r) → quiet d d'.
Proof.
  intros H. unfold purgeNodes in H. not_refused H E1. not_refused H E2. destruct (negb _); [injection H as <- _; apply rtc_refl|].
  apply bind_ok in H as ([d0 s] & H0%next_calm & H). etrans; [by apply calm_quiet|]. apply bind_ok in H as ([d1 done] & H1 & H). injection H as <- _. apply purge_going_quiet in H1. etrans; [exact H1|].
  destruct (1 <? _); [apply calm_quiet, more_calm|apply rtc_refl].
Qed.
Lemma purge_rows_quiet now rows : ∀ d d' r, purge_rows now rows d = Ok (d', r) → quiet d d'.
Proof.
  induction rows as [|row rows IH]; intros d d' r H; cbn in H; [injection H as <- _; apply rtc_refl|]. apply bind_ok in H as ([d1 b] & H1 & H). apply bind_ok in H as ([d2 c] & H2 & H).
  injection H as <- _. unfold purge_descendant in H1. apply bind_ok in H1 as ([d0 s] & H0%next_calm & H1). etrans; [by apply calm_quiet|]. etrans; [by eapply purgeOne_quiet|by eapply IH].
Qed.
Lemma purge_superseded_quiet now w v d d' r : purge_superseded now w v d = Ok (d', r) → quiet d d'.
Proof.
  intros H. unfold purge_superseded in H. apply bind_ok in H as ([d0 s] & H0%next_calm & H). etrans; [by apply calm_quiet|]. destruct (Db.versions d0 !! v) as [V|]; [|injection H as <- _; apply rtc_refl].
  destruct (_ || _); [injection H as <- _; apply rtc_refl|]. apply bind_ok in H as (d1 & H1 & H). injection H as <- _. by eapply purgeVersion_quiet.
Qed.
Lemma delete_tombstones_quiet ids : ∀ d d', delete_tombstones ids d = Ok d' → quiet d d'.
Proof.
  induction ids as [|n ids IH]; intros d d' H; cbn in H; [injection H as <-; apply rtc_refl|]. apply bind_ok in H as (d1 & H1 & H). apply delete_node_quiet in H1. etrans; [exact H1|].
  destruct (Db.nodes d !! n) as [N|]; [|by apply IH]. etrans; [|by apply IH]. apply calm_quiet, calm_workspaces, seqs_alter. intros W. cbn. lia.
Qed.
Lemma run_quiet now q d d' u : run now q d = Ok (d', u) → quiet d d'.
Proof.
  intros H. destruct q; cbn [run] in H; apply forget_ok in H as (a & H).
  - by eapply beginUpload_quiet.
  - by eapply startCompleting_quiet.
  - by eapply finishCompleting_quiet.
  - by eapply attachUpload_quiet.
  - by eapply abortUpload_quiet.
  - by eapply copyFile_quiet.
  - by eapply restoreVersion_quiet.
  - by eapply discardVersion_quiet.
  - by eapply purgeNode_quiet.
  - by eapply purgeNodes_quiet.
  - by eapply purge_rows_quiet.
  - by eapply purge_superseded_quiet.
  - unfold deleteExpiredTombstones in H. apply bind_ok in H as (d1 & H1 & H). injection H as <- _. by eapply delete_tombstones_quiet.
Qed.

(** ** Transactions that shape the tree *)

Lemma create_one_quiet w f seq created d d' made : create_one w f seq created d = inr (d', made) → quiet d d'.
Proof.
  intros H. unfold create_one in H. cbv zeta in H. destruct (parent_made _ _ _ _) as [|parent]; [done|]. destruct (_ <? _); [done|]. destruct (negb _); [done|].
  destruct (epochWasAllocated d w _) eqn:Ee; [|done]. cbn in H. destruct (insert_node _ _ d) as [d1|] eqn:Hi; [|done]. injection H as <- _. etrans; [eapply insert_quiet; [exact Hi|by split]|]. apply calm_quiet, raise_calm.
Qed.
Lemma create_each_quiet w folders : ∀ seq created d d', create_each w folders seq created d = inr d' → quiet d d'.
Proof.
  induction folders as [|f folders IH]; intros seq created d d' H; cbn in H; [injection H as <-; apply rtc_refl|]. destruct (create_one w f seq created d) as [|[d1 made]] eqn:H1; [done|].
  etrans; [by eapply create_one_quiet|by eapply IH].
Qed.
Lemma createFolders_quiet now w user folders d d' r : createFolders now w user folders d = Ok (d', r) → quiet d d'.
Proof.
  intros H. unfold createFolders, transactionKeeping in H. apply bind_ok in H as ([d1 r1] & H1 & H). injection H as <- <-. destruct r1 as [|seq]; [apply rtc_refl|]. cbn.
  unfold createFoldersOnce in H1. apply bind_ok in H1 as ([d0 n] & H0%next_calm & H1). cbv zeta in H1. apply bind_ok in H1 as (signed & _ & H1). destruct signed; [|done]. cbn in H1.
  etrans; [by apply calm_quiet|]. destruct (create_each w folders n ∅ _) as [[]|d3] eqn:H3; [done|]. injection H1 as <- _. apply create_each_quiet in H3. etrans; [|exact H3].
  destruct (1 <? _); [apply calm_quiet, more_calm|apply rtc_refl].
Qed.
Lemma renameNode_quiet now i d d' r : renameNode now i d = Ok (d', r) → quiet d d'.
Proof.
  intros H. unfold renameNode in H. apply bind_ok in H as ([d0 n] & H0%next_calm & H). etrans; [by apply calm_quiet|]. destruct (node_in _ _ _) as [c|]; [|injection H as <- _; apply rtc_refl].
  destruct (Walk.trashed c); [injection H as <- _; apply rtc_refl|]. apply bind_ok in H as (signed & _ & H). destruct (negb signed); [injection H as <- _; apply rtc_refl|].
  destruct (Db.nodes d0 !! Rename.nodeId i) as [N|] eqn:HN; [|injection H as <- _; apply rtc_refl]. destruct (_ && _); injection H as <- _; [|apply rtc_refl].
  apply calm_quiet. by eapply calm_row.
Qed.
Lemma moveNode_quiet now w writer n p e d d' r : moveNode now w writer n p e d = Ok (d', r) → quiet d d'.
Proof.
  intros H. unfold moveNode in H. apply bind_ok in H as ([d0 seq] & H0%next_calm & H). etrans; [by apply calm_quiet|]. cbv zeta in H. repeat case_match; try (injection H as <- _; apply rtc_refl).
  injection H as <- _. apply calm_quiet. etrans; [|apply raise_calm]. by apply calm_alter.
Qed.
Lemma markTrashed_calm ids at_ : ∀ seq d, calm d (markTrashed ids seq at_ d).
Proof. induction ids as [|id ids IH]; intros seq d; cbn; [done|]. etrans; [|apply IH]. by apply calm_alter. Qed.
Lemma marked_calm ids seq at_ w count d : calm d (markTrashed ids seq at_ (if 1 <? count then moreChangeSeqs w (count - 1) d else d)).
Proof. etrans; [|apply markTrashed_calm]. destruct (1 <? count); [apply more_calm|done]. Qed.
Lemma trashNode_quiet now w n writer d d' r : trashNode now w n writer d = Ok (d', r) → quiet d d'.
Proof.
  intros H. unfold trashNode in H. apply bind_ok in H as ([d0 s] & H0%next_calm & H). etrans; [by apply calm_quiet|]. destruct (trashRefusal _ _); injection H as <- _; [apply rtc_refl|apply calm_quiet; exact (markTrashed_calm [n] (Some now) s d0)].
Qed.
Lemma trashNodes_quiet now served seen w ids writer d d' r : trashNodes now served seen w ids writer d = Ok (d', r) → quiet d d'.
Proof.
  intros H. unfold trashNodes in H. not_refused H E1. not_refused H E2. cbv zeta in H. destruct (_ && _); [injection H as <- _; apply rtc_refl|].
  unfold trash_batch in H. apply bind_ok in H as ([d0 s] & H0%next_calm & H). etrans; [by apply calm_quiet|]. injection H as <- _. apply calm_quiet, marked_calm.
Qed.
Lemma removeNode_quiet now w n d d' r : removeNode now w n d = Ok (d', r) → quiet d d'.
Proof.
  intros H. unfold removeNode in H. apply bind_ok in H as ([d0 s] & H0%next_calm & H). etrans; [by apply calm_quiet|]. destruct (node_in _ _ _) as [c|]; [|injection H as <- _; apply rtc_refl].
  case_bool_decide; injection H as <- _; [apply rtc_refl|]. apply calm_quiet. etrans; [|apply revoke_calm]. by apply calm_alter.
Qed.
Lemma restoreNode_quiet now w writer n t d d' r : restoreNode now w writer n t d = Ok (d', r) → quiet d d'.
Proof.
  intros H. unfold restoreNode in H. apply bind_ok in H as ([d0 s] & H0%next_calm & H). etrans; [by apply calm_quiet|]. destruct (walk d0 n) as [c|]; [|injection H as <- _; apply rtc_refl].
  destruct (restoreRefusal _ _); [injection H as <- _; apply rtc_refl|]. case_bool_decide as Hb; [injection H as <- _; apply calm_quiet; exact (markTrashed_calm [n] None s d0)|].
  destruct (restore_to_root _ _ _ _ _ _) as [|d1] eqn:H1; injection H as <- _; [apply rtc_refl|]. unfold restore_to_root in H1. destruct t as [t|]; [|done]. destruct (walk d0 (Walk.rootId c)) as [root|]; [|done].
  destruct (underUnrotatedParent _ _ _); [done|]. destruct (negb _); [done|]. destruct (_ <? _); [done|]. injection H1 as <-. apply calm_quiet. set (d1 := set_nodes d0 _).
  assert (calm d0 d1) as Hc by by apply calm_alter. destruct (walk d1 _) as [r1|]; [|exact Hc]. etrans; [exact Hc|apply raise_calm].
Qed.
Lemma restoreNodes_quiet now w ids writer d d' r : restoreNodes now w ids writer d = Ok (d', r) → quiet d d'.
Proof.
  intros H. unfold restoreNodes in H. not_refused H E1. not_refused H E2. apply bind_ok in H as ([d0 s] & H0%next_calm & H). etrans; [by apply calm_quiet|]. injection H as <- _. apply calm_quiet, marked_calm.
Qed.
Lemma run_tree_quiet now q d d' u : run_tree now q d = Ok (d', u) → quiet d d'.
Proof.
  intros H. destruct q; cbn [run_tree] in H; apply forget_ok in H as (a & H).
  - by eapply createFolders_quiet.
  - by eapply renameNode_quiet.
  - by eapply moveNode_quiet.
  - by eapply trashNode_quiet.
  - by eapply trashNodes_quiet.
  - by eapply removeNode_quiet.
  - by eapply restoreNode_quiet.
  - by eapply restoreNodes_quiet.
Qed.
End transactions.
