(* ===== verification/DriveGrants.v ===== *)
(** * What the Drive server's grants are sealed under (packages/db/src/drive.ts, rotations.ts)

    Through any run of the transactions of [DriveUploads], [DrivePurges],
    [DriveTree], [DriveSharing] and [DriveRotations], a live share or link is
    sealed under its node's key as it is ([sealed]); so a rotation that
    finishes shuts out whoever lost a grant before it began, and who reads
    what is the walk's to say. *)

From S2P Require Import Prelude Base64url Bytes Canonical HChaCha Crypto Content Envelopes Signatures RotationRecords ServerSignatures.
From S2P Require Import DriveTables Pool DriveUploads DrivePurges DriveAccounting DriveAlike DriveBalance DriveReached DriveTree DriveForest DriveGrows DriveTrees DriveTrash.
From S2P Require Import DriveRotations DriveWork DriveSharing DriveQuiet.

Implicit Types (d : Db.t) (k : Keys.t).

(** ** Sealed as its node is *)

(** An epoch a workspace has drawn. *)
Definition drawn_in d (w : string) (epoch : Z) : Prop := ∃ W, Db.workspaces d !! w = Some W ∧ epoch ≤ Workspace.keyEpochSeq W.
(** A grant's node, and the epoch it was sealed at: while it is live, the node's own. *)
Definition sealed_on d (node w : string) (epoch : Z) (live : Prop) : Prop :=
  ∃ N, Db.nodes d !! node = Some N ∧ w = Node.workspaceId N ∧ epoch ≤ Node.keyEpoch N ∧ (live → epoch = Node.keyEpoch N).
Record sealed k : Prop := {
  se_nodes : ∀ n N, Db.nodes (Keys.db k) !! n = Some N → 1 ≤ Node.keyEpoch N ∧ drawn_in (Keys.db k) (Node.workspaceId N) (Node.keyEpoch N) ∧
    (Node.reached N = true → ∀ e, Keys.prevEpochs k !! n = Some e → drawn_in (Keys.db k) (Node.workspaceId N) e.1);
  se_rotations : ∀ w r, Db.rotations (Keys.db k) !! w = Some r → drawn_in (Keys.db k) w (Rotation.targetEpoch r);
  se_shares : ∀ s S, Db.shares (Keys.db k) !! s = Some S → ∃ g, Keys.shareRows k !! s = Some g ∧
    sealed_on (Keys.db k) (Share.nodeId S) (Share.workspaceId S) (ShareRow.keyEpoch g) (Share.revoked S = false);
  se_links : ∀ l L, Db.links (Keys.db k) !! l = Some L → ∃ g, Keys.linkRows k !! l = Some g ∧
    sealed_on (Keys.db k) (Link.nodeId L) (LinkRow.workspaceId g) (LinkRow.keyEpoch g) (Link.revoked L = false);
  se_once : ∀ s s' S S', Db.shares (Keys.db k) !! s = Some S → Db.shares (Keys.db k) !! s' = Some S' → Share.revoked S = false → Share.revoked S' = false →
    Share.nodeId S = Share.nodeId S' → Share.granteeUserId S = Share.granteeUserId S' → s = s';
  se_tokens : ∀ l l' L L' g g', Db.links (Keys.db k) !! l = Some L → Db.links (Keys.db k) !! l' = Some L' → Keys.linkRows k !! l = Some g → Keys.linkRows k !! l' = Some g' →
    LinkRow.tokenHash g = LinkRow.tokenHash g' → l = l';
}.
Lemma sealed_beside k k' : Keys.db k' = Keys.db k → Keys.prevEpochs k' = Keys.prevEpochs k → Keys.shareRows k' = Keys.shareRows k → Keys.linkRows k' = Keys.linkRows k → sealed k → sealed k'.
Proof. intros E1 E2 E3 E4 []. by constructor; rewrite ?E1, ?E2, ?E3, ?E4. Qed.
Lemma drawn_calm d d' w e : seqs_grow (Db.workspaces d) (Db.workspaces d') → drawn_in d w e → drawn_in d' w e.
Proof. intros H (W & HW & He). destruct (H w W HW) as (W' & HW' & Hs). exists W'. split; [done|lia]. Qed.
Lemma sealed_on_rows d d' node w e (P P' : Prop) : map_Forall2 (λ _, same_key) (Db.nodes d) (Db.nodes d') → (P' → P) → sealed_on d node w e P → sealed_on d' node w e P'.
Proof.
  intros H HP (N & HN & -> & He & Hl). destruct (rows_fwd _ _ _ _ H HN) as (N' & HN' & [E1 E2 _]). exists N'. rewrite <-E1, <-E2. split_and!; try done. intros ?. by apply Hl, HP.
Qed.
Lemma calm_sealed k d' : calm (Keys.db k) d' → sealed k → sealed (set_db k d').
Proof.
  intros [Hn Hs Hl Hw Hr] [H1 H3 H4 H5 H6 H7]. constructor; cbn [set_db Keys.db Keys.prevEpochs Keys.shareRows Keys.linkRows].
  - intros n N' HN'. destruct (rows_bwd _ _ _ _ Hn HN') as (N & HN & [E1 E2 E3]). rewrite <-E1, <-E2, <-E3. destruct (H1 n N HN) as (? & Ha & Hb). split; [done|split; [by eapply drawn_calm|]].
    intros Hx e He. eapply drawn_calm; [done|]. by apply Hb.
  - intros w r E. rewrite Hr in E. eapply drawn_calm; [done|]. by apply H3.
  - intros s S' HS'. destruct (Hs s S' HS') as (S & HS & E). destruct (H4 s S HS) as (g & Hg & Ho). exists g. split; [done|]. destruct E as [-> | ->]; (eapply sealed_on_rows; [exact Hn| |exact Ho]; done).
  - intros s S' HS'. destruct (Hl s S' HS') as (S & HS & E). destruct (H5 s S HS) as (g & Hg & Ho). exists g. split; [done|]. destruct E as [-> | ->]; (eapply sealed_on_rows; [exact Hn| |exact Ho]; done).
  - intros s s' S S' (X & HX & E)%Hs (X' & HX' & E')%Hs Hlive Hlive' En Eg. destruct E as [-> | ->]; [|done]. destruct E' as [-> | ->]; [|done]. by apply (H6 s s' X X').
  - intros l l' L L' g g' (X & HX & _)%Hl (X' & HX' & _)%Hl. by apply (H7 l l' X X').
Qed.
Lemma sealed_on_new d n N node w e P : Db.nodes d !! n = None → sealed_on d node w e P → sealed_on (set_nodes d (<[n := N]> (Db.nodes d))) node w e P.
Proof. intros Hn (X & HX & H). exists X. split; [|done]. cbn. rewrite lookup_insert_ne; [done|congruence]. Qed.
Lemma hush_sealed k d' : hush (Keys.db k) d' → sealed k → sealed (set_db k d').
Proof.
  intros [d2 Hc|n N Hn [Hr Hd]|n] Hs; [by apply calm_sealed|..]; destruct Hs as [H1 H3 H4 H5 H6 H7]; constructor; cbn [set_db Keys.db Keys.prevEpochs Keys.shareRows Keys.linkRows set_nodes set_grants Db.nodes Db.shares Db.links Db.rotations].
  - intros x X. rewrite lookup_insert. case_decide as E; [|by apply H1]. subst x. intros [= <-]. unfold epochWasAllocated in Hd. destruct (Db.workspaces (Keys.db k) !! Node.workspaceId N) as [W|] eqn:HW; [|done].
    apply andb_true_iff in Hd as [?%Z.leb_le ?%Z.leb_le]. split; [done|split; [by exists W|congruence]].
  - exact H3.
  - intros s S HS. destruct (H4 s S HS) as (g & Hg & Ho). exists g. split; [done|]. by apply sealed_on_new.
  - intros l L HL. destruct (H5 l L HL) as (g & Hg & Ho). exists g. split; [done|]. by apply sealed_on_new.
  - exact H6.
  - exact H7.
  - intros x X [_ HX]%lookup_delete_Some. by apply H1.
  - exact H3.
  - intros s S [HS Hne]%map_lookup_filter_Some. destruct (H4 s S HS) as (g & Hg & N & HN & Ho). exists g. split; [done|]. exists N. split; [|done]. cbn in *. by rewrite lookup_delete_ne.
  - intros l L [HL Hne]%map_lookup_filter_Some. destruct (H5 l L HL) as (g & Hg & N & HN & Ho). exists g. split; [done|]. exists N. split; [|done]. cbn in *. by rewrite lookup_delete_ne.
  - intros s s' S S' [HS _]%map_lookup_filter_Some [HS' _]%map_lookup_filter_Some. by apply H6.
  - intros l l' L L' g g' [HL _]%map_lookup_filter_Some [HL' _]%map_lookup_filter_Some. by apply (H7 l l' L L').
Qed.
Lemma quiet_sealed k d' : quiet (Keys.db k) d' → sealed k → sealed (set_db k d').
Proof.
  intros H. remember (Keys.db k) as d0 eqn:E. revert k E. induction H as [d|d1 d2 d3 H _ IH]; intros k -> Hs; [by destruct k|].
  apply (IH (set_db k d2) eq_refl). by apply hush_sealed.
Qed.

(** ** What a transaction writes of them *)

(** A share put: its node's key now, on a row that is live and the same person's already, or on one never used. *)
Record put_share_ok k d (id : string) (S : Share.t) (g : ShareRow.t) : Prop := {
  ps_node : ∃ N, Db.nodes d !! Share.nodeId S = Some N ∧ Share.workspaceId S = Node.workspaceId N ∧ ShareRow.keyEpoch g = Node.keyEpoch N;
  ps_live : Share.revoked S = false;
  ps_once : ∀ s' S', Db.shares d !! s' = Some S' → Share.revoked S' = false → Share.nodeId S' = Share.nodeId S → Share.granteeUserId S' = Share.granteeUserId S → s' = id;
  ps_row : (∃ S0, Db.shares d !! id = Some S0 ∧ Share.revoked S0 = false) ∨ Keys.shareRows k !! id = None;
}.
Record put_link_ok k d (id : string) (L : Link.t) (g : LinkRow.t) : Prop := {
  pl_node : ∃ N, Db.nodes d !! Link.nodeId L = Some N ∧ LinkRow.workspaceId g = Node.workspaceId N ∧ LinkRow.keyEpoch g = Node.keyEpoch N;
  pl_token : ∀ l' L' g', Db.links d !! l' = Some L' → Keys.linkRows k !! l' = Some g' → LinkRow.tokenHash g' = LinkRow.tokenHash g → l' = id;
}.
(** What a node's re-keying asks of the tables. *)
Record rotates_on k d (i : RotationInput.t) (item : RotatedNodeInput.t) (n : Node.t) : Prop := {
  ro_node : Db.nodes d !! RotatedNodeInput.id item = Some n;
  ro_workspace : Node.workspaceId n = RotationInput.workspaceId i;
  ro_target : Node.keyEpoch n < RotationInput.targetEpoch i;
  ro_drawn : Db.rotations d !! RotationInput.workspaceId i = Some (Rotation.Build_t (RotationInput.rootId i) (RotationInput.targetEpoch i));
}.
(** Calm, and every node where it hung. *)
Definition placed d d' : Prop := calm d d' ∧ map_Forall2 (λ _, same_place) (Db.nodes d) (Db.nodes d').
#[export] Instance placed_preorder : PreOrder placed.
Proof. split; [intros d; split; [done|apply rows_refl]|intros d1 d2 d3 [] []; split; [by etrans|by eapply rows_trans]]. Qed.
Lemma placed_nodes d d' : calm d d' → Db.nodes d' = Db.nodes d → placed d d'.
Proof. intros Hc E. split; [done|]. rewrite E. apply rows_refl. Qed.
Inductive grant_write k : Keys.t → Prop :=
  | gw_placed d : placed (Keys.db k) d → grant_write k (set_db k d)
  | gw_beside k' : Keys.db k' = Keys.db k → Keys.prevEpochs k' = Keys.prevEpochs k → Keys.shareRows k' = Keys.shareRows k → Keys.linkRows k' = Keys.linkRows k → grant_write k k'
  | gw_share id S g : put_share_ok k (Keys.db k) id S g →
      grant_write k (set_rows k (set_shares (Keys.db k) (<[id := S]> (Db.shares (Keys.db k)))) (<[id := g]> (Keys.shareRows k)) (Keys.linkRows k))
  | gw_link id L g : put_link_ok k (Keys.db k) id L g →
      grant_write k (set_rows k (set_links (Keys.db k) (<[id := L]> (Db.links (Keys.db k)))) (Keys.shareRows k) (<[id := g]> (Keys.linkRows k)))
  | gw_start w r : drawn_in (Keys.db k) w (Rotation.targetEpoch r) → grant_write k (set_db k (set_rotations (Keys.db k) (<[w := r]> (Db.rotations (Keys.db k)))))
  | gw_rotated i item rotated n seq metadata versions : rotates_on k (Keys.db k) i item n →
      grant_write k (write_rotated i item rotated n seq metadata versions k (Keys.db k))
  | gw_ended w ids : grant_write k (set_db (clear_previous ids k (Keys.db k)) (set_rotations (Keys.db (clear_previous ids k (Keys.db k))) (delete w (Db.rotations (Keys.db k))))).

Lemma sealed_on_same d d' node w e P : Db.nodes d' = Db.nodes d → sealed_on d node w e P → sealed_on d' node w e P.
Proof. unfold sealed_on. by intros ->. Qed.
Lemma put_share_sealed k id S g : put_share_ok k (Keys.db k) id S g → sealed k →
  sealed (set_rows k (set_shares (Keys.db k) (<[id := S]> (Db.shares (Keys.db k)))) (<[id := g]> (Keys.shareRows k)) (Keys.linkRows k)).
Proof.
  intros [(N & HN & Ew & Ee) Hl Honce _] [H1 H3 H4 H5 H6 H7]. constructor; cbn; try done.
  - intros s X. rewrite !lookup_insert. case_decide as E; [intros [= <-]|by apply H4]. exists g. split; [done|]. exists N. split_and!; [done|done|lia|done].
  - intros s s' X X'. rewrite !lookup_insert. repeat case_decide; subst.
    + done.
    + intros [= <-] HX' _ Hl' En Eg. symmetry. by eapply Honce.
    + intros HX [= <-] Hl' _ En Eg. by eapply Honce.
    + by apply H6.
Qed.
Lemma put_link_sealed k id L g : put_link_ok k (Keys.db k) id L g → sealed k →
  sealed (set_rows k (set_links (Keys.db k) (<[id := L]> (Db.links (Keys.db k)))) (Keys.shareRows k) (<[id := g]> (Keys.linkRows k))).
Proof.
  intros [(N & HN & Ew & Ee) Honce] [H1 H3 H4 H5 H6 H7]. constructor; cbn; try done.
  - intros l X. rewrite !lookup_insert. case_decide as E; [intros [= <-]|by apply H5]. exists g. split; [done|]. exists N. split_and!; [done|done|lia|done].
  - intros l l' X X' y y'. rewrite !lookup_insert. repeat case_decide; subst.
    + done.
    + intros _ HX' [= <-] Hy' E. symmetry. by eapply Honce.
    + intros HX _ Hy [= <-] E. by eapply Honce.
    + by apply H7.
Qed.
Lemma start_sealed k w r : drawn_in (Keys.db k) w (Rotation.targetEpoch r) → sealed k → sealed (set_db k (set_rotations (Keys.db k) (<[w := r]> (Db.rotations (Keys.db k))))).
Proof. intros Hd [H1 H3 H4 H5 H6 H7]. constructor; cbn; try done. intros w' r'. rewrite lookup_insert. case_decide; [|apply H3]. subst w'. by intros [= <-]. Qed.
Lemma ended_sealed k w ids : sealed k → sealed (set_db (clear_previous ids k (Keys.db k)) (set_rotations (Keys.db (clear_previous ids k (Keys.db k))) (delete w (Db.rotations (Keys.db k))))).
Proof.
  intros [H1 H3 H4 H5 H6 H7]. set (nodes := map_imap (λ id n, Some (if bool_decide (id ∈ ids) then with_reached n else n)) (Db.nodes (Keys.db k))).
  assert (∀ n N', nodes !! n = Some N' → ∃ N, Db.nodes (Keys.db k) !! n = Some N ∧ Node.keyEpoch N' = Node.keyEpoch N ∧ Node.workspaceId N' = Node.workspaceId N ∧ (Node.reached N' = true → Node.reached N = true)) as Hn.
  { intros n N' HN. unfold nodes in HN. rewrite map_lookup_imap in HN. apply bind_Some in HN as (N & HN & [= <-]). exists N. by case_bool_decide. }
  assert (∀ node ws e P, sealed_on (Keys.db k) node ws e P → sealed_on (set_nodes (Keys.db k) nodes) node ws e P) as Hon.
  { intros node ws e P (N & HN & -> & He). cbn. exists (if bool_decide (node ∈ ids) then with_reached N else N). split; [unfold nodes; cbn; by rewrite map_lookup_imap, HN|]. by case_bool_decide. }
  constructor; cbn -[nodes]; fold nodes.
  - intros n N' HN'. destruct (Hn n N' HN') as (N & HN & -> & -> & Hr). destruct (H1 n N HN) as (? & ? & Hx). split; [done|split; [done|]]. intros Hr' e [He _]%map_lookup_filter_Some. by apply Hx; [apply Hr|].
  - intros w' r [_ Hr]%lookup_delete_Some. by apply (H3 w' r).
  - intros s S HS. destruct (H4 s S HS) as (g & Hg & Ho). rewrite map_lookup_imap, Hg. cbn. rewrite HS. eexists. split; [done|]. apply Hon. by case_bool_decide.
  - intros l L HL. destruct (H5 l L HL) as (g & Hg & Ho). exists g. split; [done|]. by apply Hon.
  - exact H6.
  - exact H7.
Qed.
(** Rows sealed again: at the target, live ones of the node alone; links whose tokens they keep. *)
Lemma seal_shares_row d id target sent : ∀ rows s, foldl (seal_share d id target) rows sent !! s = rows !! s ∨
  ∃ S g g', Db.shares d !! s = Some S ∧ Share.nodeId S = id ∧ Share.revoked S = false ∧ rows !! s = Some g ∧ foldl (seal_share d id target) rows sent !! s = Some g' ∧ ShareRow.keyEpoch g' = target.
Proof.
  induction sent as [|x sent IH] using rev_ind; intros rows s; [by left|]. rewrite foldl_app. cbn [foldl]. set (m := foldl _ rows sent) in *. specialize (IH rows s). fold m in IH.
  unfold seal_share. destruct (Db.shares d !! x.1) as [S|] eqn:HS; [|done]. destruct (m !! x.1) as [g|] eqn:Hg; [|done]. destruct (_ && _) eqn:E; [|done]. apply andb_true_iff in E as [[[_ En]%andb_true_iff Er]%andb_true_iff _]. apply bool_decide_eq_true in En.
  rewrite lookup_insert. case_decide as Es; [subst s|done]. right. exists S. assert (∃ g0, rows !! x.1 = Some g0) as [g0 H0] by (destruct IH as [IH|(? & g0 & ? & _ & _ & _ & IH & _)]; [exists g; congruence|eauto]).
  exists g0. eexists. split_and!; try done. by apply negb_true_iff in Er.
Qed.
Lemma seal_links_row d id target sent : ∀ rows l, foldl (seal_link d id target) rows sent !! l = rows !! l ∨
  ∃ L g g', Db.links d !! l = Some L ∧ Link.nodeId L = id ∧ rows !! l = Some g ∧ foldl (seal_link d id target) rows sent !! l = Some g' ∧ LinkRow.keyEpoch g' = target ∧
    LinkRow.tokenHash g' = LinkRow.tokenHash g ∧ LinkRow.workspaceId g' = LinkRow.workspaceId g.
Proof.
  induction sent as [|x sent IH] using rev_ind; intros rows l; [by left|]. rewrite foldl_app. cbn [foldl]. set (m := foldl _ rows sent) in *. pose proof (IH rows l) as IHl. fold m in IHl.
  unfold seal_link. destruct (Db.links d !! x) as [L|] eqn:HL; [|done]. destruct (m !! x) as [g|] eqn:Hg; [|done]. destruct (_ && _) eqn:E; [|done]. apply andb_true_iff in E as [En _]. apply bool_decide_eq_true in En.
  rewrite lookup_insert. case_decide as El; [subst l|done]. right. exists L.
  destruct IHl as [E|(_ & g0 & g1 & _ & _ & H0 & H1 & _ & Et & Ew)]; [exists g|exists g0]; eexists; (split_and!; [done|done|congruence|done|done|..]; cbn; congruence).
Qed.
Lemma rotated_nodes k d i item rotated n seq metadata versions : Db.nodes (Keys.db (write_rotated i item rotated n seq metadata versions k d)) =
  <[RotatedNodeInput.id item := with_node_key n (RotationInput.targetEpoch i) (RotatedNodeInput.parentKeyEpoch item) seq]> (Db.nodes d).
Proof. done. Qed.
(** A grant of the node that stays live is sealed at the target; any other grant is as it was. *)
Lemma rotated_on k i item rotated n seq metadata versions node w e e' (P P' : Prop) : rotates_on k (Keys.db k) i item n → sealed_on (Keys.db k) node w e P →
  (node ≠ RotatedNodeInput.id item → e' = e ∧ (P' → P)) → (node = RotatedNodeInput.id item → e' = e ∧ ¬ P' ∨ e' = RotationInput.targetEpoch i) →
  sealed_on (Keys.db (write_rotated i item rotated n seq metadata versions k (Keys.db k))) node w e' P'.
Proof.
  intros [Hn _ Ht _] (N & HN & -> & He & Hl) Hother Hnode. unfold sealed_on. rewrite rotated_nodes, lookup_insert. case_decide as E.
  - subst node. rewrite Hn in HN. injection HN as <-. eexists. split; [done|]. cbn. split; [done|]. destruct (Hnode eq_refl) as [[-> Hp]| ->]; split; [lia|done|lia|done].
  - destruct Hother as [-> Hp]; [done|]. exists N. split_and!; [done|done|done|]. intros ?. by apply Hl, Hp.
Qed.
Lemma rotated_sealed k i item rotated n seq metadata versions : rotates_on k (Keys.db k) i item n → sealed k → sealed (write_rotated i item rotated n seq metadata versions k (Keys.db k)).
Proof.
  intros Hro [H1 H3 H4 H5 H6 H7]. pose proof (written_grants i item rotated n seq metadata versions k (Keys.db k)) as [Gs Gl]. set (k' := write_rotated _ _ _ _ _ _ _ _ _) in *. destruct (Hro) as [Hn Hw Ht Hd].
  assert (∀ w e, drawn_in (Keys.db k) w e → drawn_in (Keys.db k') w e) as Hdr by done.
  assert (fewer_shares (Db.shares (Keys.db k)) (Db.shares (Keys.db k'))) as Hfs.
  { intros s S'. cbn. rewrite map_lookup_imap. intros (S & HS & [= <-])%bind_Some. exists S. split; [done|]. destruct (_ && _); auto. }
  assert (fewer_links (Db.links (Keys.db k)) (Db.links (Keys.db k'))) as Hfl.
  { intros s S'. cbn. rewrite map_lookup_imap. intros (S & HS & [= <-])%bind_Some. exists S. split; [done|]. destruct (_ && _); auto. }
  constructor.
  - intros x X. unfold k'. rewrite rotated_nodes, lookup_insert. case_decide as E.
    + subst x. intros [= <-]. cbn [with_node_key Node.workspaceId Node.keyEpoch Node.reached]. destruct (H1 _ n Hn) as (? & Hdn & Hp). split; [lia|split].
      * rewrite Hw. by apply Hdr, (H3 _ _ Hd).
      * intros _ e. cbn. case_bool_decide as Ex; cbn; [|rewrite andb_false_r, lookup_insert_eq; intros [= <-]; by apply Hdr].
        destruct (Node.reached n) eqn:Er; cbn; [intros He; by apply Hdr, Hp|rewrite lookup_insert_eq; intros [= <-]; by apply Hdr].
    + intros HX. destruct (H1 x X HX) as (? & ? & Hp). split; [done|split; [by apply Hdr|]]. intros Hr e He. apply Hdr, Hp; [done|]. cbn in He. destruct (_ && _); [done|]. by rewrite lookup_insert_ne in He.
  - exact H3.
  - intros s S' HS'. destruct (Hfs s S' HS') as (S & HS & E). destruct (H4 s S HS) as (g & Hg & Ho). assert (Share.nodeId S' = Share.nodeId S ∧ Share.workspaceId S' = Share.workspaceId S ∧ (Share.revoked S' = false → Share.revoked S = false)) as (-> & -> & Hlive) by (by destruct E as [-> | ->]).
    specialize (Gs s S' HS'). cbn [k' write_rotated Keys.shareRows] in Gs |- *. destruct (seal_shares_row (Keys.db (set_db k (set_nodes (Keys.db k) (Db.nodes (Keys.db k')))) ) (RotatedNodeInput.id item) (RotationInput.targetEpoch i) (RotatedRecords.shares rotated) (Keys.shareRows k) s) as [Er|(X & g0 & g' & HX & Ex & _ & _ & Hg' & Ee)].
    + cbn in Er. rewrite Er in *. exists g. split; [done|]. eapply rotated_on; [exact Hro|exact Ho|by split|]. intros En. left. split; [done|]. intros Hl. destruct Ho as (N & HN & _ & He & _). rewrite En, Hn in HN. injection HN as <-.
      assert (Share.nodeId S' = RotatedNodeInput.id item) as En' by (by destruct E as [-> | ->]). specialize (Gs En' Hl). rewrite Hg in Gs. cbn in Gs. apply Z.leb_le in Gs. lia.
    + cbn in Hg', HX. exists g'. split; [done|]. assert (X = S) as -> by congruence. eapply rotated_on; [exact Hro|exact Ho|done|by right].
  - intros l L' HL'. destruct (Hfl l L' HL') as (L & HL & E). destruct (H5 l L HL) as (g & Hg & Ho). assert (Link.nodeId L' = Link.nodeId L ∧ (Link.revoked L' = false → Link.revoked L = false)) as (-> & Hlive) by (by destruct E as [-> | ->]).
    specialize (Gl l L' HL'). cbn [k' write_rotated Keys.linkRows] in Gl |- *. destruct (seal_links_row (Keys.db (set_db k (set_nodes (Keys.db k) (Db.nodes (Keys.db k')))) ) (RotatedNodeInput.id item) (RotationInput.targetEpoch i) (RotatedRecords.links rotated) (Keys.linkRows k) l) as [Er|(X & g0 & g' & HX & Ex & Hg0 & Hg' & Ee & _ & Ew)].
    + cbn in Er. rewrite Er in *. exists g. split; [done|]. eapply rotated_on; [exact Hro|exact Ho|by split|]. intros En. left. split; [done|]. intros Hl. destruct Ho as (N & HN & _ & He & _). rewrite En, Hn in HN. injection HN as <-.
      assert (Link.nodeId L' = RotatedNodeInput.id item) as En' by (by destruct E as [-> | ->]). specialize (Gl En' Hl). rewrite Hg in Gl. cbn in Gl. apply Z.leb_le in Gl. lia.
    + cbn in Hg', HX. exists g'. split; [done|]. assert (X = L) as -> by congruence. assert (g0 = g) as -> by congruence. rewrite Ew. eapply rotated_on; [exact Hro|exact Ho|done|by right].
  - intros s s' S S' (X & HX & E)%Hfs (X' & HX' & E')%Hfs Hlive Hlive' En Eg. destruct E as [-> | ->]; [|done]. destruct E' as [-> | ->]; [|done]. by apply (H6 s s' X X').
  - intros l l' L L' g g' (X & HX & _)%Hfl (X' & HX' & _)%Hfl Hg Hg' Et.
    assert (∀ a y, Keys.linkRows k' !! a = Some y → ∃ y0, Keys.linkRows k !! a = Some y0 ∧ LinkRow.tokenHash y0 = LinkRow.tokenHash y) as Htok.
    { intros a y Hy. cbn in Hy. destruct (seal_links_row (Keys.db (set_db k (set_nodes (Keys.db k) (Db.nodes (Keys.db k'))))) (RotatedNodeInput.id item) (RotationInput.targetEpoch i) (RotatedRecords.links rotated) (Keys.linkRows k) a) as [Er|(_ & g0 & g1 & _ & _ & Hg0 & Hg1 & _ & Ett & _)]; cbn in *; [exists y; split; [congruence|done]|].
      exists g0. split; [done|]. congruence. }
    destruct (Htok l g Hg) as (y & Hy & Ey), (Htok l' g' Hg') as (y' & Hy' & Ey'). apply (H7 l l' X X' y y'); try done. congruence.
Qed.
Lemma write_sealed k k' : grant_write k k' → sealed k → sealed k'.
Proof.
  intros [d [Hc _]|k2 E1 E2 E3 E4|id S g Hp|id L g Hp|w r Hd|i item rotated n seq metadata versions Hro|w ids].
  - by apply calm_sealed.
  - by apply sealed_beside.
  - by apply put_share_sealed.
  - by apply put_link_sealed.
  - by apply start_sealed.
  - by apply rotated_sealed.
  - apply ended_sealed.
Qed.

(** *** A stopped share *)

(** Its envelope is the last it will have: no one can make it live again. *)
Definition stopped k (s : string) (epoch : Z) : Prop :=
  ShareRow.keyEpoch <$> Keys.shareRows k !! s = Some epoch ∧ ∀ S, Db.shares (Keys.db k) !! s = Some S → Share.revoked S = true.
Lemma stopped_fewer k k' s e : fewer_shares (Db.shares (Keys.db k)) (Db.shares (Keys.db k')) → ShareRow.keyEpoch <$> Keys.shareRows k' !! s = ShareRow.keyEpoch <$> Keys.shareRows k !! s →
  stopped k s e → stopped k' s e.
Proof. intros Hf Er [He Hs]. split; [congruence|]. intros S' (S & HS & E)%Hf. specialize (Hs S HS). by destruct E as [-> | ->]. Qed.
Lemma quiet_shares d d' : quiet d d' → fewer_shares (Db.shares d) (Db.shares d').
Proof.
  induction 1 as [d|d1 d2 d3 H _ IH]; [apply fewer_shares_refl|]. intros s S3 (S2 & H2 & E2)%IH. assert (∃ S1, Db.shares d1 !! s = Some S1 ∧ (S2 = S1 ∨ S2 = revoke_share S1)) as (S1 & H1 & E1).
  { destruct H as [d2 Hc|n N _ _|n]; [by apply (cm_shares _ _ Hc)|exists S2; by auto|]. cbn in H2. apply map_lookup_filter_Some in H2 as [H2 _]. exists S2. by auto. }
  exists S1. split; [done|]. destruct E1 as [-> | ->], E2 as [-> | ->]; auto.
Qed.
Lemma write_stopped k k' s e : grant_write k k' → stopped k s e → stopped k' s e.
Proof.
  intros [d [Hc _]|k2 E1 E2 E3 E4|id S g Hp|id L g Hp|w r Hd|i item rotated n seq metadata versions Hro|w ids] Hs.
  - eapply stopped_fewer; [by apply cm_shares|done|done].
  - unfold stopped. rewrite E1, E3. exact Hs.
  - destruct Hs as [He Hs]. assert (id ≠ s) as Hne.
    { intros ->. destruct (ps_row _ _ _ _ _ Hp) as [(S0 & HS & Hr)|Hn]; [specialize (Hs S0 HS); congruence|by rewrite Hn in He]. }
    split; cbn; [by rewrite lookup_insert_ne|intros X HX]. rewrite lookup_insert_ne in HX by done. by apply Hs.
  - exact Hs.
  - exact Hs.
  - eapply stopped_fewer; [|..|exact Hs]; cbn.
    + intros x X'. rewrite map_lookup_imap. intros (X & HX & [= <-])%bind_Some. exists X. split; [done|]. destruct (_ && _); auto.
    + destruct (seal_shares_row (Keys.db (set_db k (set_nodes (Keys.db k) (<[RotatedNodeInput.id item := with_node_key n (RotationInput.targetEpoch i) (RotatedNodeInput.parentKeyEpoch item) seq]> (Db.nodes (Keys.db k))))))
        (RotatedNodeInput.id item) (RotationInput.targetEpoch i) (RotatedRecords.shares rotated) (Keys.shareRows k) s) as [E|(X & _ & _ & HX & _ & Hr & _)]; cbn in *; [by rewrite E|]. destruct Hs as [_ Hs]. specialize (Hs X HX). congruence.
  - eapply stopped_fewer; [|..|exact Hs]; cbn; [apply fewer_shares_refl|]. rewrite map_lookup_imap. destruct (Keys.shareRows k !! s) as [g|]; [|done]. cbn. destruct (Db.shares (Keys.db k) !! s); [|done]. by case_bool_decide.
Qed.

(** ** What each operation writes *)

Lemma writes_sealed k k' : rtc grant_write k k' → sealed k → sealed k'.
Proof. induction 1; [done|]. intros ?. by eauto using write_sealed. Qed.
Lemma writes_placed k d : placed (Keys.db k) d → rtc grant_write k (set_db k d).
Proof. intros H. by apply rtc_once, gw_placed. Qed.
Lemma next_placed now w writer d d' s : nextChangeSeq now w writer d = Ok (d', s) → placed d d' ∧ Db.nodes d' = Db.nodes d ∧ Db.shares d' = Db.shares d ∧ Db.links d' = Db.links d.
Proof. intros H. split; [apply placed_nodes; [by eapply next_calm|by eapply next_nodes]|]. by apply next_is in H as [v ->]. Qed.
Lemma node_in_walked d w n c : node_in d w n = Some c → walk d n = Some c ∧ Walk.id c = n ∧ Db.nodes d !! n = Some (Walk.node c) ∧ Node.workspaceId (Walk.node c) = w ∧ Walk.purged c = false.
Proof.
  unfold node_in. destruct (walk d n) as [x|] eqn:Hw; [|done]. destruct (_ && _) eqn:E; [|done]. intros [= ->]. apply andb_true_iff in E as [E1%bool_decide_eq_true E2%negb_true_iff].
  destruct (walk_spec _ _ _ Hw) as (? & ? & _). by split_and!.
Qed.
Lemma sealed_node_placed n seq d : placed d (sealedOnNode n seq d).
Proof. split; [by apply calm_alter|by apply rows_alter]. Qed.
Lemma sealed_node_lookup n seq d x N : Db.nodes d !! x = Some N → ∃ N', Db.nodes (sealedOnNode n seq d) !! x = Some N' ∧ Node.workspaceId N' = Node.workspaceId N ∧ Node.keyEpoch N' = Node.keyEpoch N.
Proof. intros HN. cbn. rewrite lookup_alter. case_decide as E; [subst x|]; rewrite HN; by eexists. Qed.
Lemma live_share_some d n u id : live_share d n u = Some id → ∃ S, Db.shares d !! id = Some S ∧ Share.nodeId S = n ∧ Share.granteeUserId S = u ∧ Share.revoked S = false.
Proof.
  unfold live_share. intros ([x S] & E & ->)%fmap_Some. apply find_some in E as [Hin%list_elem_of_In%elem_of_map_to_list Hb]. cbn in Hb. bool_simpl. exists S. by split_and!.
Qed.
Lemma live_share_none d n u : live_share d n u = None → ∀ s S, Db.shares d !! s = Some S → Share.nodeId S = n → Share.granteeUserId S = u → Share.revoked S = true.
Proof.
  unfold live_share. intros E s S HS En Eu. destruct (List.find _ _) eqn:Ef; [done|]. pose proof (find_none _ _ Ef (s, S)) as Hn. cbn in Hn. rewrite !bool_decide_true in Hn by done.
  destruct (Share.revoked S); [done|]. discriminate Hn. apply list_elem_of_In. by apply elem_of_map_to_list.
Qed.

Lemma createShare_writes now i k k' r : sealed k → (Keys.shareRows k !! CreateShare.shareId i = None) → createShare now i k = Ok (k', r) → rtc grant_write k k'.
Proof.
  intros Hs Hfresh H. unfold createShare in H. destruct (negb _); [injection H as <- _; apply rtc_refl|]. destruct (in_group_area _ _); [injection H as <- _; apply rtc_refl|].
  apply bind_ok in H as ([d seq] & (Hc & En & Es & _)%next_placed & H). cbv zeta in H. destruct (node_in d _ _) as [c|] eqn:Hn; [|injection H as <- _; by apply writes_placed].
  destruct (Walk.trashed c); [injection H as <- _; by apply writes_placed|]. destruct (negb (_ =? _)) eqn:Ee; [injection H as <- _; by apply writes_placed|]. apply negb_false_iff, Z.eqb_eq in Ee.
  destruct (_ === _); [injection H as <- _; by apply writes_placed|]. destruct (node_in_walked _ _ _ _ Hn) as (_ & _ & HN & Hw & _). set (d1 := sealedOnNode _ seq d) in H.
  assert (placed (Keys.db k) d1) as Hc1 by (etrans; [exact Hc|apply sealed_node_placed]). pose proof (calm_sealed k d1 (proj1 Hc1) Hs) as Hs1. destruct (sealed_node_lookup (CreateShare.nodeId i) seq d _ _ HN) as (N' & HN' & Ew' & Ee'). fold d1 in HN'.
  etrans; [by apply writes_placed, Hc1|]. destruct (live_share d1 _ _) as [id|] eqn:El.
  - injection H as <- _. apply live_share_some in El as (S0 & HS0 & E1 & E2 & E3). apply rtc_once. refine (gw_share (set_db k d1) id _ _ _). constructor; cbn -[d1].
    + exists N'. split_and!; [done|congruence|congruence].
    + done.
    + intros s' S' HS' Hl En' Eg'. by apply (se_once _ Hs1 s' id S' S0); cbn -[d1]; congruence.
    + left. by exists S0.
  - not_refused H Et. injection H as <- _. apply rtc_once. unfold put_share. cbn [set_rows Keys.shareRows Keys.linkRows]. rewrite insert_delete_eq. refine (gw_share (set_db k d1) (CreateShare.shareId i) _ _ _). constructor; cbn -[d1].
    + exists N'. split_and!; [done|congruence|congruence].
    + done.
    + intros s' S' HS' Hl En' Eg'. pose proof (live_share_none _ _ _ El s' S' HS' En' Eg'). congruence.
    + by right.
Qed.
Lemma share_in_is d w s S : share_in d w s = Some S → Db.shares d !! s = Some S ∧ Share.workspaceId S = w ∧ Share.revoked S = false.
Proof. unfold share_in. destruct (Db.shares d !! s) as [X|]; [|done]. destruct (_ && _) eqn:E; [|done]. intros [= ->]. bool_simpl. by split_and!. Qed.
Lemma link_in_is k w l L g : link_in k w l = Some (L, g) → Db.links (Keys.db k) !! l = Some L ∧ Keys.linkRows k !! l = Some g ∧ LinkRow.workspaceId g = w ∧ Link.revoked L = false.
Proof.
  unfold link_in. destruct (Db.links (Keys.db k) !! l) as [X|]; [|done]. destruct (Keys.linkRows k !! l) as [y|]; [|done]. destruct (_ && _) eqn:E; [|done]. intros [= -> ->]. bool_simpl. by split_and!.
Qed.
Lemma resealShare_writes now w s granter epoch n k k' r : sealed k → resealShare now w s granter epoch n k = Ok (k', r) → rtc grant_write k k'.
Proof.
  intros Hs H. unfold resealShare in H. destruct (negb _); [injection H as <- _; apply rtc_refl|]. destruct (in_group_area _ _); [injection H as <- _; apply rtc_refl|].
  apply bind_ok in H as ([d seq] & (Hc & En & Es & _)%next_placed & H). cbv zeta in H. destruct (share_in d w s) as [S|] eqn:HS; [|injection H as <- _; by apply writes_placed]. destruct (Keys.shareRows k !! s) as [g|] eqn:Hg; [|injection H as <- _; by apply writes_placed].
  destruct (_ !== _); [injection H as <- _; by apply writes_placed|]. destruct (walk d _) as [c|] eqn:Hw; [|injection H as <- _; by apply writes_placed]. destruct (Walk.purged c); [injection H as <- _; by apply writes_placed|].
  destruct (negb (_ =? _)) eqn:Ee; [injection H as <- _; by apply writes_placed|]. apply negb_false_iff, Z.eqb_eq in Ee. injection H as <- _.
  apply share_in_is in HS as (HS & _ & Hl). destruct (walk_spec _ _ _ Hw) as (_ & HN & _). set (d1 := sealedOnNode _ seq d). assert (placed (Keys.db k) d1) as Hc1 by (etrans; [exact Hc|apply sealed_node_placed]).
  pose proof (calm_sealed k d1 (proj1 Hc1) Hs) as Hs1. destruct (sealed_node_lookup (Share.nodeId S) seq d _ _ HN) as (N' & HN' & Ew' & Ee'). fold d1 in HN'. etrans; [by apply writes_placed, Hc1|]. apply rtc_once.
  assert (Db.shares d1 !! s = Some S) as HS1 by exact HS. set (g' := ShareRow.Build_t _ _ _ _). assert (put_share_ok (set_db k d1) d1 s S g') as Hp.
  { constructor; cbn -[d1]; [|done| |left; by exists S].
    - exists N'. destruct (se_shares _ Hs1 s S HS1) as (_ & _ & X & HX & Ewx & _). cbn -[d1] in HX. assert (X = N') as -> by congruence. split_and!; [done|done|congruence].
    - intros s' S' HS' Hl' En' Eg'. by apply (se_once _ Hs1 s' s S' S). }
  pose proof (gw_share (set_db k d1) s S g' Hp) as Hg'. change (Keys.db (set_db k d1)) with d1 in Hg'. rewrite insert_id in Hg' by done. exact Hg'.
Qed.
Lemma due_beside w k : grant_write k (rotationDueAfterRevocation w k).
Proof. apply gw_beside; unfold rotationDueAfterRevocation; by destruct (in_group_area _ _). Qed.
Lemma revokeShare_writes w s k k' r : revokeShare w s k = (k', r) → rtc grant_write k k'.
Proof.
  intros H. unfold revokeShare in H. destruct (Db.workspaces _ !! w); [|injection H as <- _; apply rtc_refl]. destruct (share_in _ _ _) as [S|] eqn:HS; injection H as <- _; [|apply rtc_refl].
  apply share_in_is in HS as (HS & _). eapply rtc_r; [|apply due_beside]. apply writes_placed. apply placed_nodes; [|done]. split; [apply rows_refl| |apply fewer_links_refl|apply seqs_grow_refl|done].
  intros x X. cbn. rewrite lookup_insert. case_decide as E; [subst x; intros [= <-]; exists S; auto|intros HX; exists X; auto].
Qed.
Lemma link_of_none k token : link_of k token = None → ∀ l L g, Db.links (Keys.db k) !! l = Some L → Keys.linkRows k !! l = Some g → LinkRow.tokenHash g ≠ token.
Proof.
  unfold link_of. intros E l L g HL Hg Et. destruct (omap _ _) as [|e rest] eqn:Eo; [|done]. assert ((l, g, L) ∈ []) as Hx; [|by apply elem_of_nil in Hx].
  rewrite <-Eo. apply list_elem_of_omap. exists (l, g). split; [by apply elem_of_map_to_list|]. cbn. by rewrite bool_decide_true, HL.
Qed.
Lemma link_of_some k token l g L : link_of k token = Some (l, g, L) → Db.links (Keys.db k) !! l = Some L ∧ Keys.linkRows k !! l = Some g ∧ LinkRow.tokenHash g = token.
Proof.
  unfold link_of. intros E%head_Some_elem_of%list_elem_of_omap. destruct E as ([l' g'] & Hin%elem_of_map_to_list & E). cbn in E. case_bool_decide as Et; [|done].
  apply fmap_Some in E as (L' & HL & [= -> -> ->]). by split_and!.
Qed.
Lemma createLink_writes now i k k' r : sealed k → createLink now i k = Ok (k', r) → rtc grant_write k k'.
Proof.
  intros Hs H. unfold createLink in H. destruct (in_group_area _ _); [injection H as <- _; apply rtc_refl|]. apply bind_ok in H as ([d seq] & (Hc & En & _ & El)%next_placed & H). cbv zeta in H.
  destruct (node_in d _ _) as [c|] eqn:Hn; [|injection H as <- _; by apply writes_placed]. destruct (Walk.trashed c); [injection H as <- _; by apply writes_placed|].
  destruct (negb (_ =? _)) eqn:Ee; [injection H as <- _; by apply writes_placed|]. apply negb_false_iff, Z.eqb_eq in Ee. destruct (_ || _) eqn:Et; [injection H as <- _; by apply writes_placed|].
  apply orb_false_iff in Et as [Ei%bool_decide_eq_false%eq_None_not_Some Et%bool_decide_eq_false%eq_None_not_Some]. injection H as <- _.
  destruct (node_in_walked _ _ _ _ Hn) as (_ & _ & HN & Hw & _). set (d1 := sealedOnNode (CreateLink.nodeId i) seq d). assert (placed (Keys.db k) d1) as Hc1 by (etrans; [exact Hc|apply sealed_node_placed]).
  destruct (sealed_node_lookup (CreateLink.nodeId i) seq d _ _ HN) as (N' & HN' & Ew' & Ee'). fold d1 in HN'. etrans; [by apply writes_placed, Hc1|]. apply rtc_once.
  refine (gw_link (set_db k d1) (CreateLink.id i) _ _ _). constructor; cbn -[d1].
  - exists N'. split_and!; [done|congruence|congruence].
  - intros l' L' g' HL' Hg' E. destruct (link_of_none _ _ Et l' L' g'); [|done|done]. cbn in HL'. congruence.
Qed.
Lemma set_links_same d : set_links d (Db.links d) = d.
Proof. by destruct d. Qed.
Lemma updateLink_writes now i k k' r : sealed k → updateLink now i k = Ok (k', r) → rtc grant_write k k'.
Proof.
  intros Hs H. unfold updateLink in H. destruct (in_group_area _ _); [injection H as <- _; apply rtc_refl|]. apply bind_ok in H as ([d seq] & Hd & H). cbv zeta in H.
  assert (placed (Keys.db k) d ∧ Db.nodes d = Db.nodes (Keys.db k) ∧ Db.links d = Db.links (Keys.db k)) as (Hc & En & El).
  { destruct (UpdateLink.seal i); [|injection Hd as <- _; by split_and!]. apply bind_ok in Hd as ([d1 s] & (? & ? & _ & ?)%next_placed & Hd). injection Hd as <- _. by split_and!. }
  destruct (link_in k _ _) as [[L g]|] eqn:HL; [|injection H as <- _; by apply writes_placed]. destruct (walk d _) as [c|] eqn:Hw; [|injection H as <- _; by apply writes_placed].
  destruct (Walk.purged c); [injection H as <- _; by apply writes_placed|]. destruct (negb _); injection H as <- _; [by apply writes_placed|].
  apply link_in_is in HL as (HL & Hg & _ & Hlive). set (d1 := match seq with Some _ => _ | None => _ end).
  assert (placed (Keys.db k) d1) as Hc1 by (etrans; [exact Hc|]; unfold d1; destruct seq; [apply sealed_node_placed|done]). assert (Db.links d1 !! UpdateLink.linkId i = Some L) as HL1 by (unfold d1; destruct seq; cbn; congruence).
  pose proof (calm_sealed k d1 (proj1 Hc1) Hs) as Hs1. etrans; [by apply writes_placed, Hc1|]. apply rtc_once. set (g' := LinkRow.Build_t _ _ _ _ _ _).
  assert (put_link_ok (set_db k d1) d1 (UpdateLink.linkId i) L g') as Hp.
  { destruct (se_links _ Hs1 _ L HL1) as (y & Hy & N & HN & Ew & _ & Ee). cbn -[d1] in *. assert (y = g) as -> by congruence. constructor.
    - exists N. split_and!; [done|done|by apply Ee].
    - intros l' L' y HL' Hy' Et. by apply (se_tokens _ Hs1 l' _ L' L y g). }
  pose proof (gw_link (set_db k d1) _ L g' Hp) as Hg'. change (Keys.db (set_db k d1)) with d1 in Hg'. rewrite insert_id, set_links_same in Hg' by done. exact Hg'.
Qed.
Lemma revokeLink_writes w l k k' r : revokeLink w l k = (k', r) → rtc grant_write k k'.
Proof.
  intros H. unfold revokeLink in H. destruct (Db.workspaces _ !! w); [|injection H as <- _; apply rtc_refl]. destruct (link_in _ _ _) as [[L g]|] eqn:HL; injection H as <- _; [|apply rtc_refl].
  apply link_in_is in HL as (HL & _). eapply rtc_r; [|apply due_beside]. apply writes_placed. apply placed_nodes; [|done]. split; [apply rows_refl|apply fewer_shares_refl| |apply seqs_grow_refl|done].
  intros x X. cbn. rewrite lookup_insert. case_decide as E; [subst x; intros [= <-]; exists L; auto|intros HX; exists X; auto].
Qed.
Lemma nextAs_placed roster now w writer d d' s : nextChangeSeqAs roster now w writer d = Ok (d', s) → placed d d' ∧ Db.nodes d' = Db.nodes d.
Proof. intros (W & HW & _ & ->)%nextAs_is. split; [|done]. apply placed_nodes; [|done]. apply calm_workspaces. eapply seqs_insert; [exact HW|cbn; lia]. Qed.
Lemma startRotation_writes now i k k' r : startRotationIn now i k = Ok (k', r) → rtc grant_write k k'.
Proof.
  intros H. unfold startRotationIn in H. apply bind_ok in H as ([d s] & [Hc _]%nextAs_placed & H). cbv zeta in H. pose proof (writes_placed k d Hc) as Hd.
  destruct (walk d _) as [chain|]; [|by injection H as <- _]. destruct (_ || _); [by injection H as <- _|]. destruct (Db.rotations d !! _); [by injection H as <- _|].
  destruct (StartRotation.targetEpoch i) as [target|], (Db.workspaces d !! StartRotation.workspaceId i) as [W|] eqn:HW; try (by injection H as <- _).
  - destruct (_ || _) eqn:E; [by injection H as <- _|]. injection H as <- _. apply orb_false_iff in E as [E%Z.ltb_ge _].
    etrans; [exact Hd|]. apply rtc_once. apply (gw_start (set_db k d)). by exists W.
  - injection H as <- _. set (d1 := set_workspaces d _). assert (placed (Keys.db k) d1) as H1 by (etrans; [exact Hc|]; apply placed_nodes; [|done]; apply calm_workspaces; eapply seqs_insert; [exact HW|cbn; lia]).
    etrans; [by apply writes_placed, H1|]. apply rtc_once. apply (gw_start (set_db k d1)). eexists. cbn. split; [apply lookup_insert_eq|done].
Qed.
Lemma finish_writes now w root target seen k k' b : finishRotation now w root target seen k = Ok (k', b) → rtc grant_write k k'.
Proof.
  intros H. unfold finishRotation in H. destruct (negb _); [injection H as <- _; apply rtc_refl|]. apply bind_ok in H as ([d s] & (Hc & _)%next_placed & H).
  pose proof (writes_placed k d Hc) as Hd. destruct (Db.rotations d !! w); [|by injection H as <- _]. destruct (_ !== _); [by injection H as <- _|]. injection H as <- _.
  etrans; [exact Hd|]. apply rtc_once. exact (gw_ended (set_db k d) w _).
Qed.

Section rotate.
Context `{C : Crypto} `{NC : NodeCrypto} `{SK : SigningKeys}.
Lemma counted_placed i k k' : only_counted k i k' → ∃ d, k' = set_db k d ∧ placed (Keys.db k) d ∧ Db.nodes d = Db.nodes (Keys.db k) ∧ Db.rotations d = Db.rotations (Keys.db k).
Proof. intros (W & HW & ->). eexists. split; [done|]. split; [|by split]. apply placed_nodes; [|done]. apply calm_workspaces. eapply seqs_insert; [exact HW|cbn; lia]. Qed.
Lemma set_db_inj k d d' : set_db k d = set_db k d' → d = d'.
Proof. intros H. exact (f_equal Keys.db H). Qed.
Lemma rotateNode_writes now i item k k' r : rotateNodeIn now i item k = Ok (k', r) → rtc grant_write k k'.
Proof.
  intros H. destruct (rotated_shape _ _ _ _ _ _ H) as [[_ (d & -> & Hc & _)%counted_placed]|(_ & n & n' & Hn)]; [by apply writes_placed|].
  destruct (Z.le_gt_cases (RotationInput.targetEpoch i) (Node.keyEpoch n)) as [Hle|Hlt].
  - destruct (nr_wrapped _ _ _ _ _ _ Hn Hle) as (seq & d & (d' & E%set_db_inj & Hc & En & _)%counted_placed & ->). subst d'. apply writes_placed. etrans; [exact Hc|].
    pose proof (nr_found _ _ _ _ _ _ Hn) as Hf. rewrite <-En in Hf. split; [by eapply calm_row|by eapply rows_insert].
  - destruct (nr_written _ _ _ _ _ _ Hn Hlt) as (rotated & metadata & versions & seq & d & _ & (d' & E%set_db_inj & Hc & En & Er)%counted_placed & _ & ->). subst d'.
    etrans; [by apply writes_placed, Hc|]. apply rtc_once. apply (gw_rotated (set_db k d)). constructor; cbn.
    + rewrite En. exact (nr_found _ _ _ _ _ _ Hn).
    + exact (proj2 (nr_live _ _ _ _ _ _ Hn)).
    + done.
    + rewrite Er. exact (nr_target _ _ _ _ _ _ Hn).
Qed.
End rotate.

(** ** Any run *)

(** Every transaction that may touch the tables a grant reads, as it commits. What else is written leaves keys and places as they are. *)
Inductive grant_step `{SB : SignedBy} `{C : Crypto} `{NC : NodeCrypto} `{SK : SigningKeys} k : Keys.t → Prop :=
  | gs_bytes now q : grant_step k (set_db k (serve now q (Keys.db k)))
  | gs_shape now q : grant_step k (set_db k (transaction (run_tree now q) (Keys.db k)).1)
  | gs_epochs now w count writer : grant_step k (set_db k (transaction (allocateKeyEpochs now w count writer) (Keys.db k)).1)
  | gs_opened w W : Db.workspaces (Keys.db k) !! w = None → grant_step k (set_db k (set_workspaces (Keys.db k) (<[w := W]> (Db.workspaces (Keys.db k)))))
  | gs_top n N : Db.nodes (Keys.db k) !! n = None → drawn (Keys.db k) N → Node.parentId N = None → Node.kind N = folder → Node.heightBound N = 0 →
      grant_step k (set_db k (set_nodes (Keys.db k) (<[n := N]> (Db.nodes (Keys.db k)))))
  | gs_other d : calm (Keys.db k) d → map_Forall2 (λ _, same_place) (Db.nodes (Keys.db k)) (Db.nodes d) → grant_step k (set_db k d)
  | gs_beside k' : Keys.db k' = Keys.db k → Keys.prevEpochs k' = Keys.prevEpochs k → Keys.shareRows k' = Keys.shareRows k → Keys.linkRows k' = Keys.linkRows k → grant_step k k'
  | gs_shares now i k' r : Keys.shareRows k !! CreateShare.shareId i = None → createShare now i k = Ok (k', r) → grant_step k k'
  | gs_reseals now w s granter epoch n k' r : resealShare now w s granter epoch n k = Ok (k', r) → grant_step k k'
  | gs_stops w s k' r : revokeShare w s k = (k', r) → grant_step k k'
  | gs_links now i k' r : createLink now i k = Ok (k', r) → grant_step k k'
  | gs_updates now i k' r : updateLink now i k = Ok (k', r) → grant_step k k'
  | gs_closes w l k' r : revokeLink w l k = (k', r) → grant_step k k'
  | gs_starts now i k' r : startRotationIn now i k = Ok (k', r) → grant_step k k'
  | gs_rotates now i item k' r : rotateNodeIn now i item k = Ok (k', r) → grant_step k k'
  | gs_finishes now w root target seen k' b : finishRotation now w root target seen k = Ok (k', b) → grant_step k k'.
Section runs.
Context `{SB : SignedBy} `{C : Crypto} `{NC : NodeCrypto} `{SK : SigningKeys}.

Lemma step_writes k k' : sealed k → grant_step k k' → (∃ d, k' = set_db k d ∧ quiet (Keys.db k) d ∧ (forest (Db.nodes (Keys.db k)) → forest (Db.nodes d))) ∨ rtc grant_write k k'.
Proof.
  assert (∀ d, quiet (Keys.db k) d → tree_step (Keys.db k) d → ∃ d', set_db k d = set_db k d' ∧ quiet (Keys.db k) d' ∧ (forest (Db.nodes (Keys.db k)) → forest (Db.nodes d'))) as Hq.
  { intros d Hd Ht. exists d. split_and!; [done|done|]. intros Hf. by eapply tree_step_forest. }
  assert (∀ {A} (work : Db.t → result (Db.t * A)), (∀ d' a, work (Keys.db k) = Ok (d', a) → quiet (Keys.db k) d') → quiet (Keys.db k) (transaction work (Keys.db k)).1) as Ht.
  { intros A work H. apply (transaction_keeps (quiet (Keys.db k))); [apply rtc_refl|exact H]. }
  intros Hs [now q|now q|now w count writer|w W Hw|n N Hn Hd Hp Hk Hh|d Hc Hr|k2 E1 E2 E3 E4|now i k2 r Hf H|now w s granter epoch n k2 r H|w s k2 r H|now i k2 r H|now i k2 r H|w l k2 r H|now i k2 r H|now i item k2 r H|now w root target seen k2 b H].
  - left. apply Hq; [apply Ht; intros d' a; apply run_quiet|apply ts_moved_bytes].
  - left. apply Hq; [apply Ht; intros d' a; apply run_tree_quiet|apply ts_shaped].
  - right. apply writes_placed. apply (transaction_keeps (placed (Keys.db k))); [done|]. intros d' a H. apply placed_nodes; [by eapply allocate_calm|].
    unfold allocateKeyEpochs in H. not_refused H E. destruct (Db.workspaces _ !! w); [|by injection H as <- _]. cbv zeta in H. apply bind_ok in H as (? & _ & H). by injection H as <- _.
  - right. apply writes_placed, placed_nodes; [|done]. apply calm_workspaces. intros x X HX. exists X. split; [|done]. rewrite lookup_insert_ne; [done|congruence].
  - left. apply Hq; [by apply rtc_once, hu_node|by apply ts_top].
  - right. by apply writes_placed.
  - right. by apply rtc_once, gw_beside.
  - right. by eapply createShare_writes.
  - right. by eapply resealShare_writes.
  - right. by eapply revokeShare_writes.
  - right. by eapply createLink_writes.
  - right. by eapply updateLink_writes.
  - right. by eapply revokeLink_writes.
  - right. by eapply startRotation_writes.
  - right. by eapply rotateNode_writes.
  - right. by eapply finish_writes.
Qed.
Lemma write_forest k k' : grant_write k k' → forest (Db.nodes (Keys.db k)) → forest (Db.nodes (Keys.db k')).
Proof.
  intros [d [_ Hr]|k2 E1 _ _ _|id S g _|id L g _|w r _|i item rotated n seq metadata versions Hro|w ids] Hf; try done.
  - by eapply forest_rows.
  - by rewrite E1.
  - eapply forest_rows; [exact Hf|]. rewrite rotated_nodes. eapply rows_insert; [exact (ro_node _ _ _ _ _ Hro)|done].
  - eapply forest_rows; [exact Hf|]. intros a. cbn. rewrite map_lookup_imap. destruct (Db.nodes (Keys.db k) !! a) as [A|]; [|constructor]. cbn. constructor. by case_bool_decide.
Qed.
Lemma step_keeps k k' s e : grant_step k k' → sealed k → forest (Db.nodes (Keys.db k)) → sealed k' ∧ forest (Db.nodes (Keys.db k')) ∧ (stopped k s e → stopped k' s e).
Proof.
  intros H Hs Hf. destruct (step_writes k k' Hs H) as [(d & -> & Hq & Hfd)|Hw].
  - split; [by apply quiet_sealed|]. split; [by apply Hfd|]. apply stopped_fewer; [by apply quiet_shares|done].
  - split; [by eapply writes_sealed|]. clear H Hs. induction Hw as [k|k1 k2 k3 H _ IH]; [done|]. destruct (IH (write_forest _ _ H Hf)) as [Hf3 Hs3]. split; [done|]. intros ?. by eapply Hs3, write_stopped.
Qed.
Lemma run_keeps k k' s e : rtc grant_step k k' → sealed k → forest (Db.nodes (Keys.db k)) → sealed k' ∧ forest (Db.nodes (Keys.db k')) ∧ (stopped k s e → stopped k' s e).
Proof.
  induction 1 as [k|k1 k2 k3 H _ IH]; intros Hs Hf; [done|]. destruct (step_keeps _ _ s e H Hs Hf) as (Hs2 & Hf2 & Hp). destruct (IH Hs2 Hf2) as (? & ? & Hp'). split; [done|]. split; [done|]. intros ?. by apply Hp', Hp.
Qed.
End runs.

Definition blank_keys k : Prop := Db.nodes (Keys.db k) = ∅ ∧ Db.shares (Keys.db k) = ∅ ∧ Db.links (Keys.db k) = ∅ ∧ Db.rotations (Keys.db k) = ∅.
Lemma blank_sealed k : blank_keys k → sealed k ∧ forest (Db.nodes (Keys.db k)).
Proof.
  intros (E1 & E2 & E3 & E4). split; [|rewrite E1; apply empty_forest]. constructor; rewrite ?E1, ?E2, ?E3, ?E4; intros *; by rewrite ?lookup_empty.
Qed.
Lemma run_sealed `{SB : SignedBy} `{C : Crypto} `{NC : NodeCrypto} `{SK : SigningKeys} k0 k : blank_keys k0 → rtc grant_step k0 k → sealed k ∧ forest (Db.nodes (Keys.db k)).
Proof. intros [Hs Hf]%blank_sealed H. by destruct (run_keeps _ _ "" 0 H Hs Hf) as (? & ? & _). Qed.

(** A live grant's envelope. *)
Definition share_seals k (s n : string) (epoch : Z) : Prop :=
  ∃ S g, Db.shares (Keys.db k) !! s = Some S ∧ Share.revoked S = false ∧ Share.nodeId S = n ∧ Keys.shareRows k !! s = Some g ∧ ShareRow.keyEpoch g = epoch.
Definition link_seals k (l n : string) (epoch : Z) : Prop :=
  ∃ L g, Db.links (Keys.db k) !! l = Some L ∧ Link.revoked L = false ∧ Link.nodeId L = n ∧ Keys.linkRows k !! l = Some g ∧ LinkRow.keyEpoch g = epoch.

(** Through any run of the server's transactions, uploads, tree changes,
    sharing and rotations alike, every live share and link is sealed under its
    node's key as it is now, that key's epoch is one its workspace has drawn,
    nobody holds two live shares of one node, and a token names one link. *)
Theorem grants_in_step `{SB : SignedBy} `{C : Crypto} `{NC : NodeCrypto} `{SK : SigningKeys} k0 k : blank_keys k0 → rtc grant_step k0 k →
  (∀ n N, Db.nodes (Keys.db k) !! n = Some N →
    (∀ s e, share_seals k s n e → e = Node.keyEpoch N) ∧ (∀ l e, link_seals k l n e → e = Node.keyEpoch N) ∧
    ∃ W, Db.workspaces (Keys.db k) !! Node.workspaceId N = Some W ∧ 1 ≤ Node.keyEpoch N ≤ Workspace.keyEpochSeq W) ∧
  (∀ s S, Db.shares (Keys.db k) !! s = Some S → is_Some (Db.nodes (Keys.db k) !! Share.nodeId S)) ∧
  (∀ s s' n e e' S S', share_seals k s n e → share_seals k s' n e' → Db.shares (Keys.db k) !! s = Some S → Db.shares (Keys.db k) !! s' = Some S' →
    Share.granteeUserId S = Share.granteeUserId S' → s = s') ∧
  (∀ token l g L l' g', link_of k token = Some (l, g, L) → Keys.linkRows k !! l' = Some g' → is_Some (Db.links (Keys.db k) !! l') → LinkRow.tokenHash g' = token → l' = l).
Proof.
  intros Hb H. destruct (run_sealed _ _ Hb H) as [[H1 _ H4 H5 H6 H7] _]. split; [|split; [|split]].
  - intros n N HN. destruct (H1 n N HN) as (He & (W & HW & Hd) & _). split; [|split; [|by exists W]].
    + intros s e (S & g & HS & Hr & <- & Hg & <-). destruct (H4 s S HS) as (g' & Hg' & N' & HN' & _ & _ & Hl). assert (g' = g) as -> by congruence. rewrite Hl by done. congruence.
    + intros l e (L & g & HL & Hr & <- & Hg & <-). destruct (H5 l L HL) as (g' & Hg' & N' & HN' & _ & _ & Hl). assert (g' = g) as -> by congruence. rewrite Hl by done. congruence.
  - intros s S HS. destruct (H4 s S HS) as (g & _ & N & HN & _). eauto.
  - intros s s' n e e' S S' (X & g & HX & Hr & En & _) (X' & g' & HX' & Hr' & En' & _) HS HS' Eg. apply (H6 s s' S S'); congruence.
  - intros token l g L l' g' (HL & Hg & Et)%link_of_some Hg' [L' HL'] Et'. apply (H7 l' l L' L g' g); congruence.
Qed.

(** ** A rotation shuts out *)

Lemma carried_drawn k w : sealed k → (∃ n N, Db.nodes (Keys.db k) !! n = Some N ∧ Node.workspaceId N = w) → ∀ W, Db.workspaces (Keys.db k) !! w = Some W → carried_epoch k w ≤ Workspace.keyEpochSeq W.
Proof.
  intros Hs (n & N & HN & Ew) W HW. assert (0 ≤ Workspace.keyEpochSeq W) as H0.
  { destruct (se_nodes _ Hs n N HN) as (H1 & (W' & HW' & H2) & _). assert (W' = W) as -> by congruence. lia. }
  assert (∀ x X, (x, X) ∈ map_to_list (Db.nodes (Keys.db k)) → Node.workspaceId X = w → Z.max (Node.keyEpoch X) (previous_epoch k x X) ≤ Workspace.keyEpochSeq W) as Hall.
  { intros x X Hin%elem_of_map_to_list Ex. destruct (se_nodes _ Hs x X Hin) as (_ & (W1 & HW1 & H1) & Hp). assert (W1 = W) as -> by congruence. unfold previous_epoch. destruct (Node.reached X); [|lia].
    destruct (Keys.prevEpochs k !! x) as [[e e']|] eqn:Ep; [|lia]. destruct (Hp eq_refl _ eq_refl) as (W2 & HW2 & H2). assert (W2 = W) as -> by congruence. cbn in H2. lia. }
  unfold carried_epoch. induction (map_to_list _) as [|[x X] l IH]; [done|]. cbn [foldr fst snd]. assert (foldr _ _ l ≤ _) as IH' by (apply IH; intros y Y Hin; apply Hall; by right).
  case_bool_decide as Ex; [|exact IH']. specialize (Hall x X ltac:(by left) Ex). lia.
Qed.

(** C15. On any run of the server's transactions begun without nodes, a
    rotation starts only where none runs, at an epoch the workspace has drawn,
    above every epoch one of its nodes carries or carried before a rotation
    reached it; so its list begins with every live node under its root, the
    root included, within the 64 levels the queries look at: every folder, and
    every file but one 65 below ([deeper_never_listed]). *)
Theorem rotation_starts `{SB : SignedBy} `{C : Crypto} `{NC : NodeCrypto} `{SK : SigningKeys} k0 k now (i : StartRotation.t) k' r :
  blank_keys k0 → rtc grant_step k0 k → startRotationIn now i k = Ok (k', started r) →
  let w := StartRotation.workspaceId i in
  Rotation.nodeId r = StartRotation.nodeId i ∧ Db.rotations (Keys.db k) !! w = None ∧ Db.rotations (Keys.db k') !! w = Some r ∧
  (∃ W, Db.workspaces (Keys.db k') !! w = Some W ∧ Rotation.targetEpoch r ≤ Workspace.keyEpochSeq W) ∧ carried_epoch k' w < Rotation.targetEpoch r ∧
  ∀ n c N, below (Db.nodes (Keys.db k')) n (StartRotation.nodeId i) c → Db.nodes (Keys.db k') !! c = Some N → (n ≤ SUBTREE_LEVELS)%nat ∨ Node.kind N = folder →
    (c, Z.of_nat n) ∈ listRotationWork (Keys.db k') w (StartRotation.nodeId i) (Rotation.targetEpoch r).
Proof.
  intros Hb H Hstart w. destruct (run_sealed _ _ Hb H) as [Hs Hf]. destruct (started_inv _ _ _ _ _ Hstart) as (R & HR & Ew & Ep & Er & Hn & Hr & En & HW & Ec & Hc). fold w in Ew, Hn, Hr, HW, Ec, Hc.
  assert (carried_epoch k w < Rotation.targetEpoch r) as Habove by (apply Hc, carried_drawn; eauto). split_and!; try done; [lia|]. intros n c N Hbelow HN Hd. rewrite <-En in HR, Hf.
  assert (n ≤ SUBTREE_LEVELS)%nat as Hlev by (destruct Hd as [|Hk]; [done|exact (folder_levels _ _ _ _ _ _ Hf HR Hbelow HN Hk)]). apply (start_lists k' w _ _ R); try done. lia.
Qed.

(** Who lost a share before a rotation began is left with nothing that
    opens what the rotation re-keyed: started on a run and finished on it, the
    rotation leaves every node it can reach under a key of a later epoch than
    any envelope a share of the workspace had when it started; the share that
    was stopped then stays stopped with that envelope, and only grants still
    live are sealed under the new keys. *)
Theorem rotation_shuts_out `{SB : SignedBy} `{C : Crypto} `{NC : NodeCrypto} `{SK : SigningKeys} k0 k k1 k2 k3 now now' (i : StartRotation.t) r R :
  blank_keys k0 → rtc grant_step k0 k → startRotationIn now i k = Ok (k1, started r) → rtc grant_step k1 k2 →
  finishRotation now' (StartRotation.workspaceId i) (StartRotation.nodeId i) (Rotation.targetEpoch r) (Keys.db k2) k2 = Ok (k3, true) →
  Db.nodes (Keys.db k2) !! StartRotation.nodeId i = Some R → Node.workspaceId R = StartRotation.workspaceId i → Node.purgedAt R = None →
  ∀ n c, below (Db.nodes (Keys.db k2)) n (StartRotation.nodeId i) c → (n ≤ SUBTREE_LEVELS)%nat → ∃ N, Db.nodes (Keys.db k2) !! c = Some N ∧
    (∀ s S g, Db.shares (Keys.db k) !! s = Some S → Share.workspaceId S = StartRotation.workspaceId i → Keys.shareRows k !! s = Some g →
      ShareRow.keyEpoch g < Node.keyEpoch N ∧ (Share.revoked S = true → stopped k2 s (ShareRow.keyEpoch g))) ∧
    (∀ s e, share_seals k2 s c e → e = Node.keyEpoch N) ∧ ∀ l e, link_seals k2 l c e → e = Node.keyEpoch N.
Proof.
  intros Hb H Hstart Hrun Hfin HR Ew Ep n c Hbelow Hn. destruct (run_sealed _ _ Hb H) as [Hs Hf]. assert (rtc grant_step k k2) as Hrun2 by (eapply rtc_l; [by eapply gs_starts|exact Hrun]).
  destruct (run_keeps _ _ "" 0 Hrun2 Hs Hf) as (Hs2 & Hf2 & _). destruct (started_inv _ _ _ _ _ Hstart) as (R0 & HR0 & Ew0 & _ & _ & _ & _ & _ & _ & _ & Habove). specialize (Habove (carried_drawn k _ Hs ltac:(exists (StartRotation.nodeId i), R0; by split))).
  assert (∃ N, Db.nodes (Keys.db k2) !! c = Some N ∧ Rotation.targetEpoch r ≤ Node.keyEpoch N) as (N & HN & Ht) by (destruct (emptied (Keys.db k2) _ _ _ R n c Hf2 (finish_emptied _ _ _ _ _ _ _ Hfin) HR Ew Ep Hbelow Hn) as (N & ? & ? & _); eauto).
  exists N. split; [done|]. split; [|split].
  - intros s S g HS EwS Hg. destruct (se_shares _ Hs s S HS) as (g' & Hg' & NS & HNS & EN & He & _). assert (g' = g) as -> by congruence. split.
    + pose proof (carried_node k _ _ _ HNS (eq_trans (eq_sym EN) EwS)). lia.
    + intros Hr. destruct (run_keeps _ _ s (ShareRow.keyEpoch g) Hrun2 Hs Hf) as (_ & _ & Hst). apply Hst. split; [by rewrite Hg|]. intros X HX. congruence.
  - intros s e (S & g & HS & Hr & <- & Hg & <-). destruct (se_shares _ Hs2 s S HS) as (g' & Hg' & N' & HN' & _ & _ & Hl). assert (g' = g) as -> by congruence. rewrite Hl by done. congruence.
  - intros l e (L & g & HL & Hr & <- & Hg & <-). destruct (se_links _ Hs2 l L HL) as (g' & Hg' & N' & HN' & _ & _ & Hl). assert (g' = g) as -> by congruence. rewrite Hl by done. congruence.
Qed.

(** A folder made with another in it, shared, the share stopped, and both re-keyed. *)
Module GrantToy.
#[local] Existing Instance TreeToy.signed.
Definition blank : Keys.t := Keys.Build_t TreeToy.none ∅ ∅ ∅ ∅ [] ∅ ∅ ∅ ∅.
Definition top : Keys.t := set_db blank TreeToy.top.
Definition made : Keys.t := set_db top (transaction (run_tree 5 TreeToy.makes_three) TreeToy.top).1.
Definition kept {A} (r : result (Keys.t * A)) : Keys.t := match r with Ok (k, _) => k | Err _ => blank end.
Definition share : CreateShare.t := CreateShare.Build_t "s" "w" "a" "a" "b" viewer 2 SHARE_ENVELOPE_BYTES.
Definition shared : Keys.t := kept (createShare 6 share made).
Definition stopped : Keys.t := (revokeShare "w" "s" shared).1.
Definition start : StartRotation.t := StartRotation.Build_t "w" "a" (Some "a") None false.
Definition begun := startRotationIn 7 start stopped.
Definition input : RotationInput.t := RotationInput.Build_t "w" "a" 6 "a" false.
Definition item (k : Keys.t) (id : string) (parentKeyEpoch : Z) : RotatedNodeInput.t :=
  RotatedNodeInput.Build_t id (default 0 (Db.nodes (Keys.db k) !! id ≫= Node.changeSeq)) parentKeyEpoch
    (Some (RotatedRecords.Build_t "sealed" (RotatedRecordSignatures.Build_t (Some (fill 64 "g")) None false) [] [] [] [])).
Definition re_key (k : Keys.t) (id : string) (parentKeyEpoch : Z) :=
  rotateNodeIn (C := Toy.crypto) (NC := RotationToy.node_crypto) (SK := RotationToy.keys) 8 input (item k id parentKeyEpoch) k.
Definition rotated_a : Keys.t := kept (re_key (kept begun) "a" 1).
Definition rotated : Keys.t := kept (re_key rotated_a "b" 6).
Definition finished := finishRotation 9 "w" "a" 6 (Keys.db rotated) rotated.
End GrantToy.
#[local] Existing Instances TreeToy.signed Toy.crypto RotationToy.node_crypto RotationToy.keys.
Abbreviation toy_step := (grant_step (SB := TreeToy.signed) (C := Toy.crypto) (NC := RotationToy.node_crypto) (SK := RotationToy.keys)).
Lemma toy_blank_keys : blank_keys GrantToy.blank.
Proof. by split_and!. Qed.
Lemma kept_ok {A} (r : result (Keys.t * A)) : is_ok r = true → ∃ a, r = Ok (GrantToy.kept r, a).
Proof. destruct r as [[k a]|]; [by exists a|done]. Qed.
Lemma toy_made_run : rtc toy_step GrantToy.blank GrantToy.made.
Proof.
  apply (rtc_l _ _ GrantToy.top).
  - apply (gs_top (SB := TreeToy.signed) (C := Toy.crypto) (NC := RotationToy.node_crypto) (SK := RotationToy.keys) GrantToy.blank "r" DriveToy.root); try reflexivity. split; reflexivity.
  - apply rtc_once. exact (gs_shape (SB := TreeToy.signed) (C := Toy.crypto) (NC := RotationToy.node_crypto) (SK := RotationToy.keys) GrantToy.top 5 TreeToy.makes_three).
Qed.
Lemma toy_shared_run : rtc toy_step GrantToy.blank GrantToy.shared.
Proof.
  eapply rtc_r; [exact toy_made_run|]. destruct (kept_ok (createShare 6 GrantToy.share GrantToy.made)) as [a Ha]; [vm_compute; reflexivity|].
  exact (gs_shares (SB := TreeToy.signed) GrantToy.made 6 GrantToy.share _ a ltac:(vm_compute; reflexivity) Ha).
Qed.
Lemma toy_stopped_run : rtc toy_step GrantToy.blank GrantToy.stopped.
Proof. eapply rtc_r; [exact toy_shared_run|]. exact (gs_stops (SB := TreeToy.signed) GrantToy.shared "w" "s" _ (revokeShare "w" "s" GrantToy.shared).2 (surjective_pairing _)). Qed.
Lemma grants_in_step_witness : (∃ g, Keys.shareRows GrantToy.shared !! "s" = Some g) ∧ ∀ N, Db.nodes (Keys.db GrantToy.shared) !! "a" = Some N → ∀ e, share_seals GrantToy.shared "s" "a" e → e = Node.keyEpoch N.
Proof.
  split; [eexists; vm_compute; reflexivity|].
  destruct (grants_in_step (SB := TreeToy.signed) (C := Toy.crypto) (NC := RotationToy.node_crypto) (SK := RotationToy.keys) _ _ toy_blank_keys toy_shared_run) as (Hn & _).
  intros N HN. exact (proj1 (Hn "a" N HN) "s").
Defined.
Lemma toy_started : ∃ r, GrantToy.begun = Ok (GrantToy.kept GrantToy.begun, started r) ∧ Rotation.targetEpoch r = 6.
Proof. eexists (Rotation.Build_t "a" 6). split; [vm_compute; reflexivity|reflexivity]. Qed.
Lemma rotation_starts_witness : ∃ k' r, GrantToy.begun = Ok (k', started r) ∧ Rotation.targetEpoch r = 6 ∧ ("b", 1) ∈ listRotationWork (Keys.db k') "w" "a" (Rotation.targetEpoch r).
Proof.
  destruct toy_started as (r & E & Er). exists (GrantToy.kept GrantToy.begun), r. split; [exact E|]. split; [exact Er|].
  destruct (rotation_starts (SB := TreeToy.signed) (C := Toy.crypto) (NC := RotationToy.node_crypto) (SK := RotationToy.keys) _ _ 7 GrantToy.start _ r toy_blank_keys toy_stopped_run E) as (_ & _ & _ & _ & _ & H).
  destruct (Db.nodes (Keys.db (GrantToy.kept GrantToy.begun)) !! "b") as [N|] eqn:HN; [|vm_compute in HN; discriminate HN].
  apply (H 1%nat "b" N); [|exact HN|left; clear; unfold SUBTREE_LEVELS; lia]. apply (below_child _ 0 "a" "b" "b"); [|constructor]. exists N. split; [exact HN|]. vm_compute in HN. injection HN as <-. split; reflexivity.
Defined.
Lemma rotation_shuts_out_witness : ∃ N g, Db.nodes (Keys.db GrantToy.rotated) !! "b" = Some N ∧ Keys.shareRows GrantToy.stopped !! "s" = Some g ∧ ShareRow.keyEpoch g < Node.keyEpoch N ∧ stopped GrantToy.rotated "s" (ShareRow.keyEpoch g).
Proof.
  destruct toy_started as (r & E & Er). destruct (kept_ok GrantToy.finished) as [b Hb]; [vm_compute; reflexivity|].
  assert (b = true) as -> by (vm_compute in Hb; injection Hb as <-; reflexivity).
  assert (rtc toy_step (GrantToy.kept GrantToy.begun) GrantToy.rotated) as Hrun.
  { apply (rtc_l _ _ GrantToy.rotated_a).
    - destruct (kept_ok (GrantToy.re_key (GrantToy.kept GrantToy.begun) "a" 1)) as [x Hx]; [vm_compute; reflexivity|]. exact (gs_rotates (SB := TreeToy.signed) _ 8 GrantToy.input _ _ x Hx).
    - apply rtc_once. destruct (kept_ok (GrantToy.re_key GrantToy.rotated_a "b" 6)) as [x Hx]; [vm_compute; reflexivity|]. exact (gs_rotates (SB := TreeToy.signed) _ 8 GrantToy.input _ _ x Hx). }
  destruct (Db.nodes (Keys.db GrantToy.rotated) !! "a") as [R|] eqn:HR; [|vm_compute in HR; discriminate HR].
  destruct (Db.nodes (Keys.db GrantToy.rotated) !! "b") as [B|] eqn:HB; [|vm_compute in HB; discriminate HB].
  unfold GrantToy.finished in Hb. rewrite <-Er in Hb.
  destruct (rotation_shuts_out (SB := TreeToy.signed) (C := Toy.crypto) (NC := RotationToy.node_crypto) (SK := RotationToy.keys) _ _ _ _ _ 7 9 GrantToy.start r R toy_blank_keys toy_stopped_run E Hrun Hb HR) with (n := 1%nat) (c := "b") as (N & HN & Hs & _).
  - vm_compute in HR. injection HR as <-. reflexivity.
  - vm_compute in HR. injection HR as <-. reflexivity.
  - apply (below_child _ 0 "a" "b" "b"); [|constructor]. exists B. split; [exact HB|]. vm_compute in HB. injection HB as <-. split; reflexivity.
  - clear. unfold SUBTREE_LEVELS. lia.
  - destruct (Db.shares (Keys.db GrantToy.stopped) !! "s") as [S|] eqn:HS; [|vm_compute in HS; discriminate HS]. destruct (Keys.shareRows GrantToy.stopped !! "s") as [g|] eqn:Hg; [|vm_compute in Hg; discriminate Hg].
    destruct (Hs "s" S g HS) as (Hlt & Hst); [vm_compute in HS; injection HS as <-; reflexivity|exact Hg|]. exists N, g. split; [rewrite <-HB; exact HN|]. split; [reflexivity|]. split; [exact Hlt|]. apply Hst. vm_compute in HS. injection HS as <-. reflexivity.
Defined.
